(* ===== verification/_CoqProject ===== *)
-Q . S2P
Prelude.v
Utils.v
TrapTypes.v
Alu.v
Ram.v
Cache.v
CsrTable.v
Csr.v
PageTable.v
Mmio.v
Device.v
Plic.v
PlicSpec.v
Uart.v
UartSpec.v
Power.v
Clock.v
Clint.v
ClintSpec.v
Vm.v
Instr.v
Cpu.v
Trap.v
Exec.v
Invariant.v
Precise.v
ExecSpec.v
Decoder.v
DecoderSpec.v
DecoderTable.v
Executor.v
ExecutorSpec.v
HartSpec.v
Board.v
BoardMap.v
BoardSpec.v
SampleTimer.v
Vector.v
VectorInt.v
VectorArith.v
VectorFix.v
VectorExec.v
VectorMap.v
VectorSpec.v
VectorHart.v
VectorAluSpec.v
VectorMaskSpec.v
VectorWideSpec.v
VectorFixSpec.v
VectorMemSpec.v
VectorStoreSpec.v
VectorPermSpec.v
VectorKeep.v
VectorUnit.v
VirtQueue.v
VirtQueueSpec.v
VirtMmio.v
VirtBlock.v
VirtBlockSpec.v
VirtBlockIo.v
VirtMmioSpec.v
IsaBuilder.v
Spi.v
SpiFlash.v
SpiStore.v
SpiFlashSpec.v
SpiSpec.v
SpiSystem.v
Debugger.v
DebuggerSpec.v
DebuggerRun.v
Float.v
FloatExec.v
FloatSpec.v
FloatInstr.v
FloatUnit.v
FloatDemo.v
FullHart.v
Rvdb.v
RvdbSpec.v
