(* ===== verification/Prelude.v ===== *)
(** * HERE, a RISC-V emulator: verification development

    HERE (src/) emulates a 64-bit RISC-V machine: an interpreter for RV64GC and
    the vector extension with machine, supervisor and user mode, paged virtual
    memory, the devices of a "virt" board, and a debugger.  This library
    translates the emulator, function by function, into executable definitions
    and proves what makes it correct.

    ** The program and its model

    A hart (isa/riscv/executor.rs) fetches through the MMU
    (isa/riscv/mmu/), decodes through an instruction cache (isa/cache.rs,
    isa/riscv/decoder/), executes (isa/riscv/instruction/) on its registers
    (cpu/reg_file.rs) and CSRs (isa/riscv/csr_reg/), and takes traps
    (isa/riscv/trap/).  Physical accesses go to RAM (ram.rs) or, below it, to a
    map of device windows (device/mmio.rs).  The PLIC (device/plic/) and the
    CLINT (device/aclint.rs) with the timer (clock.rs) drive the interrupt
    lines of the hart; the board (board/) alternates timer ticks, line
    updates and batches of instructions.  The hart's floating-point (fpu/) and
    vector (isa/riscv/vector/) units execute the instructions of their
    extensions.  Disks hang off VirtIO queues (device/virtio/), a flash chip off
    the SPI controller (device/spi/).  The debugger (isa/riscv/debugger.rs) runs
    the board under a hook.

    Effects are explicit: [M S E A] is a state transformer that returns
    [Ok], [Err] (Rust's [Result]) or [Panic] (a panic, a failed assertion, an
    [unreachable!]), and code that borrows a field runs through [zoom].  Machine
    integers are [Z] with their width written out ([wrap], [shl], [bnot], ...);
    [Profile] says whether overflow checks and debug assertions are on, and the
    theorems hold in every profile unless they name one.

    - [Prelude]: outcomes, machine integers, the trait [UnsignedInteger], bit
      lemmas, tactics, hint databases.
    - [Utils]: utils.rs (sign extension, bit fields, alignment), config.rs.
    - [TrapTypes]: causes of traps and memory errors (trap/mod.rs, device/mod.rs).
    - [Alu]: the arithmetic of exec_function.rs against integer arithmetic.
    - [Ram]: bytes, image loading, LR/SC reservations (ram.rs).
    - [Cache]: the cache policies of isa/cache.rs behind the class
      [CachePolicy] with its laws [LawfulCache].
    - [CsrTable], [Csr]: the registers and fields of csr_reg/csr_macro.rs, and
      their validators, shadows and privilege rules (csr_reg/).
    - [PageTable], [Vm]: Sv39/48/57 walks, TLB and permissions
      (mmu/page_table/), access policies, loads, stores, LR/SC, AMO (mmu/).
    - [Mmio], [Device]: device windows behind the class [DeviceTrait]; width
      dispatch, interrupt lines ([RiscvIRQHandler]) and sampled levels
      ([PlicDevice]).
    - [Plic], [PlicSpec]; [Clock]; [Clint], [ClintSpec]: the interrupt
      controllers and the timer.  Their theorems are proved against the
      classes [StableDevice] and [LawfulHandler], which [UartSpec],
      [SampleTimer] and [BoardSpec] discharge for the UART, the sample timer
      and the hart.
    - [Uart], [UartSpec]: the 16550A UART (device/uart16550a/) and the
      terminal it refines.
    - [Power]: power manager and id allocator; [SampleTimer]: the sample timer
      and its concurrent task, as a step relation.
    - [VirtQueue], [VirtQueueSpec]: VirtIO queues (device/virtio/);
      [VirtMmio], [VirtMmioSpec]: the MMIO transport, over the class
      [VirtIODeviceTrait]; [VirtBlock], [VirtBlockSpec], [VirtBlockIo]: the
      block device, its request queue and its worker, as steps on a shared
      state, over a backing file [HostFile].
    - [Instr], [Cpu], [Trap], [Exec]: operands, hart state, trap controller and
      the instructions of exec_mapping.rs.
    - [Invariant], [Precise], [ExecSpec]: the invariant of the hart, precise
      exceptions, and what the instructions compute.
    - [Decoder], [DecoderSpec], [DecoderTable]: operand extraction and the
      decoder tables.
    - [Executor], [ExecutorSpec], [HartSpec]: the interpreter loop, its
      invariant, delivery of exceptions, reset.
    - [Vector]: register groups, element iterators, masks and memory accesses
      of the vector unit (isa/riscv/vector/mod.rs, types.rs,
      cpu/vector_reg_file.rs); [VectorInt], [VectorFix]: its integer and
      fixed-point operations (vector/arithmetic/integer_impl.rs,
      fix_point_impl.rs); [VectorArith]: the drivers that run them on register
      groups (vector/arithmetic/mod.rs); [VectorExec], [VectorMap]: the
      instructions (instruction/exec_vector_function.rs) and their arms in
      exec_mapping.rs.
    - [VectorSpec], [VectorHart]: elements, groups and retirement, shared by the
      theorems about vector instructions; [VectorAluSpec], [VectorMaskSpec],
      [VectorWideSpec], [VectorFixSpec], [VectorPermSpec]: integer arithmetic,
      comparisons, widening arithmetic, fixed-point arithmetic, permutations;
      [VectorMemSpec], [VectorStoreSpec]: loads and stores.
    - [VectorKeep], [VectorUnit]: what the vector unit keeps, and the hart's
      interface to its extension units ([LawfulExt], [SettlingExt]) discharged
      for it.
    - [Float]: [f32] and [f64] on bits (utils.rs), and the registers and
      operations of the floating-point unit (fpu/); [FloatExec]: the
      instructions of the F and D extensions
      (instruction/exec_float_function.rs).
    - [FloatSpec], [FloatInstr]: NaN boxing, classes and order on
      bits, retirement, and what each instruction computes; [FloatUnit]: the
      interface to the hart discharged for the unit; [FloatDemo]: a concrete
      soft-float library that satisfies the laws asked of it.
    - [FullHart]: the hart with both units, where every arm of exec_mapping.rs
      is modelled.
    - [Board], [BoardMap], [BoardSpec]: the virt board, its memory map and its
      batches.
    - [IsaBuilder]: ISA strings, misa bits and table selection.
    - [Spi], [SpiSpec]: the SPI controller (device/spi/spi_sifive.rs) over the
      class [SpiSlaveDevice]; [SpiFlash]: the NOR flash chip (w25q512.rs);
      [SpiStore], [SpiFlashSpec]: the abstract chip, storage in the backing
      file, and the refinement; [SpiSystem]: controller and chip
      together.
    - [Debugger], [DebuggerSpec]: breakpoints, history, function trace and
      inspection (isa/riscv/debugger.rs); [DebuggerRun]: the
      execution hook and the run commands on the hart and on the board.
    - [Rvdb], [RvdbSpec]: the command line of the debugger (rvdb/): operands,
      commands, watch list, scripts and the cancellable run.

    ** What the theorems show

    - The hart: every batch that does not panic keeps the type invariant and
      counts its cycles ([batch_keeps_hart], [batch_is_iterated_cycles], and
      with the units of the hart [full_batch_keeps_hart]; what can panic is
      said there); instructions compute
      the architectural functions ([alu_instr_correct], [branch_correct],
      [jump_correct], [store_load_roundtrip], [amo_correct]); exceptions are
      precise and reach the right handler with the right cause, value and
      level, the panic on a reserved [tvec] mode included
      ([exceptions_are_precise], [exceptions_reach_handler],
      [take_exception_correct], [try_take_interrupt_correct],
      [trap_return_correct], [trap_return_roundtrip]).
    - Memory: the page walk refines the architectural translation
      ([translate_vaddr_correct]), access policies are the architectural ones,
      RAM is little-endian storage with LR/SC reservations
      ([ram_read_after_write], [store_conditional_trace]), device accesses
      reach the right window ([mmio_dispatch]).
    - Decoding: the three lookup tables agree with a search of the instruction
      list ([decode_is_table_search]) and operands round-trip
      ([operands_roundtrip]).
    - CSRs: privilege and read-only rules ([csr_access_rules]), confinement of
      the supervisor view ([sstatus_write_confined]).
    - The vector unit: an arithmetic, comparison, fixed-point or permutation
      instruction writes to each element of its destination what the vector
      extension defines, under vstart and the code's mask and tail policies
      (its agnostic elements become zero), and to no other register ([vector_alu_correct], [vector_compare_correct],
      [fixed_point_correct], [vector_permute_correct],
      [vector_compress_correct]); widening results are exact
      ([vector_widening_exact]); misplaced groups trap ([vector_alu_traps]);
      a load that faults restarts where it stopped
      ([vector_load_restartable]); a store followed by a load gives the
      elements back ([vector_store_load_roundtrip]); every instruction keeps
      the invariant of the hart ([vector_instructions_keep_hart]).  The
      instructions that compute something else are lemmas of their own
      ([vmsgt_is_less_than], [vwmaccsu_swaps_signs],
      [vxsat_from_inactive_elements]).
    - The floating-point unit: registers are NaN-boxed ([nan_boxing]); arithmetic
      applies the library's rounded operation in the instruction's mode, when
      that is not a reserved one, and canonicalises NaNs ([float_arith_correct]); sign injection, minimum and
      maximum, comparison and classification are those of the extension on
      bits ([float_select_correct], [float_compare_correct]); every instruction
      keeps the invariant of the hart ([float_instructions_keep_hart]).  What
      differs from the extension is a lemma or an example of its own
      ([dynamic_frm_never_returns], the end of [FloatDemo]).
    - SPI: the chip behind its serial protocol is an array of cells that programs
      clear and erases set ([flash_session_refines]), changed only when the
      write-enable latch is set ([latch_guards_chip]); the controller passes
      bytes unchanged ([controller_is_transparent]), and what a driver stores
      through it is what it loads, when the calls on the backing file succeed
      ([flash_store_load]).
    - The debugger: a batch under the debugger executes what an undebugged one
      does, up to the first breakpoint, and records it
      ([debugged_batch_correct]); continuing runs the board in batches, records
      the cycles of that run, and stops at the breakpoint, at power-off or
      after the steps asked for ([continue_until_step_correct], proved against
      the class [LawfulBoard]); inspection
      does not change the machine ([inspection_is_harmless]), nor do the
      commands that look at it ([looking_is_harmless]); the function trace
      pairs calls and returns ([ftrace_is_exact]); a displayed item is printed
      at every stop as [print] would print it ([displayed_items_are_printed]);
      scripts run line by line ([scripts_compose]) and a run cut into chunks
      counts every step ([chunked_run_correct]).
    - VirtIO: a queue never touches host memory outside guest RAM
      ([queue_stays_in_ram]) and serves requests and completions in ring order
      ([requests_in_order], [completions_in_order]); the block device behind
      its registers and its worker stay inside guest memory and do not panic,
      unless the guest resizes an enabled queue ([block_device_safe],
      [resize_escapes_guest_memory]), and what a write request that reports
      success stored is what a read request that reports success returns
      ([disk_round_trip]).
    - Devices: the PLIC's claim/complete protocol and its invariant, the timer
      interrupt against mtime and mtimecmp, the UART as a refinement of a
      terminal with lossless streams, the sample timer, which under every
      interleaving loses no interrupt ([timer_eventually_fires]).
    - The board: the built machine satisfies the invariants, its windows do not
      overlap, every batch starts with up-to-date interrupt pins, and the run
      loop executes exactly the cycles asked for.

    ** Fuel and bounds

    Loops of the source are structural recursion over the data they traverse
    (levels of a page walk, cycles of a batch, bytes of an access).  Where
    they are not, a fuel argument bounds them and a theorem shows that it
    suffices: [run_loop] needs one unit per batch of 1024 cycles
    ([run_cycles_exact]); [insert_fuel] needs three, the longest dependency
    chain ([insert_fuel_enough]); draining a queue needs one per byte
    ([drain_law]); walking a descriptor chain needs one per descriptor,
    which is bounded unless an indirect table holds indirect descriptors
    ([queue_stays_in_ram], [nested_indirect_never_ends]); the iterator over a register group needs one unit
    per byte of the group ([iter_spec]); filling a range of the flash file needs
    one per block of 16384 bytes and two more ([fill_loop_run]); looking up a
    rounding mode needs two calls, since a dynamic one leads to the mode in fcsr
    ([rm_to_round_run]); the chunked run needs a round per 100000 steps
    ([chunked_run_correct]).

    ** Parameters

    Code outside src/ is a parameter with the behaviour the source relies on:
    the instruction tables the build generates ([Decoder.from_isa]'s list,
    [IsaBuilder.Tables]), [sort_unstable_by_key] ([SortUnstable]), the channels
    of the async runtime ([Channel], [LawfulChannel]), the file behind a disk
    ([HostFile], [HostFileLaws]) and behind the flash chip ([StdFile] with its
    laws), the library rustc_apfloat ([SoftFloat], [ApStatus], [FloatConvert]
    with [SoftFloatLaws]), and the grammar of the debugger's lines, which is the
    library clap.  Extension instructions are reached
    through the class [ExtUnit], whose instance is [FullHart.full_unit]; which
    numbers the build gives to the instructions is a parameter.

    ** Not modelled

    The printer and the terminals of the debugger (rvdb/printer.rs,
    native_repl.rs, sync_repl.rs) and its remote protocol (gdb/), which are text
    and host I/O over third-party libraries; ELF loading (load.rs, over a
    third-party parser); program entry, logging, host byte I/O and the wasm
    interface, which are host I/O. *)

From stdpp Require Export base gmap strings list fin_maps numbers option.
From Stdlib Require Export ZArith Lia.

#[global] Open Scope Z_scope.

(** ** Outcomes of Rust code

    [Res E A] is Rust's [Result<A, E>] with a third outcome: [Panic] stands
    for [panic!], a failed [assert!], [unreachable!], an [unwrap] of [None],
    an index out of range, and for [unreachable_unchecked] (undefined
    behaviour in release builds). *)
Inductive Res (E A : Type) : Type :=
| Ok (a : A)
| Err (e : E)
| Panic.
Arguments Ok {E A} a.
Arguments Err {E A} e.
Arguments Panic {E A}.

(** Code with [&mut self]: a state transformer that may fail or panic.  As in
    Rust, the state an [Err] leaves behind is visible to the caller. *)
Definition M (S E A : Type) : Type := S -> Res E A * S.

Definition ret {S E A} (a : A) : M S E A := fun s => (Ok a, s).
Definition err {S E A} (e : E) : M S E A := fun s => (Err e, s).
Definition panic {S E A} : M S E A := fun s => (Panic, s).

Definition bind {S E A B} (m : M S E A) (k : A -> M S E B) : M S E B :=
  fun s => match m s with
           | (Ok a, s') => k a s'
           | (Err e, s') => (Err e, s')
           | (Panic, s') => (Panic, s')
           end.

Definition gets {S E A} (f : S -> A) : M S E A := fun s => (Ok (f s), s).
Definition modify {S E} (f : S -> S) : M S E unit := fun s => (Ok tt, f s).
Definition lift_res {S E A} (r : Res E A) : M S E A := fun s => (r, s).

(** [None] is an [unwrap] that panics. *)
Definition unwrap {S E A} (o : option A) : M S E A :=
  fun s => match o with Some a => (Ok a, s) | None => (Panic, s) end.

Definition map_err {S E E' A} (f : E -> E') (m : M S E A) : M S E' A :=
  fun s => match m s with
           | (Ok a, s') => (Ok a, s')
           | (Err e, s') => (Err (f e), s')
           | (Panic, s') => (Panic, s')
           end.

(** Code that cannot fail, where an error could be raised. *)
Definition never {E} (e : Empty_set) : E := match e with end.

(** Run code that borrows a field of the state. *)
Definition zoom {S T E A} (get : S -> T) (put : S -> T -> S) (m : M T E A) : M S E A :=
  fun s => let '(r, t) := m (get s) in (r, put s t).

Definition assert {S E} (b : bool) : M S E unit := if b then ret tt else panic.

Declare Scope rust_scope.
Delimit Scope rust_scope with rust.
Notation "x <- m ;; k" := (bind m (fun x => k))
  (at level 100, m at next level, right associativity) : rust_scope.
Notation "m ;;; k" := (bind m (fun _ => k))
  (at level 100, right associativity) : rust_scope.
#[global] Open Scope rust_scope.

(** Outcome predicates used in statements. *)
Definition no_panic {E A} (r : Res E A) : Prop :=
  match r with Panic => False | _ => True end.

Definition res_map {E A B} (f : A -> B) (r : Res E A) : Res E B :=
  match r with Ok a => Ok (f a) | Err e => Err e | Panic => Panic end.

#[global] Instance Res_eq_dec {E A} `{EqDecision E} `{EqDecision A} : EqDecision (Res E A).
Proof. solve_decision. Defined.

(** ** Build profile

    [debug_assertions] and [overflow_checks] are on in the dev profile and off
    in the release profile; the theorems hold for every combination. *)
Class Profile : Type := {
  debug_assertions : bool;
  overflow_checks : bool
}.

Definition release : Profile := {| debug_assertions := false; overflow_checks := false |}.
Definition dev : Profile := {| debug_assertions := true; overflow_checks := true |}.

(** ** Machine integers

    A [w]-bit unsigned integer is a [Z] between [0] and [2^w - 1]. *)
Definition wrap (w z : Z) : Z := z mod 2 ^ w.
Definition uint (w z : Z) : Prop := 0 <= z < 2 ^ w.
Definition to_signed (w z : Z) : Z := if z <? 2 ^ (w - 1) then z else z - 2 ^ w.
(** Rust's [!x]. *)
Definition bnot (w z : Z) : Z := Z.ldiff (Z.ones w) z.
(** Rust's [a << n] with [n < w]: the bits shifted out are lost. *)
Definition shl (w a n : Z) : Z := wrap w (Z.shiftl a n).
(** [a + b] and [a - b] of width [w]: a panic on overflow when the profile
    checks for it, wrap-around otherwise. *)
Definition add_chk `{Profile} {S E} (w a b : Z) : M S E Z :=
  if overflow_checks && (2 ^ w <=? a + b) then panic else ret (wrap w (a + b)).
Definition sub_chk `{Profile} {S E} (w a b : Z) : M S E Z :=
  if overflow_checks && (a <? b) then panic else ret (wrap w (a - b)).

(** The instances of the trait [UnsignedInteger] (utils.rs). *)
Inductive UInt : Type := U8 | U16 | U32 | U64.
#[global] Instance UInt_eq_dec : EqDecision UInt.
Proof. solve_decision. Defined.
Definition size_of (t : UInt) : Z :=
  match t with U8 => 1 | U16 => 2 | U32 => 4 | U64 => 8 end.
Definition BITS (t : UInt) : Z :=
  match t with U8 => 8 | U16 => 16 | U32 => 32 | U64 => 64 end.
Definition MAX (t : UInt) : Z := Z.ones (BITS t).

(** ** Hint databases and tactics *)
Create HintDb here.
Create Rewrite HintDb bits.

Lemma pow2_pos w : 0 <= w -> 0 < 2 ^ w.
Proof. intros. apply Z.pow_pos_nonneg; lia. Qed.

Lemma wrap_range w z : 0 <= w -> uint w (wrap w z).
Proof. intros. apply Z.mod_pos_bound, pow2_pos, H. Qed.

Lemma wrap_small w z : uint w z -> wrap w z = z.
Proof. apply Z.mod_small. Qed.

Lemma wrap_wrap w z : 0 <= w -> wrap w (wrap w z) = wrap w z.
Proof. intros. apply wrap_small, wrap_range, H. Qed.

Lemma wrap_land w z : 0 <= w -> wrap w z = Z.land z (Z.ones w).
Proof. intros. symmetry. apply Z.land_ones, H. Qed.

Lemma wrap_wrap_le w1 w2 z : 0 <= w1 <= w2 -> wrap w1 (wrap w2 z) = wrap w1 z.
Proof.
  intros. unfold wrap. rewrite <- !Z.land_ones by lia.
  rewrite <- Z.land_assoc. f_equal.
  apply Z.bits_inj'. intros i Hi. rewrite Z.land_spec, !Z.testbit_ones_nonneg by lia.
  destruct (Z.ltb_spec i w1), (Z.ltb_spec i w2); auto; lia.
Qed.

Lemma wrap_add_l w a b : wrap w (wrap w a + b) = wrap w (a + b).
Proof. apply Zplus_mod_idemp_l. Qed.

Lemma wrap_add_r w a b : wrap w (a + wrap w b) = wrap w (a + b).
Proof. apply Zplus_mod_idemp_r. Qed.

Lemma wrap_sub_l w a b : wrap w (wrap w a - b) = wrap w (a - b).
Proof. apply Zminus_mod_idemp_l. Qed.

Lemma wrap_sub_r w a b : wrap w (a - wrap w b) = wrap w (a - b).
Proof. apply Zminus_mod_idemp_r. Qed.

Lemma wrap_mul_l w a b : wrap w (wrap w a * b) = wrap w (a * b).
Proof. apply Zmult_mod_idemp_l. Qed.

Lemma wrap_mul_r w a b : wrap w (a * wrap w b) = wrap w (a * b).
Proof. apply Zmult_mod_idemp_r. Qed.

Lemma wrap_add_pow2 w a k : 0 <= w -> wrap w (a + k * 2 ^ w) = wrap w a.
Proof. intros. apply Z_mod_plus_full. Qed.

Lemma wrap_testbit w z i : 0 <= w -> 0 <= i ->
  Z.testbit (wrap w z) i = (i <? w) && Z.testbit z i.
Proof.
  intros. destruct (Z.ltb_spec i w).
  - apply Z.mod_pow2_bits_low. lia.
  - apply Z.mod_pow2_bits_high. lia.
Qed.

Lemma uint_testbit_high w z i : 0 <= w -> uint w z -> w <= i -> Z.testbit z i = false.
Proof.
  intros Hw Hz Hi. rewrite <- (wrap_small w z Hz). apply Z.mod_pow2_bits_high. lia.
Qed.

(** A non-negative number whose bits above [w] are all clear has [w] bits. *)
Lemma uint_of_bits w z :
  0 <= w -> 0 <= z -> (forall i, w <= i -> Z.testbit z i = false) -> uint w z.
Proof.
  intros Hw Hz Hb.
  assert (wrap w z = z) as <-; [|apply wrap_range, Hw].
  apply Z.bits_inj'. intros i Hi. rewrite wrap_testbit by lia.
  destruct (Z.ltb_spec i w); [done|]. by rewrite Hb.
Qed.

Lemma to_signed_range w z : 0 < w -> uint w z ->
  - 2 ^ (w - 1) <= to_signed w z < 2 ^ (w - 1).
Proof.
  unfold uint, to_signed. intros Hw Hz.
  assert (2 ^ w = 2 * 2 ^ (w - 1)) by (rewrite <- Z.pow_succ_r; f_equal; lia).
  destruct (Z.ltb_spec z (2 ^ (w - 1))); lia.
Qed.

Lemma wrap_to_signed w z : 0 <= w -> wrap w (to_signed w z) = wrap w z.
Proof.
  intros. unfold to_signed. destruct (z <? _); [done|].
  replace (z - 2 ^ w) with (z + (-1) * 2 ^ w) by lia. by apply wrap_add_pow2.
Qed.

Lemma to_signed_wrap w z : 0 < w -> - 2 ^ (w - 1) <= z < 2 ^ (w - 1) ->
  to_signed w (wrap w z) = z.
Proof.
  intros Hw Hz. unfold to_signed, wrap.
  assert (2 ^ w = 2 * 2 ^ (w - 1)) as E by (rewrite <- Z.pow_succ_r; f_equal; lia).
  destruct (decide (0 <= z)).
  - rewrite Z.mod_small by lia. destruct (Z.ltb_spec z (2 ^ (w - 1))); lia.
  - replace (z mod 2 ^ w) with (z + 2 ^ w).
    + destruct (Z.ltb_spec (z + 2 ^ w) (2 ^ (w - 1))); lia.
    + symmetry. rewrite <- (Z.mod_add z 1 (2 ^ w)) by lia.
      rewrite Z.mul_1_l. apply Z.mod_small. lia.
Qed.

Lemma bnot_testbit w z i : 0 <= w -> 0 <= i ->
  Z.testbit (bnot w z) i = (i <? w) && negb (Z.testbit z i).
Proof.
  intros. unfold bnot. rewrite Z.ldiff_spec, Z.testbit_ones_nonneg by lia. done.
Qed.

Lemma ones_testbit w i : 0 <= w -> 0 <= i -> Z.testbit (Z.ones w) i = (i <? w).
Proof. intros. apply Z.testbit_ones_nonneg; lia. Qed.

Lemma shiftl_testbit z n i : 0 <= i ->
  Z.testbit (Z.shiftl z n) i = Z.testbit z (i - n).
Proof. intros. by rewrite Z.shiftl_spec. Qed.

Lemma shiftr_testbit z n i : 0 <= i ->
  Z.testbit (Z.shiftr z n) i = Z.testbit z (i + n).
Proof. intros. by rewrite Z.shiftr_spec. Qed.

#[export] Hint Rewrite Z.land_spec Z.lor_spec Z.lxor_spec Z.ldiff_spec
  Bool.andb_false_r Bool.andb_true_r Bool.orb_false_r Bool.orb_false_l
  Z.bits_0 : bits.
#[export] Hint Rewrite wrap_testbit bnot_testbit ones_testbit shiftl_testbit
  shiftr_testbit using lia : bits.

(** Prove an equality of machine words bit by bit: [i] is the bit index. *)
Ltac bitwise i :=
  apply Z.bits_inj'; intros i ?Hi; autorewrite with bits.

(** Split every comparison of bit indices and finish each case. *)
Ltac split_ltb :=
  repeat match goal with
  | |- context [?a <? ?b] => destruct (Z.ltb_spec a b)
  | |- context [?a <=? ?b] => destruct (Z.leb_spec a b)
  | |- context [?a =? ?b] => destruct (Z.eqb_spec a b)
  end.

Lemma uint_land w a b : 0 <= w -> uint w a -> uint w (Z.land a b).
Proof.
  intros Hw Ha. apply uint_of_bits; [done| |].
  - apply Z.land_nonneg. left. apply Ha.
  - intros i Hi. rewrite Z.land_spec. by rewrite (uint_testbit_high w a).
Qed.

Lemma uint_land_r w a b : 0 <= w -> uint w b -> uint w (Z.land a b).
Proof. intros. rewrite Z.land_comm. by apply uint_land. Qed.

Lemma uint_lor w a b : 0 <= w -> uint w a -> uint w b -> uint w (Z.lor a b).
Proof.
  intros Hw Ha Hb. apply uint_of_bits; [done| |].
  - apply Z.lor_nonneg. split; [apply Ha | apply Hb].
  - intros i Hi. rewrite Z.lor_spec, (uint_testbit_high w a), (uint_testbit_high w b); auto.
Qed.

Lemma uint_lxor w a b : 0 <= w -> uint w a -> uint w b -> uint w (Z.lxor a b).
Proof.
  intros Hw Ha Hb. apply uint_of_bits; [done| |].
  - apply Z.lxor_nonneg. split; intros; [apply Hb | apply Ha].
  - intros i Hi. rewrite Z.lxor_spec, (uint_testbit_high w a), (uint_testbit_high w b); auto.
Qed.

Lemma uint_bnot w a : 0 <= w -> uint w (bnot w a).
Proof.
  intros Hw. apply uint_of_bits; [done| |].
  - unfold bnot. apply Z.ldiff_nonneg. left. rewrite Z.ones_equiv. pose proof (pow2_pos w Hw). lia.
  - intros i Hi. rewrite bnot_testbit by lia. by destruct (Z.ltb_spec i w); [lia|].
Qed.

Lemma uint_shiftr w a n : 0 <= w -> 0 <= n -> uint w a -> uint w (Z.shiftr a n).
Proof.
  intros Hw Hn Ha. apply uint_of_bits; [done| |].
  - apply Z.shiftr_nonneg, Ha.
  - intros i Hi. rewrite Z.shiftr_spec by lia. apply (uint_testbit_high w a); [done|done|lia].
Qed.

Lemma uint_shl w a n : 0 <= w -> uint w (shl w a n).
Proof. intros. by apply wrap_range. Qed.

Lemma uint_weaken w1 w2 a : 0 <= w1 <= w2 -> uint w1 a -> uint w2 a.
Proof.
  unfold uint. intros Hw Ha. pose proof (Z.pow_le_mono_r 2 w1 w2). lia.
Qed.

Lemma uint_0 w : 0 <= w -> uint w 0.
Proof. intros. pose proof (pow2_pos w H). unfold uint. lia. Qed.

#[export] Hint Resolve uint_land uint_lor uint_lxor uint_bnot uint_shl wrap_range uint_0 : here.

Lemma BITS_size t : BITS t = 8 * size_of t.
Proof. by destruct t. Qed.

Lemma BITS_pos t : 0 < BITS t.
Proof. by destruct t. Qed.

#[export] Hint Resolve BITS_pos : here.

(** ** Unfolding the state monad *)
Lemma bind_Ok {S E A B} (m : M S E A) (k : A -> M S E B) s a s' :
  m s = (Ok a, s') -> bind m k s = k a s'.
Proof. unfold bind. by intros ->. Qed.

Lemma bind_Err {S E A B} (m : M S E A) (k : A -> M S E B) s e s' :
  m s = (Err e, s') -> bind m k s = (Err e, s').
Proof. unfold bind. by intros ->. Qed.

(** A successful sequence splits at an intermediate state. *)
Lemma bind_Ok_inv {S E A B} (m : M S E A) (k : A -> M S E B) s b s' :
  bind m k s = (Ok b, s') -> exists a s1, m s = (Ok a, s1) /\ k a s1 = (Ok b, s').
Proof.
  unfold bind. destruct (m s) as [[a|e|] s1]; intros H; [eauto|discriminate|discriminate].
Qed.

Ltac inv_bind H :=
  let a := fresh "a" in let s := fresh "s" in let H1 := fresh "Hm" in let H2 := fresh "Hk" in
  apply bind_Ok_inv in H as (a & s & H1 & H2).

(** Case on the next [match] or [if] of a hypothesis or of the goal. *)
Ltac break_match :=
  match goal with
  | |- context [match ?x with _ => _ end] => destruct x eqn:?
  | H : context [match ?x with _ => _ end] |- _ => destruct x eqn:?
  end.

(** Disjoint bits add up. *)
Lemma lor_add n a b : 0 <= n -> (2 ^ n | a) -> uint n b -> Z.lor a b = a + b.
Proof.
  intros Hn [k ->] Hb. rewrite <- Z.add_lor_land. replace (Z.land (k * 2 ^ n) b) with 0; [lia|].
  symmetry. apply Z.bits_inj'. intros i Hi. rewrite Z.land_spec, Z.bits_0. destruct (Z.lt_ge_cases i n).
  - by rewrite Z.mul_pow2_bits_low by lia.
  - by rewrite (uint_testbit_high n b), andb_false_r by (done || lia).
Qed.

(** A bit test with a mask. *)
Lemma shl_1 w n : 0 <= n < w -> shl w 1 n = 2 ^ n.
Proof.
  intros Hn. unfold shl. rewrite Z.shiftl_1_l. apply wrap_small. split; [apply Z.pow_nonneg; lia|].
  apply Z.pow_lt_mono_r; lia.
Qed.

Lemma land_bit_eqb w x n : 0 <= n < w -> (Z.land x (shl w 1 n) =? 0) = negb (Z.testbit x n).
Proof.
  intros Hn. rewrite shl_1 by done. destruct (Z.testbit x n) eqn:Eb; cbn [negb].
  - apply Z.eqb_neq. intros E. apply (f_equal (fun z => Z.testbit z n)) in E.
    by rewrite Z.land_spec, Z.pow2_bits_true, Eb, Z.bits_0 in E by lia.
  - apply Z.eqb_eq. bitwise i. rewrite Z.pow2_bits_eqb by lia.
    destruct (Z.eqb_spec n i) as [<-|]; [by rewrite Eb|apply andb_false_r].
Qed.

(** ** [slice::binary_search_by] of the Rust standard library

    [inl i] is [Ok(i)], [inr i] is [Err(i)].  The loop halves [size]; as many
    turns as elements are more than enough. *)
Section BinarySearch.
Context {A : Type} (f : A -> comparison).

Definition not_gt (c : comparison) : bool := match c with Gt => false | _ => true end.

Fixpoint bs_loop (fuel : nat) (l : list A) (base size : nat) : nat :=
  match fuel with
  | O => base
  | S fuel =>
      if (size <=? 1)%nat then base
      else let half := (size / 2)%nat in
           let mid := (base + half)%nat in
           let base := if from_option (fun x => not_gt (f x)) false (l !! mid) then mid else base in
           bs_loop fuel l base (size - half)
  end.

Definition binary_search_by (l : list A) : nat + nat :=
  match l with
  | [] => inr 0%nat
  | _ => let base := bs_loop (length l) l 0 (length l) in
         match f <$> l !! base with
         | Some Eq => inl base
         | Some Lt => inr (base + 1)%nat
         | _ => inr base
         end
  end.

(** [l] is ordered for [f]: what [f] finds too small comes before what it finds
    too large. *)
Definition bs_ordered (l : list A) : Prop :=
  forall i j x y, (i < j)%nat -> l !! i = Some x -> l !! j = Some y ->
    f x <> Lt -> f y = Gt.

Lemma half_bounds size : (1 < size)%nat -> (0 < size / 2 < size)%nat.
Proof.
  intros. split; [apply Nat.div_str_pos; lia|apply Nat.div_lt; lia].
Qed.

(** The loop keeps the answer inside [base, base + size): nothing at or after
    the end is acceptable, and either [base] is acceptable or it is still 0. *)
Lemma bs_loop_spec fuel l base size :
  bs_ordered l -> (size <= fuel)%nat -> (0 < size)%nat -> (base + size <= length l)%nat ->
  (base = 0%nat \/ exists x, l !! base = Some x /\ f x <> Gt) ->
  (forall j y, (base + size <= j)%nat -> l !! j = Some y -> f y = Gt) ->
  let b := bs_loop fuel l base size in
  (b < length l)%nat /\
  (b = 0%nat \/ exists x, l !! b = Some x /\ f x <> Gt) /\
  (forall j y, (b < j)%nat -> l !! j = Some y -> f y = Gt).
Proof.
  intros Ho. revert base size. induction fuel as [|fuel IH]; intros base size Hf Hs Hl Hb Ha; [lia|].
  cbn [bs_loop]. destruct (Nat.leb_spec size 1).
  { simpl. split; [lia|]. split; [done|]. intros j y Hj. apply Ha. lia. }
  pose proof (half_bounds size ltac:(lia)) as Hh.
  destruct (l !! (base + size / 2)%nat) as [x|] eqn:Ex;
    [|apply lookup_ge_None in Ex; lia].
  cbn [from_option]. destruct (not_gt (f x)) eqn:Eg.
  - apply IH; [lia|lia|lia| |intros j y Hj; apply Ha; lia].
    right. exists x. split; [done|]. by destruct (f x).
  - assert (f x = Gt) as Hgt by (by destruct (f x)).
    apply IH; [lia|lia|lia|done|]. intros j y Hj Hy. pose proof (Nat.Div0.mul_div_le size 2).
    destruct (decide (j = base + size / 2)%nat) as [->|]; [congruence|].
    apply (Ho (base + size / 2)%nat j x y); [lia|done|done|]. by rewrite Hgt.
Qed.

(** The contract of the standard library: [Ok(i)] is a match; [Err(i)] splits
    the slice into elements that are too small and elements that are too
    large. *)
Lemma binary_search_by_spec l : bs_ordered l ->
  match binary_search_by l with
  | inl i => exists x, l !! i = Some x /\ f x = Eq
  | inr i => (i <= length l)%nat /\
             (forall j x, (j < i)%nat -> l !! j = Some x -> f x = Lt) /\
             (forall j x, (i <= j)%nat -> l !! j = Some x -> f x = Gt)
  end.
Proof.
  intros Ho. unfold binary_search_by. destruct l as [|a l]; [simpl; split_and!; [lia|lia|done]|].
  assert (0 < length (a :: l))%nat as Hpos by (simpl; lia).
  set (L := a :: l) in *. clearbody L.
  destruct (bs_loop_spec (length L) L 0 (length L)) as (Hlt & Hb & Hgt);
    [done|lia|lia|lia|by left|intros j y Hj Hy; apply lookup_lt_Some in Hy; lia|].
  set (b := bs_loop _ _ _ _) in *.
  destruct (L !! b) as [x|] eqn:Ex; [|apply lookup_ge_None in Ex; lia]. cbn.
  assert (forall j y, (j < b)%nat -> L !! j = Some y -> f x <> Gt -> f y = Lt) as Hlo.
  { intros j y Hj Hy Hx. destruct (f y) eqn:Ey; [| done |];
      pose proof (Ho j b y x Hj Hy Ex) as K; rewrite Ey in K; by rewrite K in Hx. }
  destruct (f x) eqn:Efx.
  - eauto.
  - split; [lia|]. split; intros j y Hj Hy; [|apply Hgt with j; [lia|done]].
    destruct (decide (j = b)) as [->|]; [congruence|]. apply (Hlo j y); [lia|done|done].
  - split; [lia|]. destruct Hb as [Hb|(x' & Ex' & Hx')]; [|congruence].
    split; intros j y Hj Hy; [lia|]. destruct (decide (j = b)) as [->|]; [congruence|].
    apply Hgt with j; [lia|done].
Qed.
End BinarySearch.

(** ** Invariants of stateful code

    [triple I m Q]: from a state satisfying [I], [m] leaves a state satisfying
    [I], returned or raised, and a returned value satisfies [Q].  Nothing is
    said of a panic. *)
Section Triple.
Context {S E : Type} (I : S -> Prop).

Definition triple {A} (m : M S E A) (Q : A -> Prop) : Prop :=
  forall s, I s -> match m s with
                   | (Ok a, s') => I s' /\ Q a
                   | (Err _, s') => I s'
                   | (Panic, _) => True
                   end.

Lemma triple_ret {A} (a : A) (Q : A -> Prop) : Q a -> triple (ret a) Q.
Proof. by intros HQ s Hs. Qed.

Lemma triple_err {A} e (Q : A -> Prop) : triple (err e) Q.
Proof. by intros s Hs. Qed.

Lemma triple_panic {A} (Q : A -> Prop) : triple panic Q.
Proof. by intros s Hs. Qed.

Lemma triple_bind {A B} (m : M S E A) (k : A -> M S E B) (Q : A -> Prop) (R : B -> Prop) :
  triple m Q -> (forall a, Q a -> triple (k a) R) -> triple (bind m k) R.
Proof.
  intros Hm Hk s Hs. specialize (Hm s Hs). unfold bind. destruct (m s) as [[a|e|] s']; [|done|done].
  destruct Hm as [Hs' Ha]. by apply (Hk a).
Qed.

Lemma triple_weaken {A} (m : M S E A) (Q R : A -> Prop) :
  triple m Q -> (forall a, Q a -> R a) -> triple m R.
Proof. intros Hm HQ s Hs. specialize (Hm s Hs). destruct (m s) as [[a|e|] s']; [split|..]; naive_solver. Qed.

Lemma triple_true {A} (m : M S E A) (Q : A -> Prop) : triple m Q -> triple m (fun _ => True).
Proof. intros. by eapply triple_weaken. Qed.

Lemma triple_gets {A} (f : S -> A) (Q : A -> Prop) : (forall s, I s -> Q (f s)) -> triple (gets f) Q.
Proof. intros Hf s Hs. split; [done|by apply Hf]. Qed.

Lemma triple_modify f (Q : unit -> Prop) : (forall s, I s -> I (f s)) -> Q tt -> triple (modify f) Q.
Proof. intros Hf HQ s Hs. split; [by apply Hf|done]. Qed.

Lemma triple_unwrap {A} (o : option A) (Q : A -> Prop) : (forall a, o = Some a -> Q a) -> triple (unwrap o) Q.
Proof. intros Ho s Hs. destruct o; cbn; [split; [done|by apply Ho]|done]. Qed.

Lemma triple_lift_res {A} (r : Res E A) (Q : A -> Prop) : (forall a, r = Ok a -> Q a) -> triple (lift_res r) Q.
Proof. intros Hr s Hs. destruct r; cbn; [split; [done|by apply Hr]|done|done]. Qed.

Lemma triple_assert b (Q : unit -> Prop) : Q tt -> triple (assert b) Q.
Proof. intros HQ. destruct b; [by apply triple_ret|apply triple_panic]. Qed.

Lemma triple_if {A} (b : bool) (m1 m2 : M S E A) (Q : A -> Prop) :
  (b = true -> triple m1 Q) -> (b = false -> triple m2 Q) -> triple (if b then m1 else m2) Q.
Proof. destruct b; auto. Qed.
End Triple.

Lemma triple_map_err {S E E' A} (I : S -> Prop) (f : E -> E') (m : M S E A) Q :
  triple I m Q -> triple I (map_err f m) Q.
Proof. intros Hm s Hs. specialize (Hm s Hs). unfold map_err. by destruct (m s) as [[a|e|] s']. Qed.

Lemma triple_zoom {S T E A} (I : S -> Prop) (J : T -> Prop) (get : S -> T) put (m : M T E A) Q :
  triple J m Q -> (forall s, I s -> J (get s)) -> (forall s t, I s -> J t -> I (put s t)) ->
  triple I (zoom get put m) Q.
Proof.
  intros Hm Hg Hp s Hs. specialize (Hm (get s) (Hg s Hs)). unfold zoom.
  destruct (m (get s)) as [[a|e|] t]; naive_solver.
Qed.

Lemma triple_run {S E A} (I : S -> Prop) (m : M S E A) Q s r s' :
  triple I m Q -> I s -> m s = (r, s') -> r <> Panic -> I s'.
Proof. intros Hm Hs E' Hr. specialize (Hm s Hs). rewrite E' in Hm. destruct r; naive_solver. Qed.

Create HintDb triple.
#[export] Hint Resolve triple_ret triple_err triple_panic triple_assert : triple.

(** Walk through a sequence: known calls are closed by the hints, the results
    of the others are arbitrary. *)
Ltac triple_step :=
  match goal with
  | |- triple _ (bind _ _) _ => eapply triple_bind; [|intros ? ?]
  | |- triple _ (if _ then _ else _) _ => apply triple_if; intros ?
  | |- triple _ (match ?x with _ => _ end) _ => destruct x eqn:?
  | |- triple _ (let _ := _ in _) _ => cbv zeta
  | |- triple _ (map_err _ _) _ => apply triple_map_err
  | |- triple _ (err _) _ => apply triple_err
  | |- triple _ panic _ => apply triple_panic
  end.

(** Code that only looks at its state. *)
Section Reads.
Context {S E : Type}.

Definition reads {A} (m : M S E A) : Prop := forall s, snd (m s) = s.

Lemma reads_ret {A} (a : A) : reads (ret a).
Proof. done. Qed.
Lemma reads_err {A} e : reads (A := A) (err e).
Proof. done. Qed.
Lemma reads_panic {A} : reads (A := A) panic.
Proof. done. Qed.
Lemma reads_gets {A} (f : S -> A) : reads (gets f).
Proof. done. Qed.
Lemma reads_unwrap {A} (o : option A) : reads (unwrap o).
Proof. by destruct o. Qed.
Lemma reads_assert b : reads (assert b).
Proof. by destruct b. Qed.
Lemma reads_bind {A B} (m : M S E A) (k : A -> M S E B) :
  reads m -> (forall a, reads (k a)) -> reads (bind m k).
Proof.
  intros Hm Hk s. unfold bind. specialize (Hm s). destruct (m s) as [[a|e|] s']; cbn in *; subst; [apply Hk|done|done].
Qed.

Lemma reads_triple {A} (I : S -> Prop) (m : M S E A) : reads m -> triple I m (fun _ => True).
Proof. intros Hm s Hs. specialize (Hm s). destruct (m s) as [[a|e|] s']; cbn in *; by subst. Qed.
End Reads.

Create HintDb reads.
#[export] Hint Resolve reads_ret reads_err reads_panic reads_gets reads_unwrap reads_assert : reads.
Ltac solve_reads :=
  repeat first [ progress eauto with reads
               | apply reads_bind; [|intros ?]
               | match goal with |- reads (match ?x with _ => _ end) => destruct x end ].

(** Code that never returns an error. *)
Section NoErr.
Context {S E : Type}.

Definition no_err {A} (m : M S E A) : Prop := forall s e s', m s <> (Err e, s').

Lemma no_err_ret {A} (a : A) : no_err (ret a).
Proof. by intros s e s' [=]. Qed.
Lemma no_err_panic {A} : no_err (A := A) panic.
Proof. by intros s e s' [=]. Qed.
Lemma no_err_gets {A} (f : S -> A) : no_err (gets f).
Proof. by intros s e s' [=]. Qed.
Lemma no_err_modify f : no_err (modify f).
Proof. by intros s e s' [=]. Qed.
Lemma no_err_unwrap {A} (o : option A) : no_err (unwrap o).
Proof. destruct o; by intros s e s' [=]. Qed.
Lemma no_err_assert b : no_err (assert b).
Proof. destruct b; by intros s e s' [=]. Qed.
Lemma no_err_bind {A B} (m : M S E A) (k : A -> M S E B) :
  no_err m -> (forall a, no_err (k a)) -> no_err (bind m k).
Proof.
  intros Hm Hk s e s' E'. unfold bind in E'. destruct (m s) as [[a|e1|] s1] eqn:Em; [by eapply Hk| |discriminate].
  by eapply Hm.
Qed.
Lemma no_err_add_chk `{Profile} w a b : no_err (add_chk w a b).
Proof. unfold add_chk. destruct (_ && _); [apply no_err_panic|apply no_err_ret]. Qed.
End NoErr.

Lemma no_err_zoom {S T E A} (get : S -> T) put (m : M T E A) : no_err m -> no_err (zoom get put m).
Proof.
  intros Hm s e s' E'. unfold zoom in E'. destruct (m (get s)) as [r t] eqn:Em. injection E' as -> _. by eapply Hm.
Qed.

Create HintDb noerr.
#[export] Hint Resolve no_err_ret no_err_panic no_err_gets no_err_modify no_err_unwrap no_err_assert
  no_err_add_chk : noerr.
Ltac solve_no_err :=
  repeat first [ progress eauto with noerr
               | apply no_err_bind; [|intros ?]
               | match goal with |- no_err (match ?x with _ => _ end) => destruct x end ].

(** ** Bytes of a host file *)
(** [bs] written at an offset [o] inside the file. *)
Definition overwrite (l : list Z) (o : nat) (bs : list Z) : list Z :=
  take o l ++ bs ++ drop (o + length bs) l.

Lemma overwrite_length l o bs : (o + length bs <= length l)%nat -> length (overwrite l o bs) = length l.
Proof. intros Hle. unfold overwrite. rewrite !length_app, length_take, length_drop. lia. Qed.

Lemma overwrite_nil l o : overwrite l o [] = l.
Proof. unfold overwrite. simpl. by rewrite Nat.add_0_r, take_drop. Qed.

Lemma overwrite_app l o a b : (o + length a + length b <= length l)%nat ->
  overwrite (overwrite l o a) (o + length a) b = overwrite l o (a ++ b).
Proof.
  intros Hle. unfold overwrite. rewrite <- !app_assoc.
  assert (length (take o l) = o) as Ht by (rewrite length_take; lia).
  replace (take (o + length a) (take o l ++ a ++ drop (o + length a) l)) with (take o l ++ a).
  2:{ rewrite app_assoc, take_app_length'; [done|rewrite length_app; lia]. }
  rewrite <- app_assoc. do 3 f_equal. rewrite app_assoc, drop_app_ge; [|rewrite length_app; lia].
  rewrite drop_drop, length_app, length_app. f_equal. lia.
Qed.

Lemma take_drop_overwrite l o bs : (o + length bs <= length l)%nat -> take (length bs) (drop o (overwrite l o bs)) = bs.
Proof.
  intros Hle. unfold overwrite. rewrite drop_app_ge; [|rewrite length_take; lia].
  rewrite length_take, Nat.min_l by lia. rewrite Nat.sub_diag, drop_0. by rewrite take_app_length.
Qed.

(** The byte at [i] after the write: a new one in the window, else the old one. *)
Lemma overwrite_lookup l o bs i : (o + length bs <= length l)%nat ->
  overwrite l o bs !! i = if decide (o <= i < o + length bs)%nat then bs !! (i - o)%nat else l !! i.
Proof.
  intros Hle. unfold overwrite. assert (length (take o l) = o) as Ht by (rewrite length_take; lia).
  destruct (decide (i < o)%nat).
  { rewrite lookup_app_l by lia. rewrite decide_False by lia. by rewrite lookup_take_lt. }
  rewrite lookup_app_r by lia. rewrite Ht. destruct (decide (i < o + length bs)%nat).
  - rewrite decide_True by lia. by rewrite lookup_app_l by lia.
  - rewrite decide_False by lia. rewrite lookup_app_r by lia. rewrite lookup_drop. f_equal. lia.
Qed.

Lemma overwrite_bytes l o bs : Forall (uint 8) l -> Forall (uint 8) bs -> Forall (uint 8) (overwrite l o bs).
Proof.
  intros Hl Hbs. unfold overwrite.
  repeat apply list.Forall_app_2; [by apply list.Forall_take|done|by apply list.Forall_drop].
Qed.

(** A write inside the first [n] bytes leaves the rest alone. *)
Lemma take_overwrite l o bs n : (o + length bs <= n)%nat -> (n <= length l)%nat ->
  take n (overwrite l o bs) = overwrite (take n l) o bs.
Proof.
  intros Hn Hl. apply list_eq. intros i. rewrite overwrite_lookup by (rewrite length_take; lia).
  destruct (decide (i < n)%nat).
  - rewrite lookup_take_lt, overwrite_lookup by lia. destruct (decide _); [done|by rewrite lookup_take_lt].
  - rewrite lookup_take_ge by lia. rewrite decide_False by lia. by rewrite lookup_take_ge by lia.
Qed.

Lemma drop_overwrite l o bs n : (o + length bs <= n)%nat -> (n <= length l)%nat -> drop n (overwrite l o bs) = drop n l.
Proof.
  intros Hn Hl. apply list_eq. intros i. rewrite !lookup_drop, overwrite_lookup by lia. by rewrite decide_False by lia.
Qed.
