(* ===== verification/Utils.v ===== *)
(** * Bit utilities (src/src/utils.rs, src/src/config.rs)

    Sign extension, truncation, masks, bit ranges, single-bit updates and the
    alignment table, with their meaning in terms of signed values and bits. *)

From S2P Require Import Prelude.

(** [arch_config] for the default feature [riscv64]: [WordType] is [u64]. *)
Definition XLEN : Z := 64.
(** [ram_config]. *)
Definition BASE_ADDR : Z := 0x80000000.
Definition DEFAULT_PC_VALUE : Z := BASE_ADDR.
Definition SIZE : Z := Z.shiftl 512 20.

Abbreviation u64 z := (uint 64 z).

(** [TruncateFrom]: [val as $to]. *)
Definition truncate_from (t : UInt) (z : Z) : Z := wrap (BITS t) z.

(** [truncate_to_bits] at width [u64]. *)
Definition truncate_to_bits (z bits : Z) : Z :=
  if 64 <=? bits then z else Z.land z (shl 64 1 bits - 1).

Definition shift_amount (t : UInt) (value : Z) : Z :=
  Z.land (wrap 32 value) (BITS t - 1).

Definition as_signed_i128 (t : UInt) (value : Z) : Z :=
  let sign_mask := Z.shiftl 1 (BITS t - 1) in
  if Z.land value sign_mask =? 0 then value else value - Z.shiftl 1 (BITS t).

Definition from_signed_i128 (t : UInt) (value : Z) : Z :=
  truncate_from t (wrap 128 value).

(** [((value << sign_bit) as i64 >> sign_bit) as u64] *)
Definition sign_extend (value from_bits : Z) : Z :=
  let sign_bit := XLEN - from_bits in
  wrap 64 (Z.shiftr (to_signed 64 (shl 64 value sign_bit)) sign_bit).

Definition sign_extend_u32 (value : Z) : Z := sign_extend value 32.

Definition is_sign_extended (value bits : Z) : bool := value =? sign_extend value bits.

Definition wrapping_add_as_signed (lhs rhs : Z) : Z :=
  wrap 64 (to_signed 64 lhs + to_signed 64 rhs).

Definition negative_of (value : Z) : Z := wrap 64 (bnot 64 value + 1).

Definition concat_to_u64 (high low : Z) : Z := Z.lor (shl 64 high 32) low.

(** [ALIGN_ILST[size_of::<T>()]]; the entries for sizes other than 1, 2, 4, 8
    are never indexed by an instance of [UnsignedInteger]. *)
Definition ALIGN_ILST (t : UInt) : Z :=
  match t with U8 => 0x00 | U16 => 0x01 | U32 => 0x03 | U64 => 0x07 end.

Definition check_align (t : UInt) (addr : Z) : bool := Z.land addr (ALIGN_ILST t) =? 0.

(** [gen_ones_array::<XLEN>()]: entry [i + 1] is entry [i] with bit [i] set. *)
Fixpoint gen_ones_array (n : nat) : list Z :=
  match n with
  | O => [0]
  | S i => let arr := gen_ones_array i in
           arr ++ [Z.lor (List.last arr 0) (shl 64 1 (Z.of_nat i))]
  end.

Definition BIT_ONES_ARRAY : list Z := gen_ones_array 64.

(** Indexing past the 65 entries panics in the source; every use is in range. *)
Definition ones_at (len : Z) : Z := nth (Z.to_nat len) BIT_ONES_ARRAY 0.

Definition make_mask (left right : Z) : Z := shl 64 (ones_at (right - left + 1)) left.

Definition mask_range (t : UInt) (z l r : Z) : Z :=
  Z.land z (truncate_from t (make_mask l r)).

Definition extract_range (t : UInt) (z l r : Z) : Z :=
  Z.land (Z.shiftr z l) (truncate_from t (ones_at (r - l + 1))).

Definition set_bit (w data idx : Z) : Z := Z.lor data (shl w 1 idx).
Definition clear_bit (w data idx : Z) : Z := Z.land data (bnot w (shl w 1 idx)).
Definition read_bit (w data idx : Z) : bool := negb (Z.land data (shl w 1 idx) =? 0).

(** ** Correctness *)

Lemma ones_at_spec len : 0 <= len <= 64 -> ones_at len = Z.ones len.
Proof.
  intros H. assert (forall n, (n <= 64)%nat -> ones_at (Z.of_nat n) = Z.ones (Z.of_nat n)) as K.
  { intros n Hn. do 65 (destruct n as [|n]; [reflexivity|]). lia. }
  specialize (K (Z.to_nat len)). rewrite Z2Nat.id in K by lia. apply K. lia.
Qed.

Lemma make_mask_testbit l r i : 0 <= l -> l <= r -> r < 64 -> 0 <= i ->
  Z.testbit (make_mask l r) i = (l <=? i) && (i <=? r).
Proof.
  intros Hl Hr H64 Hi. unfold make_mask, shl. rewrite ones_at_spec by lia.
  rewrite wrap_testbit, shiftl_testbit by lia.
  destruct (Z.leb_spec l i).
  - rewrite ones_testbit by lia. split_ltb; simpl; try done; lia.
  - rewrite Z.testbit_neg_r by lia. split_ltb; done.
Qed.

Lemma extract_range_testbit z l r i :
  0 <= l -> l <= r -> r < 64 -> 0 <= i ->
  Z.testbit (extract_range U64 z l r) i = (i <=? r - l) && Z.testbit z (i + l).
Proof.
  intros. unfold extract_range, truncate_from. rewrite ones_at_spec by lia.
  rewrite Z.land_spec, shiftr_testbit, wrap_testbit, ones_testbit by (simpl; lia).
  simpl. split_ltb; rewrite ?andb_true_r, ?andb_false_r; try done; lia.
Qed.

(** [extract_range] is the bit field [(z / 2^l) mod 2^(r-l+1)]. *)
Lemma extract_range_spec t z l r :
  0 <= l -> l <= r -> r < BITS t ->
  extract_range t z l r = Z.shiftr z l mod 2 ^ (r - l + 1).
Proof.
  intros. assert (BITS t <= 64) by (by destruct t).
  unfold extract_range, truncate_from. rewrite ones_at_spec by lia.
  rewrite wrap_small.
  - apply Z.land_ones. lia.
  - unfold uint. rewrite Z.ones_equiv. pose proof (pow2_pos (r - l + 1)).
    pose proof (Z.pow_le_mono_r 2 (r - l + 1) (BITS t)). lia.
Qed.

Lemma truncate_to_bits_spec z bits : 0 <= bits <= 64 -> u64 z ->
  truncate_to_bits z bits = wrap bits z.
Proof.
  intros Hb Hz. unfold truncate_to_bits. destruct (Z.leb_spec 64 bits).
  - replace bits with 64 by lia. by rewrite wrap_small.
  - unfold shl. rewrite wrap_small.
    + rewrite Z.shiftl_1_l, Z.sub_1_r, <- Z.ones_equiv.
      by rewrite <- wrap_land by lia.
    + rewrite Z.shiftl_1_l. unfold uint.
      pose proof (Z.pow_lt_mono_r 2 bits 64). pose proof (pow2_pos bits). lia.
Qed.

Lemma shift_amount_spec t v : shift_amount t v = v mod BITS t.
Proof.
  unfold shift_amount. unfold wrap.
  assert (exists k, BITS t = 2 ^ k /\ 0 <= k <= 32 /\ BITS t - 1 = Z.ones k) as (k & E1 & Hk & E2).
  { destruct t; [exists 3|exists 4|exists 5|exists 6]; done. }
  rewrite E2, E1, Z.land_ones by lia. apply (wrap_wrap_le k 32). lia.
Qed.

Lemma as_signed_i128_spec t v : uint (BITS t) v -> as_signed_i128 t v = to_signed (BITS t) v.
Proof.
  intros Hv. pose proof (BITS_pos t) as Hp. unfold as_signed_i128, to_signed.
  rewrite !Z.shiftl_1_l.
  assert ((Z.land v (2 ^ (BITS t - 1)) =? 0) = negb (Z.testbit v (BITS t - 1))) as ->.
  { destruct (Z.testbit v (BITS t - 1)) eqn:Eb; cbn [negb].
    - apply Z.eqb_neq. intros E. apply (f_equal (fun x => Z.testbit x (BITS t - 1))) in E.
      rewrite Z.land_spec, Z.pow2_bits_true, Eb, Z.bits_0 in E by lia. done.
    - apply Z.eqb_eq. bitwise i. rewrite Z.pow2_bits_eqb by lia.
      destruct (Z.eqb_spec (BITS t - 1) i); [subst; by rewrite Eb | by rewrite andb_false_r]. }
  assert (Z.testbit v (BITS t - 1) = negb (v <? 2 ^ (BITS t - 1))) as ->.
  { rewrite Z.testbit_odd, Z.shiftr_div_pow2 by lia. unfold uint in Hv.
    assert (2 ^ BITS t = 2 * 2 ^ (BITS t - 1)) by (rewrite <- Z.pow_succ_r; f_equal; lia).
    destruct (Z.ltb_spec v (2 ^ (BITS t - 1))).
    - by rewrite Z.div_small by lia.
    - replace (v / 2 ^ (BITS t - 1)) with 1; [done|].
      apply Z.div_unique with (v - 2 ^ (BITS t - 1)); lia. }
  by rewrite negb_involutive.
Qed.

Lemma from_signed_i128_spec t v : from_signed_i128 t v = wrap (BITS t) v.
Proof. apply (wrap_wrap_le (BITS t) 128). pose proof (BITS_pos t). destruct t; simpl; lia. Qed.

(** Sign extension keeps the signed value of the low [n] bits. *)
Lemma sign_extend_signed v n : 0 < n <= 64 ->
  sign_extend v n = wrap 64 (to_signed n (wrap n v)).
Proof.
  intros Hn. unfold sign_extend, XLEN, shl. f_equal.
  set (k := 64 - n). set (x := wrap n v).
  assert (0 <= k) by lia.
  assert (2 ^ 64 = 2 ^ k * 2 ^ n) as E64 by (rewrite <- Z.pow_add_r by lia; f_equal; lia).
  assert (wrap 64 (Z.shiftl v k) = x * 2 ^ k) as ->.
  { unfold x, wrap. rewrite Z.shiftl_mul_pow2, E64, (Z.mul_comm (2 ^ k)) by lia.
    rewrite Z.mul_mod_distr_r; [done| |]; pose proof (pow2_pos n); pose proof (pow2_pos k); lia. }
  assert (uint n x) as Hx by (apply wrap_range; lia).
  assert (to_signed 64 (x * 2 ^ k) = to_signed n x * 2 ^ k) as ->.
  { unfold to_signed.
    assert (2 ^ (64 - 1) = 2 ^ (n - 1) * 2 ^ k) as -> by (rewrite <- Z.pow_add_r by lia; f_equal; lia).
    pose proof (pow2_pos k).
    destruct (Z.ltb_spec x (2 ^ (n - 1))), (Z.ltb_spec (x * 2 ^ k) (2 ^ (n - 1) * 2 ^ k));
      [done|nia|nia|rewrite E64; lia]. }
  rewrite Z.shiftr_div_pow2, Z.div_mul; [done| |lia]. pose proof (pow2_pos k). lia.
Qed.

Lemma sign_extend_range v n : 0 < n <= 64 -> u64 (sign_extend v n).
Proof. intros. rewrite sign_extend_signed by lia. apply wrap_range. lia. Qed.

Lemma sign_extend_wrap v n : 0 < n <= 64 -> sign_extend (wrap n v) n = sign_extend v n.
Proof. intros. rewrite !sign_extend_signed, wrap_wrap by lia. done. Qed.

Lemma sign_extend_64 v : u64 v -> sign_extend v 64 = v.
Proof.
  intros Hv. rewrite sign_extend_signed by lia. rewrite (wrap_small 64 v) by done.
  rewrite wrap_to_signed by lia. by apply wrap_small.
Qed.

(** The signed reading of a sign-extended value. *)
Lemma to_signed_sign_extend v n : 0 < n <= 64 ->
  to_signed 64 (sign_extend v n) = to_signed n (wrap n v).
Proof.
  intros Hn. rewrite sign_extend_signed by lia. apply to_signed_wrap; [lia|].
  pose proof (to_signed_range n (wrap n v) ltac:(lia) ltac:(apply wrap_range; lia)).
  pose proof (Z.pow_le_mono_r 2 (n - 1) (64 - 1)). lia.
Qed.

Lemma wrapping_add_as_signed_spec a b : wrapping_add_as_signed a b = wrap 64 (a + b).
Proof.
  unfold wrapping_add_as_signed.
  rewrite <- (wrap_add_l 64 (to_signed 64 a)), wrap_to_signed, wrap_add_l by lia.
  by rewrite <- (wrap_add_r 64 a (to_signed 64 b)), wrap_to_signed, wrap_add_r by lia.
Qed.

Lemma negative_of_spec v : u64 v -> wrap 64 (v + negative_of v) = 0.
Proof.
  intros Hv. unfold negative_of. rewrite wrap_add_r.
  assert (bnot 64 v = 2 ^ 64 - 1 - v) as ->.
  { unfold bnot. rewrite <- Z.sub_nocarry_ldiff.
    - rewrite Z.ones_equiv. lia.
    - rewrite Z.ldiff_ones_r_low; [done|apply Hv|].
      destruct (decide (v = 0)) as [->|]; [done|].
      apply Z.log2_lt_pow2; unfold uint in Hv; lia. }
  replace (v + (2 ^ 64 - 1 - v + 1)) with (0 + 1 * 2 ^ 64) by lia.
  by rewrite wrap_add_pow2 by lia.
Qed.

(** An address is canonical for [n]-bit virtual addresses exactly when bits
    [n-1] to 63 are all equal. *)
Lemma is_sign_extended_spec v n : 0 < n <= 64 -> u64 v ->
  is_sign_extended v n = true <-> - 2 ^ (n - 1) <= to_signed 64 v < 2 ^ (n - 1).
Proof.
  intros Hn Hv. unfold is_sign_extended. rewrite Z.eqb_eq. split.
  - intros ->. rewrite to_signed_sign_extend by lia. apply to_signed_range; [lia|].
    apply wrap_range. lia.
  - intros Hr. rewrite sign_extend_signed by lia.
    assert (wrap n v = wrap n (to_signed 64 v)) as ->.
    { rewrite <- (wrap_wrap_le n 64 (to_signed 64 v)) by lia.
      by rewrite wrap_to_signed, wrap_wrap_le by lia. }
    rewrite to_signed_wrap, wrap_to_signed by lia. by rewrite wrap_small.
Qed.

Lemma check_align_spec t addr : check_align t addr = true <-> (size_of t | addr).
Proof.
  unfold check_align. rewrite Z.eqb_eq.
  assert (Z.land addr (ALIGN_ILST t) = addr mod size_of t) as ->.
  { destruct t; simpl.
    - by rewrite Z.land_0_r, Z.mod_1_r.
    - apply (Z.land_ones addr 1). lia.
    - apply (Z.land_ones addr 2). lia.
    - apply (Z.land_ones addr 3). lia. }
  rewrite Z.mod_divide; [done|]. by destruct t.
Qed.

#[export] Hint Resolve sign_extend_range : here.
