(* ===== verification/TrapTypes.v ===== *)
(** * Trap causes and memory errors (src/src/isa/riscv/trap/mod.rs,
    src/src/device/mod.rs)

    The enumerations [MemError], [Interrupt], [Exception] and [Trap] and the
    conversions between them and the cause numbers stored in [mcause] and
    [scause]. *)

From S2P Require Import Prelude Utils.

Inductive MemError : Type :=
| MemLoadPageFault | MemLoadMisaligned | MemLoadFault
| MemStorePageFault | MemStoreMisaligned | MemStoreFault.

Inductive Interrupt : Type :=
| UserSoft | SupervisorSoft | MachineSoft
| UserTimer | SupervisorTimer | MachineTimer
| UserExternal | SupervisorExternal | MachineExternal
| UnknownInterrupt.

Inductive Exception : Type :=
| InstructionMisaligned | InstructionFault | IllegalInstruction | Breakpoint
| LoadMisaligned | LoadFault | StoreMisaligned | StoreFault
| UserEnvCall | SupervisorEnvCall | HypervisionEnvCall | MachineEnvCall
| InstructionPageFault | LoadPageFault | UnknownException | StorePageFault.

Inductive Trap : Type :=
| TrapInterrupt (i : Interrupt)
| TrapException (e : Exception).

#[global] Instance MemError_eq_dec : EqDecision MemError.
Proof. solve_decision. Defined.
#[global] Instance Interrupt_eq_dec : EqDecision Interrupt.
Proof. solve_decision. Defined.
#[global] Instance Exception_eq_dec : EqDecision Exception.
Proof. solve_decision. Defined.
#[global] Instance Trap_eq_dec : EqDecision Trap.
Proof. solve_decision. Defined.

(** [Interrupt::from]. *)
Definition Interrupt_from (nr : Z) : Interrupt :=
  match nr with
  | 0 => UserSoft
  | 1 => SupervisorSoft
  | 3 => MachineSoft
  | 4 => UserTimer
  | 5 => SupervisorTimer
  | 7 => MachineTimer
  | 8 => UserExternal
  | 9 => SupervisorExternal
  | 11 => MachineExternal
  | _ => UnknownInterrupt
  end.

(** [impl Into<WordType> for Interrupt]: [None] is the panic on [Unknown]. *)
Definition Interrupt_into (i : Interrupt) : option Z :=
  match i with
  | UserSoft => Some 0
  | SupervisorSoft => Some 1
  | MachineSoft => Some 3
  | UserTimer => Some 4
  | SupervisorTimer => Some 5
  | MachineTimer => Some 7
  | UserExternal => Some 8
  | SupervisorExternal => Some 9
  | MachineExternal => Some 11
  | UnknownInterrupt => None
  end.

(** [Exception::from]. *)
Definition Exception_from (nr : Z) : Exception :=
  match nr with
  | 0 => InstructionMisaligned
  | 1 => InstructionFault
  | 2 => IllegalInstruction
  | 3 => Breakpoint
  | 4 => LoadMisaligned
  | 5 => LoadFault
  | 6 => StoreMisaligned
  | 7 => StoreFault
  | 8 => UserEnvCall
  | 9 => SupervisorEnvCall
  | 11 => MachineEnvCall
  | 12 => InstructionPageFault
  | 13 => LoadPageFault
  | 15 => StorePageFault
  | _ => UnknownException
  end.

Definition from_memory_err (e : MemError) : Exception :=
  match e with
  | MemLoadMisaligned => LoadMisaligned
  | MemLoadFault => LoadFault
  | MemStoreMisaligned => StoreMisaligned
  | MemStoreFault => StoreFault
  | MemLoadPageFault => LoadPageFault
  | MemStorePageFault => StorePageFault
  end.

(** [None] is the [unreachable!] of the store errors. *)
Definition from_instr_fetch_err (e : MemError) : option Exception :=
  match e with
  | MemLoadMisaligned => Some InstructionMisaligned
  | MemLoadFault => Some InstructionFault
  | MemLoadPageFault => Some InstructionPageFault
  | _ => None
  end.

(** [impl Into<WordType> for Exception]: [None] is the panic on [Unknown]. *)
Definition Exception_into (e : Exception) : option Z :=
  match e with
  | InstructionMisaligned => Some 0
  | InstructionFault => Some 1
  | IllegalInstruction => Some 2
  | Breakpoint => Some 3
  | LoadMisaligned => Some 4
  | LoadFault => Some 5
  | StoreMisaligned => Some 6
  | StoreFault => Some 7
  | UserEnvCall => Some 8
  | SupervisorEnvCall => Some 9
  | HypervisionEnvCall => Some 10
  | MachineEnvCall => Some 11
  | InstructionPageFault => Some 12
  | LoadPageFault => Some 13
  | StorePageFault => Some 15
  | UnknownException => None
  end.

(** [exception as u8]: the declaration order of the enumeration. *)
Definition Exception_as_u8 (e : Exception) : Z :=
  match e with
  | InstructionMisaligned => 0 | InstructionFault => 1 | IllegalInstruction => 2
  | Breakpoint => 3 | LoadMisaligned => 4 | LoadFault => 5 | StoreMisaligned => 6
  | StoreFault => 7 | UserEnvCall => 8 | SupervisorEnvCall => 9
  | HypervisionEnvCall => 10 | MachineEnvCall => 11 | InstructionPageFault => 12
  | LoadPageFault => 13 | UnknownException => 14 | StorePageFault => 15
  end.

(** [impl Into<WordType> for Trap]. *)
Definition Trap_into (t : Trap) : option Z :=
  match t with
  | TrapInterrupt nr => n ← Interrupt_into nr; Some (Z.lor n (shl 64 1 (XLEN - 1)))
  | TrapException nr => Exception_into nr
  end.

(** ** Cause numbers *)

Lemma Interrupt_into_from i n : Interrupt_into i = Some n -> Interrupt_from n = i.
Proof. destruct i; intros H; simplify_eq/=; done. Qed.

Lemma Exception_into_as_u8 e n : Exception_into e = Some n -> Exception_as_u8 e = n.
Proof. destruct e; intros H; simplify_eq/=; done. Qed.

Lemma Exception_into_range e n : Exception_into e = Some n -> 0 <= n < 16.
Proof. destruct e; intros H; simplify_eq/=; lia. Qed.

Lemma Trap_into_range t n : Trap_into t = Some n -> u64 n.
Proof.
  destruct t as [i|e]; [destruct i | destruct e]; intros H; simplify_eq/=;
    unfold uint; split; vm_compute; done.
Qed.
