(* ===== verification/Alu.v ===== *)
(** * Integer operations (the [ExecTrait] instances of
    src/src/isa/riscv/instruction/exec_function.rs)

    One definition per [Exec*] structure, generic in the element type [T] as in
    the source ([WordType] for scalar code, [u8] to [u64] for vector elements).
    The theorems say which mathematical operation each computes. *)

From S2P Require Import Prelude Utils TrapTypes.

(** The trait's result is a [Result<T, Exception>]; the comparisons also have
    an instance that returns [bool], used by the branches. *)
Definition ExecResult : Type := Res Exception Z.

Definition ExecMove (a : Z) : ExecResult := Ok a.
Definition ExecAdd (t : UInt) (a b : Z) : ExecResult := Ok (wrap (BITS t) (a + b)).
Definition ExecSub (t : UInt) (a b : Z) : ExecResult := Ok (wrap (BITS t) (a - b)).
Definition ExecRevSub (t : UInt) (a b : Z) : ExecResult := Ok (wrap (BITS t) (b - a)).
Definition ExecMulLow (t : UInt) (a b : Z) : ExecResult := Ok (wrap (BITS t) (a * b)).

Definition ExecMulHighUnsigned (t : UInt) (a b : Z) : ExecResult :=
  Ok (truncate_from t (Z.shiftr (a * b) (BITS t))).

Definition ExecMulHighSigned (t : UInt) (a b : Z) : ExecResult :=
  let product := as_signed_i128 t a * as_signed_i128 t b in
  Ok (from_signed_i128 t (Z.shiftr product (BITS t))).

Definition ExecMulHighSignedUnsigned (t : UInt) (a b : Z) : ExecResult :=
  let product := as_signed_i128 t a * b in
  Ok (from_signed_i128 t (Z.shiftr product (BITS t))).

Definition ExecDivSigned (t : UInt) (a b : Z) : ExecResult :=
  if b =? 0 then Ok (MAX t)
  else Ok (from_signed_i128 t (Z.quot (as_signed_i128 t a) (as_signed_i128 t b))).

Definition ExecDivUnsigned (t : UInt) (a b : Z) : ExecResult :=
  if b =? 0 then Ok (MAX t) else Ok (a / b).

Definition ExecRemSigned (t : UInt) (a b : Z) : ExecResult :=
  if b =? 0 then Ok a
  else Ok (from_signed_i128 t (Z.rem (as_signed_i128 t a) (as_signed_i128 t b))).

Definition ExecRemUnsigned (t : UInt) (a b : Z) : ExecResult :=
  if b =? 0 then Ok a else Ok (a mod b).

Definition ExecAddw (a b : Z) : ExecResult :=
  let a := truncate_from U32 a in
  let b := truncate_from U32 b in
  Ok (sign_extend_u32 (wrap 32 (a + b))).

Definition ExecSubw (a b : Z) : ExecResult :=
  let a := truncate_from U32 a in
  let b := truncate_from U32 b in
  Ok (sign_extend_u32 (wrap 32 (a - b))).

Definition ExecMulw (a b : Z) : ExecResult :=
  let a := truncate_from U32 a in
  let b := truncate_from U32 b in
  Ok (sign_extend_u32 (wrap 32 (a * b))).

(** [sa.wrapping_div(sb)] on [i32], then [cast_unsigned]. *)
Definition ExecDivw (a b : Z) : ExecResult :=
  let sa := to_signed 32 (truncate_from U32 a) in
  let sb := to_signed 32 (truncate_from U32 b) in
  if sb =? 0 then Ok (MAX U64) else Ok (sign_extend_u32 (wrap 32 (Z.quot sa sb))).

Definition ExecRemw (a b : Z) : ExecResult :=
  let sa := to_signed 32 (truncate_from U32 a) in
  let sb := to_signed 32 (truncate_from U32 b) in
  if sb =? 0 then Ok (sign_extend_u32 (wrap 32 sa))
  else Ok (sign_extend_u32 (wrap 32 (Z.rem sa sb))).

Definition ExecDivuw (a b : Z) : ExecResult :=
  let sa := truncate_from U32 a in
  let sb := truncate_from U32 b in
  if sb =? 0 then Ok (MAX U64) else Ok (sign_extend_u32 (sa / sb)).

Definition ExecRemuw (a b : Z) : ExecResult :=
  let sa := truncate_from U32 a in
  let sb := truncate_from U32 b in
  if sb =? 0 then Ok (sign_extend_u32 sa) else Ok (sign_extend_u32 (sa mod sb)).

Definition ExecSLL (t : UInt) (a b : Z) : ExecResult := Ok (shl (BITS t) a (shift_amount t b)).
Definition ExecSRL (t : UInt) (a b : Z) : ExecResult := Ok (Z.shiftr a (shift_amount t b)).
Definition ExecSRA (t : UInt) (a b : Z) : ExecResult :=
  Ok (from_signed_i128 t (Z.shiftr (as_signed_i128 t a) (shift_amount t b))).

Definition ExecSLLW (a b : Z) : ExecResult :=
  let a := truncate_from U32 a in
  Ok (sign_extend_u32 (shl 32 a (Z.land (wrap 32 b) 0x1F))).

Definition ExecSRLW (a b : Z) : ExecResult :=
  let a := truncate_from U32 a in
  Ok (sign_extend_u32 (Z.shiftr a (Z.land (wrap 32 b) 0x1F))).

Definition ExecSRAW (a b : Z) : ExecResult :=
  let a := as_signed_i128 U32 (truncate_from U32 a) in
  let shamt := Z.land (wrap 32 b) 0x1F in
  Ok (sign_extend_u32 (wrap 32 (Z.shiftr a shamt))).

Definition ExecZext (tout tin : UInt) (a : Z) : ExecResult := Ok (truncate_from tout a).
Definition ExecSext (tout tin : UInt) (a : Z) : ExecResult :=
  Ok (from_signed_i128 tout (as_signed_i128 tin a)).
Definition ExecNsrl (tout tin : UInt) (a b : Z) : ExecResult :=
  Ok (truncate_from tout (Z.shiftr a (shift_amount tin b))).
Definition ExecNsra (tout tin : UInt) (a b : Z) : ExecResult :=
  Ok (from_signed_i128 tout (Z.shiftr (as_signed_i128 tin a) (shift_amount tin b))).

Definition ExecAnd (a b : Z) : ExecResult := Ok (Z.land a b).
Definition ExecNand (t : UInt) (a b : Z) : ExecResult := Ok (bnot (BITS t) (Z.land a b)).
Definition ExecAndn (t : UInt) (a b : Z) : ExecResult := Ok (Z.land a (bnot (BITS t) b)).
Definition ExecOr (a b : Z) : ExecResult := Ok (Z.lor a b).
Definition ExecNor (t : UInt) (a b : Z) : ExecResult := Ok (bnot (BITS t) (Z.lor a b)).
Definition ExecOrn (t : UInt) (a b : Z) : ExecResult := Ok (Z.lor a (bnot (BITS t) b)).
Definition ExecXor (a b : Z) : ExecResult := Ok (Z.lxor a b).
Definition ExecXnor (t : UInt) (a b : Z) : ExecResult := Ok (bnot (BITS t) (Z.lxor a b)).

Definition ExecMax (t : UInt) (a b : Z) : ExecResult :=
  if as_signed_i128 t b <? as_signed_i128 t a then Ok a else Ok b.
Definition ExecMaxu (a b : Z) : ExecResult := Ok (Z.max a b).
Definition ExecMin (t : UInt) (a b : Z) : ExecResult :=
  if as_signed_i128 t a <? as_signed_i128 t b then Ok a else Ok b.
Definition ExecMinu (a b : Z) : ExecResult := Ok (Z.min a b).

Definition ExecSignedLess_bool (t : UInt) (a b : Z) : bool :=
  as_signed_i128 t a <? as_signed_i128 t b.
Definition ExecSignedLess (t : UInt) (a b : Z) : ExecResult :=
  Ok (Z.b2z (as_signed_i128 t a <? as_signed_i128 t b)).
Definition ExecUnsignedLess_bool (a b : Z) : bool := a <? b.
Definition ExecUnsignedLess (a b : Z) : ExecResult := Ok (Z.b2z (a <? b)).
Definition ExecEqual (a b : Z) : bool := a =? b.
Definition ExecNotEqual (a b : Z) : bool := negb (a =? b).
Definition ExecSignedGreatEqual (t : UInt) (a b : Z) : bool :=
  as_signed_i128 t b <=? as_signed_i128 t a.
Definition ExecUnsignedGreatEqual (a b : Z) : bool := b <=? a.

(** ** Range of the results

    Every binary operation applied to words returns a word and no error. *)
Definition alu_ok (t : UInt) (F : Z -> Z -> ExecResult) : Prop :=
  forall a b, uint (BITS t) a -> uint (BITS t) b -> exists r, F a b = Ok r /\ uint (BITS t) r.

Create HintDb alu.

Ltac alu_wrap :=
  intros a b Ha Hb; eexists; split; [reflexivity|];
  repeat first [apply wrap_range | apply sign_extend_range | rewrite from_signed_i128_spec];
  try (match goal with t : UInt |- _ => pose proof (BITS_pos t) end); lia.

Lemma ExecAdd_ok t : alu_ok t (ExecAdd t).
Proof. alu_wrap. Qed.

Lemma ExecSub_ok t : alu_ok t (ExecSub t).
Proof. alu_wrap. Qed.

Lemma ExecMulLow_ok t : alu_ok t (ExecMulLow t).
Proof. alu_wrap. Qed.

Lemma ExecMulHighUnsigned_ok t : alu_ok t (ExecMulHighUnsigned t).
Proof. alu_wrap. Qed.

Lemma ExecMulHighSigned_ok t : alu_ok t (ExecMulHighSigned t).
Proof. alu_wrap. Qed.

Lemma ExecMulHighSignedUnsigned_ok t : alu_ok t (ExecMulHighSignedUnsigned t).
Proof. alu_wrap. Qed.

Lemma MAX_uint t : uint (BITS t) (MAX t).
Proof. by destruct t. Qed.

Lemma ExecDivSigned_ok t : alu_ok t (ExecDivSigned t).
Proof.
  intros a b Ha Hb. unfold ExecDivSigned. destruct (b =? 0); eexists; (split; [reflexivity|]).
  - apply MAX_uint.
  - rewrite from_signed_i128_spec. apply wrap_range. pose proof (BITS_pos t). lia.
Qed.

Lemma ExecDivUnsigned_ok t : alu_ok t (ExecDivUnsigned t).
Proof.
  intros a b Ha Hb. unfold ExecDivUnsigned.
  destruct (Z.eqb_spec b 0); eexists; (split; [reflexivity|]); [apply MAX_uint|].
  unfold uint in *. split; [apply Z.div_pos; lia|]. apply Z.div_lt_upper_bound; nia.
Qed.

Lemma ExecRemSigned_ok t : alu_ok t (ExecRemSigned t).
Proof.
  intros a b Ha Hb. unfold ExecRemSigned. destruct (b =? 0); eexists; (split; [reflexivity|]).
  - done.
  - rewrite from_signed_i128_spec. apply wrap_range. pose proof (BITS_pos t). lia.
Qed.

Lemma ExecRemUnsigned_ok t : alu_ok t (ExecRemUnsigned t).
Proof.
  intros a b Ha Hb. unfold ExecRemUnsigned.
  destruct (Z.eqb_spec b 0); eexists; (split; [reflexivity|done || idtac]).
  unfold uint in *. pose proof (Z.mod_pos_bound a b). pose proof (Z.mod_le a b). lia.
Qed.

Ltac alu_word :=
  intros a b Ha Hb; cbv beta delta [ExecAddw ExecSubw ExecMulw ExecDivw ExecRemw ExecDivuw
    ExecRemuw ExecSLLW ExecSRLW ExecSRAW sign_extend_u32] zeta;
  try (match goal with |- context [if ?c then _ else _] => destruct c end);
  eexists; (split; [reflexivity|]);
  first [apply sign_extend_range; lia | exact (MAX_uint U64)].

Lemma ExecAddw_ok : alu_ok U64 ExecAddw.
Proof. alu_word. Qed.
Lemma ExecSubw_ok : alu_ok U64 ExecSubw.
Proof. alu_word. Qed.
Lemma ExecMulw_ok : alu_ok U64 ExecMulw.
Proof. alu_word. Qed.
Lemma ExecDivw_ok : alu_ok U64 ExecDivw.
Proof. alu_word. Qed.
Lemma ExecRemw_ok : alu_ok U64 ExecRemw.
Proof. alu_word. Qed.
Lemma ExecDivuw_ok : alu_ok U64 ExecDivuw.
Proof. alu_word. Qed.
Lemma ExecRemuw_ok : alu_ok U64 ExecRemuw.
Proof. alu_word. Qed.
Lemma ExecSLLW_ok : alu_ok U64 ExecSLLW.
Proof. alu_word. Qed.
Lemma ExecSRLW_ok : alu_ok U64 ExecSRLW.
Proof. alu_word. Qed.
Lemma ExecSRAW_ok : alu_ok U64 ExecSRAW.
Proof. alu_word. Qed.

Lemma ExecSLL_ok t : alu_ok t (ExecSLL t).
Proof. alu_wrap. Qed.

Lemma ExecSRL_ok t : alu_ok t (ExecSRL t).
Proof.
  intros a b Ha Hb. eexists. split; [reflexivity|]. pose proof (BITS_pos t).
  apply uint_shiftr; [lia| |done]. rewrite shift_amount_spec. apply Z.mod_pos_bound. lia.
Qed.

Lemma ExecSRA_ok t : alu_ok t (ExecSRA t).
Proof. alu_wrap. Qed.

Ltac alu_bits :=
  intros a b Ha Hb; eexists; split; [reflexivity|];
  first [apply uint_land | apply uint_lor | apply uint_lxor]; done.

Lemma ExecAnd_ok : alu_ok U64 ExecAnd.
Proof. alu_bits. Qed.
Lemma ExecOr_ok : alu_ok U64 ExecOr.
Proof. alu_bits. Qed.
Lemma ExecXor_ok : alu_ok U64 ExecXor.
Proof. alu_bits. Qed.

Lemma b2z_uint w b : 0 < w -> uint w (Z.b2z b).
Proof.
  intros. assert (2 ^ 1 <= 2 ^ w) by (apply Z.pow_le_mono_r; lia).
  unfold uint. destruct b; simpl in *; lia.
Qed.

Lemma ExecSignedLess_ok t : alu_ok t (ExecSignedLess t).
Proof. intros a b Ha Hb. eexists. split; [reflexivity|]. apply b2z_uint, BITS_pos. Qed.

Lemma ExecUnsignedLess_ok : alu_ok U64 ExecUnsignedLess.
Proof. intros a b Ha Hb. eexists. split; [reflexivity|]. by apply b2z_uint. Qed.

#[export] Hint Resolve ExecAdd_ok ExecSub_ok ExecMulLow_ok
  ExecMulHighUnsigned_ok ExecMulHighSigned_ok ExecMulHighSignedUnsigned_ok
  ExecDivSigned_ok ExecDivUnsigned_ok ExecRemSigned_ok ExecRemUnsigned_ok
  ExecAddw_ok ExecSubw_ok ExecMulw_ok ExecDivw_ok ExecRemw_ok ExecDivuw_ok ExecRemuw_ok
  ExecSLL_ok ExecSRL_ok ExecSRA_ok ExecSLLW_ok ExecSRLW_ok ExecSRAW_ok
  ExecAnd_ok ExecOr_ok ExecXor_ok ExecSignedLess_ok ExecUnsignedLess_ok : alu.

(** ** Multiplication *)

(** The high word of [z] joined with the low word of [z] is [z]. *)
Lemma high_low_join w z : 0 <= w -> Z.shiftr z w * 2 ^ w + wrap w z = z.
Proof.
  intros. rewrite Z.shiftr_div_pow2 by lia. unfold wrap.
  pose proof (Z.div_mod z (2 ^ w)). pose proof (pow2_pos w). lia.
Qed.

Lemma shiftr_bounds w z lo hi : 0 <= w -> lo * 2 ^ w <= z < hi * 2 ^ w ->
  lo <= Z.shiftr z w < hi.
Proof.
  intros. rewrite Z.shiftr_div_pow2 by lia. pose proof (pow2_pos w). split.
  - apply Z.div_le_lower_bound; lia.
  - apply Z.div_lt_upper_bound; lia.
Qed.

Lemma signed_double w : 0 < w -> 2 ^ w = 2 * 2 ^ (w - 1).
Proof. intros. rewrite <- Z.pow_succ_r by lia. f_equal. lia. Qed.

Lemma MulLow_signed t a b :
  ExecMulLow t a b = Ok (wrap (BITS t) (to_signed (BITS t) a * to_signed (BITS t) b)).
Proof.
  unfold ExecMulLow. pose proof (BITS_pos t). f_equal.
  rewrite <- (wrap_mul_l _ (to_signed _ a)), wrap_to_signed, wrap_mul_l by lia.
  by rewrite <- (wrap_mul_r _ a (to_signed _ b)), wrap_to_signed, wrap_mul_r by lia.
Qed.

Lemma high_signed_range w p :
  0 < w -> - 2 ^ (w - 1) * 2 ^ w <= p < 2 ^ (w - 1) * 2 ^ w ->
  to_signed w (wrap w (Z.shiftr p w)) = Z.shiftr p w.
Proof. intros. apply to_signed_wrap; [lia|]. apply shiftr_bounds; lia. Qed.

Lemma signed_product_range w a b : 0 < w -> uint w a -> uint w b ->
  - 2 ^ (w - 1) * 2 ^ w <= to_signed w a * to_signed w b < 2 ^ (w - 1) * 2 ^ w.
Proof.
  intros Hw Ha Hb. pose proof (to_signed_range w a Hw Ha). pose proof (to_signed_range w b Hw Hb).
  rewrite (signed_double w Hw). pose proof (pow2_pos (w - 1)). nia.
Qed.

Lemma mixed_product_range w a b : 0 < w -> uint w a -> uint w b ->
  - 2 ^ (w - 1) * 2 ^ w <= to_signed w a * b < 2 ^ (w - 1) * 2 ^ w.
Proof.
  intros Hw Ha Hb. pose proof (to_signed_range w a Hw Ha). unfold uint in Hb.
  pose proof (pow2_pos (w - 1)). nia.
Qed.

(** MUL with MULH, MULHU or MULHSU is the exact double-width product: the high
    result read as signed (MULH, MULHSU) or unsigned (MULHU), times [2^w], plus
    the low result is the product of the operands read with their signedness,
    modulo the low word that all three products share. *)
Theorem mul_pair_exact t a b :
  uint (BITS t) a -> uint (BITS t) b ->
  exists lo h hu hsu,
    ExecMulLow t a b = Ok lo /\
    ExecMulHighSigned t a b = Ok h /\
    ExecMulHighUnsigned t a b = Ok hu /\
    ExecMulHighSignedUnsigned t a b = Ok hsu /\
    to_signed (BITS t) h * 2 ^ BITS t + lo = to_signed (BITS t) a * to_signed (BITS t) b /\
    hu * 2 ^ BITS t + lo = a * b /\
    to_signed (BITS t) hsu * 2 ^ BITS t + lo = to_signed (BITS t) a * b.
Proof.
  intros Ha Hb. pose proof (BITS_pos t) as Hw.
  unfold ExecMulHighSigned, ExecMulHighUnsigned, ExecMulHighSignedUnsigned, truncate_from.
  rewrite !as_signed_i128_spec, !from_signed_i128_spec by done.
  eexists _, _, _, _. do 4 (split; [reflexivity|]).
  assert (wrap (BITS t) (a * b) = wrap (BITS t) (to_signed (BITS t) a * to_signed (BITS t) b)) as E1
    by (pose proof (MulLow_signed t a b) as E; by injection E).
  assert (wrap (BITS t) (a * b) = wrap (BITS t) (to_signed (BITS t) a * b)) as E2
    by (by rewrite <- (wrap_mul_l _ (to_signed _ a)), wrap_to_signed, wrap_mul_l by lia).
  repeat split.
  - rewrite E1, high_signed_range by (auto using signed_product_range). apply high_low_join. lia.
  - rewrite (wrap_small (BITS t) (Z.shiftr _ _)); [apply high_low_join; lia|].
    apply shiftr_bounds; [lia|]. unfold uint in Ha, Hb. pose proof (pow2_pos (BITS t)). nia.
  - rewrite E2, high_signed_range by (auto using mixed_product_range). apply high_low_join. lia.
Qed.

Lemma mul_pair_exact_witness :
  exists lo h hu hsu,
    ExecMulLow U64 (2 ^ 63) 3 = Ok lo /\
    ExecMulHighSigned U64 (2 ^ 63) 3 = Ok h /\
    ExecMulHighUnsigned U64 (2 ^ 63) 3 = Ok hu /\
    ExecMulHighSignedUnsigned U64 (2 ^ 63) 3 = Ok hsu /\
    to_signed 64 h * 2 ^ 64 + lo = - 2 ^ 63 * 3 /\
    hu * 2 ^ 64 + lo = 2 ^ 63 * 3 /\
    to_signed 64 hsu * 2 ^ 64 + lo = - 2 ^ 63 * 3.
Proof. apply (mul_pair_exact U64 (2 ^ 63) 3); unfold uint; simpl; lia. Defined.

(** ** Division *)

Lemma quot_range w a b : 0 < w -> b <> 0 ->
  - 2 ^ (w - 1) <= a < 2 ^ (w - 1) -> ~ (a = - 2 ^ (w - 1) /\ b = -1) ->
  - 2 ^ (w - 1) <= Z.quot a b < 2 ^ (w - 1).
Proof.
  intros Hw Hb Ha Hov. pose proof (pow2_pos (w - 1)).
  pose proof (Z.quot_rem' a b) as E. pose proof (Z.rem_bound_abs a b Hb).
  assert (Z.abs (Z.quot a b) * Z.abs b <= Z.abs a).
  { rewrite <- Z.abs_mul, Z.mul_comm. pose proof (Z.rem_sign_mul a b Hb).
    pose proof (Z.mul_quot_le (Z.abs a) (Z.abs b) ltac:(lia) ltac:(lia)).
    rewrite Z.quot_abs in H2 by lia. rewrite Z.abs_mul. lia. }
  destruct (decide (Z.abs b = 1)); [|nia].
  assert (b = 1 \/ b = -1) as [->| ->] by lia.
  - rewrite Z.quot_1_r. lia.
  - change (-1) with (- (1)). rewrite Z.quot_opp_r, Z.quot_1_r by lia. lia.
Qed.

Lemma rem_range w a b : 0 < w -> b <> 0 ->
  - 2 ^ (w - 1) <= b < 2 ^ (w - 1) -> - 2 ^ (w - 1) <= Z.rem a b < 2 ^ (w - 1).
Proof. intros Hw Hb Hr. pose proof (Z.rem_bound_abs a b Hb). lia. Qed.

Lemma to_signed_0_iff w b : 0 < w -> uint w b -> to_signed w b = 0 <-> b = 0.
Proof.
  intros Hw Hb. unfold to_signed, uint in *. pose proof (signed_double w Hw).
  pose proof (pow2_pos (w - 1)). destruct (Z.ltb_spec b (2 ^ (w - 1))); lia.
Qed.

(** DIV and REM: division by zero gives all ones and the dividend, the one
    overflowing quotient gives the dividend and remainder 0, and every other
    pair is the division that rounds towards zero. *)
Theorem div_rem_signed t a b :
  uint (BITS t) a -> uint (BITS t) b ->
  let s := to_signed (BITS t) in
  exists q r, ExecDivSigned t a b = Ok q /\ ExecRemSigned t a b = Ok r /\
    (if b =? 0 then q = MAX t /\ r = a
     else if (s a =? - 2 ^ (BITS t - 1)) && (s b =? -1) then q = a /\ r = 0
     else s a = s b * s q + s r /\ Z.abs (s r) < Z.abs (s b) /\ 0 <= s r * s a).
Proof.
  intros Ha Hb s. pose proof (BITS_pos t) as Hw.
  unfold ExecDivSigned, ExecRemSigned. destruct (Z.eqb_spec b 0) as [|Hb0]; [by eexists _, _|].
  rewrite !from_signed_i128_spec, !as_signed_i128_spec by done.
  eexists _, _. do 2 (split; [reflexivity|]).
  assert (s b <> 0) as Hs0 by (unfold s; by rewrite to_signed_0_iff).
  pose proof (to_signed_range _ a Hw Ha) as Ra. pose proof (to_signed_range _ b Hw Hb) as Rb.
  fold (s a) (s b) in *.
  destruct (Z.eqb_spec (s a) (- 2 ^ (BITS t - 1))) as [Emin|]; destruct (Z.eqb_spec (s b) (-1)) as [E1|];
    cbn [andb].
  1: { rewrite E1. change (-1) with (- (1)).
    rewrite Z.quot_opp_r, Z.rem_opp_r, Z.quot_1_r, Z.rem_1_r by lia.
    split; [|by apply wrap_small, uint_0; lia].
    replace (- s a) with (s a + 1 * 2 ^ BITS t) by (rewrite (signed_double (BITS t)) by lia; lia).
    rewrite wrap_add_pow2 by lia. unfold s. rewrite wrap_to_signed by lia. by apply wrap_small. }
  all: assert (s (wrap (BITS t) (Z.quot (s a) (s b))) = Z.quot (s a) (s b)) as ->
    by (apply to_signed_wrap; [lia|]; apply quot_range; lia);
    assert (s (wrap (BITS t) (Z.rem (s a) (s b))) = Z.rem (s a) (s b)) as ->
    by (apply to_signed_wrap; [lia|]; apply rem_range; lia);
    pose proof (Z.rem_bound_abs (s a) (s b)); pose proof (Z.rem_sign_mul (s a) (s b));
    split; [apply Z.quot_rem'|]; split; lia.
Qed.

Lemma div_rem_signed_witness :
  let s := to_signed 64 in
  exists q r, (ExecDivSigned U64 (2 ^ 64 - 7) 2 = Ok q) /\ ExecRemSigned U64 (2 ^ 64 - 7) 2 = Ok r /\
    s (2 ^ 64 - 7) = s 2 * s q + s r /\ Z.abs (s r) < Z.abs (s 2) /\ 0 <= s r * s (2 ^ 64 - 7).
Proof. apply (div_rem_signed U64 (2 ^ 64 - 7) 2); unfold uint; simpl; lia. Defined.

(** ** The 32-bit variants *)

Lemma truncate_u32_uint z : uint 32 (truncate_from U32 z).
Proof. by apply wrap_range. Qed.

Lemma land_1f z : Z.land (wrap 32 z) 0x1F = shift_amount U32 (truncate_from U32 z).
Proof. unfold shift_amount, truncate_from. by rewrite wrap_wrap. Qed.

(** Every W instruction is the 32-bit operation on the low words of its
    operands, its result sign-extended to 64 bits (division by zero and
    overflow included). *)
Theorem word_ops_are_u32_ops a b :
  let f32 (F : Z -> Z -> ExecResult) :=
    res_map sign_extend_u32 (F (truncate_from U32 a) (truncate_from U32 b)) in
  ExecAddw a b = f32 (ExecAdd U32) /\ ExecSubw a b = f32 (ExecSub U32) /\
  ExecMulw a b = f32 (ExecMulLow U32) /\
  ExecDivw a b = f32 (ExecDivSigned U32) /\ ExecDivuw a b = f32 (ExecDivUnsigned U32) /\
  ExecRemw a b = f32 (ExecRemSigned U32) /\ ExecRemuw a b = f32 (ExecRemUnsigned U32) /\
  ExecSLLW a b = f32 (ExecSLL U32) /\ ExecSRLW a b = f32 (ExecSRL U32) /\
  ExecSRAW a b = f32 (ExecSRA U32).
Proof.
  intros f32. subst f32.
  pose proof (truncate_u32_uint a) as Ha. pose proof (truncate_u32_uint b) as Hb.
  assert (sign_extend_u32 (MAX U32) = MAX U64) as Emax by reflexivity.
  pose proof (to_signed_0_iff 32 _ ltac:(lia) Hb) as Hz.
  unfold ExecDivw, ExecRemw, ExecDivuw, ExecRemuw, ExecSLLW, ExecSRLW, ExecSRAW,
    ExecDivSigned, ExecRemSigned, ExecDivUnsigned, ExecRemUnsigned, ExecSLL, ExecSRL, ExecSRA.
  rewrite !as_signed_i128_spec, !from_signed_i128_spec, !land_1f by done.
  cbn [BITS res_map].
  repeat split; try reflexivity.
  - destruct (Z.eqb_spec (truncate_from U32 b) 0), (Z.eqb_spec (to_signed 32 (truncate_from U32 b)) 0);
      simpl; rewrite ?Emax; tauto.
  - destruct (_ =? 0); simpl; by rewrite ?Emax.
  - rewrite wrap_to_signed, (wrap_small 32) by done.
    destruct (Z.eqb_spec (truncate_from U32 b) 0), (Z.eqb_spec (to_signed 32 (truncate_from U32 b)) 0);
      simpl; tauto.
  - by destruct (_ =? 0).
Qed.
