(* ===== verification/Ram.v ===== *)
(** * Physical memory (src/src/ram.rs)

    A byte store of [SIZE] bytes with the hart's LR/SC reservation.  The boxed
    slice is a fill byte with a finite map of overrides; [data_ptr] is the host
    address of the slice, because the alignment checks of [read_raw_ptr] and
    [write_raw_ptr] look at the host pointer. *)

From S2P Require Import Prelude Utils TrapTypes.

Inductive RamImageError : Type :=
| AddressOverflow (start size : Z)
| OutOfRange (start size ram_size : Z).

Definition RESERVATION_SET_BIT_WIDTH : Z := 3.

Record Reservation : Type := { reservation_set_id : Z }.

Definition Reservation_new (addr : Z) : Reservation :=
  {| reservation_set_id := Z.shiftr addr RESERVATION_SET_BIT_WIDTH |}.

Definition in_the_same_reservation_set (res : Reservation) (addr : Z) : bool :=
  reservation_set_id res =? Z.shiftr addr RESERVATION_SET_BIT_WIDTH.

Record Ram : Type := {
  data_ptr : Z;
  fill : Z;
  data : gmap Z Z;
  reserved : option Reservation
}.

Definition set_data (f : gmap Z Z -> gmap Z Z) (r : Ram) : Ram :=
  {| data_ptr := data_ptr r; fill := fill r; data := f (data r); reserved := reserved r |}.
Definition set_reserved (o : option Reservation) (r : Ram) : Ram :=
  {| data_ptr := data_ptr r; fill := fill r; data := data r; reserved := o |}.

(** The byte at offset [i] of the slice. *)
Definition byte_at (r : Ram) (i : Z) : Z := default (fill r) (data r !! i).

Definition with_init (ptr byte : Z) : Ram :=
  {| data_ptr := ptr; fill := byte; data := ∅; reserved := None |}.
Definition Ram_new (ptr : Z) : Ram := with_init ptr 0.

(** Copy [bs] into the slice from offset [i] on. *)
Fixpoint store_bytes (i : Z) (bs : list Z) (m : gmap Z Z) : gmap Z Z :=
  match bs with
  | [] => m
  | b :: bs => store_bytes (i + 1) bs (<[i := b]> m)
  end.

Definition with_data (ptr : Z) (bs : list Z) : option Ram :=
  if SIZE <? Z.of_nat (length bs) then None
  else Some (set_data (store_bytes 0 bs) (Ram_new ptr)).

(** [usize] is 64 bits: [try_from] succeeds and [checked_add] fails at [2^64]. *)
Definition try_insert_section (section_data : list Z) (start_addr : Z) : M Ram RamImageError unit :=
  let size := Z.of_nat (length section_data) in
  if 2 ^ 64 <=? start_addr + size then err (AddressOverflow start_addr size)
  else if SIZE <? start_addr + size then err (OutOfRange start_addr size SIZE)
  else modify (set_data (store_bytes start_addr section_data)).

Definition insert_section (section_data : list Z) (start_addr : Z) : M Ram RamImageError unit :=
  fun r => match try_insert_section section_data start_addr r with
           | (Err _, r') => (Panic, r')
           | p => p
           end.

Definition contains_access (t : UInt) (addr : Z) : bool :=
  (addr + size_of t <? 2 ^ 64) && (addr + size_of t <=? SIZE).

(** Little-endian value of the [n] bytes from [i] on. *)
Fixpoint load_le (r : Ram) (i : Z) (n : nat) : Z :=
  match n with
  | O => 0
  | S n => byte_at r i + Z.shiftl (load_le r (i + 1) n) 8
  end.

(** The [n] low bytes of [v], least significant first. *)
Fixpoint split_le (n : nat) (v : Z) : list Z :=
  match n with
  | O => []
  | S n => Z.land v 0xFF :: split_le n (Z.shiftr v 8)
  end.

Definition nbytes (t : UInt) : nat := Z.to_nat (size_of t).

Definition read_raw_ptr (t : UInt) (r : Ram) (i : Z) : option Z :=
  if Z.land (data_ptr r + i) (ALIGN_ILST t) =? 0 then Some (load_le r i (nbytes t)) else None.

Definition write_raw_ptr (t : UInt) (r : Ram) (i v : Z) : option Ram :=
  if Z.land (data_ptr r + i) (ALIGN_ILST t) =? 0
  then Some (set_data (store_bytes i (split_le (nbytes t) v)) r) else None.

Definition read (t : UInt) (addr : Z) : M Ram MemError Z :=
  fun r =>
    if negb (contains_access t addr) then (Err MemLoadFault, r)
    else match read_raw_ptr t r addr with
         | Some v => (Ok v, r)
         | None => (Err MemLoadMisaligned, r)
         end.

Definition load_reserved (t : UInt) (addr : Z) : M Ram MemError Z :=
  v <- read t addr ;;
  modify (set_reserved (Some (Reservation_new addr))) ;;;
  ret v.

Definition clear_reservation : M Ram MemError unit := modify (set_reserved None).

Definition try_invalidate_reservation (addr : Z) (r : Ram) : Ram :=
  match reserved r with
  | Some res => if in_the_same_reservation_set res addr then set_reserved None r else r
  | None => r
  end.

Definition write (t : UInt) (addr v : Z) : M Ram MemError unit :=
  fun r =>
    if negb (contains_access t addr) then (Err MemStoreFault, r)
    else let r := try_invalidate_reservation addr r in
         match write_raw_ptr t r addr v with
         | Some r' => (Ok tt, r')
         | None => (Err MemStoreMisaligned, r)
         end.

Definition store_conditional `{Profile} (t : UInt) (addr v : Z) : M Ram MemError bool :=
  fun r =>
    if debug_assertions && (SIZE <=? addr) then (Err MemStoreFault, set_reserved None r)
    else match reserved r with
         | Some res =>
             if in_the_same_reservation_set res addr then (write t addr v ;;; ret true) r
             else (Ok false, set_reserved None r)
         | None => (Ok false, set_reserved None r)
         end.

(** ** Well-formed memory: every byte is a byte. *)
Definition ram_wf (r : Ram) : Prop :=
  uint 8 (fill r) /\ map_Forall (fun _ b => uint 8 b) (data r).

(** The allocation is aligned at least to 8 bytes. *)
Definition ptr_aligned (r : Ram) : Prop := (8 | data_ptr r).

(** ** Byte-level lemmas *)

Lemma byte_at_wf r i : ram_wf r -> uint 8 (byte_at r i).
Proof.
  intros [Hf Hd]. unfold byte_at. destruct (data r !! i) eqn:E; simpl; [|done].
  exact (Hd _ _ E).
Qed.

Lemma store_bytes_lookup bs i m j :
  store_bytes i bs m !! j =
    if (i <=? j) && (j <? i + Z.of_nat (length bs)) then bs !! Z.to_nat (j - i) else m !! j.
Proof.
  revert i m. induction bs as [|b bs IH]; intros i m; simpl.
  - split_ltb; simpl; done || lia.
  - rewrite IH. destruct (decide (i = j)) as [->|Hne].
    + rewrite lookup_insert_eq. split_ltb; simpl; try lia. by rewrite Z.sub_diag.
    + rewrite lookup_insert_ne by done. split_ltb; simpl; try (done || lia).
      replace (Z.to_nat (j - i)) with (S (Z.to_nat (j - (i + 1)))) by lia. done.
Qed.

Lemma store_bytes_Forall P bs i m :
  Forall P bs -> map_Forall (fun _ b => P b) m -> map_Forall (fun _ b => P b) (store_bytes i bs m).
Proof.
  intros Hbs. revert i m. induction Hbs; intros i m Hm; simpl; [done|].
  apply IHHbs. by apply map_Forall_insert_2.
Qed.

Lemma split_le_length n v : length (split_le n v) = n.
Proof. revert v. induction n; intros; simpl; auto. Qed.

Lemma land_ff v : Z.land v 0xFF = wrap 8 v.
Proof. symmetry. by apply wrap_land. Qed.

Lemma split_le_bytes n v : Forall (uint 8) (split_le n v).
Proof.
  revert v. induction n; intros; simpl; constructor; auto.
  rewrite land_ff. by apply wrap_range.
Qed.

(** Byte [k] of a word is its bits [8k .. 8k+7]. *)
Lemma split_le_lookup n v k : (k < n)%nat ->
  split_le n v !! k = Some (wrap 8 (Z.shiftr v (8 * Z.of_nat k))).
Proof.
  revert v k. induction n as [|n IH]; intros v k Hk; [lia|].
  destruct k as [|k]; cbn [split_le lookup list_lookup].
  - by rewrite land_ff, Z.shiftr_0_r.
  - rewrite IH by lia. do 2 f_equal. rewrite Z.shiftr_shiftr by lia. f_equal. lia.
Qed.

Lemma load_le_range r i n : ram_wf r -> uint (8 * Z.of_nat n) (load_le r i n).
Proof.
  intros Hr. revert i. induction n as [|n IH]; intros i; [done|].
  cbn [load_le]. pose proof (byte_at_wf r i Hr) as Hb. specialize (IH (i + 1)).
  unfold uint in *. rewrite Z.shiftl_mul_pow2 by lia.
  replace (8 * Z.of_nat (S n)) with (8 + 8 * Z.of_nat n) by lia.
  rewrite Z.pow_add_r by lia. nia.
Qed.

Lemma load_le_ext r r' i n :
  (forall j, i <= j < i + Z.of_nat n -> byte_at r j = byte_at r' j) ->
  load_le r i n = load_le r' i n.
Proof.
  revert i. induction n as [|n IH]; intros i H; [done|]. cbn [load_le].
  rewrite H by lia. by rewrite (IH (i + 1)) by (intros; apply H; lia).
Qed.

(** Bytes that spell [v] load as [v]. *)
Lemma load_le_split r i n v :
  0 <= v -> (forall k, (k < n)%nat -> byte_at r (i + Z.of_nat k) = wrap 8 (Z.shiftr v (8 * Z.of_nat k))) ->
  load_le r i n = wrap (8 * Z.of_nat n) v.
Proof.
  revert i v. induction n as [|n IH]; intros i v Hv H.
  - change (0 = v mod 1). by rewrite Z.mod_1_r.
  - cbn [load_le]. rewrite (IH (i + 1) (Z.shiftr v 8)).
    + pose proof (H 0%nat ltac:(lia)) as H0. rewrite Z.add_0_r, Z.shiftr_0_r in H0. rewrite H0.
      unfold wrap. rewrite Z.shiftl_mul_pow2, Z.shiftr_div_pow2 by lia.
      replace (8 * Z.of_nat (S n)) with (8 + 8 * Z.of_nat n) by lia.
      rewrite Z.pow_add_r, Z.rem_mul_r by lia. lia.
    + by apply Z.shiftr_nonneg.
    + intros k Hk. replace (i + 1 + Z.of_nat k) with (i + Z.of_nat (S k)) by lia.
      rewrite H by lia. rewrite Z.shiftr_shiftr by lia. do 2 f_equal. lia.
Qed.

Lemma nbytes_bits t : 8 * Z.of_nat (nbytes t) = BITS t.
Proof. by destruct t. Qed.
Lemma nbytes_size t : Z.of_nat (nbytes t) = size_of t.
Proof. by destruct t. Qed.

(** With an aligned allocation the host pointer check is the guest alignment
    check. *)
Lemma ptr_align t r i : ptr_aligned r ->
  (Z.land (data_ptr r + i) (ALIGN_ILST t) =? 0) = check_align t i.
Proof.
  intros [k Hk]. unfold check_align. f_equal. rewrite Hk.
  assert (exists n, ALIGN_ILST t = Z.ones n /\ 0 <= n <= 3) as (n & -> & Hn).
  { destruct t; [exists 0|exists 1|exists 2|exists 3]; simpl; split; try done; lia. }
  rewrite !Z.land_ones by lia.
  replace 8 with (2 ^ (3 - n) * 2 ^ n) by (rewrite <- Z.pow_add_r by lia; by replace (3 - n + n) with 3 by lia).
  rewrite Z.mul_assoc, Z.add_comm. apply Z_mod_plus_full.
Qed.

(** ** Exact behaviour of reads and writes *)

Definition in_ram (t : UInt) (addr : Z) : Prop := 0 <= addr /\ addr + size_of t <= SIZE.

Lemma contains_access_spec t addr : 0 <= addr -> contains_access t addr = true <-> in_ram t addr.
Proof.
  intros Ha. unfold contains_access, in_ram, SIZE. rewrite andb_true_iff, Z.ltb_lt, Z.leb_le.
  rewrite Z.shiftl_mul_pow2 by lia. lia.
Qed.

Lemma read_spec t addr r : ptr_aligned r ->
  read t addr r =
    (if negb (contains_access t addr) then Err MemLoadFault
     else if check_align t addr then Ok (load_le r addr (nbytes t)) else Err MemLoadMisaligned, r).
Proof.
  intros Hp. unfold read, read_raw_ptr. rewrite ptr_align by done.
  destruct (contains_access t addr), (check_align t addr); done.
Qed.

Lemma try_invalidate_data addr r :
  data (try_invalidate_reservation addr r) = data r /\
  fill (try_invalidate_reservation addr r) = fill r /\
  data_ptr (try_invalidate_reservation addr r) = data_ptr r.
Proof.
  unfold try_invalidate_reservation.
  destruct (reserved r) as [res|]; [|done]. by destruct (in_the_same_reservation_set res addr).
Qed.

Lemma write_spec t addr v r : ptr_aligned r ->
  write t addr v r =
    if negb (contains_access t addr) then (Err MemStoreFault, r)
    else let r1 := try_invalidate_reservation addr r in
         if check_align t addr
         then (Ok tt, set_data (store_bytes addr (split_le (nbytes t) v)) r1)
         else (Err MemStoreMisaligned, r1).
Proof.
  intros Hp. destruct (try_invalidate_data addr r) as (_ & _ & Hptr).
  unfold write, write_raw_ptr. rewrite ptr_align by (unfold ptr_aligned; by rewrite Hptr).
  destruct (contains_access t addr); [|done]. simpl. by destruct (check_align t addr).
Qed.

(** The bytes after a store: those of [v] inside the access, the old ones
    elsewhere. *)
Lemma byte_at_store t addr v r j :
  byte_at (set_data (store_bytes addr (split_le (nbytes t) v)) (try_invalidate_reservation addr r)) j =
    if (addr <=? j) && (j <? addr + size_of t) then wrap 8 (Z.shiftr v (8 * (j - addr)))
    else byte_at r j.
Proof.
  destruct (try_invalidate_data addr r) as (Hd & Hf & _).
  unfold byte_at. simpl. rewrite Hd, Hf, store_bytes_lookup, split_le_length, nbytes_size.
  destruct ((addr <=? j) && (j <? addr + size_of t)) eqn:E; [|done].
  apply andb_true_iff in E as [E1%Z.leb_le E2%Z.ltb_lt].
  rewrite split_le_lookup by (rewrite <- (Nat2Z.id (nbytes t)), nbytes_size; lia).
  simpl. do 2 f_equal. lia.
Qed.

Lemma write_Ok_inv t addr v r r' : ptr_aligned r -> write t addr v r = (Ok tt, r') ->
  contains_access t addr = true /\ check_align t addr = true /\
  r' = set_data (store_bytes addr (split_le (nbytes t) v)) (try_invalidate_reservation addr r).
Proof.
  intros Hp Hw. rewrite write_spec in Hw by done.
  destruct (contains_access t addr); [|done]. simpl in Hw.
  destruct (check_align t addr); [|done]. by injection Hw.
Qed.

Lemma write_ptr t addr v r x r' : write t addr v r = (x, r') -> data_ptr r' = data_ptr r.
Proof.
  destruct (try_invalidate_data addr r) as (_ & _ & Hp).
  unfold write, write_raw_ptr. repeat case_match; intros [= <- <-]; naive_solver.
Qed.

Lemma write_wf t addr v r x r' : ram_wf r -> write t addr v r = (x, r') -> ram_wf r'.
Proof.
  intros [Hf Hd]. destruct (try_invalidate_data addr r) as (Ed & Ef & Ep).
  unfold write, write_raw_ptr. repeat case_match; intros [= <- <-]; simplify_eq;
    unfold ram_wf; simpl; rewrite ?Ef, ?Ed; try done.
  split; [done|]. by apply store_bytes_Forall; [apply split_le_bytes|].
Qed.

(** A store of [v] is seen by a load of the same width at the same address, and
    every load that does not overlap it is unchanged, its error if any
    included. *)
Theorem ram_read_after_write t addr v r r' :
  ptr_aligned r -> 0 <= addr -> uint (BITS t) v ->
  write t addr v r = (Ok tt, r') ->
  read t addr r' = (Ok v, r') /\
  forall t2 addr2, addr2 + size_of t2 <= addr \/ addr + size_of t <= addr2 ->
    fst (read t2 addr2 r') = fst (read t2 addr2 r).
Proof.
  intros Hp Ha Hv Hw. pose proof (write_ptr _ _ _ _ _ _ Hw) as Ep.
  assert (ptr_aligned r') as Hp' by (unfold ptr_aligned; by rewrite Ep).
  apply write_Ok_inv in Hw as (Hc & Hal & ->); [|done]. split.
  - rewrite read_spec, Hc, Hal by done. simpl. do 2 f_equal.
    rewrite (load_le_split _ _ _ v), nbytes_bits; [by apply wrap_small|apply Hv|].
    intros k Hk. rewrite byte_at_store.
    assert (Z.of_nat k < size_of t) by (rewrite <- nbytes_size; lia).
    split_ltb; simpl; try lia. do 3 f_equal. lia.
  - intros t2 addr2 Hdis. rewrite !read_spec by done. simpl. repeat case_match; try done.
    f_equal. apply load_le_ext. intros j Hj. rewrite nbytes_size in Hj. rewrite byte_at_store.
    split_ltb; simpl; try lia; done.
Qed.

Lemma ram_read_after_write_witness :
  let r := Ram_new 4096 in
  let r' := snd (write U32 8 0x12345678 r) in
  read U32 8 r' = (Ok 0x12345678, r') /\ fst (read U16 12 r') = fst (read U16 12 r).
Proof.
  intros r r'.
  assert (write U32 8 0x12345678 r = (Ok tt, r')) as Hw by (vm_compute; reflexivity).
  destruct (ram_read_after_write U32 8 0x12345678 r r') as [H1 H2].
  - exists 512. reflexivity.
  - lia.
  - unfold uint. simpl. lia.
  - exact Hw.
  - split; [exact H1|]. apply H2. simpl. lia.
Defined.

(** Little-endian layout: each byte load inside a stored word is the matching
    byte of the value. *)
Theorem ram_write_little_endian t addr v r r' k :
  ptr_aligned r -> 0 <= addr -> 0 <= k < size_of t ->
  write t addr v r = (Ok tt, r') ->
  read U8 (addr + k) r' = (Ok (extract_range U64 (wrap 64 v) (8 * k) (8 * k + 7)), r').
Proof.
  intros Hp Ha Hk Hw. pose proof (write_ptr _ _ _ _ _ _ Hw) as Ep.
  assert (ptr_aligned r') as Hp' by (unfold ptr_aligned; by rewrite Ep).
  apply write_Ok_inv in Hw as (Hc & Hal & ->); [|done].
  assert (size_of t <= 8) by (by destruct t).
  rewrite read_spec by done.
  assert (contains_access U8 (addr + k) = true) as ->.
  { apply contains_access_spec in Hc as [_ Hc]; [|lia]. apply contains_access_spec; [lia|].
    split; simpl; lia. }
  assert (check_align U8 (addr + k) = true) as -> by (apply check_align_spec; apply Z.divide_1_l).
  change (nbytes U8) with 1%nat. cbn [negb load_le].
  rewrite Z.shiftl_0_l, Z.add_0_r, byte_at_store.
  rewrite extract_range_spec by (simpl; lia).
  destruct ((addr <=? addr + k) && (addr + k <? addr + size_of t)) eqn:E;
    [|apply andb_false_iff in E; rewrite Z.leb_gt, Z.ltb_ge in E; lia].
  do 2 f_equal. replace (addr + k - addr) with k by lia.
  replace (8 * k + 7 - 8 * k + 1) with 8 by lia. fold (wrap 8 (Z.shiftr (wrap 64 v) (8 * k))).
  bitwise i. split_ltb; simpl; done || lia.
Qed.

Lemma ram_write_little_endian_witness :
  let r' := snd (write U32 8 0x12345678 (Ram_new 4096)) in
  read U8 (8 + 1) r' = (Ok 0x56, r').
Proof.
  intros r'.
  apply (ram_write_little_endian U32 8 0x12345678 (Ram_new 4096) r' 1).
  - exists 512. reflexivity.
  - lia.
  - simpl. lia.
  - vm_compute. reflexivity.
Defined.

(** ** Load-reserved and store-conditional over whole executions *)
Section LrSc.
Context `{Profile}.

Inductive RamOp : Type :=
| OpRead (t : UInt) (addr : Z)
| OpWrite (t : UInt) (addr v : Z)
| OpLR (t : UInt) (addr : Z)
| OpSC (t : UInt) (addr v : Z)
| OpClear.

Definition run_op (r : Ram) (op : RamOp) : Ram :=
  match op with
  | OpRead t addr => snd (read t addr r)
  | OpWrite t addr v => snd (write t addr v r)
  | OpLR t addr => snd (load_reserved t addr r)
  | OpSC t addr v => snd (store_conditional t addr v r)
  | OpClear => snd (clear_reservation r)
  end.

Definition run_ops : Ram -> list RamOp -> Ram := foldl run_op.

Definition accessible (t : UInt) (addr : Z) : bool := contains_access t addr && check_align t addr.

Definition same_set (a b : Z) : bool :=
  Z.shiftr a RESERVATION_SET_BIT_WIDTH =? Z.shiftr b RESERVATION_SET_BIT_WIDTH.

(** [keeps a0 op]: [op] does not end the reservation made by an LR at [a0]. *)
Definition keeps (a0 : Z) (op : RamOp) : bool :=
  match op with
  | OpRead _ _ => true
  | OpWrite t addr _ => negb (contains_access t addr && same_set a0 addr)
  | OpLR t addr => negb (accessible t addr)
  | OpSC t addr _ => same_set a0 addr && negb (contains_access t addr)
  | OpClear => false
  end.

Lemma run_op_ptr r op : data_ptr (run_op r op) = data_ptr r.
Proof.
  destruct op; simpl; try done.
  - unfold read. by repeat case_match.
  - destruct (write t addr v r) eqn:E. by apply write_ptr in E.
  - unfold load_reserved, bind, read, modify. repeat case_match; simplify_eq; done.
  - unfold store_conditional, bind.
    repeat case_match; simplify_eq; try done;
      match goal with E : write _ _ _ _ = _ |- _ => by apply write_ptr in E end.
Qed.

Lemma run_ops_ptr r ops : data_ptr (run_ops r ops) = data_ptr r.
Proof.
  revert r. induction ops as [|op ops IH]; intros r; [done|]. simpl. by rewrite IH, run_op_ptr.
Qed.

Lemma write_reserved t addr v r : ptr_aligned r ->
  reserved (snd (write t addr v r)) =
    if contains_access t addr then reserved (try_invalidate_reservation addr r) else reserved r.
Proof.
  intros Hp. rewrite write_spec by done.
  destruct (contains_access t addr); [|done]. simpl. by destruct (check_align t addr).
Qed.

Lemma invalidate_reserved addr a0 r : reserved r = Some (Reservation_new a0) ->
  reserved (try_invalidate_reservation addr r) =
    if same_set a0 addr then None else Some (Reservation_new a0).
Proof.
  intros E. unfold try_invalidate_reservation. rewrite E.
  unfold in_the_same_reservation_set, same_set. simpl. by case_match.
Qed.

Lemma invalidate_none addr r : reserved r = None ->
  reserved (try_invalidate_reservation addr r) = None.
Proof. intros E. unfold try_invalidate_reservation. by rewrite E. Qed.

Lemma SIZE_value : SIZE = 2 ^ 29.
Proof. reflexivity. Qed.

Lemma same_set_in_ram t a0 addr :
  contains_access t a0 = true -> same_set a0 addr = true -> addr < SIZE.
Proof.
  unfold contains_access, same_set, RESERVATION_SET_BIT_WIDTH.
  rewrite andb_true_iff, Z.ltb_lt, Z.leb_le, Z.eqb_eq, !Z.shiftr_div_pow2, SIZE_value by lia.
  assert (0 < size_of t) by (by destruct t). change (2 ^ 3) with 8. intros [_ Hc] E.
  pose proof (Z.div_mod addr 8 ltac:(lia)). pose proof (Z.mod_pos_bound addr 8 ltac:(lia)).
  assert (a0 / 8 < 2 ^ 26) by (apply Z.div_lt_upper_bound; lia). lia.
Qed.

(** One step: the reservation survives exactly the operations [keeps] lists. *)
Lemma run_op_held r op t0 a0 :
  ptr_aligned r -> contains_access t0 a0 = true -> reserved r = Some (Reservation_new a0) ->
  reserved (run_op r op) =
    if keeps a0 op then Some (Reservation_new a0)
    else match op with OpLR _ addr => Some (Reservation_new addr) | _ => None end.
Proof.
  intros Hp Hc Hr. destruct op as [t addr|t addr v|t addr|t addr v|]; cbn [run_op keeps].
  - by rewrite read_spec.
  - rewrite write_reserved, (invalidate_reserved addr a0), Hr by done.
    destruct (contains_access t addr), (same_set a0 addr); done.
  - unfold load_reserved, bind. rewrite read_spec by done. unfold accessible.
    destruct (contains_access t addr); simpl; [|done]. by destruct (check_align t addr).
  - unfold store_conditional. rewrite Hr.
    change (in_the_same_reservation_set (Reservation_new a0) addr) with (same_set a0 addr).
    pose proof (same_set_in_ram t0 a0 addr Hc) as Hlt.
    destruct (same_set a0 addr) eqn:Es; [specialize (Hlt eq_refl)|by case_match].
    rewrite (proj2 (Z.leb_gt SIZE addr)), andb_false_r by lia. simpl.
    unfold bind. pose proof (write_reserved t addr v r Hp) as Hw.
    rewrite (invalidate_reserved addr a0), Es in Hw by done.
    destruct (write t addr v r) as [[]?]; simpl in *; rewrite Hw, Hr; by case_match.
  - done.
Qed.

Lemma run_op_unheld r op : ptr_aligned r -> reserved r = None ->
  reserved (run_op r op) =
    match op with
    | OpLR t addr => if accessible t addr then Some (Reservation_new addr) else None
    | _ => None
    end.
Proof.
  intros Hp Hr. destruct op as [t addr|t addr v|t addr|t addr v|]; cbn [run_op].
  - by rewrite read_spec.
  - rewrite write_reserved, invalidate_none, Hr by done. by case_match.
  - unfold load_reserved, bind. rewrite read_spec by done. unfold accessible.
    destruct (contains_access t addr); simpl; [|done]. by destruct (check_align t addr).
  - unfold store_conditional. rewrite Hr. by case_match.
  - done.
Qed.

(** [reserving ops a0]: the last successful LR of [ops] was at [a0], and every
    later operation kept its reservation. *)
Definition reserving (ops : list RamOp) (a0 : Z) : Prop :=
  exists pre t0 post, ops = pre ++ OpLR t0 a0 :: post /\
    accessible t0 a0 = true /\ Forall (fun op => keeps a0 op = true) post.

Lemma reserving_snoc ops op a0 :
  reserving (ops ++ [op]) a0 <->
  (exists t, op = OpLR t a0 /\ accessible t a0 = true) \/ (reserving ops a0 /\ keeps a0 op = true).
Proof.
  split.
  - intros (pre & t0 & post & E & Hacc & Hk).
    destruct post as [|op' post' _] using rev_ind.
    + apply app_inj_tail in E as [-> ->]. left. eauto.
    + rewrite app_comm_cons, app_assoc in E. apply app_inj_tail in E as [-> ->].
      apply Forall_app in Hk as [Hk1 Hk2]. rewrite Forall_singleton in Hk2. right. split; [|done].
      by exists pre, t0, post'.
  - intros [(t & -> & Hacc)|((pre & t0 & post & -> & Hacc & Hk) & Hop)].
    + by exists ops, t, [].
    + exists pre, t0, (post ++ [op]). rewrite <- app_assoc. split; [done|]. split; [done|].
      apply Forall_app. by split; [|apply Forall_singleton].
Qed.

Lemma same_reservation a b : Reservation_new a = Reservation_new b <-> same_set a b = true.
Proof.
  unfold Reservation_new, same_set. rewrite Z.eqb_eq. split; [by intros [=]|by intros ->].
Qed.

Lemma reserved_iff r ops : ptr_aligned r -> reserved r = None ->
  match reserved (run_ops r ops) with
  | Some res => exists a0, res = Reservation_new a0 /\ reserving ops a0 /\
                  forall a1, reserving ops a1 -> a1 = a0
  | None => forall a0, ~ reserving ops a0
  end.
Proof.
  intros Hp Hr. induction ops as [|op ops IH] using rev_ind.
  { simpl. rewrite Hr. intros a0 (pre & t0 & post & E & _). by destruct pre. }
  unfold run_ops in *. rewrite foldl_app. cbn [foldl]. fold (run_ops r ops) in *.
  assert (ptr_aligned (run_ops r ops)) as Hp' by (unfold ptr_aligned; by rewrite run_ops_ptr).
  destruct (reserved (run_ops r ops)) as [res|] eqn:Er.
  - destruct IH as (a0 & -> & Hres & Huniq).
    assert (exists t0, contains_access t0 a0 = true) as [t0 Hc].
    { destruct Hres as (pre & t0 & post & _ & Hacc & _). exists t0.
      by apply andb_true_iff in Hacc as []. }
    rewrite (run_op_held _ op t0 a0) by done.
    destruct (keeps a0 op) eqn:Ek; [|destruct op; cbn [keeps] in Ek; try apply negb_false_iff in Ek].
    + exists a0. setoid_rewrite reserving_snoc. split; [done|]. split; [by right|].
      intros a1 [(t & -> & Hacc)|[H1 _]]; [|by apply Huniq]. simpl in Ek. by rewrite Hacc in Ek.
    + done.
    + intros a1 [(? & [=] & _)|[H1%Huniq H2]]%reserving_snoc. subst. simpl in H2. by rewrite Ek in H2.
    + exists addr. setoid_rewrite reserving_snoc. split; [done|]. split; [left; eauto|].
      intros a1 [(t1 & [= <- <-] & _)|[_ H2]]; [done|]. simpl in H2. by rewrite Ek in H2.
    + intros a1 [(? & [=] & _)|[H1%Huniq H2]]%reserving_snoc. subst. simpl in H2. by rewrite Ek in H2.
    + by intros a1 [(? & [=] & _)|[_ ?]]%reserving_snoc.
  - rewrite run_op_unheld by done. destruct op; [| |destruct (accessible t addr) eqn:Eacc| |].
    3: { exists addr. setoid_rewrite reserving_snoc. split; [done|]. split; [left; eauto|].
         intros a1 [(t1 & [= <- <-] & _)|[H1 _]]; [done|]. by apply IH in H1. }
    all: intros a1 [(? & [=] & Hacc)|[H1 _]]%reserving_snoc; simplify_eq; try congruence; by apply IH in H1.
Qed.

(** C12: A store-conditional succeeds exactly when its access is possible and the
    last successful load-reserved was in the same 8-byte set, with no other
    load-reserved, store-conditional, clear or store to that set in between:
    both directions, for any sequence of operations. *)
Theorem store_conditional_trace r ops t addr v :
  ptr_aligned r -> reserved r = None ->
  fst (store_conditional t addr v (run_ops r ops)) = Ok true <->
  accessible t addr = true /\ exists a0, reserving ops a0 /\ same_set a0 addr = true.
Proof.
  intros Hp Hr. pose proof (reserved_iff r ops Hp Hr) as Hi.
  assert (ptr_aligned (run_ops r ops)) as Hp' by (unfold ptr_aligned; by rewrite run_ops_ptr).
  unfold store_conditional, accessible.
  destruct (reserved (run_ops r ops)) as [res|].
  - destruct Hi as (a0 & -> & Hres & Huniq).
    change (in_the_same_reservation_set (Reservation_new a0) addr) with (same_set a0 addr).
    destruct (same_set a0 addr) eqn:Es.
    + assert (addr < SIZE) as Hlt.
      { destruct Hres as (? & t0 & ? & _ & [Hc _]%andb_true_iff & _).
        eauto using same_set_in_ram. }
      rewrite (proj2 (Z.leb_gt SIZE addr)), andb_false_r by lia. simpl.
      unfold bind. rewrite write_spec by done.
      destruct (contains_access t addr), (check_align t addr); simpl; split; try done;
        [intros _; eauto|by intros [? _]..].
    + split; [by case_match|]. intros [_ (a1 & H1%Huniq & H2)]. subst. by rewrite Es in H2.
  - split; [by case_match|]. intros [_ (a0 & H1 & _)]. by apply Hi in H1.
Qed.
End LrSc.

Lemma store_conditional_trace_witness :
  let ops := [OpLR U32 4; OpWrite U64 16 7] in
  let r := @run_ops dev (Ram_new 0) ops in
  fst (@store_conditional dev U32 0 9 r) = Ok true /\
  (exists a0, reserving ops a0 /\ same_set a0 0 = true).
Proof.
  intros ops r.
  assert (exists a0, reserving ops a0 /\ same_set a0 0 = true) as Hres.
  { exists 4. split; [|reflexivity]. exists [], U32, [OpWrite U64 16 7].
    split; [reflexivity|]. split; [reflexivity|]. repeat constructor. }
  split; [|exact Hres].
  apply (@store_conditional_trace dev (Ram_new 0) ops U32 0 9).
  - exists 0. reflexivity.
  - reflexivity.
  - split; [reflexivity|exact Hres].
Defined.

(** ** Loading an image *)

(** [try_insert_section] copies the whole image or fails with memory
    unchanged; it fails exactly when the image does not fit. *)
Theorem try_insert_section_spec bs start r :
  u64 start ->
  let size := Z.of_nat (length bs) in
  let res := fst (try_insert_section bs start r) in
  let r' := snd (try_insert_section bs start r) in
  (start + size <= SIZE -> res = Ok tt /\
     forall j, byte_at r' j =
       if (start <=? j) && (j <? start + size) then nth (Z.to_nat (j - start)) bs 0 else byte_at r j) /\
  (SIZE < start + size -> r' = r /\
     res = Err (if 2 ^ 64 <=? start + size then AddressOverflow start size
                else OutOfRange start size SIZE)).
Proof.
  intros Hs size. cbv zeta. unfold try_insert_section. fold size. rewrite SIZE_value.
  assert (0 <= size) by lia.
  destruct (Z.leb_spec (2 ^ 64) (start + size)); [simpl; split; [lia|done]|].
  destruct (Z.ltb_spec (2 ^ 29) (start + size)); [simpl; split; [lia|done]|].
  split; [|lia]. intros _. split; [done|]. intros j. unfold byte_at. simpl.
  rewrite store_bytes_lookup. fold size.
  destruct ((start <=? j) && (j <? start + size)) eqn:E; [|done].
  apply andb_true_iff in E as [E1%Z.leb_le E2%Z.ltb_lt].
  destruct (bs !! Z.to_nat (j - start)) eqn:El.
  - simpl. symmetry. by apply nth_lookup_Some.
  - apply lookup_ge_None in El. lia.
Qed.

Lemma try_insert_section_spec_witness :
  let r' := snd (try_insert_section [0x13; 0x37] (SIZE - 2) (Ram_new 0)) in
  fst (try_insert_section [0x13; 0x37] (SIZE - 2) (Ram_new 0)) = Ok tt /\
  byte_at r' (SIZE - 1) = 0x37 /\ byte_at r' 5 = 0.
Proof.
  intros r'.
  destruct (try_insert_section_spec [0x13; 0x37] (SIZE - 2) (Ram_new 0)) as [[H1 H2] _].
  - vm_compute. split; [discriminate|reflexivity].
  - vm_compute. discriminate.
  - split; [exact H1|]. unfold r'. rewrite !H2. split; reflexivity.
Defined.
