(* ===== verification/Cache.v ===== *)
(** * Caches (src/src/isa/cache.rs)

    The trait [CachePolicy] as a type class with its laws, its three
    implementations, and the statistics wrapper [Cache].  The TLB and the
    instruction cache are clients: their theorems use only [LawfulCache]. *)

From S2P Require Import Prelude Utils.

(** ** The interface *)
Class CachePolicy (C T : Type) : Type := {
  new : C;
  get : C -> Z -> option T;
  put : C -> Z -> T -> C;
  invalidate : C -> Z -> C;
  clear : C -> C
}.

(** A cache may forget, but what it returns for an address is the last value
    put there, and an invalidated address or a cleared cache returns nothing. *)
Class LawfulCache (C T : Type) `{CachePolicy C T} : Prop := {
  get_new : forall a, get new a = None;
  get_put : forall c a v b w, get (put c a v) b = Some w ->
    (a = b /\ w = v) \/ (a <> b /\ get c b = Some w);
  get_invalidate : forall c a b w, get (invalidate c a) b = Some w ->
    a <> b /\ get c b = Some w;
  get_clear : forall c a, get (clear c) a = None
}.

(** [Cacheable::index_of]: the trait's shift is a parameter of each cache. *)
Definition index_of (ADDR_SHIFT_BITS addr : Z) : Z := Z.shiftr addr ADDR_SHIFT_BITS.

(** ** Direct-mapped cache

    The boxed array of [N] pairs is a map from slot number to pair with a
    default; [zeroed] is what all-zero bytes denote at type [Option<T>]
    ([Box::new_zeroed().assume_init()]). *)
Record DirectCache (T : Type) : Type := {
  dc_default : Z * option T;
  dc_cells : gmap Z (Z * option T)
}.
Arguments dc_default {T} _.
Arguments dc_cells {T} _.
Arguments Build_DirectCache {T} _ _.

Section Direct.
Context {T : Type} (zeroed : option T) (ADDR_SHIFT_BITS N : Z).

Definition get_id (addr : Z) : Z := Z.land (index_of ADDR_SHIFT_BITS addr) (N - 1).

Definition dc_cell (c : DirectCache T) (i : Z) : Z * option T :=
  default (dc_default c) (dc_cells c !! i).

Definition DirectCache_new : DirectCache T := Build_DirectCache (0, zeroed) ∅.
Definition DirectCache_get (c : DirectCache T) (addr : Z) : option T :=
  let '(tag, data) := dc_cell c (get_id addr) in
  if tag =? addr then data else None.
Definition DirectCache_put (c : DirectCache T) (addr : Z) (data : T) : DirectCache T :=
  Build_DirectCache (dc_default c) (<[get_id addr := (addr, Some data)]> (dc_cells c)).
Definition DirectCache_invalidate (c : DirectCache T) (addr : Z) : DirectCache T :=
  Build_DirectCache (dc_default c) (<[get_id addr := (0, None)]> (dc_cells c)).
Definition DirectCache_clear (c : DirectCache T) : DirectCache T :=
  Build_DirectCache (0, None) ∅.

#[export] Instance DirectCache_policy : CachePolicy (DirectCache T) T := {|
  new := DirectCache_new;
  get := DirectCache_get;
  put := DirectCache_put;
  invalidate := DirectCache_invalidate;
  clear := DirectCache_clear
|}.

(** Slots other than the written one keep their contents. *)
Lemma dc_cell_insert c i j p :
  dc_cell (Build_DirectCache (dc_default c) (<[i := p]> (dc_cells c))) j =
    if decide (i = j) then p else dc_cell c j.
Proof.
  unfold dc_cell. simpl. case_decide; subst; [by rewrite lookup_insert_eq|].
  by rewrite lookup_insert_ne.
Qed.

(** A put is always visible at its own address. *)
Lemma DirectCache_get_put_eq c a v : DirectCache_get (DirectCache_put c a v) a = Some v.
Proof.
  unfold DirectCache_get, DirectCache_put. rewrite dc_cell_insert.
  rewrite decide_True by done. by rewrite Z.eqb_refl.
Qed.

Lemma DirectCache_get_empty d a : snd d = None -> DirectCache_get (Build_DirectCache d ∅) a = None.
Proof.
  intros Hd. unfold DirectCache_get, dc_cell. cbn [dc_default dc_cells]. rewrite lookup_empty.
  destruct d as [tag data]. cbn in *. subst. by case_match.
Qed.

Lemma DirectCache_lawful : zeroed = None -> LawfulCache (DirectCache T) T.
Proof.
  intros Hz. split; simpl.
  - intros a. by apply DirectCache_get_empty.
  - intros c a v b w. unfold DirectCache_get, DirectCache_put. rewrite dc_cell_insert.
    case_decide as E.
    + destruct (Z.eqb_spec a b); [|done]. intros [= ->]. by left.
    + intros Hg. right. split; [|done]. by intros ->.
  - intros c a b w. unfold DirectCache_get, DirectCache_invalidate. rewrite dc_cell_insert.
    case_decide as E; [by destruct (0 =? b)|]. intros Hg. split; [|done]. by intros ->.
  - intros c a. by apply DirectCache_get_empty.
Qed.
End Direct.

(** ** Set-associative cache with FIFO replacement *)
Record CacheSet (T : Type) : Type := {
  cs_idx : nat;
  cs_slots : list (Z * option T)
}.
Arguments cs_idx {T} _.
Arguments cs_slots {T} _.
Arguments Build_CacheSet {T} _ _.

Section SetAssoc.
Context {T : Type} (ADDR_SHIFT_BITS S : Z) (W : nat).

Definition CacheSet_new : CacheSet T := Build_CacheSet 0 (replicate W (0, None)).

(** [self.slots[self.idx]] is in range because [idx < W]. *)
Definition CacheSet_insert (s : CacheSet T) (addr : Z) (data : T) : CacheSet T :=
  let idx := (cs_idx s + 1)%nat in
  Build_CacheSet (if (idx =? W)%nat then 0%nat else idx)
    (<[cs_idx s := (addr, Some data)]> (cs_slots s)).

(** [slots.iter().position(|(a, _)| a == target)] *)
Definition position (target : Z) (slots : list (Z * option T)) : option nat :=
  fst <$> list_find (fun p => fst p = target) slots.

Definition CacheSet_invalidate (s : CacheSet T) (target : Z) : CacheSet T :=
  match position target (cs_slots s) with
  | Some index => Build_CacheSet (cs_idx s) (<[index := (0, None)]> (cs_slots s))
  | None => s
  end.

Definition SetCache : Type := gmap Z (CacheSet T).

Definition set_index_of (addr : Z) : Z := Z.land (index_of ADDR_SHIFT_BITS addr) (S - 1).
Definition the_set (c : SetCache) (addr : Z) : CacheSet T :=
  default CacheSet_new (c !! set_index_of addr).

Definition SetCache_new : SetCache := ∅.
Definition SetCache_get (c : SetCache) (addr : Z) : option T :=
  match position addr (cs_slots (the_set c addr)) with
  | Some index => match cs_slots (the_set c addr) !! index with
                  | Some (_, v) => v
                  | None => None
                  end
  | None => None
  end.
Definition SetCache_put (c : SetCache) (addr : Z) (data : T) : SetCache :=
  <[set_index_of addr := CacheSet_insert (the_set c addr) addr data]> c.
Definition SetCache_invalidate (c : SetCache) (addr : Z) : SetCache :=
  <[set_index_of addr := CacheSet_invalidate (the_set c addr) addr]> c.
Definition SetCache_clear (c : SetCache) : SetCache := SetCache_new.

#[export] Instance SetCache_policy : CachePolicy SetCache T := {|
  new := SetCache_new;
  get := SetCache_get;
  put := SetCache_put;
  invalidate := SetCache_invalidate;
  clear := SetCache_clear
|}.
End SetAssoc.

(** ** The null cache *)
Section Null.
Context {T : Type}.

Definition NullCache : Type := unit.
#[export] Instance NullCache_policy : CachePolicy NullCache T := {|
  new := tt;
  get _ _ := None;
  put c _ _ := c;
  invalidate c _ := c;
  clear c := c
|}.

#[export] Instance NullCache_lawful : LawfulCache NullCache T.
Proof. by split. Qed.
End Null.

(** ** The statistics wrapper *)
Record Cache (P : Type) : Type := {
  policy : P;
  hit_count : Z;
  access_count : Z
}.
Arguments policy {P} _.
Arguments hit_count {P} _.
Arguments access_count {P} _.
Arguments Build_Cache {P} _ _ _.

Section Wrapper.
Context {P T : Type} `{CachePolicy P T}.

Definition Cache_new : Cache P := Build_Cache new 0 0.

(** [get] takes [&self] but updates the counters through [Cell]. *)
Definition Cache_get (c : Cache P) (addr : Z) : option T * Cache P :=
  let access := wrap 64 (access_count c + 1) in
  match get (policy c) addr with
  | Some v => (Some v, Build_Cache (policy c) (wrap 64 (hit_count c + 1)) access)
  | None => (None, Build_Cache (policy c) (hit_count c) access)
  end.
Definition Cache_put (c : Cache P) (addr : Z) (data : T) : Cache P :=
  Build_Cache (put (policy c) addr data) (hit_count c) (access_count c).
Definition Cache_invalidate (c : Cache P) (addr : Z) : Cache P :=
  Build_Cache (invalidate (policy c) addr) (hit_count c) (access_count c).
Definition Cache_clear (c : Cache P) : Cache P :=
  Build_Cache (clear (policy c)) (hit_count c) (access_count c).

(** Looking up only touches the counters. *)
Lemma Cache_get_policy c addr :
  fst (Cache_get c addr) = get (policy c) addr /\ policy (snd (Cache_get c addr)) = policy c.
Proof. unfold Cache_get. by destruct (get (policy c) addr). Qed.
End Wrapper.

(** ** Client view: a lawful cache as a memo table

    If every value put for an address comes from a function [f], then so does
    every value read, whatever the interleaving of puts, invalidations and
    clears. *)
Section Memo.
Context {C T : Type} `{LawfulCache C T}.

Inductive CacheOp : Type :=
| CPut (addr : Z) (v : T)
| CInvalidate (addr : Z)
| CClear.

Definition cache_run (c : C) (op : CacheOp) : C :=
  match op with
  | CPut a v => put c a v
  | CInvalidate a => invalidate c a
  | CClear => clear c
  end.

(** What the operations so far say about address [a]: the last put that no
    invalidation or clear followed. *)
Definition last_put (a : Z) (m : option T) (op : CacheOp) : option T :=
  match op with
  | CPut b v => if b =? a then Some v else m
  | CInvalidate b => if b =? a then None else m
  | CClear => None
  end.

Lemma cache_refines_step c op a m :
  (forall w, get c a = Some w -> m = Some w) ->
  forall w, get (cache_run c op) a = Some w -> last_put a m op = Some w.
Proof.
  intros Hc w. destruct op as [b v|b|]; simpl.
  - intros [[-> ->]|[Hne Hg]]%get_put; [by rewrite Z.eqb_refl|].
    rewrite (proj2 (Z.eqb_neq b a)) by done. auto.
  - intros [Hne Hg]%get_invalidate. rewrite (proj2 (Z.eqb_neq b a)) by done. auto.
  - by rewrite get_clear.
Qed.

Lemma cache_refines_from c ops a m :
  (forall w, get c a = Some w -> m = Some w) ->
  forall w, get (foldl cache_run c ops) a = Some w -> foldl (last_put a) m ops = Some w.
Proof.
  revert c m. induction ops as [|op ops IH]; intros c m Hc; simpl; [done|].
  apply IH. by apply cache_refines_step.
Qed.
End Memo.

Arguments CacheOp : clear implicits.

(** Refinement: for every sequence of operations, a value the direct-mapped
    cache returns for an address is the last value put there since the last
    invalidation of it or clear. *)
Theorem direct_cache_refines_memo (T : Type) (ADDR_SHIFT_BITS N : Z) (ops : list (CacheOp T)) a w :
  let P := DirectCache_policy (@None T) ADDR_SHIFT_BITS N in
  get (foldl cache_run new ops) a = Some w -> foldl (last_put a) None ops = Some w.
Proof.
  intros P. pose proof (DirectCache_lawful (@None T) ADDR_SHIFT_BITS N eq_refl) as HL.
  apply cache_refines_from. intros w'. by rewrite get_new.
Qed.

Lemma direct_cache_refines_memo_witness :
  let P := DirectCache_policy (@None Z) 0 8 in
  let ops := [CPut 1 100; CPut 9 200; CInvalidate 2; CPut 3 7] in
  get (foldl cache_run new ops) 9 = Some 200 /\ foldl (last_put 9) None ops = Some 200.
Proof.
  intros P ops. assert (get (foldl cache_run new ops) 9 = Some 200) as Hg by reflexivity.
  split; [exact Hg|]. apply (direct_cache_refines_memo Z 0 8 ops 9 200 Hg).
Defined.

(** The set-associative cache does not have this property: a second put for an
    address already present leaves the first, older value in front of it, and
    invalidating the address then uncovers the other copy. *)
Theorem set_cache_not_lawful :
  let P := @SetCache_policy Z 0 4 2 in
  let c := put (put new 4 10) 4 20 in
  get c 4 = Some 10 /\ get (invalidate c 4) 4 = Some 20.
Proof. split; reflexivity. Qed.
