(* ===== verification/CsrTable.v ===== *)
(** * The table of control and status registers
    (src/src/isa/riscv/csr_reg/csr_macro.rs, write_validator.rs,
    read_validator.rs, and the privilege table of mod.rs)

    The macro [gen_csr_regfile!] turns a list of registers with their bit
    fields into a table of initial values, a write validator per register and
    the shadow views.  Here the list is data ([CsrDesc]) and the functions the
    macro generates are functions of it. *)

From S2P Require Import Prelude Utils.

(** [PrivilegeLevel]; the source's derived order is [priv_nr]'s. *)
Inductive PrivilegeLevel : Type := LvU | LvS | LvV | LvM.
#[global] Instance PrivilegeLevel_eq_dec : EqDecision PrivilegeLevel.
Proof. solve_decision. Defined.

Definition priv_nr (p : PrivilegeLevel) : Z :=
  match p with LvU => 0 | LvS => 1 | LvV => 2 | LvM => 3 end.
Definition priv_try_from (value : Z) : option PrivilegeLevel :=
  match value with 0 => Some LvU | 1 => Some LvS | 2 => Some LvV | 3 => Some LvM | _ => None end.
Definition priv_le (a b : PrivilegeLevel) : bool := priv_nr a <=? priv_nr b.

Record CsrContext : Type := { extension : Z; xlen : Z }.

(** [CsrWriteOp]: the bits a write may change. *)
Record CsrWriteOp : Type := { op_mask : Z }.

Definition CsrWriteOp_new_write_all : CsrWriteOp := {| op_mask := bnot 64 0 |}.
Definition get_new_value (op : CsrWriteOp) (old_value value : Z) : Z :=
  Z.lor (Z.land old_value (bnot 64 (op_mask op))) (Z.land value (op_mask op)).
Definition op_merge (a b : CsrWriteOp) : CsrWriteOp := {| op_mask := Z.lor (op_mask a) (op_mask b) |}.
Definition op_and (a b : CsrWriteOp) : CsrWriteOp := {| op_mask := Z.land (op_mask a) (op_mask b) |}.

(** ** Write validators *)
Definition WriteValidator : Type := Z -> CsrContext -> CsrWriteOp.

Definition validate_with_cond (L R : Z) (check : Z -> CsrContext -> bool) : WriteValidator :=
  fun value ctx =>
    let mask := make_mask L R in
    let extracted := extract_range U64 value L R in
    if check extracted ctx then {| op_mask := mask |} else {| op_mask := 0 |}.

Definition RangeCond (MIN MAX value : Z) (ctx : CsrContext) : bool := (MIN <=? value) && (value <=? MAX).

Definition validate_range (L R MIN MAX : Z) : WriteValidator := validate_with_cond L R (RangeCond MIN MAX).

Definition validate_write_any (L R : Z) : WriteValidator := fun _ _ => {| op_mask := make_mask L R |}.

Definition validate_readonly : WriteValidator := fun _ _ => {| op_mask := 0 |}.

(** ** Register descriptions *)

(** One line [bit, len, name, validator] of the macro's input. *)
Record CsrFieldDesc : Type := FV {
  fd_bit : Z; fd_len : Z; fd_name : string; fd_validator : WriteValidator
}.

(** [$name::${fname}_start]: negative bit numbers count from [XLEN]. *)
Definition field_start (bit : Z) : Z := if 0 <=? bit then bit else XLEN + bit.
Definition field_end (bit len : Z) : Z := field_start bit + len - 1.

(** A field with the default validator ([@choose_validator]). *)
Definition F (bit len : Z) (name : string) : CsrFieldDesc :=
  FV bit len name (validate_write_any (field_start bit) (field_end bit len)).

Record CsrDesc : Type := Csr {
  cd_name : string; cd_addr : Z; cd_default : Z; cd_shadow : option Z; cd_fields : list CsrFieldDesc
}.

(** The registers' addresses ([$name::get_index()]). *)
Definition Fcsr : Z := 0x003.
Definition Vstart : Z := 0x008.
Definition Vcsr : Z := 0x00f.
Definition Cycle : Z := 0xc00.
Definition Instret : Z := 0xc02.
Definition Vl : Z := 0xc20.
Definition Vtype : Z := 0xc21.
Definition Vlenb : Z := 0xc22.
Definition Sstatus : Z := 0x100.
Definition Sie : Z := 0x104.
Definition Stvec : Z := 0x105.
Definition Sscratch : Z := 0x140.
Definition Sepc : Z := 0x141.
Definition Scause : Z := 0x142.
Definition Stval : Z := 0x143.
Definition Sip : Z := 0x144.
Definition Satp : Z := 0x180.
Definition Mstatus : Z := 0x300.
Definition Misa : Z := 0x301.
Definition Medeleg : Z := 0x302.
Definition Mideleg : Z := 0x303.
Definition Mie : Z := 0x304.
Definition Mtvec : Z := 0x305.
Definition Mcountinhibit : Z := 0x320.
Definition Mscratch : Z := 0x340.
Definition Mepc : Z := 0x341.
Definition Mcause : Z := 0x342.
Definition Mtval : Z := 0x343.
Definition Mip : Z := 0x344.
Definition Mcycle : Z := 0xb00.
Definition Minstret : Z := 0xb02.
Definition Mvendorid : Z := 0xf11.
Definition Marchid : Z := 0xf12.
Definition Mimpid : Z := 0xf13.
Definition Mhartid : Z := 0xf14.

(** U-mode registers. *)
Definition u_mode_csrs : list CsrDesc := [
  Csr "fcsr" Fcsr 0x00 None [
    F 0 5 "fflags"; F 0 1 "nx"; F 1 1 "uf"; F 2 1 "of"; F 3 1 "dz"; F 4 1 "nv"; F 5 3 "rm" ];
  Csr "vstart" Vstart 0x00 None [
    F 0 XLEN "vstart" ];
  Csr "vcsr" Vcsr 0x00 None [
    F 0 1 "vxsat"; F 1 2 "vxrm" ];
  Csr "cycle" Cycle 0x00 (Some Mcycle) [
    FV 0 XLEN "cycle" validate_readonly ];
  Csr "instret" Instret 0x00 (Some Minstret) [
    FV 0 XLEN "instret" validate_readonly ];
  Csr "vlen" Vl 0x00 None [
    F 0 XLEN "vl" ];
  Csr "vtype" Vtype 0x00 None [
    FV 0 3 "vlmul" validate_readonly; FV 3 3 "vsew" validate_readonly;
    FV 6 1 "vta" validate_readonly; FV 7 1 "vma" validate_readonly;
    FV (-1) 1 "vill" validate_readonly ];
  Csr "vlenb" Vlenb 0x00 None [
    F 0 XLEN "vlenb" ]
].

(** S-mode registers. *)
Definition s_mode_csrs : list CsrDesc := [
  Csr "sstatus" Sstatus 0x00 (Some Mstatus) [
    F 1 1 "sie"; F 5 1 "spie"; F 6 1 "ube"; F 8 1 "spp"; F 9 2 "vs"; F 13 2 "fs";
    F 15 2 "xs"; F 18 1 "sum"; F 19 1 "mxr"; F 23 1 "spelp"; F 24 1 "sdt";
    FV 32 2 "uxl" validate_readonly; F (-1) 1 "sd" ];
  Csr "sie" Sie 0x00 (Some Mie) [
    F 0 1 "usie"; F 1 1 "ssie"; F 4 1 "utie"; F 5 1 "stie"; F 8 1 "ueie"; F 9 1 "seie" ];
  Csr "stvec" Stvec 0x00 None [
    F 0 2 "mode"; F 2 (XLEN - 2) "base" ];
  Csr "sscratch" Sscratch 0x00 None [
    F 0 XLEN "scratch" ];
  Csr "sepc" Sepc 0x00 None [
    F 0 XLEN "sepc" ];
  Csr "scause" Scause 0x00 None [
    F 0 (XLEN - 1) "cause"; F (-1) 1 "interrupt" ];
  Csr "stval" Stval 0x00 None [
    F 0 XLEN "stval" ];
  Csr "sip" Sip 0x00 (Some Mip) [
    F 0 1 "usip"; F 1 1 "ssip"; F 4 1 "utip"; F 5 1 "stip"; F 8 1 "ueip"; F 9 1 "seip" ];
  Csr "satp" Satp 0x00 None [
    F 0 44 "ppn"; F 44 16 "asid"; F 60 4 "mode" ]
].

(** M-mode status, ISA and exception delegation registers. *)
Definition m_mode_status_csrs : list CsrDesc := [
  Csr "mstatus" Mstatus 0x00 None [
    F 1 1 "sie"; F 3 1 "mie"; F 5 1 "spie"; F 6 1 "ube"; F 7 1 "mpie"; F 8 1 "spp";
    F 9 2 "vs"; F 11 2 "mpp"; F 13 2 "fs"; FV 15 2 "xs" validate_readonly; F 17 1 "mprv";
    F 18 1 "sum"; F 19 1 "mxr"; F 20 1 "tvm"; F 21 1 "tw"; F 22 1 "tsr"; F 23 1 "spelp";
    F 24 1 "sdt"; FV 32 2 "uxl" validate_readonly; FV 34 2 "sxl" validate_readonly;
    F 36 1 "sbe"; F 37 1 "mbe"; F 38 1 "gva"; F 39 1 "mpv"; F 40 1 "wpri"; F 41 1 "mpelp";
    F 42 1 "mdt"; F (-1) 1 "sd" ];
  Csr "misa" Misa 0x00 None [
    FV 0 25 "extension" validate_readonly; FV (-2) 2 "mxl" validate_readonly ];
  Csr "medeleg" Medeleg 0x00 None [
    F 0 1 "instruction_misaligned"; F 1 1 "instruction_fault"; F 2 1 "illegal_instruction";
    F 3 1 "breakpoint"; F 4 1 "load_misaligned"; F 5 1 "load_fault";
    F 6 1 "store_misaligned"; F 7 1 "store_fault"; F 8 1 "user_env_call";
    F 9 1 "supervisor_env_call"; F 11 1 "machine_env_call"; F 12 1 "instruction_page_fault";
    F 13 1 "load_page_fault"; F 15 1 "store_page_fault" ]
].

(** The other M-mode registers. *)
Definition m_mode_csrs : list CsrDesc := [
  Csr "mideleg" Mideleg 0x00 None [
    F 1 1 "ssip"; F 5 1 "stip"; F 9 1 "seip" ];
  Csr "mie" Mie 0x00 None [
    F 0 1 "usie"; F 1 1 "ssie"; F 2 1 "vssie"; F 3 1 "msie"; F 4 1 "utie"; F 5 1 "stie";
    F 6 1 "vstie"; F 7 1 "mtie"; F 8 1 "ueie"; F 9 1 "seie"; F 10 1 "vseie"; F 11 1 "meie";
    F 12 1 "sgeie"; F 13 1 "hgeie" ];
  Csr "mtvec" Mtvec 0x00 None [
    FV 0 2 "mode" (validate_range 0 2 0 1); F 2 (XLEN - 2) "base" ];
  Csr "mcountinhibit" Mcountinhibit 0x00 None [
    FV 0 XLEN "mcountinhibit" validate_readonly ];
  Csr "mscratch" Mscratch 0x00 None [
    F 0 XLEN "scratch" ];
  Csr "mepc" Mepc 0x00 None [
    F 0 XLEN "mepc" ];
  Csr "mcause" Mcause 0x00 None [
    F 0 (XLEN - 1) "cause"; F (-1) 1 "interrupt_flag" ];
  Csr "mtval" Mtval 0x00 None [
    F 0 XLEN "mtval" ];
  Csr "mip" Mip 0x00 None [
    F 0 1 "usip"; F 1 1 "ssip"; F 2 1 "vssip"; F 3 1 "msip"; F 4 1 "utip"; F 5 1 "stip";
    F 6 1 "vstip"; F 7 1 "mtip"; F 8 1 "ueip"; F 9 1 "seip"; F 10 1 "vseip"; F 11 1 "meip";
    F 12 1 "sgeip"; F 13 1 "hgeip" ];
  Csr "mcycle" Mcycle 0x00 None [
    F 0 XLEN "mcycle" ];
  Csr "minstret" Minstret 0x00 None [
    F 0 XLEN "minstret" ];
  Csr "mvendorid" Mvendorid 0x00 None [
    FV 0 XLEN "mvendorid" validate_readonly ];
  Csr "marchid" Marchid 0x00 None [
    FV 0 XLEN "marchid" validate_readonly ];
  Csr "mimpid" Mimpid 0x00 None [
    FV 0 XLEN "mimpid" validate_readonly ];
  Csr "mhartid" Mhartid 0x00 None [
    FV 0 XLEN "mhartid" validate_readonly ]
].

Definition csr_descs : list CsrDesc := u_mode_csrs ++ s_mode_csrs ++ m_mode_status_csrs ++ m_mode_csrs.

(** [_validate_$name]: the union of what the fields' validators allow
    ([combine_validators!]). *)
Definition csr_validator (d : CsrDesc) : WriteValidator :=
  fun value ctx =>
    foldl (fun combined f => op_merge combined (fd_validator f value ctx)) {| op_mask := 0 |} (cd_fields d).

Definition CSR_REG_TABLE : list (Z * Z * WriteValidator) :=
  (fun d => (cd_addr d, cd_default d, csr_validator d)) <$> csr_descs.

(** ** Shadow views *)
Record ReadValidator : Type := { target_index : Z; view_mask : Z }.

(** [combine_shadow_read_ops!] *)
Definition shadow_view (target : Z) (fields : list CsrFieldDesc) : ReadValidator :=
  foldl (fun combined f =>
           {| target_index := target_index combined;
              view_mask := Z.lor (view_mask combined)
                (make_mask (field_start (fd_bit f)) (field_end (fd_bit f) (fd_len f))) |})
        {| target_index := target; view_mask := 0 |} fields.

(** The [match] of [resolve_shadow_addr]: the first register with that address. *)
Definition resolve_shadow_addr (addr : Z) : option ReadValidator :=
  find (fun d => cd_addr d =? addr) csr_descs ≫= fun d =>
  (fun target => shadow_view target (cd_fields d)) <$> cd_shadow d.

(** [CSR_PRIVILEGE_TABLE]: first address of each range and its level. *)
Definition CSR_PRIVILEGE_TABLE : list (Z * PrivilegeLevel) := [
  (0x000, LvU); (0x100, LvS); (0x200, LvV); (0x300, LvM); (0x400, LvU); (0x500, LvS);
  (0x580, LvS); (0x5C0, LvS); (0x600, LvV); (0x680, LvV); (0x6C0, LvV); (0x700, LvM);
  (0x780, LvM); (0x7A0, LvM); (0x7B0, LvM); (0x7C0, LvM); (0x800, LvU); (0x900, LvS);
  (0x980, LvS); (0x9C0, LvS); (0xA00, LvV); (0xA80, LvV); (0xAC0, LvV); (0xB00, LvM);
  (0xB80, LvM); (0xBC0, LvM); (0xC00, LvU); (0xC80, LvU); (0xCC0, LvU); (0xD00, LvS);
  (0xD80, LvS); (0xDC0, LvS); (0xE00, LvV); (0xE80, LvV); (0xEC0, LvV); (0xF00, LvM);
  (0xF80, LvM); (0xFC0, LvM)
].
