(* ===== verification/Csr.v ===== *)
(** * The CSR register file (src/src/isa/riscv/csr_reg/mod.rs, csr_macro.rs,
    utils.rs)

    Privilege checks, validated writes, shadow registers, the floating-point
    and vector sub-registers, and the typed field accessors the macro
    generates.  The invariant [csr_wf] says that the table keeps the registers
    and validators it was built with and that every value is a 64-bit word. *)

From S2P Require Import Prelude Utils CsrTable.

Record CsrReg : Type := {
  value : Z;
  write_validator : option WriteValidator;
  read_validator : option ReadValidator
}.

Definition write_directly (new_value : Z) (r : CsrReg) : CsrReg :=
  {| value := new_value; write_validator := write_validator r; read_validator := read_validator r |}.

Definition validate (r : CsrReg) (new_value : Z) (context : CsrContext) : CsrWriteOp :=
  match write_validator r with
  | Some validator => validator new_value context
  | None => CsrWriteOp_new_write_all
  end.

Definition CsrReg_write (new_value : Z) (context : CsrContext) (r : CsrReg) : CsrReg :=
  match write_validator r with
  | Some validator =>
      write_directly (get_new_value (validator new_value context) (value r) new_value) r
  | None => write_directly new_value r
  end.

Definition write_with_mask (new_value : Z) (context : CsrContext) (mask : CsrWriteOp) (r : CsrReg)
  : CsrReg :=
  match write_validator r with
  | Some validator =>
      let op := op_and (validator new_value context) mask in
      write_directly (get_new_value op (value r) new_value) r
  | None => write_directly new_value r
  end.

Definition CSR_SIZE : Z := Z.shiftl 1 12.

(** The vector of optional registers is a finite map below [CSR_SIZE]. *)
Record CsrRegFile : Type := {
  table : gmap Z CsrReg;
  cpl : PrivilegeLevel;
  ctx : CsrContext
}.

Definition set_table (f : gmap Z CsrReg -> gmap Z CsrReg) (s : CsrRegFile) : CsrRegFile :=
  {| table := f (table s); cpl := cpl s; ctx := ctx s |}.
Definition set_cpl (p : PrivilegeLevel) (s : CsrRegFile) : CsrRegFile :=
  {| table := table s; cpl := p; ctx := ctx s |}.
Definition set_ctx (c : CsrContext) (s : CsrRegFile) : CsrRegFile :=
  {| table := table s; cpl := cpl s; ctx := c |}.

Definition CsrRegFile_from (csr_table : list (Z * Z * WriteValidator)) : CsrRegFile :=
  {| table := foldl (fun t '(addr, default_value, validator) =>
                <[addr := {| value := default_value; write_validator := Some validator;
                             read_validator := resolve_shadow_addr addr |}]> t) ∅ csr_table;
     cpl := LvM;
     ctx := {| extension := 0; xlen := 0 |} |}.

Definition CsrRegFile_new : CsrRegFile := CsrRegFile_from CSR_REG_TABLE.
Arguments CsrRegFile_new : simpl never.

(** Sub-registers with an address of their own ([csr_index]). *)
Definition fflags : Z := 0x001.
Definition frm : Z := 0x002.
Definition fcsr : Z := 0x003.
Definition vxsat : Z := 0x009.
Definition vxrm : Z := 0x00a.

Section RegFile.
Context {E : Type}.

Abbreviation CsrM := (M CsrRegFile E).

(** [self.table[addr as usize]]: an index past the vector panics. *)
Definition slot (addr : Z) : CsrM (option CsrReg) :=
  if addr <? CSR_SIZE then gets (fun s => table s !! addr) else panic.

(** [self.table[addr].as_mut().unwrap()], then an update of the register. *)
Definition update_existing (addr : Z) (f : CsrReg -> CsrReg) : CsrM unit :=
  r <- slot addr ;; _ <- unwrap r ;; modify (set_table (alter f addr)).

(** [self.table[addr].unwrap().value()] *)
Definition existing_value (addr : Z) : CsrM Z :=
  r <- slot addr ;; r <- unwrap r ;; ret (value r).

Definition reg_index (addr : Z) : Z :=
  match resolve_shadow_addr addr with Some rv => target_index rv | None => addr end.

(** [get_by_type_existing::<T>()]: a pointer to the register, or to the base
    register of a shadow; it must exist (a panic in debug builds, undefined
    behaviour in release builds otherwise). *)
Definition get_by_type_existing (addr : Z) : CsrM Z :=
  r <- slot (reg_index addr) ;; _ <- unwrap r ;; ret (reg_index addr).

(** [NamedCsrReg::data], [set_data_directly] *)
Definition data (addr : Z) : CsrM Z := i <- get_by_type_existing addr ;; existing_value i.
Definition set_data_directly (addr val : Z) : CsrM unit :=
  i <- get_by_type_existing addr ;; update_existing i (write_directly val).

(** A field of a register: what [gen_csr_reg!] generates its accessors from. *)
Record CsrField : Type := Fld { fl_csr : Z; fl_bit : Z; fl_len : Z }.

Definition LOW_BIT (f : CsrField) : Z := field_start (fl_bit f).
Definition field_mask (f : CsrField) : Z := shl 64 (ones_at (fl_len f)) (LOW_BIT f).

Definition get_field (f : CsrField) : CsrM Z :=
  v <- data (fl_csr f) ;;
  ret (Z.shiftr (Z.land v (field_mask f)) (LOW_BIT f)).

Definition field_new_value (f : CsrField) (old val : Z) : Z :=
  get_new_value {| op_mask := field_mask f |} old (shl 64 val (LOW_BIT f)).

Definition set_field (f : CsrField) (val : Z) : CsrM unit :=
  assert (val <=? ones_at (fl_len f)) ;;;
  i <- get_by_type_existing (fl_csr f) ;;
  old <- existing_value i ;;
  c <- gets ctx ;;
  update_existing i (CsrReg_write (field_new_value f old val) c).

Definition set_field_directly (f : CsrField) (val : Z) : CsrM unit :=
  assert (val <=? ones_at (fl_len f)) ;;;
  i <- get_by_type_existing (fl_csr f) ;;
  old <- existing_value i ;;
  update_existing i (write_directly (field_new_value f old val)).

Definition privelege_level : CsrM PrivilegeLevel := gets cpl.
Definition set_current_privileged (p : PrivilegeLevel) : CsrM unit := modify (set_cpl p).

Definition Mstatus_tvm : CsrField := Fld Mstatus 20 1.

(** The level the privilege table requires for an address.  [inr i] is
    [Err(i)]; [i - 1] panics for [i = 0], as does an index out of range. *)
Definition table_level (csr_addr : Z) : option PrivilegeLevel :=
  match binary_search_by (fun '(k, _) => if csr_addr <? k then Gt else if k =? csr_addr then Eq else Lt)
          CSR_PRIVILEGE_TABLE with
  | inl i => snd <$> CSR_PRIVILEGE_TABLE !! i
  | inr O => None
  | inr (S i) => snd <$> CSR_PRIVILEGE_TABLE !! i
  end.

Definition is_read_priv_legal (csr_addr : Z) : CsrM bool :=
  level <- privelege_level ;;
  trapped <- (if (csr_addr =? Satp) && bool_decide (level = LvS)
              then tvm <- get_field Mstatus_tvm ;; ret (tvm =? 1) else ret false) ;;
  if (trapped : bool) then ret false
  else required <- unwrap (table_level csr_addr) ;; ret (priv_le required level).

Definition is_write_priv_legal (csr_addr : Z) : CsrM bool :=
  if 0xC00 <=? csr_addr then ret false else is_read_priv_legal csr_addr.

Definition write_uncheck_privilege (addr data : Z) : CsrM unit :=
  if addr =? fflags then
    update_existing Fcsr (fun r => write_directly
      (Z.lor (Z.land (value r) (bnot 64 0x1F)) (Z.land data 0x1F)) r)
  else if addr =? frm then
    update_existing Fcsr (fun r => write_directly
      (Z.lor (Z.land (value r) (bnot 64 0xE0)) (shl 64 (Z.land data 0x7) 5)) r)
  else if addr =? fcsr then
    update_existing Fcsr (write_directly (Z.land data 0xFF))
  else if addr =? vxsat then
    update_existing Vcsr (fun r => write_directly
      (Z.lor (Z.land (value r) (bnot 64 0x1)) (Z.land data 0x1)) r)
  else if addr =? vxrm then
    update_existing Vcsr (fun r => write_directly
      (Z.lor (Z.land (value r) (bnot 64 0x6)) (shl 64 (Z.land data 0x3) 1)) r)
  else
    csr <- slot addr ;;
    c <- gets ctx ;;
    match csr with
    | Some csr =>
        match read_validator csr with
        | Some base_addr =>
            let op := validate csr data c in
            base <- slot (target_index base_addr) ;;
            match base with
            | Some _ => modify (set_table (alter (write_with_mask data c op) (target_index base_addr)))
            | None => ret tt
            end
        | None => modify (set_table (alter (CsrReg_write data c) addr))
        end
    | None => ret tt
    end.

Definition read_uncheck_privilege (addr : Z) : CsrM (option Z) :=
  if addr =? fflags then v <- existing_value Fcsr ;; ret (Some (Z.land v 0x1F))
  else if addr =? frm then v <- existing_value Fcsr ;; ret (Some (Z.land (Z.shiftr v 5) 0x7))
  else if addr =? vxsat then v <- existing_value Vcsr ;; ret (Some (Z.land v 0x1))
  else if addr =? vxrm then v <- existing_value Vcsr ;; ret (Some (Z.land (Z.shiftr v 1) 0x3))
  else match resolve_shadow_addr addr with
       | Some base_addr =>
           v <- existing_value (target_index base_addr) ;;
           ret (Some (Z.land v (view_mask base_addr)))
       | None => r <- slot addr ;; ret (value <$> r)
       end.

Definition read_checked (addr : Z) : CsrM (option Z) :=
  legal <- is_read_priv_legal addr ;;
  if negb legal then ret None else read_uncheck_privilege addr.

Definition write_checked (addr data : Z) : CsrM bool :=
  legal <- is_write_priv_legal addr ;;
  if negb legal then ret false
  else write_uncheck_privilege addr data ;;; ret true.

Definition debug (addr : Z) (new_value : option Z) : CsrM (option Z) :=
  v <- read_uncheck_privilege addr ;;
  match new_value with
  | Some new => write_uncheck_privilege addr new ;;; ret v
  | None => ret v
  end.

Definition CsrRegFile_write_directly (addr data : Z) : CsrM bool :=
  if CSR_SIZE <=? addr then ret false
  else r <- slot addr ;;
       match r with
       | Some _ => modify (set_table (alter (write_directly data) addr)) ;;; ret true
       | None => ret false
       end.

(** [Minstret::wrapping_add] (utils.rs): the addition is [+], not
    [wrapping_add]. *)
Definition Minstret_minstret : CsrField := Fld Minstret 0 XLEN.
Definition Minstret_wrapping_add `{Profile} (rhs : Z) : CsrM unit :=
  m <- get_field Minstret_minstret ;;
  v <- add_chk 64 m rhs ;;
  set_field Minstret_minstret v.

(** [Misa::c_enabled] *)
Definition Misa_extension : CsrField := Fld Misa 0 25.
Definition Misa_c_enabled : CsrM bool :=
  e <- get_field Misa_extension ;; ret (negb (Z.land e 4 =? 0)).
End RegFile.

(** ** Fields of a word *)

(** [fget low len v] and [fset low len v x] read and replace the bits
    [low .. low+len-1]. *)
Definition fget (low len v : Z) : Z := Z.shiftr v low mod 2 ^ len.
Definition fset (low len v x : Z) : Z :=
  Z.lor (Z.ldiff v (Z.shiftl (Z.ones len) low)) (Z.shiftl x low).

Definition field_ok (f : CsrField) : Prop :=
  0 <= LOW_BIT f /\ 0 < fl_len f /\ LOW_BIT f + fl_len f <= 64.

Lemma fget_testbit low len v i : 0 <= low -> 0 <= len -> 0 <= i ->
  Z.testbit (fget low len v) i = (i <? len) && Z.testbit v (i + low).
Proof.
  intros. unfold fget. fold (wrap len (Z.shiftr v low)). by rewrite wrap_testbit, shiftr_testbit by lia.
Qed.

Lemma uint_testbit w v i : 0 <= w -> uint w v -> 0 <= i -> Z.testbit v i = (i <? w) && Z.testbit v i.
Proof.
  intros Hw Hv Hi. destruct (Z.ltb_spec i w); [done|]. by rewrite (uint_testbit_high w v) by done.
Qed.

Lemma fset_testbit low len v x i : 0 <= low -> 0 <= len -> uint len x -> 0 <= i ->
  Z.testbit (fset low len v x) i =
    if (low <=? i) && (i <? low + len) then Z.testbit x (i - low) else Z.testbit v i.
Proof.
  intros Hl Hn Hx Hi. unfold fset. rewrite Z.lor_spec, Z.ldiff_spec, !shiftl_testbit by lia.
  destruct (Z.leb_spec low i); simpl.
  - rewrite ones_testbit by lia. destruct (Z.ltb_spec (i - low) len), (Z.ltb_spec i (low + len)); try lia.
    + by rewrite andb_false_r.
    + rewrite andb_true_r, (uint_testbit_high len x) by (done || lia). by rewrite orb_false_r.
  - rewrite (Z.testbit_neg_r _ (i - low)), (Z.testbit_neg_r x) by lia.
    by rewrite andb_true_r, orb_false_r.
Qed.

Lemma fget_range low len v : 0 <= len -> uint len (fget low len v).
Proof. intros. by apply wrap_range. Qed.

Lemma fget_fset_eq low len v x : 0 <= low -> 0 <= len -> uint len x -> fget low len (fset low len v x) = x.
Proof.
  intros Hl Hn Hx. apply Z.bits_inj'. intros i Hi.
  rewrite fget_testbit, fset_testbit, (uint_testbit len x i) by (done || lia).
  destruct (Z.ltb_spec i len); simpl; [|done].
  split_ltb; simpl; try lia. by replace (i + low - low) with i by lia.
Qed.

Lemma fget_fset_ne low len low' len' v x :
  0 <= low -> 0 <= len -> 0 <= low' -> 0 <= len' -> uint len x ->
  low + len <= low' \/ low' + len' <= low ->
  fget low' len' (fset low len v x) = fget low' len' v.
Proof.
  intros Hl Hn Hl' Hn' Hx Hd. apply Z.bits_inj'. intros i Hi.
  rewrite !fget_testbit, fset_testbit by (done || lia).
  destruct (Z.ltb_spec i len'); simpl; [|done]. split_ltb; simpl; (done || lia).
Qed.

Lemma fset_range low len v x : 0 <= low -> 0 <= len -> low + len <= 64 -> uint len x -> u64 v ->
  u64 (fset low len v x).
Proof.
  intros Hl Hn Hle Hx Hv. apply uint_of_bits; [lia| |].
  - unfold fset. apply Z.lor_nonneg. split; [apply Z.ldiff_nonneg; left; apply Hv|].
    apply Z.shiftl_nonneg, Hx.
  - intros i Hi. rewrite fset_testbit by (done || lia).
    split_ltb; simpl; try lia; apply (uint_testbit_high 64 v); done || lia.
Qed.

Lemma fset_all v x : u64 v -> u64 x -> fset 0 64 v x = x.
Proof.
  intros Hv Hx. apply Z.bits_inj'. intros i Hi. rewrite fset_testbit by (done || lia). cbn [Z.leb Z.add].
  destruct (Z.ltb_spec i (0 + 64)); rewrite ?andb_true_r, ?andb_false_r.
  - rewrite (proj2 (Z.leb_le 0 i)) by done. by rewrite Z.sub_0_r.
  - by rewrite (uint_testbit_high 64 v), (uint_testbit_high 64 x) by (done || lia).
Qed.

(** What the generated accessors compute. *)
Lemma field_mask_testbit f i : field_ok f -> 0 <= i ->
  Z.testbit (field_mask f) i = (LOW_BIT f <=? i) && (i <? LOW_BIT f + fl_len f).
Proof.
  intros (H1 & H2 & H3) Hi. unfold field_mask, shl. rewrite ones_at_spec by lia.
  rewrite wrap_testbit, shiftl_testbit by lia. destruct (Z.leb_spec (LOW_BIT f) i).
  - rewrite ones_testbit by lia. split_ltb; simpl; done || lia.
  - rewrite Z.testbit_neg_r by lia. by rewrite andb_false_r.
Qed.

Lemma field_get_value f v : field_ok f ->
  Z.shiftr (Z.land v (field_mask f)) (LOW_BIT f) = fget (LOW_BIT f) (fl_len f) v.
Proof.
  intros Hf. pose proof Hf as (H1 & H2 & H3). apply Z.bits_inj'. intros i Hi.
  rewrite fget_testbit, shiftr_testbit, Z.land_spec, field_mask_testbit by (done || lia).
  split_ltb; simpl; try lia; by rewrite ?andb_true_r, ?andb_false_r.
Qed.

Lemma field_new_value_spec f old x : field_ok f -> u64 old -> uint (fl_len f) x ->
  field_new_value f old x = fset (LOW_BIT f) (fl_len f) old x.
Proof.
  intros Hf Ho Hx. pose proof Hf as (H1 & H2 & H3). apply Z.bits_inj'. intros i Hi.
  rewrite fset_testbit by (done || lia). unfold field_new_value, get_new_value, op_mask, shl.
  rewrite Z.lor_spec, !Z.land_spec, bnot_testbit, wrap_testbit, shiftl_testbit by lia.
  rewrite field_mask_testbit by done.
  destruct (Z.ltb_spec i 64).
  - split_ltb; simpl; rewrite ?andb_true_r, ?andb_false_r, ?orb_false_r; (done || lia).
  - rewrite (uint_testbit_high 64 old) by (done || lia).
    split_ltb; simpl; rewrite ?andb_true_r, ?andb_false_r; (done || lia).
Qed.

(** A validated write of a word that differs from the old one only inside the
    validator's mask takes effect unchanged. *)
Lemma get_new_value_testbit op old new i : u64 old -> 0 <= i -> 0 <= op_mask op ->
  Z.testbit (get_new_value op old new) i =
    if Z.testbit (op_mask op) i then Z.testbit new i else Z.testbit old i.
Proof.
  intros Ho Hi Hm. unfold get_new_value. rewrite Z.lor_spec, !Z.land_spec, bnot_testbit by lia.
  destruct (Z.ltb_spec i 64).
  - destruct (Z.testbit (op_mask op) i); simpl; by rewrite ?andb_true_r, ?andb_false_r, ?orb_false_r.
  - rewrite (uint_testbit_high 64 old) by (done || lia).
    destruct (Z.testbit (op_mask op) i); simpl; by rewrite ?andb_true_r, ?andb_false_r.
Qed.

Lemma get_new_value_u64 op old new : u64 old -> uint 64 (op_mask op) -> u64 (get_new_value op old new).
Proof.
  intros Ho Hm. unfold get_new_value.
  apply uint_lor; [lia|by apply uint_land|by apply uint_land_r].
Qed.

Lemma get_new_value_field op f old x :
  field_ok f -> u64 old -> uint (fl_len f) x -> 0 <= op_mask op ->
  Z.land (field_mask f) (op_mask op) = field_mask f ->
  get_new_value op old (fset (LOW_BIT f) (fl_len f) old x) = fset (LOW_BIT f) (fl_len f) old x.
Proof.
  intros Hf Ho Hx Hm Hsub. pose proof Hf as (H1 & H2 & H3). apply Z.bits_inj'. intros i Hi.
  rewrite get_new_value_testbit, fset_testbit by (done || lia).
  apply (f_equal (fun z => Z.testbit z i)) in Hsub.
  rewrite Z.land_spec, field_mask_testbit in Hsub by done.
  destruct (Z.testbit (op_mask op) i); [done|]. rewrite andb_false_r in Hsub. by rewrite <- Hsub.
Qed.

(** ** The invariant *)

(** What never changes of a register. *)
Definition shape (r : CsrReg) : option WriteValidator * option ReadValidator :=
  (write_validator r, read_validator r).

Record csr_wf (s : CsrRegFile) : Prop := {
  wf_shape : forall a, shape <$> table s !! a = shape <$> table CsrRegFile_new !! a;
  wf_u64 : map_Forall (fun _ r => u64 (value r)) (table s)
}.

(** The value of a register, and its update. *)
Definition val (s : CsrRegFile) (a : Z) : Z := default 0 (value <$> table s !! a).
Definition upd (a v : Z) (s : CsrRegFile) : CsrRegFile := set_table (alter (write_directly v) a) s.

Definition known (a : Z) : bool :=
  (a <? CSR_SIZE) && match table CsrRegFile_new !! a with Some _ => true | None => false end.

Lemma known_lookup s a : csr_wf s -> known a = true ->
  exists r r0, table s !! a = Some r /\ table CsrRegFile_new !! a = Some r0 /\ shape r = shape r0 /\
    value r = val s a /\ u64 (val s a) /\ a < CSR_SIZE.
Proof.
  intros [Hs Hv] [Ha%Z.ltb_lt Hk]%andb_true_iff. specialize (Hs a).
  destruct (table CsrRegFile_new !! a) as [r0|] eqn:E0; [|done].
  destruct (table s !! a) as [r|] eqn:Er; [|done]. simpl in Hs.
  assert (value r = val s a) as Ev by (unfold val; by rewrite Er).
  exists r, r0. injection Hs as Hs1 Hs2. split_and!; try done; [unfold shape; congruence|].
  rewrite <- Ev. exact (Hv _ _ Er).
Qed.

Lemma val_u64 s a : csr_wf s -> u64 (val s a).
Proof.
  intros [_ Hv]. unfold val. destruct (table s !! a) as [r|] eqn:E; [exact (Hv _ _ E)|done].
Qed.

Lemma val_upd s a b v : csr_wf s -> known a = true ->
  val (upd a v s) b = if decide (a = b) then v else val s b.
Proof.
  intros Hwf Hk. destruct (known_lookup s a Hwf Hk) as (r & _ & Hr & _).
  unfold val, upd, set_table. simpl. case_decide as Eab.
  - subst b. by rewrite lookup_alter_eq, Hr.
  - by rewrite lookup_alter_ne.
Qed.

Lemma val_upd_eq s a v : csr_wf s -> known a = true -> val (upd a v s) a = v.
Proof. intros. rewrite val_upd by done. by rewrite decide_True. Qed.

Lemma val_upd_ne s a b v : a <> b -> val (upd a v s) b = val s b.
Proof. intros. unfold val, upd, set_table. simpl. by rewrite lookup_alter_ne. Qed.

Lemma upd_wf s a v : csr_wf s -> u64 v -> csr_wf (upd a v s).
Proof.
  intros [Hs Hv] Hu. split.
  - intros b. rewrite <- Hs. simpl. destruct (decide (a = b)) as [->|].
    + rewrite lookup_alter_eq. by destruct (table s !! b).
    + by rewrite lookup_alter_ne.
  - intros b r. simpl. destruct (decide (a = b)) as [->|].
    + rewrite lookup_alter_eq. destruct (table s !! b); [|done]. by intros [= <-].
    + rewrite lookup_alter_ne by done. apply Hv.
Qed.

Lemma cpl_upd a v s : cpl (upd a v s) = cpl s.
Proof. done. Qed.

Lemma set_cpl_wf p s : csr_wf s -> csr_wf (set_cpl p s).
Proof. intros [??]. by split. Qed.

Lemma val_set_cpl p s a : val (set_cpl p s) a = val s a.
Proof. done. Qed.

Lemma alter_upd s a f r v :
  table s !! a = Some r -> f r = write_directly v r -> set_table (alter f a) s = upd a v s.
Proof.
  intros Hr Hf. unfold upd, set_table. f_equal. apply map_eq. intros b.
  destruct (decide (a = b)) as [->|]; [|by rewrite !lookup_alter_ne].
  rewrite !lookup_alter_eq, Hr. simpl. by rewrite Hf.
Qed.

#[export] Hint Resolve upd_wf set_cpl_wf val_u64 : here.

(** Every validator of the table allows a set of bits of a 64-bit word. *)
Lemma make_mask_u64 l r : u64 (make_mask l r).
Proof. by apply uint_shl. Qed.

Lemma validators_u64 :
  Forall (fun d => Forall (fun f => forall v c, uint 64 (op_mask (fd_validator f v c))) (cd_fields d))
    csr_descs.
Proof.
  unfold csr_descs, u_mode_csrs, s_mode_csrs, m_mode_status_csrs, m_mode_csrs.
  cbn [app]. repeat (apply List.Forall_cons; [cbn [cd_fields]; repeat apply List.Forall_cons; try apply List.Forall_nil|]);
    try apply List.Forall_nil;
    intros v c; cbn [fd_validator F validate_readonly validate_write_any op_mask];
    first [apply make_mask_u64 | apply uint_0; lia |
           unfold validate_range, validate_with_cond; case_match; [apply make_mask_u64|by apply uint_0]].
Qed.

Lemma csr_validator_u64 d v c : In d csr_descs -> uint 64 (op_mask (csr_validator d v c)).
Proof.
  intros Hd. pose proof validators_u64 as Hf. rewrite List.Forall_forall in Hf. specialize (Hf d Hd).
  unfold csr_validator. assert (uint 64 (op_mask {| op_mask := 0 |})) as H0 by (by apply uint_0).
  revert H0. generalize ({| op_mask := 0 |}) as op.
  induction Hf as [|f fs Hf1 _ IH]; intros op Hop; simpl; [done|]. apply IH. by apply uint_lor.
Qed.

(** The initial table holds exactly the described registers. *)
Lemma table_from_lookup tab a r :
  table (CsrRegFile_from tab) !! a = Some r ->
  exists d v, In (a, d, v) tab /\
    r = {| value := d; write_validator := Some v; read_validator := resolve_shadow_addr a |}.
Proof.
  unfold CsrRegFile_from. simpl. induction tab as [|[[b d] v] tab IH] using rev_ind; [simpl; by rewrite lookup_empty|].
  rewrite foldl_app. simpl. destruct (decide (b = a)) as [->|].
  - rewrite lookup_insert_eq. intros [= <-]. exists d, v. split; [|done].
    apply in_or_app. right. by left.
  - rewrite lookup_insert_ne by done. intros (d' & v' & Hin & ->)%IH. exists d', v'.
    split; [|done]. apply in_or_app. by left.
Qed.

Lemma table_new_lookup a r : table CsrRegFile_new !! a = Some r ->
  exists d, In d csr_descs /\ cd_addr d = a /\ write_validator r = Some (csr_validator d) /\
    read_validator r = resolve_shadow_addr a.
Proof.
  intros (dv & v & Hin & ->)%table_from_lookup. unfold CSR_REG_TABLE in Hin.
  apply in_map_iff in Hin as (d & Heq & Hd). injection Heq as <- <- <-.
  exists d. split; [exact Hd|]. split; [reflexivity|]. split; reflexivity.
Qed.

Lemma known_validate s a r : csr_wf s -> table s !! a = Some r ->
  exists d, In d csr_descs /\ write_validator r = Some (csr_validator d) /\
    forall v c, uint 64 (op_mask (csr_validator d v c)).
Proof.
  intros [Hs _] Hr. specialize (Hs a). rewrite Hr in Hs.
  destruct (table CsrRegFile_new !! a) as [r0|] eqn:E0; [|discriminate Hs].
  injection Hs as Hs1 Hs2. apply table_new_lookup in E0 as (d & Hd & _ & Hw & _).
  exists d. split; [done|]. split; [congruence|]. intros v c. by apply csr_validator_u64.
Qed.

(** ** Running the accessors *)
Section Run.
Context {E : Type}.
Implicit Types s : CsrRegFile.

Lemma existing_value_run s a : csr_wf s -> known a = true ->
  existing_value (E := E) a s = (Ok (val s a), s).
Proof.
  intros Hwf Hk. destruct (known_lookup s a Hwf Hk) as (r & r0 & Hr & _ & _ & Hv & _ & Hlt).
  unfold existing_value, slot. rewrite (proj2 (Z.ltb_lt _ _) Hlt).
  unfold bind, gets, unwrap, ret. by rewrite Hr, Hv.
Qed.

Lemma update_existing_run s a f v : csr_wf s -> known a = true ->
  (forall r, value r = val s a -> table s !! a = Some r -> f r = write_directly v r) ->
  update_existing (E := E) a f s = (Ok tt, upd a v s).
Proof.
  intros Hwf Hk Hf. destruct (known_lookup s a Hwf Hk) as (r & r0 & Hr & _ & _ & Hv & _ & Hlt).
  unfold update_existing, slot. rewrite (proj2 (Z.ltb_lt _ _) Hlt).
  unfold bind, gets, unwrap, modify. rewrite Hr. f_equal. eapply alter_upd; eauto.
Qed.

Lemma get_by_type_existing_run s a : csr_wf s -> known (reg_index a) = true ->
  get_by_type_existing (E := E) a s = (Ok (reg_index a), s).
Proof.
  intros Hwf Hk. destruct (known_lookup s _ Hwf Hk) as (r & r0 & Hr & _ & _ & _ & _ & Hlt).
  unfold get_by_type_existing, slot. rewrite (proj2 (Z.ltb_lt _ _) Hlt).
  unfold bind, gets, unwrap, ret. by rewrite Hr.
Qed.

Lemma data_run s a : csr_wf s -> known (reg_index a) = true ->
  data (E := E) a s = (Ok (val s (reg_index a)), s).
Proof.
  intros. unfold data. erewrite bind_Ok by (by apply get_by_type_existing_run).
  by apply existing_value_run.
Qed.

Lemma get_field_run s f : csr_wf s -> known (reg_index (fl_csr f)) = true -> field_ok f ->
  get_field (E := E) f s = (Ok (fget (LOW_BIT f) (fl_len f) (val s (reg_index (fl_csr f)))), s).
Proof.
  intros. unfold get_field. erewrite bind_Ok by (by apply data_run).
  unfold ret. by rewrite field_get_value.
Qed.

(** The bits of [f] are writable through its register's validator. *)
Definition writable (f : CsrField) : Prop :=
  forall r v c, table CsrRegFile_new !! reg_index (fl_csr f) = Some r ->
    Z.land (field_mask f) (op_mask (validate r v c)) = field_mask f.

Lemma ones_at_range len x : 0 <= len <= 64 -> uint len x -> (x <=? ones_at len) = true.
Proof. intros Hl Hx. rewrite ones_at_spec, Z.ones_equiv by done. apply Z.leb_le. unfold uint in Hx. lia. Qed.

Lemma set_field_run s f x : csr_wf s -> known (reg_index (fl_csr f)) = true -> field_ok f ->
  writable f -> uint (fl_len f) x ->
  set_field (E := E) f x s =
    (Ok tt, upd (reg_index (fl_csr f)) (fset (LOW_BIT f) (fl_len f) (val s (reg_index (fl_csr f))) x) s).
Proof.
  intros Hwf Hk Hf Hw Hx. pose proof Hf as (H1 & H2 & H3). unfold set_field.
  rewrite ones_at_range by (done || lia). cbn [assert].
  erewrite bind_Ok by reflexivity.
  erewrite bind_Ok by (by apply get_by_type_existing_run).
  erewrite bind_Ok by (by apply existing_value_run).
  erewrite bind_Ok by reflexivity.
  apply update_existing_run; [done..|]. intros r Hv Hr.
  destruct (known_lookup s _ Hwf Hk) as (r' & r0 & Hr' & H0 & Hsh & _ & Hu & _).
  assert (r' = r) as -> by congruence. injection Hsh as Hsh _.
  rewrite field_new_value_spec by done. unfold CsrReg_write.
  destruct (write_validator r) as [vd|] eqn:Evd; [|done]. rewrite Hv.
  destruct (known_validate s _ r Hwf Hr) as (d & Hd & Ed & Hm).
  f_equal. apply get_new_value_field; [done..| |].
  - rewrite Evd in Ed. injection Ed as ->. apply Hm.
  - specialize (Hw r0 (fset (LOW_BIT f) (fl_len f) (val s (reg_index (fl_csr f))) x) (ctx s) H0).
    unfold validate in Hw. by rewrite <- Hsh in Hw.
Qed.

Lemma set_field_directly_run s f x : csr_wf s -> known (reg_index (fl_csr f)) = true -> field_ok f ->
  uint (fl_len f) x ->
  set_field_directly (E := E) f x s =
    (Ok tt, upd (reg_index (fl_csr f)) (fset (LOW_BIT f) (fl_len f) (val s (reg_index (fl_csr f))) x) s).
Proof.
  intros Hwf Hk Hf Hx. pose proof Hf as (H1 & H2 & H3). unfold set_field_directly.
  rewrite ones_at_range by (done || lia). cbn [assert].
  erewrite bind_Ok by reflexivity.
  erewrite bind_Ok by (by apply get_by_type_existing_run).
  erewrite bind_Ok by (by apply existing_value_run).
  apply update_existing_run; [done..|]. intros r Hv Hr.
  rewrite field_new_value_spec; auto using val_u64.
Qed.

Lemma set_data_directly_run s a v : csr_wf s -> known (reg_index a) = true ->
  set_data_directly (E := E) a v s = (Ok tt, upd (reg_index a) v s).
Proof.
  intros. unfold set_data_directly. erewrite bind_Ok by (by apply get_by_type_existing_run).
  by apply update_existing_run.
Qed.

Lemma CsrRegFile_write_directly_run s a v : csr_wf s -> known a = true ->
  CsrRegFile_write_directly (E := E) a v s = (Ok true, upd a v s).
Proof.
  intros Hwf Hk. destruct (known_lookup s a Hwf Hk) as (r & r0 & Hr & _ & _ & _ & _ & Hlt).
  unfold CsrRegFile_write_directly, slot. rewrite (proj2 (Z.leb_gt _ _) Hlt), (proj2 (Z.ltb_lt _ _) Hlt).
  unfold bind, gets. by rewrite Hr.
Qed.
End Run.

(** ** Address decoding *)

(** Boolean checks over all 4096 addresses. *)
Definition all_csr_addrs : list Z := seqZ 0 4096.

Lemma forall_csr_addr (P : Z -> bool) : forallb P all_csr_addrs = true ->
  forall a, 0 <= a < CSR_SIZE -> P a = true.
Proof.
  intros H a Ha. rewrite List.forallb_forall in H. apply H. apply list_elem_of_In.
  unfold all_csr_addrs. apply elem_of_seqZ. change CSR_SIZE with 4096 in Ha. lia.
Qed.

Lemma table_level_spec a : 0 <= a < CSR_SIZE ->
  exists p, table_level a = Some p /\ priv_nr p = extract_range U64 a 8 9.
Proof.
  intros Ha.
  pose proof (forall_csr_addr (fun a => match table_level a with
    | Some p => priv_nr p =? extract_range U64 a 8 9 | None => false end)
    ltac:(vm_compute; reflexivity) a Ha) as H.
  cbv beta in H. destruct (table_level a) as [p|]; [|done]. exists p. split; [done|]. by apply Z.eqb_eq.
Qed.

Lemma resolve_known a rv : resolve_shadow_addr a = Some rv ->
  known (target_index rv) = true /\ known a = true.
Proof.
  unfold resolve_shadow_addr. intros H. apply bind_Some in H as (d & Hfind & Hsh).
  apply find_some in Hfind as [Hin <-%Z.eqb_eq].
  assert (forallb (fun d => match cd_shadow d with
    | Some t => known (target_index (shadow_view t (cd_fields d))) && known (cd_addr d)
    | None => true end) csr_descs = true) as Hall by (vm_compute; reflexivity).
  rewrite List.forallb_forall in Hall. specialize (Hall d Hin).
  destruct (cd_shadow d) as [t|]; [|done]. injection Hsh as <-.
  by apply andb_true_iff in Hall.
Qed.

(** ** Reads and writes by address *)

(** The register an access to [addr] reads or changes. *)
Definition write_target (addr : Z) : option Z :=
  if (addr =? fflags) || (addr =? frm) || (addr =? fcsr) then Some Fcsr
  else if (addr =? vxsat) || (addr =? vxrm) then Some Vcsr
  else if known addr then Some (reg_index addr) else None.

Lemma lookup_unknown s addr : csr_wf s -> 0 <= addr < CSR_SIZE -> known addr = false ->
  table s !! addr = None.
Proof.
  intros [Hs _] Ha Hk. unfold known in Hk. rewrite (proj2 (Z.ltb_lt _ _)) in Hk by lia.
  specialize (Hs addr). cbn [andb] in Hk. destruct (table CsrRegFile_new !! addr); [done|].
  by destruct (table s !! addr).
Qed.

Lemma lookup_known s addr : csr_wf s -> known addr = true ->
  exists r d, table s !! addr = Some r /\ value r = val s addr /\
    write_validator r = Some (csr_validator d) /\ In d csr_descs /\ cd_addr d = addr /\
    read_validator r = resolve_shadow_addr addr.
Proof.
  intros Hwf Hk. destruct (known_lookup s addr Hwf Hk) as (r & r0 & Hr & H0 & Hsh & Hv & _).
  apply table_new_lookup in H0 as (d & Hd & Hda & Hw & Hrv). injection Hsh as E1 E2.
  exists r, d. split; [done|]. split; [done|]. split; [congruence|].
  split; [exact Hd|]. split; [exact Hda|congruence].
Qed.

(** What a CSR reads as: a sub-register is its field of [fcsr] or [vcsr], a
    supervisor view the visible bits of its machine register, and any other
    CSR its own register. *)
Definition csr_view (s : CsrRegFile) (addr : Z) : Z :=
  if addr =? fflags then fget 0 5 (val s Fcsr)
  else if addr =? frm then fget 5 3 (val s Fcsr)
  else if addr =? vxsat then fget 0 1 (val s Vcsr)
  else if addr =? vxrm then fget 1 2 (val s Vcsr)
  else match resolve_shadow_addr addr with
       | Some view => Z.land (val s (target_index view)) (view_mask view)
       | None => val s addr
       end.

Section Access.
Context {E : Type}.
Implicit Types s : CsrRegFile.

(** A write by address changes at most the target register, to a word. *)
Lemma write_uncheck_run s addr data : csr_wf s -> 0 <= addr < CSR_SIZE -> u64 data ->
  exists v, u64 v /\
    write_uncheck_privilege (E := E) addr data s =
      (Ok tt, match write_target addr with Some t => upd t v s | None => s end).
Proof.
  intros Hwf Ha Hd. pose proof (val_u64 s Fcsr Hwf) as Hf. pose proof (val_u64 s Vcsr Hwf) as Hvc.
  assert (forall x y, u64 x -> u64 (Z.lor (Z.land x (bnot 64 y)) (Z.land data (wrap 64 y)))) as K1.
  { intros x y Hx. apply uint_lor; [lia|by apply uint_land|by apply uint_land]. }
  assert (forall x y n, u64 x -> u64 (Z.lor (Z.land x (bnot 64 y)) (shl 64 n y))) as K2.
  { intros x y n Hx. apply uint_lor; [lia|by apply uint_land|by apply uint_shl]. }
  unfold write_uncheck_privilege, write_target.
  destruct (Z.eqb_spec addr fflags); [|destruct (Z.eqb_spec addr frm);
    [|destruct (Z.eqb_spec addr fcsr); [|destruct (Z.eqb_spec addr vxsat);
    [|destruct (Z.eqb_spec addr vxrm)]]]]; cbn [orb].
  1-5: eexists; split; [|apply update_existing_run; [done|reflexivity|intros r Hvr _; rewrite ?Hvr; reflexivity]].
  - by apply (K1 _ 0x1F).
  - apply uint_lor; [lia|by apply uint_land|by apply uint_shl].
  - by apply uint_land.
  - by apply (K1 _ 0x1).
  - apply uint_lor; [lia|by apply uint_land|by apply uint_shl].
  - unfold slot. rewrite (proj2 (Z.ltb_lt _ _)) by lia. unfold bind, gets.
    destruct (known addr) eqn:Hk; [|rewrite lookup_unknown by done; by exists 0].
    destruct (lookup_known s addr Hwf Hk) as (r & d & Hr & Hv & Hw & Hin & _ & Hrv).
    rewrite Hr, Hrv. unfold reg_index. destruct (resolve_shadow_addr addr) as [rv|] eqn:Erv.
    + destruct (resolve_known addr rv Erv) as [Hkt _].
      destruct (lookup_known s _ Hwf Hkt) as (rb & db & Hrb & Hvb & Hwb & Hinb & _).
      pose proof Hkt as [Hlt _]%andb_true_iff. rewrite Hlt, Hrb. unfold modify.
      exists (value (write_with_mask data (ctx s) (validate r data (ctx s)) rb)). split.
      * unfold write_with_mask. rewrite Hwb. cbn [value write_directly].
        apply get_new_value_u64; [rewrite Hvb; by apply val_u64|].
        apply uint_land; [lia|]. by apply csr_validator_u64.
      * f_equal. eapply alter_upd; [done|]. unfold write_with_mask. by rewrite Hwb.
    + exists (value (CsrReg_write data (ctx s) r)). split.
      * unfold CsrReg_write. rewrite Hw. cbn [value write_directly].
        apply get_new_value_u64; [rewrite Hv; by apply val_u64|]. by apply csr_validator_u64.
      * unfold modify. f_equal. eapply alter_upd; [done|]. unfold CsrReg_write. by rewrite Hw.
Qed.

Lemma write_uncheck_wf s addr data : csr_wf s -> 0 <= addr < CSR_SIZE -> u64 data ->
  exists s', write_uncheck_privilege (E := E) addr data s = (Ok tt, s') /\ csr_wf s' /\ cpl s' = cpl s.
Proof.
  intros Hwf Ha Hd. destruct (write_uncheck_run s addr data Hwf Ha Hd) as (v & Hv & ->).
  destruct (write_target addr); eexists; (split; [reflexivity|]); auto with here.
Qed.

Lemma read_uncheck_value s addr : csr_wf s -> 0 <= addr < CSR_SIZE ->
  read_uncheck_privilege (E := E) addr s = (Ok ((fun _ => csr_view s addr) <$> write_target addr), s).
Proof.
  intros Hwf Ha. unfold read_uncheck_privilege, write_target, csr_view, fget.
  destruct (Z.eqb_spec addr fflags); [|destruct (Z.eqb_spec addr frm); [|destruct (Z.eqb_spec addr vxsat);
    [|destruct (Z.eqb_spec addr vxrm)]]]; cbn [orb].
  1-4: subst; erewrite bind_Ok by (by apply existing_value_run); unfold ret; cbn -[Z.shiftr Z.land Z.modulo];
    by rewrite <- Z.land_ones, ?Z.shiftr_0_r by lia.
  destruct (resolve_shadow_addr addr) as [rv|] eqn:Erv.
  - destruct (resolve_known addr rv Erv) as [Hkt Hka].
    erewrite bind_Ok by (by apply existing_value_run). rewrite Hka. by destruct (addr =? fcsr).
  - unfold slot. rewrite (proj2 (Z.ltb_lt _ _)) by lia. unfold bind, gets, ret. destruct (known addr) eqn:Hk.
    + destruct (lookup_known s addr Hwf Hk) as (r & d & Hr & Hv & _). rewrite Hr. cbn. rewrite Hv. by destruct (addr =? fcsr).
    + rewrite lookup_unknown by done. by destruct (Z.eqb_spec addr fcsr) as [->|].
Qed.

Lemma csr_view_u64 s addr : csr_wf s -> u64 (csr_view s addr).
Proof.
  intros Hwf. pose proof (val_u64 s Fcsr Hwf). pose proof (val_u64 s Vcsr Hwf). unfold csr_view.
  assert (forall low len v, 0 <= len <= 64 -> u64 (fget low len v)) as Hf
    by (intros; apply (uint_weaken len); [lia|apply fget_range; lia]).
  repeat case_match; auto with lia; [|by apply val_u64]. apply uint_land; [lia|]. by apply val_u64.
Qed.

Lemma read_uncheck_run s addr : csr_wf s -> 0 <= addr < CSR_SIZE ->
  exists o, read_uncheck_privilege (E := E) addr s = (Ok o, s) /\
    (forall v, o = Some v -> u64 v) /\ (o = None <-> write_target addr = None).
Proof.
  intros Hwf Ha. eexists. split; [by apply read_uncheck_value|]. pose proof (csr_view_u64 s addr Hwf).
  destruct (write_target addr); cbn; (split; [by intros v [= <-]|done]).
Qed.
End Access.

(** ** What software can do through CSR instructions *)
Section Rules.
Context {E : Type}.
Implicit Types s : CsrRegFile.

(** The access rule of the privileged architecture: bits 9:8 of the address
    give the lowest level, and [mstatus.TVM] traps S-mode accesses to [satp]. *)
Definition read_legal (s : CsrRegFile) (addr : Z) : bool :=
  (extract_range U64 addr 8 9 <=? priv_nr (cpl s)) &&
  negb ((addr =? Satp) && bool_decide (cpl s = LvS) && Z.testbit (val s Mstatus) 20).

Lemma fget_1_testbit low v : 0 <= low -> (fget low 1 v =? 1) = Z.testbit v low.
Proof.
  intros Hl. unfold fget. rewrite Z.testbit_odd, Zmod_odd. by destruct (Z.odd _).
Qed.

Lemma is_read_priv_legal_run s addr : csr_wf s -> 0 <= addr < CSR_SIZE ->
  is_read_priv_legal (E := E) addr s = (Ok (read_legal s addr), s).
Proof.
  intros Hwf Ha. destruct (table_level_spec addr Ha) as (p & Hp & Hnr).
  unfold is_read_priv_legal, read_legal. erewrite bind_Ok by reflexivity.
  rewrite Hp, <- Hnr. destruct ((addr =? Satp) && bool_decide (cpl s = LvS)) eqn:Et.
  - rewrite (bind_Ok _ _ s (Z.testbit (val s Mstatus) 20) s).
    + unfold priv_le. destruct (Z.testbit (val s Mstatus) 20); cbn; by rewrite ?andb_true_r, ?andb_false_r.
    + erewrite bind_Ok by (by apply get_field_run). cbn [fl_csr fl_len Mstatus_tvm].
      unfold ret. by rewrite fget_1_testbit.
  - cbn. unfold priv_le. by rewrite andb_true_r.
Qed.

(** C40: Access to the CSRs, for every 12-bit address at every privilege level.  An
    access is legal when the level is at least bits 9:8 of the address and TVM
    does not trap it.  A read returns the CSR's value exactly when it is legal
    and the CSR exists, and otherwise nothing; it changes nothing.  A write is
    accepted exactly when it is legal and the address is below [0xC00]; a
    refused write changes nothing, and an accepted one changes at most the
    register behind the CSR, leaves the file well formed and the level alone.
    No access panics.  An accepted write to a CSR that does not exist also
    reports success, and changes nothing, which the code marks as still to be
    an error. *)
Theorem csr_access_rules s addr d :
  csr_wf s -> 0 <= addr < CSR_SIZE -> u64 d ->
  read_checked (E := E) addr s =
    (Ok (if read_legal s addr then (fun _ => csr_view s addr) <$> write_target addr else None), s) /\
  let accepted := (addr <? 0xC00) && read_legal s addr in
  exists s', write_checked (E := E) addr d s = (Ok accepted, s') /\
    csr_wf s' /\ cpl s' = cpl s /\ (accepted = false -> s' = s) /\
    match write_target addr with
    | Some t => forall a, a <> t -> val s' a = val s a
    | None => s' = s
    end.
Proof.
  intros Hwf Ha Hd. split.
  - unfold read_checked. erewrite bind_Ok by (by apply is_read_priv_legal_run).
    destruct (read_legal s addr); cbn [negb]; [by apply read_uncheck_value|done].
  - assert (forall s', s' = s -> match write_target addr with Some t => forall a, a <> t -> val s' a = val s a | None => s' = s end)
      as Hsame by (intros s' ->; by destruct (write_target addr)).
    unfold write_checked, is_write_priv_legal. destruct (Z.leb_spec 0xC00 addr) as [Hge|Hlt].
    + rewrite (proj2 (Z.ltb_ge addr 0xC00)) by lia. cbn [negb andb]. exists s. split_and!; try done. by apply Hsame.
    + rewrite (proj2 (Z.ltb_lt addr 0xC00)) by lia.
      erewrite bind_Ok by (by apply is_read_priv_legal_run).
      destruct (read_legal s addr); cbn [negb andb]; [|exists s; split_and!; try done; by apply Hsame].
      destruct (write_uncheck_run (E := E) s addr d Hwf Ha Hd) as (v & Hv & Hw).
      erewrite bind_Ok by exact Hw. eexists. split; [reflexivity|].
      destruct (write_target addr) as [t|]; split_and!; try done; [by apply upd_wf|]. intros a Hat. by apply val_upd_ne.
Qed.

End Rules.

(** ** Constant write masks

    [mask_at a m]: the register at [a] accepts writes to the bits [m], whatever
    the value written. *)
Definition mask_at (a m : Z) : Prop :=
  List.Forall (fun d => cd_addr d = a -> forall v c, op_mask (csr_validator d v c) = m) csr_descs.

Ltac solve_mask_at :=
  unfold mask_at, csr_descs, u_mode_csrs, s_mode_csrs, m_mode_status_csrs, m_mode_csrs; cbn [app];
  repeat (apply List.Forall_cons;
    [intros Ha v c; first [discriminate Ha | vm_compute; reflexivity]|]);
  apply List.Forall_nil.

Definition mstatus_write_mask : Z := 0x800007F001FE7FEA.
Definition mip_write_mask : Z := 0x3FFF.

Lemma mstatus_mask : mask_at Mstatus mstatus_write_mask.
Proof. solve_mask_at. Qed.
Lemma sstatus_mask : mask_at Sstatus 0x80000000018DE762.
Proof. solve_mask_at. Qed.
Lemma mip_mask : mask_at Mip mip_write_mask.
Proof. solve_mask_at. Qed.
Lemma sip_mask : mask_at Sip 0x333.
Proof. solve_mask_at. Qed.
Lemma mcause_mask : mask_at Mcause (Z.ones 64).
Proof. solve_mask_at. Qed.
Lemma mepc_mask : mask_at Mepc (Z.ones 64).
Proof. solve_mask_at. Qed.
Lemma mtval_mask : mask_at Mtval (Z.ones 64).
Proof. solve_mask_at. Qed.

Lemma lookup_mask s a m : csr_wf s -> known a = true -> mask_at a m ->
  exists r, table s !! a = Some r /\ value r = val s a /\ read_validator r = resolve_shadow_addr a /\
    exists vd, write_validator r = Some vd /\ forall v c, op_mask (vd v c) = m.
Proof.
  intros Hwf Hk Hm. destruct (lookup_known s a Hwf Hk) as (r & d & Hr & Hv & Hw & Hin & Hda & Hrv).
  unfold mask_at in Hm. rewrite List.Forall_forall in Hm.
  exists r. split; [done|]. split; [done|]. split; [done|]. exists (csr_validator d).
  split; [done|]. by apply Hm.
Qed.

Lemma op_eq (a b : CsrWriteOp) : op_mask a = op_mask b -> a = b.
Proof. destruct a, b. simpl. by intros ->. Qed.

Section Masked.
Context {E : Type}.
Implicit Types s : CsrRegFile.

(** Writing a plain register with a constant mask. *)
Lemma write_masked_run s a m d : csr_wf s -> known a = true -> mask_at a m ->
  resolve_shadow_addr a = None -> negb (bool_decide (a ∈ [fflags; frm; fcsr; vxsat; vxrm])) = true ->
  write_uncheck_privilege (E := E) a d s =
    (Ok tt, upd a (get_new_value {| op_mask := m |} (val s a) d) s).
Proof.
  intros Hwf Hk Hm Hsh Hsub.
  destruct (lookup_mask s a m Hwf Hk Hm) as (r & Hr & Hv & Hrv & vd & Hw & Hop).
  apply negb_true_iff, bool_decide_eq_false in Hsub. rewrite !not_elem_of_cons in Hsub.
  destruct Hsub as (N1 & N2 & N3 & N4 & N5 & _).
  unfold write_uncheck_privilege. rewrite !(proj2 (Z.eqb_neq _ _)) by done.
  unfold slot. pose proof Hk as [Hlt _]%andb_true_iff. rewrite Hlt. unfold bind, gets, modify.
  rewrite Hr, Hrv, Hsh. f_equal. eapply alter_upd; [done|]. unfold CsrReg_write.
  rewrite Hw, Hv. do 2 f_equal. apply op_eq, Hop.
Qed.

(** Writing a shadow register. *)
Lemma write_shadow_run s a rv m mb d : csr_wf s -> known a = true -> mask_at a m ->
  resolve_shadow_addr a = Some rv -> mask_at (target_index rv) mb ->
  negb (bool_decide (a ∈ [fflags; frm; fcsr; vxsat; vxrm])) = true ->
  write_uncheck_privilege (E := E) a d s =
    (Ok tt, upd (target_index rv)
      (get_new_value {| op_mask := Z.land mb m |} (val s (target_index rv)) d) s).
Proof.
  intros Hwf Hk Hm Hsh Hmb Hsub. destruct (resolve_known a rv Hsh) as [Hkt _].
  destruct (lookup_mask s a m Hwf Hk Hm) as (r & Hr & Hv & Hrv & vd & Hw & Hop).
  destruct (lookup_mask s _ mb Hwf Hkt Hmb) as (rb & Hrb & Hvb & _ & vdb & Hwb & Hopb).
  apply negb_true_iff, bool_decide_eq_false in Hsub. rewrite !not_elem_of_cons in Hsub.
  destruct Hsub as (N1 & N2 & N3 & N4 & N5 & _).
  unfold write_uncheck_privilege. rewrite !(proj2 (Z.eqb_neq _ _)) by done.
  unfold slot. pose proof Hk as [Hlt _]%andb_true_iff. rewrite Hlt. unfold bind, gets, modify.
  pose proof Hkt as [Hltt _]%andb_true_iff.
  rewrite Hr, Hrv, Hsh, Hltt, Hrb. f_equal. eapply alter_upd; [done|]. unfold write_with_mask, validate.
  rewrite Hw, Hwb, Hvb. do 2 f_equal. apply op_eq. unfold op_and. cbn [op_mask]. by rewrite Hop, Hopb.
Qed.

(** The bits of [mstatus] a write to [sstatus] may change: SIE, SPIE, UBE, SPP,
    VS, FS, SUM, MXR, SPELP, SDT and SD. *)
Definition sstatus_write_mask : Z := 0x80000000018C6762.

(** A write to [sstatus] stores the written bits in these fields of [mstatus]
    and changes nothing else: M-mode's fields cannot be reached from S-mode;
    reading [sstatus] then gives the supervisor view of [mstatus]. *)
Theorem sstatus_write_confined s d s' :
  csr_wf s -> u64 d -> write_uncheck_privilege (E := E) Sstatus d s = (Ok tt, s') ->
  (forall i, 0 <= i -> Z.testbit (val s' Mstatus) i =
     if Z.testbit sstatus_write_mask i then Z.testbit d i else Z.testbit (val s Mstatus) i) /\
  (forall a, a <> Mstatus -> val s' a = val s a) /\
  read_uncheck_privilege (E := E) Sstatus s' =
    (Ok (Some (Z.land (val s' Mstatus) 0x80000003018DE762)), s').
Proof.
  intros Hwf Hd Hw.
  rewrite (write_shadow_run s Sstatus {| target_index := Mstatus; view_mask := 0x80000003018DE762 |}
    0x80000000018DE762 mstatus_write_mask d Hwf eq_refl sstatus_mask eq_refl mstatus_mask eq_refl) in Hw.
  cbn [target_index] in Hw.
  change (Z.land mstatus_write_mask 0x80000000018DE762) with sstatus_write_mask in Hw.
  injection Hw as <-. assert (csr_wf (upd Mstatus (get_new_value {| op_mask := sstatus_write_mask |}
    (val s Mstatus) d) s)) as Hwf'.
  { apply upd_wf; [done|]. apply get_new_value_u64; [by apply val_u64|done]. }
  split_and!.
  - intros i Hi. rewrite val_upd_eq by done. by rewrite get_new_value_testbit by (done || by apply val_u64).
  - intros a Ha. by apply val_upd_ne.
  - unfold read_uncheck_privilege. cbn -[val upd Z.land CsrRegFile_new existing_value].
    by erewrite bind_Ok by (by apply existing_value_run).
Qed.
End Masked.

Lemma csr_new_wf : csr_wf CsrRegFile_new.
Proof.
  split; [done|]. intros a r Hr. apply table_from_lookup in Hr as (d & v & Hin & ->). cbn [value].
  assert (forallb (fun '(_, d, _) => d =? 0) CSR_REG_TABLE = true) as Hall by (vm_compute; reflexivity).
  rewrite List.forallb_forall in Hall. specialize (Hall _ Hin). cbv beta iota in Hall.
  apply Z.eqb_eq in Hall as ->. done.
Qed.

(** Reset CSRs in M-mode: [misa] reads 0, [mscratch] can be written. *)
Lemma csr_access_rules_witness :
  read_checked (E := unit) Misa CsrRegFile_new = (Ok (Some 0), CsrRegFile_new) /\
  exists s', write_checked (E := unit) Mscratch 5 CsrRegFile_new = (Ok true, s') /\ csr_wf s' /\ val s' Misa = 0.
Proof.
  split.
  - refine (eq_trans (proj1 (csr_access_rules (E := unit) CsrRegFile_new Misa 0 csr_new_wf _ _)) _);
      vm_compute; try split; (discriminate || reflexivity).
  - destruct (csr_access_rules (E := unit) CsrRegFile_new Mscratch 5) as [_ (s' & Hw & Hwf & _ & _ & Hf)].
    + apply csr_new_wf.
    + vm_compute. split; [discriminate|reflexivity].
    + vm_compute. split; [discriminate|reflexivity].
    + exists s'. split; [exact Hw|]. split; [exact Hwf|].
      replace (write_target Mscratch) with (Some Mscratch) in Hf by (vm_compute; reflexivity).
      transitivity (val CsrRegFile_new Misa); [apply Hf; vm_compute; discriminate|vm_compute; reflexivity].
Defined.

Lemma sstatus_write_confined_witness :
  let s' := snd (write_uncheck_privilege (E := unit) Sstatus (2 ^ 64 - 1) CsrRegFile_new) in
  Z.testbit (val s' Mstatus) 1 = true /\ Z.testbit (val s' Mstatus) 3 = false.
Proof.
  intros s'.
  destruct (sstatus_write_confined (E := unit) CsrRegFile_new (2 ^ 64 - 1) s') as [Hb _].
  - apply csr_new_wf.
  - vm_compute. split; [discriminate|reflexivity].
  - vm_compute. reflexivity.
  - split.
    + etransitivity; [apply (Hb 1); lia|vm_compute; reflexivity].
    + etransitivity; [apply (Hb 3); lia|vm_compute; reflexivity].
Defined.

Section SubRegisters.
Context {E : Type}.
Implicit Types s : CsrRegFile.

Lemma read_fflags s : csr_wf s ->
  fst (read_uncheck_privilege (E := E) fflags s) = Ok (Some (fget 0 5 (val s Fcsr))).
Proof.
  intros Hwf. unfold read_uncheck_privilege. rewrite Z.eqb_refl.
  erewrite bind_Ok by (by apply existing_value_run). cbn. f_equal. f_equal.
  unfold fget. by rewrite Z.shiftr_0_r, <- Z.land_ones.
Qed.

Lemma read_frm s : csr_wf s ->
  fst (read_uncheck_privilege (E := E) frm s) = Ok (Some (fget 5 3 (val s Fcsr))).
Proof.
  intros Hwf. unfold read_uncheck_privilege. change (frm =? fflags) with false. rewrite Z.eqb_refl.
  erewrite bind_Ok by (by apply existing_value_run). cbn -[Z.shiftr]. f_equal. f_equal.
  unfold fget. by rewrite <- Z.land_ones.
Qed.

Lemma read_fcsr s : csr_wf s ->
  fst (read_uncheck_privilege (E := E) fcsr s) = Ok (Some (val s Fcsr)).
Proof.
  intros Hwf. unfold read_uncheck_privilege.
  change (fcsr =? fflags) with false. change (fcsr =? frm) with false.
  change (fcsr =? vxsat) with false. change (fcsr =? vxrm) with false.
  assert (resolve_shadow_addr fcsr = None) as -> by (vm_compute; reflexivity).
  destruct (known_lookup s Fcsr Hwf eq_refl) as (r & _ & Hr & _ & _ & Hvr & _).
  unfold slot, bind, gets, ret. change (fcsr <? CSR_SIZE) with true.
  change Fcsr with fcsr in Hr. cbv beta iota. rewrite Hr. by rewrite <- Hvr.
Qed.

Lemma fget_lor_clear low len v x m : 0 <= low -> 0 <= len -> low + len <= 64 -> u64 v ->
  m = Z.shiftl (Z.ones len) low -> uint len x ->
  Z.lor (Z.land v (bnot 64 m)) (Z.shiftl x low) = fset low len v x.
Proof.
  intros Hl Hn Hle Hv -> Hx. unfold fset. f_equal. bitwise i.
  destruct (Z.ltb_spec i 64); [done|]. by rewrite (uint_testbit_high 64 v) by (done || lia).
Qed.

Lemma write_fflags s d : csr_wf s ->
  snd (write_uncheck_privilege (E := E) fflags d s) = upd Fcsr (fset 0 5 (val s Fcsr) (fget 0 5 d)) s.
Proof.
  intros Hwf. unfold write_uncheck_privilege. rewrite Z.eqb_refl.
  erewrite update_existing_run; [|done|reflexivity|intros r -> _; reflexivity]. cbn [snd]. f_equal.
  rewrite <- (fget_lor_clear 0 5 _ (fget 0 5 d) 0x1F); try lia;
    [|by apply val_u64|reflexivity|by apply fget_range].
  f_equal. unfold fget. by rewrite Z.shiftl_0_r, Z.shiftr_0_r, <- Z.land_ones.
Qed.

Lemma write_frm s d : csr_wf s ->
  snd (write_uncheck_privilege (E := E) frm d s) = upd Fcsr (fset 5 3 (val s Fcsr) (fget 0 3 d)) s.
Proof.
  intros Hwf. unfold write_uncheck_privilege. change (frm =? fflags) with false. rewrite Z.eqb_refl.
  erewrite update_existing_run; [|done|reflexivity|intros r -> _; reflexivity]. cbn [snd]. f_equal.
  rewrite <- (fget_lor_clear 5 3 _ (fget 0 3 d) 0xE0); try lia;
    [|by apply val_u64|reflexivity|by apply fget_range].
  f_equal. unfold fget. change 7 with (Z.ones 3). rewrite Z.shiftr_0_r, Z.land_ones by lia.
  apply wrap_small. pose proof (wrap_range 3 d ltac:(lia)) as Hr. unfold wrap, uint in *.
  rewrite Z.shiftl_mul_pow2 by lia. lia.
Qed.

Lemma write_fcsr s d : csr_wf s ->
  snd (write_uncheck_privilege (E := E) fcsr d s) = upd Fcsr (fget 0 8 d) s.
Proof.
  intros Hwf. unfold write_uncheck_privilege.
  change (fcsr =? fflags) with false. change (fcsr =? frm) with false. rewrite Z.eqb_refl.
  erewrite update_existing_run; [|done|reflexivity|intros r _ _; reflexivity]. cbn [snd]. f_equal.
  unfold fget. by rewrite Z.shiftr_0_r, <- Z.land_ones.
Qed.

Lemma fget_fget low len low' len' v : 0 <= low -> 0 <= len -> 0 <= low' -> 0 <= len' ->
  low' + len' <= len -> fget low' len' (fget low len v) = fget (low + low') len' v.
Proof.
  intros. apply Z.bits_inj'. intros i Hi. rewrite !fget_testbit by lia.
  split_ltb; simpl; try lia; try done. f_equal. lia.
Qed.

(** [fflags] and [frm] are fields of [fcsr]: a write through one address is
    read back through all three, the other field is kept, and [fcsr] keeps
    only its low eight bits. *)
Theorem fcsr_aliases s d :
  csr_wf s ->
  let w a := snd (write_uncheck_privilege (E := E) a d s) in
  let rd a s := fst (read_uncheck_privilege (E := E) a s) in
  rd fflags (w fflags) = Ok (Some (fget 0 5 d)) /\ rd frm (w fflags) = Ok (Some (fget 5 3 (val s Fcsr))) /\
  rd frm (w frm) = Ok (Some (fget 0 3 d)) /\ rd fflags (w frm) = Ok (Some (fget 0 5 (val s Fcsr))) /\
  rd fflags (w fcsr) = Ok (Some (fget 0 5 d)) /\ rd frm (w fcsr) = Ok (Some (fget 5 3 d)) /\
  rd fcsr (w fcsr) = Ok (Some (fget 0 8 d)).
Proof.
  intros Hwf w rd. subst w rd. cbv beta. rewrite write_fflags, write_frm, write_fcsr by done.
  pose proof (val_u64 s Fcsr Hwf) as Hf.
  assert (forall n, 0 <= n -> uint n (fget 0 n d)) as Hg by (intros; by apply fget_range).
  assert (csr_wf (upd Fcsr (fset 0 5 (val s Fcsr) (fget 0 5 d)) s)) as W1
    by (apply upd_wf; [done|]; apply fset_range; auto with lia).
  assert (csr_wf (upd Fcsr (fset 5 3 (val s Fcsr) (fget 0 3 d)) s)) as W2
    by (apply upd_wf; [done|]; apply fset_range; auto with lia).
  assert (csr_wf (upd Fcsr (fget 0 8 d) s)) as W3
    by (apply upd_wf; [done|]; apply (uint_weaken 8); auto with lia).
  rewrite !read_fflags, !read_frm, !read_fcsr, !val_upd_eq by done.
  rewrite !fget_fset_eq, !fget_fset_ne, !fget_fget by (auto with lia). done.
Qed.
End SubRegisters.

Lemma fcsr_aliases_witness :
  fst (read_uncheck_privilege (E := unit) frm
    (snd (write_uncheck_privilege (E := unit) fcsr 0xA3 CsrRegFile_new))) = Ok (Some 5).
Proof. apply (fcsr_aliases (E := unit) CsrRegFile_new 0xA3 csr_new_wf). Defined.

(** The validator of [mtvec.mode] looks at bits 0 to 2: writing a vectored base
    whose bit 2 is set (an address that is 4 modulo 8) changes the base but
    silently keeps the old mode. *)
Theorem mtvec_mode_ignored_when_bit2 :
  let s1 := snd (write_uncheck_privilege (E := unit) Mtvec 0x80000005 CsrRegFile_new) in
  let s2 := snd (write_uncheck_privilege (E := unit) Mtvec 0x80000009 CsrRegFile_new) in
  val s1 Mtvec = 0x80000004 /\ val s2 Mtvec = 0x80000009.
Proof. split; vm_compute; reflexivity. Qed.

(** A write to a CSR that does not exist succeeds without effect, while a read
    of it is refused. *)
Theorem unknown_csr_write_succeeds s addr d :
  csr_wf s -> 0 <= addr < 0xC00 -> write_target addr = None -> read_legal s addr = true -> u64 d ->
  write_checked (E := unit) addr d s = (Ok true, s) /\ read_checked (E := unit) addr s = (Ok None, s).
Proof.
  intros Hwf Ha Ht Hl Hd. assert (0 <= addr < CSR_SIZE) as Ha' by (change CSR_SIZE with 4096; lia).
  split.
  - unfold write_checked, is_write_priv_legal. rewrite (proj2 (Z.leb_gt 0xC00 addr)) by lia.
    erewrite bind_Ok by (by apply is_read_priv_legal_run). rewrite Hl. cbn [negb].
    destruct (write_uncheck_run (E := unit) s addr d Hwf Ha' Hd) as (v & _ & Hw). rewrite Ht in Hw.
    by erewrite bind_Ok by exact Hw.
  - unfold read_checked. erewrite bind_Ok by (by apply is_read_priv_legal_run). rewrite Hl. cbn [negb].
    destruct (read_uncheck_run (E := unit) s addr Hwf Ha') as (o & Ho & _ & Hn).
    by rewrite (proj2 Hn Ht) in Ho.
Qed.

Lemma unknown_csr_write_succeeds_witness :
  write_checked (E := unit) 0x3A0 1 CsrRegFile_new = (Ok true, CsrRegFile_new) /\
  read_checked (E := unit) 0x3A0 CsrRegFile_new = (Ok None, CsrRegFile_new).
Proof.
  apply (unknown_csr_write_succeeds CsrRegFile_new 0x3A0 1).
  - apply csr_new_wf.
  - lia.
  - vm_compute. reflexivity.
  - vm_compute. reflexivity.
  - vm_compute. split; [discriminate|reflexivity].
Defined.

(** ** Facts about the named registers, for stepping through handlers *)
Lemma known_regs :
  forallb known [Mstatus; Mcause; Mepc; Mtval; Mtvec; Mip; Mie; Medeleg; Mideleg; Scause; Sepc; Stval;
    Stvec; Satp; Misa; Mcycle; Minstret; Mscratch; Sscratch] = true.
Proof. vm_compute. reflexivity. Qed.

Lemma reg_index_base : forallb (fun a => reg_index a =? a)
  [Mstatus; Mcause; Mepc; Mtval; Mtvec; Mip; Mie; Medeleg; Mideleg; Scause; Sepc; Stval;
    Stvec; Satp; Misa; Mcycle; Minstret; Mscratch; Sscratch] = true.
Proof. vm_compute. reflexivity. Qed.

Lemma known_of a : bool_decide (a ∈ [Mstatus; Mcause; Mepc; Mtval; Mtvec; Mip; Mie; Medeleg; Mideleg;
    Scause; Sepc; Stval; Stvec; Satp; Misa; Mcycle; Minstret; Mscratch; Sscratch]) = true ->
  known a = true /\ reg_index a = a.
Proof.
  intros Ha%bool_decide_eq_true. apply list_elem_of_In in Ha.
  pose proof known_regs as Hk. rewrite List.forallb_forall in Hk.
  pose proof reg_index_base as Hr. rewrite List.forallb_forall in Hr.
  split; [by apply Hk|]. apply Z.eqb_eq. by apply (Hr a).
Qed.

Lemma reg_index_Sstatus : reg_index Sstatus = Mstatus.
Proof. vm_compute. reflexivity. Qed.

Lemma writable_of_mask f m : mask_at (reg_index (fl_csr f)) m ->
  Z.land (field_mask f) m = field_mask f -> writable f.
Proof.
  intros Hm Hsub r v c Hr. apply table_new_lookup in Hr as (d & Hd & Hda & Hw & _).
  unfold mask_at in Hm. rewrite List.Forall_forall in Hm. unfold validate. rewrite Hw.
  by rewrite (Hm d Hd Hda).
Qed.

Lemma get_new_value_all old new : u64 old -> u64 new ->
  get_new_value {| op_mask := Z.ones 64 |} old new = new.
Proof.
  intros Ho Hn. apply Z.bits_inj'. intros i Hi. rewrite get_new_value_testbit by (done || lia).
  cbn [op_mask]. rewrite ones_testbit by lia. destruct (Z.ltb_spec i 64); [done|].
  by rewrite (uint_testbit_high 64 old), (uint_testbit_high 64 new) by (done || lia).
Qed.

(** A register all of whose bits are writable takes the written word. *)
Lemma write_plain_run {E} s a d : csr_wf s -> known a = true -> mask_at a (Z.ones 64) ->
  resolve_shadow_addr a = None -> negb (bool_decide (a ∈ [fflags; frm; fcsr; vxsat; vxrm])) = true -> u64 d ->
  write_uncheck_privilege (E := E) a d s = (Ok tt, upd a d s).
Proof.
  intros Hwf Hk Hm Hs Hn Hd. rewrite (write_masked_run s a _ d Hwf Hk Hm Hs Hn).
  by rewrite get_new_value_all by (done || by apply val_u64).
Qed.

Lemma read_plain_run {E} s a : csr_wf s -> known a = true -> resolve_shadow_addr a = None ->
  negb (bool_decide (a ∈ [fflags; frm; fcsr; vxsat; vxrm])) = true ->
  read_uncheck_privilege (E := E) a s = (Ok (Some (val s a)), s).
Proof.
  intros Hwf Hk Hs Hn. destruct (known_lookup s a Hwf Hk) as (r & _ & Hr & _ & _ & Hv & _ & Hlt).
  apply negb_true_iff, bool_decide_eq_false in Hn. rewrite !not_elem_of_cons in Hn.
  destruct Hn as (N1 & N2 & N3 & N4 & N5 & _).
  unfold read_uncheck_privilege. rewrite !(proj2 (Z.eqb_neq _ _)), Hs by done.
  unfold slot. rewrite (proj2 (Z.ltb_lt _ _)) by lia. unfold bind, gets, ret. rewrite Hr. cbn.
  by rewrite Hv.
Qed.
