(* ===== verification/PageTable.v ===== *)
(** * Page-table walker and TLB (src/src/isa/riscv/mmu/page_table/riscv64.rs,
    page_table/mod.rs, config.rs, address.rs)

    Sv39, Sv48 and Sv57 translation.  The walker borrows the RAM; its state is
    the TLB, the root address, the mode and the A/D policy. *)

From S2P Require Import Prelude Utils TrapTypes Ram Cache.

Inductive PageTableError : Type := AlignFault | PageFault | PrivilegeFault.

(** ** config.rs *)
Definition PAGE_SIZE_XLEN : Z := 12.
Definition PAGE_SIZE : Z := shl 64 1 PAGE_SIZE_XLEN.
Definition PHYSICAL_ADDR_WIDTH : Z := 56.
Definition SUB_VPN_XLEN : Z := 9.
Definition SUB_VPN_MASK : Z := shl 64 1 SUB_VPN_XLEN - 1.
Definition PTE_FLAG_XLEN : Z := 10.
Definition PTE_FLAG_MASK : Z := shl 64 1 PTE_FLAG_XLEN - 1.
Definition PTE_PPN_MASK : Z := shl 64 (shl 64 1 44 - 1) 10.

Inductive VirtualMemoryMode : Type := Page32bit | Page39bit | Page48bit | Page57bit | ModeNone.
#[global] Instance VirtualMemoryMode_eq_dec : EqDecision VirtualMemoryMode.
Proof. solve_decision. Defined.

Inductive AdUpdatePolicy : Type := AutoSet | FaultOnClear.
Inductive AccessEffect : Type := EffectNone | Accessed | AccessedDirty.

(** The trait [SvMode] and its instances. *)
Record SvMode : Type := { LEVELS : nat; VA_BITS : Z; PTE_SIZE : Z }.
Definition Sv39 : SvMode := {| LEVELS := 3; VA_BITS := 39; PTE_SIZE := 8 |}.
Definition Sv48 : SvMode := {| LEVELS := 4; VA_BITS := 48; PTE_SIZE := 8 |}.
Definition Sv57 : SvMode := {| LEVELS := 5; VA_BITS := 57; PTE_SIZE := 8 |}.

Definition vpn_index (vpn level : Z) : Z :=
  Z.land (Z.shiftr vpn (PAGE_SIZE_XLEN + level * SUB_VPN_XLEN)) SUB_VPN_MASK.

Definition sv_is_canonical_vaddr (m : SvMode) (vaddr : Z) : bool :=
  if 64 <=? VA_BITS m then true else is_sign_extended vaddr (VA_BITS m).

(** ** address.rs: the newtypes are their contents. *)
Definition page_base (addr : Z) : Z := Z.land addr (bnot 64 (PAGE_SIZE - 1)).
Definition vpn (vaddr : Z) : Z := page_base (page_base vaddr).
Definition ppn_from_ppn (ppn : Z) : Z := shl 64 ppn PAGE_SIZE_XLEN.
Definition ppn_from_paddr (paddr : Z) : Z := page_base paddr.
Definition PhysicalAddr_from (value : Z) : Z := Z.land value (shl 64 1 PHYSICAL_ADDR_WIDTH - 1).

(** ** Page table entries: [PTEFlags] is the low byte. *)
Definition PTE_V : Z := 0x01.
Definition PTE_R : Z := 0x02.
Definition PTE_W : Z := 0x04.
Definition PTE_X : Z := 0x08.
Definition PTE_U : Z := 0x10.
Definition PTE_A : Z := 0x40.
Definition PTE_D : Z := 0x80.

Definition pte_flags (bits : Z) : Z := wrap 8 (Z.land bits PTE_FLAG_MASK).
Definition pte_ppn (bits : Z) : Z := ppn_from_ppn (Z.shiftr (Z.land bits PTE_PPN_MASK) PTE_FLAG_XLEN).
Definition set_ppn (bits ppn : Z) : Z := Z.lor (Z.land bits PTE_FLAG_MASK) (Z.shiftr ppn 2).
Definition has_any_flag (bits flags : Z) : bool := negb (Z.land (pte_flags bits) flags =? 0).
Definition is_leaf (bits : Z) : bool := has_any_flag bits (Z.lor (Z.lor PTE_R PTE_W) PTE_X).
Definition is_invalid_encoding (bits : Z) : bool := Z.land (pte_flags bits) (Z.lor PTE_R PTE_W) =? PTE_W.
Definition is_valid (bits : Z) : bool := negb (Z.land (pte_flags bits) PTE_V =? 0).

Record PermissionCheck : Type := { any_of : Z; exact_mask : Z; exact_flags : Z }.

Record WalkInfo : Type := {
  leaf_level : Z; leaf_flags : Z; leaf_pte_addr : Z; leaf_ppn : Z
}.

(** ** The walker *)

(** [Cache<DirectCache<WalkInfo, 512>>] with [ADDR_SHIFT_BITS = PAGE_SIZE_XLEN].
    All-zero bytes of [Option<WalkInfo>] are [None]. *)
Definition Tlb : Type := Cache (DirectCache WalkInfo).
#[export] Instance tlb_policy : CachePolicy (DirectCache WalkInfo) WalkInfo :=
  DirectCache_policy None PAGE_SIZE_XLEN 512.

Record PageTableWalker : Type := {
  tlb : Tlb;
  root_address : Z;
  mode : VirtualMemoryMode;
  ad_update_policy : AdUpdatePolicy
}.

Definition PageTableWalker_new (root : Z) (m : VirtualMemoryMode) : PageTableWalker :=
  {| tlb := Cache_new; root_address := root; mode := m; ad_update_policy := FaultOnClear |}.
Definition set_tlb (t : Tlb) (w : PageTableWalker) : PageTableWalker :=
  {| tlb := t; root_address := root_address w; mode := mode w; ad_update_policy := ad_update_policy w |}.
Definition flush_tlb (w : PageTableWalker) : PageTableWalker := set_tlb (Cache_clear (tlb w)) w.
Definition set_ad_update_policy (p : AdUpdatePolicy) (w : PageTableWalker) : PageTableWalker :=
  {| tlb := tlb w; root_address := root_address w; mode := mode w; ad_update_policy := p |}.
Definition set_root_addr (a : Z) (w : PageTableWalker) : PageTableWalker :=
  {| tlb := tlb w; root_address := a; mode := mode w; ad_update_policy := ad_update_policy w |}.

(** [None] is the panic on a mode [satp] should never hold. *)
Definition mode_of_satp (m : Z) : option VirtualMemoryMode :=
  match m with
  | 0 => Some ModeNone
  | 1 => Some Page32bit
  | 8 => Some Page39bit
  | 9 => Some Page48bit
  | 10 => Some Page57bit
  | _ => None
  end.
Definition set_mode {E} (m : Z) : M PageTableWalker E unit :=
  v <- unwrap (mode_of_satp m) ;;
  modify (fun w => {| tlb := tlb w; root_address := root_address w; mode := v;
                      ad_update_policy := ad_update_policy w |}).

Definition is_canonical_vaddr (w : PageTableWalker) (vaddr : Z) : bool :=
  match mode w with
  | Page39bit => sv_is_canonical_vaddr Sv39 vaddr
  | Page48bit => sv_is_canonical_vaddr Sv48 vaddr
  | Page57bit => sv_is_canonical_vaddr Sv57 vaddr
  | _ => true
  end.

Section Walk.
Context `{Profile}.

(** One turn per level, from the root ([i = LEVELS - 1]) down; [pte_addr -
    BASE_ADDR] is an unsigned subtraction. *)
Fixpoint walk_levels (sv : SvMode) (n : nat) (entry vpn : Z) : M Ram PageTableError WalkInfo :=
  match n with
  | O => panic
  | S n' =>
      let i := Z.of_nat n' in
      let sub_vpn := vpn_index vpn i in
      let pte_addr := wrap 64 (entry + sub_vpn * PTE_SIZE sv) in
      offset <- sub_chk 64 pte_addr BASE_ADDR ;;
      pte <- map_err (fun _ => PageFault) (read U64 offset) ;;
      if negb (is_valid pte) then err PageFault
      else if is_invalid_encoding pte then err PageFault
      else if is_leaf pte then
        let mask := shl 64 (shl 64 1 (i * SUB_VPN_XLEN) - 1) PTE_FLAG_XLEN in
        if negb (Z.land pte mask =? 0) then err AlignFault
        else ret {| leaf_level := i; leaf_flags := pte_flags pte;
                    leaf_pte_addr := pte_addr; leaf_ppn := pte_ppn pte |}
      else if (n' =? 0)%nat then err PageFault
      else walk_levels sv n' (pte_ppn pte) vpn
  end.

Definition walk_pte_with_mode (sv : SvMode) (root vpn : Z) : M Ram PageTableError WalkInfo :=
  walk_levels sv (LEVELS sv) (ppn_from_paddr root) vpn.

Definition walk_pte (w : PageTableWalker) (vpn : Z) : M Ram PageTableError WalkInfo :=
  match mode w with
  | Page39bit => walk_pte_with_mode Sv39 (root_address w) vpn
  | Page48bit => walk_pte_with_mode Sv48 (root_address w) vpn
  | Page57bit => walk_pte_with_mode Sv57 (root_address w) vpn
  | _ => panic
  end.

(** [pte_at]: the 8 bytes at the host pointer of a leaf entry.  Only the first
    byte is bounds-checked. *)
Definition update_pte_at (pte_addr : Z) (f : Z -> Z) : M Ram PageTableError unit :=
  offset <- sub_chk 64 pte_addr BASE_ADDR ;;
  assert (offset <? SIZE) ;;;
  modify (fun r => set_data (store_bytes offset (split_le 8 (f (load_le r offset 8)))) r).

Definition contains_flag (flags f : Z) : bool := Z.land flags f =? f.

Definition apply_ad_policy (w : PageTableWalker) (walk_info : WalkInfo) (effect : AccessEffect)
  : M Ram PageTableError unit :=
  let '(need_accessed, need_dirty) :=
    match effect with
    | EffectNone => (false, false)
    | Accessed => (negb (contains_flag (leaf_flags walk_info) PTE_A), false)
    | AccessedDirty => (negb (contains_flag (leaf_flags walk_info) PTE_A),
                        negb (contains_flag (leaf_flags walk_info) PTE_D))
    end in
  if negb need_accessed && negb need_dirty then ret tt
  else match ad_update_policy w with
       | AutoSet =>
           update_pte_at (leaf_pte_addr walk_info) (fun bits =>
             let bits := if need_accessed then Z.lor bits PTE_A else bits in
             if need_dirty then Z.lor bits PTE_D else bits)
       | FaultOnClear => err PageFault
       end.

Definition permission_denied (flags : Z) (check : PermissionCheck) : bool :=
  negb (Z.land flags (exact_mask check) =? exact_flags check)
  || (negb (any_of check =? 0) && (Z.land flags (any_of check) =? 0)).

Definition leaf_paddr (walk_info : WalkInfo) (vaddr : Z) : Z :=
  let page_shift := PAGE_SIZE_XLEN + leaf_level walk_info * SUB_VPN_XLEN in
  let page_offset_mask := shl 64 1 page_shift - 1 in
  PhysicalAddr_from (Z.lor (leaf_ppn walk_info) (Z.land vaddr page_offset_mask)).

(** The walker together with the RAM it borrows. *)
Definition WalkerM : Type -> Type := M (PageTableWalker * Ram) PageTableError.

Definition on_ram {A} (m : PageTableWalker -> M Ram PageTableError A) : WalkerM A :=
  fun '(w, r) => let '(x, r') := m w r in (x, (w, r')).

Definition tlb_get (addr : Z) : WalkerM (option WalkInfo) :=
  fun '(w, r) => let '(o, t) := Cache_get (tlb w) addr in (Ok o, (set_tlb t w, r)).
Definition tlb_put (addr : Z) (info : WalkInfo) : WalkerM unit :=
  fun '(w, r) => (Ok tt, (set_tlb (Cache_put (tlb w) addr info) w, r)).

Definition translate_vaddr (vaddr : Z) (check : PermissionCheck) (effect : AccessEffect) : WalkerM Z :=
  w <- gets fst ;;
  if bool_decide (mode w = ModeNone) then ret (PhysicalAddr_from vaddr)
  else if negb (is_canonical_vaddr w vaddr) then err PageFault
  else
    hit <- tlb_get (vpn vaddr) ;;
    walk_info <- match hit with
                 | Some info => ret info
                 | None => info <- on_ram (fun w => walk_pte w (vpn vaddr)) ;;
                           tlb_put (vpn vaddr) info ;;; ret info
                 end ;;
    if permission_denied (leaf_flags walk_info) check then err PrivilegeFault
    else on_ram (fun w => apply_ad_policy w walk_info effect) ;;;
         ret (leaf_paddr walk_info vaddr).
End Walk.

(** ** Specification: the walk of the privileged architecture

    In terms of the entry's bit fields: PTE address [base + 8 * VPN[i]], valid
    when V is set and not (W without R), a leaf when R or X is set, a superpage
    aligned when the low [9 i] bits of its PPN are zero. *)
Definition va_vpn (va i : Z) : Z := (va / 2 ^ (12 + 9 * i)) mod 2 ^ 9.
Definition pte_valid (b : Z) : bool := Z.testbit b 0 && negb (negb (Z.testbit b 1) && Z.testbit b 2).
Definition pte_is_leaf (b : Z) : bool := Z.testbit b 1 || Z.testbit b 3.
Definition ppn_field (b : Z) : Z := (b / 2 ^ 10) mod 2 ^ 44.
Definition superpage_aligned (b i : Z) : Prop := (b / 2 ^ 10) mod 2 ^ (9 * i) = 0.

(** The entry at a physical address, when all of it is in RAM. *)
Definition pte_in_ram (r : Ram) (pa : Z) : option Z :=
  if (BASE_ADDR <=? pa) && (pa + 8 <=? BASE_ADDR + SIZE) then Some (load_le r (pa - BASE_ADDR) 8) else None.

Inductive page_walk (r : Ram) (va : Z) : nat -> Z -> WalkInfo -> Prop :=
| walk_leaf i base pte :
    let pa := base + 8 * va_vpn va (Z.of_nat i) in
    pte_in_ram r pa = Some pte ->
    pte_valid pte = true -> pte_is_leaf pte = true -> superpage_aligned pte (Z.of_nat i) ->
    page_walk r va (S i) base
      {| leaf_level := Z.of_nat i; leaf_flags := pte mod 256; leaf_pte_addr := pa;
         leaf_ppn := ppn_field pte * 2 ^ 12 |}
| walk_node i base pte info :
    pte_in_ram r (base + 8 * va_vpn va (Z.of_nat i)) = Some pte ->
    pte_valid pte = true -> pte_is_leaf pte = false ->
    page_walk r va i (ppn_field pte * 2 ^ 12) info ->
    page_walk r va (S i) base info.

(** ** The source's bit manipulation computes these fields. *)

Lemma forall_byte (P : Z -> bool) : forallb P (seqZ 0 256) = true ->
  forall x, uint 8 x -> P x = true.
Proof.
  intros H x Hx. rewrite List.forallb_forall in H. apply H, list_elem_of_In, elem_of_seqZ.
  unfold uint in Hx. lia.
Qed.

Lemma pte_flags_spec b : pte_flags b = b mod 256.
Proof.
  unfold pte_flags. change PTE_FLAG_MASK with (Z.ones 10). rewrite Z.land_ones by lia.
  apply (wrap_wrap_le 8 10). lia.
Qed.

Lemma flags_testbit b k : 0 <= k < 8 -> Z.testbit (pte_flags b) k = Z.testbit b k.
Proof. intros. rewrite pte_flags_spec. apply (Z.mod_pow2_bits_low b 8). lia. Qed.

Lemma flags_byte b : uint 8 (pte_flags b).
Proof. by apply wrap_range. Qed.

(** A boolean fact about the flags follows from its 256 instances. *)
Lemma is_valid_spec b : is_valid b = Z.testbit b 0.
Proof.
  rewrite <- flags_testbit by lia. unfold is_valid. apply Bool.eqb_prop.
  exact (forall_byte (fun x => Bool.eqb (negb (Z.land x PTE_V =? 0)) (Z.testbit x 0)) eq_refl _ (flags_byte b)).
Qed.

Lemma is_invalid_encoding_spec b : is_invalid_encoding b = negb (Z.testbit b 1) && Z.testbit b 2.
Proof.
  rewrite <- (flags_testbit b 1), <- (flags_testbit b 2) by lia. unfold is_invalid_encoding.
  apply Bool.eqb_prop.
  exact (forall_byte (fun x => Bool.eqb (Z.land x (Z.lor PTE_R PTE_W) =? PTE_W)
    (negb (Z.testbit x 1) && Z.testbit x 2)) eq_refl _ (flags_byte b)).
Qed.

Lemma is_leaf_spec b : is_invalid_encoding b = false -> is_leaf b = pte_is_leaf b.
Proof.
  rewrite is_invalid_encoding_spec. unfold pte_is_leaf, is_leaf, has_any_flag.
  rewrite <- (flags_testbit b 1), <- (flags_testbit b 2), <- (flags_testbit b 3) by lia.
  pose proof (forall_byte (fun x => Bool.eqb (negb (Z.land x (Z.lor (Z.lor PTE_R PTE_W) PTE_X) =? 0))
    (Z.testbit x 1 || Z.testbit x 2 || Z.testbit x 3)) eq_refl _ (flags_byte b)) as K.
  apply Bool.eqb_prop in K. rewrite K.
  destruct (Z.testbit (pte_flags b) 1), (Z.testbit (pte_flags b) 2); done.
Qed.

Lemma pte_ppn_spec b : pte_ppn b = ppn_field b * 2 ^ 12.
Proof.
  unfold pte_ppn, ppn_from_ppn, ppn_field, PAGE_SIZE_XLEN, PTE_FLAG_XLEN.
  change PTE_PPN_MASK with (Z.shiftl (Z.ones 44) 10).
  rewrite <- Z.shiftr_div_pow2, <- Z.shiftl_mul_pow2 by lia. fold (wrap 44 (Z.shiftr b 10)).
  unfold shl. bitwise i. destruct (Z.ltb_spec i 12).
  - rewrite !(Z.testbit_neg_r _ (i - 12)) by lia. by rewrite andb_false_r.
  - autorewrite with bits. replace (i - 12 + 10 - 10) with (i - 12) by lia.
    rewrite ?ones_testbit by lia. split_ltb; simpl; rewrite ?andb_true_r, ?andb_false_r; done || lia.
Qed.

Lemma ppn_field_range b : uint 44 (ppn_field b).
Proof. by apply Z.mod_pos_bound. Qed.

Lemma superpage_mask b i : 0 <= i <= 4 ->
  (Z.land b (shl 64 (shl 64 1 (i * SUB_VPN_XLEN) - 1) PTE_FLAG_XLEN) =? 0) = true <-> superpage_aligned b i.
Proof.
  intros Hi. unfold superpage_aligned, SUB_VPN_XLEN, PTE_FLAG_XLEN. rewrite Z.eqb_eq.
  assert (shl 64 1 (i * 9) - 1 = Z.ones (9 * i)) as ->.
  { unfold shl. rewrite wrap_small, Z.shiftl_1_l, Z.ones_equiv, Z.mul_comm; [lia|].
    rewrite Z.shiftl_1_l. split; [lia|]. apply Z.pow_lt_mono_r; lia. }
  assert (Z.land b (shl 64 (Z.ones (9 * i)) 10) = Z.shiftl (wrap (9 * i) (Z.shiftr b 10)) 10) as ->.
  { unfold shl. bitwise j. destruct (Z.ltb_spec j 10).
    - by rewrite !(Z.testbit_neg_r _ (j - 10)), !andb_false_r by lia.
    - autorewrite with bits. rewrite ?ones_testbit by lia. replace (j - 10 + 10) with j by lia.
      split_ltb; simpl; rewrite ?andb_true_r, ?andb_false_r; done || lia. }
  rewrite Z.shiftl_eq_0_iff by lia. unfold wrap. by rewrite Z.shiftr_div_pow2.
Qed.

Lemma vpn_index_spec va i : 0 <= i -> vpn_index va i = va_vpn va i.
Proof.
  intros. unfold vpn_index, va_vpn, PAGE_SIZE_XLEN, SUB_VPN_XLEN.
  change SUB_VPN_MASK with (Z.ones 9). rewrite Z.land_ones, Z.shiftr_div_pow2 by lia.
  by rewrite (Z.mul_comm i 9).
Qed.

Lemma va_vpn_range va i : uint 9 (va_vpn va i).
Proof. by apply Z.mod_pos_bound. Qed.

Lemma page_base_spec a : u64 a -> page_base a = (a / 2 ^ 12) * 2 ^ 12.
Proof.
  intros Ha. unfold page_base. rewrite <- Z.shiftr_div_pow2, <- Z.shiftl_mul_pow2 by lia.
  change (PAGE_SIZE - 1) with (Z.ones 12). bitwise i.
  destruct (Z.ltb_spec i 12).
  - rewrite (Z.testbit_neg_r _ (i - 12)) by lia. simpl. by rewrite !andb_false_r.
  - autorewrite with bits. replace (i - 12 + 12) with i by lia. simpl. rewrite ?andb_true_r.
    destruct (Z.ltb_spec i 64); [by rewrite ?andb_true_r|].
    by rewrite (uint_testbit_high 64 a) by (done || lia).
Qed.

(** ** The walker implements the specification *)
Section Refine.
Context `{Profile}.

(** A page-aligned table address. *)
Definition table_base (b : Z) : Prop := u64 b /\ (2 ^ 12 | b).

Lemma table_base_ppn b : table_base (ppn_field b * 2 ^ 12).
Proof.
  pose proof (ppn_field_range b). split; [|by exists (ppn_field b)].
  unfold uint in *. lia.
Qed.

Lemma pte_addr_facts base va i : table_base base ->
  let pa := base + 8 * va_vpn va i in u64 pa /\ (8 | pa).
Proof.
  intros [Hu [k ->]] pa. pose proof (va_vpn_range va i) as Hv. unfold uint in *.
  assert (k < 2 ^ 52) by nia. split; [subst pa; nia|].
  exists (k * 2 ^ 9 + va_vpn va i). subst pa. lia.
Qed.

(** One level of the walk, by the entry found there. *)
Lemma walk_levels_step sv n base va r :
  ptr_aligned r -> table_base base -> PTE_SIZE sv = 8 -> (n <= 4)%nat ->
  let pa := base + 8 * va_vpn va (Z.of_nat n) in
  walk_levels sv (S n) base va r =
    match pte_in_ram r pa with
    | None => (if overflow_checks && (pa <? BASE_ADDR) then Panic else Err PageFault, r)
    | Some pte =>
        if negb (pte_valid pte) then (Err PageFault, r)
        else if pte_is_leaf pte then
          if (pte / 2 ^ 10) mod 2 ^ (9 * Z.of_nat n) =? 0
          then (Ok {| leaf_level := Z.of_nat n; leaf_flags := pte mod 256; leaf_pte_addr := pa;
                      leaf_ppn := ppn_field pte * 2 ^ 12 |}, r)
          else (Err AlignFault, r)
        else if (n =? 0)%nat then (Err PageFault, r)
        else walk_levels sv n (ppn_field pte * 2 ^ 12) va r
    end.
Proof.
  intros Hp Hb Hsv Hn pa. destruct (pte_addr_facts base va (Z.of_nat n) Hb) as [Hpa [k Hk]].
  fold pa in Hpa, Hk.
  cbn [walk_levels]. rewrite Hsv, vpn_index_spec, (Z.mul_comm (va_vpn _ _) 8) by lia. fold pa.
  rewrite (wrap_small 64 pa) by done. unfold sub_chk, pte_in_ram.
  assert (BASE_ADDR = 2 ^ 31) as EB by reflexivity. assert (SIZE = 2 ^ 29) as ES by reflexivity.
  unfold uint in Hpa. destruct (Z.ltb_spec pa BASE_ADDR) as [Hlt|Hge].
  - rewrite (proj2 (Z.leb_gt BASE_ADDR pa)) by lia. cbn [andb].
    destruct overflow_checks; [done|]. cbn [andb].
    erewrite bind_Ok by reflexivity. erewrite bind_Err; [reflexivity|].
    unfold map_err. rewrite read_spec by done.
    assert (wrap 64 (pa - BASE_ADDR) = pa - BASE_ADDR + 2 ^ 64) as ->.
    { rewrite <- (wrap_add_pow2 64 _ 1) by lia. rewrite Z.mul_1_l. apply wrap_small. unfold uint. lia. }
    unfold contains_access. cbn [size_of]. rewrite (proj2 (Z.leb_gt _ SIZE)) by lia.
    by rewrite andb_false_r.
  - rewrite andb_false_r, (proj2 (Z.leb_le BASE_ADDR pa)) by lia. cbn [andb].
    erewrite bind_Ok by reflexivity. rewrite (wrap_small 64 (pa - BASE_ADDR)) by (unfold uint; lia).
    unfold bind at 1. unfold map_err. rewrite read_spec by done.
    assert (check_align U64 (pa - BASE_ADDR) = true) as ->.
    { apply check_align_spec. rewrite Hk, EB. exists (k - 2 ^ 28). cbn [size_of]. lia. }
    assert (contains_access U64 (pa - BASE_ADDR) = (pa + 8 <=? BASE_ADDR + SIZE)) as ->.
    { unfold contains_access. cbn [size_of]. rewrite EB, ES.
      destruct (Z.leb_spec (pa + 8) (2 ^ 31 + 2 ^ 29)), (Z.leb_spec (pa - 2 ^ 31 + 8) (2 ^ 29)),
        (Z.ltb_spec (pa - 2 ^ 31 + 8) (2 ^ 64)); done || lia. }
    destruct (pa + 8 <=? BASE_ADDR + SIZE); cbn [negb andb].
    2: { by rewrite ?andb_false_r. }
    set (pte := load_le r (pa - BASE_ADDR) (nbytes U64)).
    change (load_le r (pa - BASE_ADDR) 8) with pte.
    unfold pte_valid. rewrite is_valid_spec, <- is_invalid_encoding_spec.
    destruct (Z.testbit pte 0); [|done]. cbn [andb negb].
    destruct (is_invalid_encoding pte) eqn:Einv; [done|]. cbn [negb]. rewrite is_leaf_spec by done.
    destruct (pte_is_leaf pte).
    + pose proof (superpage_mask pte (Z.of_nat n) ltac:(lia)) as Hs. unfold superpage_aligned in Hs.
      rewrite <- Z.eqb_eq in Hs. rewrite (Bool.eq_true_iff_eq _ _ Hs), pte_flags_spec, pte_ppn_spec.
      by destruct ((pte / 2 ^ 10) mod 2 ^ (9 * Z.of_nat n) =? 0).
    + rewrite pte_ppn_spec. by destruct (n =? 0)%nat.
Qed.

Lemma page_walk_inv r va n base info :
  page_walk r va (S n) base info ->
  exists pte, pte_in_ram r (base + 8 * va_vpn va (Z.of_nat n)) = Some pte /\ pte_valid pte = true /\
    if pte_is_leaf pte
    then superpage_aligned pte (Z.of_nat n) /\
         info = {| leaf_level := Z.of_nat n; leaf_flags := pte mod 256;
                   leaf_pte_addr := base + 8 * va_vpn va (Z.of_nat n);
                   leaf_ppn := ppn_field pte * 2 ^ 12 |}
    else page_walk r va n (ppn_field pte * 2 ^ 12) info.
Proof.
  intros Hw. inversion Hw as [i b pte pa Hin Hv Hl Ha|i b pte wi Hin Hv Hl Hrec]; subst;
    exists pte; rewrite Hl; auto.
Qed.

(** The walk returns an entry exactly when the specification has one, leaves
    memory alone, and panics only on the checked subtraction. *)
Lemma walk_levels_spec sv n base va r :
  ptr_aligned r -> table_base base -> PTE_SIZE sv = 8 -> (1 <= n <= 5)%nat ->
  snd (walk_levels sv n base va r) = r /\
  (forall info, fst (walk_levels sv n base va r) = Ok info <-> page_walk r va n base info) /\
  (overflow_checks = false -> fst (walk_levels sv n base va r) <> Panic).
Proof.
  intros Hp Hb Hsv Hn. revert base Hb. induction n as [|n IH]; intros base Hb; [lia|].
  rewrite walk_levels_step by (done || lia). pose proof (page_walk_inv r va n base) as Hinv.
  destruct (pte_in_ram r (base + 8 * va_vpn va (Z.of_nat n))) as [pte|] eqn:Epte.
  2: { split; [done|]. split; [|by intros ->]. intros info. split; [by case_match|].
       by intros (? & [=] & _)%Hinv. }
  destruct (pte_valid pte) eqn:Ev; cbn [negb].
  2: { split; [done|]. split; [|done]. intros info. split; [done|].
       intros (? & [= <-] & ? & _)%Hinv. congruence. }
  destruct (pte_is_leaf pte) eqn:El.
  { destruct (Z.eqb_spec ((pte / 2 ^ 10) mod 2 ^ (9 * Z.of_nat n)) 0) as [Ea|Ea];
      (split; [done|]; split; [|done]; intros info; split).
    - intros [= <-]. by apply walk_leaf.
    - intros (? & [= <-] & _ & Hif)%Hinv. rewrite El in Hif. by destruct Hif as [_ ->].
    - done.
    - intros (? & [= <-] & _ & Hif)%Hinv. rewrite El in Hif. by destruct Hif. }
  destruct n as [|n].
  { cbn. split; [done|]. split; [|done]. intros info. split; [done|].
    intros (? & [= <-] & _ & Hif)%Hinv. rewrite El in Hif. inversion Hif. }
  cbn [Nat.eqb]. destruct (IH ltac:(lia) _ (table_base_ppn pte)) as (H1 & H2 & H3).
  split; [done|]. split; [|done]. intros info. rewrite H2. split.
  - intros Hw. by apply (walk_node _ _ _ _ pte).
  - intros (? & [= <-] & _ & Hif)%Hinv. by rewrite El in Hif.
Qed.
End Refine.

(** ** Address translation *)

Definition sv_of_mode (m : VirtualMemoryMode) : option SvMode :=
  match m with
  | Page39bit => Some Sv39 | Page48bit => Some Sv48 | Page57bit => Some Sv57
  | Page32bit | ModeNone => None
  end.

Definition root_table (w : PageTableWalker) : Z := (root_address w / 2 ^ 12) * 2 ^ 12.

(** Every TLB entry is what a walk of the current memory would find. *)
Definition tlb_coherent (sv : SvMode) (w : PageTableWalker) (r : Ram) : Prop :=
  forall a info, get (policy (tlb w)) a = Some info -> page_walk r a (LEVELS sv) (root_table w) info.

(** The A/D bits the access needs are already set. *)
Definition ad_ok (effect : AccessEffect) (flags : Z) : bool :=
  match effect with
  | EffectNone => true
  | Accessed => Z.testbit flags 6
  | AccessedDirty => Z.testbit flags 6 && Z.testbit flags 7
  end.

Lemma contains_flag_A x : uint 8 x -> contains_flag x PTE_A = Z.testbit x 6.
Proof.
  intros Hx. apply Bool.eqb_prop.
  exact (forall_byte (fun x => Bool.eqb (contains_flag x PTE_A) (Z.testbit x 6)) eq_refl x Hx).
Qed.

Lemma contains_flag_D x : uint 8 x -> contains_flag x PTE_D = Z.testbit x 7.
Proof.
  intros Hx. apply Bool.eqb_prop.
  exact (forall_byte (fun x => Bool.eqb (contains_flag x PTE_D) (Z.testbit x 7)) eq_refl x Hx).
Qed.

Lemma va_vpn_page_base va i : u64 va -> 0 <= i -> va_vpn (page_base va) i = va_vpn va i.
Proof.
  intros Hva Hi. rewrite page_base_spec by done. unfold va_vpn. f_equal.
  rewrite Z.pow_add_r, <- !Z.div_div by lia. by rewrite Z.div_mul by lia.
Qed.

Lemma page_base_u64 a : u64 a -> u64 (page_base a).
Proof. intros. by apply uint_land. Qed.

Lemma page_walk_page_base r va n base info : u64 va ->
  page_walk r (page_base va) n base info <-> page_walk r va n base info.
Proof.
  intros Hva. assert (forall va va', (forall i, 0 <= i -> va_vpn va i = va_vpn va' i) ->
    page_walk r va n base info -> page_walk r va' n base info) as K.
  { clear. intros va va' Hv Hw. induction Hw as [i base pte pa Hin Hv1 Hl Ha|i base pte info Hin Hv1 Hl Hrec IH].
    - subst pa. rewrite Hv in * by lia. by apply walk_leaf.
    - rewrite Hv in Hin by lia. by apply (walk_node _ _ _ _ pte). }
  split; apply K; intros i Hi; by rewrite va_vpn_page_base.
Qed.

Lemma page_walk_vpn r va n base info : u64 va ->
  page_walk r (vpn va) n base info <-> page_walk r va n base info.
Proof. intros. unfold vpn. rewrite !page_walk_page_base; auto using page_base_u64. Qed.

(** The leaf's page number fits and is aligned to its level. *)
Lemma page_walk_leaf r va n base info : (n <= 5)%nat -> page_walk r va n base info ->
  uint 8 (leaf_flags info) /\ 0 <= leaf_level info < Z.of_nat n /\
  exists p, leaf_ppn info = p * 2 ^ (12 + 9 * leaf_level info) /\ 0 <= leaf_ppn info < 2 ^ 56.
Proof.
  intros Hn Hw. induction Hw as [i base pte pa Hin Hv1 Hl Ha|i base pte info Hin Hv1 Hl Hrec IH].
  - cbn [leaf_flags leaf_level leaf_ppn]. split; [by apply Z.mod_pos_bound|]. split; [lia|].
    unfold superpage_aligned in Ha. pose proof (ppn_field_range pte) as Hp. unfold ppn_field in *.
    set (x := pte / 2 ^ 10) in *. assert ((2 ^ (9 * Z.of_nat i) | x mod 2 ^ 44)) as [q Hq].
    { apply Z.mod_divide; [pose proof (pow2_pos (9 * Z.of_nat i)); lia|].
      change (wrap (9 * Z.of_nat i) (wrap 44 x) = 0). rewrite wrap_wrap_le by lia. exact Ha. }
    exists q. rewrite Hq, Z.pow_add_r by lia. split; [lia|]. rewrite <- Hq. unfold uint in Hp. lia.
  - destruct IH as (H1 & H2 & H3); [lia|]. split; [done|]. split; [lia|done].
Qed.

Lemma leaf_paddr_spec info vaddr p : 0 <= leaf_level info <= 4 ->
  leaf_ppn info = p * 2 ^ (12 + 9 * leaf_level info) -> 0 <= leaf_ppn info < 2 ^ 56 ->
  leaf_paddr info vaddr = leaf_ppn info + vaddr mod 2 ^ (12 + 9 * leaf_level info).
Proof.
  intros Hl Hp Hr. unfold leaf_paddr, PAGE_SIZE_XLEN, SUB_VPN_XLEN. rewrite (Z.mul_comm _ 9).
  set (k := 12 + 9 * leaf_level info) in *. assert (12 <= k <= 48) as Hk by lia.
  assert (shl 64 1 k - 1 = Z.ones k) as ->.
  { unfold shl. rewrite Z.shiftl_1_l, Z.ones_equiv, wrap_small; [lia|].
    split; [lia|]. apply Z.pow_lt_mono_r; lia. }
  rewrite Z.land_ones by lia. set (off := vaddr mod 2 ^ k).
  assert (0 <= off < 2 ^ k) as Hoff by (apply Z.mod_pos_bound, pow2_pos; lia).
  assert (Z.lor (leaf_ppn info) off = leaf_ppn info + off) as ->.
  { assert (Z.land (leaf_ppn info) off = 0) as Hd.
    { rewrite Hp, <- Z.shiftl_mul_pow2 by lia. bitwise i. destruct (Z.ltb_spec i k).
      - by rewrite Z.testbit_neg_r by lia.
      - by rewrite (uint_testbit_high k off), andb_false_r by (done || lia). }
    by rewrite Z.add_nocarry_lxor, Z.lxor_lor. }
  unfold PhysicalAddr_from. change (shl 64 1 PHYSICAL_ADDR_WIDTH - 1) with (Z.ones 56).
  rewrite Z.land_ones by lia. apply Z.mod_small. split; [lia|].
  assert (2 ^ 56 = 2 ^ (56 - k) * 2 ^ k) as E56 by (rewrite <- Z.pow_add_r by lia; f_equal; lia).
  pose proof (pow2_pos k). set (q := 2 ^ (56 - k)) in *. clearbody q.
  assert (p < q) by (apply (Zmult_lt_reg_r p q (2 ^ k)); lia). nia.
Qed.

Section Translate.
Context `{Profile}.

Lemma LEVELS_bounds m sv : sv_of_mode m = Some sv -> (1 <= LEVELS sv <= 5)%nat /\ PTE_SIZE sv = 8.
Proof. destruct m; intros [= <-]; simpl; lia. Qed.

Lemma root_table_base w : u64 (root_address w) -> table_base (root_table w).
Proof.
  intros Hr. unfold root_table, table_base, uint in *. split; [|by eexists].
  pose proof (Z.mul_div_le (root_address w) (2 ^ 12)). pose proof (Z.div_pos (root_address w) (2 ^ 12)). lia.
Qed.

Lemma walk_pte_eq w sv a : sv_of_mode (mode w) = Some sv -> u64 (root_address w) ->
  walk_pte w a = walk_levels sv (LEVELS sv) (root_table w) a.
Proof.
  intros Hsv Hr. unfold walk_pte, walk_pte_with_mode, ppn_from_paddr. rewrite page_base_spec by done.
  destruct (mode w); by simplify_eq/=.
Qed.

Lemma page_walk_det w sv r a i1 i2 : sv_of_mode (mode w) = Some sv -> ptr_aligned r -> u64 (root_address w) ->
  page_walk r a (LEVELS sv) (root_table w) i1 -> page_walk r a (LEVELS sv) (root_table w) i2 -> i1 = i2.
Proof.
  intros Hsv Hp Hr H1 H2. destruct (LEVELS_bounds _ _ Hsv) as [Hn H8].
  destruct (walk_levels_spec sv (LEVELS sv) (root_table w) a r Hp (root_table_base w Hr) H8 Hn) as (_ & Hi & _).
  apply Hi in H1, H2. congruence.
Qed.

Lemma apply_ad_fault w info effect r : ad_update_policy w = FaultOnClear -> uint 8 (leaf_flags info) ->
  apply_ad_policy w info effect r =
    (if ad_ok effect (leaf_flags info) then Ok tt else Err PageFault, r).
Proof.
  intros Hpol Hf. unfold apply_ad_policy, ad_ok. rewrite !contains_flag_A, !contains_flag_D, Hpol by done.
  destruct effect; [done| |]; destruct (Z.testbit _ 6); try done; by destruct (Z.testbit _ 7).
Qed.

(** The TLB lookup with the walk on a miss. *)
Definition lookup_or_walk (vaddr : Z) : WalkerM WalkInfo :=
  hit <- tlb_get (vpn vaddr) ;;
  match hit with
  | Some info => ret info
  | None => info <- on_ram (fun w => walk_pte w (vpn vaddr)) ;;
            tlb_put (vpn vaddr) info ;;; ret info
  end.

Lemma lookup_or_walk_spec w sv r vaddr :
  sv_of_mode (mode w) = Some sv -> u64 (root_address w) -> ptr_aligned r -> u64 vaddr ->
  tlb_coherent sv w r ->
  exists res w', lookup_or_walk vaddr (w, r) = (res, (w', r)) /\
    tlb_coherent sv w' r /\ mode w' = mode w /\ root_address w' = root_address w /\
    ad_update_policy w' = ad_update_policy w /\
    (forall info, res = Ok info <-> page_walk r vaddr (LEVELS sv) (root_table w) info) /\
    (overflow_checks = false -> res <> Panic).
Proof.
  intros Hsv Hr Hp Hva Hco. destruct (LEVELS_bounds _ _ Hsv) as [Hn H8].
  destruct (Cache_get_policy (tlb w) (vpn vaddr)) as [Hg Hpol].
  unfold lookup_or_walk, tlb_get, bind at 1. destruct (Cache_get (tlb w) (vpn vaddr)) as [hit t].
  cbn [fst snd] in Hg, Hpol.
  assert (tlb_coherent sv (set_tlb t w) r) as Hco' by (unfold tlb_coherent; cbn; by rewrite Hpol).
  destruct hit as [info|].
  - exists (Ok info), (set_tlb t w). split; [done|]. split; [done|]. do 3 (split; [done|]). split; [|done].
    assert (page_walk r vaddr (LEVELS sv) (root_table w) info) as Hw
      by (apply page_walk_vpn; [done|]; by apply Hco).
    intros info'. split; [by intros [= <-]|]. intros Hw'. f_equal. by eapply page_walk_det.
  - unfold on_ram, bind. rewrite (walk_pte_eq (set_tlb t w) sv) by done.
    change (root_table (set_tlb t w)) with (root_table w).
    destruct (walk_levels_spec sv (LEVELS sv) (root_table w) (vpn vaddr) r Hp (root_table_base w Hr) H8 Hn)
      as (Hs & Hi & Hnp).
    destruct (walk_levels sv (LEVELS sv) (root_table w) (vpn vaddr) r) as [res r'] eqn:Ew.
    cbn [fst snd] in *. subst r'.
    assert (forall info, res = Ok info <-> page_walk r vaddr (LEVELS sv) (root_table w) info) as Hi'
      by (intros info; rewrite Hi; by apply page_walk_vpn).
    destruct res as [info|e|]; eexists _, _; (split; [reflexivity|]); [|by split_and!..].
    split; [|by split_and!]. intros a i. cbn.
    pose proof (DirectCache_lawful (@None WalkInfo) PAGE_SIZE_XLEN 512 eq_refl) as HL.
    intros [[<- ->]|[_ Hg']]%(@get_put _ _ _ HL); [by apply Hi|]. by apply Hco'.
Qed.
(** [translate_vaddr] is the lookup followed by the checks. *)
Lemma translate_vaddr_eq vaddr check effect w r :
  mode w <> ModeNone ->
  translate_vaddr vaddr check effect (w, r) =
    if negb (is_canonical_vaddr w vaddr) then (Err PageFault, (w, r))
    else (walk_info <- lookup_or_walk vaddr ;;
          if permission_denied (leaf_flags walk_info) check then err PrivilegeFault
          else on_ram (fun w => apply_ad_policy w walk_info effect) ;;;
               ret (leaf_paddr walk_info vaddr)) (w, r).
Proof.
  intros Hm. unfold translate_vaddr. erewrite bind_Ok by reflexivity. cbn [fst].
  rewrite bool_decide_eq_false_2 by done. destruct (is_canonical_vaddr w vaddr); [|done].
  cbn [negb]. unfold lookup_or_walk, bind. by destruct (tlb_get _ _) as [[] ?].
Qed.

(** What a permission check asks of the flags of a leaf: the bits it names are
    as it says, and one of its alternatives, if it has any, is set. *)
Definition grants (check : PermissionCheck) (flags : Z) : Prop :=
  (forall i, 0 <= i -> Z.testbit flags i && Z.testbit (exact_mask check) i = Z.testbit (exact_flags check) i) /\
  (any_of check = 0 \/ exists i, 0 <= i /\ Z.testbit flags i = true /\ Z.testbit (any_of check) i = true).

Lemma land_nonzero_bit a b : 0 <= a -> Z.land a b <> 0 <->
  exists i, 0 <= i /\ Z.testbit a i = true /\ Z.testbit b i = true.
Proof.
  intros Ha. split.
  - intros Hn. assert (0 < Z.land a b) as Hpos by (pose proof (proj2 (Z.land_nonneg a b) (or_introl Ha)); lia).
    exists (Z.log2 (Z.land a b)). split; [apply Z.log2_nonneg|].
    pose proof (Z.bit_log2 _ Hpos) as Hb. rewrite Z.land_spec in Hb. by apply andb_true_iff in Hb.
  - intros (i & Hi & H1 & H2) E. pose proof (Z.land_spec a b i) as Hs.
    by rewrite E, Z.bits_0, H1, H2 in Hs.
Qed.

Lemma permission_grants flags check : 0 <= flags ->
  permission_denied flags check = false <-> grants check flags.
Proof.
  intros Hf. unfold permission_denied, grants. rewrite orb_false_iff, negb_false_iff, Z.eqb_eq.
  rewrite <- (land_nonzero_bit flags (any_of check)) by done. apply Morphisms_Prop.and_iff_morphism.
  - rewrite <- Z.bits_inj_iff'. by setoid_rewrite Z.land_spec.
  - destruct (Z.eqb_spec (any_of check) 0), (Z.eqb_spec (Z.land flags (any_of check)) 0); cbn; naive_solver.
Qed.

(** What the architecture says a translation gives: the address is canonical, a
    walk of the page table finds a leaf, its flags allow the access, the A/D
    bits it needs are set, and the offset is kept. *)
Definition translates (sv : SvMode) (w : PageTableWalker) (r : Ram) (vaddr : Z)
  (check : PermissionCheck) (effect : AccessEffect) (pa : Z) : Prop :=
  - 2 ^ (VA_BITS sv - 1) <= to_signed 64 vaddr < 2 ^ (VA_BITS sv - 1) /\
  exists info, page_walk r vaddr (LEVELS sv) (root_table w) info /\
    grants check (leaf_flags info) /\
    ad_ok effect (leaf_flags info) = true /\
    pa = leaf_ppn info + vaddr mod 2 ^ (12 + 9 * leaf_level info).

(** A translated address keeps the page offset and fits the 56-bit physical
    address space. *)
Lemma translates_range sv w r vaddr check effect pa :
  sv_of_mode (mode w) = Some sv -> translates sv w r vaddr check effect pa ->
  pa mod 2 ^ 12 = vaddr mod 2 ^ 12 /\ 0 <= pa < 2 ^ 56.
Proof.
  intros Hsv (_ & info & Hw & _ & _ & ->). destruct (LEVELS_bounds _ _ Hsv) as [Hn _].
  destruct (page_walk_leaf _ _ _ _ _ (proj2 Hn) Hw) as (_ & Hlv & p & Hpp & Hrg).
  set (k := leaf_level info) in *. split.
  - rewrite Hpp, (Z.mul_comm p), Z.pow_add_r, <- Z.mul_assoc, (Z.mul_comm (2 ^ 12)) by lia.
    rewrite Z.add_comm, Z_mod_plus_full. rewrite (Z.mul_comm (2 ^ 12)), <- Z.pow_add_r by lia.
    apply (wrap_wrap_le 12 (9 * k + 12)). lia.
  - subst k. rewrite <- (leaf_paddr_spec info vaddr p) by (done || lia).
    unfold leaf_paddr, PhysicalAddr_from. change (shl 64 1 PHYSICAL_ADDR_WIDTH - 1) with (Z.ones 56).
    rewrite Z.land_ones by lia. by apply Z.mod_pos_bound.
Qed.
Lemma is_canonical_spec w sv vaddr : sv_of_mode (mode w) = Some sv -> u64 vaddr ->
  is_canonical_vaddr w vaddr = true <->
  - 2 ^ (VA_BITS sv - 1) <= to_signed 64 vaddr < 2 ^ (VA_BITS sv - 1).
Proof.
  intros Hsv Hva. assert (is_canonical_vaddr w vaddr = is_sign_extended vaddr (VA_BITS sv)) as ->
    by (unfold is_canonical_vaddr; destruct (mode w); by simplify_eq/=).
  apply is_sign_extended_spec; [|done]. destruct (mode w); simplify_eq/=; lia.
Qed.

(** C5: Translation is exactly the architecture's, with any coherent TLB and under
    the fault-on-clear A/D policy: success with the specified physical address
    and only then, which keeps the page offset and fits the 56-bit physical
    address space; memory is not modified; the TLB stays coherent; and without
    overflow checks it never panics. *)
Theorem translate_vaddr_correct w r sv vaddr check effect :
  sv_of_mode (mode w) = Some sv -> ad_update_policy w = FaultOnClear ->
  u64 (root_address w) -> ptr_aligned r -> u64 vaddr -> tlb_coherent sv w r ->
  exists res w', translate_vaddr vaddr check effect (w, r) = (res, (w', r)) /\
    tlb_coherent sv w' r /\
    (forall pa, res = Ok pa <-> translates sv w r vaddr check effect pa) /\
    (forall pa, res = Ok pa -> pa mod 2 ^ 12 = vaddr mod 2 ^ 12 /\ 0 <= pa < 2 ^ 56) /\
    (overflow_checks = false -> res <> Panic).
Proof.
  intros Hsv Hpol Hr Hp Hva Hco.
  enough (exists res w', translate_vaddr vaddr check effect (w, r) = (res, (w', r)) /\
    tlb_coherent sv w' r /\ (forall pa, res = Ok pa <-> translates sv w r vaddr check effect pa) /\
    (overflow_checks = false -> res <> Panic)) as (res & w' & Ht & Hc & Hres & Hnp).
  { exists res, w'. split_and!; try done. intros pa ?%Hres. by eapply translates_range. }
  rewrite translate_vaddr_eq by (by intros E; rewrite E in Hsv).
  pose proof (is_canonical_spec w sv vaddr Hsv Hva) as Hcan. unfold translates.
  destruct (is_canonical_vaddr w vaddr) eqn:Ec; cbn [negb].
  2: { exists (Err PageFault), w. split_and!; try done. intros pa. split; [done|].
       by intros [?%Hcan _]. }
  destruct (lookup_or_walk_spec w sv r vaddr Hsv Hr Hp Hva Hco)
    as (res & w' & Hl & Hco' & Hm' & Hr' & Hpol' & Hi & Hnp).
  destruct res as [info|e|].
  2,3: unfold bind; rewrite Hl; eexists _, w'; (split; [reflexivity|]); (split; [done|]);
      (split; [|first [done | by intros Hov; destruct (Hnp Hov)]]); intros pa; (split; [done|]); by intros (_ & info & ?%Hi & _).
  assert (page_walk r vaddr (LEVELS sv) (root_table w) info) as Hw by (by apply Hi).
  destruct (LEVELS_bounds _ _ Hsv) as [Hn _].
  destruct (page_walk_leaf _ _ _ _ _ (proj2 Hn) Hw) as (Hf & Hlv & p & Hpp & Hrg).
  erewrite bind_Ok by exact Hl.
  pose proof (permission_grants (leaf_flags info) check (proj1 Hf)) as Hperm.
  destruct (permission_denied (leaf_flags info) check).
  { exists (Err PrivilegeFault), w'. split_and!; try done. intros pa. split; [done|].
    intros (_ & info' & Hw' & Hp' & _). assert (info' = info) as -> by (by eapply page_walk_det).
    by apply Hperm in Hp'. }
  unfold bind, on_ram. rewrite apply_ad_fault by (done || congruence).
  destruct (ad_ok effect (leaf_flags info)) eqn:Ead.
  - exists (Ok (leaf_paddr info vaddr)), w'. split_and!; try done.
    rewrite (leaf_paddr_spec info vaddr p) by (done || lia). intros pa. split.
    + intros [= <-]. split; [by apply Hcan|]. exists info. by rewrite <- Hperm.
    + intros (_ & info' & Hw' & _ & _ & ->). by assert (info' = info) as -> by (by eapply page_walk_det).
  - exists (Err PageFault), w'. split_and!; try done. intros pa. split; [done|].
    intros (_ & info' & Hw' & _ & Ha' & _). assert (info' = info) by (by eapply page_walk_det). congruence.
Qed.

(** A flushed TLB is coherent with any memory and any root. *)
Lemma flush_coherent sv w r : tlb_coherent sv (flush_tlb w) r.
Proof.
  intros a info Hg. pose proof (DirectCache_lawful (@None WalkInfo) PAGE_SIZE_XLEN 512 eq_refl) as HL.
  pose proof (@get_clear _ _ _ HL (policy (tlb w)) a) as Hc. cbn in *. congruence.
Qed.

End Translate.

(** ** A concrete page table: one 4 KiB page mapped through three levels. *)
Definition demo_ram : Ram :=
  let st a v r := snd (write U64 (a - BASE_ADDR) v r) in
  st 0x80003000 (set_ppn 0xC7 0x80004000)
    (st 0x80002000 (set_ppn 0x01 0x80003000) (st 0x80001000 (set_ppn 0x01 0x80002000) (Ram_new 4096))).
Definition demo_walker : PageTableWalker := PageTableWalker_new 0x80001000 Page39bit.
Definition read_check : PermissionCheck := {| any_of := 0; exact_mask := PTE_R; exact_flags := PTE_R |}.

Lemma demo_coherent : tlb_coherent Sv39 demo_walker demo_ram.
Proof.
  intros a info Hg. pose proof (DirectCache_lawful (@None WalkInfo) PAGE_SIZE_XLEN 512 eq_refl) as HL.
  pose proof (@get_new _ _ _ HL a) as Hc. cbn in *. congruence.
Qed.

Lemma translate_vaddr_correct_witness :
  exists res w', @translate_vaddr release 0x123 read_check Accessed (demo_walker, demo_ram) =
      (res, (w', demo_ram)) /\ res = Ok 0x80004123 /\ tlb_coherent Sv39 w' demo_ram.
Proof.
  destruct (@translate_vaddr_correct release demo_walker demo_ram Sv39 0x123 read_check Accessed)
    as (res & w' & Ht & Hco & _).
  - reflexivity.
  - reflexivity.
  - vm_compute. split; [discriminate|reflexivity].
  - exists 512. reflexivity.
  - vm_compute. split; [discriminate|reflexivity].
  - exact demo_coherent.
  - exists res, w'. split; [exact Ht|]. split; [|exact Hco].
    assert (fst (@translate_vaddr release 0x123 read_check Accessed (demo_walker, demo_ram)) = Ok 0x80004123)
      as E by (vm_compute; reflexivity).
    rewrite Ht in E. exact E.
Defined.
