(* ===== verification/Mmio.v ===== *)
(** * The physical address space (src/src/device/mmio.rs, device/mod.rs,
    device/device_manager.rs)

    RAM above [BASE_ADDR], a sorted map of device windows below.  Devices are
    seen through the interface [DeviceTrait]; the arena is the list of
    registered devices, addressed by handle. *)

From stdpp Require Import sorting.
From S2P Require Import Prelude Utils TrapTypes Ram.

(** [dyn DeviceTrait]: one type [D] of devices (a sum of the concrete ones)
    with its operations. *)
Class DeviceTrait (D : Type) : Type := {
  dev_read : Z -> Z -> M D MemError Z;
  dev_write : Z -> Z -> Z -> M D MemError unit;
  dev_sync : M D MemError unit
}.

Record MemoryMapItem : Type := { start : Z; size : Z; device : nat }.

(** [Ord for MemoryMapItem] compares the start addresses. *)
Definition item_le (a b : MemoryMapItem) : Prop := start a <= start b.
#[export] Instance item_le_dec : RelDecision item_le.
Proof. intros a b. unfold item_le. apply _. Defined.
#[export] Instance item_le_total : Total item_le.
Proof. intros a b. unfold item_le. lia. Qed.
#[export] Instance item_le_trans : Transitive item_le.
Proof. intros a b c. unfold item_le. lia. Qed.

Record MemoryMapIO (D : Type) : Type := {
  map : list MemoryMapItem;
  ram : Ram;
  devices : list D
}.
Arguments map {D} _.
Arguments ram {D} _.
Arguments devices {D} _.
Arguments Build_MemoryMapIO {D} _ _ _.

Section Mmio.
Context {D : Type} `{DeviceTrait D} `{Profile}.

Abbreviation MmioM := (M (MemoryMapIO D) MemError).

(** [from_mmio_items]: [map.sort()] is a stable merge sort. *)
Definition from_mmio_items (r : Ram) (ds : list D) (items : list MemoryMapItem) : MemoryMapIO D :=
  Build_MemoryMapIO (merge_sort item_le items) r ds.

Definition with_ram {A} (m : M Ram MemError A) : MmioM A :=
  zoom ram (fun s r => Build_MemoryMapIO (map s) r (devices s)) m.

(** [devices_mut().erased_device_mut(handle)], then a method of the device. *)
Definition with_device {A} (handle : nat) (m : M D MemError A) : MmioM A :=
  fun s => match devices s !! handle with
           | Some d => let '(x, d') := m d in
                       (x, Build_MemoryMapIO (map s) (ram s) (<[handle := d']> (devices s)))
           | None => (Panic, s)
           end.

(** [self.map[device_index]] panics out of range. *)
Definition item_at (device_index : nat) : MmioM MemoryMapItem :=
  m <- gets map ;; unwrap (m !! device_index).

Definition can_access (t : UInt) (item : MemoryMapItem) (p_addr : Z) : bool :=
  if p_addr <? start item then false
  else let offset := p_addr - start item in
       (offset + size_of t <? 2 ^ 64) && (offset + size_of t <=? size item).

Definition read_from_device (t : UInt) (device_index : nat) (p_addr : Z) : MmioM Z :=
  if negb (check_align t p_addr) then err MemLoadMisaligned
  else item <- item_at device_index ;;
       if negb (can_access t item p_addr) then err MemLoadFault
       else x <- with_device (device item) (dev_read (p_addr - start item) (size_of t)) ;;
            ret (truncate_from t x).

Definition write_to_device (t : UInt) (device_index : nat) (p_addr data : Z) : MmioM unit :=
  if negb (check_align t p_addr) then err MemStoreMisaligned
  else item <- item_at device_index ;;
       if negb (can_access t item p_addr) then err MemStoreFault
       else with_device (device item) (dev_write (p_addr - start item) (size_of t) data).

(** The comparison passed to [binary_search_by]. *)
Definition cmp_start (p_addr : Z) (item : MemoryMapItem) : comparison :=
  if p_addr <? start item then Gt else if start item <? p_addr then Lt else Eq.

Definition read_by_type (t : UInt) (p_addr : Z) : MmioM Z :=
  if BASE_ADDR <=? p_addr then with_ram (Ram.read t (p_addr - BASE_ADDR))
  else m <- gets map ;;
       match binary_search_by (cmp_start p_addr) m with
       | inl i => read_from_device t i p_addr
       | inr O => err MemLoadFault
       | inr (S i) => read_from_device t i p_addr
       end.

Definition write_by_type (t : UInt) (p_addr data : Z) : MmioM unit :=
  if BASE_ADDR <=? p_addr then with_ram (Ram.write t (p_addr - BASE_ADDR) data)
  else m <- gets map ;;
       match binary_search_by (cmp_start p_addr) m with
       | inl i => write_to_device t i p_addr data
       | inr O => err MemStoreFault
       | inr (S i) => write_to_device t i p_addr data
       end.

Definition in_ram_window (p_addr : Z) : bool := (BASE_ADDR <=? p_addr) && (p_addr <? BASE_ADDR + SIZE).

Definition load_reserved (t : UInt) (p_addr : Z) : MmioM Z :=
  if in_ram_window p_addr then with_ram (Ram.load_reserved t (p_addr - BASE_ADDR))
  else err MemLoadFault.

Definition store_conditional (t : UInt) (p_addr data : Z) : MmioM bool :=
  if in_ram_window p_addr then with_ram (Ram.store_conditional t (p_addr - BASE_ADDR) data)
  else err MemStoreFault.

Definition clear_reservation : MmioM unit := with_ram Ram.clear_reservation.

(** [sync]: every mapped device, in map order. *)
Fixpoint sync_items (items : list MemoryMapItem) : MmioM unit :=
  match items with
  | [] => ret tt
  | item :: items => with_device (device item) dev_sync ;;; sync_items items
  end.
Definition sync : MmioM unit := m <- gets map ;; sync_items m.

(** ** Dispatch *)

(** A map as the board builds it: windows of positive size, no two sharing an
    address, every handle registered. *)
Definition windows_ok (items : list MemoryMapItem) : Prop :=
  Forall (fun a => 0 <= start a /\ 0 < size a) items /\
  forall i j a b, items !! i = Some a -> items !! j = Some b -> i <> j ->
    start a + size a <= start b \/ start b + size b <= start a.

Definition mmio_wf (s : MemoryMapIO D) : Prop :=
  windows_ok (map s) /\ StronglySorted item_le (map s) /\
  Forall (fun a => is_Some (devices s !! device a)) (map s).

Lemma windows_start_inj items i j a b : windows_ok items ->
  items !! i = Some a -> items !! j = Some b -> start a = start b -> i = j.
Proof.
  intros [Hpos Hdis] Ha Hb E. destruct (decide (i = j)) as [|Hne]; [done|].
  rewrite Forall_lookup in Hpos. pose proof (Hpos i a Ha). pose proof (Hpos j b Hb).
  destruct (Hdis i j a b Ha Hb Hne); lia.
Qed.

Lemma sorted_lookup (l : list MemoryMapItem) i j a b : StronglySorted item_le l ->
  (i < j)%nat -> l !! i = Some a -> l !! j = Some b -> start a <= start b.
Proof.
  intros Hs. revert i j. induction Hs as [|x l Hs IH Hx]; intros i j Hij Ha Hb; [done|].
  destruct j as [|j]; [lia|]. destruct i as [|i]; cbn in *; [|apply (IH i j); [lia|done|done]].
  injection Ha as <-. rewrite Forall_forall in Hx. apply Hx, list_elem_of_In. by eapply list_elem_of_lookup_2.
Qed.

Lemma cmp_ordered s p : mmio_wf s -> bs_ordered (cmp_start p) (map s).
Proof.
  intros (Hw & Hs & _) i j x y Hij Hx Hy Hne.
  pose proof (sorted_lookup _ _ _ _ _ Hs Hij Hx Hy) as Hle.
  assert (start x <> start y) as Hd.
  { intros E. pose proof (windows_start_inj _ _ _ _ _ Hw Hx Hy E). lia. }
  unfold cmp_start in *. destruct (Z.ltb_spec p (start y)); [done|].
  destruct (Z.ltb_spec p (start x)), (Z.ltb_spec (start x) p); try done; lia.
Qed.

(** The device window that contains the whole access, if any. *)
Definition window_of (s : MemoryMapIO D) (t : UInt) (p : Z) : option MemoryMapItem :=
  find (fun a => (start a <=? p) && (p + size_of t <=? start a + size a)) (map s).

Lemma can_access_window t a p : 0 <= start a -> u64 p -> p < BASE_ADDR ->
  can_access t a p = (start a <=? p) && (p + size_of t <=? start a + size a).
Proof.
  intros Hst Hp Hb. unfold can_access. assert (size_of t <= 8) by (by destruct t).
  change BASE_ADDR with (2 ^ 31) in Hb.
  destruct (Z.ltb_spec p (start a)); [by rewrite (proj2 (Z.leb_gt (start a) p)) by lia|].
  rewrite (proj2 (Z.leb_le (start a) p)) by lia. cbn [andb].
  destruct (Z.ltb_spec (p - start a + size_of t) (2 ^ 64)),
    (Z.leb_spec (p - start a + size_of t) (size a)), (Z.leb_spec (p + size_of t) (start a + size a)); done || lia.
Qed.

(** Only the window found by the search can contain the access. *)
Lemma window_unique s t p i a : mmio_wf s -> map s !! i = Some a -> start a <= p ->
  (forall j b, map s !! j = Some b -> (i < j)%nat -> p < start b) ->
  window_of s t p = if p + size_of t <=? start a + size a then Some a else None.
Proof.
  intros (Hw & Hs & _) Ha Hst Hgt. unfold window_of.
  assert (0 < size_of t) by (by destruct t).
  assert (forall b, find (fun a => (start a <=? p) && (p + size_of t <=? start a + size a)) (map s) = Some b -> b = a) as Huniq.
  { intros b [Hin Hb%andb_true_iff]%find_some. destruct Hb as [Hb1%Z.leb_le Hb2%Z.leb_le].
    apply list_elem_of_In, list_elem_of_lookup in Hin as [j Hj].
    destruct (decide (i = j)) as [->|Hne]; [congruence|].
    destruct Hw as [Hpos Hdis]. rewrite Forall_lookup in Hpos. pose proof (Hpos i a Ha).
    destruct (Nat.lt_total i j) as [Hlt|[->|Hlt]]; [|done|].
    - pose proof (Hgt j b Hj Hlt). lia.
    - pose proof (sorted_lookup _ _ _ _ _ Hs Hlt Hj Ha). destruct (Hdis i j a b Ha Hj Hne); lia. }
  destruct (find _ _) as [b|] eqn:Ef.
  - rewrite (Huniq b eq_refl) in Ef. apply find_some in Ef as [_ [_ E]%andb_true_iff].
    rewrite E. by rewrite (Huniq b eq_refl).
  - destruct (p + size_of t <=? start a + size a) eqn:E; [|done].
    eapply find_none in Ef; [|apply list_elem_of_In; by eapply list_elem_of_lookup_2].
    cbv beta in Ef. by rewrite E, (proj2 (Z.leb_le (start a) p)) in Ef.
Qed.

Lemma window_none s t p : (forall j b, map s !! j = Some b -> p < start b) -> window_of s t p = None.
Proof.
  intros Hgt. unfold window_of. destruct (find _ _) as [b|] eqn:Ef; [|done].
  apply find_some in Ef as [Hin [Hb%Z.leb_le _]%andb_true_iff].
  apply list_elem_of_In, list_elem_of_lookup in Hin as [j Hj]. pose proof (Hgt j b Hj). lia.
Qed.
(** The item the two [match]es pick: the last one that starts at or below the
    address. *)
Definition search_item (s : MemoryMapIO D) (p : Z) : option nat :=
  match binary_search_by (cmp_start p) (map s) with
  | inl i => Some i
  | inr O => None
  | inr (S i) => Some i
  end.

Lemma search_item_spec s p : mmio_wf s ->
  match search_item s p with
  | Some i => exists a, map s !! i = Some a /\ start a <= p /\
                forall j b, map s !! j = Some b -> (i < j)%nat -> p < start b
  | None => forall j b, map s !! j = Some b -> p < start b
  end.
Proof.
  intros Hwf. pose proof (binary_search_by_spec _ _ (cmp_ordered s p Hwf)) as Hs.
  assert (forall a, cmp_start p a = Gt -> p < start a) as Kgt
    by (intros a; unfold cmp_start; split_ltb; done).
  unfold search_item. destruct (binary_search_by (cmp_start p) (map s)) as [i|[|i]].
  - destruct Hs as (a & Ha & Heq). exists a. split; [done|].
    assert (start a = p) as Hst by (unfold cmp_start in Heq; destruct (Z.ltb_spec p (start a)),
      (Z.ltb_spec (start a) p); done || lia).
    split; [lia|]. intros j b Hb Hij. destruct Hwf as (Hw & Hso & _).
    pose proof (sorted_lookup _ _ _ _ _ Hso Hij Ha Hb).
    destruct (decide (start b = start a)) as [E|]; [|lia].
    pose proof (windows_start_inj _ _ _ _ _ Hw Hb Ha E). lia.
  - destruct Hs as (_ & _ & Hgt). intros j b Hb. eapply Kgt, Hgt; [lia|done].
  - destruct Hs as (Hle & Hlo & Hgt). destruct (map s !! i) as [a|] eqn:Ha;
      [|apply lookup_ge_None in Ha; lia].
    exists a. split; [done|]. split.
    + pose proof (Hlo i a ltac:(lia) Ha) as Hlt. unfold cmp_start in Hlt.
      destruct (Z.ltb_spec p (start a)), (Z.ltb_spec (start a) p); done || lia.
    + intros j b Hb Hij. eapply Kgt, Hgt; [|done]. lia.
Qed.

Lemma by_type_search s t p v : p < BASE_ADDR ->
  read_by_type t p s = match search_item s p with
                       | Some i => read_from_device t i p s
                       | None => (Err MemLoadFault, s) end /\
  write_by_type t p v s = match search_item s p with
                          | Some i => write_to_device t i p v s
                          | None => (Err MemStoreFault, s) end.
Proof.
  intros Hb. unfold read_by_type, write_by_type, search_item.
  rewrite (proj2 (Z.leb_gt BASE_ADDR p)) by lia. erewrite !bind_Ok by reflexivity.
  by destruct (binary_search_by (cmp_start p) (map s)) as [i|[|i]].
Qed.

Lemma device_access s t i p v a : map s !! i = Some a ->
  read_from_device t i p s =
    (if negb (check_align t p) then (Err MemLoadMisaligned, s)
     else if negb (can_access t a p) then (Err MemLoadFault, s)
     else (x <- with_device (device a) (dev_read (p - start a) (size_of t)) ;; ret (truncate_from t x)) s) /\
  write_to_device t i p v s =
    (if negb (check_align t p) then (Err MemStoreMisaligned, s)
     else if negb (can_access t a p) then (Err MemStoreFault, s)
     else with_device (device a) (dev_write (p - start a) (size_of t) v) s).
Proof.
  intros Ha. unfold read_from_device, write_to_device.
  destruct (check_align t p); [|done]. cbn [negb].
  assert (item_at i s = (Ok a, s)) as Hi by (unfold item_at, bind, gets, unwrap; by rewrite Ha).
  rewrite !(bind_Ok _ _ _ _ _ Hi). by destruct (can_access t a p).
Qed.

(** Below RAM an access reaches a device exactly when one window contains all
    of it and it is aligned: that device, at the offset into its window, once;
    every other access is an error that leaves RAM and devices alone. *)
Theorem mmio_dispatch s t p v :
  mmio_wf s -> u64 p -> p < BASE_ADDR ->
  match window_of s t p with
  | Some a =>
      read_by_type t p s =
        (if check_align t p
         then (x <- with_device (device a) (dev_read (p - start a) (size_of t)) ;; ret (truncate_from t x)) s
         else (Err MemLoadMisaligned, s)) /\
      write_by_type t p v s =
        (if check_align t p then with_device (device a) (dev_write (p - start a) (size_of t) v) s
         else (Err MemStoreMisaligned, s))
  | None => (exists e, read_by_type t p s = (Err e, s)) /\ (exists e, write_by_type t p v s = (Err e, s))
  end.
Proof.
  intros Hwf Hp Hb. pose proof (search_item_spec s p Hwf) as Hs.
  destruct (by_type_search s t p v Hb) as [-> ->].
  destruct (search_item s p) as [i|]; [|rewrite window_none by done; split; by eexists].
  destruct Hs as (a & Ha & Hst & Hgt). rewrite (window_unique s t p i a) by done.
  destruct (device_access s t i p v a Ha) as [-> ->].
  destruct Hwf as ([Hpos _] & _). rewrite Forall_lookup in Hpos. destruct (Hpos i a Ha).
  rewrite can_access_window, (proj2 (Z.leb_le (start a) p)) by done. cbn [andb].
  destruct (p + size_of t <=? start a + size a), (check_align t p); cbn [negb]; eauto.
Qed.

(** The constructor sorts the windows, so it establishes the invariant. *)
Lemma from_mmio_items_wf r ds items : windows_ok items ->
  Forall (fun a => is_Some (ds !! device a)) items -> mmio_wf (from_mmio_items r ds items).
Proof.
  intros [Hpos Hdis] Hd. pose proof (merge_sort_Permutation item_le items) as Hperm.
  unfold from_mmio_items, mmio_wf. cbn [map devices]. split; [|split].
  - split; [by rewrite Hperm|]. intros i j a b Ha Hb Hij.
    apply Permutation_inj in Hperm as (_ & f & Hf & Hl).
    apply (Hdis (f i) (f j)); [by rewrite <- Hl|by rewrite <- Hl|]. intros E. by apply Hf in E.
  - apply StronglySorted_merge_sort; apply _.
  - by rewrite Hperm.
Qed.
End Mmio.

(** ** A concrete map: one device of sixteen bytes. *)
Definition demo_device : DeviceTrait Z := {|
  dev_read addr len := fun d => (Ok (d + addr), d);
  dev_write addr len v := fun d => (Ok tt, v);
  dev_sync := fun d => (Ok tt, d)
|}.

Lemma mmio_dispatch_witness :
  let D := demo_device in
  let s := from_mmio_items (Ram_new 0) [100] [{| start := 0x1000; size := 16; device := 0 |}] in
  fst (read_by_type U32 0x1008 s) = Ok 108.
Proof.
  intros D s. pose proof (@mmio_dispatch Z D s U32 0x1008 0) as H.
  assert (mmio_wf s) as Hwf.
  { apply from_mmio_items_wf.
    - split; [repeat constructor; cbn; lia|]. intros [|i] [|j] a b Ha Hb Hij; [done|discriminate..].
    - repeat constructor. by exists 100. }
  specialize (H Hwf ltac:(vm_compute; split; [discriminate|reflexivity]) ltac:(reflexivity)).
  destruct H as [Hr _]. rewrite Hr. reflexivity.
Defined.
