(* ===== verification/Device.v ===== *)
(** * What the devices share (src/src/device/mod.rs, board/virt.rs)

    Width dispatch of a device's [read] and [write], interrupt lines towards
    the hart and the sampled interrupt level of a device. *)

From S2P Require Import Prelude Utils TrapTypes Mmio.

(** [dispatch_read_write!]: the length in bytes selects the instance. *)
Definition width_of_len (len : Z) : option UInt :=
  if len =? 1 then Some U8 else if len =? 2 then Some U16
  else if len =? 4 then Some U32 else if len =? 8 then Some U64 else None.

Section Dispatch.
Context {D : Type} (read_impl : UInt -> Z -> M D MemError Z) (write_impl : UInt -> Z -> Z -> M D MemError unit).

Definition dispatch_read (addr len : Z) : M D MemError Z :=
  t <- unwrap (width_of_len len) ;; read_impl t addr.
Definition dispatch_write (addr len data : Z) : M D MemError unit :=
  t <- unwrap (width_of_len len) ;; write_impl t addr (truncate_from t data).
End Dispatch.

(** [RiscvIRQHandler]: what is behind the interrupt lines; [None] is a panic. *)
Class RiscvIRQHandler (T : Type) : Type := {
  irq_handler : Interrupt -> bool -> T -> option T
}.

(** [IRQLine]: the handlers it may point to are the cells of a list, the
    pointer an index into it. *)
Record IRQLine : Type := { line_target : nat; interrupt_nr : Interrupt }.

Definition set_irq {T E} `{RiscvIRQHandler T} (l : IRQLine) (level : bool) : M (list T) E unit :=
  fun ts => match ts !! line_target l with
            | Some t => match irq_handler (interrupt_nr l) level t with
                        | Some t' => (Ok tt, <[line_target l := t']> ts)
                        | None => (Panic, ts)
                        end
            | None => (Panic, ts)
            end.

(** [PlicDevice::irq_level] takes [&mut self]. *)
Class PlicDevice (D : Type) : Type := {
  irq_level : D -> bool * D
}.

Lemma width_of_len_size t : width_of_len (size_of t) = Some t.
Proof. by destruct t. Qed.
