(* ===== verification/Plic.v ===== *)
(** * The platform-level interrupt controller (src/src/device/plic/)

    [PLICLayout] is the register file and the arbitration between sources;
    [PLIC] adds the interrupt lines of the contexts and the devices whose level
    it samples.  The devices live in the board's arena and the handlers behind
    the lines are the harts: both are part of the state [Board] that the
    operations of the controller run on. *)

From stdpp Require Import sorting.
From S2P Require Import Prelude Utils TrapTypes Mmio Device.

Definition VIRT_MAX_INTERRUPTS : Z := 64.
Definition VIRT_MAX_CONTEXTS : Z := 16.
Definition REGISTER_BYTES : Z := 4.
Definition INTERRUPTS_PER_REGISTER : Z := 32.
Definition PLIC_INTERRUPT_WORDS : Z := VIRT_MAX_INTERRUPTS / INTERRUPTS_PER_REGISTER.
Definition CLAIM_COMPLETE_REGISTER_INDEX : Z := 1.
Definition PRIORITY_OFFSET : Z := 0.
Definition PENDING_BIT_OFFSET : Z := 0x001000.
Definition CONTEXT_ENABLE_BIT_OFFSET : Z := 0x002000.
Definition CONTEXT_ENABLE_BIT_SIZE : Z := 0x80.
Definition CONTEXT_CONFIG_OFFSET : Z := 0x200000.
Definition CONTEXT_CONFIG_SIZE : Z := 0x1000.
Definition PLIC_SIZE : Z := 0x4000000.

(** ** Bit registers (types.rs)

    The words of the register; an operation is [None] where indexing panics. *)
Abbreviation PLICBitReg := (list Z).

Definition interrupt_word_and_mask (interrupt_id : Z) : nat * Z :=
  (Z.to_nat (interrupt_id / INTERRUPTS_PER_REGISTER), shl 32 1 (interrupt_id mod INTERRUPTS_PER_REGISTER)).

Definition PLICBitReg_new : PLICBitReg := replicate (Z.to_nat PLIC_INTERRUPT_WORDS) 0.

Definition on_word (f : Z -> Z -> Z) (r : PLICBitReg) (interrupt_id : Z) : option PLICBitReg :=
  let '(index, mask) := interrupt_word_and_mask interrupt_id in
  w ← r !! index; Some (<[index := f w mask]> r).

Definition set_bit : PLICBitReg -> Z -> option PLICBitReg := on_word (fun w m => Z.lor w m).
Definition clear_bit : PLICBitReg -> Z -> option PLICBitReg := on_word (fun w m => Z.land w (bnot 32 m)).

Definition get_bit (r : PLICBitReg) (interrupt_id : Z) : option bool :=
  let '(index, mask) := interrupt_word_and_mask interrupt_id in
  w ← r !! index; Some (negb (Z.land w mask =? 0)).

Definition take_bit (r : PLICBitReg) (interrupt_id : Z) : option (bool * PLICBitReg) :=
  old ← get_bit r interrupt_id; r' ← clear_bit r interrupt_id; Some (old, r').

Definition read_word (r : PLICBitReg) (index : Z) : option Z := r !! Z.to_nat index.
Definition write_word (r : PLICBitReg) (index value : Z) : option PLICBitReg :=
  _ ← r !! Z.to_nat index; Some (<[Z.to_nat index := value]> r).

Record PLICContext : Type := { enable : PLICBitReg; priority_threshold : Z }.
Definition PLICContext_new : PLICContext := {| enable := PLICBitReg_new; priority_threshold := 0 |}.

Inductive PlicRegister : Type :=
| Priority (interrupt_id : Z)
| Pending (word_index : Z)
| Enable (context_id word_index : Z)
| Threshold (context_id : Z)
| ClaimComplete (context_id : Z).
#[export] Instance PlicRegister_eq_dec : EqDecision PlicRegister.
Proof. solve_decision. Defined.

Definition source_zero_word_index : Z := Z.of_nat (fst (interrupt_word_and_mask 0)).
Definition source_zero_bit_mask : Z := snd (interrupt_word_and_mask 0).

Definition is_valid_interrupt_id (interrupt_id : Z) : bool :=
  negb (interrupt_id =? 0) && (interrupt_id <? VIRT_MAX_INTERRUPTS).
Definition is_valid_context_id (context_id : Z) : bool := context_id <? VIRT_MAX_CONTEXTS.
Definition is_register_aligned (inner_addr : Z) : bool := inner_addr mod REGISTER_BYTES =? 0.

(** ** The register layout *)
Record PLICLayout : Type := {
  priority : list Z;
  pending : PLICBitReg;
  source_level : PLICBitReg;
  contexts : list PLICContext;
  priority_order : list Z;
  interrupt_sources_busy : gset Z
}.

Definition PLICLayout_new : PLICLayout := {|
  priority := replicate (Z.to_nat VIRT_MAX_INTERRUPTS) 0;
  pending := PLICBitReg_new;
  source_level := PLICBitReg_new;
  contexts := replicate (Z.to_nat VIRT_MAX_CONTEXTS) PLICContext_new;
  priority_order := seqZ 0 VIRT_MAX_INTERRUPTS;
  interrupt_sources_busy := ∅
|}.

Definition set_priority_array v (s : PLICLayout) : PLICLayout :=
  Build_PLICLayout v (pending s) (source_level s) (contexts s) (priority_order s) (interrupt_sources_busy s).
Definition set_pending v (s : PLICLayout) : PLICLayout :=
  Build_PLICLayout (priority s) v (source_level s) (contexts s) (priority_order s) (interrupt_sources_busy s).
Definition set_source v (s : PLICLayout) : PLICLayout :=
  Build_PLICLayout (priority s) (pending s) v (contexts s) (priority_order s) (interrupt_sources_busy s).
Definition set_contexts v (s : PLICLayout) : PLICLayout :=
  Build_PLICLayout (priority s) (pending s) (source_level s) v (priority_order s) (interrupt_sources_busy s).
Definition set_order v (s : PLICLayout) : PLICLayout :=
  Build_PLICLayout (priority s) (pending s) (source_level s) (contexts s) v (interrupt_sources_busy s).
Definition set_busy v (s : PLICLayout) : PLICLayout :=
  Build_PLICLayout (priority s) (pending s) (source_level s) (contexts s) (priority_order s) v.

(** The sort key: descending priority, then ascending id. *)
Definition prio (ps : list Z) (id : Z) : Z := default 0 (ps !! Z.to_nat id).
Definition before (ps : list Z) (a b : Z) : Prop := prio ps b < prio ps a \/ (prio ps a = prio ps b /\ a <= b).
#[export] Instance before_dec ps : RelDecision (before ps).
Proof. intros a b. unfold before. apply _. Defined.
#[export] Instance before_total ps : Total (before ps).
Proof. intros a b. unfold before. lia. Qed.
#[export] Instance before_trans ps : Transitive (before ps).
Proof. intros a b c. unfold before. lia. Qed.

Section Layout.
Context {E : Type}.
Abbreviation LM := (M PLICLayout E).

(** [self.priority[id]], [self.contexts[id]]: an index out of range panics. *)
Definition read_priority (interrupt_id : Z) : LM Z :=
  l <- gets priority ;; unwrap (l !! Z.to_nat interrupt_id).
Definition context_at (context_id : Z) : LM PLICContext :=
  l <- gets contexts ;; unwrap (l !! Z.to_nat context_id).
Definition put_context (context_id : Z) (c : PLICContext) : LM unit :=
  modify (fun s => set_contexts (<[Z.to_nat context_id := c]> (contexts s)) s).

Definition sort_priority_order : LM unit :=
  modify (fun s => set_order (merge_sort (before (priority s)) (priority_order s)) s).

Definition write_priority (interrupt_id value : Z) : LM unit :=
  old <- read_priority interrupt_id ;;
  if value =? old then ret tt
  else modify (fun s => set_priority_array (<[Z.to_nat interrupt_id := value]> (priority s)) s) ;;;
       sort_priority_order.

Definition read_pending_word (word_index : Z) : LM Z :=
  r <- gets pending ;; unwrap (read_word r word_index).

Definition pending_set_bit (interrupt_id : Z) : LM unit :=
  r <- gets pending ;; r <- unwrap (set_bit r interrupt_id) ;; modify (set_pending r).

Definition set_source_level (interrupt_id : Z) (level : bool) : LM unit :=
  r <- gets source_level ;;
  if level then
    r <- unwrap (set_bit r interrupt_id) ;;
    modify (set_source r) ;;;
    p <- gets pending ;;
    p <- unwrap (get_bit p interrupt_id) ;;
    b <- gets (fun s => bool_decide (interrupt_id ∈ interrupt_sources_busy s)) ;;
    if negb p && negb b then pending_set_bit interrupt_id else ret tt
  else
    r <- unwrap (clear_bit r interrupt_id) ;; modify (set_source r).

Definition read_enable_word (context_id word_index : Z) : LM Z :=
  c <- context_at context_id ;; unwrap (read_word (enable c) word_index).

Definition write_enable_word (context_id word_index value : Z) : LM unit :=
  let value := if word_index =? source_zero_word_index then Z.land value (bnot 32 source_zero_bit_mask) else value in
  c <- context_at context_id ;;
  e <- unwrap (write_word (enable c) word_index value) ;;
  put_context context_id {| enable := e; priority_threshold := priority_threshold c |}.

Definition is_enabled (context_id interrupt_id : Z) : LM bool :=
  c <- context_at context_id ;; unwrap (get_bit (enable c) interrupt_id).

Definition read_priority_threshold (context_id : Z) : LM Z :=
  c <- context_at context_id ;; ret (priority_threshold c).
Definition write_priority_threshold (context_id value : Z) : LM unit :=
  c <- context_at context_id ;; put_context context_id {| enable := enable c; priority_threshold := value |}.

(** The loop of [find_pending_interrupt] over the rest of the order. *)
Fixpoint scan (context_id threshold : Z) (apply_threshold : bool) (order : list Z) : LM (option Z) :=
  match order with
  | [] => ret None
  | interrupt_id :: order =>
      if interrupt_id =? 0 then scan context_id threshold apply_threshold order
      else p <- read_priority interrupt_id ;;
           if p =? 0 then ret None
           else if apply_threshold && (p <=? threshold) then scan context_id threshold apply_threshold order
           else b <- gets (fun s => bool_decide (interrupt_id ∈ interrupt_sources_busy s)) ;;
                if (b : bool) then scan context_id threshold apply_threshold order
                else e <- is_enabled context_id interrupt_id ;;
                     hit <- (if (e : bool) then r <- gets pending ;; unwrap (get_bit r interrupt_id) else ret false) ;;
                     if (hit : bool) then ret (Some interrupt_id)
                     else scan context_id threshold apply_threshold order
  end.

Definition find_pending_interrupt (context_id : Z) (apply_threshold : bool) : LM (option Z) :=
  c <- context_at context_id ;;
  order <- gets priority_order ;;
  scan context_id (priority_threshold c) apply_threshold order.

Definition pending_interrupt_to_notify (context_id : Z) : LM (option Z) := find_pending_interrupt context_id true.

Definition read_claim (context_id : Z) : LM Z :=
  o <- find_pending_interrupt context_id false ;;
  match o with
  | None => ret 0
  | Some interrupt_id =>
      r <- gets pending ;;
      x <- unwrap (take_bit r interrupt_id) ;;
      modify (set_pending (snd x)) ;;;
      modify (fun s => set_busy ({[ interrupt_id ]} ∪ interrupt_sources_busy s) s) ;;;
      ret interrupt_id
  end.

Definition write_complete (context_id interrupt_id : Z) : LM unit :=
  if negb (is_valid_interrupt_id interrupt_id) then ret tt
  else e <- is_enabled context_id interrupt_id ;;
       if negb e then ret tt
       else was_busy <- gets (fun s => bool_decide (interrupt_id ∈ interrupt_sources_busy s)) ;;
            modify (fun s => set_busy (interrupt_sources_busy s ∖ {[ interrupt_id ]}) s) ;;;
            if (was_busy : bool) then
              r <- gets source_level ;;
              l <- unwrap (get_bit r interrupt_id) ;;
              if (l : bool) then pending_set_bit interrupt_id else ret tt
            else ret tt.

Definition read_register (register : PlicRegister) : LM Z :=
  match register with
  | Priority interrupt_id => read_priority interrupt_id
  | Pending word_index => read_pending_word word_index
  | Enable context_id word_index => read_enable_word context_id word_index
  | Threshold context_id => read_priority_threshold context_id
  | ClaimComplete context_id => read_claim context_id
  end.

Definition write_register (register : PlicRegister) (value : Z) : LM unit :=
  match register with
  | Priority interrupt_id => write_priority interrupt_id value
  | Enable context_id word_index => write_enable_word context_id word_index value
  | Threshold context_id => write_priority_threshold context_id value
  | ClaimComplete context_id => write_complete context_id value
  | Pending _ => ret tt
  end.
End Layout.

Definition decode_register (inner_addr : Z) : option PlicRegister :=
  if negb (is_register_aligned inner_addr) then None
  else if (PRIORITY_OFFSET <=? inner_addr) && (inner_addr <? PENDING_BIT_OFFSET) then
    let interrupt_id := wrap 32 (inner_addr / REGISTER_BYTES) in
    if is_valid_interrupt_id interrupt_id then Some (Priority interrupt_id) else None
  else if (PENDING_BIT_OFFSET <=? inner_addr) && (inner_addr <? CONTEXT_ENABLE_BIT_OFFSET) then
    let word_index := (inner_addr - PENDING_BIT_OFFSET) / REGISTER_BYTES in
    if word_index <? PLIC_INTERRUPT_WORDS then Some (Pending word_index) else None
  else if (CONTEXT_ENABLE_BIT_OFFSET <=? inner_addr) && (inner_addr <? CONTEXT_CONFIG_OFFSET) then
    let context_id := (inner_addr - CONTEXT_ENABLE_BIT_OFFSET) / CONTEXT_ENABLE_BIT_SIZE in
    let word_index := (inner_addr - CONTEXT_ENABLE_BIT_OFFSET) mod CONTEXT_ENABLE_BIT_SIZE / REGISTER_BYTES in
    if (context_id <? VIRT_MAX_CONTEXTS) && (word_index <? PLIC_INTERRUPT_WORDS)
    then Some (Enable context_id word_index) else None
  else if (CONTEXT_CONFIG_OFFSET <=? inner_addr) && (inner_addr <? PLIC_SIZE) then
    let context_id := (inner_addr - CONTEXT_CONFIG_OFFSET) / CONTEXT_CONFIG_SIZE in
    let register_index := (inner_addr - CONTEXT_CONFIG_OFFSET) mod CONTEXT_CONFIG_SIZE / REGISTER_BYTES in
    if VIRT_MAX_CONTEXTS <=? context_id then None
    else if register_index =? 0 then Some (Threshold context_id)
    else if register_index =? CLAIM_COMPLETE_REGISTER_INDEX then Some (ClaimComplete context_id)
    else None
  else None.

(** ** The device *)
Record PLIC : Type := {
  layout : PLICLayout;
  riscv_irq_line : list (option IRQLine);
  riscv_irq_level : list (option bool);
  peripheral_irq_devices : list (option nat)
}.

Definition PLIC_new : PLIC := {|
  layout := PLICLayout_new;
  riscv_irq_line := replicate (Z.to_nat VIRT_MAX_CONTEXTS) None;
  riscv_irq_level := replicate (Z.to_nat VIRT_MAX_CONTEXTS) None;
  peripheral_irq_devices := replicate (Z.to_nat VIRT_MAX_INTERRUPTS) None
|}.

Definition set_layout v (p : PLIC) : PLIC :=
  Build_PLIC v (riscv_irq_line p) (riscv_irq_level p) (peripheral_irq_devices p).
Definition set_lines v (p : PLIC) : PLIC :=
  Build_PLIC (layout p) v (riscv_irq_level p) (peripheral_irq_devices p).
Definition set_levels v (p : PLIC) : PLIC :=
  Build_PLIC (layout p) (riscv_irq_line p) v (peripheral_irq_devices p).
Definition set_devices v (p : PLIC) : PLIC :=
  Build_PLIC (layout p) (riscv_irq_line p) (riscv_irq_level p) v.

(** The controller with what its pointers reach: the devices of the arena and
    the handlers behind the lines. *)
Record Board (D T : Type) : Type := { plic : PLIC; arena : list D; harts : list T }.
Arguments plic {D T} _.
Arguments arena {D T} _.
Arguments harts {D T} _.
Arguments Build_Board {D T} _ _ _.

Section Device.
Context {D T : Type} `{PlicDevice D} `{RiscvIRQHandler T}.
Abbreviation BM := (M (Board D T)).

Definition on_plic {E A} (m : M PLIC E A) : BM E A :=
  zoom plic (fun b p => Build_Board p (arena b) (harts b)) m.
Definition on_layout {E A} (m : M PLICLayout E A) : BM E A :=
  on_plic (zoom layout (fun p l => set_layout l p) m).
Definition on_harts {E A} (m : M (list T) E A) : BM E A :=
  zoom harts (fun b h => Build_Board (plic b) (arena b) h) m.

(** [device.as_mut().irq_level()] *)
Definition sample_device {E} (handle : nat) : BM E bool :=
  fun b => match arena b !! handle with
           | Some d => let '(level, d') := irq_level d in
                       (Ok level, Build_Board (plic b) (<[handle := d']> (arena b)) (harts b))
           | None => (Panic, b)
           end.

Fixpoint sync_from {E} (interrupt_id : Z) (devices : list (option nat)) : BM E unit :=
  match devices with
  | [] => ret tt
  | device :: devices =>
      match device with
      | None => ret tt
      | Some handle => level <- sample_device handle ;; on_layout (set_source_level interrupt_id level)
      end ;;; sync_from (interrupt_id + 1) devices
  end.
Definition sync_peripheral_irq_levels {E} : BM E unit :=
  ds <- gets (fun b => peripheral_irq_devices (plic b)) ;; sync_from 0 ds.

Definition is_claim_complete (r : PlicRegister) : bool :=
  match r with ClaimComplete _ => true | _ => false end.
Definition is_pending (r : PlicRegister) : bool := match r with Pending _ => true | _ => false end.

Definition read_impl (t : UInt) (inner_addr : Z) : BM MemError Z :=
  if negb (size_of t =? REGISTER_BYTES) then err MemLoadFault
  else match decode_register inner_addr with
       | None => err MemLoadFault
       | Some register =>
           (if is_claim_complete register then sync_peripheral_irq_levels else ret tt) ;;;
           data <- on_layout (read_register register) ;;
           ret (truncate_from t data)
       end.

Definition write_impl (t : UInt) (inner_addr data : Z) : BM MemError unit :=
  if negb (size_of t =? REGISTER_BYTES) then err MemStoreFault
  else match decode_register inner_addr with
       | None => err MemStoreFault
       | Some register =>
           if is_pending register then err MemStoreFault
           else (if is_claim_complete register then sync_peripheral_irq_levels else ret tt) ;;;
                on_layout (write_register register (truncate_from U32 data))
       end.

Definition set_interrupt_level {E} (interrupt_id : Z) (level : bool) : BM E unit :=
  if negb (is_valid_interrupt_id interrupt_id) then ret tt
  else on_layout (set_source_level interrupt_id level).

Definition register_device {E} (device : nat) (interrupt_id : Z) : BM E unit :=
  assert (is_valid_interrupt_id interrupt_id) ;;;
  on_plic (modify (fun p => set_devices (<[Z.to_nat interrupt_id := Some device]> (peripheral_irq_devices p)) p)).

Definition set_context_irq_line {E} (context_id : Z) (level : bool) : BM E unit :=
  ls <- gets (fun b => riscv_irq_level (plic b)) ;;
  old <- unwrap (ls !! Z.to_nat context_id) ;;
  if decide (old = Some level) then ret tt
  else on_plic (modify (fun p => set_levels (<[Z.to_nat context_id := Some level]> (riscv_irq_level p)) p)) ;;;
       lines <- gets (fun b => riscv_irq_line (plic b)) ;;
       line <- unwrap (lines !! Z.to_nat context_id) ;;
       match line with Some irq_line => on_harts (set_irq irq_line level) | None => ret tt end.

Definition refresh_context_irq_line {E} (context_id : Z) : BM E (option Z) :=
  pending_interrupt <- on_layout (pending_interrupt_to_notify context_id) ;;
  set_context_irq_line context_id (match pending_interrupt with Some _ => true | None => false end) ;;;
  ret pending_interrupt.

Definition update_context_irq_line {E} (context_id : Z) : BM E (option Z) :=
  if negb (is_valid_context_id context_id) then ret None
  else sync_peripheral_irq_levels ;;; refresh_context_irq_line context_id.

Fixpoint refresh_all {E} (context_ids : list Z) : BM E unit :=
  match context_ids with
  | [] => ret tt
  | context_id :: context_ids =>
      (if is_valid_context_id context_id then _ <- refresh_context_irq_line context_id ;; ret tt else ret tt) ;;;
      refresh_all context_ids
  end.
Definition update_context_irq_lines {E} (context_ids : list Z) : BM E unit :=
  sync_peripheral_irq_levels ;;; refresh_all context_ids.

Definition set_irq_line {E} (line : IRQLine) (id : Z) : BM E unit :=
  assert (id <? VIRT_MAX_CONTEXTS) ;;;
  on_plic (modify (fun p => set_lines (<[Z.to_nat id := Some line]> (riscv_irq_line p)) p)) ;;;
  on_plic (modify (fun p => set_levels (<[Z.to_nat id := None]> (riscv_irq_level p)) p)) ;;;
  _ <- refresh_context_irq_line id ;; ret tt.

#[export] Instance PLIC_device : DeviceTrait (Board D T) := {|
  dev_read := dispatch_read read_impl;
  dev_write := dispatch_write write_impl;
  dev_sync := ret tt
|}.
End Device.
