(* ===== verification/PlicSpec.v ===== *)
(** * Correctness of the interrupt controller

    The invariant of the register layout, arbitration between sources, the
    gateway protocol (claim, completion, re-assertion) over any sequence of
    operations, and the lines towards the harts. *)

From stdpp Require Import sorting.
From S2P Require Import Prelude Utils TrapTypes Mmio Device Plic.

(** ** Bit registers *)
Abbreviation id_ok id := (0 <= id < 64).

Definition bit (r : PLICBitReg) (id : Z) : bool := Z.testbit (default 0 (r !! Z.to_nat (id / 32))) (id mod 32).

Definition words_ok (r : PLICBitReg) : Prop := length r = 2%nat /\ Forall (uint 32) r.
Definition reg_ok (r : PLICBitReg) : Prop := words_ok r /\ bit r 0 = false.

Lemma word_at r id : words_ok r -> id_ok id ->
  exists w, r !! Z.to_nat (id / 32) = Some w /\ uint 32 w.
Proof.
  intros [Hl Hw] Hid. assert (Z.to_nat (id / 32) < length r)%nat as Hlt.
  { rewrite Hl. assert (id / 32 < 2) by (apply Z.div_lt_upper_bound; lia).
    assert (0 <= id / 32) by (apply Z.div_pos; lia). lia. }
  destruct (lookup_lt_is_Some_2 r _ Hlt) as [w E]. exists w. split; [done|]. by eapply Forall_lookup_1.
Qed.

Lemma get_bit_run r id : words_ok r -> id_ok id -> get_bit r id = Some (bit r id).
Proof.
  intros Hr Hid. destruct (word_at r id Hr Hid) as (w & E & _).
  unfold get_bit, bit, interrupt_word_and_mask, INTERRUPTS_PER_REGISTER. rewrite E. cbn [mbind option_bind default].
  rewrite (land_bit_eqb 32), negb_involutive by (apply Z.mod_pos_bound; lia). done.
Qed.

(** Two ids are in the same place of a register only when they are equal. *)
Lemma id_split i j : id_ok i -> id_ok j -> Z.to_nat (i / 32) = Z.to_nat (j / 32) -> i mod 32 = j mod 32 -> i = j.
Proof.
  intros Hi Hj Hd Hm. apply Z2Nat.inj in Hd; [|apply Z.div_pos; lia..].
  rewrite (Z.div_mod i 32), (Z.div_mod j 32) by lia. congruence.
Qed.

Lemma bit_insert r i w j : words_ok r -> id_ok i -> id_ok j ->
  bit (<[Z.to_nat (i / 32) := w]> r) j =
  if decide (Z.to_nat (i / 32) = Z.to_nat (j / 32)) then Z.testbit w (j mod 32) else bit r j.
Proof.
  intros Hr Hi Hj. unfold bit. destruct (word_at r i Hr Hi) as (w0 & E & _). case_decide as Hd.
  - rewrite Hd, list_lookup_insert_eq by (rewrite <- Hd; by eapply lookup_lt_Some). done.
  - by rewrite list_lookup_insert_ne.
Qed.

Lemma on_word_run (f : Z -> Z -> Z) (g : bool -> bool) r i : words_ok r -> id_ok i ->
  (forall w k, uint 32 w -> 0 <= k < 32 -> uint 32 (f w (shl 32 1 k))) ->
  (forall w k n, uint 32 w -> 0 <= k < 32 -> 0 <= n < 32 ->
     Z.testbit (f w (shl 32 1 k)) n = if n =? k then g (Z.testbit w n) else Z.testbit w n) ->
  exists r', on_word f r i = Some r' /\ words_ok r' /\
    forall j, id_ok j -> bit r' j = if j =? i then g (bit r j) else bit r j.
Proof.
  intros Hr Hi Hu Hb. destruct (word_at r i Hr Hi) as (w & E & Hw).
  unfold on_word, interrupt_word_and_mask, INTERRUPTS_PER_REGISTER. rewrite E. cbn [mbind option_bind].
  assert (0 <= i mod 32 < 32) by (apply Z.mod_pos_bound; lia).
  eexists. split; [reflexivity|]. destruct Hr as [Hl Hf]. split.
  - split; [by rewrite length_insert|]. apply Forall_insert; [done|by apply Hu].
  - intros j Hj. rewrite bit_insert by done. assert (0 <= j mod 32 < 32) by (apply Z.mod_pos_bound; lia).
    destruct (Z.eqb_spec j i) as [->|Hne]; case_decide as Hd.
    + unfold bit. rewrite E. cbn [default]. rewrite Hb, Z.eqb_refl by done. done.
    + done.
    + rewrite Hb by done. destruct (Z.eqb_spec (j mod 32) (i mod 32)).
      * by destruct Hne; apply id_split.
      * unfold bit. by rewrite <- Hd, E.
    + done.
Qed.

Lemma set_bit_run r i : words_ok r -> id_ok i -> exists r', set_bit r i = Some r' /\ words_ok r' /\
  forall j, id_ok j -> bit r' j = (j =? i) || bit r j.
Proof.
  intros Hr Hi. destruct (on_word_run (fun w m => Z.lor w m) (fun _ => true) r i Hr Hi) as (r' & E & Hr' & Hb).
  - intros w k Hw Hk. apply uint_lor; [lia|done|]. rewrite shl_1 by lia.
    split; [apply Z.pow_nonneg; lia|apply Z.pow_lt_mono_r; lia].
  - intros w k n Hw Hk Hn. rewrite Z.lor_spec, shl_1, Z.pow2_bits_eqb by lia. rewrite (Z.eqb_sym k n).
    destruct (n =? k), (Z.testbit w n); done.
  - exists r'. split; [done|]. split; [done|]. intros j Hj. rewrite Hb by done. by destruct (j =? i).
Qed.

Lemma clear_bit_run r i : words_ok r -> id_ok i -> exists r', clear_bit r i = Some r' /\ words_ok r' /\
  forall j, id_ok j -> bit r' j = negb (j =? i) && bit r j.
Proof.
  intros Hr Hi.
  destruct (on_word_run (fun w m => Z.land w (bnot 32 m)) (fun _ => false) r i Hr Hi) as (r' & E & Hr' & Hb).
  - intros w k Hw Hk. by apply uint_land.
  - intros w k n Hw Hk Hn. rewrite Z.land_spec, bnot_testbit, shl_1, Z.pow2_bits_eqb by lia. rewrite (Z.eqb_sym k n).
    destruct (Z.eqb_spec n k), (Z.testbit w n), (Z.ltb_spec n 32); try lia; done.
  - exists r'. split; [done|]. split; [done|]. intros j Hj. rewrite Hb by done. by destruct (j =? i).
Qed.

Lemma write_word_run r i v : words_ok r -> 0 <= i < 2 -> uint 32 v -> exists r', write_word r i v = Some r' /\ words_ok r' /\
  forall j, id_ok j -> bit r' j = if j / 32 =? i then Z.testbit v (j mod 32) else bit r j.
Proof.
  intros Hr Hi Hv. assert (i = i * 32 / 32) as Hi32 by (rewrite Z.div_mul; lia).
  destruct (word_at r (i * 32) Hr ltac:(lia)) as (w & E & _). rewrite <- Hi32 in E.
  unfold write_word. rewrite E. cbn [mbind option_bind]. eexists. split; [reflexivity|]. split.
  - destruct Hr. split; [by rewrite length_insert|by apply Forall_insert].
  - intros j Hj. rewrite Hi32 at 1. rewrite bit_insert by (done || lia). rewrite <- Hi32.
    assert (0 <= j / 32) by (apply Z.div_pos; lia).
    destruct (Z.eqb_spec (j / 32) i) as [Ed|Ed]; case_decide; try done; lia.
Qed.

(** ** The invariant of the register layout

    Source 0 does not exist, the order is sorted by priority, and a source that
    is claimed is never pending. *)
Record context_ok (c : PLICContext) : Prop := {
  ctx_enable : reg_ok (enable c);
  ctx_threshold : uint 32 (priority_threshold c)
}.

Record layout_ok (s : PLICLayout) : Prop := {
  lo_priority : length (priority s) = 64%nat /\ Forall (uint 32) (priority s);
  lo_pending : reg_ok (pending s);
  lo_source : reg_ok (source_level s);
  lo_contexts : length (contexts s) = 16%nat /\ Forall context_ok (contexts s);
  lo_perm : priority_order s ≡ₚ seqZ 0 64;
  lo_sorted : StronglySorted (before (priority s)) (priority_order s);
  lo_busy : forall id, id ∈ interrupt_sources_busy s -> 0 < id < 64 /\ bit (pending s) id = false
}.

(** A source a context may claim; for a notification its priority must also be
    above the threshold. *)
Record eligible (s : PLICLayout) (c : PLICContext) (apply_threshold : bool) (id : Z) : Prop := {
  el_source : 0 < id < 64;
  el_priority : 0 < prio (priority s) id;
  el_threshold : apply_threshold = true -> priority_threshold c < prio (priority s) id;
  el_free : id ∉ interrupt_sources_busy s;
  el_enabled : bit (enable c) id = true;
  el_pending : bit (pending s) id = true
}.

(** The highest priority wins, ties go to the lowest id. *)
Definition wins (ps : list Z) (P : Z -> Prop) (o : option Z) : Prop :=
  match o with
  | Some id => P id /\ forall j, P j -> before ps id j
  | None => forall j, ~ P j
  end.

Definition the_context (s : PLICLayout) (context_id : Z) : PLICContext :=
  default PLICContext_new (contexts s !! Z.to_nat context_id).

Section LayoutSpec.
Context {E : Type}.
Abbreviation LM := (M PLICLayout E).

Lemma priority_run s id : layout_ok s -> id_ok id ->
  read_priority (E := E) id s = (Ok (prio (priority s) id), s) /\ uint 32 (prio (priority s) id).
Proof.
  intros Hs Hid. destruct (lo_priority s Hs) as [Hl Hf]. unfold read_priority, prio, bind, gets, unwrap.
  destruct (lookup_lt_is_Some_2 (priority s) (Z.to_nat id)) as [p Ep]; [lia|]. rewrite Ep. split; [done|].
  by eapply Forall_lookup_1.
Qed.

Lemma context_run s c : layout_ok s -> 0 <= c < 16 ->
  context_at (E := E) c s = (Ok (the_context s c), s) /\ context_ok (the_context s c) /\
  contexts s !! Z.to_nat c = Some (the_context s c).
Proof.
  intros Hs Hc. destruct (lo_contexts s Hs) as [Hl Hf]. unfold context_at, the_context, bind, gets, unwrap.
  destruct (lookup_lt_is_Some_2 (contexts s) (Z.to_nat c)) as [x Ex]; [lia|]. rewrite Ex. split; [done|].
  split; [|done]. by eapply Forall_lookup_1.
Qed.

Lemma enabled_run s c id : layout_ok s -> 0 <= c < 16 -> id_ok id ->
  is_enabled (E := E) c id s = (Ok (bit (enable (the_context s c)) id), s).
Proof.
  intros Hs Hc Hid. destruct (context_run s c Hs Hc) as (Hr & Hok & _). unfold is_enabled.
  rewrite (bind_Ok _ _ _ _ _ Hr). unfold unwrap. rewrite get_bit_run; [done| |done]. apply Hok.
Qed.

(** The scan of a sorted order finds the winner among it. *)
Lemma scan_run s c th app order : layout_ok s -> 0 <= c < 16 -> th = priority_threshold (the_context s c) ->
  StronglySorted (before (priority s)) order -> Forall (fun id => id_ok id) order ->
  exists o, scan (E := E) c th app order s = (Ok o, s) /\
    wins (priority s) (fun id => id ∈ order /\ eligible s (the_context s c) app id) o.
Proof.
  intros Hs Hc -> Hsort Hids. induction order as [|id order IH].
  { exists None. split; [done|]. by intros j [?%not_elem_of_nil _]. }
  apply StronglySorted_inv in Hsort as [Hsort Hhd]. apply list.Forall_cons in Hids as [Hid Hids].
  destruct (IH Hsort Hids) as (o & Hscan & Hw). clear IH.
  assert (~ eligible s (the_context s c) app id -> wins (priority s)
    (fun j => j ∈ id :: order /\ eligible s (the_context s c) app j) o) as Hskip.
  { intros Hn. destruct o as [best|]; cbn in *.
    - destruct Hw as [[Hin Hel] Hb]. split; [split; [by right|done]|].
      intros j [[->|Hj]%list.elem_of_cons Hej]; [done|by apply Hb].
    - intros j [[->|Hj]%list.elem_of_cons Hej]; [done|by apply (Hw j)]. }
  cbn [scan]. destruct (Z.eqb_spec id 0) as [->|Hn0].
  { exists o. split; [done|]. apply Hskip. intros [? _ _ _ _ _]; lia. }
  destruct (priority_run s id Hs Hid) as [Hpr Hpu]. rewrite (bind_Ok _ _ _ _ _ Hpr).
  destruct (Z.eqb_spec (prio (priority s) id) 0) as [Hp0|Hp0].
  { exists None. split; [done|]. intros j [Hj Hej]. assert (prio (priority s) j <= 0).
    { apply list.elem_of_cons in Hj as [->|Hj]; [lia|]. eapply list.Forall_forall in Hhd; [|exact Hj].
      destruct Hhd; lia. }
    pose proof (el_priority _ _ _ _ Hej). lia. }
  destruct (app && (prio (priority s) id <=? priority_threshold (the_context s c))) eqn:Et.
  { exists o. split; [done|]. apply Hskip. intros Hej. apply andb_true_iff in Et as [-> Et].
    pose proof (el_threshold _ _ _ _ Hej eq_refl). lia. }
  unfold bind at 1, gets at 1. case_bool_decide as Hb.
  { exists o. split; [done|]. apply Hskip. intros Hej. by apply (el_free _ _ _ _ Hej). }
  rewrite (bind_Ok _ _ _ _ _ (enabled_run s c id Hs Hc Hid)).
  destruct (bit (enable (the_context s c)) id) eqn:Ee.
  2: { exists o. split; [done|]. apply Hskip. intros Hej. by rewrite (el_enabled _ _ _ _ Hej) in Ee. }
  unfold bind, gets, unwrap. rewrite get_bit_run by (done || apply (lo_pending s Hs)).
  destruct (bit (pending s) id) eqn:Ep.
  2: { exists o. split; [done|]. apply Hskip. intros Hej. by rewrite (el_pending _ _ _ _ Hej) in Ep. }
  exists (Some id). split; [done|]. split.
  - split; [by left|]. split; try done; [lia|destruct Hpu; lia|]. intros ->. cbn in Et. lia.
  - intros j [[->|Hj]%list.elem_of_cons Hej]; [right; lia|]. by eapply list.Forall_forall in Hhd.
Qed.

Lemma find_run s c app : layout_ok s -> 0 <= c < 16 ->
  exists o, find_pending_interrupt (E := E) c app s = (Ok o, s) /\
    wins (priority s) (eligible s (the_context s c) app) o.
Proof.
  intros Hs Hc. destruct (context_run s c Hs Hc) as (Hr & Hok & _). unfold find_pending_interrupt.
  rewrite (bind_Ok _ _ _ _ _ Hr). unfold bind, gets.
  assert (forall j, j ∈ priority_order s <-> id_ok j) as Hin.
  { intros j. rewrite (lo_perm s Hs), elem_of_seqZ. lia. }
  destruct (scan_run s c _ app (priority_order s) Hs Hc eq_refl (lo_sorted s Hs)) as (o & Hscan & Hw).
  { apply list.Forall_forall. intros j. apply Hin. }
  exists o. split; [done|]. destruct o as [id|]; cbn in *.
  - destruct Hw as [[_ Hel] Hb]. split; [done|]. intros j Hj. apply Hb. split; [|done].
    apply Hin. pose proof (el_source _ _ _ _ Hj). lia.
  - intros j Hj. apply (Hw j). split; [|done]. apply Hin. pose proof (el_source _ _ _ _ Hj). lia.
Qed.
End LayoutSpec.

(** ** Every operation of the layout keeps the invariant and does not panic *)
Definition same_config (s s' : PLICLayout) : Prop :=
  priority s' = priority s /\ contexts s' = contexts s /\ priority_order s' = priority_order s.

(** What the gateway of a source does with a sampled level. *)
Record gateway (s s' : PLICLayout) (id : Z) (level : bool) : Prop := {
  gw_config : same_config s s';
  gw_busy : interrupt_sources_busy s' = interrupt_sources_busy s;
  gw_source : forall j, id_ok j -> bit (source_level s') j = if j =? id then level else bit (source_level s) j;
  gw_pending : forall j, id_ok j -> bit (pending s') j =
    bit (pending s) j || ((j =? id) && level && negb (bool_decide (id ∈ interrupt_sources_busy s)))
}.

Lemma reg_ok_after r r' i : reg_ok r -> words_ok r' -> 0 < i -> (bit r' 0 = false \/ bit r' 0 = bit r 0) -> reg_ok r'.
Proof. intros [_ H0] Hw Hi Hb. split; [done|]. destruct Hb; congruence. Qed.

Section LayoutOps.
Context {E : Type}.
Abbreviation LM := (M PLICLayout E).

Lemma pending_set_run s id : layout_ok s -> 0 < id < 64 -> id ∉ interrupt_sources_busy s ->
  exists p, pending_set_bit (E := E) id s = (Ok tt, set_pending p s) /\ layout_ok (set_pending p s) /\
    forall j, id_ok j -> bit p j = (j =? id) || bit (pending s) j.
Proof.
  intros Hs Hid Hb. destruct (lo_pending s Hs) as [Hw H0].
  destruct (set_bit_run (pending s) id Hw ltac:(lia)) as (p & Ep & Hpw & Hp).
  exists p. unfold pending_set_bit, bind, gets, unwrap, modify. rewrite Ep. split; [done|]. split; [|done].
  destruct Hs. split; cbn; try done.
  - split; [done|]. rewrite Hp, H0 by lia. by destruct (Z.eqb_spec 0 id); [lia|].
  - intros j Hj. destruct (lo_busy0 j Hj) as [? Hf]. split; [done|]. rewrite Hp, Hf by lia.
    destruct (Z.eqb_spec j id) as [->|]; [by destruct Hb|done].
Qed.

Lemma set_source_level_run s id level : layout_ok s -> 0 < id < 64 ->
  exists s', set_source_level (E := E) id level s = (Ok tt, s') /\ layout_ok s' /\ gateway s s' id level.
Proof.
  intros Hs Hid. destruct (lo_source s Hs) as [Hw H0]. unfold set_source_level, bind at 1, gets at 1.
  destruct level.
  - destruct (set_bit_run (source_level s) id Hw ltac:(lia)) as (r & Er & Hrw & Hr).
    assert (layout_ok (set_source r s)) as Hs1.
    { destruct Hs. split; cbn; try done. split; [done|]. rewrite Hr, H0 by lia. by destruct (Z.eqb_spec 0 id); [lia|]. }
    unfold unwrap, bind, gets, modify. rewrite Er. cbn [pending interrupt_sources_busy set_source].
    rewrite get_bit_run by (lia || apply (lo_pending s Hs)).
    assert (forall j, id_ok j -> bit r j = if j =? id then true else bit (source_level s) j) as Hr'.
    { intros j Hj. rewrite Hr by done. by destruct (j =? id). }
    case_bool_decide as Hb; [|destruct (bit (pending s) id) eqn:Ep]; cbn [negb andb].
    3: { destruct (pending_set_run _ id Hs1 Hid Hb) as (p & Hp & Hs2 & Hpb).
         exists (set_pending p (set_source r s)). split; [exact Hp|]. split; [done|]. split; cbn; try done.
         intros j Hj. rewrite Hpb by done. rewrite bool_decide_eq_false_2 by done. cbn.
         destruct (j =? id), (bit (pending s) j); done. }
    1,2: exists (set_source r s); split; [by rewrite ?andb_false_r|]; split; [done|]; split; cbn; try done;
         intros j Hj.
    + rewrite bool_decide_eq_true_2 by done. by rewrite andb_false_r, orb_false_r.
    + destruct (Z.eqb_spec j id) as [->|]; [by rewrite Ep|by rewrite orb_false_r].
  - destruct (clear_bit_run (source_level s) id Hw ltac:(lia)) as (r & Er & Hrw & Hr).
    unfold unwrap, bind, modify. rewrite Er. exists (set_source r s). split; [done|]. split.
    + destruct Hs. split; cbn; try done. split; [done|]. rewrite Hr, H0 by lia. by rewrite andb_false_r.
    + split; cbn; try done; intros j Hj; [rewrite Hr by done; by destruct (j =? id)|].
      by rewrite andb_false_r, orb_false_r.
Qed.

(** A claim takes the winner out of the pending register and marks it. *)
Lemma claim_run s c : layout_ok s -> 0 <= c < 16 ->
  exists o s', read_claim (E := E) c s = (Ok (default 0 o), s') /\ layout_ok s' /\
    wins (priority s) (eligible s (the_context s c) false) o /\ same_config s s' /\
    source_level s' = source_level s /\
    interrupt_sources_busy s' = match o with Some id => {[ id ]} | None => ∅ end ∪ interrupt_sources_busy s /\
    forall j, id_ok j -> bit (pending s') j = bit (pending s) j && negb (bool_decide (o = Some j)).
Proof.
  intros Hs Hc. destruct (find_run (E := E) s c false Hs Hc) as (o & Hf & Hw). exists o.
  unfold read_claim. rewrite (bind_Ok _ _ _ _ _ Hf). destruct o as [id|].
  - pose proof (el_source _ _ _ _ (proj1 Hw)) as Hid. destruct (lo_pending s Hs) as [Hpw Hp0].
    destruct (clear_bit_run (pending s) id Hpw ltac:(lia)) as (p & Ep & Hpw' & Hp).
    exists (set_busy ({[ id ]} ∪ interrupt_sources_busy s) (set_pending p s)).
    unfold bind, gets, unwrap, modify, take_bit. rewrite get_bit_run by (done || lia). cbn [mbind option_bind]. rewrite Ep.
    cbn [mbind option_bind snd]. split; [done|]. split.
    { destruct Hs. split; cbn; try done.
      - split; [done|]. rewrite Hp, Hp0 by lia. by rewrite andb_false_r.
      - intros j. rewrite elem_of_union, elem_of_singleton. intros [->|Hj].
        + split; [done|]. rewrite Hp by lia. by rewrite Z.eqb_refl.
        + destruct (lo_busy0 j Hj) as [? Hf']. split; [done|]. rewrite Hp, Hf' by lia. by rewrite andb_false_r. }
    split; [done|]. split; [done|]. split; [done|]. split; [done|]. intros j Hj. cbn. rewrite Hp by done.
    destruct (Z.eqb_spec j id) as [->|Hne];
      [rewrite (bool_decide_eq_true_2 (Some id = Some id)) by done
      |rewrite (bool_decide_eq_false_2 (Some id = Some j)) by congruence]; by rewrite andb_comm.
  - exists s. cbn [default]. split; [done|]. split; [done|]. split; [done|]. split; [done|]. split; [done|].
    split; [by rewrite (left_id_L ∅ (∪))|]. intros j Hj. by rewrite andb_true_r.
Qed.

(** Completion of a claimed source by a context that enables it frees the
    source, and makes it pending again when its line is still high; any other
    completion is ignored. *)
Lemma complete_run s c id : layout_ok s -> 0 <= c < 16 -> 0 <= id ->
  let accepted := is_valid_interrupt_id id && bit (enable (the_context s c)) id in
  exists s', write_complete (E := E) c id s = (Ok tt, s') /\ layout_ok s' /\ same_config s s' /\
    source_level s' = source_level s /\
    interrupt_sources_busy s' = (if accepted then interrupt_sources_busy s ∖ {[ id ]} else interrupt_sources_busy s) /\
    forall j, id_ok j -> bit (pending s') j = bit (pending s) j ||
      (accepted && (j =? id) && bool_decide (id ∈ interrupt_sources_busy s) && bit (source_level s) id).
Proof.
  intros Hs Hc Hid0 accepted. unfold write_complete. subst accepted.
  destruct (is_valid_interrupt_id id) eqn:Ev; cbn [negb andb].
  2: { exists s. repeat (split; [done|]). intros. by rewrite orb_false_r. }
  assert (0 < id < 64) as Hid by (unfold is_valid_interrupt_id, VIRT_MAX_INTERRUPTS in Ev; lia).
  rewrite (bind_Ok _ _ _ _ _ (enabled_run s c id Hs Hc ltac:(lia))).
  destruct (bit (enable (the_context s c)) id) eqn:Ee; cbn [negb andb].
  2: { exists s. repeat (split; [done|]). intros. by rewrite orb_false_r. }
  set (s1 := set_busy (interrupt_sources_busy s ∖ {[ id ]}) s).
  assert (layout_ok s1) as Hs1.
  { destruct Hs. split; cbn; try done. intros j [Hj _]%elem_of_difference. by apply lo_busy0. }
  unfold bind at 1, gets at 1. unfold bind at 1, modify at 1. fold s1.
  case_bool_decide as Hb.
  2: { exists s1. repeat (split; [done|]). intros. by rewrite andb_false_r, orb_false_r. }
  unfold bind, gets, unwrap. change (source_level s1) with (source_level s).
  rewrite get_bit_run by (lia || apply (lo_source s Hs)). destruct (bit (source_level s) id) eqn:El.
  2: { exists s1. repeat (split; [done|]). intros. by rewrite !andb_false_r, orb_false_r. }
  destruct (pending_set_run s1 id Hs1 Hid) as (p & Hp & Hs2 & Hpb); [set_solver|].
  exists (set_pending p s1). split; [exact Hp|]. repeat (split; [done|]). intros j Hj. cbn [pending set_pending].
  rewrite Hpb by done. change (pending s1) with (pending s). destruct (j =? id), (bit (pending s) j); done.
Qed.
End LayoutOps.

(** ** The register map *)
Definition valid_register (r : PlicRegister) : Prop :=
  match r with
  | Priority id => 0 < id < 64
  | Pending w => 0 <= w < 2
  | Enable c w => 0 <= c < 16 /\ 0 <= w < 2
  | Threshold c | ClaimComplete c => 0 <= c < 16
  end.

(** The byte offset the PLIC specification gives a register. *)
Definition register_offset (r : PlicRegister) : Z :=
  match r with
  | Priority id => 4 * id
  | Pending w => 0x1000 + 4 * w
  | Enable c w => 0x2000 + 0x80 * c + 4 * w
  | Threshold c => 0x200000 + 0x1000 * c
  | ClaimComplete c => 0x200000 + 0x1000 * c + 4
  end.

Ltac unfold_map := unfold is_register_aligned, is_valid_interrupt_id, REGISTER_BYTES, PRIORITY_OFFSET, PENDING_BIT_OFFSET,
  CONTEXT_ENABLE_BIT_OFFSET, CONTEXT_ENABLE_BIT_SIZE, CONTEXT_CONFIG_OFFSET, CONTEXT_CONFIG_SIZE, PLIC_SIZE,
  VIRT_MAX_INTERRUPTS, VIRT_MAX_CONTEXTS, CLAIM_COMPLETE_REGISTER_INDEX, wrap in *;
  change PLIC_INTERRUPT_WORDS with 2 in *.

Lemma decode_valid addr r : 0 <= addr -> decode_register addr = Some r -> valid_register r /\ addr = register_offset r.
Proof.
  intros Ha. unfold decode_register. unfold_map.
  repeat case_match; intros [=]; subst; cbn; Z.to_euclidean_division_equations; lia.
Qed.

Lemma decode_offset r : valid_register r -> decode_register (register_offset r) = Some r.
Proof.
  intros Hr. unfold decode_register. unfold_map. destruct r; cbn in *;
    (repeat case_match; try (f_equal; f_equal); Z.to_euclidean_division_equations; lia).
Qed.

(** the register map is the one of the PLIC specification: an offset decodes
    to a register exactly when it is that register's offset, so distinct
    registers do not share an offset and every other offset is refused. *)
Theorem plic_register_map (addr : Z) (r : PlicRegister) : 0 <= addr ->
  decode_register addr = Some r <-> valid_register r /\ addr = register_offset r.
Proof.
  intros Ha. split; [by apply decode_valid|]. intros [Hr ->]. by apply decode_offset.
Qed.

Lemma plic_register_map_witness :
  decode_register 0x201004 = Some (ClaimComplete 1) /\ (valid_register (ClaimComplete 1) /\ 0x201004 = register_offset (ClaimComplete 1)).
Proof.
  split; [reflexivity|]. apply (plic_register_map 0x201004 (ClaimComplete 1)); [lia|reflexivity].
Defined.

(** ** Register accesses keep the layout *)
Section Registers.
Context {E : Type}.
Abbreviation LM := (M PLICLayout E).

Lemma sorted_order s : layout_ok s -> forall ps, length ps = 64%nat ->
  merge_sort (before ps) (priority_order s) ≡ₚ seqZ 0 64 /\
  StronglySorted (before ps) (merge_sort (before ps) (priority_order s)).
Proof.
  intros Hs ps Hl. split; [rewrite merge_sort_Permutation; apply (lo_perm s Hs)|]. apply (StronglySorted_merge_sort (before ps)).
Qed.

Lemma write_priority_run s id v : layout_ok s -> 0 < id < 64 -> uint 32 v ->
  exists s', write_priority (E := E) id v s = (Ok tt, s') /\ layout_ok s' /\
    pending s' = pending s /\ source_level s' = source_level s /\ contexts s' = contexts s /\
    interrupt_sources_busy s' = interrupt_sources_busy s /\
    forall j, id_ok j -> prio (priority s') j = if j =? id then v else prio (priority s) j.
Proof.
  intros Hs Hid Hv. destruct (priority_run (E := E) s id Hs ltac:(lia)) as [Hr _].
  destruct (lo_priority s Hs) as [Hl Hf]. unfold write_priority. rewrite (bind_Ok _ _ _ _ _ Hr).
  destruct (Z.eqb_spec v (prio (priority s) id)) as [->|Hne].
  { exists s. repeat (split; [done|]). intros j Hj. by destruct (Z.eqb_spec j id) as [->|]. }
  set (ps := <[Z.to_nat id := v]> (priority s)).
  exists (set_order (merge_sort (before ps) (priority_order s)) (set_priority_array ps s)).
  assert (length ps = 64%nat) as Hlp by (by unfold ps; rewrite length_insert).
  split; [done|]. destruct (sorted_order s Hs ps Hlp) as [Hperm Hsort]. split.
  - destruct Hs. split; cbn; try done. split; [done|]. unfold ps. by apply Forall_insert.
  - repeat (split; [done|]). intros j Hj. cbn. unfold prio, ps. destruct (Z.eqb_spec j id) as [->|].
    + rewrite list_lookup_insert_eq by lia. done.
    + rewrite list_lookup_insert_ne by lia. done.
Qed.

Lemma put_context_ok s c x : layout_ok s -> 0 <= c < 16 -> context_ok x ->
  layout_ok (set_contexts (<[Z.to_nat c := x]> (contexts s)) s).
Proof.
  intros Hs Hc Hx. destruct Hs as [? ? ? [Hl Hf] ? ? ?]. split; cbn; try done.
  split; [by rewrite length_insert|by apply Forall_insert].
Qed.

(** What a write to a register that is not a claim register leaves alone. *)
Definition same_gateways (s s' : PLICLayout) : Prop :=
  pending s' = pending s /\ source_level s' = source_level s /\ interrupt_sources_busy s' = interrupt_sources_busy s.

Lemma write_enable_run s c w v : layout_ok s -> 0 <= c < 16 -> 0 <= w < 2 -> uint 32 v ->
  exists s', write_enable_word (E := E) c w v s = (Ok tt, s') /\ layout_ok s' /\ same_gateways s s'.
Proof.
  intros Hs Hc Hw Hv. destruct (context_run (E := E) s c Hs Hc) as (Hr & [[Hew He0] Hth] & _).
  unfold write_enable_word. set (v' := if w =? source_zero_word_index then _ else v).
  assert (uint 32 v') as Hv' by (unfold v'; case_match; [by apply uint_land|done]).
  rewrite (bind_Ok _ _ _ _ _ Hr). destruct (write_word_run _ w v' Hew Hw Hv') as (e & Ee & Hew' & Hb).
  unfold bind, unwrap, put_context, modify. rewrite Ee. eexists. split; [reflexivity|]. split; [|done].
  apply put_context_ok; [done|done|]. split; cbn; [|done]. split; [done|]. rewrite Hb by lia.
  change (0 / 32) with 0. change (0 mod 32) with 0. destruct (Z.eqb_spec 0 w) as [<-|]; [|done].
  unfold v'. change (source_zero_word_index) with 0. rewrite Z.eqb_refl, Z.land_spec.
  change (Z.testbit (bnot 32 source_zero_bit_mask) 0) with false. apply andb_false_r.
Qed.

Lemma write_threshold_run s c v : layout_ok s -> 0 <= c < 16 -> uint 32 v ->
  exists s', write_priority_threshold (E := E) c v s = (Ok tt, s') /\ layout_ok s' /\ same_gateways s s'.
Proof.
  intros Hs Hc Hv. destruct (context_run (E := E) s c Hs Hc) as (Hr & Hok & _).
  unfold write_priority_threshold. rewrite (bind_Ok _ _ _ _ _ Hr). eexists. split; [reflexivity|]. split; [|done].
  apply put_context_ok; [done|done|]. split; [apply Hok|done].
Qed.

(** Reading a register other than a claim register changes nothing. *)
Lemma read_plain_register s r : layout_ok s -> valid_register r -> is_claim_complete r = false ->
  exists v, read_register (E := E) r s = (Ok v, s) /\ uint 32 v.
Proof.
  intros Hs Hr Hc. destruct r as [id|w|c w|c|c]; cbn in *; [| | | |done].
  - destruct (priority_run (E := E) s id Hs ltac:(lia)) as [Hp Hu]. by eexists.
  - destruct (word_at (pending s) (w * 32) (proj1 (lo_pending s Hs)) ltac:(lia)) as (v & Ev & Hv).
    rewrite Z.div_mul in Ev by lia. exists v. unfold read_pending_word, bind, gets, unwrap, read_word. by rewrite Ev.
  - destruct Hr as [Hc' Hw]. destruct (context_run (E := E) s c Hs Hc') as (Hx & [[Hew _] _] & _).
    destruct (word_at _ (w * 32) Hew ltac:(lia)) as (v & Ev & Hv). rewrite Z.div_mul in Ev by lia.
    exists v. unfold read_enable_word. rewrite (bind_Ok _ _ _ _ _ Hx). unfold unwrap, read_word. by rewrite Ev.
  - destruct (context_run (E := E) s c Hs Hr) as (Hx & [_ Hth] & _). eexists.
    unfold read_priority_threshold. rewrite (bind_Ok _ _ _ _ _ Hx). split; [reflexivity|done].
Qed.
End Registers.

(** ** What the controller expects of its neighbours

    Sampling a device twice gives the same level.  A handler accepts the
    interrupts it supports, keeps its invariant, and a level is visible at the
    pin of the interrupt and nowhere else. *)
Class StableDevice (D : Type) `{PlicDevice D} : Prop :=
  level_stable : forall d, fst (irq_level (snd (irq_level d))) = fst (irq_level d).

Class LawfulHandler (T : Type) `{RiscvIRQHandler T} (I : T -> Prop) (supported : Interrupt -> Prop)
  (pin : Interrupt -> T -> bool) : Prop :=
  handler_law : forall i level t, supported i -> I t ->
    exists t', irq_handler i level t = Some t' /\ I t' /\ pin i t' = level /\
      forall j, supported j -> j <> i -> pin j t' = pin j t.

Section Board.
Context {D T : Type} `{StableDevice D} {I : T -> Prop} {supported : Interrupt -> Prop}
  {pin : Interrupt -> T -> bool} `{LawfulHandler T I supported pin}.
Context {E : Type}.
Abbreviation BM := (M (Board D T) E).
Abbreviation lay b := (layout (plic b)).

Definition line_of (b : Board D T) (c : Z) : option IRQLine :=
  mjoin (riscv_irq_line (plic b) !! Z.to_nat c).
Definition level_of (b : Board D T) (c : Z) : option bool := mjoin (riscv_irq_level (plic b) !! Z.to_nat c).
Definition device_of (b : Board D T) (id : Z) : option nat :=
  mjoin (peripheral_irq_devices (plic b) !! Z.to_nat id).
Definition device_level (b : Board D T) (h : nat) : bool :=
  match arena b !! h with Some d => fst (irq_level d) | None => false end.
Definition line_pin (b : Board D T) (l : IRQLine) : bool :=
  match harts b !! line_target l with Some t => pin (interrupt_nr l) t | None => false end.

(** The state of a board between operations.  Each line has its own pin, and
    a pin shows the level the controller last drove it to. *)
Record board_ok (b : Board D T) : Prop := {
  bo_layout : layout_ok (lay b);
  bo_sizes : length (riscv_irq_line (plic b)) = 16%nat /\ length (riscv_irq_level (plic b)) = 16%nat /\
             length (peripheral_irq_devices (plic b)) = 64%nat;
  bo_devices : forall id h, 0 <= id -> device_of b id = Some h -> id <> 0 /\ (h < length (arena b))%nat;
  bo_harts : Forall I (harts b);
  bo_lines : forall c l, 0 <= c -> line_of b c = Some l ->
    supported (interrupt_nr l) /\ (line_target l < length (harts b))%nat;
  bo_distinct : forall c c' l, 0 <= c -> 0 <= c' -> line_of b c = Some l -> line_of b c' = Some l -> c = c';
  bo_driven : forall c l v, 0 <= c -> line_of b c = Some l -> level_of b c = Some v -> line_pin b l = v
}.

(** The controller as the devices and lines see it. *)
Definition same_wiring (b b' : Board D T) : Prop :=
  riscv_irq_line (plic b') = riscv_irq_line (plic b) /\ peripheral_irq_devices (plic b') = peripheral_irq_devices (plic b).

Lemma on_layout_run {A} (m : M PLICLayout E A) (b : Board D T) r l :
  m (lay b) = (r, l) -> on_layout m b = (r, Build_Board (set_layout l (plic b)) (arena b) (harts b)).
Proof. intros Hm. unfold on_layout, on_plic, zoom. by rewrite Hm. Qed.

Lemma board_set_layout (b : Board D T) l : board_ok b -> layout_ok l ->
  board_ok (Build_Board (set_layout l (plic b)) (arena b) (harts b)).
Proof. intros [] Hl. by split. Qed.

Lemma sample_run (b : Board D T) h : board_ok b -> (h < length (arena b))%nat ->
  exists b', sample_device (E := E) h b = (Ok (device_level b h), b') /\ board_ok b' /\ plic b' = plic b /\
    harts b' = harts b /\ forall h', device_level b' h' = device_level b h'.
Proof.
  intros Hb Hh. destruct (lookup_lt_is_Some_2 _ _ Hh) as [d Ed].
  unfold sample_device, device_level. rewrite Ed. destruct (irq_level d) as [v d'] eqn:Ev.
  eexists. split; [reflexivity|]. split; [|split; [done|split; [done|]]].
  - destruct Hb. split; try done. intros id h' Hid Hd. cbn [arena]. rewrite length_insert. by apply bo_devices0.
  - intros h'. cbn [arena]. destruct (decide (h = h')) as [<-|Hne].
    + rewrite list_lookup_insert_eq, Ed by done. pose proof (level_stable d) as Hst. rewrite Ev in Hst. cbn in Hst.
      rewrite Hst. by rewrite Ev.
    + by rewrite list_lookup_insert_ne.
Qed.

(** What sampling the devices of the sources [P] does to the gateways. *)
Record sampled (b b' : Board D T) (P : Z -> Prop) : Prop := {
  sa_config : same_config (lay b) (lay b');
  sa_busy : interrupt_sources_busy (lay b') = interrupt_sources_busy (lay b);
  sa_wiring : same_wiring b b';
  sa_levels : riscv_irq_level (plic b') = riscv_irq_level (plic b);
  sa_harts : harts b' = harts b;
  sa_device : forall h, device_level b' h = device_level b h;
  sa_seen : forall id h, id_ok id -> P id -> device_of b id = Some h ->
    bit (source_level (lay b')) id = device_level b h /\
    bit (pending (lay b')) id = bit (pending (lay b)) id ||
      (device_level b h && negb (bool_decide (id ∈ interrupt_sources_busy (lay b))));
  sa_other : forall id, id_ok id -> (~ P id \/ device_of b id = None) ->
    bit (source_level (lay b')) id = bit (source_level (lay b)) id /\ bit (pending (lay b')) id = bit (pending (lay b)) id
}.

Lemma sync_one (b : Board D T) id o : board_ok b -> id_ok id -> device_of b id = o ->
  exists b', match o with
    | None => ret tt
    | Some h => level <- sample_device h ;; on_layout (set_source_level id level)
    end b = (Ok (E := E) tt, b') /\ board_ok b' /\ sampled b b' (fun j => j = id).
Proof.
  intros Hb Hid Ho. destruct o as [h|].
  2: { exists b. split; [done|]. split; [done|]. split; try done. intros j h _ ->. congruence. }
  destruct (bo_devices b Hb id h ltac:(lia) Ho) as [Hid0 Hh].
  destruct (sample_run b h Hb Hh) as (b1 & Hr & Hb1 & Hp1 & Hh1 & Hd1).
  rewrite (bind_Ok _ _ _ _ _ Hr).
  destruct (set_source_level_run (E := E) (lay b1) id (device_level b h) (bo_layout b1 Hb1) ltac:(lia))
    as (l & Hl & Hlok & Hg). rewrite (on_layout_run _ _ _ _ Hl).
  eexists. split; [reflexivity|]. split; [by apply board_set_layout|].
  rewrite Hp1 in Hg. destruct Hg as [Hc Hbu Hso Hpe]. split; cbn; try done; try (by rewrite Hp1).
  - intros j h' Hj -> Hjh. assert (h' = h) as -> by congruence. rewrite Hso, Hpe, !Z.eqb_refl by done.
    done.
  - intros j Hj Hne. destruct (Z.eqb_spec j id) as [->|Hji]; [destruct Hne; [done|congruence]|].
    rewrite Hso, Hpe by done. destruct (Z.eqb_spec j id); [done|]. by rewrite orb_false_r.
Qed.

Lemma sampled_seq (b b1 b2 : Board D T) id : sampled b b1 (fun j => j = id) -> sampled b1 b2 (fun j => id + 1 <= j) ->
  sampled b b2 (fun j => id <= j).
Proof.
  intros [(Hp1 & Hc1 & Ho1) Hbu1 [Hl1 Hd1] Hv1 Hh1 Hdl1 Hs1 Hn1] [(Hp2 & Hc2 & Ho2) Hbu2 [Hl2 Hd2] Hv2 Hh2 Hdl2 Hs2 Hn2].
  assert (forall j, device_of b1 j = device_of b j) as Hdev by (intros j; unfold device_of; by rewrite Hd1).
  split; unfold same_config, same_wiring; try (by intuition congruence).
  - intros j h Hj Hge Hd. destruct (decide (j = id)) as [->|Hne].
    + destruct (Hn2 id Hj ltac:(left; lia)) as [-> ->]. by apply Hs1.
    + destruct (Hs2 j h Hj ltac:(lia) ltac:(by rewrite Hdev)) as [-> ->].
      destruct (Hn1 j Hj ltac:(by left)) as [_ ->]. by rewrite Hdl1, Hbu1.
  - intros j Hj Hne. destruct (Hn2 j Hj) as [-> ->]; [destruct Hne; [left; lia|right; by rewrite Hdev]|].
    apply Hn1; [done|]. destruct Hne; [left; lia|by right].
Qed.

Lemma sync_from_run ds : forall (b : Board D T) id, board_ok b -> 0 <= id ->
  ds = drop (Z.to_nat id) (peripheral_irq_devices (plic b)) ->
  exists b', sync_from (E := E) id ds b = (Ok tt, b') /\ board_ok b' /\ sampled b b' (fun j => id <= j).
Proof.
  induction ds as [|o ds IH]; intros b id Hb Hid Hds; cbn [sync_from].
  - exists b. split; [done|]. split; [done|]. split; try done. intros j h Hj Hge Hd.
    unfold device_of in Hd. rewrite lookup_ge_None_2 in Hd; [done|].
    pose proof (f_equal length Hds) as Hlen. cbn in Hlen. rewrite length_drop in Hlen. lia.
  - pose proof (f_equal (fun l => l !! 0%nat) Hds) as Ho. cbn in Ho. rewrite lookup_drop, Nat.add_0_r in Ho.
    assert (id_ok id) as Hidok.
    { destruct (bo_sizes b Hb) as (_ & _ & Hl). symmetry in Ho. apply lookup_lt_Some in Ho. lia. }
    assert (device_of b id = o) as Hdo by (unfold device_of; by rewrite <- Ho).
    destruct (sync_one b id o Hb Hidok Hdo) as (b1 & Hr & Hb1 & Hs1). rewrite (bind_Ok _ _ _ _ _ Hr).
    destruct (IH b1 (id + 1) Hb1 ltac:(lia)) as (b2 & Hr2 & Hb2 & Hs2).
    { destruct (sa_wiring _ _ _ Hs1) as [_ ->]. rewrite Z2Nat.inj_add by lia. change (Z.to_nat 1) with 1%nat.
      by rewrite <- drop_drop, <- Hds. }
    exists b2. split; [done|]. split; [done|]. by eapply sampled_seq.
Qed.

Lemma sync_run (b : Board D T) : board_ok b ->
  exists b', sync_peripheral_irq_levels (E := E) b = (Ok tt, b') /\ board_ok b' /\ sampled b b' (fun j => 0 <= j).
Proof. intros Hb. by apply (sync_from_run _ b 0). Qed.

(** The line of a context is driven to [v]: the record of levels, then the pin. *)
Definition record_level (c : Z) (v : bool) (b : Board D T) : Board D T :=
  Build_Board (set_levels (<[Z.to_nat c := Some v]> (riscv_irq_level (plic b))) (plic b)) (arena b) (harts b).

Lemma level_record (b : Board D T) c v c' : board_ok b -> 0 <= c < 16 -> 0 <= c' ->
  level_of (record_level c v b) c' = if decide (c' = c) then Some v else level_of b c'.
Proof.
  intros Hb Hc Hc'. destruct (bo_sizes b Hb) as (_ & Hl & _). unfold level_of, record_level. cbn. case_decide as Hd.
  - subst c'. by rewrite list_lookup_insert_eq by lia.
  - by rewrite list_lookup_insert_ne by lia.
Qed.

Lemma set_line_eq (b : Board D T) c v : board_ok b -> 0 <= c < 16 -> set_context_irq_line (E := E) c v b =
  if decide (level_of b c = Some v) then (Ok tt, b)
  else match line_of b c with Some l => on_harts (set_irq l v) (record_level c v b) | None => (Ok tt, record_level c v b) end.
Proof.
  intros Hb Hc. destruct (bo_sizes b Hb) as (Hll & Hlv & _).
  destruct (lookup_lt_is_Some_2 (riscv_irq_level (plic b)) (Z.to_nat c)) as [old Eold]; [lia|].
  destruct (lookup_lt_is_Some_2 (riscv_irq_line (plic b)) (Z.to_nat c)) as [line Eline]; [lia|].
  unfold set_context_irq_line, level_of, line_of, bind, gets, unwrap, on_plic, zoom, modify. rewrite Eold, Eline.
  cbn. destruct (decide (old = Some v)); [done|]. rewrite Eline. by destruct line.
Qed.

(** A board on which only the recorded level of [c], and the pin of its line,
    have become [v] is as good as before. *)
Lemma drive_ok (b : Board D T) c v ts : board_ok b -> 0 <= c < 16 -> Forall I ts -> length ts = length (harts b) ->
  let b2 := Build_Board (plic (record_level c v b)) (arena b) ts in
  (forall c' l, 0 <= c' -> line_of b c' = Some l -> line_pin b2 l = if decide (c' = c) then v else line_pin b l) ->
  board_ok b2.
Proof.
  intros Hb Hc HI Hlen b2 Hpins. pose proof (fun c' => level_record b c v c' Hb Hc) as Hlev.
  destruct Hb. split; try done; cbn.
  - by rewrite length_insert.
  - intros c' l Hc' Hl. rewrite Hlen. by apply (bo_lines0 c').
  - intros c' l v' Hc' Hl Hv'. change (line_of b2 c') with (line_of b c') in Hl.
    change (level_of b2 c') with (level_of (record_level c v b) c') in Hv'. rewrite Hlev in Hv' by done.
    rewrite (Hpins c' l) by done. case_decide; [congruence|]. by apply (bo_driven0 c').
Qed.

Lemma pins_after_drive (b : Board D T) c l t t' v : board_ok b -> 0 <= c -> line_of b c = Some l ->
  harts b !! line_target l = Some t -> pin (interrupt_nr l) t' = v ->
  (forall j, supported j -> j <> interrupt_nr l -> pin j t' = pin j t) ->
  forall p c' l', 0 <= c' -> line_of b c' = Some l' ->
  line_pin (Build_Board p (arena b) (<[line_target l := t']> (harts b))) l' = if decide (c' = c) then v else line_pin b l'.
Proof.
  intros Hb Hc Hl Et Hpin Hoth p c' l' Hc' Hl'. pose proof (lookup_lt_Some _ _ _ Et). unfold line_pin. cbn. case_decide as Hd.
  - subst c'. assert (l' = l) as -> by congruence. by rewrite list_lookup_insert_eq.
  - destruct (decide (line_target l = line_target l')) as [Htt|Htt]; [|by rewrite list_lookup_insert_ne].
    rewrite <- Htt, list_lookup_insert_eq, Et by done. apply Hoth; [by apply (bo_lines b Hb c')|].
    intros Hi. apply Hd, (bo_distinct b Hb c' c l'); [done|done|done|].
    destruct l as [tg n], l' as [tg' n']. cbn in *. by subst.
Qed.

Lemma set_line_run (b : Board D T) c v : board_ok b -> 0 <= c < 16 ->
  exists b', set_context_irq_line (E := E) c v b = (Ok tt, b') /\ board_ok b' /\ lay b' = lay b /\ arena b' = arena b /\
    same_wiring b b' /\ level_of b' c = Some v /\ (forall c', 0 <= c' -> c' <> c -> level_of b' c' = level_of b c') /\
    (level_of b c = Some v -> b' = b).
Proof.
  intros Hb Hc. rewrite set_line_eq by done. destruct (decide (level_of b c = Some v)) as [Heq|Hne]; [exists b; by split_and!|].
  pose proof (fun c' => level_record b c v c' Hb Hc) as Hlev.
  assert (forall ts, Forall I ts -> length ts = length (harts b) ->
    (forall c' l, 0 <= c' -> line_of b c' = Some l -> line_pin (Build_Board (plic (record_level c v b)) (arena b) ts) l =
       if decide (c' = c) then v else line_pin b l) ->
    let b2 := Build_Board (plic (record_level c v b)) (arena b) ts in
    board_ok b2 /\ lay b2 = lay b /\ arena b2 = arena b /\ same_wiring b b2 /\ level_of b2 c = Some v /\
    (forall c', 0 <= c' -> c' <> c -> level_of b2 c' = level_of b c') /\ (level_of b c = Some v -> b2 = b)) as Hfin.
  { intros ts HI Hlen Hp b2. change (level_of b2) with (level_of (record_level c v b)). split_and!; try done.
    - by apply drive_ok.
    - rewrite Hlev by lia. by rewrite decide_True.
    - intros c' Hc' Hcc. rewrite Hlev by done. by rewrite decide_False. }
  destruct (line_of b c) as [l|] eqn:Hline.
  - destruct (bo_lines b Hb c l ltac:(lia) Hline) as [Hsup Htg]. destruct (lookup_lt_is_Some_2 _ _ Htg) as [t Et].
    destruct (handler_law (interrupt_nr l) v t Hsup (Forall_lookup_1 _ _ _ _ (bo_harts b Hb) Et)) as (t' & Hh & HIt' & Hpin & Hoth).
    eexists. split; [unfold on_harts, zoom, set_irq; cbn; rewrite Et, Hh; reflexivity|]. apply Hfin.
    + apply Forall_insert; [apply (bo_harts b Hb)|done].
    + by rewrite length_insert.
    + intros c' l'. eapply pins_after_drive; [done|lia|done..].
  - exists (record_level c v b). split; [done|]. apply Hfin; [apply (bo_harts b Hb)|done|].
    intros c' l' Hc' Hl'. case_decide; [congruence|done].
Qed.

Definition notified (s : PLICLayout) (c : Z) : Prop := exists id, eligible s (the_context s c) true id.

Lemma refresh_run (b : Board D T) c : board_ok b -> 0 <= c < 16 ->
  exists o b', refresh_context_irq_line (E := E) c b = (Ok o, b') /\ board_ok b' /\ lay b' = lay b /\ arena b' = arena b /\
    same_wiring b b' /\ wins (priority (lay b)) (eligible (lay b) (the_context (lay b) c) true) o /\
    (exists v, level_of b' c = Some v /\ (v = true <-> notified (lay b) c)) /\
    (forall c', 0 <= c' -> c' <> c -> level_of b' c' = level_of b c').
Proof.
  intros Hb Hc. destruct (find_run (E := E) (lay b) c true (bo_layout b Hb) Hc) as (o & Hf & Hw).
  set (v := match o with Some _ => true | None => false end).
  destruct (set_line_run b c v Hb Hc) as (b' & Hs & Hb' & Hl & Ha & Hwi & Hv & Hoth & _).
  exists o, b'. split.
  { unfold refresh_context_irq_line. assert (on_layout (pending_interrupt_to_notify c) b = (Ok (E := E) o, b)) as Hn.
    { unfold pending_interrupt_to_notify. rewrite (on_layout_run _ b _ _ Hf). by destruct b as [[] ? ?]. }
    rewrite (bind_Ok _ _ _ _ _ Hn), (bind_Ok _ _ _ _ _ Hs). done. }
  split_and!; try done. exists v. split; [done|]. unfold v, notified.
  destruct o as [id|]; cbn in Hw; split; try done; [intros _; exists id; apply Hw|intros (id & Hid); by destruct (Hw id)].
Qed.

Lemma refresh_all_run cs : forall (b : Board D T), board_ok b -> Forall (fun c => 0 <= c) cs ->
  exists b', refresh_all (E := E) cs b = (Ok tt, b') /\ board_ok b' /\ lay b' = lay b /\ arena b' = arena b /\
    same_wiring b b' /\
    (forall c, 0 <= c < 16 -> c ∈ cs -> exists v, level_of b' c = Some v /\ (v = true <-> notified (lay b) c)) /\
    (forall c, 0 <= c -> ~ (c ∈ cs) -> level_of b' c = level_of b c).
Proof.
  induction cs as [|c cs IH]; intros b Hb Hcs; cbn [refresh_all].
  { exists b. split_and!; try done. by intros c Hc ?%not_elem_of_nil. }
  apply list.Forall_cons in Hcs as [Hc Hcs]. unfold is_valid_context_id, VIRT_MAX_CONTEXTS.
  destruct (Z.ltb_spec c 16) as [Hlt|Hge].
  - destruct (refresh_run b c Hb ltac:(lia)) as (o & b1 & Hr & Hb1 & Hl1 & Ha1 & [Hw1 Hw1'] & _ & Hv1 & Ho1).
    destruct (IH b1 Hb1 Hcs) as (b2 & Hr2 & Hb2 & Hl2 & Ha2 & [Hw2 Hw2'] & Hv2 & Ho2). exists b2.
    assert ((_ <- refresh_context_irq_line c ;; ret tt) b = (Ok (E := E) tt, b1)) as Hr' by (by rewrite (bind_Ok _ _ _ _ _ Hr)).
    rewrite (bind_Ok _ _ _ _ _ Hr'). unfold same_wiring. split_and!; try done; try congruence.
    + intros c' Hc' Hin. destruct (decide (c' ∈ cs)) as [Hin'|Hni].
      * destruct (Hv2 c' Hc' Hin') as (v & Hv & Hn). exists v. by rewrite Hl1 in Hn.
      * apply list.elem_of_cons in Hin as [->|]; [|done]. destruct Hv1 as (v & Hv & Hn). exists v. by rewrite Ho2.
    + intros c' Hc' Hni. rewrite list.elem_of_cons in Hni. rewrite Ho2, Ho1 by intuition. done.
  - destruct (IH b Hb Hcs) as (b2 & Hr2 & Hb2 & Hl2 & Ha2 & Hw2 & Hv2 & Ho2). exists b2. split_and!; try done.
    + intros c' Hc' [->|Hin]%list.elem_of_cons; [lia|by apply Hv2].
    + intros c' Hc' Hni. apply Ho2; [done|]. rewrite list.elem_of_cons in Hni. intuition.
Qed.

(** refreshing the lines never fails.  Each registered device is sampled and
    its level goes through the gateway of its source (a high level becomes a
    pending request unless the source is claimed); then the pin of every
    refreshed context with a line is high exactly when some enabled, pending
    and unclaimed source has a priority above the context's threshold. *)
Theorem lines_show_notifications (b : Board D T) (cs : list Z) : board_ok b -> Forall (fun c => 0 <= c) cs ->
  exists b' b1, update_context_irq_lines (E := E) cs b = (Ok tt, b') /\ board_ok b' /\
    sampled b b1 (fun j => 0 <= j) /\ lay b' = lay b1 /\
    forall c l, 0 <= c < 16 -> c ∈ cs -> line_of b c = Some l -> line_pin b' l = true <-> notified (lay b') c.
Proof.
  intros Hb Hcs. destruct (sync_run b Hb) as (b1 & Hs & Hb1 & Hsa).
  destruct (refresh_all_run cs b1 Hb1 Hcs) as (b' & Hr & Hb' & Hl & _ & [Hw _] & Hv & _). exists b', b1.
  split; [unfold update_context_irq_lines; by rewrite (bind_Ok _ _ _ _ _ Hs)|]. split_and!; try done.
  intros c l Hc Hin Hline. destruct (Hv c Hc Hin) as (v & Hlev & Hn). rewrite Hl, <- Hn.
  rewrite (bo_driven b' Hb' c l v); [done|lia| |done]. unfold line_of. destruct (sa_wiring _ _ _ Hsa) as [Hw1 _].
  by rewrite Hw, Hw1.
Qed.
End Board.

(** ** Operations in any order *)
Section Traces.
Context {D T : Type} `{StableDevice D} {I : T -> Prop} {supported : Interrupt -> Prop}
  {pin : Interrupt -> T -> bool} `{LawfulHandler T I supported pin}.
Abbreviation lay b := (layout (plic b)).
Abbreviation ok := (board_ok (D := D) (I := I) (supported := supported) (pin := pin)).

(** What happens to a board: accesses through the bus, changes of a source,
    refreshes of the lines, devices that run, and the set-up of the board. *)
Inductive PlicOp : Type :=
| OpRead (t : UInt) (addr : Z)
| OpWrite (t : UInt) (addr v : Z)
| OpLevel (id : Z) (level : bool)
| OpUpdate (c : Z)
| OpUpdates (cs : list Z)
| OpDevices (ds : list D)
| OpRegister (h : nat) (id : Z)
| OpLine (l : IRQLine) (c : Z).

Definition run_op (op : PlicOp) : M (Board D T) MemError Z :=
  match op with
  | OpRead t addr => read_impl t addr
  | OpWrite t addr v => write_impl t addr v ;;; ret 0
  | OpLevel id level => set_interrupt_level id level ;;; ret 0
  | OpUpdate c => o <- update_context_irq_line c ;; ret (default 0 o)
  | OpUpdates cs => update_context_irq_lines cs ;;; ret 0
  | OpDevices ds => modify (fun b => Build_Board (plic b) ds (harts b)) ;;; ret 0
  | OpRegister h id => register_device h id ;;; ret 0
  | OpLine l c => set_irq_line l c ;;; ret 0
  end.

(** Integers are unsigned, devices keep their place in the arena, handles and
    lines point to something, and no two contexts share a line. *)
Definition op_ok (b : Board D T) (op : PlicOp) : Prop :=
  match op with
  | OpRead _ addr => 0 <= addr
  | OpWrite _ addr v => 0 <= addr /\ 0 <= v
  | OpLevel id _ => 0 <= id
  | OpUpdate c => 0 <= c
  | OpUpdates cs => Forall (fun c => 0 <= c) cs
  | OpDevices ds => length ds = length (arena b)
  | OpRegister h id => 0 < id < 64 /\ (h < length (arena b))%nat
  | OpLine l c => 0 <= c < 16 /\ supported (interrupt_nr l) /\ (line_target l < length (harts b))%nat /\
                  forall c', 0 <= c' -> c' <> c -> line_of b c' <> Some l
  end.

(** A write of [id] to a claim/complete register. *)
Definition completes (op : PlicOp) (id : Z) : Prop :=
  exists t addr v c, op = OpWrite t addr v /\ decode_register addr = Some (ClaimComplete c) /\ wrap 32 v = id.

Lemma claim_access (b : Board D T) c : ok b -> 0 <= c < 16 ->
  exists b1 o l b', sync_peripheral_irq_levels (E := MemError) b = (Ok tt, b1) /\ ok b1 /\ sampled b b1 (fun j => 0 <= j) /\
    read_claim (E := MemError) c (lay b1) = (Ok (default 0 o), l) /\
    read_impl U32 (register_offset (ClaimComplete c)) b = (Ok (default 0 o), b') /\ ok b' /\ lay b' = l /\
    wins (priority (lay b1)) (eligible (lay b1) (the_context (lay b1) c) false) o.
Proof.
  intros Hb Hc. destruct (sync_run (E := MemError) b Hb) as (b1 & Hs & Hb1 & Hsa).
  destruct (claim_run (E := MemError) (lay b1) c (bo_layout b1 Hb1) Hc) as (o & l & Hr & Hl & Hw & _).
  exists b1, o, l, (Build_Board (set_layout l (plic b1)) (arena b1) (harts b1)). split_and!; try done.
  - unfold read_impl. rewrite decode_offset by done. cbn [negb is_claim_complete]. change (size_of U32 =? REGISTER_BYTES) with true.
    cbn [negb]. rewrite (bind_Ok _ _ _ _ _ Hs). cbn [read_register].
    rewrite (bind_Ok _ _ _ _ _ (on_layout_run _ b1 _ _ Hr)). unfold ret, truncate_from. rewrite wrap_small; [done|].
    destruct o as [id|]; cbn; [|done]. pose proof (el_source _ _ _ _ (proj1 Hw)). split; cbn; lia.
  - by apply board_set_layout.
Qed.

Lemma complete_access (b : Board D T) c v : ok b -> 0 <= c < 16 -> 0 <= v ->
  exists b1 l b', sync_peripheral_irq_levels (E := MemError) b = (Ok tt, b1) /\ ok b1 /\ sampled b b1 (fun j => 0 <= j) /\
    write_complete (E := MemError) c (wrap 32 v) (lay b1) = (Ok tt, l) /\
    write_impl U32 (register_offset (ClaimComplete c)) v b = (Ok tt, b') /\ ok b' /\ lay b' = l.
Proof.
  intros Hb Hc Hv. destruct (sync_run (E := MemError) b Hb) as (b1 & Hs & Hb1 & Hsa).
  destruct (complete_run (E := MemError) (lay b1) c (wrap 32 v) (bo_layout b1 Hb1) Hc) as (l & Hr & Hl & _).
  { apply Z.mod_pos_bound. lia. }
  exists b1, l, (Build_Board (set_layout l (plic b1)) (arena b1) (harts b1)). split_and!; try done.
  - unfold write_impl. rewrite decode_offset by done. cbn [negb is_claim_complete is_pending].
    change (size_of U32 =? REGISTER_BYTES) with true. cbn [negb]. rewrite (bind_Ok _ _ _ _ _ Hs). cbn [write_register].
    change (truncate_from U32 v) with (wrap 32 v). by rewrite (on_layout_run _ b1 _ _ Hr).
  - by apply board_set_layout.
Qed.

(** One operation: no panic, the invariant, and a claimed source stays claimed
    unless the operation completes it. *)
Definition step_ok (b : Board D T) (op : PlicOp) (r : Res MemError Z) (b' : Board D T) : Prop :=
  r <> Panic /\ ok b' /\
  forall id, id ∈ interrupt_sources_busy (lay b) -> ~ completes op id -> id ∈ interrupt_sources_busy (lay b').

Lemma step_read b t addr : ok b -> 0 <= addr -> exists r b', run_op (OpRead t addr) b = (r, b') /\ step_ok b (OpRead t addr) r b'.
Proof.
  intros Hb Ha. cbn [run_op]. destruct (decide (t = U32)) as [->|Ht].
  2: { exists (Err MemLoadFault), b. split; [by destruct t|]. by split_and!. }
  destruct (decode_register addr) as [r|] eqn:Ed.
  2: { exists (Err MemLoadFault), b. unfold read_impl. rewrite Ed. split; [done|]. by split_and!. }
  destruct (decode_valid addr r Ha Ed) as [Hr ->]. destruct (is_claim_complete r) eqn:Ec.
  - destruct r as [| | | |c]; try done. destruct (claim_access b c Hb Hr) as (b1 & o & l & b' & _ & Hb1 & Hsa & Hcl & Hrd & Hb' & Hl & _).
    eexists _, b'. split; [exact Hrd|]. split_and!; try done. intros id Hid _. rewrite Hl.
    destruct (claim_run (E := MemError) (lay b1) c (bo_layout b1 Hb1) Hr) as (o' & l' & Hcl' & _ & _ & _ & _ & Hbu & _).
    assert (l = l') as -> by congruence. rewrite Hbu, (sa_busy _ _ _ Hsa). set_solver.
  - destruct (read_plain_register (E := MemError) (lay b) r (bo_layout b Hb) Hr Ec) as (v & Hv & _).
    eexists _, _. unfold read_impl. rewrite Ed, Ec. change (size_of U32 =? REGISTER_BYTES) with true. cbn [negb].
    unfold bind at 1, ret at 1. rewrite (bind_Ok _ _ _ _ _ (on_layout_run _ b _ _ Hv)).
    split; [reflexivity|]. split_and!; [done| |done]. apply board_set_layout; [done|apply (bo_layout b Hb)].
Qed.

Lemma step_write b t addr v : ok b -> 0 <= addr -> 0 <= v ->
  exists r b', run_op (OpWrite t addr v) b = (r, b') /\ step_ok b (OpWrite t addr v) r b'.
Proof.
  intros Hb Ha Hv. cbn [run_op]. destruct (decide (t = U32)) as [->|Ht].
  2: { exists (Err MemStoreFault), b. split; [by destruct t|]. by split_and!. }
  destruct (decode_register addr) as [r|] eqn:Ed.
  2: { exists (Err MemStoreFault), b. unfold write_impl, bind. rewrite Ed. split; [done|]. by split_and!. }
  destruct (decode_valid addr r Ha Ed) as [Hr Haddr].
  assert (forall l, is_claim_complete r = false -> is_pending r = false ->
    write_register (E := MemError) r (truncate_from U32 v) (lay b) = (Ok tt, l) -> layout_ok l ->
    interrupt_sources_busy l = interrupt_sources_busy (lay b) ->
    exists x b', (write_impl U32 addr v ;;; ret 0) b = (x, b') /\ step_ok b (OpWrite U32 addr v) x b') as Hplain.
  { intros l Hc Hp Hw Hl Hbu. eexists _, _. unfold write_impl. rewrite Ed, Hc, Hp. change (size_of U32 =? REGISTER_BYTES) with true.
    cbn [negb]. erewrite bind_Ok by (unfold bind, ret; by apply on_layout_run). split; [reflexivity|].
    split_and!; [done|by apply board_set_layout|]. cbn. by rewrite Hbu. }
  assert (uint 32 (truncate_from U32 v)) as Hu by (apply (wrap_range 32); lia). pose proof (bo_layout b Hb) as Hlo.
  destruct r as [id|w|c w|c|c]; cbn in Hr.
  - destruct (write_priority_run (E := MemError) (lay b) id _ Hlo Hr Hu) as (l & Hw & Hl & _ & _ & _ & Hbu & _).
    by apply (Hplain l).
  - exists (Err MemStoreFault), b. unfold write_impl, bind. rewrite Ed. split; [done|]. by split_and!.
  - destruct Hr as [Hc Hw']. destruct (write_enable_run (E := MemError) (lay b) c w _ Hlo Hc Hw' Hu) as (l & Hw & Hl & _ & _ & Hbu).
    by apply (Hplain l).
  - destruct (write_threshold_run (E := MemError) (lay b) c _ Hlo Hr Hu) as (l & Hw & Hl & _ & _ & Hbu). by apply (Hplain l).
  - destruct (complete_access b c v Hb Hr Hv) as (b1 & l & b' & _ & Hb1 & Hsa & Hco & Hwr & Hb' & Hl).
    eexists _, b'. rewrite Haddr, (bind_Ok _ _ _ _ _ Hwr). split; [reflexivity|]. split_and!; [done|done|].
    intros id Hid Hnc. rewrite Hl.
    destruct (complete_run (E := MemError) (lay b1) c (wrap 32 v) (bo_layout b1 Hb1) Hr) as (l' & Hco' & _ & _ & _ & Hbu & _).
    { apply Z.mod_pos_bound. lia. }
    assert (l = l') as -> by congruence. rewrite Hbu, (sa_busy _ _ _ Hsa).
    assert (wrap 32 v <> id) by (intros Hid'; apply Hnc; exists U32, addr, v, c; by rewrite Haddr in *).
    case_match; set_solver.
Qed.

(** A context gets a line: its level is not recorded yet. *)
Definition with_line (l : IRQLine) (c : Z) (b : Board D T) : Board D T :=
  Build_Board (Build_PLIC (lay b) (<[Z.to_nat c := Some l]> (riscv_irq_line (plic b)))
    (<[Z.to_nat c := None]> (riscv_irq_level (plic b))) (peripheral_irq_devices (plic b))) (arena b) (harts b).

Lemma with_line_ok b l c : ok b -> op_ok b (OpLine l c) -> ok (with_line l c b).
Proof.
  intros Hb (Hc & Hsup & Htg & Hdis).
  assert (forall c', 0 <= c' -> line_of (with_line l c b) c' = (if decide (c' = c) then Some l else line_of b c') /\
                     level_of (with_line l c b) c' = (if decide (c' = c) then None else level_of b c')) as Hat.
  { destruct (bo_sizes b Hb) as (H1l & H2l & _). intros c' Hc'. unfold line_of, level_of. cbn. case_decide as Hd.
    - subst c'. by rewrite !list_lookup_insert_eq by lia.
    - by rewrite !list_lookup_insert_ne by lia. }
  destruct Hb. split; try done; cbn; [by rewrite !length_insert|..].
  - intros c' l' Hc'. destruct (Hat c' Hc') as [-> _]. case_decide; [intros [= <-]; done|by apply (bo_lines0 c')].
  - intros c1 c2 l' Hc1 Hc2. destruct (Hat c1 Hc1) as [-> _], (Hat c2 Hc2) as [-> _].
    destruct (decide (c1 = c)) as [->|Hn1], (decide (c2 = c)) as [->|Hn2]; [done|..|by apply bo_distinct0].
    + intros [= <-] E. by destruct (Hdis c2 Hc2 Hn2).
    + intros E [= <-]. by destruct (Hdis c1 Hc1 Hn1).
  - intros c' l' v Hc'. destruct (Hat c' Hc') as [-> ->]. case_decide; [done|]. by apply (bo_driven0 c').
Qed.

Lemma step_setup b op : ok b -> op_ok b op -> match op with OpDevices _ | OpRegister _ _ | OpLine _ _ => True | _ => False end ->
  exists r b', run_op op b = (r, b') /\ step_ok b op r b'.
Proof.
  intros Hb Hop Hk. destruct op as [| | | | |ds|h id|l c]; try done; cbn [run_op op_ok] in *.
  - eexists _, _. split; [reflexivity|]. split_and!; [done| |done]. destruct Hb. split; try done. cbn. intros id h Hid Hd.
    rewrite Hop. by apply bo_devices0.
  - destruct Hop as [Hid Hh]. assert (is_valid_interrupt_id id = true) as Hv by (unfold is_valid_interrupt_id, VIRT_MAX_INTERRUPTS; lia).
    eexists _, _. unfold register_device. rewrite Hv. split; [reflexivity|]. split_and!; [done| |done].
    destruct Hb. split; try done; cbn; [by rewrite length_insert|]. intros j h' Hj. unfold device_of. cbn.
    destruct (decide (j = id)) as [->|Hne]; [|rewrite list_lookup_insert_ne by lia; by apply bo_devices0].
    rewrite list_lookup_insert_eq by lia. cbn. intros [= <-]. split; [lia|done].
  - pose proof (with_line_ok b l c Hb Hop) as Hb0. destruct Hop as (Hc & _).
    destruct (refresh_run (E := MemError) (with_line l c b) c Hb0 Hc) as (o & b' & Hr & Hb' & Hl & _). eexists _, b'.
    assert (set_irq_line l c b = (Ok (E := MemError) tt, b')) as Hset.
    { unfold set_irq_line, VIRT_MAX_CONTEXTS. destruct (Z.ltb_spec c 16); [|lia]. unfold bind at 1, assert, ret at 1.
      unfold bind at 1, on_plic at 1, zoom, modify at 1. unfold bind at 1, on_plic at 1, zoom, modify at 1.
      by rewrite (bind_Ok _ _ _ _ _ Hr). }
    rewrite (bind_Ok _ _ _ _ _ Hset). split; [reflexivity|]. split_and!; [done|done|]. by rewrite Hl.
Qed.

Lemma step_other b op : ok b -> op_ok b op -> match op with OpLevel _ _ | OpUpdate _ | OpUpdates _ => True | _ => False end ->
  exists r b', run_op op b = (r, b') /\ step_ok b op r b'.
Proof.
  intros Hb Hop Hk. destruct op as [| |id level|c|cs| | |]; try done; cbn [run_op op_ok] in *.
  - unfold set_interrupt_level. destruct (is_valid_interrupt_id id) eqn:Ev; cbn [negb].
    2: { eexists _, b. split; [reflexivity|]. by split_and!. }
    unfold is_valid_interrupt_id, VIRT_MAX_INTERRUPTS in Ev.
    destruct (set_source_level_run (E := MemError) (lay b) id level (bo_layout b Hb) ltac:(lia)) as (l & Hl & Hlo & Hg).
    eexists _, _. rewrite (bind_Ok _ _ _ _ _ (on_layout_run _ b _ _ Hl)). split; [reflexivity|].
    split_and!; [done|by apply board_set_layout|]. cbn. by rewrite (gw_busy _ _ _ _ Hg).
  - unfold update_context_irq_line, is_valid_context_id, VIRT_MAX_CONTEXTS. destruct (Z.ltb_spec c 16) as [Hc|]; cbn [negb].
    2: { eexists _, b. split; [reflexivity|]. by split_and!. }
    destruct (sync_run (E := MemError) b Hb) as (b1 & Hs & Hb1 & Hsa).
    destruct (refresh_run (E := MemError) b1 c Hb1 ltac:(lia)) as (o & b' & Hr & Hb' & Hl & _). eexists _, b'.
    erewrite bind_Ok by (rewrite (bind_Ok _ _ _ _ _ Hs); exact Hr). split; [reflexivity|]. split_and!; [done|done|].
    by rewrite Hl, (sa_busy _ _ _ Hsa).
  - destruct (sync_run (E := MemError) b Hb) as (b1 & Hs & Hb1 & Hsa).
    destruct (refresh_all_run (E := MemError) cs b1 Hb1 Hop) as (b' & Hr & Hb' & Hl & _). eexists _, b'.
    unfold update_context_irq_lines. erewrite bind_Ok by (rewrite (bind_Ok _ _ _ _ _ Hs); exact Hr).
    split; [reflexivity|]. split_and!; [done|done|]. by rewrite Hl, (sa_busy _ _ _ Hsa).
Qed.

Lemma step_any b op : ok b -> op_ok b op -> exists r b', run_op op b = (r, b') /\ step_ok b op r b'.
Proof.
  intros Hb Hop. destruct op; [by apply step_read|by destruct Hop; apply step_write|..];
    first [by apply step_other | by apply step_setup].
Qed.

(** A run: operations that respect [op_ok], with whatever they answer. *)
Inductive runs : Board D T -> list PlicOp -> Board D T -> Prop :=
| runs_nil b : runs b [] b
| runs_cons b op r b1 ops b2 : op_ok b op -> run_op op b = (r, b1) -> runs b1 ops b2 -> runs b (op :: ops) b2.

Lemma runs_ok b ops b' : runs b ops b' -> ok b -> ok b' /\
  forall id, id ∈ interrupt_sources_busy (lay b) -> Forall (fun op => ~ completes op id) ops ->
    id ∈ interrupt_sources_busy (lay b').
Proof.
  induction 1 as [b|b op r b1 ops b2 Hop Hr _ IH]; intros Hb; [done|].
  destruct (step_any b op Hb Hop) as (r' & b1' & Hr' & _ & Hb1 & Hbu). assert (b1' = b1) as -> by congruence.
  destruct (IH Hb1) as [Hb2 Hbu2]. split; [done|]. intros id Hid Hall. apply list.Forall_cons in Hall as [Hn Hall].
  by apply Hbu2; [apply Hbu|].
Qed.

(** C39: every operation of the controller, at any address, width and value, keeps
    the invariant of the board and does not panic: source 0 is never pending,
    enabled or claimed, the arbitration order is sorted by priority, a source
    is never claimed and pending at once, and every pin of a hart shows the
    level the controller last drove. *)
Theorem plic_invariant (b : Board D T) (ops : list PlicOp) (b' : Board D T) (op : PlicOp) :
  ok b -> runs b ops b' -> op_ok b' op -> ok b' /\ exists r b'', run_op op b' = (r, b'') /\ r <> Panic /\ ok b''.
Proof.
  intros Hb Hruns Hop. destruct (runs_ok b ops b' Hruns Hb) as [Hb' _]. split; [done|].
  destruct (step_any b' op Hb' Hop) as (r & b'' & Hr & Hp & Hb'' & _). by exists r, b''.
Qed.

(** a read of a claim register samples the devices and then takes the winner
    among the enabled, pending and unclaimed sources of nonzero priority: the
    highest priority, ties to the lowest id, the threshold ignored; 0 when
    there is none.  The source becomes claimed and is no longer pending; no
    other source changes. *)
Theorem claim_takes_winner (b : Board D T) (c : Z) : ok b -> 0 <= c < 16 ->
  exists b1 o b', sampled b b1 (fun j => 0 <= j) /\
    read_impl U32 (register_offset (ClaimComplete c)) b = (Ok (default 0 o), b') /\
    wins (priority (lay b1)) (eligible (lay b1) (the_context (lay b1) c) false) o /\
    (forall id, id ∈ interrupt_sources_busy (lay b') <-> o = Some id \/ id ∈ interrupt_sources_busy (lay b)) /\
    (forall id, id_ok id -> bit (pending (lay b')) id = bit (pending (lay b1)) id && negb (bool_decide (o = Some id))) /\
    same_config (lay b) (lay b').
Proof.
  intros Hb Hc. destruct (claim_access b c Hb Hc) as (b1 & o & l & b' & _ & Hb1 & Hsa & Hcl & Hrd & Hb' & Hl & Hw).
  destruct (claim_run (E := MemError) (lay b1) c (bo_layout b1 Hb1) Hc) as (o' & l' & Hcl' & _ & Hw' & Hcf & _ & Hbu & Hpe).
  assert (l' = l) as -> by congruence. assert (o' = o) as ->.
  { assert (default 0 o' = default 0 o) as E by congruence. destruct o as [x|], o' as [y|]; cbn in *; try congruence.
    - destruct Hw as [Hw _]. pose proof (el_source _ _ _ _ Hw). lia.
    - destruct Hw' as [Hw' _]. pose proof (el_source _ _ _ _ Hw'). lia. }
  exists b1, o, b'. rewrite Hl. split_and!; try done.
  - intros id. rewrite Hbu, (sa_busy _ _ _ Hsa). destruct o; set_solver.
  - destruct (sa_config _ _ _ Hsa) as (E1 & E2 & E3), Hcf as (F1 & F2 & F3). unfold same_config. by rewrite F1, F2, F3.
Qed.

(** an interrupt is handled once: after a context has claimed a source, no
    context can claim it again, whatever happens in between, until a write of
    its id to a claim register completes it. *)
Theorem claim_is_exclusive (b : Board D T) (c id : Z) (b1 : Board D T) (ops : list PlicOp) (b2 : Board D T) (c' : Z) :
  ok b -> 0 <= c < 16 -> read_impl U32 (register_offset (ClaimComplete c)) b = (Ok id, b1) -> id <> 0 ->
  runs b1 ops b2 -> Forall (fun op => ~ completes op id) ops -> 0 <= c' < 16 ->
  fst (read_impl U32 (register_offset (ClaimComplete c')) b2) <> Ok id.
Proof.
  intros Hb Hc Hrd Hid Hruns Hnc Hc'.
  destruct (claim_access b c Hb Hc) as (b0 & o & l & b1' & _ & Hb0 & Hsa & Hcl & Hrd' & Hb1 & Hl & Hw).
  assert (b1' = b1 /\ default 0 o = id) as [-> Ho] by (split; congruence).
  destruct (claim_run (E := MemError) (lay b0) c (bo_layout b0 Hb0) Hc) as (o' & l' & Hcl' & _ & _ & _ & _ & Hbu & _).
  assert (id ∈ interrupt_sources_busy (lay b1)) as Hin.
  { rewrite Hl. assert (l' = l /\ default 0 o' = id) as [<- Ho'] by (split; congruence). rewrite Hbu.
    destruct o' as [x|]; cbn in Ho'; [subst; set_solver|done]. }
  destruct (runs_ok b1 ops b2 Hruns Hb1) as [Hb2 Hkeep]. specialize (Hkeep id Hin Hnc).
  destruct (claim_access b2 c' Hb2 Hc') as (b3 & o2 & l2 & b4 & _ & Hb3 & Hsa2 & _ & Hrd2 & _ & _ & Hw2).
  rewrite Hrd2. cbn. intros [= E]. destruct o2 as [x|]; cbn in E; [|done]. subst x.
  apply (el_free _ _ _ _ (proj1 Hw2)). by rewrite (sa_busy _ _ _ Hsa2).
Qed.

(** completion.  Writing a source's id to the claim register of a context
    that enables it frees the source; it is pending again exactly when it was
    pending or its line, sampled at the completion, is still high.  A write
    of another context or of an id that does not exist changes no source. *)
Theorem complete_frees_source (b : Board D T) (c id : Z) : ok b -> 0 <= c < 16 -> 0 <= id < 2 ^ 32 ->
  exists b1 b', sampled b b1 (fun j => 0 <= j) /\ write_impl U32 (register_offset (ClaimComplete c)) id b = (Ok tt, b') /\
    let accepted := is_valid_interrupt_id id && bit (enable (the_context (lay b) c)) id in
    (forall j, j ∈ interrupt_sources_busy (lay b') <-> j ∈ interrupt_sources_busy (lay b) /\ (accepted = true -> j <> id)) /\
    (forall j, id_ok j -> bit (pending (lay b')) j = bit (pending (lay b1)) j ||
       (accepted && (j =? id) && bool_decide (id ∈ interrupt_sources_busy (lay b)) && bit (source_level (lay b1)) id)) /\
    same_config (lay b) (lay b').
Proof.
  intros Hb Hc Hid. destruct (complete_access b c id Hb Hc ltac:(lia)) as (b1 & l & b' & _ & Hb1 & Hsa & Hco & Hwr & Hb' & Hl).
  rewrite (wrap_small 32 id) in Hco by done.
  destruct (complete_run (E := MemError) (lay b1) c id (bo_layout b1 Hb1) Hc ltac:(lia)) as (l' & Hco' & _ & Hcf & _ & Hbu & Hpe).
  assert (l' = l) as -> by congruence. destruct (sa_config _ _ _ Hsa) as (E1 & E2 & E3).
  assert (the_context (lay b1) c = the_context (lay b) c) as Hctx by (unfold the_context; by rewrite E2).
  rewrite Hctx, (sa_busy _ _ _ Hsa) in *. exists b1, b'. rewrite Hl. cbv zeta. split_and!; try done.
  - intros j. rewrite Hbu. clear Hpe. destruct (is_valid_interrupt_id id && _);
      rewrite ?elem_of_difference, ?elem_of_singleton; intuition congruence.
  - destruct Hcf as (F1 & F2 & F3). unfold same_config. by rewrite F1, F2, F3.
Qed.
End Traces.

(** ** A board with one device and one hart *)
Lemma reg_new_ok : reg_ok PLICBitReg_new.
Proof. split; [split; [done|]|done]. by repeat constructor. Qed.

Lemma layout_new_ok : layout_ok PLICLayout_new.
Proof.
  assert (forall id, prio (priority PLICLayout_new) id = 0) as Hz.
  { intros id. unfold prio. cbn [priority PLICLayout_new]. destruct (replicate _ 0 !! Z.to_nat id) as [y|] eqn:E'; [|done].
    by apply lookup_replicate in E' as [-> _]. }
  constructor.
  - split; [done|]. by apply Forall_replicate.
  - apply reg_new_ok.
  - apply reg_new_ok.
  - split; [done|]. apply Forall_replicate. split; [apply reg_new_ok|done].
  - done.
  - apply Sorted_StronglySorted; [apply _|]. cbn [priority_order PLICLayout_new].
    change (seqZ 0 VIRT_MAX_INTERRUPTS) with (seqZ 0 64). cbn.
    repeat (apply Sorted_cons || apply Sorted_nil || apply HdRel_nil || (apply HdRel_cons; right; rewrite !Hz; lia)).
  - by intros id ?%elem_of_empty.
Qed.

Lemma plic_new_ok {D T} `{StableDevice D} {I : T -> Prop} {supported pin} `{!RiscvIRQHandler T} ds ts : Forall I ts ->
  board_ok (I := I) (supported := supported) (pin := pin) (Build_Board (D := D) PLIC_new ds ts).
Proof.
  assert (forall {A} n i (x : A), mjoin (replicate n None !! i) <> Some x) as Hnone.
  { intros A n i x. destruct (replicate n None !! i) as [y|] eqn:E'; [|done]. by apply lookup_replicate in E' as [-> _]. }
  intros Hts. constructor; [apply layout_new_ok|done| |done|..].
  - intros id h Hid Hd. by apply Hnone in Hd.
  - intros c l Hc Hl. by apply Hnone in Hl.
  - intros c c' l Hc Hc' Hl. by apply Hnone in Hl.
  - intros c l v Hc Hl. by apply Hnone in Hl.
Qed.

#[local] Instance demo_source : PlicDevice bool := {| irq_level := fun d => (d, d) |}.
#[local] Instance demo_source_stable : StableDevice bool.
Proof. by intros d. Qed.
(** The two external interrupt pins. *)
#[local] Instance demo_pins : RiscvIRQHandler (bool * bool) := {|
  irq_handler := fun i level t => match i with
                                  | MachineExternal => Some (level, snd t)
                                  | SupervisorExternal => Some (fst t, level)
                                  | _ => None
                                  end
|}.
Definition demo_supported (i : Interrupt) : Prop := i = MachineExternal \/ i = SupervisorExternal.
Definition demo_pin (i : Interrupt) (t : bool * bool) : bool :=
  match i with MachineExternal => fst t | _ => snd t end.
#[local] Instance demo_pins_lawful : LawfulHandler (bool * bool) (fun _ => True) demo_supported demo_pin.
Proof.
  intros i level t [->| ->] _; eexists; split_and!; try done; intros j [->| ->]; done.
Qed.

Definition demo_start : Board bool (bool * bool) := Build_Board PLIC_new [true] [(false, false)].
Definition demo_setup : list (PlicOp (D := bool)) := [
  OpRegister 0 10; OpLine {| line_target := 0; interrupt_nr := MachineExternal |} 0;
  OpWrite U32 40 5; OpWrite U32 0x2000 0xFFFFFFFF ].
Definition run_all (ops : list (PlicOp (D := bool))) (b : Board bool (bool * bool)) : Board bool (bool * bool) :=
  foldl (fun b op => snd (run_op op b)) b ops.
Definition demo_wired : Board bool (bool * bool) := run_all demo_setup demo_start.

Abbreviation demo_ok := (board_ok (D := bool) (T := bool * bool) (I := fun _ => True) (supported := demo_supported) (pin := demo_pin)).

Lemma demo_start_ok : demo_ok demo_start.
Proof. apply plic_new_ok. by repeat constructor. Qed.

Lemma demo_setup_runs : runs (supported := demo_supported) demo_start demo_setup demo_wired.
Proof.
  unfold demo_setup. repeat (eapply runs_cons; [|apply surjective_pairing|]).
  - cbn. lia.
  - cbn. split; [lia|]. split; [by left|]. split; [lia|]. intros c' Hc' _ E'. unfold line_of in E'. cbn in E'.
    destruct (replicate _ None !! _) as [y|] eqn:Ey; [|done]. apply lookup_replicate in Ey as [-> _]. done.
  - cbn. lia.
  - cbn. lia.
  - apply runs_nil.
Qed.

Lemma demo_wired_ok : demo_ok demo_wired.
Proof. by apply (runs_ok _ _ _ demo_setup_runs), demo_start_ok. Qed.

Lemma lines_show_notifications_witness :
  exists b', update_context_irq_lines (E := MemError) [0] demo_wired = (Ok tt, b') /\ harts b' = [(true, false)].
Proof.
  destruct (lines_show_notifications (E := MemError) demo_wired [0] demo_wired_ok) as (b' & b1 & Hr & _).
  { by repeat constructor. }
  exists b'. split; [exact Hr|].
  assert (harts (snd (update_context_irq_lines (E := MemError) [0] demo_wired)) = [(true, false)]) as Hh by (vm_compute; reflexivity).
  rewrite Hr in Hh. exact Hh.
Defined.

Lemma plic_invariant_witness : demo_ok demo_wired /\
  exists r b'', run_op (OpRead U32 0x200004) demo_wired = (r, b'') /\ r <> Panic /\ demo_ok b''.
Proof.
  apply (plic_invariant demo_start demo_setup demo_wired (OpRead U32 0x200004) demo_start_ok demo_setup_runs). cbn. lia.
Defined.

Lemma claim_takes_winner_witness : exists b1 o b', sampled demo_wired b1 (fun j => 0 <= j) /\
  read_impl U32 0x200004 demo_wired = (Ok (default 0 o), b') /\ default 0 o = 10.
Proof.
  destruct (claim_takes_winner demo_wired 0 demo_wired_ok) as (b1 & o & b' & Hs & Hr & _); [lia|].
  exists b1, o, b'. split; [exact Hs|]. split; [exact Hr|].
  assert (fst (read_impl U32 (register_offset (ClaimComplete 0)) demo_wired) = Ok 10) as Hv by (vm_compute; reflexivity).
  rewrite Hr in Hv. cbn in Hv. congruence.
Defined.

Lemma claim_is_exclusive_witness :
  fst (read_impl U32 (register_offset (ClaimComplete 1))
    (snd (run_op (OpLevel 10 true) (snd (read_impl U32 (register_offset (ClaimComplete 0)) demo_wired))))) <> Ok 10.
Proof.
  apply (claim_is_exclusive demo_wired 0 10 (snd (read_impl U32 (register_offset (ClaimComplete 0)) demo_wired)) [OpLevel 10 true]).
  - exact demo_wired_ok.
  - lia.
  - assert (fst (read_impl U32 (register_offset (ClaimComplete 0)) demo_wired) = Ok 10) as Hv by (vm_compute; reflexivity).
    rewrite <- Hv. apply surjective_pairing.
  - lia.
  - eapply runs_cons; [|apply surjective_pairing|apply runs_nil]. cbn. lia.
  - repeat constructor. intros (t & a & v & c & [=] & _).
  - lia.
Defined.

Lemma complete_frees_source_witness : exists b1 b', sampled demo_wired b1 (fun j => 0 <= j) /\
  write_impl U32 (register_offset (ClaimComplete 0)) 10 demo_wired = (Ok tt, b').
Proof.
  destruct (complete_frees_source demo_wired 0 10 demo_wired_ok) as (b1 & b' & Hs & Hw & _); [lia|lia|].
  exists b1, b'. split; [exact Hs|exact Hw].
Defined.
