(* ===== verification/Uart.v ===== *)
(** * The UART (src/src/device/uart16550a/mod.rs, reg.rs, io.rs)

    Registers are bytes; a [bitfield] struct is its byte, its fields are bits
    counted from the least significant one, as declared.  The two channels of
    the async runtime are seen through the interface [Channel]: the device and
    the host port hold the two ends of the same queue. *)

From S2P Require Import Prelude Utils TrapTypes Mmio Device.

(** ** Channels *)
Inductive TrySend (Q : Type) : Type := Sent (q : Q) | Full | Closed.
Arguments Sent {Q} q.
Arguments Full {Q}.
Arguments Closed {Q}.

Class Channel (Q : Type) : Type := {
  try_recv : Q -> option Z * Q;
  try_send : Z -> Q -> TrySend Q;
  (** the bytes sent and not yet received, oldest first *)
  queued : Q -> list Z;
  is_open : Q -> bool;
  capacity : Q -> option nat
}.

Definition has_room {Q} `{Channel Q} (q : Q) : bool :=
  match capacity q with None => true | Some n => (length (queued q) <? n)%nat end.

(** The documented behaviour: first in, first out, closed or bounded. *)
Class LawfulChannel (Q : Type) `{Channel Q} : Prop := {
  try_recv_law : forall q, fst (try_recv q) = head (queued q) /\ queued (snd (try_recv q)) = tail (queued q) /\
    capacity (snd (try_recv q)) = capacity q /\ is_open (snd (try_recv q)) = is_open q;
  try_send_law : forall x q,
    if is_open q then
      if has_room q then exists q', try_send x q = Sent q' /\ queued q' = queued q ++ [x] /\
                                    capacity q' = capacity q /\ is_open q' = true
      else try_send x q = Full
    else try_send x q = Closed
}.

(** ** Registers (reg.rs) *)
Definition UART_DEFAULT_DIV : Z := 1.

Definition RBR_offset : Z := 0.
Definition THR_offset : Z := 0.
Definition IER_offset : Z := 1.
Definition IIR_offset : Z := 2.
Definition FCR_offset : Z := 2.
Definition LCR_offset : Z := 3.
Definition MCR_offset : Z := 4.
Definition LSR_offset : Z := 5.
Definition MSR_offset : Z := 6.
Definition SCR_offset : Z := 7.
Definition DLL_offset : Z := 0.
Definition DLH_offset : Z := 1.

Definition put_bit (n : Z) (b : bool) (v : Z) : Z := if b then Z.setbit v n else Z.clearbit v n.

(** [InterruptEnableRegister] *)
Definition received_data_available_interrupt (ier : Z) : bool := Z.testbit ier 0.
Definition transmitter_holding_register_empty_interrupt (ier : Z) : bool := Z.testbit ier 1.
Definition receiver_line_status_interrupt (ier : Z) : bool := Z.testbit ier 2.
Definition modem_status_interrupt (ier : Z) : bool := Z.testbit ier 3.

(** [InterruptIdentificationRegister]: flag in bit 0, reason in bits 1 to 3 *)
Definition pending_free_flag (iir : Z) : bool := Z.testbit iir 0.
Definition with_pending_free_flag (b : bool) (iir : Z) : Z := put_bit 0 b iir.
Definition reason (iir : Z) : Z := Z.land (Z.shiftr iir 1) 7.
Definition with_reason (r iir : Z) : Z := Z.lor (Z.land iir 0xF1) (Z.shiftl (Z.land r 7) 1).

Inductive InterruptReason : Type :=
| ModemStatus | TransmitterHoldingRegisterEmpty | ReceiverDataAvailable | ReceiverLineStatus | TimeoutInDication.
Definition reason_nr (r : InterruptReason) : Z :=
  match r with
  | ModemStatus => 0 | TransmitterHoldingRegisterEmpty => 1 | ReceiverDataAvailable => 2
  | ReceiverLineStatus => 3 | TimeoutInDication => 6
  end.

(** [InterruptReasonBitflags]: the bit of a reason is its number. *)
Definition contains (ip : Z) (r : InterruptReason) : bool := Z.testbit ip (reason_nr r).
Definition insert_reason (r : InterruptReason) (ip : Z) : Z := Z.setbit ip (reason_nr r).
Definition remove_reason (r : InterruptReason) (ip : Z) : Z := Z.clearbit ip (reason_nr r).

(** [FIFOControlRegister], [LineControlRegister] *)
Definition fifo_enable (fcr : Z) : bool := Z.testbit fcr 0.
Definition receiver_fifo_reset (fcr : Z) : bool := Z.testbit fcr 1.
Definition transmitter_fifo_reset (fcr : Z) : bool := Z.testbit fcr 2.
Definition divisor_latch_access (lcr : Z) : bool := Z.testbit lcr 7.

(** [LineStatusRegister] *)
Definition receive_data_available (lsr : Z) : bool := Z.testbit lsr 0.
Definition set_receive_data_available (b : bool) (lsr : Z) : Z := put_bit 0 b lsr.
Definition transmit_holding_empty (lsr : Z) : bool := Z.testbit lsr 5.
Definition set_transmit_holding_empty (b : bool) (lsr : Z) : Z := put_bit 5 b lsr.
Definition set_transmit_empty (b : bool) (lsr : Z) : Z := put_bit 6 b lsr.
Definition line_status_interrupt (lsr : Z) : bool := negb (Z.land lsr 0x1E =? 0).
Definition clear_error_indicators (lsr : Z) : Z :=
  put_bit 7 false (put_bit 4 false (put_bit 3 false (put_bit 2 false (put_bit 1 false lsr)))).

(** [ModemStatusRegister] *)
Definition interrupt_pending (msr : Z) : bool := negb (Z.land msr 0x0F =? 0).
Definition clear_delta_indicators (msr : Z) : Z :=
  put_bit 3 false (put_bit 2 false (put_bit 1 false (put_bit 0 false msr))).

Record Uart16550RegLayout : Type := {
  receiver_buffer_register : Z;
  transmitter_holding_register : Z;
  interrupt_enable_register : Z;
  interrupt_identification_register : Z;
  fifo_control_register : Z;
  line_control_register : Z;
  modem_control_register : Z;
  line_status_register : Z;
  modem_status_register : Z;
  scratch_register : Z;
  divisor_latch_register_l : Z;
  divisor_latch_register_h : Z
}.

(** The declared defaults of the fields. *)
Definition RegLayout_default : Uart16550RegLayout := {|
  receiver_buffer_register := 0; transmitter_holding_register := 0; interrupt_enable_register := 0;
  interrupt_identification_register := 0xC1; fifo_control_register := 0xC0; line_control_register := 0x03;
  modem_control_register := 0; line_status_register := 0x60; modem_status_register := 0; scratch_register := 0;
  divisor_latch_register_l := wrap 8 UART_DEFAULT_DIV; divisor_latch_register_h := wrap 8 (Z.shiftr UART_DEFAULT_DIV 8)
|}.

Definition divisor_latch_enable (r : Uart16550RegLayout) : bool := divisor_latch_access (line_control_register r).

(** [None] is the [unreachable!] arm. *)
Definition layout_read (offset : Z) (r : Uart16550RegLayout) : option Z :=
  let divisor := divisor_latch_enable r in
  match offset with
  | 0 => Some (if divisor then divisor_latch_register_l r else receiver_buffer_register r)
  | 1 => Some (if divisor then divisor_latch_register_h r else interrupt_enable_register r)
  | 2 => Some (interrupt_identification_register r)
  | 3 => Some (line_control_register r)
  | 4 => Some (modem_control_register r)
  | 5 => Some (line_status_register r)
  | 6 => Some (modem_status_register r)
  | 7 => Some (scratch_register r)
  | _ => None
  end.

Definition set_rbr v r := let '(Build_Uart16550RegLayout _ b c d e f g h i j k l) := r in
  Build_Uart16550RegLayout v b c d e f g h i j k l.
Definition set_thr v r := let '(Build_Uart16550RegLayout a _ c d e f g h i j k l) := r in
  Build_Uart16550RegLayout a v c d e f g h i j k l.
Definition set_ier v r := let '(Build_Uart16550RegLayout a b _ d e f g h i j k l) := r in
  Build_Uart16550RegLayout a b v d e f g h i j k l.
Definition set_iir v r := let '(Build_Uart16550RegLayout a b c _ e f g h i j k l) := r in
  Build_Uart16550RegLayout a b c v e f g h i j k l.
Definition set_fcr v r := let '(Build_Uart16550RegLayout a b c d _ f g h i j k l) := r in
  Build_Uart16550RegLayout a b c d v f g h i j k l.
Definition set_lcr v r := let '(Build_Uart16550RegLayout a b c d e _ g h i j k l) := r in
  Build_Uart16550RegLayout a b c d e v g h i j k l.
Definition set_mcr v r := let '(Build_Uart16550RegLayout a b c d e f _ h i j k l) := r in
  Build_Uart16550RegLayout a b c d e f v h i j k l.
Definition set_lsr v r := let '(Build_Uart16550RegLayout a b c d e f g _ i j k l) := r in
  Build_Uart16550RegLayout a b c d e f g v i j k l.
Definition set_msr v r := let '(Build_Uart16550RegLayout a b c d e f g h _ j k l) := r in
  Build_Uart16550RegLayout a b c d e f g h v j k l.
Definition set_scr v r := let '(Build_Uart16550RegLayout a b c d e f g h i _ k l) := r in
  Build_Uart16550RegLayout a b c d e f g h i v k l.
Definition set_dll v r := let '(Build_Uart16550RegLayout a b c d e f g h i j _ l) := r in
  Build_Uart16550RegLayout a b c d e f g h i j v l.
Definition set_dlh v r := let '(Build_Uart16550RegLayout a b c d e f g h i j k _) := r in
  Build_Uart16550RegLayout a b c d e f g h i j k v.

Definition layout_write (offset value : Z) (r : Uart16550RegLayout) : option Uart16550RegLayout :=
  let divisor := divisor_latch_enable r in
  match offset with
  | 0 => Some (if divisor then set_dll value r else set_thr value r)
  | 1 => Some (if divisor then set_dlh value r else set_ier value r)
  | 2 => Some (set_fcr value r)
  | 3 => Some (set_lcr value r)
  | 4 => Some (set_mcr value r)
  | 5 => Some (set_lsr value r)
  | 6 => Some (set_msr value r)
  | 7 => Some (set_scr value r)
  | _ => None
  end.

Definition get_divisor (r : Uart16550RegLayout) : Z :=
  wrap 16 (divisor_latch_register_l r + shl 16 (divisor_latch_register_h r) 8).

(** ** The device (mod.rs) *)
Record Uart16550A (Q : Type) : Type := {
  reg : Uart16550RegLayout;
  input_rx : Q;
  output_tx : Q;
  ip : Z
}.
Arguments Build_Uart16550A {Q} _ _ _ _.
Arguments reg {Q} _.
Arguments input_rx {Q} _.
Arguments output_tx {Q} _.
Arguments ip {Q} _.

Section Uart.
Context {Q : Type} `{Channel Q}.
Abbreviation Uart := (Uart16550A Q).
Abbreviation UM := (M Uart MemError).

Definition from_channel (rx tx : Q) : Uart :=
  Build_Uart16550A RegLayout_default rx tx (insert_reason TransmitterHoldingRegisterEmpty 0).

Definition upd_reg (f : Uart16550RegLayout -> Uart16550RegLayout) (u : Uart) : Uart :=
  Build_Uart16550A (f (reg u)) (input_rx u) (output_tx u) (ip u).
Definition upd_ip (f : Z -> Z) (u : Uart) : Uart := Build_Uart16550A (reg u) (input_rx u) (output_tx u) (f (ip u)).
Definition upd_rx (q : Q) (u : Uart) : Uart := Build_Uart16550A (reg u) q (output_tx u) (ip u).
Definition upd_tx (q : Q) (u : Uart) : Uart := Build_Uart16550A (reg u) (input_rx u) q (ip u).
Definition upd_lsr (f : Z -> Z) (u : Uart) : Uart :=
  upd_reg (fun r => set_lsr (f (line_status_register r)) r) u.
Definition upd_msr (f : Z -> Z) (u : Uart) : Uart :=
  upd_reg (fun r => set_msr (f (modem_status_register r)) r) u.

Definition compute_iir (r : Uart16550RegLayout) (p : Z) : Z :=
  let ier := interrupt_enable_register r in
  let lsr := line_status_register r in
  let fifo_bits := if fifo_enable (fifo_control_register r) then 0xc0 else 0 in
  let iir := Z.lor fifo_bits 1 in
  let raise r := with_pending_free_flag false (with_reason (reason_nr r) iir) in
  if receiver_line_status_interrupt ier && (contains p ReceiverLineStatus || line_status_interrupt lsr)
  then raise ReceiverLineStatus
  else if received_data_available_interrupt ier && contains p ReceiverDataAvailable
  then raise ReceiverDataAvailable
  else if transmitter_holding_register_empty_interrupt ier && contains p TransmitterHoldingRegisterEmpty
  then raise TransmitterHoldingRegisterEmpty
  else if modem_status_interrupt ier
          && (contains p ModemStatus || interrupt_pending (modem_status_register r))
  then raise ModemStatus
  else iir.
Definition update_iir (u : Uart) : Uart := upd_reg (set_iir (compute_iir (reg u) (ip u))) u.

Definition try_clear_thre_interrupt (u : Uart) : Uart :=
  if reason (interrupt_identification_register (reg u)) =? reason_nr TransmitterHoldingRegisterEmpty
  then update_iir (upd_ip (remove_reason TransmitterHoldingRegisterEmpty) u)
  else u.

Definition try_raise_thre_interrupt (old_ier new_ier : Z) (u : Uart) : Uart :=
  if negb (transmitter_holding_register_empty_interrupt old_ier)
     && transmitter_holding_register_empty_interrupt new_ier
     && transmit_holding_empty (line_status_register (reg u))
  then upd_ip (insert_reason TransmitterHoldingRegisterEmpty) u
  else u.

Definition update_rx_status (u : Uart) : Uart :=
  if receive_data_available (line_status_register (reg u)) then u
  else match try_recv (input_rx u) with
       | (Some data, q) =>
           upd_ip (insert_reason ReceiverDataAvailable)
             (upd_lsr (set_receive_data_available true) (upd_reg (set_rbr data) (upd_rx q u)))
       | (None, q) => upd_rx q u
       end.

(** The body of the loop of [read] for byte [i]. *)
Definition read_byte (i : Z) : UM Z :=
  modify (fun u => if negb (divisor_latch_enable (reg u)) && (i =? RBR_offset)
                   then upd_ip (remove_reason ReceiverDataAvailable) (upd_lsr (set_receive_data_available false) u)
                   else u) ;;;
  r <- gets reg ;;
  v <- unwrap (layout_read i r) ;;
  modify (fun u => if i =? LSR_offset
                   then upd_ip (remove_reason ReceiverLineStatus) (upd_lsr clear_error_indicators u)
                   else if i =? MSR_offset
                   then upd_ip (remove_reason ModemStatus) (upd_msr clear_delta_indicators u)
                   else u) ;;;
  modify (fun u => if i =? IIR_offset then try_clear_thre_interrupt u else u) ;;;
  ret v.

Fixpoint read_bytes (n : nat) (offset i data : Z) : UM Z :=
  match n with
  | O => ret data
  | S n => v <- read_byte i ;; read_bytes n offset (i + 1) (Z.lor data (shl 64 v (8 * (i - offset))))
  end.

Definition Uart_read (addr len : Z) : UM Z :=
  modify (fun u => update_iir (update_rx_status u)) ;;;
  data <- read_bytes (Z.to_nat len) addr addr 0 ;;
  modify (fun u => update_iir (update_rx_status u)) ;;;
  ret data.

(** [while self.input_rx.try_recv().is_ok() {}], at most one turn per byte. *)
Fixpoint drain (fuel : nat) (q : Q) : Q :=
  match fuel with
  | O => q
  | S n => match try_recv q with (Some _, q') => drain n q' | (None, q') => q' end
  end.

Definition fifo_resets (u : Uart) : Uart :=
  let fcr := fifo_control_register (reg u) in
  let u := if receiver_fifo_reset fcr
           then upd_ip (fun p => remove_reason ReceiverLineStatus (remove_reason ReceiverDataAvailable p))
                  (upd_lsr (fun s => clear_error_indicators (set_receive_data_available false s))
                     (upd_reg (set_rbr 0) (upd_rx (drain (S (length (queued (input_rx u)))) (input_rx u)) u)))
           else u in
  if transmitter_fifo_reset fcr
  then upd_ip (insert_reason TransmitterHoldingRegisterEmpty)
         (upd_lsr (fun s => set_transmit_empty true (set_transmit_holding_empty true s)) u)
  else u.

(** [let _ = self.output_tx.send(byte)] *)
Definition send (byte : Z) (u : Uart) : Uart :=
  match try_send byte (output_tx u) with Sent q => upd_tx q u | _ => u end.

(** The body of the loop of [write] for byte [i]; [data] is the rest of the
    value, its low byte first. *)
Definition write_byte (i data : Z) : UM unit :=
  modify (fun u => if (i =? 0) && negb (divisor_latch_enable (reg u))
                   then upd_ip (insert_reason TransmitterHoldingRegisterEmpty) (send (Z.land data 0xff) u)
                   else u) ;;;
  old_ier <- gets (fun u => interrupt_enable_register (reg u)) ;;
  let new_ier := wrap 8 data in
  r <- gets reg ;;
  r' <- unwrap (layout_write i (wrap 8 data) r) ;;
  modify (upd_reg (fun _ => r')) ;;;
  modify (fun u => if i =? FCR_offset then fifo_resets u else u) ;;;
  modify (fun u => if (i =? IER_offset) && negb (divisor_latch_enable (reg u))
                   then try_raise_thre_interrupt old_ier new_ier u else u) ;;;
  modify update_iir.

Fixpoint write_bytes (n : nat) (i data : Z) : UM unit :=
  match n with
  | O => ret tt
  | S n => write_byte i data ;;; write_bytes n (i + 1) (Z.shiftr data 8)
  end.
Definition Uart_write (addr len data : Z) : UM unit := write_bytes (Z.to_nat len) addr data.

#[export] Instance Uart_device : DeviceTrait Uart := {|
  dev_read := Uart_read; dev_write := Uart_write; dev_sync := ret tt
|}.

Definition Uart_irq_level (u : Uart) : bool * Uart :=
  let u := update_iir (update_rx_status u) in
  (negb (pending_free_flag (interrupt_identification_register (reg u))), u).
#[export] Instance Uart_plic : PlicDevice Uart := {| irq_level := Uart_irq_level |}.

(** ** The host's port (io.rs) *)
Inductive UartIoError : Type := InputFull (accepted : Z) | InputClosed (accepted : Z).

Fixpoint push_from (accepted : Z) (bytes : list Z) : M Uart UartIoError unit :=
  match bytes with
  | [] => ret tt
  | byte :: bytes => fun u =>
      match try_send byte (input_rx u) with
      | Sent q => push_from (accepted + 1) bytes (upd_rx q u)
      | Full => (Err (InputFull accepted), u)
      | Closed => (Err (InputClosed accepted), u)
      end
  end.
Definition push_input (bytes : list Z) : M Uart UartIoError unit := push_from 0 bytes.

(** [take_output] receives until the channel is empty. *)
Fixpoint recv_all (fuel : nat) (q : Q) : list Z * Q :=
  match fuel with
  | O => ([], q)
  | S n => match try_recv q with
           | (Some b, q') => let '(l, q'') := recv_all n q' in (b :: l, q'')
           | (None, q') => ([], q')
           end
  end.
Definition take_output (u : Uart) : list Z * Uart :=
  let '(l, q) := recv_all (S (length (queued (output_tx u)))) (output_tx u) in (l, upd_tx q u).
End Uart.
