(* ===== verification/UartSpec.v ===== *)
(** * What the UART promises (src/src/device/uart16550a)

    [Terminal] is the UART as its driver sees it: a stream of bytes from the
    host, one from the guest, and registers without side tables.  The device
    refines it access by access, and no byte is lost, duplicated or reordered
    in either direction. *)

From S2P Require Import Prelude Utils TrapTypes Mmio Device Plic PlicSpec Uart.

#[local] Arguments Z.testbit : simpl never.

(** ** The specification *)
Record Terminal : Type := {
  pend : list Z;    (* bytes from the host the guest has not read *)
  held : bool;      (* the first of them is in the receiver buffer *)
  last : Z;         (* what the receiver buffer shows when nothing is there *)
  out : list Z;     (* bytes to the host it has not taken *)
  room : nat;       (* capacity of the queue behind the receiver buffer *)
  thre : bool;      (* "transmitter empty" is to be reported *)
  t_ier : Z; t_fcr : Z; t_lcr : Z; t_mcr : Z; t_msr : Z; t_scr : Z; t_dll : Z; t_dlh : Z
}.

Definition t_new (cap : nat) : Terminal := {|
  pend := []; held := false; last := 0; out := []; room := cap; thre := true;
  t_ier := 0; t_fcr := 0xC0; t_lcr := 3; t_mcr := 0; t_msr := 0; t_scr := 0; t_dll := 1; t_dlh := 0 |}.

Definition t_input p h l (a : Terminal) : Terminal :=
  Build_Terminal p h l (out a) (room a) (thre a)
    (t_ier a) (t_fcr a) (t_lcr a) (t_mcr a) (t_msr a) (t_scr a) (t_dll a) (t_dlh a).
Definition t_output o t (a : Terminal) : Terminal :=
  Build_Terminal (pend a) (held a) (last a) o (room a) t
    (t_ier a) (t_fcr a) (t_lcr a) (t_mcr a) (t_msr a) (t_scr a) (t_dll a) (t_dlh a).
Definition t_regs i f l m s c dl dh (a : Terminal) : Terminal :=
  Build_Terminal (pend a) (held a) (last a) (out a) (room a) (thre a) i f l m s c dl dh.

Definition t_dlab (a : Terminal) : bool := Z.testbit (t_lcr a) 7.
Definition t_poll (a : Terminal) : Terminal :=
  t_input (pend a) (match pend a with [] => false | _ => true end) (last a) a.

(** Interrupt identification: received data before transmitter empty before
    modem status; 1 when nothing is to be reported. *)
Definition t_cause (a : Terminal) : Z :=
  if Z.testbit (t_ier a) 0 && held a then 4
  else if Z.testbit (t_ier a) 1 && thre a then 2
  else if Z.testbit (t_ier a) 3 && interrupt_pending (t_msr a) then 0
  else 1.
Definition t_iir (a : Terminal) : Z := Z.lor (if Z.testbit (t_fcr a) 0 then 0xC0 else 0) (t_cause a).
Definition t_level (a : Terminal) : bool :=
  Z.testbit (t_ier a) 0 && held a || Z.testbit (t_ier a) 1 && thre a
  || Z.testbit (t_ier a) 3 && interrupt_pending (t_msr a).
Definition t_lsr (a : Terminal) : Z := if held a then 0x61 else 0x60.
Definition t_rbr (a : Terminal) : Z := if held a then hd 0 (pend a) else last a.

(** A byte read of register [off]; the terminal has been polled. *)
Definition t_reg (off : Z) (a : Terminal) : Z :=
  match off with
  | 0 => if t_dlab a then t_dll a else t_rbr a
  | 1 => if t_dlab a then t_dlh a else t_ier a
  | 2 => t_iir a | 3 => t_lcr a | 4 => t_mcr a | 5 => t_lsr a | 6 => t_msr a | _ => t_scr a
  end.
Definition t_after_read (off : Z) (a : Terminal) : Terminal :=
  match off with
  | 0 => if t_dlab a then a else t_input (if held a then tail (pend a) else pend a) false (t_rbr a) a
  | 2 => if t_cause a =? 2 then t_output (out a) false a else a
  | 6 => t_regs (t_ier a) (t_fcr a) (t_lcr a) (t_mcr a) (clear_delta_indicators (t_msr a)) (t_scr a) (t_dll a) (t_dlh a) a
  | _ => a
  end.
Definition t_read (off : Z) (a : Terminal) : Z * Terminal :=
  let a := t_poll a in (t_reg off a, t_poll (t_after_read off a)).

Definition t_fcr_write (v : Z) (a : Terminal) : Terminal :=
  let a := if receiver_fifo_reset v then t_input [] false 0 a else a in
  if transmitter_fifo_reset v then t_output (out a) true a else a.

(** A byte write of register [off], the line status register excepted. *)
Definition t_write (off v : Z) (a : Terminal) : Terminal :=
  let '(i, f, l, m, s, c, dl, dh) :=
    (t_ier a, t_fcr a, t_lcr a, t_mcr a, t_msr a, t_scr a, t_dll a, t_dlh a) in
  match off with
  | 0 => if t_dlab a then t_regs i f l m s c v dh a else t_output (out a ++ [v]) true a
  | 1 => if t_dlab a then t_regs i f l m s c dl v a
         else let a' := t_regs v f l m s c dl dh a in
              if negb (Z.testbit i 1) && Z.testbit v 1 then t_output (out a) true a' else a'
  | 2 => t_fcr_write v (t_regs i v l m s c dl dh a)
  | 3 => t_regs i f v m s c dl dh a
  | 4 => t_regs i f l v s c dl dh a
  | 6 => t_regs i f l m v c dl dh a
  | _ => t_regs i f l m s v dl dh a
  end.

(** How many of the bytes the queue takes. *)
Definition t_free (a : Terminal) : nat :=
  (room a - length (if held a then tail (pend a) else pend a))%nat.
Definition t_push (bs : list Z) (a : Terminal) : Res UartIoError unit * Terminal :=
  let n := Nat.min (t_free a) (length bs) in
  ((if (n =? length bs)%nat then Ok tt else Err (InputFull (Z.of_nat n))),
   t_input (pend a ++ take n bs) (held a) (last a) a).

(** ** Accesses and what is observed of them *)
Inductive UartOp : Type :=
| ORead (off : Z)
| OWrite (off v : Z)
| OIrq
| OPush (bs : list Z)
| OTake.

Inductive Obs : Type :=
| SawValue (r : Res MemError Z)
| SawDone (r : Res MemError unit)
| SawLevel (b : bool)
| SawPush (r : Res UartIoError unit)
| SawBytes (l : list Z).

Definition t_step (op : UartOp) (a : Terminal) : Obs * Terminal :=
  match op with
  | ORead off => let '(v, a') := t_read off a in (SawValue (Ok v), a')
  | OWrite off v => (SawDone (Ok tt), t_write off v a)
  | OIrq => let a' := t_poll a in (SawLevel (t_level a'), a')
  | OPush bs => let '(r, a') := t_push bs a in (SawPush r, a')
  | OTake => (SawBytes (out a), t_output [] (thre a) a)
  end.

(** What the guest may do: byte accesses of the eight registers that do not
    overwrite the read-only line status. *)
Definition op_ok (op : UartOp) : Prop :=
  match op with
  | ORead off => 0 <= off < 8
  | OWrite off v => 0 <= off < 8 /\ off <> LSR_offset /\ uint 8 v
  | OPush bs => Forall (uint 8) bs
  | _ => True
  end.

Section Refinement.
Context {Q : Type} `{LawfulChannel Q}.
Abbreviation Uart := (Uart16550A Q).

Definition uart_step (op : UartOp) (u : Uart) : Obs * Uart :=
  match op with
  | ORead off => let '(r, u') := Uart_read off 1 u in (SawValue r, u')
  | OWrite off v => let '(r, u') := Uart_write off 1 v u in (SawDone r, u')
  | OIrq => let '(b, u') := Uart_irq_level u in (SawLevel b, u')
  | OPush bs => let '(r, u') := push_input bs u in (SawPush r, u')
  | OTake => let '(l, u') := take_output u in (SawBytes l, u')
  end.

(** The registers that show a terminal. *)
Definition layout_of (a : Terminal) (thr iir : Z) : Uart16550RegLayout := {|
  receiver_buffer_register := t_rbr a; transmitter_holding_register := thr;
  interrupt_enable_register := t_ier a; interrupt_identification_register := iir;
  fifo_control_register := t_fcr a; line_control_register := t_lcr a;
  modem_control_register := t_mcr a; line_status_register := t_lsr a;
  modem_status_register := t_msr a; scratch_register := t_scr a;
  divisor_latch_register_l := t_dll a; divisor_latch_register_h := t_dlh a |}.
Definition ip_of (a : Terminal) : Z := (if thre a then 2 else 0) + (if held a then 4 else 0).

Record shows (u : Uart) (a : Terminal) (iir : Z) : Prop := {
  shows_reg : exists thr, reg u = layout_of a thr iir;
  shows_ip : ip u = ip_of a;
  shows_held : held a = true -> pend a <> [];
  shows_rx : queued (input_rx u) = if held a then tail (pend a) else pend a;
  shows_cap : capacity (input_rx u) = Some (room a);
  shows_open : is_open (input_rx u) = true;
  shows_tx : queued (output_tx u) = out a;
  shows_tx_open : is_open (output_tx u) = true /\ capacity (output_tx u) = None
}.
Definition bytes_ok (a : Terminal) : Prop :=
  Forall (uint 8) (pend a) /\
  Forall (uint 8) [last a; t_ier a; t_fcr a; t_lcr a; t_mcr a; t_msr a; t_scr a; t_dll a; t_dlh a].
Definition rel (u : Uart) (a : Terminal) : Prop := bytes_ok a /\ exists iir, shows u a iir.

Lemma compute_iir_of a thr iir : compute_iir (layout_of a thr iir) (ip_of a) = t_iir a.
Proof.
  unfold compute_iir, t_iir, t_cause, ip_of, layout_of, t_lsr. simpl.
  change receiver_line_status_interrupt with (fun i => Z.testbit i 2). cbn beta.
  unfold received_data_available_interrupt, transmitter_holding_register_empty_interrupt,
    modem_status_interrupt, fifo_enable.
  destruct (held a), (thre a), (Z.testbit (t_fcr a) 0), (Z.testbit (t_ier a) 0), (Z.testbit (t_ier a) 1),
    (Z.testbit (t_ier a) 2), (Z.testbit (t_ier a) 3), (interrupt_pending (t_msr a)); reflexivity.
Qed.

Lemma update_iir_shows u a iir : shows u a iir -> shows (update_iir u) a (t_iir a).
Proof.
  intros [[thr Hr] Hip Hh Hrx Hc Ho Ht Hto]. constructor; simpl; try done.
  exists thr. by rewrite Hr, Hip, compute_iir_of.
Qed.

Lemma t_poll_id a : (held a = true <-> pend a <> []) -> t_poll a = a.
Proof.
  destruct a as [p h]; unfold t_poll, t_input; simpl. intros Hh. f_equal.
  destruct p, h; try done; [by destruct Hh as [? _]; destruct H1|by destruct Hh as [_ ->]].
Qed.

Lemma poll_shows u a iir : shows u a iir -> shows (update_rx_status u) (t_poll a) iir.
Proof.
  intros Hs. pose proof Hs as [[thr Hr] Hip Hh Hrx Hc Ho Ht Hto].
  unfold update_rx_status. rewrite Hr. simpl.
  destruct (try_recv_law (input_rx u)) as (E1 & E2 & E3 & E4).
  destruct (try_recv (input_rx u)) as [o q]; simpl in *. rewrite Hrx in E1, E2.
  unfold t_lsr, receive_data_available in *. destruct (held a) eqn:Eh; simpl in *.
  - rewrite t_poll_id; [done|]. rewrite Eh. naive_solver.
  - destruct (pend a) as [|x l] eqn:Ep; subst o; simpl in *.
    + rewrite t_poll_id by (by rewrite Eh, Ep).
      constructor; simpl; rewrite ?Eh, ?Ep; eauto; congruence.
    + constructor; unfold t_poll; simpl; rewrite ?Ep; simpl; try congruence.
      * exists thr. rewrite Hr. unfold layout_of, t_rbr, t_lsr. simpl. by rewrite ?Ep, ?Eh.
      * rewrite Hip. unfold ip_of. simpl. rewrite Eh. by destruct (thre a).
Qed.

Lemma poll_bytes_ok a : bytes_ok a -> bytes_ok (t_poll a).
Proof. done. Qed.

Lemma refresh_shows u a iir : shows u a iir ->
  shows (update_iir (update_rx_status u)) (t_poll a) (t_iir (t_poll a)).
Proof. eauto using update_iir_shows, poll_shows. Qed.

Lemma off_cases (P : Z -> Prop) : P 0 -> P 1 -> P 2 -> P 3 -> P 4 -> P 5 -> P 6 -> P 7 ->
  forall off, 0 <= off < 8 -> P off.
Proof.
  intros ???????? off Ho.
  assert (off = 0 \/ off = 1 \/ off = 2 \/ off = 3 \/ off = 4 \/ off = 5 \/ off = 6 \/ off = 7) as Hc by lia.
  by repeat destruct Hc as [->|Hc]; [..|subst].
Qed.

Lemma iir_reason a : (reason (t_iir a) =? 1) = (t_cause a =? 2).
Proof.
  unfold t_iir, t_cause.
  destruct (Z.testbit (t_fcr a) 0), (Z.testbit (t_ier a) 0 && held a), (Z.testbit (t_ier a) 1 && thre a),
    (Z.testbit (t_ier a) 3 && interrupt_pending (t_msr a)); reflexivity.
Qed.

Lemma read_byte_shows off u a : 0 <= off < 8 -> shows u a (t_iir a) ->
  exists u', read_byte off u = (Ok (t_reg off a), u') /\ exists iir, shows u' (t_after_read off a) iir.
Proof.
  revert off. intros off Ho Hs. destruct u as [r rx tx p].
  pose proof Hs as [[thr Hr] Hip Hh Hrx Hc Hop Ht Hto]. simpl in *. subst r p.
  assert (forall iir, divisor_latch_enable (layout_of a thr iir) = t_dlab a) as Hd by done.
  revert off Ho. apply off_cases; unfold read_byte, bind, gets, modify, unwrap; cbn [Z.eqb reg];
    rewrite ?Hd; simpl; rewrite ?andb_true_r, ?andb_false_r.
  1: destruct (t_dlab a) eqn:Ed; simpl; unfold t_dlab in Ed;
    unfold divisor_latch_enable, divisor_latch_access; simpl; rewrite ?Ed.
  all: eexists; split; [reflexivity|]; simpl; eauto.
  - eexists. constructor; simpl; try done.
    + exists thr. unfold layout_of, t_rbr, t_lsr; simpl. by destruct (held a).
    + unfold ip_of. simpl. by destruct (held a), (thre a).
  - unfold try_clear_thre_interrupt. simpl. rewrite iir_reason. destruct (t_cause a =? 2); [|eauto].
    eexists. apply update_iir_shows with (iir := t_iir a). constructor; simpl; eauto.
    unfold ip_of. simpl. by destruct (held a), (thre a).
  - eexists. constructor; simpl; eauto.
    + exists thr. unfold layout_of, t_lsr; simpl. by destruct (held a).
    + unfold ip_of. by destruct (held a), (thre a).
  - eexists. constructor; simpl; eauto. unfold ip_of. simpl. by destruct (held a), (thre a).
Qed.

Lemma clear_delta_byte m : uint 8 m -> uint 8 (clear_delta_indicators m).
Proof.
  intros Hm. unfold clear_delta_indicators, put_bit, Z.clearbit.
  assert (forall x y, uint 8 x -> uint 8 (Z.ldiff x y)) as Hl; [|by auto].
  intros x y Hx. apply uint_of_bits; [lia|apply Z.ldiff_nonneg; left; apply Hx|].
  intros i Hi. by rewrite Z.ldiff_spec, (uint_testbit_high 8 x).
Qed.

Lemma byte_0 : uint 8 0.
Proof. by apply uint_0. Qed.

(** Every element of a list of registers is a byte. *)
Ltac solve_bytes :=
  repeat match goal with |- Forall _ [] => constructor | |- Forall _ (_ :: _) => constructor end;
  auto using clear_delta_byte, Forall_tail, byte_0.

Lemma t_iir_byte a : uint 8 (t_iir a).
Proof.
  unfold t_iir, t_cause, uint.
  destruct (Z.testbit (t_fcr a) 0), (Z.testbit (t_ier a) 0 && held a), (Z.testbit (t_ier a) 1 && thre a),
    (Z.testbit (t_ier a) 3 && interrupt_pending (t_msr a)); by vm_compute.
Qed.

Lemma t_rbr_byte a : bytes_ok a -> (held a = true -> pend a <> []) -> uint 8 (t_rbr a).
Proof.
  intros [Hp Hr] Hh. unfold t_rbr. destruct (held a); [|by inversion Hr].
  destruct (pend a); [by destruct (Hh eq_refl)|]. by inversion Hp.
Qed.

Lemma t_reg_byte off a : 0 <= off < 8 -> bytes_ok a -> (held a = true -> pend a <> []) -> uint 8 (t_reg off a).
Proof.
  intros Ho Hb Hh. pose proof (t_rbr_byte a Hb Hh). pose proof (t_iir_byte a).
  destruct Hb as [_ Hr]. decompose_Forall_hyps.
  assert (uint 8 (t_lsr a)) by (unfold t_lsr, uint; by destruct (held a); vm_compute).
  revert off Ho. apply off_cases; simpl; by repeat case_match.
Qed.

Lemma after_read_bytes off a : 0 <= off < 8 -> bytes_ok a -> (held a = true -> pend a <> []) ->
  bytes_ok (t_after_read off a).
Proof.
  intros Ho Hb Hh. pose proof (t_rbr_byte a Hb Hh). pose proof Hb as [Hp Hr].
  decompose_Forall_hyps.
  revert off Ho. apply off_cases; simpl; repeat case_match; try done; split; simpl; try done;
    solve_bytes.
Qed.

Lemma read_sim off u a : 0 <= off < 8 -> rel u a ->
  exists u', Uart_read off 1 u = (Ok (fst (t_read off a)), u') /\ rel u' (snd (t_read off a)).
Proof.
  intros Ho [Hb [iir Hs]]. apply refresh_shows in Hs.
  destruct (read_byte_shows off _ _ Ho Hs) as (u' & E & iir' & Hs').
  eexists. unfold Uart_read, bind, modify, ret. change (Z.to_nat 1) with 1%nat. cbn [read_bytes].
  unfold bind. rewrite E. unfold ret, t_read. simpl.
  assert (uint 8 (t_reg off (t_poll a))) as Hv by (apply t_reg_byte; [done..|apply Hs]).
  split.
  - rewrite Z.sub_diag, Z.mul_0_r. unfold shl. rewrite Z.shiftl_0_r, wrap_small; [done|].
    by eapply uint_weaken, Hv.
  - split; [|eauto using refresh_shows]. apply poll_bytes_ok, after_read_bytes; [done..|apply Hs].
Qed.

Lemma drain_law n q : (length (queued q) < n)%nat ->
  queued (drain n q) = [] /\ capacity (drain n q) = capacity q /\ is_open (drain n q) = is_open q.
Proof.
  revert q. induction n as [|n IH]; intros q Hn; [lia|]. cbn [drain].
  destruct (try_recv_law q) as (E1 & E2 & E3 & E4). destruct (try_recv q) as [[x|] q']; simpl in *.
  - destruct (queued q) as [|y l]; [done|]. simpl in *. rewrite <- E3, <- E4. apply IH. rewrite E2. lia.
  - destruct (queued q); [|done]. by rewrite E2, E3, E4.
Qed.

#[local] Arguments drain : simpl never.

Lemma fifo_resets_shows v u a iir : t_fcr a = v -> shows u a iir -> exists iir', shows (fifo_resets u) (t_fcr_write v a) iir'.
Proof.
  intros Hf Hs. destruct u as [r rx tx p].
  pose proof Hs as [[thr Hr] Hip Hh Hrx Hc Hop Ht Hto]. simpl in *. subst r p.
  destruct (drain_law (S (length (queued rx))) rx) as (E1 & E2 & E3); [lia|].
  unfold fifo_resets, t_fcr_write. simpl. rewrite Hf.
  destruct (receiver_fifo_reset v), (transmitter_fifo_reset v); eexists; [..|exact Hs];
    (constructor; [exists thr|..]; simpl; rewrite ?E2, ?E3; try done; unfold layout_of, ip_of, t_rbr, t_lsr; simpl;
     by destruct (held a), (thre a)).
Qed.

Lemma send_shows v u a iir : uint 8 v -> shows u a iir ->
  shows (upd_ip (insert_reason TransmitterHoldingRegisterEmpty) (send (Z.land v 0xff) u))
    (t_output (out a ++ [v]) true a) iir.
Proof.
  intros Hv [[thr Hr] Hip Hh Hrx Hc Hop Ht [Hto Htc]].
  change 0xff with (Z.ones 8). rewrite Z.land_ones, Z.mod_small by (done || lia).
  pose proof (try_send_law v (output_tx u)) as Hl. rewrite Hto in Hl. unfold has_room in Hl. rewrite Htc in Hl.
  destruct Hl as (q & Eq & E1 & E2 & E3). unfold send. rewrite Eq.
  constructor; simpl; eauto; try congruence.
  rewrite Hip. unfold ip_of. simpl. by destruct (held a), (thre a).
Qed.

Lemma write_byte_shows off v u a iir : 0 <= off < 8 -> off <> LSR_offset -> uint 8 v -> shows u a iir ->
  exists u', write_byte off v u = (Ok tt, u') /\ exists iir', shows u' (t_write off v a) iir'.
Proof.
  intros Ho Hne Hv Hs. destruct u as [r rx tx p].
  pose proof Hs as [[thr Hr] Hip Hh Hrx Hc Hop Ht Hto]. simpl in *. subst r p.
  assert (forall iir, divisor_latch_enable (layout_of a thr iir) = t_dlab a) as Hd by done.
  assert (wrap 8 v = v) as Hw by by apply wrap_small.
  revert off Ho Hne. apply (off_cases (fun off => _ <> _ -> _)); intros Hne;
    unfold write_byte, bind, gets, modify, unwrap; cbn [Z.eqb reg]; rewrite ?Hw, ?Hd; simpl; rewrite ?Hd.
  all: try by destruct Hne.
  all: try (eexists; split; [reflexivity|]; eexists; eapply update_iir_shows; constructor; simpl; eauto; fail).
  - unfold t_write. destruct (t_dlab a) eqn:Ed; simpl.
    + rewrite Hd. eexists; split; [reflexivity|]; eexists; eapply update_iir_shows; constructor; simpl; eauto.
    + pose proof (send_shows v _ a iir Hv Hs) as Hs'.
      destruct (send (Z.land v 255) _) as [r1 rx1 tx1 p1] eqn:Es.
      pose proof Hs' as [[thr' Hr'] Hip' _ Hrx' Hc' Hop' Ht' Hto']. simpl in *. rewrite Hr'.
      eexists; split; [reflexivity|]; eexists; eapply update_iir_shows; constructor; simpl; eauto.
      unfold divisor_latch_enable, divisor_latch_access. simpl. unfold t_dlab in Ed. rewrite Ed. by exists v.
  - unfold t_write. eexists; split; [reflexivity|]; eexists; eapply update_iir_shows.
    unfold divisor_latch_enable, divisor_latch_access. destruct (t_dlab a) eqn:Ed; unfold t_dlab in Ed; simpl;
      rewrite Ed; simpl; [constructor; simpl; eauto|].
    unfold try_raise_thre_interrupt, transmitter_holding_register_empty_interrupt. simpl.
    replace (transmit_holding_empty (t_lsr a)) with true by (unfold t_lsr; by destruct (held a)).
    rewrite andb_true_r. destruct (negb _ && _); constructor; simpl; eauto.
    unfold ip_of. simpl. by destruct (held a), (thre a).
  - edestruct (fifo_resets_shows v) as [iir' Hf];
      [..|eexists; split; [reflexivity|]; eexists; eapply update_iir_shows; exact Hf]; [done|].
    constructor; simpl; eauto.
Qed.

Lemma t_write_bytes off v a : 0 <= off < 8 -> uint 8 v -> bytes_ok a -> bytes_ok (t_write off v a).
Proof.
  intros Ho Hv Hb. pose proof Hb as [Hp Hr]. decompose_Forall_hyps.
  revert off Ho. apply off_cases; unfold t_write, t_fcr_write; simpl; repeat case_match; split; simpl; solve_bytes.
Qed.

Lemma write_sim off v u a : 0 <= off < 8 -> off <> LSR_offset -> uint 8 v -> rel u a ->
  exists u', Uart_write off 1 v u = (Ok tt, u') /\ rel u' (t_write off v a).
Proof.
  intros Ho Hne Hv [Hb [iir Hs]]. destruct (write_byte_shows off v u a iir Ho Hne Hv Hs) as (u' & E & iir' & Hs').
  exists u'. unfold Uart_write. change (Z.to_nat 1) with 1%nat. cbn [write_bytes].
  rewrite (bind_Ok _ _ _ _ _ E). split; [done|]. split; [by apply t_write_bytes|eauto].
Qed.

Lemma irq_sim u a : rel u a ->
  fst (Uart_irq_level u) = t_level (t_poll a) /\ rel (snd (Uart_irq_level u)) (t_poll a).
Proof.
  intros [Hb [iir Hs]]. apply refresh_shows in Hs. split; [|split; [done|eauto]].
  destruct Hs as [[thr Hr] _]. unfold Uart_irq_level. cbn [fst]. rewrite Hr. cbn [interrupt_identification_register layout_of].
  unfold t_iir, t_cause, t_level, pending_free_flag.
  destruct (Z.testbit (t_fcr (t_poll a)) 0), (Z.testbit (t_ier (t_poll a)) 0 && held (t_poll a)),
    (Z.testbit (t_ier (t_poll a)) 1 && thre (t_poll a)),
    (Z.testbit (t_ier (t_poll a)) 3 && interrupt_pending (t_msr (t_poll a))); reflexivity.
Qed.

Lemma push_from_sim bs : forall k u a, Forall (uint 8) bs -> rel u a ->
  let n := Nat.min (t_free a) (length bs) in
  exists u', push_from k bs u
    = ((if (n =? length bs)%nat then Ok tt else Err (InputFull (k + Z.of_nat n))), u') /\
    rel u' (t_input (pend a ++ take n bs) (held a) (last a) a).
Proof.
  induction bs as [|b bs IH]; intros k u a Hbs [Hb [iir Hs]].
  - exists u. rewrite Nat.min_0_r. split; [done|]. simpl. rewrite app_nil_r. split; [by destruct a|].
    exists iir. by destruct a.
  - inversion_clear Hbs as [|?? Hb0 Hbs']. pose proof Hs as [[thr Hr] Hip Hh Hrx Hc Hop Ht Hto].
    pose proof (try_send_law b (input_rx u)) as Hl. rewrite Hop in Hl. unfold has_room in Hl.
    rewrite Hc, Hrx in Hl. simpl push_from. unfold t_free.
    set (m := length (if held a then tail (pend a) else pend a)) in *.
    destruct (Nat.ltb_spec m (room a)) as [Hlt|Hge].
    + destruct Hl as (q & Eq & E1 & E2 & E3). rewrite Eq.
      assert (rel (upd_rx q u) (t_input (pend a ++ [b]) (held a) (last a) a)) as Hrel.
      { split; [split; [apply Forall_app_2; [apply Hb|solve_bytes]|apply Hb]|].
        exists iir. destruct (pend a) as [|x l] eqn:Ep, (held a) eqn:Eh; try by destruct (Hh eq_refl).
        all: constructor; [exists thr; simpl; rewrite Hr; unfold layout_of, t_rbr, t_lsr; simpl; by rewrite ?Eh, ?Ep|..].
        all: simpl in *; rewrite ?Hip; unfold ip_of; simpl; rewrite ?Eh, ?E1; congruence || done. }
      destruct (IH (k + 1) _ _ Hbs' Hrel) as (u' & Eu & Hu'). exists u'. rewrite Eu.
      assert (t_free (t_input (pend a ++ [b]) (held a) (last a) a) = room a - S m)%nat as Hfree.
      { unfold t_free, m. simpl. destruct (held a); [|rewrite length_app; simpl; lia].
        destruct (pend a); [by destruct (Hh eq_refl)|]. simpl. rewrite length_app. simpl. lia. }
      rewrite Hfree in *. replace (room a - m)%nat with (S (room a - S m)) by lia. simpl.
      simpl in Hu'. rewrite <- app_assoc in Hu'. simpl in Hu'. split; [|done].
      f_equal. destruct (_ =? _)%nat; [done|]. do 2 f_equal. lia.
    + rewrite Hl. exists u. replace (room a - m)%nat with 0%nat by lia. simpl.
      rewrite Z.add_0_r, app_nil_r. split; [done|]. split; [by destruct a|]. exists iir. by destruct a.
Qed.

Lemma recv_all_law n q : (length (queued q) < n)%nat ->
  fst (recv_all n q) = queued q /\ queued (snd (recv_all n q)) = [] /\
  capacity (snd (recv_all n q)) = capacity q /\ is_open (snd (recv_all n q)) = is_open q.
Proof.
  revert q. induction n as [|n IH]; intros q Hn; [lia|]. simpl.
  destruct (try_recv_law q) as (E1 & E2 & E3 & E4). destruct (try_recv q) as [[x|] q']; simpl in *.
  - destruct (queued q) as [|y l]; [done|]. simpl in *. destruct (IH q') as (F1 & F2 & F3 & F4); [rewrite E2; lia|].
    destruct (recv_all n q') as [l' q'']; simpl in *. split_and!; congruence.
  - destruct (queued q); [|done]. by rewrite E2, E3, E4.
Qed.

Lemma take_sim u a : rel u a ->
  fst (take_output u) = out a /\ rel (snd (take_output u)) (t_output [] (thre a) a).
Proof.
  intros [Hb [iir [[thr Hr] Hip Hh Hrx Hc Hop Ht Hto]]]. unfold take_output.
  destruct (recv_all_law (S (length (queued (output_tx u)))) (output_tx u)) as (F1 & F2 & F3 & F4); [lia|].
  destruct (recv_all _ _) as [l q]; simpl in *. split; [congruence|]. split; [done|].
  exists iir. constructor; simpl; eauto. by rewrite F3, F4.
Qed.

Lemma step_sim op u a : op_ok op -> rel u a ->
  fst (uart_step op u) = fst (t_step op a) /\ rel (snd (uart_step op u)) (snd (t_step op a)).
Proof.
  intros Ho Hrel. destruct op as [off|off v| |bs|]; simpl in Ho; unfold uart_step, t_step.
  - by destruct (read_sim off u a Ho Hrel) as (u' & -> & Hr).
  - destruct Ho as (Ho & Hne & Hv). by destruct (write_sim off v u a Ho Hne Hv Hrel) as (u' & -> & Hr).
  - destruct (irq_sim u a Hrel) as [E1 E2]. destruct (Uart_irq_level u). cbn [fst snd] in *. by rewrite E1.
  - by destruct (push_from_sim bs 0 u a Ho Hrel) as (u' & E & Hr); unfold push_input; rewrite E.
  - destruct (take_sim u a Hrel) as [E1 E2]. destruct (take_output u). cbn [fst snd] in *. by rewrite E1.
Qed.

(** A run: what is observed of each access, and the final state. *)
Fixpoint run {S} (step : UartOp -> S -> Obs * S) (ops : list UartOp) (s : S) : list Obs * S :=
  match ops with
  | [] => ([], s)
  | op :: ops => let '(o, s1) := step op s in let '(os, s2) := run step ops s1 in (o :: os, s2)
  end.

Lemma run_sim ops : forall u a, Forall op_ok ops -> rel u a ->
  fst (run uart_step ops u) = fst (run t_step ops a) /\ rel (snd (run uart_step ops u)) (snd (run t_step ops a)).
Proof.
  induction ops as [|op ops IH]; intros u a Hok Hrel; [done|]. inversion_clear Hok.
  destruct (step_sim op u a) as [E1 E2]; [done..|]. simpl.
  destruct (uart_step op u) as [o u1], (t_step op a) as [o' a1]; simpl in *. subst o'.
  destruct (IH u1 a1) as [F1 F2]; [done..|].
  destruct (run uart_step ops u1), (run t_step ops a1); simpl in *. by subst.
Qed.

(** ** Streams of bytes

    One access moves bytes: [byte_read] from the device to the guest,
    [bytes_in] from the host, [byte_written] from the guest, [bytes_out] to
    the host.  [data] says that a byte is available, [dlab] that the divisor
    latch hides the data registers. *)
Definition byte_read (dlab data : bool) (op : UartOp) (o : Obs) : list Z :=
  match op, o with
  | ORead 0, SawValue (Ok v) => if negb dlab && data then [v] else []
  | _, _ => []
  end.
Definition bytes_in (op : UartOp) (o : Obs) : list Z :=
  match op, o with
  | OPush bs, SawPush (Ok _) => bs
  | OPush bs, SawPush (Err (InputFull n)) => take (Z.to_nat n) bs
  | _, _ => []
  end.
Definition byte_written (dlab : bool) (op : UartOp) : list Z :=
  match op with OWrite 0 v => if dlab then [] else [v] | _ => [] end.
Definition bytes_out (op : UartOp) (o : Obs) : list Z :=
  match op, o with OTake, SawBytes l => l | _, _ => [] end.

Definition discards_input (op : UartOp) : bool :=
  match op with OWrite 2 v => receiver_fifo_reset v | _ => false end.

Lemma t_step_input op a : op_ok op -> discards_input op = false -> (held a = true -> pend a <> []) ->
  byte_read (t_dlab a) (negb (bool_decide (pend a = []))) op (fst (t_step op a)) ++ pend (snd (t_step op a))
  = pend a ++ bytes_in op (fst (t_step op a)).
Proof.
  intros Ho Hd Hh. destruct op as [off|off v| |bs|]; simpl; rewrite ?app_nil_r; try done.
  - simpl in Ho. revert off Ho Hd. apply (off_cases (fun off => _ -> _)); intros Hd; simpl;
      unfold t_rbr; simpl; try (by repeat case_match).
    unfold t_dlab. simpl. destruct (Z.testbit (t_lcr a) 7); simpl; [done|]. by destruct (pend a).
  - destruct Ho as (Ho & _ & _). revert off Ho Hd. apply (off_cases (fun off => _ -> _)); intros Hd; simpl;
      unfold t_write, t_fcr_write; simpl in Hd |- *; rewrite ?Hd; by repeat case_match.
  - f_equal. destruct (Nat.eqb_spec (Nat.min (t_free a) (length bs)) (length bs)) as [E|E]; [rewrite E; by rewrite firstn_all|].
    by rewrite Nat2Z.id.
Qed.

Lemma t_step_output op a : op_ok op ->
  bytes_out op (fst (t_step op a)) ++ out (snd (t_step op a)) = out a ++ byte_written (t_dlab a) op.
Proof.
  intros Ho. destruct op as [off|off v| |bs|]; simpl; rewrite ?app_nil_r; try done.
  - simpl in Ho. revert off Ho. apply off_cases; simpl; by repeat case_match.
  - destruct Ho as (Ho & _ & _). revert off Ho. apply off_cases; unfold t_write, t_fcr_write; simpl;
      rewrite ?app_nil_r; repeat case_match; simpl; by rewrite ?app_nil_r.
Qed.

(** The same streams on runs of the device. *)
Definition pending_in (u : Uart) : list Z :=
  (if receive_data_available (line_status_register (reg u)) then [receiver_buffer_register (reg u)] else [])
  ++ queued (input_rx u).
Definition latched (u : Uart) : bool := divisor_latch_access (line_control_register (reg u)).

Record Streams : Type := { s_read : list Z; s_in : list Z; s_written : list Z; s_out : list Z }.
Fixpoint streams (ops : list UartOp) (u : Uart) : Streams :=
  match ops with
  | [] => Build_Streams [] [] [] []
  | op :: ops =>
      let '(o, u') := uart_step op u in
      let s := streams ops u' in
      {| s_read := byte_read (latched u) (negb (bool_decide (pending_in u = []))) op o ++ s_read s;
         s_in := bytes_in op o ++ s_in s;
         s_written := byte_written (latched u) op ++ s_written s;
         s_out := bytes_out op o ++ s_out s |}
  end.

Lemma rel_view u a : rel u a ->
  latched u = t_dlab a /\ pending_in u = pend a /\ queued (output_tx u) = out a /\ (held a = true -> pend a <> []).
Proof.
  intros [_ [iir [[thr Hr] _ Hh Hrx _ _ Ht _]]]. unfold latched, pending_in. rewrite Hr. split_and!; try done.
  simpl. unfold t_lsr, t_rbr in *. rewrite Hrx. destruct (held a); [|done].
  destruct (pend a); [by destruct (Hh eq_refl)|done].
Qed.

Lemma streams_kept ops : forall u a, Forall op_ok ops -> Forall (fun op => discards_input op = false) ops -> rel u a ->
  s_read (streams ops u) ++ pending_in (snd (run uart_step ops u)) = pending_in u ++ s_in (streams ops u) /\
  s_out (streams ops u) ++ queued (output_tx (snd (run uart_step ops u))) = queued (output_tx u) ++ s_written (streams ops u).
Proof.
  induction ops as [|op ops IH]; intros u a Hok Hd Hrel; [by rewrite !app_nil_r|].
  inversion_clear Hok; inversion_clear Hd. destruct (rel_view u a Hrel) as (V1 & V2 & V3 & V4).
  destruct (step_sim op u a) as [E1 E2]; [done..|]. destruct (rel_view _ _ E2) as (_ & W2 & W3 & _).
  destruct (IH _ _ H2 H4 E2) as [F1 F2].
  pose proof (t_step_input op a H1 H3 V4) as G1. pose proof (t_step_output op a H1) as G2.
  simpl. destruct (uart_step op u) as [o u1]; cbn [fst snd] in *. subst o.
  destruct (run uart_step ops u1) as [os u2]; cbn [fst snd s_read s_in s_out s_written] in *.
  rewrite V1, V2, V3. split.
  - by rewrite <- app_assoc, F1, W2, !app_assoc, G1.
  - by rewrite <- app_assoc, F2, W3, !app_assoc, G2.
Qed.

Lemma new_rel rx tx cap : queued rx = [] -> capacity rx = Some cap -> is_open rx = true ->
  queued tx = [] -> capacity tx = None -> is_open tx = true -> rel (from_channel rx tx) (t_new cap).
Proof.
  intros. split; [split; simpl; solve_bytes; by vm_compute|].
  exists 0xC1. constructor; simpl; try done. by exists 0.
Qed.

(** C27: Seen through its byte-wide registers, its interrupt level and its host
    port, the UART behaves like a terminal with a receiver buffer in front of
    a bounded queue: for every sequence of accesses (register reads and
    writes, samples of the interrupt line, bytes pushed and taken by the host)
    that does not overwrite the read-only line status register, each access
    of a new UART returns what the terminal returns.  In particular no access
    panics, IIR names the highest-priority enabled cause, reading it retires
    the transmitter-empty event, and the line is up exactly when an enabled
    cause is there. *)
Theorem uart_refines_terminal rx tx cap ops :
  queued rx = [] -> capacity rx = Some cap -> is_open rx = true ->
  queued tx = [] -> capacity tx = None -> is_open tx = true -> Forall op_ok ops ->
  fst (run uart_step ops (from_channel rx tx)) = fst (run t_step ops (t_new cap)).
Proof. intros. apply run_sim; [done|]. by apply new_rel. Qed.

(** No byte is lost, duplicated or reordered by the UART.  Along every
    sequence of accesses of a new device that resets no receive FIFO, the
    bytes the guest reads, followed by those still in the device, are the
    bytes the host's pushes were told were accepted; and the bytes the host
    takes, followed by those still queued, are the bytes the guest wrote to
    the transmitter. *)
Theorem uart_streams rx tx cap ops :
  queued rx = [] -> capacity rx = Some cap -> is_open rx = true ->
  queued tx = [] -> capacity tx = None -> is_open tx = true ->
  Forall op_ok ops -> Forall (fun op => discards_input op = false) ops ->
  let u := from_channel rx tx in let u' := snd (run uart_step ops u) in
  s_read (streams ops u) ++ pending_in u' = s_in (streams ops u) /\
  s_out (streams ops u) ++ queued (output_tx u') = s_written (streams ops u).
Proof.
  intros Hrx Hc Ho Htx Htc Hto Hok Hd u u'.
  destruct (streams_kept ops u (t_new cap) Hok Hd) as [E1 E2]; [by apply new_rel|].
  subst u'. rewrite E1, E2. unfold u, pending_in. simpl. by rewrite Hrx, Htx.
Qed.
End Refinement.

(** ** The UART on the interrupt controller

    Sampling the level loads the receiver buffer, and sampling it again sees
    the same. *)
Lemma poll_loaded {Q} `{LawfulChannel Q} (u : Uart16550A Q) :
  let v := update_rx_status u in
  receive_data_available (line_status_register (reg v)) = true \/ fst (try_recv (input_rx v)) = None.
Proof.
  unfold update_rx_status. destruct (receive_data_available (line_status_register (reg u))) eqn:E; [by left|].
  destruct (try_recv_law (input_rx u)) as (E1 & E2 & _ & _).
  destruct (try_recv (input_rx u)) as [[x|] q]; [left|right]; simpl in *.
  - destruct (reg u). unfold receive_data_available, set_receive_data_available. simpl.
    by rewrite Z.setbit_eqb.
  - destruct (queued (input_rx u)); [|done]. destruct (try_recv_law q) as (F1 & _). by rewrite F1, E2.
Qed.

Lemma poll_settled {Q} `{LawfulChannel Q} (u : Uart16550A Q) :
  let v := update_rx_status u in
  reg (update_rx_status (update_iir v)) = reg (update_iir v) /\ ip (update_rx_status (update_iir v)) = ip v.
Proof.
  pose proof (poll_loaded u) as Hl. simpl in *. generalize dependent (update_rx_status u). intros v Hl.
  unfold update_rx_status. replace (line_status_register (reg (update_iir v))) with (line_status_register (reg v))
    by (by destruct v as [[] ???]). simpl.
  destruct Hl as [->|Hl]; [done|]. case_match; [done|].
  by destruct (try_recv (input_rx v)) as [[] ?].
Qed.

#[export] Instance uart_stable {Q} `{LawfulChannel Q} : StableDevice (Uart16550A Q).
Proof.
  intros u. unfold irq_level, Uart_plic, Uart_irq_level. cbn [fst snd].
  destruct (poll_settled u) as [Hr Hp].
  assert (forall w : Uart16550A Q, interrupt_identification_register (reg (update_iir w)) = compute_iir (reg w) (ip w))
    as Hi by (by intros [[] ???]).
  rewrite !Hi, Hr, Hp. by destruct (update_rx_status u) as [[] ???].
Qed.

(** A queue as a list with its capacity. *)
#[local] Instance list_channel : Channel (option nat * list Z) := {|
  try_recv q := (head (snd q), (fst q, tail (snd q)));
  try_send x q := if match fst q with None => true | Some n => (length (snd q) <? n)%nat end
                  then Sent (fst q, snd q ++ [x]) else Full;
  queued := snd; is_open _ := true; capacity := fst
|}.
#[local] Instance list_channel_lawful : LawfulChannel (option nat * list Z).
Proof.
  split; [done|]. intros x q. simpl. unfold has_room. simpl. destruct (match fst q with _ => _ end); [|done].
  by eexists.
Qed.

(** Enable both interrupts, receive more than fits, read it back, echo. *)
Definition demo_ops : list UartOp :=
  [OWrite 1 3; OIrq; ORead 2; OIrq; OPush [104; 105; 33]; OIrq; OPush [33]; ORead 5; ORead 2; ORead 0; ORead 0;
   OWrite 0 72; ORead 0; OWrite 0 73; OTake; ORead 2; ORead 5].

Lemma uart_refines_terminal_witness :
  fst (run uart_step demo_ops (from_channel (Some 2%nat, []) (None, [])))
  = fst (run t_step demo_ops (t_new 2)).
Proof. apply uart_refines_terminal; try reflexivity. repeat constructor; try done; vm_compute; done. Defined.

Lemma uart_streams_witness :
  let u := from_channel (Some 2%nat, []) (None, []) in let u' := snd (run uart_step demo_ops u) in
  s_read (streams demo_ops u) ++ pending_in u' = s_in (streams demo_ops u) /\
  s_out (streams demo_ops u) ++ queued (output_tx u') = s_written (streams demo_ops u) /\
  s_in (streams demo_ops u) = [104; 105; 33] /\ s_out (streams demo_ops u) = [72; 73].
Proof.
  edestruct (uart_streams (Some 2%nat, []) (None, []) 2 demo_ops) as [E1 E2]; try reflexivity.
  - repeat constructor; try done; vm_compute; done.
  - repeat constructor.
  - split_and!; [exact E1|exact E2|reflexivity|reflexivity].
Defined.
