(* ===== verification/Power.v ===== *)
(** * Small board devices and the id allocator (src/src/device/power_manager.rs,
    device/id_allocator.rs, device/device_manager.rs) *)

From stdpp Require Import pretty.
From S2P Require Import Prelude Utils TrapTypes Mmio Device.

(** [a * b] of width [w]. *)
Definition mul_chk `{Profile} {S E} (w a b : Z) : M S E Z :=
  if overflow_checks && (2 ^ w <=? a * b) then panic else ret (wrap w (a * b)).

(** [a <<= n]: a shift by the width or more panics when the profile checks for
    overflow, and otherwise shifts by [n] modulo the width. *)
Definition shl_chk `{Profile} {S E} (w a n : Z) : M S E Z :=
  if overflow_checks && (w <=? n) then panic else ret (shl w a (n mod w)).

(** ** Power manager

    [POWER_STATUS] is a static of the process, shared with the board. *)
Definition POWER_OFF_CODE : Z := 0x5555.
Definition POWER_MANAGER_SIZE : Z := 0x1000.

Record PowerManager : Type := { pm_reg : Z; POWER_STATUS : Z }.

(** [PowerManager::new] clears the static. *)
Definition PowerManager_new : PowerManager := {| pm_reg := 0; POWER_STATUS := 0 |}.

Section Power.
Context `{Profile}.

Definition debug_assert {S E} (b : bool) : M S E unit := assert (negb debug_assertions || b).

Definition pm_read_impl (t : UInt) (addr : Z) : M PowerManager MemError Z :=
  debug_assert (addr =? 0) ;;;
  debug_assert (2 <=? size_of t) ;;;
  r <- gets pm_reg ;;
  v <- shl_chk (BITS t) (wrap 8 (Z.shiftr r 8)) 8 ;;
  ret (Z.lor v (wrap 8 r)).

Definition pm_write_impl (t : UInt) (addr data : Z) : M PowerManager MemError unit :=
  debug_assert (addr =? 0) ;;;
  modify (fun p => {| pm_reg := wrap 16 data; POWER_STATUS := POWER_STATUS p |}) ;;;
  r <- gets pm_reg ;;
  if r =? POWER_OFF_CODE then modify (fun p => {| pm_reg := pm_reg p; POWER_STATUS := 0x5555 |}) else ret tt.

#[export] Instance PowerManager_device : DeviceTrait PowerManager := {|
  dev_read := dispatch_read pm_read_impl;
  dev_write := dispatch_write pm_write_impl;
  dev_sync := ret tt
|}.

(** ** Id allocator *)
Record MemMapInfo : Type := { mm_name : string; mm_base : Z; mm_size : Z; mm_irq : option Z }.
Record IdAllocator : Type := { id : Z; device_name : string; mem_base : Z; mem_size : Z; irq_base : option Z }.

Definition IdAllocator_new (start_id : Z) (name : string) (base size : Z) (irq : option Z) : IdAllocator :=
  {| id := start_id; device_name := name; mem_base := base; mem_size := size; irq_base := irq |}.

Definition IdAllocator_get {E} : M IdAllocator E MemMapInfo :=
  a <- gets (fun a => a) ;;
  offset <- mul_chk 64 (id a) (mem_size a) ;;
  base <- add_chk 64 (mem_base a) offset ;;
  irq <- match irq_base a with
         | None => ret None
         | Some base_irq => i <- add_chk 32 base_irq (wrap 32 (id a)) ;; ret (Some i)
         end ;;
  next <- add_chk 64 (id a) 1 ;;
  modify (fun a => {| id := next; device_name := device_name a; mem_base := mem_base a;
                      mem_size := mem_size a; irq_base := irq_base a |}) ;;;
  ret {| mm_name := (pretty (id a) ++ device_name a)%string; mm_base := base; mm_size := mem_size a; mm_irq := irq |}.

(** [n] calls of [get]. *)
Fixpoint get_many {E} (n : nat) : M IdAllocator E (list MemMapInfo) :=
  match n with
  | O => ret []
  | S n => i <- IdAllocator_get ;; l <- get_many n ;; ret (i :: l)
  end.

(** ** Power manager: what a write does *)
Lemma pm_write_run t data p : uint 64 data ->
  dispatch_write pm_write_impl 0 (size_of t) data p =
    (Ok tt, {| pm_reg := wrap 16 (truncate_from t data);
               POWER_STATUS := if wrap 16 (truncate_from t data) =? POWER_OFF_CODE then POWER_OFF_CODE else POWER_STATUS p |}).
Proof.
  intros Hd. unfold dispatch_write. rewrite width_of_len_size. unfold bind at 1, unwrap.
  unfold pm_write_impl, debug_assert, assert. rewrite Z.eqb_refl, orb_true_r. unfold bind, ret, modify, gets. simpl.
  by destruct (_ =? _).
Qed.

Lemma get_run {E} a : 0 <= id a -> 0 <= mem_size a -> 0 <= mem_base a ->
  mem_base a + id a * mem_size a < 2 ^ 64 -> id a + 1 < 2 ^ 32 ->
  (forall q, irq_base a = Some q -> 0 <= q /\ q + id a < 2 ^ 32) ->
  IdAllocator_get (E := E) a =
    (Ok {| mm_name := (pretty (id a) ++ device_name a)%string; mm_base := mem_base a + id a * mem_size a;
           mm_size := mem_size a; mm_irq := (fun q => q + id a) <$> irq_base a |},
     {| id := id a + 1; device_name := device_name a; mem_base := mem_base a; mem_size := mem_size a; irq_base := irq_base a |}).
Proof.
  intros Hi Hs Hb Hlt Hi32 Hq. assert (0 <= id a * mem_size a) by nia.
  unfold IdAllocator_get, bind at 1, gets, mul_chk, add_chk.
  rewrite (proj2 (Z.leb_gt _ (id a * mem_size a))), andb_false_r, (wrap_small 64 (id a * mem_size a)) by (unfold uint; lia).
  unfold bind at 1, ret at 1. rewrite (proj2 (Z.leb_gt _ (mem_base a + _))), andb_false_r, (wrap_small 64 (mem_base a + _)) by (unfold uint; lia).
  unfold bind at 1, ret at 1. rewrite (wrap_small 32 (id a)) by (unfold uint; lia).
  rewrite (proj2 (Z.leb_gt _ (id a + 1))), andb_false_r, (wrap_small 64 (id a + 1)) by (unfold uint; lia).
  destruct (irq_base a) as [q|] eqn:Eq; simpl; [|unfold bind, ret, modify; by rewrite Eq].
  destruct (Hq q eq_refl). rewrite (proj2 (Z.leb_gt (2 ^ 32) (q + id a))), andb_false_r, wrap_small by (unfold uint; lia).
  unfold bind, ret, modify. by rewrite Eq.
Qed.
End Power.
