(* ===== verification/Clock.v ===== *)
(** * The virtual clock and the timer (src/src/clock.rs)

    The clock is the board's cycle counter divided by eight.  The timer keeps
    its tasks sorted by due time with [sort_unstable_by_key], which does not
    say how equal keys are ordered: the theorems hold for every such sort.  A
    task's callback acts on the world [W] outside the timer. *)

From stdpp Require Import sorting.
From S2P Require Import Prelude Utils.

Definition VirtualClock_now (cycles : Z) : Z := Z.shiftr cycles 3.

Record ScheduledTask (C : Type) : Type := { due : Z; seq : Z; callback : C }.
Arguments due {C} _.
Arguments seq {C} _.
Arguments callback {C} _.
Arguments Build_ScheduledTask {C} _ _ _.

Record Timer (C : Type) : Type := { next_seq : Z; tasks : list (ScheduledTask C) }.
Arguments next_seq {C} _.
Arguments tasks {C} _.
Arguments Build_Timer {C} _ _.

(** [slice::sort_unstable_by_key] with the due time as key. *)
Class SortUnstable (C : Type) : Type := {
  sort_unstable_by_due : list (ScheduledTask C) -> list (ScheduledTask C);
  sort_unstable_perm : forall l, sort_unstable_by_due l ≡ₚ l;
  sort_unstable_sorted : forall l, StronglySorted (fun a b => due a <= due b) (sort_unstable_by_due l)
}.

(** [Clock] and the callbacks as the timer sees them. *)
Class TimerWorld (W C : Type) : Type := {
  now : W -> Z;
  run_callback : C -> W -> option W
}.

Section Timer.
Context {C : Type} `{SortUnstable C} `{Profile}.
Abbreviation TM := (M (Timer C)).

Definition u64_MAX : Z := MAX U64.

Definition ScheduledTask_new (s : Z) (cb : C) : ScheduledTask C := Build_ScheduledTask u64_MAX s cb.
Definition Timer_new : Timer C := Build_Timer 0 [].

Definition register {E} (cb : C) : TM E Z :=
  s <- gets next_seq ;;
  s' <- add_chk 64 s 1 ;;
  modify (fun t => Build_Timer s' (tasks t ++ [ScheduledTask_new s cb])) ;;;
  sub_chk 64 s' 1.

Definition build (t : Timer C) : Timer C := Build_Timer (next_seq t) (sort_unstable_by_due (tasks t)).

Definition with_due (d : Z) (t : ScheduledTask C) : ScheduledTask C := Build_ScheduledTask d (seq t) (callback t).

(** [TimerGuard::set_due]: the first task with the id. *)
Fixpoint set_first_due (s new_due : Z) (l : list (ScheduledTask C)) : list (ScheduledTask C) :=
  match l with
  | [] => []
  | t :: l => if seq t =? s then with_due new_due t :: l else t :: set_first_due s new_due l
  end.
Definition guard_set_due (s new_due : Z) (t : Timer C) : Timer C := Build_Timer (next_seq t) (set_first_due s new_due (tasks t)).

(** [set_due]: through a guard, whose drop rebuilds the timer. *)
Definition set_due (s new_due : Z) (t : Timer C) : Timer C := build (guard_set_due s new_due t).

Definition saturating_add (a b : Z) : Z := Z.min (a + b) u64_MAX.
Definition set_delay (s delay time : Z) (t : Timer C) : Timer C := set_due s (saturating_add time delay) t.

Definition next_due (t : Timer C) : option Z := due <$> head (tasks t).

Section Tick.
Context {W : Type} `{TimerWorld W C}.

(** [iter_mut().take_while(due <= now).for_each(..)]: the tasks afterwards. *)
Fixpoint run_due {E} (time : Z) (l : list (ScheduledTask C)) : M W E (list (ScheduledTask C)) :=
  match l with
  | [] => ret []
  | t :: l =>
      if due t <=? time then
        w <- gets (run_callback (callback t)) ;; w <- unwrap w ;; modify (fun _ => w) ;;;
        l' <- run_due time l ;; ret (with_due u64_MAX t :: l')
      else ret (t :: l)
  end.

Definition tick {E} : M (Timer C * W) E unit := fun '(t, w) =>
  match run_due (now w) (tasks t) w with
  | (Ok l, w') => (Ok tt, (build (Build_Timer (next_seq t) l), w'))
  | (Err e, w') => (Err e, (t, w'))
  | (Panic, w') => (Panic, (t, w'))
  end.
End Tick.

(** ** The timer's invariant *)
Record timer_ok (t : Timer C) : Prop := {
  tm_sorted : StronglySorted (fun a b => due a <= due b) (tasks t);
  tm_dues : Forall (fun a => 0 <= due a <= u64_MAX) (tasks t);
  tm_ids : NoDup (seq <$> tasks t);
  tm_fresh : Forall (fun a => 0 <= seq a < next_seq t) (tasks t)
}.

Definition due_of (s : Z) (t : Timer C) : option Z := due <$> List.find (fun a => seq a =? s) (tasks t).

Lemma timer_new_ok : timer_ok Timer_new.
Proof. split; cbn; constructor. Qed.

Lemma find_in (l : list (ScheduledTask C)) a : NoDup (seq <$> l) -> a ∈ l ->
  List.find (fun b => seq b =? seq a) l = Some a.
Proof.
  induction l as [|b l IH]; intros Hnd Hin; [by apply not_elem_of_nil in Hin|].
  cbn in *. apply list.NoDup_cons in Hnd as [Hni Hnd]. apply list.elem_of_cons in Hin as [->|Hin]; [by rewrite Z.eqb_refl|].
  destruct (Z.eqb_spec (seq b) (seq a)) as [E|]; [|by apply IH]. destruct Hni. rewrite E. by apply list_elem_of_fmap_2.
Qed.

Lemma find_seq (l : list (ScheduledTask C)) s a : List.find (fun b => seq b =? s) l = Some a -> a ∈ l /\ seq a = s.
Proof.
  intros Hf. apply List.find_some in Hf as [Hin Hs%Z.eqb_eq]. split; [by apply list_elem_of_In|done].
Qed.

(** Ids are unique, so the order of the tasks does not matter for a lookup. *)
Lemma find_perm (l l' : list (ScheduledTask C)) s : l ≡ₚ l' -> NoDup (seq <$> l) ->
  List.find (fun b => seq b =? s) l = List.find (fun b => seq b =? s) l'.
Proof.
  intros Hp Hnd. assert (NoDup (seq <$> l')) as Hnd' by (by rewrite <- Hp).
  destruct (List.find _ l) as [a|] eqn:Ea.
  - destruct (find_seq _ _ _ Ea) as [Hin <-]. symmetry. apply find_in; [done|]. by rewrite <- Hp.
  - destruct (List.find _ l') as [a|] eqn:Ea'; [|done]. destruct (find_seq _ _ _ Ea') as [Hin <-].
    rewrite <- Hp in Hin. by rewrite find_in in Ea.
Qed.

Lemma build_ok t : Forall (fun a => 0 <= due a <= u64_MAX) (tasks t) -> NoDup (seq <$> tasks t) ->
  Forall (fun a => 0 <= seq a < next_seq t) (tasks t) -> timer_ok (build t).
Proof. intros. split; cbn; [apply sort_unstable_sorted|by rewrite sort_unstable_perm..]. Qed.

Lemma due_of_build s t : NoDup (seq <$> tasks t) -> due_of s (build t) = due_of s t.
Proof. intros Hnd. unfold due_of. cbn. f_equal. symmetry. apply find_perm; [by rewrite sort_unstable_perm|done]. Qed.

Lemma set_first_due_seqs s d l : seq <$> set_first_due s d l = seq <$> l.
Proof. induction l as [|a l IH]; [done|]. cbn. case_match; cbn; [done|by rewrite IH]. Qed.

Lemma set_first_due_Forall (P : ScheduledTask C -> Prop) s d l :
  (forall a, P a -> P (with_due d a)) -> Forall P l -> Forall P (set_first_due s d l).
Proof.
  intros HP. induction 1 as [|a l Ha Hl IH]; [constructor|]. cbn. case_match; constructor; auto.
Qed.

Lemma set_first_due_find s d s' l :
  due <$> List.find (fun a => seq a =? s') (set_first_due s d l) =
  (if s' =? s then (fun _ => d) <$> List.find (fun a => seq a =? s') l else due <$> List.find (fun a => seq a =? s') l).
Proof.
  induction l as [|a l IH]; [by case_match|]. cbn [set_first_due List.find].
  destruct (Z.eqb_spec (seq a) s) as [<-|Hs]; cbn [List.find seq with_due].
  - rewrite (Z.eqb_sym s'). destruct (Z.eqb_spec (seq a) s'); [done|]. done.
  - destruct (Z.eqb_spec (seq a) s') as [<-|]; [|done]. destruct (Z.eqb_spec (seq a) s); [done|done].
Qed.

Lemma set_due_ok t s d : timer_ok t -> 0 <= d <= u64_MAX -> timer_ok (set_due s d t) /\
  forall s', due_of s' (set_due s d t) = if s' =? s then (fun _ => d) <$> due_of s' t else due_of s' t.
Proof.
  intros [Hso Hdu Hid Hfr] Hd. assert (NoDup (seq <$> tasks (guard_set_due s d t))) as Hnd by (cbn; by rewrite set_first_due_seqs).
  split.
  - apply build_ok; [|done|]; cbn; by apply set_first_due_Forall.
  - intros s'. unfold set_due. rewrite due_of_build by done. unfold due_of. cbn. rewrite set_first_due_find.
    case_match; [|done]. by destruct (List.find _ _).
Qed.

Lemma register_ok {E} t cb : timer_ok t -> 0 <= next_seq t < 2 ^ 64 - 1 ->
  exists t', register (E := E) cb t = (Ok (next_seq t), t') /\ timer_ok t' /\ due_of (next_seq t) t = None /\
    due_of (next_seq t) t' = Some u64_MAX /\ (forall s, s <> next_seq t -> due_of s t' = due_of s t).
Proof.
  intros [Hso Hdu Hid Hfr] Hs. set (s := next_seq t) in *.
  exists (Build_Timer (s + 1) (tasks t ++ [ScheduledTask_new s cb])).
  assert (List.find (fun a => seq a =? s) (tasks t) = None) as Hnone.
  { destruct (List.find _ _) as [a|] eqn:Ea; [|done]. destruct (find_seq _ _ _ Ea) as [Hin Hsa].
    eapply list.Forall_forall in Hfr; [|exact Hin]. cbn in Hfr. lia. }
  assert (forall k, List.find (fun a => seq a =? k) (tasks t ++ [ScheduledTask_new s cb]) =
    match List.find (fun a => seq a =? k) (tasks t) with Some a => Some a
    | None => if s =? k then Some (ScheduledTask_new s cb) else None end) as Hfind.
  { intros k. clear. induction (tasks t) as [|a l IH]; cbn; [done|]. by destruct (seq a =? k). }
  split_and!.
  - unfold register, bind, gets, add_chk, sub_chk, modify, ret. fold s.
    rewrite (proj2 (Z.leb_gt (2 ^ 64) (s + 1))), andb_false_r by lia. rewrite (wrap_small 64 (s + 1)) by (split; lia).
    destruct (Z.ltb_spec (s + 1) 1); [lia|]. rewrite andb_false_r. rewrite wrap_small by (split; lia).
    by replace (s + 1 - 1) with s by lia.
  - split; cbn.
    + apply StronglySorted_app_2; [|done|by repeat constructor].
      intros a b Ha ->%list_elem_of_singleton. eapply list.Forall_forall in Hdu as [_ Hm]; [exact Hm|exact Ha].
    + apply Forall_app; split; [done|]. constructor; [|constructor]. split; [done|apply Z.le_refl].
    + rewrite fmap_app. apply list.NoDup_app. split_and!; [done| |cbn; apply NoDup_singleton].
      intros k Hk ->%list_elem_of_singleton. cbn in Hk. apply list_elem_of_fmap_1 in Hk as (a & Hs' & Ha).
      eapply list.Forall_forall in Hfr; [|exact Ha]. cbn in *. lia.
    + apply Forall_app; split; [|by repeat constructor; cbn; lia]. eapply list.Forall_impl; [exact Hfr|]. intros a ?. cbn in *. lia.
  - unfold due_of. by rewrite Hnone.
  - unfold due_of. cbn. by rewrite Hfind, Hnone, Z.eqb_refl.
  - intros k Hk. unfold due_of. cbn. rewrite Hfind. destruct (List.find (fun a => seq a =? k) (tasks t)); [done|].
    destruct (Z.eqb_spec s k) as [<-|]; [by destruct Hk|done].
Qed.

(** ** Running the tasks that are due *)
Section TickSpec.
Context {W : Type} `{TimerWorld W C}.

(** The callbacks, one after the other. *)
Fixpoint run_callbacks (l : list (ScheduledTask C)) (w : W) : option W :=
  match l with [] => Some w | a :: l => w' ← run_callback (callback a) w; run_callbacks l w' end.

(** In a sorted list the tasks that are due are a prefix. *)
Lemma due_prefix (l : list (ScheduledTask C)) time : StronglySorted (fun a b => due a <= due b) l ->
  exists late soon, l = late ++ soon /\ Forall (fun a => due a <= time) late /\ Forall (fun a => time < due a) soon.
Proof.
  induction 1 as [|a l Hs IH Ha]; [by exists [], []|]. destruct (Z.leb_spec (due a) time) as [Hle|Hgt].
  - destruct IH as (late & soon & -> & Hl & Hr). exists (a :: late), soon. split_and!; [done|by constructor|done].
  - exists [], (a :: l). split_and!; [done|done|]. constructor; [done|].
    eapply list.Forall_impl; [exact Ha|]. cbn. intros b Hb. lia.
Qed.

Lemma run_due_spec {E} time late soon w : Forall (fun a => due a <= time) late -> Forall (fun a => time < due a) soon ->
  match run_callbacks late w with
  | Some w' => run_due (E := E) time (late ++ soon) w = (Ok ((with_due u64_MAX <$> late) ++ soon), w')
  | None => fst (run_due (E := E) time (late ++ soon) w) = Panic
  end.
Proof.
  intros Hlate Hsoon. revert w. induction Hlate as [|a late Ha Hlate IH]; intros w; cbn [app run_due run_callbacks fmap list_fmap].
  - destruct soon as [|b soon]; [done|]. apply list.Forall_cons in Hsoon as [Hb _]. cbn.
    by destruct (Z.leb_spec (due b) time); [lia|].
  - destruct (Z.leb_spec (due a) time); [|lia]. unfold bind, gets, unwrap, modify.
    destruct (run_callback (callback a) w) as [w1|]; cbn; [|done].
    specialize (IH w1). destruct (run_callbacks late w1) as [w2|].
    + by rewrite IH.
    + by destruct (run_due time (late ++ soon) w1) as [[| |] ?].
Qed.

(** a tick runs the callbacks of exactly the tasks that are due, in the order
    of their due times, and rearms none of them; the others keep their due
    time.  No task is lost and the tasks stay sorted, whatever order the
    unstable sort gives to tasks with equal due times.  A tick panics only
    when a callback does. *)
Theorem tick_runs_due_tasks {E : Type} (t : Timer C) (w : W) : timer_ok t ->
  exists late soon, tasks t = late ++ soon /\ (forall a, a ∈ late <-> a ∈ tasks t /\ due a <= now w) /\
    match run_callbacks late w with
    | None => fst (tick (E := E) (t, w)) = Panic
    | Some w' => exists t', tick (E := E) (t, w) = (Ok tt, (t', w')) /\ timer_ok t' /\ next_seq t' = next_seq t /\
        tasks t' ≡ₚ (with_due u64_MAX <$> late) ++ soon /\
        forall s, due_of s t' = (fun d => if d <=? now w then u64_MAX else d) <$> due_of s t
    end.
Proof.
  intros [Hso Hdu Hid Hfr]. destruct (due_prefix _ (now w) Hso) as (late & soon & Hl & Hlate & Hsoon).
  exists late, soon. split; [done|]. split.
  { intros a. rewrite Hl, list.elem_of_app. rewrite list.Forall_forall in Hlate, Hsoon. split.
    - intros Ha. split; [by left|by apply Hlate].
    - intros [[Ha|Ha] Hd]; [done|]. specialize (Hsoon a Ha). lia. }
  pose proof (run_due_spec (E := E) (now w) late soon w Hlate Hsoon) as Hr. unfold tick. rewrite Hl.
  destruct (run_callbacks late w) as [w'|]; [|by destruct (run_due _ _ w) as [[| |] ?]].
  rewrite Hr. set (l' := (with_due u64_MAX <$> late) ++ soon).
  assert (forall P : ScheduledTask C -> Prop, (forall a, P a -> P (with_due u64_MAX a)) -> Forall P (tasks t) -> Forall P l') as HP.
  { intros P HP. unfold l'. rewrite Hl, !Forall_app. intros [Hpl Hps]. split; [|done]. apply Forall_fmap.
    eapply list.Forall_impl; [exact Hpl|done]. }
  assert (seq <$> l' = seq <$> tasks t) as Hseq.
  { rewrite Hl. unfold l'. rewrite !fmap_app, <- list_fmap_compose. done. }
  assert (NoDup (seq <$> l')) as Hnd by (by rewrite Hseq).
  exists (build (Build_Timer (next_seq t) l')). split; [done|]. split; [|split; [done|split]].
  - apply build_ok; [apply HP; [|done]|done|by apply HP]. intros a _. cbn. unfold u64_MAX, MAX. split; [done|apply Z.le_refl].
  - cbn. apply sort_unstable_perm.
  - intros s. rewrite due_of_build by done. unfold due_of. cbn [tasks]. rewrite Hl. unfold l'. clear -Hlate Hsoon.
    induction Hlate as [|a late Ha Hlate IH]; cbn.
    + induction Hsoon as [|b soon Hb Hsoon IH]; cbn; [done|]. case_match; [cbn|done]. by destruct (Z.leb_spec (due b) (now w)); [lia|].
    + case_match; [cbn|done]. by destruct (Z.leb_spec (due a) (now w)); [|lia].
Qed.
End TickSpec.
End Timer.

(** ** Instances for the examples: any sort will do *)
Section MergeSort.
Context {C : Type}.
Definition due_le (a b : ScheduledTask C) : Prop := due a <= due b.
#[export] Instance due_le_dec : RelDecision due_le.
Proof. intros a b. unfold due_le. apply _. Defined.
#[export] Instance due_le_total : Total due_le.
Proof. intros a b. unfold due_le. lia. Qed.
#[export] Instance due_le_trans : Transitive due_le.
Proof. intros a b c. unfold due_le. lia. Qed.

Definition merge_sort_due : SortUnstable C := {|
  sort_unstable_by_due := merge_sort due_le;
  sort_unstable_perm := merge_sort_Permutation due_le;
  sort_unstable_sorted := StronglySorted_merge_sort due_le
|}.
End MergeSort.

(** A world that records the callbacks it ran. *)
#[local] Instance demo_world : TimerWorld (Z * list Z) Z := {|
  now := fst; run_callback := fun c w => Some (fst w, snd w ++ [c])
|}.
#[local] Existing Instance merge_sort_due.

Definition demo_timer : Timer Z := set_due 0 7 (set_due 2 5 (snd (register (E := unit) (H0 := release) 30
  (snd (register (E := unit) (H0 := release) 20 (snd (register (E := unit) (H0 := release) 10 Timer_new))))))).

Lemma demo_timer_ok : timer_ok demo_timer.
Proof.
  assert (tasks demo_timer = [Build_ScheduledTask 5 2 30; Build_ScheduledTask 7 0 10; Build_ScheduledTask u64_MAX 1 20]) as E
    by (vm_compute; reflexivity).
  split; [apply sort_unstable_sorted|rewrite E..].
  - repeat (apply list.Forall_cons; split; [split; [done|by vm_compute]|]). apply list.Forall_nil_2.
  - cbn. repeat (apply NoDup_cons_2; [set_solver|]). apply NoDup_nil_2.
  - change (next_seq demo_timer) with 3. repeat (apply list.Forall_cons; split; [cbn; lia|]). apply list.Forall_nil_2.
Qed.

Lemma tick_runs_due_tasks_witness : exists late soon, tasks demo_timer = late ++ soon /\
  (forall a, a ∈ late <-> a ∈ tasks demo_timer /\ due a <= 6) /\ snd (tick (E := unit) (demo_timer, (6, []))) = (Build_Timer 3
    [Build_ScheduledTask 7 0 10; Build_ScheduledTask u64_MAX 1 20; Build_ScheduledTask u64_MAX 2 30], (6, [30])).
Proof.
  destruct (tick_runs_due_tasks (E := unit) demo_timer (6, []) demo_timer_ok) as (late & soon & Hs & Hl & _).
  exists late, soon. split; [exact Hs|]. split; [exact Hl|]. vm_compute. reflexivity.
Defined.
