(* ===== verification/Clint.v ===== *)
(** * The core-local interruptor (src/src/device/aclint.rs)

    [mtime] is the virtual clock plus an offset, [mtimecmp] arms a task of the
    shared timer, and both drive the timer interrupt line of the hart; [msip]
    drives the software interrupt line.  The state is the timer together with
    what its callback and the device see: the device, the cycle counter and the
    harts behind the lines. *)

From S2P Require Import Prelude Utils TrapTypes Mmio Device Clock.

Definition CLINT_SIZE : Z := 0x10000.

Record Clint : Type := {
  hart_num : Z;
  msip_base : Z;
  time_base : Z;
  timecmp_base : Z;
  time_offset : Z;
  msip : list Z;
  time_cmp : list Z;
  timer_irq_line : option IRQLine;
  software_irq_line : option IRQLine;
  timer_cb_id : Z
}.

Definition set_time_offset v (c : Clint) : Clint :=
  Build_Clint (hart_num c) (msip_base c) (time_base c) (timecmp_base c) v (msip c) (time_cmp c)
    (timer_irq_line c) (software_irq_line c) (timer_cb_id c).
Definition set_msip v (c : Clint) : Clint :=
  Build_Clint (hart_num c) (msip_base c) (time_base c) (timecmp_base c) (time_offset c) v (time_cmp c)
    (timer_irq_line c) (software_irq_line c) (timer_cb_id c).
Definition set_time_cmp v (c : Clint) : Clint :=
  Build_Clint (hart_num c) (msip_base c) (time_base c) (timecmp_base c) (time_offset c) (msip c) v
    (timer_irq_line c) (software_irq_line c) (timer_cb_id c).
Definition set_irq_lines t s id (c : Clint) : Clint :=
  Build_Clint (hart_num c) (msip_base c) (time_base c) (timecmp_base c) (time_offset c) (msip c) (time_cmp c) t s id.

(** The callback the device registers. *)
Inductive Callback : Type := RaiseTimerIrq.

Record World (T : Type) : Type := { clint : Clint; cycles : Z; harts : list T }.
Arguments clint {T} _.
Arguments cycles {T} _.
Arguments harts {T} _.
Arguments Build_World {T} _ _ _.

Section Clint.
Context {T : Type} `{RiscvIRQHandler T} `{SortUnstable Callback} `{Profile}.
Abbreviation CM := (M (Timer Callback * World T)).

Definition clock_now (w : World T) : Z := VirtualClock_now (cycles w).

(** The closure follows its pointer to the line of the device. *)
#[export] Instance clint_world : TimerWorld (World T) Callback := {|
  now := clock_now;
  run_callback := fun _ w =>
    match timer_irq_line (clint w) with
    | Some line => match set_irq (E := unit) line true (harts w) with
                   | (Ok _, hs) => Some (Build_World (clint w) (cycles w) hs)
                   | _ => None
                   end
    | None => None
    end
|}.

Definition Clint_new (harts msip_b mtime_b mtimecmp_b clock : Z) : Clint := {|
  hart_num := harts; msip_base := msip_b; time_base := mtime_b; timecmp_base := mtimecmp_b;
  time_offset := negative_of clock;
  msip := replicate (Z.to_nat harts) 0; time_cmp := replicate (Z.to_nat harts) 0;
  timer_irq_line := None; software_irq_line := None; timer_cb_id := u64_MAX
|}.

Definition on_clint {E A} (f : Clint -> A) : CM E A := gets (fun s => f (clint (snd s))).
Definition modify_clint {E} (f : Clint -> Clint) : CM E unit :=
  modify (fun s => (fst s, Build_World (f (clint (snd s))) (cycles (snd s)) (harts (snd s)))).
Definition drive {E} (line : IRQLine) (level : bool) : CM E unit :=
  zoom (fun s => harts (snd s)) (fun s h => (fst s, Build_World (clint (snd s)) (cycles (snd s)) h)) (set_irq line level).
Definition current_clock {E} : CM E Z := gets (fun s => clock_now (snd s)).

Definition get_time {E} : CM E Z :=
  n <- current_clock ;; o <- on_clint time_offset ;; ret (wrap 64 (n + o)).

Definition update_timer {E} (hartid : nat) : CM E unit :=
  cs <- on_clint time_cmp ;;
  cmp <- unwrap (cs !! hartid) ;;
  time <- get_time ;;
  line <- on_clint timer_irq_line ;;
  line <- unwrap line ;;
  if cmp <=? time then drive line true
  else drive line false ;;;
       o <- on_clint time_offset ;;
       id <- on_clint timer_cb_id ;;
       modify (fun s => (set_due id (wrap 64 (cmp - o)) (fst s), snd s)).

(** [base <= addr && addr < base + (hart_num << shift)] *)
Definition in_block {E} (base shift addr : Z) : CM E bool :=
  if base <=? addr then n <- on_clint hart_num ;; e <- add_chk 64 base (shl 64 n shift) ;; ret (addr <? e)
  else ret false.

Definition read_impl (t : UInt) (addr : Z) : CM MemError Z :=
  mb <- on_clint msip_base ;;
  cb <- on_clint timecmp_base ;;
  tb <- on_clint time_base ;;
  in_msip <- in_block mb 2 addr ;;
  if (in_msip : bool) then
    let hartid := Z.to_nat (Z.shiftr (addr - mb) 2) in
    l <- on_clint msip ;;
    match l !! hartid with Some v => ret (truncate_from t v) | None => err MemLoadFault end
  else
  in_cmp <- in_block cb 3 addr ;;
  if (in_cmp : bool) then
    let hartid := Z.to_nat (Z.shiftr (addr - cb) 3) in
    l <- on_clint time_cmp ;;
    match l !! hartid with
    | None => err MemLoadFault
    | Some v =>
        if Z.land addr 7 =? 0 then ret (truncate_from t v)
        else if Z.land addr 7 =? 4 then ret (truncate_from t (Z.shiftr v 32))
        else err MemLoadFault
    end
  else if addr =? tb then time <- get_time ;; ret (truncate_from t time)
  else tb4 <- add_chk 64 tb 4 ;;
       if addr =? tb4 then time <- get_time ;; ret (truncate_from t (Z.shiftr time 32))
       else err MemLoadFault.

Fixpoint update_timers {E} (n i : nat) : CM E unit :=
  match n with O => ret tt | S n => update_timer i ;;; update_timers n (S i) end.

(** The new value of [mtime] for a write of [data] at its low or high word. *)
Definition new_mtime (t : UInt) (high : bool) (prev data : Z) : Z :=
  if high then concat_to_u64 (truncate_from U32 data) (truncate_from U32 (Z.land prev 0xffffffff))
  else if BITS t =? 32 then concat_to_u64 (truncate_from U32 (Z.shiftr prev 32)) (truncate_from U32 data)
  else truncate_from U64 data.

Definition write_mtime (t : UInt) (high : bool) (data : Z) : CM MemError unit :=
  curr_clocktime <- current_clock ;;
  prev_mtime <- get_time ;;
  modify_clint (set_time_offset (wrap 64 (new_mtime t high prev_mtime data - curr_clocktime))) ;;;
  n <- on_clint hart_num ;;
  update_timers (Z.to_nat n) 0.

Definition write_impl (t : UInt) (addr data : Z) : CM MemError unit :=
  mb <- on_clint msip_base ;;
  cb <- on_clint timecmp_base ;;
  tb <- on_clint time_base ;;
  in_msip <- in_block mb 2 addr ;;
  if (in_msip : bool) then
    let hartid := Z.to_nat (Z.shiftr (addr - mb) 2) in
    l <- on_clint msip ;;
    if (length l <=? hartid)%nat then err MemStoreFault
    else let val := truncate_from U32 data in
         modify_clint (set_msip (<[hartid := val]> l)) ;;;
         line <- on_clint software_irq_line ;;
         match line with Some irq => drive irq (negb (Z.land val 1 =? 0)) | None => ret tt end
  else
  in_cmp <- in_block cb 3 addr ;;
  if (in_cmp : bool) then
    let hartid := Z.to_nat (Z.shiftr (addr - cb) 3) in
    l <- on_clint time_cmp ;;
    match l !! hartid with
    | None => err MemStoreFault
    | Some old =>
        if Z.land addr 7 =? 0 then
          modify_clint (set_time_cmp (<[hartid := truncate_from U64 data]> l)) ;;; update_timer hartid
        else if Z.land addr 7 =? 4 then
          let timecmp_lo := truncate_from U32 (Z.land old 0xffffffff) in
          modify_clint (set_time_cmp (<[hartid := concat_to_u64 (truncate_from U32 data) timecmp_lo]> l)) ;;;
          update_timer hartid
        else ret tt
    end
  else if addr =? tb then write_mtime t false data
  else tb4 <- add_chk 64 tb 4 ;;
       if addr =? tb4 then write_mtime t true data else err MemStoreFault.

(** [RiscvIRQSource::set_irq_line]: line 0 is the timer's, line 1 the software
    interrupt's. *)
Definition set_irq_line {E} (line : IRQLine) (id : Z) : CM E unit :=
  s <- on_clint software_irq_line ;;
  t <- on_clint timer_irq_line ;;
  cb <- on_clint timer_cb_id ;;
  if id =? 0 then
    modify_clint (set_irq_lines (Some line) s cb) ;;;
    new_id <- zoom fst (fun s t => (t, snd s)) (register RaiseTimerIrq) ;;
    modify_clint (set_irq_lines (Some line) s new_id)
  else if id =? 1 then modify_clint (set_irq_lines t (Some line) cb)
  else ret tt.

#[export] Instance Clint_device : DeviceTrait (Timer Callback * World T) := {|
  dev_read := dispatch_read read_impl;
  dev_write := dispatch_write write_impl;
  dev_sync := ret tt
|}.
End Clint.
