(* ===== verification/ClintSpec.v ===== *)
(** * Correctness of the core-local interruptor

    On the board's layout (one hart, [msip] at 0, [mtimecmp] at 0x4000, [mtime]
    at 0xbff8): the timer interrupt pin after a tick is the comparison of
    [mtime] with [mtimecmp], over any sequence of accesses and passing time, as
    long as the due time fits the clock; when it does not, the interrupt is
    raised at once. *)

From S2P Require Import Prelude Utils TrapTypes Mmio Device PlicSpec Clock Clint.

Section Spec.
Context {T : Type} {I : T -> Prop} {supported : Interrupt -> Prop} {pin : Interrupt -> T -> bool}
  `{LawfulHandler T I supported pin} `{SortUnstable Callback} `{Profile}.
Abbreviation State := (Timer Callback * World T)%type.
Implicit Types s : State.

Definition mtime s : Z := wrap 64 (clock_now (snd s) + time_offset (clint (snd s))).
Definition mtimecmp s : Z := default 0 (head (time_cmp (clint (snd s)))).
Definition armed_due s : option Z := due_of (timer_cb_id (clint (snd s))) (fst s).
Definition pin_at s (l : IRQLine) : bool :=
  match harts (snd s) !! line_target l with Some t => pin (interrupt_nr l) t | None => false end.
Definition mtip s : bool := match timer_irq_line (clint (snd s)) with Some l => pin_at s l | None => false end.
Definition msip_pin s : bool := match software_irq_line (clint (snd s)) with Some l => pin_at s l | None => false end.

Definition line_ok s (l : IRQLine) : Prop :=
  supported (interrupt_nr l) /\ (line_target l < length (harts (snd s)))%nat.

(** The device on its board: the timer holds its task and nothing else. *)
Record clint_ok s : Prop := {
  co_map : hart_num (clint (snd s)) = 1 /\ msip_base (clint (snd s)) = 0 /\
           timecmp_base (clint (snd s)) = 0x4000 /\ time_base (clint (snd s)) = 0xbff8;
  co_offset : uint 64 (time_offset (clint (snd s)));
  co_cmp : exists c, time_cmp (clint (snd s)) = [c] /\ uint 64 c;
  co_msip : exists m, msip (clint (snd s)) = [m] /\ uint 32 m;
  co_cycles : uint 64 (cycles (snd s));
  co_timer : timer_ok (fst s) /\ exists d, tasks (fst s) = [Build_ScheduledTask d (timer_cb_id (clint (snd s))) RaiseTimerIrq];
  co_harts : Forall I (harts (snd s));
  co_timer_line : exists l, timer_irq_line (clint (snd s)) = Some l /\ line_ok s l;
  co_soft_line : forall l, software_irq_line (clint (snd s)) = Some l ->
    line_ok s l /\ timer_irq_line (clint (snd s)) <> Some l
}.

(** The pin is already right, or the task is due when the comparison becomes
    true. *)
Definition tracks s : Prop :=
  if mtip s then mtimecmp s <= mtime s
  else exists d, armed_due s = Some d /\ d - clock_now (snd s) = mtimecmp s - mtime s.

(** The due time as a clock value fits 64 bits. *)
Definition fits s : Prop := mtime s < mtimecmp s -> mtimecmp s - mtime s + clock_now (snd s) < 2 ^ 64.

Lemma clock_u64 s : clint_ok s -> uint 64 (clock_now (snd s)).
Proof.
  intros Hs. unfold clock_now, VirtualClock_now. apply uint_shiftr; [lia|lia|]. apply (co_cycles s Hs).
Qed.

Lemma mtime_u64 s : uint 64 (mtime s).
Proof. apply wrap_range. lia. Qed.

(** Driving a line changes its pin and no other. *)
Definition with_harts (hs : list T) s : State := (fst s, Build_World (clint (snd s)) (cycles (snd s)) hs).

Lemma drive_run {E} s l v : clint_ok s -> line_ok s l -> exists hs, drive (E := E) l v s = (Ok tt, with_harts hs s) /\
  clint_ok (with_harts hs s) /\ pin_at (with_harts hs s) l = v /\
  (forall l', line_ok s l' -> l' <> l -> pin_at (with_harts hs s) l' = pin_at s l') /\ length hs = length (harts (snd s)).
Proof.
  intros Hs [Hsup Htg]. destruct (lookup_lt_is_Some_2 _ _ Htg) as [t Et].
  destruct (handler_law (interrupt_nr l) v t Hsup (Forall_lookup_1 _ _ _ _ (co_harts s Hs) Et)) as (t' & Hh & HI & Hp & Hoth).
  exists (<[line_target l := t']> (harts (snd s))). split; [unfold drive, zoom, set_irq; by rewrite Et, Hh|]. split.
  - destruct Hs. split; try done; unfold line_ok in *; cbn; rewrite ?length_insert; try done. by apply Forall_insert.
  - unfold pin_at. cbn. rewrite list_lookup_insert_eq by done. split; [done|]. split; [|by rewrite length_insert].
    intros l' [Hsup' _] Hne.
    destruct (decide (line_target l' = line_target l)) as [Htt|]; [|by rewrite list_lookup_insert_ne].
    rewrite Htt, list_lookup_insert_eq, Et by done. apply Hoth; [done|]. intros Hi. apply Hne.
    destruct l, l'; cbn in *; by subst.
Qed.

Lemma get_time_run {E} s : get_time (E := E) s = (Ok (mtime s), s).
Proof. done. Qed.

(** The due time computed with wrap-around is exact when it fits. *)
Lemma due_exact n o c : uint 64 n -> uint 64 o -> wrap 64 (n + o) < c -> c - wrap 64 (n + o) + n < 2 ^ 64 ->
  wrap 64 (c - o) = c - wrap 64 (n + o) + n.
Proof.
  unfold uint, wrap. intros Hn Ho Hc Hfit. pose proof (Z.mod_eq (n + o) (2 ^ 64) ltac:(lia)) as Hm.
  pose proof (Z.mod_pos_bound (n + o) (2 ^ 64) ltac:(lia)) as Hb. set (m := (n + o) mod 2 ^ 64) in *.
  symmetry. apply (Z.mod_unique_pos (c - o) (2 ^ 64) (- ((n + o) / 2 ^ 64))); lia.
Qed.

(** [update_timer]: pin, task and registers agree afterwards. *)
Lemma update_timer_run {E} s : clint_ok s -> exists s', update_timer (E := E) 0 s = (Ok tt, s') /\ clint_ok s' /\
  clint (snd s') = clint (snd s) /\ cycles (snd s') = cycles (snd s) /\ (fits s -> tracks s') /\
  (software_irq_line (clint (snd s)) <> None -> msip_pin s' = msip_pin s).
Proof.
  intros Hs. destruct (co_cmp s Hs) as (c & Ec & Hc). destruct (co_timer_line s Hs) as (l & El & Hl).
  assert (mtimecmp s = c) as Hcmp by (unfold mtimecmp; by rewrite Ec).
  destruct (drive_run (E := E) s l (c <=? mtime s) Hs Hl) as (hs & Hd & Hs1 & Hp1 & Hp2 & _).
  assert (software_irq_line (clint (snd s)) <> None -> msip_pin (with_harts hs s) = msip_pin s) as Hsoft.
  { intros _. unfold msip_pin. cbn. destruct (software_irq_line (clint (snd s))) as [l'|] eqn:E'; [|done].
    destruct (co_soft_line s Hs l' E') as [Hl' Hne]. apply Hp2; [done|]. congruence. }
  assert (update_timer (E := E) 0 s = if c <=? mtime s then (Ok tt, with_harts hs s)
    else (Ok tt, (set_due (timer_cb_id (clint (snd s))) (wrap 64 (c - time_offset (clint (snd s)))) (fst s), snd (with_harts hs s)))) as ->.
  { unfold update_timer, bind at 1, on_clint, gets. rewrite Ec. cbn [lookup list_lookup]. unfold bind at 1, unwrap at 1.
    rewrite (bind_Ok _ _ _ _ _ (get_time_run s)). unfold bind at 1. rewrite El. unfold bind at 1, unwrap at 1.
    destruct (c <=? mtime s); [done|]. by rewrite (bind_Ok _ _ _ _ _ Hd). }
  assert (mtip (with_harts hs s) = (c <=? mtime s)) as Hm by (unfold mtip; cbn; by rewrite El).
  destruct (Z.leb_spec c (mtime s)) as [Hle|Hgt].
  - exists (with_harts hs s). split_and!; try done. intros _. unfold tracks. rewrite Hm.
    change (mtimecmp (with_harts hs s)) with (mtimecmp s). change (mtime (with_harts hs s)) with (mtime s). lia.
  - set (id := timer_cb_id (clint (snd s))) in *. set (d := wrap 64 (c - time_offset (clint (snd s)))).
    assert (0 <= d <= u64_MAX) as Hdr.
    { unfold u64_MAX, MAX. cbn [BITS]. pose proof (wrap_range 64 (c - time_offset (clint (snd s)))). unfold uint in *.
      change (Z.ones 64) with (2 ^ 64 - 1). lia. }
    destruct (co_timer s Hs) as [Htm (d0 & Etk)]. destruct (set_due_ok (fst s) id d Htm Hdr) as [Htm' Hdue].
    assert (tasks (set_due id d (fst s)) = [Build_ScheduledTask d id RaiseTimerIrq]) as Etk'.
    { unfold set_due, build, guard_set_due. cbn [tasks]. rewrite Etk. cbn. fold id. rewrite Z.eqb_refl.
      apply Permutation_length_1_inv. symmetry. apply sort_unstable_perm. }
    eexists. split; [reflexivity|]. split.
    { destruct Hs1. split; try done. cbn. split; [done|]. by exists d. }
    split; [done|]. split; [done|]. split; [|exact Hsoft]. intros Hfit. unfold tracks.
    change (mtip (set_due id d (fst s), snd (with_harts hs s))) with (mtip (with_harts hs s)). rewrite Hm.
    exists d. split.
    + unfold armed_due, due_of. cbn [fst snd with_harts clint]. fold id. rewrite Etk'. cbn. by rewrite Z.eqb_refl.
    + change (clock_now (snd (set_due id d (fst s), snd (with_harts hs s)))) with (clock_now (snd s)).
      change (mtimecmp (set_due id d (fst s), snd (with_harts hs s))) with (mtimecmp s).
      change (mtime (set_due id d (fst s), snd (with_harts hs s))) with (mtime s).
      rewrite Hcmp in *. unfold fits in Hfit. rewrite Hcmp in Hfit. specialize (Hfit Hgt).
      assert (d = c - mtime s + clock_now (snd s)) as ->; [|lia].
      by apply due_exact; [apply clock_u64|apply (co_offset s Hs)|..].
Qed.

(** ** A tick *)
Lemma tick_run {E} s : clint_ok s -> exists s', tick (E := E) s = (Ok tt, s') /\ clint_ok s' /\
  clint (snd s') = clint (snd s) /\ cycles (snd s') = cycles (snd s) /\ length (harts (snd s')) = length (harts (snd s)) /\
  (tracks s -> tracks s' /\ mtip s' = (mtimecmp s <=? mtime s)).
Proof.
  intros Hs. destruct (co_timer_line s Hs) as (l & El & Hl). destruct (co_timer s Hs) as [Htm (d & Etk)].
  destruct (drive_run (E := unit) s l true Hs Hl) as (hs & Hd & Hs1 & Hp1 & _ & Hlen).
  assert (run_callback RaiseTimerIrq (snd s) = Some (snd (with_harts hs s))) as Hcb.
  { unfold run_callback, clint_world. rewrite El. unfold drive, zoom in Hd.
    destruct (set_irq l true (harts (snd s))) as [[[]| |] hs']; [|done..]. by injection Hd as <-. }
  assert (armed_due s = Some d) as Hdue by (unfold armed_due, due_of; rewrite Etk; cbn; by rewrite Z.eqb_refl).
  set (id := timer_cb_id (clint (snd s))) in *. set (n := clock_now (snd s)).
  assert (tracks s -> d <= n -> mtimecmp s <= mtime s) as Hfire.
  { intros Htr Hle. unfold tracks in Htr. destruct (mtip s); [done|]. destruct Htr as (d' & Hd' & Heq). assert (d' = d) as -> by congruence.
    unfold n in Hle. lia. }
  assert (mtip (with_harts hs s) = true) as Hm by (unfold mtip; cbn; by rewrite El).
  assert (tick (E := E) s = if d <=? n then (Ok tt, (build (Build_Timer (next_seq (fst s)) [Build_ScheduledTask u64_MAX id RaiseTimerIrq]), snd (with_harts hs s)))
    else (Ok tt, (build (Build_Timer (next_seq (fst s)) [Build_ScheduledTask d id RaiseTimerIrq]), snd s))) as Ht.
  { destruct s as [t w]. unfold tick. cbn [fst snd] in *. rewrite Etk. cbn [run_due due callback]. fold n.
    change (now w) with n. destruct (d <=? n); [|done]. unfold bind, gets. by rewrite Hcb. }
  assert (forall d', 0 <= d' <= u64_MAX -> timer_ok (build (Build_Timer (next_seq (fst s)) [Build_ScheduledTask d' id RaiseTimerIrq])) /\
    tasks (build (Build_Timer (next_seq (fst s)) [Build_ScheduledTask d' id RaiseTimerIrq])) = [Build_ScheduledTask d' id RaiseTimerIrq]) as Hbuild.
  { intros d' Hd'. split.
    - apply build_ok; cbn; [constructor; [exact Hd'|constructor]|apply NoDup_singleton|]. pose proof (tm_fresh _ Htm) as Hf. rewrite Etk in Hf.
      apply list.Forall_cons in Hf as [Hf _]. constructor; [exact Hf|constructor].
    - cbn. apply Permutation_length_1_inv. symmetry. apply sort_unstable_perm. }
  pose proof (tm_dues _ Htm) as Hdr. rewrite Etk in Hdr. apply list.Forall_cons in Hdr as [Hdr _]. cbn [due] in Hdr.
  rewrite Ht. destruct (Z.leb_spec d n) as [Hle|Hgt].
  - destruct (Hbuild u64_MAX) as [Htm' Etk']; [split; [done|apply Z.le_refl]|]. eexists. split; [reflexivity|].
    match goal with |- clint_ok ?x /\ _ => assert (mtip x = true) as Hm' by exact Hm end. split_and!; try done.
    + destruct Hs1. split; try done. cbn [fst snd with_harts clint]. split; [done|]. by exists u64_MAX.
    + intros Htr. unfold tracks at 1. rewrite Hm'. split; [by apply Hfire|]. symmetry. apply Z.leb_le. by apply Hfire.
  - destruct (Hbuild d Hdr) as [Htm' Etk']. eexists. split; [reflexivity|].
    match goal with |- clint_ok ?x /\ _ => assert (mtip x = mtip s) as Hm' by done; assert (armed_due x = Some d) as Hdue' end.
    { unfold armed_due, due_of. cbn [fst snd]. rewrite Etk'. cbn. fold id. by rewrite Z.eqb_refl. }
    split_and!; try done.
    + destruct Hs. split; try done. cbn [fst snd]. split; [done|]. by exists d.
    + intros Htr. unfold tracks in *. rewrite Hm'. split.
      { destruct (mtip s); [done|]. destruct Htr as (d' & Hd' & Heq). exists d.
        split; [done|]. assert (d' = d) as -> by congruence. done. }
      destruct (mtip s); [symmetry; by apply Z.leb_le|].
      destruct Htr as (d' & Hd' & Heq). assert (d' = d) as -> by congruence. symmetry. apply Z.leb_gt. unfold n in Hgt. lia.
Qed.

(** ** Register writes *)
Definition with_clint (f : Clint -> Clint) s : State :=
  (fst s, Build_World (f (clint (snd s))) (cycles (snd s)) (harts (snd s))).

Lemma set_cmp_ok s c : clint_ok s -> uint 64 c -> clint_ok (with_clint (set_time_cmp [c]) s).
Proof. intros [] Hc. split; try done. by exists c. Qed.
Lemma set_offset_ok s o : clint_ok s -> uint 64 o -> clint_ok (with_clint (set_time_offset o) s).
Proof. intros [] Hc. by split. Qed.
Lemma set_msip_ok s m : clint_ok s -> uint 32 m -> clint_ok (with_clint (set_msip [m]) s).
Proof. intros [] Hc. split; try done. by exists m. Qed.

Lemma in_block_run {E} s base shift addr : clint_ok s -> 0 <= base < 2 ^ 32 -> 0 <= shift < 8 ->
  in_block (E := E) base shift addr s = (Ok ((base <=? addr) && (addr <? base + 2 ^ shift)), s).
Proof.
  intros Hs Hb Hsh. destruct (co_map s Hs) as (Hn & _). unfold in_block. destruct (base <=? addr); [|done].
  unfold bind at 1, on_clint, gets. rewrite Hn, shl_1 by lia. unfold add_chk.
  assert (0 < 2 ^ shift <= 2 ^ 7) by (split; [apply Z.pow_pos_nonneg; lia|apply Z.pow_le_mono_r; lia]).
  destruct (Z.leb_spec (2 ^ 64) (base + 2 ^ shift)); [lia|]. rewrite andb_false_r. unfold bind, ret.
  rewrite wrap_small by (split; lia). done.
Qed.

(** What a write does to the registers; [None] is a refused write. *)
Definition written (t : UInt) (addr data : Z) s : option (Clint -> Clint) :=
  if addr <? 4 then Some (set_msip [truncate_from U32 data])
  else if addr =? 0x4000 then Some (set_time_cmp [truncate_from U64 data])
  else if addr =? 0x4004 then
    Some (set_time_cmp [concat_to_u64 (truncate_from U32 data) (truncate_from U32 (Z.land (mtimecmp s) 0xffffffff))])
  else if (0x4000 <=? addr) && (addr <? 0x4008) then Some id
  else if addr =? 0xbff8 then
    Some (set_time_offset (wrap 64 (new_mtime t false (mtime s) data - clock_now (snd s))))
  else if addr =? 0xbffc then
    Some (set_time_offset (wrap 64 (new_mtime t true (mtime s) data - clock_now (snd s))))
  else None.

(** Whether the write looks at the timer again. *)
Definition rearms (addr : Z) : bool := (addr =? 0x4000) || (addr =? 0x4004) || (addr =? 0xbff8) || (addr =? 0xbffc).

Lemma land7 addr : 0x4000 <= addr < 0x4008 -> Z.land addr 7 = addr - 0x4000.
Proof.
  intros Ha. change 7 with (Z.ones 3). rewrite Z.land_ones by lia. symmetry.
  apply (Z.mod_unique_pos _ _ 0x800); lia.
Qed.

Lemma block_index base sh addr : 0 <= sh -> base <= addr < base + 2 ^ sh -> Z.to_nat (Z.shiftr (addr - base) sh) = 0%nat.
Proof. intros Hsh Ha. rewrite Z.shiftr_div_pow2, Z.div_small by lia. done. Qed.

Lemma write_eq t addr data s : clint_ok s -> 0 <= addr -> write_impl t addr data s =
  match written t addr data s with
  | None => (Err MemStoreFault, s)
  | Some f =>
      if rearms addr then update_timer 0 (with_clint f s)
      else if addr <? 4 then
        match software_irq_line (clint (snd s)) with
        | Some l => drive l (negb (Z.land (truncate_from U32 data) 1 =? 0)) (with_clint f s)
        | None => (Ok tt, with_clint f s)
        end
      else (Ok tt, s)
  end.
Proof.
  intros Hs Ha. destruct (co_map s Hs) as (Hn & Hmb & Hcb & Htb). destruct (co_msip s Hs) as (m & Em & _).
  destruct (co_cmp s Hs) as (c & Ec & _). unfold write_impl. unfold bind at 1 2 3, on_clint at 1 2 3, gets at 1 2 3.
  rewrite Hmb, Hcb, Htb. rewrite (bind_Ok _ _ _ _ _ (in_block_run s 0 2 addr Hs ltac:(lia) ltac:(lia))).
  unfold written, rearms. change (0 + 2 ^ 2) with 4. destruct (Z.leb_spec 0 addr); [|lia]. cbn [andb].
  destruct (Z.ltb_spec addr 4) as [H4|H4].
  { assert ((addr =? 0x4000) || (addr =? 0x4004) || (addr =? 0xbff8) || (addr =? 0xbffc) = false) as -> by lia.
    rewrite (block_index 0 2) by lia. unfold bind at 1, on_clint at 1, gets at 1. rewrite Em. cbn [length Nat.leb insert list_insert].
    unfold bind at 1, modify_clint, modify at 1. unfold bind at 1, on_clint, gets. cbn [clint snd set_msip software_irq_line].
    by destruct (software_irq_line (clint (snd s))). }
  rewrite (bind_Ok _ _ _ _ _ (in_block_run s 0x4000 3 addr Hs ltac:(lia) ltac:(lia))). change (0x4000 + 2 ^ 3) with 0x4008.
  destruct ((0x4000 <=? addr) && (addr <? 0x4008)) eqn:Hblk.
  - rewrite (block_index 0x4000 3) by lia. unfold bind at 1, on_clint at 1, gets at 1. rewrite Ec. cbn [lookup list_lookup].
    rewrite land7 by lia. destruct (Z.eqb_spec addr 0x4000) as [->|Hn0]; [done|].
    destruct (Z.eqb_spec addr 0x4004) as [->|H40].
    { unfold mtimecmp. by rewrite Ec. }
    destruct (Z.eqb_spec (addr - 0x4000) 0); [lia|]. destruct (Z.eqb_spec (addr - 0x4000) 4); [lia|].
    destruct (Z.eqb_spec addr 0xbff8); [lia|]. by destruct (Z.eqb_spec addr 0xbffc); [lia|].
  - destruct (Z.eqb_spec addr 0x4000); [lia|]. destruct (Z.eqb_spec addr 0x4004); [lia|].
    assert (forall h, write_mtime t h data s = update_timer 0 (with_clint (set_time_offset
      (wrap 64 (new_mtime t h (mtime s) data - clock_now (snd s)))) s)) as Hw.
    { intros h. unfold write_mtime, current_clock, bind at 1, gets. rewrite (bind_Ok _ _ _ _ _ (get_time_run s)).
      unfold bind at 1, modify_clint, modify. unfold bind at 1, on_clint, gets. cbn [clint snd set_time_offset hart_num]. rewrite Hn.
      change (Z.to_nat 1) with 1%nat. cbn [update_timers]. unfold with_clint, bind, ret. by destruct (update_timer 0 _) as [[[]| |] ?]. }
    destruct (Z.eqb_spec addr 0xbff8) as [->|]; [apply Hw|]. unfold add_chk. change (2 ^ 64 <=? 0xbff8 + 4) with false.
    rewrite andb_false_r. unfold bind, ret. change (wrap 64 (0xbff8 + 4)) with 0xbffc.
    destruct (Z.eqb_spec addr 0xbffc) as [->|]; [apply Hw|done].
Qed.

Lemma concat_value hi lo : uint 32 hi -> uint 32 lo -> concat_to_u64 hi lo = hi * 2 ^ 32 + lo.
Proof.
  intros Hh Hl. unfold concat_to_u64, shl. unfold uint in *. rewrite Z.shiftl_mul_pow2, wrap_small by (unfold uint; lia).
  apply (lor_add 32); [lia|by exists hi|done].
Qed.

Lemma written_ok t addr data s f : clint_ok s -> written t addr data s = Some f -> clint_ok (with_clint f s).
Proof.
  intros Hs. unfold written.
  assert (forall hi lo, uint 64 (concat_to_u64 (truncate_from U32 hi) (truncate_from U32 lo))) as Hcat.
  { intros hi lo. rewrite concat_value by (apply (wrap_range 32); lia). unfold truncate_from, uint. cbn [BITS].
    pose proof (wrap_range 32 hi ltac:(lia)). pose proof (wrap_range 32 lo ltac:(lia)). unfold uint in *. lia. }
  repeat case_match; intros [= <-].
  - apply set_msip_ok; [done|]. apply (wrap_range 32). lia.
  - apply set_cmp_ok; [done|]. apply (wrap_range 64). lia.
  - by apply set_cmp_ok.
  - by destruct s as [? []].
  - apply set_offset_ok; [done|]. apply (wrap_range 64). lia.
  - apply set_offset_ok; [done|]. apply (wrap_range 64). lia.
Qed.

Lemma tracks_ext s s' : mtimecmp s' = mtimecmp s -> mtime s' = mtime s -> armed_due s' = armed_due s ->
  clock_now (snd s') = clock_now (snd s) -> mtip s' = mtip s -> tracks s -> tracks s'.
Proof. unfold tracks. intros -> -> -> -> ->. done.
Qed.

Lemma write_run t addr data s : clint_ok s -> 0 <= addr -> exists r s', write_impl t addr data s = (r, s') /\ r <> Panic /\
  clint_ok s' /\ cycles (snd s') = cycles (snd s) /\
  clint (snd s') = (match written t addr data s with Some f => f | None => id end) (clint (snd s)) /\
  (if rearms addr then fits s' -> tracks s' else tracks s -> tracks s') /\
  (addr < 4 -> software_irq_line (clint (snd s)) <> None -> msip_pin s' = Z.odd data /\ mtip s' = mtip s).
Proof.
  intros Hs Ha. rewrite write_eq by done. destruct (written t addr data s) as [f|] eqn:Ef.
  2: { exists (Err MemStoreFault), s. assert (rearms addr = false) as -> by (unfold written in Ef; repeat case_match; try done; unfold rearms; lia).
       split_and!; try done. intros H4. unfold written in Ef. destruct (Z.ltb_spec addr 4); [done|lia]. }
  pose proof (written_ok _ _ _ _ _ Hs Ef) as Hs1. destruct (rearms addr) eqn:Er.
  - destruct (update_timer_run (E := MemError) _ Hs1) as (s' & Hu & Hs' & Hc & Hcy & Htr & _). exists (Ok tt), s'. split_and!; try done.
    + intros Hfit. apply Htr. unfold fits, mtime, mtimecmp, clock_now in *. by rewrite Hc, Hcy in Hfit.
    + intros H4. unfold rearms in Er. lia.
  - unfold written, rearms in Ef, Er. destruct (Z.ltb_spec addr 4) as [H4|H4].
    + injection Ef as <-. set (s1 := with_clint _ s) in *. destruct (software_irq_line (clint (snd s))) as [l|] eqn:El.
      * assert (software_irq_line (clint (snd s1)) = Some l) as El1 by exact El.
        destruct (co_soft_line s1 Hs1 l El1) as [Hl Hne]. destruct (drive_run (E := MemError) s1 l
          (negb (Z.land (truncate_from U32 data) 1 =? 0)) Hs1 Hl) as (hs & Hd & Hs2 & Hp & Hoth & _).
        assert (mtip (with_harts hs s1) = mtip s) as Hm.
        { destruct (co_timer_line s1 Hs1) as (lt & Elt & Hlt). unfold mtip. cbn. change (timer_irq_line (clint (snd s))) with (timer_irq_line (clint (snd s1))).
          rewrite Elt. rewrite Hoth; [done|done|congruence]. }
        exists (Ok tt), (with_harts hs s1). split_and!; try done; [by apply tracks_ext|]. intros _ _. split; [|done].
        unfold msip_pin. cbn. rewrite El, Hp. change 1 with (shl 32 1 0). rewrite (land_bit_eqb 32), negb_involutive by lia.
        unfold truncate_from. rewrite wrap_testbit, Z.bit0_odd by (cbn; lia). done.
      * exists (Ok tt), s1. split_and!; try done; by apply tracks_ext.
    + exists (Ok tt), s. split_and!; try done; [|lia]. repeat case_match; simplify_eq; try lia. done.
Qed.

(** ** Accesses, time and ticks in any order *)
Definition advance (k : Z) s : State := (fst s, Build_World (clint (snd s)) (cycles (snd s) + k) (harts (snd s))).

Inductive clint_step : State -> State -> Prop :=
| step_write t addr data s r s' : 0 <= addr -> write_impl t addr data s = (r, s') -> fits s' -> clint_step s s'
| step_time k s : 0 <= k -> cycles (snd s) + k < 2 ^ 64 ->
    mtime s + (clock_now (snd (advance k s)) - clock_now (snd s)) < 2 ^ 64 -> clint_step s (advance k s)
| step_tick s s' : tick (E := MemError) s = (Ok tt, s') -> clint_step s s'.

Lemma advance_ok k s : clint_ok s -> 0 <= k -> cycles (snd s) + k < 2 ^ 64 ->
  mtime s + (clock_now (snd (advance k s)) - clock_now (snd s)) < 2 ^ 64 -> tracks s ->
  clint_ok (advance k s) /\ tracks (advance k s).
Proof.
  intros Hs Hk Hc Hm Htr. assert (clock_now (snd s) <= clock_now (snd (advance k s))) as Hmono.
  { unfold clock_now, VirtualClock_now. cbn. rewrite !Z.shiftr_div_pow2 by lia. apply Z.div_le_mono; lia. }
  split.
  - pose proof (co_cycles s Hs) as Hcy. destruct Hs. split; try done. cbn. unfold uint in *. lia.
  - assert (mtime (advance k s) = mtime s + (clock_now (snd (advance k s)) - clock_now (snd s))) as Hmt.
    { unfold mtime at 1. cbn [advance snd clint]. set (n' := clock_now (snd (advance k s))) in *.
      change (clock_now (Build_World (clint (snd s)) (cycles (snd s) + k) (harts (snd s)))) with n'.
      replace (n' + time_offset (clint (snd s))) with (clock_now (snd s) + time_offset (clint (snd s)) + (n' - clock_now (snd s))) by lia.
      rewrite <- wrap_add_l by lia. fold (mtime s). apply wrap_small. pose proof (mtime_u64 s). unfold uint in *. lia. }
    unfold tracks in *. change (mtip (advance k s)) with (mtip s). change (mtimecmp (advance k s)) with (mtimecmp s).
    change (armed_due (advance k s)) with (armed_due s). rewrite Hmt. destruct (mtip s); [lia|].
    destruct Htr as (d & Hd & Heq). exists d. split; [done|lia].
Qed.

Lemma steps_track s s' : rtc clint_step s s' -> clint_ok s -> tracks s -> clint_ok s' /\ tracks s'.
Proof.
  induction 1 as [|s s1 s2 Hstep _ IH]; [done|]. intros Hs Htr. destruct Hstep as [t addr data s r s1 Ha Hw Hfit|k s Hk Hc Hm|s s1 Ht].
  - destruct (write_run t addr data s Hs Ha) as (r' & s1' & Hw' & _ & Hs1 & _ & _ & Hkeep & _).
    assert (s1' = s1) as -> by congruence. apply IH; [done|]. by destruct (rearms addr); apply Hkeep.
  - destruct (advance_ok k s Hs Hk Hc Hm Htr). by apply IH.
  - destruct (tick_run (E := MemError) s Hs) as (s1' & Ht' & Hs1 & _ & _ & _ & Htr1). destruct (Htr1 Htr) as [Htr1' _]. assert (s1' = s1) as -> by congruence. by apply IH.
Qed.

(** the timer interrupt.  Once [mtimecmp] has been written, whatever accesses,
    ticks and passing of time follow, the next tick succeeds and leaves the
    hart's timer pin high exactly when [mtime] has reached [mtimecmp], as long
    as each write leaves a due time that fits the 64-bit clock. *)
Theorem mtip_follows_mtime (t : UInt) (v : Z) (s s1 s2 : State) :
  clint_ok s -> write_impl t 0x4000 v s = (Ok tt, s1) -> fits s1 -> rtc clint_step s1 s2 ->
  exists s3, tick (E := MemError) s2 = (Ok tt, s3) /\ clint_ok s3 /\ mtime s3 = mtime s2 /\ mtimecmp s3 = mtimecmp s2 /\
    (mtip s3 = true <-> mtimecmp s3 <= mtime s3).
Proof.
  intros Hs Hw Hfit Hsteps. destruct (write_run t 0x4000 v s Hs ltac:(lia)) as (r & s1' & Hw' & _ & Hs1 & _ & _ & Htr & _).
  assert (s1' = s1) as -> by congruence. destruct (steps_track _ _ Hsteps Hs1 (Htr Hfit)) as [Hs2 Htr2].
  destruct (tick_run (E := MemError) s2 Hs2) as (s3 & Ht & Hs3 & Hc & Hcy & _ & Hpin). destruct (Hpin Htr2) as [_ Hpin']. clear Hpin. rename Hpin' into Hpin. exists s3.
  assert (mtime s3 = mtime s2) as Hm by (unfold mtime, clock_now; by rewrite Hc, Hcy).
  assert (mtimecmp s3 = mtimecmp s2) as Hcmp by (unfold mtimecmp; by rewrite Hc).
  split_and!; try done. rewrite Hpin, Hm, Hcmp. apply Z.leb_le.
Qed.

Lemma mtime_after o s : uint 64 o -> clint_ok s -> mtime (with_clint (set_time_offset (wrap 64 (o - clock_now (snd s)))) s) = o.
Proof.
  intros Ho Hs. unfold mtime. cbn [with_clint snd clint set_time_offset time_offset]. rewrite wrap_add_r by lia.
  change (clock_now (Build_World _ _ _)) with (clock_now (snd s)). replace (clock_now (snd s) + (o - clock_now (snd s))) with o by lia.
  by apply wrap_small.
Qed.

(** Half-word updates. *)
Lemma low_half x : truncate_from U32 (Z.land x 0xffffffff) = x mod 2 ^ 32.
Proof. change 0xffffffff with (Z.ones 32). rewrite Z.land_ones by lia. apply wrap_wrap. lia. Qed.
Lemma high_half x : uint 64 x -> truncate_from U32 (Z.shiftr x 32) = x / 2 ^ 32.
Proof.
  intros Hx. rewrite Z.shiftr_div_pow2 by lia. apply (wrap_small 32). unfold uint in *.
  split; [apply Z.div_pos; lia|]. apply Z.div_lt_upper_bound; lia.
Qed.

Lemma join_u64 hi lo : uint 32 hi -> uint 32 lo -> uint 64 (hi * 2 ^ 32 + lo).
Proof. unfold uint. lia. Qed.

Definition mtime_value (t : UInt) (high : bool) (prev data : Z) : Z :=
  if high then data mod 2 ^ 32 * 2 ^ 32 + prev mod 2 ^ 32
  else if BITS t =? 32 then prev / 2 ^ 32 * 2 ^ 32 + data else data.

Lemma new_mtime_value t high prev data : uint 64 prev -> 0 <= data < 2 ^ BITS t ->
  new_mtime t high prev data = mtime_value t high prev data /\ uint 64 (mtime_value t high prev data).
Proof.
  intros Hp Hd. unfold new_mtime, mtime_value. assert (forall x, uint 32 (x mod 2 ^ 32)) as Hm by (intros x; apply (wrap_range 32); lia).
  destruct high.
  { rewrite low_half, concat_value by apply Hm. split; [done|]. by apply join_u64. }
  assert (uint 32 (prev / 2 ^ 32)) as Hh by (rewrite <- high_half by done; apply (wrap_range 32); lia).
  destruct (Z.eqb_spec (BITS t) 32) as [Et|Et].
  - rewrite Et in Hd. rewrite high_half by done. unfold truncate_from. cbn [BITS]. rewrite (wrap_small 32 data) by done.
    rewrite concat_value by done. split; [done|]. by apply join_u64.
  - assert (data < 2 ^ 64) by (destruct t; cbn in *; lia). split; [|split; lia]. apply (wrap_small 64). split; lia.
Qed.

Lemma read_back s : clint_ok s -> read_impl U64 0xbff8 s = (Ok (mtime s), s) /\ read_impl U64 0x4000 s = (Ok (mtimecmp s), s).
Proof.
  intros Hs. destruct (co_map s Hs) as (_ & Hmb & Hcb & Htb). destruct (co_cmp s Hs) as (c & Ec & Hc).
  assert (forall addr, 4 <= addr -> read_impl U64 addr s = (
    in_cmp <- in_block 0x4000 3 addr ;;
    if (in_cmp : bool) then
      l <- on_clint time_cmp ;;
      match l !! Z.to_nat (Z.shiftr (addr - 0x4000) 3) with
      | None => err MemLoadFault
      | Some v => if Z.land addr 7 =? 0 then ret (truncate_from U64 v)
                  else if Z.land addr 7 =? 4 then ret (truncate_from U64 (Z.shiftr v 32)) else err MemLoadFault
      end
    else if addr =? 0xbff8 then time <- get_time ;; ret (truncate_from U64 time)
    else tb4 <- add_chk 64 0xbff8 4 ;;
         if addr =? tb4 then time <- get_time ;; ret (truncate_from U64 (Z.shiftr time 32)) else err MemLoadFault) s) as Hr.
  { intros addr Ha. unfold read_impl. unfold bind at 1 2 3, on_clint at 1 2 3, gets at 1 2 3. rewrite Hmb, Hcb, Htb.
    rewrite (bind_Ok _ _ _ _ _ (in_block_run s 0 2 addr Hs ltac:(lia) ltac:(lia))). change (0 + 2 ^ 2) with 4.
    destruct (Z.leb_spec 0 addr); [|lia]. by destruct (Z.ltb_spec addr 4); [lia|]. }
  rewrite !Hr by lia. rewrite !(bind_Ok _ _ _ _ _ (in_block_run s 0x4000 3 _ Hs ltac:(lia) ltac:(lia))). cbn [Z.leb Z.compare andb].
  change (0xbff8 <? 0x4000 + 2 ^ 3) with false. change (0x4000 <? 0x4000 + 2 ^ 3) with true. cbn. split.
  - unfold get_time, bind, current_clock, gets, on_clint, ret. unfold truncate_from. cbn [BITS]. by rewrite (wrap_small 64) by apply mtime_u64.
  - unfold bind, on_clint, gets, mtimecmp. rewrite Ec. unfold ret, truncate_from. cbn -[wrap].
    change (Z.to_nat (Z.shiftr (0x4000 - 0x4000) 3)) with 0%nat. cbn -[wrap]. by rewrite (wrap_small 64 c).
Qed.

(** register semantics.  A write never panics and reads back: 64-bit writes
    replace [mtime] or [mtimecmp], 32-bit writes replace one half of [mtime]
    and the upper half of [mtimecmp]; [msip] drives the software interrupt pin
    with its lowest bit and leaves the timer pin alone.  (A 32-bit write to
    the lower half of [mtimecmp] clears the upper half.) *)
Theorem clint_registers (t : UInt) (addr data : Z) (s : State) : clint_ok s -> 0 <= addr -> 0 <= data < 2 ^ BITS t ->
  exists r s', write_impl t addr data s = (r, s') /\ r <> Panic /\ clint_ok s' /\
    (addr = 0xbff8 -> mtime s' = (if BITS t =? 32 then mtime s / 2 ^ 32 * 2 ^ 32 + data else data)) /\
    (addr = 0xbffc -> mtime s' = data mod 2 ^ 32 * 2 ^ 32 + mtime s mod 2 ^ 32) /\
    (addr = 0x4000 -> mtimecmp s' = data) /\
    (addr = 0x4004 -> mtimecmp s' = data mod 2 ^ 32 * 2 ^ 32 + mtimecmp s mod 2 ^ 32) /\
    (addr < 4 -> software_irq_line (clint (snd s)) <> None -> msip_pin s' = Z.odd data /\ mtip s' = mtip s) /\
    (r = Ok tt -> read_impl U64 0xbff8 s' = (Ok (mtime s'), s') /\ read_impl U64 0x4000 s' = (Ok (mtimecmp s'), s')).
Proof.
  intros Hs Ha Hd. destruct (write_run t addr data s Hs Ha) as (r & s' & Hw & Hp & Hs' & Hcy & Hc & _ & Hsoft).
  exists r, s'. split; [done|]. split; [done|]. split; [done|].
  assert (forall o, uint 64 o -> written t addr data s = Some (set_time_offset (wrap 64 (o - clock_now (snd s)))) -> mtime s' = o) as Hmt.
  { intros o Ho Ew. rewrite Ew in Hc. rewrite <- (mtime_after o s Ho Hs). unfold mtime, clock_now. by rewrite Hc, Hcy. }
  assert (forall h, written t addr data s = Some (set_time_offset (wrap 64 (new_mtime t h (mtime s) data - clock_now (snd s)))) ->
    mtime s' = mtime_value t h (mtime s) data) as Hmv.
  { intros h Ew. destruct (new_mtime_value t h (mtime s) data (mtime_u64 s) Hd) as [Hv Hu]. rewrite Hv in Ew. by apply Hmt. }
  assert (data < 2 ^ 64) as Hd64 by (destruct t; cbn in *; lia). split_and!; try done.
  - intros ->. by apply (Hmv false).
  - intros ->. by apply (Hmv true).
  - intros ->. unfold mtimecmp. rewrite Hc. cbn. apply (wrap_small 64). split; lia.
  - intros ->. unfold mtimecmp at 1. rewrite Hc. cbn [written Z.ltb Z.compare Z.eqb Pos.compare Pos.eqb set_time_cmp time_cmp head default].
    unfold written. cbn -[Z.land concat_to_u64]. rewrite low_half, concat_value by (apply (wrap_range 32); lia). done.
  - intros _. by apply read_back.
Qed.
End Spec.

(** ** A board with one hart: its timer and software pins *)
#[local] Instance demo_hart_pins : RiscvIRQHandler (bool * bool) := {|
  irq_handler := fun i level t => match i with
                                  | MachineTimer => Some (level, snd t)
                                  | MachineSoft => Some (fst t, level)
                                  | _ => None
                                  end
|}.
Definition demo_local (i : Interrupt) : Prop := i = MachineTimer \/ i = MachineSoft.
Definition demo_local_pin (i : Interrupt) (t : bool * bool) : bool := match i with MachineTimer => fst t | _ => snd t end.
#[local] Instance demo_hart_lawful : LawfulHandler (bool * bool) (fun _ => True) demo_local demo_local_pin.
Proof. intros i level t [->| ->] _; eexists; split_and!; try done; intros j [->| ->]; done. Qed.
#[local] Existing Instance merge_sort_due.
#[local] Existing Instance release.

(** The device after set-up, at clock 1000. *)
Definition demo_clint : Timer Callback * World (bool * bool) :=
  snd ((set_irq_line (E := MemError) {| line_target := 0; interrupt_nr := MachineTimer |} 0 ;;;
        set_irq_line {| line_target := 0; interrupt_nr := MachineSoft |} 1)
       (Timer_new, Build_World (Clint_new 1 0 0xbff8 0x4000 0) 8000 [(false, false)])).

Abbreviation demo_clint_ok := (clint_ok (T := bool * bool) (I := fun _ => True) (supported := demo_local)).

Lemma demo_clint_is_ok : demo_clint_ok demo_clint.
Proof.
  split.
  - done.
  - vm_compute. split; [discriminate|done].
  - exists 0. done.
  - exists 0. done.
  - vm_compute. split; [discriminate|done].
  - split; [|by exists u64_MAX]. destruct (register_ok (E := MemError) (C := Callback) Timer_new RaiseTimerIrq timer_new_ok) as (t' & Hr & Hok & _); [cbn; lia|].
    assert (fst demo_clint = snd (register (E := MemError) RaiseTimerIrq Timer_new)) as -> by reflexivity. by rewrite Hr.
  - by repeat constructor.
  - eexists. split; [reflexivity|]. split; [by left|cbn; lia].
  - intros l [= <-]. split; [split; [by right|cbn; lia]|done].
Qed.

Definition mtip_of (s : Timer Callback * World (bool * bool)) : bool := mtip (pin := demo_local_pin) s.

Lemma mtip_follows_mtime_witness :
  let s1 := snd (write_impl U64 0x4000 2000 demo_clint) in
  exists s3, tick (E := MemError) (advance 9000 s1) = (Ok tt, s3) /\ mtip_of s3 = true /\
    (mtip_of s3 = true <-> mtimecmp s3 <= mtime s3).
Proof.
  set (s1 := snd (write_impl U64 0x4000 2000 demo_clint)).
  destruct (mtip_follows_mtime (pin := demo_local_pin) U64 2000 demo_clint s1 (advance 9000 s1) demo_clint_is_ok)
    as (s3 & Ht & _ & _ & _ & Hp).
  - vm_compute. reflexivity.
  - intros _. vm_compute. reflexivity.
  - apply rtc_once. apply step_time; [lia|vm_compute; reflexivity..].
  - exists s3. split; [exact Ht|]. split; [|exact Hp].
    assert (mtip_of (snd (tick (E := MemError) (advance 9000 s1))) = true) as Hm by (vm_compute; reflexivity).
    rewrite Ht in Hm. exact Hm.
Defined.

Lemma clint_registers_witness : exists r s', write_impl U32 0xbffc 5 demo_clint = (r, s') /\ r <> Panic /\ mtime s' = 5 * 2 ^ 32 + 1000.
Proof.
  destruct (clint_registers (pin := demo_local_pin) U32 0xbffc 5 demo_clint demo_clint_is_ok) as (r & s' & Hw & Hp & _ & _ & Hm & _); [lia|cbn; lia|].
  exists r, s'. split; [exact Hw|]. split; [exact Hp|]. rewrite Hm by reflexivity. vm_compute. reflexivity.
Defined.

(** A due time that does not fit: with [mtime] set back to 0 at clock 1000, the
    usual way to switch the timer off ([mtimecmp] at its maximum) raises the
    timer interrupt at the next tick. *)
Theorem far_deadline_fires_at_once :
  let s1 := snd (write_impl U64 0xbff8 0 demo_clint) in
  let s2 := snd (write_impl U64 0x4000 (2 ^ 64 - 1) s1) in
  let s3 := snd (tick (E := MemError) s2) in
  mtip_of s2 = false /\ mtip_of s3 = true /\ mtime s3 = 0 /\ mtimecmp s3 = 2 ^ 64 - 1.
Proof. vm_compute. done. Qed.

(** A 32-bit write to the lower half of [mtimecmp] clears the upper half. *)
Theorem mtimecmp_low_write_clears_high :
  let s1 := snd (write_impl U32 0x4004 1 demo_clint) in
  let s2 := snd (write_impl U32 0x4000 5 s1) in
  mtimecmp s1 = 2 ^ 32 /\ mtimecmp s2 = 5.
Proof. vm_compute. done. Qed.
