(* ===== verification/Vm.v ===== *)
(** * Virtual memory accesses (src/src/isa/riscv/mmu/mod.rs, mmu/cpu.rs)

    [VirtAddrManager] joins the page-table walker with the physical address
    space; the access policies derive the permission check from the privilege
    level and [mstatus].  The RAM is shared between the walker and the physical
    address space ([Rc<UnsafeCell<Ram>>]), so the state holds it once. *)

From S2P Require Import Prelude Utils TrapTypes Ram Cache CsrTable Csr PageTable Mmio.

Inductive AccessType : Type := Read | Write | ReadWrite.
#[global] Instance AccessType_eq_dec : EqDecision AccessType.
Proof. solve_decision. Defined.

Inductive AccessPolicy : Type :=
| Direct
| Translated (check : PermissionCheck) (effect : AccessEffect) (fault : MemError).

Record VirtAddrManager (D : Type) : Type := {
  mmio : MemoryMapIO D;
  page_table : PageTableWalker
}.
Arguments mmio {D} _.
Arguments page_table {D} _.
Arguments Build_VirtAddrManager {D} _ _.

Section Vm.
Context {D : Type} `{DeviceTrait D} `{Profile}.

Abbreviation VmM := (M (VirtAddrManager D)).

Definition on_mmio {E A} (m : M (MemoryMapIO D) E A) : VmM E A :=
  zoom mmio (fun s x => Build_VirtAddrManager x (page_table s)) m.

Definition set_ram (s : MemoryMapIO D) (r : Ram) : MemoryMapIO D :=
  Build_MemoryMapIO (map s) r (devices s).

Definition vm_translate (vaddr : Z) (check : PermissionCheck) (effect : AccessEffect) : VmM PageTableError Z :=
  zoom (fun s => (page_table s, ram (mmio s)))
       (fun s p => Build_VirtAddrManager (set_ram (mmio s) (snd p)) (fst p))
       (translate_vaddr vaddr check effect).

Definition translate_with_policy (vaddr : Z) (policy : AccessPolicy) : VmM MemError Z :=
  match policy with
  | Direct => ret vaddr
  | Translated check effect fault => map_err (fun _ => fault) (vm_translate vaddr check effect)
  end.

Definition read_with_policy (t : UInt) (addr : Z) (policy : AccessPolicy) : VmM MemError Z :=
  paddr <- translate_with_policy addr policy ;;
  on_mmio (read_by_type t paddr).

Definition write_with_policy (t : UInt) (addr data : Z) (policy : AccessPolicy) : VmM MemError unit :=
  paddr <- translate_with_policy addr policy ;;
  on_mmio (write_by_type t paddr data).

Definition load_reserved_with_policy (t : UInt) (addr : Z) (policy : AccessPolicy) : VmM MemError Z :=
  if negb (check_align t addr) then err MemLoadMisaligned
  else paddr <- translate_with_policy addr policy ;;
       on_mmio (Mmio.load_reserved t paddr).

Definition store_conditional_with_policy (t : UInt) (addr data : Z) (policy : AccessPolicy)
  : VmM MemError bool :=
  if negb (check_align t addr) then
    on_mmio Mmio.clear_reservation ;;; err MemStoreMisaligned
  else paddr <- translate_with_policy addr policy ;;
       fun s => let '(res, s1) := on_mmio (Mmio.store_conditional t paddr data) s in
                let '(_, s2) := on_mmio Mmio.clear_reservation s1 in (res, s2).

(** [F::exec] on the atomic cell: from the old value and the operand, the value
    returned and the value stored. *)
Definition AmoOp : Type := Z -> Z -> Res Exception (Z * Z).

(** The atomic cell at offset [i]: only the first byte is bounds-checked. *)
Definition amo_cell (t : UInt) (i rhs : Z) (f : AmoOp) : M (MemoryMapIO D) Exception Z :=
  assert (i <? SIZE) ;;;
  r <- gets ram ;;
  p <- lift_res (f (load_le r i (nbytes t)) rhs) ;;
  modify (fun s => set_ram s (try_invalidate_reservation i
    (set_data (store_bytes i (split_le (nbytes t) (snd p))) (ram s)))) ;;;
  ret (fst p).

Definition fetch_and_op_amo_with_policy (t : UInt) (addr rhs_val : Z) (policy : AccessPolicy) (f : AmoOp)
  : VmM Exception Z :=
  paddr <- map_err (fun _ => StorePageFault) (translate_with_policy addr policy) ;;
  if negb (check_align t paddr) then err StoreMisaligned
  else if negb (in_ram_window paddr) then err StoreFault
  else on_mmio (amo_cell t (paddr - BASE_ADDR) rhs_val f).

Definition read_by_paddr (t : UInt) (paddr : Z) : VmM MemError Z := on_mmio (read_by_type t paddr).
Definition write_by_paddr (t : UInt) (paddr data : Z) : VmM MemError unit :=
  on_mmio (write_by_type t paddr data).

(** The debugger's accesses: no permission check, no A/D update. *)
Inductive Address : Type := Phys (a : Z) | Virt (a : Z).
Definition no_check : PermissionCheck := {| any_of := 0; exact_mask := 0; exact_flags := 0 |}.

Definition debug_read (t : UInt) (addr : Address) : VmM MemError Z :=
  match addr with
  | Phys a => read_by_paddr t a
  | Virt a => paddr <- map_err (fun _ => MemLoadPageFault) (vm_translate a no_check EffectNone) ;;
              on_mmio (read_by_type t paddr)
  end.

Definition debug_write (t : UInt) (addr : Address) (data : Z) : VmM MemError unit :=
  match addr with
  | Phys a => write_by_paddr t a data
  | Virt a => paddr <- map_err (fun _ => MemStorePageFault) (vm_translate a no_check EffectNone) ;;
              on_mmio (write_by_type t paddr data)
  end.

Definition vm_set_mode {E} (m : Z) : VmM E unit :=
  zoom page_table (fun s w => Build_VirtAddrManager (mmio s) w) (set_mode m).
Definition set_root_ppn {E} (ppn : Z) : VmM E unit :=
  modify (fun s => Build_VirtAddrManager (mmio s) (set_root_addr (shl 64 ppn PAGE_SIZE_XLEN) (page_table s))).
Definition vm_flush_tlb {E} : VmM E unit :=
  modify (fun s => Build_VirtAddrManager (mmio s) (flush_tlb (page_table s))).
End Vm.

(** ** Access policies (mmu/cpu.rs) *)
Inductive AccessPrivilege : Type := UserOnly | SupervisorOnly | SupervisorAndUser | MachineOnly.

Definition Mstatus_mprv : CsrField := Fld Mstatus 17 1.
Definition Mstatus_mpp : CsrField := Fld Mstatus 11 2.
Definition Mstatus_sum : CsrField := Fld Mstatus 18 1.
Definition Mstatus_mxr : CsrField := Fld Mstatus 19 1.
Definition Sstatus_sum : CsrField := Fld Sstatus 18 1.

Section Policy.
Context {E : Type}.

Definition determine_data_access_privilege : M CsrRegFile E AccessPrivilege :=
  level <- privelege_level ;;
  match level with
  | LvM =>
      mprv <- get_field Mstatus_mprv ;;
      if mprv =? 0 then ret MachineOnly
      else mpp <- get_field Mstatus_mpp ;;
           l <- unwrap (priv_try_from (wrap 8 mpp)) ;;
           match l with
           | LvM => ret MachineOnly
           | LvS => sum <- get_field Mstatus_sum ;;
                    ret (if sum =? 0 then SupervisorOnly else SupervisorAndUser)
           | LvU => ret UserOnly
           | LvV => panic
           end
  | LvS => sum <- get_field Sstatus_sum ;;
           ret (if sum =? 0 then SupervisorOnly else SupervisorAndUser)
  | LvU => ret UserOnly
  | LvV => panic
  end.

Definition resolve_data_policy (access : AccessType) (side_effect : bool) : M CsrRegFile E AccessPolicy :=
  let fault := match access with Read => MemLoadPageFault | Write | ReadWrite => MemStorePageFault end in
  let effect := match side_effect, access with
                | false, _ => EffectNone
                | true, Read => Accessed
                | true, (Write | ReadWrite) => AccessedDirty
                end in
  p <- determine_data_access_privilege ;;
  match p with
  | MachineOnly => ret Direct
  | _ =>
      let '(masks, flags) := match p with
                             | SupervisorOnly => (PTE_U, 0)
                             | UserOnly => (PTE_U, PTE_U)
                             | _ => (0, 0)
                             end in
      mxr <- get_field Mstatus_mxr ;;
      if (mxr =? 1) && bool_decide (access = Read) then
        ret (Translated {| any_of := Z.lor PTE_R PTE_X; exact_mask := masks; exact_flags := flags |} effect fault)
      else
        let rwx_base := match access with
                        | Read => PTE_R | Write => PTE_W | ReadWrite => Z.lor PTE_R PTE_W end in
        ret (Translated {| any_of := 0; exact_mask := Z.lor masks rwx_base;
                           exact_flags := Z.lor flags rwx_base |} effect fault)
  end.

Definition resolve_ifetch_policy (side_effect : bool) : M CsrRegFile E AccessPolicy :=
  let effect := if side_effect then Accessed else EffectNone in
  level <- privelege_level ;;
  match level with
  | LvM => ret Direct
  | LvS => ret (Translated {| any_of := 0; exact_mask := Z.lor PTE_X PTE_U; exact_flags := PTE_X |}
                 effect MemLoadPageFault)
  | LvU => ret (Translated {| any_of := 0; exact_mask := Z.lor PTE_X PTE_U;
                              exact_flags := Z.lor PTE_X PTE_U |} effect MemLoadPageFault)
  | LvV => panic
  end.
End Policy.

(** ** The policies are the architecture's permission rules *)

(** The privilege a data access is checked with ([mstatus.MPRV]). *)
Definition effective_level (s : CsrRegFile) : option PrivilegeLevel :=
  if bool_decide (cpl s = LvM) && Z.testbit (val s Mstatus) 17
  then priv_try_from (fget 11 2 (val s Mstatus)) else Some (cpl s).

(** Page permissions for a level, by PTE flags: bit 1 R, 2 W, 3 X, 4 U. *)
Definition page_allows (level : PrivilegeLevel) (sum mxr : bool) (access : AccessType) (flags : Z) : bool :=
  let r := Z.testbit flags 1 in
  let w := Z.testbit flags 2 in
  let x := Z.testbit flags 3 in
  let u := Z.testbit flags 4 in
  (match level with LvU => u | LvS => negb u || sum | _ => true end) &&
  (match access with Read => r || (mxr && x) | Write => w | ReadWrite => r && w end).

Definition fetch_allows (level : PrivilegeLevel) (flags : Z) : bool :=
  Z.testbit flags 3 && match level with LvU => Z.testbit flags 4 | _ => negb (Z.testbit flags 4) end.

(** The check a policy makes, as a predicate on the flags. *)
Definition policy_allows (p : AccessPolicy) (flags : Z) : bool :=
  match p with Direct => true | Translated check _ _ => negb (permission_denied flags check) end.

Definition supported_level (p : PrivilegeLevel) : Prop := p <> LvV.

Lemma fget_1_eqb0 low v : 0 <= low -> (fget low 1 v =? 0) = negb (Z.testbit v low).
Proof. intros Hl. unfold fget. rewrite Z.testbit_odd, Zmod_odd. by destruct (Z.odd _). Qed.

Ltac by_flags :=
  apply Bool.eqb_prop;
  match goal with
  | Hf : uint 8 ?f |- Bool.eqb ?lhs ?rhs = true =>
      let P := eval pattern f in (Bool.eqb lhs rhs) in
      match P with ?Q _ => exact (forall_byte Q ltac:(vm_compute; reflexivity) f Hf) end
  end.

Section PolicySpec.
Context {E : Type}.
Implicit Types s : CsrRegFile.

Lemma determine_run s : csr_wf s ->
  (forall l, effective_level s = Some l -> supported_level l) -> supported_level (cpl s) ->
  exists p, determine_data_access_privilege (E := E) s = (Ok p, s) /\
    effective_level s = Some match p with MachineOnly => LvM | UserOnly => LvU | _ => LvS end /\
    (p = SupervisorOnly -> Z.testbit (val s Mstatus) 18 = false) /\
    (p = SupervisorAndUser -> Z.testbit (val s Mstatus) 18 = true).
Proof.
  intros Hwf Heff Hcpl. unfold determine_data_access_privilege, effective_level in *.
  erewrite bind_Ok by reflexivity. destruct (cpl s) eqn:Ec; cbn [bool_decide decide_rel] in *.
  - exists UserOnly. done.
  - erewrite bind_Ok by (by apply get_field_run). cbn [fl_csr fl_len Sstatus_sum].
    change (LOW_BIT Sstatus_sum) with 18. change (reg_index Sstatus) with Mstatus.
    rewrite fget_1_eqb0 by lia. destruct (Z.testbit (val s Mstatus) 18); eexists; by split_and!.
  - by destruct (Hcpl eq_refl).
  - erewrite bind_Ok by (by apply get_field_run). cbn [fl_csr fl_len Mstatus_mprv].
    change (LOW_BIT Mstatus_mprv) with 17. change (reg_index Mstatus) with Mstatus.
    rewrite fget_1_eqb0 by lia.
    destruct (Z.testbit (val s Mstatus) 17); cbn [negb andb] in *; [|by exists MachineOnly].
    erewrite bind_Ok by (by apply get_field_run). cbn [fl_csr fl_len Mstatus_mpp].
    change (LOW_BIT Mstatus_mpp) with 11. change (reg_index Mstatus) with Mstatus.
    rewrite wrap_small by (apply (uint_weaken 2); [lia|by apply fget_range]).
    change (bool_decide (LvM = LvM)) with true in *. cbn [andb] in *.
    destruct (priv_try_from (fget 11 2 (val s Mstatus))) as [l|] eqn:El.
    + cbn [unwrap]. erewrite bind_Ok by reflexivity. destruct l.
      * by exists UserOnly.
      * erewrite bind_Ok by (by apply get_field_run). cbn [fl_csr fl_len Mstatus_sum].
        change (LOW_BIT Mstatus_sum) with 18. change (reg_index Mstatus) with Mstatus.
        rewrite fget_1_eqb0 by lia. destruct (Z.testbit (val s Mstatus) 18); eexists; by split_and!.
      * by destruct (Heff LvV eq_refl).
      * by exists MachineOnly.
    + exfalso. pose proof (fget_range 11 2 (val s Mstatus) ltac:(lia)) as Hr.
      revert El Hr. generalize (fget 11 2 (val s Mstatus)) as x. unfold uint. intros x Hx Hr.
      assert (x = 0 \/ x = 1 \/ x = 2 \/ x = 3) as [->|[->|[->| ->]]] by lia; discriminate.
Qed.

(** Every data access is checked by the privileged architecture's rule at its
    effective privilege level: U against [PTE.U], S against [PTE.U] unless
    [SUM], reads against R (or X with [MXR]), writes against W; M-mode is not
    translated.  A read needs A set, a write A and D; the fault is the load or
    the store page fault. *)
Theorem data_policy_is_architectural s access side_effect :
  csr_wf s -> supported_level (cpl s) ->
  (forall l, effective_level s = Some l -> supported_level l) ->
  exists level p,
    effective_level s = Some level /\
    resolve_data_policy (E := E) access side_effect s = (Ok p, s) /\
    (p = Direct <-> level = LvM) /\
    (forall flags, uint 8 flags -> level <> LvM ->
       policy_allows p flags =
         page_allows level (Z.testbit (val s Mstatus) 18) (Z.testbit (val s Mstatus) 19) access flags) /\
    (forall check effect fault, p = Translated check effect fault ->
       fault = (if decide (access = Read) then MemLoadPageFault else MemStorePageFault) /\
       effect = if side_effect then if decide (access = Read) then Accessed else AccessedDirty
                else EffectNone).
Proof.
  intros Hwf Hcpl Heff. destruct (determine_run s Hwf Heff Hcpl) as (p & Hd & He & Hs0 & Hs1).
  unfold resolve_data_policy.
  assert (get_field (E := E) Mstatus_mxr s = (Ok (fget 19 1 (val s Mstatus)), s)) as Hmxr
    by (by apply get_field_run).
  assert ((fget 19 1 (val s Mstatus) =? 1) = Z.testbit (val s Mstatus) 19) as Hbit
    by (by rewrite fget_1_testbit).
  destruct access, p, (Z.testbit (val s Mstatus) 19);
    (eexists _, _; split; [exact He|]; split;
      [erewrite bind_Ok by exact Hd; cbv beta iota zeta;
       first [reflexivity | erewrite bind_Ok by exact Hmxr; rewrite Hbit; reflexivity]|]).
  all: try rewrite (Hs0 eq_refl); try rewrite (Hs1 eq_refl).
  all: split; [by split|].
  all: split; [|intros check effect fault; destruct side_effect; by intros [= <- <- <-]].
  all: intros flags Hf Hm; try done; by_flags.
Qed.
End PolicySpec.

Lemma data_policy_is_architectural_witness :
  exists level p,
    effective_level (set_cpl LvS CsrRegFile_new) = Some level /\ level = LvS /\
    resolve_data_policy (E := unit) Write true (set_cpl LvS CsrRegFile_new) =
      (Ok p, set_cpl LvS CsrRegFile_new) /\ p <> Direct.
Proof.
  destruct (data_policy_is_architectural (E := unit) (set_cpl LvS CsrRegFile_new) Write true)
    as (level & p & He & Hp & Hd & _).
  - apply set_cpl_wf, csr_new_wf.
  - discriminate.
  - intros l Hl. vm_compute in Hl. injection Hl as <-. discriminate.
  - exists level, p. split; [exact He|]. assert (level = LvS) as ->.
    { vm_compute in He. injection He as <-. reflexivity. }
    split; [reflexivity|]. split; [exact Hp|]. intros E. apply Hd in E. discriminate E.
Defined.

(** Instruction fetches need X, and [PTE.U] exactly in U-mode; M-mode fetches
    are not translated. *)
Theorem ifetch_policy_is_architectural {E} (s : CsrRegFile) side_effect :
  supported_level (cpl s) ->
  exists p, resolve_ifetch_policy (E := E) side_effect s = (Ok p, s) /\
    (p = Direct <-> cpl s = LvM) /\
    (forall flags, uint 8 flags -> cpl s <> LvM -> policy_allows p flags = fetch_allows (cpl s) flags).
Proof.
  intros Hcpl. unfold resolve_ifetch_policy. erewrite bind_Ok by reflexivity.
  destruct (cpl s) eqn:Ec; [| |by destruct (Hcpl eq_refl)|]; (eexists; split; [reflexivity|]);
    (split; [by split|]); intros flags Hf Hm; try done; by_flags.
Qed.

Lemma ifetch_policy_is_architectural_witness :
  exists p, resolve_ifetch_policy (E := unit) true (set_cpl LvU CsrRegFile_new) =
    (Ok p, set_cpl LvU CsrRegFile_new) /\ policy_allows p 0x1B = true /\ policy_allows p 0x0B = false.
Proof.
  destruct (ifetch_policy_is_architectural (E := unit) (set_cpl LvU CsrRegFile_new) true)
    as (p & Hp & _ & Hf).
  - discriminate.
  - assert (uint 8 0x1B) as H1 by (vm_compute; split; [discriminate|reflexivity]).
    assert (uint 8 0x0B) as H2 by (vm_compute; split; [discriminate|reflexivity]).
    exists p. split; [exact Hp|]. split.
    + exact (Hf 0x1B H1 ltac:(discriminate)).
    + exact (Hf 0x0B H2 ltac:(discriminate)).
Defined.

(** ** Store-conditional and the reservation *)
Section Sc.
Context {D : Type} `{DeviceTrait D} `{Profile}.

(** An SC that reaches memory, or is misaligned, leaves no reservation
    whatever its outcome. *)
Theorem sc_clears_reservation t addr data policy (s s1 : VirtAddrManager D) res s' paddr :
  (check_align t addr = true -> translate_with_policy addr policy s = (Ok paddr, s1)) ->
  store_conditional_with_policy t addr data policy s = (res, s') ->
  reserved (ram (mmio s')) = None.
Proof.
  intros Htr. unfold store_conditional_with_policy. destruct (check_align t addr); cbn [negb].
  - specialize (Htr eq_refl). erewrite bind_Ok by exact Htr. unfold on_mmio, zoom.
    destruct (Mmio.store_conditional t paddr data (mmio s1)) as [r m1]. by intros [= <- <-].
  - by intros [= <- <-].
Qed.

(** A page fault during an SC returns before the reservation is cleared. *)
Theorem sc_page_fault_keeps_reservation t addr data check effect fault (s s1 : VirtAddrManager D) e :
  check_align t addr = true -> vm_translate addr check effect s = (Err e, s1) ->
  store_conditional_with_policy t addr data (Translated check effect fault) s = (Err fault, s1).
Proof.
  intros Hal Htr. unfold store_conditional_with_policy. rewrite Hal. cbn [negb].
  eapply bind_Err. cbn. unfold map_err. by rewrite Htr.
Qed.
End Sc.

(** ** A concrete address space: the demonstration page table, with a
    reservation held at the first byte of RAM. *)
Definition demo_vm : VirtAddrManager Z :=
  Build_VirtAddrManager
    (Build_MemoryMapIO [] (set_reserved (Some (Reservation_new 0)) demo_ram) []) demo_walker.

Lemma sc_clears_reservation_witness :
  let D := demo_device in
  reserved (ram (mmio (snd (@store_conditional_with_policy Z release U32 BASE_ADDR 7 Direct demo_vm)))) = None.
Proof.
  intros D.
  destruct (@store_conditional_with_policy Z release U32 BASE_ADDR 7 Direct demo_vm) as [res s'] eqn:E.
  apply (@sc_clears_reservation Z release U32 BASE_ADDR 7 Direct demo_vm demo_vm res s' BASE_ADDR).
  - intros _. reflexivity.
  - exact E.
Defined.

Lemma sc_page_fault_keeps_reservation_witness :
  exists s1, @store_conditional_with_policy Z release U32 0x5000 7
      (Translated read_check AccessedDirty MemStorePageFault) demo_vm = (Err MemStorePageFault, s1) /\
    reserved (ram (mmio s1)) = Some (Reservation_new 0).
Proof.
  exists (snd (@vm_translate Z release 0x5000 read_check AccessedDirty demo_vm)). split.
  - apply (@sc_page_fault_keeps_reservation Z release U32 0x5000 7 read_check AccessedDirty
      MemStorePageFault demo_vm _ PageFault).
    + reflexivity.
    + vm_compute. reflexivity.
  - vm_compute. reflexivity.
Defined.
