(* ===== verification/Instr.v ===== *)
(** * Instructions (src/src/isa/riscv/instruction/mod.rs, isa/riscv/mod.rs,
    decoder/mod.rs)

    Raw and decoded instructions.  The enumeration [RiscvInstr] and the tables
    of masks and keys are generated by the build from a table of opcodes; the
    names here are those of the integer, atomic, privileged and compressed
    instructions, with [OtherInstr] for the remaining floating-point, vector
    and custom ones. *)

From S2P Require Import Prelude Utils.

Inductive RVInstrInfo : Type :=
| INone
| IR (rs1 rs2 rd : Z)
| IR_rm (rs1 rs2 rd rm : Z)
| IR4_rm (rs1 rs2 rs3 rd rm : Z)
| II (rs1 rd imm : Z)
| IS (rs1 rs2 imm : Z)
| IB (rs1 rs2 imm : Z)
| IU (rd imm : Z)
| IJ (rd imm : Z)
| IA (rs1 rs2 rd : Z) (rl aq : bool)
| IV (rs1 rs2 rd : Z) (vm : bool) (func6 : Z)
| ICR (rd_rs1 rs2 : Z)
| ICI (rd_rs1 imm : Z)
| ICSS (rs2 imm : Z)
| ICIW (rd imm : Z)
| ICL (rd rs1 imm : Z)
| ICS (rs1 rs2 imm : Z)
| ICA (rd_rs1 rs2 : Z)
| ICB (rd_rs1 imm : Z)
| ICJ (target : Z).

Inductive InstrFormat : Type :=
| FmtNone | FmtR | FmtR_rm | FmtR4_rm | FmtI | FmtS | FmtB | FmtU | FmtJ | FmtA | FmtV
| FmtCI | FmtCIW | FmtCA | FmtCB | FmtCJ | FmtCL | FmtCR | FmtCS | FmtCSS.

Inductive RiscvInstr : Type :=
(* RV_I and RV_M *)
| ADD | ADDI | ADDW | ADDIW | SUB | SUBW
| MUL | MULH | MULHU | MULHSU | DIV | DIVU | REM | REMU | MULW | DIVW | DIVUW | REMW | REMUW
| SLL | SLLI | SRL | SRLI | SRA | SRAI | SRAW | SRAIW | SLLW | SLLIW | SRLW | SRLIW
| SLT | SLTI | SLTU | SLTIU | AND | ANDI | OR | ORI | XOR | XORI
| BEQ | BNE | BLT | BGE | BLTU | BGEU
| LB | LBU | LH | LHU | LW | LWU | LD | SB | SH | SW | SD
| JAL | JALR | AUIPC | LUI | EBREAK | ECALL | FENCE | FENCE_I
| CSRRW | CSRRC | CSRRS | CSRRWI | CSRRCI | CSRRSI | MRET | WFI
(* RV_A *)
| AMOADD_W | AMOAND_W | AMOOR_W | AMOXOR_W | AMOADD_D | AMOAND_D | AMOOR_D | AMOXOR_D
| AMOSWAP_W | AMOSWAP_D | AMOMAX_W | AMOMIN_W | AMOMAXU_W | AMOMINU_W
| AMOMAX_D | AMOMIN_D | AMOMAXU_D | AMOMINU_D | LR_W | SC_W | LR_D | SC_D
(* RV_S *)
| SRET | SFENCE_VMA
(* RV_C *)
| C_ADD | C_ADDI | C_ADDI16SP | C_ADDW | C_ADDIW | C_ADDI4SPN | C_SLLI | C_SRLI | C_SRAI | C_MV
| C_AND | C_ANDI | C_OR | C_XOR | C_SUB | C_SUBW | C_NOP | C_EBREAK | C_LI | C_LUI
| C_LW | C_LD | C_LWSP | C_LDSP | C_SW | C_SD | C_SWSP | C_SDSP
| C_BEQZ | C_BNEZ | C_J | C_JAL | C_JR | C_JALR | ILLEGAL
| C_FLW | C_FLD | C_FLWSP | C_FLDSP | C_FSW | C_FSD | C_FSWSP | C_FSDSP
| OtherInstr (id : Z).
#[global] Instance RiscvInstr_eq_dec : EqDecision RiscvInstr.
Proof. solve_decision. Defined.

(** One line of the generated tables. *)
Record RVInstrDesc : Type := {
  desc_instr : RiscvInstr; desc_format : InstrFormat; desc_mask : Z; desc_key : Z
}.

Record DecodeInstr : Type := { instr : RiscvInstr; info : RVInstrInfo; len : Z }.

(** [RawInstr] and its length. *)
Definition instr_len (raw : Z) : Z := if Z.land raw 3 =? 3 then 4 else 2.
Definition RawInstr_from (value : Z) : Z := if instr_len value =? 2 then Z.land value 0xFFFF else value.
