(* ===== verification/Cpu.v ===== *)
(** * The hart (src/src/isa/riscv/executor.rs, cpu/reg_file.rs,
    isa/riscv/csr_reg/cpu.rs, isa/riscv/mmu/cpu.rs)

    The state of one hart and the operations on it that instructions are built
    from: the register file, CSR access with its side effects, and memory
    accesses with their pending trap value.  The floating-point and vector
    units are an opaque component [X] of the state. *)

From S2P Require Import Prelude Utils TrapTypes Ram Cache CsrTable Csr PageTable Mmio Vm Instr.

(** [Cache<DirectCache<DecodeInstr, 8192>>], [ADDR_SHIFT_BITS = 1]. *)
Definition Icache : Type := Cache (DirectCache DecodeInstr).
#[export] Instance icache_policy : CachePolicy (DirectCache DecodeInstr) DecodeInstr :=
  DirectCache_policy None 1 8192.

Record RVCPU (D X : Type) : Type := {
  reg_file : list Z;
  pc : Z;
  memory : VirtAddrManager D;
  csr : CsrRegFile;
  icache : Icache;
  icache_epoch : Z;
  ext : X;
  time_addr : option Z;
  pending_tval : option Z
}.
Arguments reg_file {D X} _.
Arguments pc {D X} _.
Arguments memory {D X} _.
Arguments csr {D X} _.
Arguments icache {D X} _.
Arguments icache_epoch {D X} _.
Arguments ext {D X} _.
Arguments time_addr {D X} _.
Arguments pending_tval {D X} _.
Arguments Build_RVCPU {D X} _ _ _ _ _ _ _ _ _.

Definition REGFILE_CNT : nat := 32.
Definition RegFile_new : list Z := replicate REGFILE_CNT 0.

Section Cpu.
Context {D X : Type} `{DeviceTrait D} `{Profile}.

Abbreviation CPU := (RVCPU D X).
Abbreviation CpuM := (M CPU Exception).

Definition set_reg_file (v : list Z) (c : CPU) : CPU :=
  Build_RVCPU v (pc c) (memory c) (csr c) (icache c) (icache_epoch c) (ext c) (time_addr c) (pending_tval c).
Definition set_pc (v : Z) (c : CPU) : CPU :=
  Build_RVCPU (reg_file c) v (memory c) (csr c) (icache c) (icache_epoch c) (ext c) (time_addr c) (pending_tval c).
Definition set_memory (v : VirtAddrManager D) (c : CPU) : CPU :=
  Build_RVCPU (reg_file c) (pc c) v (csr c) (icache c) (icache_epoch c) (ext c) (time_addr c) (pending_tval c).
Definition set_csr (v : CsrRegFile) (c : CPU) : CPU :=
  Build_RVCPU (reg_file c) (pc c) (memory c) v (icache c) (icache_epoch c) (ext c) (time_addr c) (pending_tval c).
Definition set_icache (v : Icache) (e : Z) (c : CPU) : CPU :=
  Build_RVCPU (reg_file c) (pc c) (memory c) (csr c) v e (ext c) (time_addr c) (pending_tval c).
Definition set_pending_tval (v : option Z) (c : CPU) : CPU :=
  Build_RVCPU (reg_file c) (pc c) (memory c) (csr c) (icache c) (icache_epoch c) (ext c) (time_addr c) v.

Definition on_csr {A} (m : M CsrRegFile Exception A) : CpuM A := zoom csr (fun c x => set_csr x c) m.
Definition on_memory {E A} (m : M (VirtAddrManager D) E A) : M CPU E A :=
  zoom memory (fun c x => set_memory x c) m.

(** ** Register file: an index past the 32 registers panics. *)
Definition reg_at (id : Z) : CpuM Z := r <- gets reg_file ;; unwrap (r !! Z.to_nat id).
Definition reg_read (id1 id2 : Z) : CpuM (Z * Z) :=
  a <- reg_at id1 ;; b <- reg_at id2 ;; ret (a, b).
Definition reg_write (id data : Z) : CpuM unit :=
  if id =? 0 then ret tt
  else r <- gets reg_file ;;
       if Z.of_nat (length r) <=? id then panic
       else modify (fun c => set_reg_file (<[Z.to_nat id := data]> (reg_file c)) c).

(** [cpu.pc = ...] *)
Definition write_pc (new_pc : Z) : CpuM unit := modify (set_pc new_pc).
Definition pc_add (n : Z) : CpuM unit := modify (fun c => set_pc (wrap 64 (pc c + n)) c).
Definition get_current_privilege : CpuM PrivilegeLevel := on_csr privelege_level.
Definition retire : CpuM unit := on_csr (Minstret_wrapping_add 1).

Definition flush_icache : CpuM unit :=
  modify (fun c => set_icache (Cache_clear (icache c)) (wrap 64 (icache_epoch c + 1)) c).
Definition cpu_flush_tlb : CpuM unit := on_memory vm_flush_tlb.

(** ** CSR access (csr_reg/cpu.rs) *)
Definition Satp_mode : CsrField := Fld Satp 60 4.
Definition Satp_ppn : CsrField := Fld Satp 0 44.

Definition read_csr (addr : Z) : CpuM Z :=
  if addr =? 0xc01 then
    t <- gets time_addr ;;
    match t with
    | Some time_addr => fun c =>
        match on_memory (read_by_paddr U64 time_addr) c with
        | (Ok time, c') => (Ok time, c')
        | (Err _, c') => (Err IllegalInstruction, c')
        | (Panic, c') => (Panic, c')
        end
    | None => err IllegalInstruction
    end
  else
    o <- on_csr (read_checked addr) ;;
    match o with Some data => ret data | None => err IllegalInstruction end.

Definition write_csr (addr data : Z) : CpuM unit :=
  ok <- on_csr (write_checked addr data) ;;
  if negb ok then err IllegalInstruction
  else if addr =? Satp then
    mode <- on_csr (get_field Satp_mode) ;;
    on_memory (vm_set_mode (wrap 8 mode)) ;;;
    ppn <- on_csr (get_field Satp_ppn) ;;
    on_memory (set_root_ppn ppn) ;;;
    on_memory vm_flush_tlb ;;;
    flush_icache
  else ret tt.

(** ** Memory accesses (mmu/cpu.rs) *)

(** On failure record the faulting address. *)
Definition finish_memory_access {A} (addr : Z) (m : M CPU MemError A) : CpuM A :=
  fun c => match m c with
           | (Ok a, c') => (Ok a, c')
           | (Err e, c') => (Err (from_memory_err e), set_pending_tval (Some addr) c')
           | (Panic, c') => (Panic, c')
           end.

Definition data_policy (access : AccessType) : CpuM AccessPolicy := on_csr (resolve_data_policy access true).

Definition mem_read (t : UInt) (addr : Z) : CpuM Z :=
  policy <- data_policy Read ;;
  finish_memory_access addr (on_memory (read_with_policy t addr policy)).

Definition mem_write (t : UInt) (addr data : Z) : CpuM unit :=
  policy <- data_policy Write ;;
  finish_memory_access addr (on_memory (write_with_policy t addr data policy)).

Definition cpu_load_reserved (t : UInt) (addr : Z) : CpuM Z :=
  policy <- data_policy Read ;;
  finish_memory_access addr (on_memory (load_reserved_with_policy t addr policy)).

Definition cpu_store_conditional (t : UInt) (addr data : Z) : CpuM bool :=
  policy <- data_policy Write ;;
  finish_memory_access addr (on_memory (store_conditional_with_policy t addr data policy)).

Definition fetch_and_op_amo (t : UInt) (addr rhs_val : Z) (f : AmoOp) : CpuM Z :=
  policy <- data_policy ReadWrite ;;
  fun c => match on_memory (fetch_and_op_amo_with_policy t addr rhs_val policy f) c with
           | (Ok v, c') => (Ok v, c')
           | (Err e, c') => (Err e, set_pending_tval (Some addr) c')
           | (Panic, c') => (Panic, c')
           end.

Definition read_for_ifetch (t : UInt) (addr : Z) : M CPU MemError Z :=
  policy <- zoom csr (fun c x => set_csr x c) (resolve_ifetch_policy true) ;;
  on_memory (read_with_policy t addr policy).

(** ** What no memory operation changes

    [same_arch c c']: the registers, the program counter and the CSRs are the
    same; only memory, the TLB and the pending trap value may differ. *)
Definition same_arch (c c' : CPU) : Prop :=
  reg_file c' = reg_file c /\ pc c' = pc c /\ csr c' = csr c /\ ext c' = ext c.

Lemma same_arch_refl c : same_arch c c.
Proof. by split_and!. Qed.

Lemma same_arch_trans c1 c2 c3 : same_arch c1 c2 -> same_arch c2 c3 -> same_arch c1 c3.
Proof. unfold same_arch. intuition congruence. Qed.

Lemma on_memory_same {E A} (m : M (VirtAddrManager D) E A) c r c' :
  on_memory m c = (r, c') -> same_arch c c' /\ pending_tval c' = pending_tval c /\
    icache c' = icache c /\ time_addr c' = time_addr c.
Proof. unfold on_memory, zoom. destruct (m (memory c)). intros [= <- <-]. by split. Qed.

Lemma finish_same {A} addr (m : M CPU MemError A) c r c' :
  (forall r1 c1, m c = (r1, c1) -> same_arch c c1) ->
  finish_memory_access addr m c = (r, c') -> same_arch c c'.
Proof.
  unfold finish_memory_access. destruct (m c) as [[a|e|] c1]; intros Hm [= <- <-];
    specialize (Hm _ _ eq_refl); destruct Hm as (?&?&?&?); by split_and!.
Qed.
End Cpu.

(** A concrete hart over the demonstration address space. *)
Definition demo_cpu (regs : list Z) (p : Z) (s : CsrRegFile) : RVCPU Z unit :=
  Build_RVCPU regs p demo_vm s (Cache_new (H := icache_policy)) 0 tt None None.
