(* ===== verification/Trap.v ===== *)
(** * Traps and trap returns (src/src/isa/riscv/trap/trap_controller.rs)

    Delegation, entry into M-mode and S-mode handlers, [mret], [sret] and the
    selection of pending interrupts. *)

From S2P Require Import Prelude Utils TrapTypes CsrTable Csr Mmio Vm Cpu.

Definition Mideleg_ssip : CsrField := Fld Mideleg 1 1.
Definition Mideleg_stip : CsrField := Fld Mideleg 5 1.
Definition Mideleg_seip : CsrField := Fld Mideleg 9 1.
Definition Mstatus_sie : CsrField := Fld Mstatus 1 1.
Definition Mstatus_mie : CsrField := Fld Mstatus 3 1.
Definition Mstatus_mpie : CsrField := Fld Mstatus 7 1.
Definition Sstatus_sie : CsrField := Fld Sstatus 1 1.
Definition Sstatus_spie : CsrField := Fld Sstatus 5 1.
Definition Sstatus_spp : CsrField := Fld Sstatus 8 1.
Definition Mtvec_mode : CsrField := Fld Mtvec 0 2.
Definition Mtvec_base : CsrField := Fld Mtvec 2 (XLEN - 2).
Definition Stvec_mode : CsrField := Fld Stvec 0 2.
Definition Stvec_base : CsrField := Fld Stvec 2 (XLEN - 2).

Section Trap.
Context {D X : Type} `{DeviceTrait D} `{Profile}.

Abbreviation CPU := (RVCPU D X).
Abbreviation CpuM := (M CPU Exception).

Definition is_exception_delegated_m_mode (exception : Exception) : CpuM bool :=
  medeleg_val <- on_csr (data Medeleg) ;;
  ret (negb (Z.land medeleg_val (shl 64 1 (Exception_as_u8 exception)) =? 0)).

Definition is_interrupt_delegated_m_mode (interrupt : Interrupt) : CpuM bool :=
  let flag f := v <- on_csr (get_field f) ;; ret (negb (v =? 0)) in
  match interrupt with
  | MachineExternal | MachineSoft | MachineTimer => ret false
  | SupervisorExternal | UserExternal => flag Mideleg_seip
  | SupervisorSoft | UserSoft => flag Mideleg_ssip
  | SupervisorTimer | UserTimer => flag Mideleg_stip
  | UnknownInterrupt => panic
  end.

Definition is_delegated_m_mode (cause : Trap) : CpuM bool :=
  match cause with
  | TrapInterrupt interrupt => is_interrupt_delegated_m_mode interrupt
  | TrapException exception => is_exception_delegated_m_mode exception
  end.

(** The multiplication and addition of the vectored case are checked in debug
    builds. *)
Definition next_pc_by_tvec (cause : Trap) (mode base : Z) : CpuM Z :=
  match mode, cause with
  | 0, _ | 1, TrapException _ => ret (shl 64 base 2)
  | 1, TrapInterrupt ir =>
      offset <- unwrap (Interrupt_into ir) ;;
      add_chk 64 (shl 64 base 2) (offset * 4)
  | _, _ => panic
  end.

Definition send_trap_signal_m_mode (cause : Trap) (trap_value : Z) : CpuM unit :=
  level <- on_csr privelege_level ;;
  on_csr (set_field Mstatus_mpp (priv_nr level)) ;;;
  on_csr (set_current_privileged LvM) ;;;
  code <- unwrap (Trap_into cause) ;;
  on_csr (write_uncheck_privilege Mcause code) ;;;
  p <- gets pc ;;
  on_csr (write_uncheck_privilege Mepc p) ;;;
  on_csr (write_uncheck_privilege Mtval trap_value) ;;;
  mie <- on_csr (get_field Mstatus_mie) ;;
  on_csr (set_field Mstatus_mpie mie) ;;;
  on_csr (set_field Mstatus_mie 0) ;;;
  mode <- on_csr (get_field Mtvec_mode) ;;
  base <- on_csr (get_field Mtvec_base) ;;
  target <- next_pc_by_tvec cause mode base ;;
  write_pc target.

Definition mret : CpuM unit :=
  mpie <- on_csr (get_field Mstatus_mpie) ;;
  on_csr (set_field Mstatus_mie mpie) ;;;
  on_csr (set_field Mstatus_mpie 1) ;;;
  epc <- on_csr (read_uncheck_privilege Mepc) ;;
  epc <- unwrap epc ;;
  write_pc epc ;;;
  mpp <- on_csr (get_field Mstatus_mpp) ;;
  let new_priv := wrap 8 mpp in
  (if negb (new_priv =? priv_nr LvM) then on_csr (set_field Mstatus_mprv 0) else ret tt) ;;;
  l <- unwrap (priv_try_from new_priv) ;;
  on_csr (set_current_privileged l) ;;;
  on_csr (set_field Mstatus_mpp 0).

Definition send_trap_signal_s_mode (cause : Trap) (trap_value : Z) : CpuM unit :=
  level <- on_csr privelege_level ;;
  on_csr (set_field Sstatus_spp (priv_nr level)) ;;;
  on_csr (set_current_privileged LvS) ;;;
  code <- unwrap (Trap_into cause) ;;
  ok <- on_csr (CsrRegFile_write_directly Scause code) ;; assert ok ;;;
  p <- gets pc ;;
  ok <- on_csr (CsrRegFile_write_directly Sepc p) ;; assert ok ;;;
  ok <- on_csr (CsrRegFile_write_directly Stval trap_value) ;; assert ok ;;;
  sie <- on_csr (get_field Sstatus_sie) ;;
  on_csr (set_field Sstatus_spie sie) ;;;
  on_csr (set_field Sstatus_sie 0) ;;;
  mode <- on_csr (get_field Stvec_mode) ;;
  base <- on_csr (get_field Stvec_base) ;;
  target <- next_pc_by_tvec cause mode base ;;
  write_pc target.

Definition sret : CpuM unit :=
  spie <- on_csr (get_field Sstatus_spie) ;;
  on_csr (set_field Sstatus_sie spie) ;;;
  on_csr (set_field Sstatus_spie 1) ;;;
  epc <- on_csr (read_uncheck_privilege Sepc) ;;
  epc <- unwrap epc ;;
  write_pc epc ;;;
  spp <- on_csr (get_field Sstatus_spp) ;;
  let new_priv := wrap 8 spp in
  on_csr (set_field Mstatus_mprv 0) ;;;
  l <- unwrap (priv_try_from new_priv) ;;
  on_csr (set_current_privileged l) ;;;
  on_csr (set_field Sstatus_spp (priv_nr LvU)).

Definition priv_lt (a b : PrivilegeLevel) : bool := priv_nr a <? priv_nr b.

(** [level == M || is_delegated_m_mode(..) == false]: the second test runs only
    below M. *)
Definition goes_to_m (level : PrivilegeLevel) (cause : Trap) : CpuM bool :=
  if bool_decide (level = LvM) then ret true
  else d <- is_delegated_m_mode cause ;; ret (negb d).

Definition try_send_trap_signal (cause : Trap) (trap_value : Z) : CpuM bool :=
  level <- on_csr privelege_level ;;
  m <- goes_to_m level cause ;;
  if (m : bool) then
    match cause with
    | TrapException _ => send_trap_signal_m_mode cause trap_value ;;; ret true
    | TrapInterrupt _ =>
        enabled <- (if priv_lt level LvM then ret true
                    else mie <- on_csr (get_field Mstatus_mie) ;; ret (mie =? 1)) ;;
        if (enabled : bool) then send_trap_signal_m_mode cause trap_value ;;; ret true else ret false
    end
  else
    match cause with
    | TrapException _ => send_trap_signal_s_mode cause trap_value ;;; ret true
    | TrapInterrupt _ =>
        enabled <- (if priv_lt level LvS then ret true
                    else sie <- on_csr (get_field Mstatus_sie) ;; ret (sie =? 1)) ;;
        if (enabled : bool) then send_trap_signal_s_mode cause trap_value ;;; ret true else ret false
    end.

Definition take_exception (exception : Exception) (trap_value : Z) : CpuM unit :=
  taken <- try_send_trap_signal (TrapException exception) trap_value ;;
  assert (negb debug_assertions || taken).

(** The loop over bits 0 to 15; running past them is [unreachable!]. *)
Fixpoint lowest_pending (fuel : nat) (i pending : Z) : option Interrupt :=
  match fuel with
  | O => None
  | S fuel => if negb (Z.land pending (shl 64 1 i) =? 0) then Some (Interrupt_from i)
              else lowest_pending fuel (i + 1) pending
  end.

Definition has_interrupt : CpuM (option Interrupt) :=
  mip <- on_csr (data Mip) ;;
  mie <- on_csr (data Mie) ;;
  let pending := Z.land mip mie in
  if pending =? 0 then ret None
  else i <- unwrap (lowest_pending 16 0 pending) ;; ret (Some i).

Definition try_take_interrupt : CpuM (option Interrupt) :=
  o <- has_interrupt ;;
  match o with
  | None => ret None
  | Some interrupt =>
      taken <- try_send_trap_signal (TrapInterrupt interrupt) 0 ;;
      ret (if (taken : bool) then Some interrupt else None)
  end.
End Trap.

(** ** Stepping through the handlers

    The state is kept in the form [set_csr s c]: only the CSRs [s] change until
    the program counter is written. *)
Section Run.
Context {D X : Type} `{DeviceTrait D} `{Profile}.
Implicit Types c : RVCPU D X.

Lemma csr_bind {A B} (m : M CsrRegFile Exception A) (k : A -> M (RVCPU D X) Exception B) s c a s' :
  m s = (Ok a, s') -> bind (on_csr m) k (set_csr s c) = k a (set_csr s' c).
Proof. intros Hm. apply bind_Ok. unfold on_csr, zoom. cbn [csr set_csr]. by rewrite Hm. Qed.

Lemma on_csr_run {A} (m : M CsrRegFile Exception A) s c a s' :
  m s = (Ok a, s') -> on_csr m (set_csr s c) = (Ok a, set_csr s' c).
Proof. intros Hm. unfold on_csr, zoom. cbn [csr set_csr]. by rewrite Hm. Qed.

Lemma gets_pc_bind {B} (k : Z -> M (RVCPU D X) Exception B) s c :
  bind (gets pc) k (set_csr s c) = k (pc c) (set_csr s c).
Proof. done. Qed.

Lemma unwrap_bind {A B} (o : option A) a (k : A -> M (RVCPU D X) Exception B) c :
  o = Some a -> bind (unwrap o) k c = k a c.
Proof. by intros ->. Qed.

Lemma set_csr_id c : set_csr (csr c) c = c.
Proof. by destruct c. Qed.

Lemma level_run c : on_csr privelege_level c = (Ok (cpl (csr c)), c).
Proof. by destruct c. Qed.
End Run.

(** Fields of [mstatus] at their place. *)
Definition mstatus_field (f : CsrField) (low len : Z) : Prop :=
  reg_index (fl_csr f) = Mstatus /\ LOW_BIT f = low /\ fl_len f = len /\ field_ok f /\ writable f.

Ltac solve_mstatus_field :=
  split_and!; [vm_compute; reflexivity|reflexivity|reflexivity|
    vm_compute; split_and!; (discriminate || reflexivity)|
    apply (writable_of_mask _ mstatus_write_mask); [
      match goal with |- mask_at ?a _ => replace a with Mstatus by (vm_compute; reflexivity) end;
      exact mstatus_mask | vm_compute; reflexivity]].

Lemma mstatus_mpp_field : mstatus_field Mstatus_mpp 11 2.
Proof. solve_mstatus_field. Qed.
Lemma mstatus_mie_field : mstatus_field Mstatus_mie 3 1.
Proof. solve_mstatus_field. Qed.
Lemma mstatus_mpie_field : mstatus_field Mstatus_mpie 7 1.
Proof. solve_mstatus_field. Qed.
Lemma mstatus_mprv_field : mstatus_field Mstatus_mprv 17 1.
Proof. solve_mstatus_field. Qed.
Lemma mstatus_sie_field : mstatus_field Mstatus_sie 1 1.
Proof. solve_mstatus_field. Qed.
Lemma sstatus_sie_field : mstatus_field Sstatus_sie 1 1.
Proof. solve_mstatus_field. Qed.
Lemma sstatus_spie_field : mstatus_field Sstatus_spie 5 1.
Proof. solve_mstatus_field. Qed.
Lemma sstatus_spp_field : mstatus_field Sstatus_spp 8 1.
Proof. solve_mstatus_field. Qed.

Section Fields.
Context {E : Type}.

Lemma known_Mstatus : known Mstatus = true.
Proof. apply known_of. vm_compute. reflexivity. Qed.

Lemma get_mstatus s f low len : csr_wf s -> mstatus_field f low len ->
  get_field (E := E) f s = (Ok (fget low len (val s Mstatus)), s).
Proof.
  intros Hwf (Hi & <- & <- & Hok & _). rewrite get_field_run by (done || rewrite Hi; apply known_Mstatus).
  by rewrite Hi.
Qed.

Lemma set_mstatus s f low len x : csr_wf s -> mstatus_field f low len -> uint len x ->
  set_field (E := E) f x s = (Ok tt, upd Mstatus (fset low len (val s Mstatus) x) s).
Proof.
  intros Hwf (Hi & <- & <- & Hok & Hw) Hx.
  rewrite set_field_run by (done || rewrite Hi; apply known_Mstatus). by rewrite Hi.
Qed.

Lemma upd_mstatus_wf s low len x : csr_wf s -> 0 <= low -> 0 <= len -> low + len <= 64 -> uint len x ->
  csr_wf (upd Mstatus (fset low len (val s Mstatus) x) s).
Proof. intros. apply upd_wf; [done|]. apply fset_range; auto using val_u64. Qed.

Lemma priv_nr_range p : uint 2 (priv_nr p).
Proof. destruct p; vm_compute; split; (discriminate || reflexivity). Qed.
End Fields.

(** ** Trap entry into M-mode *)

(** [mstatus] after entering M-mode from [level]: MPP := level, MPIE := MIE,
    MIE := 0. *)
Definition mstatus_m_entry (v : Z) (level : PrivilegeLevel) : Z :=
  let v1 := fset 11 2 v (priv_nr level) in
  fset 3 1 (fset 7 1 v1 (fget 3 1 v1)) 0.

(** The CSRs after entering M-mode. *)
Definition csr_m_entry (s : CsrRegFile) (code epc tval : Z) : CsrRegFile :=
  let s1 := set_cpl LvM (upd Mstatus (fset 11 2 (val s Mstatus) (priv_nr (cpl s))) s) in
  let s2 := upd Mtval tval (upd Mepc epc (upd Mcause code s1)) in
  let s3 := upd Mstatus (fset 7 1 (val s2 Mstatus) (fget 3 1 (val s2 Mstatus))) s2 in
  upd Mstatus (fset 3 1 (val s3 Mstatus) 0) s3.

Lemma uint_1_fget low v : uint 1 (fget low 1 v).
Proof. by apply fget_range. Qed.

Lemma csr_m_entry_wf s code epc tval : csr_wf s -> u64 code -> u64 epc -> u64 tval ->
  csr_wf (csr_m_entry s code epc tval).
Proof.
  intros. unfold csr_m_entry.
  repeat first [apply upd_mstatus_wf | apply upd_wf | apply set_cpl_wf];
    auto using val_u64, uint_1_fget, priv_nr_range with lia. all: try lia. by apply uint_0.
Qed.

Section MEntry.
Context {D X : Type} `{DeviceTrait D} `{Profile}.
Implicit Types c : RVCPU D X.

Lemma plain_write s a d : csr_wf s ->
  bool_decide (a ∈ [Mcause; Mepc; Mtval]) = true -> u64 d ->
  write_uncheck_privilege (E := Exception) a d s = (Ok tt, upd a d s).
Proof.
  intros Hwf Ha%bool_decide_eq_true Hd. rewrite !elem_of_cons, elem_of_nil in Ha.
  destruct Ha as [->|[->|[->|[]]]]; apply write_plain_run; try done;
    first [apply known_of; reflexivity | exact mcause_mask | exact mepc_mask | exact mtval_mask
          | vm_compute; reflexivity].
Qed.

Lemma get_tvec s f reg : csr_wf s -> fl_csr f = reg ->
  bool_decide (reg ∈ [Mtvec; Stvec]) = true -> field_ok f ->
  get_field (E := Exception) f s = (Ok (fget (LOW_BIT f) (fl_len f) (val s reg)), s).
Proof.
  intros Hwf <- Ha%bool_decide_eq_true Hok. rewrite !elem_of_cons, elem_of_nil in Ha.
  assert (known (fl_csr f) = true /\ reg_index (fl_csr f) = fl_csr f) as [Hk Hr]
    by (destruct Ha as [->|[->|[]]]; apply known_of; reflexivity).
  rewrite get_field_run by (done || by rewrite Hr). by rewrite Hr.
Qed.

(** Running [send_trap_signal_m_mode]: the CSRs become [csr_m_entry], then the
    vector gives the program counter. *)
Lemma send_m_run s c cause tval code :
  csr_wf s -> u64 (pc c) -> u64 tval -> Trap_into cause = Some code ->
  let s' := csr_m_entry s code (pc c) tval in
  send_trap_signal_m_mode cause tval (set_csr s c) =
    (target <- next_pc_by_tvec cause (fget 0 2 (val s' Mtvec)) (fget 2 62 (val s' Mtvec)) ;; write_pc target) (set_csr s' c).
Proof.
  intros Hwf Hpc Htv Hcode s'. pose proof (Trap_into_range _ _ Hcode) as Hcu.
  assert (csr_wf s') as Hwf' by (by apply csr_m_entry_wf).
  unfold send_trap_signal_m_mode. erewrite csr_bind by reflexivity.
  erewrite csr_bind by (apply (set_mstatus _ _ 11 2); [done|apply mstatus_mpp_field|apply priv_nr_range]).
  erewrite csr_bind by reflexivity. erewrite unwrap_bind by exact Hcode.
  set (s1 := set_cpl LvM _).
  assert (csr_wf s1) as W1 by (apply set_cpl_wf, upd_mstatus_wf; auto using priv_nr_range with lia).
  erewrite csr_bind by (by apply plain_write). rewrite gets_pc_bind.
  assert (csr_wf (upd Mcause code s1)) as W2 by (by apply upd_wf).
  erewrite csr_bind by (by apply plain_write).
  assert (csr_wf (upd Mepc (pc c) (upd Mcause code s1))) as W3 by (by apply upd_wf).
  erewrite csr_bind by (by apply plain_write).
  set (s2 := upd Mtval tval _). assert (csr_wf s2) as W4 by (by apply upd_wf).
  erewrite csr_bind by (apply get_mstatus; [done|apply mstatus_mie_field]).
  erewrite csr_bind by (apply (set_mstatus _ _ 7 1); [done|apply mstatus_mpie_field|apply uint_1_fget]).
  set (s3 := upd Mstatus _ s2).
  assert (csr_wf s3) as W5 by (apply upd_mstatus_wf; [done|lia..|apply uint_1_fget]).
  erewrite csr_bind by (apply (set_mstatus _ _ 3 1); [done|apply mstatus_mie_field|by apply uint_0]).
  change (upd Mstatus (fset 3 1 (val s3 Mstatus) 0) s3) with s'.
  erewrite csr_bind by (apply (get_tvec _ _ Mtvec); [done|reflexivity|reflexivity|
    vm_compute; split_and!; (discriminate||reflexivity)]).
  by erewrite csr_bind by (apply (get_tvec _ _ Mtvec); [done|reflexivity|reflexivity|
    vm_compute; split_and!; (discriminate||reflexivity)]).
Qed.
End MEntry.

(** ** The state after entry *)
Lemma csr_m_entry_val s code epc tval a : csr_wf s -> u64 code -> u64 epc -> u64 tval ->
  val (csr_m_entry s code epc tval) a =
    if decide (a = Mstatus) then mstatus_m_entry (val s Mstatus) (cpl s)
    else if decide (a = Mtval) then tval
    else if decide (a = Mepc) then epc
    else if decide (a = Mcause) then code else val s a.
Proof.
  intros Hwf Hc He Ht. unfold csr_m_entry.
  set (s1 := set_cpl LvM _). assert (csr_wf s1) as W1
    by (apply set_cpl_wf, upd_mstatus_wf; auto using priv_nr_range with lia).
  set (s2 := upd Mtval tval _). assert (csr_wf s2) as W2 by (do 3 (apply upd_wf; [|done]); done).
  set (s3 := upd Mstatus _ s2).
  assert (csr_wf s3) as W3 by (apply upd_mstatus_wf; [done|lia..|apply uint_1_fget]).
  assert (val s2 Mstatus = fset 11 2 (val s Mstatus) (priv_nr (cpl s))) as E2.
  { unfold s2. rewrite !val_upd_ne by done. unfold s1. rewrite val_set_cpl.
    by apply val_upd_eq; [|apply known_Mstatus]. }
  destruct (decide (a = Mstatus)) as [->|Ha].
  - rewrite val_upd_eq by (done || apply known_Mstatus). unfold s3 at 1.
    rewrite val_upd_eq by (done || apply known_Mstatus). unfold mstatus_m_entry. by rewrite E2.
  - rewrite (val_upd_ne s3) by done. unfold s3. rewrite val_upd_ne by done. unfold s2.
    assert (csr_wf (upd Mcause code s1)) by (by apply upd_wf).
    assert (csr_wf (upd Mepc epc (upd Mcause code s1))) by (by apply upd_wf).
    destruct (decide (a = Mtval)) as [->|Hb].
    { apply val_upd_eq; [done|]. apply known_of. reflexivity. }
    rewrite val_upd_ne by done. destruct (decide (a = Mepc)) as [->|Hb2].
    { apply val_upd_eq; [done|]. apply known_of. reflexivity. }
    rewrite val_upd_ne by done. destruct (decide (a = Mcause)) as [->|Hb3].
    { apply val_upd_eq; [done|]. apply known_of. reflexivity. }
    rewrite val_upd_ne by done. unfold s1. rewrite val_set_cpl. by apply val_upd_ne.
Qed.

Lemma mstatus_m_entry_testbit v level i : 0 <= i ->
  Z.testbit (mstatus_m_entry v level) i =
    if i =? 3 then false else if i =? 7 then Z.testbit v 3
    else if (11 <=? i) && (i <=? 12) then Z.testbit (priv_nr level) (i - 11) else Z.testbit v i.
Proof.
  intros Hi. unfold mstatus_m_entry. pose proof (priv_nr_range level) as Hp.
  rewrite !fset_testbit by (try lia; first [by apply uint_0 | done | apply uint_1_fget]).
  destruct (Z.eqb_spec i 3) as [->|]; [done|].
  destruct (Z.eqb_spec i 7) as [->|].
  { cbn [Z.leb Z.ltb Z.compare andb Z.add Z.sub]. cbn.
    by rewrite fget_testbit, fset_testbit by (done || lia). }
  split_ltb; simpl; try lia; done.
Qed.

(** ** Where the handler starts *)

(** The address [tvec] gives for a cause: the base with the mode bits cleared,
    plus four times the interrupt number in vectored mode. *)
Definition tvec_target (tvec : Z) (cause : Trap) : Z :=
  let base := tvec - tvec mod 4 in
  match tvec mod 4, cause with
  | 1, TrapInterrupt i => base + 4 * default 0 (Interrupt_into i)
  | _, _ => base
  end.

Definition tvec_ok `{Profile} (tvec : Z) (cause : Trap) : Prop :=
  tvec mod 4 <= 1 /\ (overflow_checks = true -> tvec_target tvec cause < 2 ^ 64).

Lemma fget_mode tvec : fget 0 2 tvec = tvec mod 4.
Proof. unfold fget. by rewrite Z.shiftr_0_r. Qed.

Lemma fget_base tvec : u64 tvec -> shl 64 (fget 2 62 tvec) 2 = tvec - tvec mod 4.
Proof.
  intros Ht. assert (tvec - tvec mod 4 = Z.shiftl (Z.shiftr tvec 2) 2) as ->.
  { rewrite Z.shiftr_div_pow2, Z.shiftl_mul_pow2 by lia. change (2 ^ 2) with 4. pose proof (Z.div_mod tvec 4 ltac:(lia)). lia. }
  unfold shl, fget. fold (wrap 62 (Z.shiftr tvec 2)). bitwise i. destruct (Z.ltb_spec i 2).
  - by rewrite !(Z.testbit_neg_r _ (i - 2)), andb_false_r by lia.
  - autorewrite with bits. replace (i - 2 + 2) with i by lia.
    destruct (Z.ltb_spec i 64), (Z.ltb_spec (i - 2) 62); simpl; try lia; try done.
    by rewrite (uint_testbit_high 64 tvec) by (done || lia).
Qed.

Lemma next_pc_run {D X} `{Profile} (c : RVCPU D X) tvec cause code : u64 tvec ->
  Trap_into cause = Some code -> tvec_ok tvec cause ->
  next_pc_by_tvec cause (fget 0 2 tvec) (fget 2 62 tvec) c = (Ok (wrap 64 (tvec_target tvec cause)), c).
Proof.
  intros Ht Hc [Hm Hov]. rewrite fget_mode. unfold next_pc_by_tvec, tvec_target in *.
  rewrite fget_base by done. pose proof (Z.mod_pos_bound tvec 4 ltac:(lia)) as Hr.
  assert (u64 (tvec - tvec mod 4)) as Hb by (unfold uint in *; pose proof (Z.mod_le tvec 4); lia).
  assert (tvec mod 4 = 0 \/ tvec mod 4 = 1) as [E|E] by lia; rewrite E in *.
  - unfold ret. by rewrite wrap_small.
  - destruct cause as [i|e]; [|unfold ret; by rewrite wrap_small].
    cbn in Hc. destruct (Interrupt_into i) as [n|] eqn:Ei; [|discriminate]. cbn [default] in *.
    erewrite bind_Ok by reflexivity. unfold add_chk. rewrite (Z.mul_comm n 4).
    destruct overflow_checks; [|done]. specialize (Hov eq_refl).
    cbn. by rewrite (proj2 (Z.leb_gt _ _)).
Qed.

(** A reserved mode, or in debug builds a vector slot past the address space,
    panics. *)
Lemma next_pc_panics {D X} `{Profile} (c : RVCPU D X) tvec cause code : u64 tvec ->
  Trap_into cause = Some code -> ~ tvec_ok tvec cause ->
  next_pc_by_tvec cause (fget 0 2 tvec) (fget 2 62 tvec) c = (Panic, c).
Proof.
  intros Ht Hc Hno. rewrite fget_mode. unfold next_pc_by_tvec, tvec_ok, tvec_target in *.
  rewrite fget_base by done. pose proof (Z.mod_pos_bound tvec 4 ltac:(lia)) as Hr.
  assert (tvec - tvec mod 4 < 2 ^ 64) as Hb by (unfold uint in *; lia).
  assert (tvec mod 4 = 0 \/ tvec mod 4 = 1 \/ tvec mod 4 = 2 \/ tvec mod 4 = 3) as [E|[E|[E|E]]] by lia; rewrite E in *;
    [destruct Hno; split; [lia|by intros]| |done|done].
  destruct cause as [i|e]; [|destruct Hno; split; [lia|by intros]].
  cbn in Hc. destruct (Interrupt_into i) as [n|] eqn:Ei; [|discriminate]. cbn [default] in *.
  erewrite bind_Ok by reflexivity. unfold add_chk. rewrite (Z.mul_comm n 4).
  destruct overflow_checks; [|destruct Hno; split; [lia|discriminate]].
  cbn. destruct (Z.leb_spec (2 ^ 64) (tvec - 1 + 4 * n)); [done|]. destruct Hno; split; [lia|by intros].
Qed.

(** ** Trap entry into S-mode *)

(** [mstatus] after entering S-mode from [level]: SPP := level, SPIE := SIE,
    SIE := 0. *)
Definition mstatus_s_entry (v : Z) (level : PrivilegeLevel) : Z :=
  let v1 := fset 8 1 v (priv_nr level) in
  fset 1 1 (fset 5 1 v1 (fget 1 1 v1)) 0.

Definition csr_s_entry (s : CsrRegFile) (code epc tval : Z) : CsrRegFile :=
  let s1 := set_cpl LvS (upd Mstatus (fset 8 1 (val s Mstatus) (priv_nr (cpl s))) s) in
  let s2 := upd Stval tval (upd Sepc epc (upd Scause code s1)) in
  let s3 := upd Mstatus (fset 5 1 (val s2 Mstatus) (fget 1 1 (val s2 Mstatus))) s2 in
  upd Mstatus (fset 1 1 (val s3 Mstatus) 0) s3.

Lemma priv_nr_low p : p = LvU \/ p = LvS -> uint 1 (priv_nr p).
Proof. by intros [-> | ->]. Qed.

Lemma csr_s_entry_wf s code epc tval : csr_wf s -> uint 1 (priv_nr (cpl s)) ->
  u64 code -> u64 epc -> u64 tval -> csr_wf (csr_s_entry s code epc tval).
Proof.
  intros. unfold csr_s_entry.
  repeat first [apply upd_mstatus_wf | apply upd_wf | apply set_cpl_wf];
    auto using val_u64, uint_1_fget with lia. all: try lia. by apply uint_0.
Qed.

Lemma csr_s_entry_val s code epc tval a : csr_wf s -> uint 1 (priv_nr (cpl s)) ->
  u64 code -> u64 epc -> u64 tval ->
  val (csr_s_entry s code epc tval) a =
    if decide (a = Mstatus) then mstatus_s_entry (val s Mstatus) (cpl s)
    else if decide (a = Stval) then tval
    else if decide (a = Sepc) then epc
    else if decide (a = Scause) then code else val s a.
Proof.
  intros Hwf Hp Hc He Ht. unfold csr_s_entry.
  set (s1 := set_cpl LvS _). assert (csr_wf s1) as W1 by (apply set_cpl_wf, upd_mstatus_wf; auto with lia).
  set (s2 := upd Stval tval _). assert (csr_wf s2) as W2 by (do 3 (apply upd_wf; [|done]); done).
  set (s3 := upd Mstatus _ s2).
  assert (csr_wf s3) as W3 by (apply upd_mstatus_wf; [done|lia..|apply uint_1_fget]).
  assert (val s2 Mstatus = fset 8 1 (val s Mstatus) (priv_nr (cpl s))) as E2.
  { unfold s2. rewrite !val_upd_ne by done. unfold s1. rewrite val_set_cpl.
    by apply val_upd_eq; [|apply known_Mstatus]. }
  destruct (decide (a = Mstatus)) as [->|Ha].
  - rewrite val_upd_eq by (done || apply known_Mstatus). unfold s3 at 1.
    rewrite val_upd_eq by (done || apply known_Mstatus). unfold mstatus_s_entry. by rewrite E2.
  - rewrite (val_upd_ne s3) by done. unfold s3. rewrite val_upd_ne by done. unfold s2.
    assert (csr_wf (upd Scause code s1)) by (by apply upd_wf).
    assert (csr_wf (upd Sepc epc (upd Scause code s1))) by (by apply upd_wf).
    destruct (decide (a = Stval)) as [->|Hb].
    { apply val_upd_eq; [done|]. apply known_of. reflexivity. }
    rewrite val_upd_ne by done. destruct (decide (a = Sepc)) as [->|Hb2].
    { apply val_upd_eq; [done|]. apply known_of. reflexivity. }
    rewrite val_upd_ne by done. destruct (decide (a = Scause)) as [->|Hb3].
    { apply val_upd_eq; [done|]. apply known_of. reflexivity. }
    rewrite val_upd_ne by done. unfold s1. rewrite val_set_cpl. by apply val_upd_ne.
Qed.

Lemma mstatus_s_entry_testbit v level i : 0 <= i -> uint 1 (priv_nr level) ->
  Z.testbit (mstatus_s_entry v level) i =
    if i =? 1 then false else if i =? 5 then Z.testbit v 1
    else if i =? 8 then Z.testbit (priv_nr level) 0 else Z.testbit v i.
Proof.
  intros Hi Hp. unfold mstatus_s_entry.
  rewrite !fset_testbit by (try lia; first [by apply uint_0 | done | apply uint_1_fget]).
  destruct (Z.eqb_spec i 1) as [->|]; [done|]. destruct (Z.eqb_spec i 5) as [->|].
  { cbn. by rewrite fget_testbit, fset_testbit by (done || lia). }
  destruct (Z.eqb_spec i 8) as [->|]; [done|]. split_ltb; simpl; try lia; done.
Qed.

Section SEntry.
Context {D X : Type} `{DeviceTrait D} `{Profile}.
Implicit Types c : RVCPU D X.

Lemma direct_write_bind {B} (k : M (RVCPU D X) Exception B) s c a d : csr_wf s ->
  bool_decide (a ∈ [Scause; Sepc; Stval]) = true ->
  (ok <- on_csr (CsrRegFile_write_directly a d) ;; assert ok ;;; k) (set_csr s c) = k (set_csr (upd a d s) c).
Proof.
  intros Hwf Ha%bool_decide_eq_true. rewrite !elem_of_cons, elem_of_nil in Ha.
  assert (known a = true) as Hk by (destruct Ha as [->|[->|[->|[]]]]; apply known_of; reflexivity).
  by erewrite csr_bind by (by apply CsrRegFile_write_directly_run).
Qed.

Lemma send_s_run s c cause tval code :
  csr_wf s -> uint 1 (priv_nr (cpl s)) -> u64 (pc c) -> u64 tval -> Trap_into cause = Some code ->
  let s' := csr_s_entry s code (pc c) tval in
  send_trap_signal_s_mode cause tval (set_csr s c) =
    (target <- next_pc_by_tvec cause (fget 0 2 (val s' Stvec)) (fget 2 62 (val s' Stvec)) ;; write_pc target) (set_csr s' c).
Proof.
  intros Hwf Hp Hpc Htv Hcode s'. pose proof (Trap_into_range _ _ Hcode) as Hcu.
  assert (csr_wf s') as Hwf' by (by apply csr_s_entry_wf).
  unfold send_trap_signal_s_mode. erewrite csr_bind by reflexivity.
  erewrite csr_bind by (apply (set_mstatus _ _ 8 1); [done|apply sstatus_spp_field|done]).
  erewrite csr_bind by reflexivity. erewrite unwrap_bind by exact Hcode.
  set (s1 := set_cpl LvS _).
  assert (csr_wf s1) as W1 by (apply set_cpl_wf, upd_mstatus_wf; auto with lia).
  rewrite direct_write_bind by done. rewrite gets_pc_bind.
  assert (csr_wf (upd Scause code s1)) as W2 by (by apply upd_wf).
  rewrite direct_write_bind by done.
  assert (csr_wf (upd Sepc (pc c) (upd Scause code s1))) as W3 by (by apply upd_wf).
  rewrite direct_write_bind by done.
  set (s2 := upd Stval tval _). assert (csr_wf s2) as W4 by (by apply upd_wf).
  erewrite csr_bind by (apply get_mstatus; [done|apply sstatus_sie_field]).
  erewrite csr_bind by (apply (set_mstatus _ _ 5 1); [done|apply sstatus_spie_field|apply uint_1_fget]).
  set (s3 := upd Mstatus _ s2).
  assert (csr_wf s3) as W5 by (apply upd_mstatus_wf; [done|lia..|apply uint_1_fget]).
  erewrite csr_bind by (apply (set_mstatus _ _ 1 1); [done|apply sstatus_sie_field|by apply uint_0]).
  change (upd Mstatus (fset 1 1 (val s3 Mstatus) 0) s3) with s'.
  erewrite csr_bind by (apply (get_tvec _ _ Stvec); [done|reflexivity|reflexivity|
    vm_compute; split_and!; (discriminate||reflexivity)]).
  by erewrite csr_bind by (apply (get_tvec _ _ Stvec); [done|reflexivity|reflexivity|
    vm_compute; split_and!; (discriminate||reflexivity)]).
Qed.
End SEntry.

(** ** What a trap does, as the privileged architecture states it *)

Record m_entry (s s' : CsrRegFile) (code epc tval : Z) : Prop := {
  me_level : cpl s' = LvM;
  me_cause : val s' Mcause = code;
  me_epc : val s' Mepc = epc;
  me_tval : val s' Mtval = tval;
  me_mie : Z.testbit (val s' Mstatus) 3 = false;
  me_mpie : Z.testbit (val s' Mstatus) 7 = Z.testbit (val s Mstatus) 3;
  me_mpp : fget 11 2 (val s' Mstatus) = priv_nr (cpl s);
  me_mstatus : forall i, 0 <= i -> i <> 3 -> i <> 7 -> i <> 11 -> i <> 12 ->
    Z.testbit (val s' Mstatus) i = Z.testbit (val s Mstatus) i;
  me_frame : forall a, a ∉ [Mstatus; Mcause; Mepc; Mtval] -> val s' a = val s a
}.

Record s_entry (s s' : CsrRegFile) (code epc tval : Z) : Prop := {
  se_level : cpl s' = LvS;
  se_cause : val s' Scause = code;
  se_epc : val s' Sepc = epc;
  se_tval : val s' Stval = tval;
  se_sie : Z.testbit (val s' Mstatus) 1 = false;
  se_spie : Z.testbit (val s' Mstatus) 5 = Z.testbit (val s Mstatus) 1;
  se_spp : fget 8 1 (val s' Mstatus) = priv_nr (cpl s);
  se_mstatus : forall i, 0 <= i -> i <> 1 -> i <> 5 -> i <> 8 ->
    Z.testbit (val s' Mstatus) i = Z.testbit (val s Mstatus) i;
  se_frame : forall a, a ∉ [Mstatus; Scause; Sepc; Stval] -> val s' a = val s a
}.

Lemma csr_m_entry_correct s code epc tval : csr_wf s -> u64 code -> u64 epc -> u64 tval ->
  m_entry s (csr_m_entry s code epc tval) code epc tval.
Proof.
  intros Hwf Hc He Ht. pose proof (priv_nr_range (cpl s)) as Hp.
  assert (forall a, _) as V by (intros a; exact (csr_m_entry_val s code epc tval a Hwf Hc He Ht)).
  split; [done|by rewrite V..| | | | |]; cbn beta in *.
  - by rewrite V, decide_True, mstatus_m_entry_testbit by (done || lia).
  - by rewrite V, decide_True, mstatus_m_entry_testbit by (done || lia).
  - apply Z.bits_inj'. intros i Hi.
    rewrite fget_testbit, V, decide_True, mstatus_m_entry_testbit, (uint_testbit 2 (priv_nr (cpl s)) i) by (done || lia).
    destruct (Z.ltb_spec i 2); simpl; [|done]. split_ltb; simpl; try lia.
    by replace (i + 11 - 11) with i by lia.
  - intros i Hi N3 N7 N11 N12. rewrite V, decide_True, mstatus_m_entry_testbit by done.
    split_ltb; simpl; try done; lia.
  - intros a Ha. rewrite !not_elem_of_cons in Ha. destruct Ha as (A1 & A2 & A3 & A4 & _).
    by rewrite V, !decide_False by done.
Qed.

Lemma csr_s_entry_correct s code epc tval : csr_wf s -> uint 1 (priv_nr (cpl s)) ->
  u64 code -> u64 epc -> u64 tval -> s_entry s (csr_s_entry s code epc tval) code epc tval.
Proof.
  intros Hwf Hp Hc He Ht.
  assert (forall a, _) as V by (intros a; exact (csr_s_entry_val s code epc tval a Hwf Hp Hc He Ht)).
  split; [done|by rewrite V..| | | | |]; cbn beta in *.
  - by rewrite V, decide_True, mstatus_s_entry_testbit by (done || lia).
  - by rewrite V, decide_True, mstatus_s_entry_testbit by (done || lia).
  - apply Z.bits_inj'. intros i Hi.
    rewrite fget_testbit, V, decide_True, mstatus_s_entry_testbit, (uint_testbit 1 (priv_nr (cpl s)) i) by (done || lia).
    destruct (Z.ltb_spec i 1); simpl; [|done]. by replace i with 0 by lia.
  - intros i Hi N1 N5 N8. rewrite V, decide_True, mstatus_s_entry_testbit by done.
    split_ltb; simpl; try done; lia.
  - intros a Ha. rewrite !not_elem_of_cons in Ha. destruct Ha as (A1 & A2 & A3 & A4 & _).
    by rewrite V, !decide_False by done.
Qed.

(** Delegation as [medeleg] and [mideleg] encode it. *)
Definition delegated (s : CsrRegFile) (cause : Trap) : bool :=
  match cause with
  | TrapException e => Z.testbit (val s Medeleg) (Exception_as_u8 e)
  | TrapInterrupt i =>
      match i with
      | SupervisorSoft | UserSoft => Z.testbit (val s Mideleg) 1
      | SupervisorTimer | UserTimer => Z.testbit (val s Mideleg) 5
      | SupervisorExternal | UserExternal => Z.testbit (val s Mideleg) 9
      | _ => false
      end
  end.

(** The trap is handled in M-mode. *)
Definition to_m_mode (s : CsrRegFile) (cause : Trap) : bool :=
  bool_decide (cpl s = LvM) || negb (delegated s cause).

Section Take.
Context {D X : Type} `{DeviceTrait D} `{Profile}.
Implicit Types c : RVCPU D X.

Lemma goes_to_m_run c cause code : csr_wf (csr c) -> Trap_into cause = Some code ->
  goes_to_m (cpl (csr c)) cause c = (Ok (to_m_mode (csr c) cause), c).
Proof.
  intros Hwf Hc. unfold goes_to_m, to_m_mode. destruct (bool_decide (cpl (csr c) = LvM)); [done|].
  cbn [orb]. rewrite <- (set_csr_id c) at 1 3. set (s := csr c) in *.
  assert (forall f n, fl_csr f = Mideleg -> field_ok f -> LOW_BIT f = n -> fl_len f = 1 ->
    (d <- (v <- on_csr (get_field f) ;; ret (negb (v =? 0))) ;; ret (negb d)) (set_csr s c) =
    (Ok (negb (Z.testbit (val s Mideleg) n)), set_csr s c)) as Hf.
  { intros f n Hf Hok <- Hlen. destruct (known_of Mideleg eq_refl) as [Hk Hr].
    unfold bind at 1. erewrite csr_bind by (apply get_field_run; rewrite ?Hf, ?Hr; done).
    unfold ret. rewrite Hf, Hr, Hlen. rewrite fget_1_eqb0 by apply Hok. by rewrite negb_involutive. }
  destruct cause as [i|e]; cbn [is_delegated_m_mode delegated].
  - unfold is_interrupt_delegated_m_mode. cbv zeta.
    destruct i; try done; try discriminate Hc;
      apply Hf; (reflexivity || vm_compute; split_and!; (discriminate || reflexivity)).
  - unfold is_exception_delegated_m_mode, bind at 1.
    erewrite csr_bind by (apply data_run; [done|vm_compute; reflexivity]).
    replace (reg_index Medeleg) with Medeleg by (vm_compute; reflexivity).
    unfold ret. rewrite (land_bit_eqb 64) by (destruct e; cbn; lia). by rewrite negb_involutive.
Qed.

(** The CSRs after a trap, and where its handler starts. *)
Definition csr_after (s : CsrRegFile) (cause : Trap) (code epc tval : Z) : CsrRegFile :=
  if to_m_mode s cause then csr_m_entry s code epc tval else csr_s_entry s code epc tval.
Definition handler_tvec (s : CsrRegFile) (cause : Trap) : Z :=
  if to_m_mode s cause then val s Mtvec else val s Stvec.

(** An interrupt is masked in the mode that would handle it by that mode's
    enable bit, and never below that mode. *)
Definition accepted (s : CsrRegFile) (cause : Trap) : bool :=
  match cause with
  | TrapException _ => true
  | TrapInterrupt _ =>
      if to_m_mode s cause then negb (bool_decide (cpl s = LvM)) || Z.testbit (val s Mstatus) 3
      else bool_decide (cpl s = LvU) || Z.testbit (val s Mstatus) 1
  end.

Definition trap_entry (s s' : CsrRegFile) (cause : Trap) (code epc tval : Z) : Prop :=
  if to_m_mode s cause then m_entry s s' code epc tval else s_entry s s' code epc tval.

(** What the trap paths assume of the hart: words in range and a privilege
    level the hart implements. *)
Record trap_ready (c : RVCPU D X) : Prop := {
  tr_csr : csr_wf (csr c);
  tr_pc : u64 (pc c);
  tr_level : cpl (csr c) <> LvV
}.

Lemma to_s_level s cause : cpl s <> LvV -> to_m_mode s cause = false -> uint 1 (priv_nr (cpl s)).
Proof.
  unfold to_m_mode. intros HV Hm%orb_false_iff. destruct Hm as [Hm%bool_decide_eq_false _].
  apply priv_nr_low. destruct (cpl s); auto; done.
Qed.

Lemma csr_after_correct s cause code epc tval : csr_wf s -> cpl s <> LvV ->
  Trap_into cause = Some code -> u64 epc -> u64 tval ->
  csr_wf (csr_after s cause code epc tval) /\
  trap_entry s (csr_after s cause code epc tval) cause code epc tval.
Proof.
  intros Hwf HV Hc%Trap_into_range He Ht. unfold csr_after, trap_entry.
  destruct (to_m_mode s cause) eqn:Em.
  - split; [by apply csr_m_entry_wf|by apply csr_m_entry_correct].
  - pose proof (to_s_level _ _ HV Em). split; [by apply csr_s_entry_wf|by apply csr_s_entry_correct].
Qed.

(** Where a handler is entered: the state at the vector, or a panic there. *)
Definition at_vector {A} (c : RVCPU D X) (s' : CsrRegFile) (tvec : Z) (cause : Trap) (a : A)
    (out : Res Exception A * RVCPU D X) : Prop :=
  (tvec_ok tvec cause -> out = (Ok a, set_pc (wrap 64 (tvec_target tvec cause)) (set_csr s' c))) /\
  (~ tvec_ok tvec cause -> out = (Panic, set_csr s' c)).

Lemma at_vector_bind {A B} c s' tvec cause (m : M (RVCPU D X) Exception A) a (f : A -> B) :
  at_vector c s' tvec cause a (m c) -> at_vector c s' tvec cause (f a) ((x <- m ;; ret (f x)) c).
Proof. intros [H1 H2]. split; intros Hok; unfold bind; [by rewrite H1|by rewrite H2]. Qed.

Lemma vector_run c s' tvec cause code : u64 tvec -> Trap_into cause = Some code ->
  at_vector c s' tvec cause tt ((target <- next_pc_by_tvec cause (fget 0 2 tvec) (fget 2 62 tvec) ;; write_pc target) (set_csr s' c)).
Proof.
  intros Ht Hc. split; intros Hok; unfold bind; [by erewrite next_pc_run by done|by erewrite next_pc_panics by done].
Qed.

Lemma send_run c cause code tval : trap_ready c -> u64 tval -> Trap_into cause = Some code ->
  at_vector c (csr_after (csr c) cause code (pc c) tval) (handler_tvec (csr c) cause) cause tt
    ((if to_m_mode (csr c) cause then send_trap_signal_m_mode else send_trap_signal_s_mode) cause tval c).
Proof.
  intros [Hwf Hpc HV] Ht Hc. pose proof (Trap_into_range _ _ Hc) as Hcr.
  unfold csr_after, handler_tvec. destruct (to_m_mode (csr c) cause) eqn:Em.
  - pose proof (send_m_run (csr c) c cause tval code Hwf Hpc Ht Hc) as E. cbv zeta in E.
    rewrite set_csr_id in E. rewrite E. rewrite csr_m_entry_val by done. cbn [decide decide_rel].
    rewrite !decide_False by done. by eapply vector_run; [apply val_u64|].
  - pose proof (to_s_level _ _ HV Em). 
    pose proof (send_s_run (csr c) c cause tval code Hwf ltac:(done) Hpc Ht Hc) as E. cbv zeta in E.
    rewrite set_csr_id in E. rewrite E. rewrite csr_s_entry_val by done.
    rewrite !decide_False by done. by eapply vector_run; [apply val_u64|].
Qed.

Lemma get_mstatus_cpu c f low : csr_wf (csr c) -> mstatus_field f low 1 -> 0 <= low ->
  (x <- on_csr (get_field f) ;; ret (x =? 1)) c = (Ok (Z.testbit (val (csr c) Mstatus) low), c).
Proof.
  intros Hwf Hf Hl. rewrite <- (set_csr_id c) at 1.
  erewrite csr_bind by (by apply get_mstatus). unfold ret. by rewrite fget_1_testbit, set_csr_id.
Qed.

Lemma try_send_run c cause code tval : trap_ready c -> u64 tval -> Trap_into cause = Some code ->
  if accepted (csr c) cause then
    at_vector c (csr_after (csr c) cause code (pc c) tval) (handler_tvec (csr c) cause) cause true
      (try_send_trap_signal cause tval c)
  else try_send_trap_signal cause tval c = (Ok false, c).
Proof.
  intros Hr Ht Hc. pose proof (send_run c cause code tval Hr Ht Hc) as Hs.
  apply (at_vector_bind _ _ _ _ _ _ (fun _ => true)) in Hs.
  destruct Hr as [Hwf Hpc HV]. unfold try_send_trap_signal.
  erewrite (bind_Ok (on_csr privelege_level)) by apply level_run.
  erewrite (bind_Ok (goes_to_m _ _)) by (by eapply goes_to_m_run). unfold accepted.
  destruct (to_m_mode (csr c) cause) eqn:Em; destruct cause as [i|e]; try exact Hs.
  - destruct (bool_decide (cpl (csr c) = LvM)) eqn:El.
    + apply bool_decide_eq_true in El. rewrite El. cbn [priv_lt priv_nr negb orb].
      replace (priv_lt LvM LvM) with false by done.
      erewrite (bind_Ok (_ <- on_csr _ ;; _)) by (by apply (get_mstatus_cpu _ _ 3); [|apply mstatus_mie_field|]).
      by destruct (Z.testbit _ 3).
    + apply bool_decide_eq_false in El. by replace (priv_lt (cpl (csr c)) LvM) with true by (destruct (cpl (csr c)); done).
  - assert (cpl (csr c) = LvU \/ cpl (csr c) = LvS) as [El|El].
    { apply orb_false_iff in Em as [Em%bool_decide_eq_false _]. destruct (cpl (csr c)); auto; done. }
    + rewrite El. replace (priv_lt LvU LvS) with true by done. by rewrite bool_decide_true by done.
    + rewrite El. replace (priv_lt LvS LvS) with false by done. rewrite bool_decide_false by done. cbn [orb].
      erewrite (bind_Ok (_ <- on_csr _ ;; _)) by (by apply (get_mstatus_cpu _ _ 1); [|apply mstatus_sie_field|]).
      by destruct (Z.testbit _ 1).
Qed.

(** For an exception the vector is the base of [tvec]. *)
Lemma exception_vector tv e : u64 tv -> (tvec_ok tv (TrapException e) <-> tv mod 4 <= 1) /\
  (tv mod 4 <= 1 -> wrap 64 (tvec_target tv (TrapException e)) = tv - tv mod 4).
Proof.
  intros Htv. pose proof (Z.mod_pos_bound tv 4 ltac:(lia)).
  assert (u64 (tv - tv mod 4)) as Hb by (unfold uint in *; pose proof (Z.mod_le tv 4); lia).
  assert (tvec_target tv (TrapException e) = tv - tv mod 4) as E.
  { unfold tvec_target. destruct (tv mod 4) as [|[]|]; done. }
  unfold tvec_ok. rewrite E. split; [|by intros; apply wrap_small]. split; [by intros [? _]|]. intros. split; [done|].
  intros _. apply Hb.
Qed.

Lemma handler_tvec_u64 s cause : csr_wf s -> u64 (handler_tvec s cause).
Proof. intros. unfold handler_tvec. destruct (to_m_mode _ _); by apply val_u64. Qed.

Lemma take_exception_total c e code tval :
  trap_ready c -> u64 tval -> Exception_into e = Some code ->
  let cause := TrapException e in let tv := handler_tvec (csr c) cause in
  let s' := csr_after (csr c) cause code (pc c) tval in
  take_exception e tval c =
    if tv mod 4 <=? 1 then (Ok tt, set_pc (tv - tv mod 4) (set_csr s' c)) else (Panic, set_csr s' c).
Proof.
  intros Hr Ht Hc cause tv s'.
  pose proof (try_send_run c cause code tval Hr Ht Hc) as [H1 H2]. fold tv s' in H1, H2.
  destruct (exception_vector tv e) as [Hok Htt]; [apply handler_tvec_u64, Hr|]. fold cause in Hok, Htt.
  unfold take_exception, bind. fold cause. destruct (Z.leb_spec (tv mod 4) 1) as [Hle|Hgt].
  - rewrite H1 by (by apply Hok). rewrite Htt by done. by destruct debug_assertions.
  - by rewrite H2 by (rewrite Hok; lia).
Qed.

Lemma take_exception_run c e code tval :
  trap_ready c -> u64 tval -> Exception_into e = Some code ->
  let cause := TrapException e in let tv := handler_tvec (csr c) cause in
  tv mod 4 <= 1 ->
  take_exception e tval c =
    (Ok tt, set_pc (tv - tv mod 4) (set_csr (csr_after (csr c) cause code (pc c) tval) c)).
Proof.
  intros Hr Ht Hc cause tv Hm. unfold cause, tv in *. erewrite take_exception_total by done. by rewrite (proj2 (Z.leb_le _ _)).
Qed.

(** C7: Taking a synchronous exception, completely.  For every exception that has a
    code (all but the placeholder [Unknown]) on a hart in U, S or M mode: the
    cause, the program counter, the trap value, the previous privilege and the
    interrupt enables are saved in the CSRs of M-mode, or of S-mode when the
    exception is delegated and the hart is below M, and nothing else changes;
    when the handling mode's [tvec] has mode 0 or 1 the hart then continues at
    its base, and when software has left one of the two reserved modes in it
    the emulator panics there. *)
Theorem take_exception_correct c e code tval :
  trap_ready c -> u64 tval -> Exception_into e = Some code ->
  let tvec := handler_tvec (csr c) (TrapException e) in
  exists s', csr_wf s' /\ trap_entry (csr c) s' (TrapException e) code (pc c) tval /\
    take_exception e tval c =
      if tvec mod 4 <=? 1 then (Ok tt, set_pc (tvec - tvec mod 4) (set_csr s' c)) else (Panic, set_csr s' c).
Proof.
  intros Hr Ht Hc tvec. exists (csr_after (csr c) (TrapException e) code (pc c) tval).
  destruct (csr_after_correct (csr c) (TrapException e) code (pc c) tval) as [Hwf He]; auto; [apply Hr..|].
  split_and!; [done|done|by apply take_exception_total].
Qed.
End Take.

(** ** Interrupts *)

Lemma lowest_pending_spec fuel i pending : 0 <= i -> i + Z.of_nat fuel <= 16 ->
  match lowest_pending fuel i pending with
  | Some it => exists n, i <= n < i + Z.of_nat fuel /\ it = Interrupt_from n /\
      Z.testbit pending n = true /\ (forall j, i <= j < n -> Z.testbit pending j = false)
  | None => forall j, i <= j < i + Z.of_nat fuel -> Z.testbit pending j = false
  end.
Proof.
  revert i. induction fuel as [|fuel IH]; intros i Hi Hf; cbn [lowest_pending]; [intros; lia|].
  rewrite (land_bit_eqb 64), negb_involutive by lia. destruct (Z.testbit pending i) eqn:Eb.
  - exists i. split_and!; [lia|lia|done|done|intros; lia].
  - specialize (IH (i + 1) ltac:(lia) ltac:(lia)). destruct (lowest_pending _ _ _).
    + destruct IH as (n & Hn & -> & Hb & Hl). exists n. split_and!; [lia|lia|done|done|].
      intros j Hj. destruct (decide (j = i)) as [->|]; [done|]. apply Hl. lia.
    + intros j Hj. destruct (decide (j = i)) as [->|]; [done|]. apply IH. lia.
Qed.

(** [n] is the lowest-numbered interrupt that is pending and enabled. *)
Definition lowest_interrupt (s : CsrRegFile) (n : Z) : Prop :=
  0 <= n < 16 /\ Z.testbit (Z.land (val s Mip) (val s Mie)) n = true /\
  forall j, 0 <= j < n -> Z.testbit (Z.land (val s Mip) (val s Mie)) j = false.

Section Interrupts.
Context {D X : Type} `{DeviceTrait D} `{Profile}.
Implicit Types c : RVCPU D X.

Lemma has_interrupt_unfold c : csr_wf (csr c) ->
  has_interrupt c =
    let pending := Z.land (val (csr c) Mip) (val (csr c) Mie) in
    if pending =? 0 then (Ok None, c)
    else match lowest_pending 16 0 pending with Some i => (Ok (Some i), c) | None => (Panic, c) end.
Proof.
  intros Hwf. rewrite <- (set_csr_id c) at 1. set (s := csr c) in *. unfold has_interrupt.
  destruct (known_of Mip eq_refl) as [Hk1 Hr1]. destruct (known_of Mie eq_refl) as [Hk2 Hr2].
  erewrite csr_bind by (apply data_run; [done|by rewrite Hr1]).
  erewrite csr_bind by (apply data_run; [done|by rewrite Hr2]).
  rewrite Hr1, Hr2. cbv zeta. unfold s. rewrite set_csr_id. destruct (_ =? 0); [done|].
  unfold unwrap, bind. by destruct (lowest_pending _ _ _).
Qed.

Lemma has_interrupt_run c n : csr_wf (csr c) -> lowest_interrupt (csr c) n ->
  has_interrupt c = (Ok (Some (Interrupt_from n)), c).
Proof.
  intros Hwf (Hn & Hb & Hl). rewrite has_interrupt_unfold by done. cbv zeta.
  destruct (Z.eqb_spec (Z.land (val (csr c) Mip) (val (csr c) Mie)) 0) as [E|_].
  { by rewrite E, Z.bits_0 in Hb. }
  pose proof (lowest_pending_spec 16 0 (Z.land (val (csr c) Mip) (val (csr c) Mie)) ltac:(lia) ltac:(lia)) as Hs.
  destruct (lowest_pending _ _ _) as [it|].
  - destruct Hs as (m & Hm & -> & Hbm & Hlm). replace m with n; [done|].
    destruct (Z.lt_trichotomy n m) as [|[|]]; [|done|]; exfalso.
    + rewrite Hlm in Hb by lia. done.
    + rewrite Hl in Hbm by lia. done.
  - rewrite Hs in Hb by lia. done.
Qed.

(** An interrupt number the emulator has no name for is fatal as soon as its
    handling is looked into, that is unless the hart is in M-mode with MIE
    clear. *)
Lemma unknown_interrupt_run c : csr_wf (csr c) ->
  let out := try_send_trap_signal (TrapInterrupt UnknownInterrupt) 0 c in
  if bool_decide (cpl (csr c) = LvM) && negb (Z.testbit (val (csr c) Mstatus) 3)
  then out = (Ok false, c) else fst out = Panic.
Proof.
  intros Hwf out. unfold out, try_send_trap_signal. erewrite (bind_Ok (on_csr privelege_level)) by apply level_run.
  unfold goes_to_m. destruct (bool_decide (cpl (csr c) = LvM)) eqn:El; cbn [andb].
  - apply bool_decide_eq_true in El. rewrite El. replace (priv_lt LvM LvM) with false by done.
    erewrite (bind_Ok (ret true)) by reflexivity. cbv beta iota.
    erewrite (bind_Ok (_ <- on_csr _ ;; _)) by (by apply (get_mstatus_cpu _ _ 3); [|apply mstatus_mie_field|]).
    destruct (Z.testbit _ 3); cbn [negb]; [|done].
    assert (fst (send_trap_signal_m_mode (TrapInterrupt UnknownInterrupt) 0 c) = Panic) as E.
    { unfold send_trap_signal_m_mode. rewrite <- (set_csr_id c). erewrite csr_bind by reflexivity.
      by erewrite csr_bind by (apply (set_mstatus _ _ 11 2); [done|apply mstatus_mpp_field|apply priv_nr_range]). }
    unfold bind. destruct (send_trap_signal_m_mode _ _ _) as [[] ?]; done.
  - done.
Qed.

End Interrupts.

(** ** Trap returns *)

(** [mstatus] after [mret]: MIE := MPIE, MPIE := 1, MPRV := 0 unless returning
    to M, MPP := 0. *)
Definition mstatus_mret (v : Z) : Z :=
  let v2 := fset 7 1 (fset 3 1 v (fget 7 1 v)) 1 in
  let v3 := if fget 11 2 v =? 3 then v2 else fset 17 1 v2 0 in
  fset 11 2 v3 0.

(** [mstatus] after [sret]. *)
Definition mstatus_sret (v : Z) : Z :=
  fset 8 1 (fset 17 1 (fset 5 1 (fset 1 1 v (fget 5 1 v)) 1) 0) 0.

Lemma upd_upd a v w s : upd a w (upd a v s) = upd a w s.
Proof.
  unfold upd, set_table. destruct s; cbn. f_equal. apply map_eq. intros b.
  destruct (decide (a = b)) as [<-|].
  - rewrite !lookup_alter. case_decide; [|done]; by destruct (table !! a).
  - by rewrite !lookup_alter_ne.
Qed.

Lemma upd_set_cpl a v p s : upd a v (set_cpl p s) = set_cpl p (upd a v s).
Proof. done. Qed.

Section Returns.
Context {D X : Type} `{DeviceTrait D} `{Profile}.
Implicit Types c : RVCPU D X.

(** Update of a field of [mstatus], kept in the form [upd Mstatus v s]. *)
Lemma set_mstatus_run s c f low len v x :
  csr_wf s -> u64 v -> mstatus_field f low len -> uint len x ->
  on_csr (set_field f x) (set_csr (upd Mstatus v s) c) =
    (Ok tt, set_csr (upd Mstatus (fset low len v x) s) c).
Proof.
  intros Hwf Hv Hf Hx. erewrite on_csr_run by (apply set_mstatus; [by apply upd_wf|done..]).
  by rewrite val_upd_eq, upd_upd by (done || apply known_Mstatus).
Qed.

Lemma set_mstatus_upd {B} (k : unit -> M (RVCPU D X) Exception B) s c f low len v x :
  csr_wf s -> u64 v -> mstatus_field f low len -> uint len x ->
  bind (on_csr (set_field f x)) k (set_csr (upd Mstatus v s) c) =
    k tt (set_csr (upd Mstatus (fset low len v x) s) c).
Proof. intros. apply bind_Ok. by apply set_mstatus_run. Qed.

Lemma get_mstatus_upd {B} (k : Z -> M (RVCPU D X) Exception B) s c f low len v :
  csr_wf s -> u64 v -> mstatus_field f low len ->
  bind (on_csr (get_field f)) k (set_csr (upd Mstatus v s) c) =
    k (fget low len v) (set_csr (upd Mstatus v s) c).
Proof.
  intros Hwf Hv Hf. erewrite csr_bind by (apply get_mstatus; [by apply upd_wf|done..]).
  by rewrite val_upd_eq by (done || apply known_Mstatus).
Qed.

Lemma read_epc_upd {B} (k : option Z -> M (RVCPU D X) Exception B) s c v a :
  csr_wf s -> u64 v -> bool_decide (a ∈ [Mepc; Sepc]) = true ->
  bind (on_csr (read_uncheck_privilege a)) k (set_csr (upd Mstatus v s) c) =
    k (Some (val s a)) (set_csr (upd Mstatus v s) c).
Proof.
  intros Hwf Hv Ha%bool_decide_eq_true. rewrite !elem_of_cons, elem_of_nil in Ha.
  erewrite csr_bind; [|apply read_plain_run; [by apply upd_wf|..];
    destruct Ha as [->|[->|[]]]; first [apply known_of; reflexivity | vm_compute; reflexivity]].
  rewrite val_upd_ne; [done|]. by destruct Ha as [->|[->|[]]].
Qed.

Lemma upd_id s a : upd a (val s a) s = s.
Proof.
  unfold upd, set_table, val. destruct s as [t p x]; cbn. f_equal. apply map_eq. intros b.
  destruct (decide (a = b)) as [<-|]; [|by rewrite lookup_alter_ne].
  rewrite lookup_alter, decide_True by done. destruct (t !! a) as [[]|]; done.
Qed.

Lemma mret_run c : csr_wf (csr c) ->
  let v := val (csr c) Mstatus in
  forall l, priv_try_from (fget 11 2 v) = Some l ->
  mret c = (Ok tt, set_pc (val (csr c) Mepc) (set_csr (set_cpl l (upd Mstatus (mstatus_mret v) (csr c))) c)).
Proof.
  intros Hwf v l Hl. assert (u64 v) as Hv by apply val_u64, Hwf. rewrite <- (set_csr_id c) at 1.
  rewrite <- (upd_id (csr c) Mstatus) at 1. fold v. set (s := csr c) in *. unfold mret, mstatus_mret.
  rewrite (get_mstatus_upd _ _ _ _ 7 1) by (done || apply mstatus_mpie_field).
  rewrite (set_mstatus_upd _ _ _ _ 3 1) by (done || apply mstatus_mie_field || apply uint_1_fget).
  assert (u64 (fset 3 1 v (fget 7 1 v))) as H3 by (apply fset_range; auto using uint_1_fget; lia).
  rewrite (set_mstatus_upd _ _ _ _ 7 1) by (done || apply mstatus_mpie_field).
  set (v2 := fset 7 1 _ 1). assert (u64 v2) as H2 by (apply fset_range; done).
  rewrite read_epc_upd by done. erewrite unwrap_bind by reflexivity.
  unfold write_pc, modify at 1, bind at 1. cbv beta iota.
  change (set_pc (val s Mepc) (set_csr ?x ?y)) with (set_csr x (set_pc (val s Mepc) y)).
  rewrite (get_mstatus_upd _ _ _ _ 11 2) by (done || apply mstatus_mpp_field).
  assert (fget 11 2 v2 = fget 11 2 v) as ->.
  { unfold v2. rewrite !fget_fset_ne; try done; try lia; try apply uint_1_fget. }
  rewrite (wrap_small 8) by (eapply uint_weaken; [|by apply (fget_range 11 2)]; lia).
  change (priv_nr LvM) with 3. cbv zeta.
  set (v3 := if fget 11 2 v =? 3 then v2 else fset 17 1 v2 0).
  assert (u64 v3) as Hv3 by (unfold v3; destruct (_ =? 3); [done|by apply fset_range; [..|apply uint_0|]]).
  assert ((if negb (fget 11 2 v =? 3) then on_csr (set_field Mstatus_mprv 0) else ret tt)
    (set_csr (upd Mstatus v2 s) (set_pc (val s Mepc) c)) =
    (Ok tt, set_csr (upd Mstatus v3 s) (set_pc (val s Mepc) c))) as Hmprv.
  { unfold v3. destruct (fget 11 2 v =? 3); [done|]. cbn [negb].
    by apply set_mstatus_run; [..|apply mstatus_mprv_field|apply uint_0]. }
  erewrite bind_Ok by exact Hmprv. erewrite unwrap_bind by exact Hl.
  erewrite csr_bind by reflexivity. rewrite <- upd_set_cpl.
  rewrite (set_mstatus_run _ _ _ 11 2); [done|by apply set_cpl_wf|done|apply mstatus_mpp_field|by apply uint_0].
Qed.

Lemma sret_run c : csr_wf (csr c) ->
  let v := val (csr c) Mstatus in
  forall l, priv_try_from (fget 8 1 v) = Some l ->
  sret c = (Ok tt, set_pc (val (csr c) Sepc) (set_csr (set_cpl l (upd Mstatus (mstatus_sret v) (csr c))) c)).
Proof.
  intros Hwf v l Hl. assert (u64 v) as Hv by apply val_u64, Hwf. rewrite <- (set_csr_id c) at 1.
  rewrite <- (upd_id (csr c) Mstatus) at 1. fold v. set (s := csr c) in *. unfold sret, mstatus_sret.
  rewrite (get_mstatus_upd _ _ _ _ 5 1) by (done || apply sstatus_spie_field).
  rewrite (set_mstatus_upd _ _ _ _ 1 1) by (done || apply sstatus_sie_field || apply uint_1_fget).
  assert (u64 (fset 1 1 v (fget 5 1 v))) as H3 by (apply fset_range; auto using uint_1_fget; lia).
  rewrite (set_mstatus_upd _ _ _ _ 5 1) by (done || apply sstatus_spie_field).
  set (v2 := fset 5 1 _ 1). assert (u64 v2) as H2 by (apply fset_range; done).
  rewrite read_epc_upd by done. erewrite unwrap_bind by reflexivity.
  unfold write_pc, modify at 1, bind at 1. cbv beta iota.
  change (set_pc (val s Sepc) (set_csr ?x ?y)) with (set_csr x (set_pc (val s Sepc) y)).
  rewrite (get_mstatus_upd _ _ _ _ 8 1) by (done || apply sstatus_spp_field).
  assert (fget 8 1 v2 = fget 8 1 v) as ->.
  { unfold v2. rewrite !fget_fset_ne; try done; try lia; try apply uint_1_fget. }
  rewrite (wrap_small 8) by (eapply uint_weaken; [|by apply (fget_range 8 1)]; lia). cbv zeta.
  rewrite (set_mstatus_upd _ _ _ _ 17 1) by (done || apply mstatus_mprv_field || by apply uint_0).
  assert (u64 (fset 17 1 v2 0)) as H4 by (apply fset_range; [..|by apply uint_0|done]; lia).
  erewrite unwrap_bind by exact Hl. erewrite csr_bind by reflexivity. rewrite <- upd_set_cpl.
  rewrite (set_mstatus_run _ _ _ 8 1); [done|by apply set_cpl_wf|done|apply sstatus_spp_field|by apply uint_0].
Qed.

Lemma mstatus_mret_testbit v i : 0 <= i ->
  Z.testbit (mstatus_mret v) i =
    if i =? 3 then Z.testbit v 7 else if i =? 7 then true
    else if (11 <=? i) && (i <=? 12) then false
    else if i =? 17 then (fget 11 2 v =? 3) && Z.testbit v 17 else Z.testbit v i.
Proof.
  intros Hi. unfold mstatus_mret. rewrite fset_testbit by (try lia; by apply uint_0).
  assert (forall b : bool, Z.testbit (if b then fset 7 1 (fset 3 1 v (fget 7 1 v)) 1
    else fset 17 1 (fset 7 1 (fset 3 1 v (fget 7 1 v)) 1) 0) i =
    if i =? 3 then Z.testbit v 7 else if i =? 7 then true
    else if i =? 17 then b && Z.testbit v 17 else Z.testbit v i) as ->.
  { intros b. destruct (Z.eqb_spec i 3) as [->|]; [|destruct (Z.eqb_spec i 7) as [->|];
      [|destruct (Z.eqb_spec i 17) as [->|]]]; destruct b;
      rewrite !fset_testbit by (try lia; first [by apply uint_0 | done | apply uint_1_fget]);
      cbn; try done; try (by rewrite fget_testbit by lia); split_ltb; cbn; done || lia. }
  rewrite Z.bits_0. split_ltb; cbn; try done; lia.
Qed.

Lemma mstatus_sret_testbit v i : 0 <= i ->
  Z.testbit (mstatus_sret v) i =
    if i =? 1 then Z.testbit v 5 else if i =? 5 then true
    else if (i =? 8) || (i =? 17) then false else Z.testbit v i.
Proof.
  intros Hi. unfold mstatus_sret.
  rewrite !fset_testbit by (try lia; first [by apply uint_0 | done | apply uint_1_fget]).
  destruct (Z.eqb_spec i 1) as [->|]; [cbn; by rewrite fget_testbit by lia|].
  destruct (Z.eqb_spec i 5) as [->|]; [done|]. destruct (Z.eqb_spec i 8) as [->|]; [done|].
  destruct (Z.eqb_spec i 17) as [->|]; [done|]. split_ltb; cbn; done || lia.
Qed.

(** What a return leaves: the new level, the restored enable bit and the fields
    it resets; [ie], [pie] and [pp] are the bits of the mode returned from. *)
Definition returned (s s' : CsrRegFile) (l : PrivilegeLevel) (ie pie : Z) (pp : list Z) : Prop :=
  csr_wf s' /\ cpl s' = l /\
  Z.testbit (val s' Mstatus) ie = Z.testbit (val s Mstatus) pie /\
  Z.testbit (val s' Mstatus) pie = true /\
  (forall i, i ∈ pp -> Z.testbit (val s' Mstatus) i = false) /\
  (l <> LvM -> Z.testbit (val s' Mstatus) 17 = false) /\
  (forall i, 0 <= i -> i ∉ [ie; pie; 17] ++ pp ->
    Z.testbit (val s' Mstatus) i = Z.testbit (val s Mstatus) i) /\
  (forall a, a <> Mstatus -> val s' a = val s a).

Lemma mstatus_mret_u64 v : u64 v -> u64 (mstatus_mret v).
Proof.
  intros Hv. unfold mstatus_mret. apply fset_range; try lia; [by apply uint_0|].
  assert (u64 (fset 7 1 (fset 3 1 v (fget 7 1 v)) 1)).
  { apply fset_range; try lia; [done|]. apply fset_range; try lia; [apply uint_1_fget|done]. }
  destruct (_ =? 3); [done|]. apply fset_range; try lia; [by apply uint_0|done].
Qed.

Lemma mstatus_sret_u64 v : u64 v -> u64 (mstatus_sret v).
Proof.
  intros Hv. unfold mstatus_sret. repeat (apply fset_range; try lia;
    [first [by apply uint_0 | done | apply uint_1_fget]|]). done.
Qed.

Lemma priv_of_field low len v l : priv_try_from (fget low len v) = Some l -> priv_nr l = fget low len v.
Proof. generalize (fget low len v). intros z E. destruct z as [|[p|p|]|]; try destruct p; simplify_eq/=; done. Qed.

Lemma mret_returned s l : csr_wf s -> priv_try_from (fget 11 2 (val s Mstatus)) = Some l ->
  returned s (set_cpl l (upd Mstatus (mstatus_mret (val s Mstatus)) s)) l 3 7 [11; 12].
Proof.
  intros Hwf Hl%priv_of_field.
  assert (u64 (mstatus_mret (val s Mstatus))) by apply mstatus_mret_u64, val_u64, Hwf.
  unfold returned. rewrite val_set_cpl, val_upd_eq by (done || apply known_Mstatus).
  split_and!; rewrite ?mstatus_mret_testbit by lia; try done.
  - by apply set_cpl_wf, upd_wf.
  - intros i Hi. rewrite !elem_of_cons, elem_of_nil in Hi. destruct Hi as [->|[->|[]]];
      by rewrite mstatus_mret_testbit by lia.
  - intros Hne. cbn. rewrite <- Hl. by destruct l.
  - intros i Hi N. rewrite mstatus_mret_testbit by lia. cbn in N. rewrite !not_elem_of_cons in N.
    destruct N as (?&?&?&?&?&_). split_ltb; cbn; try done; lia.
  - intros a Ha. rewrite val_set_cpl. by apply val_upd_ne.
Qed.

Lemma sret_returned s l : csr_wf s -> priv_try_from (fget 8 1 (val s Mstatus)) = Some l ->
  returned s (set_cpl l (upd Mstatus (mstatus_sret (val s Mstatus)) s)) l 1 5 [8].
Proof.
  intros Hwf Hl%priv_of_field.
  assert (u64 (mstatus_sret (val s Mstatus))) by apply mstatus_sret_u64, val_u64, Hwf.
  unfold returned. rewrite val_set_cpl, val_upd_eq by (done || apply known_Mstatus).
  split_and!; rewrite ?mstatus_sret_testbit by lia; try done.
  - by apply set_cpl_wf, upd_wf.
  - intros i ->%list_elem_of_singleton. by rewrite mstatus_sret_testbit by lia.
  - intros i Hi N. rewrite mstatus_sret_testbit by lia. cbn in N. rewrite !not_elem_of_cons in N.
    destruct N as (?&?&?&?&_). split_ltb; cbn; try done; lia.
  - intros a Ha. rewrite val_set_cpl. by apply val_upd_ne.
Qed.

(** The stacked privilege fields always hold a level. *)
Lemma mpp_level v : is_Some (priv_try_from (fget 11 2 v)).
Proof.
  pose proof (fget_range 11 2 v ltac:(lia)) as Hz. unfold uint in Hz. cbn in Hz.
  generalize dependent (fget 11 2 v). intros z Hz.
  assert (z = 0 \/ z = 1 \/ z = 2 \/ z = 3) as [->|[->|[->| ->]]] by lia; by eexists.
Qed.

Lemma spp_level v : is_Some (priv_try_from (fget 8 1 v)).
Proof.
  pose proof (fget_range 8 1 v ltac:(lia)) as Hz. unfold uint in Hz. cbn in Hz.
  generalize dependent (fget 8 1 v). intros z Hz.
  assert (z = 0 \/ z = 1) as [->| ->] by lia; by eexists.
Qed.

(** [mret] and [sret] never fail on a well-formed hart: they continue at the
    saved program counter in the saved privilege level, restore the interrupt
    enable of their mode from the stacked one, reset the stacked fields, clear
    MPRV when leaving M-mode, and change no other CSR and nothing else of the
    hart. *)
Theorem trap_return_correct c :
  csr_wf (csr c) ->
  (exists l s', priv_nr l = fget 11 2 (val (csr c) Mstatus) /\
    mret c = (Ok tt, set_pc (val (csr c) Mepc) (set_csr s' c)) /\ returned (csr c) s' l 3 7 [11; 12]) /\
  (exists l s', priv_nr l = fget 8 1 (val (csr c) Mstatus) /\
    sret c = (Ok tt, set_pc (val (csr c) Sepc) (set_csr s' c)) /\ returned (csr c) s' l 1 5 [8]).
Proof.
  intros Hwf. destruct (mpp_level (val (csr c) Mstatus)) as [l Hl].
  destruct (spp_level (val (csr c) Mstatus)) as [l' Hl']. split.
  - eexists l, _. split_and!; [by eapply priv_of_field|by apply mret_run|by apply mret_returned].
  - eexists l', _. split_and!; [by eapply priv_of_field|by apply sret_run|by apply sret_returned].
Qed.

Lemma priv_try_from_nr l : priv_try_from (priv_nr l) = Some l.
Proof. by destruct l. Qed.

Lemma set_pc_csr_back c p s s' : set_pc (pc c) (set_csr s' (set_pc p (set_csr s c))) = set_csr s' c.
Proof. by destruct c. Qed.

(** What taking an exception and returning leaves changed: of [mstatus] the
    stacked enable and privilege of the handler's mode and, unless the return
    goes back to M-mode, MPRV, which it clears; and that mode's cause, program
    counter and trap value. *)
Definition round_trip_bits (m : bool) : list Z := if m then [7; 11; 12; 17] else [5; 8; 17].
Definition round_trip_csrs (m : bool) : list Z :=
  if m then [Mstatus; Mcause; Mepc; Mtval] else [Mstatus; Scause; Sepc; Stval].
Definition mprv_after (s : CsrRegFile) : bool := bool_decide (cpl s = LvM) && Z.testbit (val s Mstatus) 17.

Ltac frame := rewrite !not_elem_of_cons; split_and!; done || apply not_elem_of_nil.

Lemma m_round_trip s s1 code epc tval : csr_wf s1 -> m_entry s s1 code epc tval ->
  let s' := set_cpl (cpl s) (upd Mstatus (mstatus_mret (val s1 Mstatus)) s1) in
  csr_wf s' /\ Z.testbit (val s' Mstatus) 17 = mprv_after s /\
  (forall i, 0 <= i -> i ∉ round_trip_bits true -> Z.testbit (val s' Mstatus) i = Z.testbit (val s Mstatus) i) /\
  (forall a, a ∉ round_trip_csrs true -> val s' a = val s a).
Proof.
  intros Wf He s'. assert (priv_try_from (fget 11 2 (val s1 Mstatus)) = Some (cpl s)) as Hl
    by (rewrite (me_mpp _ _ _ _ _ He); apply priv_try_from_nr).
  pose proof (mret_returned s1 _ Wf Hl) as (W & _ & I & _ & _ & _ & Fr & Fc). split_and!; [done|..].
  - unfold s', mprv_after. rewrite val_set_cpl, val_upd_eq, mstatus_mret_testbit by (done || lia || apply known_Mstatus). cbn -[Z.testbit].
    rewrite (me_mpp _ _ _ _ _ He), (me_mstatus _ _ _ _ _ He) by lia. by destruct (cpl s).
  - intros i Hi N. destruct (decide (i = 3)) as [->|]; [by unfold s'; rewrite I, (me_mpie _ _ _ _ _ He)|].
    cbn in N. rewrite !not_elem_of_cons in N. destruct N as (?&?&?&?&_). unfold s'.
    rewrite Fr by (done || (cbn; frame)). by apply (me_mstatus _ _ _ _ _ He).
  - intros a N. cbn in N. rewrite !not_elem_of_cons in N. destruct N as (?&?&?&?&_).
    unfold s'. rewrite Fc by done. apply (me_frame _ _ _ _ _ He). frame.
Qed.

Lemma s_round_trip s s1 code epc tval : csr_wf s1 -> s_entry s s1 code epc tval -> cpl s <> LvM ->
  let s' := set_cpl (cpl s) (upd Mstatus (mstatus_sret (val s1 Mstatus)) s1) in
  csr_wf s' /\ Z.testbit (val s' Mstatus) 17 = mprv_after s /\
  (forall i, 0 <= i -> i ∉ round_trip_bits false -> Z.testbit (val s' Mstatus) i = Z.testbit (val s Mstatus) i) /\
  (forall a, a ∉ round_trip_csrs false -> val s' a = val s a).
Proof.
  intros Wf He HM s'. assert (priv_try_from (fget 8 1 (val s1 Mstatus)) = Some (cpl s)) as Hl
    by (rewrite (se_spp _ _ _ _ _ He); apply priv_try_from_nr).
  pose proof (sret_returned s1 _ Wf Hl) as (W & _ & I & _ & _ & _ & Fr & Fc). split_and!; [done|..].
  - unfold s', mprv_after. rewrite val_set_cpl, val_upd_eq, mstatus_sret_testbit by (done || lia || apply known_Mstatus).
    by rewrite bool_decide_false by done.
  - intros i Hi N. destruct (decide (i = 1)) as [->|]; [by unfold s'; rewrite I, (se_spie _ _ _ _ _ He)|].
    cbn in N. rewrite !not_elem_of_cons in N. destruct N as (?&?&?&_). unfold s'.
    rewrite Fr by (done || (cbn; frame)). by apply (se_mstatus _ _ _ _ _ He).
  - intros a N. cbn in N. rewrite !not_elem_of_cons in N. destruct N as (?&?&?&?&_).
    unfold s'. rewrite Fc by done. apply (se_frame _ _ _ _ _ He). frame.
Qed.

(** C9: A trap and its return cancel out.  A hart in U, S or M mode that takes an
    exception with a code, through a [tvec] in direct or vectored mode, and
    returns from its handler at once, with [mret] or [sret] after the mode of
    the handler, is back where it was: same registers, memory and program
    counter, same privilege level and interrupt enables.  Of the CSRs only the
    handler mode's cause, program counter and trap value have changed, and of
    [mstatus] only that mode's stacked enable and privilege (MPIE and MPP, or
    SPIE and SPP) and MPRV, which is cleared unless the hart was in M-mode. *)
Theorem trap_return_roundtrip c e code tval :
  trap_ready c -> u64 tval -> Exception_into e = Some code ->
  handler_tvec (csr c) (TrapException e) mod 4 <= 1 ->
  let m := to_m_mode (csr c) (TrapException e) in
  exists s', (take_exception e tval ;;; if m then mret else sret) c = (Ok tt, set_csr s' c) /\
    csr_wf s' /\ cpl s' = cpl (csr c) /\
    Z.testbit (val s' Mstatus) 17 = mprv_after (csr c) /\
    (forall i, 0 <= i -> i ∉ round_trip_bits m -> Z.testbit (val s' Mstatus) i = Z.testbit (val (csr c) Mstatus) i) /\
    (forall a, a ∉ round_trip_csrs m -> val s' a = val (csr c) a).
Proof.
  intros Hr Ht Hc Hm m. erewrite bind_Ok by (by apply take_exception_run).
  destruct (csr_after_correct (csr c) (TrapException e) code (pc c) tval (tr_csr c Hr) (tr_level c Hr) Hc (tr_pc c Hr) Ht)
    as [Wf He].
  set (s1 := csr_after _ _ _ _ _) in *. unfold trap_entry in He. fold m in He. set (tv := handler_tvec _ _ - _).
  destruct m eqn:Em.
  - destruct (m_round_trip (csr c) s1 code (pc c) tval) as (W & H17 & Hb & Hf); [done|done|].
    rewrite (mret_run (set_pc tv (set_csr s1 c))) with (l := cpl (csr c))
      by (try done; cbn; rewrite (me_mpp _ _ _ _ _ He); apply priv_try_from_nr). cbn [csr set_pc set_csr].
    rewrite (me_epc _ _ _ _ _ He), set_pc_csr_back. eexists. split; [reflexivity|]. by split_and!.
  - assert (cpl (csr c) <> LvM) as HM by (apply orb_false_iff in Em as [Em%bool_decide_eq_false _]; done).
    destruct (s_round_trip (csr c) s1 code (pc c) tval) as (W & H17 & Hb & Hf); [done|done|done|].
    rewrite (sret_run (set_pc tv (set_csr s1 c))) with (l := cpl (csr c))
      by (try done; cbn; rewrite (se_spp _ _ _ _ _ He); apply priv_try_from_nr). cbn [csr set_pc set_csr].
    rewrite (se_epc _ _ _ _ _ He), set_pc_csr_back. eexists. split; [reflexivity|]. by split_and!.
Qed.
End Returns.

(** ** Concrete harts *)

(** The reset CSRs at level [l] with the given registers written directly. *)
Definition demo_csr (l : PrivilegeLevel) (regs : list (Z * Z)) : CsrRegFile :=
  foldr (fun p s => upd (fst p) (snd p) s) (set_cpl l CsrRegFile_new) regs.

Lemma demo_csr_wf l regs : Forall (fun p => u64 (snd p)) regs -> csr_wf (demo_csr l regs).
Proof.
  induction 1 as [|p regs Hp _ IH]; [apply set_cpl_wf, csr_new_wf|]. by apply upd_wf.
Qed.

Lemma demo_csr_cpl l regs : cpl (demo_csr l regs) = l.
Proof. induction regs as [|p regs IH]; [done|]. apply IH. Qed.

Ltac solve_u64 := vm_compute; split; [discriminate|reflexivity].
Ltac solve_demo_wf := apply demo_csr_wf; repeat constructor; cbn; try solve_u64; try discriminate.

(** A user-mode hart that delegates page faults; [stvec] is 0x80002001, in
    vectored mode. *)
Definition demo_user : RVCPU Z unit :=
  demo_cpu RegFile_new 0x80000100
    (demo_csr LvU [(Medeleg, 0xb100); (Stvec, 0x80002001); (Mtvec, 0x80004000); (Mstatus, 0x2)]).

Lemma take_exception_correct_witness :
  exists s', @take_exception Z unit dev LoadPageFault 0x1234 demo_user =
      (Ok tt, set_pc 0x80002000 (set_csr s' demo_user)) /\
    val s' Scause = 13 /\ val s' Sepc = 0x80000100 /\ cpl s' = LvS.
Proof.
  destruct (@take_exception_correct Z unit dev demo_user LoadPageFault 13 0x1234) as (s' & _ & He & E).
  - split; [solve_demo_wf|solve_u64|]. unfold demo_user. cbn [csr demo_cpu]. rewrite demo_csr_cpl. discriminate.
  - solve_u64.
  - reflexivity.
  - exists s'. replace (trap_entry (csr demo_user) s' (TrapException LoadPageFault) 13 (pc demo_user) 0x1234)
      with (s_entry (csr demo_user) s' 13 (pc demo_user) 0x1234) in He by (vm_compute; reflexivity).
    split_and!; [exact E|exact (se_cause _ _ _ _ _ He)|exact (se_epc _ _ _ _ _ He)|exact (se_level _ _ _ _ _ He)].
Defined.

Lemma trap_return_roundtrip_witness :
  exists s', (@take_exception Z unit dev LoadPageFault 0x1234 ;;;
      if to_m_mode (csr demo_user) (TrapException LoadPageFault) then mret else sret) demo_user =
      (Ok tt, set_csr s' demo_user) /\ cpl s' = LvU.
Proof.
  destruct (@trap_return_roundtrip Z unit dev demo_user LoadPageFault 13 0x1234) as (s' & E & _ & He & _).
  - split; [solve_demo_wf|solve_u64|]. unfold demo_user. cbn [csr demo_cpu]. rewrite demo_csr_cpl. discriminate.
  - solve_u64.
  - reflexivity.
  - vm_compute. discriminate.
  - exists s'. split; [exact E|exact He].
Defined.

Lemma trap_return_correct_witness :
  exists s', @mret Z unit (demo_cpu RegFile_new 0 (demo_csr LvM [(Mstatus, 0x880); (Mepc, 0x80000040)])) =
      (Ok tt, set_pc 0x80000040 (set_csr s' (demo_cpu RegFile_new 0
        (demo_csr LvM [(Mstatus, 0x880); (Mepc, 0x80000040)])))) /\ cpl s' = LvS.
Proof.
  destruct (@trap_return_correct Z unit
    (demo_cpu RegFile_new 0 (demo_csr LvM [(Mstatus, 0x880); (Mepc, 0x80000040)]))) as [(l & s' & Hl & E & H) _].
  - solve_demo_wf.
  - exists s'. split; [exact E|]. destruct H as (_ & -> & _). clear E. vm_compute in Hl. destruct l; first [reflexivity | discriminate Hl].
Defined.

(** A hart in S-mode with a delegated software interrupt (bit 1) masked by SIE
    and a machine timer interrupt (bit 7) pending and enabled. *)
Definition demo_blocked : RVCPU Z unit :=
  demo_cpu RegFile_new 0x80000100
    (demo_csr LvS [(Mip, 0x82); (Mie, 0x82); (Mideleg, 0x2); (Mtvec, 0x80004001)]).


(** The lowest-numbered pending interrupt hides the others: in S-mode with SIE
    clear, a delegated supervisor software interrupt that cannot be taken keeps
    a pending and enabled machine timer interrupt, which could be taken, from
    being considered. *)
Theorem undeliverable_interrupt_blocks :
  accepted (csr demo_blocked) (TrapInterrupt MachineTimer) = true /\
  Z.testbit (Z.land (val (csr demo_blocked) Mip) (val (csr demo_blocked) Mie)) 7 = true /\
  @try_take_interrupt Z unit dev demo_blocked = (Ok None, demo_blocked).
Proof. vm_compute. auto. Qed.

(** [stvec] keeps any mode software writes to it, and the reserved modes are
    [unreachable!] in the handler entry: a supervisor that writes 2 to [stvec]
    makes the next exception delegated to it a panic. *)
Theorem stvec_reserved_mode_panics :
  let s := csr demo_user in
  let s1 := snd (write_checked (E := Exception) Stvec 2 (set_cpl LvS s)) in
  val s1 Stvec = 2 /\
  fst (@take_exception Z unit release LoadPageFault 0 (set_csr (set_cpl LvU s1) demo_user)) = Panic.
Proof. vm_compute. auto. Qed.
