(* ===== verification/Exec.v ===== *)
(** * Instruction execution (src/src/isa/riscv/instruction/)

    The integer, CSR, atomic, privileged and compressed instructions:
    exec_function.rs, exec_core.rs, exec_atomic_function.rs,
    exec_compress_function.rs, the helpers of mod.rs and the dispatch
    [get_exec_func] of exec_mapping.rs.  The floating-point and vector
    instructions act on the opaque part of the hart through the interface
    [ExtUnit]. *)

From S2P Require Import Prelude Utils TrapTypes Alu Ram Cache CsrTable Csr PageTable Mmio Vm Instr Cpu Trap.

(** ** Atomic memory operations

    [F::exec(cell, rhs, order)]: the value returned and the value stored.  The
    memory order constrains other threads only. *)
Inductive Ordering : Type := Relaxed | Acquire | Release | AcqRel.

Definition get_amo_order (aq rl : bool) : Ordering :=
  match aq, rl with
  | false, false => Relaxed
  | true, false => Acquire
  | false, true => Release
  | true, true => AcqRel
  end.

Definition AMOTrait : Type := UInt -> Ordering -> AmoOp.

Definition ExecAmoAdd : AMOTrait := fun t _ v rhs => Ok (v, wrap (BITS t) (v + rhs)).
Definition ExecAmoAnd : AMOTrait := fun t _ v rhs => Ok (v, Z.land v rhs).
Definition ExecAmoOr : AMOTrait := fun t _ v rhs => Ok (v, Z.lor v rhs).
Definition ExecAmoXor : AMOTrait := fun t _ v rhs => Ok (v, Z.lxor v rhs).
(** [try_update] with a closure that always returns [Some]. *)
Definition ExecAmoMax : AMOTrait := fun t _ v rhs =>
  Ok (v, wrap (BITS t) (Z.max (to_signed (BITS t) v) (to_signed (BITS t) rhs))).
Definition ExecAmoMin : AMOTrait := fun t _ v rhs =>
  Ok (v, wrap (BITS t) (Z.min (to_signed (BITS t) v) (to_signed (BITS t) rhs))).
Definition ExecAmoMaxU : AMOTrait := fun t _ v rhs => Ok (v, Z.max v rhs).
Definition ExecAmoMinU : AMOTrait := fun t _ v rhs => Ok (v, Z.min v rhs).
Definition ExecAmoSwap : AMOTrait := fun t _ v rhs => Ok (v, rhs).

(** [WordTrait::sign_extend_to_wordtype], for [u32] and [u64]. *)
Definition sign_extend_to_wordtype (t : UInt) (z : Z) : Z :=
  match t with U32 => sign_extend_u32 z | _ => z end.

(** What the rest of the hart provides for the floating-point, vector and
    custom instructions. *)
Class ExtUnit (D X : Type) : Type := {
  exec_ext : RiscvInstr -> RVInstrInfo -> M (RVCPU D X) Exception unit
}.

Section Exec.
Context {D X : Type} `{DeviceTrait D} `{Profile} `{ExtUnit D X}.

Abbreviation CPU := (RVCPU D X).
Abbreviation CpuM := (M CPU Exception).

(** ** Helpers (instruction/mod.rs) *)
Definition check_jump_alignment (target : Z) : CpuM unit :=
  c_enabled <- on_csr Misa_c_enabled ;;
  if negb c_enabled && negb (Z.land target 3 =? 0) then
    modify (set_pending_tval (Some target)) ;;; err InstructionMisaligned
  else ret tt.

Definition normal_exec (f : CpuM unit) : CpuM unit := f ;;; pc_add 4 ;;; retire.
Definition normal_compress_exec (f : CpuM unit) : CpuM unit := f ;;; pc_add 2 ;;; retire.

(** ** exec_core.rs *)
Definition handle_load (t : UInt) (extend : bool) (rd addr : Z) : CpuM unit :=
  data <- mem_read t addr ;;
  let data := if extend then sign_extend data (size_of t * 8) else data in
  reg_write rd data.

Definition handle_store (t : UInt) (addr data : Z) : CpuM unit := mem_write t addr (truncate_from t data).

(** ** exec_function.rs *)
Definition exec_arith (F : Z -> Z -> ExecResult) (info : RVInstrInfo) : CpuM unit :=
  normal_exec (
    p <- match info with
         | IR rs1 rs2 rd =>
             v <- reg_read rs1 rs2 ;; rst <- lift_res (F (fst v) (snd v)) ;; ret (rd, rst)
         | II rs1 rd imm =>
             v <- reg_read rs1 0 ;; rst <- lift_res (F (fst v) imm) ;; ret (rd, rst)
         | _ => panic
         end ;;
    reg_write (fst p) (snd p)).

Definition exec_branch (F : Z -> Z -> bool) (info : RVInstrInfo) : CpuM unit :=
  match info with
  | IB rs1 rs2 imm =>
      v <- reg_read rs1 rs2 ;;
      (if F (fst v) (snd v) then
         p <- gets pc ;;
         let target := wrap 64 (p + imm) in
         check_jump_alignment target ;;; write_pc target
       else pc_add 4) ;;;
      retire
  | _ => panic
  end.

Definition exec_load (t : UInt) (extend : bool) (info : RVInstrInfo) : CpuM unit :=
  normal_exec
    match info with
    | II rs1 rd imm =>
        v <- reg_read rs1 0 ;; handle_load t extend rd (wrapping_add_as_signed (fst v) imm)
    | _ => panic
    end.

Definition exec_store (t : UInt) (info : RVInstrInfo) : CpuM unit :=
  normal_exec
    match info with
    | IS rs1 rs2 imm =>
        v <- reg_read rs1 rs2 ;;
        mem_write t (wrapping_add_as_signed (fst v) imm) (truncate_from t (snd v))
    | _ => panic
    end.

Definition exec_csrw (uimm : bool) (info : RVInstrInfo) : CpuM unit :=
  match info with
  | II rs1 rd imm =>
      let imm := truncate_to_bits imm 12 in
      legal <- on_csr (is_write_priv_legal imm) ;;
      if negb legal then err IllegalInstruction
      else
        new_val <- (if uimm then ret rs1 else v <- reg_read rs1 rs1 ;; ret (fst v)) ;;
        (if negb (rd =? 0) then value <- read_csr imm ;; reg_write rd value else ret tt) ;;;
        write_csr imm new_val ;;;
        (if negb (imm =? Minstret) then retire else ret tt) ;;;
        pc_add 4
  | _ => pc_add 4
  end.

Definition exec_csr_bit (set uimm : bool) (info : RVInstrInfo) : CpuM unit :=
  match info with
  | II rs1 rd imm =>
      let imm := truncate_to_bits imm 12 in
      rhs <- (if uimm then ret rs1 else v <- reg_read rs1 rs1 ;; ret (fst v)) ;;
      if rhs =? 0 then
        value <- read_csr imm ;; reg_write rd value ;;; pc_add 4
      else
        legal <- on_csr (is_write_priv_legal imm) ;;
        if negb legal then err IllegalInstruction
        else
          value <- read_csr imm ;;
          reg_write rd value ;;;
          let data := if set then Z.lor value rhs else Z.land value (bnot 64 rhs) in
          write_csr imm data ;;;
          (if negb (imm =? Minstret) then retire else ret tt) ;;;
          pc_add 4
  | _ => panic
  end.

Definition exec_nop (_ : RVInstrInfo) : CpuM unit := normal_exec (ret tt).

(** ** exec_atomic_function.rs *)
Definition exec_atomic_memory_operation (F : AMOTrait) (t : UInt) (info : RVInstrInfo) : CpuM unit :=
  match info with
  | IA rs1 rs2 rd rl aq =>
      v <- reg_read rs1 rs2 ;;
      let order := get_amo_order aq rl in
      res <- fetch_and_op_amo t (fst v) (truncate_from t (snd v)) (F t order) ;;
      reg_write rd (sign_extend_to_wordtype t res) ;;;
      pc_add 4 ;;; retire
  | _ => panic
  end.

Definition exec_lr (t : UInt) (extend : bool) (info : RVInstrInfo) : CpuM unit :=
  match info with
  | IA rs1 _ rd _ _ =>
      addr <- reg_at rs1 ;;
      res <- cpu_load_reserved t addr ;;
      reg_write rd (if extend then sign_extend_to_wordtype t res else res) ;;;
      pc_add 4 ;;; retire
  | _ => panic
  end.

Definition exec_sc (t : UInt) (info : RVInstrInfo) : CpuM unit :=
  match info with
  | IA rs1 rs2 rd _ _ =>
      v <- reg_read rs1 rs2 ;;
      success <- cpu_store_conditional t (fst v) (truncate_from t (snd v)) ;;
      reg_write rd (if (success : bool) then 0 else 1) ;;;
      pc_add 4 ;;; retire
  | _ => panic
  end.

(** ** exec_compress_function.rs *)
Definition exec_compress_arith (F : Z -> Z -> ExecResult) (info : RVInstrInfo) : CpuM unit :=
  normal_compress_exec (
    p <- match info with
         | ICR rd_rs1 rs2 | ICA rd_rs1 rs2 =>
             v <- reg_read rd_rs1 rs2 ;; rst <- lift_res (F (fst v) (snd v)) ;; ret (rd_rs1, rst)
         | ICI rd_rs1 imm | ICB rd_rs1 imm =>
             v <- reg_read rd_rs1 0 ;; rst <- lift_res (F (fst v) imm) ;; ret (rd_rs1, rst)
         | _ => panic
         end ;;
    reg_write (fst p) (snd p)).

Definition exec_compress_branch (F : Z -> Z -> bool) (info : RVInstrInfo) : CpuM unit :=
  match info with
  | ICB rs1 imm =>
      v <- reg_read rs1 0 ;;
      (if F (fst v) 0 then pc_add imm else pc_add 2) ;;;
      retire
  | _ => panic
  end.

Definition exec_compress_jump (link : bool) (info : RVInstrInfo) : CpuM unit :=
  match info with
  | ICJ target =>
      p <- gets pc ;;
      let target := wrap 64 (p + target) in
      (if link then reg_write 1 (wrap 64 (p + 2)) else ret tt) ;;;
      write_pc target ;;; retire
  | _ => panic
  end.

(** [cpu.pc + 2] overflows in debug builds. *)
Definition exec_compress_jump_reg (link : bool) (info : RVInstrInfo) : CpuM unit :=
  match info with
  | ICR rs1 _ =>
      p <- gets pc ;;
      t <- add_chk 64 p 2 ;;
      v <- reg_read rs1 0 ;;
      write_pc (Z.land (fst v) (bnot 64 1)) ;;;
      (if link then reg_write 1 t else ret tt) ;;;
      retire
  | _ => panic
  end.

Definition exec_compress_load_sp (t : UInt) (extend : bool) (info : RVInstrInfo) : CpuM unit :=
  normal_compress_exec
    match info with
    | ICI rd imm => v <- reg_read 2 0 ;; handle_load t extend rd (wrapping_add_as_signed (fst v) imm)
    | _ => panic
    end.

Definition exec_compress_load (t : UInt) (extend : bool) (info : RVInstrInfo) : CpuM unit :=
  normal_compress_exec
    match info with
    | ICL rd rs1 imm => v <- reg_read rs1 0 ;; handle_load t extend rd (wrapping_add_as_signed (fst v) imm)
    | _ => panic
    end.

Definition exec_compress_store_sp (t : UInt) (info : RVInstrInfo) : CpuM unit :=
  normal_compress_exec
    match info with
    | ICSS rs2 imm => v <- reg_read 2 rs2 ;; handle_store t (wrapping_add_as_signed (fst v) imm) (snd v)
    | _ => panic
    end.

Definition exec_compress_store (t : UInt) (info : RVInstrInfo) : CpuM unit :=
  normal_compress_exec
    match info with
    | ICS rs1 rs2 imm => v <- reg_read rs1 rs2 ;; handle_store t (wrapping_add_as_signed (fst v) imm) (snd v)
    | _ => panic
    end.

Definition exec_compress_nop (_ : RVInstrInfo) : CpuM unit := normal_compress_exec (ret tt).

Definition exec_compress_mv (info : RVInstrInfo) : CpuM unit :=
  match info with
  | ICR rd rs2 => normal_compress_exec (v <- reg_read rs2 0 ;; reg_write rd (fst v))
  | _ => panic
  end.

Definition exec_compress_li (info : RVInstrInfo) : CpuM unit :=
  match info with
  | ICI rd imm => normal_compress_exec (reg_write rd imm)
  | _ => panic
  end.

Definition exec_addi4spn (info : RVInstrInfo) : CpuM unit :=
  match info with
  | ICIW rd imm =>
      normal_compress_exec (v <- reg_read 2 0 ;; rst <- lift_res (ExecAdd U64 (fst v) imm) ;; reg_write rd rst)
  | _ => panic
  end.

(** ** The closures of exec_mapping.rs *)
Definition exec_jal (info : RVInstrInfo) : CpuM unit :=
  match info with
  | IJ rd imm =>
      p <- gets pc ;;
      let target := wrap 64 (p + imm) in
      check_jump_alignment target ;;;
      reg_write rd (wrap 64 (p + 4)) ;;;
      write_pc target ;;; retire
  | _ => panic
  end.

(** [cpu.pc + 4] overflows in debug builds. *)
Definition exec_jalr (info : RVInstrInfo) : CpuM unit :=
  match info with
  | II rs1 rd imm =>
      p <- gets pc ;;
      t <- add_chk 64 p 4 ;;
      v <- reg_read rs1 0 ;;
      let target := Z.land (wrap 64 (fst v + imm)) (bnot 64 1) in
      check_jump_alignment target ;;;
      write_pc target ;;;
      reg_write rd t ;;; retire
  | _ => panic
  end.

Definition exec_auipc (info : RVInstrInfo) : CpuM unit :=
  match info with
  | IU rd imm => p <- gets pc ;; reg_write rd (wrap 64 (p + imm)) ;;; pc_add 4 ;;; retire
  | _ => panic
  end.

Definition exec_lui (info : RVInstrInfo) : CpuM unit :=
  match info with
  | IU rd imm => reg_write rd imm ;;; pc_add 4 ;;; retire
  | _ => panic
  end.

Definition exec_ebreak (_ : RVInstrInfo) : CpuM unit := err Breakpoint.

Definition exec_ecall (_ : RVInstrInfo) : CpuM unit :=
  l <- get_current_privilege ;;
  match l with
  | LvU => err UserEnvCall
  | LvS => err SupervisorEnvCall
  | LvM => err MachineEnvCall
  | LvV => panic
  end.

Definition exec_fence_i (_ : RVInstrInfo) : CpuM unit :=
  flush_icache ;;; cpu_flush_tlb ;;; pc_add 4 ;;; retire.

Definition exec_mret (_ : RVInstrInfo) : CpuM unit :=
  l <- get_current_privilege ;;
  if bool_decide (l <> LvM) then err IllegalInstruction
  else mret ;;; retire.

Definition Mstatus_tsr : CsrField := Fld Mstatus 22 1.

(** The check of SRET and SFENCE.VMA: below S, or in S with the trapping bit
    set, the instruction is illegal. *)
Definition supervisor_check (trap_bit : CsrField) : CpuM unit :=
  l <- get_current_privilege ;;
  if priv_lt l LvS then err IllegalInstruction
  else
    trapped <- (if bool_decide (l = LvS) then b <- on_csr (get_field trap_bit) ;; ret (b =? 1) else ret false) ;;
    if (trapped : bool) then err IllegalInstruction else ret tt.

Definition exec_sret (_ : RVInstrInfo) : CpuM unit :=
  supervisor_check Mstatus_tsr ;;; sret ;;; retire.

Definition exec_sfence_vma (_ : RVInstrInfo) : CpuM unit :=
  supervisor_check Mstatus_tvm ;;;
  on_memory vm_flush_tlb ;;; flush_icache ;;; pc_add 4 ;;; retire.

Definition exec_illegal (_ : RVInstrInfo) : CpuM unit := err IllegalInstruction.

(** ** [get_exec_func] (exec_mapping.rs), by the sections of its match *)
Definition ExecFunc : Type := RVInstrInfo -> CpuM unit.

(** Arithmetic, shifts, comparisons and bit operations. *)
Definition rv_i_arith (i : RiscvInstr) : option ExecFunc :=
  match i with
  | ADD | ADDI => Some (exec_arith (ExecAdd U64))
  | ADDW | ADDIW => Some (exec_arith ExecAddw)
  | SUB => Some (exec_arith (ExecSub U64))
  | SUBW => Some (exec_arith ExecSubw)
  | MUL => Some (exec_arith (ExecMulLow U64))
  | MULH => Some (exec_arith (ExecMulHighSigned U64))
  | MULHU => Some (exec_arith (ExecMulHighUnsigned U64))
  | MULHSU => Some (exec_arith (ExecMulHighSignedUnsigned U64))
  | DIV => Some (exec_arith (ExecDivSigned U64))
  | DIVU => Some (exec_arith (ExecDivUnsigned U64))
  | REM => Some (exec_arith (ExecRemSigned U64))
  | REMU => Some (exec_arith (ExecRemUnsigned U64))
  | MULW => Some (exec_arith ExecMulw)
  | DIVW => Some (exec_arith ExecDivw)
  | DIVUW => Some (exec_arith ExecDivuw)
  | REMW => Some (exec_arith ExecRemw)
  | REMUW => Some (exec_arith ExecRemuw)
  | SLL | SLLI => Some (exec_arith (ExecSLL U64))
  | SRL | SRLI => Some (exec_arith (ExecSRL U64))
  | SRA | SRAI => Some (exec_arith (ExecSRA U64))
  | SRAW | SRAIW => Some (exec_arith ExecSRAW)
  | SLLW | SLLIW => Some (exec_arith ExecSLLW)
  | SRLW | SRLIW => Some (exec_arith ExecSRLW)
  | SLT | SLTI => Some (exec_arith (ExecSignedLess U64))
  | SLTU | SLTIU => Some (exec_arith ExecUnsignedLess)
  | AND | ANDI => Some (exec_arith ExecAnd)
  | OR | ORI => Some (exec_arith ExecOr)
  | XOR | XORI => Some (exec_arith ExecXor)
  | _ => None
  end.

(** Branches, loads, stores, jumps and system instructions. *)
Definition rv_i_rest (i : RiscvInstr) : option ExecFunc :=
  match i with
  | BEQ => Some (exec_branch ExecEqual)
  | BNE => Some (exec_branch ExecNotEqual)
  | BLT => Some (exec_branch (ExecSignedLess_bool U64))
  | BGE => Some (exec_branch (ExecSignedGreatEqual U64))
  | BLTU => Some (exec_branch ExecUnsignedLess_bool)
  | BGEU => Some (exec_branch ExecUnsignedGreatEqual)
  | LB => Some (exec_load U8 true)
  | LBU => Some (exec_load U8 false)
  | LH => Some (exec_load U16 true)
  | LHU => Some (exec_load U16 false)
  | LW => Some (exec_load U32 true)
  | LWU => Some (exec_load U32 false)
  | LD => Some (exec_load U64 false)
  | SB => Some (exec_store U8)
  | SH => Some (exec_store U16)
  | SW => Some (exec_store U32)
  | SD => Some (exec_store U64)
  | JAL => Some exec_jal
  | JALR => Some exec_jalr
  | AUIPC => Some exec_auipc
  | LUI => Some exec_lui
  | EBREAK => Some exec_ebreak
  | ECALL => Some exec_ecall
  | FENCE => Some exec_nop
  | FENCE_I => Some exec_fence_i
  | CSRRW => Some (exec_csrw false)
  | CSRRC => Some (exec_csr_bit false false)
  | CSRRS => Some (exec_csr_bit true false)
  | CSRRWI => Some (exec_csrw true)
  | CSRRCI => Some (exec_csr_bit false true)
  | CSRRSI => Some (exec_csr_bit true true)
  | MRET => Some exec_mret
  | WFI => Some exec_nop
  | _ => None
  end.

Definition rv_a (i : RiscvInstr) : option ExecFunc :=
  match i with
  | AMOADD_W => Some (exec_atomic_memory_operation ExecAmoAdd U32)
  | AMOAND_W => Some (exec_atomic_memory_operation ExecAmoAnd U32)
  | AMOOR_W => Some (exec_atomic_memory_operation ExecAmoOr U32)
  | AMOXOR_W => Some (exec_atomic_memory_operation ExecAmoXor U32)
  | AMOADD_D => Some (exec_atomic_memory_operation ExecAmoAdd U64)
  | AMOAND_D => Some (exec_atomic_memory_operation ExecAmoAnd U64)
  | AMOOR_D => Some (exec_atomic_memory_operation ExecAmoOr U64)
  | AMOXOR_D => Some (exec_atomic_memory_operation ExecAmoXor U64)
  | AMOSWAP_W => Some (exec_atomic_memory_operation ExecAmoSwap U32)
  | AMOSWAP_D => Some (exec_atomic_memory_operation ExecAmoSwap U64)
  | AMOMAX_W => Some (exec_atomic_memory_operation ExecAmoMax U32)
  | AMOMIN_W => Some (exec_atomic_memory_operation ExecAmoMin U32)
  | AMOMAXU_W => Some (exec_atomic_memory_operation ExecAmoMaxU U32)
  | AMOMINU_W => Some (exec_atomic_memory_operation ExecAmoMinU U32)
  | AMOMAX_D => Some (exec_atomic_memory_operation ExecAmoMax U64)
  | AMOMIN_D => Some (exec_atomic_memory_operation ExecAmoMin U64)
  | AMOMAXU_D => Some (exec_atomic_memory_operation ExecAmoMaxU U64)
  | AMOMINU_D => Some (exec_atomic_memory_operation ExecAmoMinU U64)
  | LR_W => Some (exec_lr U32 true)
  | SC_W => Some (exec_sc U32)
  | LR_D => Some (exec_lr U64 false)
  | SC_D => Some (exec_sc U64)
  | _ => None
  end.

Definition rv_s (i : RiscvInstr) : option ExecFunc :=
  match i with
  | SRET => Some exec_sret
  | SFENCE_VMA => Some exec_sfence_vma
  | _ => None
  end.

Definition rv_c (i : RiscvInstr) : option ExecFunc :=
  match i with
  | C_ADD | C_ADDI | C_ADDI16SP => Some (exec_compress_arith (ExecAdd U64))
  | C_ADDW | C_ADDIW => Some (exec_compress_arith ExecAddw)
  | C_ADDI4SPN => Some exec_addi4spn
  | C_SLLI => Some (exec_compress_arith (ExecSLL U64))
  | C_SRLI => Some (exec_compress_arith (ExecSRL U64))
  | C_SRAI => Some (exec_compress_arith (ExecSRA U64))
  | C_MV => Some exec_compress_mv
  | C_AND | C_ANDI => Some (exec_compress_arith ExecAnd)
  | C_OR => Some (exec_compress_arith ExecOr)
  | C_XOR => Some (exec_compress_arith ExecXor)
  | C_SUB => Some (exec_compress_arith (ExecSub U64))
  | C_SUBW => Some (exec_compress_arith ExecSubw)
  | C_NOP => Some exec_compress_nop
  | C_EBREAK => Some exec_ebreak
  | C_LI | C_LUI => Some exec_compress_li
  | C_LW => Some (exec_compress_load U32 true)
  | C_LD => Some (exec_compress_load U64 false)
  | C_LWSP => Some (exec_compress_load_sp U32 true)
  | C_LDSP => Some (exec_compress_load_sp U64 false)
  | C_SW => Some (exec_compress_store U32)
  | C_SD => Some (exec_compress_store U64)
  | C_SWSP => Some (exec_compress_store_sp U32)
  | C_SDSP => Some (exec_compress_store_sp U64)
  | C_BEQZ => Some (exec_compress_branch ExecEqual)
  | C_BNEZ => Some (exec_compress_branch ExecNotEqual)
  | C_J => Some (exec_compress_jump false)
  | C_JAL => Some (exec_compress_jump true)
  | C_JR => Some (exec_compress_jump_reg false)
  | C_JALR => Some (exec_compress_jump_reg true)
  | ILLEGAL => Some exec_illegal
  | _ => None
  end.

Definition first_some {A} (l : list (option A)) : option A := foldr (fun o r => match o with Some _ => o | None => r end) None l.

(** The arms of the integer, atomic, compressed and privileged instructions. *)
Definition base_exec_func (i : RiscvInstr) : option ExecFunc :=
  first_some [rv_i_arith i; rv_i_rest i; rv_a i; rv_s i; rv_c i].

(** The remaining arms are the floating-point, vector and custom ones. *)
Definition get_exec_func (i : RiscvInstr) : ExecFunc :=
  match base_exec_func i with
  | Some f => f
  | None => exec_ext i
  end.
End Exec.
