(* ===== verification/Invariant.v ===== *)
(** * The type invariant of the hart

    Every byte of RAM is a byte, every CSR and every register a 64-bit word,
    [x0] is zero, and the program counter is a 64-bit word.  Every modelled
    instruction keeps the invariant, whatever it returns. *)

From S2P Require Import Prelude Utils TrapTypes Alu Ram Cache CsrTable Csr PageTable Mmio Vm Instr Cpu Trap Exec.

(** ** Memory *)
Section Memory.
Context {D : Type} `{DeviceTrait D} `{Profile}.

Definition vm_ok (v : VirtAddrManager D) : Prop := ram_wf (ram (mmio v)).
Definition mmio_ok (s : MemoryMapIO D) : Prop := ram_wf (ram s).

Lemma ram_read_triple t addr : triple ram_wf (Ram.read t addr) (uint (BITS t)).
Proof.
  intros r Hr. unfold Ram.read, read_raw_ptr. destruct (contains_access t addr); [|done]. cbn [negb].
  destruct (_ =? 0); [|done]. split; [done|]. rewrite <- nbytes_bits. by apply load_le_range.
Qed.

Lemma set_data_wf i n v r : ram_wf r -> ram_wf (set_data (store_bytes i (split_le n v)) r).
Proof. intros [Hf Hd]. split; [done|]. apply store_bytes_Forall; [apply split_le_bytes|done]. Qed.

Lemma set_reserved_wf o r : ram_wf r -> ram_wf (set_reserved o r).
Proof. by intros [??]. Qed.

Lemma try_invalidate_wf addr r : ram_wf r -> ram_wf (try_invalidate_reservation addr r).
Proof. unfold try_invalidate_reservation. intros. repeat case_match; auto using set_reserved_wf. Qed.

Lemma ram_write_triple t addr v : triple ram_wf (Ram.write t addr v) (fun _ => True).
Proof.
  intros r Hr. pose proof (write_wf t addr v r) as Hw. destruct (Ram.write t addr v r) as [x r'] eqn:E.
  specialize (Hw _ _ Hr eq_refl). by destruct x.
Qed.

Lemma ram_lr_triple t addr : triple ram_wf (Ram.load_reserved t addr) (uint (BITS t)).
Proof.
  unfold Ram.load_reserved. eapply triple_bind; [apply ram_read_triple|]. intros v Hv. cbn beta.
  eapply triple_bind; [apply (triple_modify _ _ (fun _ => True)); [intros; by apply set_reserved_wf|done]|].
  auto with triple.
Qed.

Lemma ram_sc_triple t addr v : triple ram_wf (Ram.store_conditional t addr v) (fun _ => True).
Proof.
  intros r Hr. unfold Ram.store_conditional. destruct (debug_assertions && _); [by apply set_reserved_wf|].
  destruct (reserved r); [|split; [by apply set_reserved_wf|done]].
  destruct (in_the_same_reservation_set _ _); [|split; [by apply set_reserved_wf|done]].
  revert r Hr. eapply triple_bind; [apply ram_write_triple|auto with triple].
Qed.

Lemma ram_clear_triple : triple ram_wf Ram.clear_reservation (fun _ => True).
Proof. apply triple_modify; [intros; by apply set_reserved_wf|done]. Qed.

Lemma with_ram_triple {A} (m : M Ram MemError A) Q :
  triple ram_wf m Q -> triple mmio_ok (with_ram (D := D) m) Q.
Proof. intros Hm. eapply triple_zoom; [exact Hm|done|done]. Qed.

Lemma with_device_triple {A} h (m : M D MemError A) : triple mmio_ok (with_device h m) (fun _ => True).
Proof. intros s Hs. unfold with_device. destruct (devices s !! h); [|done]. by destruct (m d) as [[]?]. Qed.

Lemma item_at_triple i : triple mmio_ok (item_at (D := D) i) (fun _ => True).
Proof.
  unfold item_at. eapply triple_bind; [by apply (triple_gets _ _ (fun _ => True))|].
  intros. by apply triple_unwrap.
Qed.

Lemma read_from_device_triple t i p : triple mmio_ok (read_from_device t i p) (uint (BITS t)).
Proof.
  unfold read_from_device. triple_step; [apply triple_err|].
  eapply triple_bind; [apply item_at_triple|]. intros item _. triple_step; [apply triple_err|].
  eapply triple_bind; [apply with_device_triple|]. intros x _. apply triple_ret, wrap_range. by destruct t.
Qed.

Lemma write_to_device_triple t i p v : triple mmio_ok (write_to_device t i p v) (fun _ => True).
Proof.
  unfold write_to_device. triple_step; [apply triple_err|].
  eapply triple_bind; [apply item_at_triple|]. intros item _. triple_step; [apply triple_err|].
  apply with_device_triple.
Qed.

Lemma read_by_type_triple t p : triple mmio_ok (read_by_type t p) (uint (BITS t)).
Proof.
  unfold read_by_type. triple_step; [apply with_ram_triple, ram_read_triple|].
  eapply triple_bind; [by apply (triple_gets _ _ (fun _ => True))|]. intros m _.
  destruct (binary_search_by _ _) as [i|[|i]]; auto using read_from_device_triple with triple.
Qed.

Lemma write_by_type_triple t p v : triple mmio_ok (write_by_type t p v) (fun _ => True).
Proof.
  unfold write_by_type. triple_step; [apply with_ram_triple, ram_write_triple|].
  eapply triple_bind; [by apply (triple_gets _ _ (fun _ => True))|]. intros m _.
  destruct (binary_search_by _ _) as [i|[|i]]; auto using write_to_device_triple with triple.
Qed.

Lemma mmio_lr_triple t p : triple mmio_ok (Mmio.load_reserved (D := D) t p) (uint (BITS t)).
Proof. unfold Mmio.load_reserved. triple_step; [apply with_ram_triple, ram_lr_triple|apply triple_err]. Qed.

Lemma mmio_sc_triple t p v : triple mmio_ok (Mmio.store_conditional (D := D) t p v) (fun _ => True).
Proof. unfold Mmio.store_conditional. triple_step; [apply with_ram_triple, ram_sc_triple|apply triple_err]. Qed.

(** ** Address translation *)
Lemma walk_levels_triple sv n entry vpn : triple ram_wf (walk_levels sv n entry vpn) (fun _ => True).
Proof.
  revert entry. induction n as [|n IH]; intros entry; cbn [walk_levels]; [apply triple_panic|].
  eapply triple_bind with (Q := fun _ => True).
  { unfold sub_chk. triple_step; auto with triple. }
  intros off _. eapply triple_bind; [apply triple_map_err, ram_read_triple|]. intros pte _.
  repeat (triple_step; auto with triple).
Qed.

Lemma update_pte_triple a f : triple ram_wf (update_pte_at a f) (fun _ => True).
Proof.
  unfold update_pte_at. eapply triple_bind with (Q := fun _ => True).
  { unfold sub_chk. triple_step; auto with triple. }
  intros off _. eapply triple_bind with (Q := fun _ => True); [auto with triple|]. intros _ _.
  apply triple_modify; [intros; by apply set_data_wf|done].
Qed.

Lemma translate_triple vaddr check effect :
  triple (fun p => ram_wf (snd p)) (translate_vaddr vaddr check effect) (fun _ => True).
Proof.
  assert (forall A (m : PageTableWalker -> M Ram PageTableError A),
    (forall w, triple ram_wf (m w) (fun _ => True)) ->
    triple (fun p => ram_wf (snd p)) (on_ram m) (fun _ => True)) as Hon.
  { intros A m Hm [w r] Hr. specialize (Hm w r Hr). unfold on_ram. by destruct (m w r) as [[]?]. }
  unfold translate_vaddr. eapply triple_bind; [by apply (triple_gets _ _ (fun _ => True))|]. intros w _.
  triple_step; [auto with triple|]. triple_step; [auto with triple|].
  eapply triple_bind with (Q := fun _ => True).
  { intros [w' r] Hr. unfold tlb_get. by destruct (Cache_get _ _). }
  intros hit _. eapply triple_bind with (Q := fun _ => True).
  { destruct hit; [auto with triple|]. eapply triple_bind; [apply Hon|intros info _].
    - intros w'. unfold walk_pte. destruct (mode w'); unfold walk_pte_with_mode; auto using walk_levels_triple with triple.
    - eapply triple_bind with (Q := fun _ => True); [by intros [w' r] Hr|auto with triple]. }
  intros info _. triple_step; [auto with triple|].
  eapply triple_bind; [apply Hon|auto with triple].
  intros w'. unfold apply_ad_policy. destruct effect; repeat (triple_step; auto using update_pte_triple with triple).
Qed.

Lemma vm_translate_triple vaddr check effect : triple vm_ok (vm_translate vaddr check effect) (fun _ => True).
Proof. eapply triple_zoom; [apply translate_triple|done|done]. Qed.

Lemma translate_policy_triple vaddr policy : triple vm_ok (translate_with_policy vaddr policy) (fun _ => True).
Proof. destruct policy; [by apply triple_ret|apply triple_map_err, vm_translate_triple]. Qed.

Lemma on_mmio_triple {E A} (m : M (MemoryMapIO D) E A) Q : triple mmio_ok m Q -> triple vm_ok (on_mmio m) Q.
Proof. intros Hm. eapply triple_zoom; [exact Hm|done|done]. Qed.

Lemma read_policy_triple t addr policy : triple vm_ok (read_with_policy t addr policy) (uint (BITS t)).
Proof.
  eapply triple_bind; [apply translate_policy_triple|]. intros p _. apply on_mmio_triple, read_by_type_triple.
Qed.

Lemma write_policy_triple t addr v policy : triple vm_ok (write_with_policy t addr v policy) (fun _ => True).
Proof.
  eapply triple_bind; [apply translate_policy_triple|]. intros p _. apply on_mmio_triple, write_by_type_triple.
Qed.

Lemma lr_policy_triple t addr policy : triple vm_ok (load_reserved_with_policy t addr policy) (uint (BITS t)).
Proof.
  unfold load_reserved_with_policy. triple_step; [auto with triple|].
  eapply triple_bind; [apply translate_policy_triple|]. intros p _. apply on_mmio_triple, mmio_lr_triple.
Qed.

Lemma sc_policy_triple t addr v policy : triple vm_ok (store_conditional_with_policy t addr v policy) (fun _ => True).
Proof.
  assert (triple vm_ok (on_mmio (D := D) Mmio.clear_reservation) (fun _ => True)) as Hcl
    by apply on_mmio_triple, with_ram_triple, ram_clear_triple.
  unfold store_conditional_with_policy. triple_step; [eapply triple_bind; [exact Hcl|auto with triple]|].
  eapply triple_bind; [apply translate_policy_triple|]. intros p _ s Hs.
  pose proof (on_mmio_triple _ _ (mmio_sc_triple t p v) s Hs) as Hsc.
  unfold on_mmio, zoom, Mmio.clear_reservation, with_ram in *.
  destruct (Mmio.store_conditional t p v (mmio s)) as [[b|e|] m1]; cbn in *;
    [split; [|done]|..]; try apply set_reserved_wf; try apply Hsc; done.
Qed.

Lemma amo_policy_triple t addr rhs policy f :
  (forall v x, uint (BITS t) v -> f v rhs = Ok x -> uint (BITS t) (fst x)) ->
  triple vm_ok (fetch_and_op_amo_with_policy t addr rhs policy f) (uint (BITS t)).
Proof.
  intros Hf. eapply triple_bind; [apply triple_map_err, translate_policy_triple|]. intros p _.
  triple_step; [auto with triple|]. triple_step; [auto with triple|]. apply on_mmio_triple. unfold amo_cell.
  eapply triple_bind; [by apply (triple_assert _ _ (fun _ => True))|]. intros _ _.
  eapply triple_bind; [apply (triple_gets _ _ ram_wf); by intros s Hs|]. intros r Hr.
  eapply triple_bind with (Q := fun x => uint (BITS t) (fst x)).
  { apply triple_lift_res. intros x. apply Hf. rewrite <- nbytes_bits. by apply load_le_range. }
  intros x Hx. eapply triple_bind; [|intros; by apply triple_ret].
  apply (triple_modify _ _ (fun _ => True)); [|done]. intros s Hs. by apply try_invalidate_wf, set_data_wf.
Qed.
End Memory.

(** ** CSR accesses *)
Section CsrOps.
Context {E : Type} `{Profile}.

Lemma slot_reads a : reads (slot (E := E) a).
Proof. unfold slot. solve_reads. Qed.
Hint Resolve slot_reads : reads.

Lemma existing_value_reads a : reads (existing_value (E := E) a).
Proof. unfold existing_value. solve_reads. Qed.
Hint Resolve existing_value_reads : reads.

Lemma get_by_type_reads a : reads (get_by_type_existing (E := E) a).
Proof. unfold get_by_type_existing. solve_reads. Qed.
Hint Resolve get_by_type_reads : reads.

Lemma data_reads a : reads (data (E := E) a).
Proof. unfold data. solve_reads. Qed.
Hint Resolve data_reads : reads.

Lemma get_field_reads f : reads (get_field (E := E) f).
Proof. unfold get_field. solve_reads. Qed.
Hint Resolve get_field_reads : reads.

Lemma privelege_level_reads : reads (privelege_level (E := E)).
Proof. unfold privelege_level. solve_reads. Qed.
Hint Resolve privelege_level_reads : reads.

Lemma read_legal_reads a : reads (is_read_priv_legal (E := E) a).
Proof. unfold is_read_priv_legal. solve_reads. Qed.
Hint Resolve read_legal_reads : reads.

Lemma write_legal_reads a : reads (is_write_priv_legal (E := E) a).
Proof. unfold is_write_priv_legal. solve_reads. Qed.

Lemma read_uncheck_reads a : reads (read_uncheck_privilege (E := E) a).
Proof. unfold read_uncheck_privilege. solve_reads. Qed.
Hint Resolve read_uncheck_reads : reads.

Lemma read_checked_reads a : reads (read_checked (E := E) a).
Proof. unfold read_checked. solve_reads. Qed.

Lemma misa_c_reads : reads (Misa_c_enabled (E := E)).
Proof. unfold Misa_c_enabled. solve_reads. Qed.

Lemma data_policy_reads access b : reads (resolve_data_policy (E := E) access b).
Proof. unfold resolve_data_policy, determine_data_access_privilege. solve_reads. Qed.

Lemma ifetch_policy_reads b : reads (resolve_ifetch_policy (E := E) b).
Proof. unfold resolve_ifetch_policy. solve_reads. Qed.

(** A write through the validators keeps every register a word. *)
Lemma csr_write_wf s a v c : csr_wf s -> csr_wf (set_table (alter (CsrReg_write v c) a) s).
Proof.
  intros Hwf. destruct (table s !! a) as [r|] eqn:Er.
  - destruct (known_validate s a r Hwf Er) as (d & _ & Hw & Hu).
    erewrite alter_upd; [|exact Er|unfold CsrReg_write; rewrite Hw; reflexivity].
    apply upd_wf; [done|]. apply get_new_value_u64; [exact (wf_u64 s Hwf _ _ Er)|apply Hu].
  - replace (set_table (alter (CsrReg_write v c) a) s) with s; [done|].
    destruct s as [t p x]. unfold set_table. f_equal. cbn in *. apply map_eq. intros b.
    destruct (decide (a = b)) as [<-|]; [by rewrite lookup_alter_eq, Er|by rewrite lookup_alter_ne].
Qed.

Lemma set_field_triple f x : triple csr_wf (set_field (E := E) f x) (fun _ => True).
Proof.
  unfold set_field, update_existing. eapply triple_bind; [by apply (triple_assert _ _ (fun _ => True))|]. intros _ _.
  eapply triple_bind; [apply reads_triple, get_by_type_reads|]. intros i _.
  eapply triple_bind; [apply reads_triple, existing_value_reads|]. intros old _.
  eapply triple_bind; [by apply (triple_gets _ _ (fun _ => True))|]. intros c _.
  eapply triple_bind; [apply reads_triple, slot_reads|]. intros r _.
  eapply triple_bind; [by apply (triple_unwrap _ _ (fun _ => True))|]. intros _ _.
  apply triple_modify; [|done]. intros s Hs. by apply csr_write_wf.
Qed.

Lemma minstret_triple n : triple csr_wf (Minstret_wrapping_add (E := E) n) (fun _ => True).
Proof.
  unfold Minstret_wrapping_add. eapply triple_bind; [apply reads_triple, get_field_reads|]. intros m _.
  eapply triple_bind with (Q := fun _ => True); [unfold add_chk; triple_step; auto with triple|].
  intros v _. apply set_field_triple.
Qed.

Lemma read_checked_triple a : 0 <= a < CSR_SIZE ->
  triple csr_wf (read_checked (E := E) a) (fun o => forall v, o = Some v -> u64 v).
Proof.
  intros Ha. unfold read_checked. eapply triple_bind; [apply reads_triple, read_legal_reads|]. intros b _.
  triple_step; [by apply triple_ret|]. intros s Hs.
  destruct (read_uncheck_run (E := E) s a Hs Ha) as (o & -> & Ho & _). done.
Qed.

Lemma write_checked_triple a d : 0 <= a < CSR_SIZE -> u64 d ->
  triple csr_wf (write_checked (E := E) a d) (fun _ => True).
Proof.
  intros Ha Hd. unfold write_checked. eapply triple_bind; [apply reads_triple, write_legal_reads|]. intros b _.
  triple_step; [by apply triple_ret|]. eapply triple_bind with (Q := fun _ => True); [|auto with triple].
  intros s Hs. destruct (write_uncheck_wf (E := E) s a d Hs Ha Hd) as (s' & -> & Hs' & _). done.
Qed.
End CsrOps.
#[export] Hint Resolve get_field_reads privelege_level_reads read_legal_reads write_legal_reads
  read_uncheck_reads read_checked_reads misa_c_reads data_policy_reads ifetch_policy_reads data_reads : reads.

(** ** The hart *)
Definition regs_ok (r : list Z) : Prop :=
  length r = REGFILE_CNT /\ Forall (fun v => u64 v) r /\ r !! 0%nat = Some 0.

(** Operands as the decoder produces them: register numbers below 32,
    immediates of 64 bits. *)
Definition reg_ok (r : Z) : Prop := 0 <= r < 32.
Definition info_wf (i : RVInstrInfo) : Prop :=
  match i with
  | INone => True
  | IR rs1 rs2 rd | IR_rm rs1 rs2 rd _ => reg_ok rs1 /\ reg_ok rs2 /\ reg_ok rd
  | IR4_rm rs1 rs2 rs3 rd _ => reg_ok rs1 /\ reg_ok rs2 /\ reg_ok rs3 /\ reg_ok rd
  | II rs1 rd imm => reg_ok rs1 /\ reg_ok rd /\ u64 imm
  | IS rs1 rs2 imm | IB rs1 rs2 imm => reg_ok rs1 /\ reg_ok rs2 /\ u64 imm
  | IU rd imm | IJ rd imm => reg_ok rd /\ u64 imm
  | IA rs1 rs2 rd _ _ | IV rs1 rs2 rd _ _ => reg_ok rs1 /\ reg_ok rs2 /\ reg_ok rd
  | ICR rd rs2 | ICA rd rs2 => reg_ok rd /\ reg_ok rs2
  | ICI rd imm | ICIW rd imm | ICB rd imm => reg_ok rd /\ u64 imm
  | ICSS rs2 imm => reg_ok rs2 /\ u64 imm
  | ICL rd rs1 imm => reg_ok rd /\ reg_ok rs1 /\ u64 imm
  | ICS rs1 rs2 imm => reg_ok rs1 /\ reg_ok rs2 /\ u64 imm
  | ICJ target => u64 target
  end.

(** The instruction cache holds decoded instructions. *)
Definition icache_ok (ic : Icache) : Prop := forall a d, get (policy ic) a = Some d -> info_wf (info d).
Definition tval_ok (o : option Z) : Prop := forall v, o = Some v -> u64 v.

(** What well-formed floating-point and vector units are. *)
Class ExtOk (X : Type) : Type := ext_ok : X -> Prop.

Record cpu_wf {D X} `{ExtOk X} (c : RVCPU D X) : Prop := {
  wf_regs : regs_ok (reg_file c);
  wf_pc : u64 (pc c);
  wf_csr : csr_wf (csr c);
  wf_mem : vm_ok (memory c);
  wf_icache : icache_ok (icache c);
  wf_tval : tval_ok (pending_tval c);
  wf_ext : ext_ok (ext c)
}.

#[export] Instance icache_lawful : LawfulCache (DirectCache DecodeInstr) DecodeInstr (H := icache_policy).
Proof. by apply DirectCache_lawful. Qed.

Lemma icache_ok_clear ic : icache_ok (Cache_clear ic).
Proof. intros a d. cbn [policy Cache_clear]. by rewrite (get_clear (LawfulCache := icache_lawful)). Qed.
Lemma icache_ok_new : icache_ok Cache_new.
Proof. intros a d. cbn [policy Cache_new]. by rewrite (get_new (LawfulCache := icache_lawful)). Qed.
Lemma icache_ok_put ic a d : icache_ok ic -> info_wf (info d) -> icache_ok (Cache_put ic a d).
Proof.
  intros Hi Hd b x. cbn [policy Cache_put]. intros [[_ ->]|[_ Hg]]%(get_put (LawfulCache := icache_lawful)); [done|by eapply Hi].
Qed.
Lemma tval_ok_None : tval_ok None.
Proof. intros v. discriminate. Qed.
Lemma tval_ok_Some a : u64 a -> tval_ok (Some a).
Proof. by intros Ha v [= <-]. Qed.
#[export] Hint Resolve icache_ok_clear tval_ok_None tval_ok_Some : here.

Section Hart.
Context {D X : Type} `{DeviceTrait D} `{Profile} `{ExtUnit D X} `{ExtOk X}.
Implicit Types c : RVCPU D X.

Abbreviation wp m Q := (triple (E := Exception) (cpu_wf (D := D) (X := X)) m Q).
Abbreviation keeps m := (wp m (fun _ => True)).

Lemma wp_on_csr {A} (m : M CsrRegFile Exception A) Q : triple csr_wf m Q -> wp (on_csr m) Q.
Proof. intros Hm. eapply triple_zoom; [exact Hm|by intros c []|by intros c s [] Hs]. Qed.

Lemma wp_on_memory {E A} (m : M (VirtAddrManager D) E A) Q :
  triple vm_ok m Q -> triple (cpu_wf (D := D) (X := X)) (on_memory m) Q.
Proof. intros Hm. eapply triple_zoom; [exact Hm|by intros c []|by intros c s [] Hs]. Qed.

Lemma regs_lookup c i v : cpu_wf c -> reg_file c !! i = Some v -> u64 v.
Proof. intros [(_ & Hf & _) _ _ _ _ _ _] Hi. by eapply Forall_lookup_1 in Hf. Qed.

Lemma wp_reg_at id : wp (reg_at id) (fun v => u64 v).
Proof.
  intros c Hc. unfold reg_at, bind, gets, unwrap. destruct (reg_file c !! Z.to_nat id) eqn:E; [|done].
  split; [done|]. by eapply regs_lookup.
Qed.

Lemma wp_reg_read a b : wp (reg_read a b) (fun v => u64 (fst v) /\ u64 (snd v)).
Proof.
  unfold reg_read. eapply triple_bind; [apply wp_reg_at|]. intros x Hx.
  eapply triple_bind; [apply wp_reg_at|]. intros y Hy. by apply triple_ret.
Qed.

Lemma wp_reg_write id v : 0 <= id -> u64 v -> keeps (reg_write id v).
Proof.
  intros Hid Hv c Hc. unfold reg_write. destruct (Z.eqb_spec id 0); [done|].
  unfold bind, gets. destruct (_ <=? id); [done|]. cbn. split; [|done].
  destruct Hc as [(Hl & Hf & Hz) ??????]. split; cbn; try done. split_and!.
  - by rewrite length_insert.
  - by apply Forall_insert.
  - rewrite list_lookup_insert_ne; [done|lia].
Qed.

Lemma wp_set_pc p : u64 p -> keeps (write_pc p).
Proof. intros Hp. apply triple_modify; [|done]. by intros c []. Qed.

Lemma wp_pc_add n : keeps (pc_add n).
Proof. apply triple_modify; [|done]. intros c []; split; cbn; try done. by apply wrap_range. Qed.

Lemma wp_retire : keeps retire.
Proof. apply wp_on_csr, minstret_triple. Qed.

Lemma wp_gets_pc : wp (gets pc) (fun p => u64 p).
Proof. apply triple_gets. by intros c []. Qed.

Lemma wp_privilege : keeps get_current_privilege.
Proof. apply wp_on_csr, reads_triple, privelege_level_reads. Qed.

Lemma wp_flush_icache : keeps flush_icache.
Proof. apply triple_modify; [|done]. intros c []; split; try done. apply icache_ok_clear. Qed.

Lemma wp_flush_tlb : keeps (on_memory vm_flush_tlb).
Proof. apply wp_on_memory. by apply triple_modify. Qed.

Lemma wp_pending v : tval_ok v -> keeps (modify (set_pending_tval v)).
Proof. intros Hv. apply triple_modify; [|done]. by intros c []. Qed.

Lemma wp_finish {A} addr (m : M (RVCPU D X) MemError A) Q : u64 addr ->
  triple (cpu_wf (D := D) (X := X)) m Q -> wp (finish_memory_access addr m) Q.
Proof.
  intros Ha Hm c Hc. specialize (Hm c Hc). unfold finish_memory_access.
  destruct (m c) as [[a|e|] c']; [done| |done]. destruct Hm; split; try done. by apply tval_ok_Some.
Qed.

Lemma wp_data_policy a : keeps (data_policy a).
Proof. apply wp_on_csr, reads_triple, data_policy_reads. Qed.

Lemma wp_mem_read t addr : u64 addr -> wp (mem_read t addr) (uint (BITS t)).
Proof.
  intros Ha. eapply triple_bind; [apply wp_data_policy|]. intros p _. apply wp_finish; [done|]. apply wp_on_memory, read_policy_triple.
Qed.

Lemma wp_mem_write t addr v : u64 addr -> keeps (mem_write t addr v).
Proof.
  intros Ha. eapply triple_bind; [apply wp_data_policy|]. intros p _. apply wp_finish; [done|]. apply wp_on_memory, write_policy_triple.
Qed.

Lemma wp_lr t addr : u64 addr -> wp (cpu_load_reserved t addr) (uint (BITS t)).
Proof.
  intros Ha. eapply triple_bind; [apply wp_data_policy|]. intros p _. apply wp_finish; [done|]. apply wp_on_memory, lr_policy_triple.
Qed.

Lemma wp_sc t addr v : u64 addr -> keeps (cpu_store_conditional t addr v).
Proof.
  intros Ha. eapply triple_bind; [apply wp_data_policy|]. intros p _. apply wp_finish; [done|]. apply wp_on_memory, sc_policy_triple.
Qed.

Lemma wp_amo t addr rhs f : u64 addr ->
  (forall v x, uint (BITS t) v -> f v rhs = Ok x -> uint (BITS t) (fst x)) ->
  wp (fetch_and_op_amo t addr rhs f) (uint (BITS t)).
Proof.
  intros Ha Hf. eapply triple_bind; [apply wp_data_policy|]. intros p _ c Hc.
  pose proof (wp_on_memory _ _ (amo_policy_triple t addr rhs p f Hf) c Hc) as Hm.
  destruct (on_memory _ c) as [[a|e|] c']; [done| |done]. destruct Hm; split; try done. by apply tval_ok_Some.
Qed.

Lemma wp_read_csr a : 0 <= a < CSR_SIZE -> wp (read_csr a) (fun v => u64 v).
Proof.
  intros Ha. unfold read_csr. triple_step.
  - eapply triple_bind; [by apply (triple_gets _ _ (fun _ => True))|]. intros t _. destruct t; [|apply triple_err].
    intros c Hc. pose proof (wp_on_memory _ _ (on_mmio_triple _ _ (read_by_type_triple U64 z)) c Hc) as Hm.
    unfold read_by_paddr. destruct (on_memory _ c) as [[v|e|] c']; done.
  - eapply triple_bind; [by apply wp_on_csr, read_checked_triple|]. intros o Ho.
    destruct o; [apply triple_ret; by apply Ho|apply triple_err].
Qed.

Lemma wp_write_csr a d : 0 <= a < CSR_SIZE -> u64 d -> keeps (write_csr a d).
Proof.
  intros Ha Hd. unfold write_csr. eapply triple_bind; [by apply wp_on_csr, write_checked_triple|]. intros ok _.
  triple_step; [apply triple_err|]. triple_step; [|by apply triple_ret].
  eapply triple_bind; [apply wp_on_csr, reads_triple, get_field_reads|]. intros mode _.
  eapply triple_bind with (Q := fun _ => True).
  { apply wp_on_memory. eapply triple_zoom with (J := fun _ => True); [|done|done].
    unfold set_mode. eapply triple_bind; [by apply (triple_unwrap _ _ (fun _ => True))|]. intros. by apply triple_modify. }
  intros _ _. eapply triple_bind; [apply wp_on_csr, reads_triple, get_field_reads|]. intros ppn _.
  eapply triple_bind with (Q := fun _ => True); [by apply wp_on_memory, triple_modify|]. intros _ _.
  eapply triple_bind; [apply wp_flush_tlb|]. intros _ _. apply wp_flush_icache.
Qed.

Lemma wp_mret : keeps mret.
Proof.
  intros c Hc. destruct Hc as [Hr Hp Hs Hm Hi Ht].
  destruct (mpp_level (val (csr c) Mstatus)) as [l Hl].
  rewrite (mret_run c Hs l Hl). destruct (mret_returned _ l Hs Hl) as [Hw _].
  split; [|done]. split; cbn; try done. by apply val_u64.
Qed.

Lemma wp_sret : keeps sret.
Proof.
  intros c Hc. destruct Hc as [Hr Hp Hs Hm Hi Ht].
  destruct (spp_level (val (csr c) Mstatus)) as [l Hl].
  rewrite (sret_run c Hs l Hl). destruct (sret_returned _ l Hs Hl) as [Hw _].
  split; [|done]. split; cbn; try done. by apply val_u64.
Qed.

(** Step over the calls above; what remains are the instruction's own
    obligations. *)
Ltac wp_call :=
  match goal with
  | |- triple _ (reg_read _ _) _ => apply wp_reg_read
  | |- triple _ (reg_at _) _ => apply wp_reg_at
  | |- triple _ (reg_write _ _) _ => apply wp_reg_write
  | |- triple _ (pc_add _) _ => apply wp_pc_add
  | |- triple _ retire _ => apply wp_retire
  | |- triple _ (gets pc) _ => apply wp_gets_pc
  | |- triple _ get_current_privilege _ => apply wp_privilege
  | |- triple _ flush_icache _ => apply wp_flush_icache
  | |- triple _ (on_memory vm_flush_tlb) _ => apply wp_flush_tlb
  | |- triple _ (write_pc _) _ => apply wp_set_pc
  | |- triple _ (modify (set_pending_tval _)) _ => apply wp_pending
  | |- triple _ (mem_read _ _) _ => apply wp_mem_read
  | |- triple _ (mem_write _ _ _) _ => apply wp_mem_write
  | |- triple _ mret _ => apply wp_mret
  | |- triple _ sret _ => apply wp_sret
  | |- triple _ (on_csr _) _ => apply wp_on_csr, reads_triple; solve [eauto with reads]
  end.
Ltac wp_step :=
  match goal with
  | |- triple _ (bind _ _) _ => eapply triple_bind; [|intros ? ?]; cbv beta zeta in *
  | |- triple _ (ret _) _ => apply triple_ret
  | |- triple _ (lift_res _) _ => apply triple_lift_res
  | |- _ => wp_call
  | |- _ => triple_step
  end.
Ltac wp_info := match goal with
  | H : info_wf ?i |- _ => destruct i; cbn [info_wf] in H; try apply triple_panic
  end; unfold reg_ok in *; destruct_and?.

(** Computed addresses. *)
Ltac solve_addr := first [done | rewrite wrapping_add_as_signed_spec; by apply wrap_range | by apply wrap_range | apply uint_land; [lia|]; by apply wrap_range].

Lemma wp_check_jump target : u64 target -> keeps (check_jump_alignment target).
Proof. intros Ht. unfold check_jump_alignment. repeat wp_step; try done. by apply tval_ok_Some. Qed.

Lemma wp_normal (f : M (RVCPU D X) Exception unit) n : keeps f -> keeps (f ;;; pc_add n ;;; retire).
Proof. intros Hf. eapply triple_bind; [exact Hf|]. intros _ _. by repeat wp_step. Qed.

Lemma alu_result t F a b r : alu_ok t F -> uint (BITS t) a -> uint (BITS t) b -> F a b = Ok r -> uint (BITS t) r.
Proof. intros HF Ha Hb E. destruct (HF a b Ha Hb) as (r' & E' & Hr). rewrite E in E'. by simplify_eq. Qed.

Lemma wp_lift_alu F a b rd : alu_ok U64 F -> u64 a -> u64 b -> 0 <= rd ->
  wp (rst <- lift_res (F a b) ;; ret (rd, rst)) (fun p => 0 <= fst p /\ u64 (snd p)).
Proof.
  intros HF Ha Hb Hrd. eapply triple_bind; [apply (triple_lift_res _ _ (fun r => u64 r))|].
  - intros r E. exact (alu_result U64 F a b r HF Ha Hb E).
  - intros r Hr. by apply triple_ret.
Qed.

Lemma keeps_arith F info : alu_ok U64 F -> info_wf info -> keeps (exec_arith F info).
Proof.
  intros HF Hi. apply wp_normal. eapply triple_bind with (Q := fun p => 0 <= fst p /\ u64 (snd p)).
  - wp_info; (eapply triple_bind; [apply wp_reg_read|]; intros v [Hv1 Hv2]); by apply wp_lift_alu.
  - intros p [Hp1 Hp2]. by apply wp_reg_write.
Qed.

Lemma keeps_compress_arith F info : alu_ok U64 F -> info_wf info -> keeps (exec_compress_arith F info).
Proof.
  intros HF Hi. apply wp_normal. eapply triple_bind with (Q := fun p => 0 <= fst p /\ u64 (snd p)).
  - wp_info; (eapply triple_bind; [apply wp_reg_read|]; intros v [Hv1 Hv2]); by apply wp_lift_alu.
  - intros p [Hp1 Hp2]. by apply wp_reg_write.
Qed.

Lemma keeps_branch F info : info_wf info -> keeps (exec_branch F info).
Proof.
  intros Hi. unfold exec_branch. wp_info. eapply triple_bind; [apply wp_reg_read|]. intros v _.
  eapply triple_bind with (Q := fun _ => True); [|intros; apply wp_retire]. triple_step; [|apply wp_pc_add].
  eapply triple_bind; [apply wp_gets_pc|]. intros p Hp. cbv zeta. eapply triple_bind; [apply wp_check_jump; solve_addr|].
  intros _ _. apply wp_set_pc. by apply wrap_range.
Qed.

Lemma wp_handle_load t extend rd addr : 0 <= rd -> u64 addr -> keeps (handle_load t extend rd addr).
Proof.
  intros Hrd Ha. unfold handle_load. eapply triple_bind; [by apply wp_mem_read|]. intros v Hv. cbv zeta.
  apply wp_reg_write; [done|]. destruct extend; [apply sign_extend_range; by destruct t|].
  eapply uint_weaken; [|exact Hv]. by destruct t.
Qed.

Lemma keeps_load t extend info : info_wf info -> keeps (exec_load t extend info).
Proof.
  intros Hi. apply wp_normal. wp_info. eapply triple_bind; [apply wp_reg_read|]. intros v _. apply wp_handle_load; [done|solve_addr].
Qed.

Lemma keeps_store t info : info_wf info -> keeps (exec_store t info).
Proof. intros Hi. apply wp_normal. wp_info. repeat wp_step; solve_addr. Qed.

Lemma csr_imm imm : u64 imm -> 0 <= truncate_to_bits imm 12 < CSR_SIZE.
Proof. intros Hi. rewrite truncate_to_bits_spec by (done || lia). by apply (wrap_range 12). Qed.

Lemma wp_csr_operand (uimm : bool) rs1 : reg_ok rs1 ->
  wp (if uimm then ret rs1 else v <- reg_read rs1 rs1 ;; ret (fst v)) (fun v => u64 v).
Proof.
  intros Hr. destruct uimm; [apply triple_ret; unfold reg_ok, uint in *; lia|].
  eapply triple_bind; [apply wp_reg_read|]. intros v [Hv _]. by apply triple_ret.
Qed.

Lemma wp_csr_end imm : keeps ((if negb (imm =? Minstret) then retire else ret tt) ;;; pc_add 4).
Proof. repeat wp_step; done. Qed.

Lemma keeps_csrw uimm info : info_wf info -> keeps (exec_csrw uimm info).
Proof.
  intros Hi. unfold exec_csrw. destruct info; cbn [info_wf] in Hi; try apply wp_pc_add.
  destruct Hi as (Hr1 & Hrd & Himm). pose proof (csr_imm imm Himm) as Ha. cbv zeta.
  eapply triple_bind; [by wp_call|]. intros ok _. triple_step; [apply triple_err|].
  eapply triple_bind; [by apply wp_csr_operand|]. intros v Hv.
  eapply triple_bind with (Q := fun _ => True).
  { triple_step; [|by apply triple_ret]. eapply triple_bind; [by apply wp_read_csr|].
    intros x Hx. apply wp_reg_write; [apply Hrd|done]. }
  intros _ _. eapply triple_bind; [by apply wp_write_csr|]. intros _ _. apply wp_csr_end.
Qed.

Lemma keeps_csr_bit set uimm info : info_wf info -> keeps (exec_csr_bit set uimm info).
Proof.
  intros Hi. unfold exec_csr_bit. destruct info; cbn [info_wf] in Hi; try apply triple_panic.
  destruct Hi as (Hr1 & Hrd & Himm). pose proof (csr_imm imm Himm) as Ha. cbv zeta.
  eapply triple_bind; [by apply wp_csr_operand|]. intros v Hv. triple_step.
  - eapply triple_bind; [by apply wp_read_csr|]. intros x Hx.
    eapply triple_bind; [apply wp_reg_write; [apply Hrd|done]|]. intros _ _. apply wp_pc_add.
  - eapply triple_bind; [by wp_call|]. intros ok _. triple_step; [apply triple_err|].
    eapply triple_bind; [by apply wp_read_csr|]. intros x Hx.
    eapply triple_bind; [apply wp_reg_write; [apply Hrd|done]|]. intros _ _.
    eapply triple_bind; [apply wp_write_csr; [done|]|intros _ _; apply wp_csr_end].
    destruct set; [apply uint_lor|apply uint_land]; done || lia.
Qed.

(** The atomic operations return the old value of the cell. *)
Definition amo_old (F : AMOTrait) : Prop := forall t o v rhs x, F t o v rhs = Ok x -> fst x = v.

Lemma keeps_amo F t info : amo_old F -> BITS t = 32 \/ BITS t = 64 -> info_wf info ->
  keeps (exec_atomic_memory_operation F t info).
Proof.
  intros HF Ht Hi. unfold exec_atomic_memory_operation. wp_info.
  eapply triple_bind; [apply wp_reg_read|]. intros v [Ha _]. cbv zeta.
  eapply triple_bind; [apply wp_amo; [done|]; intros ? x ? E; by rewrite (HF _ _ _ _ _ E)|]. intros x Hx.
  eapply triple_bind; [apply wp_reg_write; [done|]|intros _ _; by repeat wp_step].
  destruct t; [by destruct Ht..| |done]. by apply sign_extend_range.
Qed.

Lemma keeps_lr t extend info : BITS t = 32 \/ BITS t = 64 -> info_wf info -> keeps (exec_lr t extend info).
Proof.
  intros Ht Hi. unfold exec_lr. wp_info. eapply triple_bind; [apply wp_reg_at|]. intros a Ha.
  eapply triple_bind; [by apply wp_lr|]. intros x Hx.
  eapply triple_bind; [apply wp_reg_write; [done|]|intros _ _; by repeat wp_step].
  assert (u64 x) by (eapply uint_weaken; [|exact Hx]; by destruct t).
  destruct extend, t; cbn in *; try done. by apply sign_extend_range.
Qed.

Lemma keeps_sc t info : info_wf info -> keeps (exec_sc t info).
Proof.
  intros Hi. unfold exec_sc. wp_info. eapply triple_bind; [apply wp_reg_read|]. intros v [Ha _].
  eapply triple_bind; [by apply wp_sc|]. intros b _.
  eapply triple_bind; [apply wp_reg_write; [done|by destruct b]|intros _ _; by repeat wp_step].
Qed.

Lemma keeps_compress_branch F info : info_wf info -> keeps (exec_compress_branch F info).
Proof. intros Hi. unfold exec_compress_branch. wp_info. by repeat wp_step. Qed.

Lemma keeps_compress_jump link info : info_wf info -> keeps (exec_compress_jump link info).
Proof.
  intros Hi. unfold exec_compress_jump. wp_info. eapply triple_bind; [apply wp_gets_pc|]. intros p _. cbv zeta.
  eapply triple_bind with (Q := fun _ => True).
  { triple_step; [apply wp_reg_write; [lia|by apply wrap_range]|by apply triple_ret]. }
  intros _ _. eapply triple_bind; [apply wp_set_pc; by apply wrap_range|]. intros _ _. apply wp_retire.
Qed.

Lemma wp_add_chk a b : wp (add_chk 64 a b) (fun v => u64 v).
Proof. unfold add_chk. triple_step; [apply triple_panic|apply triple_ret; by apply wrap_range]. Qed.

Lemma keeps_compress_jump_reg link info : info_wf info -> keeps (exec_compress_jump_reg link info).
Proof.
  intros Hi. unfold exec_compress_jump_reg. wp_info. eapply triple_bind; [apply wp_gets_pc|]. intros p _.
  eapply triple_bind; [apply wp_add_chk|]. intros t Ht.
  eapply triple_bind; [apply wp_reg_read|]. intros v [Hv _].
  eapply triple_bind; [apply wp_set_pc; apply uint_land; done || lia|]. intros _ _.
  eapply triple_bind with (Q := fun _ => True); [|intros; apply wp_retire].
  triple_step; [by apply wp_reg_write|by apply triple_ret].
Qed.

Lemma keeps_compress_load_sp t extend info : info_wf info -> keeps (exec_compress_load_sp t extend info).
Proof.
  intros Hi. apply wp_normal. wp_info. eapply triple_bind; [apply wp_reg_read|]. intros v _. apply wp_handle_load; [done|solve_addr].
Qed.

Lemma keeps_compress_load t extend info : info_wf info -> keeps (exec_compress_load t extend info).
Proof.
  intros Hi. apply wp_normal. wp_info. eapply triple_bind; [apply wp_reg_read|]. intros v _. apply wp_handle_load; [done|solve_addr].
Qed.

Lemma keeps_compress_store_sp t info : info_wf info -> keeps (exec_compress_store_sp t info).
Proof. intros Hi. apply wp_normal. wp_info. unfold handle_store. repeat wp_step; solve_addr. Qed.

Lemma keeps_compress_store t info : info_wf info -> keeps (exec_compress_store t info).
Proof. intros Hi. apply wp_normal. wp_info. unfold handle_store. repeat wp_step; solve_addr. Qed.

Lemma keeps_compress_mv info : info_wf info -> keeps (exec_compress_mv info).
Proof.
  intros Hi. unfold exec_compress_mv. wp_info. apply wp_normal. eapply triple_bind; [apply wp_reg_read|].
  intros v [Hv _]. by apply wp_reg_write.
Qed.

Lemma keeps_compress_li info : info_wf info -> keeps (exec_compress_li info).
Proof. intros Hi. unfold exec_compress_li. wp_info. apply wp_normal. by apply wp_reg_write. Qed.

Lemma keeps_addi4spn info : info_wf info -> keeps (exec_addi4spn info).
Proof.
  intros Hi. unfold exec_addi4spn. wp_info. apply wp_normal. eapply triple_bind; [apply wp_reg_read|].
  intros v [Hv _]. eapply triple_bind; [apply (triple_lift_res _ _ (fun r => u64 r))|].
  - intros r [= <-]. by apply wrap_range.
  - intros r Hr. by apply wp_reg_write.
Qed.

Lemma keeps_jal info : info_wf info -> keeps (exec_jal info).
Proof.
  intros Hi. unfold exec_jal. wp_info. eapply triple_bind; [apply wp_gets_pc|]. intros p _. cbv zeta.
  eapply triple_bind; [apply wp_check_jump; solve_addr|]. intros _ _.
  eapply triple_bind; [apply wp_reg_write; [done|by apply wrap_range]|]. intros _ _.
  eapply triple_bind; [apply wp_set_pc; by apply wrap_range|]. intros _ _. apply wp_retire.
Qed.

Lemma keeps_jalr info : info_wf info -> keeps (exec_jalr info).
Proof.
  intros Hi. unfold exec_jalr. wp_info. eapply triple_bind; [apply wp_gets_pc|]. intros p _.
  eapply triple_bind; [apply wp_add_chk|]. intros t Ht.
  eapply triple_bind; [apply wp_reg_read|]. intros v _. cbv zeta.
  eapply triple_bind; [apply wp_check_jump; solve_addr|]. intros _ _.
  eapply triple_bind; [apply wp_set_pc; apply uint_land; [lia|by apply wrap_range]|]. intros _ _.
  eapply triple_bind; [by apply wp_reg_write|]. intros _ _. apply wp_retire.
Qed.

Lemma keeps_auipc info : info_wf info -> keeps (exec_auipc info).
Proof.
  intros Hi. unfold exec_auipc. wp_info. eapply triple_bind; [apply wp_gets_pc|]. intros p _.
  apply wp_normal, wp_reg_write; [done|by apply wrap_range].
Qed.

Lemma keeps_lui info : info_wf info -> keeps (exec_lui info).
Proof. intros Hi. unfold exec_lui. wp_info. by apply wp_normal, wp_reg_write. Qed.

Lemma keeps_supervisor_check f : keeps (supervisor_check f).
Proof.
  unfold supervisor_check. eapply triple_bind; [apply wp_privilege|]. intros l _.
  triple_step; [apply triple_err|]. eapply triple_bind with (Q := fun _ => True).
  { repeat wp_step; done. }
  intros b _. triple_step; [apply triple_err|by apply triple_ret].
Qed.

Lemma keeps_system info :
  keeps (exec_ecall info) /\ keeps (exec_fence_i info) /\ keeps (exec_mret info) /\
  keeps (exec_sret info) /\ keeps (exec_sfence_vma info) /\ keeps (exec_nop info) /\ keeps (exec_compress_nop info).
Proof.
  split_and!.
  - unfold exec_ecall. eapply triple_bind; [apply wp_privilege|]. intros l _. destruct l; auto with triple.
  - unfold exec_fence_i, cpu_flush_tlb. by repeat wp_step.
  - unfold exec_mret. by repeat wp_step.
  - unfold exec_sret. eapply triple_bind; [apply keeps_supervisor_check|]. intros _ _. by repeat wp_step.
  - unfold exec_sfence_vma. eapply triple_bind; [apply keeps_supervisor_check|]. intros _ _. by repeat wp_step.
  - apply wp_normal. by apply triple_ret.
  - apply wp_normal. by apply triple_ret.
Qed.
End Hart.

(** What the floating-point and vector units promise to the hart: they keep its
    invariant and their own, and an instruction that raises an exception has not
    moved the program counter. *)
Class LawfulExt (D X : Type) `{ExtUnit D X} `{ExtOk X} : Prop := {
  ext_keeps : forall id info, info_wf info -> triple (cpu_wf (D := D) (X := X)) (exec_ext id info) (fun _ => True);
  ext_err_pc : forall id info (c c' : RVCPU D X) e, info_wf info -> exec_ext id info c = (Err e, c') -> pc c' = pc c
}.

Section Dispatch.
Context {D X : Type} `{DeviceTrait D} `{Profile} `{LawfulExt D X}.

Lemma amo_ops_old :
  amo_old ExecAmoAdd /\ amo_old ExecAmoAnd /\ amo_old ExecAmoOr /\ amo_old ExecAmoXor /\ amo_old ExecAmoSwap /\
  amo_old ExecAmoMax /\ amo_old ExecAmoMin /\ amo_old ExecAmoMaxU /\ amo_old ExecAmoMinU.
Proof. split_and!; by intros t o v rhs x [= <-]. Qed.

Lemma get_exec_func_keeps i info : info_wf info ->
  triple (cpu_wf (D := D) (X := X)) (get_exec_func i info) (fun _ => True).
Proof.
  intros Hi. destruct amo_ops_old as (?&?&?&?&?&?&?&?&?).
  destruct (keeps_system (D := D) (X := X) info) as (?&?&?&?&?&?&?).
  destruct i; cbn;
    match goal with
    | |- triple _ (exec_arith _ _) _ => apply keeps_arith; [auto with alu|done]
    | |- triple _ (exec_compress_arith _ _) _ => apply keeps_compress_arith; [auto with alu|done]
    | |- triple _ (exec_branch _ _) _ => by apply keeps_branch
    | |- triple _ (exec_load _ _ _) _ => by apply keeps_load
    | |- triple _ (exec_store _ _) _ => by apply keeps_store
    | |- triple _ (exec_csrw _ _) _ => by apply keeps_csrw
    | |- triple _ (exec_csr_bit _ _ _) _ => by apply keeps_csr_bit
    | |- triple _ (exec_atomic_memory_operation _ _ _) _ => apply keeps_amo; [done|auto|done]
    | |- triple _ (exec_lr _ _ _) _ => apply keeps_lr; [auto|done]
    | |- triple _ (exec_sc _ _) _ => by apply keeps_sc
    | |- triple _ (exec_jal _) _ => by apply keeps_jal
    | |- triple _ (exec_jalr _) _ => by apply keeps_jalr
    | |- triple _ (exec_auipc _) _ => by apply keeps_auipc
    | |- triple _ (exec_lui _) _ => by apply keeps_lui
    | |- triple _ (exec_compress_branch _ _) _ => by apply keeps_compress_branch
    | |- triple _ (exec_compress_jump _ _) _ => by apply keeps_compress_jump
    | |- triple _ (exec_compress_jump_reg _ _) _ => by apply keeps_compress_jump_reg
    | |- triple _ (exec_compress_load _ _ _) _ => by apply keeps_compress_load
    | |- triple _ (exec_compress_load_sp _ _ _) _ => by apply keeps_compress_load_sp
    | |- triple _ (exec_compress_store _ _) _ => by apply keeps_compress_store
    | |- triple _ (exec_compress_store_sp _ _) _ => by apply keeps_compress_store_sp
    | |- triple _ (exec_compress_mv _) _ => by apply keeps_compress_mv
    | |- triple _ (exec_compress_li _) _ => by apply keeps_compress_li
    | |- triple _ (exec_addi4spn _) _ => by apply keeps_addi4spn
    | |- triple _ (exec_ext _ _) _ => by apply ext_keeps
    | |- triple _ (exec_ebreak _) _ => apply triple_err
    | |- triple _ (exec_illegal _) _ => apply triple_err
    | H : triple _ ?x _ |- triple _ ?x _ => exact H
    end.
Qed.
End Dispatch.

(** ** A hart without floating-point and vector units *)
#[export] Instance no_ext : ExtUnit Z unit := {| exec_ext := fun _ _ => err IllegalInstruction |}.
#[export] Instance unit_ok : ExtOk unit := fun _ => True.
#[export] Instance no_ext_lawful : LawfulExt Z unit.
Proof.
  split.
  - intros id info _. apply triple_err.
  - by intros id info c c' e _ [= <- <-].
Qed.

Lemma write_snd_wf t a v r : ram_wf r -> ram_wf (snd (write t a v r)).
Proof. intros Hr. destruct (write t a v r) as [x r'] eqn:E. by eapply write_wf. Qed.

Lemma write_snd_ptr t a v r : data_ptr (snd (write t a v r)) = data_ptr r.
Proof. destruct (write t a v r) as [x r'] eqn:E. by eapply write_ptr. Qed.

Lemma demo_ram_wf : ram_wf demo_ram /\ data_ptr demo_ram = 4096.
Proof.
  split; [|unfold demo_ram; by rewrite !write_snd_ptr].
  unfold demo_ram. do 3 apply write_snd_wf. split; [|by apply map_Forall_empty]. vm_compute. split; [discriminate|reflexivity].
Qed.

Lemma demo_cpu_wf regs p s : regs_ok regs -> u64 p -> csr_wf s -> cpu_wf (demo_cpu regs p s).
Proof.
  intros Hr Hp Hs. split; try done; [apply set_reserved_wf, demo_ram_wf|apply icache_ok_new].
Qed.

(** Registers with [x1], [x2] and [x3] set. *)
Definition demo_regs (a b c : Z) : list Z := 0 :: a :: b :: c :: replicate 28 0.
Lemma demo_regs_ok a b c : u64 a -> u64 b -> u64 c -> regs_ok (demo_regs a b c).
Proof.
  intros Ha Hb Hc. split; [done|]. split; [|done]. unfold demo_regs.
  do 4 (constructor; [first [assumption|by apply uint_0]|]). apply Forall_replicate. by apply uint_0.
Qed.

Ltac solve_demo_cpu :=
  apply demo_cpu_wf; [apply demo_regs_ok; solve_u64|solve_u64|solve_demo_wf].
