(* ===== verification/Precise.v ===== *)
(** * Precise exceptions

    An instruction that raises an exception has changed no register, no CSR,
    not the program counter and nothing of the floating-point and vector units;
    memory may differ by the accessed and dirty bits of page-table entries, by
    the TLB and by the reservation. *)

From S2P Require Import Prelude Utils TrapTypes Alu Ram Cache CsrTable Csr PageTable Mmio Vm Instr Cpu Trap Exec Invariant.

Create HintDb silent.

Section Precise.
Context {D X : Type} `{DeviceTrait D} `{Profile} `{ExtUnit D X}.

Abbreviation CPU := (RVCPU D X).
Abbreviation CpuM := (M CPU Exception).
Implicit Types c : CPU.

(** An exception leaves the architectural state alone. *)
Definition precise {A} (m : CpuM A) : Prop := forall c e c', m c = (Err e, c') -> same_arch c c'.
(** Nothing of the architectural state changes, exception or not. *)
Definition silent {A} (m : CpuM A) : Prop := forall c r c', m c = (r, c') -> r <> Panic -> same_arch c c'.

Lemma silent_precise {A} (m : CpuM A) : silent m -> precise m.
Proof. intros Hm c e c' E. by eapply Hm. Qed.

Lemma no_err_precise {A} (m : CpuM A) : no_err m -> precise m.
Proof. intros Hm c e c' E. by destruct (Hm c e c'). Qed.

Lemma precise_silent_bind {A B} (m : CpuM A) (k : A -> CpuM B) :
  silent m -> (forall a, precise (k a)) -> precise (bind m k).
Proof.
  intros Hm Hk c e c' E. unfold bind in E. destruct (m c) as [[a|e1|] c1] eqn:Em; [| |discriminate].
  - eapply same_arch_trans; [by eapply Hm|by eapply Hk].
  - injection E as <- <-. by eapply Hm.
Qed.

Lemma precise_bind {A B} (m : CpuM A) (k : A -> CpuM B) :
  precise m -> (forall a, no_err (k a)) -> precise (bind m k).
Proof.
  intros Hm Hk c e c' E. unfold bind in E. destruct (m c) as [[a|e1|] c1] eqn:Em; [| |discriminate].
  - by destruct (Hk a c1 e c').
  - injection E as <- <-. by eapply Hm.
Qed.

Lemma silent_bind {A B} (m : CpuM A) (k : A -> CpuM B) :
  silent m -> (forall a, silent (k a)) -> silent (bind m k).
Proof.
  intros Hm Hk c r c' E Hr. unfold bind in E. destruct (m c) as [[a|e1|] c1] eqn:Em.
  - eapply same_arch_trans; [by eapply Hm|by eapply Hk].
  - injection E as <- <-. by eapply Hm.
  - injection E as <- <-. done.
Qed.

Lemma reads_silent {A} (m : CpuM A) : reads m -> silent m.
Proof. intros Hm c r c' E Hr. specialize (Hm c). rewrite E in Hm. cbn in Hm. subst. apply same_arch_refl. Qed.

Lemma on_csr_reads {A} (m : M CsrRegFile Exception A) : reads m -> reads (on_csr (D := D) (X := X) m).
Proof.
  intros Hm c. unfold on_csr, zoom. specialize (Hm (csr c)). destruct (m (csr c)) as [r s]. cbn in *. subst. by destruct c.
Qed.

(** *** The calls *)
Lemma silent_ret {A} (a : A) : silent (ret a).
Proof. apply reads_silent, reads_ret. Qed.
Lemma silent_err {A} e : silent (A := A) (err e).
Proof. apply reads_silent, reads_err. Qed.
Lemma silent_panic {A} : silent (A := A) panic.
Proof. apply reads_silent, reads_panic. Qed.
Lemma silent_reg_at id : silent (reg_at id).
Proof. apply reads_silent. unfold reg_at. solve_reads. Qed.
Lemma silent_reg_read a b : silent (reg_read a b).
Proof. unfold reg_read. repeat (apply silent_bind; [apply silent_reg_at|intros]). apply silent_ret. Qed.
Lemma silent_gets_pc : silent (gets pc).
Proof. apply reads_silent, reads_gets. Qed.
Lemma silent_lift_res {A} (r : Res Exception A) : silent (lift_res r).
Proof. by apply reads_silent. Qed.
Lemma silent_add_chk a b : silent (add_chk 64 a b).
Proof. unfold add_chk. destruct (_ && _); [apply silent_panic|apply silent_ret]. Qed.
Lemma silent_on_csr {A} (m : M CsrRegFile Exception A) : reads m -> silent (on_csr m).
Proof. intros. by apply reads_silent, on_csr_reads. Qed.
Lemma silent_pending v : silent (modify (set_pending_tval v)).
Proof. intros c r c' [= <- <-] _. by split_and!. Qed.
Lemma silent_data_policy a : silent (data_policy a).
Proof. apply silent_on_csr, data_policy_reads. Qed.

Lemma silent_finish {A} addr (m : M (VirtAddrManager D) MemError A) :
  silent (finish_memory_access addr (on_memory m)).
Proof.
  intros c r c' E _. eapply finish_same; [|exact E]. intros r1 c1 E1. by apply on_memory_same in E1 as [? _].
Qed.

Lemma silent_mem_read t a : silent (mem_read t a).
Proof. apply silent_bind; [apply silent_data_policy|intros; apply silent_finish]. Qed.
Lemma silent_mem_write t a v : silent (mem_write t a v).
Proof. apply silent_bind; [apply silent_data_policy|intros; apply silent_finish]. Qed.
Lemma silent_lr t a : silent (cpu_load_reserved t a).
Proof. apply silent_bind; [apply silent_data_policy|intros; apply silent_finish]. Qed.
Lemma silent_sc t a v : silent (cpu_store_conditional t a v).
Proof. apply silent_bind; [apply silent_data_policy|intros; apply silent_finish]. Qed.

Lemma silent_amo t a v f : silent (fetch_and_op_amo t a v f).
Proof.
  apply silent_bind; [apply silent_data_policy|]. intros p c r c' E _.
  destruct (on_memory _ c) as [[x|e|] c1] eqn:Em; injection E as <- <-;
    apply on_memory_same in Em as [(?&?&?&?) _]; by split_and!.
Qed.

Lemma silent_read_csr a : silent (read_csr a).
Proof.
  unfold read_csr. destruct (a =? 0xc01).
  - apply silent_bind; [apply reads_silent, reads_gets|]. intros [t|]; [|apply silent_err].
    intros c r c' E _. destruct (on_memory _ c) as [[x|e|] c1] eqn:Em; injection E as <- <-;
      by apply on_memory_same in Em as [? _].
  - apply silent_bind; [apply silent_on_csr, read_checked_reads|]. intros [v|]; [apply silent_ret|apply silent_err].
Qed.

Lemma silent_check_jump t : silent (check_jump_alignment t).
Proof.
  unfold check_jump_alignment. apply silent_bind; [apply silent_on_csr, misa_c_reads|]. intros b.
  destruct (_ && _); [|apply silent_ret]. apply silent_bind; [apply silent_pending|intros; apply silent_err].
Qed.

Lemma silent_supervisor_check f : silent (supervisor_check f).
Proof.
  unfold supervisor_check, get_current_privilege. apply silent_bind; [apply silent_on_csr, privelege_level_reads|].
  intros l. destruct (priv_lt l LvS); [apply silent_err|]. apply silent_bind.
  - destruct (bool_decide _); [|apply silent_ret]. apply silent_bind; [apply silent_on_csr, get_field_reads|].
    intros; apply silent_ret.
  - intros [|]; [apply silent_err|apply silent_ret].
Qed.

(** *** Calls that raise no exception *)
Lemma no_err_pc_add n : no_err (pc_add (D := D) (X := X) n).
Proof. apply no_err_modify. Qed.
Lemma no_err_write_pc p : no_err (write_pc (D := D) (X := X) p).
Proof. apply no_err_modify. Qed.
Lemma no_err_reg_write id v : no_err (reg_write (D := D) (X := X) id v).
Proof. unfold reg_write. solve_no_err. Qed.
Lemma no_err_flush_icache : no_err (flush_icache (D := D) (X := X)).
Proof. apply no_err_modify. Qed.

Lemma no_err_slot a : no_err (slot (E := Exception) a).
Proof. unfold slot. solve_no_err. Qed.
Hint Resolve no_err_slot no_err_pc_add no_err_write_pc no_err_reg_write no_err_flush_icache : noerr.
Lemma no_err_existing a : no_err (existing_value (E := Exception) a).
Proof. unfold existing_value. solve_no_err. Qed.
Lemma no_err_by_type a : no_err (get_by_type_existing (E := Exception) a).
Proof. unfold get_by_type_existing. solve_no_err. Qed.
Hint Resolve no_err_existing no_err_by_type : noerr.
Lemma no_err_get_field f : no_err (get_field (E := Exception) f).
Proof. unfold get_field, data. solve_no_err. Qed.
Lemma no_err_set_field f x : no_err (set_field (E := Exception) f x).
Proof. unfold set_field, update_existing. solve_no_err. Qed.
Lemma no_err_read_uncheck a : no_err (read_uncheck_privilege (E := Exception) a).
Proof. unfold read_uncheck_privilege. solve_no_err. Qed.
Lemma no_err_write_uncheck a d : no_err (write_uncheck_privilege (E := Exception) a d).
Proof. unfold write_uncheck_privilege, update_existing. solve_no_err. Qed.
Hint Resolve no_err_get_field no_err_set_field no_err_read_uncheck no_err_write_uncheck : noerr.

Lemma no_err_on_csr {A} (m : M CsrRegFile Exception A) : no_err m -> no_err (on_csr (D := D) (X := X) m).
Proof. apply no_err_zoom. Qed.
Lemma no_err_on_memory {A} (m : M (VirtAddrManager D) Exception A) : no_err m -> no_err (on_memory (X := X) m).
Proof. apply no_err_zoom. Qed.
Hint Resolve no_err_on_csr no_err_on_memory : noerr.
Lemma no_err_retire : no_err (retire (D := D) (X := X)).
Proof. unfold retire, Minstret_wrapping_add. apply no_err_on_csr. solve_no_err. Qed.
Lemma no_err_set_privileged l : no_err (set_current_privileged (E := Exception) l).
Proof. apply no_err_modify. Qed.
Hint Resolve no_err_retire no_err_set_privileged : noerr.
Lemma no_err_mret : no_err (mret (D := D) (X := X)).
Proof. unfold mret. solve_no_err. Qed.
Lemma no_err_sret : no_err (sret (D := D) (X := X)).
Proof. unfold sret. solve_no_err. Qed.
Hint Resolve no_err_mret no_err_sret : noerr.

(** *** Instructions *)
Lemma precise_normal (f : CpuM unit) n : precise f -> precise (f ;;; pc_add n ;;; retire).
Proof. intros Hf. apply precise_bind; [done|]. intros _. solve_no_err. Qed.

(** Results are written at the end. *)
Lemma precise_writeback {A} (m : CpuM A) (rd : A -> Z) (v : A -> Z) :
  silent m -> precise (a <- m ;; reg_write (rd a) (v a)).
Proof. intros Hm. apply precise_bind; [by apply silent_precise|]. intros a. apply no_err_reg_write. Qed.

Lemma silent_ifetch_level : silent get_current_privilege.
Proof. apply silent_on_csr, privelege_level_reads. Qed.

Hint Resolve silent_ret silent_err silent_panic silent_reg_at silent_reg_read silent_gets_pc silent_lift_res
  silent_add_chk silent_pending silent_mem_read silent_mem_write silent_lr silent_sc silent_amo
  silent_read_csr silent_check_jump silent_supervisor_check silent_ifetch_level : silent.

Ltac precise_step :=
  first [ apply silent_precise; solve [auto with silent]
        | apply no_err_precise; solve [solve_no_err]
        | apply precise_silent_bind; [solve [auto with silent]|intros ?]
        | match goal with |- precise (match ?x with _ => _ end) => destruct x end
        | progress cbv zeta ].

Lemma silent_alu (F : Z -> Z -> ExecResult) a b rd x :
  silent (v <- reg_read a b ;; rst <- lift_res (F (fst v) (x v)) ;; ret (rd : Z, rst)).
Proof. repeat (apply silent_bind; [auto with silent|intros ?]). apply silent_ret. Qed.

Lemma precise_arith F info : precise (exec_arith F info).
Proof.
  apply precise_normal, precise_writeback. destruct info; try apply silent_panic; apply (silent_alu F _ _ _ _).
Qed.

Lemma precise_compress_arith F info : precise (exec_compress_arith F info).
Proof.
  apply precise_normal, precise_writeback. destruct info; try apply silent_panic; apply (silent_alu F _ _ _ _).
Qed.

Lemma precise_branch F info : precise (exec_branch F info).
Proof.
  destruct info; try (apply silent_precise, silent_panic).
  apply precise_silent_bind; [auto with silent|]. intros v. apply precise_bind; [|intros; apply no_err_retire].
  repeat precise_step.
Qed.

Lemma precise_load t extend rd addr : precise (handle_load t extend rd addr).
Proof. apply precise_writeback, silent_mem_read. Qed.

(** Once the write is known to be legal it does not fail. *)
Lemma write_csr_legal c a d e c' : fst (is_write_priv_legal (E := Exception) a (csr c)) = Ok true ->
  write_csr a d c <> (Err e, c').
Proof.
  intros Hl E. unfold write_csr, bind at 1 in E.
  pose proof (write_legal_reads (E := Exception) a (csr c)) as Hr.
  assert (exists s, on_csr (write_checked a d) c = (Ok true, set_csr s c) \/
    on_csr (write_checked a d) c = (Panic, set_csr s c)) as [s Hs].
  { unfold on_csr, zoom, write_checked, bind.
    destruct (is_write_priv_legal a (csr c)) as [r s]. cbn in Hl, Hr. subst. cbn.
    pose proof (no_err_write_uncheck a d (csr c)) as Hn.
    destruct (write_uncheck_privilege a d (csr c)) as [[[]|e'|] s']; [by eexists; left| |by eexists; right].
    by destruct (Hn e' s'). }
  destruct Hs as [Hs|Hs]; rewrite Hs in E; [|discriminate]. cbn [negb] in E. revert E.
  destruct (a =? Satp); [|discriminate]. revert e c'. apply no_err_bind; [auto with noerr|]. intros mode.
  apply no_err_bind; [|intros _; unfold set_root_ppn, vm_flush_tlb; solve_no_err].
  apply no_err_on_memory, no_err_zoom. unfold set_mode. solve_no_err.
Qed.

Lemma silent_operand (uimm : bool) rs1 : silent (if uimm then ret rs1 else v <- reg_read rs1 rs1 ;; ret (fst v)).
Proof. destruct uimm; [auto with silent|]. apply silent_bind; auto with silent. Qed.

(** The same notions in states where writing CSR [a] is legal. *)
Definition legal (a : Z) (c : CPU) : Prop := fst (is_write_priv_legal (E := Exception) a (csr c)) = Ok true.
Definition legal_precise {B} a (k : CpuM B) : Prop :=
  forall c e c', legal a c -> k c = (Err e, c') -> same_arch c c'.
Definition legal_no_err {B} a (k : CpuM B) : Prop := forall c e c', legal a c -> k c <> (Err e, c').

Lemma precise_after_legal {B} a (k : CpuM B) : legal_precise a k ->
  precise (legal <- on_csr (is_write_priv_legal a) ;; if negb legal then err IllegalInstruction else k).
Proof.
  intros Hk c e c' E. unfold bind at 1 in E. pose proof (write_legal_reads (E := Exception) a (csr c)) as Hr.
  unfold on_csr, zoom in E. destruct (is_write_priv_legal a (csr c)) as [[b|e1|] s] eqn:El; cbn in Hr; subst s.
  - replace (set_csr (csr c) c) with c in E by (by destruct c). destruct b; cbn [negb] in E.
    + eapply Hk; [|exact E]. unfold legal. by rewrite El.
    + injection E as <- <-. apply same_arch_refl.
  - injection E as <- <-. by destruct c.
  - discriminate.
Qed.

Lemma legal_silent_bind {A B} a (m : CpuM A) (k : A -> CpuM B) :
  silent m -> (forall x, legal_precise a (k x)) -> legal_precise a (bind m k).
Proof.
  intros Hm Hk c e c' Hl E. unfold bind in E. destruct (m c) as [[x|e1|] c1] eqn:Em; [| |discriminate].
  - assert (same_arch c c1) as Hs by (by eapply Hm). eapply same_arch_trans; [exact Hs|].
    eapply Hk; [|exact E]. unfold legal. by destruct Hs as (_ & _ & -> & _).
  - injection E as <- <-. by eapply Hm.
Qed.

Lemma legal_write_back {B} a rd v (k : CpuM B) : legal_no_err a k -> legal_no_err a (reg_write rd v ;;; k).
Proof.
  intros Hk c e c' Hl E. unfold bind in E. destruct (reg_write rd v c) as [[[]|e1|] c1] eqn:Ew; [| |discriminate].
  - eapply Hk; [|exact E]. unfold legal. replace (csr c1) with (csr c); [done|]. revert Ew.
    unfold reg_write, bind, gets. destruct (_ =? 0); [by intros [= <-]|]. destruct (_ <=? rd); by intros [= <-].
  - by eapply no_err_reg_write.
Qed.

Lemma legal_write_csr {B} a d (k : CpuM B) : no_err k -> legal_no_err a (write_csr a d ;;; k).
Proof.
  intros Hk c e c' Hl E. unfold bind in E. destruct (write_csr a d c) as [[[]|e1|] c1] eqn:Ew; [by eapply Hk| |discriminate].
  by eapply write_csr_legal.
Qed.

Lemma legal_no_err_precise {B} a (k : CpuM B) : legal_no_err a k -> legal_precise a k.
Proof. intros Hk c e c' Hl E. by destruct (Hk c e c' Hl). Qed.

Lemma precise_csrw uimm info : precise (exec_csrw uimm info).
Proof.
  destruct info; try (apply no_err_precise, no_err_pc_add). cbn [exec_csrw]. cbv zeta.
  apply precise_after_legal. apply legal_silent_bind; [apply silent_operand|]. intros v.
  set (a := truncate_to_bits imm 12). set (k := (_ ;;; pc_add 4)).
  assert (no_err k) as Hk by (unfold k; solve_no_err).
  destruct (Z.eqb_spec rd 0); cbn [negb].
  - apply legal_no_err_precise. by apply (legal_write_csr a v k).
  - intros c e c' Hl E. unfold bind at 1 in E.
    destruct ((value <- read_csr a ;; reg_write rd value) c) as [r c1] eqn:E1. unfold bind in E1.
    destruct (read_csr a c) as [[x|e1|] c2] eqn:Er; [|injection E1 as <- <-; injection E as <- <-;
      by eapply silent_read_csr|by injection E1 as <- <-].
    eapply (legal_silent_bind a (read_csr a) (fun x => reg_write rd x ;;; write_csr a v ;;; k)); [auto with silent| |exact Hl|].
    + intros y. by apply legal_no_err_precise, legal_write_back, legal_write_csr.
    + unfold bind at 1. rewrite Er. unfold bind at 1. rewrite E1. exact E.
Qed.

Lemma precise_csr_bit set uimm info : precise (exec_csr_bit set uimm info).
Proof.
  destruct info; try (apply silent_precise, silent_panic). cbn [exec_csr_bit]. cbv zeta.
  apply precise_silent_bind; [apply silent_operand|]. intros v. destruct (v =? 0).
  - apply precise_silent_bind; [auto with silent|]. intros x. apply no_err_precise. solve_no_err.
  - apply precise_after_legal. apply legal_silent_bind; [auto with silent|]. intros x.
    apply legal_no_err_precise, legal_write_back, legal_write_csr. solve_no_err.
Qed.

Lemma precise_mem_writeback {A} (m : CpuM A) rd v :
  silent m -> precise (x <- m ;; reg_write rd (v x) ;;; pc_add 4 ;;; retire).
Proof. intros Hm. apply precise_bind; [by apply silent_precise|]. intros x. solve_no_err. Qed.

Lemma precise_atomic info :
  (forall F t, precise (exec_atomic_memory_operation F t info)) /\
  (forall t extend, precise (exec_lr t extend info)) /\ (forall t, precise (exec_sc t info)).
Proof.
  split_and!; intros; destruct info; try (apply silent_precise, silent_panic); cbn; cbv zeta;
    (apply precise_silent_bind; [auto with silent|]); intros ?;
    by apply precise_mem_writeback; auto with silent.
Qed.

Ltac precise_info := match goal with |- precise (_ ?i) => destruct i end;
  try (apply silent_precise, silent_panic); try (apply precise_normal, silent_precise, silent_panic).

Lemma precise_memory t extend info :
  precise (exec_load t extend info) /\ precise (exec_store t info) /\
  precise (exec_compress_load t extend info) /\ precise (exec_compress_load_sp t extend info) /\
  precise (exec_compress_store t info) /\ precise (exec_compress_store_sp t info).
Proof.
  split_and!; apply precise_normal; destruct info; try (apply silent_precise, silent_panic);
    (apply precise_silent_bind; [auto with silent|]); intros v;
    first [apply precise_load | apply silent_precise, silent_mem_write].
Qed.

Lemma precise_control info :
  precise (exec_jal info) /\ precise (exec_jalr info) /\ precise (exec_auipc info) /\ precise (exec_lui info) /\
  (forall F, precise (exec_compress_branch F info)) /\
  (forall link, precise (exec_compress_jump link info)) /\ (forall link, precise (exec_compress_jump_reg link info)).
Proof. split_and!; intros; destruct info; cbn; repeat precise_step. Qed.

Lemma precise_moves info :
  precise (exec_compress_mv info) /\ precise (exec_compress_li info) /\ precise (exec_addi4spn info) /\
  precise (exec_nop info) /\ precise (exec_compress_nop info).
Proof.
  split_and!; [destruct info..| |]; cbn; try (apply silent_precise, silent_panic); apply precise_normal;
    repeat precise_step.
Qed.

Lemma precise_system info :
  precise (exec_ecall info) /\ precise (exec_fence_i info) /\ precise (exec_mret info) /\
  precise (exec_sret info) /\ precise (exec_sfence_vma info) /\ precise (exec_ebreak info) /\ precise (exec_illegal info).
Proof.
  assert (forall m : CpuM unit, no_err m -> precise (m ;;; retire)) as Hret.
  { intros m Hm. apply no_err_precise, no_err_bind; [exact Hm|]. intros _. apply no_err_retire. }
  split_and!.
  - apply precise_silent_bind; [apply silent_ifetch_level|]. intros []; apply silent_precise; auto with silent.
  - apply no_err_precise, no_err_bind; [apply no_err_flush_icache|]. intros _.
    apply no_err_bind; [apply no_err_on_memory, no_err_modify|]. intros _.
    apply no_err_bind; [apply no_err_pc_add|]. intros _. apply no_err_retire.
  - apply precise_silent_bind; [apply silent_ifetch_level|]. intros l.
    destruct (bool_decide _); [apply silent_precise, silent_err|apply Hret, no_err_mret].
  - apply precise_silent_bind; [apply silent_supervisor_check|]. intros _. apply Hret, no_err_sret.
  - apply precise_silent_bind; [apply silent_supervisor_check|]. intros _.
    apply no_err_precise, no_err_bind; [apply no_err_on_memory, no_err_modify|]. intros _.
    apply no_err_bind; [apply no_err_flush_icache|]. intros _.
    apply no_err_bind; [apply no_err_pc_add|]. intros _. apply no_err_retire.
  - apply silent_precise, silent_err.
  - apply silent_precise, silent_err.
Qed.
End Precise.
#[export] Hint Resolve no_err_slot no_err_existing no_err_by_type no_err_get_field no_err_set_field no_err_read_uncheck
  no_err_write_uncheck no_err_on_csr no_err_on_memory no_err_retire no_err_set_privileged no_err_pc_add no_err_write_pc
  no_err_reg_write no_err_flush_icache : noerr.

Section PreciseDispatch.
Context {D X : Type} `{DeviceTrait D} `{Profile} `{LawfulExt D X}.

Lemma base_func_precise i f info : base_exec_func (D := D) (X := X) i = Some f -> precise (f info).
Proof.
  destruct (precise_atomic (D := D) (X := X) info) as (? & ? & ?).
  destruct (precise_control (D := D) (X := X) info) as (?&?&?&?&?&?&?).
  destruct (precise_moves (D := D) (X := X) info) as (?&?&?&?&?).
  destruct (precise_system (D := D) (X := X) info) as (?&?&?&?&?&?&?).
  destruct i; cbn; intros [= <-];
    match goal with
    | |- precise (exec_arith _ _) => apply precise_arith
    | |- precise (exec_compress_arith _ _) => apply precise_compress_arith
    | |- precise (exec_branch _ _) => apply precise_branch
    | |- precise (exec_csrw _ _) => apply precise_csrw
    | |- precise (exec_csr_bit _ _ _) => apply precise_csr_bit
    | |- precise (exec_load ?t ?b _) => apply (precise_memory t b info)
    | |- precise (exec_store ?t _) => apply (precise_memory t true info)
    | |- precise (exec_compress_load ?t ?b _) => apply (precise_memory t b info)
    | |- precise (exec_compress_load_sp ?t ?b _) => apply (precise_memory t b info)
    | |- precise (exec_compress_store ?t _) => apply (precise_memory t true info)
    | |- precise (exec_compress_store_sp ?t _) => apply (precise_memory t true info)
    | |- precise ?x => match goal with
        | H : precise x |- _ => exact H
        | H : forall _, precise _ |- _ => exact (H _)
        | H : forall _ _, precise _ |- _ => exact (H _ _)
        end
    end.
Qed.

Lemma exec_err_pc i info (c c' : RVCPU D X) e : info_wf info -> get_exec_func i info c = (Err e, c') -> pc c' = pc c.
Proof.
  intros Hi. unfold get_exec_func. destruct (base_exec_func i) as [f|] eqn:E; [|by apply ext_err_pc].
  intros Ef. by destruct (base_func_precise i f info E c e c' Ef) as (_ & -> & _).
Qed.

(** C3: An instruction that raises an exception leaves the program counter where it
    was; an integer, atomic, compressed or privileged instruction leaves the
    registers, the CSRs and the floating-point and vector state unchanged too.
    (A vector load that faults keeps the elements it has loaded, and says in
    [vstart] where to restart.) *)
Theorem exceptions_are_precise i info (c c' : RVCPU D X) e :
  info_wf info -> get_exec_func i info c = (Err e, c') ->
  pc c' = pc c /\ (is_Some (base_exec_func (D := D) (X := X) i) -> same_arch c c').
Proof.
  intros Hi Ee. split; [by eapply exec_err_pc|]. intros [f Ef]. unfold get_exec_func in Ee. rewrite Ef in Ee.
  by apply (base_func_precise i f info Ef c e c').
Qed.

(** Executing any instruction keeps the type invariant of the hart: 32
    registers of 64 bits with [x0] zero, a 64-bit program counter, CSRs of
    64 bits with their validators, RAM made of bytes, decoded instructions in
    the instruction cache and a pending trap value of 64 bits; also when it
    raises an exception. *)
Theorem instructions_keep_cpu_wf i info (c c' : RVCPU D X) r :
  cpu_wf c -> info_wf info -> get_exec_func i info c = (r, c') -> r <> Panic -> cpu_wf c'.
Proof. intros Hc Hi E Hr. eapply triple_run; [by apply get_exec_func_keeps|exact Hc|exact E|exact Hr]. Qed.
End PreciseDispatch.

(** ** Concrete instances *)
Definition demo_user_csr : CsrRegFile := demo_csr LvU [(Mtvec, 0x80004000)].
Definition demo_hart : RVCPU Z unit := demo_cpu (demo_regs 0x80000100 7 9) 0x80000000 demo_user_csr.

(** CSRRW of [mscratch] in U-mode is illegal. *)
Lemma exceptions_are_precise_witness :
  let D := demo_device in let P := dev in
  let c' := snd (get_exec_func CSRRW (II 1 2 0x340) demo_hart) in
  fst (get_exec_func CSRRW (II 1 2 0x340) demo_hart) = Err IllegalInstruction /\ same_arch demo_hart c'.
Proof.
  intros D P c'. split; [vm_compute; reflexivity|].
  apply (exceptions_are_precise CSRRW (II 1 2 0x340) demo_hart c' IllegalInstruction); [repeat split; discriminate|vm_compute; reflexivity|by eexists].
Defined.

Lemma instructions_keep_cpu_wf_witness :
  let D := demo_device in let P := dev in
  let c' := snd (get_exec_func ADD (IR 1 2 3) demo_hart) in
  reg_file c' !! 3%nat = Some 0x80000107 /\ cpu_wf c'.
Proof.
  intros D P c'. split; [vm_compute; reflexivity|].
  apply (instructions_keep_cpu_wf ADD (IR 1 2 3) demo_hart c' (Ok tt)).
  - solve_demo_cpu.
  - repeat split; discriminate.
  - vm_compute. reflexivity.
  - discriminate.
Defined.
