(* ===== verification/ExecSpec.v ===== *)
(** * Instructions against the instruction set

    [isa_op], [isa_branch] and [isa_amo] state what the RISC-V instruction set
    defines, over the integers; the theorems show that the dispatched functions
    compute exactly that, with the register, program counter and counter
    updates of a retired instruction. *)

From S2P Require Import Prelude Utils TrapTypes Alu Ram Cache CsrTable Csr PageTable Mmio Vm Instr Cpu Trap Exec Invariant Precise.

(** Signed readings, and the 64-bit sign extension of a 32-bit result. *)
Definition s64 (a : Z) : Z := to_signed 64 a.
Definition s32 (a : Z) : Z := to_signed 32 (a mod 2 ^ 32).
Definition sx32 (z : Z) : Z := s32 z mod 2 ^ 64.

(** The two-operand integer instructions of RV64I, RV64M and RV64C. *)
Definition isa_op (i : RiscvInstr) : option (Z -> Z -> Z) :=
  match i with
  | ADD | ADDI | C_ADD | C_ADDI | C_ADDI16SP => Some (fun a b => (a + b) mod 2 ^ 64)
  | SUB | C_SUB => Some (fun a b => (a - b) mod 2 ^ 64)
  | ADDW | ADDIW | C_ADDW | C_ADDIW => Some (fun a b => sx32 (a + b))
  | SUBW | C_SUBW => Some (fun a b => sx32 (a - b))
  | MUL => Some (fun a b => (a * b) mod 2 ^ 64)
  | MULH => Some (fun a b => (s64 a * s64 b / 2 ^ 64) mod 2 ^ 64)
  | MULHU => Some (fun a b => (a * b / 2 ^ 64) mod 2 ^ 64)
  | MULHSU => Some (fun a b => (s64 a * b / 2 ^ 64) mod 2 ^ 64)
  | DIV => Some (fun a b => if b =? 0 then 2 ^ 64 - 1 else (Z.quot (s64 a) (s64 b)) mod 2 ^ 64)
  | DIVU => Some (fun a b => if b =? 0 then 2 ^ 64 - 1 else a / b)
  | REM => Some (fun a b => if b =? 0 then a else (Z.rem (s64 a) (s64 b)) mod 2 ^ 64)
  | REMU => Some (fun a b => if b =? 0 then a else a mod b)
  | MULW => Some (fun a b => sx32 (a * b))
  | DIVW => Some (fun a b => if s32 b =? 0 then 2 ^ 64 - 1 else sx32 (Z.quot (s32 a) (s32 b)))
  | DIVUW => Some (fun a b => if b mod 2 ^ 32 =? 0 then 2 ^ 64 - 1 else sx32 ((a mod 2 ^ 32) / (b mod 2 ^ 32)))
  | REMW => Some (fun a b => if s32 b =? 0 then sx32 a else sx32 (Z.rem (s32 a) (s32 b)))
  | REMUW => Some (fun a b => if b mod 2 ^ 32 =? 0 then sx32 a else sx32 ((a mod 2 ^ 32) mod (b mod 2 ^ 32)))
  | SLL | SLLI | C_SLLI => Some (fun a b => (a * 2 ^ (b mod 64)) mod 2 ^ 64)
  | SRL | SRLI | C_SRLI => Some (fun a b => a / 2 ^ (b mod 64))
  | SRA | SRAI | C_SRAI => Some (fun a b => (s64 a / 2 ^ (b mod 64)) mod 2 ^ 64)
  | SLLW | SLLIW => Some (fun a b => sx32 (a * 2 ^ (b mod 32)))
  | SRLW | SRLIW => Some (fun a b => sx32 ((a mod 2 ^ 32) / 2 ^ (b mod 32)))
  | SRAW | SRAIW => Some (fun a b => sx32 (s32 a / 2 ^ (b mod 32)))
  | SLT | SLTI => Some (fun a b => if s64 a <? s64 b then 1 else 0)
  | SLTU | SLTIU => Some (fun a b => if a <? b then 1 else 0)
  | AND | ANDI | C_AND | C_ANDI => Some Z.land
  | OR | ORI | C_OR => Some Z.lor
  | XOR | XORI | C_XOR => Some Z.lxor
  | _ => None
  end.

Definition compressed (i : RiscvInstr) : bool :=
  match i with
  | C_ADD | C_ADDI | C_ADDI16SP | C_ADDW | C_ADDIW | C_SLLI | C_SRLI | C_SRAI
  | C_AND | C_ANDI | C_OR | C_XOR | C_SUB | C_SUBW => true
  | _ => false
  end.

(** The operands of an instruction: the two values, the destination and the
    length of the encoding. *)
Definition alu_operands (i : RiscvInstr) (info : RVInstrInfo) (r : list Z) : option (Z * Z * Z * Z) :=
  let x n := r !!! Z.to_nat n in
  match compressed i, info with
  | false, IR rs1 rs2 rd => Some (x rs1, x rs2, rd, 4)
  | false, II rs1 rd imm => Some (x rs1, imm, rd, 4)
  | true, (ICR rd rs2 | ICA rd rs2) => Some (x rd, x rs2, rd, 2)
  | true, (ICI rd imm | ICB rd imm) => Some (x rd, imm, rd, 2)
  | _, _ => None
  end.

(** What a computational instruction computes, its destination and its length:
    the operation on its operands, or for the rest an immediate, the program
    counter plus an immediate, a copy, the stack pointer plus an immediate, and
    nothing (a write to [x0]). *)
Definition isa_result (i : RiscvInstr) (info : RVInstrInfo) (r : list Z) (p : Z) : option (Z * Z * Z) :=
  match i, info with
  | LUI, IU rd imm => Some (imm, rd, 4)
  | AUIPC, IU rd imm => Some ((p + imm) mod 2 ^ 64, rd, 4)
  | (C_LI | C_LUI), ICI rd imm => Some (imm, rd, 2)
  | C_MV, ICR rd rs2 => Some (r !!! Z.to_nat rs2, rd, 2)
  | C_ADDI4SPN, ICIW rd imm => Some ((r !!! 2%nat + imm) mod 2 ^ 64, rd, 2)
  | C_NOP, _ => Some (0, 0, 2)
  | _, _ => match isa_op i, alu_operands i info r with
            | Some f, Some (a, b, rd, len) => Some (f a b, rd, len)
            | _, _ => None
            end
  end.

(** Writing a register: [x0] stays zero. *)
Definition write_reg (rd v : Z) (r : list Z) : list Z := if rd =? 0 then r else <[Z.to_nat rd := v]> r.

(** A retired instruction: results, program counter and instruction counter. *)
Definition retired {D X} (regs : list Z) (p : Z) (c : RVCPU D X) : RVCPU D X :=
  set_csr (upd Minstret ((val (csr c) Minstret + 1) mod 2 ^ 64) (csr c)) (set_pc p (set_reg_file regs c)).

(** The counter is not about to overflow, where overflow is checked. *)
Definition counter_ok `{Profile} {D X} (c : RVCPU D X) : Prop :=
  overflow_checks = true -> val (csr c) Minstret + 1 < 2 ^ 64.

(** ** The operations *)
Lemma sx32_spec z : sign_extend_u32 (wrap 32 z) = sx32 z.
Proof. unfold sign_extend_u32. rewrite sign_extend_signed, wrap_wrap by lia. done. Qed.

Lemma sx32_mod z : sx32 (z mod 2 ^ 32) = sx32 z.
Proof. unfold sx32, s32. by rewrite Z.mod_mod by lia. Qed.

Lemma sx32_u32 z : uint 32 z -> sign_extend_u32 z = sx32 z.
Proof. intros Hz. rewrite <- sx32_spec. by rewrite wrap_small. Qed.

Lemma shamt64 b : shift_amount U64 b = b mod 64.
Proof. apply shift_amount_spec. Qed.

Lemma shamt32 b : Z.land (wrap 32 b) 0x1F = b mod 32.
Proof.
  rewrite land_1f, shift_amount_spec. unfold truncate_from, wrap. cbn [BITS].
  apply Z.mod_mod_divide. by exists (2 ^ 27).
Qed.


(** The function each instruction is dispatched to. *)
Definition alu_function (i : RiscvInstr) : option (Z -> Z -> ExecResult) :=
  match i with
  | ADD | ADDI | C_ADD | C_ADDI | C_ADDI16SP => Some (ExecAdd U64)
  | SUB | C_SUB => Some (ExecSub U64)
  | ADDW | ADDIW | C_ADDW | C_ADDIW => Some ExecAddw
  | SUBW | C_SUBW => Some ExecSubw
  | MUL => Some (ExecMulLow U64) | MULH => Some (ExecMulHighSigned U64)
  | MULHU => Some (ExecMulHighUnsigned U64) | MULHSU => Some (ExecMulHighSignedUnsigned U64)
  | DIV => Some (ExecDivSigned U64) | DIVU => Some (ExecDivUnsigned U64)
  | REM => Some (ExecRemSigned U64) | REMU => Some (ExecRemUnsigned U64)
  | MULW => Some ExecMulw | DIVW => Some ExecDivw | DIVUW => Some ExecDivuw
  | REMW => Some ExecRemw | REMUW => Some ExecRemuw
  | SLL | SLLI | C_SLLI => Some (ExecSLL U64)
  | SRL | SRLI | C_SRLI => Some (ExecSRL U64)
  | SRA | SRAI | C_SRAI => Some (ExecSRA U64)
  | SLLW | SLLIW => Some ExecSLLW | SRLW | SRLIW => Some ExecSRLW | SRAW | SRAIW => Some ExecSRAW
  | SLT | SLTI => Some (ExecSignedLess U64) | SLTU | SLTIU => Some ExecUnsignedLess
  | AND | ANDI | C_AND | C_ANDI => Some ExecAnd
  | OR | ORI | C_OR => Some ExecOr
  | XOR | XORI | C_XOR => Some ExecXor
  | _ => None
  end.

Lemma div_u32 a b : uint 32 a -> uint 32 b -> b <> 0 -> uint 32 (a / b) /\ uint 32 (a mod b).
Proof.
  unfold uint. intros Ha Hb Hb0. pose proof (Z.mod_pos_bound a b ltac:(lia)).
  pose proof (Z.div_pos a b ltac:(lia) ltac:(lia)). pose proof (Z.div_le_upper_bound a b a ltac:(lia)).
  split; [nia|lia].
Qed.

Lemma mod_pow_le b : 0 <= b mod 64 < 64 /\ 0 <= b mod 32 < 32.
Proof. split; apply Z.mod_pos_bound; lia. Qed.

Lemma sx32_ext x y : wrap 32 x = wrap 32 y -> sx32 x = sx32 y.
Proof. intros E. by rewrite <- !sx32_spec, E. Qed.

Lemma s32_spec a : to_signed 32 (truncate_from U32 a) = s32 a.
Proof. done. Qed.

(** Each function computes the operation of the instruction set. *)
Section Functions.
Context (a b : Z) (Ha : u64 a) (Hb : u64 b).

Lemma w_add : ExecAddw a b = Ok (sx32 (a + b)).
Proof. unfold ExecAddw, truncate_from. rewrite sx32_spec. f_equal. apply sx32_ext. cbn [BITS]. by rewrite wrap_add_l, wrap_add_r. Qed.

Lemma w_sub : ExecSubw a b = Ok (sx32 (a - b)).
Proof. unfold ExecSubw, truncate_from. rewrite sx32_spec. f_equal. apply sx32_ext. cbn [BITS]. by rewrite wrap_sub_l, wrap_sub_r. Qed.

Lemma w_mul : ExecMulw a b = Ok (sx32 (a * b)).
Proof. unfold ExecMulw, truncate_from. rewrite sx32_spec. f_equal. apply sx32_ext. cbn [BITS]. by rewrite wrap_mul_l, wrap_mul_r. Qed.

Lemma x_mulh : ExecMulHighSigned U64 a b = Ok ((s64 a * s64 b / 2 ^ 64) mod 2 ^ 64).
Proof.
  unfold ExecMulHighSigned. rewrite from_signed_i128_spec, !as_signed_i128_spec by done.
  by rewrite Z.shiftr_div_pow2 by (cbn; lia).
Qed.

Lemma x_mulhu : ExecMulHighUnsigned U64 a b = Ok ((a * b / 2 ^ 64) mod 2 ^ 64).
Proof. unfold ExecMulHighUnsigned. by rewrite Z.shiftr_div_pow2 by (cbn; lia). Qed.

Lemma x_mulhsu : ExecMulHighSignedUnsigned U64 a b = Ok ((s64 a * b / 2 ^ 64) mod 2 ^ 64).
Proof.
  unfold ExecMulHighSignedUnsigned. rewrite from_signed_i128_spec, as_signed_i128_spec by done.
  by rewrite Z.shiftr_div_pow2 by (cbn; lia).
Qed.

Lemma x_div : ExecDivSigned U64 a b = Ok (if b =? 0 then 2 ^ 64 - 1 else (Z.quot (s64 a) (s64 b)) mod 2 ^ 64).
Proof.
  unfold ExecDivSigned. rewrite from_signed_i128_spec, !as_signed_i128_spec by done. by destruct (b =? 0).
Qed.

Lemma x_divu : ExecDivUnsigned U64 a b = Ok (if b =? 0 then 2 ^ 64 - 1 else a / b).
Proof. unfold ExecDivUnsigned. by destruct (b =? 0). Qed.

Lemma x_rem : ExecRemSigned U64 a b = Ok (if b =? 0 then a else (Z.rem (s64 a) (s64 b)) mod 2 ^ 64).
Proof.
  unfold ExecRemSigned. rewrite from_signed_i128_spec, !as_signed_i128_spec by done. by destruct (b =? 0).
Qed.

Lemma x_remu : ExecRemUnsigned U64 a b = Ok (if b =? 0 then a else a mod b).
Proof. unfold ExecRemUnsigned. by destruct (b =? 0). Qed.

Lemma w_div : ExecDivw a b = Ok (if s32 b =? 0 then 2 ^ 64 - 1 else sx32 (Z.quot (s32 a) (s32 b))).
Proof. unfold ExecDivw. rewrite !s32_spec, sx32_spec. by destruct (s32 b =? 0). Qed.

Lemma w_rem : ExecRemw a b = Ok (if s32 b =? 0 then sx32 a else sx32 (Z.rem (s32 a) (s32 b))).
Proof.
  unfold ExecRemw. rewrite !s32_spec, !sx32_spec. destruct (s32 b =? 0); [|done]. f_equal. apply sx32_ext.
  unfold s32. rewrite wrap_to_signed by lia. by apply (wrap_wrap 32).
Qed.

Lemma u32_range z : uint 32 (truncate_from U32 z).
Proof. by apply wrap_range. Qed.

Lemma w_divu : ExecDivuw a b =
  Ok (if b mod 2 ^ 32 =? 0 then 2 ^ 64 - 1 else sx32 ((a mod 2 ^ 32) / (b mod 2 ^ 32))).
Proof.
  unfold ExecDivuw. change (b mod 2 ^ 32) with (truncate_from U32 b). change (a mod 2 ^ 32) with (truncate_from U32 a).
  destruct (Z.eqb_spec (truncate_from U32 b) 0); [done|]. f_equal. apply sx32_u32. by apply div_u32; auto using u32_range.
Qed.

Lemma w_remu : ExecRemuw a b =
  Ok (if b mod 2 ^ 32 =? 0 then sx32 a else sx32 ((a mod 2 ^ 32) mod (b mod 2 ^ 32))).
Proof.
  unfold ExecRemuw. change (b mod 2 ^ 32) with (truncate_from U32 b). change (a mod 2 ^ 32) with (truncate_from U32 a).
  destruct (Z.eqb_spec (truncate_from U32 b) 0); f_equal.
  - apply sx32_spec.
  - apply sx32_u32. by apply div_u32; auto using u32_range.
Qed.

Lemma x_sll : ExecSLL U64 a b = Ok ((a * 2 ^ (b mod 64)) mod 2 ^ 64).
Proof. unfold ExecSLL, shl, wrap. rewrite shamt64, Z.shiftl_mul_pow2; [done|apply mod_pow_le]. Qed.

Lemma x_srl : ExecSRL U64 a b = Ok (a / 2 ^ (b mod 64)).
Proof. unfold ExecSRL. rewrite shamt64, Z.shiftr_div_pow2; [done|apply mod_pow_le]. Qed.

Lemma x_sra : ExecSRA U64 a b = Ok ((s64 a / 2 ^ (b mod 64)) mod 2 ^ 64).
Proof.
  unfold ExecSRA. rewrite from_signed_i128_spec, as_signed_i128_spec, shamt64 by done.
  by rewrite Z.shiftr_div_pow2 by apply mod_pow_le.
Qed.

Lemma w_sll : ExecSLLW a b = Ok (sx32 (a * 2 ^ (b mod 32))).
Proof.
  unfold ExecSLLW, shl. rewrite sx32_spec, shamt32, Z.shiftl_mul_pow2 by apply mod_pow_le. f_equal. apply sx32_ext.
  unfold truncate_from. cbn [BITS]. by rewrite wrap_mul_l.
Qed.

Lemma w_srl : ExecSRLW a b = Ok (sx32 ((a mod 2 ^ 32) / 2 ^ (b mod 32))).
Proof.
  unfold ExecSRLW. rewrite shamt32. f_equal. pose proof (mod_pow_le b) as [_ Hs].
  rewrite sx32_u32 by (apply uint_shiftr; [lia|lia|apply u32_range]). by rewrite Z.shiftr_div_pow2 by lia.
Qed.

Lemma w_sra : ExecSRAW a b = Ok (sx32 (s32 a / 2 ^ (b mod 32))).
Proof.
  unfold ExecSRAW. rewrite shamt32, sx32_spec, as_signed_i128_spec by apply u32_range. cbn [BITS].
  by rewrite Z.shiftr_div_pow2 by apply mod_pow_le.
Qed.

Lemma x_slt : ExecSignedLess U64 a b = Ok (if s64 a <? s64 b then 1 else 0).
Proof. unfold ExecSignedLess. rewrite !as_signed_i128_spec by done. unfold s64. cbn [BITS]. by destruct (_ <? _). Qed.

Lemma x_sltu : ExecUnsignedLess a b = Ok (if a <? b then 1 else 0).
Proof. unfold ExecUnsignedLess. by destruct (_ <? _). Qed.
End Functions.

Lemma alu_function_isa i F f a b : alu_function i = Some F -> isa_op i = Some f -> u64 a -> u64 b ->
  F a b = Ok (f a b).
Proof.
  intros HF Hf Ha Hb.
  destruct i; cbn [alu_function isa_op] in HF, Hf; try discriminate HF; injection HF as <-; injection Hf as <-;
    match goal with
    | |- ExecAddw _ _ = _ => apply w_add
    | |- ExecSubw _ _ = _ => apply w_sub
    | |- ExecMulw _ _ = _ => apply w_mul
    | |- ExecMulHighSigned _ _ _ = _ => by apply x_mulh
    | |- ExecMulHighUnsigned _ _ _ = _ => by apply x_mulhu
    | |- ExecMulHighSignedUnsigned _ _ _ = _ => by apply x_mulhsu
    | |- ExecDivSigned _ _ _ = _ => by apply x_div
    | |- ExecDivUnsigned _ _ _ = _ => apply x_divu
    | |- ExecRemSigned _ _ _ = _ => by apply x_rem
    | |- ExecRemUnsigned _ _ _ = _ => apply x_remu
    | |- ExecDivw _ _ = _ => apply w_div
    | |- ExecDivuw _ _ = _ => apply w_divu
    | |- ExecRemw _ _ = _ => apply w_rem
    | |- ExecRemuw _ _ = _ => apply w_remu
    | |- ExecSLL _ _ _ = _ => apply x_sll
    | |- ExecSRL _ _ _ = _ => apply x_srl
    | |- ExecSRA _ _ _ = _ => by apply x_sra
    | |- ExecSLLW _ _ = _ => apply w_sll
    | |- ExecSRLW _ _ = _ => apply w_srl
    | |- ExecSRAW _ _ = _ => apply w_sra
    | |- ExecSignedLess _ _ _ = _ => by apply x_slt
    | |- ExecUnsignedLess _ _ = _ => apply x_sltu
    | |- _ => reflexivity
    end.
Qed.

(** ** Registers and counters *)
Lemma minstret_mask : mask_at Minstret (Z.ones 64).
Proof. solve_mask_at. Qed.

Section Retire.
Context {D X : Type} `{DeviceTrait D} `{Profile} `{ExtUnit D X} `{ExtOk X}.
Implicit Types c : RVCPU D X.

Lemma retire_run c : csr_wf (csr c) -> counter_ok c ->
  retire c = (Ok tt, set_csr (upd Minstret ((val (csr c) Minstret + 1) mod 2 ^ 64) (csr c)) c).
Proof.
  intros Hwf Hov. unfold retire. rewrite <- (set_csr_id c) at 1.
  assert (known Minstret = true /\ reg_index Minstret = Minstret) as [Hk Hr] by (apply known_of; reflexivity).
  assert (u64 (val (csr c) Minstret)) as Hv by (by apply val_u64).
  assert (field_ok Minstret_minstret) as Hf by (vm_compute; split_and!; (discriminate || reflexivity)).
  assert (reg_index (fl_csr Minstret_minstret) = Minstret) as Hri by exact Hr.
  apply on_csr_run. unfold Minstret_wrapping_add.
  erewrite bind_Ok by (apply get_field_run; [done|by rewrite Hri|done]). rewrite Hri.
  change (LOW_BIT Minstret_minstret) with 0. change (fl_len Minstret_minstret) with 64.
  replace (fget 0 64 (val (csr c) Minstret)) with (val (csr c) Minstret)
    by (unfold fget; rewrite Z.shiftr_0_r; symmetry; by apply wrap_small).
  erewrite bind_Ok.
  2:{ unfold add_chk. destruct overflow_checks eqn:Eo; [|done].
      cbn [andb]. rewrite (proj2 (Z.leb_gt _ _)) by (by apply Hov). done. }
  rewrite set_field_run; [..|by apply wrap_range]; [|done|by rewrite Hri|done|].
  - rewrite Hri. change (LOW_BIT Minstret_minstret) with 0. change (fl_len Minstret_minstret) with 64.
    rewrite fset_all; [done|done|by apply wrap_range].
  - apply (writable_of_mask _ (Z.ones 64)); [|vm_compute; reflexivity].
    rewrite Hri. exact minstret_mask.
Qed.

Lemma reg_at_run c n : cpu_wf c -> reg_ok n -> reg_at n c = (Ok (reg_file c !!! Z.to_nat n), c).
Proof.
  intros [(Hl & _) _ _ _] Hn. unfold reg_at, bind, gets, unwrap, reg_ok in *.
  destruct (reg_file c !! Z.to_nat n) as [v|] eqn:E.
  - by rewrite (list_lookup_total_correct _ _ _ E).
  - apply lookup_ge_None in E. rewrite Hl in E. unfold REGFILE_CNT in E. lia.
Qed.

Lemma reg_value c n : cpu_wf c -> reg_ok n -> u64 (reg_file c !!! Z.to_nat n).
Proof.
  intros Hc Hn. pose proof (reg_at_run c n Hc Hn) as E. pose proof (wp_reg_at n c Hc) as Hw.
  rewrite E in Hw. apply Hw.
Qed.

Lemma reg_read_run c a b : cpu_wf c -> reg_ok a -> reg_ok b ->
  reg_read a b c = (Ok (reg_file c !!! Z.to_nat a, reg_file c !!! Z.to_nat b), c).
Proof.
  intros Hc Ha Hb. unfold reg_read. erewrite bind_Ok by (by apply reg_at_run).
  by erewrite bind_Ok by (by apply reg_at_run).
Qed.

Lemma set_reg_file_id c : set_reg_file (reg_file c) c = c.
Proof. by destruct c. Qed.

Lemma reg_write_run c rd v : length (reg_file c) = REGFILE_CNT -> reg_ok rd ->
  reg_write rd v c = (Ok tt, set_reg_file (write_reg rd v (reg_file c)) c).
Proof.
  intros Hl Hr. unfold reg_write, write_reg, reg_ok in *. destruct (rd =? 0).
  - unfold ret. by rewrite set_reg_file_id.
  - unfold bind, gets. rewrite Hl, (proj2 (Z.leb_gt _ _)); [done|]. unfold REGFILE_CNT. lia.
Qed.

(** The end of a normal instruction. *)
Lemma finish_run c regs n : csr_wf (csr c) -> counter_ok c ->
  (pc_add n ;;; retire) (set_reg_file regs c) = (Ok tt, retired regs ((pc c + n) mod 2 ^ 64) c).
Proof.
  intros Hwf Hov. erewrite bind_Ok by reflexivity. rewrite retire_run by done. done.
Qed.

Lemma writeback_run (m : M (RVCPU D X) Exception (Z * Z)) c rd v :
  length (reg_file c) = REGFILE_CNT -> reg_ok rd -> m c = (Ok (rd, v), c) ->
  (p <- m ;; reg_write (fst p) (snd p)) c = (Ok tt, set_reg_file (write_reg rd v (reg_file c)) c).
Proof. intros Hl Hr Hm. erewrite bind_Ok by exact Hm. by apply reg_write_run. Qed.

Lemma normal_run (m : M (RVCPU D X) Exception unit) c regs n : csr_wf (csr c) -> counter_ok c ->
  m c = (Ok tt, set_reg_file regs c) ->
  (m ;;; pc_add n ;;; retire) c = (Ok tt, retired regs ((pc c + n) mod 2 ^ 64) c).
Proof. intros Hwf Hov Hm. erewrite bind_Ok by exact Hm. by apply finish_run. Qed.

Lemma dispatch_alu i F : alu_function i = Some F ->
  get_exec_func (D := D) (X := X) i = (if compressed i then exec_compress_arith F else exec_arith F).
Proof. intros HF. destruct i; cbn in HF; try discriminate HF; injection HF as <-; reflexivity. Qed.

Lemma alu_function_some i f : isa_op i = Some f -> is_Some (alu_function i).
Proof. destruct i; cbn; intros Hf; try discriminate Hf; by eexists. Qed.

Lemma alu_op_run i info f a b rd len c :
  isa_op i = Some f -> alu_operands i info (reg_file c) = Some (a, b, rd, len) ->
  cpu_wf c -> info_wf info -> counter_ok c ->
  get_exec_func i info c = (Ok tt, retired (write_reg rd (f a b) (reg_file c)) ((pc c + len) mod 2 ^ 64) c).
Proof.
  intros Hf Hop Hc Hi Hov. destruct (alu_function_some i f Hf) as [F HF].
  rewrite (dispatch_alu i F HF). pose proof (wf_csr c Hc) as Hcsr.
  assert (length (reg_file c) = REGFILE_CNT) as Hl by apply (wf_regs c Hc).
  unfold alu_operands in Hop. assert (reg_ok 0) as H0r by done.
  destruct (compressed i), info; try discriminate Hop; cbn [info_wf] in Hi; destruct_and!;
    injection Hop as <- <- <- <-; apply normal_run; try done.
  all: apply writeback_run; [done|done|].
  all: erewrite bind_Ok by (by apply reg_read_run); cbn [fst snd].
  all: rewrite (alu_function_isa i F f) by (done || by apply reg_value). all: reflexivity.
Qed.

(** The instructions that only move a value. *)
Lemma move_run i info v rd len c : isa_op i = None ->
  isa_result i info (reg_file c) (pc c) = Some (v, rd, len) ->
  cpu_wf c -> info_wf info -> counter_ok c ->
  get_exec_func i info c = (Ok tt, retired (write_reg rd v (reg_file c)) ((pc c + len) mod 2 ^ 64) c).
Proof.
  intros Hf Hop Hc Hi Hov. pose proof (wf_csr c Hc) as Hcsr.
  assert (length (reg_file c) = REGFILE_CNT) as Hl by apply (wf_regs c Hc).
  assert (reg_ok 0 /\ reg_ok 2) as [H0r H2r] by done.
  destruct i; cbn in Hf; try discriminate Hf; unfold isa_result in Hop; cbn [isa_op] in Hop;
    try discriminate Hop; destruct info; try discriminate Hop; cbn [info_wf] in Hi; destruct_and?;
    injection Hop as <- <- <-.
  all: match goal with
    | |- get_exec_func C_NOP _ _ = _ => apply (normal_run (ret tt)); [done|done|]; unfold ret, write_reg; cbn; by rewrite set_reg_file_id
    | |- get_exec_func AUIPC (IU ?rd ?imm) _ = _ => apply (normal_run (reg_write rd (wrap 64 (pc c + imm)))); [done|done|by apply reg_write_run]
    | |- get_exec_func LUI (IU ?rd ?imm) _ = _ => apply (normal_run (reg_write rd imm)); [done|done|by apply reg_write_run]
    | |- _ => apply normal_run; [done|done|]; rewrite ?reg_write_run by done; try done
    end.
  all: erewrite bind_Ok by (by apply reg_read_run); cbn [fst snd]; try by apply reg_write_run.
Qed.

(** C4: Every integer computational instruction of RV64I and M and of the C
    extension, in each of its formats (register, immediate and compressed
    arithmetic, logic, shifts, comparisons, multiplication and division, and
    LUI, AUIPC, C.LI, C.LUI, C.MV, C.ADDI4SPN and C.NOP), writes to its
    destination what the instruction set defines for its operands, advances the
    program counter by the length of the encoding and counts itself in
    [minstret]; nothing else changes and no exception is raised.  The operands
    are those the decoder produces ([info_wf]); in a build with overflow checks
    [minstret] is assumed not to be at its maximum, where the code panics. *)
Theorem alu_instr_correct i info v rd len c :
  isa_result i info (reg_file c) (pc c) = Some (v, rd, len) ->
  cpu_wf c -> info_wf info -> counter_ok c ->
  get_exec_func i info c = (Ok tt, retired (write_reg rd v (reg_file c)) ((pc c + len) mod 2 ^ 64) c).
Proof.
  intros Hop Hc Hi Hov. destruct (isa_op i) as [f|] eqn:Hf; [|by apply move_run].
  assert (exists a b, alu_operands i info (reg_file c) = Some (a, b, rd, len) /\ f a b = v) as (a & b & Ho & <-); [|by apply alu_op_run].
  destruct i; cbn in Hf; try discriminate Hf; injection Hf as <-; unfold isa_result in Hop; cbn [isa_op] in Hop;
    destruct (alu_operands _ info (reg_file c)) as [[[[a b] r] l]|]; try discriminate Hop; injection Hop as <- <- <-; by exists a, b.
Qed.
End Retire.

(** ** Control transfer *)

(** The conditions of the branches. *)
Definition isa_branch (i : RiscvInstr) : option (Z -> Z -> bool) :=
  match i with
  | BEQ | C_BEQZ => Some (fun a b => a =? b)
  | BNE | C_BNEZ => Some (fun a b => negb (a =? b))
  | BLT => Some (fun a b => s64 a <? s64 b)
  | BGE => Some (fun a b => s64 b <=? s64 a)
  | BLTU => Some (fun a b => a <? b)
  | BGEU => Some (fun a b => b <=? a)
  | _ => None
  end.

(** Operands, offset and length of a branch; the compressed branches compare
    with zero. *)
Definition branch_operands (i : RiscvInstr) (info : RVInstrInfo) (r : list Z) : option (Z * Z * Z * Z) :=
  match i, info with
  | (C_BEQZ | C_BNEZ), ICB rs1 imm => Some (r !!! Z.to_nat rs1, 0, imm, 2)
  | (BEQ | BNE | BLT | BGE | BLTU | BGEU), IB rs1 rs2 imm =>
      Some (r !!! Z.to_nat rs1, r !!! Z.to_nat rs2, imm, 4)
  | _, _ => None
  end.

(** Target, link register and length of a jump. *)
Definition isa_jump (i : RiscvInstr) (info : RVInstrInfo) (r : list Z) (p : Z) : option (Z * Z * Z) :=
  match i, info with
  | JAL, IJ rd imm => Some ((p + imm) mod 2 ^ 64, rd, 4)
  | JALR, II rs1 rd imm => Some (2 * ((r !!! Z.to_nat rs1 + imm) mod 2 ^ 64 / 2), rd, 4)
  | C_J, ICJ imm => Some ((p + imm) mod 2 ^ 64, 0, 2)
  | C_JAL, ICJ imm => Some ((p + imm) mod 2 ^ 64, 1, 2)
  | C_JR, ICR rs1 _ => Some (2 * (r !!! Z.to_nat rs1 / 2), 0, 2)
  | C_JALR, ICR rs1 _ => Some (2 * (r !!! Z.to_nat rs1 / 2), 1, 2)
  | _, _ => None
  end.

Section Control.
Context {D X : Type} `{DeviceTrait D} `{Profile} `{ExtUnit D X} `{ExtOk X}.
Implicit Types c : RVCPU D X.

(** The C extension is on in [misa]. *)
Definition c_ext (c : RVCPU D X) : bool := Z.testbit (val (csr c) Misa) 2.

(** A target is acceptable to an instruction of the given length; compressed
    instructions exist only with the C extension. *)
Definition target_ok (c : RVCPU D X) (len target : Z) : bool := (len =? 2) || c_ext c || (target mod 4 =? 0).

Lemma land_3 z : Z.land z 3 = z mod 4.
Proof. change 3 with (Z.ones 2). by rewrite Z.land_ones by lia. Qed.

Lemma misa_c_run s : csr_wf s -> Misa_c_enabled (E := Exception) s = (Ok (Z.testbit (val s Misa) 2), s).
Proof.
  intros Hwf. assert (known Misa = true /\ reg_index Misa = Misa) as [Hk Hr] by (apply known_of; reflexivity).
  unfold Misa_c_enabled. erewrite bind_Ok.
  2:{ apply get_field_run; [done| |vm_compute; split_and!; (discriminate || reflexivity)].
      change (fl_csr Misa_extension) with Misa. by rewrite Hr. }
  unfold ret. do 2 f_equal. change (fl_csr Misa_extension) with Misa. rewrite Hr.
  change (LOW_BIT Misa_extension) with 0. change (fl_len Misa_extension) with 25.
  change 4 with (shl 64 1 2). rewrite (land_bit_eqb 64), negb_involutive, fget_testbit by lia. done.
Qed.

Lemma check_jump_run c target : csr_wf (csr c) ->
  check_jump_alignment target c =
    if target_ok c 4 target then (Ok tt, c)
    else (Err InstructionMisaligned, set_pending_tval (Some target) c).
Proof.
  intros Hwf. unfold check_jump_alignment. rewrite <- (set_csr_id c) at 1.
  erewrite csr_bind by (by apply misa_c_run). rewrite set_csr_id. unfold target_ok, c_ext.
  rewrite land_3. cbn [orb Z.eqb]. by destruct (Z.testbit _ 2), (target mod 4 =? 0).
Qed.

Lemma retire_pc c p : csr_wf (csr c) -> counter_ok c ->
  retire (set_pc p c) = (Ok tt, retired (reg_file c) p c).
Proof. intros Hwf Hov. rewrite retire_run by done. by destruct c. Qed.

(** A branch whose condition holds goes to its target, or raises
    [InstructionMisaligned] with the target as trap value when the target is
    not 4-byte aligned and the C extension is off; otherwise the next
    instruction follows. *)
Theorem branch_correct i info cond a b imm len c :
  isa_branch i = Some cond -> branch_operands i info (reg_file c) = Some (a, b, imm, len) ->
  cpu_wf c -> info_wf info -> counter_ok c ->
  let target := (pc c + imm) mod 2 ^ 64 in
  get_exec_func i info c =
    if cond a b then
      if target_ok c len target then (Ok tt, retired (reg_file c) target c)
      else (Err InstructionMisaligned, set_pending_tval (Some target) c)
    else (Ok tt, retired (reg_file c) ((pc c + len) mod 2 ^ 64) c).
Proof.
  intros Hb Hop Hc Hi Hov target. pose proof (wf_csr c Hc) as Hcsr. assert (reg_ok 0) as H0r by done.
  assert (forall F, (forall x y, u64 x -> u64 y -> F x y = cond x y) -> i <> C_BEQZ -> i <> C_BNEZ ->
    exec_branch F info c = if cond a b then
      if target_ok c len target then (Ok tt, retired (reg_file c) target c)
      else (Err InstructionMisaligned, set_pending_tval (Some target) c)
    else (Ok tt, retired (reg_file c) ((pc c + len) mod 2 ^ 64) c)) as H4.
  { intros F HF N1 N2. destruct info; try (exfalso; destruct i; discriminate Hop || done). cbn [info_wf] in Hi. destruct_and!.
    assert (Some (reg_file c !!! Z.to_nat rs1, reg_file c !!! Z.to_nat rs2, imm0, 4) = Some (a, b, imm, len))
      as [= <- <- -> <-] by (by destruct i). cbn [exec_branch].
    erewrite bind_Ok by (by apply reg_read_run). cbn [fst snd]. rewrite HF by (by apply reg_value).
    destruct (cond _ _).
    - unfold bind, gets. cbv zeta. change (wrap 64 (pc c + imm)) with target. rewrite check_jump_run by done.
      destruct (target_ok c 4 target); [|done]. by apply retire_pc.
    - erewrite bind_Ok by reflexivity. by apply retire_pc. }
  assert (forall F, (forall x, F x 0 = cond x 0) -> i = C_BEQZ \/ i = C_BNEZ ->
    exec_compress_branch F info c = if cond a b then
      if target_ok c len target then (Ok tt, retired (reg_file c) target c)
      else (Err InstructionMisaligned, set_pending_tval (Some target) c)
    else (Ok tt, retired (reg_file c) ((pc c + len) mod 2 ^ 64) c)) as Hc2.
  { intros F HF N. destruct info; try (by destruct N as [->| ->]; discriminate Hop). cbn [info_wf] in Hi. destruct_and!.
    assert (Some (reg_file c !!! Z.to_nat rd_rs1, 0, imm0, 2) = Some (a, b, imm, len))
      as [= <- <- -> <-] by (by destruct N as [->| ->]). cbn [exec_compress_branch].
    erewrite bind_Ok by (by apply reg_read_run). cbn [fst snd]. rewrite HF.
    destruct (cond _ _); erewrite bind_Ok by reflexivity; by apply retire_pc. }
  destruct i; cbn in Hb; try discriminate Hb; injection Hb as <-;
    first [apply Hc2; [done|auto] | apply H4; [|done|done]; intros x y Hx Hy];
    unfold ExecSignedLess_bool, ExecSignedGreatEqual; rewrite ?as_signed_i128_spec by done; done.
Qed.

Lemma land_not_1 z : u64 z -> Z.land z (bnot 64 1) = 2 * (z / 2).
Proof.
  intros Hz. replace (2 * (z / 2)) with (Z.shiftl (Z.shiftr z 1) 1)
    by (rewrite Z.shiftl_mul_pow2, Z.shiftr_div_pow2 by lia; apply Z.mul_comm).
  bitwise i. change (Z.testbit 1 i) with (Z.testbit (Z.ones 1) i). rewrite ones_testbit by lia.
  destruct (Z.ltb_spec i 1).
  - by rewrite (Z.testbit_neg_r _ (i - 1)), !andb_false_r by lia.
  - autorewrite with bits. replace (i - 1 + 1) with i by lia.
    destruct (Z.ltb_spec i 64); [by rewrite andb_true_r|]. by rewrite (uint_testbit_high 64 z) by (done || lia).
Qed.

Lemma add_chk_run c a n : (overflow_checks = true -> a + n < 2 ^ 64) ->
  add_chk (E := Exception) 64 a n c = (Ok ((a + n) mod 2 ^ 64), c).
Proof.
  intros Hov. unfold add_chk. destruct overflow_checks; [|done]. cbn [andb].
  by rewrite (proj2 (Z.leb_gt _ _)) by (by apply Hov).
Qed.

(** Writing the link register and the program counter, in either order. *)
Lemma link_run c rd v p : cpu_wf c -> reg_ok rd -> counter_ok c ->
  (reg_write rd v ;;; write_pc p ;;; retire) c = (Ok tt, retired (write_reg rd v (reg_file c)) p c) /\
  (write_pc p ;;; reg_write rd v ;;; retire) c = (Ok tt, retired (write_reg rd v (reg_file c)) p c).
Proof.
  intros Hc Hr Hov. assert (length (reg_file c) = REGFILE_CNT) as Hl by apply (wf_regs c Hc).
  pose proof (wf_csr c Hc) as Hcsr. split.
  - erewrite bind_Ok by (by apply reg_write_run). erewrite bind_Ok by reflexivity. by rewrite retire_run.
  - erewrite bind_Ok by reflexivity. erewrite bind_Ok by (by apply reg_write_run). by rewrite retire_run.
Qed.

(** The jumps go to their target, the lowest bit cleared for the indirect
    ones, and leave the address of the next instruction in the link register;
    a target that is not 4-byte aligned without the C extension raises
    [InstructionMisaligned] with the target as trap value and nothing else. *)
Theorem jump_correct i info target rd len c :
  isa_jump i info (reg_file c) (pc c) = Some (target, rd, len) ->
  cpu_wf c -> info_wf info -> counter_ok c -> (overflow_checks = true -> pc c + len < 2 ^ 64) ->
  get_exec_func i info c =
    if target_ok c len target then
      (Ok tt, retired (write_reg rd ((pc c + len) mod 2 ^ 64) (reg_file c)) target c)
    else (Err InstructionMisaligned, set_pending_tval (Some target) c).
Proof.
  intros Hj Hc Hi Hov Hpc. pose proof (wf_csr c Hc) as Hcsr.
  assert (reg_ok 0 /\ reg_ok 1) as [H0r H1r] by done.
  destruct i, info; cbn in Hj; try discriminate Hj; injection Hj as <- <- <-; cbn [info_wf] in Hi; destruct_and?.
  - change (get_exec_func JAL) with (exec_jal (D := D) (X := X)). cbn [exec_jal].
    erewrite bind_Ok by reflexivity. cbv zeta. unfold bind at 1. rewrite check_jump_run by done.
    change (wrap 64 (pc c + imm)) with ((pc c + imm) mod 2 ^ 64).
    destruct (target_ok c 4 _); [|done]. by apply link_run.
  - change (get_exec_func JALR) with (exec_jalr (D := D) (X := X)). cbn [exec_jalr].
    erewrite bind_Ok by reflexivity. erewrite bind_Ok by (by apply add_chk_run).
    erewrite bind_Ok by (by apply reg_read_run). cbn [fst snd]. cbv zeta. rewrite land_not_1 by (by apply wrap_range).
    unfold bind at 1. rewrite check_jump_run by done. unfold wrap. destruct (target_ok c 4 _); [|done]. by apply link_run.
  - change (get_exec_func C_J) with (exec_compress_jump (D := D) (X := X) false). cbn [exec_compress_jump].
    erewrite bind_Ok by reflexivity. cbv zeta. erewrite bind_Ok by reflexivity.
    erewrite bind_Ok by reflexivity. by apply retire_pc.
  - change (get_exec_func C_JAL) with (exec_compress_jump (D := D) (X := X) true). cbn [exec_compress_jump].
    erewrite bind_Ok by reflexivity. cbv zeta. by apply link_run.
  - change (get_exec_func C_JR) with (exec_compress_jump_reg (D := D) (X := X) false). cbn [exec_compress_jump_reg].
    erewrite bind_Ok by reflexivity. erewrite bind_Ok by (by apply add_chk_run).
    erewrite bind_Ok by (by apply reg_read_run). cbn [fst snd]. rewrite land_not_1 by (by apply reg_value).
    erewrite bind_Ok by reflexivity. erewrite bind_Ok by reflexivity. by apply retire_pc.
  - change (get_exec_func C_JALR) with (exec_compress_jump_reg (D := D) (X := X) true). cbn [exec_compress_jump_reg].
    erewrite bind_Ok by reflexivity. erewrite bind_Ok by (by apply add_chk_run).
    erewrite bind_Ok by (by apply reg_read_run). cbn [fst snd]. rewrite land_not_1 by (by apply reg_value).
    by apply link_run.
Qed.
End Control.

(** ** Memory instructions *)

(** What a store instruction says: width, base register, register stored,
    offset, and its length. *)
Definition store_form (i : RiscvInstr) (info : RVInstrInfo) : option (UInt * Z * Z * Z * Z) :=
  match i, info with
  | SB, IS rs1 rs2 imm => Some (U8, rs1, rs2, imm, 4)
  | SH, IS rs1 rs2 imm => Some (U16, rs1, rs2, imm, 4)
  | SW, IS rs1 rs2 imm => Some (U32, rs1, rs2, imm, 4)
  | SD, IS rs1 rs2 imm => Some (U64, rs1, rs2, imm, 4)
  | C_SW, ICS rs1 rs2 imm => Some (U32, rs1, rs2, imm, 2)
  | C_SD, ICS rs1 rs2 imm => Some (U64, rs1, rs2, imm, 2)
  | C_SWSP, ICSS rs2 imm => Some (U32, 2, rs2, imm, 2)
  | C_SDSP, ICSS rs2 imm => Some (U64, 2, rs2, imm, 2)
  | _, _ => None
  end.

(** What a load says: width, whether it sign-extends, base register,
    destination, offset, and its length. *)
Definition load_form (i : RiscvInstr) (info : RVInstrInfo) : option (UInt * bool * Z * Z * Z * Z) :=
  match i, info with
  | LB, II rs1 rd imm => Some (U8, true, rs1, rd, imm, 4)
  | LBU, II rs1 rd imm => Some (U8, false, rs1, rd, imm, 4)
  | LH, II rs1 rd imm => Some (U16, true, rs1, rd, imm, 4)
  | LHU, II rs1 rd imm => Some (U16, false, rs1, rd, imm, 4)
  | LW, II rs1 rd imm => Some (U32, true, rs1, rd, imm, 4)
  | LWU, II rs1 rd imm => Some (U32, false, rs1, rd, imm, 4)
  | LD, II rs1 rd imm => Some (U64, false, rs1, rd, imm, 4)
  | C_LW, ICL rd rs1 imm => Some (U32, true, rs1, rd, imm, 2)
  | C_LD, ICL rd rs1 imm => Some (U64, false, rs1, rd, imm, 2)
  | C_LWSP, ICI rd imm => Some (U32, true, 2, rd, imm, 2)
  | C_LDSP, ICI rd imm => Some (U64, false, 2, rd, imm, 2)
  | _, _ => None
  end.

(** The value a load delivers for the stored word [v]. *)
Definition loaded (t : UInt) (sign : bool) (v : Z) : Z :=
  if sign then to_signed (BITS t) (v mod 2 ^ BITS t) mod 2 ^ 64 else v mod 2 ^ BITS t.

Definition the_ram {D X} (c : RVCPU D X) : Ram := ram (mmio (memory c)).
Definition with_the_ram {D X} (r : Ram) (c : RVCPU D X) : RVCPU D X :=
  set_memory (Build_VirtAddrManager (set_ram (mmio (memory c)) r) (page_table (memory c))) c.

(** M-mode without [MPRV]: accesses are not translated. *)
Definition machine_direct {D X} (c : RVCPU D X) : Prop :=
  cpl (csr c) = LvM /\ Z.testbit (val (csr c) Mstatus) 17 = false.

(** An aligned access inside RAM. *)
Definition ram_access (t : UInt) (addr : Z) : Prop :=
  BASE_ADDR <= addr /\ addr + size_of t <= BASE_ADDR + SIZE /\ (size_of t | addr).

Section MemInstr.
Context {D X : Type} `{DeviceTrait D} `{Profile} `{ExtUnit D X} `{ExtOk X}.
Implicit Types c : RVCPU D X.

Lemma data_policy_direct c access : csr_wf (csr c) -> machine_direct c ->
  data_policy access c = (Ok Direct, c).
Proof.
  intros Hwf [Hl Hm].
  assert (effective_level (csr c) = Some LvM) as He by (unfold effective_level; by rewrite Hl, Hm).
  destruct (determine_run (E := Exception) (csr c) Hwf) as (p & Hd & Hp & _);
    [intros l; rewrite He; by intros [= <-]|by rewrite Hl|].
  rewrite He in Hp. unfold data_policy. rewrite <- (set_csr_id c) at 1. rewrite (on_csr_run _ _ _ Direct (csr c)).
  - by rewrite set_csr_id.
  - unfold resolve_data_policy. erewrite bind_Ok by exact Hd. by destruct p.
Qed.

Lemma ram_access_in t addr : ram_access t addr ->
  (BASE_ADDR <=? addr) = true /\ in_ram t (addr - BASE_ADDR) /\ check_align t (addr - BASE_ADDR) = true.
Proof.
  intros (Hlo & Hhi & Hal). split; [by apply Z.leb_le|]. split; [unfold in_ram; lia|].
  apply check_align_spec. apply Z.divide_sub_r; [done|]. unfold BASE_ADDR.
  destruct t; cbn; [exists 0x80000000|exists 0x40000000|exists 0x20000000|exists 0x10000000]; done.
Qed.

(** The RAM after a store. *)
Definition stored (t : UInt) (addr v : Z) (r : Ram) : Ram :=
  set_data (store_bytes (addr - BASE_ADDR) (split_le (nbytes t) v)) (try_invalidate_reservation (addr - BASE_ADDR) r).

Lemma mem_write_run c t addr v : csr_wf (csr c) -> machine_direct c -> ptr_aligned (the_ram c) ->
  ram_access t addr ->
  mem_write t addr v c = (Ok tt, with_the_ram (stored t addr v (the_ram c)) c).
Proof.
  intros Hwf Hd Hp Ha. destruct (ram_access_in t addr Ha) as (Hlo & Hin & Hal).
  unfold mem_write. erewrite bind_Ok by (by apply data_policy_direct).
  unfold finish_memory_access, on_memory, zoom, write_with_policy, translate_with_policy, bind, ret, on_mmio, zoom,
    write_by_type, with_ram, zoom. rewrite Hlo. unfold the_ram in *.
  rewrite write_spec by done. rewrite (proj2 (contains_access_spec _ _ (proj1 Hin)) Hin), Hal. done.
Qed.

Lemma mem_read_run c t addr : csr_wf (csr c) -> machine_direct c -> ptr_aligned (the_ram c) ->
  ram_access t addr ->
  mem_read t addr c = (Ok (load_le (the_ram c) (addr - BASE_ADDR) (nbytes t)), c).
Proof.
  intros Hwf Hd Hp Ha. destruct (ram_access_in t addr Ha) as (Hlo & Hin & Hal).
  unfold mem_read. erewrite bind_Ok by (by apply data_policy_direct).
  unfold finish_memory_access, on_memory, zoom, read_with_policy, translate_with_policy, bind, ret, on_mmio, zoom,
    read_by_type, with_ram, zoom. rewrite Hlo. unfold the_ram in *.
  rewrite read_spec by done. rewrite (proj2 (contains_access_spec _ _ (proj1 Hin)) Hin), Hal.
  destruct c as [? ? [[? ? ?] ?] ? ? ? ? ? ?]. done.
Qed.

(** The body of every store and of every load. *)
Lemma store_form_run t rs1 rs2 imm c : cpu_wf c -> reg_ok rs1 -> reg_ok rs2 -> machine_direct c -> ptr_aligned (the_ram c) ->
  let addr := (reg_file c !!! Z.to_nat rs1 + imm) mod 2 ^ 64 in
  ram_access t addr ->
  (v <- reg_read rs1 rs2 ;; mem_write t (wrapping_add_as_signed (fst v) imm) (truncate_from t (snd v))) c =
    (Ok tt, with_the_ram (stored t addr ((reg_file c !!! Z.to_nat rs2) mod 2 ^ BITS t) (the_ram c)) c).
Proof.
  intros Hc H1r H2r Hd Hp addr Ha. erewrite bind_Ok by (by apply reg_read_run). cbn [fst snd].
  rewrite wrapping_add_as_signed_spec. apply mem_write_run; [apply (wf_csr c Hc)|done..].
Qed.

Lemma load_form_run t sign rs1 rd imm c : cpu_wf c -> reg_ok rs1 -> reg_ok rd -> machine_direct c -> ptr_aligned (the_ram c) ->
  let addr := (reg_file c !!! Z.to_nat rs1 + imm) mod 2 ^ 64 in
  ram_access t addr ->
  (v <- reg_read rs1 0 ;; handle_load t sign rd (wrapping_add_as_signed (fst v) imm)) c =
    (Ok tt, set_reg_file (write_reg rd (loaded t sign (load_le (the_ram c) (addr - BASE_ADDR) (nbytes t))) (reg_file c)) c).
Proof.
  intros Hc H1r H2r Hd Hp addr Ha. pose proof (wf_csr c Hc) as Hcsr. assert (reg_ok 0) as H0r by done.
  assert (length (reg_file c) = REGFILE_CNT) as Hl by apply (wf_regs c Hc).
  erewrite bind_Ok by (by apply reg_read_run). cbn [fst snd].
  rewrite wrapping_add_as_signed_spec. unfold handle_load. erewrite bind_Ok by (by apply mem_read_run).
  set (v := load_le _ _ _). assert (uint (BITS t) v) as Hv.
  { unfold v. rewrite <- nbytes_bits. apply load_le_range, (wf_mem c Hc). }
  assert ((if sign then sign_extend v (size_of t * 8) else v) = loaded t sign v) as ->.
  { unfold loaded. destruct sign; [|symmetry; by apply (wrap_small (BITS t))].
    rewrite sign_extend_signed by (by destruct t). by destruct t. }
  by apply reg_write_run.
Qed.

Lemma exec_store_run i info t rs1 rs2 imm len c : store_form i info = Some (t, rs1, rs2, imm, len) ->
  cpu_wf c -> info_wf info -> counter_ok c -> machine_direct c -> ptr_aligned (the_ram c) ->
  let addr := (reg_file c !!! Z.to_nat rs1 + imm) mod 2 ^ 64 in
  ram_access t addr ->
  get_exec_func i info c =
    (Ok tt, retired (reg_file c) ((pc c + len) mod 2 ^ 64)
      (with_the_ram (stored t addr ((reg_file c !!! Z.to_nat rs2) mod 2 ^ BITS t) (the_ram c)) c)).
Proof.
  intros Ht Hc Hi Hov Hd Hp addr Ha. pose proof (wf_csr c Hc) as Hcsr. assert (reg_ok 2) as H2r by done.
  assert (reg_ok rs1 /\ reg_ok rs2) as [Hr1 Hr2]
    by (destruct i; try discriminate Ht; destruct info; try discriminate Ht; injection Ht as <- <- <- <- <-; cbn in Hi; tauto).
  assert (get_exec_func i info c = ((v <- reg_read rs1 rs2 ;; mem_write t (wrapping_add_as_signed (fst v) imm) (truncate_from t (snd v))) ;;;
    pc_add len ;;; retire) c) as ->
    by (destruct i; try discriminate Ht; destruct info; try discriminate Ht; injection Ht as <- <- <- <- <-; reflexivity).
  erewrite bind_Ok by (by apply store_form_run). exact (finish_run (with_the_ram _ c) (reg_file c) len Hcsr Hov).
Qed.

Lemma exec_load_run i info t sign rs1 rd imm len c : load_form i info = Some (t, sign, rs1, rd, imm, len) ->
  cpu_wf c -> info_wf info -> counter_ok c -> machine_direct c -> ptr_aligned (the_ram c) ->
  let addr := (reg_file c !!! Z.to_nat rs1 + imm) mod 2 ^ 64 in
  ram_access t addr ->
  get_exec_func i info c =
    (Ok tt, retired (write_reg rd (loaded t sign (load_le (the_ram c) (addr - BASE_ADDR) (nbytes t))) (reg_file c))
      ((pc c + len) mod 2 ^ 64) c).
Proof.
  intros Ht Hc Hi Hov Hd Hp addr Ha. pose proof (wf_csr c Hc) as Hcsr. assert (reg_ok 2) as H2r by done.
  assert (reg_ok rs1 /\ reg_ok rd) as [Hr1 Hr2]
    by (destruct i; try discriminate Ht; destruct info; try discriminate Ht; injection Ht as <- <- <- <- <- <-; cbn in Hi; tauto).
  assert (get_exec_func i info c = ((v <- reg_read rs1 0 ;; handle_load t sign rd (wrapping_add_as_signed (fst v) imm)) ;;;
    pc_add len ;;; retire) c) as ->
    by (destruct i; try discriminate Ht; destruct info; try discriminate Ht; injection Ht as <- <- <- <- <- <-; reflexivity).
  apply normal_run; [done|done|by apply load_form_run].
Qed.

Lemma load_stored t addr v r : 0 <= v ->
  load_le (stored t addr v r) (addr - BASE_ADDR) (nbytes t) = v mod 2 ^ BITS t.
Proof.
  intros Hv. rewrite (load_le_split _ _ _ v), nbytes_bits; [done|done|]. intros k Hk. unfold stored.
  rewrite byte_at_store. assert (Z.of_nat k < size_of t) by (rewrite <- nbytes_size; lia).
  split_ltb; simpl; try lia. do 3 f_equal. lia.
Qed.

Lemma retired_with_ram c regs p r : retired regs p (with_the_ram r c) = with_the_ram r (retired regs p c).
Proof. by destruct c. Qed.

(** A hart after a store: the invariant and the mode it was in. *)
Lemma after_store c p r : cpu_wf c -> u64 p -> ram_wf r -> machine_direct c ->
  let c' := retired (reg_file c) p (with_the_ram r c) in cpu_wf c' /\ machine_direct c'.
Proof.
  intros [Hr Hp Hs Hm] Hup Hram [Hl Hb] c'. split.
  - split; cbn; try done. apply upd_wf; [done|]. by apply (wrap_range 64).
  - split; [done|]. unfold c', retired. cbn [csr set_csr]. by rewrite val_upd_ne.
Qed.

(** C10: Store, then load.  In M-mode with [mstatus.MPRV] clear, so that no address
    is translated: an integer register stored to a naturally aligned address of
    RAM (SB to SD, C.SW, C.SD, C.SWSP, C.SDSP) and loaded back by an integer
    load of the same width from the same address (LB to LD, LBU to LWU, C.LW,
    C.LD, C.LWSP, C.LDSP; base and offset may differ), gives the register's low
    bits, sign- or zero-extended as the load says.  Both instructions retire,
    other registers are unchanged and the program counter advances by the two
    lengths.  The RAM buffer is 8-byte aligned on the host, and with overflow
    checks [minstret] is not about to overflow. *)
Theorem store_load_roundtrip st ld sinfo linfo t sign rs1 rs2 rd rb imm imm' slen llen c :
  store_form st sinfo = Some (t, rs1, rs2, imm, slen) -> load_form ld linfo = Some (t, sign, rb, rd, imm', llen) ->
  cpu_wf c -> info_wf sinfo -> info_wf linfo -> machine_direct c -> ptr_aligned (the_ram c) ->
  (overflow_checks = true -> val (csr c) Minstret + 2 < 2 ^ 64) ->
  let addr := (reg_file c !!! Z.to_nat rs1 + imm) mod 2 ^ 64 in
  ram_access t addr -> (reg_file c !!! Z.to_nat rb + imm') mod 2 ^ 64 = addr ->
  exists c', (get_exec_func st sinfo ;;; get_exec_func ld linfo) c = (Ok tt, c') /\
    reg_file c' = write_reg rd (loaded t sign (reg_file c !!! Z.to_nat rs2)) (reg_file c) /\
    pc c' = (pc c + slen + llen) mod 2 ^ 64.
Proof.
  intros Hst Hld Hc Hsi Hli Hd Hp Hov addr Ha Hb.
  assert (counter_ok c) as Hov1 by (intros Ho; specialize (Hov Ho); lia).
  pose proof (exec_store_run st sinfo t rs1 rs2 imm slen c Hst Hc Hsi Hov1 Hd Hp Ha) as Es. cbn zeta in Es. fold addr in Es.
  set (v := reg_file c !!! Z.to_nat rs2) in *. set (r' := stored t addr (v mod 2 ^ BITS t) (the_ram c)) in *.
  set (c1 := retired _ _ _) in Es.
  assert (ram_wf r') as Hr' by (apply set_data_wf, try_invalidate_wf, (wf_mem c Hc)).
  assert (ptr_aligned r') as Hp'.
  { unfold ptr_aligned, r', stored. cbn. by destruct (try_invalidate_data (addr - BASE_ADDR) (the_ram c)) as (_ & _ & ->). }
  destruct (after_store c ((pc c + slen) mod 2 ^ 64) r' Hc) as [Hc1 Hd1]; [by apply (wrap_range 64)|done|done|].
  assert (counter_ok c1) as Hov2.
  { intros Ho. specialize (Hov Ho). unfold c1, retired. cbn [csr set_csr with_the_ram set_memory].
    rewrite val_upd_eq by (apply (wf_csr c Hc) || apply known_of; reflexivity).
    pose proof (val_u64 (csr c) Minstret (wf_csr c Hc)) as [? _]. rewrite Z.mod_small by lia. lia. }
  pose proof (exec_load_run ld linfo t sign rb rd imm' llen c1 Hld Hc1 Hli Hov2 Hd1 Hp') as El. cbn zeta in El.
  change (reg_file c1) with (reg_file c) in El. rewrite Hb in El.
  exists (retired (write_reg rd (loaded t sign v) (reg_file c)) ((pc c + slen + llen) mod 2 ^ 64) c1). split; [|done].
  erewrite bind_Ok by exact Es. rewrite El by exact Ha.
  change (the_ram c1) with r'. unfold r' at 1.
  rewrite load_stored by (apply Z.mod_pos_bound, pow2_pos; by destruct t).
  assert (loaded t sign ((v mod 2 ^ BITS t) mod 2 ^ BITS t) = loaded t sign v) as ->.
  { unfold loaded. by rewrite !Z.mod_mod by (destruct t; done). }
  change (pc c1) with ((pc c + slen) mod 2 ^ 64). by rewrite Zplus_mod_idemp_l.
Qed.
End MemInstr.

(** ** Atomic memory operations *)

(** Width and new value of an AMO on the words [v] (memory) and [r]
    (register). *)
Definition isa_amo (i : RiscvInstr) : option (UInt * (Z -> Z -> Z)) :=
  let smax w v r := if to_signed w v <? to_signed w r then r else v in
  let smin w v r := if to_signed w r <? to_signed w v then r else v in
  match i with
  | AMOSWAP_W => Some (U32, fun v r => r) | AMOSWAP_D => Some (U64, fun v r => r)
  | AMOADD_W => Some (U32, fun v r => (v + r) mod 2 ^ 32) | AMOADD_D => Some (U64, fun v r => (v + r) mod 2 ^ 64)
  | AMOAND_W => Some (U32, Z.land) | AMOAND_D => Some (U64, Z.land)
  | AMOOR_W => Some (U32, Z.lor) | AMOOR_D => Some (U64, Z.lor)
  | AMOXOR_W => Some (U32, Z.lxor) | AMOXOR_D => Some (U64, Z.lxor)
  | AMOMAX_W => Some (U32, smax 32) | AMOMAX_D => Some (U64, smax 64)
  | AMOMIN_W => Some (U32, smin 32) | AMOMIN_D => Some (U64, smin 64)
  | AMOMAXU_W => Some (U32, Z.max) | AMOMAXU_D => Some (U64, Z.max)
  | AMOMINU_W => Some (U32, Z.min) | AMOMINU_D => Some (U64, Z.min)
  | _ => None
  end.

Definition amo_function (i : RiscvInstr) : option (UInt * AMOTrait) :=
  match i with
  | AMOSWAP_W => Some (U32, ExecAmoSwap) | AMOSWAP_D => Some (U64, ExecAmoSwap)
  | AMOADD_W => Some (U32, ExecAmoAdd) | AMOADD_D => Some (U64, ExecAmoAdd)
  | AMOAND_W => Some (U32, ExecAmoAnd) | AMOAND_D => Some (U64, ExecAmoAnd)
  | AMOOR_W => Some (U32, ExecAmoOr) | AMOOR_D => Some (U64, ExecAmoOr)
  | AMOXOR_W => Some (U32, ExecAmoXor) | AMOXOR_D => Some (U64, ExecAmoXor)
  | AMOMAX_W => Some (U32, ExecAmoMax) | AMOMAX_D => Some (U64, ExecAmoMax)
  | AMOMIN_W => Some (U32, ExecAmoMin) | AMOMIN_D => Some (U64, ExecAmoMin)
  | AMOMAXU_W => Some (U32, ExecAmoMaxU) | AMOMAXU_D => Some (U64, ExecAmoMaxU)
  | AMOMINU_W => Some (U32, ExecAmoMinU) | AMOMINU_D => Some (U64, ExecAmoMinU)
  | _ => None
  end.

Lemma signed_back w v : 0 < w -> uint w v -> wrap w (to_signed w v) = v.
Proof. intros Hw Hv. rewrite wrap_to_signed by lia. by apply wrap_small. Qed.

Lemma amo_function_isa i t f o v r : isa_amo i = Some (t, f) -> uint (BITS t) v -> uint (BITS t) r ->
  exists F, amo_function i = Some (t, F) /\ F t o v r = Ok (v, f v r) /\ uint (BITS t) (f v r).
Proof.
  intros Hf Hv Hr. destruct i; cbn in Hf; try discriminate Hf; injection Hf as <- <-;
    eexists; (split; [reflexivity|]); cbn [BITS] in *;
    unfold ExecAmoSwap, ExecAmoAdd, ExecAmoAnd, ExecAmoOr, ExecAmoXor, ExecAmoMax, ExecAmoMin, ExecAmoMaxU, ExecAmoMinU;
    cbn [BITS]; repeat match goal with
    | |- context [Z.max (to_signed ?w ?x) (to_signed ?w ?y)] =>
        destruct (Z.ltb_spec (to_signed w x) (to_signed w y));
        [rewrite Z.max_r by lia|rewrite Z.max_l by lia]; rewrite signed_back by (done || lia)
    | |- context [Z.min (to_signed ?w ?x) (to_signed ?w ?y)] =>
        destruct (Z.ltb_spec (to_signed w y) (to_signed w x));
        [rewrite Z.min_r by lia|rewrite Z.min_l by lia]; rewrite signed_back by (done || lia)
    end; (split; [reflexivity|]); try done; auto with here;
    first [ by apply (wrap_range 32) | by apply (wrap_range 64) | unfold uint in *; lia | auto with here lia ].
Qed.

Section Amo.
Context {D X : Type} `{DeviceTrait D} `{Profile} `{ExtUnit D X} `{ExtOk X}.
Implicit Types c : RVCPU D X.

(** The RAM after an AMO. *)
Definition amo_stored (t : UInt) (addr v : Z) (r : Ram) : Ram :=
  try_invalidate_reservation (addr - BASE_ADDR) (set_data (store_bytes (addr - BASE_ADDR) (split_le (nbytes t) v)) r).

Lemma amo_stored_eq t addr v r : amo_stored t addr v r = stored t addr v r.
Proof.
  unfold amo_stored, stored, try_invalidate_reservation. destruct r as [p f d [res|]]; cbn; [|done].
  by destruct (in_the_same_reservation_set _ _).
Qed.

Lemma dispatch_amo i t F : amo_function i = Some (t, F) ->
  get_exec_func (D := D) (X := X) i = exec_atomic_memory_operation F t.
Proof. destruct i; cbn; intros E; try discriminate E; injection E as <- <-; reflexivity. Qed.

Lemma amo_run c t addr rhs f v new : csr_wf (csr c) -> machine_direct c -> ram_access t addr ->
  v = load_le (the_ram c) (addr - BASE_ADDR) (nbytes t) -> f v rhs = Ok (v, new) ->
  fetch_and_op_amo t addr rhs f c = (Ok v, with_the_ram (stored t addr new (the_ram c)) c).
Proof.
  intros Hwf Hd Ha Hv Hf. destruct (ram_access_in t addr Ha) as (Hlo & Hin & Hal).
  assert (check_align t addr = true) as Hal' by (apply check_align_spec, Ha).
  assert (in_ram_window addr = true) as Hw.
  { unfold in_ram_window. rewrite Hlo. apply Z.ltb_lt. destruct Ha as (? & ? & _). destruct t; cbn in *; lia. }
  assert ((addr - BASE_ADDR <? SIZE) = true) as Hs
    by (apply Z.ltb_lt; destruct Hin; destruct t; cbn in *; lia).
  unfold fetch_and_op_amo. erewrite bind_Ok by (by apply data_policy_direct).
  unfold on_memory, zoom, fetch_and_op_amo_with_policy, translate_with_policy, bind, map_err, ret.
  rewrite Hal', Hw. cbn [negb]. unfold on_mmio, zoom, amo_cell, assert, bind, gets, lift_res, modify, ret.
  rewrite Hs. unfold the_ram in *. rewrite <- Hv, Hf. cbn [fst snd]. rewrite <- amo_stored_eq. done.
Qed.

(** C11: In M-mode on an aligned RAM address an AMO returns the old value of the
    word, sign-extended, in its destination and leaves in memory the value the
    instruction set defines from the old value and the register; it retires,
    and no other byte of memory changes. *)
Theorem amo_correct i t f rs1 rs2 rd rl aq c :
  isa_amo i = Some (t, f) -> cpu_wf c -> reg_ok rs1 -> reg_ok rs2 -> reg_ok rd -> counter_ok c ->
  machine_direct c ->
  let addr := reg_file c !!! Z.to_nat rs1 in
  let old := load_le (the_ram c) (addr - BASE_ADDR) (nbytes t) in
  let new := f old ((reg_file c !!! Z.to_nat rs2) mod 2 ^ BITS t) in
  ram_access t addr ->
  exists r', get_exec_func i (IA rs1 rs2 rd rl aq) c =
      (Ok tt, retired (write_reg rd (to_signed (BITS t) old mod 2 ^ 64) (reg_file c)) ((pc c + 4) mod 2 ^ 64)
        (with_the_ram r' c)) /\
    load_le r' (addr - BASE_ADDR) (nbytes t) = new /\
    forall j, j < addr - BASE_ADDR \/ addr - BASE_ADDR + size_of t <= j -> byte_at r' j = byte_at (the_ram c) j.
Proof.
  intros Hf Hc H1r H2r H3r Hov Hd addr old new Ha. set (rhs := _ mod 2 ^ BITS t) in new.
  assert (uint (BITS t) old) as Ho by (unfold old; rewrite <- nbytes_bits; apply load_le_range, (wf_mem c Hc)).
  assert (uint (BITS t) rhs) as Hrhs by (apply (wrap_range (BITS t)); by destruct t).
  destruct (amo_function_isa i t f (get_amo_order aq rl) old rhs Hf Ho Hrhs) as (F & HF & HFo & Hnew).
  exists (stored t addr new (the_ram c)). split; [|split].
  - rewrite (dispatch_amo i t F HF). cbn [exec_atomic_memory_operation].
    erewrite bind_Ok by (by apply reg_read_run). cbn [fst snd]. cbv zeta. fold addr.
    erewrite bind_Ok by (apply (amo_run _ _ _ _ _ old new); [apply (wf_csr c Hc)|done|done|done|exact HFo]).
    erewrite bind_Ok by (apply reg_write_run; [apply (wf_regs c Hc)|done]).
    assert (sign_extend_to_wordtype t old = to_signed (BITS t) old mod 2 ^ 64) as ->.
    { assert (t = U32 \/ t = U64) as [-> | ->] by (destruct i; cbn in Hf; simplify_eq; auto).
      - cbn [sign_extend_to_wordtype BITS]. unfold sign_extend_u32. rewrite sign_extend_signed by lia.
        by rewrite (wrap_small 32 old).
      - cbn [sign_extend_to_wordtype BITS]. symmetry. by apply (signed_back 64). }
    exact (finish_run (with_the_ram _ c) _ 4 (wf_csr c Hc) Hov).
  - rewrite load_stored by apply Hnew. by apply (wrap_small (BITS t)).
  - intros j Hj. unfold stored. rewrite byte_at_store. split_ltb; simpl; try lia; done.
Qed.
End Amo.

(** ** CSR reads are not counted *)
Section CsrRead.
Context {D X : Type} `{DeviceTrait D} `{Profile} `{ExtUnit D X} `{ExtOk X}.
Implicit Types c : RVCPU D X.

(** CSRRS and CSRRC with [x0], the CSR reads of the instruction set, leave
    every CSR unchanged: unlike every other instruction that completes, they do
    not advance [minstret]. *)
Theorem csr_read_not_counted i rd imm c c' :
  i = CSRRS \/ i = CSRRC -> cpu_wf c -> reg_ok rd ->
  get_exec_func i (II 0 rd imm) c = (Ok tt, c') -> csr c' = csr c.
Proof.
  intros Hi Hc Hr E. assert (reg_ok 0) as H0r by done. destruct (wf_regs c Hc) as (Hl & _ & Hz).
  assert (exists set, exec_csr_bit set false (II 0 rd imm) c = (Ok tt, c')) as [set E'].
  { destruct Hi as [-> | ->]; [exists true|exists false]; exact E. }
  clear E Hi.
  cbn [exec_csr_bit] in E'. rewrite (bind_Ok _ _ c 0 c) in E'.
  2:{ erewrite bind_Ok by (by apply reg_read_run). cbn [fst]. by rewrite (list_lookup_total_correct _ _ _ Hz). }
  cbn [Z.eqb] in E'. inv_bind E'. inv_bind Hk. injection Hk0 as <-. cbn [csr set_pc].
  assert (csr s = csr c) as <- by (destruct (silent_read_csr _ _ _ _ Hm) as (_ & _ & -> & _); done).
  revert Hm0. unfold reg_write, bind, gets. destruct (rd =? 0); [by intros [= _ <-]|].
  destruct (_ <=? rd); [discriminate|by intros [= _ <-]].
Qed.
End CsrRead.

(** ** Concrete instances *)
Definition demo_machine : RVCPU Z unit :=
  demo_cpu (demo_regs 0x80005000 (2 ^ 64 - 2) 9) 0x80000000 (demo_csr LvM []).

Lemma demo_machine_wf : cpu_wf demo_machine.
Proof. solve_demo_cpu. Qed.
Lemma demo_machine_direct : machine_direct demo_machine.
Proof. split; vm_compute; reflexivity. Qed.
Lemma demo_machine_counter : @counter_ok dev Z unit demo_machine.
Proof. intros _. vm_compute. reflexivity. Qed.
Lemma demo_machine_ptr : ptr_aligned (the_ram demo_machine).
Proof. exists 512. vm_compute. reflexivity. Qed.

Lemma alu_instr_correct_witness :
  let D := demo_device in let P := dev in
  get_exec_func MULH (IR 2 2 4) demo_machine =
    (Ok tt, retired (write_reg 4 0 (reg_file demo_machine)) 0x80000004 demo_machine) /\
  get_exec_func AUIPC (IU 4 0x1000) demo_machine =
    (Ok tt, retired (write_reg 4 0x80001000 (reg_file demo_machine)) 0x80000004 demo_machine).
Proof.
  intros D P. split.
  - apply (alu_instr_correct MULH (IR 2 2 4) 0 4 4 demo_machine);
      [reflexivity|exact demo_machine_wf|repeat split; discriminate|exact demo_machine_counter].
  - apply (alu_instr_correct AUIPC (IU 4 0x1000) 0x80001000 4 4 demo_machine);
      [reflexivity|exact demo_machine_wf|repeat split; discriminate|exact demo_machine_counter].
Defined.

Lemma branch_correct_witness :
  let D := demo_device in let P := dev in
  get_exec_func BLT (IB 2 3 16) demo_machine =
    (Ok tt, retired (reg_file demo_machine) 0x80000010 demo_machine).
Proof.
  intros D P.
  apply (branch_correct BLT (IB 2 3 16) (fun a b => s64 a <? s64 b) (2 ^ 64 - 2) 9 16 4 demo_machine).
  - reflexivity.
  - reflexivity.
  - exact demo_machine_wf.
  - split_and!; try solve_u64; repeat split; discriminate.
  - exact demo_machine_counter.
Defined.

Lemma jump_correct_witness :
  let D := demo_device in let P := dev in
  get_exec_func JALR (II 1 4 1) demo_machine =
    (Ok tt, retired (write_reg 4 0x80000004 (reg_file demo_machine)) 0x80005000 demo_machine).
Proof.
  intros D P. apply (jump_correct JALR (II 1 4 1) 0x80005000 4 4 demo_machine).
  - vm_compute. reflexivity.
  - exact demo_machine_wf.
  - split_and!; try solve_u64; repeat split; discriminate.
  - exact demo_machine_counter.
  - intros _. vm_compute. reflexivity.
Defined.

(** [sh] and [lh]; [c.sw] and [lwu]. *)
Lemma store_load_roundtrip_witness :
  let D := demo_device in let P := dev in
  (exists c', (get_exec_func SH (IS 1 2 8) ;;; get_exec_func LH (II 1 4 8)) demo_machine = (Ok tt, c') /\
    reg_file c' = write_reg 4 (2 ^ 64 - 2) (reg_file demo_machine) /\ pc c' = 0x80000008) /\
  (exists c', (get_exec_func C_SW (ICS 1 2 8) ;;; get_exec_func LWU (II 1 4 8)) demo_machine = (Ok tt, c') /\
    reg_file c' = write_reg 4 (2 ^ 32 - 2) (reg_file demo_machine) /\ pc c' = 0x80000006).
Proof.
  intros D P. split.
  - apply (store_load_roundtrip SH LH (IS 1 2 8) (II 1 4 8) U16 true 1 2 4 1 8 8 4 4 demo_machine);
      [reflexivity|reflexivity|exact demo_machine_wf|repeat split; discriminate|repeat split; discriminate
      |exact demo_machine_direct|exact demo_machine_ptr|intros _; vm_compute; reflexivity| |reflexivity].
    split_and!; [vm_compute; discriminate|vm_compute; discriminate|]. exists 0x40002804. vm_compute. reflexivity.
  - apply (store_load_roundtrip C_SW LWU (ICS 1 2 8) (II 1 4 8) U32 false 1 2 4 1 8 8 2 4 demo_machine);
      [reflexivity|reflexivity|exact demo_machine_wf|repeat split; discriminate|repeat split; discriminate
      |exact demo_machine_direct|exact demo_machine_ptr|intros _; vm_compute; reflexivity| |reflexivity].
    split_and!; [vm_compute; discriminate|vm_compute; discriminate|]. exists 0x20001402. vm_compute. reflexivity.
Defined.

Lemma amo_correct_witness :
  let D := demo_device in let P := dev in
  exists r', get_exec_func AMOMAX_W (IA 1 3 4 false true) demo_machine =
      (Ok tt, retired (write_reg 4 0 (reg_file demo_machine)) 0x80000004 (with_the_ram r' demo_machine)) /\
    load_le r' 0x5000 4 = 9.
Proof.
  intros D P.
  destruct (amo_correct AMOMAX_W U32 (fun v r => if to_signed 32 v <? to_signed 32 r then r else v)
    1 3 4 false true demo_machine) as (r' & E & Hl & _).
  - reflexivity.
  - exact demo_machine_wf.
  - split; [discriminate|reflexivity].
  - split; [discriminate|reflexivity].
  - split; [discriminate|reflexivity].
  - exact demo_machine_counter.
  - exact demo_machine_direct.
  - split_and!; [vm_compute; discriminate|vm_compute; discriminate|]. exists 0x20001400. vm_compute. reflexivity.
  - exists r'. split; [exact E|exact Hl].
Defined.

Lemma csr_read_not_counted_witness :
  let D := demo_device in let P := dev in
  csr (snd (get_exec_func CSRRS (II 0 4 0x340) demo_machine)) = csr demo_machine.
Proof.
  intros D P. apply (csr_read_not_counted CSRRS 4 0x340 demo_machine).
  - left. reflexivity.
  - exact demo_machine_wf.
  - split; [discriminate|reflexivity].
  - vm_compute. reflexivity.
Defined.

(** CSRRS and CSRRC decide whether they write by the value of their source
    register instead of its number: with a register other than [x0] that holds
    zero they read a read-only CSR ([cycle], 0xC00) without the illegal
    instruction exception that the same instruction raises for any other
    value. *)
Theorem csr_set_tests_value :
  let D := demo_device in let P := dev in
  fst (get_exec_func CSRRS (II 5 4 0xC00) demo_machine) = Ok tt /\
  fst (get_exec_func CSRRS (II 3 4 0xC00) demo_machine) = Err IllegalInstruction.
Proof. vm_compute. auto. Qed.
