(* ===== verification/Decoder.v ===== *)
(** * The decoder (src/src/isa/riscv/decoder/, src/src/isa/utils.rs)

    Three decoders over the generated table of instructions: a table indexed by
    opcode, funct3 and funct7, and two lists of masks ordered by specificity,
    for the 32-bit instructions the first cannot hold and for the compressed
    ones. *)

From stdpp Require Import sorting.
From S2P Require Import Prelude Utils Instr.

(** ** [DecodeMask] *)
Definition matches (d : RVInstrDesc) (instr : Z) : bool := Z.land instr (desc_mask d) =? desc_key d.

Definition count_ones (z : Z) : Z := Z.of_nat (length (filter (fun i => Z.testbit z i = true) (seqZ 0 32))).
Definition count_zeros (z : Z) : Z := 32 - count_ones z.

(** ** Fields of a 32-bit instruction

    [u32_field raw lo bits]: [(raw >> lo) & ones(bits)]. *)
Definition u32_field (raw lo mask : Z) : Z := Z.land (Z.shiftr raw lo) mask.
Definition flag (raw bit : Z) : bool := negb (Z.land (Z.shiftr raw bit) 1 =? 0).

(** The immediate of the I format; the shift amounts of the right shifts drop
    the bits of funct7. *)
Definition i_imm (raw : Z) (i : RiscvInstr) : Z :=
  let imm := u32_field raw 20 0xFFF in
  match i with
  | SRLI | SRAI => Z.land imm 0x3F
  | SRLIW | SRAIW => Z.land imm 0x1F
  | _ => imm
  end.
Definition s_imm (raw : Z) : Z := Z.lor (shl 32 (u32_field raw 25 0xFF) 5) (u32_field raw 7 0x1F).
Definition u_imm (raw : Z) : Z := shl 32 (Z.shiftr raw 12) 12.
Definition b_imm (raw : Z) : Z :=
  Z.lor (Z.lor (Z.lor (shl 32 (u32_field raw 31 1) 12) (shl 32 (u32_field raw 7 1) 11))
               (shl 32 (u32_field raw 25 0x3F) 5)) (shl 32 (u32_field raw 8 0xF) 1).
Definition j_imm (raw : Z) : Z :=
  Z.lor (Z.lor (Z.lor (shl 32 (u32_field raw 31 1) 20) (shl 32 (u32_field raw 12 0xFF) 12))
               (shl 32 (u32_field raw 20 1) 11)) (shl 32 (u32_field raw 21 0x3FF) 1).

(** [None] is [debug_unreachable!] on the compressed formats. *)
Definition decode_info (raw : Z) (i : RiscvInstr) (fmt : InstrFormat) : option RVInstrInfo :=
  let rd := u32_field raw 7 0x1F in
  let rs1 := u32_field raw 15 0x1F in
  let rs2 := u32_field raw 20 0x1F in
  let f3 := u32_field raw 12 0x7 in
  match fmt with
  | FmtV => Some (IV rs1 rs2 rd (negb (Z.land raw (shl 32 1 25) =? 0)) (u32_field raw 26 0x3F))
  | FmtR => Some (IR rs1 rs2 rd)
  | FmtR_rm => Some (IR_rm rs1 rs2 rd f3)
  | FmtR4_rm => Some (IR4_rm rs1 rs2 (u32_field raw 27 0x1F) rd f3)
  | FmtA => Some (IA rs1 rs2 rd (flag raw 25) (flag raw 26))
  | FmtI => Some (II rs1 rd (sign_extend (i_imm raw i) 12))
  | FmtS => Some (IS rs1 rs2 (sign_extend (s_imm raw) 12))
  | FmtU => Some (IU rd (sign_extend (u_imm raw) 32))
  | FmtB => Some (IB rs1 rs2 (sign_extend (b_imm raw) 13))
  | FmtJ => Some (IJ rd (sign_extend (j_imm raw) 21))
  | FmtNone => Some INone
  | FmtCA | FmtCB | FmtCI | FmtCIW | FmtCJ | FmtCL | FmtCR | FmtCS | FmtCSS => None
  end.

(** ** Compressed instructions *)

(** [extract_field!]: each [(dst_high, dst_low, src_low)] moves a range of
    source bits to its place; the ranges do not overlap (a debug assertion). *)
Definition extract_field (raw : Z) (fields : list (Z * Z * Z)) : Z :=
  foldl (fun acc '(hi, lo, src) => Z.lor acc (shl 32 (extract_range U32 raw src (src + hi - lo)) lo)) 0 fields.

Definition sign_ext_extract (raw : Z) (fields : list (Z * Z * Z)) : Z :=
  let from_bits := foldr (fun '(hi, _, _) m => Z.max hi m) 0 fields + 1 in
  sign_extend (extract_field raw fields) from_bits.
Definition zero_ext_extract (raw : Z) (fields : list (Z * Z * Z)) : Z := extract_field raw fields.

Definition cvt_short_reg (reg_idx : Z) : Z := reg_idx + 8.

Definition cb_imm (raw : Z) (i : RiscvInstr) : option Z :=
  match i with
  | C_SRLI | C_SRAI | C_ANDI => Some (sign_ext_extract raw [(5, 5, 12); (4, 0, 2)])
  | C_BEQZ | C_BNEZ => Some (sign_ext_extract raw [(8, 8, 12); (4, 3, 10); (7, 6, 5); (2, 1, 3); (5, 5, 2)])
  | _ => None
  end.

Definition ci_imm (raw : Z) (i : RiscvInstr) : Z :=
  match i with
  | C_ADDI16SP => sign_ext_extract raw [(9, 9, 12); (4, 4, 6); (6, 6, 5); (8, 7, 3); (5, 5, 2)]
  | C_LDSP | C_FLDSP => zero_ext_extract raw [(5, 5, 12); (4, 3, 5); (8, 6, 2)]
  | C_LWSP | C_FLWSP => zero_ext_extract raw [(5, 5, 12); (4, 2, 4); (7, 6, 2)]
  | _ => let imm := sign_ext_extract raw [(5, 5, 12); (4, 0, 2)] in
         if decide (i = C_LUI) then shl 64 imm 12 else imm
  end.

Definition cl_imm (raw : Z) (i : RiscvInstr) : option Z :=
  match i with
  | C_FLD | C_LD | C_FSD | C_SD => Some (zero_ext_extract raw [(5, 3, 10); (7, 6, 5)])
  | C_LW | C_FLW | C_SW | C_FSW => Some (zero_ext_extract raw [(5, 3, 10); (2, 2, 6); (6, 6, 5)])
  | _ => None
  end.

Definition css_imm (raw : Z) (i : RiscvInstr) : option Z :=
  match i with
  | C_FSDSP | C_SDSP => Some (zero_ext_extract raw [(5, 3, 10); (8, 6, 7)])
  | C_SWSP | C_FSWSP => Some (zero_ext_extract raw [(5, 2, 9); (7, 6, 7)])
  | _ => None
  end.

Definition decode_compressed_info (raw : Z) (i : RiscvInstr) (fmt : InstrFormat) : option RVInstrInfo :=
  let rs2 := extract_range U32 raw 2 6 in
  let rd_rs1 := extract_range U32 raw 7 11 in
  let rd_rs2_short := cvt_short_reg (extract_range U32 raw 2 4) in
  let rd_rs1_short := cvt_short_reg (extract_range U32 raw 7 9) in
  match fmt with
  | FmtCA => Some (ICA rd_rs1_short rd_rs2_short)
  | FmtCB => ICB rd_rs1_short <$> cb_imm raw i
  | FmtCI => Some (ICI rd_rs1 (ci_imm raw i))
  | FmtCIW => Some (ICIW rd_rs2_short (zero_ext_extract raw [(5, 4, 11); (9, 6, 7); (2, 2, 6); (3, 3, 5)]))
  | FmtCJ => Some (ICJ (sign_ext_extract raw
               [(11, 11, 12); (4, 4, 11); (9, 8, 9); (10, 10, 8); (6, 6, 7); (7, 7, 6); (3, 1, 3); (5, 5, 2)]))
  | FmtCL => ICL rd_rs2_short rd_rs1_short <$> cl_imm raw i
  | FmtCS => ICS rd_rs1_short rd_rs2_short <$> cl_imm raw i
  | FmtCSS => ICSS rs2 <$> css_imm raw i
  | FmtCR => Some (ICR rd_rs1 rs2)
  | FmtNone => Some INone
  | _ => None
  end.

(** ** The mask decoders

    [sort_by_key(count_zeros)]: the masks with most bits first. *)
Definition specific_le (a b : RVInstrDesc) : Prop := count_zeros (desc_mask a) <= count_zeros (desc_mask b).
#[export] Instance specific_le_dec : RelDecision specific_le.
Proof. intros a b. unfold specific_le. apply _. Defined.
#[export] Instance specific_le_total : Total specific_le.
Proof. intros a b. unfold specific_le. lia. Qed.
#[export] Instance specific_le_trans : Transitive specific_le.
Proof. intros a b c. unfold specific_le. lia. Qed.

Definition masks_from_isa (instrs : list RVInstrDesc) : list RVInstrDesc := merge_sort specific_le instrs.

Definition find_mask (masks : list RVInstrDesc) (raw : Z) : option RVInstrDesc :=
  List.find (fun d => matches d raw) masks.

(** [DecodeInstr] from a recognised instruction; the outer [None] is a panic. *)
Definition decoded (raw : Z) (i : RiscvInstr) (fmt : InstrFormat) : option DecodeInstr :=
  (fun x => {| instr := i; info := x; len := instr_len raw |}) <$> decode_info raw i fmt.

Definition MaskDecoder_decode (masks : list RVInstrDesc) (raw : Z) : option (option DecodeInstr) :=
  match find_mask masks raw with
  | Some d => Some <$> decoded raw (desc_instr d) (desc_format d)
  | None => Some None
  end.

Definition CompressedDecoder_decode (masks : list RVInstrDesc) (raw : Z) : option (option DecodeInstr) :=
  match find_mask masks raw with
  | Some d => (fun x => Some {| instr := desc_instr d; info := x; len := 2 |}) <$>
              decode_compressed_info raw (desc_instr d) (desc_format d)
  | None => Some None
  end.

(** ** The table decoder (funct_decoder.rs) *)
Definition PartialResult : Type := RiscvInstr * InstrFormat.

Inductive PartialDecode : Type :=
| Unknown
| Complete (result : PartialResult)
| SparseF7 (table : list (Z * PartialResult))
| DenseF7 (table : list (option PartialResult)).

Definition MAP_LENGTH : nat := 8.

(** [SmallMap::get]: the first entry with the key. *)
Definition SmallMap_get (m : list (Z * PartialResult)) (key : Z) : option PartialResult :=
  snd <$> List.find (fun p => fst p =? key) m.

(** An index past 127 would panic; [f7] is seven bits. *)
Definition try_make_dense (p : PartialDecode) : PartialDecode :=
  match p with
  | SparseF7 sparse =>
      if (length sparse <? MAP_LENGTH)%nat then p
      else DenseF7 (foldl (fun dense e => <[Z.to_nat (fst e) := Some (snd e)]> dense) (replicate 128 None) sparse)
  | _ => p
  end.

(** [decode_table[opcode][funct3]]; a missing entry is [Unknown]. *)
Definition FunctDecoder : Type := gmap (Z * Z) PartialDecode.
Definition FunctDecoder_new : FunctDecoder := ∅.
Definition cell (t : FunctDecoder) (opcode f3 : Z) : PartialDecode := default Unknown (t !! (opcode, f3)).

Definition OPCODE_BITS : Z := 0x7F.
Definition F3_BITS : Z := shl 32 7 12.
Definition F7_BITS : Z := shl 32 0x7F 25.

Definition get_opcode_f3_f7 (i : Z) : Z * Z * Z :=
  (Z.land i 0x7F, Z.land (Z.shiftr i 12) 7, wrap 8 (Z.shiftr i 25)).

Definition FdM : Type -> Type := M FunctDecoder unit.

Definition insert_f3_f7 (opcode f3 f7 : Z) (result : PartialResult) : FdM unit :=
  slot <- gets (fun t => cell t opcode f3) ;;
  match slot with
  | Unknown => modify (<[(opcode, f3) := SparseF7 [(f7, result)]]>)
  | Complete _ => panic
  | SparseF7 table => modify (<[(opcode, f3) := try_make_dense (SparseF7 (table ++ [(f7, result)]))]>)
  | DenseF7 table => modify (<[(opcode, f3) := DenseF7 (<[Z.to_nat f7 := Some result]> table)]>)
  end.

Fixpoint for_each {A} (l : list A) (f : A -> FdM unit) : FdM unit :=
  match l with [] => ret tt | x :: l => f x ;;; for_each l f end.

(** The loop over the submasks of [rev_mask], from [curr] down to 0.  Every
    turn lowers [curr], so 129 turns are enough for a 7-bit mask. *)
Fixpoint submasks (fuel : nat) (rev_mask curr : Z) : list Z :=
  match fuel with
  | O => []
  | S fuel => curr :: (if curr =? 0 then [] else submasks fuel rev_mask (Z.land rev_mask (curr - 1)))
  end.

Definition try_insert (d : RVInstrDesc) : FdM bool :=
  let mask := desc_mask d in
  let key := desc_key d in
  if negb (Z.land mask (bnot 32 (Z.lor (Z.lor OPCODE_BITS F3_BITS) F7_BITS)) =? 0) then ret false
  else
    assert (Z.land mask OPCODE_BITS =? OPCODE_BITS) ;;;
    let '(opcode, f3, f7) := get_opcode_f3_f7 key in
    let result := (desc_instr d, desc_format d) in
    if mask =? OPCODE_BITS then
      for_each (seqZ 0 8) (fun f3 => modify (<[(opcode, f3) := Complete result]>)) ;;; ret true
    else if mask =? Z.lor OPCODE_BITS F3_BITS then
      modify (<[(opcode, f3) := Complete result]>) ;;; ret true
    else if mask =? Z.lor (Z.lor OPCODE_BITS F3_BITS) F7_BITS then
      insert_f3_f7 opcode f3 f7 result ;;; ret true
    else if mask =? Z.lor OPCODE_BITS F7_BITS then
      for_each (seqZ 0 8) (fun f3 => insert_f3_f7 opcode f3 f7 result) ;;; ret true
    else if (Z.land mask F3_BITS =? F3_BITS) && (5 <=? count_ones (Z.land mask F7_BITS)) then
      let rev_mask := wrap 8 (Z.shiftr (Z.land (bnot 32 (Z.land mask F7_BITS)) F7_BITS) 25) in
      let f7_match := wrap 8 (Z.shiftr (Z.land key F7_BITS) 25) in
      for_each (submasks 129 rev_mask rev_mask) (fun curr => insert_f3_f7 opcode f3 (Z.lor curr f7_match) result) ;;;
      ret true
    else ret false.

Definition recognize_instr (t : FunctDecoder) (raw : Z) : option PartialResult :=
  let '(opcode, f3, f7) := get_opcode_f3_f7 raw in
  match cell t opcode f3 with
  | Unknown => None
  | Complete result => Some result
  | SparseF7 table => SmallMap_get table f7
  | DenseF7 table => default None (table !! Z.to_nat f7)
  end.

Definition FunctDecoder_decode (t : FunctDecoder) (raw : Z) : option (option DecodeInstr) :=
  match recognize_instr t raw with
  | Some (i, fmt) => Some <$> decoded raw i fmt
  | None => Some None
  end.

(** ** The whole decoder (decoder/mod.rs) *)
Record Decoder : Type := {
  funct_decoder : FunctDecoder;
  mask_decoder : list RVInstrDesc;
  compress_decoder : list RVInstrDesc;
  extension_bits : Z
}.

Definition is_compressed (d : RVInstrDesc) : bool := negb (Z.land (desc_key d) 3 =? 3).

(** The loop of [from_isa] over the 32-bit descriptions; [None] is a panic. *)
Fixpoint insert_all (ds : list RVInstrDesc) (t : FunctDecoder) (remain : list RVInstrDesc)
  : option (FunctDecoder * list RVInstrDesc) :=
  match ds with
  | [] => Some (t, remain)
  | d :: ds =>
      match try_insert d t with
      | (Ok true, t') => insert_all ds t' remain
      | (Ok false, t') => insert_all ds t' (remain ++ [d])
      | _ => None
      end
  end.

Definition from_isa (instrs : list RVInstrDesc) (ext : Z) : option Decoder :=
  match insert_all (List.filter (fun d => negb (is_compressed d)) instrs) FunctDecoder_new [] with
  | Some (funct, remain) =>
      Some {| funct_decoder := funct; mask_decoder := masks_from_isa remain;
              compress_decoder := masks_from_isa (List.filter is_compressed instrs); extension_bits := ext |}
  | None => None
  end.

(** The outer [None] is a panic. *)
Definition decode (dec : Decoder) (raw : Z) : option (option DecodeInstr) :=
  if instr_len raw =? 2 then CompressedDecoder_decode (compress_decoder dec) raw
  else match FunctDecoder_decode (funct_decoder dec) raw with
       | Some None => MaskDecoder_decode (mask_decoder dec) raw
       | r => r
       end.
