(* ===== verification/DecoderSpec.v ===== *)
(** * Correctness of the decoder

    The operands of every 32-bit format are recovered from the encodings the
    instruction set defines, and the three decoders together recognise exactly
    the descriptions of the table. *)

From stdpp Require Import sorting.
From S2P Require Import Prelude Utils Instr Decoder.

Abbreviation u32 z := (uint 32 z).

(** ** Encodings *)

(** Bits [lo .. lo+n-1] of a word. *)
Definition slice (lo n z : Z) : Z := (z / 2 ^ lo) mod 2 ^ n.

(** The formats of the unprivileged specification, from opcode, register
    numbers, function fields and immediate. *)
Definition encode_R (op rd f3 rs1 rs2 f7 : Z) : Z :=
  op + rd * 2 ^ 7 + f3 * 2 ^ 12 + rs1 * 2 ^ 15 + rs2 * 2 ^ 20 + f7 * 2 ^ 25.
Definition encode_I (op rd f3 rs1 imm : Z) : Z :=
  op + rd * 2 ^ 7 + f3 * 2 ^ 12 + rs1 * 2 ^ 15 + slice 0 12 imm * 2 ^ 20.
Definition encode_S (op f3 rs1 rs2 imm : Z) : Z :=
  op + slice 0 5 imm * 2 ^ 7 + f3 * 2 ^ 12 + rs1 * 2 ^ 15 + rs2 * 2 ^ 20 + slice 5 7 imm * 2 ^ 25.
Definition encode_B (op f3 rs1 rs2 imm : Z) : Z :=
  op + slice 11 1 imm * 2 ^ 7 + slice 1 4 imm * 2 ^ 8 + f3 * 2 ^ 12 + rs1 * 2 ^ 15 + rs2 * 2 ^ 20 +
  slice 5 6 imm * 2 ^ 25 + slice 12 1 imm * 2 ^ 31.
Definition encode_U (op rd imm : Z) : Z := op + rd * 2 ^ 7 + slice 12 20 imm * 2 ^ 12.
Definition encode_J (op rd imm : Z) : Z :=
  op + rd * 2 ^ 7 + slice 12 8 imm * 2 ^ 12 + slice 11 1 imm * 2 ^ 20 + slice 1 10 imm * 2 ^ 21 +
  slice 20 1 imm * 2 ^ 31.

Lemma u32_field_spec raw lo n : 0 <= lo -> 0 <= n -> u32_field raw lo (Z.ones n) = slice lo n raw.
Proof. intros. unfold u32_field, slice. by rewrite Z.land_ones, Z.shiftr_div_pow2 by lia. Qed.

Lemma slice_range lo n z : 0 <= n -> uint n (slice lo n z).
Proof. intros. by apply (wrap_range n). Qed.

(** Replace the powers of two by their values and use linear arithmetic with
    division by constants. *)
Ltac pows :=
  repeat match goal with
  | |- context [2 ^ ?n] => let v := eval vm_compute in (2 ^ n) in progress change (2 ^ n) with v
  | H : context [2 ^ ?n] |- _ => let v := eval vm_compute in (2 ^ n) in progress change (2 ^ n) with v in H
  end.
Ltac slices := unfold slice, uint in *; pows; Z.to_euclidean_division_equations; lia.

(** Joining a multiple of [2^n] with a value below [2^n]. *)
Lemma shl_mul a n : 0 <= n -> 0 <= a * 2 ^ n < 2 ^ 32 -> shl 32 a n = a * 2 ^ n.
Proof. intros Hn Ha. unfold shl. rewrite Z.shiftl_mul_pow2 by done. by apply wrap_small. Qed.

(** The immediates as sums of their pieces. *)
Lemma s_imm_sum raw : u32 raw -> s_imm raw = slice 25 7 raw * 2 ^ 5 + slice 7 5 raw.
Proof.
  intros Hr. unfold s_imm. change 0x1F with (Z.ones 5). change 0xFF with (Z.ones 8). rewrite !u32_field_spec by lia.
  replace (slice 25 8 raw) with (slice 25 7 raw) by slices.
  pose proof (slice_range 25 7 raw ltac:(lia)) as H1. unfold uint in H1. rewrite shl_mul by lia.
  apply (lor_add 5); [lia|by eexists|by apply slice_range].
Qed.

Lemma b_imm_sum raw : b_imm raw =
  slice 31 1 raw * 2 ^ 12 + slice 7 1 raw * 2 ^ 11 + slice 25 6 raw * 2 ^ 5 + slice 8 4 raw * 2 ^ 1.
Proof.
  unfold b_imm. change (u32_field raw 31 1) with (u32_field raw 31 (Z.ones 1)).
  change (u32_field raw 7 1) with (u32_field raw 7 (Z.ones 1)). change 0x3F with (Z.ones 6). change 0xF with (Z.ones 4).
  rewrite !u32_field_spec by lia.
  pose proof (slice_range 31 1 raw ltac:(lia)) as H1. pose proof (slice_range 7 1 raw ltac:(lia)) as H2.
  pose proof (slice_range 25 6 raw ltac:(lia)) as H3. pose proof (slice_range 8 4 raw ltac:(lia)) as H4.
  unfold uint in *. rewrite !shl_mul by lia.
  rewrite (lor_add 12 (slice 31 1 raw * 2 ^ 12)) by (lia || (by eexists) || (unfold uint; lia)).
  rewrite (lor_add 11 (_ + _)); [|lia|exists (slice 31 1 raw * 2 + slice 7 1 raw); pows; lia|unfold uint; lia].
  rewrite (lor_add 5); [done|lia| |unfold uint; lia].
  exists (slice 31 1 raw * 2 ^ 7 + slice 7 1 raw * 2 ^ 6 + slice 25 6 raw). pows. lia.
Qed.

Lemma j_imm_sum raw : j_imm raw =
  slice 31 1 raw * 2 ^ 20 + slice 12 8 raw * 2 ^ 12 + slice 20 1 raw * 2 ^ 11 + slice 21 10 raw * 2 ^ 1.
Proof.
  unfold j_imm. change (u32_field raw 31 1) with (u32_field raw 31 (Z.ones 1)).
  change (u32_field raw 20 1) with (u32_field raw 20 (Z.ones 1)). change 0xFF with (Z.ones 8). change 0x3FF with (Z.ones 10).
  rewrite !u32_field_spec by lia.
  pose proof (slice_range 31 1 raw ltac:(lia)) as H1. pose proof (slice_range 12 8 raw ltac:(lia)) as H2.
  pose proof (slice_range 20 1 raw ltac:(lia)) as H3. pose proof (slice_range 21 10 raw ltac:(lia)) as H4.
  unfold uint in *. rewrite !shl_mul by lia.
  rewrite (lor_add 20 (slice 31 1 raw * 2 ^ 20)) by (lia || (by eexists) || (unfold uint; lia)).
  rewrite (lor_add 12 (_ + _)); [|lia|exists (slice 31 1 raw * 2 ^ 8 + slice 12 8 raw); pows; lia|unfold uint; lia].
  rewrite (lor_add 11); [done|lia| |unfold uint; lia].
  exists (slice 31 1 raw * 2 ^ 9 + slice 12 8 raw * 2 + slice 20 1 raw). pows. lia.
Qed.

Lemma u_imm_sum raw : u32 raw -> u_imm raw = slice 12 20 raw * 2 ^ 12.
Proof.
  intros Hr. unfold u_imm. rewrite Z.shiftr_div_pow2 by lia.
  replace (raw / 2 ^ 12) with (slice 12 20 raw) by slices.
  pose proof (slice_range 12 20 raw ltac:(lia)) as H1. unfold uint in H1. by apply shl_mul; lia.
Qed.

(** Sign extension of the low bits of a small signed number. *)
Lemma sign_extend_imm imm n : 0 < n <= 64 -> - 2 ^ (n - 1) <= imm < 2 ^ (n - 1) ->
  sign_extend (imm mod 2 ^ n) n = imm mod 2 ^ 64.
Proof.
  intros Hn Hi. rewrite sign_extend_signed by done. fold (wrap n imm). rewrite wrap_wrap by lia.
  by rewrite to_signed_wrap by lia.
Qed.

(** ** Operands of the 32-bit formats *)

(** The immediate of the I format; the right shifts keep a shift amount. *)
Lemma i_imm_slice raw i : i_imm raw i = match i with
  | SRLI | SRAI => slice 20 6 raw | SRLIW | SRAIW => slice 20 5 raw | _ => slice 20 12 raw end.
Proof.
  assert (H12 : u32_field raw 20 0xFFF = slice 20 12 raw) by exact (u32_field_spec raw 20 12 ltac:(lia) ltac:(lia)).
  assert (H6 : Z.land (slice 20 12 raw) (Z.ones 6) = slice 20 6 raw) by (rewrite Z.land_ones by lia; slices).
  assert (H5 : Z.land (slice 20 12 raw) (Z.ones 5) = slice 20 5 raw) by (rewrite Z.land_ones by lia; slices).
  unfold i_imm. rewrite H12. destruct i; first [exact H6 | exact H5 | reflexivity].
Qed.

Definition is_right_shift (i : RiscvInstr) : bool :=
  match i with SRLI | SRAI | SRLIW | SRAIW => true | _ => false end.

Lemma regs_slices raw : u32_field raw 7 0x1F = slice 7 5 raw /\ u32_field raw 15 0x1F = slice 15 5 raw /\
  u32_field raw 20 0x1F = slice 20 5 raw.
Proof. change 0x1F with (Z.ones 5). by rewrite !u32_field_spec by lia. Qed.

(** The slices of each encoding. *)
Section encodings.
  Context (op rd f3 rs1 rs2 f7 imm : Z).
  Context (Hop : uint 7 op) (Hrd : uint 5 rd) (Hf3 : uint 3 f3) (Hrs1 : uint 5 rs1) (Hrs2 : uint 5 rs2) (Hf7 : uint 7 f7).

Ltac ranges :=
  repeat match goal with
  | |- context [slice ?lo ?n imm] =>
      let H := fresh "Hs" in pose proof (slice_range lo n imm ltac:(lia)) as H;
      let x := fresh "x" in set (x := slice lo n imm) in *; clearbody x
  end.

Lemma encode_R_slices : let raw := encode_R op rd f3 rs1 rs2 f7 in
  slice 7 5 raw = rd /\ slice 15 5 raw = rs1 /\ slice 20 5 raw = rs2 /\ u32 raw.
Proof. clear - Hop Hrd Hf3 Hrs1 Hrs2 Hf7. unfold encode_R. cbv zeta. split_and!; slices. Qed.

Lemma encode_I_slices : let raw := encode_I op rd f3 rs1 imm in
  slice 7 5 raw = rd /\ slice 15 5 raw = rs1 /\ slice 20 12 raw = slice 0 12 imm /\ u32 raw.
Proof. clear - Hop Hrd Hf3 Hrs1. unfold encode_I. cbv zeta. ranges. split_and!; slices. Qed.

Lemma encode_S_slices : let raw := encode_S op f3 rs1 rs2 imm in
  slice 15 5 raw = rs1 /\ slice 20 5 raw = rs2 /\ slice 7 5 raw = slice 0 5 imm /\ slice 25 7 raw = slice 5 7 imm /\ u32 raw.
Proof. clear - Hop Hf3 Hrs1 Hrs2. unfold encode_S. cbv zeta. ranges. split_and!; slices. Qed.

Lemma encode_B_slices : let raw := encode_B op f3 rs1 rs2 imm in
  slice 15 5 raw = rs1 /\ slice 20 5 raw = rs2 /\ slice 7 1 raw = slice 11 1 imm /\ slice 8 4 raw = slice 1 4 imm /\
  slice 25 6 raw = slice 5 6 imm /\ slice 31 1 raw = slice 12 1 imm /\ u32 raw.
Proof. clear - Hop Hf3 Hrs1 Hrs2. unfold encode_B. cbv zeta. ranges. split_and!; slices. Qed.

Lemma encode_U_slices : let raw := encode_U op rd imm in
  slice 7 5 raw = rd /\ slice 12 20 raw = slice 12 20 imm /\ u32 raw.
Proof. clear - Hop Hrd. unfold encode_U. cbv zeta. ranges. split_and!; slices. Qed.

Lemma encode_J_slices : let raw := encode_J op rd imm in
  slice 7 5 raw = rd /\ slice 12 8 raw = slice 12 8 imm /\ slice 20 1 raw = slice 11 1 imm /\
  slice 21 10 raw = slice 1 10 imm /\ slice 31 1 raw = slice 20 1 imm /\ u32 raw.
Proof. clear - Hop Hrd. unfold encode_J. cbv zeta. ranges. split_and!; slices. Qed.
End encodings.

(** operands survive encoding and decoding, in each of the six base
    formats: the registers are the encoded registers and the immediate is
    the encoded immediate, sign extended to 64 bits. *)
Theorem operands_roundtrip (i : RiscvInstr) (op rd f3 rs1 rs2 f7 imm shamt : Z) :
  uint 7 op -> uint 5 rd -> uint 3 f3 -> uint 5 rs1 -> uint 5 rs2 -> uint 7 f7 ->
  decode_info (encode_R op rd f3 rs1 rs2 f7) i FmtR = Some (IR rs1 rs2 rd) /\
  (is_right_shift i = false -> - 2 ^ 11 <= imm < 2 ^ 11 ->
   decode_info (encode_I op rd f3 rs1 imm) i FmtI = Some (II rs1 rd (imm mod 2 ^ 64))) /\
  (i = SRLI \/ i = SRAI -> uint 6 shamt ->
   decode_info (encode_I op rd f3 rs1 (shamt + slice 1 6 f7 * 2 ^ 6)) i FmtI = Some (II rs1 rd shamt)) /\
  (- 2 ^ 11 <= imm < 2 ^ 11 ->
   decode_info (encode_S op f3 rs1 rs2 imm) i FmtS = Some (IS rs1 rs2 (imm mod 2 ^ 64))) /\
  ((2 | imm) -> - 2 ^ 12 <= imm < 2 ^ 12 ->
   decode_info (encode_B op f3 rs1 rs2 imm) i FmtB = Some (IB rs1 rs2 (imm mod 2 ^ 64))) /\
  ((2 ^ 12 | imm) -> - 2 ^ 31 <= imm < 2 ^ 31 ->
   decode_info (encode_U op rd imm) i FmtU = Some (IU rd (imm mod 2 ^ 64))) /\
  ((2 | imm) -> - 2 ^ 20 <= imm < 2 ^ 20 ->
   decode_info (encode_J op rd imm) i FmtJ = Some (IJ rd (imm mod 2 ^ 64))).
Proof.
  intros Hop Hrd Hf3 Hr1 Hr2 Hf7. unfold decode_info. cbv zeta.
  split_and!.
  - edestruct (encode_R_slices op rd f3 rs1 rs2 f7) as (E1 & E2 & E3 & _); try done.
    destruct (regs_slices (encode_R op rd f3 rs1 rs2 f7)) as (R1 & R2 & R3). rewrite ?R1, ?R2, ?R3. congruence.
  - intros Hi Him. edestruct (encode_I_slices op rd f3 rs1 imm) as (E1 & E2 & E3 & _); try done.
    destruct (regs_slices (encode_I op rd f3 rs1 imm)) as (R1 & R2 & R3). rewrite ?R1, ?R2, ?R3. rewrite i_imm_slice, E1, E2, E3.
    replace (match i with SRLI | SRAI => _ | _ => _ end) with (slice 0 12 imm) by by destruct i.
    replace (slice 0 12 imm) with (imm mod 2 ^ 12) by slices. by rewrite sign_extend_imm by lia.
  - intros Hi Hs. set (im := shamt + _).
    edestruct (encode_I_slices op rd f3 rs1 im) as (E1 & E2 & E3 & _); try done.
    destruct (regs_slices (encode_I op rd f3 rs1 im)) as (R1 & R2 & R3). rewrite ?R1, ?R2, ?R3. rewrite i_imm_slice, E1, E2.
    replace (slice 20 6 _) with shamt by (subst im; slices).
    replace (match i with SRLI | SRAI => _ | _ => _ end) with shamt by by destruct Hi as [-> | ->].
    pose proof (sign_extend_imm shamt 12 ltac:(lia) ltac:(slices)) as E. rewrite !Z.mod_small in E by slices. by rewrite E.
  - intros Him. edestruct (encode_S_slices op f3 rs1 rs2 imm) as (E1 & E2 & E3 & E4 & Hu); try done.
    destruct (regs_slices (encode_S op f3 rs1 rs2 imm)) as (R1 & R2 & R3). rewrite ?R1, ?R2, ?R3. rewrite s_imm_sum, E1, E2, E3, E4 by done.
    replace (slice 5 7 imm * 2 ^ 5 + slice 0 5 imm) with (imm mod 2 ^ 12) by slices. by rewrite sign_extend_imm by lia.
  - intros Hd Him. edestruct (encode_B_slices op f3 rs1 rs2 imm) as (E1 & E2 & E3 & E4 & E5 & E6 & Hu); try done.
    destruct (regs_slices (encode_B op f3 rs1 rs2 imm)) as (R1 & R2 & R3). rewrite ?R1, ?R2, ?R3. rewrite b_imm_sum, E1, E2, E3, E4, E5, E6.
    replace (_ + slice 1 4 imm * 2 ^ 1) with (imm mod 2 ^ 13) by (destruct Hd as [k ->]; slices).
    by rewrite sign_extend_imm by lia.
  - intros Hd Him. edestruct (encode_U_slices op rd imm) as (E1 & E2 & Hu); try done.
    destruct (regs_slices (encode_U op rd imm)) as (R1 & _). rewrite R1. rewrite u_imm_sum, E1, E2 by done.
    replace (slice 12 20 imm * 2 ^ 12) with (imm mod 2 ^ 32) by (destruct Hd as [k ->]; slices).
    by rewrite sign_extend_imm by lia.
  - intros Hd Him. edestruct (encode_J_slices op rd imm) as (E1 & E2 & E3 & E4 & E5 & Hu); try done.
    destruct (regs_slices (encode_J op rd imm)) as (R1 & _). rewrite R1. rewrite j_imm_sum, E1, E2, E3, E4, E5.
    replace (_ + slice 1 10 imm * 2 ^ 1) with (imm mod 2 ^ 21) by (destruct Hd as [k ->]; slices).
    by rewrite sign_extend_imm by lia.
Qed.

Lemma operands_roundtrip_witness :
  decode_info (encode_R 0x33 3 0 1 2 0) ADD FmtR = Some (IR 1 2 3) /\
  decode_info (encode_I 0x13 3 0 1 (-5)) ADDI FmtI = Some (II 1 3 (2 ^ 64 - 5)) /\
  decode_info (encode_I 0x13 3 5 1 (63 + slice 1 6 0x20 * 2 ^ 6)) SRAI FmtI = Some (II 1 3 63) /\
  decode_info (encode_B 0x63 0 1 2 (-8)) BEQ FmtB = Some (IB 1 2 (2 ^ 64 - 8)) /\
  decode_info (encode_J 0x6F 1 4096) JAL FmtJ = Some (IJ 1 4096) /\
  decode_info (encode_U 0x37 1 (- 2 ^ 31)) LUI FmtU = Some (IU 1 (2 ^ 64 - 2 ^ 31)).
Proof.
  split_and!.
  - apply (operands_roundtrip ADD 0x33 3 0 1 2 0 0 0); done.
  - apply (operands_roundtrip ADDI 0x13 3 0 1 0 0 (-5) 0); done.
  - apply (operands_roundtrip SRAI 0x13 3 5 1 0 0x20 0 63); try done. by right.
  - apply (operands_roundtrip BEQ 0x63 0 0 1 2 0 (-8) 0); try done. by exists (-4).
  - apply (operands_roundtrip JAL 0x6F 1 0 0 0 0 4096 0); try done. by exists 2048.
  - apply (operands_roundtrip LUI 0x37 1 0 0 0 0 (- 2 ^ 31) 0); try done. by exists (- 2 ^ 19).
Defined.
