(* ===== verification/DecoderTable.v ===== *)
(** * The decoding tables

    Building the decoder from a list of descriptions never panics and
    decoding agrees with a direct search of the list. *)

From stdpp Require Import sorting.
From S2P Require Import Prelude Utils Instr Decoder DecoderSpec.

(** ** Fields of a description

    A mask over opcode, funct3 and funct7 only compares those fields. *)
Definition opcode_of (z : Z) : Z := u32_field z 0 0x7F.
Definition f3_of (z : Z) : Z := u32_field z 12 7.
Definition f7_of (z : Z) : Z := u32_field z 25 0x7F.
Definition FIELDS : Z := Z.lor (Z.lor OPCODE_BITS F3_BITS) F7_BITS.

Lemma u32_field_bit z lo n i : 0 <= lo -> 0 <= n -> 0 <= i ->
  Z.testbit (u32_field z lo (Z.ones n)) i = Z.testbit z (i + lo) && (i <? n).
Proof. intros. unfold u32_field. by rewrite Z.land_spec, Z.shiftr_spec, Z.testbit_ones_nonneg by lia. Qed.

Lemma u32_field_land a b lo m : u32_field (Z.land a b) lo m = Z.land (u32_field a lo m) (u32_field b lo m).
Proof.
  unfold u32_field. apply Z.bits_inj'. intros i Hi. rewrite !Z.land_spec, !Z.shiftr_spec, Z.land_spec by lia.
  by repeat destruct (Z.testbit _ _).
Qed.

Lemma FIELDS_bit i : 0 <= i -> Z.testbit FIELDS i = ((i <? 7) || ((12 <=? i) && (i <? 15)) || ((25 <=? i) && (i <? 32))).
Proof.
  intros Hi. destruct (Z.lt_ge_cases i 32) as [Hlt|Hge].
  - assert (HF : forallb (fun i => Bool.eqb (Z.testbit FIELDS i)
      ((i <? 7) || ((12 <=? i) && (i <? 15)) || ((25 <=? i) && (i <? 32)))) (seqZ 0 32) = true) by reflexivity.
    rewrite forallb_forall in HF. apply Bool.eqb_prop, HF, list_elem_of_In, elem_of_seqZ. lia.
  - rewrite (uint_testbit_high 32 FIELDS i) by done. symmetry. 
    destruct (Z.ltb_spec i 7), (Z.ltb_spec i 15), (Z.ltb_spec i 32); lia.
Qed.

(** Two words agree when their three fields agree and they have no other bits. *)
Lemma fields_eq a b : Z.land a FIELDS = a -> Z.land b FIELDS = b ->
  opcode_of a = opcode_of b -> f3_of a = f3_of b -> f7_of a = f7_of b -> a = b.
Proof.
  intros Ha Hb H1 H2 H3. apply Z.bits_inj'. intros i Hi. rewrite <- Ha, <- Hb, !Z.land_spec, FIELDS_bit by done.
  assert (Hf : forall lo n, u32_field a lo (Z.ones n) = u32_field b lo (Z.ones n) -> 0 <= lo -> 0 <= n -> lo <= i < lo + n ->
    Z.testbit a i = Z.testbit b i).
  { intros lo n E Hlo Hn Hin. apply (f_equal (fun z => Z.testbit z (i - lo))) in E.
    rewrite !u32_field_bit, Z.sub_add in E by lia. by rewrite (proj2 (Z.ltb_lt (i - lo) n)), !andb_true_r in E by lia. }
  destruct (Z.ltb_spec i 7); [rewrite (Hf 0 7 H1); done || lia|].
  destruct (Z.leb_spec 12 i), (Z.ltb_spec i 15); cbn; try (rewrite (Hf 12 3 H2); done || lia).
  all: destruct (Z.leb_spec 25 i), (Z.ltb_spec i 32); cbn; try (rewrite (Hf 25 7 H3); done || lia).
  all: by rewrite !andb_false_r.
Qed.

(** The descriptions that recognise a word by these three fields. *)
Definition covers (d : RVInstrDesc) (opcode f3 f7 : Z) : bool :=
  (opcode =? opcode_of (desc_key d)) && (Z.land f3 (f3_of (desc_mask d)) =? f3_of (desc_key d)) &&
  (Z.land f7 (f7_of (desc_mask d)) =? f7_of (desc_key d)).

Lemma matches_covers d raw :
  Z.land (desc_mask d) FIELDS = desc_mask d -> opcode_of (desc_mask d) = 0x7F ->
  Z.land (desc_key d) (desc_mask d) = desc_key d ->
  matches d raw = covers d (opcode_of raw) (f3_of raw) (f7_of raw).
Proof.
  intros Hm Hop Hk. unfold matches, covers. set (m := desc_mask d) in *. set (k := desc_key d) in *.
  assert (Ho : Z.land (opcode_of raw) (opcode_of m) = opcode_of raw).
  { rewrite Hop. unfold opcode_of, u32_field. by rewrite <- Z.land_assoc, Z.land_diag. }
  apply eq_true_iff_eq. rewrite !andb_true_iff, !Z.eqb_eq. split.
  - intros <-. unfold opcode_of, f3_of, f7_of in *. by rewrite !u32_field_land, Ho.
  - intros [[E1 E2] E3]. apply fields_eq.
    + by rewrite <- Z.land_assoc, Hm.
    + rewrite <- Hk, <- Z.land_assoc. by rewrite Hm.
    + unfold opcode_of in *. by rewrite u32_field_land, Ho.
    + unfold f3_of in *. by rewrite u32_field_land.
    + unfold f7_of in *. by rewrite u32_field_land.
Qed.

(** ** Cells of the table *)

(** What a cell answers for a funct7. *)
Definition cell_get (p : PartialDecode) (f7 : Z) : option PartialResult :=
  match p with
  | Unknown => None
  | Complete result => Some result
  | SparseF7 table => SmallMap_get table f7
  | DenseF7 table => default None (table !! Z.to_nat f7)
  end.

Definition cell_ok (p : PartialDecode) : Prop :=
  match p with
  | SparseF7 table => NoDup table.*1 /\ Forall (uint 7) table.*1
  | DenseF7 table => length table = 128%nat
  | _ => True
  end.
Definition table_ok (t : FunctDecoder) : Prop := forall opcode f3, cell_ok (cell t opcode f3).

Lemma SmallMap_get_app l k v x : SmallMap_get l k = None ->
  SmallMap_get (l ++ [(k, v)]) x = if x =? k then Some v else SmallMap_get l x.
Proof.
  unfold SmallMap_get. induction l as [|[a b] l IH]; cbn.
  - rewrite (Z.eqb_sym k x). by destruct (x =? k).
  - destruct (a =? k) eqn:Ek; [done|]. intros Hn. destruct (a =? x) eqn:Ex; [|by apply IH].
    destruct (Z.eqb_spec x k); [lia|done].
Qed.

Lemma SmallMap_get_None l k : SmallMap_get l k = None <-> k ∉ l.*1.
Proof.
  unfold SmallMap_get. induction l as [|[a b] l IH]; cbn; [split; [intros _; apply not_elem_of_nil|done]|].
  rewrite not_elem_of_cons. destruct (Z.eqb_spec a k) as [->|Hn]; cbn; [split; [done|by intros [? _]]|].
  rewrite IH. split; [intros; split; [congruence|done]|by intros [_ ?]].
Qed.

Lemma SmallMap_get_cons l a b k : SmallMap_get ((a, b) :: l) k = if a =? k then Some b else SmallMap_get l k.
Proof. unfold SmallMap_get. cbn. by destruct (a =? k). Qed.

(** Filling an array from a list with distinct keys answers as the list does. *)
Lemma fill_spec l acc k : length acc = 128%nat -> NoDup l.*1 -> Forall (uint 7) l.*1 -> uint 7 k ->
  let arr := foldl (fun dense (e : Z * PartialResult) => <[Z.to_nat (fst e) := Some (snd e)]> dense) acc l in
  length arr = 128%nat /\
  default None (arr !! Z.to_nat k) = match SmallMap_get l k with Some v => Some v | None => default None (acc !! Z.to_nat k) end.
Proof.
  revert acc. induction l as [|[a b] l IH]; intros acc Hl Hnd Hf Hk; cbn [foldl]; [done|].
  rewrite fmap_cons in Hnd, Hf. cbn in Hnd, Hf. apply list.NoDup_cons in Hnd as [Hni Hnd]. apply list.Forall_cons in Hf as [Ha Hf].
  destruct (IH (<[Z.to_nat a := Some b]> acc)) as [IHl IHg]; try done; [by rewrite length_insert|].
  cbv zeta; cbn [fst snd]; split; [done|]. rewrite IHg, SmallMap_get_cons. unfold uint in Ha, Hk. change (2 ^ 7) with 128 in Ha, Hk.
  destruct (Z.eqb_spec a k) as [->|Hne].
  - rewrite (proj2 (SmallMap_get_None l k)) by done. by rewrite list_lookup_insert_eq by lia.
  - destruct (SmallMap_get l k); [done|]. by rewrite list_lookup_insert_ne by lia.
Qed.

Lemma replicate_None n k : default None (replicate n (@None PartialResult) !! k) = None.
Proof. destruct (replicate n None !! k) eqn:E; [|done]. apply lookup_replicate in E as [-> _]. done. Qed.

Lemma try_make_dense_spec p f7 : cell_ok p -> uint 7 f7 ->
  cell_ok (try_make_dense p) /\ cell_get (try_make_dense p) f7 = cell_get p f7.
Proof.
  destruct p as [| |l|]; try done. intros [Hnd Hf] H7. unfold try_make_dense. destruct (_ <? _)%nat; [done|].
  destruct (fill_spec l (replicate 128 None) f7) as [E1 E2]; try done.
  split; [done|]. cbn [cell_get]. rewrite E2, replicate_None. by destruct (SmallMap_get l f7).
Qed.

Lemma cell_insert t o f p o' f' : cell (<[(o, f) := p]> t) o' f' = if decide ((o', f') = (o, f)) then p else cell t o' f'.
Proof.
  unfold cell, FunctDecoder in *. destruct (decide _) as [E|E]; [injection E as -> ->; by rewrite lookup_insert_eq|].
  by rewrite lookup_insert_ne by congruence.
Qed.

(** ** Insertion of one point *)

(** [adds t S r t']: [t'] answers [r] on the points of [S] and as [t]
    elsewhere. *)
Definition adds (t : FunctDecoder) (S : Z -> Z -> Z -> bool) (r : PartialResult) (t' : FunctDecoder) : Prop :=
  table_ok t' /\
  forall o f g, uint 7 g -> cell_get (cell t' o f) g = if S o f g then Some r else cell_get (cell t o f) g.

Definition point (o f g o' f' g' : Z) : bool := (o' =? o) && (f' =? f) && (g' =? g).

Lemma point_same o f g g' : point o f g o f g' = (g' =? g).
Proof. unfold point. by rewrite !Z.eqb_refl. Qed.
Lemma point_other o f g o' f' g' : (o', f') <> (o, f) -> point o f g o' f' g' = false.
Proof. unfold point. intros. destruct (Z.eqb_spec o' o), (Z.eqb_spec f' f); try done. by subst. Qed.

(** Replacing one cell. *)
Lemma adds_cell t o f g p r : table_ok t -> cell_ok p ->
  (forall g', uint 7 g' -> cell_get p g' = if g' =? g then Some r else cell_get (cell t o f) g') ->
  adds t (point o f g) r (<[(o, f) := p]> t).
Proof.
  intros Ht Hp Hg. split; intros o' f'; [|intros g' Hg']; rewrite cell_insert; destruct (decide _) as [E|E]; try done.
  - injection E as -> ->. by rewrite point_same, Hg.
  - by rewrite point_other.
Qed.

Lemma sparse_snoc l g r : cell_ok (SparseF7 l) -> uint 7 g -> SmallMap_get l g = None -> cell_ok (SparseF7 (l ++ [(g, r)])).
Proof.
  intros [Hnd Hf] Hg Hn. apply SmallMap_get_None in Hn. cbn. rewrite fmap_app. split.
  - apply list.NoDup_app. split_and!; [done| |apply NoDup_singleton]. intros x Hx Hx'. by apply list_elem_of_singleton in Hx' as ->.
  - apply list.Forall_app. split; [done|by apply Forall_singleton].
Qed.

Lemma insert_f3_f7_adds t o f g r : table_ok t -> uint 7 g -> cell_get (cell t o f) g = None ->
  exists t', insert_f3_f7 o f g r t = (Ok tt, t') /\ adds t (point o f g) r t'.
Proof.
  intros Ht Hg Hn. unfold insert_f3_f7. cbv [gets modify bind]. specialize (Ht o f) as Hc.
  destruct (cell t o f) as [|r0|l|l] eqn:Ec; [| done | |]; try pose proof (sparse_snoc l g r Hc Hg Hn) as Hd; eexists; split; try reflexivity; apply adds_cell; try done.
  - cbn. split; [apply NoDup_singleton|by apply Forall_singleton].
  - intros g' _. rewrite Ec. cbn. unfold SmallMap_get. cbn. rewrite (Z.eqb_sym g g'). by destruct (g' =? g).
  - by apply (try_make_dense_spec _ g Hd).
  - intros g' Hg'. rewrite (proj2 (try_make_dense_spec _ g' Hd Hg')), Ec. by apply SmallMap_get_app.
  - cbn. by rewrite length_insert.
  - intros g' Hg'. rewrite Ec. cbn in *. unfold uint in *. change (2 ^ 7) with 128 in *. destruct (Z.eqb_spec g' g) as [->|Hne].
    + by rewrite list_lookup_insert_eq by lia.
    + by rewrite list_lookup_insert_ne by lia.
Qed.

(** ** Insertion of many points *)

Lemma insert_many_adds {A} (l : list A) (pf pg : A -> Z) t o r : table_ok t -> NoDup ((fun a => (pf a, pg a)) <$> l) ->
  (forall a, a ∈ l -> uint 7 (pg a) /\ cell_get (cell t o (pf a)) (pg a) = None) ->
  exists t', for_each l (fun a => insert_f3_f7 o (pf a) (pg a) r) t = (Ok tt, t') /\
    adds t (fun o' f g => (o' =? o) && existsb (fun a => (f =? pf a) && (g =? pg a)) l) r t'.
Proof.
  revert t. induction l as [|a l IH]; intros t Ht Hnd Hl; cbn [for_each].
  - exists t. split; [done|]. split; [done|]. intros o' f g Hg. cbn. by rewrite andb_false_r.
  - rewrite fmap_cons in Hnd. apply list.NoDup_cons in Hnd as [Hni Hnd].
    destruct (Hl a ltac:(left)) as [Hg Hn]. destruct (insert_f3_f7_adds t o (pf a) (pg a) r Ht Hg Hn) as (t1 & E1 & Ht1 & Ha1).
    destruct (IH t1 Ht1 Hnd) as (t2 & E2 & Ht2 & Ha2).
    { intros b Hb. destruct (Hl b ltac:(by right)) as [Hgb Hnb]. split; [done|]. rewrite Ha1, Hnb by done.
      destruct (point _ _ _ _ _ _) eqn:Ep; [|done]. exfalso. apply Hni. unfold point in Ep.
      apply andb_true_iff in Ep as [[_ Ef]%andb_true_iff Eg]. apply list_elem_of_fmap. exists b. split; [f_equal; lia|done]. }
    exists t2. split; [by unfold bind; rewrite E1, E2|]. split; [done|]. intros o' f g Hg'. rewrite Ha2, Ha1 by done. cbn [existsb].
    unfold point. by destruct (o' =? o), (f =? pf a), (g =? pg a), (existsb _ l).
Qed.

(** The loop over submasks visits, downwards, the funct7 values the mask
    leaves open. *)
Definition free_f7 (m k : Z) : list Z := filter (fun g => Z.land g m = k) (seqZ 0 128).

Lemma submasks_check : forallb (fun m => if 5 <=? count_ones (shl 32 m 25) then
  forallb (fun k => if Z.land k m =? k then
    bool_decide (reverse ((fun c => Z.lor c k) <$> submasks 129 (127 - m) (127 - m)) = free_f7 m k) else true) (seqZ 0 128)
  else true) (seqZ 0 128) = true.
Proof. vm_compute. reflexivity. Qed.

Lemma submasks_free m k : uint 7 m -> uint 7 k -> 5 <= count_ones (shl 32 m 25) -> Z.land k m = k ->
  reverse ((fun c => Z.lor c k) <$> submasks 129 (127 - m) (127 - m)) = free_f7 m k.
Proof.
  intros Hm Hk Hc Hkm. unfold uint in Hm, Hk. change (2 ^ 7) with 128 in Hm, Hk. pose proof submasks_check as HC.
  rewrite forallb_forall in HC. specialize (HC m (proj1 (list_elem_of_In _ _) (proj2 (elem_of_seqZ 0 128 m) ltac:(lia)))).
  rewrite (proj2 (Z.leb_le _ _) Hc) in HC.
  rewrite forallb_forall in HC. specialize (HC k (proj1 (list_elem_of_In _ _) (proj2 (elem_of_seqZ 0 128 k) ltac:(lia)))).
  rewrite (proj2 (Z.eqb_eq _ _) Hkm) in HC. by apply bool_decide_eq_true_1 in HC.
Qed.

(** ** Insertion of a description *)

Lemma field_range z lo n : 0 <= n -> uint n (u32_field z lo (Z.ones n)).
Proof. intros. unfold u32_field. rewrite Z.land_ones by done. by apply (wrap_range n). Qed.
Lemma f3_of_range z : uint 3 (f3_of z).
Proof. by apply (field_range z 12 3). Qed.
Lemma f7_of_range z : uint 7 (f7_of z).
Proof. by apply (field_range z 25 7). Qed.

Lemma get_opcode_f3_f7_fields z : u32 z -> get_opcode_f3_f7 z = (opcode_of z, f3_of z, f7_of z).
Proof.
  intros Hz. unfold get_opcode_f3_f7, opcode_of, f3_of, f7_of, u32_field. rewrite Z.shiftr_0_r. f_equal.
  change 127 with (Z.ones 7). rewrite Z.land_ones, Z.shiftr_div_pow2 by lia. unfold wrap, uint in *. slices.
Qed.

Lemma land_F7 z : u32 z -> Z.land z F7_BITS = shl 32 (f7_of z) 25.
Proof.
  intros Hz. pose proof (f7_of_range z) as Hf. unfold shl. rewrite Z.shiftl_mul_pow2 by lia.
  rewrite (wrap_small 32) by (unfold uint in *; lia). rewrite <- Z.shiftl_mul_pow2 by lia. apply Z.bits_inj'. intros i Hi.
  change F7_BITS with (Z.shiftl 127 25). rewrite Z.land_spec, !Z.shiftl_spec by lia. destruct (Z.lt_ge_cases i 25).
  - by rewrite (Z.testbit_neg_r 127), (Z.testbit_neg_r (f7_of z)), andb_false_r by lia.
  - unfold f7_of, u32_field. by rewrite Z.land_spec, Z.shiftr_spec, Z.sub_add by lia.
Qed.

Lemma rev_mask_value x : uint 7 x ->
  wrap 8 (Z.shiftr (Z.land (bnot 32 (shl 32 x 25)) F7_BITS) 25) = 127 - x /\ wrap 8 (Z.shiftr (shl 32 x 25) 25) = x.
Proof.
  intros Hx. unfold uint in Hx. change (2 ^ 7) with 128 in Hx.
  assert (HC : forallb (fun x => (wrap 8 (Z.shiftr (Z.land (bnot 32 (shl 32 x 25)) F7_BITS) 25) =? 127 - x) &&
    (wrap 8 (Z.shiftr (shl 32 x 25) 25) =? x)) (seqZ 0 128) = true) by (vm_compute; reflexivity).
  rewrite forallb_forall in HC. specialize (HC x (proj1 (list_elem_of_In _ _) (proj2 (elem_of_seqZ 0 128 x) ltac:(lia)))).
  apply andb_true_iff in HC as [E1 E2]. by rewrite Z.eqb_eq in E1, E2.
Qed.

Definition desc_result (d : RVInstrDesc) : PartialResult := (desc_instr d, desc_format d).

(** A well-formed description of a 32-bit instruction: its key lies in its
    mask and its mask fixes the opcode. *)
Record desc32_wf (d : RVInstrDesc) : Prop := {
  wf_mask : u32 (desc_mask d);
  wf_key : u32 (desc_key d);
  wf_sub : Z.land (desc_key d) (desc_mask d) = desc_key d;
  wf_opcode : opcode_of (desc_mask d) = 0x7F
}.

Definition adds_desc (t : FunctDecoder) (d : RVInstrDesc) (t' : FunctDecoder) : Prop :=
  table_ok t' /\ forall o f g, uint 3 f -> uint 7 g ->
    cell_get (cell t' o f) g = if covers d o f g then Some (desc_result d) else cell_get (cell t o f) g.

Lemma adds_covers t S d t' : adds t S (desc_result d) t' ->
  (forall o f g, uint 3 f -> uint 7 g -> S o f g = covers d o f g) -> adds_desc t d t'.
Proof. intros [H1 H2] HS. split; [done|]. intros o f g Hf Hg. by rewrite H2, HS. Qed.

Lemma set_all_spec t o r l : forall t0, t0 = foldl (fun t f => <[(o, f) := Complete r]> t) t l ->
  for_each l (fun f3 => modify (<[(o, f3) := Complete r]>)) t = (Ok tt, t0).
Proof. revert t. induction l as [|f l IH]; intros t t0 ->; [done|]. cbn [for_each foldl]. unfold bind, modify at 1. by apply IH. Qed.

Lemma set_all_cell t o r l o' f' : cell (foldl (fun t f => <[(o, f) := Complete r]> t) t l) o' f' =
  if decide (o' = o /\ f' ∈ l) then Complete r else cell t o' f'.
Proof.
  revert t. induction l as [|f l IH]; intros t; cbn [foldl].
  - destruct (decide _) as [[_ H]|]; [by apply not_elem_of_nil in H|done].
  - rewrite IH, cell_insert. destruct (decide (o' = o /\ f' ∈ l)), (decide (o' = o /\ f' ∈ f :: l)), (decide ((o', f') = (o, f))); set_solver.
Qed.

(** [d] can be inserted in [t]: no word it matches is recognised yet. *)
Definition unclaimed (t : FunctDecoder) (d : RVInstrDesc) : Prop :=
  forall o f g, uint 3 f -> uint 7 g -> covers d o f g = true -> cell_get (cell t o f) g = None.

Section insertion.
  Context (t : FunctDecoder) (d : RVInstrDesc).
  Context (Ht : table_ok t) (Hd : desc32_wf d) (Hu : unclaimed t d).
  Local Notation op := (opcode_of (desc_key d)).
  Local Notation f3 := (f3_of (desc_key d)).
  Local Notation f7 := (f7_of (desc_key d)).

Lemma key_fields : Z.land f3 (f3_of (desc_mask d)) = f3 /\ Z.land f7 (f7_of (desc_mask d)) = f7.
Proof using Hd. unfold f3_of, f7_of. by rewrite <- !u32_field_land, (wf_sub d Hd). Qed.

(** Complete entries, for all of [l] as funct3. *)
Lemma insert_complete l : f7_of (desc_mask d) = 0 -> f7 = 0 ->
  (forall f, uint 3 f -> bool_decide (f ∈ l) = (Z.land f (f3_of (desc_mask d)) =? f3)) ->
  exists t', for_each l (fun f => modify (<[(op, f) := Complete (desc_result d)]>)) t = (Ok tt, t') /\ adds_desc t d t'.
Proof.
  intros Hm Hk Hl. eexists. split; [by apply set_all_spec|]. split.
  - intros o f. rewrite set_all_cell. by destruct (decide _).
  - intros o f g Hf Hg. rewrite set_all_cell. unfold covers. rewrite Hm, Hk, Z.land_0_r, <- Hl, andb_true_r by done.
    destruct (Z.eqb_spec o op), (bool_decide_reflect (f ∈ l)), (decide (o = op /\ f ∈ l)); tauto || done.
Qed.

(** Entries with a funct7, one for every element of [l]. *)
Lemma insert_points {A} (l : list A) (pf pg : A -> Z) : NoDup ((fun a => (pf a, pg a)) <$> l) ->
  (forall a, a ∈ l -> uint 3 (pf a) /\ uint 7 (pg a)) ->
  (forall f g, uint 3 f -> uint 7 g -> existsb (fun a => (f =? pf a) && (g =? pg a)) l = covers d op f g) ->
  exists t', for_each l (fun a => insert_f3_f7 op (pf a) (pg a) (desc_result d)) t = (Ok tt, t') /\ adds_desc t d t'.
Proof using Ht Hu.
  intros Hnd Hr Hc. destruct (insert_many_adds l pf pg t op (desc_result d) Ht Hnd) as (t' & E & Ha).
  { intros a Ha. destruct (Hr a Ha) as [Hf Hg]. split; [done|]. apply Hu; try done. rewrite <- Hc by done.
    apply existsb_exists. exists a. split; [by apply list_elem_of_In|]. by rewrite !Z.eqb_refl. }
  exists t'. split; [done|]. apply (adds_covers _ _ _ _ Ha). intros o f g Hf Hg. rewrite Hc by done.
  unfold covers. rewrite Z.eqb_refl. by destruct (o =? op).
Qed.

Lemma land_7 f : uint 3 f -> Z.land f 7 = f.
Proof. intros. change 7 with (Z.ones 3). rewrite Z.land_ones by lia. by apply (wrap_small 3). Qed.
Lemma land_127 g : uint 7 g -> Z.land g 127 = g.
Proof. intros. change 127 with (Z.ones 7). rewrite Z.land_ones by lia. by apply (wrap_small 7). Qed.

Lemma covers_full f g : f3_of (desc_mask d) = 7 -> f7_of (desc_mask d) = 127 -> uint 3 f -> uint 7 g ->
  covers d op f g = (f =? f3) && (g =? f7).
Proof. intros H3 H7 Hf Hg. unfold covers. by rewrite H3, H7, land_7, land_127, Z.eqb_refl. Qed.

(** The five shapes of masks the table holds. *)
Lemma insert_opcode : desc_mask d = OPCODE_BITS ->
  exists t', for_each (seqZ 0 8) (fun f => modify (<[(op, f) := Complete (desc_result d)]>)) t = (Ok tt, t') /\ adds_desc t d t'.
Proof.
  intros Hm. pose proof key_fields as [K3 K7]. apply insert_complete.
  - by rewrite Hm.
  - rewrite <- K7, Hm. apply Z.land_0_r.
  - intros f Hf. rewrite <- K3, Hm. change (f3_of OPCODE_BITS) with 0. rewrite !Z.land_0_r. cbn.
    apply bool_decide_eq_true_2, elem_of_seqZ. unfold uint in Hf. lia.
Qed.

Lemma insert_opcode_f3 : desc_mask d = Z.lor OPCODE_BITS F3_BITS -> adds_desc t d (<[(op, f3) := Complete (desc_result d)]> t).
Proof.
  intros Hm. pose proof key_fields as [K3 K7]. destruct (insert_complete [f3]) as (t' & E & Ha); [by rewrite Hm| | |].
  - rewrite <- K7, Hm. apply Z.land_0_r.
  - intros f Hf. rewrite Hm. change (f3_of (Z.lor OPCODE_BITS F3_BITS)) with 7. rewrite land_7 by done.
    destruct (Z.eqb_spec f f3); [apply bool_decide_eq_true_2|apply bool_decide_eq_false_2]; set_solver.
  - by injection E as <-.
Qed.

Lemma insert_opcode_f3_f7 : desc_mask d = FIELDS ->
  exists t', insert_f3_f7 op f3 f7 (desc_result d) t = (Ok tt, t') /\ adds_desc t d t'.
Proof.
  intros Hm. pose proof (f3_of_range (desc_key d)) as R3. pose proof (f7_of_range (desc_key d)) as R7.
  assert (Hc : forall f g, uint 3 f -> uint 7 g -> covers d op f g = (f =? f3) && (g =? f7)).
  { intros. apply covers_full; try done; by rewrite Hm. }
  destruct (insert_f3_f7_adds t op f3 f7 (desc_result d) Ht R7) as (t' & E & Ha).
  { apply Hu; try done. by rewrite Hc, !Z.eqb_refl. }
  exists t'. split; [done|]. apply (adds_covers _ _ _ _ Ha). intros o f g Hf Hg. unfold point. rewrite <- andb_assoc, <- Hc by done.
  unfold covers. rewrite Z.eqb_refl. by destruct (o =? op).
Qed.

Lemma insert_opcode_f7 : desc_mask d = Z.lor OPCODE_BITS F7_BITS ->
  exists t', for_each (seqZ 0 8) (fun f => insert_f3_f7 op f f7 (desc_result d)) t = (Ok tt, t') /\ adds_desc t d t'.
Proof.
  intros Hm. pose proof key_fields as [K3 K7]. apply (insert_points _ (fun f => f) (fun _ => f7)).
  - apply (NoDup_fmap_2 (fun f => (f, f7))), NoDup_seqZ.
  - intros f Hf%elem_of_seqZ. split; [unfold uint; lia|apply f7_of_range].
  - intros f g Hf Hg. unfold covers. rewrite <- K3, Hm, Z.eqb_refl. change (f3_of (Z.lor OPCODE_BITS F7_BITS)) with 0. change (f7_of (Z.lor _ _)) with 127.
    rewrite !Z.land_0_r, land_127 by done. cbn [andb Z.eqb]. apply eq_true_iff_eq. rewrite existsb_exists, Z.eqb_eq. split.
    + intros (x & _ & E). apply andb_true_iff in E as [_ E]. by apply Z.eqb_eq in E.
    + intros ->. exists f. rewrite !Z.eqb_refl. split; [|done]. apply list_elem_of_In, elem_of_seqZ. unfold uint in Hf. lia.
Qed.

Lemma insert_partial_f7 : f3_of (desc_mask d) = 7 -> 5 <= count_ones (shl 32 (f7_of (desc_mask d)) 25) ->
  let rev := 127 - f7_of (desc_mask d) in
  exists t', for_each (submasks 129 rev rev) (fun c => insert_f3_f7 op f3 (Z.lor c f7) (desc_result d)) t = (Ok tt, t') /\
    adds_desc t d t'.
Proof.
  intros H3 Hc rev. pose proof key_fields as [K3 K7]. pose proof (f7_of_range (desc_mask d)) as Rm. pose proof (f7_of_range (desc_key d)) as Rk.
  pose proof (submasks_free _ _ Rm Rk Hc K7) as Hs. fold rev in Hs.
  assert (Hin : forall g, g ∈ (fun c => Z.lor c f7) <$> submasks 129 rev rev <-> Z.land g (f7_of (desc_mask d)) = f7 /\ uint 7 g).
  { intros g. rewrite <- elem_of_reverse, Hs. unfold free_f7. rewrite list_elem_of_filter, elem_of_seqZ. unfold uint. lia. }
  apply (insert_points _ (fun _ => f3) (fun c => Z.lor c f7)).
  - change (fun a => (f3, Z.lor a f7)) with (pair f3 ∘ (fun c => Z.lor c f7)). rewrite list_fmap_compose. apply (NoDup_fmap_2 (pair f3)).
    rewrite <- reverse_Permutation, Hs. apply list.NoDup_filter, NoDup_seqZ.
  - intros c Hc'. split; [apply f3_of_range|]. apply Hin. by apply (list_elem_of_fmap_2 (fun c => Z.lor c f7)).
  - intros f g Hf Hg. unfold covers. rewrite H3, land_7, Z.eqb_refl by done. cbn [andb]. apply eq_true_iff_eq.
    rewrite existsb_exists, andb_true_iff, !Z.eqb_eq. split.
    + intros (c & Hc' & [E1 E2]%andb_true_iff). apply Z.eqb_eq in E1, E2. split; [done|]. apply Hin. rewrite E2.
      by apply (list_elem_of_fmap_2 (fun c => Z.lor c f7)), list_elem_of_In.
    + intros [-> E]. destruct (proj1 (list_elem_of_fmap _ _ _) (proj2 (Hin g) (conj E Hg))) as (c & -> & Hc').
      exists c. rewrite !Z.eqb_refl. split; [by apply list_elem_of_In|done].
Qed.
End insertion.

Lemma mask_in_fields m : u32 m -> Z.land m (bnot 32 FIELDS) = 0 -> Z.land m FIELDS = m.
Proof.
  intros Hm H. apply Z.bits_inj'. intros i Hi. apply (f_equal (fun z => Z.testbit z i)) in H.
  rewrite Z.land_spec in H |- *. destruct (Z.lt_ge_cases i 32).
  - rewrite bnot_testbit, Z.bits_0, (proj2 (Z.ltb_lt i 32)) in H by lia. by destruct (Z.testbit m i), (Z.testbit FIELDS i).
  - by rewrite (uint_testbit_high 32 m i) by (done || lia).
Qed.

Lemma try_insert_spec t d : table_ok t -> desc32_wf d -> (Z.land (desc_mask d) FIELDS = desc_mask d -> unclaimed t d) ->
  (exists t', try_insert d t = (Ok true, t') /\ adds_desc t d t' /\ Z.land (desc_mask d) FIELDS = desc_mask d) \/
  try_insert d t = (Ok false, t).
Proof.
  intros Ht Hd Hu. unfold try_insert. fold FIELDS. destruct (Z.land (desc_mask d) (bnot 32 FIELDS) =? 0) eqn:Ef; [|by right].
  apply Z.eqb_eq, mask_in_fields in Ef; [|apply Hd]. specialize (Hu Ef). cbn [negb].
  assert (Ho : Z.land (desc_mask d) OPCODE_BITS = OPCODE_BITS).
  { pose proof (wf_opcode d Hd) as E. unfold opcode_of, u32_field in E. by rewrite Z.shiftr_0_r in E. }
  rewrite Ho. change (assert (OPCODE_BITS =? OPCODE_BITS)) with (@ret FunctDecoder unit unit tt). rewrite get_opcode_f3_f7_fields by apply Hd.
  fold (desc_result d). unfold ret at 1, bind at 1.
  destruct (Z.eqb_spec (desc_mask d) OPCODE_BITS) as [E|_].
  { left. destruct (insert_opcode t d) as (t' & Et & Ha); try done. exists t'. unfold bind. by rewrite Et. }
  destruct (Z.eqb_spec (desc_mask d) (Z.lor OPCODE_BITS F3_BITS)) as [E|_].
  { left. eexists. split; [reflexivity|]. split; [by apply insert_opcode_f3|done]. }
  destruct (Z.eqb_spec (desc_mask d) FIELDS) as [E|_].
  { left. destruct (insert_opcode_f3_f7 t d) as (t' & Et & Ha); try done. exists t'. unfold bind. by rewrite Et. }
  destruct (Z.eqb_spec (desc_mask d) (Z.lor OPCODE_BITS F7_BITS)) as [E|_].
  { left. destruct (insert_opcode_f7 t d) as (t' & Et & Ha); try done. exists t'. unfold bind. by rewrite Et. }
  destruct (_ && _) eqn:Ep; [|by right]. apply andb_true_iff in Ep as [E3 E5]. left.
  rewrite (land_F7 (desc_mask d)) in E5 |- * by apply Hd. rewrite (land_F7 (desc_key d)) by apply Hd. apply Z.leb_le in E5.
  destruct (rev_mask_value (f7_of (desc_mask d)) (f7_of_range _)) as [-> _].
  destruct (rev_mask_value (f7_of (desc_key d)) (f7_of_range _)) as [_ ->].
  destruct (insert_partial_f7 t d) as (t' & Et & Ha); try done.
  - apply Z.eqb_eq, (f_equal f3_of) in E3. unfold f3_of in E3 at 1. rewrite u32_field_land in E3.
    change (u32_field F3_BITS 12 7) with 7 in E3. unfold u32_field at 1 in E3. by rewrite <- Z.land_assoc in E3.
  - exists t'. unfold bind. by rewrite Et.
Qed.

(** ** Building the table *)

(** Two masks that differ on a bit they both fix. *)
Definition disjoint (d d' : RVInstrDesc) : Prop :=
  Z.land (Z.lxor (desc_key d) (desc_key d')) (Z.land (desc_mask d) (desc_mask d')) <> 0.

Lemma disjoint_not_both d d' raw : disjoint d d' -> matches d raw = true -> matches d' raw = true -> False.
Proof.
  unfold disjoint, matches. rewrite !Z.eqb_eq. intros Hd E1 E2. apply Hd. rewrite <- E1, <- E2. apply Z.bits_inj'. intros i Hi.
  rewrite !Z.land_spec, Z.lxor_spec, !Z.land_spec, Z.bits_0. by destruct (Z.testbit raw i), (Z.testbit (desc_mask d) i), (Z.testbit (desc_mask d') i).
Qed.

Lemma find_mask_Some l raw d : find_mask l raw = Some d -> d ∈ l /\ matches d raw = true.
Proof. intros [H1 H2]%List.find_some. by rewrite list_elem_of_In. Qed.
Lemma find_mask_None l raw : find_mask l raw = None <-> forall d, d ∈ l -> matches d raw = false.
Proof.
  split.
  - intros Hn d Hd. apply (List.find_none _ _ Hn). by apply list_elem_of_In.
  - intros Hn. destruct (find_mask l raw) as [d|] eqn:E; [|done]. apply find_mask_Some in E as [Hd Hm]. by rewrite (Hn d Hd) in Hm.
Qed.
Lemma find_mask_snoc l d raw : find_mask (l ++ [d]) raw =
  match find_mask l raw with Some x => Some x | None => if matches d raw then Some d else None end.
Proof. unfold find_mask. induction l as [|x l IH]; cbn; [by destruct (matches d raw)|]. by destruct (matches x raw). Qed.

(** At most one description of a list matches a word. *)
Definition exclusive (l : list RVInstrDesc) : Prop := ForallOrdPairs disjoint l.

Lemma exclusive_mid l1 d l2 : exclusive (l1 ++ d :: l2) -> (forall d', d' ∈ l1 -> disjoint d' d) /\ exclusive (l1 ++ l2).
Proof.
  unfold exclusive. induction l1 as [|x l1 IH]; cbn; intros H; inversion H as [|? ? Hf Hp]; subst.
  - split; [|done]. intros d' Hd'. by apply not_elem_of_nil in Hd'.
  - destruct (IH Hp) as [IH1 IH2]. rewrite list.Forall_forall in Hf. split.
    + intros d' [->|Hd']%elem_of_cons; [apply Hf, elem_of_app; right; left|by apply IH1].
    + constructor; [|done]. apply list.Forall_forall. intros y Hy. apply Hf. rewrite elem_of_app in Hy. rewrite elem_of_app, elem_of_cons. tauto.
Qed.

Lemma exclusive_unique l raw d d' : exclusive l -> d ∈ l -> d' ∈ l -> matches d raw = true -> matches d' raw = true -> d = d'.
Proof.
  unfold exclusive. induction 1 as [|x l Hf Hp IH]; intros Hd Hd' Hm Hm'; [by apply not_elem_of_nil in Hd|].
  rewrite list.Forall_forall in Hf. apply elem_of_cons in Hd as [->|Hd], Hd' as [->|Hd']; [done| | |by apply IH].
  - exfalso. apply (disjoint_not_both x d' raw); auto.
  - exfalso. apply (disjoint_not_both x d raw); auto.
Qed.

(** The words a table recognises are those the descriptions [fs] match. *)
Definition represents (t : FunctDecoder) (fs : list RVInstrDesc) : Prop :=
  table_ok t /\ forall raw, u32 raw -> recognize_instr t raw = desc_result <$> find_mask fs raw.

Lemma recognize_cell t raw : u32 raw -> recognize_instr t raw = cell_get (cell t (opcode_of raw) (f3_of raw)) (f7_of raw).
Proof. intros Hr. unfold recognize_instr. rewrite get_opcode_f3_f7_fields by done. done. Qed.

Lemma encode_fields o f g : uint 7 o -> uint 3 f -> uint 7 g -> let raw := encode_R o 0 f 0 0 g in
  u32 raw /\ opcode_of raw = o /\ f3_of raw = f /\ f7_of raw = g.
Proof.
  intros Ho Hf Hg raw. unfold opcode_of, f3_of, f7_of. change 0x7F with (Z.ones 7). change 7 with (Z.ones 3) at 2.
  rewrite !u32_field_spec by lia. subst raw. unfold encode_R. split_and!; slices.
Qed.

Lemma represents_unclaimed t fs d : represents t fs -> desc32_wf d -> (forall d', d' ∈ fs -> disjoint d' d) ->
  Z.land (desc_mask d) FIELDS = desc_mask d -> unclaimed t d.
Proof.
  intros [_ Hr] Hd Hdis Hm o f g Hf Hg Hc.
  assert (Ho : uint 7 o).
  { unfold covers in Hc. apply andb_true_iff in Hc as [[Ho%Z.eqb_eq _]%andb_true_iff _]. rewrite Ho. by apply (field_range _ 0 7). }
  destruct (encode_fields o f g Ho Hf Hg) as (Hu & E1 & E2 & E3). specialize (Hr _ Hu). rewrite recognize_cell, E1, E2, E3 in Hr by done.
  rewrite Hr. rewrite (proj2 (find_mask_None fs _)); [done|]. intros d' Hd'. apply not_true_is_false. intros Hm'.
  apply (disjoint_not_both d' d _ (Hdis d' Hd') Hm'). rewrite matches_covers by (done || apply Hd). by rewrite E1, E2, E3.
Qed.

Lemma represents_add t fs d t' : represents t fs -> desc32_wf d -> Z.land (desc_mask d) FIELDS = desc_mask d ->
  (forall d', d' ∈ fs -> disjoint d' d) -> adds_desc t d t' -> represents t' (fs ++ [d]).
Proof.
  intros [Ht Hr] Hd Hm Hdis [Ht' Ha]. split; [done|]. intros raw Hu.
  rewrite recognize_cell, Ha by (done || apply f3_of_range || apply f7_of_range).
  rewrite <- matches_covers, <- recognize_cell, Hr, find_mask_snoc by (done || apply Hd).
  destruct (matches d raw) eqn:Em; [|by destruct (find_mask fs raw)].
  destruct (find_mask fs raw) as [d'|] eqn:Ef; [|done]. apply find_mask_Some in Ef as [Hin Hm'].
  by destruct (disjoint_not_both d' d raw (Hdis d' Hin) Hm' Em).
Qed.

Lemma represents_new : represents FunctDecoder_new [].
Proof. split; [intros o f|intros raw Hu; rewrite recognize_cell by done]; unfold cell, FunctDecoder_new, FunctDecoder; by rewrite lookup_empty. Qed.

Lemma insert_all_spec ds t fs remain : represents t fs -> Forall desc32_wf ds -> exclusive (fs ++ ds) ->
  exists t' fs' rs, insert_all ds t remain = Some (t', remain ++ rs) /\ represents t' fs' /\ fs ++ ds ≡ₚ fs' ++ rs.
Proof.
  revert t fs remain. induction ds as [|d ds IH]; intros t fs remain Hr Hwf Hex; cbn [insert_all].
  - exists t, fs, []. by rewrite app_nil_r.
  - apply list.Forall_cons in Hwf as [Hd Hwf]. destruct (exclusive_mid _ _ _ Hex) as [Hdis Hex'].
    destruct (try_insert_spec t d) as [(t1 & -> & Ha & Hm)| ->]; [apply Hr|done|by apply (represents_unclaimed t fs)| |].
    + destruct (IH t1 (fs ++ [d]) remain) as (t' & fs' & rs & E & Hr' & Hp); [by eapply represents_add|done|by rewrite <- app_assoc|].
      exists t', fs', rs. by rewrite <- app_assoc in Hp.
    + destruct (IH t fs (remain ++ [d]) Hr Hwf Hex') as (t' & fs' & rs & E & Hr' & Hp).
      exists t', fs', (d :: rs). rewrite E, <- app_assoc. split_and!; [done|done|].
      by rewrite <- !Permutation_middle, Hp.
Qed.

(** ** The whole decoder *)

(** The instruction a matching description stands for; [None] when the format
    does not suit the instruction, which is [debug_unreachable!]. *)
Definition decodes_as (raw : Z) (d : RVInstrDesc) : option DecodeInstr :=
  if is_compressed d then
    (fun x => {| instr := desc_instr d; info := x; len := 2 |}) <$> decode_compressed_info raw (desc_instr d) (desc_format d)
  else decoded raw (desc_instr d) (desc_format d).

(** A matching description with as many fixed bits as any other. *)
Definition most_specific (l : list RVInstrDesc) (raw : Z) (d : RVInstrDesc) : Prop :=
  d ∈ l /\ matches d raw = true /\
  forall d', d' ∈ l -> matches d' raw = true -> count_ones (desc_mask d') <= count_ones (desc_mask d).

Definition of_length (c : bool) (ds : list RVInstrDesc) : list RVInstrDesc := List.filter (fun d => Bool.eqb (is_compressed d) c) ds.

Record isa_wf (ds : list RVInstrDesc) : Prop := {
  isa_format : Forall (fun d => is_Some (decodes_as 0 d)) ds;
  isa_desc32 : Forall desc32_wf (of_length false ds);
  isa_exclusive : exclusive (of_length false ds)
}.

Lemma decodes_as_any raw d : is_Some (decodes_as 0 d) -> is_Some (decodes_as raw d).
Proof.
  unfold decodes_as, decoded. destruct (is_compressed d).
  - rewrite !fmap_is_Some. unfold decode_compressed_info.
    destruct (desc_format d); try done; rewrite !fmap_is_Some; unfold cb_imm, cl_imm, css_imm; by destruct (desc_instr d).
  - rewrite !fmap_is_Some. unfold decode_info. by destruct (desc_format d).
Qed.

Lemma of_length_in c ds d : d ∈ of_length c ds -> is_compressed d = c /\ d ∈ ds.
Proof. unfold of_length. rewrite !list_elem_of_In, filter_In. intros [H1 H2]. by apply Bool.eqb_prop in H2. Qed.

Lemma find_sorted l raw d : find_mask (masks_from_isa l) raw = Some d -> most_specific l raw d.
Proof.
  unfold masks_from_isa. pose proof (merge_sort_Permutation specific_le l) as Hp.
  pose proof (StronglySorted_merge_sort specific_le l) as Hs. intros E. destruct (find_mask_Some _ _ _ E) as [Hin Hm].
  rewrite Hp in Hin. split_and!; [done|done|]. intros d' Hd' Hm'. rewrite <- Hp in Hd'. clear Hin Hp.
  induction Hs as [|x s Hs IH Hf]; [done|]. cbn in E. apply elem_of_cons in Hd'. destruct (matches x raw) eqn:Ex.
  - injection E as ->. destruct Hd' as [->|Hd']; [done|]. rewrite list.Forall_forall in Hf. specialize (Hf d' Hd').
    unfold specific_le, count_zeros in Hf. lia.
  - destruct Hd' as [->|Hd']; [by rewrite Ex in Hm'|auto].
Qed.

Lemma find_sorted_None l raw : find_mask (masks_from_isa l) raw = None -> forall d, d ∈ l -> matches d raw = false.
Proof. rewrite find_mask_None. intros H d Hd. apply H. unfold masks_from_isa. by rewrite merge_sort_Permutation. Qed.

(** C6: for a table of well-formed descriptions whose 32-bit members exclude
    each other, building the decoder does not panic, and decoding any word
    gives the instruction of the most specific description of the word's
    length that matches it, with its operands, or nothing when no description
    matches; it never panics. *)
Theorem decode_is_table_search (ds : list RVInstrDesc) (ext : Z) : isa_wf ds ->
  exists dec, from_isa ds ext = Some dec /\ extension_bits dec = ext /\
  forall raw, u32 raw ->
    let candidates := of_length (instr_len raw =? 2) ds in
    (exists d x, most_specific candidates raw d /\ decodes_as raw d = Some x /\ decode dec raw = Some (Some x)) \/
    ((forall d, d ∈ candidates -> matches d raw = false) /\ decode dec raw = Some None).
Proof.
  intros [Hfmt Hwf Hex]. rewrite list.Forall_forall in Hfmt. unfold from_isa.
  replace (List.filter (fun d => negb (is_compressed d)) ds) with (of_length false ds)
    by (apply List.filter_ext; intros a; by destruct (is_compressed a)).
  replace (List.filter is_compressed ds) with (of_length true ds)
    by (apply List.filter_ext; intros a; by destruct (is_compressed a)).
  destruct (insert_all_spec (of_length false ds) FunctDecoder_new [] [] represents_new Hwf Hex) as (t & fs & rs & -> & [_ Hr] & Hp). cbn [app] in *.
  eexists. split; [reflexivity|]. split; [done|]. intros raw Hu. cbv zeta. unfold decode. cbn [funct_decoder mask_decoder compress_decoder].
  destruct (instr_len raw =? 2).
  - unfold CompressedDecoder_decode. destruct (find_mask _ raw) as [d|] eqn:Ef; [left|right; split; [exact (find_sorted_None _ _ Ef)|done]].
    apply find_sorted in Ef. destruct (of_length_in _ _ _ (proj1 Ef)) as [Hc Hin].
    destruct (decodes_as_any raw d (Hfmt d Hin)) as [x Hx]. exists d, x. split_and!; [done|done|].
    unfold decodes_as in Hx. rewrite Hc in Hx. apply fmap_Some in Hx as (y & -> & ->). done.
  - assert (Hdec : forall d, d ∈ fs ++ rs -> matches d raw = true -> exists x,
      most_specific (of_length false ds) raw d /\ decodes_as raw d = Some x /\ decoded raw (desc_instr d) (desc_format d) = Some x).
    { intros d Hd Hm. rewrite <- Hp in Hd. destruct (of_length_in _ _ _ Hd) as [Hc Hin].
      destruct (decodes_as_any raw d (Hfmt d Hin)) as [x Hx]. exists x. split_and!; [|done|unfold decodes_as in Hx; by rewrite Hc in Hx].
      split_and!; [done|done|]. intros d' Hd' Hm'. by rewrite (exclusive_unique _ raw d' d Hex Hd' Hd Hm' Hm). }
    unfold FunctDecoder_decode. rewrite Hr by done. destruct (find_mask fs raw) as [d|] eqn:Ef; unfold desc_result; cbn [fmap option_fmap option_map].
    + left. apply find_mask_Some in Ef as [Hd Hm]. destruct (Hdec d) as (x & H1 & H2 & H3); [apply elem_of_app; by left|done|].
      exists d, x. by rewrite H3.
    + rewrite find_mask_None in Ef. unfold MaskDecoder_decode. destruct (find_mask (masks_from_isa rs) raw) as [d|] eqn:Em.
      * left. apply find_sorted in Em as (Hd & Hm & _). destruct (Hdec d) as (x & H1 & H2 & H3); [apply elem_of_app; by right|done|].
        exists d, x. by rewrite H3.
      * right. split; [|done]. intros d Hd. rewrite Hp, elem_of_app in Hd. destruct Hd; [auto|by apply (find_sorted_None rs)].
Qed.

(** Some lines of the tables: every shape of mask, and an overlap among the
    compressed instructions. *)
Definition demo_isa : list RVInstrDesc := [
  Build_RVInstrDesc LUI FmtU 0x7F 0x37;
  Build_RVInstrDesc ADDI FmtI 0x707F 0x13;
  Build_RVInstrDesc ADD FmtR 0xFE00707F 0x33;
  Build_RVInstrDesc SUB FmtR 0xFE00707F 0x40000033;
  Build_RVInstrDesc AMOADD_W FmtA 0xF800707F 0x202F;
  Build_RVInstrDesc ECALL FmtNone 0xFFFFFFFF 0x73;
  Build_RVInstrDesc C_ADDI FmtCI 0xE003 0x1;
  Build_RVInstrDesc C_NOP FmtCI 0xEF83 0x1].

Lemma demo_isa_wf : isa_wf demo_isa.
Proof.
  split.
  - unfold demo_isa. repeat (apply list.Forall_cons; split; [by eexists|]). done.
  - unfold of_length, demo_isa. cbn. repeat (apply list.Forall_cons; split; [done|]). done.
  - unfold exclusive, of_length, demo_isa. cbn. repeat (constructor; [repeat (apply list.Forall_cons; split; [done|]); done|]). constructor.
Qed.

Lemma decode_is_table_search_witness : exists dec, from_isa demo_isa 0 = Some dec /\
  decode dec 0x04A1A2AF = Some (Some {| instr := AMOADD_W; info := IA 3 10 5 false true; len := 4 |}) /\
  decode dec 0x40208133 = Some (Some {| instr := SUB; info := IR 1 2 2; len := 4 |}) /\
  decode dec 1 = Some (Some {| instr := C_NOP; info := ICI 0 0; len := 2 |}) /\ decode dec 0x7F = Some None.
Proof.
  destruct (decode_is_table_search demo_isa 0 demo_isa_wf) as (dec & E & _).
  exists dec. split; [done|]. vm_compute in E. injection E as <-. split_and!; vm_compute; reflexivity.
Defined.
