(* ===== verification/Executor.v ===== *)
(** * The interpreter (src/src/isa/riscv/executor.rs)

    Fetch through the instruction cache, decode, execute, and deliver the
    exceptions; batches of cycles with their hooks; interrupt lines. *)

From S2P Require Import Prelude Utils TrapTypes Alu Ram Cache CsrTable Csr PageTable Mmio Vm Instr Cpu Trap Exec Decoder.

Record ExceptionInfo : Type := { cause : Exception; tval : Z }.
Record BatchResult : Type := { cycles : Z; hook_stopped : bool }.

(** Hooks see and may change the hart; [H] is the state of the hook.  They
    return no error. *)
Class ExecutionHook (H CPU CycleContext : Type) : Type := {
  before_step : M (H * CPU) Empty_set CycleContext;
  on_interrupt_taken : Z -> M H Empty_set CycleContext;
  after_step : CycleContext -> M (H * CPU) Empty_set bool
}.

#[export] Instance NoopExecutionHook {CPU} : ExecutionHook unit CPU unit := {|
  before_step := ret tt;
  on_interrupt_taken _ := ret tt;
  after_step _ := ret false
|}.

Definition Mcycle_mcycle : CsrField := Fld Mcycle 0 XLEN.
Definition Misa_mxl : CsrField := Fld Misa (-2) 2.
Definition Mstatus_sxl : CsrField := Fld Mstatus 34 2.
Definition Mstatus_uxl : CsrField := Fld Mstatus 32 2.
Definition Sstatus_uxl : CsrField := Fld Sstatus 32 2.
Definition Mip_seip : CsrField := Fld Mip 9 1.
Definition Mip_msip : CsrField := Fld Mip 3 1.
Definition Mip_mtip : CsrField := Fld Mip 7 1.
Definition Mip_meip : CsrField := Fld Mip 11 1.

Section Executor.
Context {D X : Type} `{DeviceTrait D} `{Profile} `{ExtUnit D X}.
(** The decoder of the hart; no operation changes it. *)
Context (decoder : Decoder).

Abbreviation CPU := (RVCPU D X).
Abbreviation CpuM := (M CPU Exception).

Definition execute (i : RiscvInstr) (x : RVInstrInfo) : CpuM unit :=
  fun c => let '(rst, c') := get_exec_func i x c in
           (rst, set_reg_file (<[0%nat := 0]> (reg_file c')) c').

Definition increment_mcycle_by (n : Z) : CpuM unit :=
  on_csr (v <- data Mcycle ;; set_field_directly Mcycle_mcycle (wrap 64 (v + n))).
Definition increment_mcycle : CpuM unit := increment_mcycle_by 1.

Definition try_take_pending_interrupt : CpuM bool :=
  o <- try_take_interrupt ;;
  match o with
  | None => ret false
  | Some _ => increment_mcycle ;;; ret true
  end.

Definition finish_jit_block (next_pc instr_count : Z) : CpuM unit :=
  write_pc next_pc ;;;
  modify (fun c => set_reg_file (<[0%nat := 0]> (reg_file c)) c) ;;;
  increment_mcycle_by instr_count ;;;
  on_csr (Minstret_wrapping_add instr_count).

(** A fetch error as an exception with its address; the error of a store is
    [unreachable!]. *)
Definition fetch_half (addr tval : Z) : M CPU ExceptionInfo Z :=
  fun c => match read_for_ifetch U16 addr c with
           | (Ok half, c') => (Ok half, c')
           | (Err e, c') => match from_instr_fetch_err e with
                            | Some cause => (Err {| cause := cause; tval := tval |}, c')
                            | None => (Panic, c')
                            end
           | (Panic, c') => (Panic, c')
           end.

(** [addr + 2] overflows in debug builds. *)
Definition ifetch_at (addr : Z) : M CPU ExceptionInfo Z :=
  half <- fetch_half addr addr ;;
  let bytes := RawInstr_from half in
  if instr_len bytes =? 4 then
    next <- add_chk 64 addr 2 ;;
    next_half <- fetch_half next (wrap 64 (addr + 2)) ;;
    ret (Z.lor bytes (shl 32 next_half 16))
  else ret bytes.

Definition ifetch : M CPU ExceptionInfo Z := fun c => ifetch_at (pc c) c.

Definition decode_at_checked (addr : Z) : M CPU ExceptionInfo DecodeInstr :=
  fun c =>
    let '(hit, ic) := Cache_get (icache c) addr in
    let c := set_icache ic (icache_epoch c) c in
    match hit with
    | Some d => (Ok d, c)
    | None =>
        (raw_instr <- ifetch_at addr ;;
         o <- unwrap (decode decoder raw_instr) ;;
         match o with
         | Some d =>
             modify (fun c => set_icache (Cache_put (icache c) addr d) (icache_epoch c) c) ;;; ret d
         | None => err {| cause := IllegalInstruction; tval := raw_instr |}
         end) c
    end.

Definition decode_at (addr : Z) : M CPU Exception (option DecodeInstr) :=
  fun c => match decode_at_checked addr c with
           | (Ok d, c') => (Ok (Some d), c')
           | (Err _, c') => (Ok None, c')
           | (Panic, c') => (Panic, c')
           end.

Definition step_impl : CpuM unit :=
  fun c =>
    match decode_at_checked (pc c) c with
    | (Panic, c1) => (Panic, c1)
    | (Err e, c1) => take_exception (cause e) (tval e) c1
    | (Ok d, c1) =>
        match execute (instr d) (info d) c1 with
        | (Ok _, c2) => (Ok tt, c2)
        | (Err IllegalInstruction, c2) =>
            match ifetch c2 with
            | (Ok raw_instr, c3) => take_exception IllegalInstruction raw_instr c3
            | (_, c3) => (Panic, c3)
            end
        | (Err nr, c2) => take_exception nr (default 0 (pending_tval c2)) (set_pending_tval None c2)
        | (Panic, c2) => (Panic, c2)
        end
    end.

(** [debug_assert!(self.pending_tval.is_none())] *)
Definition check_pending : CpuM unit :=
  p <- gets pending_tval ;; assert (negb debug_assertions || bool_decide (p = None)).

Definition cycle : CpuM unit := step_impl ;;; increment_mcycle ;;; check_pending.

(** [n] turns of [while executed < cycles]. *)
Fixpoint no_interrupt_loop (n : nat) : CpuM unit :=
  match n with O => ret tt | S n => cycle ;;; no_interrupt_loop n end.
Definition step_batch_no_interrupt (cycles : Z) : CpuM unit := no_interrupt_loop (Z.to_nat cycles).

Section Hooks.
Context {Hk CycleContext : Type} `{ExecutionHook Hk (RVCPU D X) CycleContext}.

Definition on_cpu {A} (m : CpuM A) : M (Hk * RVCPU D X) Exception A := zoom snd (fun s c => (fst s, c)) m.
Definition hook_before : M (Hk * RVCPU D X) Exception CycleContext :=
  map_err never before_step.
Definition hook_interrupt (interrupted_pc : Z) : M (Hk * RVCPU D X) Exception CycleContext :=
  zoom fst (fun s h => (h, snd s)) (map_err never (on_interrupt_taken (CPU := RVCPU D X) interrupted_pc)).
Definition hook_after (ctx : CycleContext) : M (Hk * RVCPU D X) Exception bool :=
  map_err never (after_step ctx).

(** The loop with [rest] more cycles to run; [executed] counts them as the
    code does. *)
Fixpoint hook_loop (rest : nat) (executed : Z) : M (Hk * RVCPU D X) Exception BatchResult :=
  match rest with
  | O => ret {| cycles := executed; hook_stopped := false |}
  | S rest =>
      context <- hook_before ;;
      on_cpu cycle ;;;
      stop <- hook_after context ;;
      if (stop : bool) then ret {| cycles := executed + 1; hook_stopped := true |}
      else hook_loop rest (executed + 1)
  end.

Definition step_batch_with_hook (n : Z) : M (Hk * RVCPU D X) Exception BatchResult :=
  if n =? 0 then ret {| cycles := 0; hook_stopped := false |}
  else
    interrupt_pc <- gets (fun s => pc (snd s)) ;;
    taken <- on_cpu try_take_interrupt ;;
    match taken with
    | Some _ =>
        context <- hook_interrupt interrupt_pc ;;
        on_cpu increment_mcycle ;;;
        stop <- hook_after context ;;
        if (stop : bool) then ret {| cycles := 1; hook_stopped := true |}
        else hook_loop (Z.to_nat (n - 1)) 1
    | None => hook_loop (Z.to_nat n) 0
    end.
End Hooks.

Definition step_batch (n : Z) : CpuM unit :=
  fun c => match step_batch_with_hook (Hk := unit) n (tt, c) with
           | (Ok _, s) => (Ok tt, snd s)
           | (Err e, s) => (Err e, snd s)
           | (Panic, s) => (Panic, snd s)
           end.
Definition step : CpuM unit := step_batch 1.

(** The interrupt lines; the others are [todo!]. *)
Definition handle_irq (interrupt : Interrupt) (level : bool) : CpuM unit :=
  let level := if level then 1 else 0 in
  match interrupt with
  | MachineTimer => on_csr (set_field Mip_mtip level)
  | MachineExternal => on_csr (set_field Mip_meip level)
  | SupervisorExternal => on_csr (set_field Mip_seip level)
  | MachineSoft => on_csr (set_field Mip_msip level)
  | _ => panic
  end.

(** The CSRs of a new hart; the checks are debug assertions. *)
Definition check_xl (f : CsrField) : M CsrRegFile Exception unit :=
  if debug_assertions then v <- get_field f ;; assert (v =? 2) else ret tt.
Definition init_csr (ext : Z) : M CsrRegFile Exception unit :=
  modify (fun s => set_ctx {| extension := ext; xlen := xlen (ctx s) |} s) ;;;
  set_field_directly Misa_extension ext ;;;
  set_field_directly Misa_mxl 2 ;;;
  set_field_directly Mstatus_sxl 2 ;;;
  set_field_directly Mstatus_uxl 2 ;;;
  check_xl Mstatus_uxl ;;; check_xl Mstatus_sxl ;;; check_xl Sstatus_uxl ;;;
  set_current_privileged LvM.

(** [from_decoder]; [x] is the new floating-point and vector unit. *)
Definition from_decoder (v_memory : VirtAddrManager D) (x : X) : Res Exception CPU :=
  match init_csr (extension_bits decoder) CsrRegFile_new with
  | (Ok _, s) => Ok (Build_RVCPU RegFile_new BASE_ADDR v_memory s Cache_new 0 x None None)
  | (Err e, _) => Err e
  | (Panic, _) => Panic
  end.
End Executor.
