(* ===== verification/ExecutorSpec.v ===== *)
(** * Correctness of the interpreter

    The invariant of the hart through fetch, decode, execution, traps and whole
    batches; that no trap value is left pending; and that an exception leads to
    its handler with the state the instruction started from. *)

From S2P Require Import Prelude Utils TrapTypes Alu Ram Cache CsrTable Csr PageTable Mmio Vm Instr Cpu Trap Exec Invariant Precise Decoder DecoderSpec DecoderTable Executor.

(** ** Operands the decoder produces *)
Lemma extract_field_u32 raw fields : u32 (extract_field raw fields).
Proof.
  unfold extract_field. assert (forall acc, u32 acc -> u32 (foldl (fun acc '(hi, lo, src) =>
    Z.lor acc (shl 32 (extract_range U32 raw src (src + hi - lo)) lo)) acc fields)) as Hf; [|by apply Hf].
  induction fields as [|[[hi lo] src] fields IH]; intros acc Ha; [done|]. apply IH, uint_lor; [lia|done|]. by apply uint_shl.
Qed.
Lemma u32_u64 z : u32 z -> u64 z.
Proof. apply uint_weaken. lia. Qed.

Lemma decode_info_wf raw i fmt x : decode_info raw i fmt = Some x -> info_wf x.
Proof.
  assert (Hr : forall lo, reg_ok (u32_field raw lo 0x1F)) by (intros lo; apply (field_range raw lo 5); lia).
  unfold decode_info. destruct fmt; intros [= <-]; cbn [info_wf]; split_and?; try apply Hr; try (apply sign_extend_range; lia); done.
Qed.

Lemma extract_range_reg raw lo hi : 0 <= lo -> lo <= hi -> hi < 32 ->
  0 <= extract_range U32 raw lo hi < 2 ^ (hi - lo + 1).
Proof.
  intros. rewrite extract_range_spec by (cbn; lia). apply Z.mod_pos_bound. apply Z.pow_pos_nonneg; lia.
Qed.

Lemma sign_ext_extract_u64 raw fields : 0 < foldr (fun '(hi, _, _) m => Z.max hi m) 0 fields + 1 <= 64 ->
  u64 (sign_ext_extract raw fields).
Proof. intros. by apply sign_extend_range. Qed.
Lemma zero_ext_extract_u64 raw fields : u64 (zero_ext_extract raw fields).
Proof. apply u32_u64, extract_field_u32. Qed.

Lemma ci_imm_u64 raw i : u64 (ci_imm raw i).
Proof.
  assert (Hs : forall f, u64 (let imm := sign_ext_extract raw [(5, 5, 12); (4, 0, 2)] in if decide (f = C_LUI) then shl 64 imm 12 else imm)).
  { intros f. cbv zeta. destruct (decide _); [by apply uint_shl|by apply sign_ext_extract_u64]. }
  unfold ci_imm. destruct i; try apply Hs; try apply zero_ext_extract_u64. by apply sign_ext_extract_u64.
Qed.
Lemma compressed_imm_u64 raw i v :
  cb_imm raw i = Some v \/ cl_imm raw i = Some v \/ css_imm raw i = Some v -> u64 v.
Proof.
  unfold cb_imm, cl_imm, css_imm. intros H.
  destruct i; destruct H as [H|[H|H]]; try discriminate; injection H as <-; first [apply zero_ext_extract_u64 | by apply sign_ext_extract_u64].
Qed.

Lemma decode_compressed_info_wf raw i fmt x : decode_compressed_info raw i fmt = Some x -> info_wf x.
Proof.
  assert (H2 : reg_ok (extract_range U32 raw 2 6)) by (apply (extract_range_reg raw 2 6); lia).
  assert (H7 : reg_ok (extract_range U32 raw 7 11)) by (apply (extract_range_reg raw 7 11); lia).
  assert (S2 : reg_ok (cvt_short_reg (extract_range U32 raw 2 4)))
    by (pose proof (extract_range_reg raw 2 4 ltac:(lia) ltac:(lia) ltac:(lia)); unfold reg_ok, cvt_short_reg; lia).
  assert (S7 : reg_ok (cvt_short_reg (extract_range U32 raw 7 9)))
    by (pose proof (extract_range_reg raw 7 9 ltac:(lia) ltac:(lia) ltac:(lia)); unfold reg_ok, cvt_short_reg; lia).
  unfold decode_compressed_info. destruct fmt; try discriminate.
  all: try (intros (v & Hv & ->)%fmap_Some); try (intros [= <-]); cbn [info_wf]; split_and?; try done.
  all: first [apply ci_imm_u64 | apply zero_ext_extract_u64 | by apply sign_ext_extract_u64 | eapply compressed_imm_u64; eauto].
Qed.

Lemma decode_wf dec raw d : decode dec raw = Some (Some d) -> info_wf (info d).
Proof.
  assert (Hd : forall i fmt y, decoded raw i fmt = Some y -> info_wf (info y)).
  { intros i fmt y. unfold decoded. intros (x & Hx & ->)%fmap_Some. by eapply decode_info_wf. }
  unfold decode. destruct (instr_len raw =? 2).
  - unfold CompressedDecoder_decode. destruct (find_mask _ _) as [e|]; [|discriminate].
    intros (x & Hx & [= ->])%fmap_Some. by eapply decode_compressed_info_wf.
  - unfold FunctDecoder_decode, MaskDecoder_decode. destruct (recognize_instr _ _) as [[i fmt]|].
    + destruct (decoded raw i fmt) eqn:E; cbn; [intros [= <-]; by eapply Hd|discriminate].
    + destruct (find_mask _ _) as [e|]; [|discriminate]. intros (x & Hx & [= ->])%fmap_Some. by eapply Hd.
Qed.

(** ** The invariant *)
Section Steps.
Context {D X : Type} `{DeviceTrait D} `{Profile} `{LawfulExt D X}.
Context (decoder : Decoder).
Implicit Types c : RVCPU D X.

Abbreviation wp m Q := (triple (E := Exception) (cpu_wf (D := D) (X := X)) m Q).
Abbreviation keeps m := (wp m (fun _ => True)).
Abbreviation fwp m Q := (triple (E := ExceptionInfo) (cpu_wf (D := D) (X := X)) m Q).

Lemma wp_csr_reads {A} (m : M CsrRegFile Exception A) : reads m -> keeps (on_csr m).
Proof. intros. by apply wp_on_csr, reads_triple. Qed.

Lemma write_directly_triple a v : u64 v -> triple csr_wf (CsrRegFile_write_directly (E := Exception) a v) (fun _ => True).
Proof.
  intros Hv. unfold CsrRegFile_write_directly. triple_step; [by apply triple_ret|].
  eapply triple_bind; [apply reads_triple, slot_reads|]. intros r _. destruct r; [|by apply triple_ret].
  eapply triple_bind; [apply (triple_modify _ _ (fun _ => True)); [|done]|intros; by apply triple_ret].
  intros s Hs. by apply upd_wf.
Qed.

Lemma write_uncheck_triple a v : 0 <= a < CSR_SIZE -> u64 v ->
  triple csr_wf (write_uncheck_privilege (E := Exception) a v) (fun _ => True).
Proof. intros Ha Hv s Hs. by destruct (write_uncheck_wf (E := Exception) s a v Hs Ha Hv) as (s' & -> & Hs' & _). Qed.

Lemma set_level_triple l : triple csr_wf (set_current_privileged (E := Exception) l) (fun _ => True).
Proof. apply triple_modify; [|done]. intros s Hs. by apply set_cpl_wf. Qed.

Lemma wp_next_pc tr mode base : wp (next_pc_by_tvec tr mode base) (fun p => u64 p).
Proof.
  assert (wp (ret (shl 64 base 2)) (fun p => u64 p)) as Hr by (apply triple_ret; by apply uint_shl).
  unfold next_pc_by_tvec. repeat (triple_step; try exact Hr; try apply triple_panic).
  - by apply (triple_unwrap _ _ (fun _ => True)).
  - apply wp_add_chk.
Qed.

Ltac wp_csr :=
  match goal with
  | |- triple _ (bind _ _) _ => eapply triple_bind; [|intros ? ?]
  | |- triple _ (on_csr (set_field _ _)) _ => apply wp_on_csr, set_field_triple
  | |- triple _ (on_csr (set_current_privileged _)) _ => apply wp_on_csr, set_level_triple
  | |- triple _ (on_csr (write_uncheck_privilege _ _)) _ => apply wp_on_csr, write_uncheck_triple; [done|]
  | |- triple _ (on_csr (CsrRegFile_write_directly _ _)) _ => apply wp_on_csr, write_directly_triple
  | |- triple _ (on_csr _) _ => apply wp_csr_reads; solve [eauto with reads]
  | |- triple _ (unwrap _) _ => apply (triple_unwrap _ _ (fun n => u64 n)); intros ? ?; by eapply Trap_into_range
  | |- triple _ (gets pc) _ => apply wp_gets_pc
  | |- triple _ (assert _) _ => by apply (triple_assert _ _ (fun _ => True))
  | |- triple _ (next_pc_by_tvec _ _ _) _ => apply wp_next_pc
  | |- triple _ (write_pc _) _ => apply wp_set_pc
  end.

Lemma wp_send_m tr v : u64 v -> keeps (send_trap_signal_m_mode tr v).
Proof. intros Hv. unfold send_trap_signal_m_mode. repeat wp_csr; done. Qed.
Lemma wp_send_s tr v : u64 v -> keeps (send_trap_signal_s_mode tr v).
Proof. intros Hv. unfold send_trap_signal_s_mode. repeat wp_csr; done. Qed.

Lemma delegated_reads tr : reads (is_delegated_m_mode (D := D) (X := X) tr).
Proof.
  destruct tr as [i|e]; unfold is_delegated_m_mode, is_interrupt_delegated_m_mode, is_exception_delegated_m_mode.
  - destruct i; solve_reads; apply on_csr_reads, get_field_reads.
  - apply reads_bind; [apply on_csr_reads, data_reads|intros; apply reads_ret].
Qed.

Lemma wp_try_send tr v : u64 v -> keeps (try_send_trap_signal tr v).
Proof.
  intros Hv. pose proof (wp_send_m tr v Hv) as Hm. pose proof (wp_send_s tr v Hv) as Hs. unfold try_send_trap_signal, goes_to_m.
  eapply triple_bind; [apply wp_csr_reads; eauto with reads|]. intros l _.
  eapply triple_bind with (Q := fun _ => True).
  { triple_step; [by apply triple_ret|]. eapply triple_bind; [apply reads_triple, delegated_reads|intros; by apply triple_ret]. }
  intros m _. assert (forall (f : CsrField) (b : bool), keeps (if b then ret true else x <- on_csr (get_field f) ;; ret (x =? 1))) as He.
  { intros f b. triple_step; [by apply triple_ret|]. eapply triple_bind; [apply wp_csr_reads; eauto with reads|intros; by apply triple_ret]. }
  destruct m, tr; repeat first [apply He | exact Hm | exact Hs | by apply triple_ret | triple_step].
Qed.

Lemma wp_take_exception e v : u64 v -> keeps (take_exception e v).
Proof.
  intros Hv. unfold take_exception. eapply triple_bind; [by apply wp_try_send|]. intros b _. by apply triple_assert.
Qed.

Lemma wp_try_take_interrupt : keeps try_take_interrupt.
Proof.
  unfold try_take_interrupt. eapply triple_bind with (Q := fun _ => True).
  - apply reads_triple. unfold has_interrupt. solve_reads; apply on_csr_reads, data_reads.
  - intros [i|] _; [|by apply triple_ret]. eapply triple_bind; [apply wp_try_send; by apply uint_0|]. intros b _. by apply triple_ret.
Qed.

Lemma increment_mcycle_run n c : csr_wf (csr c) ->
  increment_mcycle_by n c = (Ok tt, set_csr (upd Mcycle (wrap 64 (val (csr c) Mcycle + n)) (csr c)) c).
Proof.
  intros Hs. destruct (known_of Mcycle) as [Hk Hi]; [done|]. unfold increment_mcycle_by, on_csr, zoom.
  erewrite bind_Ok by (apply data_run; [done|by rewrite Hi]). rewrite Hi.
  rewrite set_field_directly_run; [|done|change (fl_csr Mcycle_mcycle) with Mcycle; by rewrite Hi|done|by apply wrap_range].
  change (fl_csr Mcycle_mcycle) with Mcycle. change (fl_len Mcycle_mcycle) with 64. change (LOW_BIT Mcycle_mcycle) with 0. rewrite Hi.
  rewrite fset_all; [done|by apply val_u64|by apply wrap_range].
Qed.

Lemma wp_increment_mcycle n : keeps (increment_mcycle_by n).
Proof.
  intros c Hc. rewrite increment_mcycle_run by apply Hc. split; [|done]. destruct Hc; split; try done.
  apply upd_wf; [done|by apply wrap_range].
Qed.

Lemma wp_read_for_ifetch addr : triple (cpu_wf (D := D) (X := X)) (read_for_ifetch U16 addr) (uint 16).
Proof.
  unfold read_for_ifetch. eapply triple_bind; [|intros; apply wp_on_memory, read_policy_triple].
  eapply triple_zoom; [apply reads_triple, ifetch_policy_reads|by intros c []|by intros c s [] Hs].
Qed.

Lemma wp_fetch_half addr v : fwp (fetch_half addr v) (uint 16).
Proof.
  intros c Hc. pose proof (wp_read_for_ifetch addr c Hc) as Hr. unfold fetch_half.
  destruct (read_for_ifetch U16 addr c) as [[h|e|] c']; [done| |done]. by destruct (from_instr_fetch_err e).
Qed.

Lemma wp_ifetch_at addr : fwp (ifetch_at addr) (fun raw => u32 raw).
Proof.
  unfold ifetch_at. eapply triple_bind; [apply wp_fetch_half|]. intros h Hh. cbv zeta.
  assert (u32 (RawInstr_from h)) as Hr.
  { unfold RawInstr_from. apply (uint_weaken 16 32) in Hh; [|lia]. destruct (_ =? 2); [by apply uint_land|done]. }
  triple_step; [|by apply triple_ret]. eapply triple_bind with (Q := fun _ => True).
  { unfold add_chk. triple_step; [apply triple_panic|by apply triple_ret]. }
  intros n _. eapply triple_bind; [apply wp_fetch_half|]. intros h2 Hh2. apply triple_ret. apply uint_lor; [lia|done|by apply uint_shl].
Qed.


Lemma wf_set_icache ic e c : cpu_wf c -> icache_ok ic -> cpu_wf (set_icache ic e c).
Proof. intros [] Hi. by split. Qed.
Lemma wf_set_pending v c : cpu_wf c -> tval_ok v -> cpu_wf (set_pending_tval v c).
Proof. intros [] Hi. by split. Qed.
Lemma icache_ok_get ic a : icache_ok ic -> icache_ok (snd (Cache_get ic a)).
Proof. intros Hi b d. destruct (Cache_get_policy ic a) as [_ ->]. apply Hi. Qed.

Lemma wp_decode_at addr : fwp (decode_at_checked decoder addr) (fun d => info_wf (info d)).
Proof.
  intros c Hc. unfold decode_at_checked. pose proof (Cache_get_policy (icache c) addr) as [Hg Hp].
  pose proof (icache_ok_get (icache c) addr (wf_icache c Hc)) as Hok. destruct (Cache_get (icache c) addr) as [[d|] ic]; cbn in Hg, Hp, Hok.
  - split; [by apply wf_set_icache|]. by eapply (wf_icache c Hc).
  - match goal with |- context [bind ?m ?k (set_icache ?i ?e c)] =>
      assert (fwp (bind m k) (fun d => info_wf (info d))) as Hm; [|exact (Hm (set_icache i e c) (wf_set_icache i e c Hc Hok))] end.
    eapply triple_bind; [apply wp_ifetch_at|]. intros raw Hraw.
    eapply triple_bind; [apply (triple_unwrap _ _ (fun o => decode decoder raw = Some o)); done|]. intros o Ho. destruct o as [d|]; [|apply triple_err].
    apply decode_wf in Ho. eapply triple_bind; [apply (triple_modify _ _ (fun _ => True)); [|done]|intros; by apply triple_ret].
    intros c1 Hc1. apply wf_set_icache; [done|]. apply icache_ok_put; [apply Hc1|done].
Qed.

Lemma wf_zero_x0 c : cpu_wf c -> set_reg_file (<[0%nat := 0]> (reg_file c)) c = c.
Proof. intros [(_ & _ & Hz) _ _ _ _ _]. rewrite list_insert_id by done. by destruct c. Qed.

(** Clearing [x0] after each instruction changes nothing: writes to it are
    dropped already. *)
Lemma execute_run i x c r c' : cpu_wf c -> info_wf x -> get_exec_func i x c = (r, c') -> r <> Panic -> execute i x c = (r, c').
Proof.
  intros Hc Hx E Hr. unfold execute. rewrite E. rewrite wf_zero_x0; [done|].
  eapply triple_run; [by apply get_exec_func_keeps|exact Hc|exact E|exact Hr].
Qed.

Lemma wp_execute i x : info_wf x -> keeps (execute i x).
Proof.
  intros Hx c Hc. pose proof (get_exec_func_keeps i x Hx c Hc) as Hk. unfold execute.
  destruct (get_exec_func i x c) as [[a|e|] c'] eqn:E; [|by rewrite wf_zero_x0|done].
  rewrite wf_zero_x0 by apply Hk. by destruct Hk.
Qed.

Lemma wp_default v : tval_ok v -> u64 (default 0 v).
Proof. intros Hv. destruct v as [a|]; [by apply Hv|by apply uint_0]. Qed.

Lemma fetch_half_err addr v c e c' : fetch_half addr v c = (Err e, c') -> tval e = v.
Proof.
  unfold fetch_half. destruct (read_for_ifetch U16 addr c) as [[h|e1|] c1]; [done| |done].
  by destruct (from_instr_fetch_err e1); intros [= <- <-].
Qed.

(** The value reported for a failed fetch is the address that failed. *)
Lemma ifetch_err addr c e c' : ifetch_at addr c = (Err e, c') -> tval e = addr \/ tval e = wrap 64 (addr + 2).
Proof.
  unfold ifetch_at, bind at 1. destruct (fetch_half addr addr c) as [[h|e1|] c1] eqn:Eh; [|intros [= <- <-]; left; by eapply fetch_half_err|done].
  cbv zeta. destruct (_ =? 4); [|done]. unfold add_chk, bind at 1. destruct (_ && _); [done|]. unfold ret at 1, bind at 1.
  destruct (fetch_half _ (wrap 64 (addr + 2)) c1) as [[h2|e2|] c2] eqn:Eh2; [done|intros [= <- <-]; right; by eapply fetch_half_err|done].
Qed.

Lemma decode_err addr c e c' : cpu_wf c -> u64 addr -> decode_at_checked decoder addr c = (Err e, c') -> u64 (tval e).
Proof.
  intros Hc Ha. unfold decode_at_checked. pose proof (icache_ok_get (icache c) addr (wf_icache c Hc)) as Hok.
  destruct (Cache_get (icache c) addr) as [[d|] ic]; [done|]. cbn in Hok. set (c0 := set_icache ic (icache_epoch c) c).
  pose proof (wp_ifetch_at addr c0 (wf_set_icache _ _ _ Hc Hok)) as Hi. unfold bind at 1.
  destruct (ifetch_at addr c0) as [[raw|e1|] c1] eqn:Ei; [| |done].
  - destruct Hi as [_ Hr]. unfold bind, unwrap. destruct (decode decoder raw) as [[d|]|]; [done|intros [= <- <-]; by apply u32_u64|done].
  - intros [= <- <-]. apply ifetch_err in Ei as [->| ->]; [done|by apply wrap_range].
Qed.

Lemma wp_step_impl : keeps (step_impl decoder).
Proof.
  intros c Hc. unfold step_impl. pose proof (wp_decode_at (pc c) c Hc) as Hd.
  destruct (decode_at_checked decoder (pc c) c) as [[d|e|] c1] eqn:Ed; [|exact (wp_take_exception _ _ (decode_err _ _ _ _ Hc (wf_pc c Hc) Ed) c1 Hd)|done].
  destruct Hd as [Hc1 Hd]. pose proof (wp_execute (instr d) (info d) Hd c1 Hc1) as He.
  destruct (execute (instr d) (info d) c1) as [[[]|e|] c2]; [done| |done].
  assert (match take_exception e (default 0 (pending_tval c2)) (set_pending_tval None c2) with
    | (Ok a, s') => cpu_wf s' /\ True | (Err _, s') => cpu_wf s' | (Panic, _) => True end) as Hother.
  { apply wp_take_exception; [apply wp_default, He|]. by apply wf_set_pending. }
  destruct e; try exact Hother. clear Hother.
  pose proof (wp_ifetch_at (pc c2) c2 He) as Hi. unfold ifetch. destruct (ifetch_at (pc c2) c2) as [[raw|e|] c3]; [|done|done].
  destruct Hi as [Hc3 Hr]. apply wp_take_exception; [by apply u32_u64|done].
Qed.
End Steps.

(** ** Pending trap values

    [settles m]: with no trap value pending, [m] leaves one behind only
    together with an exception other than an illegal instruction. *)
Section Settles.
Context {D X : Type} `{DeviceTrait D} `{Profile} `{ExtUnit D X} `{ExtOk X}.
Implicit Types c : RVCPU D X.

Abbreviation CpuM := (M (RVCPU D X) Exception).

Definition settles {A} (m : CpuM A) : Prop := forall c, pending_tval c = None ->
  match m c with
  | (Ok _, c') => pending_tval c' = None
  | (Err e, c') => e = IllegalInstruction -> pending_tval c' = None
  | (Panic, _) => True
  end.
(** [m] does not touch the pending trap value. *)
Definition quiet {E A} (m : M (RVCPU D X) E A) : Prop := forall c, pending_tval (snd (m c)) = pending_tval c.

Lemma quiet_settles {A} (m : CpuM A) : quiet m -> settles m.
Proof. intros Hm c Hc. specialize (Hm c). destruct (m c) as [[]]; cbn in Hm; [congruence|congruence|done]. Qed.

Lemma settles_bind {A B} (m : CpuM A) (k : A -> CpuM B) : settles m -> (forall a, settles (k a)) -> settles (bind m k).
Proof. intros Hm Hk c Hc. unfold bind. specialize (Hm c Hc). destruct (m c) as [[a|e|] c1]; [by apply Hk|done|done]. Qed.

Lemma quiet_bind {E A B} (m : M (RVCPU D X) E A) (k : A -> M (RVCPU D X) E B) : quiet m -> (forall a, quiet (k a)) -> quiet (bind m k).
Proof. intros Hm Hk c. unfold bind. specialize (Hm c). destruct (m c) as [[a|e|] c1]; cbn in *; [by rewrite Hk|done|done]. Qed.

Lemma quiet_on_csr {A} (m : M CsrRegFile Exception A) : quiet (on_csr m).
Proof. intros c. unfold on_csr, zoom. by destruct (m (csr c)). Qed.
Lemma quiet_on_memory {E A} (m : M (VirtAddrManager D) E A) : quiet (on_memory m).
Proof. intros c. unfold on_memory, zoom. by destruct (m (memory c)). Qed.
Lemma quiet_lift {A} (r : Res Exception A) : quiet (lift_res r).
Proof. done. Qed.
Lemma quiet_unwrap {E A} (o : option A) : quiet (E := E) (unwrap o).
Proof. by destruct o. Qed.
Lemma quiet_assert {E} b : quiet (E := E) (assert b).
Proof. by destruct b. Qed.
Lemma quiet_reg_write id v : quiet (reg_write id v).
Proof. intros c. unfold reg_write, bind, gets. destruct (id =? 0); [done|]. by destruct (_ <=? id). Qed.
Lemma quiet_add_chk {E} a b : quiet (E := E) (add_chk 64 a b).
Proof. intros c. unfold add_chk. by destruct (_ && _). Qed.
Lemma quiet_reads {E A} (m : M (RVCPU D X) E A) : reads m -> quiet m.
Proof. intros Hm c. by rewrite Hm. Qed.
Lemma quiet_read_csr a : quiet (read_csr a).
Proof.
  unfold read_csr. destruct (a =? 0xc01).
  - apply quiet_bind; [done|]. intros [t|]; [|done]. intros c. destruct (on_memory _ c) as [[]] eqn:E; apply on_memory_same in E as (_ & <- & _); done.
  - apply quiet_bind; [apply quiet_on_csr|]. by intros [].
Qed.
End Settles.

(** Straight-line code that never touches the pending trap value. *)
Ltac quiet_step :=
  match goal with
  | |- quiet (bind _ _) => apply quiet_bind; [|intros ?]
  | |- quiet (match ?x with _ => _ end) => destruct x
  | |- quiet (ret _) => done
  | |- quiet (err _) => done
  | |- quiet panic => done
  | |- quiet (gets _) => done
  | |- quiet (on_csr _) => apply quiet_on_csr
  | |- quiet (on_memory _) => apply quiet_on_memory
  | |- quiet (lift_res _) => apply quiet_lift
  | |- quiet (unwrap _) => apply quiet_unwrap
  | |- quiet (assert _) => apply quiet_assert
  | |- quiet (reg_write _ _) => apply quiet_reg_write
  | |- quiet (read_csr _) => apply quiet_read_csr
  | |- quiet (add_chk _ _ _) => apply quiet_add_chk
  | |- quiet (reg_read _ _) => unfold reg_read
  | |- quiet (reg_at _) => unfold reg_at
  | |- quiet (pc_add _) => done
  | |- quiet (write_pc _) => done
  | |- quiet flush_icache => done
  | |- quiet retire => apply quiet_on_csr
  | |- quiet get_current_privilege => apply quiet_on_csr
  | |- quiet cpu_flush_tlb => apply quiet_on_memory
  end.

Section SettlesExec.
Context {D X : Type} `{DeviceTrait D} `{Profile} `{ExtUnit D X} `{ExtOk X}.
Implicit Types c : RVCPU D X.

Lemma settles_finish {A} a (m : M (VirtAddrManager D) MemError A) : settles (X := X) (finish_memory_access a (on_memory m)).
Proof.
  intros c Hc. unfold finish_memory_access. destruct (on_memory m c) as [[v|e|] c'] eqn:E; [|by destruct e|done].
  apply on_memory_same in E as (_ & -> & _). done.
Qed.

Lemma settles_mem {A} access addr (m : AccessPolicy -> M (VirtAddrManager D) MemError A) :
  settles (X := X) (p <- data_policy access ;; finish_memory_access addr (on_memory (m p))).
Proof. apply settles_bind; [apply quiet_settles, quiet_on_csr|]. intros p. apply settles_finish. Qed.

Lemma settles_check_jump t : settles (D := D) (X := X) (check_jump_alignment t).
Proof.
  unfold check_jump_alignment. apply settles_bind; [apply quiet_settles, quiet_on_csr|]. intros b.
  destruct (_ && _); [by intros c Hc|by apply quiet_settles].
Qed.

(** The errors of an atomic operation are store faults. *)
Lemma amo_policy_err t a v p f (s : VirtAddrManager D) e s' : (forall x, exists y, f x v = Ok y) ->
  fetch_and_op_amo_with_policy t a v p f s = (Err e, s') -> e <> IllegalInstruction.
Proof.
  intros Hf. unfold fetch_and_op_amo_with_policy, bind at 1, map_err.
  destruct (translate_with_policy a p s) as [[pa|e1|] s1]; [|by intros [= <-]|done].
  destruct (negb _); [by intros [= <-]|]. destruct (negb _); [by intros [= <-]|].
  unfold on_mmio, zoom, amo_cell, bind, assert, gets, lift_res, modify, ret, panic.
  destruct (_ <? SIZE); [|done]. destruct (Hf (load_le (ram (mmio s1)) (pa - BASE_ADDR) (nbytes t))) as [y Hy].
  rewrite Hy. discriminate.
Qed.

Lemma settles_amo t a v f : (forall x, exists y, f x v = Ok y) -> settles (D := D) (X := X) (fetch_and_op_amo t a v f).
Proof.
  intros Hf. apply settles_bind; [apply quiet_settles, quiet_on_csr|]. intros p c Hc. unfold on_memory, zoom.
  destruct (fetch_and_op_amo_with_policy t a v p f (memory c)) as [[x|e|] s] eqn:E; [done| |done].
  intros ->. by destruct (amo_policy_err _ _ _ _ _ _ _ _ Hf E).
Qed.

Ltac quietly := apply quiet_settles; repeat quiet_step.
Ltac settle :=
  match goal with
  | |- settles (bind _ _) => apply settles_bind; [|intros ?]
  | |- settles (match ?x with _ => _ end) => destruct x
  | |- settles (let _ := _ in _) => cbv zeta
  | |- settles (check_jump_alignment _) => apply settles_check_jump
  | |- settles (mem_read _ _) => apply settles_mem
  | |- settles (mem_write _ _ _) => apply settles_mem
  | |- settles (cpu_load_reserved _ _) => apply settles_mem
  | |- settles (cpu_store_conditional _ _ _) => apply settles_mem
  | |- settles (fetch_and_op_amo _ _ _ _) => apply settles_amo
  | |- settles (supervisor_check _) => unfold supervisor_check
  | |- settles mret => unfold mret
  | |- settles sret => unfold sret
  | |- settles (write_csr _ _) => unfold write_csr
  | |- settles _ => solve [quietly]
  end.

Definition amo_total (F : AMOTrait) : Prop := forall t o v rhs, exists y, F t o v rhs = Ok y.

Lemma settles_functions info :
  (forall F, settles (D := D) (X := X) (exec_arith F info)) /\ (forall F, settles (D := D) (X := X) (exec_branch F info)) /\
  (forall t b, settles (D := D) (X := X) (exec_load t b info)) /\ (forall t, settles (D := D) (X := X) (exec_store t info)) /\
  (forall u, settles (D := D) (X := X) (exec_csrw u info)) /\ (forall s u, settles (D := D) (X := X) (exec_csr_bit s u info)) /\
  settles (D := D) (X := X) (exec_nop info) /\
  (forall F t, amo_total F -> settles (D := D) (X := X) (exec_atomic_memory_operation F t info)) /\
  (forall t b, settles (D := D) (X := X) (exec_lr t b info)) /\ (forall t, settles (D := D) (X := X) (exec_sc t info)).
Proof.
  split_and!; intros; unfold exec_arith, exec_branch, exec_load, exec_store, exec_csrw, exec_csr_bit, exec_nop,
    exec_atomic_memory_operation, exec_lr, exec_sc, normal_exec, handle_load; destruct info; try solve [quietly]; repeat settle; auto.
Qed.

Lemma settles_compressed info :
  (forall F, settles (D := D) (X := X) (exec_compress_arith F info)) /\ (forall F, settles (D := D) (X := X) (exec_compress_branch F info)) /\
  (forall b, settles (D := D) (X := X) (exec_compress_jump b info)) /\ (forall b, settles (D := D) (X := X) (exec_compress_jump_reg b info)) /\
  (forall t b, settles (D := D) (X := X) (exec_compress_load_sp t b info)) /\ (forall t b, settles (D := D) (X := X) (exec_compress_load t b info)) /\
  (forall t, settles (D := D) (X := X) (exec_compress_store_sp t info)) /\ (forall t, settles (D := D) (X := X) (exec_compress_store t info)) /\
  settles (D := D) (X := X) (exec_compress_nop info) /\ settles (D := D) (X := X) (exec_compress_mv info) /\
  settles (D := D) (X := X) (exec_compress_li info) /\ settles (D := D) (X := X) (exec_addi4spn info).
Proof.
  split_and!; intros; unfold exec_compress_arith, exec_compress_branch, exec_compress_jump, exec_compress_jump_reg, exec_compress_load_sp,
    exec_compress_load, exec_compress_store_sp, exec_compress_store, exec_compress_nop, exec_compress_mv, exec_compress_li, exec_addi4spn,
    normal_compress_exec, handle_load, handle_store; destruct info; try solve [quietly]; repeat settle.
Qed.

Lemma settles_system info :
  settles (D := D) (X := X) (exec_jal info) /\ settles (D := D) (X := X) (exec_jalr info) /\ settles (D := D) (X := X) (exec_auipc info) /\
  settles (D := D) (X := X) (exec_lui info) /\ settles (D := D) (X := X) (exec_ebreak info) /\ settles (D := D) (X := X) (exec_ecall info) /\
  settles (D := D) (X := X) (exec_fence_i info) /\ settles (D := D) (X := X) (exec_mret info) /\ settles (D := D) (X := X) (exec_sret info) /\
  settles (D := D) (X := X) (exec_sfence_vma info) /\ settles (D := D) (X := X) (exec_illegal info).
Proof.
  split_and!; unfold exec_jal, exec_jalr, exec_auipc, exec_lui, exec_ebreak, exec_ecall, exec_fence_i, exec_mret, exec_sret, exec_sfence_vma, exec_illegal;
    try destruct info; try solve [quietly]; repeat settle.
Qed.
End SettlesExec.

(** What the floating-point and vector units promise about the trap value. *)
Class SettlingExt (D X : Type) `{LawfulExt D X} : Prop :=
  ext_settles : forall i info, info_wf info -> settles (D := D) (X := X) (exec_ext i info).

#[export] Instance no_ext_settles : SettlingExt Z unit.
Proof. intros i info _. by apply quiet_settles. Qed.

Section Harts.
Context {D X : Type} `{DeviceTrait D} `{Profile} `{SettlingExt D X}.
Context (decoder : Decoder).
Implicit Types c : RVCPU D X.

Lemma amo_ops_total :
  amo_total ExecAmoAdd /\ amo_total ExecAmoAnd /\ amo_total ExecAmoOr /\ amo_total ExecAmoXor /\ amo_total ExecAmoSwap /\
  amo_total ExecAmoMax /\ amo_total ExecAmoMin /\ amo_total ExecAmoMaxU /\ amo_total ExecAmoMinU.
Proof. split_and!; intros t o v rhs; by eexists. Qed.

Lemma get_exec_func_settles i info : info_wf info -> settles (D := D) (X := X) (get_exec_func i info).
Proof.
  intros Hi.
  destruct amo_ops_total as (?&?&?&?&?&?&?&?&?).
  destruct (settles_functions (D := D) (X := X) info) as (?&?&?&?&?&?&?&?&?&?).
  destruct (settles_compressed (D := D) (X := X) info) as (?&?&?&?&?&?&?&?&?&?&?&?).
  destruct (settles_system (D := D) (X := X) info) as (?&?&?&?&?&?&?&?&?&?&?).
  destruct i; cbn; first [done | match goal with
    | |- settles (exec_ext _ _) => by apply ext_settles
    | Hf : forall F t, amo_total F -> _ |- settles (exec_atomic_memory_operation _ _ _) => by apply Hf
    | |- settles ?x => match goal with
        | Hf : settles x |- _ => exact Hf
        | Hf : forall _, settles _ |- _ => exact (Hf _)
        | Hf : forall _ _, settles _ |- _ => exact (Hf _ _)
        end
    end].
Qed.

(** The invariant between cycles. *)
Definition hart_ok c : Prop := cpu_wf c /\ pending_tval c = None.

(** Fetching, decoding and trap entry leave the pending value alone. *)
Lemma quiet_fetch_half a v : quiet (D := D) (X := X) (fetch_half a v).
Proof.
  assert (quiet (D := D) (X := X) (read_for_ifetch U16 a)) as Hr.
  { apply quiet_bind; [intros c; unfold zoom; by destruct (resolve_ifetch_policy true (csr c))|intros; apply quiet_on_memory]. }
  intros c. specialize (Hr c). unfold fetch_half. destruct (read_for_ifetch U16 a c) as [[h|e|] c1]; [done| |done].
  by destruct (from_instr_fetch_err e).
Qed.

Lemma quiet_ifetch a : quiet (D := D) (X := X) (ifetch_at a).
Proof. unfold ifetch_at. repeat first [apply quiet_fetch_half | quiet_step | progress cbv zeta]. Qed.

Lemma quiet_decode_at a : quiet (D := D) (X := X) (decode_at_checked decoder a).
Proof.
  intros c. unfold decode_at_checked. destruct (Cache_get (icache c) a) as [[d|] ic]; [done|].
  match goal with |- context [bind ?m ?k ?c0] => assert (quiet (bind m k)) as Hq; [|exact (Hq c0)] end.
  repeat first [apply quiet_ifetch | quiet_step]. done.
Qed.

Lemma quiet_try_send tr v : quiet (D := D) (X := X) (try_send_trap_signal tr v).
Proof.
  unfold try_send_trap_signal, goes_to_m, is_delegated_m_mode, is_interrupt_delegated_m_mode, is_exception_delegated_m_mode,
    send_trap_signal_m_mode, send_trap_signal_s_mode, next_pc_by_tvec. repeat quiet_step.
Qed.

Lemma quiet_take_exception e v : quiet (D := D) (X := X) (take_exception e v).
Proof. apply quiet_bind; [apply quiet_try_send|intros; apply quiet_assert]. Qed.

Lemma quiet_try_take_interrupt : quiet (D := D) (X := X) try_take_interrupt.
Proof. unfold try_take_interrupt, has_interrupt. repeat first [apply quiet_try_send | quiet_step | progress cbv zeta]. Qed.

Lemma execute_settles i x : info_wf x -> settles (D := D) (X := X) (execute i x).
Proof.
  intros Hx c Hc. pose proof (get_exec_func_settles i x Hx c Hc) as Hs. unfold execute.
  by destruct (get_exec_func i x c) as [[a|e|] c'].
Qed.

(** After a step no trap value is pending: an exception consumes it. *)
Lemma step_impl_pending c r c' : hart_ok c -> step_impl decoder c = (r, c') -> r <> Panic -> pending_tval c' = None.
Proof.
  intros [Hwf Hc] E Hr. unfold step_impl in E. pose proof (quiet_decode_at (pc c) c) as Hq. pose proof (wp_decode_at decoder (pc c) c Hwf) as Hd.
  destruct (decode_at_checked decoder (pc c) c) as [[d|e|] c1]; cbn in Hq; [| |congruence].
  - pose proof (execute_settles (instr d) (info d) (proj2 Hd) c1 ltac:(congruence)) as Hs.
    destruct (execute (instr d) (info d) c1) as [[[]|e|] c2]; [congruence| |congruence].
    assert (forall e v c0, pending_tval c0 = None -> take_exception e v c0 = (r, c') -> pending_tval c' = None) as Ht.
    { intros e0 v0 c0 Hc0 E0. pose proof (quiet_take_exception e0 v0 c0) as Hte. rewrite E0 in Hte. cbn in Hte. congruence. }
    destruct e; try (eapply Ht; [|exact E]; reflexivity).
    pose proof (quiet_ifetch (pc c2) c2) as Hf. unfold ifetch in E. destruct (ifetch_at (pc c2) c2) as [[raw|e|] c3]; [|congruence|congruence].
    cbn in Hf. eapply Ht; [|exact E]. rewrite Hf. by apply Hs.
  - pose proof (quiet_take_exception (cause e) (tval e) c1) as Ht. rewrite E in Ht. cbn in Ht. congruence.
Qed.

(** *** Cycles *)
Lemma no_err_trap_send tr v : no_err (try_send_trap_signal (D := D) (X := X) tr v).
Proof.
  assert (forall a v, no_err (CsrRegFile_write_directly (E := Exception) a v)) as Hw.
  { intros a x. unfold CsrRegFile_write_directly. solve_no_err. }
  assert (forall a, no_err (data (E := Exception) a)) as Hd by (intros a; unfold data; solve_no_err).
  assert (forall tr m b, no_err (next_pc_by_tvec (D := D) (X := X) tr m b)) as Hn.
  { intros. unfold next_pc_by_tvec, add_chk. solve_no_err. }
  unfold try_send_trap_signal, goes_to_m, is_delegated_m_mode, is_interrupt_delegated_m_mode, is_exception_delegated_m_mode,
    send_trap_signal_m_mode, send_trap_signal_s_mode.
  solve_no_err.
Qed.

Lemma no_err_take_exception e v : no_err (take_exception (D := D) (X := X) e v).
Proof. apply no_err_bind; [apply no_err_trap_send|intros; apply no_err_assert]. Qed.

Lemma no_err_try_take_interrupt : no_err (try_take_interrupt (D := D) (X := X)).
Proof.
  assert (forall a, no_err (data (E := Exception) a)) as Hd by (intros a; unfold data; solve_no_err).
  unfold try_take_interrupt. apply no_err_bind; [unfold has_interrupt; solve_no_err|]. intros [i|]; [|apply no_err_ret].
  apply no_err_bind; [apply no_err_trap_send|intros; apply no_err_ret].
Qed.

Lemma no_err_step_impl : no_err (step_impl (D := D) (X := X) decoder).
Proof.
  intros c e c'. unfold step_impl. destruct (decode_at_checked decoder (pc c) c) as [[d|x|] c1]; [|apply no_err_take_exception|done].
  destruct (execute (instr d) (info d) c1) as [[[]|y|] c2]; [done| |done].
  destruct y; try apply no_err_take_exception. destruct (ifetch c2) as [[raw|z|] c3]; [apply no_err_take_exception|done|done].
Qed.

(** A step ends with the invariant and without an error value. *)
Lemma step_impl_ok c r c' : hart_ok c -> step_impl decoder c = (r, c') -> r <> Panic -> r = Ok tt /\ hart_ok c'.
Proof.
  intros [Hc Hp] E Hr. split.
  - destruct r as [[]|e|]; [done|by apply no_err_step_impl in E|done].
  - split; [|by apply (step_impl_pending c r c')]. eapply triple_run; [apply (wp_step_impl decoder)|exact Hc|exact E|exact Hr].
Qed.

Definition bump_mcycle (n : Z) c : RVCPU D X := set_csr (upd Mcycle (wrap 64 (val (csr c) Mcycle + n)) (csr c)) c.

Lemma bump_ok n c : hart_ok c -> hart_ok (bump_mcycle n c).
Proof.
  intros [Hc Hp]. split; [|done]. pose proof (wp_increment_mcycle (D := D) (X := X) n c Hc) as Hw.
  rewrite increment_mcycle_run in Hw by apply Hc. apply Hw.
Qed.

Lemma check_pending_ok c : pending_tval c = None -> check_pending (D := D) (X := X) c = (Ok tt, c).
Proof. intros Hp. unfold check_pending, bind, gets. rewrite Hp. cbn. by rewrite orb_true_r. Qed.

(** A cycle is a step followed by counting it: the debug assertion on the
    pending trap value holds. *)
Lemma cycle_run c : hart_ok c ->
  cycle decoder c = match step_impl decoder c with
                    | (Ok _, c') => (Ok tt, bump_mcycle 1 c')
                    | r => r
                    end.
Proof.
  intros Hc. unfold cycle, bind at 1. destruct (step_impl decoder c) as [[[]|e|] c'] eqn:E; [|done|done].
  destruct (step_impl_ok c _ c' Hc E ltac:(done)) as [_ Hc']. unfold increment_mcycle.
  erewrite bind_Ok by (apply increment_mcycle_run, Hc'). apply check_pending_ok, Hc'.
Qed.

Lemma cycle_ok c r c' : hart_ok c -> cycle decoder c = (r, c') -> r <> Panic -> r = Ok tt /\ hart_ok c'.
Proof.
  intros Hc E Hr. rewrite cycle_run in E by done. destruct (step_impl decoder c) as [[[]|e|] c1] eqn:Es; [| |congruence].
  - injection E as <- <-. destruct (step_impl_ok c _ c1 Hc Es ltac:(done)) as [_ Hc1]. by split; [|apply bump_ok].
  - by apply no_err_step_impl in Es.
Qed.

Lemma interrupt_ok c r c' : hart_ok c -> try_take_interrupt c = (r, c') -> r <> Panic -> (exists o, r = Ok o) /\ hart_ok c'.
Proof.
  intros [Hc Hp] E Hr. split; [destruct r; [by eexists|by apply no_err_try_take_interrupt in E|done]|]. split.
  - eapply triple_run; [apply wp_try_take_interrupt|exact Hc|exact E|exact Hr].
  - pose proof (quiet_try_take_interrupt c) as Hq. rewrite E in Hq. cbn in Hq. congruence.
Qed.
End Harts.

(** What a hook promises: it keeps the invariant of the hart. *)
Class LawfulHook {D X : Type} (Hk Ctx : Type) `{ExecutionHook Hk (RVCPU D X) Ctx} `{ExtOk X} : Prop := {
  before_keeps : triple (fun s => hart_ok (D := D) (X := X) (snd s)) before_step (fun _ => True);
  after_keeps : forall ctx, triple (fun s => hart_ok (D := D) (X := X) (snd s)) (after_step ctx) (fun _ => True)
}.
#[export] Instance noop_lawful {D X} `{ExtOk X} : LawfulHook (D := D) (X := X) unit unit.
Proof. by split. Qed.

Section Batches.
Context {D X : Type} `{DeviceTrait D} `{Profile} `{SettlingExt D X}.
Context (decoder : Decoder).
Implicit Types c : RVCPU D X.

Section Hooked.
Context {Hk Ctx : Type} `{ExecutionHook Hk (RVCPU D X) Ctx} {Hlawful : LawfulHook (D := D) (X := X) Hk Ctx}.

(** What a batch reports: it ran all its cycles, or the hook stopped it after
    at least one. *)
Definition batch_result (n : Z) (b : BatchResult) : Prop :=
  0 <= cycles b <= n /\ (hook_stopped b = false -> cycles b = n) /\ (hook_stopped b = true -> 1 <= cycles b).

Lemma hook_loop_ok rest executed h c r s : 0 <= executed -> hart_ok c ->
  hook_loop decoder rest executed (h, c) = (r, s) -> r <> Panic ->
  exists b, r = Ok b /\ hart_ok (snd s) /\ batch_result (executed + Z.of_nat rest) b.
Proof.
  revert executed h c. induction rest as [|rest IH]; intros executed h c He Hc E Hr.
  - injection E as <- <-. eexists. split_and!; [done|exact Hc|]. unfold batch_result. cbn. lia.
  - cbn [hook_loop] in E. unfold bind at 1, hook_before in E. cbn [fst snd] in E.
    pose proof (before_keeps (h, c) Hc) as Hb. unfold map_err in E.
    destruct (before_step (h, c)) as [[ctx|[]|] [h1 c1]]; [|by injection E as <- <-]. destruct Hb as [Hb _]. cbn [snd] in Hb.
    unfold bind at 1, on_cpu, zoom in E. cbn [fst snd] in E. destruct (cycle decoder c1) as [r1 c2] eqn:Ec.
    destruct r1 as [[]|e|]; [|by destruct (cycle_ok decoder c1 _ c2 Hb Ec ltac:(done)) as [[=] _]|by injection E as <- <-].
    destruct (cycle_ok decoder c1 _ c2 Hb Ec ltac:(done)) as [_ Hc2].
    unfold bind at 1, hook_after in E. cbn [fst snd] in E. pose proof (after_keeps ctx (h1, c2) Hc2) as Ha. unfold map_err in E.
    destruct (after_step ctx (h1, c2)) as [[stop|[]|] [h3 c3]]; [|by injection E as <- <-]. destruct Ha as [Ha _]. cbn [snd] in Ha. destruct stop.
    + injection E as <- <-. eexists. split_and!; [done|exact Ha|]. unfold batch_result. cbn. lia.
    + destruct (IH (executed + 1) h3 c3 ltac:(lia) Ha E Hr) as (b & -> & Hs & Hres). exists b. split_and!; [done|exact Hs|].
      by replace (executed + Z.of_nat (S rest)) with (executed + 1 + Z.of_nat rest) by lia.
Qed.

(** a batch of [n] cycles in which the emulator does not panic, with any hook
    that respects the hart, keeps the
    invariant of the hart: the type invariant and that no trap value is
    pending between cycles.  It never fails with an error, and the number of
    cycles it reports is [n] unless the hook stopped it, and then at least one
    and at most [n]. *)
Theorem batch_keeps_hart (n : Z) (h : Hk) c (r : Res Exception BatchResult) (s : Hk * RVCPU D X) :
  0 <= n -> hart_ok c -> step_batch_with_hook decoder n (h, c) = (r, s) -> r <> Panic ->
  exists b, r = Ok b /\ hart_ok (snd s) /\ batch_result n b.
Proof.
  intros Hn Hc E Hr. unfold step_batch_with_hook in E. destruct (Z.eqb_spec n 0) as [->|Hne].
  { injection E as <- <-. eexists. split_and!; [done|exact Hc|]. unfold batch_result. cbn. lia. }
  unfold bind at 1, gets in E. cbn [fst snd] in E. unfold bind at 1, on_cpu at 1, zoom in E. cbn [fst snd] in E.
  destruct (try_take_interrupt c) as [r1 c1] eqn:Ei.
  destruct r1 as [o|e|]; [|by destruct (interrupt_ok c _ c1 Hc Ei ltac:(done)) as [[? [=]] _]|by injection E as <- <-].
  destruct (interrupt_ok c _ c1 Hc Ei ltac:(done)) as [_ Hc1]. destruct o as [i|].
  - unfold bind at 1, hook_interrupt in E. unfold zoom, map_err in E. cbn [fst snd] in E.
    destruct (on_interrupt_taken (pc c) h) as [[ctx|[]|] h1]; [|by injection E as <- <-].
    unfold bind at 1, on_cpu, zoom in E. cbn [fst snd] in E. unfold increment_mcycle in E.
    rewrite increment_mcycle_run in E by apply Hc1. fold (bump_mcycle 1 c1) in E. pose proof (bump_ok 1 c1 Hc1) as Hb.
    unfold bind at 1, hook_after in E. cbn [fst snd] in E. pose proof (after_keeps ctx (h1, bump_mcycle 1 c1) Hb) as Ha. unfold map_err in E.
    destruct (after_step ctx (h1, bump_mcycle 1 c1)) as [[stop|[]|] [h3 c3]]; [|by injection E as <- <-]. destruct Ha as [Ha _]. cbn [snd] in Ha. destruct stop.
    + injection E as <- <-. eexists. split_and!; [done|exact Ha|]. unfold batch_result. cbn. lia.
    + destruct (hook_loop_ok (Z.to_nat (n - 1)) 1 h3 c3 r s ltac:(lia) Ha E Hr) as (b & -> & Hs & Hres). exists b. split_and!; [done|exact Hs|].
      by rewrite Z2Nat.id, Zplus_minus in Hres by lia.
  - destruct (hook_loop_ok (Z.to_nat n) 0 h c1 r s ltac:(lia) Hc1 E Hr) as (b & -> & Hs & Hres). exists b. split_and!; [done|exact Hs|].
    by rewrite Z2Nat.id in Hres by lia.
Qed.
End Hooked.
End Batches.

(** ** What the extension units of a hart are made of *)
Section Hart.
Context {D X : Type} `{DeviceTrait D} `{Profile} `{ExtOk X}.
Implicit Types c : RVCPU D X.
Abbreviation CPU := (RVCPU D X).
Abbreviation hkeeps m := (triple (cpu_wf (D := D) (X := X)) m (fun _ => True)).

(** Code that leaves the program counter and the pending trap value alone. *)
Definition still {E A} (m : M CPU E A) : Prop :=
  forall c, pc (snd (m c)) = pc c /\ pending_tval (snd (m c)) = pending_tval c.
(** What the body of an instruction satisfies. *)
Definition body {E A} (m : M CPU E A) (Q : A -> Prop) : Prop := triple cpu_wf m Q /\ still m.
(** What the instruction satisfies. *)
Definition lawful (m : M CPU Exception unit) : Prop :=
  hkeeps m /\ quiet m /\ forall c e c', m c = (Err e, c') -> pc c' = pc c.

Lemma still_bind {E A B} (m : M CPU E A) (k : A -> M CPU E B) : still m -> (forall a, still (k a)) -> still (bind m k).
Proof.
  intros Hm Hk c. unfold bind. specialize (Hm c). destruct (m c) as [[a|e|] c1]; cbn [snd] in *; [|done|done].
  destruct (Hk a c1). intuition congruence.
Qed.

Lemma body_seq {E A B} (m : M CPU E A) (k : A -> M CPU E B) R :
  body m (fun _ => True) -> (forall a, body (k a) R) -> body (bind m k) R.
Proof.
  intros [Hm Sm] Hk. split; [eapply triple_bind; [exact Hm|intros a _; apply Hk]|]. apply still_bind; [done|]. intros a. apply Hk.
Qed.

Lemma still_zoom {S E A} (get : CPU -> S) put (m : M S E A) :
  (forall c s, pc (put c s) = pc c /\ pending_tval (put c s) = pending_tval c) -> still (zoom get put m).
Proof. intros Hp c. unfold zoom. destruct (m (get c)) as [r s]. apply Hp. Qed.

Lemma body_on_csr {A} (m : M CsrRegFile Exception A) Q : triple csr_wf m Q -> body (on_csr m) Q.
Proof. intros Hm. split; [by apply wp_on_csr|by apply still_zoom]. Qed.

Lemma still_reg_write rd v : still (reg_write rd v).
Proof. intros c. unfold reg_write, bind, gets. destruct (rd =? 0); [done|]. by destruct (_ <=? rd). Qed.

Lemma body_reg_write rd v : reg_ok rd -> u64 v -> body (reg_write rd v) (fun _ => True).
Proof. intros [Hrd _] Hv. split; [by apply wp_reg_write|apply still_reg_write]. Qed.

Lemma body_reads {E A} (m : M CPU E A) : reads m -> body m (fun _ => True).
Proof. intros Hm. split; [by apply reads_triple|]. intros c. by rewrite Hm. Qed.

Lemma body_weaken {E A} (m : M CPU E A) Q R : body m Q -> (forall a, Q a -> R a) -> body m R.
Proof. intros [Hm Hs] HQ. split; [by eapply triple_weaken|done]. Qed.

Lemma reg_at_reads id : reads (reg_at (D := D) (X := X) id).
Proof. unfold reg_at. solve_reads. Qed.
Hint Resolve reg_at_reads : reads.

Lemma body_reg_at id : body (reg_at id) (fun v => u64 v).
Proof. split; [apply wp_reg_at|]. intros c. by rewrite reg_at_reads. Qed.

Lemma body_ret {E A} (a : A) (Q : A -> Prop) : Q a -> body (ret (E := E) a) Q.
Proof. intros Ha. split; [by apply triple_ret|done]. Qed.
Lemma body_err {E A} (e : E) (Q : A -> Prop) : body (err e) Q.
Proof. split; [by apply triple_err|done]. Qed.
Lemma body_panic {E A} (Q : A -> Prop) : body (panic (E := E)) Q.
Proof. split; [by apply triple_panic|done]. Qed.
End Hart.
#[export] Hint Resolve reg_at_reads : reads.
