(* ===== verification/HartSpec.v ===== *)
(** * What a step of the hart does

    Batches as iterated cycles, exceptions delivered to their handlers, the
    instruction cache, interrupt lines and reset. *)

From S2P Require Import Prelude Utils TrapTypes Alu Ram Cache CsrTable Csr PageTable Mmio Vm Instr Cpu Trap Exec Invariant Precise Decoder DecoderSpec DecoderTable Executor ExecutorSpec.

Section Batches.
Context {D X : Type} `{DeviceTrait D} `{Profile} `{SettlingExt D X}.
Context (decoder : Decoder).
Implicit Types c : RVCPU D X.

(** ** Batches *)
Lemma noop_loop rest executed c :
  hook_loop (Hk := unit) decoder rest executed (tt, c) =
    match no_interrupt_loop decoder rest c with
    | (Ok _, c') => (Ok {| cycles := executed + Z.of_nat rest; hook_stopped := false |}, (tt, c'))
    | (Err e, c') => (Err e, (tt, c'))
    | (Panic, c') => (Panic, (tt, c'))
    end.
Proof.
  revert executed c. induction rest as [|rest IH]; intros executed c; cbn [hook_loop no_interrupt_loop].
  - unfold ret. by rewrite Z.add_0_r.
  - change (hook_before (Hk := unit) (D := D) (X := X) (CycleContext := unit)) with (ret (S := unit * RVCPU D X) (E := Exception) tt).
    unfold bind at 1, ret at 1. unfold bind, on_cpu, zoom. cbn [fst snd].
    destruct (cycle decoder c) as [[[]|e|] c1]; [|done|done].
    change (hook_after (Hk := unit) (D := D) (X := X) tt) with (ret (S := unit * RVCPU D X) (E := Exception) false). unfold ret at 1.
    rewrite IH. by replace (executed + 1 + Z.of_nat rest) with (executed + Z.of_nat (S rest)) by lia.
Qed.

Lemma no_interrupt_loop_app a b c :
  no_interrupt_loop decoder (a + b) c = (no_interrupt_loop decoder a ;;; no_interrupt_loop decoder b) c.
Proof.
  revert c. induction a as [|a IH]; intros c; [done|]. cbn [no_interrupt_loop Nat.add]. unfold bind.
  destruct (cycle decoder c) as [[[]|e|] c1]; [|done|done]. rewrite IH. done.
Qed.

(** a batch takes at most one interrupt, before its first instruction,
    and it counts as one of the cycles; the rest are instruction steps, each
    counted once in [mcycle].  Batches without interrupts can be cut anywhere:
    running [a + b] cycles is running [a] and then [b]. *)
Theorem batch_is_iterated_cycles (n a b : Z) c : hart_ok c -> 0 < n -> 0 <= a -> 0 <= b ->
  step_batch decoder n c =
    match try_take_interrupt c with
    | (Ok None, c1) => step_batch_no_interrupt decoder n c1
    | (Ok (Some _), c1) => step_batch_no_interrupt decoder (n - 1) (bump_mcycle 1 c1)
    | (Err e, c1) => (Err e, c1)
    | (Panic, c1) => (Panic, c1)
    end /\
  step_batch_no_interrupt decoder (a + b) c =
    (step_batch_no_interrupt decoder a ;;; step_batch_no_interrupt decoder b) c.
Proof.
  intros Hc Hn Ha Hb. split.
  - unfold step_batch, step_batch_with_hook, step_batch_no_interrupt. rewrite (proj2 (Z.eqb_neq n 0)) by lia.
    unfold bind at 1, gets. cbn [fst snd]. unfold bind at 1, on_cpu at 1, zoom. cbn [fst snd].
    destruct (try_take_interrupt c) as [[o|e|] c1] eqn:Ei; [|done|done]. destruct o as [i|].
    + unfold bind at 1, hook_interrupt, zoom, map_err. cbn [fst snd on_interrupt_taken NoopExecutionHook ret].
      destruct (interrupt_ok c _ c1 Hc Ei ltac:(done)) as [_ Hc1].
      unfold bind at 1, on_cpu, zoom. cbn [fst snd]. unfold increment_mcycle. rewrite increment_mcycle_run by apply Hc1.
      fold (bump_mcycle 1 c1).
      change (hook_after (Hk := unit) (D := D) (X := X) tt) with (ret (S := unit * RVCPU D X) (E := Exception) false).
      unfold bind, ret at 1. rewrite noop_loop.
      by destruct (no_interrupt_loop decoder _ _) as [[[]|e|] c2].
    + rewrite noop_loop. by destruct (no_interrupt_loop decoder _ _) as [[[]|e|] c2].
  - unfold step_batch_no_interrupt. rewrite Z2Nat.inj_add by done. apply no_interrupt_loop_app.
Qed.

(** ** Exceptions *)

(** How a step raises an exception: [raises c e tv c'] with the exception, its
    trap value, and the state in which the trap is taken. *)
Inductive raises (c : RVCPU D X) : Exception -> Z -> RVCPU D X -> Prop :=
| RaiseFetch x c1 : decode_at_checked decoder (pc c) c = (Err x, c1) -> raises c (cause x) (tval x) c1
| RaiseExec d c1 e c2 : decode_at_checked decoder (pc c) c = (Ok d, c1) ->
    get_exec_func (instr d) (info d) c1 = (Err e, c2) -> e <> IllegalInstruction ->
    raises c e (default 0 (pending_tval c2)) (set_pending_tval None c2)
| RaiseIllegal d c1 c2 raw c3 : decode_at_checked decoder (pc c) c = (Ok d, c1) ->
    get_exec_func (instr d) (info d) c1 = (Err IllegalInstruction, c2) ->
    ifetch_at (pc c) c2 = (Ok raw, c3) -> raises c IllegalInstruction raw c3.

Lemma fetch_half_same a v c r c' : fetch_half (D := D) (X := X) a v c = (r, c') -> same_arch c c'.
Proof.
  unfold fetch_half, read_for_ifetch, bind, on_memory, zoom. pose proof (ifetch_policy_reads (E := MemError) true (csr c)) as Hr.
  destruct (resolve_ifetch_policy true (csr c)) as [[p|e|] s]; cbn in *; subst s.
  - destruct (read_with_policy U16 a p (memory c)) as [[h|e|] m]; [|destruct (from_instr_fetch_err e)|]; intros [= <- <-]; by split_and!.
  - destruct (from_instr_fetch_err e); intros [= <- <-]; by split_and!.
  - intros [= <- <-]; by split_and!.
Qed.

Lemma ifetch_same a c r c' : ifetch_at (D := D) (X := X) a c = (r, c') -> same_arch c c'.
Proof.
  unfold ifetch_at, bind at 1. destruct (fetch_half a a c) as [[h|e|] c1] eqn:E1; apply fetch_half_same in E1; [|by intros [= <- <-]..].
  cbv zeta. destruct (_ =? 4); [|by intros [= <- <-]]. unfold bind at 1, add_chk. destruct (_ && _); [by intros [= <- <-]|].
  unfold ret at 1, bind at 1. destruct (fetch_half _ _ c1) as [[h2|e|] c2] eqn:E2; apply fetch_half_same in E2;
    intros [= <- <-]; by eapply same_arch_trans.
Qed.

Lemma set_icache_same ic e c : same_arch c (set_icache ic e c).
Proof. by split_and!. Qed.

Lemma decode_at_same a c r c' : decode_at_checked decoder a c = (r, c') -> same_arch c c'.
Proof.
  unfold decode_at_checked. destruct (Cache_get (icache c) a) as [[d|] ic]; [by intros [= <- <-]|]. unfold bind at 1.
  set (c0 := set_icache _ _ c). assert (same_arch c c0) as H0' by by split_and!.
  destruct (ifetch_at a c0) as [[raw|e|] c1] eqn:Ei; apply ifetch_same in Ei;
    (assert (same_arch c c1) as Hs by by eapply same_arch_trans); [|by intros [= <- <-]..].
  unfold bind, unwrap, modify, ret, err. destruct (decode decoder raw) as [[d|]|]; intros [= <- <-]; [|done|done].
  eapply same_arch_trans; [exact Hs|by split_and!].
Qed.

(** The instruction a step executes belongs to an extension unit. *)
Definition extension_step c : Prop :=
  exists d c1, decode_at_checked decoder (pc c) c = (Ok d, c1) /\ base_exec_func (D := D) (X := X) (instr d) = None.

Lemma base_err_same c d c1 e c2 : ~ extension_step c -> decode_at_checked decoder (pc c) c = (Ok d, c1) ->
  get_exec_func (instr d) (info d) c1 = (Err e, c2) -> same_arch c c2.
Proof.
  intros Hn Ed Ee. unfold get_exec_func in Ee. destruct (base_exec_func (instr d)) as [f|] eqn:Ef.
  - eapply same_arch_trans; [by eapply decode_at_same|]. by apply (base_func_precise (instr d) f (info d) Ef c1 e c2).
  - destruct Hn. by exists d, c1.
Qed.

Lemma raises_same c e tv c' : ~ extension_step c -> raises c e tv c' -> same_arch c c'.
Proof.
  intros Hn [x c1 Ed|d c1 e' c2 Ed Ee Hne|d c1 c2 raw c3 Ed Ee Ei]; [by eapply decode_at_same|..].
  - pose proof (base_err_same _ _ _ _ _ Hn Ed Ee) as (?&?&?&?). by split_and!.
  - eapply same_arch_trans; [by eapply base_err_same|by eapply ifetch_same].
Qed.

Lemma raises_pc c e tv c' : cpu_wf c -> raises c e tv c' -> pc c' = pc c.
Proof.
  intros Hc Hr. pose proof (wp_decode_at decoder (pc c) c Hc) as Hd. destruct Hr as [x c1 Ed|d c1 e' c2 Ed Ee Hne|d c1 c2 raw c3 Ed Ee Ei]; rewrite Ed in Hd;
    apply decode_at_same in Ed as (_ & Hpc & _); [done|..]; apply exec_err_pc in Ee; try apply Hd.
  - cbn. congruence.
  - apply ifetch_same in Ei as (_ & ? & _). congruence.
Qed.

Lemma raises_wf c e tv c' : hart_ok c -> raises c e tv c' ->
  step_impl decoder c = take_exception e tv c' /\ cpu_wf c' /\ u64 tv /\ pending_tval c' = None.
Proof.
  intros [Hc Hp] Hr. pose proof (wp_decode_at decoder (pc c) c Hc) as Hd. pose proof (quiet_decode_at decoder (pc c) c) as Hq. unfold step_impl.
  destruct Hr as [x c1 Ed|d c1 e' c2 Ed Ee Hne|d c1 c2 raw c3 Ed Ee Ei]; rewrite Ed in Hd, Hq |- *; cbn in Hq.
  - split_and!; [done|done| |congruence]. by apply (decode_err decoder (pc c) c x c1 Hc (wf_pc c Hc)).
  - destruct Hd as [Hc1 Hi]. pose proof (get_exec_func_keeps (D := D) (X := X) (instr d) (info d) Hi c1 Hc1) as Hk. rewrite Ee in Hk.
    erewrite execute_run by (done || exact Ee). split_and!; [|by apply wf_set_pending|apply wp_default, Hk|done]. by destruct e'.
  - destruct Hd as [Hc1 Hi]. pose proof (get_exec_func_keeps (D := D) (X := X) (instr d) (info d) Hi c1 Hc1) as Hk. rewrite Ee in Hk.
    pose proof (get_exec_func_settles (instr d) (info d) Hi c1 ltac:(congruence)) as Hs. rewrite Ee in Hs.
    erewrite execute_run by (done || exact Ee). unfold ifetch.
    assert (pc c2 = pc c) as -> by (apply exec_err_pc in Ee as ->; [|done]; by apply decode_at_same in Ed as (_ & -> & _)).
    rewrite Ei. pose proof (wp_ifetch_at (pc c) c2 Hk) as Hw. rewrite Ei in Hw. destruct Hw as [Hc3 Hraw].
    pose proof (quiet_ifetch (pc c) c2) as Hqi. rewrite Ei in Hqi. cbn in Hqi. split_and!; [done|done|by apply u32_u64|]. rewrite Hqi. by apply Hs.
Qed.


(** ** The instruction cache *)

(** a decoded instruction is remembered: decoding the same address again
    gives the same instruction and changes nothing but the hit counters.
    After the cache is flushed (FENCE.I, SFENCE.VMA, a write to [satp]) an
    instruction is decoded from the bytes in memory. *)
Theorem decode_cached_until_flush a c d c1 c2 d' c3 :
  decode_at_checked decoder a c = (Ok d, c1) ->
  flush_icache c1 = (Ok tt, c2) -> decode_at_checked decoder a c2 = (Ok d', c3) ->
  (exists ic, decode_at_checked decoder a c1 = (Ok d, set_icache ic (icache_epoch c1) c1) /\ policy ic = policy (icache c1)) /\
  (exists raw c4 ic, ifetch_at a (set_icache ic (icache_epoch c2) c2) = (Ok raw, c4) /\ decode decoder raw = Some (Some d')).
Proof.
  intros E1 E2 E3. split.
  - assert (get (policy (icache c1)) a = Some d) as Hg.
    { unfold decode_at_checked in E1. pose proof (Cache_get_policy (icache c) a) as [Hg Hp].
      destruct (Cache_get (icache c) a) as [[x|] ic]; cbn in Hg, Hp; [injection E1 as <- <-; cbn; by rewrite Hp|].
      unfold bind, unwrap, modify, ret, err in E1. destruct (ifetch_at a _) as [[raw|y|] c5]; [|done|done].
      destruct (decode decoder raw) as [[z|]|]; [|done|done]. injection E1 as <- <-. cbn [icache set_icache policy Cache_put].
      apply DirectCache_get_put_eq. }
    unfold decode_at_checked, Cache_get. rewrite Hg. eexists. split; [reflexivity|done].
  - injection E2 as <-. unfold decode_at_checked in E3. unfold Cache_get in E3. cbn [icache set_icache policy Cache_clear] in E3.
    rewrite (get_clear (LawfulCache := icache_lawful)) in E3. unfold bind, unwrap, modify, ret, err in E3.
    match type of E3 with context [ifetch_at a (set_icache ?ic _ _)] => set (ic0 := ic) in * end.
    destruct (ifetch_at a _) as [[raw|y|] c5] eqn:Ei; [|done|done]. destruct (decode decoder raw) as [[z|]|] eqn:Ed; [|done|done].
    injection E3 as <- <-. exists raw, c5, ic0. done.
Qed.

(** ** Interrupt lines *)
Definition irq_bit (i : Interrupt) : option Z :=
  match i with MachineSoft => Some 3 | MachineTimer => Some 7 | SupervisorExternal => Some 9 | MachineExternal => Some 11 | _ => None end.

Lemma mip_field_writable f : fl_csr f = Mip -> Z.land (field_mask f) mip_write_mask = field_mask f -> writable f.
Proof.
  intros Hf Hm. apply (writable_of_mask _ mip_write_mask); [|done]. rewrite Hf. destruct (known_of Mip) as [_ ->]; [done|]. exact mip_mask.
Qed.

Lemma handle_irq_run c i n level : csr_wf (csr c) -> irq_bit i = Some n ->
  exists v, handle_irq i level c = (Ok tt, set_csr (upd Mip v (csr c)) c) /\ u64 v /\
    Z.testbit v n = level /\ forall k, 0 <= k -> k <> n -> Z.testbit v k = Z.testbit (val (csr c) Mip) k.
Proof.
  intros Hs Hi. pose proof (known_of Mip eq_refl) as HK. set (x := if level then 1 else 0).
  assert (Hx : uint 1 x) by (by destruct level).
  assert (forall f, fl_csr f = Mip -> fl_len f = 1 -> LOW_BIT f = n -> field_ok f -> Z.land (field_mask f) mip_write_mask = field_mask f ->
    on_csr (set_field f x) c = (Ok tt, set_csr (upd Mip (fset n 1 (val (csr c) Mip) x) (csr c)) c)) as Hset.
  { intros f Hf Hlen Hlow Hok Hm. unfold on_csr, zoom. rewrite set_field_run; rewrite ?Hf, ?(proj2 HK), ?Hlen, ?Hlow; try done; by apply mip_field_writable. }
  assert (0 <= n < 64) as Hn by (destruct i; try discriminate Hi; injection Hi as <-; lia).
  exists (fset n 1 (val (csr c) Mip) x). split_and!.
  - destruct i; try discriminate Hi; injection Hi as <-; apply Hset; first [reflexivity | vm_compute; split_and!; (discriminate || reflexivity)].
  - apply fset_range; try lia; [done|by apply val_u64].
  - rewrite fset_testbit by (done || lia). rewrite (proj2 (Z.leb_le n n)), (proj2 (Z.ltb_lt n (n + 1))), Z.sub_diag by lia. by destruct level.
  - intros k Hk0 Hkn. rewrite fset_testbit by (done || lia). destruct (Z.leb_spec n k), (Z.ltb_spec k (n + 1)); try done; lia.
Qed.

(** a line of the interrupt controllers drives exactly its bit of [mip];
    the other bits and CSRs, and the rest of the hart, stay. *)
Theorem irq_line_drives_mip c i n level : csr_wf (csr c) -> irq_bit i = Some n ->
  exists v, handle_irq i level c = (Ok tt, set_csr (upd Mip v (csr c)) c) /\ u64 v /\
    Z.testbit v n = level /\ forall k, 0 <= k -> k <> n -> Z.testbit v k = Z.testbit (val (csr c) Mip) k.
Proof. apply handle_irq_run. Qed.

(** ** Reset *)
Lemma set_ctx_wf x s : csr_wf s -> csr_wf (set_ctx x s).
Proof. intros [??]. by split. Qed.

(** One of the initialising writes, and one of the checks after them. *)
Definition field_at (f : CsrField) (a low len : Z) : Prop :=
  reg_index (fl_csr f) = a /\ LOW_BIT f = low /\ fl_len f = len /\ field_ok f.

Lemma init_step {B} (k : M CsrRegFile Exception B) s f a low len old x :
  field_at f a low len -> csr_wf s -> known a = true -> val s a = old -> uint len x ->
  (set_field_directly f x ;;; k) s = k (upd a (fset low len old x) s).
Proof. intros (<- & <- & <- & Hf) Hs Hk <- Hx. by erewrite bind_Ok by (by apply set_field_directly_run). Qed.

Lemma check_xl_ok {B} (k : M CsrRegFile Exception B) s f a low v :
  field_at f a low 2 -> csr_wf s -> known a = true -> val s a = v -> fget low 2 v = 2 -> (check_xl f ;;; k) s = k s.
Proof.
  intros (<- & <- & Hl & Hf) Hs Hk <- Hv. unfold check_xl. destruct debug_assertions; [|done].
  erewrite bind_Ok; [done|]. erewrite bind_Ok by (by apply get_field_run). rewrite Hl, Hv. done.
Qed.

Lemma init_fields : field_at Misa_extension Misa 0 25 /\ field_at Misa_mxl Misa 62 2 /\ field_at Mstatus_sxl Mstatus 34 2 /\
  field_at Mstatus_uxl Mstatus 32 2 /\ field_at Sstatus_uxl Mstatus 32 2.
Proof. split_and!; (split_and!; [vm_compute; reflexivity|reflexivity|reflexivity|vm_compute; split_and!; (discriminate || reflexivity)]). Qed.

Lemma misa_value x : uint 25 x -> fset 62 2 (fset 0 25 0 x) 2 = x + 2 ^ 63.
Proof.
  intros Hx. rewrite Z.add_comm, <- (lor_add 63); [|lia|by exists 1|by apply (uint_weaken 25)].
  apply Z.bits_inj'. intros i Hi. rewrite Z.lor_spec, !fset_testbit by (done || lia).
  change (2 ^ 63) with (Z.shiftl 1 63). rewrite Z.shiftl_spec, Z.bits_0, (Z.sub_0_r i) by lia.
  destruct (Z.leb_spec 62 i); cbn [andb].
  - rewrite (uint_testbit_high 25 x i) by (done || lia). rewrite orb_false_r, (proj2 (Z.ltb_ge i (0 + 25))) by lia.
    destruct (Z.ltb_spec i (62 + 2)).
    + assert (i = 62 \/ i = 63) as [-> | ->] by lia; reflexivity.
    + rewrite andb_false_r. symmetry. apply (uint_testbit_high 1); [done|done|lia].
  - rewrite (Z.testbit_neg_r 1) by lia. cbn [orb]. rewrite (proj2 (Z.leb_le 0 i)) by done.
    destruct (Z.ltb_spec i (0 + 25)); [done|]. cbn. symmetry. by apply (uint_testbit_high 25).
Qed.

(** a new hart satisfies the invariant, starts in M-mode at the base of
    RAM with all registers zero, reports its extensions and XLEN = 64 in
    [misa], and has SXL = UXL = 64 in [mstatus]; no assertion of the
    constructor fails. *)
Theorem reset_state (m : VirtAddrManager D) (x : X) : vm_ok m -> ext_ok x -> uint 25 (extension_bits decoder) ->
  exists c, from_decoder decoder m x = Ok c /\ hart_ok c /\ pc c = BASE_ADDR /\ cpl (csr c) = LvM /\
    reg_file c = replicate 32 0 /\ memory c = m /\
    val (csr c) Misa = extension_bits decoder + 2 ^ 63 /\ val (csr c) Mstatus = 0xA00000000.
Proof.
  intros Hm Hxok Hx. pose proof (known_of Misa eq_refl) as Kmi. pose proof (known_of Mstatus eq_refl) as Kms.
  destruct init_fields as (F1 & F2 & F3 & F4 & F5). set (e := extension_bits decoder) in *.
  remember (set_ctx {| extension := e; xlen := xlen (ctx CsrRegFile_new) |} CsrRegFile_new) as s0 eqn:Es0.
  assert (W0 : csr_wf s0) by (subst s0; apply set_ctx_wf, csr_new_wf).
  assert (V0 : val s0 Misa = 0) by (subst s0; vm_compute; reflexivity).
  assert (V0' : val s0 Mstatus = 0) by (subst s0; vm_compute; reflexivity).
  set (m1 := fset 0 25 0 e). assert (U1 : u64 m1) by by apply fset_range.
  set (m2 := fset 62 2 m1 2). assert (U2 : u64 m2) by by apply fset_range.
  set (s1 := upd Misa m1 s0). assert (W1 : csr_wf s1) by by apply upd_wf.
  set (s2 := upd Misa m2 s1). assert (W2 : csr_wf s2) by by apply upd_wf.
  set (s3 := upd Mstatus 0x800000000 s2). assert (W3 : csr_wf s3) by by apply upd_wf.
  set (s4 := upd Mstatus 0xA00000000 s3). assert (W4 : csr_wf s4) by by apply upd_wf.
  assert (V1 : val s1 Misa = m1) by (apply val_upd_eq; [done|apply known_of; reflexivity]).
  assert (V2 : val s2 Mstatus = 0) by (unfold s2, s1; by rewrite !val_upd_ne).
  assert (V3 : val s3 Mstatus = 0x800000000) by (apply val_upd_eq; [done|apply known_of; reflexivity]).
  assert (V4 : val s4 Mstatus = 0xA00000000) by (apply val_upd_eq; [done|apply known_of; reflexivity]).
  assert ((set_field_directly Misa_extension e ;;; set_field_directly Misa_mxl 2 ;;; set_field_directly Mstatus_sxl 2 ;;;
    set_field_directly Mstatus_uxl 2 ;;; check_xl Mstatus_uxl ;;; check_xl Mstatus_sxl ;;; check_xl Sstatus_uxl ;;;
    set_current_privileged LvM) s0 = (Ok tt, set_cpl LvM s4)) as Ei.
  { rewrite (init_step _ s0 _ Misa 0 25 0 e F1 W0 (proj1 Kmi) V0 Hx). rewrite (init_step _ s1 _ Misa 62 2 m1 2 F2 W1 (proj1 Kmi) V1 ltac:(done)).
    rewrite (init_step _ s2 _ Mstatus 34 2 0 2 F3 W2 (proj1 Kms) V2 ltac:(done)). change (fset 34 2 0 2) with 0x800000000.
    rewrite (init_step _ s3 _ Mstatus 32 2 _ 2 F4 W3 (proj1 Kms) V3 ltac:(done)). change (fset 32 2 0x800000000 2) with 0xA00000000.
    rewrite (check_xl_ok _ s4 _ Mstatus 32 _ F4 W4 (proj1 Kms) V4 eq_refl), (check_xl_ok _ s4 _ Mstatus 34 _ F3 W4 (proj1 Kms) V4 eq_refl),
      (check_xl_ok _ s4 _ Mstatus 32 _ F5 W4 (proj1 Kms) V4 eq_refl). reflexivity. }
  unfold from_decoder, init_csr. fold e. unfold bind at 1, modify. rewrite <- Es0, Ei. eexists. split; [reflexivity|]. split_and!; try done.
  - split; [|done]. split; cbn; try done; [|by apply set_cpl_wf|apply icache_ok_new].
    split_and!; [done| |done]. by repeat (constructor; [by apply uint_0|]).
  - cbn [csr]. rewrite val_set_cpl. unfold s4, s3, s2. rewrite !val_upd_ne by done. rewrite val_upd_eq by (done || apply known_of; reflexivity). by apply misa_value.
Qed.
End Batches.

(** ** Concrete instances: a user program that makes a system call *)
Definition demo_decoder : Decoder :=
  match from_isa demo_isa 0x1105 with Some d => d | None => Build_Decoder FunctDecoder_new [] [] 0 end.

Definition with_word (a v : Z) (c : RVCPU Z unit) : RVCPU Z unit :=
  set_memory (Build_VirtAddrManager (set_ram (mmio (memory c)) (snd (write U32 a v (ram (mmio (memory c))))))
    (PageTableWalker_new 0 ModeNone)) c.

Lemma with_word_ok a v c : hart_ok c -> hart_ok (with_word a v c).
Proof. intros [[] Hp]. split; [|done]. split; try done. by apply write_snd_wf. Qed.

(** [addi x3, x1, 5] and then [ecall], without address translation. *)
Definition demo_syscall : RVCPU Z unit := with_word 4 0x73 (with_word 0 0x00508193 demo_hart).

Lemma demo_syscall_ok : hart_ok demo_syscall.
Proof. do 2 apply with_word_ok. split; [|done]. solve_demo_cpu. Qed.

Lemma batch_keeps_hart_witness :
  let D := demo_device in let P := dev in
  exists s, step_batch_with_hook demo_decoder 2 (tt, demo_syscall) = (Ok {| cycles := 2; hook_stopped := false |}, s) /\
    reg_file (snd s) !! 3%nat = Some 0x80000105 /\ pc (snd s) = 0x80004000 /\ hart_ok (snd s).
Proof.
  intros D P. set (T := step_batch_with_hook demo_decoder 2 (tt, demo_syscall)).
  assert (F : fst T = Ok {| cycles := 2; hook_stopped := false |}) by (vm_compute; reflexivity).
  assert (G : pc (snd (snd T)) = 0x80004000) by (vm_compute; reflexivity).
  assert (R : reg_file (snd (snd T)) !! 3%nat = Some 0x80000105) by (vm_compute; reflexivity).
  destruct T as [r s] eqn:E. cbn [fst snd] in F, G, R. subst r. exists s. split; [reflexivity|]. split; [exact R|]. split; [exact G|].
  destruct (batch_keeps_hart demo_decoder 2 tt demo_syscall _ s Z.le_0_2 demo_syscall_ok E ltac:(discriminate)) as (b & _ & Hok & _).
  exact Hok.
Defined.

Lemma batch_is_iterated_cycles_witness :
  let D := demo_device in let P := dev in
  step_batch demo_decoder 2 demo_syscall = step_batch_no_interrupt demo_decoder 2 demo_syscall /\
  step_batch_no_interrupt demo_decoder (1 + 1) demo_syscall =
    (step_batch_no_interrupt demo_decoder 1 ;;; step_batch_no_interrupt demo_decoder 1) demo_syscall.
Proof.
  intros D P. destruct (batch_is_iterated_cycles demo_decoder 2 1 1 demo_syscall demo_syscall_ok Z.lt_0_2 Z.le_0_1 Z.le_0_1) as [E1 E2].
  split; [|exact E2]. rewrite E1. vm_compute. reflexivity.
Defined.

Definition demo_at_ecall : RVCPU Z unit := set_pc 0x80000004 demo_syscall.
Lemma demo_at_ecall_ok : hart_ok demo_at_ecall.
Proof. destruct demo_syscall_ok as [[] Hp]. split; [|done]. by split. Qed.


Lemma decode_cached_until_flush_witness :
  let D := demo_device in let P := dev in
  let c1 := snd (decode_at_checked demo_decoder 0x80000000 demo_syscall) in
  exists ic, decode_at_checked demo_decoder 0x80000000 c1 =
    (Ok {| instr := ADDI; info := II 1 3 5; len := 4 |}, set_icache ic (icache_epoch c1) c1).
Proof.
  intros D P c1. set (d := {| instr := ADDI; info := II 1 3 5; len := 4 |}).
  destruct (decode_cached_until_flush demo_decoder 0x80000000 demo_syscall d c1 (snd (flush_icache c1)) d
    (snd (decode_at_checked demo_decoder 0x80000000 (snd (flush_icache c1))))) as [(ic & E & _) _].
  - vm_compute. reflexivity.
  - vm_compute. reflexivity.
  - vm_compute. reflexivity.
  - exists ic. exact E.
Defined.

Lemma irq_line_drives_mip_witness :
  exists v, handle_irq MachineTimer true demo_syscall = (Ok tt, set_csr (upd Mip v (csr demo_syscall)) demo_syscall) /\ Z.testbit v 7 = true.
Proof.
  destruct (irq_line_drives_mip demo_syscall MachineTimer 7 true) as (v & E & _ & Hb & _).
  - apply demo_syscall_ok.
  - reflexivity.
  - exists v. split; [exact E|exact Hb].
Defined.

Lemma reset_state_witness : let P := dev in
  exists c : RVCPU Z unit, from_decoder demo_decoder demo_vm tt = Ok c /\ val (csr c) Misa = 0x1105 + 2 ^ 63.
Proof.
  intros P. destruct (reset_state demo_decoder demo_vm tt) as (c & E & _ & _ & _ & _ & _ & Hv & _).
  - apply set_reserved_wf, demo_ram_wf.
  - exact I.
  - vm_compute. split; [discriminate|reflexivity].
  - exists c. split; [exact E|]. rewrite Hv. vm_compute. reflexivity.
Defined.
