(* ===== verification/Board.v ===== *)
(** * The board (src/src/board/mod.rs, board/virt.rs, board/builder.rs)

    The loop that alternates timer ticks, interrupt lines and batches of the
    hart; the builder that lays out the memory map and assigns the interrupt
    sources.  The hart is a type [T] behind [RiscvIRQHandler]; what it does
    during a batch, through its own state and through the devices it can
    reach, is a state transformer of the whole board. *)

From S2P Require Import Prelude Utils TrapTypes Ram Mmio Device Plic Power Clock Clint Executor.

Inductive BoardStatus : Type := Running | Halt.
#[export] Instance BoardStatus_eq_dec : EqDecision BoardStatus.
Proof. solve_decision. Defined.

Inductive VirtBoardPlicContextId : Type := Cpu0MachineMode | Cpu0SuperviserMode.
Definition plic_context (c : VirtBoardPlicContextId) : Z :=
  match c with Cpu0MachineMode => 0 | Cpu0SuperviserMode => 1 end.

(** ** The virt board *)
Record VirtBoard (D T : Type) : Type := {
  cpu : T;
  timer : Timer Callback;
  clint : Clint;
  cycles : Z;
  plic : PLIC;
  device_arena : list D;
  status : BoardStatus;
  power_status : Z
}.
Arguments Build_VirtBoard {D T} _ _ _ _ _ _ _ _.
Arguments cpu {D T} _.
Arguments timer {D T} _.
Arguments clint {D T} _.
Arguments cycles {D T} _.
Arguments plic {D T} _.
Arguments device_arena {D T} _.
Arguments status {D T} _.
Arguments power_status {D T} _.

(** [RVCPU::power_off]; [None] is a panic of a device's [sync]. *)
Class PowerOff (T : Type) : Type := { power_off : T -> option T }.

Definition STEP_BATCH_CYCLES : Z := 1024.

(** ** The loop of the trait [Board], for any board with a status *)
Section RunLoop.
Context {B E : Type} `{Profile} (status : B -> BoardStatus).

(** [run_cycles_with]: [None] when [fuel] turns of the loop were not enough. *)
Fixpoint run_loop (step_fn : Z -> M B E BatchResult) (fuel : nat) (total executed : Z) (b : B)
  : option (Res E BatchResult * B) :=
  if (executed <? total) && bool_decide (status b = Running) then
    match fuel with
    | O => None
    | S fuel =>
        let batch_cycles := Z.min (total - executed) STEP_BATCH_CYCLES in
        match step_fn batch_cycles b with
        | (Ok result, b') =>
            match add_chk (S := unit) (E := E) 64 executed (Executor.cycles result) tt with
            | (Ok executed', _) =>
                if hook_stopped result
                then Some (Ok {| Executor.cycles := executed'; hook_stopped := true |}, b')
                else run_loop step_fn fuel total executed' b'
            | _ => Some (Panic, b')
            end
        | (Err e, b') => Some (Err e, b')
        | (Panic, b') => Some (Panic, b')
        end
    end
  else Some (Ok {| Executor.cycles := executed; hook_stopped := false |}, b).
End RunLoop.

Section Board.
Context {D T : Type} `{PlicDevice D} `{RiscvIRQHandler T} `{PowerOff T} `{SortUnstable Callback} `{Profile} {E : Type}.
Abbreviation VB := (VirtBoard D T).
Abbreviation VM := (M VB E).

Definition upd_cpu (c : T) (b : VB) : VB :=
  Build_VirtBoard c (timer b) (clint b) (cycles b) (plic b) (device_arena b) (status b) (power_status b).
Definition upd_cycles (n : Z) (b : VB) : VB :=
  Build_VirtBoard (cpu b) (timer b) (clint b) n (plic b) (device_arena b) (status b) (power_status b).
Definition upd_status (s : BoardStatus) (b : VB) : VB :=
  Build_VirtBoard (cpu b) (timer b) (clint b) (cycles b) (plic b) (device_arena b) s (power_status b).

(** What the CLINT and the timer reach, and what the PLIC reaches: the hart is
    the one handler behind the lines. *)
Definition clint_view (b : VB) : Timer Callback * World T := (timer b, Build_World (clint b) (cycles b) [cpu b]).
Definition put_clint (b : VB) (s : Timer Callback * World T) : VB :=
  Build_VirtBoard (default (cpu b) (head (Clint.harts (snd s)))) (fst s) (Clint.clint (snd s)) (Clint.cycles (snd s))
    (plic b) (device_arena b) (status b) (power_status b).
Definition plic_view (b : VB) : Board D T := Build_Board (plic b) (device_arena b) [cpu b].
Definition put_plic (b : VB) (s : Board D T) : VB :=
  Build_VirtBoard (default (cpu b) (head (Plic.harts s))) (timer b) (clint b) (cycles b)
    (Plic.plic s) (Plic.arena s) (status b) (power_status b).

Definition on_clint_view {A} (m : M (Timer Callback * World T) E A) : VM A := zoom clint_view put_clint m.
Definition on_plic_view {A} (m : M (Board D T) E A) : VM A := zoom plic_view put_plic m.

Definition prepare_cpu_batch : VM unit :=
  on_clint_view tick ;;;
  on_plic_view (update_context_irq_lines [plic_context Cpu0MachineMode; plic_context Cpu0SuperviserMode]).

Definition finish_cpu_batch (n : Z) : VM unit :=
  modify (fun b => upd_cycles (wrap 64 (cycles b + n)) b) ;;;
  p <- gets power_status ;;
  if p =? POWER_OFF_CODE then
    c <- gets cpu ;;
    c' <- unwrap (power_off c) ;;
    modify (upd_cpu c') ;;;
    modify (upd_status Halt)
  else ret tt.

Definition execute_cpu_batch (execute : VM BatchResult) : VM BatchResult :=
  s <- gets status ;;
  if decide (s = Running) then
    prepare_cpu_batch ;;;
    result <- execute ;;
    finish_cpu_batch (Executor.cycles result) ;;;
    ret result
  else ret {| Executor.cycles := 0; hook_stopped := false |}.

(** [Board::step_batch] and [Board::step_batch_with_hook]; [cpu_batch n] is
    [board.cpu.step_batch(n)] with what it reaches through the bus. *)
Context (cpu_batch : Z -> VM unit) (cpu_batch_with_hook : Z -> VM BatchResult).

Definition board_step_batch (n : Z) : VM BatchResult :=
  execute_cpu_batch (cpu_batch n ;;; ret {| Executor.cycles := n; hook_stopped := false |}).
Definition board_step_batch_with_hook (n : Z) : VM BatchResult := execute_cpu_batch (cpu_batch_with_hook n).

Definition run_cycles_with (step_fn : Z -> VM BatchResult) (fuel : nat) (n : Z) (b : VB) := run_loop status step_fn fuel n 0 b.
Definition run_cycles_hooked := run_cycles_with board_step_batch_with_hook.
Definition run_cycles := run_cycles_with board_step_batch.
End Board.

(** ** The memory map (builder.rs, virt.rs) *)
Definition UART_BASE : Z := 0x10000000.
Definition UART_SIZE : Z := 8.
Definition UART_IRQ : Z := 10.
Definition VIRTIO_MMIO_BASE : Z := 0x10001000.
Definition VIRTIO_MMIO_SIZE : Z := 0x1000.
Definition VIRTIO_IRQ_BASE : Z := 1.
Definition POWER_MANAGER_BASE : Z := 0x100000.
Definition CLINT_BASE : Z := 0x2000000.
Definition PLIC_BASE : Z := 0xc000000.
Definition SAMPLE_TIMER_BASE : Z := 0x101000.
Definition SAMPLE_TIMER_SIZE : Z := 0x10.
Definition SAMPLE_TIMER_INTERRUPT_ID : Z := 63.
Definition MTIME_OFFSET : Z := 0xbff8.
Definition MTIMECMP_OFFSET : Z := 0x4000.

(** [TypeId] of the devices on the interrupt controller. *)
Inductive DeviceType : Type := TyUart | TyVirtIO | TySampleTimer.
#[export] Instance DeviceType_eq_dec : EqDecision DeviceType.
Proof. solve_decision. Defined.

Record RVBoardBuilder (D : Type) : Type := {
  b_plic : PLIC;
  arena_builder : list D;
  id_allocators : DeviceType -> option IdAllocator;
  mmio_items : list MemoryMapItem;
  clint_mmio : option (Z * Z);
  plic_mmio : option (Z * Z)
}.
Arguments Build_RVBoardBuilder {D} _ _ _ _ _ _.
Arguments b_plic {D} _.
Arguments arena_builder {D} _.
Arguments id_allocators {D} _.
Arguments mmio_items {D} _.
Arguments clint_mmio {D} _.
Arguments plic_mmio {D} _.

Section Builder.
Context {D : Type} `{PlicDevice D} `{Profile} {E : Type}.
Abbreviation BB := (RVBoardBuilder D).
Abbreviation BuildM := (M BB E).

Definition RVBoardBuilder_new : BB := Build_RVBoardBuilder PLIC_new [] (fun _ => None) [] None None.

(** [DeviceArenaBuilder::register] returns the index of the pushed device. *)
Definition arena_register (d : D) : BuildM nat :=
  n <- gets (fun b => length (arena_builder b)) ;;
  modify (fun b => Build_RVBoardBuilder (b_plic b) (arena_builder b ++ [d]) (id_allocators b) (mmio_items b)
                     (clint_mmio b) (plic_mmio b)) ;;;
  ret n.
Definition push_item (i : MemoryMapItem) : BuildM unit :=
  modify (fun b => Build_RVBoardBuilder (b_plic b) (arena_builder b) (id_allocators b) (mmio_items b ++ [i])
                     (clint_mmio b) (plic_mmio b)).

Definition add_plain_mmio_device (d : D) (base size : Z) : BuildM unit :=
  handle <- arena_register d ;;
  push_item {| start := base; Mmio.size := size; device := handle |}.

Definition add_clint (base size : Z) : BuildM unit :=
  modify (fun b => Build_RVBoardBuilder (b_plic b) (arena_builder b) (id_allocators b) (mmio_items b)
                     (Some (base, size)) (plic_mmio b)).
Definition add_plic (base size : Z) : BuildM unit :=
  modify (fun b => Build_RVBoardBuilder (b_plic b) (arena_builder b) (id_allocators b) (mmio_items b)
                     (clint_mmio b) (Some (base, size))).

(** [plic.register_device(device_ptr, irq)]: the device behind the pointer is
    the one registered next in the arena. *)
Definition plic_register (irq : Z) : BuildM unit :=
  zoom (fun b => Build_Board (T := unit) (b_plic b) (arena_builder b) [])
       (fun b s => Build_RVBoardBuilder (Plic.plic s) (arena_builder b) (id_allocators b) (mmio_items b) (clint_mmio b) (plic_mmio b))
       (fun s => register_device (length (arena s)) irq s).

(** [id_allocators.entry(type_id).or_insert_with(..)], then [get]. *)
Definition alloc_id (ty : DeviceType) (base size interrupt_id : Z) : BuildM MemMapInfo :=
  zoom (fun b => default (IdAllocator_new 0 "D" base size (Some interrupt_id)) (id_allocators b ty))
       (fun b a => Build_RVBoardBuilder (b_plic b) (arena_builder b)
                     (fun ty' => if decide (ty' = ty) then Some a else id_allocators b ty')
                     (mmio_items b) (clint_mmio b) (plic_mmio b))
       IdAllocator_get.

Definition add_plic_device (ty : DeviceType) (d : D) (base size interrupt_id : Z) : BuildM unit :=
  info <- alloc_id ty base size interrupt_id ;;
  let irq := default interrupt_id (mm_irq info) in
  plic_register irq ;;;
  add_plain_mmio_device d (mm_base info) (mm_size info).

Fixpoint add_virtio_devices (ds : list D) : BuildM unit :=
  match ds with
  | [] => ret tt
  | d :: ds => add_plic_device TyVirtIO d VIRTIO_MMIO_BASE VIRTIO_MMIO_SIZE VIRTIO_IRQ_BASE ;;; add_virtio_devices ds
  end.

(** The devices of [from_ram_with], in its order. *)
Definition virt_devices (power uart sample : D) (virtio : list D) : BuildM unit :=
  add_plain_mmio_device power POWER_MANAGER_BASE POWER_MANAGER_SIZE ;;;
  add_clint CLINT_BASE CLINT_SIZE ;;;
  add_plic PLIC_BASE PLIC_SIZE ;;;
  add_plic_device TyUart uart UART_BASE UART_SIZE UART_IRQ ;;;
  add_virtio_devices virtio ;;;
  add_plic_device TySampleTimer sample SAMPLE_TIMER_BASE SAMPLE_TIMER_SIZE SAMPLE_TIMER_INTERRUPT_ID.

(** [build] up to the memory map: the CLINT and the PLIC join the arena last;
    [clint_cell] and [plic_cell] are their cells, whose state the board holds. *)
Definition build_map (clint_cell plic_cell : D) (r : Ram) : BuildM (MemoryMapIO D) :=
  cm <- gets clint_mmio ;;
  c <- unwrap cm ;;
  pm <- gets plic_mmio ;;
  p <- unwrap pm ;;
  clint <- arena_register clint_cell ;;
  plic <- arena_register plic_cell ;;
  push_item {| start := fst c; Mmio.size := snd c; device := clint |} ;;;
  push_item {| start := fst p; Mmio.size := snd p; device := plic |} ;;;
  b <- gets (fun b => b) ;;
  ret (from_mmio_items r (arena_builder b) (mmio_items b)).
End Builder.

(** ** Memory images of the configuration *)
Inductive ImageError : Type := BelowRam (address : Z) | ImageFailed (address : Z) (e : RamImageError).

Fixpoint load_images (images : list (Z * list Z)) : M Ram ImageError unit :=
  match images with
  | [] => ret tt
  | (address, bytes) :: images =>
      (if address <? BASE_ADDR then err (BelowRam address)
       else map_err (ImageFailed address) (try_insert_section bytes (address - BASE_ADDR))) ;;;
      load_images images
  end.

(** ** Interrupt wiring: [register_rv_interrupt] *)
Section Wiring.
Context {D T : Type} `{PlicDevice D} `{RiscvIRQHandler T} `{SortUnstable Callback} `{Profile} {E : Type}.

(** The hart is the handler 0. *)
Definition cpu_line (i : Interrupt) : IRQLine := {| line_target := 0; interrupt_nr := i |}.

Definition register_rv_interrupt : M (VirtBoard D T) E unit :=
  on_clint_view (Clint.set_irq_line (cpu_line MachineTimer) 0) ;;;
  on_clint_view (Clint.set_irq_line (cpu_line MachineSoft) 1) ;;;
  on_plic_view (Plic.set_irq_line (cpu_line MachineExternal) (plic_context Cpu0MachineMode)) ;;;
  on_plic_view (Plic.set_irq_line (cpu_line SupervisorExternal) (plic_context Cpu0SuperviserMode)).

(** The board [build] returns before the lines are connected. *)
Definition VirtBoard_new (c : T) (p : PLIC) (ds : list D) : VirtBoard D T :=
  Build_VirtBoard c Timer_new (Clint_new 1 0 MTIME_OFFSET MTIMECMP_OFFSET (VirtualClock_now 0)) 0 p ds Running 0.
End Wiring.
