(* ===== verification/BoardMap.v ===== *)
(** * The memory map of the virt board

    What the builder makes of a list of devices: windows that do not overlap,
    all below RAM, and an interrupt source for each device.  Correct for up to
    nine VirtIO devices; the tenth takes the interrupt source of the UART. *)

From stdpp Require Import sorting.
From S2P Require Import Prelude Utils TrapTypes Ram Mmio Device Plic PlicSpec Power Clock Clint Board.

(** ** Windows *)
Definition ends_before (a b : MemoryMapItem) : Prop := start a + Mmio.size a <= start b.

Lemma windows_of_sorted l : Forall (fun a => 0 <= start a /\ 0 < Mmio.size a) l -> StronglySorted ends_before l -> windows_ok l.
Proof.
  intros Hpos Hs. split; [done|].
  assert (forall i j a b, l !! i = Some a -> l !! j = Some b -> (i < j)%nat -> ends_before a b) as Hlt.
  { clear Hpos. induction Hs as [|x l Hs IH Hx]; intros [|i] [|j] a b Ha Hb Hij; try done; try lia; simpl in *.
    - injection Ha as <-. by eapply Forall_lookup_1.
    - eapply IH; [done..|lia]. }
  intros i j a b Ha Hb Hne. destruct (decide (i < j)%nat); [left; by eapply Hlt|right].
  eapply (Hlt j i); [done..|lia].
Qed.

Lemma windows_perm l l' : l ≡ₚ l' -> windows_ok l -> windows_ok l'.
Proof.
  intros Hp [Hpos Hd]. split; [by rewrite <- Hp|]. symmetry in Hp. apply Permutation_inj in Hp as [_ (f & Hf & Hl)].
  intros i j a b Ha Hb Hne. rewrite Hl in Ha, Hb. eapply Hd; [done..|]. intros E. apply Hne. by apply Hf.
Qed.

Section Map.
Context {D : Type} `{PlicDevice D} `{Profile} {E : Type}.
Abbreviation BB := (RVBoardBuilder D).
Implicit Types b : BB.

Definition virtio_alloc (k : Z) : IdAllocator := {|
  id := k; device_name := "D"; mem_base := VIRTIO_MMIO_BASE; mem_size := VIRTIO_MMIO_SIZE; irq_base := Some VIRTIO_IRQ_BASE |}.
Definition virtio_item (k : Z) (h : nat) : MemoryMapItem :=
  {| start := VIRTIO_MMIO_BASE + k * VIRTIO_MMIO_SIZE; Mmio.size := VIRTIO_MMIO_SIZE; device := h |}.

(** The windows of [n] VirtIO devices from the [k]-th on, the first with handle [h]. *)
Fixpoint virtio_items (n : nat) (k : Z) (h : nat) : list MemoryMapItem :=
  match n with O => [] | S n => virtio_item k h :: virtio_items n (k + 1) (S h) end.

Definition upd_builder b (ds : list D) (al : DeviceType -> option IdAllocator) (items : list MemoryMapItem)
  (irqs : list (option nat)) : BB :=
  Build_RVBoardBuilder (set_devices irqs (b_plic b)) ds al items (clint_mmio b) (plic_mmio b).

(** A device on the interrupt controller, when everything fits. *)
Lemma add_plic_device_run b ty d base size irq a :
  default (IdAllocator_new 0 "D" base size (Some irq)) (id_allocators b ty) = a ->
  0 <= id a < 64 -> 0 <= mem_base a < 2 ^ 32 -> 0 <= mem_size a < 2 ^ 16 -> irq_base a = Some irq -> 0 < irq -> irq + id a < 64 ->
  length (peripheral_irq_devices (b_plic b)) = 64%nat ->
  add_plic_device (E := E) ty d base size irq b =
    (Ok tt, upd_builder b (arena_builder b ++ [d])
       (fun ty' => if decide (ty' = ty) then Some {| id := id a + 1; device_name := device_name a; mem_base := mem_base a;
          mem_size := mem_size a; irq_base := irq_base a |} else id_allocators b ty')
       (mmio_items b ++ [{| start := mem_base a + id a * mem_size a; Mmio.size := mem_size a; device := length (arena_builder b) |}])
       (<[Z.to_nat (irq + id a) := Some (length (arena_builder b))]> (peripheral_irq_devices (b_plic b)))).
Proof.
  intros Ha Hi Hb Hs Hq Hirq Hlt Hlen. unfold add_plic_device, alloc_id. unfold bind at 1, zoom. rewrite Ha.
  rewrite get_run; [|lia|lia|lia|nia|lia|intros q E'; rewrite Hq in E'; injection E' as <-; lia].
  rewrite Hq. simpl. unfold bind, plic_register, zoom, register_device, assert. simpl.
  assert (is_valid_interrupt_id (irq + id a) = true) as Hv by (unfold is_valid_interrupt_id, VIRT_MAX_INTERRUPTS; lia).
  unfold bind. rewrite Hv. reflexivity.
Qed.

Lemma virtio_run ds : forall k b, 0 <= k -> k + Z.of_nat (length ds) <= 62 ->
  default (virtio_alloc 0) (id_allocators b TyVirtIO) = virtio_alloc k ->
  length (peripheral_irq_devices (b_plic b)) = 64%nat ->
  exists al irqs, add_virtio_devices (E := E) ds b = (Ok tt, upd_builder b (arena_builder b ++ ds) al
      (mmio_items b ++ virtio_items (length ds) k (length (arena_builder b))) irqs) /\
    (forall ty, ty <> TyVirtIO -> al ty = id_allocators b ty) /\ length irqs = 64%nat /\
    forall j : nat, irqs !! j = if decide (k < Z.of_nat j <= k + Z.of_nat (length ds))
      then Some (Some (length (arena_builder b) + (j - Z.to_nat k - 1)))%nat else peripheral_irq_devices (b_plic b) !! j.
Proof.
  induction ds as [|d ds IH]; intros k b Hk Hn Ha Hlen.
  - exists (id_allocators b), (peripheral_irq_devices (b_plic b)). simpl. rewrite !app_nil_r. split; [by destruct b as [[]]|].
    split; [done|]. split; [done|]. intros j. rewrite decide_False by lia. done.
  - cbn [add_virtio_devices]. simpl length in Hn.
    erewrite (bind_Ok (add_plic_device _ _ _ _ _)) by (apply (add_plic_device_run b TyVirtIO d _ _ _ (virtio_alloc k));
      simpl; (done || (unfold VIRTIO_MMIO_BASE, VIRTIO_MMIO_SIZE, VIRTIO_IRQ_BASE; lia))).
    match goal with |- context [add_virtio_devices ds ?x] => set (b1 := x) end.
    destruct (IH (k + 1) b1) as (al & irqs & Hrun & Hal & Hli & Hirq); [lia|lia|done|simpl; by rewrite length_insert|].
    exists al, irqs. rewrite Hrun. split; [|split; [|split; [done|]]].
    + unfold upd_builder, b1. simpl. rewrite <- !app_assoc, length_app. simpl. by rewrite Nat.add_1_r.
    + intros ty Hty. rewrite Hal by done. simpl. by rewrite decide_False.
    + intros j. rewrite Hirq. simpl. rewrite length_app. simpl. unfold VIRTIO_IRQ_BASE.
      destruct (decide (k + 1 < Z.of_nat j <= k + 1 + Z.of_nat (length ds))).
      * rewrite decide_True by lia. do 2 f_equal. lia.
      * destruct (decide (Z.of_nat j = k + 1)) as [Hj|Hj].
        -- rewrite decide_True by lia. replace (Z.to_nat (1 + k)) with j by lia.
           rewrite list_lookup_insert_eq by lia. do 2 f_equal. lia.
        -- rewrite decide_False, list_lookup_insert_ne by lia. done.
Qed.

(** The windows in address order: power manager, sample timer, CLINT, PLIC,
    UART, VirtIO. *)
Definition virt_windows (n : nat) : list MemoryMapItem :=
  [{| start := POWER_MANAGER_BASE; Mmio.size := POWER_MANAGER_SIZE; device := 0 |};
   {| start := SAMPLE_TIMER_BASE; Mmio.size := SAMPLE_TIMER_SIZE; device := n + 2 |};
   {| start := CLINT_BASE; Mmio.size := CLINT_SIZE; device := n + 3 |};
   {| start := PLIC_BASE; Mmio.size := PLIC_SIZE; device := n + 4 |};
   {| start := UART_BASE; Mmio.size := UART_SIZE; device := 1 |}] ++ virtio_items n 0 2.

Lemma virtio_items_bounds n : forall k h, 0 <= k -> k + Z.of_nat n <= 62 ->
  Forall (fun a => VIRTIO_MMIO_BASE + k * VIRTIO_MMIO_SIZE <= start a /\ start a + Mmio.size a <= BASE_ADDR /\ 0 < Mmio.size a)
    (virtio_items n k h) /\
  StronglySorted ends_before (virtio_items n k h) /\
  Forall (fun a => (h <= device a < h + n)%nat) (virtio_items n k h).
Proof.
  induction n as [|n IH]; intros k h Hk Hn; [repeat constructor|]. simpl.
  destruct (IH (k + 1) (S h)) as (H1 & H2 & H3); [lia..|].
  unfold virtio_item, VIRTIO_MMIO_BASE, VIRTIO_MMIO_SIZE, BASE_ADDR in *. split_and!.
  - constructor; [simpl; lia|]. eapply list.Forall_impl; [exact H1|]. simpl. lia.
  - constructor; [done|]. eapply list.Forall_impl; [exact H1|]. unfold ends_before. simpl. lia.
  - constructor; [simpl; lia|]. eapply list.Forall_impl; [exact H3|]. simpl. lia.
Qed.

Lemma virt_windows_ok n : (n <= 62)%nat -> windows_ok (virt_windows n) /\
  Forall (fun a => start a + Mmio.size a <= BASE_ADDR) (virt_windows n) /\
  Forall (fun a => (device a < n + 5)%nat) (virt_windows n).
Proof.
  intros Hn. destruct (virtio_items_bounds n 0 2) as (H1 & H2 & H3); [lia..|].
  unfold virt_windows, VIRTIO_MMIO_BASE, VIRTIO_MMIO_SIZE, BASE_ADDR in *. split; [|split].
  - apply windows_of_sorted.
    + simpl. repeat (constructor; [simpl; vm_compute; split; (discriminate || reflexivity)|]).
      eapply list.Forall_impl; [exact H1|]. simpl. lia.
    + simpl. repeat (constructor; [|repeat (constructor; [unfold ends_before; simpl; by vm_compute|]);
        eapply list.Forall_impl; [exact H1|]; unfold ends_before; simpl; cbv [SAMPLE_TIMER_BASE SAMPLE_TIMER_SIZE POWER_MANAGER_BASE POWER_MANAGER_SIZE CLINT_BASE CLINT_SIZE PLIC_BASE PLIC_SIZE UART_BASE UART_SIZE]; lia]). done.
  - simpl. repeat (constructor; [simpl; by vm_compute|]). eapply list.Forall_impl; [exact H1|]. simpl. lia.
  - simpl. repeat (constructor; [simpl; lia|]). eapply list.Forall_impl; [exact H3|]. simpl. lia.
Qed.

(** The interrupt sources: VirtIO from 1 on, the UART at 10 unless the tenth
    VirtIO device has taken it, the sample timer at 63. *)
Definition source_of (n : nat) (j : nat) : option nat :=
  if decide (j = 63)%nat then Some (n + 2)%nat
  else if decide (1 <= j <= n)%nat then Some (j + 1)%nat
  else if decide (j = 10)%nat then Some 1%nat else None.

Lemma build_map_run (power uart sample clint_cell plic_cell : D) (virtio : list D) (r : Ram) :
  (length virtio <= 62)%nat ->
  let n := length virtio in
  exists mm b, (virt_devices (E := E) power uart sample virtio ;;; build_map clint_cell plic_cell r) RVBoardBuilder_new = (Ok mm, b) /\
    mmio_wf mm /\ map mm ≡ₚ virt_windows n /\ Forall (fun a => start a + Mmio.size a <= BASE_ADDR) (map mm) /\
    devices mm = [power; uart] ++ virtio ++ [sample; clint_cell; plic_cell] /\
    b_plic b = set_devices (peripheral_irq_devices (b_plic b)) PLIC_new /\
    length (peripheral_irq_devices (b_plic b)) = 64%nat /\
    forall j, (j < 64)%nat -> peripheral_irq_devices (b_plic b) !! j = Some (source_of n j).
Proof.
  intros Hn n.
  set (s1 := Build_RVBoardBuilder PLIC_new [power] (fun _ => None)
    [{| start := POWER_MANAGER_BASE; Mmio.size := POWER_MANAGER_SIZE; device := 0 |}]
    (Some (CLINT_BASE, CLINT_SIZE)) (Some (PLIC_BASE, PLIC_SIZE)) : BB).
  assert (exists s2, virt_devices (E := E) power uart sample virtio RVBoardBuilder_new = (Ok tt, s2) /\
    arena_builder s2 = [power; uart] ++ virtio ++ [sample] /\
    mmio_items s2 = [{| start := POWER_MANAGER_BASE; Mmio.size := POWER_MANAGER_SIZE; device := 0 |};
                     {| start := UART_BASE; Mmio.size := UART_SIZE; device := 1 |}] ++ virtio_items n 0 2 ++
                    [{| start := SAMPLE_TIMER_BASE; Mmio.size := SAMPLE_TIMER_SIZE; device := n + 2 |}] /\
    clint_mmio s2 = Some (CLINT_BASE, CLINT_SIZE) /\ plic_mmio s2 = Some (PLIC_BASE, PLIC_SIZE) /\
    b_plic s2 = set_devices (peripheral_irq_devices (b_plic s2)) PLIC_new /\ length (peripheral_irq_devices (b_plic s2)) = 64%nat /\
    forall j, (j < 64)%nat -> peripheral_irq_devices (b_plic s2) !! j = Some (source_of n j)) as (s2 & E1 & Har & Hit & Hc & Hp & Hpl & Hlen & Hsrc).
  { unfold virt_devices. do 3 erewrite bind_Ok by reflexivity. fold s1.
    erewrite bind_Ok by (apply (add_plic_device_run s1 TyUart uart _ _ _ _ eq_refl); simpl; (done || (vm_compute; split; (discriminate || done)))).
    match goal with |- context [bind (add_virtio_devices virtio) _ ?x] => set (s1' := x) end.
    destruct (virtio_run virtio 0 s1') as (al & irqs & Hrun & Hal & Hli & Hirq); [lia|lia|done|done|].
    rewrite (bind_Ok _ _ _ _ _ Hrun). match goal with |- context [add_plic_device TySampleTimer _ _ _ _ ?x] => set (s1'' := x) end.
    eexists. split.
    { apply (add_plic_device_run s1'' TySampleTimer sample _ _ _ (IdAllocator_new 0 "D" SAMPLE_TIMER_BASE SAMPLE_TIMER_SIZE (Some SAMPLE_TIMER_INTERRUPT_ID)));
        simpl; [by rewrite Hal|by vm_compute..|done]. }
    simpl. split_and!; try done.
    - fold n. by replace (n + 2)%nat with (S (S n)) by lia.
    - by rewrite length_insert.
    - intros j Hj. unfold source_of. change (Z.to_nat (SAMPLE_TIMER_INTERRUPT_ID + 0)) with 63%nat.
      destruct (decide (j = 63)%nat) as [->|Hne].
      + rewrite list_lookup_insert_eq by lia. do 2 f_equal. unfold n. lia.
      + rewrite list_lookup_insert_ne, Hirq by lia. fold n. destruct (decide (1 <= j <= n)%nat).
        * rewrite decide_True by lia. do 2 f_equal. simpl. lia.
        * rewrite decide_False by lia.
          change (peripheral_irq_devices (b_plic s1')) with (<[10%nat := Some 1%nat]> (replicate 64 None)).
          destruct (decide (j = 10)%nat) as [->|]; [done|].
          rewrite list_lookup_insert_ne by done. by apply lookup_replicate_2. }
  rewrite (bind_Ok _ _ _ _ _ E1). unfold build_map. unfold bind, gets, unwrap. rewrite Hc, Hp. simpl. rewrite Hc, Hp.
  eexists _, _. split; [reflexivity|]. simpl. rewrite Har, Hit.
  replace (length ([power; uart] ++ virtio ++ [sample])) with (n + 3)%nat by (rewrite !length_app; unfold n; simpl; lia).
  replace (length (([power; uart] ++ virtio ++ [sample]) ++ [clint_cell])) with (n + 4)%nat by (rewrite !length_app; unfold n; simpl; lia).
  destruct (virt_windows_ok n Hn) as (Hw & Hbelow & Hdev).
  match goal with |- context [from_mmio_items r ?ds ?l] => set (its := l); set (arena := ds) end.
  assert (its ≡ₚ virt_windows n) as Hperm.
  { unfold its, virt_windows. rewrite <- !app_assoc. simpl. constructor. rewrite (Permutation_app_comm (virtio_items n 0 2)). simpl.
    apply (Permutation_middle [_; _; _]). }
  assert (merge_sort item_le its ≡ₚ virt_windows n) as Hsort by (by rewrite merge_sort_Permutation).
  split_and!; try done.
  - split_and!; simpl.
    + by apply (windows_perm (virt_windows n)).
    + apply StronglySorted_merge_sort; apply _.
    + rewrite Hsort. eapply list.Forall_impl; [exact Hdev|]. simpl. intros x Hx. apply lookup_lt_is_Some.
      unfold arena. rewrite !length_app. simpl. fold n. lia.
  - by rewrite Hsort.
  - unfold arena. by rewrite <- !app_assoc.
Qed.

(** The memory map of the board.  For every number of VirtIO devices up to
    62, [from_ram_with]'s builder succeeds and lays the devices out in windows
    that are sorted, do not overlap and end below RAM, each naming a device of
    the arena: the map is well-formed in the sense the bus requires.  The
    interrupt sources are 63 for the sample timer, 1, 2, ... for the VirtIO
    devices, and 10 for the UART as long as there are fewer than ten of
    those. *)
Theorem virt_memory_map (power uart sample clint_cell plic_cell : D) (virtio : list D) (r : Ram) :
  (length virtio <= 62)%nat ->
  let n := length virtio in
  exists mm b, (virt_devices (E := E) power uart sample virtio ;;; build_map clint_cell plic_cell r) RVBoardBuilder_new = (Ok mm, b) /\
    mmio_wf mm /\ map mm ≡ₚ virt_windows n /\ Forall (fun a => start a + Mmio.size a <= BASE_ADDR) (map mm) /\
    devices mm = [power; uart] ++ virtio ++ [sample; clint_cell; plic_cell] /\
    b_plic b = set_devices (peripheral_irq_devices (b_plic b)) PLIC_new /\
    length (peripheral_irq_devices (b_plic b)) = 64%nat /\
    forall j, (j < 64)%nat -> peripheral_irq_devices (b_plic b) !! j = Some (source_of n j).
Proof. apply build_map_run. Qed.

(** With ten VirtIO devices the tenth is registered on the
    interrupt source of the UART, which is then never sampled. *)
Theorem tenth_virtio_steals_uart_irq (power uart sample clint_cell plic_cell : D) (virtio : list D) (r : Ram) :
  length virtio = 10%nat ->
  exists mm b, (virt_devices (E := E) power uart sample virtio ;;; build_map clint_cell plic_cell r) RVBoardBuilder_new = (Ok mm, b) /\
    peripheral_irq_devices (b_plic b) !! 10%nat = Some (Some 11%nat) /\
    forall j, (j < 64)%nat -> peripheral_irq_devices (b_plic b) !! j <> Some (Some 1%nat).
Proof.
  intros Hn. destruct (build_map_run power uart sample clint_cell plic_cell virtio r) as (mm & b & E1 & _ & _ & _ & _ & _ & _ & Hs); [lia|].
  rewrite Hn in Hs. exists mm, b. split; [done|]. split; [by rewrite Hs by lia|].
  intros j Hj. rewrite Hs by done. unfold source_of. repeat case_decide; naive_solver lia.
Qed.
End Map.

#[local] Instance demo_plic_device : PlicDevice Z := {| irq_level d := (false, d) |}.

Lemma virt_memory_map_witness : exists mm b,
  (virt_devices (H0 := dev) (E := unit) 100 200 300 [1; 2] ;;; build_map 400 500 (Ram_new 0)) RVBoardBuilder_new = (Ok mm, b) /\
  mmio_wf mm /\ devices mm = [100; 200; 1; 2; 300; 400; 500] /\
  peripheral_irq_devices (b_plic b) !! 10%nat = Some (Some 1%nat) /\ peripheral_irq_devices (b_plic b) !! 2%nat = Some (Some 3%nat).
Proof.
  destruct (virt_memory_map (H0 := dev) (E := unit) 100 200 300 400 500 [1; 2] (Ram_new 0)) as (mm & b & E1 & Hwf & _ & _ & Hd & _ & _ & Hs); [simpl; lia|].
  exists mm, b. split; [exact E1|]. split; [exact Hwf|]. split; [exact Hd|]. split; rewrite Hs by lia; reflexivity.
Defined.
