(* ===== verification/BoardSpec.v ===== *)
(** * Correctness of the board

    The CLINT, the timer, the PLIC and the hart put together: every batch
    starts with interrupt pins that show the controllers' state, the run loop
    executes exactly the cycles it is asked for, and the memory map the
    builder lays out has no overlap. *)

From S2P Require Import Prelude Utils TrapTypes Ram CsrTable Csr PageTable Mmio Device Plic PlicSpec Power Clock Clint ClintSpec Vm Cpu Exec Invariant Decoder Executor ExecutorSpec HartSpec Board.

(** ** The hart behind the lines *)
Section Hart.
Context {D X : Type} `{DeviceTrait D} `{Profile} `{SettlingExt D X}.

#[export] Instance hart_handler : RiscvIRQHandler (RVCPU D X) := {|
  irq_handler i level c := match handle_irq i level c with (Ok _, c') => Some c' | _ => None end
|}.

(** [RVCPU::power_off] synchronises the devices on the bus. *)
Definition hart_power_off (c : RVCPU D X) : option (RVCPU D X) :=
  match on_memory (E := MemError) (on_mmio Mmio.sync) c with (Panic, _) => None | (_, c') => Some c' end.
#[export] Instance hart_can_power_off : PowerOff (RVCPU D X) := {| power_off := hart_power_off |}.

(** A batch of the hart with the devices on its own bus. *)
Definition hart_batch {Dp : Type} (decoder : Decoder) (n : Z) : M (VirtBoard Dp (RVCPU D X)) Exception unit :=
  zoom cpu (fun b c => upd_cpu c b) (step_batch decoder n).
Lemma hart_batch_frame {Dp} decoder n (b : VirtBoard Dp (RVCPU D X)) r b' : hart_batch decoder n b = (r, b') ->
  Board.cycles b' = Board.cycles b /\ status b' = status b.
Proof. unfold hart_batch, zoom. destruct (step_batch decoder n (cpu b)). by intros [= <- <-]. Qed.

Definition hart_irq (i : Interrupt) : Prop := irq_bit i <> None.
(** The pin of an interrupt is its bit of [mip]. *)
Definition hart_pin (i : Interrupt) (c : RVCPU D X) : bool :=
  match irq_bit i with Some n => Z.testbit (val (csr c) Mip) n | None => false end.

Lemma irq_bit_inj i j n : irq_bit i = Some n -> irq_bit j = Some n -> i = j.
Proof. destruct i, j; simpl; congruence. Qed.

#[export] Instance hart_lawful : LawfulHandler (RVCPU D X) hart_ok hart_irq hart_pin.
Proof.
  intros i level c Hi [Hc Hp]. unfold hart_irq in Hi. destruct (irq_bit i) as [n|] eqn:Ei; [|done].
  destruct (handle_irq_run c i n level (wf_csr c Hc) Ei) as (v & E & Hv & Hn & Hk).
  exists (set_csr (upd Mip v (csr c)) c). simpl. rewrite E.
  assert (val (upd Mip v (csr c)) Mip = v) as Hval.
  { apply val_upd_eq; [apply Hc|done]. }
  split_and!; [done| | |].
  - split; [|done]. destruct Hc. split; try done. by apply upd_wf.
  - unfold hart_pin. rewrite Ei. simpl. by rewrite Hval.
  - intros j Hj Hne. unfold hart_pin, hart_irq in *. destruct (irq_bit j) as [m|] eqn:Ej; [|done].
    simpl. rewrite Hval. apply Hk; [by destruct j; try done; injection Ej as <-|].
    intros ->. apply Hne. by eapply irq_bit_inj.
Qed.
End Hart.

(** ** Framing: driving some lines leaves the pins of the others *)
Section Frame.
Context {T : Type} {I : T -> Prop} {supported : Interrupt -> Prop} {pin : Interrupt -> T -> bool}
  `{LawfulHandler T I supported pin}.

(** The pins outside [sub] have the levels [f]. *)
Definition holds_pins (sub : Interrupt -> Prop) (f : Interrupt -> bool) (t : T) : Prop :=
  I t /\ forall j, supported j -> ~ sub j -> pin j t = f j.

Lemma frame_lawful sub f : (forall i, sub i -> supported i) -> LawfulHandler T (holds_pins sub f) sub pin.
Proof.
  intros Hsub i level t Hi [HI Hf]. destruct (handler_law i level t (Hsub i Hi) HI) as (t' & E & HI' & Hp & Ho).
  exists t'. split_and!; try done; [|auto]. split; [done|]. intros j Hj Hn. rewrite Ho; [auto|done|by intros ->].
Qed.

Lemma restrict_lawful sub : (forall i, sub i -> supported i) -> LawfulHandler T I sub pin.
Proof. intros Hsub i level t Hi HI. destruct (handler_law i level t (Hsub i Hi) HI) as (t' & ? & ? & ? & ?). eauto 10. Qed.
End Frame.

(** No operation of the controller changes how many harts there are. *)
Section Harts.
Context {D T : Type} `{PlicDevice D} `{RiscvIRQHandler T} {E : Type}.

Definition keeps_harts {A} (m : M (Board D T) E A) : Prop :=
  forall b, length (Plic.harts (snd (m b))) = length (Plic.harts b).

Lemma keeps_bind {A B} (m : M (Board D T) E A) (k : A -> M (Board D T) E B) :
  keeps_harts m -> (forall a, keeps_harts (k a)) -> keeps_harts (bind m k).
Proof.
  intros Hm Hk b. specialize (Hm b). unfold bind. destruct (m b) as [[a|e|] b']; simpl in *; [|done|done].
  by rewrite Hk.
Qed.
Lemma keeps_pure {A} (m : M (Board D T) E A) : (forall b, Plic.harts (snd (m b)) = Plic.harts b) -> keeps_harts m.
Proof. intros Hm b. by rewrite Hm. Qed.
Lemma keeps_on_plic {A} (m : M PLIC E A) : keeps_harts (on_plic m).
Proof. apply keeps_pure. intros b. unfold on_plic, zoom. by destruct (m _). Qed.
Lemma keeps_on_layout {A} (m : M PLICLayout E A) : keeps_harts (on_layout m).
Proof. apply keeps_on_plic. Qed.
Lemma keeps_unwrap {A} (o : option A) : keeps_harts (unwrap o).
Proof. apply keeps_pure. by destruct o. Qed.
Lemma keeps_set_irq l v : keeps_harts (on_harts (set_irq l v)).
Proof.
  intros b. unfold on_harts, zoom, set_irq. destruct (Plic.harts b !! line_target l) as [t|]; [|done].
  destruct (irq_handler (interrupt_nr l) v t); [|done]. simpl. by rewrite length_insert.
Qed.

Lemma keeps_refresh c : keeps_harts (refresh_context_irq_line (E := E) c).
Proof.
  unfold refresh_context_irq_line, set_context_irq_line. apply keeps_bind; [apply keeps_on_layout|]. intros o.
  apply keeps_bind; [|by intros; apply keeps_pure]. apply keeps_bind; [by apply keeps_pure|]. intros ls.
  apply keeps_bind; [apply keeps_unwrap|]. intros old. destruct (decide _); [by apply keeps_pure|].
  apply keeps_bind; [apply keeps_on_plic|]. intros _. apply keeps_bind; [by apply keeps_pure|]. intros lines.
  apply keeps_bind; [apply keeps_unwrap|]. intros [l|]; [apply keeps_set_irq|by apply keeps_pure].
Qed.

Lemma keeps_update_lines cs : keeps_harts (update_context_irq_lines (E := E) cs).
Proof.
  unfold update_context_irq_lines, sync_peripheral_irq_levels. apply keeps_bind; [|intros _].
  - apply keeps_bind; [by apply keeps_pure|]. intros ds. generalize 0. induction ds as [|d ds IH]; intros i; [by apply keeps_pure|].
    simpl. apply keeps_bind; [|intros _; apply IH]. destruct d as [h|]; [|by apply keeps_pure].
    apply keeps_bind; [|intros; apply keeps_on_layout]. apply keeps_pure. intros b. unfold sample_device.
    destruct (arena b !! h) as [d|]; [|done]. by destruct (irq_level d).
  - induction cs as [|c cs IH]; [by apply keeps_pure|]. simpl. apply keeps_bind; [|intros _; apply IH].
    destruct (is_valid_context_id c); [|by apply keeps_pure]. apply keeps_bind; [apply keeps_refresh|by intros; apply keeps_pure].
Qed.
End Harts.

(** ** A batch *)
Definition external (i : Interrupt) : Prop := i = MachineExternal \/ i = SupervisorExternal.
Definition local (i : Interrupt) : Prop := i = MachineTimer \/ i = MachineSoft.
Lemma external_irq i : external i -> hart_irq i.
Proof. by intros [->| ->]. Qed.
Lemma local_irq i : local i -> hart_irq i.
Proof. by intros [->| ->]. Qed.

Section Batch.
Context {D T : Type} `{StableDevice D} {I : T -> Prop} {pin : Interrupt -> T -> bool} `{LawfulHandler T I hart_irq pin}
  `{PowerOff T} `{SortUnstable Callback} `{Profile} {E : Type}.
Implicit Types b : VirtBoard D T.

(** The board between batches: both controllers in order, connected to the
    four pins of the hart. *)
Record vb_ok b : Prop := {
  vo_plic : board_ok (I := I) (supported := external) (pin := pin) (plic_view b);
  vo_clint : clint_ok (I := I) (supported := local) (clint_view b);
  vo_timer : timer_irq_line (clint b) = Some (cpu_line MachineTimer);
  vo_soft : software_irq_line (clint b) = Some (cpu_line MachineSoft);
  vo_machine : line_of (plic_view b) 0 = Some (cpu_line MachineExternal);
  vo_supervisor : line_of (plic_view b) 1 = Some (cpu_line SupervisorExternal)
}.

Lemma clint_ok_harts (I1 I' : T -> Prop) s hs : clint_ok (I := I1) (supported := local) s -> Forall I' hs ->
  length hs = length (Clint.harts (snd s)) -> clint_ok (I := I') (supported := local) (fst s, Build_World (Clint.clint (snd s)) (Clint.cycles (snd s)) hs).
Proof.
  intros [? ? ? ? ? ? ? (l & ? & ? & Hl) Hsoft] Hhs Hlen. split; try done; simpl in *.
  - exists l. unfold line_ok. simpl. by rewrite Hlen.
  - intros l' Hl'. destruct (Hsoft l' Hl') as [[??] ?]. unfold line_ok. simpl. by rewrite Hlen.
Qed.

(** Another invariant of the harts, with the pins of the lines unchanged. *)
Lemma board_ok_harts (I1 I' : T -> Prop) (v : Board D T) hs : board_ok (I := I1) (supported := external) (pin := pin) v ->
  Forall I' hs -> length hs = length (Plic.harts v) ->
  (forall k t t' j, Plic.harts v !! k = Some t -> hs !! k = Some t' -> external j -> pin j t' = pin j t) ->
  board_ok (I := I') (supported := external) (pin := pin) (Build_Board (Plic.plic v) (arena v) hs).
Proof.
  intros Hv Hhs Hlen Hpin. destruct Hv as [? ? ? ? Hlines ? Hdr]. split; try done.
  - intros c l Hc Hl. destruct (Hlines c l Hc Hl) as [? ?]. split; [done|]. simpl. by rewrite Hlen.
  - intros c l v' Hc Hl Hv'. rewrite <- (Hdr c l v' Hc Hl Hv'). destruct (Hlines c l Hc Hl) as [Hx Hlt].
    unfold line_pin. simpl. destruct (lookup_lt_is_Some_2 _ _ Hlt) as [t Et]. rewrite <- Hlen in Hlt.
    destruct (lookup_lt_is_Some_2 _ _ Hlt) as [t' Et']. rewrite Et, Et'. by eapply Hpin.
Qed.

Lemma tick_view b : vb_ok b -> exists b1, on_clint_view (E := E) tick b = (Ok tt, b1) /\ vb_ok b1 /\
  b1 = upd_cpu (cpu b1) (Build_VirtBoard (cpu b) (timer b1) (clint b) (cycles b) (plic b) (device_arena b) (status b) (power_status b)) /\
  (forall j, external j -> pin j (cpu b1) = pin j (cpu b)) /\
  (tracks (pin := pin) (clint_view b) -> tracks (pin := pin) (clint_view b1) /\
     pin MachineTimer (cpu b1) = (mtimecmp (clint_view b) <=? mtime (clint_view b))).
Proof.
  intros Hb. set (f j := pin j (cpu b)). set (I' := holds_pins (I := I) (supported := hart_irq) (pin := pin) local f).
  pose proof (frame_lawful (I := I) (pin := pin) local f local_irq) as HL. fold I' in HL.
  assert (Forall I' [cpu b]) as Hf.
  { pose proof (bo_harts _ (vo_plic b Hb)) as Hh. simpl in Hh. inversion Hh. repeat constructor; done. }
  pose proof (clint_ok_harts I I' _ [cpu b] (vo_clint b Hb) Hf eq_refl) as Hcl.
  destruct (tick_run (E := E) (I := I') (pin := pin) _ Hcl) as (s' & Ht & Hs' & Hc & Hcy & Hlen & Htr).
  destruct s' as [t' [c' n' hs']]. cbn [fst snd Clint.clint Clint.cycles Clint.harts clint_view length] in Hc, Hcy, Hlen. subst c' n'. destruct hs' as [|h [|]]; try done.
  pose proof (co_harts _ Hs') as Hh. simpl in Hh. inversion Hh as [|?? [HI Hp] _]; subst.
  assert (forall j, external j -> pin j h = pin j (cpu b)) as Hext.
  { intros j Hj. apply Hp; [by apply external_irq|]. by destruct Hj as [->| ->]; intros [|]. }
  eexists. split; [unfold on_clint_view, zoom; change (clint_view b) with (fst (clint_view b), snd (clint_view b)); setoid_rewrite Ht; reflexivity|]. split; [|split; [done|split; [done|]]].
  - destruct Hb. split; try done.
    + apply (board_ok_harts I I (plic_view b) [h]); simpl; [done|by repeat constructor|done|].
      intros [|k] t t1 j; [|done]. intros [= <-] [= <-]. apply Hext.
    + apply (clint_ok_harts I' I _ [h] Hs'); [by repeat constructor|done].
  - intros Htrk. destruct (Htr Htrk) as [Ht1 Ht2]. split; [done|]. etransitivity; [|exact Ht2].
    unfold mtip. simpl. by rewrite (vo_timer b Hb).
Qed.

(** Refreshing the lines of the two contexts. *)
Lemma lines_view b : vb_ok b -> exists b2 v1, on_plic_view (E := E) (update_context_irq_lines [0; 1]) b = (Ok tt, b2) /\
  vb_ok b2 /\ sampled (plic_view b) v1 (fun j => 0 <= j) /\ layout (plic b2) = layout (Plic.plic v1) /\
  b2 = Build_VirtBoard (cpu b2) (timer b) (clint b) (cycles b) (plic b2) (device_arena b2) (status b) (power_status b) /\
  (forall j, local j -> pin j (cpu b2) = pin j (cpu b)) /\
  (pin MachineExternal (cpu b2) = true <-> notified (layout (plic b2)) 0) /\
  (pin SupervisorExternal (cpu b2) = true <-> notified (layout (plic b2)) 1).
Proof.
  intros Hb. set (f j := pin j (cpu b)). set (I' := holds_pins (I := I) (supported := hart_irq) (pin := pin) external f).
  pose proof (frame_lawful (I := I) (pin := pin) external f external_irq) as HL. fold I' in HL.
  assert (Forall I' [cpu b]) as Hf.
  { pose proof (bo_harts _ (vo_plic b Hb)) as Hh. simpl in Hh. inversion Hh. repeat constructor; done. }
  pose proof (board_ok_harts I I' (plic_view b) [cpu b] (vo_plic b Hb) Hf eq_refl) as Hv. simpl in Hv.
  assert (board_ok (I := I') (supported := external) (pin := pin) (plic_view b)) as Hv' by (apply Hv; naive_solver).
  clear Hv. destruct (sync_run (E := E) _ Hv') as (v1 & Hs & Hv1 & Hsa).
  destruct (refresh_all_run (E := E) [0; 1] v1 Hv1) as (v2 & Hr & Hv2 & Hl & Ha & [Hw1 Hw2] & Hlev & _); [by repeat constructor|].
  assert (update_context_irq_lines (E := E) [0; 1] (plic_view b) = (Ok tt, v2)) as Hu
    by (unfold update_context_irq_lines; by rewrite (bind_Ok _ _ _ _ _ Hs)).
  pose proof (keeps_update_lines (E := E) [0; 1] (plic_view b)) as Hlen. rewrite Hu in Hlen.
  destruct v2 as [p2 a2 hs2]. cbn [snd Plic.harts plic_view length] in Hlen. destruct hs2 as [|h [|]]; try done.
  pose proof (bo_harts _ Hv2) as Hh. simpl in Hh. inversion Hh as [|?? [HI Hp] _]; subst.
  assert (forall j, local j -> pin j h = pin j (cpu b)) as Hloc.
  { intros j Hj. apply Hp; [by apply local_irq|]. by destruct Hj as [->| ->]; intros [|]. }
  assert (riscv_irq_line p2 = riscv_irq_line (plic b)) as Hwire.
  { destruct (sa_wiring _ _ _ Hsa) as [Hw _]. simpl in *. congruence. }
  assert (board_ok (I := I) (supported := external) (pin := pin) (Build_Board p2 a2 [h])) as Hok2.
  { apply (board_ok_harts I' I _ [h] Hv2); [by repeat constructor|done|]. intros [|k] t t1 j; [|done]. by intros [= <-] [= <-]. }
  assert (forall c i, 0 <= c < 16 -> c ∈ [0; 1] -> line_of (plic_view b) c = Some (cpu_line i) ->
    pin i h = true <-> notified (layout p2) c) as Hpins.
  { intros c i Hc Hin Hline. destruct (Hlev c Hc Hin) as (v & Hv & Hn). simpl in Hl. rewrite Hl, <- Hn.
    pose proof (bo_driven _ Hok2 c (cpu_line i) v ltac:(lia)) as Hd. unfold line_of in *. simpl in *.
    rewrite Hwire in Hd. by rewrite <- (Hd Hline Hv). }
  exists (put_plic b (Build_Board p2 a2 [h])), v1.
  split; [unfold on_plic_view, zoom; by rewrite Hu|].
  split_and!; try done; [|apply Hpins; [lia|set_solver|apply Hb]|apply Hpins; [lia|set_solver|apply Hb]].
  destruct Hb. split; try done.
  - apply (clint_ok_harts I I _ [h] vo_clint0); [by repeat constructor|done].
  - unfold line_of in *. simpl in *. by rewrite Hwire.
  - unfold line_of in *. simpl in *. by rewrite Hwire.
Qed.

Lemma prepare_run b : vb_ok b -> exists b' c1 v1, prepare_cpu_batch (E := E) b = (Ok tt, b') /\ vb_ok b' /\
  sampled (plic_view (upd_cpu c1 b)) v1 (fun j => 0 <= j) /\ layout (plic b') = layout (Plic.plic v1) /\
  b' = Build_VirtBoard (cpu b') (timer b') (clint b) (cycles b) (plic b') (device_arena b') (status b) (power_status b) /\
  (pin MachineExternal (cpu b') = true <-> notified (layout (plic b')) 0) /\
  (pin SupervisorExternal (cpu b') = true <-> notified (layout (plic b')) 1) /\
  (tracks (pin := pin) (clint_view b) -> tracks (pin := pin) (clint_view b') /\
     pin MachineTimer (cpu b') = (mtimecmp (clint_view b) <=? mtime (clint_view b))).
Proof.
  intros Hb. destruct (tick_view b Hb) as (b1 & Ht & Hb1 & Eb1 & _ & Htr).
  destruct (lines_view b1 Hb1) as (b2 & v1 & Hl & Hb2 & Hsa & Hlay & Eb2 & Hloc & Hm & Hs). exists b2, (cpu b1), v1.
  split; [unfold prepare_cpu_batch; rewrite (bind_Ok _ _ _ _ _ Ht); exact Hl|]. split; [done|].
  assert (plic_view (upd_cpu (cpu b1) b) = plic_view b1) as -> by (by rewrite Eb1).
  assert (pin MachineTimer (cpu b2) = pin MachineTimer (cpu b1)) as Hpin by (apply Hloc; by left).
  split_and!; try done; [rewrite Eb2; by rewrite Eb1|]. intros Htrk. destruct (Htr Htrk) as [Ht1 Ht2].
  split; [|by rewrite Hpin]. apply (tracks_ext (clint_view b1)); try by rewrite Eb2. 2: exact Ht1.
  unfold mtip. rewrite Eb2. simpl. rewrite (vo_timer b1 Hb1). done.
Qed.

(** What a batch does around the hart. *)
Lemma finish_batch_run n b : finish_cpu_batch (E := E) n b =
  let b1 := upd_cycles (wrap 64 (Board.cycles b + n)) b in
  if power_status b =? POWER_OFF_CODE then
    match power_off (cpu b) with Some c => (Ok tt, upd_status Halt (upd_cpu c b1)) | None => (Panic, b1) end
  else (Ok tt, b1).
Proof.
  unfold finish_cpu_batch, bind, modify, gets, ret. simpl. destruct (power_status b =? POWER_OFF_CODE); [|done].
  unfold unwrap. cbn [cpu upd_cycles]. by destruct (power_off (cpu b)).
Qed.

(** The cycle counter is no part of what [vb_ok] says of the wiring. *)
Lemma vb_ok_cycles n b : vb_ok b -> vb_ok (upd_cycles (wrap 64 n) b).
Proof.
  intros [Hp Hc Ht Hs Hm Hsup]. split; try done. destruct Hc as [? ? ? ? ? ? ? ? ?]. split; try done. by apply wrap_range.
Qed.

(** C25: A batch sees the interrupts as they are.  A halted board does nothing.  On a
    running one, wired as the builder wires it ([vb_ok]), the hart's batch starts
    in a state where every pin is up to date: the machine and supervisor
    external interrupts are up exactly when the PLIC, after sampling its
    devices, has something to notify to the context, the timer interrupt is
    up exactly when mtime has reached mtimecmp (once the timer is armed), and
    time has not moved; afterwards the cycle counter advances by what the
    batch reports, the board halts exactly when the guest has asked for
    power-off, and if it still runs and the hart's batch has left [vb_ok] true,
    it is true again before the next batch.  [vb_ok] includes that each external pin
    is at the level the PLIC drove last.  The board and the PLIC keep that, but
    the guest can break it by writing MEIP or SEIP of [mip]; the PLIC then
    does not drive the pin again until its level changes. *)
Theorem batch_sees_interrupts (execute : M (VirtBoard D T) E BatchResult) b : vb_ok b ->
  if decide (status b = Running) then
    exists b0 c1 v1, vb_ok b0 /\
      execute_cpu_batch execute b =
        (result <- execute ;; finish_cpu_batch (Executor.cycles result) ;;; ret result) b0 /\
      Board.cycles b0 = Board.cycles b /\ clint b0 = clint b /\ status b0 = Running /\ power_status b0 = power_status b /\
      sampled (plic_view (upd_cpu c1 b)) v1 (fun j => 0 <= j) /\ layout (plic b0) = layout (Plic.plic v1) /\
      (pin MachineExternal (cpu b0) = true <-> notified (layout (plic b0)) 0) /\
      (pin SupervisorExternal (cpu b0) = true <-> notified (layout (plic b0)) 1) /\
      (tracks (pin := pin) (clint_view b) -> tracks (pin := pin) (clint_view b0) /\
         pin MachineTimer (cpu b0) = (mtimecmp (clint_view b) <=? mtime (clint_view b))) /\
      forall result b1 r b2, execute b0 = (Ok result, b1) -> execute_cpu_batch execute b = (Ok r, b2) ->
        r = result /\ Board.cycles b2 = wrap 64 (Board.cycles b1 + Executor.cycles result) /\
        status b2 = (if power_status b1 =? POWER_OFF_CODE then Halt else status b1) /\
        (vb_ok b1 -> status b2 = Running -> vb_ok b2)
  else execute_cpu_batch execute b = (Ok {| Executor.cycles := 0; hook_stopped := false |}, b).
Proof.
  intros Hb. assert (execute_cpu_batch execute b = if decide (status b = Running)
    then (prepare_cpu_batch ;;; result <- execute ;; finish_cpu_batch (Executor.cycles result) ;;; ret result) b
    else (Ok {| Executor.cycles := 0; hook_stopped := false |}, b)) as ->
    by (unfold execute_cpu_batch, bind at 1, gets; by destruct (decide (status b = Running))).
  destruct (decide (status b = Running)) as [Hr|]; [|done].
  destruct (prepare_run b Hb) as (b0 & c1 & v1 & Hp & Hb0 & Hsa & Hl & Eb0 & Hm & Hs & Htr). exists b0, c1, v1.
  rewrite (bind_Ok _ _ _ _ _ Hp). split_and!; try done; try (by rewrite Eb0).
  intros result b1 r b2 Hx Hrun. rewrite (bind_Ok _ _ _ _ _ Hx) in Hrun. unfold bind in Hrun. rewrite finish_batch_run in Hrun.
  simpl in Hrun. destruct (power_status b1 =? POWER_OFF_CODE); [destruct (power_off (cpu b1)); [|done]|];
    injection Hrun as <- <-; split_and!; try done. intros Hb1 _. by apply vb_ok_cycles.
Qed.

(** ** Runs *)
Section Runs.
Context (cpu_batch : Z -> M (VirtBoard D T) E unit).
(** The hart does not touch the board's own bookkeeping. *)
Hypothesis batch_frame : forall n b r b', cpu_batch n b = (r, b') -> Board.cycles b' = Board.cycles b /\ status b' = status b.

Lemma tick_frame b : let b' := snd (on_clint_view (E := E) tick b) in
  Board.cycles b' = Board.cycles b /\ status b' = status b.
Proof.
  unfold on_clint_view, zoom, clint_view, tick. simpl. split.
  - set (w := Build_World _ _ _). change (Board.cycles b) with (Clint.cycles w). generalize (clock_now w). intros time.
    assert (forall l (w : World T), Clint.cycles (snd (run_due (E := E) time l w)) = Clint.cycles w) as Hd.
    { clear. induction l as [|t l IH]; intros w; cbn [run_due]; [done|]. destruct (due t <=? time); [|done].
      unfold bind, gets, unwrap, modify, ret. destruct (run_callback (callback t) w) as [w'|] eqn:Ec; [|reflexivity].
      assert (Clint.cycles w' = Clint.cycles w) as Hw.
      { unfold run_callback, clint_world in Ec. destruct (timer_irq_line _); [|done].
        destruct (set_irq _ _ _) as [[]]; try done. by injection Ec as <-. }
      specialize (IH w'). destruct (run_due time l w') as [[]]; simpl in *; congruence. }
    specialize (Hd (tasks (timer b)) w). by destruct (run_due time (tasks (timer b)) w) as [[]].
  - by destruct (run_due _ _ _) as [[]].
Qed.

Lemma prepare_frame b r b' : prepare_cpu_batch (E := E) b = (r, b') ->
  Board.cycles b' = Board.cycles b /\ status b' = status b.
Proof.
  unfold prepare_cpu_batch, bind. pose proof (tick_frame b) as Ht. destruct (on_clint_view tick b) as [[[]|e|] b1]; simpl in Ht.
  - destruct Ht as [Ht1 Ht2]. unfold on_plic_view, zoom.
    destruct (update_context_irq_lines _ _) as [r2 v2]. intros [= <- <-]. done.
  - by intros [= <- <-].
  - by intros [= <- <-].
Qed.

Lemma step_batch_frame n b r b' : status b = Running -> board_step_batch cpu_batch n b = (Ok r, b') ->
  r = {| Executor.cycles := n; hook_stopped := false |} /\ Board.cycles b' = wrap 64 (Board.cycles b + n).
Proof.
  intros Hr. unfold board_step_batch, execute_cpu_batch, bind at 1, gets. rewrite decide_True by done. unfold bind.
  destruct (prepare_cpu_batch b) as [[[]|e|] b0] eqn:Ep; [|done..]. apply prepare_frame in Ep as [Ec _].
  destruct (cpu_batch n b0) as [[[]|e|] b1] eqn:Eb; [|done..]. apply batch_frame in Eb as [Ec1 _]. simpl.
  rewrite finish_batch_run. simpl. intros Hrun. rewrite <- Ec, <- Ec1.
  destruct (power_status b1 =? POWER_OFF_CODE); [destruct (power_off (cpu b1)); [|done]|]; by injection Hrun as <- <-.
Qed.

Lemma run_loop_exact fuel : forall total executed b, 0 <= executed <= total -> total < 2 ^ 64 ->
  total - executed <= STEP_BATCH_CYCLES * Z.of_nat fuel ->
  exists r b', run_loop status (board_step_batch cpu_batch) fuel total executed b = Some (r, b') /\
    forall res, r = Ok res -> hook_stopped res = false /\ executed <= Executor.cycles res <= total /\
      (status b' = Running -> Executor.cycles res = total) /\
      (uint 64 (Board.cycles b) -> Board.cycles b' = wrap 64 (Board.cycles b + (Executor.cycles res - executed))).
Proof.
  assert (forall b n, uint 64 (Board.cycles b) -> Board.cycles b = wrap 64 (Board.cycles b + (n - n))) as Hnil.
  { intros b n Hb. by rewrite Z.sub_diag, Z.add_0_r, wrap_small. }
  induction fuel as [|fuel IH]; intros total executed b He Ht Hf.
  - assert (executed = total) as -> by lia. simpl. rewrite Z.ltb_irrefl. simpl. do 2 eexists. split; [done|].
    intros res [= <-]. simpl. split_and!; try done; try lia; auto.
  - cbn [run_loop]. destruct (Z.ltb_spec executed total) as [Hlt|Hge]; simpl.
    2: { assert (executed = total) as -> by lia. do 2 eexists. split; [done|]. intros res [= <-]. simpl.
         split_and!; try done; try lia; auto. }
    case_bool_decide as Hr; [|do 2 eexists; split; [done|]; intros res [= <-]; simpl; split_and!; try done; try lia; auto].
    set (n := Z.min (total - executed) STEP_BATCH_CYCLES).
    assert (0 < n <= total - executed /\ (n = total - executed \/ n = STEP_BATCH_CYCLES)) as [Hn Hn'] by (unfold n, STEP_BATCH_CYCLES; lia).
    destruct (board_step_batch cpu_batch n b) as [[r1|e|] b1] eqn:Es; [|do 2 eexists; split; [done|]; by intros..].
    apply step_batch_frame in Es as [-> Ec]; [|done]. unfold add_chk. simpl.
    rewrite (proj2 (Z.leb_gt _ (executed + n))), andb_false_r, wrap_small by (unfold uint; lia). simpl.
    destruct (IH total (executed + n) b1) as (r & b' & Hrun & Hres); [lia|done| |].
    { unfold STEP_BATCH_CYCLES in *. lia. }
    exists r, b'. split; [done|]. intros res Hok. destruct (Hres res Hok) as (? & ? & ? & Hw). split_and!; try done; try lia.
    intros Hb. rewrite Hw, Ec, wrap_add_l by (rewrite Ec; by apply wrap_range). f_equal. lia.
Qed.

(** C26: [run_cycles] does what its documentation says: it always returns, after
    at most ceil(n / 1024) batches, and when nothing panics it has executed
    exactly [n] cycles unless the board halted first, in which case it reports
    how many it did; the board's cycle counter advances by the number
    reported. *)
Theorem run_cycles_exact (n : Z) (fuel : nat) b : 0 <= n < 2 ^ 64 -> n <= STEP_BATCH_CYCLES * Z.of_nat fuel ->
  uint 64 (Board.cycles b) ->
  exists r b', run_cycles cpu_batch fuel n b = Some (r, b') /\
    forall res, r = Ok res -> hook_stopped res = false /\ 0 <= Executor.cycles res <= n /\
      (status b' = Running -> Executor.cycles res = n) /\
      Board.cycles b' = wrap 64 (Board.cycles b + Executor.cycles res).
Proof.
  intros Hn Hf Hc. destruct (run_loop_exact fuel n 0 b) as (r & b' & Hrun & Hres); [lia..|].
  exists r, b'. split; [done|]. intros res Hok. destruct (Hres res Hok) as (? & ? & ? & Hw). rewrite Z.sub_0_r in Hw. auto.
Qed.
End Runs.
End Batch.

(** ** Wiring *)
Section Wired.
Context {D T : Type} `{StableDevice D} {I : T -> Prop} {pin : Interrupt -> T -> bool} `{LawfulHandler T I hart_irq pin}
  `{SortUnstable Callback} `{Profile} {E : Type}.
Implicit Types b : VirtBoard D T.

Lemma line_view b i c : board_ok (I := I) (supported := external) (pin := pin) (plic_view b) -> 0 <= c < 16 -> external i ->
  (forall c', 0 <= c' -> c' <> c -> line_of (plic_view b) c' <> Some (cpu_line i)) ->
  exists b', on_plic_view (E := E) (Plic.set_irq_line (cpu_line i) c) b = (Ok tt, b') /\
    board_ok (I := I) (supported := external) (pin := pin) (plic_view b') /\
    (forall c', 0 <= c' -> line_of (plic_view b') c' = if decide (c' = c) then Some (cpu_line i) else line_of (plic_view b) c') /\
    b' = Build_VirtBoard (cpu b') (timer b) (clint b) (Board.cycles b) (plic b') (device_arena b') (status b) (power_status b).
Proof.
  intros Hb Hc Hi Hdis. pose proof (restrict_lawful (I := I) (pin := pin) external external_irq) as HL.
  set (l := cpu_line i) in *. assert (op_ok (supported := external) (plic_view b) (OpLine l c)) as Hop by (repeat split; try done; simpl; lia).
  pose proof (with_line_ok (plic_view b) l c Hb Hop) as Hb0.
  destruct (refresh_run (E := E) (with_line l c (plic_view b)) c Hb0 Hc) as (o & v & Hr & Hv & Hl & _ & [Hw _] & _).
  assert (Plic.set_irq_line (E := E) l c (plic_view b) = (Ok tt, v)) as Hset.
  { unfold Plic.set_irq_line, VIRT_MAX_CONTEXTS. destruct (Z.ltb_spec c 16); [|lia]. unfold bind at 1, assert, ret at 1.
    unfold bind at 1, on_plic at 1, zoom, modify at 1. unfold bind at 1, on_plic at 1, zoom, modify at 1.
    by rewrite (bind_Ok _ _ _ _ _ Hr). }
  pose proof (keeps_refresh (E := E) c (with_line l c (plic_view b))) as Hlen. rewrite Hr in Hlen.
  destruct v as [p a hs]. cbn [snd Plic.harts with_line plic_view length] in Hlen. destruct hs as [|h [|]]; try done.
  exists (put_plic b (Build_Board p a [h])). split; [unfold on_plic_view, zoom; by rewrite Hset|].
  split; [done|]. split; [|done]. intros c' Hc'. unfold line_of. simpl in *. rewrite Hw.
  destruct (bo_sizes _ Hb) as (Hsz & _ & _). case_decide as Hd.
  - subst c'. by rewrite list_lookup_insert_eq by (simpl in Hsz; lia).
  - by rewrite list_lookup_insert_ne by lia.
Qed.

Lemma wiring_run (c : T) (p : PLIC) (ds : list D) :
  I c -> board_ok (I := I) (supported := external) (pin := pin) (Build_Board p ds [c]) ->
  (forall k, 0 <= k -> line_of (Build_Board p ds [c]) k = None) ->
  exists b, register_rv_interrupt (E := E) (VirtBoard_new c p ds) = (Ok tt, b) /\
    vb_ok (I := I) (pin := pin) b /\ status b = Running /\ Board.cycles b = 0 /\ I (cpu b).
Proof.
  intros HI Hp Hnone.
  set (t1 := Build_Timer 1 [ScheduledTask_new 0 RaiseTimerIrq]).
  set (k1 := set_irq_lines (Some (cpu_line MachineTimer)) (Some (cpu_line MachineSoft)) 0 (Clint_new 1 0 MTIME_OFFSET MTIMECMP_OFFSET 0)).
  set (b1 := Build_VirtBoard c t1 k1 0 p ds Running 0).
  assert ((on_clint_view (E := E) (Clint.set_irq_line (cpu_line MachineTimer) 0) ;;;
    on_clint_view (Clint.set_irq_line (cpu_line MachineSoft) 1)) (VirtBoard_new c p ds) = (Ok tt, b1)) as Hcl.
  { unfold bind, on_clint_view, zoom, Clint.set_irq_line, on_clint, modify_clint, register, bind, gets, modify, add_chk, sub_chk.
    destruct overflow_checks; reflexivity. }
  assert (clint_ok (I := I) (supported := local) (clint_view b1)) as Hck.
  { split; simpl; try done; try (by repeat constructor).
    - by exists 0. - by exists 0.
    - split; [|by exists u64_MAX]. destruct (register_ok (E := E) (C := Callback) Timer_new RaiseTimerIrq timer_new_ok) as (t' & Hr & Hok & _); [cbn; lia|].
      assert (register (E := E) RaiseTimerIrq Timer_new = (Ok 0, t1)) as Hr'.
      { unfold register, bind, gets, modify, add_chk, sub_chk. destruct overflow_checks; reflexivity. }
      by rewrite Hr' in Hr; injection Hr as <-.
    - eexists. split; [reflexivity|]. split; [by left|simpl; lia].
    - intros l [= <-]. split; [split; [by right|simpl; lia]|done]. }
  destruct (line_view b1 MachineExternal 0) as (b2 & Hw2 & Hb2 & Hl2 & E2); [done|lia|by left| |].
  { intros k Hk _. change (plic_view b1) with (Build_Board p ds [c]). by rewrite Hnone. }
  destruct (line_view b2 SupervisorExternal 1) as (b3 & Hw3 & Hb3 & Hl3 & E3); [done|lia|by right| |].
  { intros k Hk Hne. rewrite Hl2 by done. case_decide; [done|]. change (plic_view b1) with (Build_Board p ds [c]). by rewrite Hnone. }
  assert (I (cpu b3)) as HI3 by (pose proof (bo_harts _ Hb3) as Hh; by inversion Hh).
  exists b3. split.
  { unfold register_rv_interrupt. unfold bind in Hcl. unfold bind at 1. destruct (on_clint_view _ (VirtBoard_new c p ds)) as [[[]|e|] b0]; [|done..].
    unfold bind at 1. destruct (on_clint_view _ b0) as [[[]|e|] b0']; [|done..]. injection Hcl as ->.
    by rewrite (bind_Ok _ _ _ _ _ Hw2). }
  assert (clint b3 = k1 /\ timer b3 = t1 /\ Board.cycles b3 = 0 /\ status b3 = Running) as (Ek & Et & Ec & Es).
  { rewrite E3, E2. done. }
  split; [|done]. split; [done| |by rewrite Ek|by rewrite Ek|..].
  - unfold clint_view. rewrite Ek, Et, Ec. by apply (clint_ok_harts I I _ [cpu b3] Hck); [repeat constructor|].
  - rewrite Hl3, decide_False, Hl2, decide_True by lia. done.
  - rewrite Hl3, decide_True by lia. done.
Qed.

(** The board the builder returns is in order.  Whatever devices were put on
    the interrupt controller, connecting the four interrupt lines of a new
    hart to it succeeds and establishes the invariant of the board: the
    registers of CLINT and PLIC at their reset values, one timer task for the
    CLINT, every line on its own pin, and the external pins down. *)
Theorem wiring_establishes_board (c : T) (p : PLIC) (ds : list D) :
  I c -> board_ok (I := I) (supported := external) (pin := pin) (Build_Board p ds [c]) ->
  (forall k, 0 <= k -> line_of (Build_Board p ds [c]) k = None) ->
  exists b, register_rv_interrupt (E := E) (VirtBoard_new c p ds) = (Ok tt, b) /\
    vb_ok (I := I) (pin := pin) b /\ status b = Running /\ Board.cycles b = 0 /\ I (cpu b).
Proof. apply wiring_run. Qed.
End Wired.

(** ** Witnesses: a board with one quiet source and a hart at a system call *)
#[local] Instance board_source : PlicDevice bool := {| irq_level := fun d => (d, d) |}.
#[local] Instance board_source_stable : StableDevice bool.
Proof. by intros d. Qed.
#[local] Instance demo_bus : DeviceTrait Z := demo_device.
#[local] Instance demo_profile : Profile := dev.
#[local] Existing Instance merge_sort_due.

Abbreviation Hart := (RVCPU Z unit).
Lemma demo_plic_ok : board_ok (D := bool) (T := Hart) (I := hart_ok) (supported := external) (pin := hart_pin)
  (Build_Board PLIC_new [true] [demo_syscall]).
Proof. apply plic_new_ok. constructor; [exact demo_syscall_ok|constructor]. Qed.
Lemma demo_no_lines k : 0 <= k -> line_of (D := bool) (T := Hart) (Build_Board PLIC_new [true] [demo_syscall]) k = None.
Proof.
  intros _. unfold line_of. cbn [Plic.plic riscv_irq_line PLIC_new].
  destruct (replicate (Z.to_nat VIRT_MAX_CONTEXTS) (@None IRQLine) !! Z.to_nat k) as [o|] eqn:Eo; [|done].
  by apply lookup_replicate in Eo as [-> _].
Qed.

Definition demo_board : VirtBoard bool Hart :=
  snd (register_rv_interrupt (E := Exception) (VirtBoard_new demo_syscall PLIC_new [true])).

Lemma wiring_establishes_board_witness :
  vb_ok (I := hart_ok) (pin := hart_pin) demo_board /\ Board.cycles demo_board = 0.
Proof.
  destruct (wiring_establishes_board (E := Exception) (I := hart_ok) (pin := hart_pin) demo_syscall PLIC_new [true]
    demo_syscall_ok demo_plic_ok demo_no_lines) as (b & Eb & Hok & _ & Hc & _).
  unfold demo_board. rewrite Eb. split; [exact Hok|exact Hc].
Defined.

Lemma demo_board_ok : vb_ok (I := hart_ok) (pin := hart_pin) demo_board /\ status demo_board = Running.
Proof.
  destruct (wiring_run (E := Exception) (I := hart_ok) (pin := hart_pin) demo_syscall PLIC_new [true]
    demo_syscall_ok demo_plic_ok demo_no_lines) as (b & Eb & Hok & Hs & _).
  unfold demo_board. rewrite Eb. split; [exact Hok|exact Hs].
Qed.

Lemma batch_sees_interrupts_witness : exists b0,
  execute_cpu_batch (hart_batch demo_decoder 2 ;;; ret {| Executor.cycles := 2; hook_stopped := false |}) demo_board =
    (result <- (hart_batch demo_decoder 2 ;;; ret {| Executor.cycles := 2; hook_stopped := false |}) ;;
     finish_cpu_batch (Executor.cycles result) ;;; ret result) b0 /\
  (hart_pin MachineExternal (cpu b0) = true <-> notified (layout (plic b0)) 0).
Proof.
  pose proof (batch_sees_interrupts (E := Exception) (I := hart_ok) (pin := hart_pin)
    (hart_batch demo_decoder 2 ;;; ret {| Executor.cycles := 2; hook_stopped := false |}) demo_board (proj1 demo_board_ok)) as Hb.
  rewrite decide_True in Hb by (apply demo_board_ok).
  destruct Hb as (b0 & c1 & v1 & _ & Hx & _ & _ & _ & _ & _ & _ & Hm & _). exists b0. split; [exact Hx|exact Hm].
Defined.

Lemma run_cycles_exact_witness : exists res b',
  run_cycles (E := Exception) (hart_batch demo_decoder) 1 2 demo_board = Some (Ok res, b') /\
  Executor.cycles res = 2 /\ Board.cycles b' = 2.
Proof.
  destruct (run_cycles_exact (E := Exception) (hart_batch demo_decoder) (hart_batch_frame demo_decoder) 2 1 demo_board) as (r & b' & Hrun & Hres).
  - lia.
  - unfold STEP_BATCH_CYCLES. lia.
  - vm_compute. split; [discriminate|reflexivity].
  - destruct (run_cycles (hart_batch demo_decoder) 1 2 demo_board) as [[r0 b0]|] eqn:E0; [|discriminate Hrun].
    injection Hrun as -> ->. assert (exists res, r = Ok res /\ status b' = Running) as (res & -> & Hs).
    { vm_compute in E0. injection E0 as <- <-. eexists. split; reflexivity. }
    destruct (Hres res eq_refl) as (_ & _ & Hn & Hc). exists res, b'. split; [reflexivity|]. split; [exact (Hn Hs)|].
    rewrite Hc, (Hn Hs). vm_compute. reflexivity.
Defined.
