(* ===== verification/SampleTimer.v ===== *)
(** * The sample timer (src/src/device/sample_timer.rs)

    A device and the task that sleeps for it, sharing an atomic flag and a
    [watch] channel.  The two run concurrently: the system is a step relation
    whose steps are the atomic operations of either side and the passing of
    time.  Of the channel the code relies on: [changed] completes when a value
    was sent since the last [changed], and [borrow] reads the newest value;
    [sleep_until] completes at any time from its deadline on. *)

From S2P Require Import Prelude Utils TrapTypes Mmio Device Plic PlicSpec Board.

Definition CONTROL_RESET : Z := Z.shiftl 1 0.

Record SampleTimerLayout : Type := {
  control_register : Z;
  interrupt_mask_reg : Z;
  interval_low : Z;
  interval_high : Z
}.
Definition SampleTimerLayout_new : SampleTimerLayout :=
  {| control_register := 0; interrupt_mask_reg := 0; interval_low := 0; interval_high := 0 |}.

Inductive TimerCommand : Type := Schedule (deadline : Z) | Cancel.

(** What the device still has to do before [write] returns. *)
Inductive Action : Type := ClearPending | ResetTimer.

(** The task: at the [select!] or the [await] with its current command, or
    between [changed] and [borrow]. *)
Inductive TimerTask : Type := Waiting (command : TimerCommand) | Borrowing.

Record Timers : Type := {
  layout : SampleTimerLayout;
  irq_pending : bool;
  todo : list Action;
  watch : TimerCommand;
  unseen : bool;
  task : TimerTask;
  clock : Z;              (* [Instant::now()], in milliseconds *)
  sent : list Z           (* every deadline ever sent, newest first *)
}.

(** [SampleTimerDevice::new] *)
Definition Timers_new (t0 : Z) : Timers :=
  {| layout := SampleTimerLayout_new; irq_pending := false; todo := []; watch := Cancel; unseen := false;
     task := Waiting Cancel; clock := t0; sent := [] |}.

Definition set_layout l (s : Timers) : Timers :=
  Build_Timers l (irq_pending s) (todo s) (watch s) (unseen s) (task s) (clock s) (sent s).
Definition set_irq_pending p (s : Timers) : Timers :=
  Build_Timers (layout s) p (todo s) (watch s) (unseen s) (task s) (clock s) (sent s).
Definition set_todo t (s : Timers) : Timers :=
  Build_Timers (layout s) (irq_pending s) t (watch s) (unseen s) (task s) (clock s) (sent s).
Definition set_task t u (s : Timers) : Timers :=
  Build_Timers (layout s) (irq_pending s) (todo s) (watch s) u t (clock s) (sent s).
Definition set_clock c (s : Timers) : Timers :=
  Build_Timers (layout s) (irq_pending s) (todo s) (watch s) (unseen s) (task s) c (sent s).

Definition get_interval (l : SampleTimerLayout) : Z := Z.lor (shl 64 (interval_high l) 32) (interval_low l).

(** [self.sender.send(Schedule(now + interval))] *)
Definition reset_timer (s : Timers) : Timers :=
  let d := clock s + get_interval (layout s) in
  Build_Timers (layout s) (irq_pending s) (todo s) (Schedule d) true (task s) (clock s) (d :: sent s).

(** ** The device *)
Definition timer_read (addr len : Z) : M Timers MemError Z :=
  if negb (len =? 4) then err MemLoadFault
  else l <- gets layout ;;
       match addr with
       | 0 => ret (control_register l)
       | 4 => ret (interrupt_mask_reg l)
       | 8 => ret (interval_low l)
       | 12 => ret (interval_high l)
       | _ => err MemLoadFault
       end.

Definition upd_layout (f : SampleTimerLayout -> SampleTimerLayout) : M Timers MemError unit :=
  modify (fun s => set_layout (f (layout s)) s).
Definition schedule (l : list Action) : M Timers MemError unit := modify (set_todo l).

(** [write] up to its first shared effect; the rest is left in [todo]. *)
Definition timer_write (addr len data : Z) : M Timers MemError unit :=
  if negb (len =? 4) then err MemStoreFault
  else
    let data := wrap 32 data in
    match addr with
    | 0 => upd_layout (fun l => Build_SampleTimerLayout data (interrupt_mask_reg l) (interval_low l) (interval_high l)) ;;;
           if negb (Z.land data CONTROL_RESET =? 0) then schedule [ClearPending; ResetTimer] else ret tt
    | 4 => upd_layout (fun l => Build_SampleTimerLayout (control_register l) data (interval_low l) (interval_high l))
    | 8 => upd_layout (fun l => Build_SampleTimerLayout (control_register l) (interrupt_mask_reg l) data (interval_high l)) ;;;
           schedule [ResetTimer]
    | 12 => upd_layout (fun l => Build_SampleTimerLayout (control_register l) (interrupt_mask_reg l) (interval_low l) data) ;;;
            schedule [ResetTimer]
    | _ => err MemStoreFault
    end.

Definition act (a : Action) (s : Timers) : Timers :=
  match a with ClearPending => set_irq_pending false s | ResetTimer => reset_timer s end.

Definition timer_irq_level (s : Timers) : bool * Timers :=
  (irq_pending s && (Z.land (interrupt_mask_reg (layout s)) 1 =? 1), s).
#[export] Instance sample_timer_plic : PlicDevice Timers := {| irq_level := timer_irq_level |}.
#[export] Instance sample_timer_stable : StableDevice Timers.
Proof. by intros s. Qed.

(** Without concurrency a write runs to its end. *)
Definition run_write (addr len data : Z) (s : Timers) : Res MemError unit * Timers :=
  let '(r, s1) := timer_write addr len data s in
  (r, set_todo [] (foldl (fun s a => act a s) s1 (todo s1))).

(** ** The system *)
Inductive step : Timers -> Timers -> Prop :=
| StepWrite addr len data r s s' : todo s = [] -> timer_write addr len data s = (r, s') -> step s s'
| StepAct a l s : todo s = a :: l -> step s (set_todo l (act a s))
| StepTime t s : clock s <= t -> step s (set_clock t s)
| StepChanged c s : task s = Waiting c -> unseen s = true -> step s (set_task Borrowing false s)
| StepBorrow s : task s = Borrowing -> step s (set_task (Waiting (watch s)) (unseen s) s)
| StepFire d s : task s = Waiting (Schedule d) -> d <= clock s ->
    step s (set_irq_pending true (set_task (Waiting Cancel) (unseen s) s)).

(** The deadlines the task may still act on were all sent. *)
Record timers_ok (s : Timers) : Prop := {
  ok_watch : forall d, watch s = Schedule d -> d ∈ sent s;
  ok_task : forall d, task s = Waiting (Schedule d) -> d ∈ sent s;
  ok_pending : irq_pending s = true -> exists d, d ∈ sent s /\ d <= clock s;
  ok_new : task s = Borrowing \/ unseen s = true -> watch s <> Cancel
}.

Lemma write_sent addr len data s r s' : timer_write addr len data s = (r, s') ->
  irq_pending s' = irq_pending s /\ watch s' = watch s /\ unseen s' = unseen s /\ task s' = task s /\ clock s' = clock s /\ sent s' = sent s.
Proof.
  unfold timer_write, schedule, upd_layout, bind, modify, ret, err. intros Hw. repeat case_match; simplify_eq; done.
Qed.

Lemma step_ok s s' : timers_ok s -> step s s' -> timers_ok s'.
Proof.
  intros Hs Hst. destruct Hst as [addr len data r s s' _ Hw|a l s _|t s Ht|c s Ht Hu|s Ht|d s Ht Hd].
  - apply write_sent in Hw as (E1 & E2 & E3 & E4 & E5 & E6). destruct Hs. split; rewrite ?E1, ?E2, ?E3, ?E4, ?E5, ?E6; done.
  - destruct Hs as [H1 H2 H3 H4]. destruct a; split; simpl; try done.
    + intros d [= <-]. by left.
    + intros d Hd. right. by apply H2.
    + intros Hp. destruct (H3 Hp) as (d & ? & ?). exists d. split; [by right|done].
  - destruct Hs as [H1 H2 H3 H4]. split; simpl; try done. intros Hp. destruct (H3 Hp) as (d & ? & ?). exists d. split; [done|lia].
  - destruct Hs as [H1 H2 H3 H4]. split; simpl; try done. intros _. apply H4. by right.
  - destruct Hs as [H1 H2 H3 H4]. split; simpl; try done.
    + intros d [= E]. by apply H1.
    + intros [|]; [done|]. apply H4. by right.
  - destruct Hs as [H1 H2 H3 H4]. split; simpl; try done.
    + intros _. exists d. split; [by apply H2|done].
    + intros [|]; [done|]. apply H4. by right.
Qed.

Lemma new_ok t0 : timers_ok (Timers_new t0).
Proof. split; simpl; try done. by intros [|]. Qed.

Lemma reachable_ok t0 s : rtc step (Timers_new t0) s -> timers_ok s.
Proof. intros Hr. pose proof (new_ok t0) as Hn. induction Hr as [|s1 s2 s3 Hst _ IH]; [done|]. by apply IH, (step_ok s1). Qed.

(** The timer never interrupts early or out of nothing: in every state that
    guest accesses, the sleeping task and the clock can reach in any
    interleaving, a pending interrupt comes from a deadline that was scheduled
    and has passed, and the interrupt line is up only if moreover bit 0 of the
    mask register is set. *)
Theorem timer_interrupt_is_due t0 s : rtc step (Timers_new t0) s ->
  (irq_pending s = true -> exists d, d ∈ sent s /\ d <= clock s) /\
  (fst (timer_irq_level s) = true -> Z.testbit (interrupt_mask_reg (layout s)) 0 = true /\ exists d, d ∈ sent s /\ d <= clock s).
Proof.
  intros Hr%reachable_ok. split; [apply (ok_pending s Hr)|]. simpl. intros [Hp Hm]%andb_true_iff.
  split; [|by apply (ok_pending s Hr)]. apply Z.eqb_eq in Hm.
  change 1 with (Z.ones 1) in Hm at 1. rewrite Z.land_ones in Hm by lia.
  change (2 ^ 1) with 2 in Hm. rewrite Zmod_odd in Hm. rewrite ?Z.bit0_odd. by destruct (Z.odd _).
Qed.

(** ** No interrupt is lost *)

(** The steps of the sleeping task. *)
Inductive task_step : Timers -> Timers -> Prop :=
| TaskChanged c s : task s = Waiting c -> unseen s = true -> task_step s (set_task Borrowing false s)
| TaskBorrow s : task s = Borrowing -> task_step s (set_task (Waiting (watch s)) (unseen s) s)
| TaskFire d s : task s = Waiting (Schedule d) -> d <= clock s ->
    task_step s (set_irq_pending true (set_task (Waiting Cancel) (unseen s) s)).

(** Whatever steps the task takes, it comes to a state of [P]: until then it
    always has a step, and it cannot go on without end. *)
Inductive inevitable (P : Timers -> Prop) (s : Timers) : Prop :=
| InevitableNow : P s -> inevitable P s
| InevitableLater : (exists s', task_step s s') -> (forall s', task_step s s' -> inevitable P s') -> inevitable P s.

(** [d] is the newest deadline sent and the task has not acted on it: it has
    not noticed it, is about to read it, or sleeps until it. *)
Definition outstanding (d : Z) (s : Timers) : Prop :=
  watch s = Schedule d /\ (unseen s = true \/ task s = Borrowing \/ task s = Waiting (Schedule d)).

(** Nothing is lost: once a deadline was sent, the newest one is outstanding or
    the interrupt is pending, or else the device has withdrawn it and is about
    to send a new deadline. *)
Definition kept (s : Timers) : Prop :=
  forall d, watch s = Schedule d -> outstanding d s \/ irq_pending s = true \/ ResetTimer ∈ todo s.

(** What a [write] leaves to do: the new deadline comes last, and once. *)
Definition resets_last (s : Timers) : Prop := todo s ∈ [[]; [ResetTimer]; [ClearPending; ResetTimer]].

Lemma write_todo addr len data s r s' : todo s = [] -> timer_write addr len data s = (r, s') -> resets_last s'.
Proof.
  unfold timer_write, schedule, upd_layout, bind, modify, ret, err, resets_last. intros Ht Hw.
  repeat case_match; simplify_eq; simpl; rewrite ?Ht; set_solver.
Qed.

Lemma act_resets_last a l s : resets_last s -> todo s = a :: l -> resets_last (set_todo l (act a s)).
Proof. unfold resets_last. intros H E. rewrite E in H. simpl. set_solver. Qed.

Lemma reset_is_last l s : resets_last s -> todo s = ResetTimer :: l -> l = [].
Proof. unfold resets_last. intros H E. rewrite E in H. set_solver. Qed.

Lemma clear_before_reset l s : resets_last s -> todo s = ClearPending :: l -> ResetTimer ∈ l.
Proof. unfold resets_last. intros H E. rewrite E, !elem_of_cons, elem_of_nil in H. destruct H as [|[|[|[]]]]; simplify_eq. by left. Qed.

Lemma step_resets_last s s' : resets_last s -> step s s' -> resets_last s'.
Proof. intros H Hst. destruct Hst; eauto using write_todo, act_resets_last. Qed.

Lemma act_kept a l s : resets_last s -> kept s -> todo s = a :: l -> kept (set_todo l (act a s)).
Proof.
  intros Hr Hk E d. destruct a; simpl; intros Hw.
  - right; right. by apply (clear_before_reset l s).
  - left. split; [done|by left].
Qed.

Lemma task_kept s s' : kept s -> task_step s s' -> kept s'.
Proof.
  intros Hk Hst d. destruct Hst as [c s Ht Hu|s Ht|d' s Ht Hd]; simpl; intros Hw.
  - left. split; [done|right; by left].
  - left. split; [done|]. right; right. simpl. by rewrite Hw.
  - right. by left.
Qed.

Lemma step_kept s s' : resets_last s -> kept s -> step s s' -> kept s'.
Proof.
  intros Hr Hk Hst. destruct Hst as [addr len data r s s' Ht Hw|a l s E|t s _|c s Ht Hu|s Ht|d s Ht Hd];
    [|by apply act_kept|done|by eapply task_kept; [|eapply TaskChanged]|by eapply task_kept; [|eapply TaskBorrow]
     |by eapply task_kept; [|eapply TaskFire]].
  apply write_sent in Hw as (E1 & E2 & E3 & E4 & _). intros d. rewrite E2. intros Hd.
  destruct (Hk d Hd) as [[_ Ho]|[Hp|Hin]]; [left; unfold outstanding; by rewrite E2, E3, E4|right; left; by rewrite E1|].
  rewrite Ht in Hin. by apply elem_of_nil in Hin.
Qed.

Lemma reachable_kept t0 s : rtc step (Timers_new t0) s -> resets_last s /\ kept s.
Proof.
  intros Hr. assert (resets_last (Timers_new t0) /\ kept (Timers_new t0)) as H0 by (split; [by left|intros d; done]).
  induction Hr as [|s1 s2 s3 Hst _ IH]; [done|]. destruct H0. apply IH. eauto using step_resets_last, step_kept.
Qed.

Definition raised (s : Timers) : Prop := irq_pending s = true.

(** Asleep with the newest deadline, which has passed. *)
Lemma sleeping_fires d s : watch s = Schedule d -> task s = Waiting (Schedule d) -> unseen s = false -> d <= clock s ->
  inevitable raised s.
Proof.
  intros Hw Ht Hu Hd. apply InevitableLater; [eexists; by eapply TaskFire|]. intros s' Hst.
  inversion Hst as [c s0 Hc Hu' Es|s0 Hb Es|d' s0 Hf Hd' Es]; subst; [congruence|congruence|by apply InevitableNow].
Qed.

Lemma borrowing_fires d s : watch s = Schedule d -> task s = Borrowing -> unseen s = false -> d <= clock s ->
  inevitable raised s.
Proof.
  intros Hw Ht Hu Hd. apply InevitableLater; [eexists; by eapply TaskBorrow|]. intros s' Hst.
  inversion Hst as [c s0 Hc Hu' Es|s0 Hb Es|d' s0 Hf Hd' Es]; subst; [congruence| |congruence].
  apply (sleeping_fires d); simpl; [done|by rewrite Hw|done|done].
Qed.

Lemma waiting_fires d c s : watch s = Schedule d -> task s = Waiting c -> unseen s = true -> d <= clock s ->
  inevitable raised s.
Proof.
  intros Hw Ht Hu Hd. apply InevitableLater; [eexists; by eapply TaskChanged|]. intros s' Hst.
  inversion Hst as [c' s0 Hc Hu' Es|s0 Hb Es|d' s0 Hf Hd' Es]; subst; [|congruence|by apply InevitableNow].
  by apply (borrowing_fires d).
Qed.

Lemma outstanding_fires d s : outstanding d s -> d <= clock s -> inevitable raised s.
Proof.
  intros [Hw Ho] Hd. destruct (unseen s) eqn:Hu.
  - destruct (task s) as [c|] eqn:Ht; [by apply (waiting_fires d c)|].
    apply InevitableLater; [eexists; by eapply TaskBorrow|]. intros s' Hst.
    inversion Hst as [c' s0 Hc Hu' Es|s0 Hb Es|d' s0 Hf Hd' Es]; subst; [congruence| |congruence].
    by apply (waiting_fires d (watch s)).
  - destruct Ho as [|[Ht|Ht]]; [done|by apply (borrowing_fires d)|by apply (sleeping_fires d)].
Qed.

(** C37: No timer interrupt is lost.  Take any state the guest's register writes,
    the sleeping task and the clock reach in any interleaving of their atomic
    operations, and let [d] be the newest deadline sent.  Then the interrupt is
    pending, or the task has not yet acted on [d], or the device is in the
    middle of a reset and has still to send a new deadline; hence, when no
    write is under way and [d] has passed, the interrupt is pending or the task
    inevitably raises it: every sequence of its steps, however it is
    scheduled, can be continued and after finitely many steps has the
    interrupt pending.  Moreover the last operation of a reset sends the
    deadline [now + interval], which is then outstanding. *)
Theorem timer_eventually_fires t0 s : rtc step (Timers_new t0) s ->
  (forall d, watch s = Schedule d ->
     (outstanding d s \/ irq_pending s = true \/ ResetTimer ∈ todo s) /\
     (todo s = [] -> d <= clock s -> inevitable (fun s' => irq_pending s' = true) s)) /\
  (forall l, todo s = ResetTimer :: l ->
     l = [] /\ outstanding (clock s + get_interval (layout s)) (set_todo l (act ResetTimer s))).
Proof.
  intros Hr. destruct (reachable_kept t0 s Hr) as [Hl Hk]. split.
  - intros d Hw. split; [by apply Hk|]. intros Ht Hd.
    destruct (Hk d Hw) as [Ho|[Hp|Hin]]; [by apply (outstanding_fires d)|by apply InevitableNow|].
    rewrite Ht in Hin. by apply elem_of_nil in Hin.
  - intros l E. split; [by apply (reset_is_last l s)|]. split; [done|by left].
Qed.

(** ** Witnesses *)

(** Interrupts on, 5 milliseconds, reset, run. *)
Definition demo_timer_armed : Timers :=
  snd (run_write 8 4 5 (snd (run_write 4 4 1 (Timers_new 100)))).

Lemma todo_irrelevant l : forall m s,
  set_todo [] (foldl (fun s a => act a s) (set_todo m s) l) = set_todo [] (foldl (fun s a => act a s) s l).
Proof.
  induction l as [|a l IH]; intros m s; [done|]. simpl. rewrite <- (IH m (act a s)). by destruct a.
Qed.

Lemma run_write_steps addr len data s : todo s = [] -> rtc step s (snd (run_write addr len data s)).
Proof.
  intros Ht. unfold run_write. destruct (timer_write addr len data s) as [r s1] eqn:E. simpl.
  eapply rtc_l; [by eapply StepWrite|]. clear E. revert s1.
  assert (forall l s1, todo s1 = l -> rtc step s1 (set_todo [] (foldl (fun s a => act a s) s1 l))) as Hrun.
  { intros l. induction l as [|a l IH]; intros s1 Hl; simpl.
    - replace (set_todo [] s1) with s1; [done|]. destruct s1; simpl in *; by subst.
    - eapply rtc_l; [by eapply (StepAct a l)|].
      replace (set_todo [] (foldl _ (act a s1) l)) with (set_todo [] (foldl (fun s a => act a s) (set_todo l (act a s1)) l)); [by apply IH|].
      apply todo_irrelevant. }
  intros s1. by apply Hrun.
Qed.

Lemma demo_timer_reachable : rtc step (Timers_new 100) demo_timer_armed.
Proof. etransitivity; [apply (run_write_steps 4 4 1); reflexivity|]. apply (run_write_steps 8 4 5). reflexivity. Qed.

Definition demo_timer_fired : Timers :=
  let s := set_task (Waiting (Schedule 105)) false (set_clock 107 demo_timer_armed) in
  set_irq_pending true (set_task (Waiting Cancel) false s).
Lemma demo_fired_reachable : rtc step (Timers_new 100) demo_timer_fired.
Proof.
  etransitivity; [apply demo_timer_reachable|].
  eapply rtc_l; [apply (StepTime 107); vm_compute; discriminate|].
  eapply rtc_l; [eapply StepChanged; reflexivity|]. eapply rtc_l; [apply StepBorrow; reflexivity|].
  apply rtc_once. apply (StepFire 105 (set_task (Waiting (Schedule 105)) false (set_clock 107 demo_timer_armed))); [reflexivity|vm_compute; discriminate].
Qed.

Lemma timer_interrupt_is_due_witness : fst (timer_irq_level demo_timer_fired) = true /\
  exists d, d ∈ sent demo_timer_fired /\ d <= clock demo_timer_fired.
Proof.
  destruct (timer_interrupt_is_due 100 demo_timer_fired demo_fired_reachable) as [H1 _].
  split; [reflexivity|]. apply H1. reflexivity.
Defined.

(** Armed for 105, at 107. *)
Lemma timer_eventually_fires_witness :
  outstanding 105 (set_clock 107 demo_timer_armed) /\ inevitable (fun s' => irq_pending s' = true) (set_clock 107 demo_timer_armed).
Proof.
  destruct (timer_eventually_fires 100 (set_clock 107 demo_timer_armed)) as [H1 _].
  { eapply rtc_r; [apply demo_timer_reachable|]. apply (StepTime 107). vm_compute. discriminate. }
  destruct (H1 105) as [_ H2]; [reflexivity|]. split; [split; [reflexivity|left; reflexivity]|].
  apply H2; [reflexivity|vm_compute; discriminate].
Defined.

(** A reset does not quite cancel the old deadline: if it expires while the
    reset is under way, the task sets the flag after the device has cleared it
    and before it has seen the new deadline.  The interrupt is then pending
    before the deadline the reset has just scheduled. *)
Theorem reset_races_with_old_deadline : exists s, rtc step (Timers_new 100) s /\ todo s = [] /\
  watch s = Schedule 112 /\ clock s = 107 /\ irq_pending s = true.
Proof.
  pose (s0 := set_task (Waiting (Schedule 105)) false (set_clock 107 demo_timer_armed)).
  assert (rtc step (Timers_new 100) s0) as H0.
  { etransitivity; [apply demo_timer_reachable|]. eapply rtc_l; [apply (StepTime 107); vm_compute; discriminate|].
    eapply rtc_l; [eapply StepChanged; reflexivity|]. apply rtc_once, StepBorrow. reflexivity. }
  pose (s1 := snd (run_write 0 4 1 s0)).
  exists (set_irq_pending true (set_task (Waiting Cancel) (unseen s1) s1)). split; [|vm_compute; done].
  etransitivity; [exact H0|]. etransitivity; [apply (run_write_steps 0 4 1 s0); reflexivity|].
  apply rtc_once. apply (StepFire 105 s1); [reflexivity|vm_compute; discriminate].
Qed.
