(* ===== verification/Vector.v ===== *)
(** * Vector unit: registers, masks and memory accesses

    The model of src/src/cpu/vector_reg_file.rs, src/src/isa/riscv/vector/types.rs
    and src/src/isa/riscv/vector/mod.rs.  The register file is the memory the
    Rust array occupies: 32 registers of 16 bytes, one after the other, so that
    a register group is a run of bytes.  An element reference is the offset of
    the element in its group; elements are little-endian. *)

From S2P Require Import Prelude Utils TrapTypes Alu Ram Mmio.

(** ** types.rs *)

Definition VLEN : Z := 128.
Definition VLEN_BYTE : Z := Z.shiftr VLEN 3.

Inductive FixedPointRoundingMode : Type := RoundToNearestUp | RoundToNearestEven | RoundDown | RoundToOdd.
#[global] Instance FixedPointRoundingMode_eq_dec : EqDecision FixedPointRoundingMode.
Proof. solve_decision. Defined.

Inductive Vlmul : Type := M1 | M2 | M4 | M8 | Mf8 | Mf4 | Mf2.
#[global] Instance Vlmul_eq_dec : EqDecision Vlmul.
Proof. solve_decision. Defined.

(** [From<u8>] panics on the reserved encoding 4. *)
Definition Vlmul_from (value : Z) : option Vlmul :=
  match value with
  | 0 => Some M1 | 1 => Some M2 | 2 => Some M4 | 3 => Some M8
  | 5 => Some Mf8 | 6 => Some Mf4 | 7 => Some Mf2
  | _ => None
  end.

Definition get_lmul (l : Vlmul) : Z :=
  match l with M1 => 1 | M2 => 2 | M4 => 4 | M8 => 8 | Mf8 => 1 | Mf4 => 1 | Mf2 => 1 end.

Inductive Vsew : Type := E8 | E16 | E32 | E64.
#[global] Instance Vsew_eq_dec : EqDecision Vsew.
Proof. solve_decision. Defined.

Definition Vsew_from (value : Z) : option Vsew :=
  match value with 0 => Some E8 | 1 => Some E16 | 2 => Some E32 | 3 => Some E64 | _ => None end.

Definition from_byte_width (byte_width : Z) : option Vsew :=
  match byte_width with 1 => Some E8 | 2 => Some E16 | 4 => Some E32 | 8 => Some E64 | _ => None end.

Definition into_byte_width (e : Vsew) : Z := match e with E8 => 1 | E16 => 2 | E32 => 4 | E64 => 8 end.

(** The Rust type of an element, chosen by the [match] on the width. *)
Definition ty_of (e : Vsew) : UInt := match e with E8 => U8 | E16 => U16 | E32 => U32 | E64 => U64 end.

Record VectorConfig : Type := {
  vlmul : Vlmul; vsew : Vsew; tail_agnostic : bool; mask_agnostic : bool;
  fixed_point_accrued_saturation_flag : bool; fixed_point_rounding_mode : FixedPointRoundingMode;
  vl : Z
}.

Definition VectorConfig_new : VectorConfig := {|
  vlmul := M1; vsew := E8; tail_agnostic := false; mask_agnostic := false;
  fixed_point_accrued_saturation_flag := false; fixed_point_rounding_mode := RoundToNearestUp; vl := 0 |}.

(** [l[i]] and [l.get(i)] with an index of type [usize]. *)
Definition lookup_z {A} (l : list A) (i : Z) : option A :=
  if (0 <=? i) && (i <? Z.of_nat (length l)) then l !! Z.to_nat i else None.

(** The elements of [size_of t] bytes a run of bytes holds. *)
Definition load_le (sz : Z) (bytes : list Z) (off : Z) : Z :=
  little_endian_to_Z 8 (take (Z.to_nat sz) (drop (Z.to_nat off) bytes)).

Definition store_le (sz : Z) (bytes : list Z) (off v : Z) : list Z :=
  take (Z.to_nat off) bytes ++ Z_to_little_endian sz 8 v ++ drop (Z.to_nat (off + sz)) bytes.

Definition elements (sz : Z) (bytes : list Z) : list Z :=
  (fun i => load_le sz bytes (i * sz)) <$> seqZ 0 (Z.of_nat (length bytes) / sz).

(** A register group: its bytes, the element width, the registers per field and
    the fields per segment.  [VGFRef] borrows it, [VGFRefMut] borrows it
    mutably. *)
Record VGFRef : Type := { value : list Z; sew : Z; lmul : Z; seg : Z }.
Definition set_value (g : VGFRef) (v : list Z) : VGFRef := {| value := v; sew := sew g; lmul := lmul g; seg := seg g |}.

(** [as_slice::<T>] asserts that the width is that of [T]. *)
Definition as_slice {S E} (t : UInt) (g : VGFRef) : M S E (list Z) :=
  assert (sew g =? size_of t) ;;; ret (elements (sew g) (value g)).

(** [VGFRefIterator] and [VGFRefIteratorMut] walk the fields of a segment
    first. *)
Record VGFRefIterator : Type := { current_seg_index : Z; current_inner_index : Z }.

Definition seg_length (g : VGFRef) : Z := lmul g * VLEN_BYTE.

Definition iter_next (g : VGFRef) (it : VGFRefIterator) : option (Z * VGFRefIterator) :=
  let index := current_inner_index it + current_seg_index it * seg_length g in
  let is_last_seg := current_seg_index it + 1 =? seg g in
  if current_inner_index it <? seg_length g then
    Some (index, if is_last_seg
                 then {| current_seg_index := 0; current_inner_index := current_inner_index it + sew g |}
                 else {| current_seg_index := current_seg_index it + 1; current_inner_index := current_inner_index it |})
  else None.

Fixpoint iter_from (fuel : nat) (g : VGFRef) (it : VGFRefIterator) : list Z :=
  match fuel with
  | O => []
  | S fuel => match iter_next g it with
              | Some (o, it') => o :: iter_from fuel g it'
              | None => []
              end
  end.

(** The offsets the iterator yields; there are at most as many as bytes. *)
Definition iter (g : VGFRef) : list Z :=
  iter_from (Z.to_nat (seg g * seg_length g)) g {| current_seg_index := 0; current_inner_index := 0 |}.

(** [for (index, element) in iter.enumerate()], from [index] on. *)
Fixpoint for_enumerate {S E} (index : Z) (l : list Z) (f : Z -> Z -> M S E unit) : M S E unit :=
  match l with
  | [] => ret tt
  | x :: l => f index x ;;; for_enumerate (index + 1) l f
  end.

(** The same with a body that may [break]. *)
Fixpoint for_enumerate_break {S E} (index : Z) (l : list Z) (f : Z -> Z -> M S E bool) : M S E unit :=
  match l with
  | [] => ret tt
  | x :: l => continue <- f index x ;; if continue : bool then for_enumerate_break (index + 1) l f else ret tt
  end.

Section Vector.
Context `{Profile}.

Definition debug_assert {S E} (b : bool) : M S E unit := if debug_assertions then assert b else ret tt.

(** [RVVElemMutTy::set] and [RVVElemTy::get]; an access outside the group is
    undefined behaviour. *)
Definition elem_set {E} (t : UInt) (off v : Z) : M VGFRef E unit :=
  g <- gets id ;;
  debug_assert (sew g =? size_of t) ;;;
  assert ((0 <=? off) && (off + size_of t <=? Z.of_nat (length (value g)))) ;;;
  modify (fun g => set_value g (store_le (size_of t) (value g) off v)).

Definition elem_get {S E} (t : UInt) (g : VGFRef) (off : Z) : M S E Z :=
  debug_assert (sew g =? size_of t) ;;;
  assert ((0 <=? off) && (off + size_of t <=? Z.of_nat (length (value g)))) ;;;
  ret (load_le (size_of t) (value g) off).

(** ** vector_reg_file.rs *)

(** 32 registers of [VLEN_BYTE] bytes. *)
Definition VectorRegFile : Type := list Z.
Definition VectorRegFile_new : VectorRegFile := replicate (Z.to_nat (32 * VLEN_BYTE)) 0.

Definition legal_group (m : Z) : bool := (m =? 1) || (m =? 2) || (m =? 4) || (m =? 8).

(** The checks of [read_as_type] and [get_mut]; the byte offset of the group. *)
Definition group_offset {S} (group_multiplier idx : Z) : M S Exception Z :=
  debug_assert (idx <? 32) ;;;
  if negb (legal_group group_multiplier) then err IllegalInstruction
  else if negb (idx mod group_multiplier =? 0) then err IllegalInstruction
  else assert (idx <? 32) ;;; ret (VLEN_BYTE * idx).

Definition group_bytes (r : VectorRegFile) (off m : Z) : list Z :=
  take (Z.to_nat (VLEN_BYTE * m)) (drop (Z.to_nat off) r).

(** [read_as_type::<u8>(..)], copied by [to_vec]. *)
Definition read_as_type {S} (r : VectorRegFile) (group_multiplier idx : Z) : M S Exception (list Z) :=
  off <- group_offset group_multiplier idx ;; ret (group_bytes r off group_multiplier).

Definition get_ref {S} (r : VectorRegFile) (lmul seg idx : Z) : M S Exception (list Z) :=
  read_as_type r (lmul * seg) idx.

(** [VectorRegFile::write::<T>]: the data of a segmented group, field by field
    of each segment.  [None] when the group is misplaced. *)
Definition write_offsets (sz lmul seg idx : Z) : list Z :=
  lmul_index ← seqZ 0 lmul;
  inner_index ← (fun k => k * sz) <$> seqZ 0 ((VLEN_BYTE + sz - 1) / sz);
  field ← seqZ 0 seg;
  mret (VLEN_BYTE * (idx + lmul_index + field * lmul) + inner_index).

Fixpoint write_all {E} (sz : Z) (offs data : list Z) : M VectorRegFile E unit :=
  match offs, data with
  | [], _ => ret tt
  | o :: offs, x :: data =>
      r <- gets id ;;
      assert (o + sz <=? Z.of_nat (length r)) ;;;
      modify (fun r => store_le sz r o x) ;;; write_all sz offs data
  | _ :: _, [] => panic
  end.

Definition regfile_write {E} (t : UInt) (lmul idx : Z) (data : list Z) (seg : Z) : M VectorRegFile E (option unit) :=
  debug_assert (idx <? 32) ;;;
  debug_assert (legal_group lmul) ;;;
  if 8 <? seg * lmul then ret None
  else assert (negb (lmul * seg =? 0)) ;;;
       if negb (idx mod (lmul * seg) =? 0) then ret None
       else write_all (size_of t) (write_offsets (size_of t) lmul seg idx) data ;;; ret (Some tt).

(** Run code that borrows the group of [get_mut(lmul, idx, seg)] mutably, with
    elements of [w] bytes. *)
Definition put_group (r : VectorRegFile) (off m : Z) (bytes : list Z) : VectorRegFile :=
  take (Z.to_nat off) r ++ bytes ++ drop (Z.to_nat (off + VLEN_BYTE * m)) r.

Definition with_group {A} (idx w lm sg : Z) (m : M VGFRef Exception A) : M VectorRegFile Exception A :=
  off <- group_offset (lm * sg) idx ;;
  zoom (fun r => {| value := group_bytes r off (lm * sg); sew := w; lmul := lm; seg := sg |})
       (fun r g => put_group r off (lm * sg) (value g))
       (g <- gets id ;; assert (Z.of_nat (length (value g)) mod lm =? 0) ;;; m).

(** ** mod.rs: masks *)

Record VecOpMask : Type := {
  mask_bit : option (list Z); op_start : Z; op_length : Z; op_mask_agnostic : bool; op_tail_agnostic : bool
}.

Definition new_with_start {S} (vgr : VectorRegFile) (len : Z) (enable_mask ma ta : bool) (start : Z) : M S Exception VecOpMask :=
  m <- (if enable_mask then v <- read_as_type vgr 1 0 ;; ret (Some v) else ret None) ;;
  ret {| mask_bit := m; op_start := start; op_length := len; op_mask_agnostic := ma; op_tail_agnostic := ta |}.

Definition VecOpMask_new {S} (vgr : VectorRegFile) (len : Z) (enable_mask ma ta : bool) : M S Exception VecOpMask :=
  new_with_start vgr len enable_mask ma ta 0.

Definition bit (k : VecOpMask) (index : Z) : bool :=
  match mask_bit k with
  | None => true
  | Some m => match lookup_z m (index / 8) with
              | Some byte => let inner_bit := shl 8 1 (index mod 8) in Z.land byte inner_bit =? inner_bit
              | None => false
              end
  end.

Definition is_active_body (k : VecOpMask) (index : Z) : bool :=
  (op_start k <=? index) && bit k index && (index <? op_length k).

Definition first_pending_index (k : VecOpMask) : Z := op_start k.

Definition write_end (k : VecOpMask) (capacity : Z) : Z :=
  if op_tail_agnostic k then capacity else Z.min (op_length k) capacity.

Definition should_access (k : VecOpMask) (index : Z) : bool := is_active_body k index.
Definition should_access_ignoring_start (k : VecOpMask) (index : Z) : bool := bit k index && (index <? op_length k).
Definition is_body_index (k : VecOpMask) (index : Z) : bool := index <? op_length k.

(** [dflt] is [T::default()]. *)
Definition mask_value {T} (dflt : T) (k : VecOpMask) (v : T) (index : Z) : option T :=
  if index <? op_start k then None
  else if op_length k <=? index then (if op_tail_agnostic k then Some dflt else None)
  else if bit k index then Some v
  else if op_mask_agnostic k then Some dflt
  else None.

Definition element_load {E} (t : UInt) (k : VecOpMask) (element v index : Z) : M VGFRef E unit :=
  match mask_value 0 k v index with Some x => elem_set t element x | None => ret tt end.

Definition element_load_default {E} (t : UInt) (k : VecOpMask) (element index : Z) : M VGFRef E unit :=
  element_load t k element 0 index.

Definition element_load_default_by_sew {E} (k : VecOpMask) (element index : Z) (e : Vsew) : M VGFRef E unit :=
  element_load_default (ty_of e) k element index.

(** [byte |= bit] and [byte &= !bit]. *)
Definition write_bit (byte i : Z) (v : bool) : Z :=
  let b := shl 8 1 i in if v then Z.lor byte b else Z.land byte (bnot 8 b).

(** [mask[index / 8]] panics outside the register. *)
Definition mask_bit_load {E} (k : VecOpMask) (index : Z) (v : bool) : M VGFRef E unit :=
  match mask_value false k v index with
  | None => ret tt
  | Some x =>
      g <- gets id ;;
      byte <- unwrap (lookup_z (value g) (index / 8)) ;;
      modify (fun g => set_value g (<[Z.to_nat (index / 8) := write_bit byte (index mod 8) x]> (value g)))
  end.

(** ** mod.rs: memory accesses *)

Record Vector : Type := { config : VectorConfig; vector_regfile : VectorRegFile }.
Definition Vector_new : Vector := {| config := VectorConfig_new; vector_regfile := VectorRegFile_new |}.

Definition set_cfg (c : VectorConfig) (v : Vector) : Vector := {| config := c; vector_regfile := vector_regfile v |}.
Definition set_regfile (v : Vector) (r : VectorRegFile) : Vector := {| config := config v; vector_regfile := r |}.

Definition set_config (lm : Vlmul) (sw : Vsew) (ta ma : bool) (l : Z) (v : Vector) : Vector :=
  set_cfg {| vlmul := lm; vsew := sw; tail_agnostic := ta; mask_agnostic := ma;
             fixed_point_accrued_saturation_flag := fixed_point_accrued_saturation_flag (config v);
             fixed_point_rounding_mode := fixed_point_rounding_mode (config v); vl := l |} v.

Definition VectorStrideAddrCal_exec (base stride index : Z) : Z := wrap 64 (base + wrap 64 (index * stride)).

Inductive VectorMemException : Type :=
| VMemory (fault_index : Z) (e : Exception)
| VOther (e : Exception).

Definition VectorMemException_memory (fault_index : Z) (e : MemError) : VectorMemException :=
  VMemory fault_index (from_memory_err e).
Definition fault_index_of (e : VectorMemException) : option Z := match e with VMemory i _ => Some i | VOther _ => None end.
Definition exception_of (e : VectorMemException) : Exception := match e with VMemory _ x | VOther x => x end.

Definition decode_whole_register_count {S} (nf : Z) : M S Exception Z :=
  match nf with 0 => ret 1 | 1 => ret 2 | 3 => ret 4 | 7 => ret 8 | _ => err IllegalInstruction end.

(** [a * b] of width [w]. *)
Definition mul_chk {S E} (w a b : Z) : M S E Z :=
  if overflow_checks && (2 ^ w <=? a * b) then panic else ret (wrap w (a * b)).

Section Memory.
Context {D : Type} `{DeviceTrait D}.

(** An access works on the vector unit and on the memory bus. *)
Abbreviation VMem := (Vector * MemoryMapIO D)%type.
Abbreviation VMemM := (M VMem VectorMemException).
Abbreviation Bus := (M (MemoryMapIO D) VectorMemException).

Definition on_unit {A} (m : M Vector VectorMemException A) : VMemM A := zoom fst (fun s v => (v, snd s)) m.
Definition on_bus {A} (m : M (MemoryMapIO D) VectorMemException A) : VMemM A := zoom snd (fun s b => (fst s, b)) m.

(** Code that holds [get_mut(lmul, vd, seg)] and the bus. *)
Abbreviation VLoad := (M (VGFRef * MemoryMapIO D) VectorMemException).
Definition on_vd {A} (m : M VGFRef VectorMemException A) : VLoad A := zoom fst (fun s g => (g, snd s)) m.
Definition on_mem {A} (index : Z) (m : M (MemoryMapIO D) MemError A) : VLoad A :=
  zoom snd (fun s b => (fst s, b)) (map_err (VectorMemException_memory index) m).

Definition with_vd {A} (vd w lm sg : Z) (m : VLoad A) : VMemM A :=
  off <- map_err VOther (group_offset (lm * sg) vd) ;;
  zoom (fun s => ({| value := group_bytes (vector_regfile (fst s)) off (lm * sg); sew := w; lmul := lm; seg := sg |}, snd s))
       (fun s t => (set_regfile (fst s) (put_group (vector_regfile (fst s)) off (lm * sg) (value (fst t))), snd t))
       (s <- gets fst ;; assert (Z.of_nat (length (value s)) mod lm =? 0) ;;; m).

(** [mem.read_u8(addr)] ... [mem.read_u64(addr)], by width. *)
Definition load_element (t : UInt) (k : VecOpMask) (index element addr : Z) : VLoad unit :=
  v <- on_mem index (read_by_type t addr) ;; on_vd (element_load t k element v index).

(** The loop of the strided loads. *)
Definition stride_load_loop (e : Vsew) (k : VecOpMask) (active_len vstart base stride : Z) : VLoad unit :=
  g <- gets fst ;;
  for_enumerate vstart (drop (Z.to_nat vstart) (iter g)) (fun index element =>
    if (active_len <=? index) || negb (should_access k index) then
      on_vd (element_load_default_by_sew k element index e)
    else load_element (ty_of e) k index element (VectorStrideAddrCal_exec base stride index)).

Definition op_mask {S} (v : Vector) (sg : Z) (enable_mask : bool) : M S VectorMemException VecOpMask :=
  len <- mul_chk 16 (vl (config v)) sg ;;
  map_err VOther (VecOpMask_new (vector_regfile v) len enable_mask (mask_agnostic (config v)) (tail_agnostic (config v))).

Definition stride_load (vd : Z) (eew : Vsew) (sg : Z) (stride : option Z) (enable_mask : bool) (vstart base_addr : Z) : VMemM unit :=
  v <- gets fst ;;
  k <- op_mask v sg enable_mask ;;
  with_vd vd (into_byte_width eew) (get_lmul (vlmul (config v))) sg
    (stride_load_loop eew k (vl (config v) * sg) vstart base_addr (default (into_byte_width eew) stride)).

(** [mask_load] and [mask_store] narrow the configuration for the time of the
    access. *)
Definition with_config {A} (f : VectorConfig -> VectorConfig) (m : VMemM A) : VMemM A :=
  fun s => let saved := config (fst s) in
           let '(r, s') := m (set_cfg (f saved) (fst s), snd s) in
           (r, (set_cfg saved (fst s'), snd s')).

Definition mask_view (c : VectorConfig) : VectorConfig :=
  {| vlmul := M1; vsew := E8; tail_agnostic := tail_agnostic c; mask_agnostic := mask_agnostic c;
     fixed_point_accrued_saturation_flag := fixed_point_accrued_saturation_flag c;
     fixed_point_rounding_mode := fixed_point_rounding_mode c; vl := (vl c + 7) / 8 |}.

Definition mask_load (vd vstart base_addr : Z) : VMemM unit :=
  with_config mask_view (stride_load vd E8 1 None false vstart base_addr).

Definition load_whole_register (vd nf vstart base_addr : Z) : VMemM unit :=
  lm <- map_err VOther (decode_whole_register_count nf) ;;
  with_vd vd (into_byte_width E64) lm 1 (
    g <- gets fst ;;
    for_enumerate vstart (drop (Z.to_nat vstart) (iter g)) (fun index element =>
      let addr := VectorStrideAddrCal_exec base_addr (into_byte_width E64) index in
      v <- on_mem index (read_by_type U64 addr) ;; on_vd (elem_set U64 element v))).

(** [VectorIndexedAddrCal::exec]: the index is read from memory. *)
Definition VectorIndexedAddrCal_exec (base index_arr_base : Z) (index_width : UInt) (index : Z) : M (MemoryMapIO D) MemError Z :=
  let index_addr := wrap 64 (index_arr_base + wrap 64 (size_of index_width * index)) in
  x <- read_by_type index_width index_addr ;; ret (wrap 64 (base + x)).

Definition indexed_ordered_load (vd : Z) (eew : Vsew) (sg index_arr_base : Z) (enable_mask : bool) (vstart base_addr : Z) : VMemM unit :=
  v <- gets fst ;;
  k <- op_mask v sg enable_mask ;;
  let active_len := vl (config v) * sg in
  with_vd vd (into_byte_width (vsew (config v))) (get_lmul (vlmul (config v))) sg (
    g <- gets fst ;;
    for_enumerate vstart (drop (Z.to_nat vstart) (iter g)) (fun index element =>
      if (active_len <=? index) || negb (should_access k index) then
        on_vd (element_load_default_by_sew k element index (vsew (config v)))
      else
        addr <- on_mem index (VectorIndexedAddrCal_exec base_addr index_arr_base (ty_of eew) index) ;;
        load_element (ty_of (vsew (config v))) k index element addr)).

(** Stores hold the group and write the bus. *)
Definition store_element (t : UInt) (k : VecOpMask) (g : VGFRef) (index element addr : Z) : Bus unit :=
  if is_active_body k index then
    v <- elem_get t g element ;; map_err (VectorMemException_memory index) (write_by_type t addr v)
  else ret tt.

Definition vs_group (v : Vector) (vs w lm sg : Z) : VMemM VGFRef :=
  bytes <- map_err VOther (get_ref (vector_regfile v) lm sg vs) ;;
  ret {| value := bytes; sew := w; lmul := lm; seg := sg |}.

Definition stride_store (vs : Z) (eew : Vsew) (sg : Z) (stride : option Z) (enable_mask : bool) (vstart base_addr : Z) : VMemM unit :=
  let step := default (into_byte_width eew) stride in
  v <- gets fst ;;
  g <- vs_group v vs (into_byte_width eew) (get_lmul (vlmul (config v))) sg ;;
  k <- op_mask v sg enable_mask ;;
  let active_len := vl (config v) * sg in
  on_bus (for_enumerate_break vstart (drop (Z.to_nat vstart) (iter g)) (fun index element =>
    if active_len <=? index then ret false
    else if negb (should_access k index) then ret true
    else store_element (ty_of eew) k g index element (VectorStrideAddrCal_exec base_addr step index) ;;; ret true)).

Definition mask_store (vs vstart base_addr : Z) : VMemM unit :=
  with_config mask_view (stride_store vs E8 1 None false vstart base_addr).

Definition indexed_ordered_store (vs : Z) (eew : Vsew) (sg index_arr_base : Z) (enable_mask : bool) (vstart base_addr : Z) : VMemM unit :=
  v <- gets fst ;;
  g <- vs_group v vs (into_byte_width (vsew (config v))) (get_lmul (vlmul (config v))) sg ;;
  k <- op_mask v sg enable_mask ;;
  let active_len := vl (config v) * sg in
  on_bus (for_enumerate_break vstart (drop (Z.to_nat vstart) (iter g)) (fun index element =>
    if active_len <=? index then ret false
    else if negb (should_access k index) then ret true
    else
      addr <- map_err (VectorMemException_memory index) (VectorIndexedAddrCal_exec base_addr index_arr_base (ty_of eew) index) ;;
      store_element (ty_of (vsew (config v))) k g index element addr ;;; ret true)).

Definition store_whole_register (vs nf vstart base_addr : Z) : VMemM unit :=
  lm <- map_err VOther (decode_whole_register_count nf) ;;
  v <- gets fst ;;
  g <- vs_group v vs (into_byte_width E64) lm 1 ;;
  on_bus (for_enumerate vstart (drop (Z.to_nat vstart) (iter g)) (fun index element =>
    x <- elem_get U64 g element ;;
    map_err (VectorMemException_memory index)
      (write_by_type U64 (VectorStrideAddrCal_exec base_addr (into_byte_width E64) index) x))).
End Memory.
End Vector.
