(* ===== verification/VectorInt.v ===== *)
(** * Vector unit: integer operations

    The model of src/src/isa/riscv/vector/arithmetic/integer_impl.rs.  An
    operation works on the destination group it borrows mutably and on copies of
    its source groups.  Each macro of the source is a definition here, with the
    operation on elements as its argument; the types the macros are
    instantiated for are the arguments the tables of [VectorMap] pass. *)

From S2P Require Import Prelude Utils TrapTypes Alu Vector.

(** ** Element operations *)

(** Operations on single bits of a mask register. *)
Definition BitBinary : Type := bool -> bool -> bool.
Definition BitAnd : BitBinary := andb.
Definition BitNand : BitBinary := fun a b => negb (a && b).
Definition BitAndn : BitBinary := fun a b => a && negb b.
Definition BitXor : BitBinary := xorb.
Definition BitOr : BitBinary := orb.
Definition BitNor : BitBinary := fun a b => negb (a || b).
Definition BitOrn : BitBinary := fun a b => a || negb b.
Definition BitXnor : BitBinary := fun a b => negb (xorb a b).

(** Widening operations: the operands are the values [Dst::from] gives, the
    result is the bit pattern of width [BITS t] that is written. *)
Definition ExecWideningAdd (t : UInt) (a b : Z) : ExecResult := Ok (wrap (BITS t) (a + b)).
Definition ExecWideningSub (t : UInt) (a b : Z) : ExecResult := Ok (wrap (BITS t) (a - b)).
Definition ExecWideningMul (t : UInt) (a b : Z) : ExecResult := Ok (wrap (BITS t) (a * b)).

(** Multiply-add: arguments [vs2], [vs1], [vd]. *)
Definition ExecMacc (t : UInt) (vs2 vs1 vd : Z) : ExecResult := Ok (wrap (BITS t) (wrap (BITS t) (vs1 * vs2) + vd)).
Definition ExecNmsac (t : UInt) (vs2 vs1 vd : Z) : ExecResult :=
  Ok (wrap (BITS t) (wrap (BITS t) (- wrap (BITS t) (vs1 * vs2)) + vd)).
Definition ExecMadd (t : UInt) (vs2 vs1 vd : Z) : ExecResult := Ok (wrap (BITS t) (wrap (BITS t) (vs1 * vd) + vs2)).
Definition ExecNmsub (t : UInt) (vs2 vs1 vd : Z) : ExecResult :=
  Ok (wrap (BITS t) (wrap (BITS t) (- wrap (BITS t) (vs1 * vd)) + vs2)).
Definition ExecWmacc (t : UInt) (vs2 vs1 vd : Z) : ExecResult := Ok (wrap (BITS t) (wrap (BITS t) (vs1 * vs2) + vd)).

(** Narrowing shifts; the shift amount has the type of the destination. *)
Definition ExecVNsrl (src shift dst : UInt) (a b : Z) : Z := truncate_from dst (Z.shiftr a (shift_amount shift b)).
Definition ExecVNsra (src shift dst : UInt) (a b : Z) : Z :=
  from_signed_i128 dst (Z.shiftr (as_signed_i128 src a) (shift_amount shift b)).

(** Carries and borrows, computed on [u128]. *)
Definition ExecAdc (t : UInt) (a b : Z) (c : bool) : ExecResult := Ok (truncate_from t (a + b + Z.b2z c)).
Definition ExecSbc (t : UInt) (a b : Z) (c : bool) : ExecResult := Ok (truncate_from t (wrap 128 (a - (b + Z.b2z c)))).
Definition ExecAdcCarry (t : UInt) (a b : Z) (c : bool) : bool := negb (Z.shiftr (a + b + Z.b2z c) (BITS t) =? 0).
Definition ExecAdcCarryNoCarry (t : UInt) (a b : Z) : bool := negb (Z.shiftr (a + b) (BITS t) =? 0).
Definition ExecSbcBorrowNoBorrow (t : UInt) (a b : Z) : bool := a <? b.
Definition ExecSbcBorrow (t : UInt) (a b : Z) (c : bool) : bool := a <? b + Z.b2z c.

(** Comparisons. *)
Definition ExecUnsignedLessEqual (t : UInt) (a b : Z) : bool := a <=? b.
Definition ExecVSignedLess (t : UInt) (a b : Z) : bool := as_signed_i128 t a <? as_signed_i128 t b.
Definition ExecSignedLessEqual (t : UInt) (a b : Z) : bool := as_signed_i128 t a <=? as_signed_i128 t b.
Definition ExecUnsignedGreaterX (t : UInt) (a b : Z) : bool := a <? b.
Definition ExecSignedGreaterX (t : UInt) (a b : Z) : bool := as_signed_i128 t a <? as_signed_i128 t b.

Definition read_mask_bit {S E} (mask : list Z) (index : Z) : M S E bool :=
  byte <- unwrap (lookup_z mask (index / 8)) ;; ret (negb (Z.land byte (shl 8 1 (index mod 8)) =? 0)).

(** [slice[index]] *)
Definition at_ {S E} (l : list Z) (index : Z) : M S E Z := unwrap (lookup_z l index).

(** [dispatch_integer_sew!] and its widening and narrowing variants. *)
Definition dispatch_integer_sew {S E A} (sew : Z) (body : UInt -> M S E A) : M S E A :=
  match sew with 1 => body U8 | 2 => body U16 | 4 => body U32 | 8 => body U64 | _ => panic end.

Definition dispatch_widening_integer_sew {S E A} (src_sew : Z) (body : UInt -> UInt -> M S E A) : M S E A :=
  match src_sew with 1 => body U8 U16 | 2 => body U16 U32 | 4 => body U32 U64 | _ => panic end.

Definition dispatch_narrowing_integer_sew {S E A} (dst_sew : Z) (body : UInt -> UInt -> M S E A) : M S E A :=
  match dst_sew with 1 => body U16 U8 | 2 => body U32 U16 | 4 => body U64 U32 | _ => panic end.

(** The signedness arguments of the widening macros, and [Dst::from] of an
    element or of [x1 as Src]. *)
Inductive Signs : Type := signed | unsigned | signed_unsigned | unsigned_signed.
Definition vs1_signed (s : Signs) : bool := match s with signed | unsigned_signed => true | _ => false end.
Definition vs2_signed (s : Signs) : bool := match s with signed | signed_unsigned => true | _ => false end.
Definition dst_from (sg : bool) (t : UInt) (bits : Z) : Z := if sg then to_signed (BITS t) bits else bits.

Section Ops.
Context `{Profile}.

(** Operations borrow the destination group. *)
Abbreviation VOp := (M VGFRef Exception).

(** [for (index, element) in vd.iter_mut().enumerate()
    { mask.element_load(element, value(index)?, index) }] *)
Definition load_elements (t : UInt) (k : VecOpMask) (f : Z -> VOp Z) : VOp unit :=
  vd <- gets id ;;
  for_enumerate 0 (iter vd) (fun index element => v <- f index ;; element_load t k element v index).

(** *** Single-width operations *)
Definition impl_vector_op_integer_vv_binary (Exec : UInt -> Z -> Z -> ExecResult) (vs1 vs2 : VGFRef) (k : VecOpMask) : VOp unit :=
  vd <- gets id ;;
  assert ((sew vs1 =? sew vs2) && (sew vs1 =? sew vd)) ;;;
  dispatch_integer_sew (sew vd) (fun t =>
    vs1 <- as_slice t vs1 ;; vs2 <- as_slice t vs2 ;;
    load_elements t k (fun index => a <- at_ vs2 index ;; b <- at_ vs1 index ;; lift_res (Exec t a b))).

Definition impl_vector_op_integer_vx_binary (Exec : UInt -> Z -> Z -> ExecResult) (x1 : Z) (vs2 : VGFRef) (k : VecOpMask) : VOp unit :=
  vd <- gets id ;;
  assert (sew vs2 =? sew vd) ;;;
  dispatch_integer_sew (sew vd) (fun t =>
    let scalar := truncate_from t x1 in
    vs2 <- as_slice t vs2 ;;
    load_elements t k (fun index => a <- at_ vs2 index ;; lift_res (Exec t a scalar))).

Definition impl_vector_op_integer_vvv_ternary (Exec : UInt -> Z -> Z -> Z -> ExecResult) (vs1 vs2 old_vd : VGFRef) (k : VecOpMask) : VOp unit :=
  vd <- gets id ;;
  assert ((sew vs1 =? sew vs2) && (sew vs1 =? sew old_vd) && (sew old_vd =? sew vd)) ;;;
  dispatch_integer_sew (sew vd) (fun t =>
    vs1 <- as_slice t vs1 ;; vs2 <- as_slice t vs2 ;; old <- as_slice t old_vd ;;
    load_elements t k (fun index =>
      a <- at_ vs2 index ;; b <- at_ vs1 index ;; c <- at_ old index ;; lift_res (Exec t a b c))).

Definition impl_vector_op_integer_vxv_ternary (Exec : UInt -> Z -> Z -> Z -> ExecResult) (x1 : Z) (vs2 old_vd : VGFRef) (k : VecOpMask) : VOp unit :=
  vd <- gets id ;;
  assert ((sew vs2 =? sew old_vd) && (sew old_vd =? sew vd)) ;;;
  dispatch_integer_sew (sew vd) (fun t =>
    let scalar := truncate_from t x1 in
    vs2 <- as_slice t vs2 ;; old <- as_slice t old_vd ;;
    load_elements t k (fun index => a <- at_ vs2 index ;; c <- at_ old index ;; lift_res (Exec t a scalar c))).

(** *** Mask-register logic: 32-bit chunks of packed bits *)
Definition chunk_bit {S E} (chunks : list Z) (index : Z) : M S E bool :=
  c <- at_ chunks (index / 32) ;; ret (negb (Z.land c (shl 32 1 (index mod 32)) =? 0)).

Fixpoint bit_loop {S E} (f : BitBinary) (vs1 vs2 : list Z) (k : VecOpMask) (indices : list Z) (result : list Z) : M S E (list Z) :=
  match indices with
  | [] => ret result
  | index :: indices =>
      vs1_bit <- chunk_bit vs1 index ;; vs2_bit <- chunk_bit vs2 index ;;
      match mask_value false k (f vs2_bit vs1_bit) index with
      | None => bit_loop f vs1 vs2 k indices result
      | Some v =>
          c <- at_ result (index / 32) ;;
          let b := shl 32 1 (index mod 32) in
          bit_loop f vs1 vs2 k indices
            (<[Z.to_nat (index / 32) := if v : bool then Z.lor c b else Z.land c (bnot 32 b)]> result)
      end
  end.

Definition store_chunks (chunks : list Z) : list Z := chunks ≫= Z_to_little_endian 4 8.

Definition impl_vector_op_bit_vv_binary (f : BitBinary) (vs1 vs2 : VGFRef) (k : VecOpMask) : VOp unit :=
  vd <- gets id ;;
  debug_assert (sew vs1 =? 4) ;;; debug_assert (sew vs2 =? 4) ;;; debug_assert (sew vd =? 4) ;;;
  vs1 <- as_slice U32 vs1 ;; vs2 <- as_slice U32 vs2 ;; result <- as_slice U32 vd ;;
  debug_assert ((Z.of_nat (length vs1) =? Z.of_nat (length vs2)) && (Z.of_nat (length vs2) =? Z.of_nat (length result))) ;;;
  let bit_capacity := Z.of_nat (length result) * 32 in
  let bit_start := Z.min (first_pending_index k) bit_capacity in
  let bit_end := write_end k bit_capacity in
  result <- bit_loop f vs1 vs2 k (seqZ bit_start (bit_end - bit_start)) result ;;
  modify (fun vd => set_value vd (store_chunks result)).

(** *** Widening operations *)
Definition vector_op_widening_vv_binary (Exec : UInt -> Z -> Z -> ExecResult) (sg : Signs) (src dst : UInt)
    (vs1 vs2 : VGFRef) (k : VecOpMask) : VOp unit :=
  vs1 <- as_slice src vs1 ;; vs2 <- as_slice src vs2 ;;
  load_elements dst k (fun index =>
    a <- at_ vs2 index ;; b <- at_ vs1 index ;;
    lift_res (Exec dst (dst_from (vs2_signed sg) src a) (dst_from (vs1_signed sg) src b))).

Definition vector_op_widening_vx_binary (Exec : UInt -> Z -> Z -> ExecResult) (sg : Signs) (src dst : UInt)
    (x1 : Z) (vs2 : VGFRef) (k : VecOpMask) : VOp unit :=
  let scalar := dst_from (vs1_signed sg) src (truncate_from src x1) in
  vs2 <- as_slice src vs2 ;;
  load_elements dst k (fun index => a <- at_ vs2 index ;; lift_res (Exec dst (dst_from (vs2_signed sg) src a) scalar)).

Definition vector_op_widening_vvv_ternary (Exec : UInt -> Z -> Z -> Z -> ExecResult) (sg : Signs) (src dst : UInt)
    (vs1 vs2 old_vd : VGFRef) (k : VecOpMask) : VOp unit :=
  vs1 <- as_slice src vs1 ;; vs2 <- as_slice src vs2 ;; old <- as_slice dst old_vd ;;
  load_elements dst k (fun index =>
    a <- at_ vs2 index ;; b <- at_ vs1 index ;; c <- at_ old index ;;
    lift_res (Exec dst (dst_from (vs2_signed sg) src a) (dst_from (vs1_signed sg) src b) c)).

Definition vector_op_widening_vxv_ternary (Exec : UInt -> Z -> Z -> Z -> ExecResult) (sg : Signs) (src dst : UInt)
    (x1 : Z) (vs2 old_vd : VGFRef) (k : VecOpMask) : VOp unit :=
  let scalar := dst_from (vs1_signed sg) src (truncate_from src x1) in
  vs2 <- as_slice src vs2 ;; old <- as_slice dst old_vd ;;
  load_elements dst k (fun index =>
    a <- at_ vs2 index ;; c <- at_ old index ;; lift_res (Exec dst (dst_from (vs2_signed sg) src a) scalar c)).

Definition vector_op_widening_wv_binary (Exec : UInt -> Z -> Z -> ExecResult) (sg : Signs) (src dst : UInt)
    (vs1 vs2 : VGFRef) (k : VecOpMask) : VOp unit :=
  vs1 <- as_slice src vs1 ;; vs2 <- as_slice dst vs2 ;;
  load_elements dst k (fun index =>
    a <- at_ vs2 index ;; b <- at_ vs1 index ;;
    lift_res (Exec dst (dst_from (vs2_signed sg) dst a) (dst_from (vs1_signed sg) src b))).

Definition vector_op_widening_wx_binary (Exec : UInt -> Z -> Z -> ExecResult) (sg : Signs) (src dst : UInt)
    (x1 : Z) (vs2 : VGFRef) (k : VecOpMask) : VOp unit :=
  let scalar := dst_from (vs1_signed sg) src (truncate_from src x1) in
  vs2 <- as_slice dst vs2 ;;
  load_elements dst k (fun index => a <- at_ vs2 index ;; lift_res (Exec dst (dst_from (vs2_signed sg) dst a) scalar)).

Definition impl_vector_op_widening_integer_vv (Exec : UInt -> Z -> Z -> ExecResult) (sg : Signs) (vs1 vs2 : VGFRef) (k : VecOpMask) : VOp unit :=
  vd <- gets id ;;
  assert ((sew vs1 =? sew vs2) && (sew vd =? sew vs2 * 2)) ;;;
  dispatch_widening_integer_sew (sew vs2) (fun src dst => vector_op_widening_vv_binary Exec sg src dst vs1 vs2 k).

Definition impl_vector_op_widening_integer_vx (Exec : UInt -> Z -> Z -> ExecResult) (sg : Signs) (x1 : Z) (vs2 : VGFRef) (k : VecOpMask) : VOp unit :=
  vd <- gets id ;;
  assert (sew vd =? sew vs2 * 2) ;;;
  dispatch_widening_integer_sew (sew vs2) (fun src dst => vector_op_widening_vx_binary Exec sg src dst x1 vs2 k).

Definition impl_vector_op_widening_integer_vvv (Exec : UInt -> Z -> Z -> Z -> ExecResult) (sg : Signs) (vs1 vs2 old_vd : VGFRef) (k : VecOpMask) : VOp unit :=
  vd <- gets id ;;
  assert ((sew vs1 =? sew vs2) && (sew vd =? sew vs2 * 2) && (sew old_vd =? sew vd)) ;;;
  dispatch_widening_integer_sew (sew vs2) (fun src dst => vector_op_widening_vvv_ternary Exec sg src dst vs1 vs2 old_vd k).

Definition impl_vector_op_widening_integer_vxv (Exec : UInt -> Z -> Z -> Z -> ExecResult) (sg : Signs) (x1 : Z) (vs2 old_vd : VGFRef) (k : VecOpMask) : VOp unit :=
  vd <- gets id ;;
  assert ((sew vd =? sew vs2 * 2) && (sew old_vd =? sew vd)) ;;;
  dispatch_widening_integer_sew (sew vs2) (fun src dst => vector_op_widening_vxv_ternary Exec sg src dst x1 vs2 old_vd k).

Definition impl_vector_op_widening_integer_wv (Exec : UInt -> Z -> Z -> ExecResult) (sg : Signs) (vs1 vs2 : VGFRef) (k : VecOpMask) : VOp unit :=
  vd <- gets id ;;
  assert ((sew vs1 * 2 =? sew vs2) && (sew vs2 =? sew vd)) ;;;
  dispatch_widening_integer_sew (sew vs1) (fun src dst => vector_op_widening_wv_binary Exec sg src dst vs1 vs2 k).

Definition impl_vector_op_widening_integer_wx (Exec : UInt -> Z -> Z -> ExecResult) (sg : Signs) (x1 : Z) (vs2 : VGFRef) (k : VecOpMask) : VOp unit :=
  vd <- gets id ;;
  assert (sew vs2 =? sew vd) ;;;
  dispatch_widening_integer_sew (sew vd / 2) (fun src dst => vector_op_widening_wx_binary Exec sg src dst x1 vs2 k).

(** *** Narrowing shifts *)

(** [for (index, element) in vd.iter_mut().take(n).enumerate()] *)
Definition load_elements_take (n : Z) (t : UInt) (k : VecOpMask) (f : Z -> VOp Z) : VOp unit :=
  vd <- gets id ;;
  for_enumerate 0 (take (Z.to_nat n) (iter vd)) (fun index element => v <- f index ;; element_load t k element v index).

Definition impl_vector_op_integer_narrowing_wv_binary (Exec : UInt -> UInt -> UInt -> Z -> Z -> Z) (vs1 vs2 : VGFRef) (k : VecOpMask) : VOp unit :=
  vd <- gets id ;;
  assert ((sew vs1 =? sew vd) && (sew vs2 =? sew vd * 2)) ;;;
  dispatch_narrowing_integer_sew (sew vd) (fun src dst =>
    vs1 <- as_slice dst vs1 ;; vs2 <- as_slice src vs2 ;; out <- as_slice dst vd ;;
    debug_assert (Z.of_nat (length vs1) =? Z.of_nat (length out)) ;;;
    debug_assert (Z.of_nat (length vs2) <=? Z.of_nat (length out)) ;;;
    load_elements_take (Z.of_nat (length vs2)) dst k (fun index =>
      a <- at_ vs2 index ;; b <- at_ vs1 index ;; ret (Exec src dst dst a b))).

Definition impl_vector_op_integer_narrowing_vx_binary (Exec : UInt -> UInt -> UInt -> Z -> Z -> Z) (x1 : Z) (vs2 : VGFRef) (k : VecOpMask) : VOp unit :=
  vd <- gets id ;;
  assert (sew vs2 =? sew vd * 2) ;;;
  dispatch_narrowing_integer_sew (sew vd) (fun src dst =>
    vs2 <- as_slice src vs2 ;;
    let shift := truncate_from dst x1 in
    out <- as_slice dst vd ;;
    debug_assert (Z.of_nat (length vs2) <=? Z.of_nat (length out)) ;;;
    load_elements_take (Z.of_nat (length vs2)) dst k (fun index => a <- at_ vs2 index ;; ret (Exec src dst dst a shift))).

(** *** Extensions and moves *)

(** The pairs of widths the macro is instantiated with, by factor. *)
Definition ext_types (factor src_sew dst_sew : Z) : option (UInt * UInt) :=
  match factor, src_sew, dst_sew with
  | 2, 1, 2 => Some (U8, U16) | 2, 2, 4 => Some (U16, U32) | 2, 4, 8 => Some (U32, U64)
  | 4, 1, 4 => Some (U8, U32) | 4, 2, 8 => Some (U16, U64)
  | 8, 1, 8 => Some (U8, U64)
  | _, _, _ => None
  end.

Definition impl_vector_op_integer_v_unary_ext (Exec : UInt -> UInt -> Z -> ExecResult) (factor : Z) (vs2 : VGFRef) (k : VecOpMask) : VOp unit :=
  vd <- gets id ;;
  assert (sew vd =? sew vs2 * factor) ;;;
  types <- unwrap (ext_types factor (sew vs2) (sew vd)) ;;
  vs2 <- as_slice (fst types) vs2 ;;
  load_elements (snd types) k (fun index => a <- at_ vs2 index ;; lift_res (Exec (snd types) (fst types) a)).

(** [VectorOpIntegerV for ExecMove<T>] *)
Definition ExecMove_v (t : UInt) (vs2 : VGFRef) (k : VecOpMask) : VOp unit :=
  vd <- gets id ;;
  assert ((sew vs2 =? size_of t) && (sew vd =? size_of t)) ;;;
  vs2 <- as_slice t vs2 ;;
  load_elements t k (fun index => a <- at_ vs2 index ;; lift_res (ExecMove a)).

(** *** Add with carry, subtract with borrow *)
Definition impl_vector_op_integer_vvm_binary (Exec : UInt -> Z -> Z -> bool -> ExecResult) (vs1 vs2 v0 : VGFRef) (k : VecOpMask) : VOp unit :=
  vd <- gets id ;;
  assert ((sew vs1 =? sew vs2) && (sew vs1 =? sew vd)) ;;;
  carry <- as_slice U8 v0 ;;
  dispatch_integer_sew (sew vd) (fun t =>
    vs1 <- as_slice t vs1 ;; vs2 <- as_slice t vs2 ;;
    load_elements t k (fun index =>
      a <- at_ vs2 index ;; b <- at_ vs1 index ;; c <- read_mask_bit carry index ;; lift_res (Exec t a b c))).

Definition impl_vector_op_integer_vxm_binary (Exec : UInt -> Z -> Z -> bool -> ExecResult) (x1 : Z) (vs2 v0 : VGFRef) (k : VecOpMask) : VOp unit :=
  vd <- gets id ;;
  assert (sew vs2 =? sew vd) ;;;
  carry <- as_slice U8 v0 ;;
  dispatch_integer_sew (sew vd) (fun t =>
    let scalar := truncate_from t x1 in
    vs2 <- as_slice t vs2 ;;
    load_elements t k (fun index => a <- at_ vs2 index ;; c <- read_mask_bit carry index ;; lift_res (Exec t a scalar c))).

(** *** Operations whose result is a mask *)

(** [for index in 0..n { op_mask.mask_bit_load(mask, index, value(index)) }] *)
Definition load_mask_bits (n : Z) (k : VecOpMask) (f : Z -> VOp bool) : VOp unit :=
  for_enumerate 0 (seqZ 0 n) (fun index _ => v <- f index ;; mask_bit_load k index v).

Definition impl_vector_op_integer_mask_vv_binary (Exec : UInt -> Z -> Z -> bool) (vs1 vs2 : VGFRef) (k : VecOpMask) : VOp unit :=
  vd <- gets id ;;
  assert (sew vs1 =? sew vs2) ;;;
  _ <- as_slice U8 vd ;;
  dispatch_integer_sew (sew vs2) (fun t =>
    vs1 <- as_slice t vs1 ;; vs2 <- as_slice t vs2 ;;
    load_mask_bits (Z.of_nat (length vs2)) k (fun index => a <- at_ vs2 index ;; b <- at_ vs1 index ;; ret (Exec t a b))).

Definition impl_vector_op_integer_mask_vx_binary (Exec : UInt -> Z -> Z -> bool) (x1 : Z) (vs2 : VGFRef) (k : VecOpMask) : VOp unit :=
  vd <- gets id ;;
  _ <- as_slice U8 vd ;;
  dispatch_integer_sew (sew vs2) (fun t =>
    let scalar := truncate_from t x1 in
    vs2 <- as_slice t vs2 ;;
    load_mask_bits (Z.of_nat (length vs2)) k (fun index => a <- at_ vs2 index ;; ret (Exec t a scalar))).

Definition impl_vector_op_integer_mask_vvm_binary (Exec : UInt -> Z -> Z -> bool -> bool) (vs1 vs2 v0 : VGFRef) (k : VecOpMask) : VOp unit :=
  vd <- gets id ;;
  assert (sew vs1 =? sew vs2) ;;;
  carry <- as_slice U8 v0 ;; _ <- as_slice U8 vd ;;
  dispatch_integer_sew (sew vs2) (fun t =>
    vs1 <- as_slice t vs1 ;; vs2 <- as_slice t vs2 ;;
    load_mask_bits (Z.of_nat (length vs2)) k (fun index =>
      a <- at_ vs2 index ;; b <- at_ vs1 index ;; c <- read_mask_bit carry index ;; ret (Exec t a b c))).

Definition impl_vector_op_integer_mask_vxm_binary (Exec : UInt -> Z -> Z -> bool -> bool) (x1 : Z) (vs2 v0 : VGFRef) (k : VecOpMask) : VOp unit :=
  vd <- gets id ;;
  carry <- as_slice U8 v0 ;; _ <- as_slice U8 vd ;;
  dispatch_integer_sew (sew vs2) (fun t =>
    let scalar := truncate_from t x1 in
    vs2 <- as_slice t vs2 ;;
    load_mask_bits (Z.of_nat (length vs2)) k (fun index =>
      a <- at_ vs2 index ;; c <- read_mask_bit carry index ;; ret (Exec t a scalar c))).

(** *** Gather, slide, merge *)
Definition vector_gather_value (vs2 : list Z) (vs1_as_index : Z) : Z := default 0 (lookup_z vs2 vs1_as_index).

Definition vector_op_gather_vv (idx t : UInt) (vs1 vs2 : VGFRef) (k : VecOpMask) : VOp unit :=
  vs1 <- as_slice idx vs1 ;; vs2 <- as_slice t vs2 ;;
  load_elements t k (fun index => i <- at_ vs1 index ;; ret (vector_gather_value vs2 i)).

Definition vector_op_gather_vx (t : UInt) (x1 : Z) (vs2 : VGFRef) (k : VecOpMask) : VOp unit :=
  vs2 <- as_slice t vs2 ;;
  let v := vector_gather_value vs2 x1 in
  load_elements t k (fun _ => ret v).

Definition RGatherVV (vs1 vs2 : VGFRef) (k : VecOpMask) : VOp unit :=
  vd <- gets id ;;
  assert ((sew vs1 =? sew vs2) && (sew vs2 =? sew vd)) ;;;
  dispatch_integer_sew (sew vd) (fun t => vector_op_gather_vv t t vs1 vs2 k).

Definition RGatherVX (x1 : Z) (vs2 : VGFRef) (k : VecOpMask) : VOp unit :=
  vd <- gets id ;;
  assert (sew vs2 =? sew vd) ;;;
  dispatch_integer_sew (sew vd) (fun t => vector_op_gather_vx t x1 vs2 k).

Definition RGatherEI16VV (vs1 vs2 : VGFRef) (k : VecOpMask) : VOp unit :=
  vd <- gets id ;;
  assert ((sew vs1 =? 2) && (sew vs2 =? sew vd)) ;;;
  dispatch_integer_sew (sew vd) (fun t => vector_op_gather_vv U16 t vs1 vs2 k).

Definition vector_op_slideup (t : UInt) (offset : Z) (vs2 : VGFRef) (k : VecOpMask) : VOp unit :=
  vs2 <- as_slice t vs2 ;;
  vd <- gets id ;;
  for_enumerate 0 (iter vd) (fun index element =>
    if index <? offset then ret tt
    else element_load t k element (default 0 (lookup_z vs2 (index - offset))) index).

Definition vector_op_slidedown (t : UInt) (offset : Z) (vs2 : VGFRef) (k : VecOpMask) : VOp unit :=
  vs2 <- as_slice t vs2 ;;
  load_elements t k (fun index => i <- add_chk 64 index offset ;; ret (default 0 (lookup_z vs2 i))).

Definition vector_op_slide1up (t : UInt) (x1 : Z) (vs2 : VGFRef) (k : VecOpMask) : VOp unit :=
  vs2 <- as_slice t vs2 ;;
  load_elements t k (fun index =>
    ret (if index =? 0 then truncate_from t x1 else default 0 (lookup_z vs2 (index - 1)))).

Definition vector_op_slide1down (t : UInt) (x1 : Z) (vs2 : VGFRef) (k : VecOpMask) : VOp unit :=
  vs2 <- as_slice t vs2 ;;
  load_elements t k (fun index =>
    ret (if is_body_index k index && negb (is_body_index k (index + 1)) then truncate_from t x1
         else default 0 (lookup_z vs2 (index + 1)))).

Definition SlideUp (x1 : Z) (vs2 old_vd : VGFRef) (k : VecOpMask) : VOp unit :=
  vd <- gets id ;;
  assert ((sew vs2 =? sew old_vd) && (sew old_vd =? sew vd)) ;;;
  dispatch_integer_sew (sew vd) (fun t => vector_op_slideup t x1 vs2 k).

Definition SlideDown (x1 : Z) (vs2 : VGFRef) (k : VecOpMask) : VOp unit :=
  vd <- gets id ;;
  assert (sew vs2 =? sew vd) ;;;
  dispatch_integer_sew (sew vd) (fun t => vector_op_slidedown t x1 vs2 k).

Definition Slide1Up (x1 : Z) (vs2 old_vd : VGFRef) (k : VecOpMask) : VOp unit :=
  vd <- gets id ;;
  assert ((sew vs2 =? sew old_vd) && (sew old_vd =? sew vd)) ;;;
  dispatch_integer_sew (sew vd) (fun t => vector_op_slide1up t x1 vs2 k).

Definition Slide1Down (x1 : Z) (vs2 : VGFRef) (k : VecOpMask) : VOp unit :=
  vd <- gets id ;;
  assert (sew vs2 =? sew vd) ;;;
  dispatch_integer_sew (sew vd) (fun t => vector_op_slide1down t x1 vs2 k).

Definition vector_op_merge_vvm (t : UInt) (vs1 vs2 v0 : VGFRef) (k : VecOpMask) : VOp unit :=
  merge_mask <- as_slice U8 v0 ;; vs1 <- as_slice t vs1 ;; vs2 <- as_slice t vs2 ;;
  vd <- gets id ;; out <- as_slice t vd ;;
  debug_assert (Z.of_nat (length vs1) =? Z.of_nat (length out)) ;;;
  debug_assert (Z.of_nat (length vs2) =? Z.of_nat (length out)) ;;;
  load_elements t k (fun index => b <- read_mask_bit merge_mask index ;; if b : bool then at_ vs1 index else at_ vs2 index).

Definition vector_op_merge_vxm (t : UInt) (scalar : Z) (vs2 v0 : VGFRef) (k : VecOpMask) : VOp unit :=
  merge_mask <- as_slice U8 v0 ;; vs2 <- as_slice t vs2 ;;
  vd <- gets id ;; out <- as_slice t vd ;;
  debug_assert (Z.of_nat (length vs2) =? Z.of_nat (length out)) ;;;
  load_elements t k (fun index => b <- read_mask_bit merge_mask index ;; if b : bool then ret scalar else at_ vs2 index).

Definition MergeVVM (vs1 vs2 v0 : VGFRef) (k : VecOpMask) : VOp unit :=
  vd <- gets id ;;
  assert ((sew vs1 =? sew vs2) && (sew vs2 =? sew vd)) ;;;
  dispatch_integer_sew (sew vd) (fun t => vector_op_merge_vvm t vs1 vs2 v0 k).

Definition MergeVXM (x1 : Z) (vs2 v0 : VGFRef) (k : VecOpMask) : VOp unit :=
  vd <- gets id ;;
  assert (sew vs2 =? sew vd) ;;;
  dispatch_integer_sew (sew vd) (fun t => vector_op_merge_vxm t (truncate_from t x1) vs2 v0 k).

(** *** Operations on a mask register *)
Fixpoint popcount_loop {S E} (source_mask : list Z) (k : VecOpMask) (indices : list Z) (count : Z) : M S E Z :=
  match indices with
  | [] => ret count
  | index :: indices =>
      b <- (if should_access k index then read_mask_bit source_mask index else ret false) ;;
      popcount_loop source_mask k indices (if b : bool then count + 1 else count)
  end.

Definition vector_op_mask_popcount {S E} (vs2 : VGFRef) (k : VecOpMask) : M S E Z :=
  source_mask <- as_slice U8 vs2 ;; popcount_loop source_mask k (seqZ 0 (VLEN_BYTE * 8)) 0.

Fixpoint first_loop {S E} (source_mask : list Z) (k : VecOpMask) (indices : list Z) : M S E Z :=
  match indices with
  | [] => ret (MAX U64)
  | index :: indices =>
      b <- (if should_access k index then read_mask_bit source_mask index else ret false) ;;
      if b : bool then ret index else first_loop source_mask k indices
  end.

Definition vector_op_mask_first {S E} (vs2 : VGFRef) (k : VecOpMask) : M S E Z :=
  source_mask <- as_slice U8 vs2 ;; first_loop source_mask k (seqZ 0 (VLEN_BYTE * 8)).

Inductive MaskBeforeFirstMode : Type := Before | Including | Only.

Definition active_source_bit {S E} (source_mask : list Z) (k : VecOpMask) (index : Z) : M S E bool :=
  if should_access_ignoring_start k index then read_mask_bit source_mask index else ret false.

(** [(0..n).any(..)] *)
Fixpoint any_source_bit {S E} (source_mask : list Z) (k : VecOpMask) (indices : list Z) : M S E bool :=
  match indices with
  | [] => ret false
  | index :: indices => b <- active_source_bit source_mask k index ;; if b : bool then ret true else any_source_bit source_mask k indices
  end.

Definition before_first_value (mode : MaskBeforeFirstMode) (seen_first active : bool) : bool :=
  match mode with
  | Before => negb seen_first && negb active
  | Including => negb seen_first
  | Only => negb seen_first && active
  end.

Fixpoint before_first_loop (mode : MaskBeforeFirstMode) (source_mask : list Z) (k : VecOpMask) (indices : list Z) (seen_first : bool) : VOp unit :=
  match indices with
  | [] => ret tt
  | index :: indices =>
      active <- active_source_bit source_mask k index ;;
      mask_bit_load k index (before_first_value mode seen_first active) ;;;
      before_first_loop mode source_mask k indices (seen_first || active)
  end.

Definition vector_op_mask_before_first (mode : MaskBeforeFirstMode) (vs2 : VGFRef) (k : VecOpMask) : VOp unit :=
  source_mask <- as_slice U8 vs2 ;;
  vd <- gets id ;; dest_mask <- as_slice U8 vd ;;
  let bit_capacity := Z.of_nat (length dest_mask) * 8 in
  let first := Z.min (first_pending_index k) bit_capacity in
  seen_first <- any_source_bit source_mask k (seqZ 0 first) ;;
  before_first_loop mode source_mask k (seqZ first (write_end k bit_capacity - first)) seen_first.

Fixpoint iota_loop (t : UInt) (source_mask : list Z) (k : VecOpMask) (index : Z) (elements : list Z) (count : Z) : VOp unit :=
  match elements with
  | [] => ret tt
  | element :: elements =>
      element_load t k element (truncate_from t count) index ;;;
      b <- (if is_body_index k index then read_mask_bit source_mask index else ret false) ;;
      iota_loop t source_mask k (index + 1) elements (if b : bool then count + 1 else count)
  end.

Definition vector_op_iota (t : UInt) (vs2 : VGFRef) (k : VecOpMask) : VOp unit :=
  source_mask <- as_slice U8 vs2 ;; vd <- gets id ;; iota_loop t source_mask k 0 (iter vd) 0.

Definition IotaM (vs2 : VGFRef) (k : VecOpMask) : VOp unit :=
  vd <- gets id ;; dispatch_integer_sew (sew vd) (fun t => vector_op_iota t vs2 k).

Definition vector_op_index (t : UInt) (k : VecOpMask) : VOp unit :=
  load_elements t k (fun index => ret (truncate_from t index)).

Definition IdV (k : VecOpMask) : VOp unit :=
  vd <- gets id ;; dispatch_integer_sew (sew vd) (fun t => vector_op_index t k).

(** The first loop of [vector_op_compress]; it returns what is left of the
    destination iterator and the number of elements written. *)
Fixpoint compress_loop (t : UInt) (select_mask vs2 : list Z) (tail_mask : VecOpMask) (sources : list Z)
    (dest_index : Z) (dest_iter : list Z) : VOp (Z * list Z) :=
  match sources with
  | [] => ret (dest_index, dest_iter)
  | source_index :: sources =>
      b <- read_mask_bit select_mask source_index ;;
      if b : bool then
        match dest_iter with
        | [] => panic
        | element :: dest_iter =>
            v <- at_ vs2 source_index ;;
            element_load t tail_mask element v dest_index ;;;
            compress_loop t select_mask vs2 tail_mask sources (dest_index + 1) dest_iter
        end
      else compress_loop t select_mask vs2 tail_mask sources dest_index dest_iter
  end.

Definition vector_op_compress (t : UInt) (vs1 vs2 : VGFRef) (vl : Z) (tail_mask : VecOpMask) : VOp unit :=
  select_mask <- as_slice U8 vs1 ;; vs2 <- as_slice t vs2 ;;
  vd <- gets id ;;
  rest <- compress_loop t select_mask vs2 tail_mask (seqZ 0 vl) 0 (iter vd) ;;
  for_enumerate (fst rest) (snd rest) (fun index element => element_load_default t tail_mask element index).

Definition CompressVm (vs1 vs2 : VGFRef) (vl : Z) (tail_mask : VecOpMask) : VOp unit :=
  vd <- gets id ;;
  assert ((sew vs1 =? 1) && (sew vs2 =? sew vd)) ;;;
  dispatch_integer_sew (sew vd) (fun t => vector_op_compress t vs1 vs2 vl tail_mask).
End Ops.
