(* ===== verification/VectorArith.v ===== *)
(** * Vector unit: the operations on the register file

    The model of src/src/isa/riscv/vector/arithmetic/mod.rs: register grouping,
    overlap rules, and one function per operand shape, which fetches the source
    groups, builds the mask and runs an operation of [VectorInt] on the
    destination group. *)

From S2P Require Import Prelude Utils TrapTypes Alu Vector VectorInt.

(** [u8::saturating_add] *)
Definition saturating_add (a b : Z) : Z := Z.min 255 (a + b).

Definition vector_register_group_overlaps (lhs lhs_lmul rhs rhs_lmul : Z) : bool :=
  (lhs <? saturating_add rhs rhs_lmul) && (rhs <? saturating_add lhs lhs_lmul).

Definition lmul_ratio (l : Vlmul) : Z * Z :=
  match l with
  | M1 => (1, 1) | M2 => (2, 1) | M4 => (4, 1) | M8 => (8, 1)
  | Mf2 => (1, 2) | Mf4 => (1, 4) | Mf8 => (1, 8)
  end.

Definition physical_lmul_from_ratio {S} (numerator denominator : Z) : M S Exception Z :=
  let physical_lmul := Z.max ((numerator + denominator - 1) / denominator) 1 in
  if 8 <? physical_lmul then err IllegalInstruction else ret physical_lmul.

Definition gather_ei16_index_lmul {S} (l : Vlmul) (sew : Z) : M S Exception Z :=
  let '(lmul_num, lmul_den) := lmul_ratio l in
  physical_lmul_from_ratio (lmul_num * into_byte_width E16) (lmul_den * sew).

Definition narrowing_source_lmul {S} (l : Vlmul) : M S Exception Z :=
  let '(lmul_num, lmul_den) := lmul_ratio l in
  physical_lmul_from_ratio (lmul_num * 2) lmul_den.

Section Drivers.
Context `{Profile}.

Abbreviation VecM := (M Vector Exception).
Abbreviation VOp := (M VGFRef Exception).

Definition cfg_sew : VecM Z := gets (fun v => into_byte_width (vsew (config v))).
Definition cfg_lmul : VecM Z := gets (fun v => get_lmul (vlmul (config v))).

(** [VGFRef::new(&get_ref(lm, 1, idx)?.to_vec(), w, lm, 1)] *)
Definition source (idx w lm : Z) : VecM VGFRef :=
  v <- gets id ;;
  bytes <- get_ref (vector_regfile v) lm 1 idx ;;
  ret {| value := bytes; sew := w; lmul := lm; seg := 1 |}.

(** [Op::exec(.., &mut VGFRefMut::new(get_mut(lm, vd, 1)?, w, lm, 1), ..)] *)
Definition into_vd {A} (vd w lm : Z) (op : VOp A) : VecM A :=
  zoom vector_regfile set_regfile (with_group vd w lm 1 op).

(** The mask of an operation over the configured vector length. *)
Definition arith_mask (enable_mask : bool) (vstart : Z) : VecM VecOpMask :=
  v <- gets id ;;
  new_with_start (vector_regfile v) (vl (config v)) enable_mask
    (mask_agnostic (config v)) (tail_agnostic (config v)) vstart.

Definition exec_integer_vv (Op : VGFRef -> VGFRef -> VecOpMask -> VOp unit) (vs1 vs2 vd : Z) (enable_mask : bool) (vstart : Z) : VecM unit :=
  sew <- cfg_sew ;; lmul <- cfg_lmul ;;
  vs1_ref <- source vs1 sew lmul ;; vs2_ref <- source vs2 sew lmul ;;
  mask <- arith_mask enable_mask vstart ;;
  into_vd vd sew lmul (Op vs1_ref vs2_ref mask).

Definition exec_integer_gather_vv (Op : VGFRef -> VGFRef -> VecOpMask -> VOp unit) (vs1 vs2 vd : Z) (enable_mask : bool) (vstart : Z) : VecM unit :=
  sew <- cfg_sew ;; lmul <- cfg_lmul ;;
  if vector_register_group_overlaps vd lmul vs1 lmul || vector_register_group_overlaps vd lmul vs2 lmul then err IllegalInstruction
  else
    vs1_ref <- source vs1 sew lmul ;; vs2_ref <- source vs2 sew lmul ;;
    mask <- arith_mask enable_mask vstart ;;
    into_vd vd sew lmul (Op vs1_ref vs2_ref mask).

Definition exec_integer_gather_ei16_vv (Op : VGFRef -> VGFRef -> VecOpMask -> VOp unit) (vs1 vs2 vd : Z) (enable_mask : bool) (vstart : Z) : VecM unit :=
  sew <- cfg_sew ;; lmul <- cfg_lmul ;;
  v <- gets id ;;
  index_lmul <- gather_ei16_index_lmul (vlmul (config v)) sew ;;
  if vector_register_group_overlaps vd lmul vs1 index_lmul || vector_register_group_overlaps vd lmul vs2 lmul then err IllegalInstruction
  else
    vs1_ref <- source vs1 (into_byte_width E16) index_lmul ;; vs2_ref <- source vs2 sew lmul ;;
    mask <- arith_mask enable_mask vstart ;;
    into_vd vd sew lmul (Op vs1_ref vs2_ref mask).

(** [(0..vl).filter(..).count()] *)
Fixpoint selected_count {S E} (select : list Z) (indices : list Z) : M S E Z :=
  match indices with
  | [] => ret 0
  | index :: indices =>
      b <- read_mask_bit select index ;; n <- selected_count select indices ;;
      ret (if b : bool then n + 1 else n)
  end.

Definition exec_compress (Op : VGFRef -> VGFRef -> Z -> VecOpMask -> VOp unit) (vs1 vs2 vd vstart : Z) : VecM unit :=
  if negb (vstart =? 0) then err IllegalInstruction
  else
    sew <- cfg_sew ;; lmul <- cfg_lmul ;;
    if vector_register_group_overlaps vd lmul vs2 lmul || vector_register_group_overlaps vd lmul vs1 1 then err IllegalInstruction
    else
      vs1_ref <- source vs1 (into_byte_width E8) 1 ;; vs2_ref <- source vs2 sew lmul ;;
      v <- gets id ;;
      n <- selected_count (value vs1_ref) (seqZ 0 (vl (config v))) ;;
      tail_mask <- new_with_start (vector_regfile v) (wrap 16 n) false (mask_agnostic (config v)) (tail_agnostic (config v)) 0 ;;
      into_vd vd sew lmul (Op vs1_ref vs2_ref (vl (config v)) tail_mask).

Definition exec_bit_vv (Op : VGFRef -> VGFRef -> VecOpMask -> VOp unit) (vs1 vs2 vd : Z) (enable_mask : bool) (vstart : Z) : VecM unit :=
  let sew := size_of U32 in
  vs1_ref <- source vs1 sew 1 ;; vs2_ref <- source vs2 sew 1 ;;
  mask <- arith_mask enable_mask vstart ;;
  into_vd vd sew 1 (Op vs1_ref vs2_ref mask).

Definition exec_integer_vx (Op : Z -> VGFRef -> VecOpMask -> VOp unit) (x1 vs2 vd : Z) (enable_mask : bool) (vstart : Z) : VecM unit :=
  sew <- cfg_sew ;; lmul <- cfg_lmul ;;
  vs2_ref <- source vs2 sew lmul ;;
  mask <- arith_mask enable_mask vstart ;;
  into_vd vd sew lmul (Op x1 vs2_ref mask).

(** Also [exec_integer_slidedown], whose body is the same. *)
Definition exec_integer_gather_vx (Op : Z -> VGFRef -> VecOpMask -> VOp unit) (x1 vs2 vd : Z) (enable_mask : bool) (vstart : Z) : VecM unit :=
  lmul <- cfg_lmul ;;
  if vector_register_group_overlaps vd lmul vs2 lmul then err IllegalInstruction
  else exec_integer_vx Op x1 vs2 vd enable_mask vstart.

Definition exec_integer_slidedown (Op : Z -> VGFRef -> VecOpMask -> VOp unit) (offset vs2 vd : Z) (enable_mask : bool) (vstart : Z) : VecM unit :=
  exec_integer_gather_vx Op offset vs2 vd enable_mask vstart.

Definition exec_integer_vvv (Op : VGFRef -> VGFRef -> VGFRef -> VecOpMask -> VOp unit) (vs1 vs2 vd : Z) (enable_mask : bool) (vstart : Z) : VecM unit :=
  sew <- cfg_sew ;; lmul <- cfg_lmul ;;
  vs1_ref <- source vs1 sew lmul ;; vs2_ref <- source vs2 sew lmul ;; old_vd_ref <- source vd sew lmul ;;
  mask <- arith_mask enable_mask vstart ;;
  into_vd vd sew lmul (Op vs1_ref vs2_ref old_vd_ref mask).

Definition exec_integer_vxv (Op : Z -> VGFRef -> VGFRef -> VecOpMask -> VOp unit) (x1 vs2 vd : Z) (enable_mask : bool) (vstart : Z) : VecM unit :=
  sew <- cfg_sew ;; lmul <- cfg_lmul ;;
  vs2_ref <- source vs2 sew lmul ;; old_vd_ref <- source vd sew lmul ;;
  mask <- arith_mask enable_mask vstart ;;
  into_vd vd sew lmul (Op x1 vs2_ref old_vd_ref mask).

Definition exec_integer_slideup (Op : Z -> VGFRef -> VGFRef -> VecOpMask -> VOp unit) (offset vs2 vd : Z) (enable_mask : bool) (vstart : Z) : VecM unit :=
  lmul <- cfg_lmul ;;
  if (vd <? saturating_add vs2 lmul) && (vs2 <? saturating_add vd lmul) then err IllegalInstruction
  else exec_integer_vxv Op offset vs2 vd enable_mask vstart.

(** The widths of a widening operation: the source and, doubled, the
    destination. *)
Definition widening_shape : VecM (Z * Z * Z * Z) :=
  src_sew <- cfg_sew ;; src_lmul <- cfg_lmul ;;
  match from_byte_width (src_sew * 2) with
  | None => err IllegalInstruction
  | Some dst_eew =>
      let dst_lmul := src_lmul * 2 in
      if 8 <? dst_lmul then err IllegalInstruction
      else ret (src_sew, src_lmul, into_byte_width dst_eew, dst_lmul)
  end.

Definition exec_widening_integer_vv (Op : VGFRef -> VGFRef -> VecOpMask -> VOp unit) (vs1 vs2 vd : Z) (enable_mask : bool) (vstart : Z) : VecM unit :=
  sh <- widening_shape ;;
  let '(src_sew, src_lmul, dst_sew, dst_lmul) := sh in
  vs1_ref <- source vs1 src_sew src_lmul ;; vs2_ref <- source vs2 src_sew src_lmul ;;
  mask <- arith_mask enable_mask vstart ;;
  into_vd vd dst_sew dst_lmul (Op vs1_ref vs2_ref mask).

Definition exec_widening_integer_vvv (Op : VGFRef -> VGFRef -> VGFRef -> VecOpMask -> VOp unit) (vs1 vs2 vd : Z) (enable_mask : bool) (vstart : Z) : VecM unit :=
  sh <- widening_shape ;;
  let '(src_sew, src_lmul, dst_sew, dst_lmul) := sh in
  vs1_ref <- source vs1 src_sew src_lmul ;; vs2_ref <- source vs2 src_sew src_lmul ;;
  old_vd_ref <- source vd dst_sew dst_lmul ;;
  mask <- arith_mask enable_mask vstart ;;
  into_vd vd dst_sew dst_lmul (Op vs1_ref vs2_ref old_vd_ref mask).

Definition exec_widening_integer_vxv (Op : Z -> VGFRef -> VGFRef -> VecOpMask -> VOp unit) (x1 vs2 vd : Z) (enable_mask : bool) (vstart : Z) : VecM unit :=
  sh <- widening_shape ;;
  let '(src_sew, src_lmul, dst_sew, dst_lmul) := sh in
  vs2_ref <- source vs2 src_sew src_lmul ;; old_vd_ref <- source vd dst_sew dst_lmul ;;
  mask <- arith_mask enable_mask vstart ;;
  into_vd vd dst_sew dst_lmul (Op x1 vs2_ref old_vd_ref mask).

Definition exec_widening_integer_vx (Op : Z -> VGFRef -> VecOpMask -> VOp unit) (x1 vs2 vd : Z) (enable_mask : bool) (vstart : Z) : VecM unit :=
  sh <- widening_shape ;;
  let '(src_sew, src_lmul, dst_sew, dst_lmul) := sh in
  vs2_ref <- source vs2 src_sew src_lmul ;;
  mask <- arith_mask enable_mask vstart ;;
  into_vd vd dst_sew dst_lmul (Op x1 vs2_ref mask).

Definition exec_widening_integer_wv (Op : VGFRef -> VGFRef -> VecOpMask -> VOp unit) (vs1 vs2 vd : Z) (enable_mask : bool) (vstart : Z) : VecM unit :=
  sh <- widening_shape ;;
  let '(src_sew, src_lmul, dst_sew, dst_lmul) := sh in
  vs1_ref <- source vs1 src_sew src_lmul ;; vs2_ref <- source vs2 dst_sew dst_lmul ;;
  mask <- arith_mask enable_mask vstart ;;
  into_vd vd dst_sew dst_lmul (Op vs1_ref vs2_ref mask).

Definition exec_widening_integer_wx (Op : Z -> VGFRef -> VecOpMask -> VOp unit) (x1 vs2 vd : Z) (enable_mask : bool) (vstart : Z) : VecM unit :=
  sh <- widening_shape ;;
  let '(src_sew, src_lmul, dst_sew, dst_lmul) := sh in
  vs2_ref <- source vs2 dst_sew dst_lmul ;;
  mask <- arith_mask enable_mask vstart ;;
  into_vd vd dst_sew dst_lmul (Op x1 vs2_ref mask).

(** Narrowing: the source is twice as wide as the destination. *)
Definition narrowing_shape (vs2 vd : Z) : VecM (Z * Z * Z * Z) :=
  v <- gets id ;; dst_sew <- cfg_sew ;; lmul <- cfg_lmul ;;
  match from_byte_width (dst_sew * 2) with
  | None => err IllegalInstruction
  | Some src_eew =>
      src_lmul <- narrowing_source_lmul (vlmul (config v)) ;;
      if vector_register_group_overlaps vd lmul vs2 src_lmul then err IllegalInstruction
      else ret (into_byte_width src_eew, src_lmul, dst_sew, lmul)
  end.

Definition exec_integer_narrowing_wv (Op : VGFRef -> VGFRef -> VecOpMask -> VOp unit) (vs1 vs2 vd : Z) (enable_mask : bool) (vstart : Z) : VecM unit :=
  sh <- narrowing_shape vs2 vd ;;
  let '(src_sew, src_lmul, dst_sew, lmul) := sh in
  vs1_ref <- source vs1 dst_sew lmul ;; vs2_ref <- source vs2 src_sew src_lmul ;;
  mask <- arith_mask enable_mask vstart ;;
  into_vd vd dst_sew lmul (Op vs1_ref vs2_ref mask).

Definition exec_integer_narrowing_vx (Op : Z -> VGFRef -> VecOpMask -> VOp unit) (x1 vs2 vd : Z) (enable_mask : bool) (vstart : Z) : VecM unit :=
  sh <- narrowing_shape vs2 vd ;;
  let '(src_sew, src_lmul, dst_sew, lmul) := sh in
  vs2_ref <- source vs2 src_sew src_lmul ;;
  mask <- arith_mask enable_mask vstart ;;
  into_vd vd dst_sew lmul (Op x1 vs2_ref mask).

Definition exec_integer_v (Op : VGFRef -> VecOpMask -> VOp unit) (vs2 vd : Z) (src_eew dst_eew : Vsew) (enable_mask : bool) (vstart : Z) : VecM unit :=
  lmul <- cfg_lmul ;;
  vs2_ref <- source vs2 (into_byte_width src_eew) lmul ;;
  mask <- arith_mask enable_mask vstart ;;
  into_vd vd (into_byte_width dst_eew) lmul (Op vs2_ref mask).

Definition exec_integer_v_ext (Op : VGFRef -> VecOpMask -> VOp unit) (factor vs2 vd : Z) (enable_mask : bool) (vstart : Z) : VecM unit :=
  v <- gets id ;;
  let dst_eew := vsew (config v) in
  match from_byte_width (into_byte_width dst_eew / factor) with
  | None => err IllegalInstruction
  | Some src_eew => exec_integer_v Op vs2 vd src_eew dst_eew enable_mask vstart
  end.

(** [exec_integer_scalar_move::<ExecMove<T>, T>] *)
Definition exec_integer_scalar_move (t : UInt) (src vd vstart : Z) : VecM unit :=
  lmul <- cfg_lmul ;;
  match from_byte_width (size_of t) with
  | None => err IllegalInstruction
  | Some eew =>
      mask <- arith_mask false vstart ;;
      into_vd vd (into_byte_width eew) lmul (load_elements t mask (fun _ => lift_res (ExecMove src)))
  end.

Definition exec_move_scalar_to_element (src vd vstart : Z) : VecM unit :=
  v <- gets id ;;
  if negb (vstart =? 0) || (vl (config v) =? 0) then ret tt
  else
    let t := ty_of (vsew (config v)) in
    into_vd vd (into_byte_width (vsew (config v))) 1 (
      vd_ref <- gets id ;;
      assert (sew vd_ref =? size_of t) ;;;
      _ <- at_ (elements (sew vd_ref) (value vd_ref)) 0 ;;
      modify (fun g => set_value g (store_le (size_of t) (value g) 0 (truncate_from t src)))).

Definition exec_move_element_to_scalar (vs2 vstart : Z) : VecM (option Z) :=
  v <- gets id ;;
  if negb (vstart =? 0) || (vl (config v) =? 0) then ret None
  else
    let t := ty_of (vsew (config v)) in
    vs2_ref <- source vs2 (into_byte_width (vsew (config v))) 1 ;;
    l <- as_slice t vs2_ref ;;
    x <- at_ l 0 ;;
    ret (Some (match vsew (config v) with E64 => x | e => sign_extend x (8 * into_byte_width e) end)).

Definition exec_whole_register_move (Op : VGFRef -> VecOpMask -> VOp unit) (vs2 vd lmul vstart : Z) : VecM unit :=
  vs2_ref <- source vs2 (into_byte_width E64) lmul ;;
  v <- gets id ;;
  mask <- new_with_start (vector_regfile v) (wrap 16 (VLEN_BYTE * lmul / size_of U64)) false false false vstart ;;
  into_vd vd (into_byte_width E64) lmul (Op vs2_ref mask).

Definition exec_integer_vvm (Op : VGFRef -> VGFRef -> VGFRef -> VecOpMask -> VOp unit) (vs1 vs2 v0 vd : Z) (enable_mask : bool) (vstart : Z) : VecM unit :=
  sew <- cfg_sew ;; lmul <- cfg_lmul ;;
  vs1_ref <- source vs1 sew lmul ;; vs2_ref <- source vs2 sew lmul ;; v0_ref <- source v0 (into_byte_width E8) 1 ;;
  mask <- arith_mask enable_mask vstart ;;
  into_vd vd sew lmul (Op vs1_ref vs2_ref v0_ref mask).

Definition exec_integer_vxm (Op : Z -> VGFRef -> VGFRef -> VecOpMask -> VOp unit) (x1 vs2 v0 vd : Z) (enable_mask : bool) (vstart : Z) : VecM unit :=
  sew <- cfg_sew ;; lmul <- cfg_lmul ;;
  vs2_ref <- source vs2 sew lmul ;; v0_ref <- source v0 (into_byte_width E8) 1 ;;
  mask <- arith_mask enable_mask vstart ;;
  into_vd vd sew lmul (Op x1 vs2_ref v0_ref mask).

(** Results in a mask register. *)
Definition exec_integer_mask_vv (Op : VGFRef -> VGFRef -> VecOpMask -> VOp unit) (vs1 vs2 vd : Z) (enable_mask : bool) (vstart : Z) : VecM unit :=
  sew <- cfg_sew ;; lmul <- cfg_lmul ;;
  vs1_ref <- source vs1 sew lmul ;; vs2_ref <- source vs2 sew lmul ;;
  mask <- arith_mask enable_mask vstart ;;
  into_vd vd (into_byte_width E8) 1 (Op vs1_ref vs2_ref mask).

Definition exec_integer_mask_vx (Op : Z -> VGFRef -> VecOpMask -> VOp unit) (x1 vs2 vd : Z) (enable_mask : bool) (vstart : Z) : VecM unit :=
  sew <- cfg_sew ;; lmul <- cfg_lmul ;;
  vs2_ref <- source vs2 sew lmul ;;
  mask <- arith_mask enable_mask vstart ;;
  into_vd vd (into_byte_width E8) 1 (Op x1 vs2_ref mask).

Definition exec_integer_mask_vvm (Op : VGFRef -> VGFRef -> VGFRef -> VecOpMask -> VOp unit) (vs1 vs2 v0 vd : Z) (enable_mask : bool) (vstart : Z) : VecM unit :=
  sew <- cfg_sew ;; lmul <- cfg_lmul ;;
  vs1_ref <- source vs1 sew lmul ;; vs2_ref <- source vs2 sew lmul ;; v0_ref <- source v0 (into_byte_width E8) 1 ;;
  mask <- arith_mask enable_mask vstart ;;
  into_vd vd (into_byte_width E8) 1 (Op vs1_ref vs2_ref v0_ref mask).

Definition exec_integer_mask_vxm (Op : Z -> VGFRef -> VGFRef -> VecOpMask -> VOp unit) (x1 vs2 v0 vd : Z) (enable_mask : bool) (vstart : Z) : VecM unit :=
  sew <- cfg_sew ;; lmul <- cfg_lmul ;;
  vs2_ref <- source vs2 sew lmul ;; v0_ref <- source v0 (into_byte_width E8) 1 ;;
  mask <- arith_mask enable_mask vstart ;;
  into_vd vd (into_byte_width E8) 1 (Op x1 vs2_ref v0_ref mask).

Definition exec_mask_to_x (Op : VGFRef -> VecOpMask -> VecM Z) (vs2 : Z) (enable_mask : bool) (vstart : Z) : VecM Z :=
  vs2_ref <- source vs2 (into_byte_width E8) 1 ;;
  mask <- arith_mask enable_mask vstart ;;
  Op vs2_ref mask.

Definition exec_mask_unary (Op : VGFRef -> VecOpMask -> VOp unit) (vs2 vd : Z) (enable_mask : bool) (vstart : Z) : VecM unit :=
  if vd =? vs2 then err IllegalInstruction
  else
    vs2_ref <- source vs2 (into_byte_width E8) 1 ;;
    mask <- arith_mask enable_mask vstart ;;
    into_vd vd (into_byte_width E8) 1 (Op vs2_ref mask).

Definition exec_mask_to_vector (Op : VGFRef -> VecOpMask -> VOp unit) (vs2 vd : Z) (enable_mask : bool) (vstart : Z) : VecM unit :=
  sew <- cfg_sew ;; lmul <- cfg_lmul ;;
  if vector_register_group_overlaps vd lmul vs2 1 then err IllegalInstruction
  else
    vs2_ref <- source vs2 (into_byte_width E8) 1 ;;
    mask <- arith_mask enable_mask vstart ;;
    into_vd vd sew lmul (Op vs2_ref mask).

Definition exec_index (Op : VecOpMask -> VOp unit) (vd : Z) (enable_mask : bool) (vstart : Z) : VecM unit :=
  sew <- cfg_sew ;; lmul <- cfg_lmul ;;
  mask <- arith_mask enable_mask vstart ;;
  into_vd vd sew lmul (Op mask).
End Drivers.
