(* ===== verification/VectorFix.v ===== *)
(** * Vector unit: fixed-point operations

    The model of src/src/isa/riscv/vector/arithmetic/fix_point_impl.rs: the
    rounding modes, saturation, the element operations and the functions that
    run them on the register file.  [VectorFixSpec] says what the
    instructions compute. *)

From S2P Require Import Prelude Utils TrapTypes Alu Vector VectorInt VectorArith.

(** [value_bits] is the [u128] pattern of the value. *)
Definition round_increment (value_bits shift : Z) (round : FixedPointRoundingMode) : Z :=
  if shift =? 0 then 0
  else
    let bit index := negb (Z.land (Z.shiftr value_bits index) 1 =? 0) in
    let discarded_mask := shl 128 1 shift - 1 in
    let discarded := Z.land value_bits discarded_mask in
    let half := bit (shift - 1) in
    Z.b2z (match round with
           | RoundToNearestUp => half
           | RoundToNearestEven =>
               let below_half := if shift =? 1 then false
                                 else negb (Z.land value_bits (shl 128 1 (shift - 1) - 1) =? 0) in
               half && (below_half || bit shift)
           | RoundDown => false
           | RoundToOdd => negb (bit shift) && negb (discarded =? 0)
           end).

Definition round_unsigned (v shift : Z) (round : FixedPointRoundingMode) : Z :=
  if shift =? 0 then v else Z.shiftr v shift + round_increment v shift round.

(** [value as u128] is the pattern of an [i128]. *)
Definition round_signed (v shift : Z) (round : FixedPointRoundingMode) : Z :=
  if shift =? 0 then v else Z.shiftr v shift + round_increment (wrap 128 v) shift round.

Definition unsigned_max (bits : Z) : Z := shl 128 1 bits - 1.
Definition signed_min (bits : Z) : Z := - Z.shiftl 1 (bits - 1).
Definition signed_max (bits : Z) : Z := Z.shiftl 1 (bits - 1) - 1.

Definition saturate_unsigned (t : UInt) (v : Z) : Z * bool :=
  if unsigned_max (BITS t) <? v then (MAX t, true) else (truncate_from t v, false).

Definition saturate_signed (t : UInt) (v : Z) : Z * bool :=
  let min := signed_min (BITS t) in
  let max := signed_max (BITS t) in
  if max <? v then (from_signed_i128 t max, true)
  else if v <? min then (from_signed_i128 t min, true)
  else (from_signed_i128 t v, false).

(** ** Element operations *)
Definition FixedPointBinaryExec : Type := UInt -> Z -> Z -> FixedPointRoundingMode -> Z * bool.

Definition ExecSaturatingAddUnsigned : FixedPointBinaryExec := fun t vs2 vs1 _ => saturate_unsigned t (vs2 + vs1).
Definition ExecSaturatingAddSigned : FixedPointBinaryExec := fun t vs2 vs1 _ =>
  saturate_signed t (as_signed_i128 t vs2 + as_signed_i128 t vs1).
Definition ExecSaturatingSubUnsigned : FixedPointBinaryExec := fun t vs2 vs1 _ =>
  if vs2 <? vs1 then (0, true) else (truncate_from t (vs2 - vs1), false).
Definition ExecSaturatingSubSigned : FixedPointBinaryExec := fun t vs2 vs1 _ =>
  saturate_signed t (as_signed_i128 t vs2 - as_signed_i128 t vs1).
Definition ExecAveragingAddUnsigned : FixedPointBinaryExec := fun t vs2 vs1 round =>
  (truncate_from t (round_unsigned (vs2 + vs1) 1 round), false).
Definition ExecAveragingAddSigned : FixedPointBinaryExec := fun t vs2 vs1 round =>
  (from_signed_i128 t (round_signed (as_signed_i128 t vs2 + as_signed_i128 t vs1) 1 round), false).
Definition ExecAveragingSubUnsigned : FixedPointBinaryExec := fun t vs2 vs1 round =>
  (from_signed_i128 t (round_signed (vs2 - vs1) 1 round), false).
Definition ExecAveragingSubSigned : FixedPointBinaryExec := fun t vs2 vs1 round =>
  (from_signed_i128 t (round_signed (as_signed_i128 t vs2 - as_signed_i128 t vs1) 1 round), false).
Definition ExecSaturatingFractionalMul : FixedPointBinaryExec := fun t vs2 vs1 round =>
  let product := as_signed_i128 t vs2 * as_signed_i128 t vs1 in
  saturate_signed t (round_signed product (BITS t - 1) round).
Definition ExecScalingShiftRightLogical : FixedPointBinaryExec := fun t vs2 vs1 round =>
  let shift := shift_amount t vs1 in
  (truncate_from t (round_unsigned vs2 shift round), false).
Definition ExecScalingShiftRightArithmetic : FixedPointBinaryExec := fun t vs2 vs1 round =>
  let shift := shift_amount t vs1 in
  (from_signed_i128 t (round_signed (as_signed_i128 t vs2) shift round), false).

Definition FixedPointNarrowingShiftExec : Type := UInt -> UInt -> Z -> Z -> FixedPointRoundingMode -> Z * bool.

Definition ExecNarrowingClipUnsigned : FixedPointNarrowingShiftExec := fun src dst v shift round =>
  let shift := Z.land (wrap 32 shift) (BITS src - 1) in
  saturate_unsigned dst (round_unsigned v shift round).
Definition ExecNarrowingClipSigned : FixedPointNarrowingShiftExec := fun src dst v shift round =>
  let shift := Z.land (wrap 32 shift) (BITS src - 1) in
  saturate_signed dst (round_signed (as_signed_i128 src v) shift round).

Section Fixed.
Context `{Profile}.

Abbreviation VecM := (M Vector Exception).
Abbreviation VOp := (M VGFRef Exception).

(** The loop of the macros: [saturated] accumulates over every element. *)
Fixpoint fixed_loop (t : UInt) (k : VecOpMask) (f : Z -> VOp (Z * bool)) (index : Z) (elements : list Z) (saturated : bool) : VOp bool :=
  match elements with
  | [] => ret saturated
  | element :: elements =>
      r <- f index ;;
      element_load t k element (fst r) index ;;;
      fixed_loop t k f (index + 1) elements (saturated || snd r)
  end.

Definition impl_fixed_point_vv_binary (Exec : FixedPointBinaryExec) (vs1 vs2 : VGFRef) (k : VecOpMask) (round : FixedPointRoundingMode) : VOp bool :=
  vd <- gets id ;;
  assert ((sew vs1 =? sew vs2) && (sew vs1 =? sew vd)) ;;;
  dispatch_integer_sew (sew vd) (fun t =>
    vs1 <- as_slice t vs1 ;; vs2 <- as_slice t vs2 ;;
    fixed_loop t k (fun index => a <- at_ vs2 index ;; b <- at_ vs1 index ;; ret (Exec t a b round)) 0 (iter vd) false).

Definition impl_fixed_point_vx_binary (Exec : FixedPointBinaryExec) (x1 : Z) (vs2 : VGFRef) (k : VecOpMask) (round : FixedPointRoundingMode) : VOp bool :=
  vd <- gets id ;;
  assert (sew vs2 =? sew vd) ;;;
  dispatch_integer_sew (sew vd) (fun t =>
    let scalar := truncate_from t x1 in
    vs2 <- as_slice t vs2 ;;
    fixed_loop t k (fun index => a <- at_ vs2 index ;; ret (Exec t a scalar round)) 0 (iter vd) false).

Definition impl_fixed_point_narrowing_wv_binary (Exec : FixedPointNarrowingShiftExec) (vs1 vs2 : VGFRef) (k : VecOpMask) (round : FixedPointRoundingMode) : VOp bool :=
  vd <- gets id ;;
  assert ((sew vs1 =? sew vd) && (sew vs2 =? sew vd * 2)) ;;;
  dispatch_narrowing_integer_sew (sew vd) (fun src dst =>
    vs1 <- as_slice dst vs1 ;; vs2 <- as_slice src vs2 ;;
    fixed_loop dst k (fun index => a <- at_ vs2 index ;; b <- at_ vs1 index ;; ret (Exec src dst a b round))
      0 (take (length vs2) (iter vd)) false).

Definition impl_fixed_point_narrowing_vx_binary (Exec : FixedPointNarrowingShiftExec) (x1 : Z) (vs2 : VGFRef) (k : VecOpMask) (round : FixedPointRoundingMode) : VOp bool :=
  vd <- gets id ;;
  assert (sew vs2 =? sew vd * 2) ;;;
  dispatch_narrowing_integer_sew (sew vd) (fun src dst =>
    let shift := truncate_from dst x1 in
    vs2 <- as_slice src vs2 ;;
    fixed_loop dst k (fun index => a <- at_ vs2 index ;; ret (Exec src dst a shift round))
      0 (take (length vs2) (iter vd)) false).

(** ** On the register file

    The operations themselves never return an error, so setting the rounding
    mode after them is setting it once the destination group is legal, as the
    source does. *)
Definition set_rounding_mode (round : FixedPointRoundingMode) (v : Vector) : Vector :=
  let c := config v in
  set_cfg {| vlmul := vlmul c; vsew := vsew c; tail_agnostic := tail_agnostic c; mask_agnostic := mask_agnostic c;
             fixed_point_accrued_saturation_flag := fixed_point_accrued_saturation_flag c;
             fixed_point_rounding_mode := round; vl := vl c |} v.

Definition accrue_saturation (saturated : bool) (v : Vector) : Vector :=
  let c := config v in
  set_cfg {| vlmul := vlmul c; vsew := vsew c; tail_agnostic := tail_agnostic c; mask_agnostic := mask_agnostic c;
             fixed_point_accrued_saturation_flag := saturated || fixed_point_accrued_saturation_flag c;
             fixed_point_rounding_mode := fixed_point_rounding_mode c; vl := vl c |} v.

Definition finish_fixed_point (round : FixedPointRoundingMode) (saturated : bool) : VecM bool :=
  modify (set_rounding_mode round) ;;; modify (accrue_saturation saturated) ;;; ret saturated.

Definition exec_fixed_point_vv (Op : VGFRef -> VGFRef -> VecOpMask -> FixedPointRoundingMode -> VOp bool)
    (vs1 vs2 vd : Z) (enable_mask : bool) (round : FixedPointRoundingMode) (vstart : Z) : VecM bool :=
  sew <- cfg_sew ;; lmul <- cfg_lmul ;;
  vs1_ref <- source vs1 sew lmul ;; vs2_ref <- source vs2 sew lmul ;;
  mask <- arith_mask enable_mask vstart ;;
  saturated <- into_vd vd sew lmul (Op vs1_ref vs2_ref mask round) ;;
  finish_fixed_point round saturated.

Definition exec_fixed_point_vx (Op : Z -> VGFRef -> VecOpMask -> FixedPointRoundingMode -> VOp bool)
    (x1 vs2 vd : Z) (enable_mask : bool) (round : FixedPointRoundingMode) (vstart : Z) : VecM bool :=
  sew <- cfg_sew ;; lmul <- cfg_lmul ;;
  vs2_ref <- source vs2 sew lmul ;;
  mask <- arith_mask enable_mask vstart ;;
  saturated <- into_vd vd sew lmul (Op x1 vs2_ref mask round) ;;
  finish_fixed_point round saturated.

Definition exec_fixed_point_narrowing_wv (Op : VGFRef -> VGFRef -> VecOpMask -> FixedPointRoundingMode -> VOp bool)
    (vs1 vs2 vd : Z) (enable_mask : bool) (round : FixedPointRoundingMode) (vstart : Z) : VecM bool :=
  sh <- narrowing_shape vs2 vd ;;
  let '(src_sew, src_lmul, dst_sew, lmul) := sh in
  vs1_ref <- source vs1 dst_sew lmul ;; vs2_ref <- source vs2 src_sew src_lmul ;;
  mask <- arith_mask enable_mask vstart ;;
  saturated <- into_vd vd dst_sew lmul (Op vs1_ref vs2_ref mask round) ;;
  finish_fixed_point round saturated.

Definition exec_fixed_point_narrowing_vx (Op : Z -> VGFRef -> VecOpMask -> FixedPointRoundingMode -> VOp bool)
    (x1 vs2 vd : Z) (enable_mask : bool) (round : FixedPointRoundingMode) (vstart : Z) : VecM bool :=
  sh <- narrowing_shape vs2 vd ;;
  let '(src_sew, src_lmul, dst_sew, lmul) := sh in
  vs2_ref <- source vs2 src_sew src_lmul ;;
  mask <- arith_mask enable_mask vstart ;;
  saturated <- into_vd vd dst_sew lmul (Op x1 vs2_ref mask round) ;;
  finish_fixed_point round saturated.
End Fixed.
