(* ===== verification/VectorExec.v ===== *)
(** * Vector instructions

    The model of src/src/isa/riscv/instruction/exec_vector_function.rs, of
    [normal_vector_exec] (instruction/mod.rs) and of [Vtype::vsetvl]
    (csr_reg/utils.rs): how an instruction reads its operands, runs the vector
    unit and retires or traps. *)

From S2P Require Import Prelude Utils TrapTypes Alu Ram CsrTable Csr PageTable Mmio Vm Instr Cpu Trap Exec Vector VectorInt VectorArith VectorFix.

(** The vector unit is a part of the units [X] of a hart. *)
Class HasVector (X : Type) : Type := {
  vector_of : X -> Vector;
  set_vector : Vector -> X -> X;
  vector_of_set : forall v x, vector_of (set_vector v x) = v;
  set_vector_of : forall x, set_vector (vector_of x) x = x;
  set_vector_set : forall v w x, set_vector v (set_vector w x) = set_vector v x
}.

Definition Mstatus_vs : CsrField := Fld Mstatus 9 2.
Definition Vstart_vstart : CsrField := Fld Vstart 0 XLEN.
Definition Vcsr_vxsat : CsrField := Fld Vcsr 0 1.
Definition Vcsr_vxrm : CsrField := Fld Vcsr 1 2.

(** [Vtype::vsetvl] (csr_reg/utils.rs): the new VLMAX, [None] when the
    configuration is not supported. *)
Definition vsetvl_vlmax (vtype : Z) : option Z :=
  let new_vlmul := Z.land vtype 7 in
  let new_vsew := Z.land (Z.shiftr vtype 3) 7 in
  if negb (negb (new_vlmul =? 4) && (new_vsew <? 4)) then None
  else
    let part_vl := Z.shiftr VLEN_BYTE new_vsew in
    Some (match new_vlmul with
          | 0 => part_vl
          | 1 => shl 64 part_vl 1
          | 2 => shl 64 part_vl 2
          | 3 => shl 64 part_vl 3
          | 7 => Z.shiftr part_vl 1
          | 6 => Z.shiftr part_vl 2
          | 5 => Z.shiftr part_vl 4
          | _ => 0
          end).

Section Exec.
Context {D X : Type} `{DeviceTrait D} `{Profile} `{HasVector X}.

Abbreviation CPU := (RVCPU D X).
Abbreviation CpuM := (M CPU Exception).

Definition set_ext (x : X) (c : CPU) : CPU :=
  Build_RVCPU (reg_file c) (pc c) (memory c) (csr c) (icache c) (icache_epoch c) x (time_addr c) (pending_tval c).

Definition on_vector {E A} (m : M Vector E A) : M CPU E A :=
  zoom (fun c => vector_of (ext c)) (fun c v => set_ext (set_vector v (ext c)) c) m.

(** [cpu.vector] together with [&mut cpu.memory.mmio]. *)
Definition on_vmem {E A} (m : M (Vector * MemoryMapIO D) E A) : M CPU E A :=
  zoom (fun c => (vector_of (ext c), mmio (memory c)))
       (fun c s => set_memory (Build_VirtAddrManager (snd s) (page_table (memory c))) (set_ext (set_vector (fst s) (ext c)) c)) m.

(** ** instruction/mod.rs *)

(** [VectorExecError::finish_vector_exec_error] of the two error types. *)
Definition finish_exception (e : Exception) : CpuM Exception := ret e.
Definition finish_vector_memory_access (e : VectorMemException) : CpuM Exception :=
  match fault_index_of e with
  | Some index => ok <- on_csr (CsrRegFile_write_directly Vstart (wrap 64 index)) ;; assert ok ;;; ret (exception_of e)
  | None => ret (exception_of e)
  end.

(** [r.map_err(|e| e.finish_vector_exec_error(cpu))] *)
Definition finish_error {E A} (finish : E -> CpuM Exception) (m : M CPU E A) : CpuM A :=
  fun c => match m c with
           | (Ok a, c') => (Ok a, c')
           | (Err e, c') => (x <- finish e ;; err x) c'
           | (Panic, c') => (Panic, c')
           end.

Definition normal_vector_exec {E} (finish : E -> CpuM Exception) (f : Z -> M CPU E unit) : CpuM unit :=
  vs <- on_csr (get_field Mstatus_vs) ;;
  if vs =? 0 then err IllegalInstruction
  else
    vstart <- on_csr (get_field Vstart_vstart) ;;
    normal_exec (finish_error finish (f vstart)) ;;;
    ok <- on_csr (CsrRegFile_write_directly Vstart 0) ;; assert ok.

(** [if let RVInstrInfo::V { .. } = info { .. } else { unreachable!() }] *)
Definition with_v {E A} (info : RVInstrInfo) (f : Z -> Z -> Z -> bool -> Z -> M CPU E A) : M CPU E A :=
  match info with IV rs1 rs2 rd vm func6 => f rs1 rs2 rd vm func6 | _ => panic end.

(** An instruction of the vector unit proper. *)
Definition vec_op (info : RVInstrInfo) (f : Z -> Z -> Z -> Z -> bool -> CpuM unit) : CpuM unit :=
  normal_vector_exec finish_exception (fun vstart => with_v info (fun rs1 rs2 rd vm _ => f vstart rs1 rs2 rd vm)).

(** ** vsetvl *)
Record VectorConfigField : Type := { cf_vtype : Z; cf_input_len : Z }.
Inductive VectorConfigFieldExtractor : Type := Vsetivli | Vsetvli | Vsetvl.

(** [cpu.read_reg(rs)] *)
Definition extract_config (T : VectorConfigFieldExtractor) (imm rs1 : Z) : CpuM VectorConfigField :=
  match T with
  | Vsetivli => debug_assert (Z.land imm 0xC00 =? 0xC00) ;;;
                ret {| cf_vtype := Z.land imm (bnot 64 0xC00); cf_input_len := rs1 |}
  | Vsetvli => debug_assert (Z.land imm 0x800 =? 0) ;;;
               l <- reg_at rs1 ;; ret {| cf_vtype := Z.land imm (bnot 64 0x800); cf_input_len := l |}
  | Vsetvl => debug_assert (Z.land imm 0xFE0 =? 0x800) ;;;
              v <- reg_at (Z.land imm 31) ;; l <- reg_at rs1 ;; ret {| cf_vtype := v; cf_input_len := l |}
  end.

(** What [exec_vector_config] does with the fields. *)
Definition config_result (f : VectorConfigField) (vd : Z) : CpuM unit :=
  on_csr (set_data_directly Vtype (Z.lor (cf_vtype f) (if vsetvl_vlmax (cf_vtype f) then 0 else 2 ^ 63))) ;;;
  match vsetvl_vlmax (cf_vtype f) with
  | Some maxvl =>
      let vl := Z.min (cf_input_len f) maxvl in
      vlmul <- unwrap (Vlmul_from (Z.land (cf_vtype f) 7)) ;;
      vsew <- unwrap (Vsew_from (Z.land (Z.shiftr (cf_vtype f) 3) 7)) ;;
      let vta := negb (Z.land (Z.shiftr (cf_vtype f) 6) 1 =? 0) in
      let vma := negb (Z.land (Z.shiftr (cf_vtype f) 7) 1 =? 0) in
      ok <- on_csr (CsrRegFile_write_directly Vl vl) ;; assert ok ;;;
      on_vector (modify (set_config vlmul vsew vta vma (wrap 16 vl))) ;;;
      reg_write vd vl
  | None => reg_write vd 0 ;;; err IllegalInstruction
  end.

Definition exec_vector_config (T : VectorConfigFieldExtractor) (info : RVInstrInfo) : CpuM unit :=
  normal_vector_exec finish_exception (fun _ => with_v info (fun rs1 rs2 vd vm func6 =>
    let imm := Z.lor (Z.lor (Z.shiftl func6 6) (Z.shiftl (Z.b2z vm) 5)) rs2 in
    f <- extract_config T imm rs1 ;; config_result f vd)).

(** ** Loads and stores *)
Record Func6Uop : Type := { nf : Z; mew : Z; mop : Z }.
Definition load_store_func6_decode (func6 : Z) : Func6Uop :=
  {| nf := Z.land (Z.shiftr func6 3) 7; mew := Z.land (Z.shiftr func6 2) 1; mop := Z.land func6 3 |}.

Abbreviation VMemOp := (M CPU VectorMemException unit).

(** [cpu.reg_file.read(rs1, rs2)] in a memory instruction. *)
Definition vmem_regs (rs1 rs2 : Z) : M CPU VectorMemException (Z * Z) := map_err VOther (reg_read rs1 rs2).

Definition vmem_op (info : RVInstrInfo) (f : Z -> Z -> Z -> Z -> bool -> Func6Uop -> VMemOp) : CpuM unit :=
  normal_vector_exec finish_vector_memory_access (fun vstart =>
    with_v info (fun rs1 rs2 rd vm func6 => f vstart rs1 rs2 rd vm (load_store_func6_decode func6))).

Definition vector_unit_stride_load (EEW : Vsew) (info : RVInstrInfo) : CpuM unit :=
  vmem_op info (fun vstart rs1 lumop vd vm u =>
    debug_assert (mop u =? 0) ;;; debug_assert (lumop =? 0) ;;;
    r <- vmem_regs rs1 0 ;;
    on_vmem (stride_load vd EEW (nf u + 1) None (negb vm) vstart (fst r))).

Definition vector_whole_register_load (info : RVInstrInfo) : CpuM unit :=
  vmem_op info (fun vstart rs1 lumop vd vm u =>
    debug_assert (mop u =? 0) ;;; debug_assert (lumop =? 8) ;;; debug_assert vm ;;;
    r <- vmem_regs rs1 0 ;;
    on_vmem (load_whole_register vd (nf u) vstart (fst r))).

Definition vector_mask_load (info : RVInstrInfo) : CpuM unit :=
  vmem_op info (fun vstart rs1 lumop vd vm u =>
    debug_assert ((nf u =? 0) && (mew u =? 0) && (mop u =? 0) && (lumop =? 11) && vm) ;;;
    r <- vmem_regs rs1 0 ;;
    on_vmem (mask_load vd vstart (fst r))).

(** [unimplemented!()] *)
Definition vector_unit_stride_fault_only_first_load (info : RVInstrInfo) : CpuM unit := vmem_op info (fun _ _ _ _ _ _ => panic).
Definition vector_indexed_unordered_load (info : RVInstrInfo) : CpuM unit := vmem_op info (fun _ _ _ _ _ _ => panic).
Definition vector_indexed_unordered_store (info : RVInstrInfo) : CpuM unit := vmem_op info (fun _ _ _ _ _ _ => panic).

Definition vector_constant_stride_load (EEW : Vsew) (info : RVInstrInfo) : CpuM unit :=
  vmem_op info (fun vstart rs1 rs2 vd vm u =>
    debug_assert (mop u =? 2) ;;;
    r <- vmem_regs rs1 rs2 ;;
    on_vmem (stride_load vd EEW (nf u + 1) (Some (snd r)) (negb vm) vstart (fst r))).

Definition vector_indexed_ordered_load (EEW : Vsew) (info : RVInstrInfo) : CpuM unit :=
  vmem_op info (fun vstart rs1 rs2 vd vm u =>
    debug_assert (mop u =? 3) ;;;
    r <- vmem_regs rs1 rs2 ;;
    on_vmem (indexed_ordered_load vd EEW (nf u + 1) (snd r) (negb vm) vstart (fst r))).

Definition vector_unit_stride_store (EEW : Vsew) (info : RVInstrInfo) : CpuM unit :=
  vmem_op info (fun vstart rs1 sumop vs3 vm u =>
    debug_assert (mop u =? 0) ;;; debug_assert (sumop =? 0) ;;;
    r <- vmem_regs rs1 0 ;;
    on_vmem (stride_store vs3 EEW (nf u + 1) None (negb vm) vstart (fst r))).

Definition vector_whole_register_store (info : RVInstrInfo) : CpuM unit :=
  vmem_op info (fun vstart rs1 sumop vs3 vm u =>
    debug_assert ((mew u =? 0) && (mop u =? 0) && (sumop =? 8) && vm) ;;;
    r <- vmem_regs rs1 0 ;;
    on_vmem (store_whole_register vs3 (nf u) vstart (fst r))).

Definition vector_mask_store (info : RVInstrInfo) : CpuM unit :=
  vmem_op info (fun vstart rs1 sumop vs3 vm u =>
    debug_assert ((nf u =? 0) && (mew u =? 0) && (mop u =? 0) && (sumop =? 11) && vm) ;;;
    r <- vmem_regs rs1 0 ;;
    on_vmem (mask_store vs3 vstart (fst r))).

Definition vector_constant_stride_store (EEW : Vsew) (info : RVInstrInfo) : CpuM unit :=
  vmem_op info (fun vstart rs1 rs2 vs3 vm u =>
    debug_assert (mop u =? 2) ;;;
    r <- vmem_regs rs1 rs2 ;;
    on_vmem (stride_store vs3 EEW (nf u + 1) (Some (snd r)) (negb vm) vstart (fst r))).

Definition vector_indexed_ordered_store (EEW : Vsew) (info : RVInstrInfo) : CpuM unit :=
  vmem_op info (fun vstart rs1 rs2 vs3 vm u =>
    debug_assert (mop u =? 3) ;;;
    r <- vmem_regs rs1 rs2 ;;
    on_vmem (indexed_ordered_store vs3 EEW (nf u + 1) (snd r) (negb vm) vstart (fst r))).

(** ** Integer instructions

    [Op] is the operation type the source passes as a generic argument. *)
Abbreviation OpVV := (VGFRef -> VGFRef -> VecOpMask -> M VGFRef Exception unit).
Abbreviation OpVX := (Z -> VGFRef -> VecOpMask -> M VGFRef Exception unit).
Abbreviation OpVVV := (VGFRef -> VGFRef -> VGFRef -> VecOpMask -> M VGFRef Exception unit).
Abbreviation OpVXV := (Z -> VGFRef -> VGFRef -> VecOpMask -> M VGFRef Exception unit).
Abbreviation OpV := (VGFRef -> VecOpMask -> M VGFRef Exception unit).

(** [cpu.reg_file.read(rs1, 0).0] *)
Definition read_x (rs1 : Z) : CpuM Z := r <- reg_read rs1 0 ;; ret (fst r).
Definition simm5 (rs1 : Z) : Z := sign_extend rs1 5.

Definition vec_integer_op_vv (Op : OpVV) (info : RVInstrInfo) : CpuM unit :=
  vec_op info (fun vstart vs1 vs2 vd vm => on_vector (exec_integer_vv Op vs1 vs2 vd (negb vm) vstart)).

Definition vec_bit_op_vv (Op : OpVV) (info : RVInstrInfo) : CpuM unit :=
  vec_op info (fun vstart vs1 vs2 vd vm => on_vector (exec_bit_vv Op vs1 vs2 vd (negb vm) vstart)).

Definition vec_integer_op_vx (Op : OpVX) (info : RVInstrInfo) : CpuM unit :=
  vec_op info (fun vstart rs1 vs2 vd vm => x1 <- read_x rs1 ;; on_vector (exec_integer_vx Op x1 vs2 vd (negb vm) vstart)).

Definition vec_integer_op_vvv (Op : OpVVV) (info : RVInstrInfo) : CpuM unit :=
  vec_op info (fun vstart vs1 vs2 vd vm => on_vector (exec_integer_vvv Op vs1 vs2 vd (negb vm) vstart)).

Definition vec_integer_op_vxv (Op : OpVXV) (info : RVInstrInfo) : CpuM unit :=
  vec_op info (fun vstart rs1 vs2 vd vm => x1 <- read_x rs1 ;; on_vector (exec_integer_vxv Op x1 vs2 vd (negb vm) vstart)).

Definition vec_widening_integer_op_vv (Op : OpVV) (info : RVInstrInfo) : CpuM unit :=
  vec_op info (fun vstart vs1 vs2 vd vm => on_vector (exec_widening_integer_vv Op vs1 vs2 vd (negb vm) vstart)).

Definition vec_widening_integer_op_vvv (Op : OpVVV) (info : RVInstrInfo) : CpuM unit :=
  vec_op info (fun vstart vs1 vs2 vd vm => on_vector (exec_widening_integer_vvv Op vs1 vs2 vd (negb vm) vstart)).

Definition vec_widening_integer_op_vxv (Op : OpVXV) (info : RVInstrInfo) : CpuM unit :=
  vec_op info (fun vstart rs1 vs2 vd vm =>
    x1 <- read_x rs1 ;; on_vector (exec_widening_integer_vxv Op x1 vs2 vd (negb vm) vstart)).

Definition vec_widening_integer_op_vx (Op : OpVX) (info : RVInstrInfo) : CpuM unit :=
  vec_op info (fun vstart rs1 vs2 vd vm =>
    x1 <- read_x rs1 ;; on_vector (exec_widening_integer_vx Op x1 vs2 vd (negb vm) vstart)).

Definition vec_widening_integer_op_wv (Op : OpVV) (info : RVInstrInfo) : CpuM unit :=
  vec_op info (fun vstart vs1 vs2 vd vm => on_vector (exec_widening_integer_wv Op vs1 vs2 vd (negb vm) vstart)).

Definition vec_widening_integer_op_wx (Op : OpVX) (info : RVInstrInfo) : CpuM unit :=
  vec_op info (fun vstart rs1 vs2 vd vm =>
    x1 <- read_x rs1 ;; on_vector (exec_widening_integer_wx Op x1 vs2 vd (negb vm) vstart)).

Definition vec_integer_op_vi_signed (Op : OpVX) (info : RVInstrInfo) : CpuM unit :=
  vec_op info (fun vstart imm vs2 vd vm => on_vector (exec_integer_vx Op (simm5 imm) vs2 vd (negb vm) vstart)).

Definition vec_integer_op_vi_unsigned (Op : OpVX) (info : RVInstrInfo) : CpuM unit :=
  vec_op info (fun vstart uimm vs2 vd vm => on_vector (exec_integer_vx Op uimm vs2 vd (negb vm) vstart)).

(** ** Fixed-point instructions *)
Definition cpu_rounding_mode : CpuM FixedPointRoundingMode :=
  m <- on_csr (get_field Vcsr_vxrm) ;;
  match m with
  | 0 => ret RoundToNearestUp | 1 => ret RoundToNearestEven | 2 => ret RoundDown | 3 => ret RoundToOdd
  | _ => panic
  end.

Definition finish_fixed_point_op (saturated : bool) : CpuM unit :=
  if saturated then on_csr (set_field_directly Vcsr_vxsat 1) else ret tt.

Abbreviation FixVV := (VGFRef -> VGFRef -> VecOpMask -> FixedPointRoundingMode -> M VGFRef Exception bool).
Abbreviation FixVX := (Z -> VGFRef -> VecOpMask -> FixedPointRoundingMode -> M VGFRef Exception bool).

Definition vec_fixed_point_op_vv (Op : FixVV) (info : RVInstrInfo) : CpuM unit :=
  vec_op info (fun vstart vs1 vs2 vd vm =>
    round <- cpu_rounding_mode ;;
    saturated <- on_vector (exec_fixed_point_vv Op vs1 vs2 vd (negb vm) round vstart) ;;
    finish_fixed_point_op saturated).

Definition vec_fixed_point_op_vx (Op : FixVX) (info : RVInstrInfo) : CpuM unit :=
  vec_op info (fun vstart rs1 vs2 vd vm =>
    x1 <- read_x rs1 ;; round <- cpu_rounding_mode ;;
    saturated <- on_vector (exec_fixed_point_vx Op x1 vs2 vd (negb vm) round vstart) ;;
    finish_fixed_point_op saturated).

Definition vec_fixed_point_op_vi (Op : FixVX) (SIGNED : bool) (info : RVInstrInfo) : CpuM unit :=
  vec_op info (fun vstart imm5 vs2 vd vm =>
    let imm := if SIGNED then simm5 imm5 else imm5 in
    round <- cpu_rounding_mode ;;
    saturated <- on_vector (exec_fixed_point_vx Op imm vs2 vd (negb vm) round vstart) ;;
    finish_fixed_point_op saturated).

Definition vec_fixed_point_narrowing_op_wv (Op : FixVV) (info : RVInstrInfo) : CpuM unit :=
  vec_op info (fun vstart vs1 vs2 vd vm =>
    round <- cpu_rounding_mode ;;
    saturated <- on_vector (exec_fixed_point_narrowing_wv Op vs1 vs2 vd (negb vm) round vstart) ;;
    finish_fixed_point_op saturated).

Definition vec_fixed_point_narrowing_op_wx (Op : FixVX) (info : RVInstrInfo) : CpuM unit :=
  vec_op info (fun vstart rs1 vs2 vd vm =>
    x1 <- read_x rs1 ;; round <- cpu_rounding_mode ;;
    saturated <- on_vector (exec_fixed_point_narrowing_vx Op x1 vs2 vd (negb vm) round vstart) ;;
    finish_fixed_point_op saturated).

Definition vec_fixed_point_narrowing_op_wi (Op : FixVX) (info : RVInstrInfo) : CpuM unit :=
  vec_op info (fun vstart uimm vs2 vd vm =>
    round <- cpu_rounding_mode ;;
    saturated <- on_vector (exec_fixed_point_narrowing_vx Op uimm vs2 vd (negb vm) round vstart) ;;
    finish_fixed_point_op saturated).

(** ** Carries, masks, moves *)
Definition vec_integer_op_vvm (Op : OpVVV) (info : RVInstrInfo) : CpuM unit :=
  vec_op info (fun vstart vs1 vs2 vd _ => on_vector (exec_integer_vvm Op vs1 vs2 0 vd false vstart)).

Definition vec_integer_op_vxm (Op : OpVXV) (info : RVInstrInfo) : CpuM unit :=
  vec_op info (fun vstart rs1 vs2 vd _ => x1 <- read_x rs1 ;; on_vector (exec_integer_vxm Op x1 vs2 0 vd false vstart)).

Definition vec_whole_register_move_op_v (LMUL : Z) (info : RVInstrInfo) : CpuM unit :=
  normal_vector_exec finish_exception (fun vstart =>
    expected_rs1 <- (match LMUL with 1 => ret 0 | 2 => ret 1 | 4 => ret 3 | 8 => ret 7 | _ => err IllegalInstruction end) ;;
    with_v info (fun rs1 vs2 vd _ _ =>
      if negb (rs1 =? expected_rs1) then err IllegalInstruction
      else on_vector (exec_whole_register_move (ExecMove_v U64) vs2 vd LMUL vstart))).

Definition vec_integer_mask_op_vv (Op : OpVV) (info : RVInstrInfo) : CpuM unit :=
  vec_op info (fun vstart vs1 vs2 vd vm => on_vector (exec_integer_mask_vv Op vs1 vs2 vd (negb vm) vstart)).

Definition vec_integer_mask_op_vx (Op : OpVX) (info : RVInstrInfo) : CpuM unit :=
  vec_op info (fun vstart rs1 vs2 vd vm => x1 <- read_x rs1 ;; on_vector (exec_integer_mask_vx Op x1 vs2 vd (negb vm) vstart)).

Definition vec_integer_mask_op_vi (Op : OpVX) (info : RVInstrInfo) : CpuM unit :=
  vec_op info (fun vstart imm vs2 vd vm => on_vector (exec_integer_mask_vx Op (simm5 imm) vs2 vd (negb vm) vstart)).

Definition vec_integer_ext_op_v (Op : OpV) (FACTOR : Z) (info : RVInstrInfo) : CpuM unit :=
  vec_op info (fun vstart _ vs2 vd vm => on_vector (exec_integer_v_ext Op FACTOR vs2 vd (negb vm) vstart)).

(** [vector_spec_instr]: the constants that select an arm of
    [vec_integer_spec_op]. *)
Inductive VectorSpecInstr : Type :=
| SLIDEUP_VI | SLIDEDOWN_VI | GATHER_VI | COMPRESS_VM | CPOP_M | FIRST_M | MSBF_M | MSOF_M | MSIF_M | IOTA_M | ID_V
| SLIDEUP_VX | SLIDEDOWN_VX | GATHER_VV | GATHER_VX | GATHER_EI16_VV | MOVE_V | MOVE_VX | MOVE_VI
| NSRL_WV | NSRA_WV | NSRL_WX | NSRA_WX | NSRL_WI | NSRA_WI
| MADC_VVM | MSBC_VVM | MADC_VXM | MSBC_VXM | MADC_VIM | ADC_VIM | MERGE_VIM | MOVE_SX | MOVE_XS
| SLIDE1UP_VX | SLIDE1DOWN_VX.

Definition illegal_if (b : bool) (m : CpuM unit) : CpuM unit := if b then err IllegalInstruction else m.

(** Slides, gathers and compress. *)
Definition spec_permute (i : VectorSpecInstr) (vstart rs1 rs2 rd : Z) (vm : bool) : CpuM unit :=
  match i with
  | SLIDEUP_VI => on_vector (exec_integer_slideup SlideUp rs1 rs2 rd (negb vm) vstart)
  | SLIDEUP_VX => x1 <- read_x rs1 ;; illegal_if (rd =? rs2) (on_vector (exec_integer_slideup SlideUp x1 rs2 rd (negb vm) vstart))
  | SLIDEDOWN_VI => on_vector (exec_integer_slidedown SlideDown rs1 rs2 rd (negb vm) vstart)
  | SLIDEDOWN_VX => x1 <- read_x rs1 ;; on_vector (exec_integer_slidedown SlideDown x1 rs2 rd (negb vm) vstart)
  | SLIDE1UP_VX => x1 <- read_x rs1 ;; on_vector (exec_integer_slideup Slide1Up x1 rs2 rd (negb vm) vstart)
  | SLIDE1DOWN_VX => x1 <- read_x rs1 ;; on_vector (exec_integer_slidedown Slide1Down x1 rs2 rd (negb vm) vstart)
  | GATHER_VV => illegal_if ((rd =? rs2) || (rd =? rs1)) (on_vector (exec_integer_gather_vv RGatherVV rs1 rs2 rd (negb vm) vstart))
  | GATHER_VX => x1 <- read_x rs1 ;; illegal_if (rd =? rs2) (on_vector (exec_integer_gather_vx RGatherVX x1 rs2 rd (negb vm) vstart))
  | GATHER_VI => illegal_if (rd =? rs2) (on_vector (exec_integer_gather_vx RGatherVX rs1 rs2 rd (negb vm) vstart))
  | GATHER_EI16_VV => illegal_if ((rd =? rs2) || (rd =? rs1)) (on_vector (exec_integer_gather_ei16_vv RGatherEI16VV rs1 rs2 rd (negb vm) vstart))
  | COMPRESS_VM => illegal_if (negb vm) (on_vector (exec_compress CompressVm rs1 rs2 rd vstart))
  | _ => panic
  end.

Definition MADC : OpVVV := impl_vector_op_integer_mask_vvm_binary ExecAdcCarry.
Definition MSBC : OpVVV := impl_vector_op_integer_mask_vvm_binary ExecSbcBorrow.
Definition MADCX : OpVXV := impl_vector_op_integer_mask_vxm_binary ExecAdcCarry.
Definition MSBCX : OpVXV := impl_vector_op_integer_mask_vxm_binary ExecSbcBorrow.
Definition NSRL : OpVV := impl_vector_op_integer_narrowing_wv_binary ExecVNsrl.
Definition NSRA : OpVV := impl_vector_op_integer_narrowing_wv_binary ExecVNsra.
Definition NSRLX : OpVX := impl_vector_op_integer_narrowing_vx_binary ExecVNsrl.
Definition NSRAX : OpVX := impl_vector_op_integer_narrowing_vx_binary ExecVNsra.

(** Moves, narrowing shifts, carries and merges. *)
Definition spec_arith (i : VectorSpecInstr) (vstart rs1 rs2 rd : Z) (vm : bool) : CpuM unit :=
  match i with
  | MOVE_V => illegal_if (negb (rs2 =? 0)) (on_vector (exec_integer_v (ExecMove_v U64) rs1 rd E64 E64 false vstart))
  | MOVE_VX => illegal_if (negb (rs2 =? 0)) (x1 <- read_x rs1 ;; on_vector (exec_integer_scalar_move U64 x1 rd vstart))
  | MOVE_VI => illegal_if (negb (rs2 =? 0)) (on_vector (exec_integer_scalar_move U64 (simm5 rs1) rd vstart))
  | MOVE_SX => illegal_if (negb (rs2 =? 0)) (x1 <- read_x rs1 ;; on_vector (exec_move_scalar_to_element x1 rd vstart))
  | MOVE_XS => illegal_if (negb (rs1 =? 0))
                 (o <- on_vector (exec_move_element_to_scalar rs2 vstart) ;;
                  match o with Some v => reg_write rd v | None => ret tt end)
  | NSRL_WV => on_vector (exec_integer_narrowing_wv NSRL rs1 rs2 rd (negb vm) vstart)
  | NSRA_WV => on_vector (exec_integer_narrowing_wv NSRA rs1 rs2 rd (negb vm) vstart)
  | NSRL_WX => x1 <- read_x rs1 ;; on_vector (exec_integer_narrowing_vx NSRLX x1 rs2 rd (negb vm) vstart)
  | NSRA_WX => x1 <- read_x rs1 ;; on_vector (exec_integer_narrowing_vx NSRAX x1 rs2 rd (negb vm) vstart)
  | NSRL_WI => on_vector (exec_integer_narrowing_vx NSRLX rs1 rs2 rd (negb vm) vstart)
  | NSRA_WI => on_vector (exec_integer_narrowing_vx NSRAX (simm5 rs1) rs2 rd (negb vm) vstart)
  | MADC_VVM => on_vector (exec_integer_mask_vvm MADC rs1 rs2 0 rd false vstart)
  | MSBC_VVM => on_vector (exec_integer_mask_vvm MSBC rs1 rs2 0 rd false vstart)
  | MADC_VXM => x1 <- read_x rs1 ;; on_vector (exec_integer_mask_vxm MADCX x1 rs2 0 rd false vstart)
  | MSBC_VXM => x1 <- read_x rs1 ;; on_vector (exec_integer_mask_vxm MSBCX x1 rs2 0 rd false vstart)
  | MADC_VIM => on_vector (exec_integer_mask_vxm MADCX (simm5 rs1) rs2 0 rd false vstart)
  | ADC_VIM => on_vector (exec_integer_vxm (impl_vector_op_integer_vxm_binary ExecAdc) (simm5 rs1) rs2 0 rd false vstart)
  | MERGE_VIM => on_vector (exec_integer_vxm MergeVXM (simm5 rs1) rs2 0 rd false vstart)
  | _ => panic
  end.

(** Mask-register operations. *)
Definition spec_mask (i : VectorSpecInstr) (vstart rs1 rs2 rd : Z) (vm : bool) : CpuM unit :=
  match i with
  | CPOP_M => v <- on_vector (exec_mask_to_x vector_op_mask_popcount rs2 (negb vm) vstart) ;; reg_write rd v
  | FIRST_M => v <- on_vector (exec_mask_to_x vector_op_mask_first rs2 (negb vm) vstart) ;; reg_write rd v
  | MSBF_M => on_vector (exec_mask_unary (vector_op_mask_before_first Before) rs2 rd (negb vm) vstart)
  | MSOF_M => on_vector (exec_mask_unary (vector_op_mask_before_first Only) rs2 rd (negb vm) vstart)
  | MSIF_M => on_vector (exec_mask_unary (vector_op_mask_before_first Including) rs2 rd (negb vm) vstart)
  | IOTA_M => on_vector (exec_mask_to_vector IotaM rs2 rd (negb vm) vstart)
  | ID_V => on_vector (exec_index IdV rd (negb vm) vstart)
  | _ => panic
  end.

Definition vec_integer_spec_op (i : VectorSpecInstr) (info : RVInstrInfo) : CpuM unit :=
  vec_op info (fun vstart rs1 rs2 rd vm =>
    match i with
    | SLIDEUP_VI | SLIDEUP_VX | SLIDEDOWN_VI | SLIDEDOWN_VX | SLIDE1UP_VX | SLIDE1DOWN_VX
    | GATHER_VV | GATHER_VX | GATHER_VI | GATHER_EI16_VV | COMPRESS_VM => spec_permute i vstart rs1 rs2 rd vm
    | CPOP_M | FIRST_M | MSBF_M | MSOF_M | MSIF_M | IOTA_M | ID_V => spec_mask i vstart rs1 rs2 rd vm
    | _ => spec_arith i vstart rs1 rs2 rd vm
    end).
End Exec.
