(* ===== verification/VectorMap.v ===== *)
(** * The vector arms of [get_exec_func]

    The mapping of src/src/isa/riscv/instruction/exec_mapping.rs from vector
    instructions to the functions that execute them, and the unit it gives to
    the hart. *)

From S2P Require Import Prelude Utils TrapTypes Alu Mmio Instr Cpu Exec Vector VectorInt VectorArith VectorFix VectorExec.

(** The vector instructions.  A memory instruction carries the number of its
    fields: [VLE n E32] is [VLE32_V] for [n = 1] and [VLSEGnE32_V] otherwise;
    [VLRE n e] is [VLnRE<e>_V] and [VSR n] is [VSnR_V]. *)
Inductive VInstr : Type :=
| VSETVL | VSETVLI | VSETIVLI | VADD_VV | VSUB_VV | VMUL_VV | VMULH_VV | VMULHU_VV | VMULHSU_VV | VDIV_VV
| VDIVU_VV | VREM_VV | VREMU_VV | VAND_VV | VOR_VV | VXOR_VV | VSRA_VV | VSRL_VV | VSLL_VV | VNSRL_WV
| VNSRA_WV | VMSEQ_VV | VMSNE_VV | VMSLTU_VV | VMSLT_VV | VMSLEU_VV | VMSLE_VV | VADC_VVM | VMADC_VV
| VMADC_VVM | VSBC_VVM | VMSBC_VV | VMSBC_VVM | VMAX_VV | VMAXU_VV | VMIN_VV | VMINU_VV | VMACC_VV | VNMSAC_VV
| VMADD_VV | VNMSUB_VV | VMERGE_VVM | VMV_V_V | VSADDU_VV | VSADD_VV | VSSUBU_VV | VSSUB_VV | VAADDU_VV
| VAADD_VV | VASUBU_VV | VASUB_VV | VSMUL_VV | VSSRL_VV | VSSRA_VV | VNCLIPU_WV | VNCLIP_WV | VRGATHER_VV
| VRGATHEREI16_VV | VADD_VX | VSUB_VX | VRSUB_VX | VMUL_VX | VMULH_VX | VMULHU_VX | VMULHSU_VX | VDIV_VX
| VDIVU_VX | VREM_VX | VREMU_VX | VAND_VX | VOR_VX | VXOR_VX | VSRA_VX | VSRL_VX | VSLL_VX | VNSRL_WX
| VNSRA_WX | VMSEQ_VX | VMSNE_VX | VMSLTU_VX | VMSLT_VX | VMSLEU_VX | VMSLE_VX | VMSGTU_VX | VMSGT_VX
| VADC_VXM | VMADC_VX | VMADC_VXM | VSBC_VXM | VMSBC_VX | VMSBC_VXM | VMAX_VX | VMAXU_VX | VMIN_VX | VMINU_VX
| VMACC_VX | VNMSAC_VX | VMADD_VX | VNMSUB_VX | VMERGE_VXM | VMV_V_X | VSADDU_VX | VSADD_VX | VSSUBU_VX
| VSSUB_VX | VAADDU_VX | VAADD_VX | VASUBU_VX | VASUB_VX | VSMUL_VX | VSSRL_VX | VSSRA_VX | VNCLIPU_WX
| VNCLIP_WX | VSLIDEUP_VX | VSLIDEDOWN_VX | VRGATHER_VX | VADD_VI | VRSUB_VI | VAND_VI | VOR_VI | VXOR_VI
| VSRA_VI | VSRL_VI | VSLL_VI | VNSRL_WI | VNSRA_WI | VMSEQ_VI | VMSNE_VI | VMSLEU_VI | VMSLE_VI | VMSGTU_VI
| VMSGT_VI | VADC_VIM | VMADC_VI | VMADC_VIM | VMERGE_VIM | VMV_V_I | VSADDU_VI | VSADD_VI | VSSRL_VI
| VSSRA_VI | VNCLIPU_WI | VNCLIP_WI | VSLIDEUP_VI | VSLIDEDOWN_VI | VRGATHER_VI | VMV1R_V | VMV2R_V | VMV4R_V
| VMV8R_V | VWADD_VV | VWADD_WV | VWADDU_VV | VWADDU_WV | VWSUB_VV | VWSUB_WV | VWSUBU_VV | VWSUBU_WV
| VWMUL_VV | VWMULU_VV | VWMULSU_VV | VZEXT_VF2 | VZEXT_VF4 | VZEXT_VF8 | VSEXT_VF2 | VSEXT_VF4 | VSEXT_VF8
| VWMACCU_VV | VWMACC_VV | VWMACCSU_VV | VCOMPRESS_VM | VMAND_MM | VMNAND_MM | VMANDN_MM | VMXOR_MM | VMOR_MM
| VMNOR_MM | VMORN_MM | VMXNOR_MM | VCPOP_M | VFIRST_M | VMSBF_M | VMSIF_M | VMSOF_M | VIOTA_M | VID_V
| VMV_X_S | VMV_S_X | VWADD_VX | VWADD_WX | VWADDU_VX | VWADDU_WX | VWSUB_VX | VWSUB_WX | VWSUBU_VX
| VWSUBU_WX | VWMUL_VX | VWMULU_VX | VWMULSU_VX | VWMACCU_VX | VWMACC_VX | VWMACCSU_VX | VWMACCUS_VX
| VSLIDE1UP_VX | VSLIDE1DOWN_VX
| VLM_V | VSM_V
| VLE (nfields : Z) (eew : Vsew) | VLEFF (nfields : Z) (eew : Vsew) | VLSE (nfields : Z) (eew : Vsew)
| VLUXEI (nfields : Z) (eew : Vsew) | VLOXEI (nfields : Z) (eew : Vsew) | VLRE (nregs : Z) (eew : Vsew)
| VSR (nregs : Z) | VSE (nfields : Z) (eew : Vsew) | VSSE (nfields : Z) (eew : Vsew)
| VSUXEI (nfields : Z) (eew : Vsew) | VSOXEI (nfields : Z) (eew : Vsew).

Section Map.
Context {D X : Type} `{DeviceTrait D} `{Profile} `{HasVector X}.

Abbreviation VExec := (RVInstrInfo -> M (RVCPU D X) Exception unit).

Definition rv_v_config (i : VInstr) : option VExec :=
  match i with
  | VSETVL => Some (exec_vector_config Vsetvl)
  | VSETVLI => Some (exec_vector_config Vsetvli)
  | VSETIVLI => Some (exec_vector_config Vsetivli)
  | _ => None
  end.

Definition rv_v_opivv (i : VInstr) : option VExec :=
  match i with
  | VADD_VV => Some (vec_integer_op_vv (impl_vector_op_integer_vv_binary ExecAdd))
  | VSUB_VV => Some (vec_integer_op_vv (impl_vector_op_integer_vv_binary ExecSub))
  | VMUL_VV => Some (vec_integer_op_vv (impl_vector_op_integer_vv_binary ExecMulLow))
  | VMULH_VV => Some (vec_integer_op_vv (impl_vector_op_integer_vv_binary ExecMulHighSigned))
  | VMULHU_VV => Some (vec_integer_op_vv (impl_vector_op_integer_vv_binary ExecMulHighUnsigned))
  | VMULHSU_VV => Some (vec_integer_op_vv (impl_vector_op_integer_vv_binary ExecMulHighSignedUnsigned))
  | VDIV_VV => Some (vec_integer_op_vv (impl_vector_op_integer_vv_binary ExecDivSigned))
  | VDIVU_VV => Some (vec_integer_op_vv (impl_vector_op_integer_vv_binary ExecDivUnsigned))
  | VREM_VV => Some (vec_integer_op_vv (impl_vector_op_integer_vv_binary ExecRemSigned))
  | VREMU_VV => Some (vec_integer_op_vv (impl_vector_op_integer_vv_binary ExecRemUnsigned))
  | VAND_VV => Some (vec_integer_op_vv (impl_vector_op_integer_vv_binary (fun _ => ExecAnd)))
  | VOR_VV => Some (vec_integer_op_vv (impl_vector_op_integer_vv_binary (fun _ => ExecOr)))
  | VXOR_VV => Some (vec_integer_op_vv (impl_vector_op_integer_vv_binary (fun _ => ExecXor)))
  | VSRA_VV => Some (vec_integer_op_vv (impl_vector_op_integer_vv_binary ExecSRA))
  | VSRL_VV => Some (vec_integer_op_vv (impl_vector_op_integer_vv_binary ExecSRL))
  | VSLL_VV => Some (vec_integer_op_vv (impl_vector_op_integer_vv_binary ExecSLL))
  | VNSRL_WV => Some (vec_integer_spec_op NSRL_WV)
  | VNSRA_WV => Some (vec_integer_spec_op NSRA_WV)
  | VMSEQ_VV => Some (vec_integer_mask_op_vv (impl_vector_op_integer_mask_vv_binary (fun _ => ExecEqual)))
  | VMSNE_VV => Some (vec_integer_mask_op_vv (impl_vector_op_integer_mask_vv_binary (fun _ => ExecNotEqual)))
  | VMSLTU_VV => Some (vec_integer_mask_op_vv (impl_vector_op_integer_mask_vv_binary (fun _ => ExecUnsignedLess_bool)))
  | VMSLT_VV => Some (vec_integer_mask_op_vv (impl_vector_op_integer_mask_vv_binary ExecVSignedLess))
  | VMSLEU_VV => Some (vec_integer_mask_op_vv (impl_vector_op_integer_mask_vv_binary ExecUnsignedLessEqual))
  | VMSLE_VV => Some (vec_integer_mask_op_vv (impl_vector_op_integer_mask_vv_binary ExecSignedLessEqual))
  | VADC_VVM => Some (vec_integer_op_vvm (impl_vector_op_integer_vvm_binary ExecAdc))
  | VMADC_VV => Some (vec_integer_mask_op_vv (impl_vector_op_integer_mask_vv_binary ExecAdcCarryNoCarry))
  | VMADC_VVM => Some (vec_integer_spec_op MADC_VVM)
  | VSBC_VVM => Some (vec_integer_op_vvm (impl_vector_op_integer_vvm_binary ExecSbc))
  | VMSBC_VV => Some (vec_integer_mask_op_vv (impl_vector_op_integer_mask_vv_binary ExecSbcBorrowNoBorrow))
  | VMSBC_VVM => Some (vec_integer_spec_op MSBC_VVM)
  | VMAX_VV => Some (vec_integer_op_vv (impl_vector_op_integer_vv_binary ExecMax))
  | VMAXU_VV => Some (vec_integer_op_vv (impl_vector_op_integer_vv_binary (fun _ => ExecMaxu)))
  | VMIN_VV => Some (vec_integer_op_vv (impl_vector_op_integer_vv_binary ExecMin))
  | VMINU_VV => Some (vec_integer_op_vv (impl_vector_op_integer_vv_binary (fun _ => ExecMinu)))
  | VMACC_VV => Some (vec_integer_op_vvv (impl_vector_op_integer_vvv_ternary ExecMacc))
  | VNMSAC_VV => Some (vec_integer_op_vvv (impl_vector_op_integer_vvv_ternary ExecNmsac))
  | VMADD_VV => Some (vec_integer_op_vvv (impl_vector_op_integer_vvv_ternary ExecMadd))
  | VNMSUB_VV => Some (vec_integer_op_vvv (impl_vector_op_integer_vvv_ternary ExecNmsub))
  | VMERGE_VVM => Some (vec_integer_op_vvm MergeVVM)
  | VMV_V_V => Some (vec_integer_spec_op MOVE_V)
  | VSADDU_VV => Some (vec_fixed_point_op_vv (impl_fixed_point_vv_binary ExecSaturatingAddUnsigned))
  | VSADD_VV => Some (vec_fixed_point_op_vv (impl_fixed_point_vv_binary ExecSaturatingAddSigned))
  | VSSUBU_VV => Some (vec_fixed_point_op_vv (impl_fixed_point_vv_binary ExecSaturatingSubUnsigned))
  | VSSUB_VV => Some (vec_fixed_point_op_vv (impl_fixed_point_vv_binary ExecSaturatingSubSigned))
  | VAADDU_VV => Some (vec_fixed_point_op_vv (impl_fixed_point_vv_binary ExecAveragingAddUnsigned))
  | VAADD_VV => Some (vec_fixed_point_op_vv (impl_fixed_point_vv_binary ExecAveragingAddSigned))
  | VASUBU_VV => Some (vec_fixed_point_op_vv (impl_fixed_point_vv_binary ExecAveragingSubUnsigned))
  | VASUB_VV => Some (vec_fixed_point_op_vv (impl_fixed_point_vv_binary ExecAveragingSubSigned))
  | VSMUL_VV => Some (vec_fixed_point_op_vv (impl_fixed_point_vv_binary ExecSaturatingFractionalMul))
  | VSSRL_VV => Some (vec_fixed_point_op_vv (impl_fixed_point_vv_binary ExecScalingShiftRightLogical))
  | VSSRA_VV => Some (vec_fixed_point_op_vv (impl_fixed_point_vv_binary ExecScalingShiftRightArithmetic))
  | VNCLIPU_WV => Some (vec_fixed_point_narrowing_op_wv (impl_fixed_point_narrowing_wv_binary ExecNarrowingClipUnsigned))
  | VNCLIP_WV => Some (vec_fixed_point_narrowing_op_wv (impl_fixed_point_narrowing_wv_binary ExecNarrowingClipSigned))
  | VRGATHER_VV => Some (vec_integer_spec_op GATHER_VV)
  | VRGATHEREI16_VV => Some (vec_integer_spec_op GATHER_EI16_VV)
  | _ => None
  end.

Definition rv_v_opivx (i : VInstr) : option VExec :=
  match i with
  | VADD_VX => Some (vec_integer_op_vx (impl_vector_op_integer_vx_binary ExecAdd))
  | VSUB_VX => Some (vec_integer_op_vx (impl_vector_op_integer_vx_binary ExecSub))
  | VRSUB_VX => Some (vec_integer_op_vx (impl_vector_op_integer_vx_binary ExecRevSub))
  | VMUL_VX => Some (vec_integer_op_vx (impl_vector_op_integer_vx_binary ExecMulLow))
  | VMULH_VX => Some (vec_integer_op_vx (impl_vector_op_integer_vx_binary ExecMulHighSigned))
  | VMULHU_VX => Some (vec_integer_op_vx (impl_vector_op_integer_vx_binary ExecMulHighUnsigned))
  | VMULHSU_VX => Some (vec_integer_op_vx (impl_vector_op_integer_vx_binary ExecMulHighSignedUnsigned))
  | VDIV_VX => Some (vec_integer_op_vx (impl_vector_op_integer_vx_binary ExecDivSigned))
  | VDIVU_VX => Some (vec_integer_op_vx (impl_vector_op_integer_vx_binary ExecDivUnsigned))
  | VREM_VX => Some (vec_integer_op_vx (impl_vector_op_integer_vx_binary ExecRemSigned))
  | VREMU_VX => Some (vec_integer_op_vx (impl_vector_op_integer_vx_binary ExecRemUnsigned))
  | VAND_VX => Some (vec_integer_op_vx (impl_vector_op_integer_vx_binary (fun _ => ExecAnd)))
  | VOR_VX => Some (vec_integer_op_vx (impl_vector_op_integer_vx_binary (fun _ => ExecOr)))
  | VXOR_VX => Some (vec_integer_op_vx (impl_vector_op_integer_vx_binary (fun _ => ExecXor)))
  | VSRA_VX => Some (vec_integer_op_vx (impl_vector_op_integer_vx_binary ExecSRA))
  | VSRL_VX => Some (vec_integer_op_vx (impl_vector_op_integer_vx_binary ExecSRL))
  | VSLL_VX => Some (vec_integer_op_vx (impl_vector_op_integer_vx_binary ExecSLL))
  | VNSRL_WX => Some (vec_integer_spec_op NSRL_WX)
  | VNSRA_WX => Some (vec_integer_spec_op NSRA_WX)
  | VMSEQ_VX => Some (vec_integer_mask_op_vx (impl_vector_op_integer_mask_vx_binary (fun _ => ExecEqual)))
  | VMSNE_VX => Some (vec_integer_mask_op_vx (impl_vector_op_integer_mask_vx_binary (fun _ => ExecNotEqual)))
  | VMSLTU_VX => Some (vec_integer_mask_op_vx (impl_vector_op_integer_mask_vx_binary (fun _ => ExecUnsignedLess_bool)))
  | VMSLT_VX => Some (vec_integer_mask_op_vx (impl_vector_op_integer_mask_vx_binary ExecVSignedLess))
  | VMSLEU_VX => Some (vec_integer_mask_op_vx (impl_vector_op_integer_mask_vx_binary ExecUnsignedLessEqual))
  | VMSLE_VX => Some (vec_integer_mask_op_vx (impl_vector_op_integer_mask_vx_binary ExecSignedLessEqual))
  | VMSGTU_VX => Some (vec_integer_mask_op_vx (impl_vector_op_integer_mask_vx_binary ExecUnsignedGreaterX))
  | VMSGT_VX => Some (vec_integer_mask_op_vx (impl_vector_op_integer_mask_vx_binary ExecSignedGreaterX))
  | VADC_VXM => Some (vec_integer_op_vxm (impl_vector_op_integer_vxm_binary ExecAdc))
  | VMADC_VX => Some (vec_integer_mask_op_vx (impl_vector_op_integer_mask_vx_binary ExecAdcCarryNoCarry))
  | VMADC_VXM => Some (vec_integer_spec_op MADC_VXM)
  | VSBC_VXM => Some (vec_integer_op_vxm (impl_vector_op_integer_vxm_binary ExecSbc))
  | VMSBC_VX => Some (vec_integer_mask_op_vx (impl_vector_op_integer_mask_vx_binary ExecSbcBorrowNoBorrow))
  | VMSBC_VXM => Some (vec_integer_spec_op MSBC_VXM)
  | VMAX_VX => Some (vec_integer_op_vx (impl_vector_op_integer_vx_binary ExecMax))
  | VMAXU_VX => Some (vec_integer_op_vx (impl_vector_op_integer_vx_binary (fun _ => ExecMaxu)))
  | VMIN_VX => Some (vec_integer_op_vx (impl_vector_op_integer_vx_binary ExecMin))
  | VMINU_VX => Some (vec_integer_op_vx (impl_vector_op_integer_vx_binary (fun _ => ExecMinu)))
  | VMACC_VX => Some (vec_integer_op_vxv (impl_vector_op_integer_vxv_ternary ExecMacc))
  | VNMSAC_VX => Some (vec_integer_op_vxv (impl_vector_op_integer_vxv_ternary ExecNmsac))
  | VMADD_VX => Some (vec_integer_op_vxv (impl_vector_op_integer_vxv_ternary ExecMadd))
  | VNMSUB_VX => Some (vec_integer_op_vxv (impl_vector_op_integer_vxv_ternary ExecNmsub))
  | VMERGE_VXM => Some (vec_integer_op_vxm MergeVXM)
  | VMV_V_X => Some (vec_integer_spec_op MOVE_VX)
  | VSADDU_VX => Some (vec_fixed_point_op_vx (impl_fixed_point_vx_binary ExecSaturatingAddUnsigned))
  | VSADD_VX => Some (vec_fixed_point_op_vx (impl_fixed_point_vx_binary ExecSaturatingAddSigned))
  | VSSUBU_VX => Some (vec_fixed_point_op_vx (impl_fixed_point_vx_binary ExecSaturatingSubUnsigned))
  | VSSUB_VX => Some (vec_fixed_point_op_vx (impl_fixed_point_vx_binary ExecSaturatingSubSigned))
  | VAADDU_VX => Some (vec_fixed_point_op_vx (impl_fixed_point_vx_binary ExecAveragingAddUnsigned))
  | VAADD_VX => Some (vec_fixed_point_op_vx (impl_fixed_point_vx_binary ExecAveragingAddSigned))
  | VASUBU_VX => Some (vec_fixed_point_op_vx (impl_fixed_point_vx_binary ExecAveragingSubUnsigned))
  | VASUB_VX => Some (vec_fixed_point_op_vx (impl_fixed_point_vx_binary ExecAveragingSubSigned))
  | VSMUL_VX => Some (vec_fixed_point_op_vx (impl_fixed_point_vx_binary ExecSaturatingFractionalMul))
  | VSSRL_VX => Some (vec_fixed_point_op_vx (impl_fixed_point_vx_binary ExecScalingShiftRightLogical))
  | VSSRA_VX => Some (vec_fixed_point_op_vx (impl_fixed_point_vx_binary ExecScalingShiftRightArithmetic))
  | VNCLIPU_WX => Some (vec_fixed_point_narrowing_op_wx (impl_fixed_point_narrowing_vx_binary ExecNarrowingClipUnsigned))
  | VNCLIP_WX => Some (vec_fixed_point_narrowing_op_wx (impl_fixed_point_narrowing_vx_binary ExecNarrowingClipSigned))
  | VSLIDEUP_VX => Some (vec_integer_spec_op SLIDEUP_VX)
  | VSLIDEDOWN_VX => Some (vec_integer_spec_op SLIDEDOWN_VX)
  | VRGATHER_VX => Some (vec_integer_spec_op GATHER_VX)
  | _ => None
  end.

Definition rv_v_opivi (i : VInstr) : option VExec :=
  match i with
  | VADD_VI => Some (vec_integer_op_vi_signed (impl_vector_op_integer_vx_binary ExecAdd))
  | VRSUB_VI => Some (vec_integer_op_vi_signed (impl_vector_op_integer_vx_binary ExecRevSub))
  | VAND_VI => Some (vec_integer_op_vi_signed (impl_vector_op_integer_vx_binary (fun _ => ExecAnd)))
  | VOR_VI => Some (vec_integer_op_vi_signed (impl_vector_op_integer_vx_binary (fun _ => ExecOr)))
  | VXOR_VI => Some (vec_integer_op_vi_signed (impl_vector_op_integer_vx_binary (fun _ => ExecXor)))
  | VSRA_VI => Some (vec_integer_op_vi_unsigned (impl_vector_op_integer_vx_binary ExecSRA))
  | VSRL_VI => Some (vec_integer_op_vi_unsigned (impl_vector_op_integer_vx_binary ExecSRL))
  | VSLL_VI => Some (vec_integer_op_vi_unsigned (impl_vector_op_integer_vx_binary ExecSLL))
  | VNSRL_WI => Some (vec_integer_spec_op NSRL_WI)
  | VNSRA_WI => Some (vec_integer_spec_op NSRA_WI)
  | VMSEQ_VI => Some (vec_integer_mask_op_vi (impl_vector_op_integer_mask_vx_binary (fun _ => ExecEqual)))
  | VMSNE_VI => Some (vec_integer_mask_op_vi (impl_vector_op_integer_mask_vx_binary (fun _ => ExecNotEqual)))
  | VMSLEU_VI => Some (vec_integer_mask_op_vi (impl_vector_op_integer_mask_vx_binary ExecUnsignedLessEqual))
  | VMSLE_VI => Some (vec_integer_mask_op_vi (impl_vector_op_integer_mask_vx_binary ExecSignedLessEqual))
  | VMSGTU_VI => Some (vec_integer_mask_op_vi (impl_vector_op_integer_mask_vx_binary ExecUnsignedGreaterX))
  | VMSGT_VI => Some (vec_integer_mask_op_vi (impl_vector_op_integer_mask_vx_binary ExecSignedGreaterX))
  | VADC_VIM => Some (vec_integer_spec_op ADC_VIM)
  | VMADC_VI => Some (vec_integer_mask_op_vi (impl_vector_op_integer_mask_vx_binary ExecAdcCarryNoCarry))
  | VMADC_VIM => Some (vec_integer_spec_op MADC_VIM)
  | VMERGE_VIM => Some (vec_integer_spec_op MERGE_VIM)
  | VMV_V_I => Some (vec_integer_spec_op MOVE_VI)
  | VSADDU_VI => Some (vec_fixed_point_op_vi (impl_fixed_point_vx_binary ExecSaturatingAddUnsigned) true)
  | VSADD_VI => Some (vec_fixed_point_op_vi (impl_fixed_point_vx_binary ExecSaturatingAddSigned) true)
  | VSSRL_VI => Some (vec_fixed_point_op_vi (impl_fixed_point_vx_binary ExecScalingShiftRightLogical) false)
  | VSSRA_VI => Some (vec_fixed_point_op_vi (impl_fixed_point_vx_binary ExecScalingShiftRightArithmetic) false)
  | VNCLIPU_WI => Some (vec_fixed_point_narrowing_op_wi (impl_fixed_point_narrowing_vx_binary ExecNarrowingClipUnsigned))
  | VNCLIP_WI => Some (vec_fixed_point_narrowing_op_wi (impl_fixed_point_narrowing_vx_binary ExecNarrowingClipSigned))
  | VSLIDEUP_VI => Some (vec_integer_spec_op SLIDEUP_VI)
  | VSLIDEDOWN_VI => Some (vec_integer_spec_op SLIDEDOWN_VI)
  | VRGATHER_VI => Some (vec_integer_spec_op GATHER_VI)
  | VMV1R_V => Some (vec_whole_register_move_op_v 1)
  | VMV2R_V => Some (vec_whole_register_move_op_v 2)
  | VMV4R_V => Some (vec_whole_register_move_op_v 4)
  | VMV8R_V => Some (vec_whole_register_move_op_v 8)
  | _ => None
  end.

Definition rv_v_opmvv (i : VInstr) : option VExec :=
  match i with
  | VWADD_VV => Some (vec_widening_integer_op_vv (impl_vector_op_widening_integer_vv ExecWideningAdd signed))
  | VWADD_WV => Some (vec_widening_integer_op_wv (impl_vector_op_widening_integer_wv ExecWideningAdd signed))
  | VWADDU_VV => Some (vec_widening_integer_op_vv (impl_vector_op_widening_integer_vv ExecWideningAdd unsigned))
  | VWADDU_WV => Some (vec_widening_integer_op_wv (impl_vector_op_widening_integer_wv ExecWideningAdd unsigned))
  | VWSUB_VV => Some (vec_widening_integer_op_vv (impl_vector_op_widening_integer_vv ExecWideningSub signed))
  | VWSUB_WV => Some (vec_widening_integer_op_wv (impl_vector_op_widening_integer_wv ExecWideningSub signed))
  | VWSUBU_VV => Some (vec_widening_integer_op_vv (impl_vector_op_widening_integer_vv ExecWideningSub unsigned))
  | VWSUBU_WV => Some (vec_widening_integer_op_wv (impl_vector_op_widening_integer_wv ExecWideningSub unsigned))
  | VWMUL_VV => Some (vec_widening_integer_op_vv (impl_vector_op_widening_integer_vv ExecWideningMul signed))
  | VWMULU_VV => Some (vec_widening_integer_op_vv (impl_vector_op_widening_integer_vv ExecWideningMul unsigned))
  | VWMULSU_VV => Some (vec_widening_integer_op_vv (impl_vector_op_widening_integer_vv ExecWideningMul signed_unsigned))
  | VZEXT_VF2 => Some (vec_integer_ext_op_v (impl_vector_op_integer_v_unary_ext ExecZext 2) 2)
  | VZEXT_VF4 => Some (vec_integer_ext_op_v (impl_vector_op_integer_v_unary_ext ExecZext 4) 4)
  | VZEXT_VF8 => Some (vec_integer_ext_op_v (impl_vector_op_integer_v_unary_ext ExecZext 8) 8)
  | VSEXT_VF2 => Some (vec_integer_ext_op_v (impl_vector_op_integer_v_unary_ext ExecSext 2) 2)
  | VSEXT_VF4 => Some (vec_integer_ext_op_v (impl_vector_op_integer_v_unary_ext ExecSext 4) 4)
  | VSEXT_VF8 => Some (vec_integer_ext_op_v (impl_vector_op_integer_v_unary_ext ExecSext 8) 8)
  | VWMACCU_VV => Some (vec_widening_integer_op_vvv (impl_vector_op_widening_integer_vvv ExecWmacc unsigned))
  | VWMACC_VV => Some (vec_widening_integer_op_vvv (impl_vector_op_widening_integer_vvv ExecWmacc signed))
  | VWMACCSU_VV => Some (vec_widening_integer_op_vvv (impl_vector_op_widening_integer_vvv ExecWmacc signed_unsigned))
  | VCOMPRESS_VM => Some (vec_integer_spec_op COMPRESS_VM)
  | VMAND_MM => Some (vec_bit_op_vv (impl_vector_op_bit_vv_binary BitAnd))
  | VMNAND_MM => Some (vec_bit_op_vv (impl_vector_op_bit_vv_binary BitNand))
  | VMANDN_MM => Some (vec_bit_op_vv (impl_vector_op_bit_vv_binary BitAndn))
  | VMXOR_MM => Some (vec_bit_op_vv (impl_vector_op_bit_vv_binary BitXor))
  | VMOR_MM => Some (vec_bit_op_vv (impl_vector_op_bit_vv_binary BitOr))
  | VMNOR_MM => Some (vec_bit_op_vv (impl_vector_op_bit_vv_binary BitNor))
  | VMORN_MM => Some (vec_bit_op_vv (impl_vector_op_bit_vv_binary BitOrn))
  | VMXNOR_MM => Some (vec_bit_op_vv (impl_vector_op_bit_vv_binary BitXnor))
  | VCPOP_M => Some (vec_integer_spec_op CPOP_M)
  | VFIRST_M => Some (vec_integer_spec_op FIRST_M)
  | VMSBF_M => Some (vec_integer_spec_op MSBF_M)
  | VMSIF_M => Some (vec_integer_spec_op MSIF_M)
  | VMSOF_M => Some (vec_integer_spec_op MSOF_M)
  | VIOTA_M => Some (vec_integer_spec_op IOTA_M)
  | VID_V => Some (vec_integer_spec_op ID_V)
  | VMV_X_S => Some (vec_integer_spec_op MOVE_XS)
  | VMV_S_X => Some (vec_integer_spec_op MOVE_SX)
  | _ => None
  end.

Definition rv_v_opmvx (i : VInstr) : option VExec :=
  match i with
  | VWADD_VX => Some (vec_widening_integer_op_vx (impl_vector_op_widening_integer_vx ExecWideningAdd signed))
  | VWADD_WX => Some (vec_widening_integer_op_wx (impl_vector_op_widening_integer_wx ExecWideningAdd signed))
  | VWADDU_VX => Some (vec_widening_integer_op_vx (impl_vector_op_widening_integer_vx ExecWideningAdd unsigned))
  | VWADDU_WX => Some (vec_widening_integer_op_wx (impl_vector_op_widening_integer_wx ExecWideningAdd unsigned))
  | VWSUB_VX => Some (vec_widening_integer_op_vx (impl_vector_op_widening_integer_vx ExecWideningSub signed))
  | VWSUB_WX => Some (vec_widening_integer_op_wx (impl_vector_op_widening_integer_wx ExecWideningSub signed))
  | VWSUBU_VX => Some (vec_widening_integer_op_vx (impl_vector_op_widening_integer_vx ExecWideningSub unsigned))
  | VWSUBU_WX => Some (vec_widening_integer_op_wx (impl_vector_op_widening_integer_wx ExecWideningSub unsigned))
  | VWMUL_VX => Some (vec_widening_integer_op_vx (impl_vector_op_widening_integer_vx ExecWideningMul signed))
  | VWMULU_VX => Some (vec_widening_integer_op_vx (impl_vector_op_widening_integer_vx ExecWideningMul unsigned))
  | VWMULSU_VX => Some (vec_widening_integer_op_vx (impl_vector_op_widening_integer_vx ExecWideningMul signed_unsigned))
  | VWMACCU_VX => Some (vec_widening_integer_op_vxv (impl_vector_op_widening_integer_vxv ExecWmacc unsigned))
  | VWMACC_VX => Some (vec_widening_integer_op_vxv (impl_vector_op_widening_integer_vxv ExecWmacc signed))
  | VWMACCSU_VX => Some (vec_widening_integer_op_vxv (impl_vector_op_widening_integer_vxv ExecWmacc signed_unsigned))
  | VWMACCUS_VX => Some (vec_widening_integer_op_vxv (impl_vector_op_widening_integer_vxv ExecWmacc unsigned_signed))
  | VSLIDE1UP_VX => Some (vec_integer_spec_op SLIDE1UP_VX)
  | VSLIDE1DOWN_VX => Some (vec_integer_spec_op SLIDE1DOWN_VX)
  | _ => None
  end.

Definition rv_v_loads (i : VInstr) : option VExec :=
  match i with
  | VLM_V => Some vector_mask_load
  | VLE _ eew => Some (vector_unit_stride_load eew)
  | VLEFF _ _ => Some vector_unit_stride_fault_only_first_load
  | VLSE _ eew => Some (vector_constant_stride_load eew)
  | VLUXEI _ _ => Some vector_indexed_unordered_load
  | VLOXEI _ eew => Some (vector_indexed_ordered_load eew)
  | VLRE _ _ => Some vector_whole_register_load
  | _ => None
  end.

Definition rv_v_stores (i : VInstr) : option VExec :=
  match i with
  | VSM_V => Some vector_mask_store
  | VSR _ => Some vector_whole_register_store
  | VSE _ eew => Some (vector_unit_stride_store eew)
  | VSSE _ eew => Some (vector_constant_stride_store eew)
  | VSUXEI _ _ => Some vector_indexed_unordered_store
  | VSOXEI _ eew => Some (vector_indexed_ordered_store eew)
  | _ => None
  end.

Definition vector_exec_func (i : VInstr) : option VExec :=
  first_some [rv_v_config i; rv_v_opivv i; rv_v_opivx i; rv_v_opivi i; rv_v_opmvv i; rv_v_opmvx i; rv_v_loads i; rv_v_stores i].

(** Every vector instruction has an arm. *)
Lemma vector_exec_func_total i : is_Some (vector_exec_func i).
Proof. destruct i; cbn; eauto. Qed.
End Map.
