(* ===== verification/VectorSpec.v ===== *)
(** * Vector unit: elements, register groups and the element loop

    The lemmas the theorems about vector instructions share: elements of a run
    of bytes, the offsets an iterator yields, what a loop over the elements of
    the destination writes, and the frame of a register group in the register
    file. *)

From S2P Require Import Prelude Utils TrapTypes Alu Ram Mmio Vector VectorInt VectorArith.

(** ** Elements of a run of bytes *)

Definition bytes_ok (b : list Z) : Prop := Forall (uint 8) b.

Lemma lookup_z_Some {A} (l : list A) i x : lookup_z l i = Some x <-> 0 <= i < Z.of_nat (length l) /\ l !! Z.to_nat i = Some x.
Proof.
  unfold lookup_z. destruct (Z.leb_spec 0 i), (Z.ltb_spec i (Z.of_nat (length l))); cbn; naive_solver lia.
Qed.

Lemma length_store_le sz b off v : 0 <= sz -> 0 <= off -> off + sz <= Z.of_nat (length b) ->
  length (store_le sz b off v) = length b.
Proof.
  intros. unfold store_le. rewrite !length_app, length_take, length_drop.
  pose proof (length_Z_to_little_endian sz 8 v). lia.
Qed.

Lemma store_le_lookup_other sz b off v (i : nat) : 0 <= sz -> 0 <= off -> off + sz <= Z.of_nat (length b) ->
  Z.of_nat i < off \/ off + sz <= Z.of_nat i -> store_le sz b off v !! i = b !! i.
Proof.
  intros Hs Ho Hl Hi. pose proof (length_Z_to_little_endian sz 8 v Hs) as Hz. unfold store_le.
  destruct Hi.
  - rewrite lookup_app_l by (rewrite length_take; lia). apply lookup_take_lt. lia.
  - rewrite lookup_app_r by (rewrite length_take; lia). rewrite length_take.
    rewrite lookup_app_r by lia. rewrite lookup_drop. f_equal. lia.
Qed.

Lemma bytes_ok_store_le sz b off v : 0 <= sz -> bytes_ok b -> bytes_ok (store_le sz b off v).
Proof.
  intros Hs Hb. unfold bytes_ok, store_le. rewrite !Forall_app. split_and!.
  - by apply Forall_take.
  - by apply Z_to_little_endian_bound.
  - by apply Forall_drop.
Qed.

Lemma load_store_same sz b off v : 0 <= sz -> 0 <= off -> off + sz <= Z.of_nat (length b) ->
  load_le sz (store_le sz b off v) off = wrap (8 * sz) v.
Proof.
  intros Hs Ho Hl. pose proof (length_Z_to_little_endian sz 8 v Hs) as Hz. unfold load_le, store_le.
  rewrite drop_app_length' by (rewrite length_take; lia). rewrite take_app_length' by lia.
  rewrite little_endian_to_Z_to_little_endian by lia. unfold wrap. do 2 f_equal. lia.
Qed.

Lemma elem_load_ext sz b b' off : 0 <= off -> (forall i : nat, off <= Z.of_nat i < off + sz -> b !! i = b' !! i) ->
  load_le sz b off = load_le sz b' off.
Proof.
  intros Ho Hb. unfold load_le. f_equal. apply list_eq. intros i.
  destruct (decide (i < Z.to_nat sz)%nat).
  - rewrite !lookup_take_lt by lia. rewrite !lookup_drop. apply Hb. lia.
  - by rewrite !lookup_take_ge by lia.
Qed.

Lemma load_store_other sz sz' b off off' v : 0 <= sz -> 0 <= off -> off + sz <= Z.of_nat (length b) -> 0 <= off' ->
  off' + sz' <= off \/ off + sz <= off' -> load_le sz' (store_le sz b off v) off' = load_le sz' b off'.
Proof. intros. apply elem_load_ext; [done|]. intros i Hi. apply store_le_lookup_other; lia. Qed.

Lemma elem_load_range sz b off : 0 <= sz -> bytes_ok b -> uint (8 * sz) (load_le sz b off).
Proof.
  intros Hs Hb. unfold load_le.
  assert (Hf : Forall (fun x => 0 <= x < 2 ^ 8) (take (Z.to_nat sz) (drop (Z.to_nat off) b))) by (by apply Forall_take, Forall_drop).
  pose proof (little_endian_to_Z_bound 8 _ ltac:(lia) Hf) as Hr. unfold uint. split; [lia|].
  eapply Z.lt_le_trans; [apply Hr|]. apply Z.pow_le_mono_r; [lia|]. rewrite length_take. lia.
Qed.

Lemma length_elements sz b : 0 < sz -> Z.of_nat (length (elements sz b)) = Z.of_nat (length b) / sz.
Proof.
  intros. unfold elements. rewrite length_fmap, length_seqZ. rewrite Z2Nat.id; [done|]. apply Z.div_pos; lia.
Qed.

(** Element [i] of a slice. *)
Lemma lookup_elements sz b i : 0 < sz -> 0 <= i < Z.of_nat (length b) / sz ->
  lookup_z (elements sz b) i = Some (load_le sz b (i * sz)).
Proof.
  intros Hs Hi. apply lookup_z_Some. rewrite length_elements by done. split; [lia|].
  unfold elements. apply list_lookup_fmap_Some. exists i. split; [done|]. apply lookup_seqZ. lia.
Qed.

(** ** The iterator *)

Definition shape_ok (g : VGFRef) : Prop :=
  0 < sew g /\ 0 < seg g /\ 0 < lmul g /\ (sew g | VLEN_BYTE).

Definition total_elements (g : VGFRef) : Z := seg g * (seg_length g / sew g).
Definition offset_at (g : VGFRef) (k : Z) : Z := k / seg g * sew g + k mod seg g * seg_length g.

Lemma seg_length_pos g : shape_ok g -> 0 < seg_length g /\ seg_length g = seg_length g / sew g * sew g.
Proof.
  intros (Hw & Hs & Hl & Hd). unfold seg_length. assert (VLEN_BYTE = 16) as E by done. split; [lia|].
  rewrite (Z.mul_comm (_ / _)). apply Z.div_exact; [lia|]. apply Z.mod_divide; [lia|]. by apply Z.divide_mul_r.
Qed.

Lemma iter_from_spec g n k : shape_ok g -> 0 <= k -> total_elements g - k <= Z.of_nat n ->
  iter_from n g {| current_seg_index := k mod seg g; current_inner_index := k / seg g * sew g |} =
  offset_at g <$> seqZ k (total_elements g - k).
Proof.
  intros Hok. revert k. induction n as [|n IH]; intros k Hk Hn.
  { rewrite seqZ_nil by lia. done. }
  destruct (seg_length_pos g Hok) as [Hp He]. pose proof Hok as (Hw & Hs & Hl & _).
  set (N := seg_length g / sew g) in *.
  assert (HN : total_elements g = seg g * N) by done.
  pose proof (Z.div_mod k (seg g) ltac:(lia)) as Hdm. pose proof (Z.mod_pos_bound k (seg g) ltac:(lia)) as Hm.
  cbn [iter_from]. unfold iter_next. cbn [current_seg_index current_inner_index].
  destruct (Z.ltb_spec (k / seg g * sew g) (seg_length g)) as [Hlt|Hge].
  - assert (k / seg g < N) by (apply (Z.mul_lt_mono_pos_r (sew g)); lia).
    assert (k < total_elements g) by (rewrite HN; nia).
    rewrite (seqZ_cons k) by lia. cbn [fmap list_fmap]. f_equal.
    replace (Z.pred (total_elements g - k)) with (total_elements g - Z.succ k) by lia.
    rewrite <- (IH (Z.succ k)) by lia. f_equal.
    destruct (Z.eqb_spec (k mod seg g + 1) (seg g)) as [Hlast|Hnot].
    + assert (Z.succ k / seg g = k / seg g + 1) as -> by (symmetry; apply (Z.div_unique _ _ _ 0); lia).
      assert (Z.succ k mod seg g = 0) as -> by (symmetry; apply (Z.mod_unique _ _ (k / seg g + 1)); lia). f_equal. lia.
    + assert (Z.succ k / seg g = k / seg g) as -> by (symmetry; apply (Z.div_unique _ _ _ (k mod seg g + 1)); lia).
      assert (Z.succ k mod seg g = k mod seg g + 1) as -> by (symmetry; apply (Z.mod_unique _ _ (k / seg g)); lia). done.
  - assert (N <= k / seg g) by (apply (Z.mul_le_mono_pos_r _ _ (sew g)); lia).
    assert (total_elements g <= k) by (rewrite HN; nia). rewrite seqZ_nil by lia. done.
Qed.

(** The iterator yields every element of every field, field by field of each
    segment. *)
Lemma iter_spec g : shape_ok g -> iter g = offset_at g <$> seqZ 0 (total_elements g).
Proof.
  intros Hok. pose proof Hok as (Hw & Hs & Hl & _). destruct (seg_length_pos g Hok) as [Hp He]. unfold iter.
  pose proof (iter_from_spec g (Z.to_nat (seg g * seg_length g)) 0 Hok ltac:(lia)) as E.
  rewrite Z.sub_0_r in E. rewrite <- E.
  - rewrite Zmod_0_l, Z.div_0_l by lia. done.
  - unfold total_elements. rewrite Z2Nat.id by lia. apply Z.mul_le_mono_nonneg_l; [lia|].
    apply Z.div_le_upper_bound; nia.
Qed.

(** ** The element loop *)

(** The bytes of a group of this shape. *)
Definition group_fits (g : VGFRef) (b : list Z) : Prop := Z.of_nat (length b) = seg g * seg_length g.
Definition elem (g : VGFRef) (b : list Z) (i : Z) : Z := load_le (sew g) b (offset_at g i).
(** Element [i] replaced, or left alone. *)
Definition put_elem (g : VGFRef) (i : Z) (o : option Z) (b : list Z) : list Z :=
  match o with Some x => store_le (sew g) b (offset_at g i) x | None => b end.

Lemma offset_range g i : shape_ok g -> 0 <= i < total_elements g ->
  0 <= offset_at g i /\ offset_at g i + sew g <= seg g * seg_length g.
Proof.
  intros Hok Hi. destruct (seg_length_pos g Hok) as [Hp He]. pose proof Hok as (Hw & Hs & Hl & _).
  unfold total_elements, offset_at in *. set (N := seg_length g / sew g) in *.
  pose proof (Z.div_mod i (seg g) ltac:(lia)). pose proof (Z.mod_pos_bound i (seg g) ltac:(lia)).
  assert (0 <= i / seg g < N) by (split; [apply Z.div_pos; lia|apply Z.div_lt_upper_bound; lia]).
  set (q := i / seg g) in *. set (r := i mod seg g) in *. rewrite He. split; [nia|].
  assert (q * sew g + sew g <= N * sew g) by nia. assert (r * (N * sew g) + N * sew g <= seg g * (N * sew g)) by nia. lia.
Qed.

Lemma offset_disjoint g i j : shape_ok g -> 0 <= i < total_elements g -> 0 <= j < total_elements g -> i <> j ->
  offset_at g i + sew g <= offset_at g j \/ offset_at g j + sew g <= offset_at g i.
Proof.
  intros Hok Hi Hj Hne. destruct (seg_length_pos g Hok) as [Hp He]. pose proof Hok as (Hw & Hs & Hl & _).
  unfold total_elements, offset_at in *. set (N := seg_length g / sew g) in *.
  pose proof (Z.div_mod i (seg g) ltac:(lia)). pose proof (Z.mod_pos_bound i (seg g) ltac:(lia)).
  pose proof (Z.div_mod j (seg g) ltac:(lia)). pose proof (Z.mod_pos_bound j (seg g) ltac:(lia)).
  assert (0 <= i / seg g < N) by (split; [apply Z.div_pos; lia|apply Z.div_lt_upper_bound; lia]).
  assert (0 <= j / seg g < N) by (split; [apply Z.div_pos; lia|apply Z.div_lt_upper_bound; lia]).
  set (qi := i / seg g) in *. set (ri := i mod seg g) in *. set (qj := j / seg g) in *. set (rj := j mod seg g) in *.
  set (L := seg_length g) in *. assert (qi * sew g + sew g <= L) by nia. assert (qj * sew g + sew g <= L) by nia.
  destruct (Z.lt_trichotomy ri rj) as [Hr|[Hr|Hr]].
  - left. assert (ri * L + L <= rj * L) by nia. nia.
  - rewrite Hr in *. assert (qi <> qj) by (intros ->; apply Hne; lia). destruct (Z.lt_total qi qj) as [|[|]]; [left|lia|right]; nia.
  - right. assert (rj * L + L <= ri * L) by nia. nia.
Qed.

Lemma group_fits_put g i o b : shape_ok g -> group_fits g b -> 0 <= i < total_elements g -> group_fits g (put_elem g i o b).
Proof.
  intros Hok Hf Hi. destruct o as [x|]; [|done]. unfold group_fits in *. cbn.
  destruct (offset_range g i Hok Hi). destruct Hok as (Hw & _). rewrite length_store_le; lia.
Qed.

Lemma bytes_ok_put g i o b : shape_ok g -> bytes_ok b -> bytes_ok (put_elem g i o b).
Proof. intros (Hw & _) Hb. destruct o; [|done]. apply bytes_ok_store_le; [lia|done]. Qed.

Lemma elem_put g i j o b : shape_ok g -> group_fits g b -> 0 <= i < total_elements g -> 0 <= j < total_elements g ->
  elem g (put_elem g i o b) j = if decide (i = j) then default (elem g b j) (wrap (8 * sew g) <$> o) else elem g b j.
Proof.
  intros Hok Hf Hi Hj. destruct o as [x|]; cbn; [|by destruct (decide _)]. unfold elem.
  destruct (offset_range g i Hok Hi), (offset_range g j Hok Hj). pose proof Hok as (Hw & _).
  unfold group_fits in Hf. destruct (decide (i = j)) as [->|Hne].
  - apply load_store_same; lia.
  - apply load_store_other; [lia..|]. destruct (offset_disjoint g i j Hok Hi Hj Hne); lia.
Qed.

Section Loop.
Context {S E : Type} (emb : list Z -> S) (g : VGFRef) (w : Z -> option Z) (body : Z -> Z -> M S E unit) (lo hi : Z).
Hypothesis Hok : shape_ok g.
Hypothesis Hrange : 0 <= lo /\ hi <= total_elements g.
Hypothesis Hbody : forall i b, lo <= i < hi -> group_fits g b ->
  body i (offset_at g i) (emb b) = (Ok tt, emb (put_elem g i (w i) b)).

(** A loop whose body writes element [i] with [w i], or leaves it, does so for
    every element of its range and nothing else. *)
Lemma for_enumerate_elements b : group_fits g b -> exists b',
  for_enumerate lo (offset_at g <$> seqZ lo (hi - lo)) body (emb b) = (Ok tt, emb b') /\
  group_fits g b' /\ (bytes_ok b -> bytes_ok b') /\
  forall j, 0 <= j < total_elements g ->
    elem g b' j = if decide (lo <= j < hi) then default (elem g b j) (wrap (8 * sew g) <$> w j) else elem g b j.
Proof.
  assert (Hgen : forall n k b, Z.of_nat n = Z.max 0 (hi - k) -> lo <= k -> group_fits g b -> exists b',
    for_enumerate k (offset_at g <$> seqZ k (hi - k)) body (emb b) = (Ok tt, emb b') /\
    group_fits g b' /\ (bytes_ok b -> bytes_ok b') /\
    forall j, 0 <= j < total_elements g ->
      elem g b' j = if decide (k <= j < hi) then default (elem g b j) (wrap (8 * sew g) <$> w j) else elem g b j).
  { intros n. induction n as [|n IH]; intros k b0 Hn Hk Hf.
    { rewrite seqZ_nil by lia. exists b0. split_and!; try done. intros j Hj. rewrite decide_False by lia. done. }
    rewrite seqZ_cons by lia. cbn [fmap list_fmap for_enumerate].
    erewrite bind_Ok by (apply Hbody; [lia|done]).
    replace (Z.pred (hi - k)) with (hi - (k + 1)) by lia. replace (Z.succ k) with (k + 1) by lia.
    destruct (IH (k + 1) (put_elem g k (w k) b0)) as (b' & Hrun & Hf' & Hb' & He); [lia|lia|by apply group_fits_put; [| |lia]|].
    exists b'. split_and!; [done|done|intros Hb0; by apply Hb', bytes_ok_put|].
    intros j Hj. rewrite He by done. rewrite elem_put by (done || lia).
    destruct (decide (k + 1 <= j < hi)), (decide (k = j)), (decide (k <= j < hi)); try lia; by subst. }
  intros Hf. apply (Hgen (Z.to_nat (Z.max 0 (hi - lo))) lo b); [lia|lia|done].
Qed.
End Loop.

Section Elements.
Context `{Profile}.

Lemma sew_value g b : sew (set_value g b) = sew g.
Proof. done. Qed.

Lemma elem_set_run {E} t g i x b : shape_ok g -> sew g = size_of t -> group_fits g b -> 0 <= i < total_elements g ->
  elem_set (E := E) t (offset_at g i) x (set_value g b) = (Ok tt, set_value g (put_elem g i (Some x) b)).
Proof.
  intros Hok Hw Hf Hi. destruct (offset_range g i Hok Hi). unfold elem_set, debug_assert. erewrite bind_Ok by reflexivity.
  cbn beta. unfold id. rewrite sew_value, Hw, Z.eqb_refl. erewrite bind_Ok by (by destruct debug_assertions).
  cbn [value set_value]. unfold group_fits in Hf.
  rewrite (proj2 (Z.leb_le 0 (offset_at g i))), (proj2 (Z.leb_le (offset_at g i + size_of t) _)) by lia.
  erewrite bind_Ok by reflexivity. cbn. by rewrite Hw.
Qed.

Lemma element_load_run {E} t k g i x b : shape_ok g -> sew g = size_of t -> group_fits g b -> 0 <= i < total_elements g ->
  element_load (E := E) t k (offset_at g i) x i (set_value g b) = (Ok tt, set_value g (put_elem g i (mask_value 0 k x i) b)).
Proof. intros. unfold element_load. destruct (mask_value 0 k x i); [by apply elem_set_run|done]. Qed.

(** The loop of most operations. *)
Lemma load_elements_run t k f v g : shape_ok g -> sew g = size_of t -> group_fits g (value g) ->
  (forall i b, 0 <= i < total_elements g -> f i (set_value g b) = (Ok (v i), set_value g b)) ->
  exists b', load_elements t k f g = (Ok tt, set_value g b') /\ group_fits g b' /\ (bytes_ok (value g) -> bytes_ok b') /\
    forall j, 0 <= j < total_elements g ->
      elem g b' j = default (elem g (value g) j) (wrap (8 * sew g) <$> mask_value 0 k (v j) j).
Proof.
  intros Hok Hw Hf Hv. unfold load_elements. erewrite bind_Ok by reflexivity. cbn beta. unfold id. rewrite iter_spec by done.
  destruct (for_enumerate_elements (E := Exception) (set_value g) g (fun i => mask_value 0 k (v i) i)
              (fun index element => x <- f index ;; element_load t k element x index) 0 (total_elements g) Hok ltac:(lia))
    with (b := value g) as (b' & Hrun & Hf' & Hb & He); [|done|].
  { intros i b Hi Hfb. erewrite bind_Ok by (apply Hv; lia). by apply element_load_run. }
  exists b'. rewrite Z.sub_0_r in Hrun. replace (set_value g (value g)) with g in Hrun by (by destruct g).
  split_and!; [done..|]. intros j Hj. rewrite He by done. by rewrite decide_True by lia.
Qed.
End Elements.

(** ** Register groups *)

Definition vregs_ok (r : VectorRegFile) : Prop := Z.of_nat (length r) = 32 * VLEN_BYTE /\ bytes_ok r.
Definition legal (m idx : Z) : Prop := legal_group m = true /\ 0 <= idx < 32 /\ idx mod m = 0.
(** Element [i] of width [w] of the group that starts at register [idx]. *)
Definition reg_elem (r : VectorRegFile) (w idx i : Z) : Z := load_le w r (VLEN_BYTE * idx + i * w).

Lemma legal_group_cases m : legal_group m = true -> m = 1 \/ m = 2 \/ m = 4 \/ m = 8.
Proof. unfold legal_group. rewrite !orb_true_iff, !Z.eqb_eq. lia. Qed.

(** A legal group lies in the register file. *)
Lemma legal_bound m idx : legal m idx -> 0 < m /\ 0 <= idx /\ idx + m <= 32.
Proof.
  intros (Hm & Hi & Hd). apply legal_group_cases in Hm. split_and!; [lia..|].
  apply Z.mod_divide in Hd as [q ->]; [|lia]. destruct Hm as [-> | [-> | [-> | ->]]]; lia.
Qed.

#[global] Instance legal_dec m idx : Decision (legal m idx).
Proof. unfold legal. apply _. Defined.

Section Groups.
Context `{Profile}.

Lemma group_offset_ok {S} m idx (s : S) : legal m idx -> group_offset m idx s = (Ok (VLEN_BYTE * idx), s).
Proof.
  intros (Hm & Hi & Hd). unfold group_offset, debug_assert. rewrite (proj2 (Z.ltb_lt idx 32)) by lia.
  erewrite bind_Ok by (by destruct debug_assertions). rewrite Hm, Hd. cbn. done.
Qed.

Lemma group_offset_illegal {S} m idx (s : S) : 0 <= idx < 32 -> ~ legal m idx -> group_offset m idx s = (Err IllegalInstruction, s).
Proof.
  intros Hi Hn. unfold group_offset, debug_assert. rewrite (proj2 (Z.ltb_lt idx 32)) by lia.
  erewrite bind_Ok by (by destruct debug_assertions).
  destruct (legal_group m) eqn:Hm; [|done]. destruct (Z.eqb_spec (idx mod m) 0); [|done]. by destruct Hn.
Qed.

Lemma length_group_bytes r m idx : vregs_ok r -> legal m idx ->
  Z.of_nat (length (group_bytes r (VLEN_BYTE * idx) m)) = VLEN_BYTE * m.
Proof.
  intros [Hr _] Hl. destruct (legal_bound m idx Hl) as (Hm & Hi & Hs). unfold group_bytes.
  rewrite length_take, length_drop. assert (VLEN_BYTE = 16) by done. lia.
Qed.

Lemma load_group r m idx w o : vregs_ok r -> legal m idx -> 0 <= w -> 0 <= o -> o + w <= VLEN_BYTE * m ->
  load_le w (group_bytes r (VLEN_BYTE * idx) m) o = load_le w r (VLEN_BYTE * idx + o).
Proof.
  intros [Hr _] Hl Hw Ho Hs. destruct (legal_bound m idx Hl) as (Hm & Hi & _). assert (VLEN_BYTE = 16) by done.
  unfold load_le, group_bytes. f_equal. apply list_eq. intros i.
  destruct (decide (i < Z.to_nat w)%nat); [|by rewrite !lookup_take_ge by lia].
  rewrite !lookup_take_lt by lia. rewrite !lookup_drop. rewrite lookup_take_lt by lia. rewrite lookup_drop. f_equal. lia.
Qed.

Lemma bytes_ok_group r off m : bytes_ok r -> bytes_ok (group_bytes r off m).
Proof. intros. by apply Forall_take, Forall_drop. Qed.

(** Writing a group back. *)
Lemma put_group_ok r m idx b : vregs_ok r -> legal m idx -> Z.of_nat (length b) = VLEN_BYTE * m -> bytes_ok b ->
  vregs_ok (put_group r (VLEN_BYTE * idx) m b).
Proof.
  intros [Hr Hrb] Hl Hlen Hb. destruct (legal_bound m idx Hl) as (Hm & Hi & Hs). assert (VLEN_BYTE = 16) by done.
  unfold put_group. split.
  - rewrite !length_app, length_take, length_drop. lia.
  - unfold bytes_ok. rewrite !Forall_app. split_and!; [by apply Forall_take|done|by apply Forall_drop].
Qed.

Lemma put_group_inside r m idx b w o : vregs_ok r -> legal m idx -> Z.of_nat (length b) = VLEN_BYTE * m ->
  0 <= o -> 0 <= w -> o + w <= VLEN_BYTE * m -> load_le w (put_group r (VLEN_BYTE * idx) m b) (VLEN_BYTE * idx + o) = load_le w b o.
Proof.
  intros [Hr _] Hl Hlen Ho Hw Hs. destruct (legal_bound m idx Hl) as (Hm & Hi & Hb). assert (VLEN_BYTE = 16) by done.
  unfold load_le, put_group. f_equal. apply list_eq. intros i.
  destruct (decide (i < Z.to_nat w)%nat); [|by rewrite !lookup_take_ge by lia].
  rewrite !lookup_take_lt by lia. rewrite !lookup_drop.
  rewrite lookup_app_r by (rewrite length_take; lia). rewrite length_take.
  rewrite lookup_app_l by lia. f_equal. lia.
Qed.

Lemma put_group_outside r m idx b (i : nat) : vregs_ok r -> legal m idx -> Z.of_nat (length b) = VLEN_BYTE * m ->
  Z.of_nat i < VLEN_BYTE * idx \/ VLEN_BYTE * (idx + m) <= Z.of_nat i -> put_group r (VLEN_BYTE * idx) m b !! i = r !! i.
Proof.
  intros [Hr _] Hl Hlen Hi. destruct (legal_bound m idx Hl) as (Hm & Hi0 & Hb). assert (VLEN_BYTE = 16) by done.
  unfold put_group, VectorRegFile in *. destruct Hi.
  - rewrite lookup_app_l by (rewrite length_take; lia). apply lookup_take_lt. lia.
  - rewrite lookup_app_r by (rewrite length_take; lia). rewrite length_take, lookup_app_r by lia.
    rewrite lookup_drop. f_equal. lia.
Qed.
End Groups.

(** ** What an operation sees and what it changes *)

(** The unsegmented group at register [idx]. *)
Definition group1 (r : VectorRegFile) (idx w lm : Z) : VGFRef :=
  {| value := group_bytes r (VLEN_BYTE * idx) lm; sew := w; lmul := lm; seg := 1 |}.

Definition width_ok (w : Z) : Prop := w = 1 \/ w = 2 \/ w = 4 \/ w = 8.
(** VLMAX: the elements of width [w] that [lm] registers hold. *)
Definition vlmax (w lm : Z) : Z := VLEN_BYTE * lm / w.

(** The result of an operation: element [j] of the destination becomes [new j],
    or stays as it was; no other register changes. *)
Definition vd_written (v v' : Vector) (vd w lm : Z) (new : Z -> option Z) : Prop :=
  config v' = config v /\ vregs_ok (vector_regfile v') /\
  (forall j, 0 <= j < vlmax w lm ->
     reg_elem (vector_regfile v') w vd j = default (reg_elem (vector_regfile v) w vd j) (new j)) /\
  (forall i : nat, Z.of_nat i < VLEN_BYTE * vd \/ VLEN_BYTE * (vd + lm) <= Z.of_nat i ->
     vector_regfile v' !! i = vector_regfile v !! i).

Lemma vd_written_ext v v' vd w lm f g : (forall j, 0 <= j < vlmax w lm -> f j = g j) -> vd_written v v' vd w lm f -> vd_written v v' vd w lm g.
Proof. intros Hfg (Hc & Hr & He & Ho). split_and!; [done|done| |done]. intros j Hj. rewrite He by done. by rewrite Hfg. Qed.

(** One write after another. *)
Lemma vd_written_trans v v1 v2 vd w lm f g : vd_written v v1 vd w lm f -> vd_written v1 v2 vd w lm g ->
  vd_written v v2 vd w lm (fun j => match g j with Some y => Some y | None => f j end).
Proof.
  intros (Hc1 & Hr1 & He1 & Ho1) (Hc2 & Hr2 & He2 & Ho2). split_and!; [congruence|done| |].
  - intros j Hj. rewrite He2 by done. destruct (g j); [done|]. by apply He1.
  - intros i Hi. rewrite Ho2 by done. by apply Ho1.
Qed.

(** Bit [i] of the mask register [v0]. *)
Definition mask_reg_bit (r : VectorRegFile) (idx i : Z) : bool := Z.testbit (reg_elem r 1 idx (i / 8)) (i mod 8).

(** What becomes of element [i]: elements before [vstart] are kept; tail
    elements, and elements the mask turns off, are kept or, when agnostic, get
    the default value, zero (the vector extension allows the old value or all
    ones there); the others receive the result [x]. *)
Definition arch_value {T} (zero : T) (v : Vector) (enable_mask : bool) (vstart : Z) (x : T) (i : Z) : option T :=
  if i <? vstart then None
  else if vl (config v) <=? i then (if tail_agnostic (config v) then Some zero else None)
  else if enable_mask && negb (mask_reg_bit (vector_regfile v) 0 i) then (if mask_agnostic (config v) then Some zero else None)
  else Some x.

Lemma into_byte_width_ok e : width_ok (into_byte_width e).
Proof. destruct e; unfold width_ok; cbn; lia. Qed.

Lemma size_of_ty e : size_of (ty_of e) = into_byte_width e.
Proof. by destruct e. Qed.

Lemma get_lmul_legal l : legal_group (get_lmul l) = true.
Proof. by destruct l. Qed.

Lemma group1_shape r idx w lm : width_ok w -> 0 < lm -> shape_ok (group1 r idx w lm).
Proof.
  intros Hw Hl. unfold shape_ok. cbn. split_and!; try lia; [unfold width_ok in Hw; lia|].
  destruct Hw as [-> | [-> | [-> | ->]]]; [exists 16|exists 8|exists 4|exists 2]; done.
Qed.

Lemma group1_total r idx w lm : total_elements (group1 r idx w lm) = vlmax w lm.
Proof. unfold total_elements, vlmax, seg_length. cbn [seg lmul sew group1]. rewrite Z.mul_1_l. by rewrite Z.mul_comm. Qed.

Lemma group1_offset r idx w lm i : offset_at (group1 r idx w lm) i = i * w.
Proof. unfold offset_at. cbn [seg sew group1]. rewrite Z.div_1_r, Z.mod_1_r. lia. Qed.

Lemma group1_elem r idx w lm b i : elem (group1 r idx w lm) b i = load_le w b (i * w).
Proof. unfold elem. by rewrite group1_offset. Qed.

Lemma group1_fits r idx w lm b : group_fits (group1 r idx w lm) b <-> Z.of_nat (length b) = VLEN_BYTE * lm.
Proof. unfold group_fits, seg_length. cbn [seg lmul group1]. rewrite Z.mul_1_l. by rewrite Z.mul_comm. Qed.

Lemma vlmax_bound w lm i : width_ok w -> 0 < lm -> 0 <= i < vlmax w lm -> 0 <= i * w /\ i * w + w <= VLEN_BYTE * lm.
Proof.
  unfold vlmax. intros Hw Hl Hi. assert (0 < w) by (unfold width_ok in Hw; lia).
  pose proof (Z.mul_div_le (VLEN_BYTE * lm) w ltac:(lia)). split; [lia|]. nia.
Qed.

Lemma bit_testbit byte i : 0 <= i < 8 -> (Z.land byte (shl 8 1 i) =? shl 8 1 i) = Z.testbit byte i.
Proof.
  intros Hi. rewrite shl_1 by done. destruct (Z.testbit byte i) eqn:Hb.
  - apply Z.eqb_eq. apply Z.bits_inj'. intros n Hn. rewrite Z.land_spec, Z.pow2_bits_eqb by lia.
    destruct (Z.eqb_spec i n) as [->|]; [by rewrite Hb|by rewrite andb_false_r].
  - apply Z.eqb_neq. intros Heq. apply (f_equal (fun z => Z.testbit z i)) in Heq.
    rewrite Z.land_spec, Hb, Z.pow2_bits_true in Heq by lia. done.
Qed.

Lemma reg_elem_byte r idx i : vregs_ok r -> 0 <= idx -> 0 <= i -> VLEN_BYTE * idx + i < 32 * VLEN_BYTE ->
  r !! Z.to_nat (VLEN_BYTE * idx + i) = Some (reg_elem r 1 idx i).
Proof.
  intros [Hr Hb] Hx Hi Hl. assert (VLEN_BYTE = 16) as EV by done. rewrite EV in *. unfold reg_elem, load_le, VectorRegFile in *. rewrite EV, Z.mul_1_r.
  destruct (lookup_lt_is_Some_2 r (Z.to_nat (16 * idx + i)) ltac:(lia)) as [x Hx'].
  rewrite (drop_S _ _ _ Hx'), Hx'. change (Z.to_nat 1) with 1%nat. cbn [take little_endian_to_Z].
  by rewrite Z.shiftl_0_l, Z.lor_0_r.
Qed.

Section Drivers.
Context `{Profile}.

Lemma legal_v0 : legal 1 0.
Proof. done. Qed.

Definition cfg_mask (v : Vector) (enable_mask : bool) (vstart : Z) : VecOpMask := {|
  mask_bit := if enable_mask then Some (group_bytes (vector_regfile v) 0 1) else None;
  op_start := vstart; op_length := vl (config v);
  op_mask_agnostic := mask_agnostic (config v); op_tail_agnostic := tail_agnostic (config v) |}.

Lemma arith_mask_run v em vstart : arith_mask em vstart v = (Ok (cfg_mask v em vstart), v).
Proof.
  unfold arith_mask, new_with_start, read_as_type. erewrite bind_Ok by reflexivity. cbn beta. unfold id. destruct em; [|done].
  erewrite bind_Ok; [reflexivity|]. erewrite bind_Ok; [reflexivity|].
  by erewrite bind_Ok by (apply group_offset_ok, legal_v0).
Qed.

Lemma mask_bit_spec v vstart em i : vregs_ok (vector_regfile v) -> 0 <= i < 128 ->
  bit (cfg_mask v em vstart) i = negb em || mask_reg_bit (vector_regfile v) 0 i.
Proof.
  intros Hr Hi. unfold bit. destruct em; [|done]. cbn [mask_bit cfg_mask negb orb].
  pose proof (length_group_bytes _ 1 0 Hr legal_v0) as Hl. rewrite Z.mul_0_r in Hl. assert (EV : VLEN_BYTE = 16) by done.
  assert (0 <= i / 8 < 16) by (split; [apply Z.div_pos; lia|apply Z.div_lt_upper_bound; lia]).
  pose proof (Z.mod_pos_bound i 8 ltac:(lia)).
  assert (lookup_z (group_bytes (vector_regfile v) 0 1) (i / 8) = Some (reg_elem (vector_regfile v) 1 0 (i / 8))) as ->.
  { apply lookup_z_Some. split; [lia|]. unfold group_bytes. rewrite lookup_take_lt by lia. rewrite lookup_drop.
    rewrite <- reg_elem_byte by (done || lia). by f_equal. }
  cbv zeta. rewrite bit_testbit by lia. done.
Qed.

(** The mask object of the code decides as the specification does. *)
Lemma mask_value_arch {T} (zero : T) v em vstart x i : vregs_ok (vector_regfile v) -> 0 <= i < 128 ->
  mask_value zero (cfg_mask v em vstart) x i = arch_value zero v em vstart x i.
Proof.
  intros Hr Hi. unfold mask_value, arch_value. rewrite mask_bit_spec by done. cbn [op_start op_length op_tail_agnostic op_mask_agnostic cfg_mask].
  destruct em, (mask_reg_bit (vector_regfile v) 0 i); done.
Qed.

Lemma source_run v idx w lm : legal lm idx -> source idx w lm v = (Ok (group1 (vector_regfile v) idx w lm), v).
Proof.
  intros Hl. unfold source, get_ref, read_as_type. erewrite bind_Ok by reflexivity. cbn beta. unfold id.
  rewrite Z.mul_1_r. erewrite bind_Ok; [reflexivity|]. by erewrite bind_Ok by (by apply group_offset_ok).
Qed.

Lemma source_illegal v idx w lm : 0 <= idx < 32 -> ~ legal lm idx -> source idx w lm v = (Err IllegalInstruction, v).
Proof.
  intros Hi Hl. unfold source, get_ref, read_as_type. erewrite bind_Ok by reflexivity. cbn beta. unfold id.
  rewrite Z.mul_1_r. erewrite bind_Err; [reflexivity|]. by erewrite bind_Err by (by apply group_offset_illegal).
Qed.

Lemma as_slice_run {S E} t g (s : S) : sew g = size_of t -> as_slice (E := E) t g s = (Ok (elements (sew g) (value g)), s).
Proof. intros Hw. unfold as_slice. by rewrite Hw, Z.eqb_refl. Qed.

Lemma at_source {S E} r idx w lm i (s : S) : vregs_ok r -> legal lm idx -> width_ok w -> 0 <= i < vlmax w lm ->
  at_ (E := E) (elements w (value (group1 r idx w lm))) i s = (Ok (reg_elem r w idx i), s).
Proof.
  intros Hr Hl Hw Hi. unfold at_, unwrap. destruct (legal_bound lm idx Hl) as (Hm & _). cbn [value group1].
  assert (0 < w) by (unfold width_ok in Hw; lia). destruct (vlmax_bound w lm i Hw Hm Hi).
  rewrite lookup_elements; [|done|by rewrite length_group_bytes by done].
  rewrite load_group by (done || lia). done.
Qed.

(** Writing back a group whose elements are [new], or as they were. *)
Lemma put_group_written v vd w lm b new : vregs_ok (vector_regfile v) -> legal lm vd -> width_ok w ->
  Z.of_nat (length b) = VLEN_BYTE * lm -> (bytes_ok (group_bytes (vector_regfile v) (VLEN_BYTE * vd) lm) -> bytes_ok b) ->
  (forall j, 0 <= j < vlmax w lm -> load_le w b (j * w) = default (reg_elem (vector_regfile v) w vd j) (new j)) ->
  vd_written v (set_regfile v (put_group (vector_regfile v) (VLEN_BYTE * vd) lm b)) vd w lm new.
Proof.
  intros Hr Hl Hw Hlen Hb He. destruct (legal_bound lm vd Hl) as (Hm & Hi & Hs). pose proof Hr as [Hr1 Hr2].
  split_and!; [done| | |].
  - apply put_group_ok; try done. by apply Hb, bytes_ok_group.
  - intros j Hj. cbn [vector_regfile set_regfile]. destruct (vlmax_bound w lm j Hw Hm Hj). assert (0 < w) by (unfold width_ok in Hw; lia).
    unfold reg_elem at 1. rewrite put_group_inside by (done || lia). by apply He.
  - intros i Hi'. by apply put_group_outside.
Qed.

(** Running an operation on the destination group. *)
Lemma into_vd_run {A} v vd w lm (op : M VGFRef Exception A) (a : A) new : vregs_ok (vector_regfile v) -> legal lm vd -> width_ok w ->
  (exists b, op (group1 (vector_regfile v) vd w lm) = (Ok a, set_value (group1 (vector_regfile v) vd w lm) b) /\
     Z.of_nat (length b) = VLEN_BYTE * lm /\ (bytes_ok (group_bytes (vector_regfile v) (VLEN_BYTE * vd) lm) -> bytes_ok b) /\
     forall j, 0 <= j < vlmax w lm -> load_le w b (j * w) = default (reg_elem (vector_regfile v) w vd j) (new j)) ->
  exists v', into_vd vd w lm op v = (Ok a, v') /\ vd_written v v' vd w lm new.
Proof.
  intros Hr Hl Hw (b & Hop & Hlen & Hb & He). destruct (legal_bound lm vd Hl) as (Hm & Hi & Hs).
  assert (Hmod : (Z.of_nat (length (group_bytes (vector_regfile v) (VLEN_BYTE * vd) lm)) mod lm =? 0) = true).
  { rewrite length_group_bytes by done. apply Z.eqb_eq, Z_mod_mult. }
  exists (set_regfile v (put_group (vector_regfile v) (VLEN_BYTE * vd) lm b)). split.
  - unfold into_vd, zoom at 1. unfold with_group. rewrite Z.mul_1_r. erewrite bind_Ok by (by apply group_offset_ok).
    unfold zoom. cbn beta. fold (group1 (vector_regfile v) vd w lm).
    erewrite bind_Ok by reflexivity. unfold id. cbn [value group1]. rewrite Hmod.
    erewrite bind_Ok by reflexivity. rewrite Hop. cbn [value set_value]. done.
  - by apply put_group_written.
Qed.

Lemma into_vd_illegal {A} v vd w lm (op : M VGFRef Exception A) : 0 <= vd < 32 -> ~ legal lm vd ->
  into_vd vd w lm op v = (Err IllegalInstruction, v).
Proof.
  intros Hi Hl. unfold into_vd, zoom, with_group. rewrite Z.mul_1_r.
  erewrite bind_Err by (by apply group_offset_illegal). by destruct v.
Qed.

(** The operations whose body is [load_elements]. *)
Lemma load_into_vd v vd w lm t em vstart op f x : vregs_ok (vector_regfile v) -> legal lm vd -> width_ok w -> w = size_of t ->
  (forall g, g = group1 (vector_regfile v) vd w lm -> op g = load_elements t (cfg_mask v em vstart) f g) ->
  (forall i s, 0 <= i < vlmax w lm -> f i s = (Ok (x i), s)) ->
  exists v', into_vd vd w lm op v = (Ok tt, v') /\
    vd_written v v' vd w lm (fun j => wrap (8 * w) <$> arch_value 0 v em vstart (x j) j).
Proof.
  intros Hr Hl Hw Hwt Hop Hx. destruct (legal_bound lm vd Hl) as (Hm & Hi & Hs). apply into_vd_run; [done..|].
  set (g := group1 (vector_regfile v) vd w lm) in *.
  destruct (load_elements_run t (cfg_mask v em vstart) f x g) as (b & Hrun & Hf & Hb & He).
  - by apply group1_shape.
  - done.
  - apply group1_fits. by apply length_group_bytes.
  - intros i b Hib. apply Hx. by rewrite <- (group1_total (vector_regfile v) vd).
  - exists b. rewrite (Hop g eq_refl), Hrun. split_and!; [done|by apply group1_fits in Hf|done|].
    intros j Hj. specialize (He j). unfold g in He. rewrite group1_total, !group1_elem in He. cbn [sew value group1] in He.
    rewrite He by done. destruct (vlmax_bound w lm j Hw Hm Hj). assert (0 < w) by (unfold width_ok in Hw; lia).
    rewrite load_group by (done || lia). assert (VLEN_BYTE = 16) by done. destruct Hl as (Hlg & _). apply legal_group_cases in Hlg.
    rewrite mask_value_arch; [done|done|nia].
Qed.

(** The same for results of the element width, which the store does not cut. *)
Lemma load_words_into_vd v vd w lm t em vstart op f x : vregs_ok (vector_regfile v) -> legal lm vd -> width_ok w -> w = size_of t ->
  (forall g, g = group1 (vector_regfile v) vd w lm -> op g = load_elements t (cfg_mask v em vstart) f g) ->
  (forall i s, 0 <= i < vlmax w lm -> f i s = (Ok (x i), s) /\ uint (8 * w) (x i)) ->
  exists v', into_vd vd w lm op v = (Ok tt, v') /\ vd_written v v' vd w lm (fun j => arch_value 0 v em vstart (x j) j).
Proof.
  intros Hr Hl Hw Hwt Hop Hf.
  destruct (load_into_vd v vd w lm t em vstart op f x) as (v' & Hrun & Hc & Hreg & He & Ho); try done; [by intros; apply Hf|].
  exists v'. split; [done|]. split_and!; [done|done| |done]. intros j Hj. rewrite He by done. f_equal.
  destruct (Hf j (group1 (vector_regfile v) vd w lm) Hj) as [_ Hu]. unfold arch_value.
  assert (wrap (8 * w) 0 = 0) as Ew0 by (unfold wrap; apply Zmod_0_l).
  destruct (_ <? _); [done|]. destruct (_ <=? _); [by destruct (tail_agnostic _); cbn; rewrite ?Ew0|].
  destruct (_ && _); [by destruct (mask_agnostic _); cbn; rewrite ?Ew0|]. cbn. by rewrite wrap_small.
Qed.

Lemma into_vd_unfold {A} v vd w lm (op : M VGFRef Exception A) : vregs_ok (vector_regfile v) -> legal lm vd ->
  into_vd vd w lm op v = (let '(r, g) := op (group1 (vector_regfile v) vd w lm) in
                          (r, set_regfile v (put_group (vector_regfile v) (VLEN_BYTE * vd) lm (value g)))).
Proof.
  intros Hr Hl. unfold into_vd, zoom, with_group. rewrite Z.mul_1_r.
  erewrite bind_Ok by (by apply group_offset_ok). unfold zoom. cbn beta. fold (group1 (vector_regfile v) vd w lm).
  erewrite bind_Ok by reflexivity. unfold id. cbn [value group1]. rewrite length_group_bytes by done. rewrite Z_mod_mult, Z.eqb_refl.
  erewrite bind_Ok by reflexivity. by destruct (op _).
Qed.

Lemma into_vd_transfer {A B} v vd w lm (op1 : M VGFRef Exception A) (op2 : M VGFRef Exception B) a b v' :
  vregs_ok (vector_regfile v) -> legal lm vd -> into_vd vd w lm op1 v = (Ok a, v') ->
  (forall g', op1 (group1 (vector_regfile v) vd w lm) = (Ok a, g') -> op2 (group1 (vector_regfile v) vd w lm) = (Ok b, g')) ->
  into_vd vd w lm op2 v = (Ok b, v').
Proof.
  intros Hr Hl. rewrite !into_vd_unfold by done. destruct (op1 _) as [r g']. intros [= -> <-] H2. by rewrite (H2 g' eq_refl).
Qed.
End Drivers.
