(* ===== verification/VectorHart.v ===== *)
(** * A vector instruction on a hart

    What [normal_vector_exec] (instruction/mod.rs) adds to an operation of the
    vector unit: the check of mstatus.VS, the starting element in vstart, the
    retirement, and the reset of vstart. *)

From S2P Require Import Prelude Utils TrapTypes Alu Ram CsrTable Csr PageTable Mmio Vm Instr Cpu Trap Exec Invariant ExecSpec Vector VectorInt VectorArith VectorFix VectorExec VectorMap VectorSpec.

Lemma known_vector : forallb (fun a => known a && (reg_index a =? a)) [Mstatus; Vstart; Vcsr; Vl; Vtype] = true.
Proof. vm_compute. reflexivity. Qed.

Lemma known_vec a : bool_decide (a ∈ [Mstatus; Vstart; Vcsr; Vl; Vtype]) = true -> known a = true /\ reg_index a = a.
Proof.
  intros Ha%bool_decide_eq_true. apply list_elem_of_In in Ha.
  pose proof known_vector as Hk. rewrite List.forallb_forall in Hk.
  apply Hk, andb_true_iff in Ha as [? ?%Z.eqb_eq]. done.
Qed.

(** A well-formed vector unit: a register file of bytes, a 16-bit vector
    length. *)
Definition vec_ok (v : Vector) : Prop := vregs_ok (vector_regfile v) /\ uint 16 (vl (config v)).
#[export] Instance vector_ext_ok {X} `{HasVector X} : ExtOk X := fun x => vec_ok (vector_of x).

Section Hart.
Context {D X : Type} `{DeviceTrait D} `{Profile} `{HasVector X}.
Implicit Types c : RVCPU D X.

Definition vec_of c : Vector := vector_of (ext c).
Definition set_vec (v : Vector) c : RVCPU D X := set_ext (set_vector v (ext c)) c.
(** mstatus.VS is not Off. *)
Definition vs_on c : Prop := fget 9 2 (val (csr c) Mstatus) <> 0.
Definition vstart_of c : Z := val (csr c) Vstart.

(** A vector instruction that retired: new registers, a new vector unit. *)
Definition vec_retired (regs : list Z) (v : Vector) c : RVCPU D X :=
  let r := retired regs ((pc c + 4) mod 2 ^ 64) (set_vec v c) in set_csr (upd Vstart 0 (csr r)) r.

Lemma vec_of_set v c : vec_of (set_vec v c) = v.
Proof. apply vector_of_set. Qed.

Lemma set_vec_of c : set_vec (vec_of c) c = c.
Proof. unfold set_vec, vec_of. rewrite set_vector_of. by destruct c. Qed.

Lemma on_vector_run {E A} (m : M Vector E A) c r v : m (vec_of c) = (r, v) -> on_vector m c = (r, set_vec v c).
Proof. intros Hm. unfold on_vector, zoom. fold (vec_of c). by rewrite Hm. Qed.

Lemma on_vector_err {A} (m : M Vector Exception A) c e : m (vec_of c) = (Err e, vec_of c) -> on_vector m c = (Err e, c).
Proof. intros Hm. rewrite (on_vector_run _ _ _ _ Hm). by rewrite set_vec_of. Qed.

Lemma get_csr_field c f a low len : csr_wf (csr c) -> bool_decide (a ∈ [Mstatus; Vstart; Vcsr; Vl; Vtype]) = true ->
  fl_csr f = a -> LOW_BIT f = low -> fl_len f = len -> field_ok f ->
  on_csr (get_field f) c = (Ok (fget low len (val (csr c) a)), c).
Proof.
  intros Hwf Ha <- <- <- Hf. destruct (known_vec _ Ha) as [Hk Hi]. rewrite <- (set_csr_id c) at 1 3.
  apply on_csr_run. rewrite get_field_run by (done || by rewrite Hi). by rewrite Hi.
Qed.

Ltac field_ok := vm_compute; split_and!; (discriminate || reflexivity).

Lemma get_vs c : csr_wf (csr c) -> on_csr (get_field Mstatus_vs) c = (Ok (fget 9 2 (val (csr c) Mstatus)), c).
Proof. intros. apply get_csr_field; (done || field_ok). Qed.

Lemma fget_full v : u64 v -> fget 0 64 v = v.
Proof. intros. unfold fget. rewrite Z.shiftr_0_r. by apply wrap_small. Qed.

Lemma get_vstart c : csr_wf (csr c) -> on_csr (get_field Vstart_vstart) c = (Ok (vstart_of c), c).
Proof.
  intros. erewrite get_csr_field with (a := Vstart); [|done|done|done|reflexivity|reflexivity|field_ok].
  change (LOW_BIT Vstart_vstart) with 0. change (fl_len Vstart_vstart) with 64. by rewrite fget_full by (by apply val_u64).
Qed.

Lemma clear_vstart c : csr_wf (csr c) ->
  (ok <- on_csr (CsrRegFile_write_directly Vstart 0) ;; assert ok) c = (Ok tt, set_csr (upd Vstart 0 (csr c)) c).
Proof.
  intros. destruct (known_vec Vstart eq_refl) as [Hk _]. rewrite <- (set_csr_id c) at 1.
  by erewrite bind_Ok by (by apply on_csr_run, CsrRegFile_write_directly_run).
Qed.

Lemma counter_upd_wf s : csr_wf s -> csr_wf (upd Minstret ((val s Minstret + 1) mod 2 ^ 64) s).
Proof. intros. apply upd_wf; [done|]. by apply wrap_range. Qed.

Section Exec.
Context {E : Type} (finish : E -> M (RVCPU D X) Exception Exception) (f : Z -> M (RVCPU D X) E unit) (c : RVCPU D X).
Hypothesis Hwf : csr_wf (csr c).

(** The unit is switched off. *)
Lemma normal_vector_off : ~ vs_on c -> normal_vector_exec finish f c = (Err IllegalInstruction, c).
Proof.
  intros Hoff. unfold normal_vector_exec. erewrite bind_Ok by (by apply get_vs).
  unfold vs_on in Hoff. destruct (Z.eqb_spec (fget 9 2 (val (csr c) Mstatus)) 0); [done|by destruct Hoff].
Qed.

Lemma normal_vector_ends c1 : vs_on c -> f (vstart_of c) c = (Ok tt, c1) -> csr_wf (csr c1) -> counter_ok c1 ->
  normal_vector_exec finish f c = (Ok tt, let r := retired (reg_file c1) ((pc c1 + 4) mod 2 ^ 64) c1 in set_csr (upd Vstart 0 (csr r)) r).
Proof.
  intros Hon Hf Hwf1 Hov. unfold normal_vector_exec. erewrite bind_Ok by (by apply get_vs).
  rewrite (proj2 (Z.eqb_neq _ _) Hon). erewrite bind_Ok by (by apply get_vstart).
  erewrite bind_Ok.
  2:{ unfold normal_exec. erewrite bind_Ok by (unfold finish_error; rewrite Hf; reflexivity).
      rewrite <- (set_reg_file_id c1) at 1. by apply finish_run. }
  rewrite clear_vstart; [done|]. cbn. by apply counter_upd_wf.
Qed.

Lemma normal_vector_run regs v : vs_on c -> counter_ok c -> f (vstart_of c) c = (Ok tt, set_reg_file regs (set_vec v c)) ->
  normal_vector_exec finish f c = (Ok tt, vec_retired regs v c).
Proof. intros Hon Hov Hf. by rewrite (normal_vector_ends _ Hon Hf). Qed.

(** An error inside the unit: the instruction does not retire. *)
Lemma normal_vector_err e c' x c'' : vs_on c -> f (vstart_of c) c = (Err e, c') -> finish e c' = (Ok x, c'') ->
  normal_vector_exec finish f c = (Err x, c'').
Proof.
  intros Hon Hf Hfin. unfold normal_vector_exec. erewrite bind_Ok by (by apply get_vs).
  rewrite (proj2 (Z.eqb_neq _ _) Hon). erewrite bind_Ok by (by apply get_vstart).
  erewrite bind_Err; [reflexivity|]. unfold normal_exec. erewrite bind_Err; [reflexivity|].
  unfold finish_error. rewrite Hf. by erewrite bind_Ok by exact Hfin.
Qed.
End Exec.

Section Op.
Context (rs1 rs2 rd : Z) (vm : bool) (func6 : Z) (f : Z -> Z -> Z -> Z -> bool -> M (RVCPU D X) Exception unit) (c : RVCPU D X).
Hypothesis Hwf : csr_wf (csr c).

Lemma vec_op_run regs v : vs_on c -> counter_ok c -> f (vstart_of c) rs1 rs2 rd vm c = (Ok tt, set_reg_file regs (set_vec v c)) ->
  vec_op (IV rs1 rs2 rd vm func6) f c = (Ok tt, vec_retired regs v c).
Proof. intros. by apply normal_vector_run. Qed.

Lemma vec_op_err e : vs_on c -> f (vstart_of c) rs1 rs2 rd vm c = (Err e, c) -> vec_op (IV rs1 rs2 rd vm func6) f c = (Err e, c).
Proof. intros. by eapply normal_vector_err. Qed.

Lemma vec_op_off : ~ vs_on c -> vec_op (IV rs1 rs2 rd vm func6) f c = (Err IllegalInstruction, c).
Proof. intros. by apply normal_vector_off. Qed.
End Op.

#[global] Instance vs_on_dec c : Decision (vs_on c).
Proof. unfold vs_on. apply _. Defined.

Lemma wf_vec c : cpu_wf c -> vec_ok (vec_of c).
Proof. intros Hc. exact (wf_ext c Hc). Qed.
Lemma wf_vregs c : cpu_wf c -> vregs_ok (vector_regfile (vec_of c)).
Proof. intros Hc. apply (wf_vec c Hc). Qed.

Lemma read_x_run c rs1 : cpu_wf c -> reg_ok rs1 -> read_x rs1 c = (Ok (reg_file c !!! Z.to_nat rs1), c).
Proof. intros. unfold read_x. by erewrite bind_Ok by (by apply reg_read_run). Qed.

Lemma simm5_spec imm w : 0 <= imm < 32 -> 8 <= w <= 64 -> simm5 imm mod 2 ^ w = to_signed 5 imm mod 2 ^ w.
Proof.
  intros Hi Hw. unfold simm5. rewrite sign_extend_signed by lia. rewrite (wrap_small 5) by done.
  change (wrap w (wrap 64 (to_signed 5 imm)) = wrap w (to_signed 5 imm)). apply wrap_wrap_le. lia.
Qed.
End Hart.

(** ** Concrete instances *)

(** A hart whose only extra unit is the vector unit. *)
#[export] Instance vector_only : HasVector Vector := {|
  vector_of := id; set_vector v _ := v;
  vector_of_set _ _ := eq_refl; set_vector_of _ := eq_refl; set_vector_set _ _ _ := eq_refl |}.

(** Byte [i] of the register file is [i mod 256]. *)
Definition demo_vector (e : Vsew) (m : Vlmul) (ta ma : bool) (n : Z) : Vector :=
  set_config m e ta ma n {| config := VectorConfig_new; vector_regfile := (fun i => i mod 256) <$> seqZ 0 512 |}.

Definition demo_vec_hart_at (regs : list Z) (v : Vector) (csrs : list (Z * Z)) : RVCPU Z Vector :=
  let c := demo_cpu regs 0x80000000 (demo_csr LvM ((Mstatus, 0x200) :: csrs)) in
  Build_RVCPU (reg_file c) (pc c) (memory c) (csr c) (icache c) (icache_epoch c) v (time_addr c) (pending_tval c).
Definition demo_vec_hart : Vector -> list (Z * Z) -> RVCPU Z Vector := demo_vec_hart_at (demo_regs 0x80005000 (2 ^ 64 - 2) 9).

Lemma demo_vregs e m ta ma n : vregs_ok (vector_regfile (demo_vector e m ta ma n)).
Proof. split; [done|]. apply Forall_fmap, Forall_forall. intros i _. cbn. apply Z.mod_pos_bound. lia. Qed.

Lemma demo_vec_ok e m ta ma n : uint 16 n -> vec_ok (demo_vector e m ta ma n).
Proof. split; [apply demo_vregs|done]. Qed.

Lemma demo_vec_at_wf regs v csrs : vec_ok v -> Invariant.regs_ok regs -> Forall (fun p => u64 (snd p)) csrs -> cpu_wf (demo_vec_hart_at regs v csrs).
Proof.
  intros Hv Hregs Hcsr. destruct (demo_cpu_wf regs 0x80000000 (demo_csr LvM ((Mstatus, 0x200) :: csrs)))
    as [Hr Hp Hs Hm Hi Ht _]; [done|solve_u64|apply demo_csr_wf; constructor; [cbn; solve_u64|done]|].
  by constructor.
Qed.

Lemma demo_vec_wf v csrs : vec_ok v -> Forall (fun p => u64 (snd p)) csrs -> cpu_wf (demo_vec_hart v csrs).
Proof. intros Hv. apply demo_vec_at_wf; [done|]. apply demo_regs_ok; solve_u64. Qed.
