(* ===== verification/VectorAluSpec.v ===== *)
(** * Single-width vector arithmetic

    [isa_varith] states, element by element, what the vector extension defines
    for the integer instructions whose sources and destination have the
    configured element width.  [vector_alu_correct] shows that the instructions
    of exec_mapping.rs compute it and obey the vstart, mask and tail policies;
    [vector_alu_traps] is their error path. *)

From S2P Require Import Prelude Utils TrapTypes Alu Ram CsrTable Csr PageTable Mmio Vm Instr Cpu Trap Exec Invariant ExecSpec Vector VectorInt VectorArith VectorFix VectorExec VectorMap VectorSpec VectorHart.

(** ** Reference *)

(** Where the second operand comes from. *)
Inductive VOperand : Type := OVs1 | ORs1 | OSimm | OUimm.

Definition voperand (i : VInstr) : VOperand :=
  match i with
  | VADD_VX | VSUB_VX | VRSUB_VX | VMUL_VX | VMULH_VX | VMULHU_VX | VMULHSU_VX | VDIV_VX | VDIVU_VX | VREM_VX | VREMU_VX
  | VAND_VX | VOR_VX | VXOR_VX | VSRA_VX | VSRL_VX | VSLL_VX | VMAX_VX | VMAXU_VX | VMIN_VX | VMINU_VX
  | VMACC_VX | VNMSAC_VX | VMADD_VX | VNMSUB_VX | VADC_VXM | VSBC_VXM | VMERGE_VXM
  | VMSEQ_VX | VMSNE_VX | VMSLTU_VX | VMSLT_VX | VMSLEU_VX | VMSLE_VX | VMSGTU_VX | VMSGT_VX
  | VMADC_VX | VMADC_VXM | VMSBC_VX | VMSBC_VXM => ORs1
  | VADD_VI | VRSUB_VI | VAND_VI | VOR_VI | VXOR_VI | VADC_VIM | VMERGE_VIM
  | VMSEQ_VI | VMSNE_VI | VMSLEU_VI | VMSLE_VI | VMSGTU_VI | VMSGT_VI | VMADC_VI | VMADC_VIM => OSimm
  | VSRA_VI | VSRL_VI | VSLL_VI => OUimm
  | _ => OVs1
  end.

(** The result for elements of [w] bits: [a] is the element of vs2, [b] the
    second operand, [d] the old element of vd and [m] the bit of v0, which the
    instructions with a carry and the merges read as an operand. *)
Definition isa_varith (i : VInstr) : option (Z -> Z -> Z -> Z -> bool -> Z) :=
  match i with
  | VADD_VV | VADD_VX | VADD_VI => Some (fun w a b _ _ => (a + b) mod 2 ^ w)
  | VSUB_VV | VSUB_VX => Some (fun w a b _ _ => (a - b) mod 2 ^ w)
  | VRSUB_VX | VRSUB_VI => Some (fun w a b _ _ => (b - a) mod 2 ^ w)
  | VMUL_VV | VMUL_VX => Some (fun w a b _ _ => (a * b) mod 2 ^ w)
  | VMULH_VV | VMULH_VX => Some (fun w a b _ _ => (to_signed w a * to_signed w b / 2 ^ w) mod 2 ^ w)
  | VMULHU_VV | VMULHU_VX => Some (fun w a b _ _ => (a * b / 2 ^ w) mod 2 ^ w)
  | VMULHSU_VV | VMULHSU_VX => Some (fun w a b _ _ => (to_signed w a * b / 2 ^ w) mod 2 ^ w)
  | VDIV_VV | VDIV_VX => Some (fun w a b _ _ => if b =? 0 then 2 ^ w - 1 else Z.quot (to_signed w a) (to_signed w b) mod 2 ^ w)
  | VDIVU_VV | VDIVU_VX => Some (fun w a b _ _ => if b =? 0 then 2 ^ w - 1 else a / b)
  | VREM_VV | VREM_VX => Some (fun w a b _ _ => if b =? 0 then a else Z.rem (to_signed w a) (to_signed w b) mod 2 ^ w)
  | VREMU_VV | VREMU_VX => Some (fun w a b _ _ => if b =? 0 then a else a mod b)
  | VAND_VV | VAND_VX | VAND_VI => Some (fun w a b _ _ => Z.land a b)
  | VOR_VV | VOR_VX | VOR_VI => Some (fun w a b _ _ => Z.lor a b)
  | VXOR_VV | VXOR_VX | VXOR_VI => Some (fun w a b _ _ => Z.lxor a b)
  | VSLL_VV | VSLL_VX | VSLL_VI => Some (fun w a b _ _ => (a * 2 ^ (b mod w)) mod 2 ^ w)
  | VSRL_VV | VSRL_VX | VSRL_VI => Some (fun w a b _ _ => a / 2 ^ (b mod w))
  | VSRA_VV | VSRA_VX | VSRA_VI => Some (fun w a b _ _ => (to_signed w a / 2 ^ (b mod w)) mod 2 ^ w)
  | VMAX_VV | VMAX_VX => Some (fun w a b _ _ => Z.max (to_signed w a) (to_signed w b) mod 2 ^ w)
  | VMAXU_VV | VMAXU_VX => Some (fun w a b _ _ => Z.max a b)
  | VMIN_VV | VMIN_VX => Some (fun w a b _ _ => Z.min (to_signed w a) (to_signed w b) mod 2 ^ w)
  | VMINU_VV | VMINU_VX => Some (fun w a b _ _ => Z.min a b)
  | VMACC_VV | VMACC_VX => Some (fun w a b d _ => (d + b * a) mod 2 ^ w)
  | VNMSAC_VV | VNMSAC_VX => Some (fun w a b d _ => (d - b * a) mod 2 ^ w)
  | VMADD_VV | VMADD_VX => Some (fun w a b d _ => (b * d + a) mod 2 ^ w)
  | VNMSUB_VV | VNMSUB_VX => Some (fun w a b d _ => (a - b * d) mod 2 ^ w)
  | VADC_VVM | VADC_VXM | VADC_VIM => Some (fun w a b _ m => (a + b + Z.b2z m) mod 2 ^ w)
  | VSBC_VVM | VSBC_VXM => Some (fun w a b _ m => (a - b - Z.b2z m) mod 2 ^ w)
  | VMERGE_VVM | VMERGE_VXM | VMERGE_VIM => Some (fun w a b _ m => if m : bool then b else a)
  | _ => None
  end.

(** v0 is an operand of these, not a mask. *)
Definition reads_v0 (i : VInstr) : bool :=
  match i with
  | VADC_VVM | VADC_VXM | VADC_VIM | VSBC_VVM | VSBC_VXM | VMERGE_VVM | VMERGE_VXM | VMERGE_VIM => true
  | _ => false
  end.

(** A scalar operand as a word of [w] bits. *)
Definition scalar_value (o : VOperand) (r : list Z) (w rs1 : Z) : Z :=
  match o with
  | OVs1 => 0
  | ORs1 => (r !!! Z.to_nat rs1) mod 2 ^ w
  | OSimm => to_signed 5 rs1 mod 2 ^ w
  | OUimm => rs1
  end.
(** The second operand of element [j]. *)
Definition voperand_value (o : VOperand) (r : list Z) (v : Vector) (w rs1 j : Z) : Z :=
  match o with
  | OVs1 => reg_elem (vector_regfile v) (w / 8) rs1 j
  | o => scalar_value o r w rs1
  end.

(** ** The operations the instructions are mapped to *)
Inductive VShape : Type :=
| SBinary (F : UInt -> Z -> Z -> ExecResult)
| STernary (F : UInt -> Z -> Z -> Z -> ExecResult)
| SCarry (F : UInt -> Z -> Z -> bool -> ExecResult)
| SMerge.

Definition varith_shape (i : VInstr) : option VShape :=
  match i with
  | VADD_VV | VADD_VX | VADD_VI => Some (SBinary ExecAdd)
  | VSUB_VV | VSUB_VX => Some (SBinary ExecSub)
  | VRSUB_VX | VRSUB_VI => Some (SBinary ExecRevSub)
  | VMUL_VV | VMUL_VX => Some (SBinary ExecMulLow)
  | VMULH_VV | VMULH_VX => Some (SBinary ExecMulHighSigned)
  | VMULHU_VV | VMULHU_VX => Some (SBinary ExecMulHighUnsigned)
  | VMULHSU_VV | VMULHSU_VX => Some (SBinary ExecMulHighSignedUnsigned)
  | VDIV_VV | VDIV_VX => Some (SBinary ExecDivSigned)
  | VDIVU_VV | VDIVU_VX => Some (SBinary ExecDivUnsigned)
  | VREM_VV | VREM_VX => Some (SBinary ExecRemSigned)
  | VREMU_VV | VREMU_VX => Some (SBinary ExecRemUnsigned)
  | VAND_VV | VAND_VX | VAND_VI => Some (SBinary (fun _ => ExecAnd))
  | VOR_VV | VOR_VX | VOR_VI => Some (SBinary (fun _ => ExecOr))
  | VXOR_VV | VXOR_VX | VXOR_VI => Some (SBinary (fun _ => ExecXor))
  | VSLL_VV | VSLL_VX | VSLL_VI => Some (SBinary ExecSLL)
  | VSRL_VV | VSRL_VX | VSRL_VI => Some (SBinary ExecSRL)
  | VSRA_VV | VSRA_VX | VSRA_VI => Some (SBinary ExecSRA)
  | VMAX_VV | VMAX_VX => Some (SBinary ExecMax)
  | VMAXU_VV | VMAXU_VX => Some (SBinary (fun _ => ExecMaxu))
  | VMIN_VV | VMIN_VX => Some (SBinary ExecMin)
  | VMINU_VV | VMINU_VX => Some (SBinary (fun _ => ExecMinu))
  | VMACC_VV | VMACC_VX => Some (STernary ExecMacc)
  | VNMSAC_VV | VNMSAC_VX => Some (STernary ExecNmsac)
  | VMADD_VV | VMADD_VX => Some (STernary ExecMadd)
  | VNMSUB_VV | VNMSUB_VX => Some (STernary ExecNmsub)
  | VADC_VVM | VADC_VXM | VADC_VIM => Some (SCarry ExecAdc)
  | VSBC_VVM | VSBC_VXM => Some (SCarry ExecSbc)
  | VMERGE_VVM | VMERGE_VXM | VMERGE_VIM => Some SMerge
  | _ => None
  end.

Definition shape_value (s : VShape) (t : UInt) (a b d : Z) (m : bool) : ExecResult :=
  match s with
  | SBinary F => F t a b
  | STernary F => F t a b d
  | SCarry F => F t a b m
  | SMerge => Ok (if m then b else a)
  end.

Lemma isa_shape i f : isa_varith i = Some f -> exists s, varith_shape i = Some s.
Proof. destruct i; cbn; intros Hf; try discriminate Hf; by eexists. Qed.

Lemma BITS_le t : 8 <= BITS t <= 64.
Proof. destruct t; cbn; lia. Qed.

Lemma MAX_spec t : MAX t = 2 ^ BITS t - 1.
Proof. by destruct t. Qed.

Lemma max_signed w a b : 0 < w -> uint w a -> uint w b ->
  Z.max (to_signed w a) (to_signed w b) mod 2 ^ w = if to_signed w b <? to_signed w a then a else b.
Proof. intros. destruct (Z.ltb_spec (to_signed w b) (to_signed w a)); [rewrite Z.max_l by lia|rewrite Z.max_r by lia]; by apply signed_back. Qed.

Lemma min_signed w a b : 0 < w -> uint w a -> uint w b ->
  Z.min (to_signed w a) (to_signed w b) mod 2 ^ w = if to_signed w a <? to_signed w b then a else b.
Proof. intros. destruct (Z.ltb_spec (to_signed w a) (to_signed w b)); [rewrite Z.min_l by lia|rewrite Z.min_r by lia]; by apply signed_back. Qed.

(** The operations compute what the instruction set defines. *)
Lemma shape_isa i s f t a b d m : varith_shape i = Some s -> isa_varith i = Some f ->
  uint (BITS t) a -> uint (BITS t) b -> uint (BITS t) d -> shape_value s t a b d m = Ok (f (BITS t) a b d m).
Proof.
  intros Hs Hf Ha Hb Hd. pose proof (BITS_le t) as Ht.
  assert (0 <= b mod BITS t < BITS t) by (apply Z.mod_pos_bound; lia).
  destruct i; cbn [varith_shape isa_varith] in Hs, Hf; try discriminate Hs; injection Hs as <-; injection Hf as <-;
    cbn [shape_value]; try reflexivity.
  all: unfold ExecMulHighUnsigned, ExecMulHighSigned, ExecMulHighSignedUnsigned, ExecDivSigned, ExecDivUnsigned, ExecRemSigned,
    ExecRemUnsigned, ExecSLL, ExecSRL, ExecSRA, ExecMax, ExecMin, ExecMacc, ExecNmsac, ExecMadd, ExecNmsub, ExecAdc, ExecSbc, truncate_from, shl;
    rewrite ?from_signed_i128_spec, ?as_signed_i128_spec, ?shift_amount_spec, ?MAX_spec by done.
  all: rewrite ?max_signed, ?min_signed by (done || lia); rewrite ?Z.shiftr_div_pow2, ?Z.shiftl_mul_pow2 by lia;
    try reflexivity; try (by destruct (b =? 0)); try (by destruct (_ <? _)).
  all: rewrite ?wrap_wrap_le by lia; rewrite ?wrap_add_l; change (?x mod 2 ^ BITS t) with (wrap (BITS t) x).
  all: rewrite <- ?(wrap_sub_r _ _ (b * a)), <- ?(wrap_sub_r _ _ (b * d)); do 2 f_equal; lia.
Qed.

(** ... and their results are words of the element width. *)
Lemma isa_varith_range i f w a b d m : isa_varith i = Some f -> 8 <= w -> uint w a -> uint w b -> uint w d -> uint w (f w a b d m).
Proof.
  intros Hf Hw Ha Hb Hd. assert (0 < 2 ^ w) by (apply Z.pow_pos_nonneg; lia).
  assert (forall z, uint w (z mod 2 ^ w)) by (intros z; apply Z.mod_pos_bound; lia).
  assert (uint w (2 ^ w - 1)) by (unfold uint; lia).
  assert (0 <= b mod w < w) by (apply Z.mod_pos_bound; lia).
  destruct i; cbn [isa_varith] in Hf; try discriminate Hf; injection Hf as <-; try done;
    try (apply uint_land; done || lia); try (apply uint_lor; done || lia); try (apply uint_lxor; done || lia); try (by destruct m); try (unfold uint in *; lia).
  all: try (destruct (Z.eqb_spec b 0); [done|]; try done).
  all: unfold uint in *.
  all: try (assert (0 <= a / b <= a) by (split; [apply Z.div_pos; lia|apply Z.div_le_upper_bound; nia]); lia).
  all: try (pose proof (Z.mod_pos_bound a b); pose proof (Z.mod_le a b); lia).
  all: assert (0 < 2 ^ (b mod w)) by (apply Z.pow_pos_nonneg; lia); split; [apply Z.div_pos; lia|].
  all: apply Z.div_lt_upper_bound; nia.
Qed.

(** ** Running an operation on the vector unit *)
Definition elem_bytes (v : Vector) : Z := into_byte_width (vsew (config v)).
Definition group_regs (v : Vector) : Z := get_lmul (vlmul (config v)).
Definition elem_ty (v : Vector) : UInt := ty_of (vsew (config v)).

Definition needs_mask (s : VShape) : bool := match s with SCarry _ | SMerge => false | _ => true end.

Section Run.
Context `{Profile}.

Definition driver_vv (s : VShape) (vs1 vs2 vd : Z) (em : bool) (vstart : Z) : M Vector Exception unit :=
  match s with
  | SBinary F => exec_integer_vv (impl_vector_op_integer_vv_binary F) vs1 vs2 vd em vstart
  | STernary F => exec_integer_vvv (impl_vector_op_integer_vvv_ternary F) vs1 vs2 vd em vstart
  | SCarry F => exec_integer_vvm (impl_vector_op_integer_vvm_binary F) vs1 vs2 0 vd false vstart
  | SMerge => exec_integer_vvm MergeVVM vs1 vs2 0 vd false vstart
  end.

Definition driver_vx (s : VShape) (x1 vs2 vd : Z) (em : bool) (vstart : Z) : M Vector Exception unit :=
  match s with
  | SBinary F => exec_integer_vx (impl_vector_op_integer_vx_binary F) x1 vs2 vd em vstart
  | STernary F => exec_integer_vxv (impl_vector_op_integer_vxv_ternary F) x1 vs2 vd em vstart
  | SCarry F => exec_integer_vxm (impl_vector_op_integer_vxm_binary F) x1 vs2 0 vd false vstart
  | SMerge => exec_integer_vxm MergeVXM x1 vs2 0 vd false vstart
  end.

Lemma dispatch_sew {S E A} e (body : UInt -> M S E A) : dispatch_integer_sew (into_byte_width e) body = body (ty_of e).
Proof. by destruct e. Qed.

Lemma elem_ty_size v : size_of (elem_ty v) = elem_bytes v.
Proof. apply size_of_ty. Qed.
Lemma elem_ty_bits v : BITS (elem_ty v) = 8 * elem_bytes v.
Proof. unfold elem_ty, elem_bytes. by destruct (vsew (config v)). Qed.

Lemma elem_bits v : 8 <= 8 * elem_bytes v <= 64.
Proof. rewrite <- elem_ty_bits. apply BITS_le. Qed.

Lemma dispatch_elem {S E A} v (body : UInt -> M S E A) : dispatch_integer_sew (elem_bytes v) body = body (elem_ty v).
Proof. apply dispatch_sew. Qed.

Lemma debug_assert_true {S E} (s : S) : debug_assert (E := E) true s = (Ok tt, s).
Proof. unfold debug_assert. by destruct debug_assertions. Qed.

Lemma cfg_sew_run v : cfg_sew v = (Ok (elem_bytes v), v).
Proof. done. Qed.
Lemma cfg_lmul_run v : cfg_lmul v = (Ok (group_regs v), v).
Proof. done. Qed.

(** A bit of a mask register held in a source group. *)
Lemma read_mask_bit_run {S E} r idx i (s : S) : vregs_ok r -> legal 1 idx -> 0 <= i < 128 ->
  read_mask_bit (E := E) (elements 1 (value (group1 r idx 1 1))) i s = (Ok (mask_reg_bit r idx i), s).
Proof.
  intros Hr Hl Hi. unfold read_mask_bit.
  assert (0 <= i / 8 < vlmax 1 1) by (split; [apply Z.div_pos; lia|apply Z.div_lt_upper_bound; [lia|]; change (vlmax 1 1) with 16; lia]).
  pose proof (Z.mod_pos_bound i 8 ltac:(lia)).
  erewrite bind_Ok by (apply (at_source r idx 1 1); [done|done|by left|done]).
  unfold ret. unfold mask_reg_bit. rewrite <- bit_testbit by lia. rewrite shl_1 by lia. f_equal. f_equal.
  set (x := reg_elem r 1 idx (i / 8)). set (n := i mod 8) in *.
  assert (Z.land x (2 ^ n) = 0 \/ Z.land x (2 ^ n) = 2 ^ n) as [-> | ->].
  - rewrite <- (Z.shiftl_1_l n). destruct (Z.testbit x n) eqn:Hb; [right|left]; apply Z.bits_inj'; intros k Hk;
      rewrite Z.land_spec, ?Z.bits_0, Z.shiftl_1_l, Z.pow2_bits_eqb by lia;
      destruct (Z.eqb_spec n k) as [<-|]; rewrite ?Hb, ?andb_false_r; done.
  - assert (0 < 2 ^ n) by (apply Z.pow_pos_nonneg; lia). rewrite Z.eqb_refl. symmetry. apply Z.eqb_neq. lia.
  - assert (0 < 2 ^ n) by (apply Z.pow_pos_nonneg; lia). rewrite Z.eqb_refl. apply negb_true_iff, Z.eqb_neq. lia.
Qed.

Context (v : Vector) (Hr : vregs_ok (vector_regfile v)).
Abbreviation ew := (elem_bytes v).
Abbreviation lm := (group_regs v).
Abbreviation rf := (vector_regfile v).

Lemma w_ok : width_ok ew.
Proof. apply into_byte_width_ok. Qed.

Lemma reg_elem_uint idx j : uint (BITS (elem_ty v)) (reg_elem rf ew idx j).
Proof. rewrite elem_ty_bits. apply elem_load_range; [pose proof w_ok; unfold width_ok in *; lia|apply Hr]. Qed.

Lemma vlmax_128 j : 0 <= j < vlmax ew lm -> 0 <= j < 128.
Proof.
  enough (vlmax ew lm <= 128) by lia. unfold elem_bytes, group_regs.
  destruct (vsew (config v)), (vlmul (config v)); vm_compute; discriminate.
Qed.

Lemma vlmax_VLEN : 0 <= vlmax ew lm <= VLEN.
Proof. unfold elem_bytes, group_regs. destruct (vsew (config v)), (vlmul (config v)); vm_compute; split; discriminate. Qed.

Lemma slice_length idx : legal lm idx -> Z.of_nat (length (elements ew (value (group1 rf idx ew lm)))) = vlmax ew lm.
Proof.
  intros Hl. pose proof w_ok as Hw. rewrite length_elements by (unfold width_ok in Hw; lia). cbn [value group1].
  by rewrite length_group_bytes.
Qed.

(** The elements the operations compute. *)
Definition shape_implements (s : VShape) (f : Z -> Z -> Z -> bool -> Z) : Prop :=
  forall a b d m, uint (BITS (elem_ty v)) a -> uint (BITS (elem_ty v)) b -> uint (BITS (elem_ty v)) d ->
    shape_value s (elem_ty v) a b d m = Ok (f a b d m) /\ uint (BITS (elem_ty v)) (f a b d m).

End Run.

(** Fetching the operands, entering the operation, and one element. *)
Ltac run_operands :=
  repeat first
    [ erewrite bind_Ok by (apply cfg_sew_run) | erewrite bind_Ok by (apply cfg_lmul_run)
    | erewrite bind_Ok by (apply source_run; first [assumption | exact legal_v0]) | erewrite bind_Ok by (apply arith_mask_run) ].
Ltac run_entry :=
  erewrite bind_Ok by reflexivity; cbn beta; unfold id; cbn [sew group1]; rewrite ?Z.eqb_refl; cbn [andb];
  repeat first
    [ erewrite bind_Ok by (apply as_slice_run; first [reflexivity | symmetry; apply elem_ty_size])
    | erewrite bind_Ok by reflexivity
    | progress (cbn beta; unfold id; cbn [sew group1]; rewrite ?dispatch_elem; cbv zeta)
    | progress rewrite ?slice_length, ?Z.eqb_refl by assumption
    | erewrite bind_Ok by (apply debug_assert_true) ];
  reflexivity.
Ltac run_element :=
  repeat first
    [ erewrite bind_Ok by (apply at_source; [assumption|assumption|apply w_ok|assumption])
    | erewrite bind_Ok by (apply read_mask_bit_run; [assumption|exact legal_v0|eapply vlmax_128; eassumption]) ].
(** A misaligned register group. *)
Ltac run_illegal :=
  repeat first
    [ erewrite bind_Ok by (apply cfg_sew_run) | erewrite bind_Ok by (apply cfg_lmul_run)
    | erewrite bind_Ok by (apply arith_mask_run)
    | erewrite bind_Ok by (apply source_run; first [assumption | exact legal_v0])
    | erewrite bind_Err by (apply source_illegal; assumption); reflexivity
    | apply into_vd_illegal; assumption ].

Section Drivers.
Context `{Profile} (v : Vector) (Hr : vregs_ok (vector_regfile v)).
Abbreviation ew := (elem_bytes v).
Abbreviation lm := (group_regs v).
Abbreviation rf := (vector_regfile v).

(** An operation that writes [x j] to element [j] of the destination. *)
Lemma load_group_vd op f x vd em vstart : legal lm vd ->
  (forall g, g = group1 rf vd ew lm -> op g = load_elements (elem_ty v) (cfg_mask v em vstart) f g) ->
  (forall i s, 0 <= i < vlmax ew lm -> f i s = (Ok (x i), s) /\ uint (8 * ew) (x i)) ->
  exists v', into_vd vd ew lm op v = (Ok tt, v') /\ vd_written v v' vd ew lm (fun j => arch_value 0 v em vstart (x j) j).
Proof.
  intros. eapply load_words_into_vd; [done|done|apply w_ok|symmetry; apply elem_ty_size|done|done].
Qed.

Lemma driver_vv_run s f vs1 vs2 vd em vstart : shape_implements v s f -> legal lm vs1 -> legal lm vs2 -> legal lm vd ->
  exists v', driver_vv s vs1 vs2 vd em vstart v = (Ok tt, v') /\
    vd_written v v' vd ew lm (fun j => arch_value 0 v (em && needs_mask s) vstart
      (f (reg_elem rf ew vs2 j) (reg_elem rf ew vs1 j) (reg_elem rf ew vd j) (mask_reg_bit rf 0 j)) j).
Proof.
  intros Hf H1 H2 Hd.
  assert (Hx : forall i, shape_value s (elem_ty v) (reg_elem rf ew vs2 i) (reg_elem rf ew vs1 i) (reg_elem rf ew vd i) (mask_reg_bit rf 0 i) =
     Ok (f (reg_elem rf ew vs2 i) (reg_elem rf ew vs1 i) (reg_elem rf ew vd i) (mask_reg_bit rf 0 i)) /\
     uint (8 * ew) (f (reg_elem rf ew vs2 i) (reg_elem rf ew vs1 i) (reg_elem rf ew vd i) (mask_reg_bit rf 0 i))).
  { intros i. rewrite <- elem_ty_bits. apply Hf; by apply reg_elem_uint. }
  destruct s as [F|F|F|]; cbn [driver_vv needs_mask shape_value] in *; rewrite ?andb_true_r, ?andb_false_r.
  all: unfold exec_integer_vv, exec_integer_vvv, exec_integer_vvm; run_operands; eapply load_group_vd; [done| |].
  1,3,5,7: intros g ->;
      unfold impl_vector_op_integer_vv_binary, impl_vector_op_integer_vvv_ternary, impl_vector_op_integer_vvm_binary, MergeVVM, vector_op_merge_vvm;
      run_entry.
  all: intros i st Hi; destruct (Hx i) as [E Hu]; split; [|done]; cbn beta; run_element; rewrite ?E; try done.
  injection E as <-. destruct (mask_reg_bit rf 0 i); apply at_source; (done || apply w_ok).
Qed.

Lemma driver_vx_run s f x1 vs2 vd em vstart : shape_implements v s f -> legal lm vs2 -> legal lm vd ->
  exists v', driver_vx s x1 vs2 vd em vstart v = (Ok tt, v') /\
    vd_written v v' vd ew lm (fun j => arch_value 0 v (em && needs_mask s) vstart
      (f (reg_elem rf ew vs2 j) (x1 mod 2 ^ (8 * ew)) (reg_elem rf ew vd j) (mask_reg_bit rf 0 j)) j).
Proof.
  intros Hf H2 Hd. set (b := x1 mod 2 ^ (8 * ew)).
  assert (Eb : truncate_from (elem_ty v) x1 = b) by (unfold truncate_from; by rewrite elem_ty_bits).
  assert (Hx : forall i, shape_value s (elem_ty v) (reg_elem rf ew vs2 i) b (reg_elem rf ew vd i) (mask_reg_bit rf 0 i) =
     Ok (f (reg_elem rf ew vs2 i) b (reg_elem rf ew vd i) (mask_reg_bit rf 0 i)) /\
     uint (8 * ew) (f (reg_elem rf ew vs2 i) b (reg_elem rf ew vd i) (mask_reg_bit rf 0 i))).
  { intros i. rewrite <- elem_ty_bits. apply Hf; [by apply reg_elem_uint| |by apply reg_elem_uint].
    rewrite elem_ty_bits. apply wrap_range. pose proof (w_ok v) as Hw. unfold width_ok in Hw. lia. }
  destruct s as [F|F|F|]; cbn [driver_vx needs_mask shape_value] in *; rewrite ?andb_true_r, ?andb_false_r.
  all: unfold exec_integer_vx, exec_integer_vxv, exec_integer_vxm; run_operands; eapply load_group_vd; [done| |].
  1,3,5,7: intros g ->;
      unfold impl_vector_op_integer_vx_binary, impl_vector_op_integer_vxv_ternary, impl_vector_op_integer_vxm_binary, MergeVXM, vector_op_merge_vxm;
      run_entry.
  all: intros i st Hi; destruct (Hx i) as [E Hu]; split; [|done]; cbn beta; run_element; rewrite ?Eb, ?E; try done.
  injection E as <-. destruct (mask_reg_bit rf 0 i); [done|]. apply at_source; (done || apply w_ok).
Qed.

Lemma driver_vv_illegal s vs1 vs2 vd em vstart : 0 <= vs1 < 32 -> 0 <= vs2 < 32 -> 0 <= vd < 32 ->
  ~ (legal lm vs1 /\ legal lm vs2 /\ legal lm vd) -> driver_vv s vs1 vs2 vd em vstart v = (Err IllegalInstruction, v).
Proof.
  intros B1 B2 Bd Hn.
  destruct (decide (legal lm vs1)), (decide (legal lm vs2)), (decide (legal lm vd)); try tauto.
  all: destruct s; cbn [driver_vv]; unfold exec_integer_vv, exec_integer_vvv, exec_integer_vvm; run_illegal.
Qed.

Lemma driver_vx_illegal s x1 vs2 vd em vstart : 0 <= vs2 < 32 -> 0 <= vd < 32 ->
  ~ (legal lm vs2 /\ legal lm vd) -> driver_vx s x1 vs2 vd em vstart v = (Err IllegalInstruction, v).
Proof.
  intros B2 Bd Hn. destruct (decide (legal lm vs2)), (decide (legal lm vd)); try tauto.
  all: destruct s; cbn [driver_vx]; unfold exec_integer_vx, exec_integer_vxv, exec_integer_vxm; run_illegal.
Qed.
End Drivers.

(** ** The instructions *)
Section Instructions.
Context {D X : Type} `{DeviceTrait D} `{Profile} `{HasVector X}.
Implicit Types c : RVCPU D X.

(** The forms of an instruction: a driver for a vector operand, one for a
    scalar. *)
Definition with_operand (o : VOperand) (rs1 : Z) (vv vx : Z -> M Vector Exception unit) : M (RVCPU D X) Exception unit :=
  match o with
  | OVs1 => on_vector (vv rs1)
  | ORs1 => x1 <- read_x rs1 ;; on_vector (vx x1)
  | OSimm => on_vector (vx (simm5 rs1))
  | OUimm => on_vector (vx rs1)
  end.

Lemma with_operand_run (P : Vector -> Prop) o rs1 vv vx w c : cpu_wf c -> reg_ok rs1 -> 8 <= w <= 64 ->
  (o = OVs1 -> exists v', vv rs1 (vec_of c) = (Ok tt, v') /\ P v') ->
  (forall x, o <> OVs1 -> x mod 2 ^ w = scalar_value o (reg_file c) w rs1 -> exists v', vx x (vec_of c) = (Ok tt, v') /\ P v') ->
  exists v', with_operand o rs1 vv vx c = (Ok tt, set_vec v' c) /\ P v'.
Proof.
  intros Hc Hrs Hw Hvv Hvx. destruct o; cbn [with_operand scalar_value] in *.
  - destruct Hvv as (v' & Hrun & HP); [done|]. exists v'. split; [by apply on_vector_run|done].
  - destruct (Hvx (reg_file c !!! Z.to_nat rs1)) as (v' & Hrun & HP); [done..|]. exists v'. split; [|done].
    erewrite bind_Ok by (by apply read_x_run). by apply on_vector_run.
  - destruct (Hvx (simm5 rs1)) as (v' & Hrun & HP); [done|by apply simm5_spec|]. exists v'. split; [by apply on_vector_run|done].
  - unfold reg_ok in Hrs. destruct (Hvx rs1) as (v' & Hrun & HP); [done| |].
    + apply Z.mod_small. split; [lia|]. apply Z.lt_le_trans with (2 ^ 8); [lia|]. apply Z.pow_le_mono_r; lia.
    + exists v'. split; [by apply on_vector_run|done].
Qed.

Lemma with_operand_err o rs1 vv vx e c : cpu_wf c -> reg_ok rs1 ->
  (o = OVs1 -> vv rs1 (vec_of c) = (Err e, vec_of c)) -> (forall x, o <> OVs1 -> vx x (vec_of c) = (Err e, vec_of c)) ->
  with_operand o rs1 vv vx c = (Err e, c).
Proof.
  intros Hc Hrs Hvv Hvx. destruct o; cbn [with_operand].
  - by apply on_vector_err, Hvv.
  - erewrite bind_Ok by (by apply read_x_run). by apply on_vector_err, Hvx.
  - by apply on_vector_err, Hvx.
  - by apply on_vector_err, Hvx.
Qed.

Definition vec_body (o : VOperand) (s : VShape) (vstart rs1 rs2 rd : Z) (vm : bool) : M (RVCPU D X) Exception unit :=
  with_operand o rs1 (fun vs1 => driver_vv s vs1 rs2 rd (negb vm) vstart) (fun x1 => driver_vx s x1 rs2 rd (negb vm) vstart).

Lemma dispatch_varith i s : varith_shape i = Some s ->
  vector_exec_func (D := D) (X := X) i = Some (fun info => vec_op info (vec_body (voperand i) s)).
Proof. destruct i; cbn [varith_shape]; intros Hs; try discriminate Hs; injection Hs as <-; reflexivity. Qed.

Lemma needs_mask_reads i s : varith_shape i = Some s -> needs_mask s = negb (reads_v0 i).
Proof. destruct i; cbn [varith_shape]; intros Hs; try discriminate Hs; by injection Hs as <-. Qed.

(** The register groups of an instruction start where groups may start. *)
Definition groups_legal (o : VOperand) (v : Vector) (rs1 rs2 rd : Z) : Prop :=
  (o = OVs1 -> legal (group_regs v) rs1) /\ legal (group_regs v) rs2 /\ legal (group_regs v) rd.

Lemma isa_implements v i s f : isa_varith i = Some f -> varith_shape i = Some s -> shape_implements v s (f (8 * elem_bytes v)).
Proof.
  intros Hf Hs a b d m Ha Hb Hd. rewrite (shape_isa i s f) by done. rewrite elem_ty_bits in *. split; [done|].
  apply (isa_varith_range i); try done. pose proof (into_byte_width_ok (vsew (config v))) as Hw. fold (elem_bytes v) in Hw.
  unfold width_ok in Hw. lia.
Qed.

(** What one element becomes. *)
Definition varith_elem (f : Z -> Z -> Z -> Z -> bool -> Z) (o : VOperand) (r : list Z) (v : Vector) (rs1 rs2 rd j : Z) : Z :=
  let w := elem_bytes v in
  f (8 * w) (reg_elem (vector_regfile v) w rs2 j) (voperand_value o r v (8 * w) rs1 j)
    (reg_elem (vector_regfile v) w rd j) (mask_reg_bit (vector_regfile v) 0 j).

Lemma elem_bytes_bits v : 8 * elem_bytes v / 8 = elem_bytes v.
Proof. rewrite Z.mul_comm. by apply Z.div_mul. Qed.

Lemma vec_body_run o s f rs1 rs2 rd vm c : let v := vec_of c in
  cpu_wf c -> vregs_ok (vector_regfile v) -> reg_ok rs1 -> groups_legal o v rs1 rs2 rd ->
  shape_implements v s (f (8 * elem_bytes v)) ->
  exists v', vec_body o s (vstart_of c) rs1 rs2 rd vm c = (Ok tt, set_vec v' c) /\
    vd_written v v' rd (elem_bytes v) (group_regs v)
      (fun j => arch_value 0 v (negb vm && needs_mask s) (vstart_of c) (varith_elem f o (reg_file c) v rs1 rs2 rd j) j).
Proof.
  intros v Hc Hr Hrs (L1 & L2 & Ld) Himp. unfold varith_elem, voperand_value, vec_body.
  apply with_operand_run with (w := 8 * elem_bytes v); [done|done|apply elem_bits| |].
  - intros ->. rewrite elem_bytes_bits. apply driver_vv_run; auto.
  - intros x Ho Hx. destruct (driver_vx_run v Hr s _ x rs2 rd (negb vm) (vstart_of c) Himp) as (v' & Hrun & Hw); [done..|].
    exists v'. split; [done|]. rewrite Hx in Hw. by destruct o.
Qed.

(** C14: Single-width integer vector instructions, in their vector-vector,
    vector-scalar and vector-immediate forms: with the unit on and register
    groups where groups may start, the instruction retires; each element of the
    destination becomes what the vector extension defines for it, elements
    before vstart are kept, tail and masked-off elements follow the configured
    policies; no other vector register changes, the program counter advances by
    four and vstart is cleared. *)
Theorem vector_alu_correct i f rs1 rs2 rd vm func6 c :
  isa_varith i = Some f -> cpu_wf c -> counter_ok c -> vs_on c ->
  reg_ok rs1 -> groups_legal (voperand i) (vec_of c) rs1 rs2 rd ->
  let v := vec_of c in
  exists exec v', vector_exec_func i = Some exec /\
    exec (IV rs1 rs2 rd vm func6) c = (Ok tt, vec_retired (reg_file c) v' c) /\
    vd_written v v' rd (elem_bytes v) (group_regs v) (fun j =>
      arch_value 0 v (negb vm && negb (reads_v0 i)) (vstart_of c) (varith_elem f (voperand i) (reg_file c) v rs1 rs2 rd j) j).
Proof.
  intros Hf Hc Hov Hon Hrs Hl v. pose proof (wf_vregs c Hc) as Hr. destruct (isa_shape i f Hf) as [s Hs].
  destruct (vec_body_run (voperand i) s f rs1 rs2 rd vm c Hc Hr Hrs Hl (isa_implements v i s f Hf Hs)) as (v' & Hrun & Hw).
  rewrite (needs_mask_reads i s Hs) in Hw. eexists _, v'. split; [by apply dispatch_varith|]. split; [|done].
  apply vec_op_run; [by apply wf_csr|done..|]. rewrite Hrun. by destruct c.
Qed.

(** C20: The error path of the same instructions: with the unit off, or with a
    register group that starts where none may, they raise an illegal-instruction
    exception and change nothing, neither registers nor vstart. *)
Theorem vector_alu_traps i f rs1 rs2 rd vm func6 c :
  isa_varith i = Some f -> cpu_wf c -> reg_ok rs1 -> reg_ok rs2 -> reg_ok rd ->
  ~ (vs_on c /\ groups_legal (voperand i) (vec_of c) rs1 rs2 rd) ->
  exists exec, vector_exec_func i = Some exec /\ exec (IV rs1 rs2 rd vm func6) c = (Err IllegalInstruction, c).
Proof.
  intros Hf Hc Hrs1 Hrs2 Hrd Hn. destruct (isa_shape i f Hf) as [s Hs].
  eexists. split; [by apply dispatch_varith|]. pose proof (wf_csr c Hc) as Hcsr.
  destruct (decide (vs_on c)) as [Hon|Hoff]; [|by apply vec_op_off]. apply vec_op_err; [done..|].
  assert (~ groups_legal (voperand i) (vec_of c) rs1 rs2 rd) as Hg by tauto. unfold groups_legal in Hg.
  apply with_operand_err; [done|done|intros Ho|intros x Ho].
  - apply driver_vv_illegal; try done. intros (? & ? & ?). by apply Hg.
  - apply driver_vx_illegal; try done. intros (? & ?). by apply Hg.
Qed.
End Instructions.

(** ** Concrete instances *)

(** vmacc.vv on groups of two registers of 16-bit elements, masked, with six of
    sixteen elements active and an agnostic tail. *)
Definition demo_vmacc : RVCPU Z Vector := demo_vec_hart (demo_vector E16 M2 true false 6) [(Vstart, 1)].

Lemma vector_alu_correct_witness :
  let D := demo_device in let P := dev in
  exists exec v', vector_exec_func VMACC_VV = Some exec /\
    exec (IV 4 6 8 false 0) demo_vmacc = (Ok tt, vec_retired (reg_file demo_vmacc) v' demo_vmacc) /\
    vd_written (vec_of demo_vmacc) v' 8 (elem_bytes (vec_of demo_vmacc)) (group_regs (vec_of demo_vmacc)) (fun j => arch_value 0 (vec_of demo_vmacc) true (vstart_of demo_vmacc)
      (varith_elem (fun w a b d _ => (d + b * a) mod 2 ^ w) OVs1 (reg_file demo_vmacc) (vec_of demo_vmacc) 4 6 8 j) j).
Proof.
  intros D P.
  apply (vector_alu_correct VMACC_VV (fun w a b d _ => (d + b * a) mod 2 ^ w) 4 6 8 false 0 demo_vmacc).
  - reflexivity.
  - apply demo_vec_wf; [by apply demo_vec_ok|]. repeat constructor; cbn; try solve_u64; discriminate.
  - intros _. vm_compute. reflexivity.
  - vm_compute. discriminate.
  - vm_compute. split; [discriminate|reflexivity].
  - split; [intros _|split]; vm_compute; (split; [reflexivity|]; split; [split; [discriminate|reflexivity]|reflexivity]).
Defined.

(** The same instruction with an odd destination register. *)
Lemma vector_alu_traps_witness :
  let D := demo_device in let P := dev in
  exists exec, vector_exec_func VMACC_VV = Some exec /\ exec (IV 4 6 9 false 0) demo_vmacc = (Err IllegalInstruction, demo_vmacc).
Proof.
  intros D P. apply (vector_alu_traps VMACC_VV (fun w a b d _ => (d + b * a) mod 2 ^ w) 4 6 9 false 0 demo_vmacc).
  - reflexivity.
  - apply demo_vec_wf; [by apply demo_vec_ok|]. repeat constructor; cbn; try solve_u64; discriminate.
  - vm_compute. split; [discriminate|reflexivity].
  - vm_compute. split; [discriminate|reflexivity].
  - vm_compute. split; [discriminate|reflexivity].
  - intros (_ & _ & _ & _ & _ & Hodd). vm_compute in Hodd. discriminate Hodd.
Defined.
