(* ===== verification/VectorMaskSpec.v ===== *)
(** * Vector comparisons and carries

    The integer instructions whose result is a mask: one bit per element of a
    single register.  [isa_vcompare] is their definition in the vector
    extension. *)

From S2P Require Import Prelude Utils TrapTypes Alu Ram CsrTable Csr PageTable Mmio Vm Instr Cpu Trap Exec Invariant ExecSpec Vector VectorInt VectorArith VectorFix VectorExec VectorMap VectorSpec VectorHart VectorAluSpec.

(** ** Bits of a run of bytes *)
Definition bit_of (b : list Z) (i : Z) : bool := Z.testbit (load_le 1 b (i / 8)) (i mod 8).
Definition put_bit (i : Z) (o : option bool) (b : list Z) : list Z :=
  match o with
  | Some x => <[Z.to_nat (i / 8) := write_bit (load_le 1 b (i / 8)) (i mod 8) x]> b
  | None => b
  end.

Lemma load_byte b n x : 0 <= n -> b !! Z.to_nat n = Some x -> load_le 1 b n = x.
Proof.
  intros Hn Hb. unfold load_le. rewrite (drop_S _ _ _ Hb). change (Z.to_nat 1) with 1%nat.
  cbn [take little_endian_to_Z]. by rewrite Z.shiftl_0_l, Z.lor_0_r.
Qed.

Lemma lookup_byte b n : 0 <= n < Z.of_nat (length b) -> b !! Z.to_nat n = Some (load_le 1 b n).
Proof.
  intros Hn. destruct (lookup_lt_is_Some_2 b (Z.to_nat n) ltac:(lia)) as [x Hx]. by rewrite Hx, (load_byte b n x) by (done || lia).
Qed.

Lemma load_byte_insert b n x m : 0 <= n < Z.of_nat (length b) -> 0 <= m < Z.of_nat (length b) ->
  load_le 1 (<[Z.to_nat n := x]> b) m = if decide (n = m) then x else load_le 1 b m.
Proof.
  intros Hn Hm. apply load_byte; [lia|]. destruct (decide (n = m)) as [->|Hne].
  - apply list_lookup_insert_eq. lia.
  - rewrite list_lookup_insert_ne by lia. by apply lookup_byte.
Qed.

Lemma write_bit_testbit x i (v : bool) k : 0 <= i < 8 -> 0 <= k < 8 ->
  Z.testbit (write_bit x i v) k = if decide (i = k) then v else Z.testbit x k.
Proof.
  intros Hi Hk. unfold write_bit. rewrite shl_1 by done.
  destruct v; [rewrite Z.lor_spec|rewrite Z.land_spec, bnot_testbit by lia]; rewrite Z.pow2_bits_eqb by lia.
  - destruct (Z.eqb_spec i k), (decide (i = k)); subst; try done; by rewrite ?orb_true_r, ?orb_false_r.
  - rewrite (proj2 (Z.ltb_lt k 8)) by lia.
    destruct (Z.eqb_spec i k), (decide (i = k)); subst; try done; cbn; by rewrite ?andb_true_r, ?andb_false_r.
Qed.

Lemma write_bit_range x i v : uint 8 x -> 0 <= i < 8 -> uint 8 (write_bit x i v).
Proof.
  intros Hx Hi. unfold write_bit. rewrite shl_1 by done. destruct v.
  - apply uint_lor; [lia|done|]. unfold uint. split; [apply Z.pow_nonneg; lia|apply Z.pow_lt_mono_r; lia].
  - apply uint_land; [lia|done].
Qed.

Lemma bit_index i : 0 <= i -> 0 <= i / 8 /\ 0 <= i mod 8 < 8 /\ i = 8 * (i / 8) + i mod 8.
Proof. intros. split_and!; [apply Z.div_pos; lia|apply Z.mod_pos_bound; lia..|apply Z.div_mod; lia]. Qed.

Lemma length_put_bit i o b : length (put_bit i o b) = length b.
Proof. destruct o; [apply length_insert|done]. Qed.

Lemma bytes_ok_put_bit i o b : 0 <= i < 8 * Z.of_nat (length b) -> bytes_ok b -> bytes_ok (put_bit i o b).
Proof.
  intros Hi Hb. destruct o as [x|]; [|done]. destruct (bit_index i) as (? & ? & ?); [lia|]. apply Forall_insert; [done|].
  apply write_bit_range; [|lia]. pose proof (lookup_byte b (i / 8) ltac:(lia)) as Hl. by apply (Forall_lookup_1 _ _ _ _ Hb Hl).
Qed.

Lemma bit_of_put i o b j : 0 <= i < 8 * Z.of_nat (length b) -> 0 <= j < 8 * Z.of_nat (length b) ->
  bit_of (put_bit i o b) j = if decide (i = j) then default (bit_of b j) o else bit_of b j.
Proof.
  intros Hi Hj. destruct o as [x|]; [|by destruct (decide _)]. cbn.
  destruct (bit_index i) as (? & ? & ?); [lia|]. destruct (bit_index j) as (? & ? & ?); [lia|].
  unfold bit_of. rewrite load_byte_insert by lia. destruct (decide (i / 8 = j / 8)) as [E|].
  - rewrite E, write_bit_testbit by lia. destruct (decide (i mod 8 = j mod 8)), (decide (i = j)); try done; lia.
  - rewrite decide_False; [done|]. intros ->. done.
Qed.

(** A loop that stores bit [i], or leaves it, does so for every bit of its range. *)
Lemma for_enumerate_bits {S E} (emb : list Z -> S) (w : Z -> option bool) (body : Z -> Z -> M S E unit) (cap lo hi : Z) b :
  0 <= lo -> hi <= 8 * cap -> Z.of_nat (length b) = cap ->
  (forall i b, lo <= i < hi -> Z.of_nat (length b) = cap -> body i i (emb b) = (Ok tt, emb (put_bit i (w i) b))) ->
  exists b', for_enumerate lo (seqZ lo (hi - lo)) body (emb b) = (Ok tt, emb b') /\
    Z.of_nat (length b') = cap /\ (bytes_ok b -> bytes_ok b') /\
    forall j, 0 <= j < 8 * cap -> bit_of b' j = if decide (lo <= j < hi) then default (bit_of b j) (w j) else bit_of b j.
Proof.
  intros Hlo Hhi Hlen Hbody. remember (Z.to_nat (Z.max 0 (hi - lo))) as n eqn:Hn.
  assert (Hn' : Z.of_nat n = Z.max 0 (hi - lo)) by lia. clear Hn.
  revert lo b Hlo Hlen Hbody Hn'. induction n as [|n IH]; intros lo b Hlo Hlen Hbody Hn'.
  { rewrite seqZ_nil by lia. exists b. split_and!; try done. intros j Hj. by rewrite decide_False by lia. }
  rewrite seqZ_cons by lia. cbn [for_enumerate]. erewrite bind_Ok by (apply Hbody; [lia|done]).
  replace (Z.pred (hi - lo)) with (hi - (lo + 1)) by lia. replace (Z.succ lo) with (lo + 1) by lia.
  destruct (IH (lo + 1) (put_bit lo (w lo) b)) as (b' & Hrun & Hl & Hb & He); [lia|by rewrite length_put_bit| |lia|].
  { intros i b0 Hi. apply Hbody. lia. }
  exists b'. split_and!; [done|done|intros Hb0; apply Hb, bytes_ok_put_bit; [lia|done]|].
  intros j Hj. rewrite He, bit_of_put by lia.
  destruct (decide (lo + 1 <= j < hi)), (decide (lo = j)), (decide (lo <= j < hi)); try lia; by subst.
Qed.

(** ** The result in the destination register *)

(** Bit [j] of the destination becomes [new j], or stays as it was; no other
    register changes. *)
Definition mask_written (v v' : Vector) (vd : Z) (new : Z -> option bool) : Prop :=
  config v' = config v /\ vregs_ok (vector_regfile v') /\
  (forall j, 0 <= j < VLEN -> mask_reg_bit (vector_regfile v') vd j = default (mask_reg_bit (vector_regfile v) vd j) (new j)) /\
  (forall i : nat, Z.of_nat i < VLEN_BYTE * vd \/ VLEN_BYTE * (vd + 1) <= Z.of_nat i ->
     vector_regfile v' !! i = vector_regfile v !! i).

Section Run.
Context `{Profile}.

Lemma legal_one idx : 0 <= idx < 32 -> legal 1 idx.
Proof. intros. split_and!; [done|lia|lia|apply Z.mod_1_r]. Qed.

Lemma bit_of_group r idx j : vregs_ok r -> legal 1 idx -> 0 <= j < VLEN ->
  bit_of (group_bytes r (VLEN_BYTE * idx) 1) j = mask_reg_bit r idx j.
Proof.
  intros Hr Hl Hj. change VLEN with 128 in Hj. destruct (bit_index j) as (? & ? & ?); [lia|].
  unfold bit_of, mask_reg_bit, reg_elem. rewrite load_group by (done || lia || (change VLEN_BYTE with 16; lia)). by rewrite Z.mul_1_r.
Qed.

Lemma into_mask_run {A} v vd (op : M VGFRef Exception A) (a : A) new : vregs_ok (vector_regfile v) -> legal 1 vd ->
  (exists b, op (group1 (vector_regfile v) vd 1 1) = (Ok a, set_value (group1 (vector_regfile v) vd 1 1) b) /\
     Z.of_nat (length b) = VLEN_BYTE /\ (bytes_ok (group_bytes (vector_regfile v) (VLEN_BYTE * vd) 1) -> bytes_ok b) /\
     forall j, 0 <= j < VLEN -> bit_of b j = default (mask_reg_bit (vector_regfile v) vd j) (new j)) ->
  exists v', into_vd vd 1 1 op v = (Ok a, v') /\ mask_written v v' vd new.
Proof.
  intros Hr Hl (b & Hop & Hlen & Hb & He).
  destruct (into_vd_run v vd 1 1 op a (fun j => Some (load_le 1 b j)) Hr Hl (or_introl eq_refl)) as (v' & Hrun & Hc & Hr' & Hel & Ho).
  { exists b. rewrite Z.mul_1_r. split_and!; try done. intros j Hj. by rewrite Z.mul_1_r. }
  exists v'. split; [done|]. split_and!; [done|done| |done].
  intros j Hj. rewrite <- He by done. unfold mask_reg_bit. change VLEN with 128 in Hj. destruct (bit_index j) as (? & ? & ?); [lia|].
  rewrite Hel by (change (vlmax 1 1) with 16; lia). done.
Qed.

(** The loop of the comparisons. *)
Lemma load_mask_bits_run v vd n em vstart op f x : vregs_ok (vector_regfile v) -> legal 1 vd -> 0 <= n <= VLEN ->
  (forall g, g = group1 (vector_regfile v) vd 1 1 -> op g = load_mask_bits n (cfg_mask v em vstart) f g) ->
  (forall i s, 0 <= i < n -> f i s = (Ok (x i), s)) ->
  exists v', into_vd vd 1 1 op v = (Ok tt, v') /\
    mask_written v v' vd (fun j => if j <? n then arch_value false v em vstart (x j) j else None).
Proof.
  intros Hr Hl Hn Hop Hx. change VLEN with 128 in Hn. apply into_mask_run; [done..|]. rewrite (Hop _ eq_refl). unfold load_mask_bits.
  set (g := group1 (vector_regfile v) vd 1 1).
  pose proof (length_group_bytes (vector_regfile v) 1 vd Hr Hl) as Hlen. rewrite Z.mul_1_r in Hlen. change VLEN_BYTE with 16 in Hlen.
  destruct (for_enumerate_bits (E := Exception) (set_value g) (fun i => mask_value false (cfg_mask v em vstart) (x i) i)
    (fun index _ => b <- f index ;; mask_bit_load (cfg_mask v em vstart) index b) 16 0 n (value g)) as (b & Hrun & Hlb & Hb & He); [lia|lia|done| |].
  { intros i b Hi Hbl. erewrite bind_Ok by (by apply Hx). unfold mask_bit_load. destruct (mask_value _ _ _ _) as [y|]; [|done].
    erewrite bind_Ok by reflexivity. cbn beta. unfold id. cbn [value set_value put_bit].
    destruct (bit_index i) as (? & ? & ?); [lia|].
    assert (lookup_z b (i / 8) = Some (load_le 1 b (i / 8))) as -> by (apply lookup_z_Some; split; [lia|apply lookup_byte; lia]).
    reflexivity. }
  exists b. rewrite Z.sub_0_r in Hrun. split_and!; try done. intros j Hj. rewrite He by (change VLEN with 128 in Hj; lia).
  unfold g. cbn [value group1]. rewrite bit_of_group by done. change VLEN with 128 in Hj. rewrite mask_value_arch by done.
  destruct (decide (0 <= j < n)), (Z.ltb_spec j n); try done; lia.
Qed.
End Run.

(** ** Reference

    The bit for elements of [w] bits: [a] of vs2, [b] the second operand, [m]
    the incoming carry or borrow. *)
Definition isa_vcompare (i : VInstr) : option (Z -> Z -> Z -> bool -> bool) :=
  match i with
  | VMSEQ_VV | VMSEQ_VX | VMSEQ_VI => Some (fun w a b _ => a =? b)
  | VMSNE_VV | VMSNE_VX | VMSNE_VI => Some (fun w a b _ => negb (a =? b))
  | VMSLTU_VV | VMSLTU_VX => Some (fun w a b _ => a <? b)
  | VMSLT_VV | VMSLT_VX => Some (fun w a b _ => to_signed w a <? to_signed w b)
  | VMSLEU_VV | VMSLEU_VX | VMSLEU_VI => Some (fun w a b _ => a <=? b)
  | VMSLE_VV | VMSLE_VX | VMSLE_VI => Some (fun w a b _ => to_signed w a <=? to_signed w b)
  | VMADC_VV | VMADC_VX | VMADC_VI => Some (fun w a b _ => 2 ^ w <=? a + b)
  | VMADC_VVM | VMADC_VXM | VMADC_VIM => Some (fun w a b m => 2 ^ w <=? a + b + Z.b2z m)
  | VMSBC_VV | VMSBC_VX => Some (fun w a b _ => a - b <? 0)
  | VMSBC_VVM | VMSBC_VXM => Some (fun w a b m => a - b - Z.b2z m <? 0)
  | _ => None
  end.

(** v0 holds the carries. *)
Definition carry_in (i : VInstr) : bool :=
  match i with VMADC_VVM | VMADC_VXM | VMADC_VIM | VMSBC_VVM | VMSBC_VXM => true | _ => false end.

Inductive MShape : Type :=
| MCompare (F : UInt -> Z -> Z -> bool)
| MCarry (F : UInt -> Z -> Z -> bool -> bool).

Definition vcompare_shape (i : VInstr) : option MShape :=
  match i with
  | VMSEQ_VV | VMSEQ_VX | VMSEQ_VI => Some (MCompare (fun _ => ExecEqual))
  | VMSNE_VV | VMSNE_VX | VMSNE_VI => Some (MCompare (fun _ => ExecNotEqual))
  | VMSLTU_VV | VMSLTU_VX => Some (MCompare (fun _ => ExecUnsignedLess_bool))
  | VMSLT_VV | VMSLT_VX => Some (MCompare ExecVSignedLess)
  | VMSLEU_VV | VMSLEU_VX | VMSLEU_VI => Some (MCompare ExecUnsignedLessEqual)
  | VMSLE_VV | VMSLE_VX | VMSLE_VI => Some (MCompare ExecSignedLessEqual)
  | VMSGTU_VX | VMSGTU_VI => Some (MCompare ExecUnsignedGreaterX)
  | VMSGT_VX | VMSGT_VI => Some (MCompare ExecSignedGreaterX)
  | VMADC_VV | VMADC_VX | VMADC_VI => Some (MCompare ExecAdcCarryNoCarry)
  | VMADC_VVM | VMADC_VXM | VMADC_VIM => Some (MCarry ExecAdcCarry)
  | VMSBC_VV | VMSBC_VX => Some (MCompare ExecSbcBorrowNoBorrow)
  | VMSBC_VVM | VMSBC_VXM => Some (MCarry ExecSbcBorrow)
  | _ => None
  end.

Definition mshape_value (s : MShape) (t : UInt) (a b : Z) (m : bool) : bool :=
  match s with MCompare F => F t a b | MCarry F => F t a b m end.
Definition mshape_masked (s : MShape) : bool := match s with MCompare _ => true | MCarry _ => false end.

Lemma carry_out w z : 0 <= w -> 0 <= z -> negb (Z.shiftr z w =? 0) = (2 ^ w <=? z).
Proof.
  intros Hw Hz. rewrite Z.shiftr_div_pow2 by done. assert (0 < 2 ^ w) by (by apply Z.pow_pos_nonneg).
  destruct (Z.leb_spec (2 ^ w) z).
  - apply negb_true_iff, Z.eqb_neq. assert (0 < z / 2 ^ w) by (by apply Z.div_str_pos). lia.
  - rewrite Z.div_small by lia. done.
Qed.

Lemma mshape_isa i s f t a b m : vcompare_shape i = Some s -> isa_vcompare i = Some f ->
  uint (BITS t) a -> uint (BITS t) b -> mshape_value s t a b m = f (BITS t) a b m.
Proof.
  intros Hs Hf Ha Hb. pose proof (BITS_le t). unfold uint in Ha, Hb.
  destruct i; cbn [vcompare_shape isa_vcompare] in Hs, Hf; try discriminate Hf; injection Hs as <-; injection Hf as <-;
    cbn [mshape_value]; try reflexivity;
    unfold ExecVSignedLess, ExecSignedLessEqual, ExecAdcCarryNoCarry, ExecAdcCarry, ExecSbcBorrowNoBorrow, ExecSbcBorrow;
    rewrite ?as_signed_i128_spec by done; try reflexivity.
  all: rewrite ?carry_out by (destruct m; cbn; lia); try reflexivity.
  all: apply Bool.eq_iff_eq_true; rewrite !Z.ltb_lt; destruct m; cbn; lia.
Qed.

(** ** Running them *)
Section Drivers.
Context `{Profile}.

Definition mdriver_vv (s : MShape) (vs1 vs2 vd : Z) (em : bool) (vstart : Z) : M Vector Exception unit :=
  match s with
  | MCompare F => exec_integer_mask_vv (impl_vector_op_integer_mask_vv_binary F) vs1 vs2 vd em vstart
  | MCarry F => exec_integer_mask_vvm (impl_vector_op_integer_mask_vvm_binary F) vs1 vs2 0 vd false vstart
  end.

Definition mdriver_vx (s : MShape) (x1 vs2 vd : Z) (em : bool) (vstart : Z) : M Vector Exception unit :=
  match s with
  | MCompare F => exec_integer_mask_vx (impl_vector_op_integer_mask_vx_binary F) x1 vs2 vd em vstart
  | MCarry F => exec_integer_mask_vxm (impl_vector_op_integer_mask_vxm_binary F) x1 vs2 0 vd false vstart
  end.

Context (v : Vector) (Hr : vregs_ok (vector_regfile v)).
Abbreviation ew := (elem_bytes v).
Abbreviation lm := (group_regs v).
Abbreviation rf := (vector_regfile v).

Lemma mdriver_vv_run s vs1 vs2 vd em vstart : legal lm vs1 -> legal lm vs2 -> legal 1 vd ->
  exists v', mdriver_vv s vs1 vs2 vd em vstart v = (Ok tt, v') /\
    mask_written v v' vd (fun j => if j <? vlmax ew lm then arch_value false v (em && mshape_masked s) vstart
      (mshape_value s (elem_ty v) (reg_elem rf ew vs2 j) (reg_elem rf ew vs1 j) (mask_reg_bit rf 0 j)) j else None).
Proof.
  intros L1 L2 Ld. destruct s as [F|F]; cbn [mdriver_vv mshape_value mshape_masked]; rewrite ?andb_true_r, ?andb_false_r.
  all: unfold exec_integer_mask_vv, exec_integer_mask_vvm; run_operands; eapply load_mask_bits_run; [done|done|apply vlmax_VLEN| |].
  1,3: intros g ->; unfold impl_vector_op_integer_mask_vv_binary, impl_vector_op_integer_mask_vvm_binary; run_entry.
  all: intros i st Hi; cbn beta; run_element; done.
Qed.

Lemma mdriver_vx_run s x1 vs2 vd em vstart : legal lm vs2 -> legal 1 vd ->
  exists v', mdriver_vx s x1 vs2 vd em vstart v = (Ok tt, v') /\
    mask_written v v' vd (fun j => if j <? vlmax ew lm then arch_value false v (em && mshape_masked s) vstart
      (mshape_value s (elem_ty v) (reg_elem rf ew vs2 j) (x1 mod 2 ^ (8 * ew)) (mask_reg_bit rf 0 j)) j else None).
Proof.
  intros L2 Ld. replace (x1 mod 2 ^ (8 * ew)) with (truncate_from (elem_ty v) x1) by (unfold truncate_from; by rewrite elem_ty_bits).
  destruct s as [F|F]; cbn [mdriver_vx mshape_value mshape_masked]; rewrite ?andb_true_r, ?andb_false_r.
  all: unfold exec_integer_mask_vx, exec_integer_mask_vxm; run_operands; eapply load_mask_bits_run; [done|done|apply vlmax_VLEN| |].
  1,3: intros g ->; unfold impl_vector_op_integer_mask_vx_binary, impl_vector_op_integer_mask_vxm_binary; run_entry.
  all: intros i st Hi; cbn beta; run_element; done.
Qed.
End Drivers.

(** ** The instructions *)
Section Instructions.
Context {D X : Type} `{DeviceTrait D} `{Profile} `{HasVector X}.
Implicit Types c : RVCPU D X.

Definition mask_body (o : VOperand) (s : MShape) (vstart rs1 rs2 rd : Z) (vm : bool) : M (RVCPU D X) Exception unit :=
  with_operand o rs1 (fun vs1 => mdriver_vv s vs1 rs2 rd (negb vm) vstart) (fun x1 => mdriver_vx s x1 rs2 rd (negb vm) vstart).

Lemma dispatch_vcompare i s : vcompare_shape i = Some s ->
  vector_exec_func (D := D) (X := X) i = Some (fun info => vec_op info (mask_body (voperand i) s)).
Proof. destruct i; cbn [vcompare_shape]; intros Hs; try discriminate Hs; injection Hs as <-; reflexivity. Qed.

Lemma masked_carry i s : vcompare_shape i = Some s -> mshape_masked s = negb (carry_in i).
Proof. destruct i; cbn [vcompare_shape]; intros Hs; try discriminate Hs; by injection Hs as <-. Qed.

Lemma vcompare_some i f : isa_vcompare i = Some f -> exists s, vcompare_shape i = Some s.
Proof. destruct i; cbn; intros Hf; try discriminate Hf; by eexists. Qed.

Definition compare_groups (o : VOperand) (v : Vector) (rs1 rs2 : Z) : Prop :=
  (o = OVs1 -> legal (group_regs v) rs1) /\ legal (group_regs v) rs2.

(** What a comparison [F] of the code writes. *)
Definition compare_result (F : Z -> Z -> bool -> bool) (o : VOperand) (r : list Z) (v : Vector) (em : bool) (vstart rs1 rs2 j : Z) : option bool :=
  let w := elem_bytes v in
  if j <? vlmax w (group_regs v) then
    arch_value false v em vstart (F (reg_elem (vector_regfile v) w rs2 j) (voperand_value o r v (8 * w) rs1 j)
      (mask_reg_bit (vector_regfile v) 0 j)) j
  else None.

Lemma mask_body_run o s rs1 rs2 rd vm c : let v := vec_of c in
  cpu_wf c -> vregs_ok (vector_regfile v) -> reg_ok rs1 -> reg_ok rd -> compare_groups o v rs1 rs2 ->
  exists v', mask_body o s (vstart_of c) rs1 rs2 rd vm c = (Ok tt, set_vec v' c) /\
    mask_written v v' rd (compare_result (mshape_value s (elem_ty v)) o (reg_file c) v (negb vm && mshape_masked s) (vstart_of c) rs1 rs2).
Proof.
  intros v Hc Hr Hrs Hrd (L1 & L2). unfold compare_result, voperand_value, mask_body. apply legal_one in Hrd.
  apply with_operand_run with (w := 8 * elem_bytes v); [done|done|apply elem_bits| |].
  - intros ->. rewrite elem_bytes_bits. apply mdriver_vv_run; auto.
  - intros x Ho Hx. destruct (mdriver_vx_run v Hr s x rs2 rd (negb vm) (vstart_of c)) as (v' & Hrun & Hw); [done..|].
    exists v'. split; [done|]. rewrite Hx in Hw. by destruct o.
Qed.

Lemma compare_result_ext F G o r v em vstart rs1 rs2 j : vregs_ok (vector_regfile v) ->
  (forall a b m, uint (8 * elem_bytes v) a -> uint (8 * elem_bytes v) b -> F a b m = G a b m) ->
  uint (8 * elem_bytes v) (voperand_value o r v (8 * elem_bytes v) rs1 j) ->
  compare_result F o r v em vstart rs1 rs2 j = compare_result G o r v em vstart rs1 rs2 j.
Proof.
  intros Hr HFG Ho. unfold compare_result. destruct (_ <? _); [|done]. rewrite HFG; [done| |done].
  rewrite <- elem_ty_bits. by apply reg_elem_uint.
Qed.

Lemma voperand_uint i r v rs1 j : vregs_ok (vector_regfile v) -> reg_ok rs1 ->
  uint (8 * elem_bytes v) (voperand_value (voperand i) r v (8 * elem_bytes v) rs1 j).
Proof.
  intros Hr Hrs. pose proof (elem_bits v). unfold voperand_value, scalar_value, reg_ok in *. destruct (voperand i).
  - rewrite elem_bytes_bits, <- elem_ty_bits. by apply reg_elem_uint.
  - apply wrap_range. lia.
  - apply wrap_range. lia.
  - split; [lia|]. apply Z.lt_le_trans with (2 ^ 8); [lia|]. apply Z.pow_le_mono_r; lia.
Qed.

Lemma mask_written_ext v v' vd f g : (forall j, f j = g j) -> mask_written v v' vd f -> mask_written v v' vd g.
Proof. intros Hfg (Hc & Hr & He & Ho). split_and!; [done|done| |done]. intros j Hj. rewrite He by done. by rewrite Hfg. Qed.

(** Integer comparisons and carry-outs, in all their forms: the instruction
    retires and each of the bits the configuration covers becomes the truth
    value the vector extension defines, under the vstart, mask and tail
    policies; carries are exact, that is, the bit of vmadc is set if and only if
    the mathematical sum with the incoming carry leaves the element, and that of
    vmsbc if and only if the difference with the incoming borrow is negative;
    all other bits of the vector registers are kept. *)
Theorem vector_compare_correct i f rs1 rs2 rd vm func6 c :
  isa_vcompare i = Some f -> cpu_wf c -> counter_ok c -> vs_on c ->
  reg_ok rs1 -> reg_ok rd -> compare_groups (voperand i) (vec_of c) rs1 rs2 ->
  let v := vec_of c in
  exists exec v', vector_exec_func i = Some exec /\
    exec (IV rs1 rs2 rd vm func6) c = (Ok tt, vec_retired (reg_file c) v' c) /\
    mask_written v v' rd
      (compare_result (f (8 * elem_bytes v)) (voperand i) (reg_file c) v (negb vm && negb (carry_in i)) (vstart_of c) rs1 rs2).
Proof.
  intros Hf Hc Hov Hon Hrs Hrd Hl v. pose proof (wf_vregs c Hc) as Hr. destruct (vcompare_some i f Hf) as [s Hs].
  destruct (mask_body_run (voperand i) s rs1 rs2 rd vm c Hc Hr Hrs Hrd Hl) as (v' & Hrun & Hw).
  rewrite (masked_carry i s Hs) in Hw. eexists _, v'. split; [by apply dispatch_vcompare|]. split.
  - apply vec_op_run; [by apply wf_csr|done..|]. rewrite Hrun. by destruct c.
  - eapply mask_written_ext; [|exact Hw]. intros j. apply compare_result_ext; [done| |by apply voperand_uint].
    intros a b m Ha Hb. rewrite <- elem_ty_bits in *. by apply (mshape_isa i).
Qed.

(** vmsgt and vmsgtu do not compute "element greater than scalar": they test
    whether the element is less than the scalar. *)
Lemma vmsgt_is_less_than rs1 rs2 rd vm func6 c :
  cpu_wf c -> counter_ok c -> vs_on c ->
  reg_ok rs1 -> reg_ok rd -> compare_groups ORs1 (vec_of c) rs1 rs2 ->
  exists exec v', vector_exec_func VMSGTU_VX = Some exec /\
    exec (IV rs1 rs2 rd vm func6) c = (Ok tt, vec_retired (reg_file c) v' c) /\
    mask_written (vec_of c) v' rd
      (compare_result (fun a b _ => a <? b) ORs1 (reg_file c) (vec_of c) (negb vm) (vstart_of c) rs1 rs2).
Proof.
  intros Hc Hov Hon Hrs Hrd Hl. pose proof (wf_vregs c Hc) as Hr.
  destruct (mask_body_run ORs1 (MCompare ExecUnsignedGreaterX) rs1 rs2 rd vm c Hc Hr Hrs Hrd Hl) as (v' & Hrun & Hw).
  eexists _, v'. split; [exact (dispatch_vcompare VMSGTU_VX _ eq_refl)|]. split.
  - apply vec_op_run; [by apply wf_csr|done..|]. change (mask_body (voperand VMSGTU_VX)) with (mask_body ORs1). rewrite Hrun. by destruct c.
  - eapply mask_written_ext; [|exact Hw]. intros j. by rewrite andb_true_r.
Qed.
End Instructions.

(** ** Concrete instances *)

(** vmadc.vvm on 64-bit elements. *)
Definition demo_vmadc : RVCPU Z Vector := demo_vec_hart (demo_vector E64 M1 false false 2) [].

Lemma vector_compare_correct_witness :
  let D := demo_device in let P := dev in
  exists exec v', vector_exec_func VMADC_VVM = Some exec /\
    exec (IV 14 15 9 false 0) demo_vmadc = (Ok tt, vec_retired (reg_file demo_vmadc) v' demo_vmadc) /\
    mask_written (vec_of demo_vmadc) v' 9
      (compare_result (fun a b m => 2 ^ (8 * elem_bytes (vec_of demo_vmadc)) <=? a + b + Z.b2z m) OVs1 (reg_file demo_vmadc)
         (vec_of demo_vmadc) false (vstart_of demo_vmadc) 14 15).
Proof.
  intros D P. apply (vector_compare_correct VMADC_VVM (fun w a b m => 2 ^ w <=? a + b + Z.b2z m) 14 15 9 false 0 demo_vmadc).
  - reflexivity.
  - apply demo_vec_wf; [by apply demo_vec_ok|constructor].
  - intros _. vm_compute. reflexivity.
  - vm_compute. discriminate.
  - vm_compute. split; [discriminate|reflexivity].
  - vm_compute. split; [discriminate|reflexivity].
  - split; [intros _|]; vm_compute; (split; [reflexivity|]; split; [split; [discriminate|reflexivity]|reflexivity]).
Defined.
