(* ===== verification/VectorWideSpec.v ===== *)
(** * Widening vector arithmetic

    Instructions whose destination elements are twice as wide as the configured
    element width.  [isa_vwide] is the integer each destination element stands
    for; [vector_widening_exact] shows that the sums, differences and products
    of the narrow forms never wrap. *)

From S2P Require Import Prelude Utils TrapTypes Alu Ram CsrTable Csr PageTable Mmio Vm Instr Cpu Trap Exec Invariant ExecSpec Vector VectorInt VectorArith VectorFix VectorExec VectorMap VectorSpec VectorHart VectorAluSpec.

(** ** Reference

    Elements of [w] bits: [a] and [b] are the elements of vs2 and the second
    operand, [A] the double-width element of vs2 (for the .wv and .wx forms),
    [d] the old element of vd. *)
Definition isa_vwide (i : VInstr) : option (Z -> Z -> Z -> Z -> Z -> Z) :=
  match i with
  | VWADD_VV | VWADD_VX => Some (fun w a A b d => to_signed w a + to_signed w b)
  | VWADDU_VV | VWADDU_VX => Some (fun w a A b d => a + b)
  | VWSUB_VV | VWSUB_VX => Some (fun w a A b d => to_signed w a - to_signed w b)
  | VWSUBU_VV | VWSUBU_VX => Some (fun w a A b d => a - b)
  | VWMUL_VV | VWMUL_VX => Some (fun w a A b d => to_signed w a * to_signed w b)
  | VWMULU_VV | VWMULU_VX => Some (fun w a A b d => a * b)
  | VWMULSU_VV | VWMULSU_VX => Some (fun w a A b d => to_signed w a * b)
  | VWADD_WV | VWADD_WX => Some (fun w a A b d => A + to_signed w b)
  | VWADDU_WV | VWADDU_WX => Some (fun w a A b d => A + b)
  | VWSUB_WV | VWSUB_WX => Some (fun w a A b d => A - to_signed w b)
  | VWSUBU_WV | VWSUBU_WX => Some (fun w a A b d => A - b)
  | VWMACC_VV | VWMACC_VX => Some (fun w a A b d => d + to_signed w b * to_signed w a)
  | VWMACCU_VV | VWMACCU_VX => Some (fun w a A b d => d + b * a)
  | _ => None
  end.

Definition wide_operand (i : VInstr) : VOperand :=
  match i with
  | VWADD_VX | VWADDU_VX | VWSUB_VX | VWSUBU_VX | VWMUL_VX | VWMULU_VX | VWMULSU_VX | VWADD_WX | VWADDU_WX | VWSUB_WX | VWSUBU_WX
  | VWMACC_VX | VWMACCU_VX | VWMACCSU_VX | VWMACCUS_VX => ORs1
  | _ => OVs1
  end.

(** The .wv and .wx forms read vs2 at the wide width. *)
Definition wide_source (i : VInstr) : bool :=
  match i with
  | VWADD_WV | VWADD_WX | VWADDU_WV | VWADDU_WX | VWSUB_WV | VWSUB_WX | VWSUBU_WV | VWSUBU_WX => true
  | _ => false
  end.

(** How the sum, difference or product of two elements reads back: as a signed
    or an unsigned number; [None] for the accumulating forms, which wrap. *)
Definition exact_reading (i : VInstr) : option bool :=
  match i with
  | VWADD_VV | VWADD_VX | VWSUB_VV | VWSUB_VX | VWSUBU_VV | VWSUBU_VX | VWMUL_VV | VWMUL_VX | VWMULSU_VV | VWMULSU_VX => Some true
  | VWADDU_VV | VWADDU_VX | VWMULU_VV | VWMULU_VX => Some false
  | _ => None
  end.

Lemma exact_bounds w a b : 0 < w -> uint w a -> uint w b ->
  let p := 2 ^ (w - 1) in
  0 < p /\ - p <= to_signed w a < p /\ - p <= to_signed w b < p /\ 0 <= a < 2 * p /\ 0 <= b < 2 * p /\
  2 ^ (2 * w - 1) = 2 * p * p /\ 2 ^ (2 * w) = 4 * p * p.
Proof.
  intros Hw Ha Hb p. assert (2 ^ w = 2 * p) as E by (unfold p; rewrite <- Z.pow_succ_r by lia; f_equal; lia).
  pose proof (to_signed_range w a Hw Ha) as Hsa. pose proof (to_signed_range w b Hw Hb) as Hsb. fold p in Hsa, Hsb.
  assert (0 < p) by (apply Z.pow_pos_nonneg; lia). unfold uint in *. rewrite E in Ha, Hb.
  assert (2 ^ (2 * w) = 2 ^ w * 2 ^ w) as E2 by (rewrite <- Z.pow_add_r by lia; f_equal; lia).
  assert (2 ^ (2 * w) = 2 * 2 ^ (2 * w - 1)) by (rewrite <- Z.pow_succ_r by lia; f_equal; lia).
  rewrite E in E2. split_and!; lia.
Qed.

(** The narrow forms are exact. *)
Lemma wide_exact i f sg w a A b d : isa_vwide i = Some f -> exact_reading i = Some sg -> 2 <= w -> uint w a -> uint w b ->
  (if sg : bool then to_signed (2 * w) (f w a A b d mod 2 ^ (2 * w)) else f w a A b d mod 2 ^ (2 * w)) = f w a A b d.
Proof.
  intros Hf Hsg Hw Ha Hb. destruct (exact_bounds w a b ltac:(lia) Ha Hb) as (Hp & Hsa & Hsb & Hua & Hub & E1 & E2).
  set (p := 2 ^ (w - 1)) in *. assert (2 <= p) by (change 2 with (2 ^ 1); apply Z.pow_le_mono_r; lia).
  destruct i; cbn [isa_vwide exact_reading] in Hf, Hsg; try discriminate Hsg; injection Hf as <-; injection Hsg as <-.
  all: try (apply to_signed_wrap; [lia|]; rewrite E1); try (apply Z.mod_small; rewrite E2); try nia.
Qed.

(** ** The operations the instructions are mapped to *)
Inductive WShape : Type :=
| WNarrow (F : UInt -> Z -> Z -> ExecResult) (sg : Signs)
| WWide (F : UInt -> Z -> Z -> ExecResult) (sg : Signs)
| WAccumulate (sg : Signs).

Definition vwide_shape (i : VInstr) : option WShape :=
  match i with
  | VWADD_VV | VWADD_VX => Some (WNarrow ExecWideningAdd signed)
  | VWADDU_VV | VWADDU_VX => Some (WNarrow ExecWideningAdd unsigned)
  | VWSUB_VV | VWSUB_VX => Some (WNarrow ExecWideningSub signed)
  | VWSUBU_VV | VWSUBU_VX => Some (WNarrow ExecWideningSub unsigned)
  | VWMUL_VV | VWMUL_VX => Some (WNarrow ExecWideningMul signed)
  | VWMULU_VV | VWMULU_VX => Some (WNarrow ExecWideningMul unsigned)
  | VWMULSU_VV | VWMULSU_VX => Some (WNarrow ExecWideningMul signed_unsigned)
  | VWADD_WV | VWADD_WX => Some (WWide ExecWideningAdd signed)
  | VWADDU_WV | VWADDU_WX => Some (WWide ExecWideningAdd unsigned)
  | VWSUB_WV | VWSUB_WX => Some (WWide ExecWideningSub signed)
  | VWSUBU_WV | VWSUBU_WX => Some (WWide ExecWideningSub unsigned)
  | VWMACC_VV | VWMACC_VX => Some (WAccumulate signed)
  | VWMACCU_VV | VWMACCU_VX => Some (WAccumulate unsigned)
  | VWMACCSU_VV | VWMACCSU_VX => Some (WAccumulate signed_unsigned)
  | VWMACCUS_VX => Some (WAccumulate unsigned_signed)
  | _ => None
  end.

Definition wshape_value (s : WShape) (src dst : UInt) (a A b d : Z) : ExecResult :=
  match s with
  | WNarrow F sg => F dst (dst_from (vs2_signed sg) src a) (dst_from (vs1_signed sg) src b)
  | WWide F sg => F dst (dst_from (vs2_signed sg) dst A) (dst_from (vs1_signed sg) src b)
  | WAccumulate sg => ExecWmacc dst (dst_from (vs2_signed sg) src a) (dst_from (vs1_signed sg) src b) d
  end.

Lemma wrap_signed_l w A z : 0 <= w -> wrap w (to_signed w A + z) = wrap w (A + z).
Proof. intros. rewrite <- (wrap_add_l w (to_signed w A)), wrap_to_signed by done. apply wrap_add_l. Qed.

Lemma wshape_isa i s f src dst a A b d : vwide_shape i = Some s -> isa_vwide i = Some f -> BITS dst = 2 * BITS src ->
  wshape_value s src dst a A b d = Ok (f (BITS src) a A b d mod 2 ^ (2 * BITS src)).
Proof.
  intros Hs Hf Hd. pose proof (BITS_le src). rewrite <- Hd. pose proof (BITS_le dst).
  destruct i; cbn [vwide_shape isa_vwide] in Hs, Hf; try discriminate Hf; injection Hs as <-; injection Hf as <-;
    cbn [wshape_value vs1_signed vs2_signed dst_from]; try reflexivity.
  all: unfold ExecWideningAdd, ExecWideningSub, ExecWmacc; f_equal.
  all: change (?x mod 2 ^ BITS dst) with (wrap (BITS dst) x).
  all: rewrite ?wrap_add_l, <- ?Z.add_opp_r, ?wrap_signed_l by lia; try done; f_equal; lia.
Qed.

Definition wide_ty (v : Vector) : UInt := match vsew (config v) with E8 => U16 | E16 => U32 | _ => U64 end.
(** Twice the element width and twice the registers exist. *)
Definition widenable (v : Vector) : Prop := vsew (config v) <> E64 /\ vlmul (config v) <> M8.

Section Drivers.
Context `{Profile}.

Definition wdriver_vv (s : WShape) (vs1 vs2 vd : Z) (em : bool) (vstart : Z) : M Vector Exception unit :=
  match s with
  | WNarrow F sg => exec_widening_integer_vv (impl_vector_op_widening_integer_vv F sg) vs1 vs2 vd em vstart
  | WWide F sg => exec_widening_integer_wv (impl_vector_op_widening_integer_wv F sg) vs1 vs2 vd em vstart
  | WAccumulate sg => exec_widening_integer_vvv (impl_vector_op_widening_integer_vvv ExecWmacc sg) vs1 vs2 vd em vstart
  end.

Definition wdriver_vx (s : WShape) (x1 vs2 vd : Z) (em : bool) (vstart : Z) : M Vector Exception unit :=
  match s with
  | WNarrow F sg => exec_widening_integer_vx (impl_vector_op_widening_integer_vx F sg) x1 vs2 vd em vstart
  | WWide F sg => exec_widening_integer_wx (impl_vector_op_widening_integer_wx F sg) x1 vs2 vd em vstart
  | WAccumulate sg => exec_widening_integer_vxv (impl_vector_op_widening_integer_vxv ExecWmacc sg) x1 vs2 vd em vstart
  end.

Context (v : Vector) (Hr : vregs_ok (vector_regfile v)) (Hwide : widenable v).
Abbreviation ew := (elem_bytes v).
Abbreviation lm := (group_regs v).
Abbreviation rf := (vector_regfile v).

Lemma widening_shape_run : widening_shape v = (Ok (ew, lm, 2 * ew, 2 * lm), v).
Proof.
  destruct Hwide as [He Hm]. unfold widening_shape. erewrite bind_Ok by (apply cfg_sew_run). erewrite bind_Ok by (apply cfg_lmul_run).
  unfold elem_bytes, group_regs. destruct (vsew (config v)), (vlmul (config v)); done.
Qed.

Lemma wide_width : width_ok (2 * ew).
Proof. destruct Hwide as [He _]. unfold elem_bytes, width_ok. destruct (vsew (config v)); cbn; done || lia. Qed.

Lemma wide_ty_bits : BITS (wide_ty v) = 2 * BITS (elem_ty v).
Proof. destruct Hwide as [He _]. unfold wide_ty, elem_ty. by destruct (vsew (config v)). Qed.
Lemma wide_ty_size : size_of (wide_ty v) = 2 * ew.
Proof. destruct Hwide as [He _]. unfold wide_ty, elem_bytes. by destruct (vsew (config v)). Qed.

Lemma wide_vlmax : vlmax (2 * ew) (2 * lm) = vlmax ew lm.
Proof. unfold elem_bytes, group_regs. by destruct (vsew (config v)), (vlmul (config v)). Qed.

Lemma dispatch_wide {S E A} (body : UInt -> UInt -> M S E A) :
  dispatch_widening_integer_sew ew body = body (elem_ty v) (wide_ty v).
Proof. destruct Hwide as [He _]. unfold elem_bytes, wide_ty, elem_ty. by destruct (vsew (config v)). Qed.

Lemma dispatch_half {S E A} (body : UInt -> UInt -> M S E A) :
  dispatch_widening_integer_sew (2 * ew / 2) body = body (elem_ty v) (wide_ty v).
Proof. rewrite <- dispatch_wide. f_equal. rewrite Z.mul_comm. by apply Z.div_mul. Qed.

Lemma at_narrow {S E} idx i (s : S) : legal lm idx -> 0 <= i < vlmax (2 * ew) (2 * lm) ->
  at_ (E := E) (elements ew (value (group1 rf idx ew lm))) i s = (Ok (reg_elem rf ew idx i), s).
Proof. intros. rewrite wide_vlmax in *. apply at_source; try done. apply w_ok. Qed.

Lemma at_wide {S E} idx i (s : S) : legal (2 * lm) idx -> 0 <= i < vlmax (2 * ew) (2 * lm) ->
  at_ (E := E) (elements (2 * ew) (value (group1 rf idx (2 * ew) (2 * lm)))) i s = (Ok (reg_elem rf (2 * ew) idx i), s).
Proof. intros. apply at_source; try done. apply wide_width. Qed.

(** The source registers start where groups of their width may start. *)
Definition wide_vs2 (s : WShape) (vs2 : Z) : Prop := match s with WWide _ _ => legal (2 * lm) vs2 | _ => legal lm vs2 end.

Ltac run_operands :=
  erewrite bind_Ok by (exact widening_shape_run); cbv iota beta zeta;
  repeat first [ erewrite bind_Ok by (apply source_run; assumption) | erewrite bind_Ok by (apply arith_mask_run) ].
Ltac run_entry :=
  erewrite bind_Ok by reflexivity; cbn beta; unfold id; cbn [sew group1];
  rewrite ?(Z.mul_comm ew 2), ?Z.eqb_refl; cbn [andb]; erewrite bind_Ok by reflexivity; cbn beta; cbn [sew group1];
  rewrite ?dispatch_wide, ?dispatch_half;
  unfold vector_op_widening_vv_binary, vector_op_widening_vx_binary, vector_op_widening_wv_binary, vector_op_widening_wx_binary,
    vector_op_widening_vvv_ternary, vector_op_widening_vxv_ternary; cbv zeta;
  repeat (erewrite bind_Ok by (apply as_slice_run; first [symmetry; apply elem_ty_size | symmetry; apply wide_ty_size]));
  cbn [sew group1]; reflexivity.

Ltac run_element := repeat first [ erewrite bind_Ok by (apply at_narrow; assumption) | erewrite bind_Ok by (apply at_wide; assumption) ].

Definition implements_wide (s : WShape) (f : Z -> Z -> Z -> Z -> Z) : Prop :=
  forall a A b d, wshape_value s (elem_ty v) (wide_ty v) a A b d = Ok (f a A b d mod 2 ^ (2 * (8 * ew))).

Lemma wide_range z : uint (8 * (2 * ew)) (z mod 2 ^ (2 * (8 * ew))).
Proof.
  replace (8 * (2 * ew)) with (2 * (8 * ew)) by lia. apply wrap_range. pose proof (w_ok v) as Hw. unfold width_ok in Hw. lia.
Qed.

Lemma wdriver_vv_run s f vs1 vs2 vd em vstart : legal lm vs1 -> wide_vs2 s vs2 -> legal (2 * lm) vd -> implements_wide s f ->
  exists v', wdriver_vv s vs1 vs2 vd em vstart v = (Ok tt, v') /\
    vd_written v v' vd (2 * ew) (2 * lm) (fun j => arch_value 0 v em vstart
      (f (reg_elem rf ew vs2 j) (reg_elem rf (2 * ew) vs2 j) (reg_elem rf ew vs1 j) (reg_elem rf (2 * ew) vd j) mod 2 ^ (2 * (8 * ew))) j).
Proof.
  intros L1 L2 Ld Hf. destruct s as [F sg|F sg|sg]; cbn [wdriver_vv wide_vs2] in *.
  all: unfold exec_widening_integer_vv, exec_widening_integer_wv, exec_widening_integer_vvv; run_operands.
  all: eapply load_words_into_vd with (t := wide_ty v); [done|done|apply wide_width|symmetry; apply wide_ty_size| |].
  1,3,5: intros g ->; unfold impl_vector_op_widening_integer_vv, impl_vector_op_widening_integer_wv, impl_vector_op_widening_integer_vvv; run_entry.
  all: intros i st Hi; split; [|apply wide_range]; cbn beta; run_element; unfold implements_wide in Hf; cbn [wshape_value] in Hf.
  - by rewrite (Hf _ (reg_elem rf (2 * ew) vs2 i) _ (reg_elem rf (2 * ew) vd i)).
  - by rewrite (Hf (reg_elem rf ew vs2 i) _ _ (reg_elem rf (2 * ew) vd i)).
  - by rewrite (Hf _ (reg_elem rf (2 * ew) vs2 i)).
Qed.

Lemma wdriver_vx_run s f x1 vs2 vd em vstart : wide_vs2 s vs2 -> legal (2 * lm) vd -> implements_wide s f ->
  exists v', wdriver_vx s x1 vs2 vd em vstart v = (Ok tt, v') /\
    vd_written v v' vd (2 * ew) (2 * lm) (fun j => arch_value 0 v em vstart
      (f (reg_elem rf ew vs2 j) (reg_elem rf (2 * ew) vs2 j) (x1 mod 2 ^ (8 * ew)) (reg_elem rf (2 * ew) vd j) mod 2 ^ (2 * (8 * ew))) j).
Proof.
  intros L2 Ld Hf. assert (Eb : truncate_from (elem_ty v) x1 = x1 mod 2 ^ (8 * ew)) by (unfold truncate_from; by rewrite elem_ty_bits).
  destruct s as [F sg|F sg|sg]; cbn [wdriver_vx wide_vs2] in *.
  all: unfold exec_widening_integer_vx, exec_widening_integer_wx, exec_widening_integer_vxv; run_operands.
  all: eapply load_words_into_vd with (t := wide_ty v); [done|done|apply wide_width|symmetry; apply wide_ty_size| |].
  1,3,5: intros g ->; unfold impl_vector_op_widening_integer_vx, impl_vector_op_widening_integer_wx, impl_vector_op_widening_integer_vxv; run_entry.
  all: intros i st Hi; split; [|apply wide_range]; cbn beta; run_element; unfold implements_wide in Hf; cbn [wshape_value] in Hf; rewrite Eb.
  - by rewrite (Hf _ (reg_elem rf (2 * ew) vs2 i) _ (reg_elem rf (2 * ew) vd i)).
  - by rewrite (Hf (reg_elem rf ew vs2 i) _ _ (reg_elem rf (2 * ew) vd i)).
  - by rewrite (Hf _ (reg_elem rf (2 * ew) vs2 i)).
Qed.
End Drivers.

(** ** The instructions *)

(** Element [j] is written with a result. *)
Definition active (v : Vector) (em : bool) (vstart j : Z) : Prop :=
  vstart <= j < vl (config v) /\ (em = true -> mask_reg_bit (vector_regfile v) 0 j = true).

Lemma arch_value_active {T} (zero : T) v em vstart x j : active v em vstart j -> arch_value zero v em vstart x j = Some x.
Proof.
  intros [Hj Hm]. unfold arch_value. rewrite (proj2 (Z.ltb_ge _ _)), (proj2 (Z.leb_gt _ _)) by lia.
  destruct em; [rewrite Hm by done|]; done.
Qed.

(** The integer the destination element stands for. *)
Definition wide_elem (f : Z -> Z -> Z -> Z -> Z -> Z) (o : VOperand) (r : list Z) (v : Vector) (rs1 rs2 rd j : Z) : Z :=
  let w := elem_bytes v in
  f (8 * w) (reg_elem (vector_regfile v) w rs2 j) (reg_elem (vector_regfile v) (2 * w) rs2 j)
    (voperand_value o r v (8 * w) rs1 j) (reg_elem (vector_regfile v) (2 * w) rd j).

Definition reading (sg : bool) (w x : Z) : Z := if sg then to_signed w x else x.

Section Instructions.
Context {D X : Type} `{DeviceTrait D} `{Profile} `{HasVector X}.
Implicit Types c : RVCPU D X.

Definition wide_body (o : VOperand) (s : WShape) (vstart rs1 rs2 rd : Z) (vm : bool) : M (RVCPU D X) Exception unit :=
  with_operand o rs1 (fun vs1 => wdriver_vv s vs1 rs2 rd (negb vm) vstart) (fun x1 => wdriver_vx s x1 rs2 rd (negb vm) vstart).

Lemma dispatch_vwide i s : vwide_shape i = Some s ->
  vector_exec_func (D := D) (X := X) i = Some (fun info => vec_op info (wide_body (wide_operand i) s)).
Proof. destruct i; cbn [vwide_shape]; intros Hs; try discriminate Hs; injection Hs as <-; reflexivity. Qed.

Lemma vwide_some i f : isa_vwide i = Some f -> exists s, vwide_shape i = Some s.
Proof. destruct i; cbn; intros Hf; try discriminate Hf; by eexists. Qed.

Lemma wide_vs2_source i s v rs2 : vwide_shape i = Some s ->
  legal (if wide_source i then 2 * group_regs v else group_regs v) rs2 -> wide_vs2 v s rs2.
Proof. destruct i; cbn [vwide_shape]; intros Hs; try discriminate Hs; by injection Hs as <-. Qed.

Lemma wide_body_run o s f rs1 rs2 rd vm c : let v := vec_of c in
  cpu_wf c -> vregs_ok (vector_regfile v) -> widenable v -> reg_ok rs1 ->
  (o = OVs1 -> legal (group_regs v) rs1) -> wide_vs2 v s rs2 -> legal (2 * group_regs v) rd ->
  implements_wide v s (f (8 * elem_bytes v)) ->
  exists v', wide_body o s (vstart_of c) rs1 rs2 rd vm c = (Ok tt, set_vec v' c) /\
    vd_written v v' rd (2 * elem_bytes v) (2 * group_regs v) (fun j =>
      arch_value 0 v (negb vm) (vstart_of c) (wide_elem f o (reg_file c) v rs1 rs2 rd j mod 2 ^ (2 * (8 * elem_bytes v))) j).
Proof.
  intros v Hc Hr Hwd Hrs L1 L2 Ld Himp. unfold wide_elem, voperand_value, wide_body.
  apply with_operand_run with (w := 8 * elem_bytes v); [done|done|apply elem_bits| |].
  - intros ->. rewrite elem_bytes_bits. apply wdriver_vv_run; auto.
  - intros x Ho Hx. destruct (wdriver_vx_run v Hr Hwd s _ x rs2 rd (negb vm) (vstart_of c) L2 Ld Himp) as (v' & Hrun & Hw).
    exists v'. split; [done|]. rewrite Hx in Hw. by destruct o.
Qed.

Lemma wide_operand_uint i r v rs1 j : vregs_ok (vector_regfile v) ->
  uint (8 * elem_bytes v) (voperand_value (wide_operand i) r v (8 * elem_bytes v) rs1 j).
Proof.
  intros Hr. pose proof (elem_bits v). assert (wide_operand i = OVs1 \/ wide_operand i = ORs1) as [-> | ->] by (destruct i; cbn; auto).
  - cbn. rewrite elem_bytes_bits, <- elem_ty_bits. by apply reg_elem_uint.
  - apply wrap_range. lia.
Qed.

(** C16: Widening sums, differences, products and multiply-accumulates: vwadd[u],
    vwsub[u], vwmul[u], vwmulsu and vwmacc[u] in their .vv and .vx forms and
    vwadd[u], vwsub[u] in their .wv and .wx forms (vwmaccsu.vv, vwmaccsu.vx and
    vwmaccus.vx are not covered: there the code gives the two factors each
    other's sign, [vwmaccsu_swaps_signs]).  On a configuration whose double width and double
    register count exist, and with legal register groups, the instruction
    retires and element [j] of the destination, twice as wide as the sources,
    is the defined integer modulo two to the wide width, under the code's
    vstart, mask and tail policies.  For sums, differences and products of two
    narrow elements the reduction does nothing: every active destination
    element, read back at the wide width, is the exact mathematical result, so
    no input overflows. *)
Theorem vector_widening_exact i f rs1 rs2 rd vm func6 c :
  isa_vwide i = Some f -> cpu_wf c -> counter_ok c -> vs_on c ->
  widenable (vec_of c) -> reg_ok rs1 -> (wide_operand i = OVs1 -> legal (group_regs (vec_of c)) rs1) ->
  legal (if wide_source i then 2 * group_regs (vec_of c) else group_regs (vec_of c)) rs2 -> legal (2 * group_regs (vec_of c)) rd ->
  let v := vec_of c in let w := elem_bytes v in
  let x := wide_elem f (wide_operand i) (reg_file c) v rs1 rs2 rd in
  exists exec v', vector_exec_func i = Some exec /\
    exec (IV rs1 rs2 rd vm func6) c = (Ok tt, vec_retired (reg_file c) v' c) /\
    vd_written v v' rd (2 * w) (2 * group_regs v) (fun j => arch_value 0 v (negb vm) (vstart_of c) (x j mod 2 ^ (2 * (8 * w))) j) /\
    forall sg j, exact_reading i = Some sg -> 0 <= j < vlmax w (group_regs v) -> active v (negb vm) (vstart_of c) j ->
      reading sg (2 * (8 * w)) (reg_elem (vector_regfile v') (2 * w) rd j) = x j.
Proof.
  intros Hf Hc Hov Hon Hwd Hrs L1 L2 Ld v w x. pose proof (wf_vregs c Hc) as Hr. destruct (vwide_some i f Hf) as [s Hs].
  assert (implements_wide v s (f (8 * w))) as Himp.
  { intros a A b d. rewrite (wshape_isa i s f) by (done || by apply wide_ty_bits). by rewrite elem_ty_bits. }
  destruct (wide_body_run (wide_operand i) s f rs1 rs2 rd vm c Hc Hr Hwd Hrs L1 (wide_vs2_source i s _ rs2 Hs L2) Ld Himp) as (v' & Hrun & Hw).
  eexists _, v'. split; [by apply dispatch_vwide|]. split_and!.
  - apply vec_op_run; [by apply wf_csr|done..|]. rewrite Hrun. by destruct c.
  - exact Hw.
  - intros sg j Hsg Hj Ha. destruct Hw as (_ & _ & He & _). fold v in He. rewrite He, arch_value_active by (done || by rewrite wide_vlmax).
    cbn [default]. unfold reading. apply (wide_exact i f sg); try done.
    + pose proof (elem_bits v) as Hb. fold w in Hb. lia.
    + unfold w. rewrite <- elem_ty_bits. by apply reg_elem_uint.
    + by apply wide_operand_uint.
Qed.

(** vwmaccsu multiplies an unsigned vs1 by a signed vs2; the vector extension
    defines the product of a signed vs1 and an unsigned vs2. *)
Lemma vwmaccsu_swaps_signs rs1 rs2 rd vm func6 c : let v := vec_of c in
  cpu_wf c -> counter_ok c -> vs_on c -> widenable v -> reg_ok rs1 ->
  legal (group_regs v) rs1 -> legal (group_regs v) rs2 -> legal (2 * group_regs v) rd ->
  exists exec v', vector_exec_func VWMACCSU_VV = Some exec /\
    exec (IV rs1 rs2 rd vm func6) c = (Ok tt, vec_retired (reg_file c) v' c) /\
    vd_written v v' rd (2 * elem_bytes v) (2 * group_regs v) (fun j => arch_value 0 v (negb vm) (vstart_of c)
      (wide_elem (fun w a A b d => d + b * to_signed w a) OVs1 (reg_file c) v rs1 rs2 rd j mod 2 ^ (2 * (8 * elem_bytes v))) j).
Proof.
  intros v Hc Hov Hon Hwd Hrs L1 L2 Ld. pose proof (wf_vregs c Hc) as Hr.
  destruct (wide_body_run OVs1 (WAccumulate signed_unsigned) (fun w a A b d => d + b * to_signed w a) rs1 rs2 rd vm c)
    as (v' & Hrun & Hw); try done.
  { intros a A b d. cbn. unfold ExecWmacc. rewrite wide_ty_bits, !elem_ty_bits, wrap_add_l by done.
    do 2 f_equal. rewrite Z.add_comm. reflexivity. }
  eexists _, v'. split; [exact (dispatch_vwide VWMACCSU_VV _ eq_refl)|]. split; [|done].
  apply vec_op_run; [by apply wf_csr|done..|]. change (wide_body (wide_operand VWMACCSU_VV)) with (wide_body OVs1). rewrite Hrun. by destruct c.
Qed.
End Instructions.

(** ** Concrete instances *)

(** vwmulsu.vx on 32-bit elements in two registers. *)
Definition demo_vwmul : RVCPU Z Vector := demo_vec_hart (demo_vector E32 M2 false true 7) [].

Lemma vector_widening_exact_witness :
  let D := demo_device in let P := dev in
  let f := fun w a A b d => to_signed w a * b in
  let v := vec_of demo_vwmul in let w := elem_bytes v in
  let x := wide_elem f ORs1 (reg_file demo_vwmul) v 2 30 8 in
  exists exec v', vector_exec_func VWMULSU_VX = Some exec /\
    exec (IV 2 30 8 true 0) demo_vwmul = (Ok tt, vec_retired (reg_file demo_vwmul) v' demo_vwmul) /\
    vd_written v v' 8 (2 * w) (2 * group_regs v) (fun j => arch_value 0 v false (vstart_of demo_vwmul) (x j mod 2 ^ (2 * (8 * w))) j) /\
    forall sg j, Some true = Some sg -> 0 <= j < vlmax w (group_regs v) -> active v false (vstart_of demo_vwmul) j ->
      reading sg (2 * (8 * w)) (reg_elem (vector_regfile v') (2 * w) 8 j) = x j.
Proof.
  intros D P f. apply (vector_widening_exact VWMULSU_VX f 2 30 8 true 0 demo_vwmul).
  - reflexivity.
  - apply demo_vec_wf; [by apply demo_vec_ok|constructor].
  - intros _. vm_compute. reflexivity.
  - vm_compute. discriminate.
  - vm_compute. split; discriminate.
  - vm_compute. split; [discriminate|reflexivity].
  - discriminate.
  - vm_compute; (split; [reflexivity|]; split; [split; [discriminate|reflexivity]|reflexivity]).
  - vm_compute; (split; [reflexivity|]; split; [split; [discriminate|reflexivity]|reflexivity]).
Defined.
