(* ===== verification/VectorFixSpec.v ===== *)
(** * Fixed-point vector instructions

    [rounded] is the quotient by a power of two under the four rounding modes of
    the vector extension, as arithmetic on integers; [isa_vfix] and
    [isa_vclip] give the results of the fixed-point instructions with it. *)

From S2P Require Import Prelude Utils TrapTypes Alu Ram CsrTable Csr PageTable Mmio Vm Instr Cpu Trap Exec Invariant ExecSpec Vector VectorInt VectorArith VectorFix VectorExec VectorMap VectorSpec VectorHart VectorAluSpec.

(** ** Rounding *)

(** [x] divided by [2 ^ s]: to the nearest, ties up; to the nearest, ties to
    even; down; or to odd when inexact. *)
Definition rounded (m : FixedPointRoundingMode) (x s : Z) : Z :=
  let q := x / 2 ^ s in
  let r := x mod 2 ^ s in
  match m with
  | RoundToNearestUp => if 2 ^ s <=? 2 * r then q + 1 else q
  | RoundToNearestEven => if 2 ^ s <? 2 * r then q + 1 else if (2 ^ s =? 2 * r) && Z.odd q then q + 1 else q
  | RoundDown => q
  | RoundToOdd => if (r =? 0) || Z.odd q then q else q + 1
  end.

Lemma land_low b n : 0 <= n < 128 -> Z.land b (shl 128 1 n - 1) = b mod 2 ^ n.
Proof.
  intros Hn. rewrite shl_1 by lia. replace (2 ^ n - 1) with (Z.ones n) by (rewrite Z.ones_equiv; lia). apply Z.land_ones. lia.
Qed.

Lemma bit_at b n : 0 <= n -> negb (Z.land (Z.shiftr b n) 1 =? 0) = Z.testbit b n.
Proof.
  intros Hn. change 1 with (Z.ones 1). rewrite Z.land_ones by lia. change (2 ^ 1) with 2. rewrite Zmod_odd.
  rewrite <- (Z.add_0_l n) at 2. rewrite <- Z.shiftr_spec by lia. rewrite Z.bit0_odd. by destruct (Z.odd _).
Qed.

(** The bit below the cut tells the upper half of the remainder from the lower. *)
Lemma half_bit b s : 0 < s -> Z.testbit b (s - 1) = (2 ^ s <=? 2 * (b mod 2 ^ s)).
Proof.
  intros Hs. assert (2 ^ s = 2 * 2 ^ (s - 1)) as E by (rewrite <- Z.pow_succ_r by lia; f_equal; lia).
  assert (0 < 2 ^ (s - 1)) by (apply Z.pow_pos_nonneg; lia).
  rewrite <- (Z.mod_pow2_bits_low b s) by lia. pose proof (Z.mod_pos_bound b (2 ^ s) ltac:(lia)) as Hr. set (r := b mod 2 ^ s) in *.
  rewrite Z.testbit_odd, Z.shiftr_div_pow2 by lia. destruct (Z.leb_spec (2 ^ s) (2 * r)).
  - replace (r / 2 ^ (s - 1)) with 1 by (apply (Z.div_unique _ _ _ (r - 2 ^ (s - 1))); lia). done.
  - rewrite Z.div_small by lia. done.
Qed.

(** The bits under the half bit. *)
Lemma below_half b s : 0 < s -> 2 ^ s <= 2 * (b mod 2 ^ s) ->
  negb (b mod 2 ^ (s - 1) =? 0) = (2 ^ s <? 2 * (b mod 2 ^ s)).
Proof.
  intros Hs Hh. assert (2 ^ s = 2 * 2 ^ (s - 1)) as E by (rewrite <- Z.pow_succ_r by lia; f_equal; lia).
  assert (0 < 2 ^ (s - 1)) by (apply Z.pow_pos_nonneg; lia).
  pose proof (Z.mod_pos_bound b (2 ^ s) ltac:(lia)) as Hr.
  assert (b mod 2 ^ (s - 1) = b mod 2 ^ s - 2 ^ (s - 1)) as ->.
  { symmetry. apply (Z.mod_unique _ _ (2 * (b / 2 ^ s) + 1)); [lia|]. pose proof (Z.div_mod b (2 ^ s) ltac:(lia)). nia. }
  destruct (Z.eqb_spec (b mod 2 ^ s - 2 ^ (s - 1)) 0), (Z.ltb_spec (2 ^ s) (2 * (b mod 2 ^ s))); try done; lia.
Qed.

Lemma odd_bit b s : 0 <= s -> Z.testbit b s = Z.odd (b / 2 ^ s).
Proof. intros. by rewrite Z.testbit_odd, Z.shiftr_div_pow2. Qed.

(** The increment of the code rounds. *)
Lemma round_increment_spec b s m : 0 < s < 128 -> b / 2 ^ s + round_increment b s m = rounded m b s.
Proof.
  intros Hs. unfold round_increment, rounded. rewrite (proj2 (Z.eqb_neq s 0)) by lia.
  rewrite !bit_at, !land_low, half_bit, odd_bit by lia. set (r := b mod 2 ^ s). set (q := b / 2 ^ s).
  destruct m.
  - destruct (Z.leb_spec (2 ^ s) (2 * r)); cbn; lia.
  - assert ((if s =? 1 then false else negb (b mod 2 ^ (s - 1) =? 0)) = negb (b mod 2 ^ (s - 1) =? 0)) as ->.
    { destruct (Z.eqb_spec s 1) as [->|]; [|done]. change (2 ^ (1 - 1)) with 1. by rewrite Z.mod_1_r. }
    destruct (Z.leb_spec (2 ^ s) (2 * r)) as [Hh|Hh]; cbn [andb].
    + rewrite below_half by (done || lia). fold r. destruct (Z.ltb_spec (2 ^ s) (2 * r)); cbn; [lia|].
      rewrite (proj2 (Z.eqb_eq (2 ^ s) (2 * r))) by lia. destruct (Z.odd q); cbn; lia.
    + rewrite (proj2 (Z.ltb_ge _ _)), (proj2 (Z.eqb_neq (2 ^ s) (2 * r))) by lia. cbn. lia.
  - cbn. lia.
  - destruct (Z.odd q), (r =? 0); cbn; lia.
Qed.

Lemma rounded_0 m x : rounded m x 0 = x.
Proof. unfold rounded. rewrite Z.pow_0_r, Z.div_1_r, Z.mod_1_r. by destruct m. Qed.

Lemma round_unsigned_spec m x s : 0 <= s < 128 -> round_unsigned x s m = rounded m x s.
Proof.
  intros Hs. unfold round_unsigned. destruct (Z.eqb_spec s 0) as [->|]; [by rewrite rounded_0|].
  rewrite Z.shiftr_div_pow2 by lia. apply round_increment_spec. lia.
Qed.

(** The bits of the increment are those of the two's complement pattern. *)
Lemma round_increment_wrap x s m : 0 < s < 127 -> round_increment (wrap 128 x) s m = round_increment x s m.
Proof.
  intros Hs. unfold round_increment. rewrite (proj2 (Z.eqb_neq s 0)) by lia.
  rewrite !bit_at, !land_low, !wrap_testbit by lia. unfold wrap.
  assert (forall n, 0 <= n < 128 -> (x mod 2 ^ 128) mod 2 ^ n = x mod 2 ^ n) as Hm.
  { intros n Hn. change (wrap n (wrap 128 x) = wrap n x). apply wrap_wrap_le. lia. }
  rewrite !Hm by lia. rewrite (proj2 (Z.ltb_lt s 128)), (proj2 (Z.ltb_lt (s - 1) 128)) by lia. done.
Qed.

Lemma round_signed_spec m x s : 0 <= s < 127 -> round_signed x s m = rounded m x s.
Proof.
  intros Hs. unfold round_signed. destruct (Z.eqb_spec s 0) as [->|]; [by rewrite rounded_0|].
  rewrite Z.shiftr_div_pow2, round_increment_wrap by lia. apply round_increment_spec. lia.
Qed.

(** ** Saturation *)

(** The nearest integer that [w] bits can hold, signed or unsigned. *)
Definition clip (sg : bool) (w x : Z) : Z :=
  if sg then Z.max (- 2 ^ (w - 1)) (Z.min (2 ^ (w - 1) - 1) x) else Z.max 0 (Z.min (2 ^ w - 1) x).

Lemma saturate_unsigned_spec t x : 0 <= x -> saturate_unsigned t x = (clip false (BITS t) x mod 2 ^ BITS t, negb (clip false (BITS t) x =? x)).
Proof.
  intros Hx. pose proof (BITS_le t). unfold saturate_unsigned, unsigned_max, clip, truncate_from. rewrite shl_1 by lia.
  assert (0 < 2 ^ BITS t) by (apply Z.pow_pos_nonneg; lia). rewrite MAX_spec.
  destruct (Z.ltb_spec (2 ^ BITS t - 1) x).
  - rewrite Z.min_l, Z.max_r by lia. rewrite Z.mod_small by lia. f_equal. symmetry. apply negb_true_iff, Z.eqb_neq. lia.
  - rewrite Z.min_r, Z.max_r by lia. by rewrite Z.eqb_refl.
Qed.

Lemma saturate_signed_spec t x : saturate_signed t x = (clip true (BITS t) x mod 2 ^ BITS t, negb (clip true (BITS t) x =? x)).
Proof.
  pose proof (BITS_le t). unfold saturate_signed, signed_max, signed_min, clip. rewrite Z.shiftl_1_l.
  assert (0 < 2 ^ (BITS t - 1)) by (apply Z.pow_pos_nonneg; lia). rewrite !from_signed_i128_spec.
  destruct (Z.ltb_spec (2 ^ (BITS t - 1) - 1) x).
  - rewrite Z.min_l, Z.max_r by lia. f_equal. symmetry. apply negb_true_iff, Z.eqb_neq. lia.
  - rewrite Z.min_r by lia. destruct (Z.ltb_spec x (- 2 ^ (BITS t - 1))).
    + rewrite Z.max_l by lia. f_equal. symmetry. apply negb_true_iff, Z.eqb_neq. lia.
    + rewrite Z.max_r by lia. by rewrite Z.eqb_refl.
Qed.

(** ** Reference

    For elements of [w] bits under rounding mode [m]: whether the result
    saturates, as a signed or unsigned number, and the integer before that. *)
Definition isa_vfix (i : VInstr) : option (option bool * (Z -> FixedPointRoundingMode -> Z -> Z -> Z)) :=
  match i with
  | VSADDU_VV | VSADDU_VX | VSADDU_VI => Some (Some false, fun w m a b => a + b)
  | VSADD_VV | VSADD_VX | VSADD_VI => Some (Some true, fun w m a b => to_signed w a + to_signed w b)
  | VSSUBU_VV | VSSUBU_VX => Some (Some false, fun w m a b => a - b)
  | VSSUB_VV | VSSUB_VX => Some (Some true, fun w m a b => to_signed w a - to_signed w b)
  | VAADDU_VV | VAADDU_VX => Some (None, fun w m a b => rounded m (a + b) 1)
  | VAADD_VV | VAADD_VX => Some (None, fun w m a b => rounded m (to_signed w a + to_signed w b) 1)
  | VASUBU_VV | VASUBU_VX => Some (None, fun w m a b => rounded m (a - b) 1)
  | VASUB_VV | VASUB_VX => Some (None, fun w m a b => rounded m (to_signed w a - to_signed w b) 1)
  | VSMUL_VV | VSMUL_VX => Some (Some true, fun w m a b => rounded m (to_signed w a * to_signed w b) (w - 1))
  | VSSRL_VV | VSSRL_VX | VSSRL_VI => Some (None, fun w m a b => rounded m a (b mod w))
  | VSSRA_VV | VSSRA_VX | VSSRA_VI => Some (None, fun w m a b => rounded m (to_signed w a) (b mod w))
  | _ => None
  end.

(** The word that is stored, and whether it saturated. *)
Definition fixed_result (k : option bool) (w x : Z) : Z * bool :=
  match k with
  | Some sg => (clip sg w x mod 2 ^ w, negb (clip sg w x =? x))
  | None => (x mod 2 ^ w, false)
  end.

Definition fix_operand (i : VInstr) : VOperand :=
  match i with
  | VSADDU_VX | VSADD_VX | VSSUBU_VX | VSSUB_VX | VAADDU_VX | VAADD_VX | VASUBU_VX | VASUB_VX | VSMUL_VX | VSSRL_VX | VSSRA_VX => ORs1
  | VSADDU_VI | VSADD_VI => OSimm
  | VSSRL_VI | VSSRA_VI => OUimm
  | _ => OVs1
  end.

Definition vfix_exec (i : VInstr) : option FixedPointBinaryExec :=
  match i with
  | VSADDU_VV | VSADDU_VX | VSADDU_VI => Some ExecSaturatingAddUnsigned
  | VSADD_VV | VSADD_VX | VSADD_VI => Some ExecSaturatingAddSigned
  | VSSUBU_VV | VSSUBU_VX => Some ExecSaturatingSubUnsigned
  | VSSUB_VV | VSSUB_VX => Some ExecSaturatingSubSigned
  | VAADDU_VV | VAADDU_VX => Some ExecAveragingAddUnsigned
  | VAADD_VV | VAADD_VX => Some ExecAveragingAddSigned
  | VASUBU_VV | VASUBU_VX => Some ExecAveragingSubUnsigned
  | VASUB_VV | VASUB_VX => Some ExecAveragingSubSigned
  | VSMUL_VV | VSMUL_VX => Some ExecSaturatingFractionalMul
  | VSSRL_VV | VSSRL_VX | VSSRL_VI => Some ExecScalingShiftRightLogical
  | VSSRA_VV | VSSRA_VX | VSSRA_VI => Some ExecScalingShiftRightArithmetic
  | _ => None
  end.

Lemma saturating_sub_spec t a b m : uint (BITS t) a -> uint (BITS t) b ->
  ExecSaturatingSubUnsigned t a b m = fixed_result (Some false) (BITS t) (a - b).
Proof.
  intros Ha Hb. pose proof (BITS_le t). unfold ExecSaturatingSubUnsigned, fixed_result, clip, truncate_from, uint in *.
  rewrite Z.min_r by lia. destruct (Z.ltb_spec a b).
  - rewrite Z.max_l by lia. rewrite Zmod_0_l. f_equal. symmetry. apply negb_true_iff, Z.eqb_neq. lia.
  - rewrite Z.max_r by lia. by rewrite Z.eqb_refl.
Qed.

(** The element operations of fix_point_impl.rs compute the reference. *)
Lemma vfix_exec_isa i F k f t a b m : vfix_exec i = Some F -> isa_vfix i = Some (k, f) ->
  uint (BITS t) a -> uint (BITS t) b -> F t a b m = fixed_result k (BITS t) (f (BITS t) m a b).
Proof.
  intros HF Hf Ha Hb. pose proof (BITS_le t) as Ht. assert (0 <= b mod BITS t < BITS t) by (apply Z.mod_pos_bound; lia).
  destruct i; cbn [vfix_exec isa_vfix] in HF, Hf; try discriminate HF; injection HF as <-; injection Hf as <- <-;
    try (by apply saturating_sub_spec); cbn [fixed_result];
    unfold ExecSaturatingAddUnsigned, ExecSaturatingAddSigned, ExecSaturatingSubSigned, ExecAveragingAddUnsigned, ExecAveragingAddSigned,
      ExecAveragingSubUnsigned, ExecAveragingSubSigned, ExecSaturatingFractionalMul, ExecScalingShiftRightLogical, ExecScalingShiftRightArithmetic;
    rewrite ?as_signed_i128_spec, ?shift_amount_spec by done; cbv zeta;
    rewrite ?round_signed_spec, ?round_unsigned_spec, ?from_signed_i128_spec by lia; try reflexivity;
    try (apply saturate_unsigned_spec; unfold uint in *; lia); try apply saturate_signed_spec.
Qed.

Lemma vfix_some i p : isa_vfix i = Some p -> exists F, vfix_exec i = Some F.
Proof. destruct i; cbn; intros Hf; try discriminate Hf; by eexists. Qed.

Lemma fixed_result_range k w x : 0 <= w -> uint w (fst (fixed_result k w x)).
Proof. intros. destruct k; cbn; by apply wrap_range. Qed.

(** ** Running them *)
Section Drivers.
Context `{Profile}.

(** The fixed-point loop is the element loop; the flag it returns is set when
    any element it computes saturates. *)
Lemma fixed_loop_run t k f x i l sat s s' :
  (forall j s, i <= j < i + Z.of_nat (length l) -> f j s = (Ok (x j), s)) ->
  for_enumerate (E := Exception) i l (fun index element => v <- ret (fst (x index)) ;; element_load t k element v index) s = (Ok tt, s') ->
  fixed_loop t k f i l sat s = (Ok (sat || existsb (fun j => snd (x j)) (seqZ i (Z.of_nat (length l)))), s').
Proof.
  revert i sat s. induction l as [|e l IH]; intros i sat s Hf Hl.
  - cbn in Hl. injection Hl as ->. cbn. by rewrite orb_false_r.
  - cbn [for_enumerate fixed_loop] in *. cbn [length] in *. erewrite bind_Ok by (apply Hf; lia).
    inv_bind Hl. destruct a. change (element_load (E := Exception) t k e (fst (x i)) i s = (Ok tt, s0)) in Hm. erewrite bind_Ok by exact Hm.
    rewrite (IH _ _ _) by (exact Hk || (intros j s2 Hj; apply Hf; lia)).
    rewrite (seqZ_cons i) by lia. cbn [existsb]. rewrite orb_assoc.
    replace (Z.pred (Z.of_nat (S (length l)))) with (Z.of_nat (length l)) by lia. by replace (Z.succ i) with (i + 1) by lia.
Qed.

Context (v : Vector) (Hr : vregs_ok (vector_regfile v)).
Abbreviation ew := (elem_bytes v).
Abbreviation lm := (group_regs v).
Abbreviation rf := (vector_regfile v).

Lemma iter_length vd : legal lm vd -> Z.of_nat (length (iter (group1 rf vd ew lm))) = vlmax ew lm.
Proof.
  intros Hl. destruct (legal_bound lm vd Hl) as (Hm & _). rewrite iter_spec by (by apply group1_shape; [apply w_ok|]).
  rewrite length_fmap, length_seqZ, group1_total. destruct (vlmax_VLEN v). lia.
Qed.

(** A fixed-point operation writes the results and reports saturation. *)
Lemma fixed_into_vd op f x vd em vstart : legal lm vd ->
  (forall g, g = group1 rf vd ew lm -> op g = fixed_loop (elem_ty v) (cfg_mask v em vstart) f 0 (iter g) false g) ->
  (forall i s, 0 <= i < vlmax ew lm -> f i s = (Ok (x i), s) /\ uint (8 * ew) (fst (x i))) ->
  exists v', into_vd vd ew lm op v = (Ok (existsb (fun j => snd (x j)) (seqZ 0 (vlmax ew lm))), v') /\
    vd_written v v' vd ew lm (fun j => arch_value 0 v em vstart (fst (x j)) j).
Proof.
  intros Hd Hop Hf.
  destruct (load_group_vd v Hr (load_elements (elem_ty v) (cfg_mask v em vstart) (fun j => ret (fst (x j)))) (fun j => ret (fst (x j)))
    (fun j => fst (x j)) vd em vstart Hd) as (v' & Hrun & Hw); [done|intros i s Hi; split; [done|by apply (Hf i (group1 rf vd ew lm))]|].
  exists v'. split; [|done]. eapply into_vd_transfer; [done|done|exact Hrun|].
  intros g' Hl. rewrite (Hop _ eq_refl). rewrite <- (iter_length vd Hd).
  rewrite (fixed_loop_run _ _ f x 0 _ false _ g'); [done| |exact Hl].
  intros j s Hj. rewrite Z.add_0_l, (iter_length vd Hd) in Hj. by apply Hf.
Qed.

Definition after_fixed (round : FixedPointRoundingMode) (sat : bool) (v1 : Vector) : Vector :=
  accrue_saturation sat (set_rounding_mode round v1).

Lemma fixed_vv_run F g vs1 vs2 vd em round vstart : legal lm vs1 -> legal lm vs2 -> legal lm vd ->
  (forall a b, uint (8 * ew) a -> uint (8 * ew) b -> F (elem_ty v) a b round = g a b /\ uint (8 * ew) (fst (g a b))) ->
  let x j := g (reg_elem rf ew vs2 j) (reg_elem rf ew vs1 j) in
  let sat := existsb (fun j => snd (x j)) (seqZ 0 (vlmax ew lm)) in
  exists v1, exec_fixed_point_vv (impl_fixed_point_vv_binary F) vs1 vs2 vd em round vstart v = (Ok sat, after_fixed round sat v1) /\
    vd_written v v1 vd ew lm (fun j => arch_value 0 v em vstart (fst (x j)) j).
Proof.
  intros L1 L2 Ld Hg x sat. unfold exec_fixed_point_vv. run_operands.
  assert (exists v1, into_vd vd ew lm (impl_fixed_point_vv_binary F (group1 rf vs1 ew lm) (group1 rf vs2 ew lm) (cfg_mask v em vstart) round) v = (Ok sat, v1) /\
    vd_written v v1 vd ew lm (fun j => arch_value 0 v em vstart (fst (x j)) j)) as (v1 & Hrun & Hw); [eapply fixed_into_vd; [done|..]|].
  - intros g0 ->. unfold impl_fixed_point_vv_binary. run_entry.
  - intros i s Hi. cbn beta. run_element. destruct (Hg (reg_elem rf ew vs2 i) (reg_elem rf ew vs1 i)) as [-> Hu];
      [rewrite <- elem_ty_bits; by apply reg_elem_uint..|done].
  - exists v1. split; [|done]. by erewrite bind_Ok by exact Hrun.
Qed.

Lemma fixed_vx_run F g x1 vs2 vd em round vstart : legal lm vs2 -> legal lm vd ->
  (forall a b, uint (8 * ew) a -> uint (8 * ew) b -> F (elem_ty v) a b round = g a b /\ uint (8 * ew) (fst (g a b))) ->
  let x j := g (reg_elem rf ew vs2 j) (x1 mod 2 ^ (8 * ew)) in
  let sat := existsb (fun j => snd (x j)) (seqZ 0 (vlmax ew lm)) in
  exists v1, exec_fixed_point_vx (impl_fixed_point_vx_binary F) x1 vs2 vd em round vstart v = (Ok sat, after_fixed round sat v1) /\
    vd_written v v1 vd ew lm (fun j => arch_value 0 v em vstart (fst (x j)) j).
Proof.
  intros L2 Ld Hg x sat. unfold exec_fixed_point_vx. run_operands.
  assert (exists v1, into_vd vd ew lm (impl_fixed_point_vx_binary F x1 (group1 rf vs2 ew lm) (cfg_mask v em vstart) round) v = (Ok sat, v1) /\
    vd_written v v1 vd ew lm (fun j => arch_value 0 v em vstart (fst (x j)) j)) as (v1 & Hrun & Hw); [eapply fixed_into_vd; [done|..]|].
  - intros g0 ->. unfold impl_fixed_point_vx_binary. run_entry.
  - intros i s Hi. cbn beta. run_element. unfold x. replace (truncate_from (elem_ty v) x1) with (x1 mod 2 ^ (8 * ew)) by (rewrite <- elem_ty_bits; done).
    pose proof (elem_bits v). destruct (Hg (reg_elem rf ew vs2 i) (x1 mod 2 ^ (8 * ew))) as [-> Hu]; [|apply wrap_range; lia|done].
    rewrite <- elem_ty_bits. by apply reg_elem_uint.
  - exists v1. split; [|done]. by erewrite bind_Ok by exact Hrun.
Qed.
End Drivers.

(** ** The instructions *)
Section Instructions.
Context {D X : Type} `{DeviceTrait D} `{Profile} `{HasVector X}.
Implicit Types c : RVCPU D X.

(** vcsr.vxrm, and vcsr.vxsat after an instruction. *)
Definition vxrm c : FixedPointRoundingMode :=
  match fget 1 2 (val (csr c) Vcsr) with 0 => RoundToNearestUp | 1 => RoundToNearestEven | 2 => RoundDown | _ => RoundToOdd end.
Definition accrue_vxsat (sat : bool) (s : CsrRegFile) : CsrRegFile := if sat then upd Vcsr (fset 0 1 (val s Vcsr) 1) s else s.

Lemma cpu_rounding_mode_run c : csr_wf (csr c) -> cpu_rounding_mode c = (Ok (vxrm c), c).
Proof.
  intros Hwf. unfold cpu_rounding_mode. erewrite bind_Ok.
  2:{ apply get_csr_field with (a := Vcsr) (low := 1) (len := 2); try done. }
  unfold vxrm. pose proof (fget_range 1 2 (val (csr c) Vcsr) ltac:(lia)) as Hm. unfold uint in Hm. change (2 ^ 2) with 4 in Hm.
  set (x := fget 1 2 (val (csr c) Vcsr)) in *. assert (x = 0 \/ x = 1 \/ x = 2 \/ x = 3) as [-> | [-> | [-> | ->]]] by lia; done.
Qed.

Lemma finish_fixed_run sat c : csr_wf (csr c) -> finish_fixed_point_op sat c = (Ok tt, set_csr (accrue_vxsat sat (csr c)) c).
Proof.
  intros Hwf. unfold finish_fixed_point_op, accrue_vxsat. destruct sat; [|by rewrite set_csr_id].
  destruct (known_vec Vcsr eq_refl) as [Hk Hi]. rewrite <- (set_csr_id c) at 1. apply on_csr_run.
  rewrite set_field_directly_run; [|done|done|vm_compute; split_and!; (discriminate || reflexivity)|done].
  change (fl_csr Vcsr_vxsat) with Vcsr. by rewrite Hi.
Qed.

Lemma accrue_wf sat s : csr_wf s -> csr_wf (accrue_vxsat sat s).
Proof.
  intros Hwf. destruct sat; [|done]. apply upd_wf; [done|]. apply fset_range; try lia; [split; lia|by apply val_u64].
Qed.

Lemma accrue_minstret sat s : val (accrue_vxsat sat s) Minstret = val s Minstret.
Proof. destruct sat; [|done]. by apply val_upd_ne. Qed.

(** Where the operands come from, for the functions that return a flag. *)
Definition fix_body (o : VOperand) (F : FixedPointBinaryExec) (vstart rs1 rs2 rd : Z) (vm : bool) : M (RVCPU D X) Exception unit :=
  x <- (match o with ORs1 => read_x rs1 | OSimm => ret (simm5 rs1) | _ => ret rs1 end) ;;
  round <- cpu_rounding_mode ;;
  saturated <- on_vector (match o with
                          | OVs1 => exec_fixed_point_vv (impl_fixed_point_vv_binary F) rs1 rs2 rd (negb vm) round vstart
                          | _ => exec_fixed_point_vx (impl_fixed_point_vx_binary F) x rs2 rd (negb vm) round vstart
                          end) ;;
  finish_fixed_point_op saturated.

Lemma dispatch_vfix i F : vfix_exec i = Some F -> exists exec, vector_exec_func (D := D) (X := X) i = Some exec /\
  forall info c, exec info c = vec_op info (fix_body (fix_operand i) F) c.
Proof. destruct i; cbn [vfix_exec]; intros Hs; try discriminate Hs; injection Hs as <-; (eexists; split; [reflexivity|reflexivity]). Qed.

(** Result and saturation of element [j]. *)
Definition fix_elem (k : option bool) (f : Z -> FixedPointRoundingMode -> Z -> Z -> Z) (o : VOperand) c (rs1 rs2 j : Z) : Z * bool :=
  let v := vec_of c in let w := elem_bytes v in
  fixed_result k (8 * w) (f (8 * w) (vxrm c) (reg_elem (vector_regfile v) w rs2 j) (voperand_value o (reg_file c) v (8 * w) rs1 j)).
Definition any_saturated k f o c rs1 rs2 : bool :=
  existsb (fun j => snd (fix_elem k f o c rs1 rs2 j)) (seqZ 0 (vlmax (elem_bytes (vec_of c)) (group_regs (vec_of c)))).

Lemma fix_body_run i F k f rs1 rs2 rd vm c : let v := vec_of c in let o := fix_operand i in
  let sat := any_saturated k f o c rs1 rs2 in
  isa_vfix i = Some (k, f) -> vfix_exec i = Some F -> cpu_wf c -> vregs_ok (vector_regfile v) -> reg_ok rs1 ->
  groups_legal o v rs1 rs2 rd ->
  exists v1, fix_body o F (vstart_of c) rs1 rs2 rd vm c =
      (Ok tt, set_csr (accrue_vxsat sat (csr c)) (set_vec (after_fixed (vxrm c) sat v1) c)) /\
    vd_written v v1 rd (elem_bytes v) (group_regs v)
      (fun j => arch_value 0 v (negb vm) (vstart_of c) (fst (fix_elem k f o c rs1 rs2 j)) j).
Proof.
  intros v o sat Hf HF Hc Hr Hrs (L1 & L2 & Ld). pose proof (wf_csr c Hc) as Hcsr. pose proof (elem_bits v) as Hbits.
  assert (Hg : forall a b, uint (8 * elem_bytes v) a -> uint (8 * elem_bytes v) b ->
    F (elem_ty v) a b (vxrm c) = fixed_result k (8 * elem_bytes v) (f (8 * elem_bytes v) (vxrm c) a b) /\
    uint (8 * elem_bytes v) (fst (fixed_result k (8 * elem_bytes v) (f (8 * elem_bytes v) (vxrm c) a b)))).
  { intros a b Ha Hb. rewrite <- elem_ty_bits in *. split; [by apply (vfix_exec_isa i)|apply fixed_result_range; lia]. }
  assert (Hend : forall m v1, m v = (Ok sat, v1) -> (saturated <- on_vector m ;; finish_fixed_point_op saturated) c =
    (Ok tt, set_csr (accrue_vxsat sat (csr c)) (set_vec v1 c))).
  { intros m v1 Hm. erewrite bind_Ok by (by apply on_vector_run). by rewrite finish_fixed_run. }
  unfold sat, any_saturated, fix_elem, fix_body, voperand_value, scalar_value in *. fold v o in Hend |- *.
  destruct o eqn:Eo; rewrite ?elem_bytes_bits in *.
  - destruct (fixed_vv_run v Hr F _ rs1 rs2 rd (negb vm) (vxrm c) (vstart_of c) (L1 eq_refl) L2 Ld Hg) as (v1 & Hrun & Hw).
    exists v1. split; [|done]. erewrite bind_Ok by reflexivity. erewrite bind_Ok by (by apply cpu_rounding_mode_run). by apply Hend.
  - destruct (fixed_vx_run v Hr F _ (reg_file c !!! Z.to_nat rs1) rs2 rd (negb vm) (vxrm c) (vstart_of c) L2 Ld Hg) as (v1 & Hrun & Hw).
    exists v1. split; [|done]. erewrite bind_Ok by (by apply read_x_run). erewrite bind_Ok by (by apply cpu_rounding_mode_run). by apply Hend.
  - destruct (fixed_vx_run v Hr F _ (simm5 rs1) rs2 rd (negb vm) (vxrm c) (vstart_of c) L2 Ld Hg) as (v1 & Hrun & Hw).
    rewrite simm5_spec in Hrun, Hw by done.
    exists v1. split; [|done]. erewrite bind_Ok by reflexivity. erewrite bind_Ok by (by apply cpu_rounding_mode_run). by apply Hend.
  - destruct (fixed_vx_run v Hr F _ rs1 rs2 rd (negb vm) (vxrm c) (vstart_of c) L2 Ld Hg) as (v1 & Hrun & Hw).
    assert (rs1 mod 2 ^ (8 * elem_bytes v) = rs1) as Hu.
    { unfold reg_ok in Hrs. apply Z.mod_small. split; [lia|]. apply Z.lt_le_trans with (2 ^ 8); [lia|]. apply Z.pow_le_mono_r; lia. }
    rewrite Hu in Hrun, Hw.
    exists v1. split; [|done]. erewrite bind_Ok by reflexivity. erewrite bind_Ok by (by apply cpu_rounding_mode_run). by apply Hend.
Qed.

(** C17: Fixed-point vector instructions (saturating and averaging add and
    subtract, fractional multiply, scaling shifts), in all their forms and under
    all four rounding modes: the instruction retires, each element becomes the
    integer the vector extension defines, rounded as vcsr.vxrm says and clipped
    to the element's range where the instruction saturates, under the vstart,
    mask and tail policies, and vcsr.vxsat is set when an element of the group
    saturated and kept otherwise. *)
Theorem fixed_point_correct i k f rs1 rs2 rd vm func6 c :
  isa_vfix i = Some (k, f) -> cpu_wf c -> counter_ok c -> vs_on c ->
  reg_ok rs1 -> groups_legal (fix_operand i) (vec_of c) rs1 rs2 rd ->
  let v := vec_of c in let sat := any_saturated k f (fix_operand i) c rs1 rs2 in
  exists exec v1, vector_exec_func i = Some exec /\
    exec (IV rs1 rs2 rd vm func6) c =
      (Ok tt, vec_retired (reg_file c) (after_fixed (vxrm c) sat v1) (set_csr (accrue_vxsat sat (csr c)) c)) /\
    vd_written v v1 rd (elem_bytes v) (group_regs v) (fun j =>
      arch_value 0 v (negb vm) (vstart_of c) (fst (fix_elem k f (fix_operand i) c rs1 rs2 j)) j).
Proof.
  intros Hf Hc Hov Hon Hrs Hl v sat. pose proof (wf_vregs c Hc) as Hr. destruct (vfix_some i _ Hf) as [F HF]. destruct (dispatch_vfix i F HF) as (exec & Hx & Hexec).
  destruct (fix_body_run i F k f rs1 rs2 rd vm c Hf HF Hc Hr Hrs Hl) as (v1 & Hrun & Hw).
  exists exec, v1. split; [done|]. split; [|done]. rewrite Hexec. pose proof (wf_csr c Hc) as Hcsr.
  etransitivity; [apply normal_vector_ends; [done|done|exact Hrun|by apply accrue_wf|]|done].
  unfold counter_ok. cbn [csr set_csr]. by rewrite accrue_minstret.
Qed.
End Instructions.

(** ** Concrete instances *)

(** vsmul.vv under round-to-nearest-even on 8-bit elements. *)
Definition demo_vsmul : RVCPU Z Vector := demo_vec_hart (demo_vector E8 Mf2 true true 8) [(Vcsr, 2)].

Lemma fixed_point_correct_witness :
  let D := demo_device in let P := dev in
  let f := fun w m a b => rounded m (to_signed w a * to_signed w b) (w - 1) in
  let v := vec_of demo_vsmul in let sat := any_saturated (Some true) f OVs1 demo_vsmul 8 9 in
  exists exec v1, vector_exec_func VSMUL_VV = Some exec /\
    exec (IV 8 9 10 true 0) demo_vsmul = (Ok tt,
      vec_retired (reg_file demo_vsmul) (after_fixed (vxrm demo_vsmul) sat v1) (set_csr (accrue_vxsat sat (csr demo_vsmul)) demo_vsmul)) /\
    vd_written v v1 10 (elem_bytes v) (group_regs v) (fun j =>
      arch_value 0 v false (vstart_of demo_vsmul) (fst (fix_elem (Some true) f OVs1 demo_vsmul 8 9 j)) j).
Proof.
  intros D P f. apply (fixed_point_correct VSMUL_VV (Some true) f 8 9 10 true 0 demo_vsmul).
  - reflexivity.
  - apply demo_vec_wf; [by apply demo_vec_ok|]. repeat constructor; cbn; try solve_u64; discriminate.
  - intros _. vm_compute. reflexivity.
  - vm_compute. discriminate.
  - vm_compute. split; [discriminate|reflexivity].
  - split; [intros _|split]; vm_compute; (split; [reflexivity|]; split; [split; [discriminate|reflexivity]|reflexivity]).
Defined.

(** The flag also accrues from elements that are not written: vsaddu.vx with a
    vector length of zero changes no element and sets vxsat. *)
Definition demo_idle : RVCPU Z Vector := demo_vec_hart (demo_vector E8 M1 false false 0) [].

Lemma vxsat_from_inactive_elements :
  any_saturated (Some false) (fun w m a b => a + b) ORs1 demo_idle 2 16 = true /\
  forall j, 0 <= j -> arch_value 0 (vec_of demo_idle) false 0 (fst (fix_elem (Some false) (fun w m a b => a + b) ORs1 demo_idle 2 16 j)) j = None.
Proof.
  split; [vm_compute; reflexivity|]. intros j Hj. unfold arch_value. rewrite (proj2 (Z.ltb_ge j 0)) by lia.
  change (vl (config (vec_of demo_idle))) with 0. rewrite (proj2 (Z.leb_le 0 j)) by lia. done.
Qed.
