(* ===== verification/VectorMemSpec.v ===== *)
(** * Vector loads and stores

    Unit-stride and constant-stride loads and stores of one field: which
    elements they transfer, what happens when an element faults, and that a load
    interrupted by a fault can be restarted where it stopped. *)

From S2P Require Import Prelude Utils TrapTypes Alu Ram CsrTable Csr PageTable Mmio Vm Instr Cpu Trap Exec Invariant ExecSpec Vector VectorInt VectorArith VectorFix VectorExec VectorMap VectorSpec VectorHart VectorAluSpec VectorMaskSpec VectorWideSpec.

(** ** Loops *)
Lemma for_enumerate_app {S E} lo l1 l2 (f : Z -> Z -> M S E unit) s s' : for_enumerate lo l1 f s = (Ok tt, s') ->
  for_enumerate lo (l1 ++ l2) f s = for_enumerate (lo + Z.of_nat (length l1)) l2 f s'.
Proof.
  revert lo s. induction l1 as [|x l1 IH]; intros lo s Hl; cbn [for_enumerate app] in *.
  - injection Hl as ->. cbn. by rewrite Z.add_0_r.
  - inv_bind Hl. destruct a. erewrite bind_Ok by exact Hm. rewrite (IH _ _ Hk). f_equal. cbn [length]. lia.
Qed.

Section Bus.
Context {D : Type} `{DeviceTrait D} `{Profile}.

(** A load from the bus that succeeds, and one that faults; neither changes the
    bus. *)
Definition bus_reads (b : MemoryMapIO D) (t : UInt) (addr x : Z) : Prop := read_by_type t addr b = (Ok x, b) /\ uint (BITS t) x.
Definition bus_faults (b : MemoryMapIO D) (t : UInt) (addr : Z) (e : MemError) : Prop := read_by_type t addr b = (Err e, b).

Lemma with_vd_unfold {A} v vd w lm (m : M (VGFRef * MemoryMapIO D) VectorMemException A) b :
  vregs_ok (vector_regfile v) -> legal lm vd ->
  with_vd vd w lm 1 m (v, b) = (let '(r, (g, b')) := m (group1 (vector_regfile v) vd w lm, b) in
    (r, (set_regfile v (put_group (vector_regfile v) (VLEN_BYTE * vd) lm (value g)), b'))).
Proof.
  intros Hr Hl. unfold with_vd. rewrite Z.mul_1_r.
  erewrite bind_Ok by (unfold map_err; by rewrite group_offset_ok).
  unfold zoom. cbn [fst snd]. fold (group1 (vector_regfile v) vd w lm). erewrite bind_Ok by reflexivity. cbn [fst value group1].
  rewrite length_group_bytes by done. rewrite Z_mod_mult, Z.eqb_refl. erewrite bind_Ok by reflexivity. by destruct (m _) as [r [g b']].
Qed.

Lemma index_128 v eew i : 0 <= i < vlmax (into_byte_width eew) (group_regs v) -> 0 <= i < 128.
Proof.
  enough (vlmax (into_byte_width eew) (group_regs v) <= 128) by lia. unfold group_regs. destruct eew, (vlmul (config v)); vm_compute; discriminate.
Qed.

Lemma access_active v eew em i : vregs_ok (vector_regfile v) -> 0 <= i < vlmax (into_byte_width eew) (group_regs v) -> should_access (cfg_mask v em 0) i = true <-> active v em 0 i.
Proof.
  intros Hr Hi. unfold should_access, is_active_body, active. rewrite mask_bit_spec by (done || by apply (index_128 v eew)).
  cbn [op_start op_length cfg_mask]. rewrite (proj2 (Z.leb_le 0 i)) by lia. rewrite !andb_true_iff, orb_true_iff, Z.ltb_lt.
  destruct em; cbn; (split; [intros [[? ?] ?]|intros [[? ?] ?]]; intuition (lia || congruence)).
Qed.

Section Load.
Context (v : Vector) (Hr : vregs_ok (vector_regfile v)) (eew : Vsew) (vd : Z) (em : bool) (vstart base stride : Z) (step : option Z) (b : MemoryMapIO D) (x : Z -> Z).
Abbreviation w := (into_byte_width eew).
Abbreviation lm := (group_regs v).
Abbreviation g := (group1 (vector_regfile v) vd w lm).
Abbreviation k := (cfg_mask v em 0).
Abbreviation addr := (VectorStrideAddrCal_exec base stride).
Hypothesis Hvd : legal lm vd.
Hypothesis Hstart : 0 <= vstart.

(** The body of the loop, for element [i]. *)
Definition load_body (i element : Z) : M (VGFRef * MemoryMapIO D) VectorMemException unit :=
  if (vl (config v) <=? i) || negb (should_access k i) then on_vd (element_load_default_by_sew k element i eew)
  else load_element (ty_of eew) k i element (addr i).

Lemma g_shape : shape_ok g.
Proof. destruct (legal_bound lm vd Hvd) as (Hm & _). apply group1_shape; [apply into_byte_width_ok|done]. Qed.

Lemma g_fits : group_fits g (value g).
Proof. apply group1_fits. cbn [value group1]. by apply length_group_bytes. Qed.

(** One element: loaded when active, and otherwise as the policies say. *)
Lemma load_body_run i bytes : vstart <= i < vlmax w lm -> group_fits g bytes ->
  (active v em vstart i -> bus_reads b (ty_of eew) (addr i) (x i)) ->
  load_body i (offset_at g i) (set_value g bytes, b) = (Ok tt, (set_value g (put_elem g i (arch_value 0 v em vstart (x i) i) bytes), b)).
Proof.
  intros Hi Hf Hx. unfold load_body.
  assert (Hel : forall y, element_load (E := VectorMemException) (ty_of eew) k (offset_at g i) y i (set_value g bytes) =
    (Ok tt, set_value g (put_elem g i (arch_value 0 v em 0 y i) bytes))).
  { intros y. rewrite <- mask_value_arch by (done || (apply (index_128 v eew); lia)).
    apply element_load_run; [apply g_shape|symmetry; apply size_of_ty|done|rewrite group1_total; lia]. }
  assert (Hv : arch_value 0 v em vstart (x i) i = arch_value 0 v em 0 (x i) i).
  { unfold arch_value. by rewrite !(proj2 (Z.ltb_ge i _)) by lia. }
  rewrite Hv. destruct (should_access k i) eqn:Ha.
  - apply (access_active v eew) in Ha; [|done|lia]. pose proof Ha as [Hvl Hm]. rewrite (proj2 (Z.leb_gt _ _)) by lia. cbn [negb orb].
    destruct Hx as [Hread Hu]; [split; [lia|done]|]. unfold load_element.
    erewrite bind_Ok by (unfold on_mem, zoom, map_err; cbn [fst snd]; rewrite Hread; reflexivity).
    unfold on_vd, zoom. cbn [fst snd]. by rewrite Hel.
  - rewrite orb_true_r. unfold on_vd, zoom, element_load_default_by_sew, element_load_default. cbn [fst snd]. rewrite Hel.
    assert (~ active v em 0 i) as Hn by (rewrite <- (access_active v eew) by (done || lia); by rewrite Ha).
    unfold arch_value. destruct (i <? 0); [done|]. destruct (Z.leb_spec (vl (config v)) i); [done|].
    destruct em eqn:Ee; cbn [andb]; [|exfalso; apply Hn; split; [lia|done]].
    destruct (mask_reg_bit (vector_regfile v) 0 i) eqn:Em; [exfalso; apply Hn; split; [lia|done]|done].
Qed.

(** The first [n] elements. *)
Lemma load_prefix n : n <= vlmax w lm ->
  (forall i, 0 <= i < n -> active v em vstart i -> bus_reads b (ty_of eew) (addr i) (x i)) ->
  exists bytes, for_enumerate vstart (offset_at g <$> seqZ vstart (n - vstart)) load_body (g, b) = (Ok tt, (set_value g bytes, b)) /\
    Z.of_nat (length bytes) = VLEN_BYTE * lm /\ (bytes_ok (value g) -> bytes_ok bytes) /\
    forall j, 0 <= j < vlmax w lm -> load_le w bytes (j * w) =
      default (reg_elem (vector_regfile v) w vd j) (if j <? n then arch_value 0 v em vstart (x j) j else None).
Proof.
  intros Hn Hx.
  destruct (for_enumerate_elements (fun bytes => (set_value g bytes, b)) g (fun i => arch_value 0 v em vstart (x i) i) load_body vstart n)
    with (b := value g) as (bytes & Hrun & Hf & Hb & He).
  - apply g_shape.
  - rewrite group1_total. lia.
  - intros i bytes Hi Hfb. apply load_body_run; [lia|done|apply Hx; lia].
  - apply g_fits.
  - exists bytes. replace (set_value g (value g)) with g in Hrun by done. split_and!; [done|by apply group1_fits in Hf|done|].
    intros j Hj. specialize (He j). rewrite group1_total, !group1_elem in He. rewrite He by done. cbn [value group1 sew].
    destruct (legal_bound lm vd Hvd) as (Hm & _). pose proof (into_byte_width_ok eew) as Hwo.
    destruct (vlmax_bound w lm j Hwo Hm Hj). assert (0 < w) by (unfold width_ok in Hwo; lia).
    rewrite load_group by (done || lia). fold (reg_elem (vector_regfile v) w vd j).
    destruct (decide (vstart <= j < n)) as [Hd|Hd], (Z.ltb_spec j n); try lia; [|unfold arch_value; by rewrite (proj2 (Z.ltb_lt j vstart)) by lia|done].
    destruct (arch_value 0 v em vstart (x j) j) as [y|] eqn:Ey; [|done]. cbn. apply wrap_small.
    assert (y = 0 \/ (y = x j /\ active v em vstart j)) as [-> | [-> Ha]].
    { revert Ey. unfold arch_value. repeat (case_match; try discriminate); intros [= <-]; auto. right. split; [done|]. split; [lia|].
      intros ->. by destruct (mask_reg_bit (vector_regfile v) 0 j). }
    + split; [lia|]. apply Z.pow_pos_nonneg; lia.
    + destruct (Hx j) as [_ Hu]; [lia|done|]. revert Hu. by destruct eew.
Qed.

(** *** The whole access *)
Hypothesis Hvl : 0 <= vl (config v) < 2 ^ 16.
Hypothesis Hstride : stride = default w step.

Lemma op_mask_run {S} (s : S) : op_mask v 1 em s = (Ok k, s).
Proof.
  unfold op_mask, mul_chk. rewrite Z.mul_1_r, (proj2 (Z.leb_gt _ _)), andb_false_r by lia.
  erewrite bind_Ok by reflexivity. rewrite wrap_small by done. unfold map_err, VecOpMask_new, new_with_start, read_as_type.
  destruct em; [|done]. erewrite bind_Ok; [reflexivity|]. erewrite bind_Ok; [reflexivity|]. by erewrite bind_Ok by (apply group_offset_ok, legal_v0).
Qed.

Lemma drop_offsets : drop (Z.to_nat vstart) (iter g) = offset_at g <$> seqZ vstart (vlmax w lm - vstart).
Proof.
  rewrite iter_spec by apply g_shape. rewrite group1_total, <- fmap_drop. f_equal. unfold seqZ. rewrite <- fmap_drop, drop_seq.
  apply list_eq. intros i. rewrite !list_lookup_fmap. destruct (decide (i < Z.to_nat (vlmax w lm - vstart))%nat).
  - rewrite !lookup_seq_lt by lia. cbn. f_equal. lia.
  - rewrite !lookup_seq_ge by lia. done.
Qed.

Lemma stride_load_unfold : stride_load vd eew 1 step em vstart base (v, b) =
  (let '(r, (g', b')) := for_enumerate vstart (offset_at g <$> seqZ vstart (vlmax w lm - vstart)) load_body (g, b) in
   (r, (set_regfile v (put_group (vector_regfile v) (VLEN_BYTE * vd) lm (value g')), b'))).
Proof.
  unfold stride_load. erewrite bind_Ok by reflexivity. cbn [fst]. erewrite bind_Ok by (apply op_mask_run). rewrite <- Hstride.
  fold (group_regs v). rewrite with_vd_unfold by done. unfold stride_load_loop. erewrite bind_Ok by reflexivity. cbn [fst].
  rewrite Z.mul_1_r, drop_offsets. done.
Qed.

(** Every active element can be read. *)
Lemma stride_load_run : (forall i, 0 <= i < vlmax w lm -> active v em vstart i -> bus_reads b (ty_of eew) (addr i) (x i)) ->
  exists v', stride_load vd eew 1 step em vstart base (v, b) = (Ok tt, (v', b)) /\
    vd_written v v' vd w lm (fun j => arch_value 0 v em vstart (x j) j).
Proof.
  intros Hx. destruct (load_prefix (vlmax w lm)) as (bytes & Hrun & Hlen & Hb & He); [lia|done|].
  eexists. rewrite stride_load_unfold, Hrun. split; [done|]. apply put_group_written; try done; [apply into_byte_width_ok|].
  intros j Hj. rewrite He by done. by rewrite (proj2 (Z.ltb_lt j _)) by lia.
Qed.

(** Element [n] is the first active one that faults: those before it are
    loaded, the others are untouched. *)
Lemma stride_load_faults n e : 0 <= n < vlmax w lm -> active v em vstart n -> bus_faults b (ty_of eew) (addr n) e ->
  (forall i, 0 <= i < n -> active v em vstart i -> bus_reads b (ty_of eew) (addr i) (x i)) ->
  exists v', stride_load vd eew 1 step em vstart base (v, b) = (Err (VMemory n (from_memory_err e)), (v', b)) /\
    vd_written v v' vd w lm (fun j => if j <? n then arch_value 0 v em vstart (x j) j else None).
Proof.
  intros Hn Ha Hfault Hx. destruct (load_prefix n) as (bytes & Hrun & Hlen & Hb & He); [lia|done|].
  eexists. rewrite stride_load_unfold. pose proof Ha as [Hvs Hm].
  replace (seqZ vstart (vlmax w lm - vstart)) with (seqZ vstart (n - vstart) ++ n :: seqZ (n + 1) (vlmax w lm - n - 1)).
  - rewrite fmap_app, (for_enumerate_app _ _ _ _ _ _ Hrun), length_fmap, length_seqZ. cbn [fmap list_fmap for_enumerate].
    replace (vstart + Z.of_nat (Z.to_nat (n - vstart))) with n by lia.
    erewrite bind_Err.
    2:{ unfold load_body. rewrite (proj2 (Z.leb_gt _ _)) by lia. rewrite (proj2 (access_active v eew em n Hr Hn)) by (split; [lia|done]). cbn [negb orb].
        unfold load_element. erewrite bind_Err; [reflexivity|]. unfold on_mem, zoom, map_err. cbn [fst snd]. unfold bus_faults in Hfault.
        rewrite Hfault. reflexivity. }
    split; [reflexivity|]. by apply put_group_written; [done|done|apply into_byte_width_ok|..].
  - replace (vlmax w lm - vstart) with ((n - vstart) + (vlmax w lm - n)) by lia. rewrite seqZ_app by lia. f_equal.
    rewrite (seqZ_cons (vstart + (n - vstart))) by lia. f_equal; [lia|f_equal; lia].
Qed.
End Load.
End Bus.

(** ** Load instructions *)

(** The loads of one field: the element width, and whether the stride is in a
    register. *)
Definition strided_load (i : VInstr) : option (Vsew * bool) :=
  match i with VLE _ eew => Some (eew, false) | VLSE _ eew => Some (eew, true) | _ => None end.

(** The encoding has one field and the addressing mode of the instruction. *)
Definition strided_encoding (reg_stride : bool) (rs2 func6 : Z) : Prop :=
  nf (load_store_func6_decode func6) = 0 /\ mop (load_store_func6_decode func6) = (if reg_stride then 2 else 0) /\
  (reg_stride = false -> rs2 = 0).

Section LoadInstr.
Context {D X : Type} `{DeviceTrait D} `{Profile} `{HasVector X}.
Implicit Types c : RVCPU D X.

Definition bus_of c : MemoryMapIO D := mmio (memory c).
Definition set_bus (b : MemoryMapIO D) c : RVCPU D X := set_memory (Build_VirtAddrManager b (page_table (memory c))) c.

(** The address of element [j]. *)
Definition elem_addr (reg_stride : bool) (eew : Vsew) c (rs1 rs2 j : Z) : Z :=
  let stride := if reg_stride then reg_file c !!! Z.to_nat rs2 else into_byte_width eew in
  (reg_file c !!! Z.to_nat rs1 + j * stride) mod 2 ^ 64.

Lemma stride_addr base stride j : VectorStrideAddrCal_exec base stride j = (base + j * stride) mod 2 ^ 64.
Proof. unfold VectorStrideAddrCal_exec. by rewrite wrap_add_r. Qed.

Lemma on_vmem_run {E A} (m : M (Vector * MemoryMapIO D) E A) c r v b :
  m (vec_of c, bus_of c) = (r, (v, b)) -> on_vmem m c = (r, set_bus b (set_vec v c)).
Proof. intros Hm. unfold on_vmem, zoom. fold (vec_of c) (bus_of c). by rewrite Hm. Qed.

Lemma set_bus_of v c : set_bus (bus_of c) (set_vec v c) = set_vec v c.
Proof. unfold set_bus, bus_of. destruct c as [? ? [? ?] ? ? ? ? ? ?]. done. Qed.

Lemma vmem_regs_run c rs1 rs2 : cpu_wf c -> reg_ok rs1 -> reg_ok rs2 ->
  vmem_regs rs1 rs2 c = (Ok (reg_file c !!! Z.to_nat rs1, reg_file c !!! Z.to_nat rs2), c).
Proof. intros. unfold vmem_regs, map_err. by rewrite reg_read_run. Qed.

(** The body of the instruction is the access at its operands. *)
Lemma strided_load_body i eew rg rs1 rs2 rd vm func6 c : strided_load i = Some (eew, rg) -> cpu_wf c ->
  reg_ok rs1 -> reg_ok rs2 -> strided_encoding rg rs2 func6 ->
  exists exec f, vector_exec_func (D := D) (X := X) i = Some exec /\
    exec (IV rs1 rs2 rd vm func6) = normal_vector_exec finish_vector_memory_access f /\
    f (vstart_of c) c = on_vmem (stride_load rd eew 1 (if rg then Some (reg_file c !!! Z.to_nat rs2) else None) (negb vm) (vstart_of c)
                                   (reg_file c !!! Z.to_nat rs1)) c.
Proof.
  intros Hi Hc Hr1 Hr2 (Hnf & Hmop & Hz). assert (reg_ok 0) by done.
  destruct i; try discriminate Hi; injection Hi as <- <-; (eexists _, _; split; [reflexivity|]; split; [reflexivity|]); unfold with_v; cbn beta iota.
  - rewrite Hmop, (Hz eq_refl). erewrite bind_Ok by apply debug_assert_true. erewrite bind_Ok by apply debug_assert_true.
    erewrite bind_Ok by (by apply vmem_regs_run). cbn [fst snd]. by rewrite Hnf.
  - rewrite Hmop. erewrite bind_Ok by apply debug_assert_true. erewrite bind_Ok by (by apply vmem_regs_run). cbn [fst snd]. by rewrite Hnf.
Qed.

(** The state the loads start from. *)
Record vload_ready (eew : Vsew) (rd : Z) c : Prop := {
  ready_wf : cpu_wf c;
  ready_regs : vregs_ok (vector_regfile (vec_of c));
  ready_on : vs_on c;
  ready_vl : 0 <= vl (config (vec_of c)) < 2 ^ 16;
  ready_vd : legal (group_regs (vec_of c)) rd
}.

Lemma load_addr eew (rg : bool) c rs1 rs2 j :
  VectorStrideAddrCal_exec (reg_file c !!! Z.to_nat rs1)
    (default (into_byte_width eew) (if rg then Some (reg_file c !!! Z.to_nat rs2) else None)) j = elem_addr rg eew c rs1 rs2 j.
Proof. rewrite stride_addr. unfold elem_addr. by destruct rg. Qed.

Lemma vstart_nonneg c : cpu_wf c -> 0 <= vstart_of c.
Proof. intros Hc. apply (val_u64 _ Vstart (wf_csr c Hc)). Qed.

Lemma vector_load_run i eew rg rs1 rs2 rd vm func6 c x :
  strided_load i = Some (eew, rg) -> vload_ready eew rd c -> counter_ok c ->
  reg_ok rs1 -> reg_ok rs2 -> strided_encoding rg rs2 func6 ->
  (forall j, 0 <= j < vlmax (into_byte_width eew) (group_regs (vec_of c)) -> active (vec_of c) (negb vm) (vstart_of c) j ->
     bus_reads (bus_of c) (ty_of eew) (elem_addr rg eew c rs1 rs2 j) (x j)) ->
  let v := vec_of c in
  exists exec v', vector_exec_func i = Some exec /\
    exec (IV rs1 rs2 rd vm func6) c = (Ok tt, vec_retired (reg_file c) v' c) /\
    vd_written v v' rd (into_byte_width eew) (group_regs v) (fun j => arch_value 0 v (negb vm) (vstart_of c) (x j) j).
Proof.
  intros Hi [Hc Hr Hon Hvl Hvd] Hov Hr1 Hr2 Henc Hx v.
  destruct (strided_load_body i eew rg rs1 rs2 rd vm func6 c Hi Hc Hr1 Hr2 Henc) as (exec & f & Hexec & Hf & Hbody).
  set (step := if rg then Some (reg_file c !!! Z.to_nat rs2) else None) in *.
  destruct (stride_load_run v Hr eew rd (negb vm) (vstart_of c) (reg_file c !!! Z.to_nat rs1) (default (into_byte_width eew) step) step
    (bus_of c) x Hvd (vstart_nonneg c Hc) Hvl eq_refl) as (v' & Hrun & Hw).
  { intros j Hj Ha. unfold step. rewrite load_addr. by apply Hx. }
  exists exec, v'. split; [done|]. split; [|done]. rewrite Hf. apply normal_vector_run; [by apply wf_csr|done|done|].
  rewrite Hbody, (on_vmem_run _ _ _ _ _ Hrun), set_bus_of. by destruct c.
Qed.

(** A load that faults at element [n]: vstart holds [n], the program counter
    stays at the load. *)
Lemma vector_load_faulted i eew rg rs1 rs2 rd vm func6 c x n e :
  strided_load i = Some (eew, rg) -> vload_ready eew rd c ->
  reg_ok rs1 -> reg_ok rs2 -> strided_encoding rg rs2 func6 ->
  0 <= n < vlmax (into_byte_width eew) (group_regs (vec_of c)) -> active (vec_of c) (negb vm) (vstart_of c) n ->
  bus_faults (bus_of c) (ty_of eew) (elem_addr rg eew c rs1 rs2 n) e ->
  (forall j, 0 <= j < n -> active (vec_of c) (negb vm) (vstart_of c) j ->
     bus_reads (bus_of c) (ty_of eew) (elem_addr rg eew c rs1 rs2 j) (x j)) ->
  let v := vec_of c in
  exists exec v', vector_exec_func i = Some exec /\
    exec (IV rs1 rs2 rd vm func6) c = (Err (from_memory_err e), set_csr (upd Vstart n (csr c)) (set_vec v' c)) /\
    vd_written v v' rd (into_byte_width eew) (group_regs v)
      (fun j => if j <? n then arch_value 0 v (negb vm) (vstart_of c) (x j) j else None).
Proof.
  intros Hi [Hc Hr Hon Hvl Hvd] Hr1 Hr2 Henc Hn Ha Hfault Hx v.
  destruct (strided_load_body i eew rg rs1 rs2 rd vm func6 c Hi Hc Hr1 Hr2 Henc) as (exec & f & Hexec & Hf & Hbody).
  set (step := if rg then Some (reg_file c !!! Z.to_nat rs2) else None) in *.
  destruct (stride_load_faults v Hr eew rd (negb vm) (vstart_of c) (reg_file c !!! Z.to_nat rs1) (default (into_byte_width eew) step) step
    (bus_of c) x Hvd (vstart_nonneg c Hc) Hvl eq_refl n e Hn Ha) as (v' & Hrun & Hw).
  { unfold step. by rewrite load_addr. }
  { intros j Hj Haj. unfold step. rewrite load_addr. by apply Hx. }
  exists exec, v'. split; [done|]. split; [|done]. rewrite Hf. pose proof (wf_csr c Hc) as Hcsr.
  eapply normal_vector_err; [done|done|by rewrite Hbody, (on_vmem_run _ _ _ _ _ Hrun), set_bus_of|].
  unfold finish_vector_memory_access. cbn [fault_index_of exception_of].
  rewrite (wrap_small 64 n) by (pose proof (index_128 v eew n Hn); unfold uint; lia). destruct (known_vec Vstart eq_refl) as [Hk _].
  rewrite <- (set_csr_id (set_vec v' c)) at 1.
  erewrite bind_Ok by (apply on_csr_run, CsrRegFile_write_directly_run; [exact Hcsr|done]). done.
Qed.
End LoadInstr.

(** ** Restarting a load *)
Section Restart.
Context {D X : Type} `{DeviceTrait D} `{Profile} `{HasVector X}.
Implicit Types c : RVCPU D X.

(** A destination that does not hold v0 leaves the mask as it was. *)
Lemma mask_kept v v' vd w lm new j : vregs_ok (vector_regfile v) -> vd_written v v' vd w lm new -> legal lm vd -> vd <> 0 -> 0 <= j < 128 ->
  mask_reg_bit (vector_regfile v') 0 j = mask_reg_bit (vector_regfile v) 0 j.
Proof.
  intros Hr (_ & Hr' & _ & Ho) Hl Hvd Hj. destruct (bit_index j) as (? & ? & ?); [lia|]. destruct (legal_bound lm vd Hl) as (? & ? & ?).
  unfold mask_reg_bit. f_equal. assert (VLEN_BYTE = 16) as EV by done.
  enough (Some (reg_elem (vector_regfile v') 1 0 (j / 8)) = Some (reg_elem (vector_regfile v) 1 0 (j / 8))) as [=] by done.
  rewrite <- !reg_elem_byte by (done || lia). apply Ho. left. lia.
Qed.

Lemma arch_value_after v v' vd w lm new em vstart (x : Z) j : vregs_ok (vector_regfile v) -> vd_written v v' vd w lm new -> legal lm vd ->
  (em = true -> vd <> 0) -> 0 <= j < 128 -> arch_value 0 v' em vstart x j = arch_value 0 v em vstart x j.
Proof.
  intros Hr Hw Hl Hm Hj. pose proof Hw as (Hc & _). unfold arch_value. rewrite Hc. destruct em; [|done].
  by rewrite (mask_kept v v' vd w lm new j Hr Hw Hl (Hm eq_refl) Hj).
Qed.

Lemma active_after v v' vd w lm new em vstart n j : vregs_ok (vector_regfile v) -> vd_written v v' vd w lm new -> legal lm vd ->
  (em = true -> vd <> 0) -> 0 <= j < 128 -> vstart <= n -> active v' em n j -> active v em vstart j /\ n <= j.
Proof.
  intros Hr Hw Hl Hm Hj Hvn [Hnj Hb]. pose proof Hw as (Hc & _). rewrite Hc in Hnj. split; [|lia]. split; [lia|].
  intros He. rewrite <- (mask_kept v v' vd w lm new j Hr Hw Hl (Hm He) Hj). by apply Hb.
Qed.

(** The state after a fault at element [n], with the bus repaired. *)
Lemma ready_restart eew rd c b2 n v1 : vload_ready eew rd c -> cpu_wf (set_bus b2 c) -> u64 n ->
  vregs_ok (vector_regfile v1) -> config v1 = config (vec_of c) ->
  vload_ready eew rd (set_bus b2 (set_csr (upd Vstart n (csr c)) (set_vec v1 c))).
Proof.
  intros [Hc Hr Hon Hvl Hvd] [R P S M I T V] Hn Hr1 Hcfg. set (c1 := set_bus b2 _).
  assert (vec_of c1 = v1) as Hv1 by (apply vector_of_set). constructor.
  - constructor; [exact R|exact P| |exact M|exact I|exact T|].
    + apply upd_wf; [exact S|exact Hn].
    + unfold ext_ok, vector_ext_ok. fold (vec_of c1). rewrite Hv1. split; [exact Hr1|]. rewrite Hcfg. apply (wf_vec c Hc).
  - rewrite Hv1. exact Hr1.
  - unfold vs_on. change (csr c1) with (upd Vstart n (csr c)). rewrite val_upd_ne by discriminate. exact Hon.
  - rewrite Hv1, Hcfg. exact Hvl.
  - unfold group_regs. rewrite Hv1, Hcfg. exact Hvd.
Qed.

(** C15: A unit-stride or strided vector load (vle, vlse, one field per element) is
    restartable, on a hart on which the load is legal ([vload_ready]) and when
    a masked load does not overwrite its own mask ([rd] is not v0).  When active
    element [n] is the first to fault, the instruction raises the fault's
    exception with the program counter on the load and vstart on [n]; the
    elements before [n] have the values an uninterrupted load gives them and
    all others are as before.  Once the fault is repaired, so that every
    remaining active element can be read, executing the same instruction again
    retires it, and the destination is element for element what an
    uninterrupted load would have left. *)
Theorem vector_load_restartable i eew rg rs1 rs2 rd vm func6 c x n e b2 :
  strided_load i = Some (eew, rg) -> vload_ready eew rd c -> counter_ok c ->
  reg_ok rs1 -> reg_ok rs2 -> strided_encoding rg rs2 func6 -> (vm = false -> rd <> 0) ->
  let v := vec_of c in let w := into_byte_width eew in let a := elem_addr rg eew c rs1 rs2 in
  0 <= n < vlmax w (group_regs v) -> active v (negb vm) (vstart_of c) n -> bus_faults (bus_of c) (ty_of eew) (a n) e ->
  (forall j, 0 <= j < n -> active v (negb vm) (vstart_of c) j -> bus_reads (bus_of c) (ty_of eew) (a j) (x j)) ->
  cpu_wf (set_bus b2 c) ->
  (forall j, n <= j < vlmax w (group_regs v) -> active v (negb vm) (vstart_of c) j -> bus_reads b2 (ty_of eew) (a j) (x j)) ->
  exists exec c1 v2, vector_exec_func i = Some exec /\
    exec (IV rs1 rs2 rd vm func6) c = (Err (from_memory_err e), c1) /\ pc c1 = pc c /\ vstart_of c1 = n /\ reg_file c1 = reg_file c /\
    vd_written v (vec_of c1) rd w (group_regs v) (fun j => if j <? n then arch_value 0 v (negb vm) (vstart_of c) (x j) j else None) /\
    exec (IV rs1 rs2 rd vm func6) (set_bus b2 c1) = (Ok tt, vec_retired (reg_file c) v2 (set_bus b2 c1)) /\
    vd_written v v2 rd w (group_regs v) (fun j => arch_value 0 v (negb vm) (vstart_of c) (x j) j).
Proof.
  intros Hi Hready Hov Hr1 Hr2 Henc Hrd v w a Hn Ha Hfault Hx Hc2 Hx2. pose proof Hready as [Hc Hr Hon Hvl Hvd].
  destruct (vector_load_faulted i eew rg rs1 rs2 rd vm func6 c x n e Hi Hready Hr1 Hr2 Henc Hn Ha Hfault Hx) as (exec & v1 & Hexec & Hrun1 & Hw1).
  set (c1 := set_csr (upd Vstart n (csr c)) (set_vec v1 c)) in *. fold v w in Hw1. pose proof Hw1 as (Hcfg1 & Hregs1 & _).
  assert (Hcsr : csr_wf (csr c)) by (by apply wf_csr). destruct (known_vec Vstart eq_refl) as [Hk _].
  assert (Hun : u64 n) by (pose proof (index_128 v eew n Hn); unfold u64; lia).
  assert (Hv1 : vec_of (set_bus b2 c1) = v1) by (apply vector_of_set).
  assert (Hs1 : vstart_of (set_bus b2 c1) = n) by (unfold vstart_of; cbn; by rewrite val_upd_eq).
  pose proof (ready_restart eew rd c b2 n v1 Hready Hc2 Hun Hregs1 Hcfg1) as Hready2.
  assert (Hg : group_regs v1 = group_regs v) by (unfold group_regs; by rewrite Hcfg1).
  destruct (vector_load_run i eew rg rs1 rs2 rd vm func6 (set_bus b2 c1) x Hi Hready2) as (exec' & v2 & Hexec' & Hrun2 & Hw2);
    [|exact Hr1|exact Hr2|exact Henc| |].
  - unfold counter_ok. change (csr (set_bus b2 c1)) with (upd Vstart n (csr c)). rewrite val_upd_ne by discriminate. exact Hov.
  - rewrite Hv1, Hs1, Hg. intros j Hj Haj.
    assert (Hem : negb vm = true -> rd <> 0) by (intros ?%negb_true_iff; auto).
    destruct (active_after v v1 rd w (group_regs v) _ (negb vm) (vstart_of c) n j Hr Hw1 Hvd Hem (index_128 v eew j Hj)) as [Hjv Hnj];
      [destruct Ha; lia|done|]. apply Hx2; [split; [done|apply Hj]|done].
  - assert (exec' = exec) as -> by congruence. exists exec, c1, v2. split; [exact Hexec|]. split; [exact Hrun1|].
    split; [reflexivity|]. split; [exact Hs1|]. split; [reflexivity|].
    split; [assert (vec_of c1 = v1) as -> by (apply vector_of_set); exact Hw1|]. split; [exact Hrun2|].
    rewrite Hv1, Hs1, Hg in Hw2. fold w in Hw2. eapply vd_written_ext; [|exact (vd_written_trans _ _ _ _ _ _ _ _ Hw1 Hw2)].
    assert (Hem : negb vm = true -> rd <> 0) by (intros ?%negb_true_iff; auto).
    intros j Hj. cbn beta. rewrite (arch_value_after v v1 rd w (group_regs v) _ (negb vm) n (x j) j Hr Hw1 Hvd Hem (index_128 v eew j Hj)).
    destruct (Z.ltb_spec j n) as [Hlt|Hge].
    + unfold arch_value at 1. by rewrite (proj2 (Z.ltb_lt j n)) by lia.
    + replace (arch_value 0 v (negb vm) n (x j) j) with (arch_value 0 v (negb vm) (vstart_of c) (x j) j).
      { by destruct (arch_value 0 v (negb vm) (vstart_of c) (x j) j). }
      unfold arch_value. destruct Ha as [Hvs _]. by rewrite !(proj2 (Z.ltb_ge j _)) by lia.
Qed.
End Restart.

(** ** Concrete instances *)

(** A descending byte load whose third element lies below RAM, where there is
    no device; then a device is there. *)
Definition demo_vlse : RVCPU Z Vector :=
  demo_vec_hart_at (demo_regs 0x80000001 (2 ^ 64 - 1) 0) (demo_vector E8 M1 false false 3) [].
Definition demo_repaired : MemoryMapIO Z :=
  Build_MemoryMapIO [{| start := 0x7ffffff0; size := 16; device := 0 |}] (ram (bus_of demo_vlse)) [7].

Definition demo_loaded (j : Z) : Z := if j =? 2 then 22 else Ram.load_le (ram (bus_of demo_vlse)) (1 - j) 1.

Lemma vector_load_restartable_witness :
  let D := demo_device in let P := dev in let c := demo_vlse in
  exists exec c1 v2, vector_exec_func (VLSE 1 E8) = Some exec /\
    exec (IV 1 2 8 true 2) c = (Err LoadFault, c1) /\ pc c1 = pc c /\ vstart_of c1 = 2 /\ reg_file c1 = reg_file c /\
    vd_written (vec_of c) (vec_of c1) 8 1 (group_regs (vec_of c))
      (fun j => if j <? 2 then arch_value 0 (vec_of c) false (vstart_of c) (demo_loaded j) j else None) /\
    exec (IV 1 2 8 true 2) (set_bus demo_repaired c1) = (Ok tt, vec_retired (reg_file c) v2 (set_bus demo_repaired c1)) /\
    vd_written (vec_of c) v2 8 1 (group_regs (vec_of c)) (fun j => arch_value 0 (vec_of c) false (vstart_of c) (demo_loaded j) j).
Proof.
  intros D P. assert (Hwf : cpu_wf demo_vlse) by (apply demo_vec_at_wf; [by apply demo_vec_ok|apply demo_regs_ok; solve_u64|constructor]).
  apply (vector_load_restartable (VLSE 1 E8) E8 true 1 2 8 true 2 demo_vlse demo_loaded 2 MemLoadFault demo_repaired).
  - reflexivity.
  - constructor; [exact Hwf|apply demo_vregs|vm_compute; discriminate|vm_compute; split; [discriminate|reflexivity]|].
    vm_compute. split; [reflexivity|]. split; [split; [discriminate|reflexivity]|reflexivity].
  - intros _. vm_compute. reflexivity.
  - vm_compute. split; [discriminate|reflexivity].
  - vm_compute. split; [discriminate|reflexivity].
  - vm_compute. split; [reflexivity|split; [reflexivity|discriminate]].
  - discriminate.
  - vm_compute. split; [discriminate|reflexivity].
  - vm_compute. split; [split; [discriminate|reflexivity]|discriminate].
  - vm_compute. reflexivity.
  - intros j Hj _. assert (j = 0 \/ j = 1) as [-> | ->] by lia; (split; [vm_compute; reflexivity|vm_compute; split; [discriminate|reflexivity]]).
  - destruct Hwf as [R Pc S M I T V]. constructor; [exact R|exact Pc|exact S|exact M|exact I|exact T|exact V].
  - intros j Hj [[_ Hvl] _]. change (vl (config (vec_of demo_vlse))) with 3 in Hvl. assert (j = 2) as -> by lia.
    split; [vm_compute; reflexivity|vm_compute; split; [discriminate|reflexivity]].
Defined.
