(* ===== verification/VectorStoreSpec.v ===== *)
(** * Vector stores to RAM

    Unit-stride stores of one field to RAM, and the round trip through memory:
    a store followed by a load of the same shape copies the active elements of
    one register group to another. *)

From S2P Require Import Prelude Utils TrapTypes Alu Ram CsrTable Csr PageTable Mmio Vm Instr Cpu Trap Exec Invariant ExecSpec Vector VectorInt VectorArith VectorFix VectorExec VectorMap VectorSpec VectorHart VectorAluSpec VectorMaskSpec VectorWideSpec VectorMemSpec.

(** ** RAM behind the bus *)

(** The RAM after storing [y j] at [a j] for the listed [j], in order. *)
Definition store_all (t : UInt) (a y : Z -> Z) (js : list Z) (r : Ram) : Ram := foldl (fun r j => stored t (a j) (y j) r) r js.

Lemma stored_wf t addr v r : ram_wf r -> ram_wf (stored t addr v r).
Proof. intros. by apply set_data_wf, try_invalidate_wf. Qed.

Lemma stored_ptr t addr v r : ptr_aligned r -> ptr_aligned (stored t addr v r).
Proof. unfold ptr_aligned, stored. cbn. by destruct (try_invalidate_data (addr - BASE_ADDR) r) as (_ & _ & ->). Qed.

Lemma store_all_wf t a y js r : ram_wf r -> ram_wf (store_all t a y js r).
Proof. revert r. induction js as [|j js IH]; intros r Hr; [done|]. by apply IH, stored_wf. Qed.

Lemma store_all_ptr t a y js r : ptr_aligned r -> ptr_aligned (store_all t a y js r).
Proof. revert r. induction js as [|j js IH]; intros r Hr; [done|]. by apply IH, stored_ptr. Qed.

(** A store leaves disjoint locations alone. *)
Lemma load_stored_other t addr addr' v r : addr' + size_of t <= addr \/ addr + size_of t <= addr' ->
  Ram.load_le (stored t addr v r) (addr' - BASE_ADDR) (nbytes t) = Ram.load_le r (addr' - BASE_ADDR) (nbytes t).
Proof.
  intros Hd. apply load_le_ext. intros j Hj. rewrite nbytes_size in Hj. unfold stored. rewrite byte_at_store.
  destruct (Z.leb_spec (addr - BASE_ADDR) j), (Z.ltb_spec j (addr - BASE_ADDR + size_of t)); cbn; try done; lia.
Qed.

Definition disjoint_addrs (t : UInt) (a : Z -> Z) (js : list Z) : Prop :=
  forall i j, i ∈ js -> j ∈ js -> i <> j -> a i + size_of t <= a j \/ a j + size_of t <= a i.

Lemma load_store_all_other t a y js r j : (forall i, i ∈ js -> a j + size_of t <= a i \/ a i + size_of t <= a j) ->
  Ram.load_le (store_all t a y js r) (a j - BASE_ADDR) (nbytes t) = Ram.load_le r (a j - BASE_ADDR) (nbytes t).
Proof.
  revert r. induction js as [|i js IH]; intros r Hd; [done|]. cbn [store_all foldl]. fold (store_all t a y js (stored t (a i) (y i) r)).
  rewrite IH by (intros; apply Hd; by right). apply load_stored_other. apply Hd. by left.
Qed.

Lemma load_store_all t a y js r j : j ∈ js -> NoDup js -> disjoint_addrs t a js -> uint (BITS t) (y j) ->
  Ram.load_le (store_all t a y js r) (a j - BASE_ADDR) (nbytes t) = y j.
Proof.
  intros Hin Hnd Hd Hu. revert r. induction js as [|i js IH]; intros r; [by apply list.not_elem_of_nil in Hin|].
  cbn [store_all foldl]. fold (store_all t a y js (stored t (a i) (y i) r)). apply list.NoDup_cons in Hnd as [Hni Hnd].
  apply list.elem_of_cons in Hin as [->|Hin].
  - rewrite load_store_all_other.
    + rewrite load_stored by apply Hu. by apply wrap_small.
    + intros k Hk. apply Hd; [by left|by right|]. intros ->. done.
  - apply IH; [done|done|]. intros k l Hk Hl. apply Hd; by right.
Qed.

#[global] Instance active_dec v em vstart j : Decision (active v em vstart j).
Proof. unfold active. apply _. Defined.

Section Store.
Context {D : Type} `{DeviceTrait D} `{Profile}.

Lemma bus_write_ram (b : MemoryMapIO D) t addr x : ptr_aligned (ram b) -> ram_access t addr ->
  write_by_type t addr x b = (Ok tt, set_ram b (stored t addr x (ram b))).
Proof.
  intros Hp Ha. destruct (ram_access_in t addr Ha) as (Hlo & Hin & Hal). unfold write_by_type, with_ram, zoom. rewrite Hlo.
  rewrite write_spec by done. by rewrite (proj2 (contains_access_spec _ _ (proj1 Hin)) Hin), Hal.
Qed.

Lemma bus_reads_ram (b : MemoryMapIO D) t addr : ptr_aligned (ram b) -> ram_wf (ram b) -> ram_access t addr ->
  bus_reads b t addr (Ram.load_le (ram b) (addr - BASE_ADDR) (nbytes t)).
Proof.
  intros Hp Hw Ha. destruct (ram_access_in t addr Ha) as (Hlo & Hin & Hal). split.
  - unfold read_by_type, with_ram, zoom. rewrite Hlo. rewrite read_spec by done.
    rewrite (proj2 (contains_access_spec _ _ (proj1 Hin)) Hin), Hal. by destruct b.
  - rewrite <- nbytes_bits. by apply load_le_range.
Qed.

Context (v : Vector) (Hr : vregs_ok (vector_regfile v)) (eew : Vsew) (vs : Z) (em : bool) (vstart base stride : Z) (step : option Z).
Abbreviation w := (into_byte_width eew).
Abbreviation lm := (group_regs v).
Abbreviation g := (group1 (vector_regfile v) vs w lm).
Abbreviation k := (cfg_mask v em 0).
Abbreviation addr := (VectorStrideAddrCal_exec base stride).
Abbreviation y := (reg_elem (vector_regfile v) w vs).
Hypothesis Hvs : legal lm vs.
Hypothesis Hstart : 0 <= vstart.
Hypothesis Hvl : 0 <= vl (config v) < 2 ^ 16.
Hypothesis Hstride : stride = default w step.

(** The elements a store from [lo] on writes. *)
Definition stored_elems (lo : Z) : list Z := filter (active v em 0) (seqZ lo (vlmax w lm - lo)).

Definition store_body (i element : Z) : M (MemoryMapIO D) VectorMemException bool :=
  if vl (config v) <=? i then ret false
  else if negb (should_access k i) then ret true
  else store_element (ty_of eew) k g i element (addr i) ;;; ret true.

Lemma elem_get_run {S E} i (s : S) : 0 <= i < vlmax w lm -> elem_get (E := E) (ty_of eew) g (offset_at g i) s = (Ok (y i), s).
Proof.
  intros Hi. destruct (legal_bound lm vs Hvs) as (Hm & _). pose proof (into_byte_width_ok eew) as Hw.
  destruct (vlmax_bound w lm i Hw Hm Hi). assert (0 < w) by (unfold width_ok in Hw; lia).
  unfold elem_get. rewrite size_of_ty, group1_offset. cbn [sew value group1]. rewrite Z.eqb_refl, length_group_bytes by done.
  erewrite bind_Ok by apply debug_assert_true. rewrite (proj2 (Z.leb_le 0 _)), (proj2 (Z.leb_le (i * w + w) _)) by lia.
  erewrite bind_Ok by reflexivity. unfold ret. by rewrite load_group by (done || lia).
Qed.

Lemma store_body_active i (b : MemoryMapIO D) : 0 <= i < vlmax w lm -> active v em 0 i -> ptr_aligned (ram b) -> ram_access (ty_of eew) (addr i) ->
  store_body i (offset_at g i) b = (Ok true, set_ram b (stored (ty_of eew) (addr i) (y i) (ram b))).
Proof.
  intros Hi Ha Hp Hacc. unfold store_body. pose proof Ha as [Hv _]. rewrite (proj2 (Z.leb_gt _ _)) by lia.
  assert (should_access k i = true) as Hs by (by apply (access_active v eew em)). rewrite Hs. cbn [negb].
  unfold store_element. unfold should_access in Hs. rewrite Hs. erewrite bind_Ok; [reflexivity|].
  erewrite bind_Ok by (by apply elem_get_run). unfold map_err. by rewrite bus_write_ram.
Qed.

Lemma store_loop n lo (b : MemoryMapIO D) : Z.of_nat n = Z.max 0 (vlmax w lm - lo) -> 0 <= lo -> ptr_aligned (ram b) ->
  (forall i, lo <= i < vlmax w lm -> active v em 0 i -> ram_access (ty_of eew) (addr i)) ->
  for_enumerate_break lo (offset_at g <$> seqZ lo (vlmax w lm - lo)) store_body b =
    (Ok tt, set_ram b (store_all (ty_of eew) addr y (stored_elems lo) (ram b))).
Proof.
  revert lo b. induction n as [|n IH]; intros lo b Hn Hlo Hp Hacc; unfold stored_elems.
  { rewrite seqZ_nil by lia. cbn. by destruct b. }
  rewrite (seqZ_cons lo) by lia. cbn [fmap list_fmap for_enumerate_break].
  replace (Z.pred (vlmax w lm - lo)) with (vlmax w lm - (lo + 1)) by lia. replace (Z.succ lo) with (lo + 1) by lia.
  rewrite filter_cons. fold (stored_elems (lo + 1)). destruct (decide (active v em 0 lo)) as [Ha|Hn'].
  - erewrite bind_Ok by (apply store_body_active; [lia|done|done|apply Hacc; [lia|done]]).
    rewrite (IH (lo + 1)); [done|lia|lia|by apply stored_ptr|intros i Hi; apply Hacc; lia].
  - unfold store_body at 1. destruct (Z.leb_spec (vl (config v)) lo) as [Hge|Hlt].
    + erewrite bind_Ok by reflexivity. assert (stored_elems (lo + 1) = []) as ->; [|by destruct b].
      apply elem_of_nil_inv. intros j [[Hv _] Hj%elem_of_seqZ]%list_elem_of_filter. lia.
    + assert (should_access k lo = false) as ->.
      { apply not_true_is_false. rewrite (access_active v eew em) by (done || lia). done. }
      erewrite bind_Ok by reflexivity. apply IH; [lia|lia|done|intros i Hi; apply Hacc; lia].
Qed.

Lemma stride_store_run (b : MemoryMapIO D) : ptr_aligned (ram b) ->
  (forall i, vstart <= i < vlmax w lm -> active v em 0 i -> ram_access (ty_of eew) (addr i)) ->
  stride_store vs eew 1 step em vstart base (v, b) =
    (Ok tt, (v, set_ram b (store_all (ty_of eew) addr y (stored_elems vstart) (ram b)))).
Proof.
  intros Hp Hacc. unfold stride_store. erewrite bind_Ok by reflexivity. cbn [fst]. fold (group_regs v).
  erewrite bind_Ok by (unfold vs_group, get_ref, read_as_type; rewrite Z.mul_1_r; erewrite bind_Ok; [reflexivity|];
    unfold map_err; by erewrite bind_Ok by (by apply group_offset_ok)).
  erewrite bind_Ok by (by apply op_mask_run). rewrite <- Hstride, Z.mul_1_r. fold g. rewrite drop_offsets by done.
  unfold on_bus, zoom. cbn [fst snd]. pose proof (store_loop (Z.to_nat (Z.max 0 (vlmax w lm - vstart))) vstart b ltac:(lia) Hstart Hp Hacc) as Hl.
  unfold store_body in Hl. by rewrite Hl.
Qed.
End Store.

(** ** The instructions *)
Section RoundTrip.
Context {D X : Type} `{DeviceTrait D} `{Profile} `{HasVector X}.
Implicit Types c : RVCPU D X.

Lemma vec_retired_wf v c : vec_ok v -> cpu_wf c -> cpu_wf (vec_retired (reg_file c) v c).
Proof.
  intros Hv [R P S M I T _]. constructor; [exact R|by apply (wrap_range 64)| |exact M|exact I|exact T|].
  2: { unfold ext_ok, vector_ext_ok. cbn. by rewrite vector_of_set. }
  apply upd_wf; [|by split]. by apply counter_upd_wf.
Qed.

Lemma set_bus_wf b c : cpu_wf c -> vm_ok (memory (set_bus b c)) -> cpu_wf (set_bus b c).
Proof. intros [R P S M I T V] Hm. by constructor. Qed.

(** A unit-stride store to RAM. *)
Lemma vector_store_run nfields eew rs1 vs3 vm func6 c : let v := vec_of c in let base := reg_file c !!! Z.to_nat rs1 in
  vload_ready eew vs3 c -> counter_ok c -> reg_ok rs1 -> strided_encoding false 0 func6 -> ptr_aligned (ram (bus_of c)) ->
  (forall j, vstart_of c <= j < vlmax (into_byte_width eew) (group_regs v) -> active v (negb vm) 0 j ->
     ram_access (ty_of eew) (VectorStrideAddrCal_exec base (into_byte_width eew) j)) ->
  exists exec, vector_exec_func (VSE nfields eew) = Some exec /\
    exec (IV rs1 0 vs3 vm func6) c = (Ok tt, vec_retired (reg_file c) v (set_bus (set_ram (bus_of c)
      (store_all (ty_of eew) (VectorStrideAddrCal_exec base (into_byte_width eew)) (reg_elem (vector_regfile v) (into_byte_width eew) vs3)
         (stored_elems v eew (negb vm) (vstart_of c)) (ram (bus_of c)))) c)).
Proof.
  intros v base [Hc Hr Hon Hvl Hvd] Hov Hr1 (Hnf & Hmop & _) Hp Hacc. assert (reg_ok 0) by done.
  eexists. split; [reflexivity|]. pose proof (wf_csr c Hc) as Hcsr.
  pose proof (stride_store_run v Hr eew vs3 (negb vm) (vstart_of c) base (into_byte_width eew) None Hvd (vstart_nonneg c Hc) Hvl eq_refl
    (bus_of c) Hp Hacc) as Hrun.
  etransitivity; [apply normal_vector_ends; [exact Hcsr|exact Hon| | |]|].
  - unfold with_v. rewrite Hmop. erewrite bind_Ok by apply debug_assert_true. erewrite bind_Ok by apply debug_assert_true.
    erewrite bind_Ok by (by apply vmem_regs_run). cbn [fst snd]. rewrite Hnf. exact (on_vmem_run _ c _ _ _ Hrun).
  - exact Hcsr.
  - exact Hov.
  - unfold v. by destruct c.
Qed.

Lemma stored_elems_spec v eew em lo j : j ∈ stored_elems v eew em lo <->
  active v em 0 j /\ lo <= j < vlmax (into_byte_width eew) (group_regs v).
Proof. unfold stored_elems. rewrite list_elem_of_filter, elem_of_seqZ. intuition lia. Qed.

Lemma stored_elems_NoDup v eew em lo : NoDup (stored_elems v eew em lo).
Proof. apply list.NoDup_filter, NoDup_seqZ. Qed.

(** What a retired vector instruction leaves for the next one. *)
Lemma counter_after_vec v b c : csr_wf (csr c) -> (overflow_checks = true -> val (csr c) Minstret + 2 < 2 ^ 64) ->
  counter_ok (vec_retired (reg_file c) v (set_bus b c)).
Proof.
  intros Hwf Hov Ho. specialize (Hov Ho). unfold vec_retired. cbn [csr set_csr]. rewrite val_upd_ne by discriminate.
  change (csr (retired _ _ _)) with (upd Minstret ((val (csr c) Minstret + 1) mod 2 ^ 64) (csr c)).
  rewrite val_upd_eq by (done || (apply known_of; reflexivity)). pose proof (val_u64 (csr c) Minstret Hwf) as [? _].
  rewrite Z.mod_small by lia. lia.
Qed.

Lemma pc_twice r v r' v' c : pc (vec_retired r v (vec_retired r' v' c)) = (pc c + 8) mod 2 ^ 64.
Proof. cbn. rewrite Zplus_mod_idemp_l. f_equal. lia. Qed.

Lemma vreg_uint v eew idx j : vregs_ok (vector_regfile v) -> uint (BITS (ty_of eew)) (reg_elem (vector_regfile v) (into_byte_width eew) idx j).
Proof.
  intros [_ Hb]. replace (BITS (ty_of eew)) with (8 * into_byte_width eew) by (by destruct eew). apply elem_load_range; [by destruct eew|done].
Qed.

(** The addresses of a unit-stride access that does not leave RAM. *)
Section Unit.
Context (eew : Vsew) (v : Vector) (em : bool) (base : Z).
Abbreviation addr := (VectorStrideAddrCal_exec base (into_byte_width eew)).
Hypothesis Hacc : forall j, 0 <= j < vlmax (into_byte_width eew) (group_regs v) -> active v em 0 j ->
  ram_access (ty_of eew) (base + j * into_byte_width eew).

Lemma unit_addr j : j ∈ stored_elems v eew em 0 -> addr j = base + j * into_byte_width eew.
Proof.
  intros [Ha Hj]%stored_elems_spec. rewrite stride_addr. destruct (Hacc j Hj Ha) as (Hlo & Hhi & _). apply Z.mod_small.
  pose proof (size_of_ty eew). pose proof (into_byte_width_ok eew) as Hw. unfold width_ok in Hw.
  assert (BASE_ADDR + SIZE < 2 ^ 64) by (vm_compute; reflexivity). assert (0 <= BASE_ADDR) by (vm_compute; discriminate). lia.
Qed.

Lemma unit_disjoint : disjoint_addrs (ty_of eew) addr (stored_elems v eew em 0).
Proof.
  intros i j Hi Hj Hne. rewrite !unit_addr, size_of_ty by done. pose proof (into_byte_width_ok eew) as Hw. unfold width_ok in Hw.
  destruct (Z.lt_total i j) as [|[|]]; [left|done|right]; nia.
Qed.
End Unit.

(** C19: Vector memory round trip: started with vstart = 0, a unit-stride store of a
    register group to RAM followed by the unit-stride load of the same shape
    into any other group, at the same address and under the same mask, copies
    every active element bit for bit; masked-off and tail elements of the
    destination follow the load's policies.  Both instructions retire.  The
    addresses of the active elements lie in RAM and are aligned to the element
    (a misaligned one traps), the register groups are legal, the RAM buffer is
    8-byte aligned on the host, and with overflow checks [minstret] is not
    about to overflow. *)
Theorem vector_store_load_roundtrip n1 n2 eew rs1 vs3 rd vm func6 c :
  vload_ready eew rd c -> legal (group_regs (vec_of c)) vs3 -> reg_ok rs1 -> strided_encoding false 0 func6 ->
  vstart_of c = 0 -> (overflow_checks = true -> val (csr c) Minstret + 2 < 2 ^ 64) -> ptr_aligned (ram (bus_of c)) ->
  (forall j, 0 <= j < vlmax (into_byte_width eew) (group_regs (vec_of c)) -> active (vec_of c) (negb vm) 0 j ->
     ram_access (ty_of eew) (reg_file c !!! Z.to_nat rs1 + j * into_byte_width eew)) ->
  let v := vec_of c in
  exists store load c2, vector_exec_func (VSE n1 eew) = Some store /\ vector_exec_func (VLE n2 eew) = Some load /\
    (store (IV rs1 0 vs3 vm func6) ;;; load (IV rs1 0 rd vm func6)) c = (Ok tt, c2) /\
    pc c2 = (pc c + 8) mod 2 ^ 64 /\ reg_file c2 = reg_file c /\
    vd_written v (vec_of c2) rd (into_byte_width eew) (group_regs v)
      (fun j => arch_value 0 v (negb vm) 0 (reg_elem (vector_regfile v) (into_byte_width eew) vs3 j) j).
Proof.
  intros Hready Hvs Hr1 Henc Hst Hov Hp Hacc v. pose proof Hready as [Hc Hr Hon Hvl Hvd]. set (w := into_byte_width eew) in *.
  set (base := reg_file c !!! Z.to_nat rs1) in *. set (a := VectorStrideAddrCal_exec base w).
  assert (Hov1 : counter_ok c) by (intros Ho; specialize (Hov Ho); lia).
  assert (Haddr : forall j, 0 <= j < vlmax w (group_regs v) -> active v (negb vm) 0 j -> ram_access (ty_of eew) (a j)).
  { intros j Hj Ha. unfold a, w. rewrite (unit_addr eew v (negb vm)); [by apply Hacc|done|by apply stored_elems_spec]. }
  assert (Hready1 : vload_ready eew vs3 c) by (constructor; assumption).
  destruct (vector_store_run n1 eew rs1 vs3 vm func6 c Hready1 Hov1 Hr1 Henc Hp) as (st & Hst1 & Hrun1); [rewrite Hst; exact Haddr|].
  rewrite Hst in Hrun1. fold v w base a in Hrun1. set (r' := store_all _ _ _ _ _) in Hrun1. set (c1 := set_bus _ c) in Hrun1.
  set (c2 := vec_retired (reg_file c) v c1) in Hrun1. assert (Hcsr : csr_wf (csr c)) by (by apply wf_csr).
  assert (Hv2 : vec_of c2 = v) by apply vector_of_set.
  assert (Hst2 : vstart_of c2 = 0).
  { unfold vstart_of, c2, vec_retired. cbn [csr set_csr]. apply val_upd_eq; [by apply counter_upd_wf|apply (known_vec Vstart eq_refl)]. }
  assert (Hready2 : vload_ready eew rd c2).
  { constructor; rewrite ?Hv2; try assumption.
    - apply (vec_retired_wf v c1), set_bus_wf; [apply (wf_vec c Hc)|done|]. apply store_all_wf, (wf_mem c Hc).
    - unfold vs_on, c2, vec_retired. cbn [csr set_csr retired]. rewrite !val_upd_ne by discriminate. exact Hon. }
  destruct (vector_load_run (VLE n2 eew) eew false rs1 0 rd vm func6 c2 (reg_elem (vector_regfile v) w vs3)) as (ld & v3 & Hld & Hrun2 & Hw2);
    [reflexivity|exact Hready2| |exact Hr1|done|exact Henc| |].
  - apply counter_after_vec; [done|exact Hov].
  - rewrite Hv2, Hst2. intros j Hj Ha. unfold elem_addr. change (reg_file c2) with (reg_file c). fold base w. rewrite <- stride_addr. fold (a j).
    assert (Hin : j ∈ stored_elems v eew (negb vm) 0) by (by apply stored_elems_spec).
    replace (reg_elem (vector_regfile v) w vs3 j) with (Ram.load_le r' (a j - BASE_ADDR) (nbytes (ty_of eew))).
    + apply bus_reads_ram; [by apply store_all_ptr|apply store_all_wf, (wf_mem c Hc)|by apply Haddr].
    + apply load_store_all; [done|apply stored_elems_NoDup|by apply (unit_disjoint eew v (negb vm) base)|apply vreg_uint; exact Hr].
  - exists st, ld, (vec_retired (reg_file c) v3 c2). split; [exact Hst1|]. split; [exact Hld|]. split; [by erewrite bind_Ok by exact Hrun1|].
    split; [exact (pc_twice (reg_file c) v3 (reg_file c) v c1)|]. split; [reflexivity|]. rewrite Hv2, Hst2 in Hw2.
    replace (vec_of (vec_retired (reg_file c) v3 c2)) with v3 by (symmetry; apply vector_of_set). exact Hw2.
Qed.
End RoundTrip.

(** ** Concrete instances *)

(** Four 32-bit elements through RAM at 0x80005000. *)
Definition demo_copy : RVCPU Z Vector := demo_vec_hart (demo_vector E32 M1 false false 4) [].

Lemma vector_store_load_roundtrip_witness :
  let D := demo_device in let P := dev in let c := demo_copy in
  exists store load c2, vector_exec_func (VSE 1 E32) = Some store /\ vector_exec_func (VLE 1 E32) = Some load /\
    (store (IV 1 0 4 true 0) ;;; load (IV 1 0 9 true 0)) c = (Ok tt, c2) /\ pc c2 = 0x80000008 /\ reg_file c2 = reg_file c /\
    vd_written (vec_of c) (vec_of c2) 9 4 (group_regs (vec_of c))
      (fun j => arch_value 0 (vec_of c) false 0 (reg_elem (vector_regfile (vec_of c)) 4 4 j) j).
Proof.
  intros D P. apply (vector_store_load_roundtrip 1 1 E32 1 4 9 true 0 demo_copy).
  - constructor; [apply demo_vec_wf; [by apply demo_vec_ok|constructor]|apply demo_vregs|vm_compute; discriminate|vm_compute; split; [discriminate|reflexivity]|].
    vm_compute. split; [reflexivity|]. split; [split; [discriminate|reflexivity]|reflexivity].
  - vm_compute. split; [reflexivity|]. split; [split; [discriminate|reflexivity]|reflexivity].
  - vm_compute. split; [discriminate|reflexivity].
  - vm_compute. split; [reflexivity|split; [reflexivity|reflexivity]].
  - vm_compute. reflexivity.
  - intros _. vm_compute. reflexivity.
  - exists 512. vm_compute. reflexivity.
  - intros j Hj _. change (vlmax (into_byte_width E32) (group_regs (vec_of demo_copy))) with 4 in Hj.
    assert (j = 0 \/ j = 1 \/ j = 2 \/ j = 3) as [-> | [-> | [-> | ->]]] by lia;
      (split; [vm_compute; discriminate|]; split; [vm_compute; discriminate|]).
    + exists 0x20001400. reflexivity.
    + exists 0x20001401. reflexivity.
    + exists 0x20001402. reflexivity.
    + exists 0x20001403. reflexivity.
Defined.
