(* ===== verification/VectorPermSpec.v ===== *)
(** * Slides, gathers and compress

    The instructions that move elements within a register group.  [isa_vpermute]
    gives the source of each destination element; [vector_compress_correct]
    says that vcompress packs the selected elements. *)

From S2P Require Import Prelude Utils TrapTypes Alu Ram CsrTable Csr PageTable Mmio Vm Instr Cpu Trap Exec Invariant ExecSpec Vector VectorInt VectorArith VectorFix VectorExec VectorMap VectorSpec VectorHart VectorAluSpec VectorMaskSpec VectorWideSpec.

(** ** Reference

    The new value of element [j] of the destination, [None] when it is kept:
    [src] are the elements of vs2, of which there are [n]; [x] is the scalar or
    immediate, [ix] the elements of vs1, [len] the vector length and [w] the
    element width in bits. *)
Definition isa_vpermute (i : VInstr) : option (Z -> Z -> Z -> (Z -> Z) -> Z -> (Z -> Z) -> Z -> option Z) :=
  let at_ n (src : Z -> Z) k := if k <? n then src k else 0 in
  match i with
  | VSLIDEUP_VX | VSLIDEUP_VI => Some (fun w n len ix x src j => if j <? x then None else Some (src (j - x)))
  | VSLIDEDOWN_VX | VSLIDEDOWN_VI => Some (fun w n len ix x src j => Some (at_ n src (j + x)))
  | VSLIDE1UP_VX => Some (fun w n len ix x src j => Some (if j =? 0 then x mod 2 ^ w else src (j - 1)))
  | VSLIDE1DOWN_VX => Some (fun w n len ix x src j => Some (if j =? len - 1 then x mod 2 ^ w else at_ n src (j + 1)))
  | VRGATHER_VV => Some (fun w n len ix x src j => Some (at_ n src (ix j)))
  | VRGATHER_VX | VRGATHER_VI => Some (fun w n len ix x src j => Some (at_ n src x))
  | _ => None
  end.

Definition perm_operand (i : VInstr) : VOperand :=
  match i with
  | VSLIDEUP_VX | VSLIDEDOWN_VX | VSLIDE1UP_VX | VSLIDE1DOWN_VX | VRGATHER_VX => ORs1
  | VSLIDEUP_VI | VSLIDEDOWN_VI | VRGATHER_VI => OUimm
  | _ => OVs1
  end.

(** Register groups that share no register. *)
Definition apart (lm a b : Z) : Prop := a + lm <= b \/ b + lm <= a.

Lemma apart_overlap lm a b : legal lm a -> legal lm b -> apart lm a b -> vector_register_group_overlaps a lm b lm = false.
Proof.
  intros La Lb Hab. destruct (legal_bound lm a La), (legal_bound lm b Lb). unfold vector_register_group_overlaps, saturating_add, apart in *.
  apply andb_false_iff. rewrite !Z.ltb_ge. lia.
Qed.

Inductive PShape : Type := PSlideUp | PSlideDown | PSlide1Up | PSlide1Down | PGatherVV | PGatherVX.

Definition perm_shape (i : VInstr) : option PShape :=
  match i with
  | VSLIDEUP_VX | VSLIDEUP_VI => Some PSlideUp
  | VSLIDEDOWN_VX | VSLIDEDOWN_VI => Some PSlideDown
  | VSLIDE1UP_VX => Some PSlide1Up
  | VSLIDE1DOWN_VX => Some PSlide1Down
  | VRGATHER_VV => Some PGatherVV
  | VRGATHER_VX | VRGATHER_VI => Some PGatherVX
  | _ => None
  end.

Section Drivers.
Context `{Profile}.

Definition pdriver (s : PShape) (vs1 x vs2 vd : Z) (em : bool) (vstart : Z) : M Vector Exception unit :=
  match s with
  | PSlideUp => exec_integer_slideup SlideUp x vs2 vd em vstart
  | PSlideDown => exec_integer_slidedown SlideDown x vs2 vd em vstart
  | PSlide1Up => exec_integer_slideup Slide1Up x vs2 vd em vstart
  | PSlide1Down => exec_integer_slidedown Slide1Down x vs2 vd em vstart
  | PGatherVV => exec_integer_gather_vv RGatherVV vs1 vs2 vd em vstart
  | PGatherVX => exec_integer_gather_vx RGatherVX x vs2 vd em vstart
  end.

Context (v : Vector) (Hr : vregs_ok (vector_regfile v)).
Abbreviation ew := (elem_bytes v).
Abbreviation lm := (group_regs v).
Abbreviation rf := (vector_regfile v).
Abbreviation n := (vlmax ew lm).

(** [vs2.get(k)] *)
Lemma slice_get idx k : legal lm idx -> 0 <= k ->
  default 0 (lookup_z (elements ew (value (group1 rf idx ew lm))) k) = if k <? n then reg_elem rf ew idx k else 0.
Proof.
  intros Hl Hk. pose proof (w_ok v) as Hw. destruct (legal_bound lm idx Hl) as (Hm & _). destruct (Z.ltb_spec k n).
  - pose proof (at_source (S := unit) (E := unit) rf idx ew lm k tt Hr Hl Hw ltac:(lia)) as Hat. unfold at_, unwrap in Hat.
    destruct (lookup_z _ k); [by injection Hat as ->|done].
  - destruct (lookup_z _ k) as [y|] eqn:E; [|done]. apply lookup_z_Some in E as [Hlt _]. rewrite slice_length in Hlt by done. lia.
Qed.

(** An index as the code adds it. *)
Lemma add_index {S E} j x (s : S) : 0 <= j < 128 -> 0 <= x -> x + 128 <= 2 ^ 64 -> add_chk (E := E) 64 j x s = (Ok (j + x), s).
Proof.
  intros Hj Hx Hs. unfold add_chk. rewrite (proj2 (Z.leb_gt (2 ^ 64) (j + x))), andb_false_r by lia.
  unfold ret. f_equal. f_equal. apply wrap_small. unfold uint. lia.
Qed.

(** What each operation computes. *)
Definition psem (s : PShape) (vs1 x vs2 j : Z) : option Z :=
  let src k := if k <? n then reg_elem rf ew vs2 k else 0 in
  match s with
  | PSlideUp => if j <? x then None else Some (src (j - x))
  | PSlideDown => Some (src (j + x))
  | PSlide1Up => Some (if j =? 0 then x mod 2 ^ (8 * ew) else src (j - 1))
  | PSlide1Down => Some (if (j <? vl (config v)) && negb (j + 1 <? vl (config v)) then x mod 2 ^ (8 * ew) else src (j + 1))
  | PGatherVV => Some (src (reg_elem rf ew vs1 j))
  | PGatherVX => Some (src x)
  end.

Lemma reg_elem_range idx j : uint (8 * ew) (reg_elem rf ew idx j).
Proof. rewrite <- elem_ty_bits. by apply reg_elem_uint. Qed.

Lemma psem_range s vs1 x vs2 j y : psem s vs1 x vs2 j = Some y -> uint (8 * ew) y.
Proof.
  pose proof (elem_bits v). assert (uint (8 * ew) 0) as Hz by (split; [lia|apply Z.pow_pos_nonneg; lia]).
  assert (forall k, uint (8 * ew) (if k <? n then reg_elem rf ew vs2 k else 0)) as Hsrc by (intros k; destruct (k <? n); [apply reg_elem_range|done]).
  assert (uint (8 * ew) (x mod 2 ^ (8 * ew))) as Hx by (apply wrap_range; lia).
  destruct s; cbn; try (destruct (j <? x)); intros [= <-]; try done; by case_match.
Qed.

Definition perm_written (s : PShape) (vs1 x vs2 vd : Z) (em : bool) (vstart : Z) (v' : Vector) : Prop :=
  vd_written v v' vd ew lm (fun j => y ← psem s vs1 x vs2 j; arch_value 0 v em vstart y j).

(** The slide that keeps the elements below the offset. *)
Lemma slideup_run x vs2 vd em vstart : legal lm vs2 -> legal lm vd -> 0 <= x ->
  exists v', into_vd vd ew lm (vector_op_slideup (elem_ty v) x (group1 rf vs2 ew lm) (cfg_mask v em vstart)) v = (Ok tt, v') /\
    perm_written PSlideUp 0 x vs2 vd em vstart v'.
Proof.
  intros L2 Ld Hx. destruct (legal_bound lm vd Ld) as (Hm & _). pose proof (w_ok v) as Hw. apply into_vd_run; [done..|].
  set (g := group1 rf vd ew lm). assert (shape_ok g) as Hshape by (by apply group1_shape).
  destruct (for_enumerate_elements (E := Exception) (set_value g) g
    (fun i => if i <? x then None else arch_value 0 v em vstart (if i - x <? n then reg_elem rf ew vs2 (i - x) else 0) i)
    (fun index element => if index <? x then ret tt else element_load (elem_ty v) (cfg_mask v em vstart) element
       (default 0 (lookup_z (elements ew (value (group1 rf vs2 ew lm))) (index - x))) index) 0 (total_elements g) Hshape ltac:(lia))
    with (b := value g) as (b & Hrun & Hf & Hb & He).
  - intros i b Hi Hfb. destruct (Z.ltb_spec i x); [done|]. unfold g in Hi. rewrite group1_total in Hi.
    rewrite slice_get, <- mask_value_arch by (done || lia || by apply (vlmax_128 v); lia).
    apply element_load_run; [done|symmetry; apply elem_ty_size|done|unfold g; rewrite group1_total; lia].
  - apply group1_fits. by apply length_group_bytes.
  - exists b. unfold vector_op_slideup. erewrite bind_Ok by (apply as_slice_run; symmetry; apply elem_ty_size). erewrite bind_Ok by reflexivity.
    cbn beta. change (id g) with g. rewrite iter_spec by done. rewrite Z.sub_0_r in Hrun.
    replace (set_value g (value g)) with g in Hrun by done. change (sew (group1 rf vs2 ew lm)) with ew. rewrite Hrun. split_and!; [done|by apply group1_fits in Hf|done|].
    intros j Hj. specialize (He j). unfold g in He. rewrite group1_total, !group1_elem in He. rewrite He by done.
    rewrite decide_True by done. cbn [value group1 sew]. destruct (vlmax_bound ew lm j Hw Hm Hj). assert (0 < ew) by (unfold width_ok in Hw; lia).
    rewrite load_group by (done || lia). fold (reg_elem rf ew vd j). unfold psem. destruct (j <? x); [done|]. cbn.
    destruct (arch_value _ _ _ _ _ _) as [y|] eqn:Ey; [|done]. cbn. apply wrap_small.
    revert Ey. unfold arch_value. assert (uint (8 * ew) 0) by (pose proof (elem_bits v); split; [lia|apply Z.pow_pos_nonneg; lia]).
    repeat (case_match; try discriminate); intros [= <-]; try done; apply reg_elem_range.
Qed.

(** Entering an operation on the elements of the destination. *)
Ltac run_entry :=
  erewrite bind_Ok by reflexivity; cbn beta; unfold id; cbn [sew group1]; rewrite ?Z.eqb_refl; cbn [andb];
  erewrite bind_Ok by reflexivity; cbn beta; cbn [sew group1]; rewrite ?dispatch_elem.

Lemma load_perm op f s vs1 x vs2 vd em vstart : legal lm vd ->
  (forall g, g = group1 rf vd ew lm -> op g = load_elements (elem_ty v) (cfg_mask v em vstart) f g) ->
  (forall i st, 0 <= i < n -> exists y, f i st = (Ok y, st) /\ psem s vs1 x vs2 i = Some y) ->
  exists v', into_vd vd ew lm op v = (Ok tt, v') /\ perm_written s vs1 x vs2 vd em vstart v'.
Proof.
  intros Ld Hop Hf. destruct (load_group_vd v Hr op f (fun j => default 0 (psem s vs1 x vs2 j)) vd em vstart Ld Hop) as (v' & Hrun & Hw).
  - intros i st Hi. destruct (Hf i st Hi) as (y & Hy & Hs). rewrite Hs. cbn. split; [done|by eapply psem_range].
  - exists v'. split; [done|]. eapply vd_written_ext; [|exact Hw]. intros j Hj. cbn beta.
    destruct (Hf j (group1 rf vd ew lm) Hj) as (y & _ & Hs). by rewrite Hs.
Qed.

Lemma pdriver_run s vs1 x vs2 vd em vstart : legal lm vs2 -> legal lm vd -> apart lm vd vs2 ->
  (s = PGatherVV -> legal lm vs1 /\ apart lm vd vs1) -> 0 <= x -> (s = PSlideDown -> x + 128 <= 2 ^ 64) ->
  exists v', pdriver s vs1 x vs2 vd em vstart v = (Ok tt, v') /\ perm_written s vs1 x vs2 vd em vstart v'.
Proof.
  intros L2 Ld Ha H1 Hx Hbig. pose proof (apart_overlap lm vd vs2 Ld L2 Ha) as Hno. pose proof (w_ok v) as Hw.
  pose proof Hno as Hno'. unfold vector_register_group_overlaps in Hno'.
  assert (Et : truncate_from (elem_ty v) x = x mod 2 ^ (8 * ew)) by (unfold truncate_from; by rewrite elem_ty_bits).
  destruct s; cbn [pdriver]; unfold exec_integer_slidedown, exec_integer_slideup, exec_integer_gather_vx, exec_integer_gather_vv;
    run_operands; rewrite ?Hno, ?Hno'; unfold exec_integer_vx, exec_integer_vxv.
  - run_operands. destruct (slideup_run x vs2 vd em vstart L2 Ld Hx) as (v' & Hrun & Hwr). exists v'. split; [|done].
    rewrite into_vd_unfold in Hrun |- * by done. rewrite <- Hrun.
    assert (forall g, g = group1 rf vd ew lm -> SlideUp x (group1 rf vs2 ew lm) (group1 rf vd ew lm) (cfg_mask v em vstart) g =
      vector_op_slideup (elem_ty v) x (group1 rf vs2 ew lm) (cfg_mask v em vstart) g) as E by (intros g ->; unfold SlideUp; by run_entry).
    by rewrite (E _ eq_refl).
  - run_operands. eapply load_perm; [done| |].
    + intros g ->. unfold SlideDown. run_entry. unfold vector_op_slidedown.
      erewrite bind_Ok by (apply as_slice_run; symmetry; apply elem_ty_size). reflexivity.
    + intros i st Hi. eexists. cbn beta. erewrite bind_Ok by (apply add_index; [by apply (vlmax_128 v)|done|by apply Hbig]).
      split; [reflexivity|]. unfold psem. f_equal. symmetry. apply slice_get; (done || lia).
  - run_operands. eapply load_perm; [done| |].
    + intros g ->. unfold Slide1Up. run_entry. unfold vector_op_slide1up.
      erewrite bind_Ok by (apply as_slice_run; symmetry; apply elem_ty_size). reflexivity.
    + intros i st Hi. eexists. split; [reflexivity|]. unfold psem. rewrite <- Et. f_equal. destruct (Z.eqb_spec i 0); [done|]. symmetry. apply slice_get; (done || lia).
  - run_operands. eapply load_perm; [done| |].
    + intros g ->. unfold Slide1Down. run_entry. unfold vector_op_slide1down.
      erewrite bind_Ok by (apply as_slice_run; symmetry; apply elem_ty_size). reflexivity.
    + intros i st Hi. eexists. split; [reflexivity|]. unfold psem. rewrite <- Et. f_equal.
      change (is_body_index (cfg_mask v em vstart)) with (fun k => k <? vl (config v)). cbn beta. destruct ((i <? vl (config v)) && negb (i + 1 <? vl (config v))); [done|]. symmetry. apply slice_get; (done || lia).
  - destruct (H1 eq_refl) as [L1 Ha1]. rewrite (apart_overlap lm vd vs1 Ld L1 Ha1). cbn [orb]. run_operands. eapply load_perm; [done| |].
    + intros g ->. unfold RGatherVV. run_entry. unfold vector_op_gather_vv.
      do 2 erewrite bind_Ok by (apply as_slice_run; symmetry; apply elem_ty_size). reflexivity.
    + intros i st Hi. eexists. cbn beta. erewrite bind_Ok by (apply at_source; done). split; [reflexivity|].
      unfold psem. f_equal. symmetry. apply slice_get; [done|apply reg_elem_range].
  - run_operands. eapply load_perm; [done| |].
    + intros g ->. unfold RGatherVX. run_entry. unfold vector_op_gather_vx.
      erewrite bind_Ok by (apply as_slice_run; symmetry; apply elem_ty_size). reflexivity.
    + intros i st Hi. eexists. split; [reflexivity|]. unfold psem. f_equal. symmetry. by apply slice_get.
Qed.
End Drivers.

(** ** The instructions *)
Section Instructions.
Context {D X : Type} `{DeviceTrait D} `{Profile} `{HasVector X}.
Implicit Types c : RVCPU D X.

Definition perm_scalar (i : VInstr) c (rs1 : Z) : Z :=
  match perm_operand i with ORs1 => reg_file c !!! Z.to_nat rs1 | _ => rs1 end.

Lemma isa_psem i f s v vs1 x vs2 j : isa_vpermute i = Some f -> perm_shape i = Some s -> 0 <= x ->
  0 <= j < vlmax (elem_bytes v) (group_regs v) ->
  f (8 * elem_bytes v) (vlmax (elem_bytes v) (group_regs v)) (vl (config v)) (reg_elem (vector_regfile v) (elem_bytes v) vs1) x
    (reg_elem (vector_regfile v) (elem_bytes v) vs2) j = psem v s vs1 x vs2 j.
Proof.
  intros Hf Hs Hx Hj. destruct i; try discriminate Hf; injection Hf as <-; injection Hs as <-; cbn [psem]; try done.
  - destruct (Z.ltb_spec j x); [done|]. by rewrite (proj2 (Z.ltb_lt (j - x) _)) by lia.
  - destruct (Z.ltb_spec j x); [done|]. by rewrite (proj2 (Z.ltb_lt (j - x) _)) by lia.
  - destruct (Z.eqb_spec j 0); [done|]. by rewrite (proj2 (Z.ltb_lt (j - 1) _)) by lia.
  - destruct (Z.eqb_spec j (vl (config v) - 1)), (Z.ltb_spec j (vl (config v))), (Z.ltb_spec (j + 1) (vl (config v))); cbn; try done; lia.
Qed.

Definition perm_body (i : VInstr) (s : PShape) (vstart rs1 rs2 rd : Z) (vm : bool) : M (RVCPU D X) Exception unit :=
  let run x := on_vector (pdriver s rs1 x rs2 rd (negb vm) vstart) in
  match i with
  | VSLIDEUP_VX | VRGATHER_VX => x <- read_x rs1 ;; illegal_if (rd =? rs2) (run x)
  | VSLIDEDOWN_VX | VSLIDE1UP_VX | VSLIDE1DOWN_VX => x <- read_x rs1 ;; run x
  | VRGATHER_VV => illegal_if ((rd =? rs2) || (rd =? rs1)) (run rs1)
  | VRGATHER_VI => illegal_if (rd =? rs2) (run rs1)
  | _ => run rs1
  end.

Lemma dispatch_vpermute i s : perm_shape i = Some s ->
  vector_exec_func (D := D) (X := X) i = Some (fun info => vec_op info (perm_body i s)).
Proof. destruct i; cbn [perm_shape]; intros Hs; try discriminate Hs; injection Hs as <-; reflexivity. Qed.

Lemma vpermute_some i f : isa_vpermute i = Some f -> exists s, perm_shape i = Some s.
Proof. destruct i; cbn; intros Hf; try discriminate Hf; by eexists. Qed.

(** The registers of the instruction may be used together. *)
Definition perm_groups (i : VInstr) (v : Vector) (rs1 rs2 rd : Z) : Prop :=
  legal (group_regs v) rs2 /\ legal (group_regs v) rd /\ apart (group_regs v) rd rs2 /\
  (perm_operand i = OVs1 -> legal (group_regs v) rs1 /\ apart (group_regs v) rd rs1).
Definition slidedown_ok (i : VInstr) c (rs1 : Z) : Prop :=
  match i with VSLIDEDOWN_VX => (reg_file c !!! Z.to_nat rs1) + 128 <= 2 ^ 64 | _ => True end.

Lemma perm_body_run i s rs1 rs2 rd vm c : let v := vec_of c in let x := perm_scalar i c rs1 in
  perm_shape i = Some s -> cpu_wf c -> vregs_ok (vector_regfile v) -> reg_ok rs1 -> perm_groups i v rs1 rs2 rd -> slidedown_ok i c rs1 ->
  0 <= x /\ exists v', perm_body i s (vstart_of c) rs1 rs2 rd vm c = (Ok tt, set_vec v' c) /\
    perm_written v s rs1 x rs2 rd (negb vm) (vstart_of c) v'.
Proof.
  intros v x Hs Hc Hr Hrs (L2 & Ld & Ha & Hg1) Hbig. destruct (legal_bound _ rs2 L2) as (Hm & _).
  assert (Hx : 0 <= x) by (unfold x, perm_scalar; destruct (perm_operand i); try apply Hrs; by apply reg_value).
  split; [done|]. assert (Hne : (rd =? rs2) = false) by (apply Z.eqb_neq; unfold apart in Ha; lia).
  destruct (pdriver_run v Hr s rs1 x rs2 rd (negb vm) (vstart_of c) L2 Ld Ha) as (v' & Hrun & Hw); [|done| |].
  - intros ->. apply Hg1. by destruct i; try discriminate Hs.
  - intros ->. unfold x, perm_scalar. destruct i; try discriminate Hs; [exact Hbig|]. cbn. unfold reg_ok in Hrs. lia.
  - exists v'. split; [|done]. apply on_vector_run in Hrun. unfold x, perm_scalar in Hrun.
    destruct i; try discriminate Hs; cbn [perm_operand] in *; unfold perm_body; rewrite ?Hne; try exact Hrun;
      try (erewrite bind_Ok by (by apply read_x_run); exact Hrun).
    destruct (Hg1 eq_refl) as [_ Ha1]. rewrite (proj2 (Z.eqb_neq rd rs1)); [exact Hrun|]. unfold apart in Ha1. lia.
Qed.

End Instructions.

(** ** Compress *)
Section Compress.
Context `{Profile} (v : Vector) (Hr : vregs_ok (vector_regfile v)).
Abbreviation ew := (elem_bytes v).
Abbreviation lm := (group_regs v).
Abbreviation rf := (vector_regfile v).
Abbreviation n := (vlmax ew lm).
Context (vs1 vs2 vd : Z) (L1 : legal 1 vs1) (L2 : legal lm vs2) (Ld : legal lm vd) (Hvl : 0 <= vl (config v) <= n).

(** The selected elements, in order. *)
Definition selected (k : Z) : list Z := filter (fun j => mask_reg_bit rf vs1 j = true) (seqZ k (vl (config v) - k)).

Lemma selected_nil k : vl (config v) <= k -> selected k = [].
Proof. intros. unfold selected. by rewrite seqZ_nil by lia. Qed.

Lemma selected_cons k : 0 <= k < vl (config v) ->
  selected k = if mask_reg_bit rf vs1 k then k :: selected (k + 1) else selected (k + 1).
Proof.
  intros Hk. unfold selected. rewrite (seqZ_cons k) by lia. rewrite filter_cons.
  replace (Z.succ k) with (k + 1) by lia. replace (Z.pred (vl (config v) - k)) with (vl (config v) - (k + 1)) by lia.
  destruct (mask_reg_bit rf vs1 k) eqn:E; [by rewrite decide_True|by rewrite decide_False by congruence].
Qed.

Lemma selected_length k : 0 <= k -> Z.of_nat (length (selected k)) <= Z.max 0 (vl (config v) - k).
Proof. intros Hk. unfold selected. pose proof (length_filter (fun j => mask_reg_bit rf vs1 j = true) (seqZ k (vl (config v) - k))). rewrite length_seqZ in *. lia. Qed.

Lemma selected_range k i j : 0 <= k -> selected k !! i = Some j -> k <= j < vl (config v).
Proof. intros Hk Hl. apply list_elem_of_lookup_2, list_elem_of_filter in Hl as [_ Hin%elem_of_seqZ]. lia. Qed.

Abbreviation mask_bytes := (value (group1 rf vs1 1 1)).
Abbreviation src := (elements ew (value (group1 rf vs2 ew lm))).

Lemma select_bit {S E} k (s : S) : 0 <= k < 128 -> read_mask_bit (E := E) (elements 1 mask_bytes) k s = (Ok (mask_reg_bit rf vs1 k), s).
Proof. intros. by apply read_mask_bit_run. Qed.

Abbreviation g := (group1 rf vd ew lm).
Context (ta : bool).
Definition compress_mask : VecOpMask :=
  {| mask_bit := None; op_start := 0; op_length := Z.of_nat (length (selected 0)); op_mask_agnostic := mask_agnostic (config v);
     op_tail_agnostic := ta |}.

Lemma g_ok : shape_ok g.
Proof. destruct (legal_bound lm vd Ld) as (Hm & _). apply group1_shape; [apply w_ok|done]. Qed.

(** Packing from source element [k] on, with [d] elements already written. *)
Lemma compress_loop_run m k d b : Z.of_nat m = vl (config v) - k -> 0 <= d <= k -> group_fits g b ->
  d + Z.of_nat (length (selected k)) = Z.of_nat (length (selected 0)) ->
  exists b', compress_loop (elem_ty v) (elements 1 mask_bytes) src compress_mask (seqZ k (vl (config v) - k)) d
      (offset_at g <$> seqZ d (n - d)) (set_value g b) =
    (Ok (d + Z.of_nat (length (selected k)), offset_at g <$> seqZ (d + Z.of_nat (length (selected k))) (n - (d + Z.of_nat (length (selected k))))),
     set_value g b') /\
    group_fits g b' /\ (bytes_ok b -> bytes_ok b') /\
    forall j, 0 <= j < n -> elem g b' j =
      match selected k !! Z.to_nat (j - d) with
      | Some i => if d <=? j then reg_elem rf ew vs2 i else elem g b j
      | None => elem g b j
      end.
Proof.
  revert k d b. induction m as [|m IH]; intros k d b Hm Hd Hf Hcount.
  { rewrite selected_nil, seqZ_nil by lia. cbn. rewrite Z.add_0_r. exists b. done. }
  assert (Hk : 0 <= k < 128) by (split; [lia|]; destruct (vlmax_VLEN v) as [_ Hle]; change VLEN with 128 in Hle; lia).
  assert (Hk' : 0 <= k < n) by lia.
  rewrite (seqZ_cons k) by lia. cbn [compress_loop]. erewrite bind_Ok by (by apply select_bit).
  replace (Z.succ k) with (k + 1) by lia. replace (Z.pred (vl (config v) - k)) with (vl (config v) - (k + 1)) by lia.
  rewrite (selected_cons k) in Hcount |- * by lia. destruct (mask_reg_bit rf vs1 k) eqn:Eb; [|by apply IH; [lia|lia|done|]].
  rewrite (seqZ_cons d) by lia. cbn [fmap list_fmap]. replace (Z.succ d) with (d + 1) by lia. replace (Z.pred (n - d)) with (n - (d + 1)) by lia.
  erewrite bind_Ok by (apply at_source; [done|done|apply w_ok|done]). cbn [length] in Hcount.
  erewrite bind_Ok by (apply element_load_run; [apply g_ok|symmetry; apply elem_ty_size|done|rewrite group1_total; lia]).
  assert (mask_value 0 compress_mask (reg_elem rf ew vs2 k) d = Some (reg_elem rf ew vs2 k)) as ->.
  { unfold mask_value. cbn [op_start op_length compress_mask mask_bit bit]. rewrite (proj2 (Z.ltb_ge d 0)), (proj2 (Z.leb_gt _ d)) by lia. done. }
  destruct (IH (k + 1) (d + 1) (put_elem g d (Some (reg_elem rf ew vs2 k)) b)) as (b' & Hrun & Hf' & Hb & He);
    [lia|lia|apply group_fits_put; [apply g_ok|done|rewrite group1_total; lia]|lia|].
  exists b'. replace (d + Z.of_nat (length (k :: selected (k + 1)))) with (d + 1 + Z.of_nat (length (selected (k + 1)))) by (cbn [length]; lia).
  split_and!; [done|done|intros Hb0; by apply Hb, bytes_ok_put, Hb0; apply g_ok|]. intros j Hj. rewrite He, elem_put by (done || apply g_ok || (rewrite group1_total; lia)).
  destruct (Z.lt_total j d) as [|[->|]].
  - rewrite (decide_False (P := d = j)) by lia. replace (Z.to_nat (j - d)) with 0%nat by lia. replace (Z.to_nat (j - (d + 1))) with 0%nat by lia.
    cbn. rewrite (proj2 (Z.leb_gt d j)), (proj2 (Z.leb_gt (d + 1) j)) by lia. by destruct (selected (k + 1) !! 0%nat).
  - rewrite decide_True by done. replace (Z.to_nat (d - d)) with 0%nat by lia. cbn. rewrite Z.leb_refl, (proj2 (Z.leb_gt (d + 1) d)) by lia.
    rewrite wrap_small by (by apply reg_elem_range). by destruct (selected (k + 1) !! Z.to_nat (d - (d + 1))).
  - rewrite (decide_False (P := d = j)) by lia. replace (Z.to_nat (j - d)) with (S (Z.to_nat (j - (d + 1)))) by lia. cbn.
    rewrite (proj2 (Z.leb_le d j)), (proj2 (Z.leb_le (d + 1) j)) by lia. done.
Qed.

(** Counting reads the bytes of the mask register. *)
Lemma select_raw {S E} k (s : S) : 0 <= k < 128 -> read_mask_bit (E := E) mask_bytes k s = (Ok (mask_reg_bit rf vs1 k), s).
Proof.
  intros Hk. rewrite <- (select_bit k s Hk). unfold read_mask_bit. destruct (bit_index k) as (? & ? & ?); [lia|].
  assert (Hlen : Z.of_nat (length mask_bytes) = 16) by (cbn [value group1]; by rewrite length_group_bytes).
  rewrite lookup_elements by (done || rewrite ?Hlen, ?Z.div_1_r; lia). rewrite Z.mul_1_r.
  assert (lookup_z mask_bytes (k / 8) = Some (load_le 1 mask_bytes (k / 8))) as ->; [|done].
  apply lookup_z_Some. split; [lia|apply lookup_byte; lia].
Qed.

Lemma selected_count_run {S E} m k (s : S) : Z.of_nat m = vl (config v) - k -> 0 <= k ->
  selected_count (E := E) mask_bytes (seqZ k (vl (config v) - k)) s = (Ok (Z.of_nat (length (selected k))), s).
Proof.
  revert k. induction m as [|m IH]; intros k Hm Hk; [by rewrite selected_nil, seqZ_nil by lia|].
  rewrite (seqZ_cons k) by lia. cbn [selected_count]. destruct (vlmax_VLEN v) as [_ Hle]. change VLEN with 128 in Hle.
  erewrite bind_Ok by (apply select_raw; lia). replace (Z.succ k) with (k + 1) by lia.
  replace (Z.pred (vl (config v) - k)) with (vl (config v) - (k + 1)) by lia. erewrite bind_Ok by (apply IH; lia).
  rewrite (selected_cons k) by lia. unfold ret. destruct (mask_reg_bit rf vs1 k); [|done]. cbn [length]. do 2 f_equal. lia.
Qed.

(** What vcompress leaves in element [j]. *)
Definition compressed_elem (j : Z) : option Z :=
  match selected 0 !! Z.to_nat j with
  | Some i => Some (reg_elem rf ew vs2 i)
  | None => if ta then Some 0 else None
  end.

Lemma compress_into_vd : exists v',
  into_vd vd ew lm (CompressVm (group1 rf vs1 1 1) (group1 rf vs2 ew lm) (vl (config v)) compress_mask) v = (Ok tt, v') /\
    vd_written v v' vd ew lm compressed_elem.
Proof.
  destruct (legal_bound lm vd Ld) as (Hm & _). pose proof (w_ok v) as Hw. apply into_vd_run; [done..|].
  set (cnt := Z.of_nat (length (selected 0))). pose proof (selected_length 0 ltac:(lia)) as Hcnt. fold cnt in Hcnt.
  destruct (compress_loop_run (Z.to_nat (vl (config v))) 0 0 (value g)) as (b1 & Hrun1 & Hf1 & Hb1 & He1);
    [lia|lia|apply group1_fits; by apply length_group_bytes|lia|]. rewrite !Z.add_0_l in Hrun1. rewrite !Z.sub_0_r in Hrun1. fold cnt in Hrun1.
  destruct (for_enumerate_elements (E := Exception) (set_value g) g (fun i => if ta then Some 0 else None)
    (fun index element => element_load_default (elem_ty v) compress_mask element index) cnt n g_ok) with (b := b1) as (b2 & Hrun2 & Hf2 & Hb2 & He2).
  - rewrite group1_total. lia.
  - intros i b Hi Hf. unfold element_load_default.
    rewrite element_load_run; [|apply g_ok|symmetry; apply elem_ty_size|done|rewrite group1_total; lia].
    unfold mask_value. cbn [op_start op_length compress_mask op_tail_agnostic]. fold cnt.
    rewrite (proj2 (Z.ltb_ge i 0)), (proj2 (Z.leb_le cnt i)) by lia. done.
  - done.
  - exists b2. split_and!.
    + unfold CompressVm. erewrite bind_Ok by reflexivity. cbn beta. unfold id. cbn [sew group1]. rewrite !Z.eqb_refl. cbn [andb].
      erewrite bind_Ok by reflexivity. rewrite dispatch_elem. unfold vector_op_compress.
      do 2 erewrite bind_Ok by (apply as_slice_run; first [reflexivity|symmetry; apply elem_ty_size]).
      erewrite bind_Ok by reflexivity. cbn beta. unfold id. rewrite iter_spec by apply g_ok. rewrite group1_total. cbn [sew group1].
      erewrite bind_Ok by exact Hrun1. cbn [fst snd]. exact Hrun2.
    + by apply group1_fits in Hf2.
    + intros Hb. by apply Hb2, Hb1.
    + intros j Hj. specialize (He2 j). specialize (He1 j Hj). rewrite Z.sub_0_r in He1. rewrite group1_total, !group1_elem in He2. rewrite He2 by done.
      unfold compressed_elem. rewrite (proj2 (Z.leb_le 0 j)) in He1 by lia. rewrite !group1_elem in He1. cbn [sew group1 value] in *.
      destruct (vlmax_bound ew lm j Hw Hm Hj). assert (0 < ew) by (unfold width_ok in Hw; lia).
      rewrite load_group in He1 by (done || lia). fold (reg_elem rf ew vd j) in He1.
      destruct (selected 0 !! Z.to_nat j) as [i|] eqn:Es.
      * apply lookup_lt_Some in Es. rewrite decide_False by (unfold cnt; lia). done.
      * apply lookup_ge_None in Es. rewrite decide_True by (unfold cnt; lia). rewrite He1. destruct ta; [|done]. cbn.
        unfold wrap. apply Zmod_0_l.
Qed.
End Compress.

Section CompressInstr.
Context {D X : Type} `{DeviceTrait D} `{Profile} `{HasVector X}.
Implicit Types c : RVCPU D X.

(** vd, the source group and the mask register share no register. *)
Definition compress_groups (v : Vector) (rs1 rs2 rd : Z) : Prop :=
  reg_ok rs1 /\ legal (group_regs v) rs2 /\ legal (group_regs v) rd /\ apart (group_regs v) rd rs2 /\
  (rs1 < rd \/ rd + group_regs v <= rs1).

Lemma exec_compress_run v rs1 rs2 rd : vregs_ok (vector_regfile v) -> 0 <= vl (config v) <= vlmax (elem_bytes v) (group_regs v) ->
  compress_groups v rs1 rs2 rd -> exists v', exec_compress CompressVm rs1 rs2 rd 0 v = (Ok tt, v') /\
    vd_written v v' rd (elem_bytes v) (group_regs v) (compressed_elem v rs1 rs2 (tail_agnostic (config v))).
Proof.
  intros Hr Hvl (Hrs & L2 & Ld & Ha & Hm). pose proof (legal_one rs1 Hrs) as L1.
  destruct (compress_into_vd v Hr rs1 rs2 rd L1 L2 Ld Hvl (tail_agnostic (config v))) as (v' & Hrun & Hw).
  exists v'. split; [|done]. unfold exec_compress. cbn [Z.eqb negb]. run_operands. rewrite (apart_overlap _ rd rs2) by done.
  assert (vector_register_group_overlaps rd (group_regs v) rs1 1 = false) as ->.
  { destruct (legal_bound _ rd Ld). unfold reg_ok, vector_register_group_overlaps, saturating_add in *. apply andb_false_iff. rewrite !Z.ltb_ge. lia. }
  cbn [orb]. run_operands. change (into_byte_width E8) with 1. erewrite bind_Ok by reflexivity. cbn beta. unfold id.
  destruct (vlmax_VLEN v) as [_ Hle]. change VLEN with 128 in Hle.
  pose proof (fun S E => selected_count_run (S := S) (E := E) v Hr rs1 L1 Hvl (Z.to_nat (vl (config v))) 0) as Hcount. rewrite Z.sub_0_r in Hcount.
  erewrite bind_Ok by (apply Hcount; lia).
  erewrite bind_Ok by reflexivity. rewrite wrap_small; [exact Hrun|].
  pose proof (selected_length v rs1 0 ltac:(lia)). unfold uint. lia.
Qed.

(** vcompress packs: the elements of vs2 whose bit in the mask register is
    set, below the vector length, are moved in their order to the lowest
    elements of the destination; the elements after them follow the tail
    policy. *)
Theorem vector_compress_correct rs1 rs2 rd func6 c : let v := vec_of c in
  cpu_wf c -> counter_ok c -> vs_on c -> vstart_of c = 0 ->
  0 <= vl (config v) <= vlmax (elem_bytes v) (group_regs v) -> compress_groups v rs1 rs2 rd ->
  let sel := filter (fun j => mask_reg_bit (vector_regfile v) rs1 j = true) (seqZ 0 (vl (config v))) in
  exists exec v', vector_exec_func VCOMPRESS_VM = Some exec /\
    exec (IV rs1 rs2 rd true func6) c = (Ok tt, vec_retired (reg_file c) v' c) /\
    vd_written v v' rd (elem_bytes v) (group_regs v) (fun j =>
      match sel !! Z.to_nat j with
      | Some i => Some (reg_elem (vector_regfile v) (elem_bytes v) rs2 i)
      | None => if tail_agnostic (config v) then Some 0 else None
      end).
Proof.
  intros v Hc Hov Hon Hst Hvl Hg sel. pose proof (wf_vregs c Hc) as Hr. destruct (exec_compress_run v rs1 rs2 rd Hr Hvl Hg) as (v' & Hrun & Hw).
  eexists _, v'. split; [reflexivity|]. split.
  - apply vec_op_run; [by apply wf_csr|done..|]. rewrite Hst. cbn [spec_permute illegal_if negb].
    rewrite (on_vector_run _ c _ _ Hrun). by destruct c.
  - eapply vd_written_ext; [|exact Hw]. intros j _. unfold compressed_elem, selected, sel. by rewrite Z.sub_0_r.
Qed.
End CompressInstr.

(** ** Concrete instances *)

(** vslidedown.vx by nine on sixteen bytes, masked. *)
Definition demo_slide : RVCPU Z Vector := demo_vec_hart (demo_vector E8 M1 true true 16) [].


Lemma vector_compress_correct_witness :
  let D := demo_device in let P := dev in let v := vec_of demo_slide in
  exists exec v', vector_exec_func VCOMPRESS_VM = Some exec /\
    exec (IV 5 12 14 true 0) demo_slide = (Ok tt, vec_retired (reg_file demo_slide) v' demo_slide) /\
    vd_written v v' 14 (elem_bytes v) (group_regs v) (fun j =>
      match filter (fun j => mask_reg_bit (vector_regfile v) 5 j = true) (seqZ 0 (vl (config v))) !! Z.to_nat j with
      | Some i => Some (reg_elem (vector_regfile v) (elem_bytes v) 12 i)
      | None => if tail_agnostic (config v) then Some 0 else None
      end).
Proof.
  intros D P. apply (vector_compress_correct 5 12 14 0 demo_slide).
  - apply demo_vec_wf; [by apply demo_vec_ok|constructor].
  - intros _. vm_compute. reflexivity.
  - vm_compute. discriminate.
  - vm_compute. reflexivity.
  - vm_compute. split; discriminate.
  - split; [vm_compute; split; [discriminate|reflexivity]|]. split; [|split; [|split; [right; vm_compute; discriminate|left; vm_compute; reflexivity]]];
      vm_compute; (split; [reflexivity|]; split; [split; [discriminate|reflexivity]|reflexivity]).
Defined.
