(* ===== verification/VectorKeep.v ===== *)
(** * What the operations of the vector unit keep

    Every operation of the vector unit keeps the register file a file of bytes
    and the vector length a 16-bit number, and every memory access keeps RAM made
    of bytes: lemmas by layer, from the operations on a borrowed register group
    to the memory accesses.  [VectorUnit] uses them for the instructions. *)

From S2P Require Import Prelude Utils TrapTypes Alu Ram CsrTable Csr PageTable Mmio Vm Instr Cpu Trap Exec Invariant Precise ExecutorSpec Vector VectorInt VectorArith VectorFix VectorExec VectorMap VectorSpec VectorHart.

(** ** Operations on a register group *)

(** A borrowed group of [n] bytes. *)
Definition group_ok (n : nat) (g : VGFRef) : Prop := length (value g) = n /\ bytes_ok (value g).

Abbreviation keeps I m := (triple I m (fun _ => True)).

Lemma keep_bind {S E A B} (I : S -> Prop) (m : M S E A) (k : A -> M S E B) :
  keeps I m -> (forall a, keeps I (k a)) -> keeps I (bind m k).
Proof. intros Hm Hk. eapply triple_bind; [exact Hm|]. intros a _. apply Hk. Qed.

Lemma keep_gets {S E A} (I : S -> Prop) (f : S -> A) : keeps I (gets (E := E) f).
Proof. by apply triple_gets. Qed.
Lemma keep_unwrap {S E A} (I : S -> Prop) (o : option A) : keeps I (unwrap (S := S) (E := E) o).
Proof. by apply triple_unwrap. Qed.
Lemma keep_lift {S E A} (I : S -> Prop) (r : Res E A) : keeps I (lift_res (S := S) r).
Proof. by apply triple_lift_res. Qed.
Lemma keep_assert {S E} (I : S -> Prop) b : keeps I (assert (S := S) (E := E) b).
Proof. by apply triple_assert. Qed.
Lemma keep_ret {S E A} (I : S -> Prop) (a : A) : keeps I (ret (S := S) (E := E) a).
Proof. by apply triple_ret. Qed.

Create HintDb vkeep.
Create HintDb vop.
#[export] Hint Resolve keep_gets keep_unwrap keep_lift keep_assert keep_ret : vkeep.

(** Walk through code whose results do not matter to the invariant. *)
Ltac vkeep :=
  repeat first
    [ progress eauto with vkeep
    | match goal with
      | |- triple _ (bind _ _) _ => apply keep_bind; [|intros ?]
      | |- triple _ (if _ then _ else _) _ => apply triple_if; intros _
      | |- triple _ (match ?x with _ => _ end) _ => destruct x
      | |- triple _ (let _ := _ in _) _ => cbv zeta
      | |- triple _ (map_err _ _) _ => apply triple_map_err
      | |- triple _ (err _) _ => apply triple_err
      | |- triple _ panic _ => apply triple_panic
      end ].

Lemma keep_for_enumerate {S E} (I : S -> Prop) (f : Z -> Z -> M S E unit) :
  (forall i x, keeps I (f i x)) -> forall l i, keeps I (for_enumerate i l f).
Proof. intros Hf. induction l as [|x l IH]; intros i; cbn [for_enumerate]; vkeep. Qed.

Lemma keep_for_break {S E} (I : S -> Prop) (f : Z -> Z -> M S E bool) :
  (forall i x, keeps I (f i x)) -> forall l i, keeps I (for_enumerate_break i l f).
Proof. intros Hf. induction l as [|x l IH]; intros i; cbn [for_enumerate_break]; vkeep. Qed.

Section Reading.
Context `{Profile} {S E : Type} (I : S -> Prop).

Lemma keep_debug_assert b : keeps I (debug_assert (S := S) (E := E) b).
Proof. unfold debug_assert. vkeep. Qed.
Lemma keep_as_slice t g : keeps I (as_slice (S := S) (E := E) t g).
Proof. unfold as_slice. vkeep. Qed.
Lemma keep_at l i : keeps I (at_ (S := S) (E := E) l i).
Proof. unfold at_. vkeep. Qed.
Lemma keep_read_mask_bit l i : keeps I (read_mask_bit (S := S) (E := E) l i).
Proof. unfold read_mask_bit. vkeep. Qed.
Lemma keep_chunk_bit l i : keeps I (chunk_bit (S := S) (E := E) l i).
Proof. unfold chunk_bit, at_. vkeep. Qed.
Lemma keep_add_chk w a b : keeps I (add_chk (S := S) (E := E) w a b).
Proof. unfold add_chk. vkeep. Qed.
Lemma keep_mul_chk w a b : keeps I (mul_chk (S := S) (E := E) w a b).
Proof. unfold mul_chk. vkeep. Qed.
Lemma keep_dispatch {A} w (body : UInt -> M S E A) : (forall t, keeps I (body t)) -> keeps I (dispatch_integer_sew w body).
Proof. intros Hb. unfold dispatch_integer_sew. vkeep. Qed.
Lemma keep_dispatch_widening {A} w (body : UInt -> UInt -> M S E A) :
  (forall s d, keeps I (body s d)) -> keeps I (dispatch_widening_integer_sew w body).
Proof. intros Hb. unfold dispatch_widening_integer_sew. vkeep. Qed.
Lemma keep_dispatch_narrowing {A} w (body : UInt -> UInt -> M S E A) :
  (forall s d, keeps I (body s d)) -> keeps I (dispatch_narrowing_integer_sew w body).
Proof. intros Hb. unfold dispatch_narrowing_integer_sew. vkeep. Qed.
End Reading.
#[export] Hint Resolve keep_debug_assert keep_as_slice keep_at keep_read_mask_bit keep_chunk_bit keep_add_chk keep_mul_chk : vkeep.

Section Groups.
Context `{Profile} (n : nat).
Abbreviation gkeeps m := (keeps (group_ok n) m).

Lemma keep_set_value {E} f : (forall l, length l = n -> bytes_ok l -> length (f l) = n /\ bytes_ok (f l)) ->
  gkeeps (modify (E := E) (fun g => set_value g (f (value g)))).
Proof. intros Hf. apply triple_modify; [|done]. intros g [Hl Hb]. by apply Hf. Qed.

Lemma keep_elem_set {E} t off v : gkeeps (elem_set (E := E) t off v).
Proof.
  intros g [Hl Hb]. unfold elem_set, bind at 1, gets, id. unfold bind at 1.
  pose proof (keep_debug_assert (E := E) (eq g) (sew g =? size_of t) g eq_refl) as Hd.
  destruct (debug_assert _ g) as [[]?]; [destruct Hd as [<- _]|subst; done|done]. unfold bind, assert, panic, ret.
  destruct (_ && _) eqn:Ha; [|done]. apply andb_true_iff in Ha as [?%Z.leb_le ?%Z.leb_le]. cbn. split; [|done].
  split; cbn; [rewrite length_store_le; [done|by destruct t|done|done]|]. apply bytes_ok_store_le; [by destruct t|done].
Qed.
Hint Resolve keep_elem_set : vkeep.

Lemma keep_element_load {E} t k o v i : gkeeps (element_load (E := E) t k o v i).
Proof. unfold element_load. vkeep. Qed.
Hint Resolve keep_element_load : vkeep.

Lemma write_bit_byte b i v : uint 8 b -> 0 <= i < 8 -> uint 8 (write_bit b i v).
Proof.
  intros Hb Hi. unfold write_bit, shl. destruct v.
  - apply uint_lor; [done|done|by apply wrap_range].
  - by apply uint_land.
Qed.

Lemma keep_mask_bit_load {E} k i v : gkeeps (mask_bit_load (E := E) k i v).
Proof.
  unfold mask_bit_load. destruct (mask_value false k v i) as [x|]; [|vkeep].
  intros g [Hl Hb]. unfold bind, gets, unwrap, modify, ret, panic, id. destruct (lookup_z (value g) (i / 8)) as [byte|] eqn:Eb; [|done].
  apply lookup_z_Some in Eb as [Hi Eb]. split; [|done]. split; cbn; [by rewrite length_insert|].
  apply Forall_insert; [done|]. apply write_bit_byte; [by eapply Forall_lookup_1 in Hb|]. apply Z.mod_pos_bound. lia.
Qed.
Hint Resolve keep_mask_bit_load : vkeep.

Lemma keep_load_elements t k f : (forall i, gkeeps (f i)) -> gkeeps (load_elements t k f).
Proof. intros Hf. unfold load_elements. vkeep. apply keep_for_enumerate. intros i x. vkeep. Qed.
Lemma keep_load_elements_take m t k f : (forall i, gkeeps (f i)) -> gkeeps (load_elements_take m t k f).
Proof. intros Hf. unfold load_elements_take. vkeep. apply keep_for_enumerate. intros i x. vkeep. Qed.
Lemma keep_load_mask_bits m k f : (forall i, gkeeps (f i)) -> gkeeps (load_mask_bits m k f).
Proof. intros Hf. unfold load_mask_bits. apply keep_for_enumerate. intros i x. vkeep. Qed.
Lemma keep_fixed_loop t k f : (forall i, gkeeps (f i)) -> forall l i s, gkeeps (fixed_loop t k f i l s).
Proof. intros Hf. induction l as [|x l IH]; intros i s; cbn [fixed_loop]; vkeep. Qed.
Lemma keep_before_first_loop m src k l : forall s, gkeeps (before_first_loop m src k l s).
Proof. induction l as [|x l IH]; intros s; cbn [before_first_loop]; unfold active_source_bit; vkeep. Qed.
Lemma keep_any_source src k l : gkeeps (any_source_bit (E := Exception) src k l).
Proof. induction l as [|x l IH]; cbn [any_source_bit]; unfold active_source_bit; vkeep. Qed.
Lemma keep_iota_loop t src k l : forall i c, gkeeps (iota_loop t src k i l c).
Proof. induction l as [|x l IH]; intros i c; cbn [iota_loop]; vkeep. Qed.
Lemma keep_compress_loop t sel vs2 k l : forall i d, gkeeps (compress_loop t sel vs2 k l i d).
Proof. induction l as [|x l IH]; intros i d; cbn [compress_loop]; vkeep. Qed.
End Groups.
#[export] Hint Resolve keep_elem_set keep_element_load keep_mask_bit_load keep_before_first_loop keep_any_source
  keep_iota_loop keep_compress_loop : vkeep.

(** The loops of the operations. *)
Ltac vloop :=
  repeat first
    [ progress vkeep
    | apply keep_dispatch; intros ? | apply keep_dispatch_widening; intros ? ? | apply keep_dispatch_narrowing; intros ? ?
    | apply keep_load_elements; intros ? | apply keep_load_elements_take; intros ? | apply keep_load_mask_bits; intros ?
    | apply keep_fixed_loop; intros ? | apply keep_for_enumerate; intros ? ? ].

Section Operations.
Context `{Profile} (n : nat).
Abbreviation gkeeps m := (keeps (group_ok n) m).

Lemma op_vv_binary Exec vs1 vs2 k : gkeeps (impl_vector_op_integer_vv_binary Exec vs1 vs2 k).
Proof. unfold impl_vector_op_integer_vv_binary. vloop. Qed.
Lemma op_vx_binary Exec x vs2 k : gkeeps (impl_vector_op_integer_vx_binary Exec x vs2 k).
Proof. unfold impl_vector_op_integer_vx_binary. vloop. Qed.
Lemma op_vvv_ternary Exec vs1 vs2 d k : gkeeps (impl_vector_op_integer_vvv_ternary Exec vs1 vs2 d k).
Proof. unfold impl_vector_op_integer_vvv_ternary. vloop. Qed.
Lemma op_vxv_ternary Exec x vs2 d k : gkeeps (impl_vector_op_integer_vxv_ternary Exec x vs2 d k).
Proof. unfold impl_vector_op_integer_vxv_ternary. vloop. Qed.
Lemma op_widening_vv Exec sg vs1 vs2 k : gkeeps (impl_vector_op_widening_integer_vv Exec sg vs1 vs2 k).
Proof. unfold impl_vector_op_widening_integer_vv, vector_op_widening_vv_binary. vloop. Qed.
Lemma op_widening_vx Exec sg x vs2 k : gkeeps (impl_vector_op_widening_integer_vx Exec sg x vs2 k).
Proof. unfold impl_vector_op_widening_integer_vx, vector_op_widening_vx_binary. vloop. Qed.
Lemma op_widening_vvv Exec sg vs1 vs2 d k : gkeeps (impl_vector_op_widening_integer_vvv Exec sg vs1 vs2 d k).
Proof. unfold impl_vector_op_widening_integer_vvv, vector_op_widening_vvv_ternary. vloop. Qed.
Lemma op_widening_vxv Exec sg x vs2 d k : gkeeps (impl_vector_op_widening_integer_vxv Exec sg x vs2 d k).
Proof. unfold impl_vector_op_widening_integer_vxv, vector_op_widening_vxv_ternary. vloop. Qed.
Lemma op_widening_wv Exec sg vs1 vs2 k : gkeeps (impl_vector_op_widening_integer_wv Exec sg vs1 vs2 k).
Proof. unfold impl_vector_op_widening_integer_wv, vector_op_widening_wv_binary. vloop. Qed.
Lemma op_widening_wx Exec sg x vs2 k : gkeeps (impl_vector_op_widening_integer_wx Exec sg x vs2 k).
Proof. unfold impl_vector_op_widening_integer_wx, vector_op_widening_wx_binary. vloop. Qed.
Lemma op_narrowing_wv Exec vs1 vs2 k : gkeeps (impl_vector_op_integer_narrowing_wv_binary Exec vs1 vs2 k).
Proof. unfold impl_vector_op_integer_narrowing_wv_binary. vloop. Qed.
Lemma op_narrowing_vx Exec x vs2 k : gkeeps (impl_vector_op_integer_narrowing_vx_binary Exec x vs2 k).
Proof. unfold impl_vector_op_integer_narrowing_vx_binary. vloop. Qed.
Lemma op_ext Exec f vs2 k : gkeeps (impl_vector_op_integer_v_unary_ext Exec f vs2 k).
Proof. unfold impl_vector_op_integer_v_unary_ext. vloop. Qed.
Lemma op_move t vs2 k : gkeeps (ExecMove_v t vs2 k).
Proof. unfold ExecMove_v. vloop. Qed.
Lemma op_vvm_binary Exec vs1 vs2 v0 k : gkeeps (impl_vector_op_integer_vvm_binary Exec vs1 vs2 v0 k).
Proof. unfold impl_vector_op_integer_vvm_binary. vloop. Qed.
Lemma op_vxm_binary Exec x vs2 v0 k : gkeeps (impl_vector_op_integer_vxm_binary Exec x vs2 v0 k).
Proof. unfold impl_vector_op_integer_vxm_binary. vloop. Qed.
Lemma op_mask_vv Exec vs1 vs2 k : gkeeps (impl_vector_op_integer_mask_vv_binary Exec vs1 vs2 k).
Proof. unfold impl_vector_op_integer_mask_vv_binary. vloop. Qed.
Lemma op_mask_vx Exec x vs2 k : gkeeps (impl_vector_op_integer_mask_vx_binary Exec x vs2 k).
Proof. unfold impl_vector_op_integer_mask_vx_binary. vloop. Qed.
Lemma op_mask_vvm Exec vs1 vs2 v0 k : gkeeps (impl_vector_op_integer_mask_vvm_binary Exec vs1 vs2 v0 k).
Proof. unfold impl_vector_op_integer_mask_vvm_binary. vloop. Qed.
Lemma op_mask_vxm Exec x vs2 v0 k : gkeeps (impl_vector_op_integer_mask_vxm_binary Exec x vs2 v0 k).
Proof. unfold impl_vector_op_integer_mask_vxm_binary. vloop. Qed.
Lemma op_gather_vv vs1 vs2 k : gkeeps (RGatherVV vs1 vs2 k).
Proof. unfold RGatherVV, vector_op_gather_vv. vloop. Qed.
Lemma op_gather_vx x vs2 k : gkeeps (RGatherVX x vs2 k).
Proof. unfold RGatherVX, vector_op_gather_vx. vloop. Qed.
Lemma op_gather_ei16 vs1 vs2 k : gkeeps (RGatherEI16VV vs1 vs2 k).
Proof. unfold RGatherEI16VV, vector_op_gather_vv. vloop. Qed.
Lemma op_slideup x vs2 d k : gkeeps (SlideUp x vs2 d k).
Proof. unfold SlideUp, vector_op_slideup. vloop. Qed.
Lemma op_slidedown x vs2 k : gkeeps (SlideDown x vs2 k).
Proof. unfold SlideDown, vector_op_slidedown. vloop. Qed.
Lemma op_slide1up x vs2 d k : gkeeps (Slide1Up x vs2 d k).
Proof. unfold Slide1Up, vector_op_slide1up. vloop. Qed.
Lemma op_slide1down x vs2 k : gkeeps (Slide1Down x vs2 k).
Proof. unfold Slide1Down, vector_op_slide1down. vloop. Qed.
Lemma op_merge_vvm vs1 vs2 v0 k : gkeeps (MergeVVM vs1 vs2 v0 k).
Proof. unfold MergeVVM, vector_op_merge_vvm. vloop. Qed.
Lemma op_merge_vxm x vs2 v0 k : gkeeps (MergeVXM x vs2 v0 k).
Proof. unfold MergeVXM, vector_op_merge_vxm. vloop. Qed.
Lemma op_before_first m vs2 k : gkeeps (vector_op_mask_before_first m vs2 k).
Proof. unfold vector_op_mask_before_first. vloop. Qed.
Lemma op_iota vs2 k : gkeeps (IotaM vs2 k).
Proof. unfold IotaM, vector_op_iota. vloop. Qed.
Lemma op_index k : gkeeps (IdV k).
Proof. unfold IdV, vector_op_index. vloop. Qed.
Lemma op_compress vs1 vs2 l k : gkeeps (CompressVm vs1 vs2 l k).
Proof. unfold CompressVm, vector_op_compress, element_load_default. vloop. Qed.
Lemma op_fixed_vv Exec vs1 vs2 k r : gkeeps (impl_fixed_point_vv_binary Exec vs1 vs2 k r).
Proof. unfold impl_fixed_point_vv_binary. vloop. Qed.
Lemma op_fixed_vx Exec x vs2 k r : gkeeps (impl_fixed_point_vx_binary Exec x vs2 k r).
Proof. unfold impl_fixed_point_vx_binary. vloop. Qed.
Lemma op_fixed_narrowing_wv Exec vs1 vs2 k r : gkeeps (impl_fixed_point_narrowing_wv_binary Exec vs1 vs2 k r).
Proof. unfold impl_fixed_point_narrowing_wv_binary. vloop. Qed.
Lemma op_fixed_narrowing_vx Exec x vs2 k r : gkeeps (impl_fixed_point_narrowing_vx_binary Exec x vs2 k r).
Proof. unfold impl_fixed_point_narrowing_vx_binary. vloop. Qed.
End Operations.
#[export] Hint Resolve op_vv_binary op_vx_binary op_vvv_ternary op_vxv_ternary op_widening_vv op_widening_vx
  op_widening_vvv op_widening_vxv op_widening_wv op_widening_wx op_narrowing_wv op_narrowing_vx op_ext op_move
  op_vvm_binary op_vxm_binary op_mask_vv op_mask_vx op_mask_vvm op_mask_vxm op_gather_vv op_gather_vx op_gather_ei16
  op_slideup op_slidedown op_slide1up op_slide1down op_merge_vvm op_merge_vxm op_before_first op_iota op_index
  op_compress op_fixed_vv op_fixed_vx op_fixed_narrowing_wv op_fixed_narrowing_vx : vop.

(** The bitwise operations work on 32-bit chunks and write the whole register
    back. *)
Section Bits.
Context `{Profile}.

Lemma bit_loop_length {S E} f vs1 vs2 k l : forall (I : S -> Prop) r,
  triple I (bit_loop (E := E) f vs1 vs2 k l r) (fun r' => length r' = length r).
Proof.
  induction l as [|i l IH]; intros I r; cbn [bit_loop]; [by apply triple_ret|].
  eapply triple_bind; [apply keep_chunk_bit|intros b1 _]. eapply triple_bind; [apply keep_chunk_bit|intros b2 _].
  destruct (mask_value _ _ _ _) as [v|]; [|apply IH].
  eapply triple_bind; [apply keep_at|intros c _]. cbv zeta. eapply triple_weaken; [apply IH|]. intros r' ->. by rewrite length_insert.
Qed.

Lemma store_chunks_ok l : length (store_chunks l) = (4 * length l)%nat /\ bytes_ok (store_chunks l).
Proof.
  unfold store_chunks. induction l as [|x l [IHl IHb]]; [split; [done|constructor]|]. cbn [mbind list_bind]. split.
  - rewrite length_app. pose proof (length_Z_to_little_endian 4 8 x ltac:(done)) as Hz. cbn [length]. cbn in IHl. lia.
  - apply Forall_app. split; [by apply Z_to_little_endian_bound|done].
Qed.

Lemma op_bit_vv n f vs1 vs2 k : (n mod 4 = 0)%nat -> keeps (group_ok n) (impl_vector_op_bit_vv_binary f vs1 vs2 k).
Proof.
  intros Hn. unfold impl_vector_op_bit_vv_binary.
  apply triple_bind with (Q := fun g => length (value g) = n); [apply triple_gets; by intros g []|]. intros g Hg.
  do 3 (apply keep_bind; [apply keep_debug_assert|intros _]). do 2 (apply keep_bind; [apply keep_as_slice|intros ?]).
  apply triple_bind with (Q := fun r => (4 * length r)%nat = n).
  { intros s Hs. unfold as_slice, bind, assert, ret, panic. destruct (Z.eqb_spec (Vector.sew g) (size_of U32)) as [->|]; [|done].
    split; [done|]. unfold elements. rewrite length_fmap, length_seqZ. change (size_of U32) with 4. subst n.
    pose proof (Nat2Z.inj_mod (length (value g)) 4) as Hm. rewrite Hn in Hm. change (Z.of_nat 4) with 4 in Hm.
    pose proof (Z.div_mod (Z.of_nat (length (value g))) 4 ltac:(done)). lia. }
  intros r Hr. apply keep_bind; [apply keep_debug_assert|intros _]. cbv zeta.
  eapply triple_bind; [apply bit_loop_length|]. intros r' Hr'. apply triple_modify; [|done].
  intros g' _. destruct (store_chunks_ok r'). split; cbn [value set_value]; [|done]. cbn beta in Hr'. lia.
Qed.
End Bits.

(** ** Operations on the vector unit *)
Section Drivers.
Context `{Profile}.
Abbreviation ukeeps m := (keeps vec_ok m).

Lemma group_offset_result {S} (I : S -> Prop) m idx : 0 <= idx ->
  triple I (group_offset m idx) (fun off => legal m idx /\ off = VLEN_BYTE * idx).
Proof.
  intros Hi. unfold group_offset. eapply triple_bind; [apply keep_debug_assert|intros _ _].
  apply triple_if; [intros _; apply triple_err|]. intros Hm%negb_false_iff. apply triple_if; [intros _; apply triple_err|].
  intros Hd%negb_false_iff%Z.eqb_eq. intros s Hs. unfold bind, assert, ret, panic.
  destruct (Z.ltb_spec idx 32); [|done]. by split_and!.
Qed.

Lemma set_regfile_ok v r : vec_ok v -> vregs_ok r -> vec_ok (set_regfile v r).
Proof. by intros [_ Hl] Hr. Qed.

Lemma keep_into_vd {A} vd w lm (op : M VGFRef Exception A) : 0 <= vd ->
  (forall n, (n mod 4 = 0)%nat -> keeps (group_ok n) op) -> ukeeps (into_vd vd w lm op).
Proof.
  intros Hvd Hop. unfold into_vd. apply triple_zoom with (J := vregs_ok); [|by intros v []|intros v r Hv Hr; by apply set_regfile_ok].
  unfold with_group. eapply triple_bind; [by apply group_offset_result|]. intros off [Hl ->]. rewrite Z.mul_1_r in *.
  assert ((Z.to_nat (VLEN_BYTE * lm) mod 4 = 0)%nat) as Hn.
  { destruct Hl as [Hm _]. apply legal_group_cases in Hm as [->|[->|[->| ->]]]; reflexivity. }
  apply triple_zoom with (J := group_ok (Z.to_nat (VLEN_BYTE * lm))).
  - specialize (Hop _ Hn). vkeep.
  - intros r Hr. split; [|by apply bytes_ok_group, Hr]. pose proof (length_group_bytes r lm vd Hr Hl). cbn [value]. lia.
  - intros r g Hr [Hg Hb]. apply put_group_ok; try done. rewrite Hg. destruct (legal_bound _ _ Hl). assert (VLEN_BYTE = 16) by done. lia.
Qed.

Lemma keep_group_offset {S} (I : S -> Prop) m idx : keeps I (group_offset m idx).
Proof. unfold group_offset. vkeep. Qed.
Lemma keep_source idx w lm : ukeeps (source idx w lm).
Proof. unfold source, get_ref, read_as_type. vkeep. apply keep_group_offset. Qed.
Lemma keep_new_mask {S} (I : S -> Prop) r l em ma ta st : keeps I (new_with_start (S := S) r l em ma ta st).
Proof. unfold new_with_start, read_as_type. vkeep. apply keep_group_offset. Qed.
Lemma keep_arith_mask em st : ukeeps (arith_mask em st).
Proof. unfold arith_mask. apply keep_bind; [vkeep|intros v]. apply keep_new_mask. Qed.
Lemma keep_widening_shape : ukeeps widening_shape.
Proof. unfold widening_shape, cfg_sew, cfg_lmul. vkeep. Qed.
Lemma keep_narrowing_shape a b : ukeeps (narrowing_shape a b).
Proof. unfold narrowing_shape, cfg_sew, cfg_lmul, narrowing_source_lmul, physical_lmul_from_ratio. vkeep. Qed.
Lemma keep_selected_count l m : ukeeps (selected_count (E := Exception) m l).
Proof. induction l as [|x l IH]; cbn [selected_count]; vkeep. Qed.
Lemma keep_ei16_lmul v w : ukeeps (gather_ei16_index_lmul v w).
Proof. unfold gather_ei16_index_lmul, physical_lmul_from_ratio. vkeep. Qed.
Lemma keep_finish_fixed r b : ukeeps (finish_fixed_point r b).
Proof. unfold finish_fixed_point. apply keep_bind; [by apply triple_modify|intros _]. apply keep_bind; [by apply triple_modify|intros _]. vkeep. Qed.
End Drivers.
#[export] Hint Resolve keep_source keep_new_mask keep_arith_mask keep_widening_shape keep_narrowing_shape keep_selected_count
  keep_ei16_lmul keep_finish_fixed : vkeep.

Ltac vdrive :=
  unfold cfg_sew, cfg_lmul;
  repeat first [ progress vkeep | apply keep_into_vd; [assumption|intros n Hn; first [solve [auto] | vloop]] ].

Section Executions.
Context `{Profile}.
Abbreviation ukeeps m := (keeps vec_ok m).
Abbreviation good Op := (forall n, (n mod 4 = 0)%nat -> keeps (group_ok n) Op).

Lemma run_vv Op vs1 vs2 vd em st : 0 <= vd -> (forall a b k, good (Op a b k)) -> ukeeps (exec_integer_vv Op vs1 vs2 vd em st).
Proof. intros Hvd Hop. unfold exec_integer_vv. vdrive. Qed.
Lemma run_gather_vv Op vs1 vs2 vd em st : 0 <= vd -> (forall a b k, good (Op a b k)) -> ukeeps (exec_integer_gather_vv Op vs1 vs2 vd em st).
Proof. intros Hvd Hop. unfold exec_integer_gather_vv. vdrive. Qed.
Lemma run_gather_ei16 Op vs1 vs2 vd em st : 0 <= vd -> (forall a b k, good (Op a b k)) -> ukeeps (exec_integer_gather_ei16_vv Op vs1 vs2 vd em st).
Proof. intros Hvd Hop. unfold exec_integer_gather_ei16_vv. vdrive. Qed.
Lemma run_compress Op vs1 vs2 vd st : 0 <= vd -> (forall a b l k, good (Op a b l k)) -> ukeeps (exec_compress Op vs1 vs2 vd st).
Proof. intros Hvd Hop. unfold exec_compress. vdrive. Qed.
Lemma run_bit_vv Op vs1 vs2 vd em st : 0 <= vd -> (forall a b k, good (Op a b k)) -> ukeeps (exec_bit_vv Op vs1 vs2 vd em st).
Proof. intros Hvd Hop. unfold exec_bit_vv. vdrive. Qed.
Lemma run_vx Op x vs2 vd em st : 0 <= vd -> (forall a b k, good (Op a b k)) -> ukeeps (exec_integer_vx Op x vs2 vd em st).
Proof. intros Hvd Hop. unfold exec_integer_vx. vdrive. Qed.
Lemma run_gather_vx Op x vs2 vd em st : 0 <= vd -> (forall a b k, good (Op a b k)) -> ukeeps (exec_integer_gather_vx Op x vs2 vd em st).
Proof. intros Hvd Hop. unfold exec_integer_gather_vx, exec_integer_vx. vdrive. Qed.
Lemma run_slidedown Op x vs2 vd em st : 0 <= vd -> (forall a b k, good (Op a b k)) -> ukeeps (exec_integer_slidedown Op x vs2 vd em st).
Proof. intros Hvd Hop. unfold exec_integer_slidedown, exec_integer_gather_vx, exec_integer_vx. vdrive. Qed.
Lemma run_vvv Op vs1 vs2 vd em st : 0 <= vd -> (forall a b d k, good (Op a b d k)) -> ukeeps (exec_integer_vvv Op vs1 vs2 vd em st).
Proof. intros Hvd Hop. unfold exec_integer_vvv. vdrive. Qed.
Lemma run_vxv Op x vs2 vd em st : 0 <= vd -> (forall a b d k, good (Op a b d k)) -> ukeeps (exec_integer_vxv Op x vs2 vd em st).
Proof. intros Hvd Hop. unfold exec_integer_vxv. vdrive. Qed.
Lemma run_slideup Op x vs2 vd em st : 0 <= vd -> (forall a b d k, good (Op a b d k)) -> ukeeps (exec_integer_slideup Op x vs2 vd em st).
Proof. intros Hvd Hop. unfold exec_integer_slideup, exec_integer_vxv. vdrive. Qed.
Lemma run_wide_vv Op vs1 vs2 vd em st : 0 <= vd -> (forall a b k, good (Op a b k)) -> ukeeps (exec_widening_integer_vv Op vs1 vs2 vd em st).
Proof. intros Hvd Hop. unfold exec_widening_integer_vv. vdrive. Qed.
Lemma run_wide_vvv Op vs1 vs2 vd em st : 0 <= vd -> (forall a b d k, good (Op a b d k)) -> ukeeps (exec_widening_integer_vvv Op vs1 vs2 vd em st).
Proof. intros Hvd Hop. unfold exec_widening_integer_vvv. vdrive. Qed.
Lemma run_wide_vxv Op x vs2 vd em st : 0 <= vd -> (forall a b d k, good (Op a b d k)) -> ukeeps (exec_widening_integer_vxv Op x vs2 vd em st).
Proof. intros Hvd Hop. unfold exec_widening_integer_vxv. vdrive. Qed.
Lemma run_wide_vx Op x vs2 vd em st : 0 <= vd -> (forall a b k, good (Op a b k)) -> ukeeps (exec_widening_integer_vx Op x vs2 vd em st).
Proof. intros Hvd Hop. unfold exec_widening_integer_vx. vdrive. Qed.
Lemma run_wide_wv Op vs1 vs2 vd em st : 0 <= vd -> (forall a b k, good (Op a b k)) -> ukeeps (exec_widening_integer_wv Op vs1 vs2 vd em st).
Proof. intros Hvd Hop. unfold exec_widening_integer_wv. vdrive. Qed.
Lemma run_wide_wx Op x vs2 vd em st : 0 <= vd -> (forall a b k, good (Op a b k)) -> ukeeps (exec_widening_integer_wx Op x vs2 vd em st).
Proof. intros Hvd Hop. unfold exec_widening_integer_wx. vdrive. Qed.
Lemma run_narrow_wv Op vs1 vs2 vd em st : 0 <= vd -> (forall a b k, good (Op a b k)) -> ukeeps (exec_integer_narrowing_wv Op vs1 vs2 vd em st).
Proof. intros Hvd Hop. unfold exec_integer_narrowing_wv. vdrive. Qed.
Lemma run_narrow_vx Op x vs2 vd em st : 0 <= vd -> (forall a b k, good (Op a b k)) -> ukeeps (exec_integer_narrowing_vx Op x vs2 vd em st).
Proof. intros Hvd Hop. unfold exec_integer_narrowing_vx. vdrive. Qed.
Lemma run_v Op vs2 vd se de em st : 0 <= vd -> (forall a k, good (Op a k)) -> ukeeps (exec_integer_v Op vs2 vd se de em st).
Proof. intros Hvd Hop. unfold exec_integer_v. vdrive. Qed.
Lemma run_v_ext Op f vs2 vd em st : 0 <= vd -> (forall a k, good (Op a k)) -> ukeeps (exec_integer_v_ext Op f vs2 vd em st).
Proof. intros Hvd Hop. unfold exec_integer_v_ext, exec_integer_v. vdrive. Qed.
Lemma run_whole_move Op vs2 vd lm st : 0 <= vd -> (forall a k, good (Op a k)) -> ukeeps (exec_whole_register_move Op vs2 vd lm st).
Proof. intros Hvd Hop. unfold exec_whole_register_move. vdrive. Qed.
Lemma run_vvm Op vs1 vs2 v0 vd em st : 0 <= vd -> (forall a b c k, good (Op a b c k)) -> ukeeps (exec_integer_vvm Op vs1 vs2 v0 vd em st).
Proof. intros Hvd Hop. unfold exec_integer_vvm. vdrive. Qed.
Lemma run_vxm Op x vs2 v0 vd em st : 0 <= vd -> (forall a b c k, good (Op a b c k)) -> ukeeps (exec_integer_vxm Op x vs2 v0 vd em st).
Proof. intros Hvd Hop. unfold exec_integer_vxm. vdrive. Qed.
Lemma run_mask_vv Op vs1 vs2 vd em st : 0 <= vd -> (forall a b k, good (Op a b k)) -> ukeeps (exec_integer_mask_vv Op vs1 vs2 vd em st).
Proof. intros Hvd Hop. unfold exec_integer_mask_vv. vdrive. Qed.
Lemma run_mask_vx Op x vs2 vd em st : 0 <= vd -> (forall a b k, good (Op a b k)) -> ukeeps (exec_integer_mask_vx Op x vs2 vd em st).
Proof. intros Hvd Hop. unfold exec_integer_mask_vx. vdrive. Qed.
Lemma run_mask_vvm Op vs1 vs2 v0 vd em st : 0 <= vd -> (forall a b c k, good (Op a b c k)) -> ukeeps (exec_integer_mask_vvm Op vs1 vs2 v0 vd em st).
Proof. intros Hvd Hop. unfold exec_integer_mask_vvm. vdrive. Qed.
Lemma run_mask_vxm Op x vs2 v0 vd em st : 0 <= vd -> (forall a b c k, good (Op a b c k)) -> ukeeps (exec_integer_mask_vxm Op x vs2 v0 vd em st).
Proof. intros Hvd Hop. unfold exec_integer_mask_vxm. vdrive. Qed.
Lemma run_mask_unary Op vs2 vd em st : 0 <= vd -> (forall a k, good (Op a k)) -> ukeeps (exec_mask_unary Op vs2 vd em st).
Proof. intros Hvd Hop. unfold exec_mask_unary. vdrive. Qed.
Lemma run_mask_vector Op vs2 vd em st : 0 <= vd -> (forall a k, good (Op a k)) -> ukeeps (exec_mask_to_vector Op vs2 vd em st).
Proof. intros Hvd Hop. unfold exec_mask_to_vector. vdrive. Qed.
Lemma run_index Op vd em st : 0 <= vd -> (forall k, good (Op k)) -> ukeeps (exec_index Op vd em st).
Proof. intros Hvd Hop. unfold exec_index. vdrive. Qed.
Lemma run_fixed_vv Op vs1 vs2 vd em r st : 0 <= vd -> (forall a b k r, good (Op a b k r)) -> ukeeps (exec_fixed_point_vv Op vs1 vs2 vd em r st).
Proof. intros Hvd Hop. unfold exec_fixed_point_vv. vdrive. Qed.
Lemma run_fixed_vx Op x vs2 vd em r st : 0 <= vd -> (forall a b k r, good (Op a b k r)) -> ukeeps (exec_fixed_point_vx Op x vs2 vd em r st).
Proof. intros Hvd Hop. unfold exec_fixed_point_vx. vdrive. Qed.
Lemma run_fixed_narrow_wv Op vs1 vs2 vd em r st : 0 <= vd -> (forall a b k r, good (Op a b k r)) -> ukeeps (exec_fixed_point_narrowing_wv Op vs1 vs2 vd em r st).
Proof. intros Hvd Hop. unfold exec_fixed_point_narrowing_wv. vdrive. Qed.
Lemma run_fixed_narrow_vx Op x vs2 vd em r st : 0 <= vd -> (forall a b k r, good (Op a b k r)) -> ukeeps (exec_fixed_point_narrowing_vx Op x vs2 vd em r st).
Proof. intros Hvd Hop. unfold exec_fixed_point_narrowing_vx. vdrive. Qed.
Lemma run_scalar_move t x vd st : 0 <= vd -> ukeeps (exec_integer_scalar_move t x vd st).
Proof. intros Hvd. unfold exec_integer_scalar_move. vdrive. Qed.
Lemma run_scalar_to_element x vd st : 0 <= vd -> ukeeps (exec_move_scalar_to_element x vd st).
Proof.
  intros Hvd. unfold exec_move_scalar_to_element. vkeep. apply keep_into_vd; [done|]. intros n _ g [Hl Hb].
  unfold bind, gets, assert, at_, unwrap, modify, ret, panic, id. destruct (Z.eqb_spec (sew g) (size_of (ty_of (vsew (config a))))) as [->|]; [|done].
  destruct (lookup_z _ 0) as [x0|] eqn:Ex; [|done]. apply lookup_z_Some in Ex as [Hlen _]. unfold elements in Hlen.
  rewrite length_fmap, length_seqZ in Hlen. split; [|done].
  assert (size_of (ty_of (vsew (config a))) <= Z.of_nat (length (value g))).
  { assert (0 < size_of (ty_of (vsew (config a)))) by by destruct (vsew (config a)).
    apply Z.nlt_ge. intros Hlt. rewrite Z.div_small in Hlen by lia. cbn in Hlen. lia. }
  split; cbn [value set_value]; [rewrite length_store_le; [done|by destruct (vsew (config a))|done|done]|].
  apply bytes_ok_store_le; [by destruct (vsew (config a))|done].
Qed.
End Executions.

(** ** Results that go to an integer register *)
Section Scalars.
Context `{Profile}.

Lemma popcount_u64 {S E} (I : S -> Prop) src k l : forall c, 0 <= c -> c + Z.of_nat (length l) < 2 ^ 64 ->
  triple I (popcount_loop (E := E) src k l c) (uint 64).
Proof.
  induction l as [|i l IH]; intros c Hc Hl; cbn [popcount_loop length] in *; [apply triple_ret; unfold uint; lia|].
  eapply triple_bind with (Q := fun _ => True); [vkeep|]. intros [] _; apply IH; lia.
Qed.

Lemma first_u64 {S E} (I : S -> Prop) src k l : Forall (uint 64) l -> triple I (first_loop (E := E) src k l) (uint 64).
Proof.
  induction 1 as [|i l Hi Hl IH]; cbn [first_loop]; [by apply triple_ret|].
  eapply triple_bind with (Q := fun _ => True); [vkeep|]. intros [] _; [by apply triple_ret|exact IH].
Qed.

Lemma run_popcount vs2 em st : triple vec_ok (exec_mask_to_x vector_op_mask_popcount vs2 em st) (uint 64).
Proof.
  unfold exec_mask_to_x, vector_op_mask_popcount. do 3 (eapply triple_bind; [solve [vkeep]|intros ? _]). by apply popcount_u64.
Qed.

Lemma run_first vs2 em st : triple vec_ok (exec_mask_to_x vector_op_mask_first vs2 em st) (uint 64).
Proof.
  unfold exec_mask_to_x, vector_op_mask_first. do 3 (eapply triple_bind; [solve [vkeep]|intros ? _]). apply first_u64.
  apply list.Forall_forall. intros i Hi%elem_of_seqZ. unfold uint. change (VLEN_BYTE * 8) with 128 in Hi. lia.
Qed.

Lemma run_element_to_scalar vs2 st : 0 <= vs2 ->
  triple vec_ok (exec_move_element_to_scalar vs2 st) (fun o => forall x, o = Some x -> u64 x).
Proof.
  intros Hvs. unfold exec_move_element_to_scalar. eapply triple_bind; [apply keep_gets|intros v _].
  apply triple_if; intros _; [by apply triple_ret|]. cbv zeta. set (e := vsew (config v)).
  apply triple_bind with (Q := fun g => bytes_ok (value g)).
  { intros v' [[Hr Hb] Hl]. unfold source, bind at 1, gets, id, get_ref, read_as_type. unfold bind.
    pose proof (group_offset_result (eq v') (1 * 1) vs2 Hvs v' eq_refl) as Ho.
    destruct (group_offset (1 * 1) vs2 v') as [[off|x|] v1]; [destruct Ho as [<- _]| |done].
    - split; [by split_and!|]. by apply bytes_ok_group.
    - subst v1. by split_and!. }
  intros g Hg. apply triple_bind with (Q := Forall (uint (8 * into_byte_width e))).
  { intros v' Hv'. unfold as_slice, bind, assert, ret, panic. destruct (Z.eqb_spec (sew g) (size_of (ty_of e))) as [->|]; [|done].
    split; [done|]. apply Forall_fmap, Forall_forall. intros i _. cbn. replace (into_byte_width e) with (size_of (ty_of e)) by by destruct e.
    apply elem_load_range; [by destruct e|done]. }
  intros l Hl. eapply triple_bind with (Q := uint (8 * into_byte_width e)).
  { unfold at_. apply triple_unwrap. intros x [_ Hx]%lookup_z_Some. by eapply Forall_lookup_1 in Hl. }
  intros x Hx. apply triple_ret. intros y [= <-]. destruct e; try done; by apply sign_extend_range.
Qed.
End Scalars.

(** ** Memory accesses *)
Section Memory.
Context {D : Type} `{DeviceTrait D} `{Profile}.

Definition unit_bus_ok (s : Vector * MemoryMapIO D) : Prop := vec_ok (fst s) /\ mmio_ok (snd s).
Definition group_bus_ok (n : nat) (s : VGFRef * MemoryMapIO D) : Prop := group_ok n (fst s) /\ mmio_ok (snd s).

Lemma keep_on_vd {A} n (m : M VGFRef VectorMemException A) : keeps (group_ok n) m -> keeps (group_bus_ok n) (on_vd m).
Proof. intros Hm. eapply triple_zoom; [exact Hm|by intros s []|by intros s g []]. Qed.
Lemma keep_on_mem {A} n i (m : M (MemoryMapIO D) MemError A) : keeps mmio_ok m -> keeps (group_bus_ok n) (on_mem i m).
Proof. intros Hm. eapply triple_zoom; [apply triple_map_err, Hm|by intros s []|by intros s g []]. Qed.
Lemma keep_on_bus {A} (m : M (MemoryMapIO D) VectorMemException A) : keeps mmio_ok m -> keeps unit_bus_ok (on_bus m).
Proof. intros Hm. eapply triple_zoom; [exact Hm|by intros s []|by intros s g []]. Qed.

Lemma keep_with_vd {A} vd w lm sg (m : M (VGFRef * MemoryMapIO D) VectorMemException A) : 0 <= vd ->
  (forall n, keeps (group_bus_ok n) m) -> keeps unit_bus_ok (with_vd vd w lm sg m).
Proof.
  intros Hvd Hm. unfold with_vd. eapply triple_bind; [by apply triple_map_err, group_offset_result|]. intros off [Hl ->].
  apply triple_zoom with (J := group_bus_ok (Z.to_nat (VLEN_BYTE * (lm * sg)))).
  - specialize (Hm (Z.to_nat (VLEN_BYTE * (lm * sg)))). vkeep.
  - intros s [[Hr _] Hb]. split; [|done]. split; [|by apply bytes_ok_group, Hr].
    pose proof (length_group_bytes _ _ _ Hr Hl). cbn [fst value]. lia.
  - intros s [g b] [Hv _] [[Hg Hbytes] Hbus]. split; [|done]. apply set_regfile_ok; [done|]. destruct Hv as [Hr _].
    apply put_group_ok; try done. cbn [fst] in *. rewrite Hg. destruct (legal_bound _ _ Hl). assert (VLEN_BYTE = 16) by done. lia.
Qed.

Lemma read_bus t a : keeps mmio_ok (read_by_type (D := D) t a).
Proof. eapply triple_true, read_by_type_triple. Qed.
Lemma write_bus t a v : keeps mmio_ok (write_by_type (D := D) t a v).
Proof. apply write_by_type_triple. Qed.
Lemma indexed_addr b i w j : keeps mmio_ok (VectorIndexedAddrCal_exec (D := D) b i w j).
Proof. unfold VectorIndexedAddrCal_exec. vkeep. apply read_bus. Qed.

Lemma keep_load_element n t k i o a : keeps (group_bus_ok n) (load_element t k i o a).
Proof. unfold load_element. apply keep_bind; [apply keep_on_mem, read_bus|intros v]. apply keep_on_vd. vkeep. Qed.
Lemma keep_op_mask v sg em : keeps unit_bus_ok (op_mask v sg em).
Proof. unfold op_mask, VecOpMask_new. vkeep. Qed.
Lemma keep_vs_group v vs w lm sg : keeps unit_bus_ok (vs_group (D := D) v vs w lm sg).
Proof. unfold vs_group, get_ref, read_as_type. vkeep. apply keep_group_offset. Qed.
Hint Resolve keep_load_element keep_op_mask keep_vs_group : vkeep.

Ltac vmem :=
  repeat first
    [ progress vkeep
    | apply keep_on_vd | apply keep_on_bus | apply keep_on_mem
    | apply keep_with_vd; [assumption|intros ?]
    | apply keep_for_enumerate; intros ? ? | apply keep_for_break; intros ? ?
    | apply read_bus | apply write_bus | apply indexed_addr ].

Lemma mem_stride_load vd e sg st em vs a : 0 <= vd -> keeps unit_bus_ok (stride_load (D := D) vd e sg st em vs a).
Proof. intros Hvd. unfold stride_load, stride_load_loop, element_load_default_by_sew, element_load_default. vmem. Qed.
Lemma mem_indexed_load vd e sg ia em vs a : 0 <= vd -> keeps unit_bus_ok (indexed_ordered_load (D := D) vd e sg ia em vs a).
Proof. intros Hvd. unfold indexed_ordered_load, element_load_default_by_sew, element_load_default. vmem. Qed.
Lemma mem_whole_load vd nf vs a : 0 <= vd -> keeps unit_bus_ok (load_whole_register (D := D) vd nf vs a).
Proof. intros Hvd. unfold load_whole_register, decode_whole_register_count. vmem. Qed.
Lemma mem_stride_store vd e sg st em vs a : keeps unit_bus_ok (stride_store (D := D) vd e sg st em vs a).
Proof. unfold stride_store, store_element, elem_get. vmem. Qed.
Lemma mem_indexed_store vd e sg ia em vs a : keeps unit_bus_ok (indexed_ordered_store (D := D) vd e sg ia em vs a).
Proof. unfold indexed_ordered_store, store_element, elem_get. vmem. Qed.
Lemma mem_whole_store vd nf vs a : keeps unit_bus_ok (store_whole_register (D := D) vd nf vs a).
Proof. unfold store_whole_register, decode_whole_register_count, elem_get. vmem. Qed.

Lemma keep_with_mask_view {A} (m : M (Vector * MemoryMapIO D) VectorMemException A) :
  keeps unit_bus_ok m -> keeps unit_bus_ok (with_config mask_view m).
Proof.
  intros Hm [v b] [[Hr Hl] Hb]. unfold with_config. cbn [fst snd].
  assert (unit_bus_ok (set_cfg (mask_view (config v)) v, b)) as Hok.
  { split; [split; [done|]|done]. cbn in *. unfold uint in *. split; [apply Z.div_pos; lia|]. apply Z.div_lt_upper_bound; lia. }
  specialize (Hm _ Hok). destruct (m _) as [[a|e|] [v' b']]; [destruct Hm as [[[Hr' _] Hb'] _]|destruct Hm as [[Hr' _] Hb']|done]; by split_and!.
Qed.
Lemma mem_mask_load vd vs a : 0 <= vd -> keeps unit_bus_ok (mask_load (D := D) vd vs a).
Proof. intros Hvd. by apply keep_with_mask_view, mem_stride_load. Qed.
Lemma mem_mask_store vd vs a : keeps unit_bus_ok (mask_store (D := D) vd vs a).
Proof. apply keep_with_mask_view, mem_stride_store. Qed.
End Memory.

