(* ===== verification/VectorUnit.v ===== *)
(** * The vector unit keeps its promises to the hart

    The class [LawfulExt] says what the hart expects of its extension units and
    [SettlingExt] what it expects about the trap value.  This file discharges
    both for the vector unit: every vector instruction keeps the invariant of
    the hart and of the vector registers, and one that raises an exception has
    not moved the program counter. *)

From S2P Require Import Prelude Utils TrapTypes Alu Ram CsrTable Csr PageTable Mmio Vm Instr Cpu Trap Exec Invariant Precise ExecutorSpec Vector VectorInt VectorArith VectorFix VectorExec VectorMap VectorSpec VectorHart VectorKeep.

(** ** Vector instructions on a hart *)
Section Hart.
Context {D X : Type} `{DeviceTrait D} `{Profile} `{HasVector X}.
Implicit Types c : RVCPU D X.
Abbreviation CPU := (RVCPU D X).
Abbreviation hkeeps m := (keeps (cpu_wf (D := D) (X := X)) m).
Abbreviation body := (ExecutorSpec.body (D := D) (X := X)).
Abbreviation lawful := (ExecutorSpec.lawful (D := D) (X := X)).

Lemma body_on_vector {A} (m : M Vector Exception A) Q : triple vec_ok m Q -> body (on_vector m) Q.
Proof.
  intros Hm. split; [|by apply still_zoom].
  eapply triple_zoom; [exact Hm|intros c Hc; exact (wf_vec c Hc)|]. intros c v [R P S M I T _] Hv.
  constructor; try done. unfold ext_ok, vector_ext_ok. cbn. by rewrite vector_of_set.
Qed.

Lemma body_on_vmem {A} (m : M (Vector * MemoryMapIO D) VectorMemException A) Q : triple unit_bus_ok m Q -> body (on_vmem m) Q.
Proof.
  intros Hm. split; [|by apply still_zoom].
  eapply triple_zoom; [exact Hm|intros c Hc; split; [exact (wf_vec c Hc)|exact (wf_mem c Hc)]|]. intros c [v b] [R P S M I T _] [Hv Hb].
  constructor; try done. unfold ext_ok, vector_ext_ok. cbn. by rewrite vector_of_set.
Qed.

Lemma body_read_x rs1 : body (read_x rs1) (fun _ => True).
Proof. apply body_reads. unfold read_x, reg_read. solve_reads. Qed.

(** Direct writes of a CSR. *)
Lemma write_csr_directly a v : known a = true -> u64 v ->
  keeps csr_wf (ok <- CsrRegFile_write_directly (E := Exception) a v ;; assert ok).
Proof. intros Hk Hv s Hs. unfold bind. rewrite CsrRegFile_write_directly_run by done. cbn. split; [by apply upd_wf|done]. Qed.

Lemma body_vstart a v : known a = true -> u64 v -> body (ok <- on_csr (CsrRegFile_write_directly a v) ;; assert ok) (fun _ => True).
Proof.
  intros Hk Hv. split.
  - intros c Hc. pose proof (write_csr_directly a v Hk Hv (csr c) (wf_csr c Hc)) as Hw.
    pose proof (wp_on_csr _ _ (write_csr_directly a v Hk Hv) c Hc) as Hw'. unfold on_csr, zoom, bind in *.
    destruct (CsrRegFile_write_directly a v (csr c)) as [[ok|e|] s]; [|done|done]. by destruct ok.
  - apply still_bind; [by apply still_zoom|]. intros [] c; done.
Qed.

Lemma vstart_known : known Vstart = true.
Proof. by destruct (known_vec Vstart eq_refl). Qed.

(** [normal_vector_exec] around a body. *)
Lemma lawful_normal {E} (finish : E -> M CPU Exception Exception) f :
  (forall e, body (finish e) (fun _ => True)) -> (forall vstart, body (f vstart) (fun _ => True)) ->
  lawful (normal_vector_exec finish f).
Proof.
  intros Hfin Hf. assert (forall vs, body (finish_error finish (f vs)) (fun _ => True)) as Hb.
  { intros vs. split.
    - intros c Hc. unfold finish_error. pose proof (proj1 (Hf vs) c Hc) as Hm. destruct (f vs c) as [[a|e|] c1]; [done| |done].
      pose proof (proj1 (Hfin e) c1 Hm) as Hm'. unfold bind. destruct (finish e c1) as [[x|x|] c2]; [by destruct Hm'|done|done].
    - intros c. unfold finish_error. pose proof (proj2 (Hf vs) c) as Hm. destruct (f vs c) as [[a|e|] c1]; [done| |done].
      pose proof (proj2 (Hfin e) c1) as Hm'. unfold bind, err. destruct (finish e c1) as [[x|x|] c2]; cbn [snd] in *; intuition congruence. }
  pose proof (body_vstart Vstart 0 vstart_known ltac:(by split)) as [Hw0 Hs0].
  assert (forall fd, body (on_csr (get_field fd)) (fun _ => True)) as Hg by (intros; apply body_on_csr, reads_triple, get_field_reads).
  assert (no_err (E := Exception) (ok <- on_csr (D := D) (X := X) (CsrRegFile_write_directly Vstart 0) ;; assert ok)) as Hne.
  { apply no_err_bind; [apply no_err_on_csr; unfold CsrRegFile_write_directly; solve_no_err|intros; solve_no_err]. }
  unfold normal_vector_exec, normal_exec. split_and!.
  - apply keep_bind; [apply Hg|intros vs]. apply triple_if; intros _; [apply triple_err|]. apply keep_bind; [apply Hg|intros st].
    apply keep_bind; [|intros _; exact Hw0]. apply keep_bind; [apply Hb|intros _]. apply keep_bind; [apply wp_pc_add|intros _; apply wp_retire].
  - assert (forall A E' (m : M CPU E' A), still m -> quiet m) as Hsq by (intros ??? Hs c; apply Hs).
    apply quiet_bind; [apply Hsq, Hg|intros vs]. destruct (vs =? 0); [done|]. apply quiet_bind; [apply Hsq, Hg|intros st].
    apply quiet_bind; [|intros _; by apply Hsq]. apply quiet_bind; [apply Hsq, Hb|intros _]. repeat quiet_step.
  - intros c e c'. unfold bind at 1. destruct (proj2 (Hg Mstatus_vs) c) as [Hp1 _].
    destruct (on_csr (get_field Mstatus_vs) c) as [[vs|x|] c1]; cbn [snd] in *; [|by intros [= <- <-]|done].
    destruct (vs =? 0); [by intros [= <- <-]|]. unfold bind at 1. destruct (proj2 (Hg Vstart_vstart) c1) as [Hp2 _].
    destruct (on_csr (get_field Vstart_vstart) c1) as [[st|x|] c2]; cbn [snd] in *; [|intros [= <- <-]; congruence|done].
    unfold bind at 1. destruct (bind (finish_error finish (f st)) _ c2) as [[u|x|] c3] eqn:E3; [by intros ?%Hne| |done].
    intros [= <- <-]. unfold bind at 1 in E3. destruct (proj2 (Hb st) c2) as [Hp3 _].
    destruct (finish_error finish (f st) c2) as [[a|y|] c4]; cbn [snd] in *; [|injection E3 as <- <-; congruence|done].
    exfalso. eapply (no_err_bind (pc_add 4) (fun _ => retire)); [apply no_err_pc_add|intros; apply no_err_retire|exact E3].
Qed.

Lemma body_finish_exception e : body (finish_exception (D := D) (X := X) e) (fun _ => True).
Proof. by apply body_ret. Qed.

Lemma body_finish_memory e : body (finish_vector_memory_access (D := D) (X := X) e) (fun _ => True).
Proof.
  unfold finish_vector_memory_access. destruct (fault_index_of e) as [i|]; [|by apply body_ret].
  destruct (body_vstart Vstart (wrap 64 i) vstart_known ltac:(by apply (wrap_range 64))) as [Hw Hs]. split.
  - intros c Hc. specialize (Hw c Hc). unfold bind in *. destruct (on_csr _ c) as [[ok|x|] c1]; [|done|done]. by destruct ok.
  - intros c. specialize (Hs c). unfold bind in *. destruct (on_csr _ c) as [[ok|x|] c1]; [|done|done]. by destruct ok.
Qed.

Lemma lawful_vec_op info f : info_wf info ->
  (forall st rs1 rs2 rd vm, reg_ok rs1 -> reg_ok rs2 -> reg_ok rd -> body (f st rs1 rs2 rd vm) (fun _ => True)) -> lawful (vec_op info f).
Proof.
  intros Hi Hf. apply lawful_normal; [apply body_finish_exception|]. intros st.
  destruct info; try apply body_panic. destruct Hi as (? & ? & ?). by apply Hf.
Qed.

Lemma lawful_vmem_op info f : info_wf info ->
  (forall st rs1 rs2 rd vm u, reg_ok rs1 -> reg_ok rs2 -> reg_ok rd -> body (f st rs1 rs2 rd vm u) (fun _ => True)) -> lawful (vmem_op info f).
Proof.
  intros Hi Hf. apply lawful_normal; [apply body_finish_memory|]. intros st.
  destruct info; try apply body_panic. destruct Hi as (? & ? & ?). by apply Hf.
Qed.

Lemma body_vmem_regs a b : body (vmem_regs (D := D) (X := X) a b) (fun _ => True).
Proof.
  apply body_reads. assert (reads (reg_read (D := D) (X := X) a b)) as Hr by (unfold reg_read; solve_reads).
  intros c. specialize (Hr c). unfold vmem_regs, map_err. by destruct (reg_read a b c) as [[]].
Qed.

Lemma body_debug_assert {E} b : body (debug_assert (E := E) b) (fun _ => True).
Proof. apply body_reads. unfold debug_assert. destruct debug_assertions; [apply reads_assert|done]. Qed.
End Hart.

(** The bodies of the instructions. *)
Ltac vbody :=
  repeat match goal with
  | |- body (bind _ _) _ => apply body_seq; [|intros ?]
  | |- body (read_x _) _ => apply body_read_x
  | |- body (debug_assert _) _ => apply body_debug_assert
  | |- body (vmem_regs _ _) _ => apply body_vmem_regs
  | |- body (ret _) _ => by apply body_ret
  | |- body (err _) _ => apply body_err
  | |- body panic _ => apply body_panic
  | |- body (illegal_if _ _) _ => unfold illegal_if
  | |- body (match ?x with _ => _ end) _ => destruct x
  | |- body (on_vector _) _ => apply body_on_vector
  | |- body (on_vmem _) _ => apply body_on_vmem
  | H : reg_ok ?x |- 0 <= ?x => apply H
  end.

Section Instructions.
Context {D X : Type} `{DeviceTrait D} `{Profile} `{HasVector X}.
Abbreviation good Op := (forall n, (n mod 4 = 0)%nat -> keeps (group_ok n) Op).
Abbreviation lawf m := (lawful (D := D) (X := X) m).

Lemma law_integer_op_vv Op info : info_wf info -> (forall a b k, good (Op a b k)) -> lawf (vec_integer_op_vv Op info).
Proof. intros Hi Hop. apply lawful_vec_op; [done|]. intros. vbody. apply run_vv; [vbody|done]. Qed.
Lemma law_bit_op_vv Op info : info_wf info -> (forall a b k, good (Op a b k)) -> lawf (vec_bit_op_vv Op info).
Proof. intros Hi Hop. apply lawful_vec_op; [done|]. intros. vbody. apply run_bit_vv; [vbody|done]. Qed.
Lemma law_integer_op_vx Op info : info_wf info -> (forall a b k, good (Op a b k)) -> lawf (vec_integer_op_vx Op info).
Proof. intros Hi Hop. apply lawful_vec_op; [done|]. intros. vbody. apply run_vx; [vbody|done]. Qed.
Lemma law_integer_op_vvv Op info : info_wf info -> (forall a b d k, good (Op a b d k)) -> lawf (vec_integer_op_vvv Op info).
Proof. intros Hi Hop. apply lawful_vec_op; [done|]. intros. vbody. apply run_vvv; [vbody|done]. Qed.
Lemma law_integer_op_vxv Op info : info_wf info -> (forall a b d k, good (Op a b d k)) -> lawf (vec_integer_op_vxv Op info).
Proof. intros Hi Hop. apply lawful_vec_op; [done|]. intros. vbody. apply run_vxv; [vbody|done]. Qed.
Lemma law_widening_integer_op_vv Op info : info_wf info -> (forall a b k, good (Op a b k)) -> lawf (vec_widening_integer_op_vv Op info).
Proof. intros Hi Hop. apply lawful_vec_op; [done|]. intros. vbody. apply run_wide_vv; [vbody|done]. Qed.
Lemma law_widening_integer_op_vvv Op info : info_wf info -> (forall a b d k, good (Op a b d k)) -> lawf (vec_widening_integer_op_vvv Op info).
Proof. intros Hi Hop. apply lawful_vec_op; [done|]. intros. vbody. apply run_wide_vvv; [vbody|done]. Qed.
Lemma law_widening_integer_op_vxv Op info : info_wf info -> (forall a b d k, good (Op a b d k)) -> lawf (vec_widening_integer_op_vxv Op info).
Proof. intros Hi Hop. apply lawful_vec_op; [done|]. intros. vbody. apply run_wide_vxv; [vbody|done]. Qed.
Lemma law_widening_integer_op_vx Op info : info_wf info -> (forall a b k, good (Op a b k)) -> lawf (vec_widening_integer_op_vx Op info).
Proof. intros Hi Hop. apply lawful_vec_op; [done|]. intros. vbody. apply run_wide_vx; [vbody|done]. Qed.
Lemma law_widening_integer_op_wv Op info : info_wf info -> (forall a b k, good (Op a b k)) -> lawf (vec_widening_integer_op_wv Op info).
Proof. intros Hi Hop. apply lawful_vec_op; [done|]. intros. vbody. apply run_wide_wv; [vbody|done]. Qed.
Lemma law_widening_integer_op_wx Op info : info_wf info -> (forall a b k, good (Op a b k)) -> lawf (vec_widening_integer_op_wx Op info).
Proof. intros Hi Hop. apply lawful_vec_op; [done|]. intros. vbody. apply run_wide_wx; [vbody|done]. Qed.
Lemma law_integer_op_vi_signed Op info : info_wf info -> (forall a b k, good (Op a b k)) -> lawf (vec_integer_op_vi_signed Op info).
Proof. intros Hi Hop. apply lawful_vec_op; [done|]. intros. vbody. apply run_vx; [vbody|done]. Qed.
Lemma law_integer_op_vi_unsigned Op info : info_wf info -> (forall a b k, good (Op a b k)) -> lawf (vec_integer_op_vi_unsigned Op info).
Proof. intros Hi Hop. apply lawful_vec_op; [done|]. intros. vbody. apply run_vx; [vbody|done]. Qed.
Lemma law_integer_op_vvm Op info : info_wf info -> (forall a b c k, good (Op a b c k)) -> lawf (vec_integer_op_vvm Op info).
Proof. intros Hi Hop. apply lawful_vec_op; [done|]. intros. vbody. apply run_vvm; [vbody|done]. Qed.
Lemma law_integer_op_vxm Op info : info_wf info -> (forall a b c k, good (Op a b c k)) -> lawf (vec_integer_op_vxm Op info).
Proof. intros Hi Hop. apply lawful_vec_op; [done|]. intros. vbody. apply run_vxm; [vbody|done]. Qed.
Lemma law_integer_mask_op_vv Op info : info_wf info -> (forall a b k, good (Op a b k)) -> lawf (vec_integer_mask_op_vv Op info).
Proof. intros Hi Hop. apply lawful_vec_op; [done|]. intros. vbody. apply run_mask_vv; [vbody|done]. Qed.
Lemma law_integer_mask_op_vx Op info : info_wf info -> (forall a b k, good (Op a b k)) -> lawf (vec_integer_mask_op_vx Op info).
Proof. intros Hi Hop. apply lawful_vec_op; [done|]. intros. vbody. apply run_mask_vx; [vbody|done]. Qed.
Lemma law_integer_mask_op_vi Op info : info_wf info -> (forall a b k, good (Op a b k)) -> lawf (vec_integer_mask_op_vi Op info).
Proof. intros Hi Hop. apply lawful_vec_op; [done|]. intros. vbody. apply run_mask_vx; [vbody|done]. Qed.
Lemma law_ext_op_v Op f info : info_wf info -> (forall a k, good (Op a k)) -> lawf (vec_integer_ext_op_v Op f info).
Proof. intros Hi Hop. apply lawful_vec_op; [done|]. intros. vbody. apply run_v_ext; [vbody|done]. Qed.

Lemma body_rounding_mode : body (cpu_rounding_mode (D := D) (X := X)) (fun _ => True).
Proof.
  apply body_seq; [apply body_on_csr, reads_triple, get_field_reads|]. intros m.
  destruct m as [|[[|[]|]|[[]|[]|]|]|]; try apply body_panic; by apply body_ret.
Qed.

Lemma body_finish_fixed b : body (finish_fixed_point_op (D := D) (X := X) b) (fun _ => True).
Proof.
  unfold finish_fixed_point_op. destruct b; [|by apply body_ret]. apply body_on_csr. intros s Hs.
  destruct (known_vec Vcsr eq_refl) as [Hk Hi]. rewrite set_field_directly_run; [|done|by cbn [fl_csr Vcsr_vxsat]; rewrite Hi|split_and!; done|done].
  split; [|done]. apply upd_wf; [done|]. apply fset_range; [done..|by apply val_u64].
Qed.
Lemma law_fixed_point_op_vv Op info : info_wf info -> (forall a b k r, good (Op a b k r)) -> lawf (vec_fixed_point_op_vv Op info).
Proof.
  intros Hi Hop. apply lawful_vec_op; [done|]. intros. vbody; auto using body_rounding_mode, body_finish_fixed.
  apply run_fixed_vv; [vbody|done].
Qed.
Lemma law_fixed_point_op_vx Op info : info_wf info -> (forall a b k r, good (Op a b k r)) -> lawf (vec_fixed_point_op_vx Op info).
Proof.
  intros Hi Hop. apply lawful_vec_op; [done|]. intros. vbody; auto using body_rounding_mode, body_finish_fixed.
  apply run_fixed_vx; [vbody|done].
Qed.
Lemma law_fixed_point_narrowing_op_wv Op info : info_wf info -> (forall a b k r, good (Op a b k r)) -> lawf (vec_fixed_point_narrowing_op_wv Op info).
Proof.
  intros Hi Hop. apply lawful_vec_op; [done|]. intros. vbody; auto using body_rounding_mode, body_finish_fixed.
  apply run_fixed_narrow_wv; [vbody|done].
Qed.
Lemma law_fixed_point_narrowing_op_wx Op info : info_wf info -> (forall a b k r, good (Op a b k r)) -> lawf (vec_fixed_point_narrowing_op_wx Op info).
Proof.
  intros Hi Hop. apply lawful_vec_op; [done|]. intros. vbody; auto using body_rounding_mode, body_finish_fixed.
  apply run_fixed_narrow_vx; [vbody|done].
Qed.
Lemma law_fixed_point_narrowing_op_wi Op info : info_wf info -> (forall a b k r, good (Op a b k r)) -> lawf (vec_fixed_point_narrowing_op_wi Op info).
Proof.
  intros Hi Hop. apply lawful_vec_op; [done|]. intros. vbody; auto using body_rounding_mode, body_finish_fixed.
  apply run_fixed_narrow_vx; [vbody|done].
Qed.
Lemma law_fixed_point_op_vi Op sg info : info_wf info -> (forall a b k r, good (Op a b k r)) -> lawf (vec_fixed_point_op_vi Op sg info).
Proof.
  intros Hi Hop. apply lawful_vec_op; [done|]. intros. cbv zeta. vbody; auto using body_rounding_mode, body_finish_fixed.
  apply run_fixed_vx; [vbody|done].
Qed.
Lemma law_unit_stride_load EEW info : info_wf info -> lawf (vector_unit_stride_load EEW info).
Proof. intros Hi. apply lawful_vmem_op; [done|]. intros. vbody. apply mem_stride_load; vbody. Qed.
Lemma law_whole_register_load info : info_wf info -> lawf (vector_whole_register_load info).
Proof. intros Hi. apply lawful_vmem_op; [done|]. intros. vbody. apply mem_whole_load; vbody. Qed.
Lemma law_mask_load info : info_wf info -> lawf (vector_mask_load info).
Proof. intros Hi. apply lawful_vmem_op; [done|]. intros. vbody. apply mem_mask_load; vbody. Qed.
Lemma law_constant_stride_load EEW info : info_wf info -> lawf (vector_constant_stride_load EEW info).
Proof. intros Hi. apply lawful_vmem_op; [done|]. intros. vbody. apply mem_stride_load; vbody. Qed.
Lemma law_indexed_ordered_load EEW info : info_wf info -> lawf (vector_indexed_ordered_load EEW info).
Proof. intros Hi. apply lawful_vmem_op; [done|]. intros. vbody. apply mem_indexed_load; vbody. Qed.
Lemma law_unit_stride_store EEW info : info_wf info -> lawf (vector_unit_stride_store EEW info).
Proof. intros Hi. apply lawful_vmem_op; [done|]. intros. vbody. apply mem_stride_store. Qed.
Lemma law_whole_register_store info : info_wf info -> lawf (vector_whole_register_store info).
Proof. intros Hi. apply lawful_vmem_op; [done|]. intros. vbody. apply mem_whole_store. Qed.
Lemma law_mask_store info : info_wf info -> lawf (vector_mask_store info).
Proof. intros Hi. apply lawful_vmem_op; [done|]. intros. vbody. apply mem_mask_store. Qed.
Lemma law_constant_stride_store EEW info : info_wf info -> lawf (vector_constant_stride_store EEW info).
Proof. intros Hi. apply lawful_vmem_op; [done|]. intros. vbody. apply mem_stride_store. Qed.
Lemma law_indexed_ordered_store EEW info : info_wf info -> lawf (vector_indexed_ordered_store EEW info).
Proof. intros Hi. apply lawful_vmem_op; [done|]. intros. vbody. apply mem_indexed_store. Qed.
Lemma law_unimplemented info : lawf (vmem_op info (fun _ _ _ _ _ _ => panic)).
Proof. apply lawful_normal; [apply body_finish_memory|]. intros st. destruct info; apply body_panic. Qed.

Lemma law_whole_register_move lm info : info_wf info -> lawf (vec_whole_register_move_op_v lm info).
Proof.
  intros Hi. apply lawful_normal; [apply body_finish_exception|]. intros st.
  apply body_seq; [|intros e; destruct info; try apply body_panic; destruct Hi as (? & ? & ?)].
  - destruct lm as [|[[[[]|[]|]|[[]|[]|]|]|[[[]|[]|]|[[]|[]|]|]|]|]; try apply body_err; by apply body_ret.
  - cbn [with_v]. vbody. apply run_whole_move; [vbody|]. intros ????. apply op_move.
Qed.

Hint Resolve op_slideup op_slidedown op_slide1up op_slide1down op_gather_vv op_gather_vx op_gather_ei16 op_compress
  op_mask_vvm op_mask_vxm op_narrowing_wv op_narrowing_vx op_vxm_binary op_merge_vxm op_move op_before_first op_iota op_index : core.

Ltac vrun :=
  match goal with
  | |- triple _ (exec_integer_slideup _ _ _ _ _ _) _ => apply run_slideup
  | |- triple _ (exec_integer_slidedown _ _ _ _ _ _) _ => apply run_slidedown
  | |- triple _ (exec_integer_gather_vv _ _ _ _ _ _) _ => apply run_gather_vv
  | |- triple _ (exec_integer_gather_vx _ _ _ _ _ _) _ => apply run_gather_vx
  | |- triple _ (exec_integer_gather_ei16_vv _ _ _ _ _ _) _ => apply run_gather_ei16
  | |- triple _ (exec_compress _ _ _ _ _) _ => apply run_compress
  | |- triple _ (exec_integer_v _ _ _ _ _ _ _) _ => apply run_v
  | |- triple _ (exec_integer_scalar_move _ _ _ _) _ => apply run_scalar_move
  | |- triple _ (exec_move_scalar_to_element _ _ _) _ => apply run_scalar_to_element
  | |- triple _ (exec_integer_narrowing_wv _ _ _ _ _ _) _ => apply run_narrow_wv
  | |- triple _ (exec_integer_narrowing_vx _ _ _ _ _ _) _ => apply run_narrow_vx
  | |- triple _ (exec_integer_mask_vvm _ _ _ _ _ _ _) _ => apply run_mask_vvm
  | |- triple _ (exec_integer_mask_vxm _ _ _ _ _ _ _) _ => apply run_mask_vxm
  | |- triple _ (exec_integer_vxm _ _ _ _ _ _ _) _ => apply run_vxm
  | |- triple _ (exec_mask_unary _ _ _ _ _) _ => apply run_mask_unary
  | |- triple _ (exec_mask_to_vector _ _ _ _ _) _ => apply run_mask_vector
  | |- triple _ (exec_index _ _ _ _) _ => apply run_index
  end.

Lemma body_permute i st rs1 rs2 rd vm : reg_ok rs1 -> reg_ok rs2 -> reg_ok rd ->
  body (spec_permute (D := D) (X := X) i st rs1 rs2 rd vm) (fun _ => True).
Proof.
  intros. destruct i; cbn [spec_permute]; vbody; vrun; solve [vbody | auto].
Qed.

Lemma body_arith i st rs1 rs2 rd vm : reg_ok rs1 -> reg_ok rs2 -> reg_ok rd ->
  body (spec_arith (D := D) (X := X) i st rs1 rs2 rd vm) (fun _ => True).
Proof.
  intros. destruct i; cbn [spec_arith]; try solve [vbody; vrun;
    unfold MADC, MSBC, MADCX, MSBCX, NSRL, NSRA, NSRLX, NSRAX; solve [vbody | auto]].
  unfold illegal_if. destruct (negb (rs1 =? 0)); [apply body_err|].
  destruct (body_on_vector (D := D) (X := X) _ _ (run_element_to_scalar rs2 st (proj1 H3))) as [Ht Hs]. split.
  - eapply triple_bind; [exact Ht|]. intros [v|] Hv; [apply body_reg_write; [done|by apply Hv]|by apply triple_ret].
  - apply still_bind; [done|]. intros [v|]; [apply still_reg_write|done].
Qed.

Lemma body_to_register (m : M Vector Exception Z) rd : reg_ok rd -> triple vec_ok m (uint 64) ->
  body (D := D) (X := X) (v <- on_vector m ;; reg_write rd v) (fun _ => True).
Proof.
  intros Hrd Hm. destruct (body_on_vector (D := D) (X := X) _ _ Hm) as [Ht Hs]. split.
  - eapply triple_bind; [exact Ht|]. intros v Hv. by apply body_reg_write.
  - apply still_bind; [done|]. intros v. apply still_reg_write.
Qed.

Lemma body_mask i st rs1 rs2 rd vm : reg_ok rs1 -> reg_ok rs2 -> reg_ok rd ->
  body (spec_mask (D := D) (X := X) i st rs1 rs2 rd vm) (fun _ => True).
Proof.
  intros. destruct i; cbn [spec_mask];
    first [ apply body_to_register; [done|first [apply run_popcount | apply run_first]]
          | vbody; vrun; solve [vbody | auto]
          | apply body_panic ].
Qed.

Lemma law_spec_op i info : info_wf info -> lawf (vec_integer_spec_op i info).
Proof.
  intros Hi. apply lawful_vec_op; [done|]. intros. destruct i; auto using body_permute, body_arith, body_mask.
Qed.
End Instructions.

(** ** vsetvl *)
Section Config.
Context {D X : Type} `{DeviceTrait D} `{Profile} `{HasVector X}.
Implicit Types c : RVCPU D X.

Lemma extract_config_ok T imm rs1 : reg_ok rs1 ->
  triple (cpu_wf (D := D) (X := X)) (extract_config T imm rs1) (fun f => u64 (cf_vtype f) /\ u64 (cf_input_len f)).
Proof.
  intros Hr. destruct T; cbn [extract_config]; (eapply triple_bind; [apply keep_debug_assert|intros _ _]).
  - apply triple_ret. split; [by apply (uint_land_r 64), uint_bnot|]. unfold reg_ok, u64 in *. cbn. lia.
  - eapply triple_bind; [apply wp_reg_at|]. intros l Hl. apply triple_ret. split; [by apply (uint_land_r 64), uint_bnot|done].
  - eapply triple_bind; [apply wp_reg_at|]. intros v Hv. eapply triple_bind; [apply wp_reg_at|]. intros l Hl. by apply triple_ret.
Qed.

Lemma extract_config_reads T imm rs1 : reads (extract_config (D := D) (X := X) T imm rs1).
Proof.
  assert (forall b, reads (debug_assert (S := RVCPU D X) (E := Exception) b)) by (intros b; unfold debug_assert; destruct debug_assertions; [apply reads_assert|done]).
  destruct T; cbn [extract_config]; repeat (apply reads_bind; [solve [auto using reg_at_reads]|intros ?]); done.
Qed.

Lemma vlmax_range vtype n : vsetvl_vlmax vtype = Some n -> 0 <= n <= 128.
Proof.
  unfold vsetvl_vlmax. set (s := Z.land (Z.shiftr vtype 3) 7). set (m := Z.land vtype 7).
  assert (0 <= s < 2 ^ 3) as Hs by (by apply (uint_land_r 3)). assert (0 <= m < 2 ^ 3) as Hm by (by apply (uint_land_r 3)). clearbody s m.
  assert (s = 0 \/ s = 1 \/ s = 2 \/ s = 3 \/ s = 4 \/ s = 5 \/ s = 6 \/ s = 7) as Hs' by lia.
  assert (m = 0 \/ m = 1 \/ m = 2 \/ m = 3 \/ m = 4 \/ m = 5 \/ m = 6 \/ m = 7) as Hm' by lia. clear Hs Hm.
  destruct_or!; subst; vm_compute; intros [= <-]; split; discriminate.
Qed.

Lemma config_rest f vd : u64 (cf_vtype f) -> u64 (cf_input_len f) -> reg_ok vd ->
  keeps (cpu_wf (D := D) (X := X)) (config_result f vd).
Proof.
  intros Ht Hl Hvd. unfold config_result. destruct (known_vec Vtype eq_refl) as [Hk Hi].
  apply keep_bind; [apply wp_on_csr|intros _].
  { intros s Hs. rewrite set_data_directly_run by (done || by rewrite Hi). split; [|done]. apply upd_wf; [done|].
    apply (uint_lor 64); [done|exact Ht|]. by destruct (vsetvl_vlmax (cf_vtype f)). }
  destruct (vsetvl_vlmax (cf_vtype f)) as [n|] eqn:En.
  - apply vlmax_range in En. cbv zeta. set (l := Z.min (cf_input_len f) n).
    assert (u64 l) as Hl' by (unfold u64, l in *; lia). vkeep.
    + apply wp_on_csr. intros s Hs. rewrite CsrRegFile_write_directly_run by (done || apply known_vec; done). split; [by apply upd_wf|done].
    + apply body_on_vector, triple_modify; [|done]. intros v [Hr _]. split; [done|]. by apply wrap_range.
    + by apply body_reg_write.
  - apply keep_bind; [by apply body_reg_write|intros _; apply triple_err].
Qed.

Lemma config_still f vd : still (config_result (D := D) (X := X) f vd).
Proof.
  unfold config_result. apply still_bind; [by apply still_zoom|intros _]. destruct (vsetvl_vlmax _) as [n|]; cbv zeta.
  - do 2 (apply still_bind; [intros c; by destruct (_ (Z.land _ _))|intros ?]).
    apply still_bind; [by apply still_zoom|intros ok]. apply still_bind; [by destruct ok|intros _].
    apply still_bind; [by apply still_zoom|intros _]. apply still_reg_write.
  - apply still_bind; [apply still_reg_write|done].
Qed.

Lemma law_config T info : info_wf info -> lawful (D := D) (X := X) (exec_vector_config T info).
Proof.
  intros Hi. apply lawful_normal; [apply body_finish_exception|]. intros _. destruct info; try apply body_panic.
  destruct Hi as (H1' & _ & Hrd). split.
  - eapply triple_bind; [by apply extract_config_ok|]. intros f [? ?]. by apply config_rest.
  - apply still_bind; [intros c; by rewrite extract_config_reads|]. intros f. apply config_still.
Qed.
End Config.

(** ** The promises *)
Section Unit.
Context {D X : Type} `{DeviceTrait D} `{Profile} `{HasVector X}.
Implicit Types c : RVCPU D X.

Ltac law_op := solve [assumption | intros; auto with vop | intros; by apply op_bit_vv].
Ltac law :=
  match goal with
  | |- lawful (vec_integer_op_vv _ _) => apply law_integer_op_vv; law_op
  | |- lawful (vec_integer_op_vx _ _) => apply law_integer_op_vx; law_op
  | |- lawful (vec_integer_spec_op _ _) => apply law_spec_op; law_op
  | |- lawful (vec_integer_mask_op_vv _ _) => apply law_integer_mask_op_vv; law_op
  | |- lawful (vec_integer_mask_op_vx _ _) => apply law_integer_mask_op_vx; law_op
  | |- lawful (vec_integer_mask_op_vi _ _) => apply law_integer_mask_op_vi; law_op
  | |- lawful (vec_integer_op_vi_signed _ _) => apply law_integer_op_vi_signed; law_op
  | |- lawful (vec_integer_op_vi_unsigned _ _) => apply law_integer_op_vi_unsigned; law_op
  | |- lawful (vec_integer_op_vvv _ _) => apply law_integer_op_vvv; law_op
  | |- lawful (vec_integer_op_vxv _ _) => apply law_integer_op_vxv; law_op
  | |- lawful (vec_integer_op_vvm _ _) => apply law_integer_op_vvm; law_op
  | |- lawful (vec_integer_op_vxm _ _) => apply law_integer_op_vxm; law_op
  | |- lawful (vec_widening_integer_op_vv _ _) => apply law_widening_integer_op_vv; law_op
  | |- lawful (vec_widening_integer_op_vx _ _) => apply law_widening_integer_op_vx; law_op
  | |- lawful (vec_widening_integer_op_wv _ _) => apply law_widening_integer_op_wv; law_op
  | |- lawful (vec_widening_integer_op_wx _ _) => apply law_widening_integer_op_wx; law_op
  | |- lawful (vec_widening_integer_op_vvv _ _) => apply law_widening_integer_op_vvv; law_op
  | |- lawful (vec_widening_integer_op_vxv _ _) => apply law_widening_integer_op_vxv; law_op
  | |- lawful (vec_fixed_point_op_vv _ _) => apply law_fixed_point_op_vv; law_op
  | |- lawful (vec_fixed_point_op_vx _ _) => apply law_fixed_point_op_vx; law_op
  | |- lawful (vec_fixed_point_op_vi _ _ _) => apply law_fixed_point_op_vi; law_op
  | |- lawful (vec_fixed_point_narrowing_op_wv _ _) => apply law_fixed_point_narrowing_op_wv; law_op
  | |- lawful (vec_fixed_point_narrowing_op_wx _ _) => apply law_fixed_point_narrowing_op_wx; law_op
  | |- lawful (vec_fixed_point_narrowing_op_wi _ _) => apply law_fixed_point_narrowing_op_wi; law_op
  | |- lawful (vec_bit_op_vv _ _) => apply law_bit_op_vv; law_op
  | |- lawful (vec_integer_ext_op_v _ _ _) => apply law_ext_op_v; law_op
  | |- lawful (vec_whole_register_move_op_v _ _) => apply law_whole_register_move; law_op
  | |- lawful (exec_vector_config _ _) => apply law_config; law_op
  | |- lawful (vector_unit_stride_load _ _) => apply law_unit_stride_load; law_op
  | |- lawful (vector_whole_register_load _) => apply law_whole_register_load; law_op
  | |- lawful (vector_mask_load _) => apply law_mask_load; law_op
  | |- lawful (vector_constant_stride_load _ _) => apply law_constant_stride_load; law_op
  | |- lawful (vector_indexed_ordered_load _ _) => apply law_indexed_ordered_load; law_op
  | |- lawful (vector_unit_stride_store _ _) => apply law_unit_stride_store; law_op
  | |- lawful (vector_whole_register_store _) => apply law_whole_register_store; law_op
  | |- lawful (vector_mask_store _) => apply law_mask_store; law_op
  | |- lawful (vector_constant_stride_store _ _) => apply law_constant_stride_store; law_op
  | |- lawful (vector_indexed_ordered_store _ _) => apply law_indexed_ordered_store; law_op
  | |- lawful _ => apply law_unimplemented
  end.

(** Every arm of a table is lawful. *)
Definition table_ok (t : VInstr -> option (RVInstrInfo -> M (RVCPU D X) Exception unit)) : Prop :=
  forall i, match t i with Some f => forall info, info_wf info -> lawful (f info) | None => True end.

Lemma table_lawful t i exec info : table_ok t -> t i = Some exec -> info_wf info -> lawful (exec info).
Proof. intros Ht Hi. specialize (Ht i). rewrite Hi in Ht. apply Ht. Qed.

Tactic Notation "law_table" reference(t) := intros i; destruct i; cbn [t]; try exact I; intros info Hinfo; law.

Lemma config_table : table_ok rv_v_config.
Proof. law_table rv_v_config. Qed.
Lemma opivv_table : table_ok rv_v_opivv.
Proof. law_table rv_v_opivv. Qed.
Lemma opivx_table : table_ok rv_v_opivx.
Proof. law_table rv_v_opivx. Qed.
Lemma opivi_table : table_ok rv_v_opivi.
Proof. law_table rv_v_opivi. Qed.
Lemma opmvv_table : table_ok rv_v_opmvv.
Proof. law_table rv_v_opmvv. Qed.
Lemma opmvx_table : table_ok rv_v_opmvx.
Proof. law_table rv_v_opmvx. Qed.
Lemma loads_table : table_ok rv_v_loads.
Proof. law_table rv_v_loads. Qed.
Lemma stores_table : table_ok rv_v_stores.
Proof. law_table rv_v_stores. Qed.

Lemma vector_exec_lawful i exec info : vector_exec_func (D := D) (X := X) i = Some exec -> info_wf info -> lawful (exec info).
Proof.
  unfold vector_exec_func, first_some, foldr. intros Hi Hinfo.
  repeat match type of Hi with
  | match ?t with Some _ => _ | None => _ end = _ => destruct t eqn:Et; [injection Hi as ->|clear Et]
  end; [..|done]; eapply table_lawful; try exact Et; try exact Hinfo;
    auto using config_table, opivv_table, opivx_table, opivi_table, opmvv_table, opmvx_table, loads_table, stores_table.
Qed.

(** The extension units of a hart with a vector unit: the build numbers the
    instructions, [vector_instr] says which are vector instructions, and [rest]
    executes the others. *)
Context (vector_instr : RiscvInstr -> option VInstr) (rest : ExtUnit D X).

#[local] Instance vector_unit : ExtUnit D X := {|
  exec_ext i := match vector_instr i with
                | Some v => default (fun _ => panic) (vector_exec_func v)
                | None => exec_ext (ExtUnit := rest) i
                end |}.

Lemma unit_exec i v : vector_instr i = Some v -> exists exec, vector_exec_func v = Some exec /\ exec_ext i = exec.
Proof.
  intros Hv. destruct (vector_exec_func_total (D := D) (X := X) v) as [exec Hx]. exists exec. split; [done|].
  cbv [exec_ext vector_unit]. by rewrite Hv, Hx.
Qed.

Lemma rest_exec i : vector_instr i = None -> exec_ext i = exec_ext (ExtUnit := rest) i.
Proof. intros Hv. cbv [exec_ext vector_unit]. by rewrite Hv. Qed.

(** With lawful other units, the units of the hart are lawful. *)
Lemma vector_unit_lawful : LawfulExt D X (H := rest) -> LawfulExt D X (H := vector_unit).
Proof.
  intros [Hk He]. split; intros i info.
  - intros Hi. destruct (vector_instr i) as [v|] eqn:Hv; [|rewrite rest_exec by done; by apply Hk].
    destruct (unit_exec i v Hv) as (exec & Hx & ->). apply (vector_exec_lawful v exec info Hx Hi).
  - intros c c' e Hi. destruct (vector_instr i) as [v|] eqn:Hv; [|rewrite rest_exec by done; by apply He].
    destruct (unit_exec i v Hv) as (exec & Hx & ->). apply (vector_exec_lawful v exec info Hx Hi).
Qed.

Lemma vector_unit_settles (Hl : LawfulExt D X (H := rest)) : SettlingExt D X (H := rest) ->
  SettlingExt D X (H := vector_unit) (H1 := vector_unit_lawful Hl).
Proof.
  intros Hs i info Hi. destruct (vector_instr i) as [v|] eqn:Hv; [|rewrite rest_exec by done; by apply Hs].
  destruct (unit_exec i v Hv) as (exec & Hx & ->). apply quiet_settles, (vector_exec_lawful v exec info Hx Hi).
Qed.
End Unit.

Section Promise.
Context {D X : Type} `{DeviceTrait D} `{Profile} `{HasVector X}.

(** C13: Every vector instruction the decoder can produce, with any operands and
    whether it retires or raises an exception, keeps the invariant of the hart:
    the vector registers stay 32 registers of 16 bytes, the vector length a
    16-bit number, the integer registers 64-bit words with [x0] zero, the CSRs
    well-formed and RAM made of bytes.  It leaves the pending trap value alone,
    and when it raises an exception the program counter is still on the
    instruction.  Nothing is said of an execution in which the emulator itself
    panics ([r <> Panic]); guest code can bring that about, for example with a
    vslidedown.vx whose offset overflows in a build with overflow checks. *)
Theorem vector_instructions_keep_hart i exec info (c c' : RVCPU D X) r :
  vector_exec_func i = Some exec -> info_wf info -> cpu_wf c -> exec info c = (r, c') -> r <> Panic ->
  cpu_wf c' /\ pending_tval c' = pending_tval c /\ (forall e, r = Err e -> pc c' = pc c).
Proof.
  intros Hx Hi Hc E Hr. destruct (vector_exec_lawful i exec info Hx Hi) as (Hk & Hq & Hp). split_and!.
  - by eapply triple_run.
  - specialize (Hq c). by rewrite E in Hq.
  - intros e ->. by eapply Hp.
Qed.
End Promise.

(** vid.v with eight of sixteen elements active, on registers that are not
    cleared before. *)
Lemma vector_instructions_keep_hart_witness :
  let D := demo_device in let P := dev in let c := demo_vec_hart (demo_vector E8 M1 true false 8) [] in
  exists exec c', vector_exec_func VID_V = Some exec /\ exec (IV 17 0 3 true 0x14) c = (Ok tt, c') /\ cpu_wf c' /\
    reg_elem (vector_regfile (vec_of c')) 1 3 7 = 7.
Proof.
  intros D P c. eexists _, _. split; [reflexivity|]. split; [vm_compute; reflexivity|]. split; [|vm_compute; reflexivity].
  refine (proj1 (vector_instructions_keep_hart VID_V _ (IV 17 0 3 true 0x14) c _ (Ok tt) eq_refl _ _ _ _)).
  - repeat split; discriminate.
  - apply demo_vec_wf; [by apply demo_vec_ok|constructor].
  - vm_compute. reflexivity.
  - discriminate.
Defined.
