(* ===== verification/VirtQueue.v ===== *)
(** * VirtIO queues (src/src/device/virtio/virtio_queue.rs)

    A split queue lies in guest memory: the descriptor table, the ring of
    available chains written by the driver and the ring of used chains written
    by the device.  A host pointer into guest memory is its offset from
    [ram_base_raw], a null pointer is [None].  A raw slice or a dereference that
    leaves the allocation is undefined behaviour, and so is a value that is not
    a variant of an enum read from memory: both are [Panic] here, so that
    "does not panic" says that the queue code stays inside guest memory. *)

From S2P Require Import Prelude Utils TrapTypes Ram.

Section Guest.
Context {E : Type}.

(** ** Raw accesses to guest memory *)

Definition guest_load (off : Z) (n : nat) : M Ram E Z :=
  assert ((0 <=? off) && (off + Z.of_nat n <=? SIZE)) ;;; gets (fun r => load_le r off n).

Definition guest_store (off : Z) (n : nat) (v : Z) : M Ram E unit :=
  assert ((0 <=? off) && (off + Z.of_nat n <=? SIZE)) ;;; modify (set_data (store_bytes off (split_le n v))).

(** [slice::from_raw_parts] for [count] elements of [size] bytes. *)
Record RawSlice : Type := { sl_base : Z; sl_len : Z }.

Definition from_raw_parts (base count size : Z) : M Ram E RawSlice :=
  assert ((0 <=? base) && (base + count * size <=? SIZE)) ;;; ret {| sl_base := base; sl_len := count |}.

(** ** Descriptors *)

Definition VIRTQ_DESC_F_NEXT : Z := Z.shiftl 1 0.
Definition VIRTQ_DESC_F_WRITE : Z := Z.shiftl 1 1.
Definition VIRTQ_DESC_F_INDIRECT : Z := Z.shiftl 1 2.
Definition contains (bits flag : Z) : bool := Z.land bits flag =? flag.

Record VirtQueueDesc : Type := { paddr : Z; len : Z; flags : Z; next : Z }.

Definition SIZEOF_DESC : Z := 16.
Definition ALIGNOF_DESC : Z := 8.

(** The [repr(C)] layout of [VirtQueueDesc]. *)
Definition desc_at (r : Ram) (off : Z) : VirtQueueDesc :=
  {| paddr := load_le r off 8; len := load_le r (off + 8) 4;
     flags := load_le r (off + 12) 2; next := load_le r (off + 14) 2 |}.

(** Indexing a slice of descriptors: bounds checked against its length. *)
Definition index_desc (t : RawSlice) (i : Z) : M Ram E VirtQueueDesc :=
  assert (i <? sl_len t) ;;;
  assert ((0 <=? sl_base t + SIZEOF_DESC * i) && (sl_base t + SIZEOF_DESC * i + SIZEOF_DESC <=? SIZE)) ;;;
  gets (fun r => desc_at r (sl_base t + SIZEOF_DESC * i)).

Definition checked_sub (a b : Z) : option Z := if a <? b then None else Some (a - b).

(** The offset that [get_request_package] points to; the subtraction of [u64]
    values is checked in a build with overflow checks. *)
Definition get_request_package `{Profile} (d : VirtQueueDesc) : M Ram E Z := sub_chk 64 (paddr d) BASE_ADDR.
Definition has_next (d : VirtQueueDesc) : bool := contains (flags d) VIRTQ_DESC_F_NEXT.

(** [offset.checked_add(len)] exists and is at most [SIZE]. *)
Definition end_in_ram (offset len : Z) : bool := (offset + len <? 2 ^ 64) && (offset + len <=? SIZE).

Definition buffer_in_ram (d : VirtQueueDesc) : bool :=
  match checked_sub (paddr d) BASE_ADDR with
  | None => false
  | Some offset => end_in_ram offset (len d)
  end.

(** ** Walking a descriptor chain *)

Record VirtQueueDescHandle : Type := { table : RawSlice; idx : Z; remaining : Z }.

Definition handle_new (tab queue_num i : Z) : M Ram E VirtQueueDescHandle :=
  t <- from_raw_parts tab queue_num SIZEOF_DESC ;;
  ret {| table := t; idx := i; remaining := queue_num |}.

Definition get_indirect (h : VirtQueueDescHandle) : M Ram E (bool * VirtQueueDescHandle) :=
  desc <- index_desc (table h) (idx h) ;;
  let table_len := len desc / SIZEOF_DESC in
  if negb (len desc mod SIZEOF_DESC =? 0) || (table_len =? 0) then ret (false, h)
  else match checked_sub (paddr desc) BASE_ADDR with
       | None => ret (false, h)
       | Some offset =>
           if negb (paddr desc mod ALIGNOF_DESC =? 0) then ret (false, h)
           else if negb (end_in_ram offset (len desc)) then ret (false, h)
           else t <- from_raw_parts offset table_len SIZEOF_DESC ;;
                ret (true, {| table := t; idx := 0; remaining := table_len |})
       end.

Definition get_entry_idx (h : VirtQueueDescHandle) : Z := wrap 32 (idx h).

Definition stop (h : VirtQueueDescHandle) : VirtQueueDescHandle :=
  {| table := table h; idx := idx h; remaining := 0 |}.

(** The part of [try_get] that follows the resolution of an indirect entry. *)
Definition advance (h : VirtQueueDescHandle) : M Ram E (option VirtQueueDesc * VirtQueueDescHandle) :=
  d <- index_desc (table h) (idx h) ;;
  let h' := {| table := table h; idx := if has_next d then next d else sl_len (table h);
               remaining := remaining h - 1 |} in
  if negb (buffer_in_ram d) then ret (None, stop h') else ret (Some d, h').

Definition try_get (h : VirtQueueDescHandle) : M Ram E (option VirtQueueDesc * VirtQueueDescHandle) :=
  if (idx h <? sl_len (table h)) && negb (remaining h =? 0) then
    d <- index_desc (table h) (idx h) ;;
    if contains (flags d) VIRTQ_DESC_F_INDIRECT then
      p <- get_indirect h ;;
      (if fst p then advance (snd p) else ret (None, stop (snd p)))
    else advance h
  else ret (None, h).

(** ** The rings *)

Inductive VirtQueueAvailFlag : Type := AvailDefault | NoInterrupt.
Inductive VirtQueueUsedFlag : Type := UsedDefault | NoNotify.

Definition avail_flag_of (v : Z) : option VirtQueueAvailFlag :=
  if v =? 0 then Some AvailDefault else if v =? 1 then Some NoInterrupt else None.
Definition used_flag_value (f : VirtQueueUsedFlag) : Z := match f with UsedDefault => 0 | NoNotify => 1 end.

(** [VirtQueueAvail::try_get_desc_idx]: the index and the new [last_avail_idx]. *)
Definition try_get_desc_idx (avail queue_num last_avail_idx : Z) : M Ram E (option Z * Z) :=
  avail_ring_head <- guest_load (avail + 2) 2 ;;
  if last_avail_idx =? avail_ring_head then ret (None, last_avail_idx)
  else
    assert (negb (queue_num =? 0)) ;;;
    let ring_idx := last_avail_idx mod queue_num in
    ring <- from_raw_parts (avail + 4) queue_num 2 ;;
    assert (ring_idx <? sl_len ring) ;;;
    v <- guest_load (sl_base ring + 2 * ring_idx) 2 ;;
    ret (Some v, wrap 16 (last_avail_idx + 1)).

Record VirtQueueUsedElem : Type := { elem_id : Z; used_len : Z }.

(** [VirtQueueUsed::insert_used]: the element, then the index. *)
Definition used_insert (used queue_num : Z) (elem : VirtQueueUsedElem) : M Ram E unit :=
  old_idx <- guest_load (used + 2) 2 ;;
  assert (negb (queue_num =? 0)) ;;;
  let ring_idx := old_idx mod queue_num in
  ring <- from_raw_parts (used + 4) queue_num 8 ;;
  assert (ring_idx <? sl_len ring) ;;;
  guest_store (sl_base ring + 8 * ring_idx) 4 (elem_id elem) ;;;
  guest_store (sl_base ring + 8 * ring_idx + 4) 4 (used_len elem) ;;;
  guest_store (used + 2) 2 (wrap 16 (old_idx + 1)).

Record VirtQueueCompletion : Type := { used_ring : Z; c_queue_num : Z; entry_idx : Z }.

Definition complete (c : VirtQueueCompletion) (l : Z) : M Ram E unit :=
  used_insert (used_ring c) (c_queue_num c) {| elem_id := entry_idx c; used_len := l |}.

(** ** The queue *)

Record VirtQueue : Type := {
  queue_num : Z;
  last_avail_idx : Z;
  desc_paddr : Z;
  desc : option Z;
  avail_paddr : Z;
  avail : option Z;
  used_paddr : Z;
  used : option Z
}.

Definition VirtQueue_new (num : Z) : VirtQueue :=
  {| queue_num := num; last_avail_idx := 0; desc_paddr := 0; desc := None;
     avail_paddr := 0; avail := None; used_paddr := 0; used := None |}.

Definition VirtQueue_reset (q : VirtQueue) : VirtQueue :=
  {| queue_num := 0; last_avail_idx := 0; desc_paddr := 0; desc := None;
     avail_paddr := 0; avail := None; used_paddr := 0; used := None |}.

Definition guest_ram_ptr (addr l align : Z) : option Z :=
  match checked_sub addr BASE_ADDR with
  | None => None
  | Some offset => if negb (addr mod align =? 0) || negb (end_in_ram offset l) then None else Some offset
  end.

Definition update_desc_base (addr : Z) (q : VirtQueue) : VirtQueue :=
  {| queue_num := queue_num q; last_avail_idx := last_avail_idx q;
     desc_paddr := desc_paddr q; desc := guest_ram_ptr addr (queue_num q * SIZEOF_DESC) ALIGNOF_DESC;
     avail_paddr := avail_paddr q; avail := avail q; used_paddr := used_paddr q; used := used q |}.
Definition update_avail_base (addr : Z) (q : VirtQueue) : VirtQueue :=
  {| queue_num := queue_num q; last_avail_idx := last_avail_idx q;
     desc_paddr := desc_paddr q; desc := desc q;
     avail_paddr := avail_paddr q; avail := guest_ram_ptr addr (4 + queue_num q * 2) 2;
     used_paddr := used_paddr q; used := used q |}.
Definition update_used_base (addr : Z) (q : VirtQueue) : VirtQueue :=
  {| queue_num := queue_num q; last_avail_idx := last_avail_idx q;
     desc_paddr := desc_paddr q; desc := desc q; avail_paddr := avail_paddr q; avail := avail q;
     used_paddr := used_paddr q; used := guest_ram_ptr addr (4 + queue_num q * 8) 4 |}.

Definition set_desc (addr : Z) (q : VirtQueue) : VirtQueue :=
  update_desc_base addr
    {| queue_num := queue_num q; last_avail_idx := last_avail_idx q; desc_paddr := addr; desc := desc q;
       avail_paddr := avail_paddr q; avail := avail q; used_paddr := used_paddr q; used := used q |}.
Definition set_avail (addr : Z) (q : VirtQueue) : VirtQueue :=
  update_avail_base addr
    {| queue_num := queue_num q; last_avail_idx := last_avail_idx q; desc_paddr := desc_paddr q; desc := desc q;
       avail_paddr := addr; avail := avail q; used_paddr := used_paddr q; used := used q |}.
Definition set_used (addr : Z) (q : VirtQueue) : VirtQueue :=
  update_used_base addr
    {| queue_num := queue_num q; last_avail_idx := last_avail_idx q; desc_paddr := desc_paddr q; desc := desc q;
       avail_paddr := avail_paddr q; avail := avail q; used_paddr := addr; used := used q |}.
Definition set_used_high (addr_high : Z) (q : VirtQueue) : VirtQueue :=
  set_used (Z.lor (Z.land (used_paddr q) (bnot 64 (shl 64 (Z.ones 32) 32))) (shl 64 addr_high 32)) q.

Definition set_queue_num (num : Z) (q : VirtQueue) : VirtQueue :=
  {| queue_num := num; last_avail_idx := last_avail_idx q; desc_paddr := desc_paddr q; desc := desc q;
     avail_paddr := avail_paddr q; avail := avail q; used_paddr := used_paddr q; used := used q |}.
Definition set_last_avail_idx (i : Z) (q : VirtQueue) : VirtQueue :=
  {| queue_num := queue_num q; last_avail_idx := i; desc_paddr := desc_paddr q; desc := desc q;
     avail_paddr := avail_paddr q; avail := avail q; used_paddr := used_paddr q; used := used q |}.

Definition is_null (p : option Z) : bool := match p with None => true | Some _ => false end.

Definition ready (q : VirtQueue) : bool :=
  negb (queue_num q =? 0) && negb (is_null (desc q)) && negb (is_null (avail q)) && negb (is_null (used q)).

Definition set_used_ring_flag (flag : VirtQueueUsedFlag) (q : VirtQueue) : M Ram E unit :=
  u <- unwrap (used q) ;; guest_store u 2 (used_flag_value flag).
Definition get_avail_flag (q : VirtQueue) : M Ram E VirtQueueAvailFlag :=
  a <- unwrap (avail q) ;; v <- guest_load a 2 ;; unwrap (avail_flag_of v).
Definition interrupts_enabled (q : VirtQueue) : M Ram E bool :=
  match avail q with
  | None => ret false
  | Some a => v <- guest_load a 2 ;; f <- unwrap (avail_flag_of v) ;;
              ret (match f with AvailDefault => true | NoInterrupt => false end)
  end.

(** [VirtQueue::insert_used]. *)
Definition insert_used (elem : VirtQueueUsedElem) (q : VirtQueue) : M Ram E unit :=
  u <- unwrap (used q) ;; used_insert u (queue_num q) elem.

Definition try_get_desc (q : VirtQueue) : M Ram E (option VirtQueueDescHandle * VirtQueue) :=
  a <- unwrap (avail q) ;;
  p <- try_get_desc_idx a (queue_num q) (last_avail_idx q) ;;
  let q' := set_last_avail_idx (snd p) q in
  match fst p with
  | None => ret (None, q')
  | Some i => d <- unwrap (desc q) ;; h <- handle_new d (queue_num q) i ;; ret (Some h, q')
  end.

(** ** Taking requests

    The closure is a step on its captured variables of type [A]; the loop gets
    fuel, and [None] means that the fuel ran out. *)
Section Take.
Context {A : Type} (func : VirtQueueDesc -> Z -> A -> M Ram E A).

Fixpoint walk (fuel : nat) (h : VirtQueueDescHandle) (i : Z) (a : A) : M Ram E (option A) :=
  match fuel with
  | O => ret None
  | S fuel =>
      p <- try_get h ;;
      match fst p with
      | Some d => a <- func d i a ;; walk fuel (snd p) (i + 1) a
      | None => ret (Some a)
      end
  end.

Record Taken : Type := { completion : option VirtQueueCompletion; captured : A; queue : VirtQueue }.

Definition take_one_request (fuel : nat) (a : A) (q : VirtQueue) : M Ram E (option Taken) :=
  if (queue_num q =? 0) || is_null (desc q) || is_null (avail q) || is_null (used q)
  then ret (Some {| completion := None; captured := a; queue := q |})
  else
    p <- try_get_desc q ;;
    match fst p with
    | None => ret (Some {| completion := None; captured := a; queue := snd p |})
    | Some h =>
        let entry := get_entry_idx h in
        r <- walk fuel h 0 a ;;
        match r with
        | None => ret None
        | Some a => u <- unwrap (used (snd p)) ;;
                    ret (Some {| completion := Some {| used_ring := u; c_queue_num := queue_num (snd p); entry_idx := entry |};
                                 captured := a; queue := snd p |})
        end
    end.
End Take.

(** [manage_one_request]: the closure returns the bytes it wrote; their sum is
    computed in [u32]. *)
Definition manage_one_request `{Profile} (func : VirtQueueDesc -> Z -> M Ram E Z) (fuel : nat) (q : VirtQueue)
    : M Ram E (option (bool * VirtQueue)) :=
  t <- take_one_request (fun d i l => n <- func d i ;; add_chk 32 l n) fuel 0 q ;;
  match t with
  | None => ret None
  | Some t => match completion t with
              | None => ret (Some (false, queue t))
              | Some c => complete c (captured t) ;;; ret (Some (true, queue t))
              end
  end.
End Guest.
