(* ===== verification/VirtQueueSpec.v ===== *)
(** * What a VirtIO queue guarantees

    The queue code stays inside guest memory whatever the driver wrote there,
    walks a chain that is not nested in a bounded number of steps, takes the
    available chains in the order the driver published them and publishes each
    completion as the next entry of the used ring. *)

From S2P Require Import Prelude Utils TrapTypes Ram VirtQueue.

(** [n] bytes of guest memory from offset [o] on. *)
Definition in_window (o n : Z) : Prop := 0 <= o /\ o + n <= SIZE.

Definition table_ok (t : RawSlice) : Prop := 0 <= sl_len t /\ in_window (sl_base t) (SIZEOF_DESC * sl_len t).

Record handle_ok (h : VirtQueueDescHandle) : Prop := {
  ho_table : table_ok (table h);
  ho_idx : 0 <= idx h;
  ho_remaining : 0 <= remaining h
}.

(** Every pointer that is not null is the start of a structure of the current
    size that lies in guest memory. *)
Record queue_ok (q : VirtQueue) : Prop := {
  qo_num : uint 32 (queue_num q);
  qo_last : uint 16 (last_avail_idx q);
  qo_desc : forall o, desc q = Some o -> in_window o (SIZEOF_DESC * queue_num q);
  qo_avail : forall o, avail q = Some o -> in_window o (4 + 2 * queue_num q);
  qo_used : forall o, used q = Some o -> in_window o (4 + 8 * queue_num q)
}.

Definition completion_ok (c : VirtQueueCompletion) : Prop :=
  0 < c_queue_num c /\ in_window (used_ring c) (4 + 8 * c_queue_num c).

#[local] Arguments load_le : simpl never.
#[local] Arguments Z.mul : simpl never.
#[local] Arguments Z.add : simpl never.

(** ** Accesses inside a window *)
Section Runs.
Context {E : Type}.

Lemma guard_run {A} (b : bool) (m : M Ram E A) r : b = true -> (assert b ;;; m) r = m r.
Proof. by intros ->. Qed.

Lemma guest_load_run off n r : in_window off (Z.of_nat n) -> guest_load (E := E) off n r = (Ok (load_le r off n), r).
Proof. intros [? ?]. unfold guest_load. rewrite guard_run; [done|]. rewrite andb_true_iff, !Z.leb_le. lia. Qed.

Lemma guest_store_run off n v r : in_window off (Z.of_nat n) ->
  guest_store (E := E) off n v r = (Ok tt, set_data (store_bytes off (split_le n v)) r).
Proof. intros [? ?]. unfold guest_store. rewrite guard_run; [done|]. rewrite andb_true_iff, !Z.leb_le. lia. Qed.

Lemma from_raw_parts_run b n s r : in_window b (n * s) -> 
  from_raw_parts (E := E) b n s r = (Ok {| sl_base := b; sl_len := n |}, r).
Proof. intros [? ?]. unfold from_raw_parts. rewrite guard_run; [done|]. rewrite andb_true_iff, !Z.leb_le. lia. Qed.

Lemma index_desc_run t i r : table_ok t -> 0 <= i < sl_len t ->
  index_desc (E := E) t i r = (Ok (desc_at r (sl_base t + SIZEOF_DESC * i)), r).
Proof.
  unfold table_ok, in_window, SIZEOF_DESC. intros (? & ? & ?) ?. unfold index_desc, SIZEOF_DESC.
  rewrite guard_run by (rewrite Z.ltb_lt; lia). rewrite guard_run; [done|]. rewrite andb_true_iff, !Z.leb_le. lia.
Qed.
End Runs.

Lemma set_bytes_wf f r : ram_wf r -> map_Forall (fun _ b => uint 8 b) (f (data r)) -> ram_wf (set_data f r).
Proof. intros [Hf _] Hd. by split. Qed.

Lemma store_wf off n v r : ram_wf r -> ram_wf (set_data (store_bytes off (split_le n v)) r).
Proof. intros Hr. apply set_bytes_wf; [done|]. apply store_bytes_Forall; [apply split_le_bytes|apply Hr]. Qed.

(** ** Descriptors read from well-formed memory *)

Record desc_ok (d : VirtQueueDesc) : Prop := {
  do_paddr : uint 64 (paddr d);
  do_len : uint 32 (len d);
  do_flags : uint 16 (flags d);
  do_next : uint 16 (next d)
}.

Lemma desc_at_ok r off : ram_wf r -> desc_ok (desc_at r off).
Proof.
  intros Hr. split; cbn [paddr len flags next desc_at].
  - exact (load_le_range r off 8 Hr).
  - exact (load_le_range r (off + 8) 4 Hr).
  - exact (load_le_range r (off + 12) 2 Hr).
  - exact (load_le_range r (off + 14) 2 Hr).
Qed.

Lemma end_in_ram_spec o l : 0 <= o -> end_in_ram o l = true <-> in_window o l.
Proof.
  intros Ho. unfold end_in_ram, in_window, SIZE. rewrite Z.shiftl_mul_pow2, andb_true_iff, Z.ltb_lt, Z.leb_le by lia. lia.
Qed.

Lemma checked_sub_Some a b c : checked_sub a b = Some c <-> b <= a /\ c = a - b.
Proof. unfold checked_sub. destruct (Z.ltb_spec a b); split; intros; simplify_eq; try done || lia. destruct_and!. f_equal. lia. Qed.

(** A buffer that passes the check lies in guest memory. *)
Lemma buffer_in_ram_spec d : buffer_in_ram d = true <-> in_window (paddr d - BASE_ADDR) (len d).
Proof.
  unfold buffer_in_ram, checked_sub. destruct (Z.ltb_spec (paddr d) BASE_ADDR).
  - unfold in_window. split; [done|lia].
  - apply end_in_ram_spec. lia.
Qed.

Lemma guest_ram_ptr_spec a l al o : guest_ram_ptr a l al = Some o <->
  BASE_ADDR <= a /\ o = a - BASE_ADDR /\ a mod al = 0 /\ in_window o l.
Proof.
  unfold guest_ram_ptr. destruct (checked_sub a BASE_ADDR) as [c|] eqn:Ec.
  - apply checked_sub_Some in Ec as [Hb ->].
    destruct (Z.eqb_spec (a mod al) 0) as [Hm|Hm]; simpl; [|naive_solver].
    destruct (end_in_ram (a - BASE_ADDR) l) eqn:Ee; simpl.
    + apply end_in_ram_spec in Ee; [|lia]. naive_solver.
    + split; [done|]. intros (_ & -> & _ & Hw). apply end_in_ram_spec in Hw; [congruence|lia].
  - split; [done|]. intros [Hb _]. unfold checked_sub in Ec. by destruct (Z.ltb_spec a BASE_ADDR); [lia|].
Qed.

(** ** The chain walk *)
Section Walk.
Context {E : Type}.

(** What [get_indirect] makes of an entry: the table it names, if any. *)
Definition indirect_of (d : VirtQueueDesc) : option RawSlice :=
  match guest_ram_ptr (paddr d) (len d) ALIGNOF_DESC with
  | Some o => if (len d mod SIZEOF_DESC =? 0) && negb (len d / SIZEOF_DESC =? 0)
              then Some {| sl_base := o; sl_len := len d / SIZEOF_DESC |} else None
  | None => None
  end.

Lemma indirect_of_ok d t : desc_ok d -> indirect_of d = Some t -> table_ok t /\ 0 < sl_len t /\ sl_len t <= SIZE / SIZEOF_DESC.
Proof.
  intros [_ Hl _ _] H. unfold indirect_of in H. destruct (guest_ram_ptr _ _ _) as [o|] eqn:Eg; [|done].
  apply guest_ram_ptr_spec in Eg as (_ & _ & _ & [Hw1 Hw2]).
  destruct (Z.eqb_spec (len d mod SIZEOF_DESC) 0) as [Hm|]; [|done].
  destruct (Z.eqb_spec (len d / SIZEOF_DESC) 0) as [|Hz]; [done|]. simplify_eq/=.
  unfold table_ok, in_window, SIZEOF_DESC in *. simpl. unfold uint in Hl.
  pose proof (Z.div_mod (len d) 16 ltac:(lia)). pose proof (Z.div_pos (len d) 16 ltac:(lia) ltac:(lia)).
  split_and!; try lia. apply Z.div_le_lower_bound; lia.
Qed.

Lemma get_indirect_run h r : ram_wf r -> handle_ok h -> idx h < sl_len (table h) ->
  get_indirect (E := E) h r =
    (Ok (match indirect_of (desc_at r (sl_base (table h) + SIZEOF_DESC * idx h)) with
         | Some t => (true, {| table := t; idx := 0; remaining := sl_len t |})
         | None => (false, h)
         end), r).
Proof.
  intros Hr [Ht Hi _] Hlt. unfold get_indirect. rewrite (bind_Ok _ _ _ _ _ (index_desc_run _ _ _ Ht (conj Hi Hlt))).
  set (d := desc_at r _). pose proof (desc_at_ok r (sl_base (table h) + SIZEOF_DESC * idx h) Hr) as Hd. fold d in Hd.
  pose proof (fun t => indirect_of_ok d t Hd) as Hok.
  unfold indirect_of, guest_ram_ptr in *. destruct (checked_sub (paddr d) BASE_ADDR) as [o|].
  2:{ by destruct (negb _ || _). }
  destruct (paddr d mod ALIGNOF_DESC =? 0); cbn [negb orb] in *.
  2:{ by destruct (negb _ || _). }
  destruct (end_in_ram o (len d)); cbn [negb] in *.
  2:{ by destruct (negb _ || _). }
  destruct (len d mod SIZEOF_DESC =? 0), (len d / SIZEOF_DESC =? 0); cbn [negb orb andb] in *; try done.
  destruct (Hok _ eq_refl) as [[_ Hw] _]. cbn [sl_base sl_len] in Hw. rewrite Z.mul_comm in Hw.
  by rewrite (bind_Ok _ _ _ _ _ (from_raw_parts_run _ _ _ _ Hw)).
Qed.

Definition cur_desc (h : VirtQueueDescHandle) (r : Ram) : VirtQueueDesc :=
  desc_at r (sl_base (table h) + SIZEOF_DESC * idx h).

(** The handle after the entry [d] of [h]. *)
Definition after (h : VirtQueueDescHandle) (d : VirtQueueDesc) : VirtQueueDescHandle :=
  {| table := table h; idx := if has_next d then next d else sl_len (table h); remaining := remaining h - 1 |}.

Definition advance_spec (h : VirtQueueDescHandle) (r : Ram) : option VirtQueueDesc * VirtQueueDescHandle :=
  let d := cur_desc h r in
  if buffer_in_ram d then (Some d, after h d) else (None, stop (after h d)).

Definition try_get_spec (h : VirtQueueDescHandle) (r : Ram) : option VirtQueueDesc * VirtQueueDescHandle :=
  if (idx h <? sl_len (table h)) && negb (remaining h =? 0) then
    if contains (flags (cur_desc h r)) VIRTQ_DESC_F_INDIRECT then
      match indirect_of (cur_desc h r) with
      | Some t => advance_spec {| table := t; idx := 0; remaining := sl_len t |} r
      | None => (None, stop h)
      end
    else advance_spec h r
  else (None, h).

Lemma advance_run h r : handle_ok h -> idx h < sl_len (table h) -> advance (E := E) h r = (Ok (advance_spec h r), r).
Proof.
  intros [Ht Hi _] Hlt. unfold advance. rewrite (bind_Ok _ _ _ _ _ (index_desc_run _ _ _ Ht (conj Hi Hlt))).
  unfold advance_spec, cur_desc. by destruct (buffer_in_ram _).
Qed.

Lemma entered_ok d t : desc_ok d -> indirect_of d = Some t -> handle_ok {| table := t; idx := 0; remaining := sl_len t |}.
Proof. intros Hd Ht. destruct (indirect_of_ok d t Hd Ht) as (? & ? & _). by split; simpl; [|lia..]. Qed.

(** [try_get] never leaves guest memory and does what [try_get_spec] says. *)
Lemma try_get_run h r : ram_wf r -> handle_ok h -> try_get (E := E) h r = (Ok (try_get_spec h r), r).
Proof.
  intros Hr Hh. unfold try_get, try_get_spec.
  destruct (Z.ltb_spec (idx h) (sl_len (table h))) as [Hlt|]; [|done].
  destruct (Z.eqb_spec (remaining h) 0); [done|]. cbn [andb negb].
  rewrite (bind_Ok _ _ _ _ _ (index_desc_run _ _ _ (ho_table _ Hh) (conj (ho_idx _ Hh) Hlt))). fold (cur_desc h r).
  destruct (contains _ _); [|by apply advance_run].
  rewrite (bind_Ok _ _ _ _ _ (get_indirect_run h r Hr Hh Hlt)). fold (cur_desc h r).
  destruct (indirect_of (cur_desc h r)) as [t|] eqn:Et; simpl; [|done].
  pose proof (entered_ok _ t (desc_at_ok _ _ Hr) Et) as Hok. apply advance_run; [done|].
  by destruct (indirect_of_ok _ t (desc_at_ok _ _ Hr) Et) as (_ & ? & _).
Qed.

Lemma after_ok h r : ram_wf r -> handle_ok h -> remaining h <> 0 -> handle_ok (after h (cur_desc h r)).
Proof.
  intros Hr [Ht Hi Hm] Hz. pose proof (desc_at_ok r (sl_base (table h) + SIZEOF_DESC * idx h) Hr) as [_ _ _ Hn].
  destruct Ht as [Hl Hw]. split; cbn [table idx remaining after]; [done| |lia]. destruct (has_next _); [|done].
  unfold uint in Hn. unfold cur_desc. lia.
Qed.

(** The descriptors handed out lie in guest memory. *)
Lemma try_get_spec_ok h r d h' : ram_wf r -> handle_ok h -> try_get_spec h r = (Some d, h') ->
  handle_ok h' /\ desc_ok d /\ in_window (paddr d - BASE_ADDR) (len d).
Proof.
  assert (forall h, ram_wf r -> handle_ok h -> remaining h <> 0 -> advance_spec h r = (Some d, h') ->
    handle_ok h' /\ desc_ok d /\ in_window (paddr d - BASE_ADDR) (len d)) as Hadv.
  { intros h0 Hr Hh Hz. unfold advance_spec. destruct (buffer_in_ram _) eqn:Eb; [|done]. intros [= <- <-].
    split_and!; [by apply after_ok|by apply desc_at_ok|by apply buffer_in_ram_spec]. }
  intros Hr Hh. unfold try_get_spec. destruct (_ && _) eqn:Eg; [|done].
  apply andb_true_iff in Eg as [_ Hz%negb_true_iff%Z.eqb_neq].
  destruct (contains _ _); [|by apply Hadv]. destruct (indirect_of _) as [t|] eqn:Et; [|done].
  pose proof (indirect_of_ok _ t (desc_at_ok _ _ Hr) Et) as (_ & Hl & _).
  apply Hadv; [done|by eapply entered_ok; [apply (desc_at_ok r)|]|simpl; lia].
Qed.
End Walk.

(** ** Safety of a whole request *)
Section Safe.
Context {E A : Type} (P : A -> Prop) (func : VirtQueueDesc -> Z -> A -> M Ram E A).

(** The closure succeeds on every buffer that lies in guest memory, and keeps
    the invariant [P] of its captured variables. *)
Definition closure_safe : Prop :=
  forall d i a r, ram_wf r -> desc_ok d -> in_window (paddr d - BASE_ADDR) (len d) -> P a ->
    exists a' r', func d i a r = (Ok a', r') /\ ram_wf r' /\ P a'.

Lemma walk_safe fuel h i a r : closure_safe -> ram_wf r -> handle_ok h -> P a ->
  exists o r', walk func fuel h i a r = (Ok o, r') /\ ram_wf r' /\ forall a', o = Some a' -> P a'.
Proof.
  intros Hf. revert h i a r. induction fuel as [|fuel IH]; intros h i a r Hr Hh Ha; [by exists None, r|].
  cbn [walk]. rewrite (bind_Ok _ _ _ _ _ (try_get_run h r Hr Hh)).
  destruct (try_get_spec h r) as [[d|] h'] eqn:Et; cbn [fst snd].
  2:{ exists (Some a), r. split_and!; [done..|]. by intros a' [= <-]. }
  destruct (try_get_spec_ok h r d h' Hr Hh Et) as (Hh' & Hd & Hw).
  destruct (Hf d i a r Hr Hd Hw Ha) as (a' & r' & Hc & Hr' & Ha'). rewrite (bind_Ok _ _ _ _ _ Hc). by apply IH.
Qed.

Lemma try_get_desc_idx_run a num last r : ram_wf r -> uint 16 last -> 0 < num -> in_window a (4 + 2 * num) ->
  try_get_desc_idx (E := E) a num last r =
    (Ok (if last =? load_le r (a + 2) 2 then (None, last)
         else (Some (load_le r (a + 4 + 2 * (last mod num)) 2), wrap 16 (last + 1))), r).
Proof.
  intros Hr Hl Hn [Hw1 Hw2]. unfold try_get_desc_idx.
  rewrite (bind_Ok _ _ _ _ _ (guest_load_run (a + 2) 2 r ltac:(split; lia))).
  destruct (Z.eqb_spec last (load_le r (a + 2) 2)); [done|].
  pose proof (Z.mod_pos_bound last num Hn). rewrite guard_run by (rewrite negb_true_iff, Z.eqb_neq; lia).
  rewrite (bind_Ok _ _ _ _ _ (from_raw_parts_run (a + 4) num 2 r ltac:(split; lia))). cbn [sl_base sl_len].
  rewrite guard_run by (rewrite Z.ltb_lt; lia).
  by rewrite (bind_Ok _ _ _ _ _ (guest_load_run (a + 4 + 2 * (last mod num)) 2 r ltac:(split; lia))).
Qed.

Lemma set_last_ok i q : queue_ok q -> uint 16 i -> queue_ok (set_last_avail_idx i q).
Proof. intros [] ?. by split. Qed.

(** The first entry of the chain and the queue after taking it. *)
Lemma try_get_desc_run q d a r : ram_wf r -> queue_ok q -> desc q = Some d -> avail q = Some a -> 0 < queue_num q ->
  exists o i, try_get_desc_idx (E := E) a (queue_num q) (last_avail_idx q) r = (Ok (o, i), r) /\ uint 16 i /\
    try_get_desc (E := E) q r =
      (Ok (match o with
           | Some e => Some {| table := {| sl_base := d; sl_len := queue_num q |}; idx := e; remaining := queue_num q |}
           | None => None
           end, set_last_avail_idx i q), r) /\
    forall e, o = Some e -> uint 16 e.
Proof.
  intros Hr [Hn Hl Hd Ha Hu] Ed Ea Hnum. unfold try_get_desc. rewrite Ea. cbn [unwrap].
  pose proof (try_get_desc_idx_run a (queue_num q) (last_avail_idx q) r Hr Hl Hnum (Ha a Ea)) as Hidx.
  exists (fst (if last_avail_idx q =? load_le r (a + 2) 2 then (None, last_avail_idx q)
     else (Some (load_le r (a + 4 + 2 * (last_avail_idx q mod queue_num q)) 2), wrap 16 (last_avail_idx q + 1)))).
  exists (snd (if last_avail_idx q =? load_le r (a + 2) 2 then (None, last_avail_idx q)
     else (Some (load_le r (a + 4 + 2 * (last_avail_idx q mod queue_num q)) 2), wrap 16 (last_avail_idx q + 1)))).
  rewrite Hidx. unfold bind at 1. cbn [ret unwrap]. rewrite (bind_Ok _ _ _ _ _ Hidx).
  destruct (last_avail_idx q =? load_le r (a + 2) 2); cbn [fst snd]; split_and!; try done; try (by apply wrap_range).
  - rewrite Ed. unfold bind at 1. cbn [ret unwrap]. unfold handle_new.
    pose proof (Hd d Ed) as Hwd. rewrite Z.mul_comm in Hwd. unfold bind at 1.
    by rewrite (bind_Ok _ _ _ _ _ (from_raw_parts_run _ _ _ r Hwd)).
  - intros e [= <-]. exact (load_le_range r _ 2 Hr).
Qed.

(** [take_one_request] never leaves guest memory, whatever the driver wrote
    there, and calls the closure only on buffers inside of it. *)
Lemma take_safe fuel a q r : closure_safe -> ram_wf r -> queue_ok q -> P a ->
  exists o r', take_one_request func fuel a q r = (Ok o, r') /\ ram_wf r' /\
    forall t, o = Some t -> queue_ok (queue t) /\ P (captured t) /\ forall c, completion t = Some c -> completion_ok c.
Proof.
  intros Hf Hr Hq Ha. unfold take_one_request.
  destruct (Z.eqb_spec (queue_num q) 0) as [Hz|Hz].
  { exists (Some {| completion := None; captured := a; queue := q |}), r. split_and!; try done. by intros t [= <-]. }
  destruct (desc q) as [d|] eqn:Ed, (avail q) as [av|] eqn:Ea, (used q) as [u|] eqn:Eu; cbn [is_null orb];
    try (exists (Some {| completion := None; captured := a; queue := q |}), r; split_and!; try done; by intros t [= <-]).
  pose proof (qo_num q Hq) as Hn. assert (0 < queue_num q) as Hpos by (unfold uint in Hn; lia).
  destruct (try_get_desc_run q d av r Hr Hq Ed Ea Hpos) as (o & i & _ & Hi & Hrun & He).
  rewrite (bind_Ok _ _ _ _ _ Hrun). pose proof (set_last_ok i q Hq Hi) as Hq'.
  destruct o as [e|]; cbn [fst snd].
  2:{ eexists _, _. split_and!; [done..|]. by intros t [= <-]. }
  destruct (walk_safe fuel {| table := {| sl_base := d; sl_len := queue_num q |}; idx := e; remaining := queue_num q |} 0 a r)
    as (w & r' & Hw & Hr' & Hp); [done..| |done|].
  { specialize (He e eq_refl). unfold uint in *. split; simpl; [split; simpl; [lia|by apply Hq]|lia..]. }
  rewrite (bind_Ok _ _ _ _ _ Hw). destruct w as [a'|]; [|by exists None, r'].
  cbn [used set_last_avail_idx]. rewrite Eu. eexists _, _. split_and!; [done..|].
  intros t [= <-]. split_and!; [done|by apply Hp|]. intros c [= <-]. split; simpl; [lia|by apply Hq].
Qed.
End Safe.

(** ** Stores to guest memory *)

Lemma byte_at_guest_store off n v r j :
  byte_at (set_data (store_bytes off (split_le n v)) r) j =
    if (off <=? j) && (j <? off + Z.of_nat n) then wrap 8 (Z.shiftr v (8 * (j - off))) else byte_at r j.
Proof.
  unfold byte_at. cbn [fill data set_data]. rewrite store_bytes_lookup, split_le_length.
  destruct ((off <=? j) && (j <? off + Z.of_nat n)) eqn:E; [|done].
  apply andb_true_iff in E as [E1%Z.leb_le E2%Z.ltb_lt]. rewrite split_le_lookup by lia. simpl. do 2 f_equal. lia.
Qed.

(** Bytes outside [off, off + n) are the same. *)
Definition same_outside (off n : Z) (r r' : Ram) : Prop :=
  forall j, j < off \/ off + n <= j -> byte_at r' j = byte_at r j.

Lemma store_outside off n v r : same_outside off (Z.of_nat n) r (set_data (store_bytes off (split_le n v)) r).
Proof. intros j Hj. rewrite byte_at_guest_store. split_ltb; simpl; done || lia. Qed.

Lemma load_same_outside off n r r' o k : same_outside off n r r' -> o + Z.of_nat k <= off \/ off + n <= o ->
  load_le r' o k = load_le r o k.
Proof. intros H Ho. apply load_le_ext. intros j Hj. apply H. lia. Qed.

Lemma guest_load_stored off n v r : uint (8 * Z.of_nat n) v ->
  load_le (set_data (store_bytes off (split_le n v)) r) off n = v.
Proof.
  intros Hv. rewrite (load_le_split _ _ _ v); [by apply wrap_small|unfold uint in Hv; lia|].
  intros k Hk. rewrite byte_at_guest_store. split_ltb; simpl; try lia. do 2 f_equal. lia.
Qed.

(** ** The used ring *)
Section Used.
Context {E : Type}.

(** Memory after the element at slot [k] and the index were written. *)
Definition used_stored (u k old : Z) (e : VirtQueueUsedElem) (r : Ram) : Ram :=
  set_data (store_bytes (u + 2) (split_le 2 (wrap 16 (old + 1))))
    (set_data (store_bytes (u + 4 + 8 * k + 4) (split_le 4 (used_len e)))
      (set_data (store_bytes (u + 4 + 8 * k) (split_le 4 (elem_id e))) r)).

Lemma used_insert_run u num e r : ram_wf r -> 0 < num -> in_window u (4 + 8 * num) ->
  used_insert (E := E) u num e r =
    (Ok tt, used_stored u (load_le r (u + 2) 2 mod num) (load_le r (u + 2) 2) e r).
Proof.
  intros Hr Hn [Hw1 Hw2]. unfold used_insert.
  rewrite (bind_Ok _ _ _ _ _ (guest_load_run (u + 2) 2 r ltac:(split; lia))).
  set (old := load_le r (u + 2) 2). pose proof (Z.mod_pos_bound old num Hn).
  rewrite guard_run by (rewrite negb_true_iff, Z.eqb_neq; lia).
  rewrite (bind_Ok _ _ _ _ _ (from_raw_parts_run (u + 4) num 8 r ltac:(split; lia))). cbn [sl_base sl_len].
  rewrite guard_run by (rewrite Z.ltb_lt; lia).
  rewrite (bind_Ok _ _ _ _ _ (guest_store_run (u + 4 + 8 * (old mod num)) 4 _ r ltac:(split; lia))).
  rewrite (bind_Ok _ _ _ _ _ (guest_store_run (u + 4 + 8 * (old mod num) + 4) 4 _ _ ltac:(split; lia))).
  apply guest_store_run. split; lia.
Qed.

Lemma used_stored_wf u k old e r : ram_wf r -> ram_wf (used_stored u k old e r).
Proof. intros. by do 3 apply store_wf. Qed.

Lemma used_stored_outside u k old num e r : 0 <= k < num -> same_outside (u + 2) (2 + 8 * num) r (used_stored u k old e r).
Proof.
  intros Hk j Hj. unfold used_stored. rewrite !byte_at_guest_store. change (Z.of_nat 2) with 2. change (Z.of_nat 4) with 4.
  split_ltb; simpl; done || lia.
Qed.

(** Slot [k] of the ring. *)
Definition used_slot (r : Ram) (u k : Z) : VirtQueueUsedElem :=
  {| elem_id := load_le r (u + 4 + 8 * k) 4; used_len := load_le r (u + 4 + 8 * k + 4) 4 |}.

Lemma used_stored_idx u k old e r : load_le (used_stored u k old e r) (u + 2) 2 = wrap 16 (old + 1).
Proof. apply guest_load_stored. by apply wrap_range. Qed.

Lemma used_stored_slot u k old e r : 0 <= k -> uint 32 (elem_id e) -> uint 32 (used_len e) ->
  used_slot (used_stored u k old e r) u k = e.
Proof.
  intros Hk Hi Hl. unfold used_slot, used_stored. destruct e as [i l]. cbn [elem_id used_len] in *. f_equal.
  - rewrite (load_same_outside _ _ _ _ _ _ (store_outside (u + 2) 2 _ _)) by lia.
    rewrite (load_same_outside _ _ _ _ _ _ (store_outside (u + 4 + 8 * k + 4) 4 _ _)) by lia. by apply guest_load_stored.
  - rewrite (load_same_outside _ _ _ _ _ _ (store_outside (u + 2) 2 _ _)) by lia. by apply guest_load_stored.
Qed.

Lemma used_stored_other u k k' old e r : 0 <= k -> 0 <= k' -> k <> k' ->
  used_slot (used_stored u k old e r) u k' = used_slot r u k'.
Proof.
  intros Hk Hk' Hne. unfold used_slot, used_stored. f_equal;
    rewrite (load_same_outside _ _ _ _ _ _ (store_outside (u + 2) 2 _ _)) by lia;
    rewrite (load_same_outside _ _ _ _ _ _ (store_outside (u + 4 + 8 * k + 4) 4 _ _)) by lia;
    by rewrite (load_same_outside _ _ _ _ _ _ (store_outside (u + 4 + 8 * k) 4 _ _)) by lia.
Qed.

(** The ring shows the log [l] of all completions so far: the index counts
    them, and the last [num] of them are in their slots. *)
Definition used_log (r : Ram) (u num : Z) (l : list VirtQueueUsedElem) : Prop :=
  load_le r (u + 2) 2 = wrap 16 (Z.of_nat (length l)) /\
  forall k e, l !! k = Some e -> Z.of_nat (length l) - num <= Z.of_nat k -> used_slot r u (Z.of_nat k mod num) = e.
End Used.

(** A 16-bit counter names the same slot as the full one. *)
Lemma slot_wrap n num : 0 < num -> (num | 2 ^ 16) -> wrap 16 n mod num = n mod num.
Proof. intros Hn Hd. unfold wrap. by apply Z.mod_mod_divide. Qed.

Lemma slot_inj a b num : 0 < num -> 0 <= a - b < num -> a mod num = b mod num -> a = b.
Proof.
  intros Hn Hab Heq. pose proof (Z.div_mod a num ltac:(lia)). pose proof (Z.div_mod b num ltac:(lia)).
  assert (a / num = b / num) by nia. lia.
Qed.

Lemma used_log_append u num l e r : 0 < num -> (num | 2 ^ 16) -> uint 32 (elem_id e) -> uint 32 (used_len e) ->
  used_log r u num l ->
  used_log (used_stored u (load_le r (u + 2) 2 mod num) (load_le r (u + 2) 2) e r) u num (l ++ [e]).
Proof.
  intros Hn Hd Hi Hl [Hidx Hslots]. rewrite Hidx, (slot_wrap _ _ Hn Hd). set (n := Z.of_nat (length l)) in *.
  pose proof (Z.mod_pos_bound n num Hn) as Hb. split.
  - rewrite used_stored_idx, wrap_add_l, length_app. f_equal. simpl. lia.
  - intros k x Hk Hrec. rewrite length_app in Hrec. cbn [length] in Hrec.
    apply lookup_app_Some in Hk as [Hk|[Hge Hk]].
    + pose proof (lookup_lt_Some _ _ _ Hk). pose proof (Z.mod_pos_bound (Z.of_nat k) num Hn).
      rewrite used_stored_other; [apply Hslots; [done|lia]|lia..|].
      intros Heq. apply slot_inj in Heq; lia.
    + destruct (k - length l)%nat eqn:Ek; [|done]. simplify_eq/=.
      replace (Z.of_nat k) with n by lia. apply used_stored_slot; [lia|done..].
Qed.

(** Completing requests publishes them in order: when the used ring shows the
    log [l] of all completions so far, completing one with [len] bytes succeeds
    and makes it show [l] followed by the new entry, at the wrap-around of the
    ring and of the 16-bit index too; no byte outside the ring changes. *)
Theorem completions_in_order {E} c len l r : ram_wf r -> completion_ok c -> (c_queue_num c | 2 ^ 16) ->
  uint 32 (entry_idx c) -> uint 32 len -> used_log r (used_ring c) (c_queue_num c) l ->
  exists r', complete (E := E) c len r = (Ok tt, r') /\ ram_wf r' /\
    used_log r' (used_ring c) (c_queue_num c) (l ++ [{| elem_id := entry_idx c; used_len := len |}]) /\
    same_outside (used_ring c + 2) (2 + 8 * c_queue_num c) r r'.
Proof.
  intros Hr [Hn Hw] Hd Hi Hl Hlog. eexists. split; [by apply used_insert_run|].
  split_and!; [by apply used_stored_wf|by apply used_log_append|].
  apply used_stored_outside. by apply Z.mod_pos_bound.
Qed.

(** ** The available ring *)

(** The driver has published the chains [l]: the index counts them, and the
    last [num] heads are in their slots. *)
Definition avail_log (r : Ram) (a num : Z) (l : list Z) : Prop :=
  load_le r (a + 2) 2 = wrap 16 (Z.of_nat (length l)) /\
  forall k x, l !! k = Some x -> Z.of_nat (length l) - num <= Z.of_nat k ->
    load_le r (a + 4 + 2 * (Z.of_nat k mod num)) 2 = x.

Lemma try_get_desc_idx_log {E} a num l c r : ram_wf r -> 0 < num < 2 ^ 16 -> (num | 2 ^ 16) -> in_window a (4 + 2 * num) ->
  avail_log r a num l -> (c <= length l)%nat -> Z.of_nat (length l) - num <= Z.of_nat c ->
  try_get_desc_idx (E := E) a num (wrap 16 (Z.of_nat c)) r =
    (Ok (l !! c, wrap 16 (Z.of_nat (if decide (c = length l) then c else S c))), r).
Proof.
  intros Hr Hn Hd Hw [Hidx Hslots] Hle Hc.
  rewrite try_get_desc_idx_run by (done || lia || by apply wrap_range). rewrite Hidx. destruct (decide (c = length l)) as [->|Hne].
  - by rewrite Z.eqb_refl, lookup_ge_None_2.
  - destruct (lookup_lt_is_Some_2 l c ltac:(lia)) as [x Hx]. rewrite Hx.
    destruct (Z.eqb_spec (wrap 16 (Z.of_nat c)) (wrap 16 (Z.of_nat (length l)))) as [Heq|_].
    + symmetry in Heq. apply slot_inj in Heq; lia.
    + rewrite slot_wrap by (done || lia). rewrite (Hslots c x Hx) by lia. rewrite wrap_add_l.
      by replace (Z.of_nat (S c)) with (Z.of_nat c + 1) by lia.
Qed.

(** ** Chains that are not nested end *)

Definition is_indirect (r : Ram) (t : RawSlice) (i : Z) : bool :=
  contains (flags (desc_at r (sl_base t + SIZEOF_DESC * i))) VIRTQ_DESC_F_INDIRECT.

(** A table without indirect entries. *)
Definition leaf (r : Ram) (t : RawSlice) : Prop := forall i, 0 <= i < sl_len t -> is_indirect r t i = false.

(** The indirect tables of a table have no indirect entries themselves, as the
    VirtIO specification demands of the driver. *)
Definition flat (r : Ram) (t : RawSlice) : Prop :=
  forall i t', 0 <= i < sl_len t -> is_indirect r t i = true ->
    indirect_of (desc_at r (sl_base t + SIZEOF_DESC * i)) = Some t' -> leaf r t'.

Section Ends.
Context {E A : Type} (func : VirtQueueDesc -> Z -> A -> M Ram E A).

(** The closure succeeds on buffers in guest memory and only reads it. *)
Definition closure_reads : Prop :=
  forall d i a r, ram_wf r -> desc_ok d -> in_window (paddr d - BASE_ADDR) (len d) -> exists a', func d i a r = (Ok a', r).

Lemma walk_step fuel h i a r : closure_reads -> ram_wf r -> handle_ok h ->
  walk func (S fuel) h i a r =
    match try_get_spec h r with
    | (None, _) => (Ok (Some a), r)
    | (Some d, h') => (a <- func d i a ;; walk func fuel h' (i + 1) a) r
    end.
Proof.
  intros Hf Hr Hh. cbn [walk]. rewrite (bind_Ok _ _ _ _ _ (try_get_run h r Hr Hh)).
  by destruct (try_get_spec h r) as [[d|] h'].
Qed.

(** One step of a walk: it ends, or goes on with a smaller count in the same
    table, or in a table the current entry names. *)
Lemma try_get_spec_next h r d h' : ram_wf r -> handle_ok h -> try_get_spec h r = (Some d, h') ->
  0 <= idx h < sl_len (table h) /\
  match is_indirect r (table h) (idx h) return Prop with
  | true => indirect_of (cur_desc h r) = Some (table h') /\ remaining h' = sl_len (table h') - 1
  | false => table h' = table h /\ remaining h' = remaining h - 1
  end.
Proof.
  intros Hr Hh. unfold try_get_spec. destruct (Z.ltb_spec (idx h) (sl_len (table h))) as [Hlt|]; [|done].
  destruct (Z.eqb_spec (remaining h) 0); [done|]. cbn [andb negb]. pose proof (ho_idx h Hh).
  change (contains _ _) with (is_indirect r (table h) (idx h)).
  destruct (is_indirect r (table h) (idx h)).
  - destruct (indirect_of (cur_desc h r)) as [t|]; [|done]. unfold advance_spec. destruct (buffer_in_ram _); [|done].
    intros [= <- <-]. by split_and!.
  - unfold advance_spec. destruct (buffer_in_ram _); [|done]. intros [= <- <-]. by split_and!.
Qed.

Lemma walk_leaf fuel h i a r : closure_reads -> ram_wf r -> handle_ok h -> leaf r (table h) ->
  remaining h < Z.of_nat fuel -> exists a', walk func fuel h i a r = (Ok (Some a'), r).
Proof.
  intros Hf Hr. revert h i a. induction fuel as [|fuel IH]; intros h i a Hh Hleaf Hfuel.
  { pose proof (ho_remaining h Hh). lia. }
  rewrite walk_step by done. destruct (try_get_spec h r) as [[d|] h'] eqn:Et; [|by exists a].
  destruct (try_get_spec_ok h r d h' Hr Hh Et) as (Hh' & Hd & Hw).
  destruct (try_get_spec_next h r d h' Hr Hh Et) as [Hi Hnext]. rewrite (Hleaf _ Hi) in Hnext. destruct Hnext as [Ht Hm].
  destruct (Hf d i a r Hr Hd Hw) as [a' Ha]. rewrite (bind_Ok _ _ _ _ _ Ha). apply IH; [done|by rewrite Ht|lia].
Qed.

Lemma walk_flat fuel h i a r : closure_reads -> ram_wf r -> handle_ok h -> flat r (table h) ->
  remaining h + SIZE / SIZEOF_DESC < Z.of_nat fuel -> exists a', walk func fuel h i a r = (Ok (Some a'), r).
Proof.
  intros Hf Hr. revert h i a. induction fuel as [|fuel IH]; intros h i a Hh Hflat Hfuel.
  { pose proof (ho_remaining h Hh). assert (0 <= SIZE / SIZEOF_DESC) by done. lia. }
  rewrite walk_step by done. destruct (try_get_spec h r) as [[d|] h'] eqn:Et; [|by exists a].
  destruct (try_get_spec_ok h r d h' Hr Hh Et) as (Hh' & Hd & Hw).
  destruct (try_get_spec_next h r d h' Hr Hh Et) as [Hi Hnext].
  destruct (Hf d i a r Hr Hd Hw) as [a' Ha]. rewrite (bind_Ok _ _ _ _ _ Ha).
  destruct (is_indirect r (table h) (idx h)) eqn:Eind; destruct Hnext as [Ht Hm].
  - destruct (indirect_of_ok _ _ (desc_at_ok _ _ Hr) Ht) as (_ & _ & Hle). pose proof (ho_remaining h Hh).
    apply walk_leaf; [done..| |lia]. by apply (Hflat _ _ Hi Eind).
  - apply IH; [done|by rewrite Ht|lia].
Qed.
End Ends.

(** Taking a request ends when the tables are as the specification demands. *)
Lemma take_ends {E A} (func : VirtQueueDesc -> Z -> A -> M Ram E A) fuel a q r :
  closure_reads func -> ram_wf r -> queue_ok q ->
  (forall d, desc q = Some d -> flat r {| sl_base := d; sl_len := queue_num q |}) ->
  queue_num q + SIZE / SIZEOF_DESC < Z.of_nat fuel ->
  exists t, take_one_request func fuel a q r = (Ok (Some t), r).
Proof.
  intros Hf Hr Hq Hflat Hfuel. unfold take_one_request. destruct (Z.eqb_spec (queue_num q) 0) as [Hz|Hz]; [by eexists|].
  destruct (desc q) as [d|] eqn:Ed, (avail q) as [av|] eqn:Ea, (used q) as [u|] eqn:Eu; cbn [is_null orb]; try by eexists.
  pose proof (qo_num q Hq) as Hn. assert (0 < queue_num q) as Hpos by (unfold uint in Hn; lia).
  destruct (try_get_desc_run (E := E) q d av r Hr Hq Ed Ea Hpos) as (o & i & _ & Hi & Hrun & He).
  rewrite (bind_Ok _ _ _ _ _ Hrun). destruct o as [e|]; cbn [fst snd]; [|by eexists].
  destruct (walk_flat func fuel {| table := {| sl_base := d; sl_len := queue_num q |}; idx := e; remaining := queue_num q |} 0 a r)
    as [a' Hw]; [done..| |by apply Hflat|done|].
  { specialize (He e eq_refl). unfold uint in *. split; simpl; [split; simpl; [lia|by apply Hq]|lia..]. }
  rewrite (bind_Ok _ _ _ _ _ Hw). cbn [used set_last_avail_idx]. rewrite Eu. by eexists.
Qed.

(** C28: The queue code stays inside guest memory, whatever the driver wrote there.
    The queue is one whose ring addresses were validated for its size when it
    was enabled ([queue_ok]).  Taking a request, followed for up to [fuel]
    descriptors, neither panics nor leaves guest memory, and calls the closure only
    on buffers that lie in guest memory (so an invariant [P] of its variables
    that it keeps on those holds at the end).  Either the request is taken; then
    the queue is still valid, and completing the request succeeds and writes no
    byte outside the used ring.  Or the chain has not ended within the bound
    ([o = None]); the code itself has no bound, and a driver can make an
    indirect table that never ends.  With a closure that only reads and tables
    whose indirect tables are not indirect again, as VirtIO demands, the request
    is taken within the stated bound. *)
Theorem queue_stays_in_ram {E A} (P : A -> Prop) (func : VirtQueueDesc -> Z -> A -> M Ram E A) fuel a q r :
  closure_safe P func -> ram_wf r -> queue_ok q -> P a ->
  exists o r', take_one_request func fuel a q r = (Ok o, r') /\ ram_wf r' /\
    (forall t, o = Some t -> queue_ok (queue t) /\ P (captured t) /\
      forall c, completion t = Some c -> forall r1 l, ram_wf r1 ->
        exists r2, complete (E := E) c l r1 = (Ok tt, r2) /\ ram_wf r2 /\
          same_outside (used_ring c + 2) (2 + 8 * c_queue_num c) r1 r2) /\
    (closure_reads func -> (forall d, desc q = Some d -> flat r {| sl_base := d; sl_len := queue_num q |}) ->
      queue_num q + SIZE / SIZEOF_DESC < Z.of_nat fuel -> is_Some o).
Proof.
  intros Hf Hr Hq Ha. destruct (take_safe P func fuel a q r Hf Hr Hq Ha) as (o & r' & Hrun & Hr' & Ht).
  exists o, r'. split_and!; [done..| |].
  - intros t Et. destruct (Ht t Et) as (Hq' & Hp & Hc). split_and!; [done..|].
    intros c Ec r1 l Hr1. destruct (Hc c Ec) as [Hn Hw]. eexists. split; [by apply used_insert_run|].
    split; [by apply used_stored_wf|]. apply used_stored_outside. by apply Z.mod_pos_bound.
  - intros Hreads Hflat Hfuel. destruct (take_ends func fuel a q r Hreads Hr Hq Hflat Hfuel) as [t E']. rewrite E' in Hrun.
    injection Hrun as <- _. by eexists.
Qed.

(** A ready queue is a FIFO, and taking a request ends.  When the driver has
    published the chains [l], the device has taken [c] of them and no indirect
    table has indirect entries, [take_one_request] returns: it takes the chain
    [l !! c] and its completion names that head, or it takes nothing when none
    is left; [last_avail_idx] counts the chains taken, also where the 16-bit
    index wraps, and nothing else of the queue changes. *)
Theorem requests_in_order {E A} (func : VirtQueueDesc -> Z -> A -> M Ram E A) fuel a q d av u l c r :
  closure_reads func -> ram_wf r -> queue_ok q ->
  desc q = Some d -> avail q = Some av -> used q = Some u ->
  0 < queue_num q < 2 ^ 16 -> (queue_num q | 2 ^ 16) ->
  flat r {| sl_base := d; sl_len := queue_num q |} -> queue_num q + SIZE / SIZEOF_DESC < Z.of_nat fuel ->
  avail_log r av (queue_num q) l -> last_avail_idx q = wrap 16 (Z.of_nat c) -> (c <= length l)%nat ->
  Z.of_nat (length l) - queue_num q <= Z.of_nat c ->
  exists t, take_one_request func fuel a q r = (Ok (Some t), r) /\
    completion t = option_map (fun e => {| used_ring := u; c_queue_num := queue_num q; entry_idx := wrap 32 e |}) (l !! c) /\
    queue t = set_last_avail_idx (wrap 16 (Z.of_nat (if decide (c = length l) then c else S c))) q.
Proof.
  intros Hf Hr Hq Ed Ea Eu Hn Hdv Hflat Hfuel Hlog Hlast Hle Hc. unfold take_one_request. rewrite Ed, Ea, Eu.
  rewrite (proj2 (Z.eqb_neq (queue_num q) 0)) by lia. cbn [is_null orb].
  destruct (try_get_desc_run (E := E) q d av r Hr Hq Ed Ea ltac:(lia)) as (o & i & Hidx & Hi & Hrun & He).
  rewrite Hlast, (try_get_desc_idx_log av _ l c r) in Hidx by (done || by apply Hq). simplify_eq.
  rewrite (bind_Ok _ _ _ _ _ Hrun). destruct (l !! c) as [e|] eqn:Elc; cbn [fst snd option_map].
  - pose proof (lookup_lt_Some _ _ _ Elc). destruct (decide (c = length l)); [lia|]. specialize (He e eq_refl).
    destruct (walk_flat func fuel {| table := {| sl_base := d; sl_len := queue_num q |}; idx := e; remaining := queue_num q |} 0 a r)
      as [a' Hw]; [done..| |done|done|].
    { unfold uint in He. split; simpl; [split; simpl; [lia|by apply Hq]|lia..]. }
    rewrite (bind_Ok _ _ _ _ _ Hw). cbn [used set_last_avail_idx]. rewrite Eu. by eexists.
  - by eexists.
Qed.

(** ** Nested indirect tables *)

(** One table: an entry with a successor, and an indirect entry for the table. *)
Definition loop_ram : Ram :=
  set_data (store_bytes 0x1000
    (split_le 8 BASE_ADDR ++ split_le 4 0 ++ split_le 2 VIRTQ_DESC_F_NEXT ++ split_le 2 1 ++
     split_le 8 (BASE_ADDR + 0x1000) ++ split_le 4 32 ++ split_le 2 VIRTQ_DESC_F_INDIRECT ++ split_le 2 0))
  (set_data (store_bytes 0x2000 (split_le 2 0 ++ split_le 2 1 ++ split_le 4 0)) (Ram_new 0)).

Definition loop_queue : VirtQueue :=
  set_used (BASE_ADDR + 0x3000) (set_avail (BASE_ADDR + 0x2000) (set_desc (BASE_ADDR + 0x1000) (VirtQueue_new 2))).

Lemma loop_ram_wf : ram_wf loop_ram.
Proof.
  split; [done|]. unfold loop_ram. cbn [data set_data Ram_new with_init].
  repeat (apply store_bytes_Forall; [repeat (apply list.Forall_app_2; [apply split_le_bytes|]); apply split_le_bytes|]).
  apply map_Forall_empty.
Qed.

Lemma ptr_window a l al o : guest_ram_ptr a l al = Some o -> in_window o l.
Proof. intros H%guest_ram_ptr_spec. naive_solver. Qed.

(** Addresses that pass the checks make a well-formed queue. *)
Lemma set_up_ok num d a u q : uint 32 num -> uint 16 (last_avail_idx q) ->
  queue_ok (set_used u (set_avail a (set_desc d (set_queue_num num q)))).
Proof.
  intros Hn Hl. split; try done; cbn; intros o Ho; apply ptr_window in Ho;
    [by rewrite Z.mul_comm|replace (2 * num) with (num * 2) by lia|replace (8 * num) with (num * 8) by lia]; done.
Qed.

(** A driver that nests indirect tables makes the device loop for ever: an
    indirect entry resets the count of remaining entries, so a table whose
    second entry is an indirect entry for the same table is walked without end;
    no amount of fuel is enough, although the queue is well formed and every
    buffer lies in guest memory. *)
Theorem nested_indirect_never_ends {E A} (func : VirtQueueDesc -> Z -> A -> M Ram E A) (fuel : nat) a :
  closure_reads func -> queue_ok loop_queue /\ ready loop_queue = true /\
    take_one_request func fuel a loop_queue loop_ram = (Ok None, loop_ram).
Proof.
  intros Hf. assert (queue_ok loop_queue) as Hq by (apply (set_up_ok 2 _ _ _ (VirtQueue_new 2)); done).
  split_and!; [done|by vm_compute|].
  pose (t := {| sl_base := 0x1000; sl_len := 2 |}). pose (h1 := {| table := t; idx := 1; remaining := 1 |}).
  pose (d := {| paddr := BASE_ADDR; len := 0; flags := 1; next := 1 |}).
  assert (desc_ok d) as Hd by (split; vm_compute; split; congruence).
  assert (uint 16 0) as Hu0 by (vm_compute; split; congruence).
  assert (in_window 0x2000 (4 + 2 * 2)) as Hwin by (vm_compute; split; congruence).
  assert (in_window (paddr d - BASE_ADDR) (len d)) as Hw by (vm_compute; split; congruence).
  assert (forall i, i = 0 \/ i = 1 -> handle_ok {| table := t; idx := i; remaining := 2 - i |}) as Hok.
  { intros i Hi. repeat split; simpl; done || lia. }
  assert (try_get_spec h1 loop_ram = (Some d, h1)) as Hstep by by vm_compute.
  assert (forall fuel i a, walk func fuel h1 i a loop_ram = (Ok None, loop_ram)) as Hloop.
  { intros n. induction n as [|n IH]; intros i b; [done|].
    rewrite walk_step; [|done|apply loop_ram_wf|by apply (Hok 1); right]. rewrite Hstep.
    destruct (Hf d i b loop_ram loop_ram_wf) as [b' Hb]; [exact Hd|exact Hw|].
    by rewrite (bind_Ok _ _ _ _ _ Hb). }
  assert (forall a, walk func fuel {| table := t; idx := 0; remaining := 2 |} 0 a loop_ram = (Ok None, loop_ram)) as Hwalk.
  { intros b. destruct fuel as [|n]; [done|]. rewrite walk_step; [|done|apply loop_ram_wf|by apply (Hok 0); left].
    replace (try_get_spec _ _) with (Some d, h1) by by vm_compute.
    destruct (Hf d 0 b loop_ram loop_ram_wf) as [b' Hb]; [exact Hd|exact Hw|]. by rewrite (bind_Ok _ _ _ _ _ Hb). }
  unfold take_one_request. cbn [loop_queue].
  destruct (try_get_desc_run (E := E) loop_queue 0x1000 0x2000 loop_ram loop_ram_wf Hq eq_refl eq_refl ltac:(done)) as (o & i & Hidx & _ & Hrun & _).
  assert (o = Some 0 /\ i = 1) as [-> ->].
  { change (queue_num loop_queue) with 2 in Hidx. change (last_avail_idx loop_queue) with 0 in Hidx.
    rewrite (try_get_desc_idx_run 0x2000 2 0 loop_ram loop_ram_wf Hu0 eq_refl Hwin) in Hidx.
    apply (f_equal fst) in Hidx. vm_compute in Hidx. injection Hidx as <- <-. split; reflexivity. }
  change ((queue_num loop_queue =? 0) || is_null (desc loop_queue) || is_null (avail loop_queue) || is_null (used loop_queue)) with false.
  cbn iota. rewrite (bind_Ok _ _ _ _ _ Hrun). cbn [fst]. change (queue_num loop_queue) with 2. fold t.
  rewrite (bind_Ok _ _ _ _ _ (Hwalk a)). reflexivity.
Qed.

(** ** Witnesses *)

(** A table with one chain of two buffers, published as the first request. *)
Definition chain_ram : Ram :=
  set_data (store_bytes 0x1000
    (split_le 8 (BASE_ADDR + 0x4000) ++ split_le 4 16 ++ split_le 2 VIRTQ_DESC_F_NEXT ++ split_le 2 1 ++
     split_le 8 (BASE_ADDR + 0x5000) ++ split_le 4 1 ++ split_le 2 VIRTQ_DESC_F_WRITE ++ split_le 2 0))
  (set_data (store_bytes 0x2000 (split_le 2 0 ++ split_le 2 1 ++ split_le 4 0)) (Ram_new 0)).

Lemma chain_ram_wf : ram_wf chain_ram.
Proof.
  split; [done|]. unfold chain_ram. cbn [data set_data Ram_new with_init].
  repeat (apply store_bytes_Forall; [repeat (apply list.Forall_app_2; [apply split_le_bytes|]); apply split_le_bytes|]).
  apply map_Forall_empty.
Qed.

(** A closure that collects the buffer lengths. *)
Definition collect (d : VirtQueueDesc) (i : Z) (a : list Z) : M Ram MemError (list Z) := ret (a ++ [len d]).

Lemma collect_reads : closure_reads collect.
Proof. intros d i a r _ _ _. by eexists. Qed.

Lemma loop_queue_ok : queue_ok loop_queue.
Proof. apply (set_up_ok 2 _ _ _ (VirtQueue_new 2)); vm_compute; split; congruence. Qed.

Lemma demo_flat : flat chain_ram {| sl_base := 0x1000; sl_len := 2 |}.
Proof.
  intros i t' Hi Hind. cbn [sl_len] in Hi. assert (i = 0 \/ i = 1) as [-> | ->] by lia; vm_compute in Hind; discriminate Hind.
Qed.

Lemma queue_stays_in_ram_witness : exists t r', let fuel := Z.to_nat (SIZE / SIZEOF_DESC + 3) in
  take_one_request collect fuel [] loop_queue chain_ram = (Ok (Some t), r') /\ ram_wf r' /\ queue_ok (queue t).
Proof.
  destruct (queue_stays_in_ram (Forall (uint 32)) collect (Z.to_nat (SIZE / SIZEOF_DESC + 3)) [] loop_queue chain_ram)
    as (o & r' & H1 & H2 & H3 & H4).
  - intros d i a r Hr Hd Hw Ha. exists (a ++ [len d]), r. split; [reflexivity|]. split; [exact Hr|].
    apply list.Forall_app_2; [exact Ha|]. apply list.Forall_singleton. exact (do_len d Hd).
  - exact chain_ram_wf.
  - exact loop_queue_ok.
  - constructor.
  - destruct H4 as [t ->].
    + exact collect_reads.
    + intros d Hd. change (desc loop_queue) with (Some 0x1000) in Hd. injection Hd as <-. exact demo_flat.
    + change (queue_num loop_queue) with 2. assert (0 <= SIZE / SIZEOF_DESC) by (vm_compute; congruence). lia.
    + exists t, r'. split; [exact H1|]. split; [exact H2|]. exact (proj1 (H3 t eq_refl)).
Defined.

Lemma demo_avail_log : avail_log chain_ram 0x2000 2 [0].
Proof.
  split; [vm_compute; reflexivity|]. intros [|k] x Hk _; [|done]. simplify_eq/=. vm_compute. reflexivity.
Qed.

Lemma requests_in_order_witness : exists t,
  take_one_request collect (Z.to_nat (SIZE / SIZEOF_DESC + 3)) [] loop_queue chain_ram = (Ok (Some t), chain_ram) /\
  completion t = Some {| used_ring := 0x3000; c_queue_num := 2; entry_idx := 0 |}.
Proof.
  destruct (requests_in_order collect (Z.to_nat (SIZE / SIZEOF_DESC + 3)) [] loop_queue 0x1000 0x2000 0x3000 [0] 0 chain_ram)
    as (t & H1 & H2 & _).
  - exact collect_reads.
  - exact chain_ram_wf.
  - exact loop_queue_ok.
  - vm_compute. reflexivity.
  - vm_compute. reflexivity.
  - vm_compute. reflexivity.
  - vm_compute. split; congruence.
  - exists (2 ^ 15). vm_compute. reflexivity.
  - exact demo_flat.
  - change (queue_num loop_queue) with 2. assert (0 <= SIZE / SIZEOF_DESC) by (vm_compute; congruence). lia.
  - exact demo_avail_log.
  - vm_compute. reflexivity.
  - simpl. lia.
  - simpl. lia.
  - exists t. split; [exact H1|exact H2].
Defined.

Lemma completions_in_order_witness : exists r',
  complete (E := MemError) {| used_ring := 0x3000; c_queue_num := 2; entry_idx := 0 |} 17 chain_ram = (Ok tt, r') /\
  used_log r' 0x3000 2 [{| elem_id := 0; used_len := 17 |}].
Proof.
  destruct (completions_in_order (E := MemError) {| used_ring := 0x3000; c_queue_num := 2; entry_idx := 0 |} 17 [] chain_ram)
    as (r' & H1 & _ & H2 & _).
  - exact chain_ram_wf.
  - split; [vm_compute; reflexivity|vm_compute; split; congruence].
  - exists (2 ^ 15). vm_compute. reflexivity.
  - vm_compute. split; congruence.
  - vm_compute. split; congruence.
  - split; [vm_compute; reflexivity|]. intros k e Hk. rewrite lookup_nil in Hk. discriminate Hk.
  - exists r'. split; [exact H1|exact H2].
Defined.

Lemma nested_indirect_never_ends_witness :
  take_one_request collect 1000 [] loop_queue loop_ram = (Ok None, loop_ram).
Proof. apply (nested_indirect_never_ends collect 1000 []). exact collect_reads. Defined.
