(* ===== verification/VirtMmio.v ===== *)
(** * The VirtIO MMIO transport (src/src/device/virtio/virtio_mmio.rs)

    The register window in front of a VirtIO device.  The device is a trait
    object, here a type [D] with an instance of [VirtIODeviceTrait]; [D] holds
    whatever the device shares, guest memory included.  A device method that
    loops returns [false] when the model's fuel ran out, and so do the register
    writes that call it. *)

From S2P Require Import Prelude Utils TrapTypes.

(** ** Constants (config.rs) *)

Definition VIRT_MAGIC : Z := 0x74726976.
Definition VIRT_VERSION : Z := 0x2.
Definition VIRT_VENDOR : Z := 0x4A444E42.
Definition VIRTQUEUE_MAX_SIZE : Z := 1024.
Definition VIRTIO_MAX_FEATURE_BIT_LEN : Z := 128.
Definition VERSION_1 : Z := Z.shiftl 1 32.

Definition VIRTIO_MMIO_CONFIG_OFFSET : Z := 0x100.
Definition VIRTIO_MMIO_MAX_QUEUES : nat := 8.
Definition FEATURE_SELECT_BITS : Z := 32.
Definition FEATURE_WORD_COUNT : Z := VIRTIO_MAX_FEATURE_BIT_LEN / FEATURE_SELECT_BITS.
Definition u32_MAX : Z := Z.ones 32.

(** ** The device behind the transport (virtio_device.rs) *)
Class VirtIODeviceTrait (D : Type) : Type := {
  get_device_id : D -> Z;
  status : D -> Z;
  set_status : Z -> D -> D;
  get_generation : D -> Z;
  device_reset : M D MemError unit;
  isr : D -> Z;
  set_isr : Z -> D -> D;
  device_irq_level : M D MemError bool;
  get_host_feature : D -> Z;
  set_feature : Z -> D -> D;
  set_queue_num : Z -> D -> D;
  queue_ready : D -> bool;
  device_queue_select : Z -> D -> D;
  get_num_of_queue : D -> Z;
  set_desc : Z -> D -> D;
  set_avail : Z -> D -> D;
  set_used : Z -> D -> D;
  notify : Z -> M D MemError bool;
  read_config : Z -> Z -> D -> Z;
  write_config : Z -> Z -> Z -> D -> D
}.

(** [DeviceIDAllocator]: the counter is an [AtomicU16]; the old value and the
    new counter. *)
Definition DeviceIDAllocator_alloc (n : Z) : Z * Z := (n, wrap 16 (n + 1)).

Inductive VirtIO_MMIO_Offset : Type :=
| MagicValue | Version | DeviceId | VendorId | DeviceFeatures | DeviceFeaturesSelect | DriverFeatures
| DriverFeaturesSelect | QueueSelect | QueueNumMax | QueueNum | QueueReady | QueueNotify | InterruptStatus
| InterruptAck | Status | QueueDescLow | QueueDescHigh | QueueAvailLow | QueueAvailHigh | QueueUsedLow
| QueueUsedHigh | SharedMemSelect | SharedMemLenLow | SharedMemLenHigh | SharedMemBaseLow | SharedMemBaseHigh
| ConfigGeneration | Config.

Definition offset_value (o : VirtIO_MMIO_Offset) : Z :=
  match o with
  | MagicValue => 0x000 | Version => 0x004 | DeviceId => 0x008 | VendorId => 0x00C
  | DeviceFeatures => 0x010 | DeviceFeaturesSelect => 0x014 | DriverFeatures => 0x020 | DriverFeaturesSelect => 0x024
  | QueueSelect => 0x030 | QueueNumMax => 0x034 | QueueNum => 0x038 | QueueReady => 0x044
  | QueueNotify => 0x050 | InterruptStatus => 0x060 | InterruptAck => 0x064 | Status => 0x070
  | QueueDescLow => 0x080 | QueueDescHigh => 0x084 | QueueAvailLow => 0x090 | QueueAvailHigh => 0x094
  | QueueUsedLow => 0x0A0 | QueueUsedHigh => 0x0A4 | SharedMemSelect => 0x0AC | SharedMemLenLow => 0x0B0
  | SharedMemLenHigh => 0x0B4 | SharedMemBaseLow => 0x0B8 | SharedMemBaseHigh => 0x0BC
  | ConfigGeneration => 0x0FC | Config => 0x100
  end.

Definition all_offsets : list VirtIO_MMIO_Offset :=
  [MagicValue; Version; DeviceId; VendorId; DeviceFeatures; DeviceFeaturesSelect; DriverFeatures;
   DriverFeaturesSelect; QueueSelect; QueueNumMax; QueueNum; QueueReady; QueueNotify; InterruptStatus;
   InterruptAck; Status; QueueDescLow; QueueDescHigh; QueueAvailLow; QueueAvailHigh; QueueUsedLow;
   QueueUsedHigh; SharedMemSelect; SharedMemLenLow; SharedMemLenHigh; SharedMemBaseLow; SharedMemBaseHigh;
   ConfigGeneration; Config].

(** [VirtIO_MMIO_Offset::try_from], derived from the discriminants. *)
Definition offset_of (v : Z) : option VirtIO_MMIO_Offset :=
  list_find (fun o => offset_value o = v) all_offsets ≫= fun p => Some p.2.

(** ** Device status bits *)

Definition ACKNOWLEDGE : Z := Z.shiftl 1 0.
Definition DRIVER : Z := Z.shiftl 1 1.
Definition DRIVER_OK : Z := Z.shiftl 1 2.
Definition FEATURES_OK : Z := Z.shiftl 1 3.
Definition DEVICE_NEEDS_RESET : Z := Z.shiftl 1 6.
Definition FAILED : Z := Z.shiftl 1 7.
Definition STATUS_ALL : Z := fold_right Z.lor 0 [ACKNOWLEDGE; DRIVER; DRIVER_OK; FAILED; FEATURES_OK; DEVICE_NEEDS_RESET].

(** [VirtIODeviceStatus::from_bits]: no unknown bit. *)
Definition status_from_bits (v : Z) : option Z := if Z.land v (bnot 8 STATUS_ALL) =? 0 then Some v else None.

(** ** The registers of a queue *)

Record VirtIOMMIOQueueStatus : Type := { num : Z; q_desc : Z; q_avail : Z; q_used : Z; enable : bool }.
Definition queue_status_default : VirtIOMMIOQueueStatus :=
  {| num := 0; q_desc := 0; q_avail := 0; q_used := 0; enable := false |}.

(** The mask of [set_low] is [!u32::MAX as u64]: the complement is taken at 32
    bits, before the cast. *)
Definition set_low (value low : Z) : Z := Z.lor (Z.land value (bnot 32 u32_MAX)) low.
Definition set_high (value high : Z) : Z := Z.lor (Z.land value u32_MAX) (shl 64 high FEATURE_SELECT_BITS).

Definition with_num (v : Z) (q : VirtIOMMIOQueueStatus) : VirtIOMMIOQueueStatus :=
  {| num := v; q_desc := q_desc q; q_avail := q_avail q; q_used := q_used q; enable := enable q |}.
Definition with_desc (f : Z -> Z) (q : VirtIOMMIOQueueStatus) : VirtIOMMIOQueueStatus :=
  {| num := num q; q_desc := f (q_desc q); q_avail := q_avail q; q_used := q_used q; enable := enable q |}.
Definition with_avail (f : Z -> Z) (q : VirtIOMMIOQueueStatus) : VirtIOMMIOQueueStatus :=
  {| num := num q; q_desc := q_desc q; q_avail := f (q_avail q); q_used := q_used q; enable := enable q |}.
Definition with_used (f : Z -> Z) (q : VirtIOMMIOQueueStatus) : VirtIOMMIOQueueStatus :=
  {| num := num q; q_desc := q_desc q; q_avail := q_avail q; q_used := f (q_used q); enable := enable q |}.
Definition with_enable (b : bool) (q : VirtIOMMIOQueueStatus) : VirtIOMMIOQueueStatus :=
  {| num := num q; q_desc := q_desc q; q_avail := q_avail q; q_used := q_used q; enable := b |}.

(** ** Feature words *)

Definition feature_word (features select : Z) : Z :=
  if FEATURE_WORD_COUNT <=? select then 0 else wrap 32 (Z.shiftr features (select * FEATURE_SELECT_BITS)).

Definition set_feature_word (features select value : Z) : Z :=
  if FEATURE_WORD_COUNT <=? select then features
  else
    let shift := select * FEATURE_SELECT_BITS in
    let mask := shl 128 u32_MAX shift in
    Z.lor (Z.land features (bnot 128 mask)) (shl 128 value shift).

(** ** The transport *)

Record VirtIOMMIO (D : Type) : Type := {
  device : D;
  host_features_sel : Z;
  guest_features_sel : Z;
  guest_features : Z;
  queues : list VirtIOMMIOQueueStatus;
  queue_select : Z
}.
Arguments device {D}.
Arguments host_features_sel {D}.
Arguments guest_features_sel {D}.
Arguments guest_features {D}.
Arguments queues {D}.
Arguments queue_select {D}.

Section Transport.
Context {D : Type} `{VirtIODeviceTrait D}.
Local Notation MmioM := (M (VirtIOMMIO D) MemError).

Definition VirtIOMMIO_new (d : D) : VirtIOMMIO D :=
  {| device := d; host_features_sel := 0; guest_features_sel := 0; guest_features := 0;
     queues := replicate VIRTIO_MMIO_MAX_QUEUES queue_status_default; queue_select := 0 |}.

Definition set_device (d : D) (s : VirtIOMMIO D) : VirtIOMMIO D :=
  {| device := d; host_features_sel := host_features_sel s; guest_features_sel := guest_features_sel s;
     guest_features := guest_features s; queues := queues s; queue_select := queue_select s |}.
Definition set_host_features_sel (v : Z) (s : VirtIOMMIO D) : VirtIOMMIO D :=
  {| device := device s; host_features_sel := v; guest_features_sel := guest_features_sel s;
     guest_features := guest_features s; queues := queues s; queue_select := queue_select s |}.
Definition set_guest_features_sel (v : Z) (s : VirtIOMMIO D) : VirtIOMMIO D :=
  {| device := device s; host_features_sel := host_features_sel s; guest_features_sel := v;
     guest_features := guest_features s; queues := queues s; queue_select := queue_select s |}.
Definition set_guest_features (v : Z) (s : VirtIOMMIO D) : VirtIOMMIO D :=
  {| device := device s; host_features_sel := host_features_sel s; guest_features_sel := guest_features_sel s;
     guest_features := v; queues := queues s; queue_select := queue_select s |}.
Definition set_queues (v : list VirtIOMMIOQueueStatus) (s : VirtIOMMIO D) : VirtIOMMIO D :=
  {| device := device s; host_features_sel := host_features_sel s; guest_features_sel := guest_features_sel s;
     guest_features := guest_features s; queues := v; queue_select := queue_select s |}.
Definition set_queue_select (v : Z) (s : VirtIOMMIO D) : VirtIOMMIO D :=
  {| device := device s; host_features_sel := host_features_sel s; guest_features_sel := guest_features_sel s;
     guest_features := guest_features s; queues := queues s; queue_select := v |}.

Definition on_device {A} (m : M D MemError A) : MmioM A := zoom device (fun s d => set_device d s) m.
Definition update_device (f : D -> D) : MmioM unit := on_device (modify f).

(** [self.queues.get(i)] for a [usize]. *)
Definition get_queue (i : Z) (s : VirtIOMMIO D) : option VirtIOMMIOQueueStatus := queues s !! Z.to_nat i.
Definition selected_queue (s : VirtIOMMIO D) : option VirtIOMMIOQueueStatus := get_queue (queue_select s) s.
(** [selected_queue_mut] followed by a write through the reference. *)
Definition update_selected (f : VirtIOMMIOQueueStatus -> VirtIOMMIOQueueStatus) : MmioM unit :=
  modify (fun s => match selected_queue s with
                   | Some q => set_queues (<[Z.to_nat (queue_select s) := f q]> (queues s)) s
                   | None => s
                   end).

Definition reset : MmioM unit :=
  modify (fun s => {| device := device s; host_features_sel := 0; guest_features_sel := 0; guest_features := 0;
                      queues := replicate VIRTIO_MMIO_MAX_QUEUES queue_status_default; queue_select := 0 |}) ;;;
  on_device device_reset.

(** [read_config] and [write_config] of the transport. *)
Definition mmio_read_config (t : UInt) (offset : Z) : MmioM Z :=
  if negb (check_align t offset) then err MemLoadMisaligned
  else gets (fun s => truncate_from t (read_config (offset - VIRTIO_MMIO_CONFIG_OFFSET) (size_of t) (device s))).
Definition mmio_write_config (t : UInt) (offset data : Z) : MmioM unit :=
  if negb (check_align t offset) then err MemStoreMisaligned
  else update_device (write_config (offset - VIRTIO_MMIO_CONFIG_OFFSET) (size_of t) data).

Definition read_u32_impl (offset : Z) : MmioM Z :=
  assert (check_align U32 offset) ;;;
  if VIRTIO_MMIO_CONFIG_OFFSET <=? offset then
    gets (fun s => wrap 32 (read_config (offset - VIRTIO_MMIO_CONFIG_OFFSET) 4 (device s)))
  else match offset_of offset with
       | None => ret 0
       | Some o =>
           match o with
           | MagicValue => ret VIRT_MAGIC
           | Version => ret VIRT_VERSION
           | DeviceId => gets (fun s => get_device_id (device s))
           | VendorId => ret VIRT_VENDOR
           | DeviceFeatures => gets (fun s => feature_word (get_host_feature (device s)) (host_features_sel s))
           | QueueNumMax => gets (fun s => if queue_select s <? get_num_of_queue (device s) then VIRTQUEUE_MAX_SIZE else 0)
           | QueueReady => gets (fun s => match selected_queue s with Some q => Z.b2z (enable q) | None => 0 end)
           | InterruptStatus => gets (fun s => isr (device s))
           | Status => gets (fun s => status (device s))
           | ConfigGeneration => gets (fun s => get_generation (device s))
           | SharedMemLenLow | SharedMemLenHigh => ret u32_MAX
           | Config => panic
           | DeviceFeaturesSelect | DriverFeatures | DriverFeaturesSelect | QueueSelect | QueueNum | QueueNotify
           | InterruptAck | QueueDescLow | QueueDescHigh | QueueAvailLow | QueueAvailHigh | QueueUsedLow
           | QueueUsedHigh => panic
           | SharedMemBaseHigh | SharedMemBaseLow | SharedMemSelect => ret 0
           end
       end.

(** The arms of [write_u32_impl] that do more than set a field. *)
Definition write_queue_num (value : Z) : MmioM unit :=
  if (value =? 0) || (VIRTQUEUE_MAX_SIZE <? value) then ret tt
  else
    sel <- gets queue_select ;;
    update_selected (with_num value) ;;;
    n <- gets (fun s => get_num_of_queue (device s)) ;;
    if sel <? n then update_device (set_queue_num value) else ret tt.

Definition write_queue_ready (value : Z) : MmioM unit :=
  if 1 <? value then ret tt
  else
    s <- gets id ;;
    match selected_queue s with
    | None => ret tt
    | Some q =>
        if (value =? 1) && (num q =? 0) then ret tt
        else
          update_selected (with_enable (negb (value =? 0))) ;;;
          if negb (value =? 0) && (queue_select s <? get_num_of_queue (device s)) then
            update_device (set_queue_num (num q)) ;;;
            update_device (set_desc (q_desc q)) ;;;
            update_device (set_avail (q_avail q)) ;;;
            update_device (set_used (q_used q)) ;;;
            ready <- gets (fun s => queue_ready (device s)) ;;
            (if ready : bool then ret tt else update_selected (with_enable false))
          else ret tt
    end.

Definition write_queue_notify (queue_idx : Z) : MmioM bool :=
  s <- gets id ;;
  let ready := match get_queue queue_idx s with Some q => enable q | None => false end in
  if (queue_idx <? get_num_of_queue (device s)) && ready then on_device (notify queue_idx) else ret true.

Definition write_status (value : Z) : MmioM unit :=
  if value =? 0 then reset
  else match status_from_bits (wrap 8 value) with
       | None => ret tt
       | Some new_status =>
           update_device (fun d => set_status (Z.lor (status d) new_status) d) ;;;
           if negb (Z.land new_status FEATURES_OK =? 0) then
             f <- gets guest_features ;; update_device (set_feature f)
           else ret tt
       end.

Definition finish (m : MmioM unit) : MmioM bool := m ;;; ret true.

Definition write_u32_impl (offset value : Z) : MmioM bool :=
  assert (check_align U32 offset) ;;;
  if VIRTIO_MMIO_CONFIG_OFFSET <=? offset then
    finish (update_device (write_config (offset - VIRTIO_MMIO_CONFIG_OFFSET) 4 value))
  else match offset_of offset with
       | None => ret true
       | Some o =>
           match o with
           | DeviceFeaturesSelect => finish (modify (set_host_features_sel value))
           | DriverFeatures =>
               finish (modify (fun s => set_guest_features (set_feature_word (guest_features s) (guest_features_sel s) value) s))
           | DriverFeaturesSelect => finish (modify (set_guest_features_sel value))
           | QueueSelect => finish (modify (set_queue_select value) ;;; update_device (device_queue_select value))
           | QueueNum => finish (write_queue_num value)
           | QueueReady => finish (write_queue_ready value)
           | QueueNotify => write_queue_notify value
           | InterruptAck => finish (update_device (fun d => set_isr (Z.land (isr d) (bnot 8 (wrap 8 value))) d))
           | Status => finish (write_status value)
           | QueueDescLow => finish (update_selected (with_desc (fun v => set_low v value)))
           | QueueDescHigh => finish (update_selected (with_desc (fun v => set_high v value)))
           | QueueAvailLow => finish (update_selected (with_avail (fun v => set_low v value)))
           | QueueAvailHigh => finish (update_selected (with_avail (fun v => set_high v value)))
           | QueueUsedLow => finish (update_selected (with_used (fun v => set_low v value)))
           | QueueUsedHigh => finish (update_selected (with_used (fun v => set_high v value)))
           | MagicValue | Version | DeviceId | VendorId | DeviceFeatures | QueueNumMax | InterruptStatus
           | ConfigGeneration => ret true
           | SharedMemBaseHigh | SharedMemBaseLow | SharedMemLenHigh | SharedMemLenLow | SharedMemSelect => ret true
           | Config => panic
           end
       end.

Definition read_impl (t : UInt) (addr : Z) : MmioM Z :=
  if VIRTIO_MMIO_CONFIG_OFFSET <=? addr then mmio_read_config t addr
  else if negb (size_of t =? 4) || negb (check_align U32 addr) then err MemLoadMisaligned
  else read_u32_impl addr.

Definition write_impl (t : UInt) (addr data : Z) : MmioM bool :=
  if VIRTIO_MMIO_CONFIG_OFFSET <=? addr then finish (mmio_write_config t addr data)
  else if negb (size_of t =? 4) || negb (check_align U32 addr) then err MemStoreMisaligned
  else write_u32_impl addr data.

Definition irq_level : MmioM bool := on_device device_irq_level.
End Transport.
