(* ===== verification/VirtBlock.v ===== *)
(** * The VirtIO block device (src/src/device/virtio/virtio_block.rs)

    The device takes descriptor chains from its queue and submits them as tasks
    to a bounded channel; the worker takes the tasks in order, moves data
    between guest memory and the backing file, writes the status byte and
    publishes the completion.  Guest memory, the channel, the interrupt status
    and the backing file are shared: [BlkWorld] holds them beside the device,
    and the operations of the two parts are steps on it, interleaved at the
    granularity of whole operations.  The backing file is a parameter of class
    [HostFile]. *)

From S2P Require Import Prelude Utils TrapTypes Ram VirtQueue VirtMmio.

Definition SECTOR_SIZE : Z := 512.
Definition VIRTIO_BLOCK_TASK_CAPACITY : Z := VIRTQUEUE_MAX_SIZE.

(** ** Features *)

Inductive VirtIOBlockFeature : Type :=
| SizeMax | SegMax | Geometry | Ro | BlockSize | FlushF | Topology | ConfigWce | Multiqueue | DiscardF
| WriteZeroesF | Lifetime | SecureEraseF | ZONED.

Definition bit (f : VirtIOBlockFeature) : Z :=
  match f with
  | SizeMax => Z.shiftl 1 1 | SegMax => Z.shiftl 1 2 | Geometry => Z.shiftl 1 4 | Ro => Z.shiftl 1 5
  | BlockSize => Z.shiftl 1 6 | FlushF => Z.shiftl 1 9 | Topology => Z.shiftl 1 10 | ConfigWce => Z.shiftl 1 11
  | Multiqueue => Z.shiftl 1 12 | DiscardF => Z.shiftl 1 13 | WriteZeroesF => Z.shiftl 1 14 | Lifetime => Z.shiftl 1 15
  | SecureEraseF => Z.shiftl 1 16 | ZONED => Z.shiftl 1 17
  end.

Definition VIRTIO_BLK_IMPLEMENTED_FEATURES : Z := Z.lor (bit BlockSize) (bit FlushF).
Definition is_implemented (f : VirtIOBlockFeature) : bool := negb (Z.land VIRTIO_BLK_IMPLEMENTED_FEATURES (bit f) =? 0).

(** ** Configuration space

    [VirtioBlkConfig] is the bytes of the packed struct; the fields that the
    code uses are [capacity] at offset 0 and [blk_size] at offset 0x14. *)

Definition VirtioBlkConfig : Type := list Z.
Definition SIZEOF_CONFIG : nat := 0x60.

(** Little-endian value of a list of bytes. *)
Fixpoint le_value (bs : list Z) : Z :=
  match bs with [] => 0 | b :: bs => b + Z.shiftl (le_value bs) 8 end.

Definition VirtioBlkConfig_new (capacity : Z) : VirtioBlkConfig :=
  split_le 8 capacity ++ replicate 0x0C 0 ++ split_le 4 SECTOR_SIZE ++ replicate 0x48 0.
Definition capacity (c : VirtioBlkConfig) : Z := le_value (take 8 c).

(** ** Requests *)

Inductive VirtioBlkReqType : Type :=
| In | Out | Flush | GetId | GetLifetime | Discard | WriteZeroes | SecureErase | Unsupported.

Definition req_type_of (v : Z) : option VirtioBlkReqType :=
  if v =? 0 then Some In else if v =? 1 then Some Out else if v =? 4 then Some Flush
  else if v =? 8 then Some GetId else if v =? 10 then Some GetLifetime else if v =? 11 then Some Discard
  else if v =? 13 then Some WriteZeroes else if v =? 14 then Some SecureErase
  else if v =? 0xFFFFFFFF then Some Unsupported else None.

Definition SIZEOF_REQ : Z := 16.
Definition SIZEOF_STATUS : Z := 1.

Inductive VirtIOBlkReqStatus : Type := StOk | StIoErr | StUnsupported | StNotReady.
Definition status_value (s : VirtIOBlkReqStatus) : Z :=
  match s with StOk => 0 | StIoErr => 1 | StUnsupported => 2 | StNotReady => 3 end.

Record IOTaskRamBuffer : Type := { buf_addr : Z; buf_len : Z }.

Record VirtIOBlockCompletion : Type := { status_addr : Z; queue_completion : VirtQueueCompletion }.

Record VirtIOBlockIoTask : Type := {
  t_offset : Z;
  t_buffers : list IOTaskRamBuffer;
  t_completion : VirtIOBlockCompletion
}.

(** A drain barrier carries the channel that acknowledges it. *)
Inductive VirtIOBlockAsyncTask : Type :=
| TaskRead (t : VirtIOBlockIoTask)
| TaskWrite (t : VirtIOBlockIoTask)
| TaskFlush (c : VirtIOBlockCompletion)
| TaskEarlyErr (c : VirtIOBlockCompletion)
| TaskUnsupported (c : VirtIOBlockCompletion)
| TaskDrainBarrier.

Record VirtIOBlkDevice : Type := {
  name : string;
  blk_status : Z;
  blk_isr : Z;
  host_feature : Z;
  guest_feature : Z;
  generation : Z;
  queue : VirtQueue;
  config_region : VirtioBlkConfig
}.

Definition VirtIOBlkDevice_new (nm : string) (cap : Z) : VirtIOBlkDevice :=
  {| name := nm; blk_status := 0; blk_isr := 0; host_feature := VERSION_1; guest_feature := 0; generation := 0;
     queue := VirtQueue_new 0; config_region := VirtioBlkConfig_new cap |}.

(** ** The backing file: [seek], [read], [write_all] and [sync_data] of
    [tokio::fs::File]; a Boolean says whether the call succeeded. *)
Class HostFile (F : Type) : Type := {
  file_seek : Z -> F -> bool * F;
  file_read : Z -> F -> option (list Z) * F;
  file_write_all : list Z -> F -> bool * F;
  file_sync_data : F -> bool * F
}.

Record BlkWorld (F : Type) : Type := {
  dev : VirtIOBlkDevice;
  mem : Ram;
  channel : list VirtIOBlockAsyncTask;
  file : F;
  worker_running : bool
}.
Arguments dev {F}.
Arguments mem {F}.
Arguments channel {F}.
Arguments file {F}.
Arguments worker_running {F}.

(** ** Device fields *)
Definition set_blk_status (v : Z) (d : VirtIOBlkDevice) : VirtIOBlkDevice :=
  {| name := name d; blk_status := v; blk_isr := blk_isr d; host_feature := host_feature d;
     guest_feature := guest_feature d; generation := generation d; queue := queue d; config_region := config_region d |}.
Definition set_blk_isr (v : Z) (d : VirtIOBlkDevice) : VirtIOBlkDevice :=
  {| name := name d; blk_status := blk_status d; blk_isr := v; host_feature := host_feature d;
     guest_feature := guest_feature d; generation := generation d; queue := queue d; config_region := config_region d |}.
Definition set_host_feature (v : Z) (d : VirtIOBlkDevice) : VirtIOBlkDevice :=
  {| name := name d; blk_status := blk_status d; blk_isr := blk_isr d; host_feature := v;
     guest_feature := guest_feature d; generation := generation d; queue := queue d; config_region := config_region d |}.
Definition set_guest_feature (v : Z) (d : VirtIOBlkDevice) : VirtIOBlkDevice :=
  {| name := name d; blk_status := blk_status d; blk_isr := blk_isr d; host_feature := host_feature d;
     guest_feature := v; generation := generation d; queue := queue d; config_region := config_region d |}.
Definition set_queue (q : VirtQueue) (d : VirtIOBlkDevice) : VirtIOBlkDevice :=
  {| name := name d; blk_status := blk_status d; blk_isr := blk_isr d; host_feature := host_feature d;
     guest_feature := guest_feature d; generation := generation d; queue := q; config_region := config_region d |}.
Definition set_config (c : VirtioBlkConfig) (d : VirtIOBlkDevice) : VirtIOBlkDevice :=
  {| name := name d; blk_status := blk_status d; blk_isr := blk_isr d; host_feature := host_feature d;
     guest_feature := guest_feature d; generation := generation d; queue := queue d; config_region := c |}.

(** [add_host_feature]: panics on a feature that is not implemented. *)
Definition add_host_feature (f : VirtIOBlockFeature) (d : VirtIOBlkDevice) : option VirtIOBlkDevice :=
  if is_implemented f then Some (set_host_feature (Z.lor (host_feature d) (bit f)) d) else None.

(** The builder: the size of the backing file must be a multiple of a sector. *)
Definition builder_new (size : Z) : option VirtIOBlkDevice :=
  if negb (size mod SECTOR_SIZE =? 0) then None
  else Some (VirtIOBlkDevice_new "Unnamed VirtIO Block Device" (size / SECTOR_SIZE)).

Definition builder_name (nm : string) (d : VirtIOBlkDevice) : VirtIOBlkDevice :=
  {| name := nm; blk_status := blk_status d; blk_isr := blk_isr d; host_feature := host_feature d;
     guest_feature := guest_feature d; generation := generation d; queue := queue d; config_region := config_region d |}.
Definition builder_host_feature (f : VirtIOBlockFeature) (d : VirtIOBlkDevice) : option VirtIOBlkDevice :=
  if is_implemented f then Some (set_host_feature (Z.lor (host_feature d) (bit f)) d) else None.
Definition builder_generation (g : Z) (d : VirtIOBlkDevice) : VirtIOBlkDevice :=
  {| name := name d; blk_status := blk_status d; blk_isr := blk_isr d; host_feature := host_feature d;
     guest_feature := guest_feature d; generation := g; queue := queue d; config_region := config_region d |}.

(** ** Building requests *)
Section Requests.
Context `{Profile}.

Definition manage_request_header (d : VirtQueueDesc) : M Ram MemError (VirtioBlkReqType * Z) :=
  if len d <? SIZEOF_REQ then ret (Unsupported, 0)
  else
    p <- get_request_package d ;;
    ty <- guest_load p 4 ;;
    sector <- guest_load (p + 8) 8 ;;
    ret (match req_type_of ty with Some t => (t, sector) | None => (Unsupported, 0) end).

Definition checked_add (a b : Z) : option Z := if a + b <? 2 ^ 64 then Some (a + b) else None.
Definition checked_mul (a b : Z) : option Z := if a * b <? 2 ^ 64 then Some (a * b) else None.

(** [try_fold] of the buffer lengths. *)
Fixpoint sum_lens (total : Z) (bs : list IOTaskRamBuffer) : option Z :=
  match bs with
  | [] => Some total
  | b :: bs => checked_add total (buf_len b) ≫= fun t => sum_lens t bs
  end.

Definition request_offset_in_bounds (cfg : VirtioBlkConfig) (sector : Z) (buffers : list IOTaskRamBuffer) : option Z :=
  offset ← checked_mul sector SECTOR_SIZE;
  data_len ← sum_lens 0 buffers;
  cap ← checked_mul (capacity cfg) SECTOR_SIZE;
  if u32_MAX - SIZEOF_STATUS <? data_len then None
  else end_ ← checked_add offset data_len;
       if cap <? end_ then None else Some offset.

(** The variables captured by the closure of [manage_one_request]. *)
Record Request : Type := {
  req_type : VirtioBlkReqType;
  sector : Z;
  buffers : list IOTaskRamBuffer;
  tail : option Z
}.
Definition request_init : Request := {| req_type := Unsupported; sector := 0; buffers := []; tail := None |}.

Definition request_step (d : VirtQueueDesc) (i : Z) (a : Request) : M Ram MemError Request :=
  if i =? 0 then
    h <- manage_request_header d ;;
    ret {| req_type := fst h; sector := snd h; buffers := buffers a; tail := tail a |}
  else if has_next d then
    p <- get_request_package d ;;
    ret {| req_type := req_type a; sector := sector a;
           buffers := buffers a ++ [{| buf_addr := p; buf_len := len d |}]; tail := tail a |}
  else if len d <? SIZEOF_STATUS then ret a
  else
    p <- get_request_package d ;;
    ret {| req_type := req_type a; sector := sector a; buffers := buffers a; tail := Some p |}.

(** The task of a complete request. *)
Definition task_of (cfg : VirtioBlkConfig) (a : Request) (c : VirtIOBlockCompletion) : VirtIOBlockAsyncTask :=
  let data_offset := request_offset_in_bounds cfg (sector a) (buffers a) in
  match req_type a with
  | In => match data_offset with
          | Some o => TaskRead {| t_offset := o; t_buffers := buffers a; t_completion := c |}
          | None => TaskEarlyErr c
          end
  | Out => match data_offset with
           | Some o => TaskWrite {| t_offset := o; t_buffers := buffers a; t_completion := c |}
           | None => TaskEarlyErr c
           end
  | Flush => TaskFlush c
  | _ => TaskUnsupported c
  end.
End Requests.

(** ** Device and worker *)
Section World.
Context `{Profile} {F : Type} `{HostFile F}.
Local Notation BlkM := (M (BlkWorld F) MemError).

Definition set_dev (d : VirtIOBlkDevice) (w : BlkWorld F) : BlkWorld F :=
  {| dev := d; mem := mem w; channel := channel w; file := file w; worker_running := worker_running w |}.
Definition set_mem (r : Ram) (w : BlkWorld F) : BlkWorld F :=
  {| dev := dev w; mem := r; channel := channel w; file := file w; worker_running := worker_running w |}.
Definition set_channel (l : list VirtIOBlockAsyncTask) (w : BlkWorld F) : BlkWorld F :=
  {| dev := dev w; mem := mem w; channel := l; file := file w; worker_running := worker_running w |}.
Definition set_file (f : F) (w : BlkWorld F) : BlkWorld F :=
  {| dev := dev w; mem := mem w; channel := channel w; file := f; worker_running := worker_running w |}.
Definition set_worker_running (b : bool) (w : BlkWorld F) : BlkWorld F :=
  {| dev := dev w; mem := mem w; channel := channel w; file := file w; worker_running := b |}.

Definition on_mem {A} (m : M Ram MemError A) : BlkM A := zoom mem (fun w r => set_mem r w) m.
Definition on_dev (f : VirtIOBlkDevice -> VirtIOBlkDevice) : BlkM unit := modify (fun w => set_dev (f (dev w)) w).
Definition on_file {A} (f : F -> A * F) : BlkM A := fun w => let '(a, x) := f (file w) in (Ok a, set_file x w).

(** [manage_one_request]; [None] when the chain walk ran out of fuel. *)
Definition blk_manage_one_request (fuel : nat) : BlkM (option bool) :=
  w <- gets id ;;
  if negb (worker_running w) || (VIRTIO_BLOCK_TASK_CAPACITY <=? Z.of_nat (length (channel w))) then ret (Some false)
  else
    t <- on_mem (take_one_request request_step fuel request_init (queue (dev w))) ;;
    match t with
    | None => ret None
    | Some t =>
        on_dev (set_queue (VirtQueue.queue t)) ;;;
        match completion t with
        | None => ret (Some false)
        | Some used =>
            match tail (captured t) with
            | None => on_mem (complete used 0) ;;; ret (Some true)
            | Some addr =>
                let c := {| status_addr := addr; queue_completion := used |} in
                modify (fun w => set_channel (channel w ++ [task_of (config_region (dev w)) (captured t) c]) w) ;;;
                ret (Some true)
            end
        end
    end.

(** [notify]: requests until none is left; [false] when the fuel ran out. *)
Fixpoint blk_notify (walk_fuel fuel : nat) : BlkM bool :=
  match fuel with
  | O => ret false
  | S fuel =>
      more <- blk_manage_one_request walk_fuel ;;
      match more with
      | None => ret false
      | Some false => ret true
      | Some true => blk_notify walk_fuel fuel
      end
  end.

(** [VirtIOBlockCompletion::complete]. *)
Definition blk_complete (c : VirtIOBlockCompletion) (s : VirtIOBlkReqStatus) (used_len : Z) : BlkM unit :=
  on_mem (guest_store (status_addr c) 1 (status_value s)) ;;;
  on_mem (complete (queue_completion c) used_len) ;;;
  on_dev (fun d => set_blk_isr (Z.lor (blk_isr d) 1) d).

(** [slice::from_raw_parts(buffer.addr, buffer.len)]. *)
Definition buffer_slice (b : IOTaskRamBuffer) : BlkM RawSlice := on_mem (from_raw_parts (buf_addr b) (buf_len b) 1).

Fixpoint load_bytes (r : Ram) (i : Z) (n : nat) : list Z :=
  match n with O => [] | S n => byte_at r i :: load_bytes r (i + 1) n end.

Fixpoint read_buffers (offset total : Z) (bs : list IOTaskRamBuffer) : BlkM (VirtIOBlkReqStatus * Z) :=
  match bs with
  | [] => ret (StOk, total)
  | b :: bs =>
      s <- buffer_slice b ;;
      ok <- on_file (file_seek offset) ;;
      if negb ok then ret (StIoErr, total)
      else
        data <- on_file (file_read (sl_len s)) ;;
        match data with
        | None => ret (StIoErr, total)
        | Some bytes =>
            on_mem (modify (set_data (store_bytes (sl_base s) bytes))) ;;;
            let n := Z.of_nat (length bytes) in
            total <- add_chk 32 total (wrap 32 n) ;;
            offset <- add_chk 64 offset n ;;
            if negb (n =? sl_len s) then ret (StIoErr, total) else read_buffers offset total bs
        end
  end.

Definition blk_read (t : VirtIOBlockIoTask) : BlkM unit :=
  p <- read_buffers (t_offset t) 0 (t_buffers t) ;;
  l <- add_chk 32 (snd p) SIZEOF_STATUS ;;
  blk_complete (t_completion t) (fst p) l.

Fixpoint write_buffers (offset : Z) (bs : list IOTaskRamBuffer) : BlkM VirtIOBlkReqStatus :=
  match bs with
  | [] => ret StOk
  | b :: bs =>
      s <- buffer_slice b ;;
      ok <- on_file (file_seek offset) ;;
      if negb ok then ret StIoErr
      else
        bytes <- gets (fun w => load_bytes (mem w) (sl_base s) (Z.to_nat (sl_len s))) ;;
        ok <- on_file (file_write_all bytes) ;;
        if negb ok then ret StIoErr
        else offset <- add_chk 64 offset (sl_len s) ;; write_buffers offset bs
  end.

Definition blk_write (t : VirtIOBlockIoTask) : BlkM unit :=
  s <- write_buffers (t_offset t) (t_buffers t) ;;
  blk_complete (t_completion t) s SIZEOF_STATUS.

Definition run_task (task : VirtIOBlockAsyncTask) : BlkM unit :=
  match task with
  | TaskRead t => blk_read t
  | TaskWrite t => blk_write t
  | TaskFlush c =>
      ok <- on_file file_sync_data ;;
      blk_complete c (if ok : bool then StOk else StIoErr) SIZEOF_STATUS
  | TaskEarlyErr c => blk_complete c StIoErr SIZEOF_STATUS
  | TaskUnsupported c => blk_complete c StUnsupported SIZEOF_STATUS
  | TaskDrainBarrier => ret tt
  end.

(** One round of the worker's loop: the next task of the channel, if any. *)
Definition worker_step : BlkM bool :=
  w <- gets id ;;
  match channel w with
  | [] => ret false
  | task :: rest => modify (set_channel rest) ;;; run_task task ;;; ret true
  end.

(** The worker's loop up to a drain barrier. *)
Fixpoint drain (n : nat) : BlkM unit :=
  match n with
  | O => ret tt
  | S n => w <- gets id ;;
           match channel w with
           | [] => ret tt
           | TaskDrainBarrier :: rest => modify (set_channel rest)
           | _ => worker_step ;;; drain n
           end
  end.

(** [reset]: the barrier goes behind the submitted tasks, and the device waits
    for its acknowledgement; a worker that has stopped does not acknowledge. *)
Definition blk_reset : BlkM unit :=
  w <- gets id ;;
  (if worker_running w
   then modify (fun w => set_channel (channel w ++ [TaskDrainBarrier]) w) ;;; drain (S (length (channel w)))
   else ret tt) ;;;
  on_dev (fun d => set_blk_isr 0 (set_queue (VirtQueue_reset (queue d)) (set_guest_feature 0 (set_blk_status 0 d)))).

Definition blk_irq_level : BlkM bool :=
  w <- gets id ;;
  if negb (blk_isr (dev w) =? 0) then on_mem (interrupts_enabled (queue (dev w))) else ret false.

Definition blk_set_feature (feature : Z) (d : VirtIOBlkDevice) : VirtIOBlkDevice :=
  if (Z.land feature VERSION_1 =? 0) || negb (Z.land (host_feature d) feature =? feature)
  then set_blk_status (Z.land (blk_status d) (bnot 8 FEATURES_OK)) d
  else set_guest_feature feature d.

(** ** Configuration accesses: out of range reads give 0, writes are dropped. *)
Definition config_in_range (offset l : Z) (c : VirtioBlkConfig) : bool :=
  (offset + l <? 2 ^ 64) && (offset + l <=? Z.of_nat (length c)).

Definition blk_read_config (offset l : Z) (d : VirtIOBlkDevice) : Z :=
  if config_in_range offset l (config_region d)
  then le_value (take (Z.to_nat l) (drop (Z.to_nat offset) (config_region d))) else 0.

Definition blk_write_config (offset l v : Z) (d : VirtIOBlkDevice) : VirtIOBlkDevice :=
  if config_in_range offset l (config_region d)
  then set_config (list_inserts (Z.to_nat offset) (split_le (Z.to_nat l) v) (config_region d)) d else d.

Definition lift_dev (f : VirtIOBlkDevice -> VirtIOBlkDevice) (w : BlkWorld F) : BlkWorld F := set_dev (f (dev w)) w.

#[global] Instance blk_device (walk_fuel fuel : nat) : VirtIODeviceTrait (BlkWorld F) := {|
  get_device_id := fun _ => 2;
  status := fun w => blk_status (dev w);
  set_status := fun v => lift_dev (set_blk_status v);
  get_generation := fun w => generation (dev w);
  device_reset := blk_reset;
  isr := fun w => blk_isr (dev w);
  set_isr := fun v => lift_dev (set_blk_isr v);
  device_irq_level := blk_irq_level;
  get_host_feature := fun w => host_feature (dev w);
  set_feature := fun v => lift_dev (blk_set_feature v);
  VirtMmio.set_queue_num := fun n => lift_dev (fun d => set_queue (VirtQueue.set_queue_num n (queue d)) d);
  queue_ready := fun w => ready (queue (dev w));
  device_queue_select := fun _ w => w;
  get_num_of_queue := fun _ => 1;
  VirtMmio.set_desc := fun a => lift_dev (fun d => set_queue (VirtQueue.set_desc a (queue d)) d);
  VirtMmio.set_avail := fun a => lift_dev (fun d => set_queue (VirtQueue.set_avail a (queue d)) d);
  VirtMmio.set_used := fun a => lift_dev (fun d => set_queue (VirtQueue.set_used a (queue d)) d);
  notify := fun _ => blk_notify walk_fuel fuel;
  read_config := fun o l w => blk_read_config o l (dev w);
  write_config := fun o l v => lift_dev (blk_write_config o l v)
|}.
End World.
