(* ===== verification/VirtBlockIo.v ===== *)
(** * The data path of the VirtIO block device

    A write request that the worker reports as successful has put exactly the
    bytes of its buffers into the backing file, and a successful read request
    has put exactly the bytes of the file into its buffers.  The file kept in
    memory below shows that the laws of the backing file can hold, and carries
    the witnesses. *)

From S2P Require Import Prelude Utils TrapTypes Ram VirtQueue VirtQueueSpec VirtMmio VirtBlock VirtBlockSpec.

#[local] Arguments load_le : simpl never.
#[local] Arguments Z.mul : simpl never.
#[local] Arguments Z.add : simpl never.

(** The calls of the file succeed, and a read inside the file is never short. *)
Definition serves_in_full (F : Type) `{HostFileLaws F} : Prop :=
  (forall o f, file_wf f -> fst (file_seek o f) = true) /\
  (forall n f, file_wf f -> 0 <= n -> 0 <= position f -> position f + n <= Z.of_nat (length (contents f)) ->
     exists bs, fst (file_read n f) = Some bs /\ Z.of_nat (length bs) = n) /\
  (forall bs f, file_wf f -> fst (file_write_all bs f) = true).

(** ** Bytes of guest memory *)

Lemma load_bytes_length r i n : length (load_bytes r i n) = n.
Proof. revert i. induction n; intros i; simpl; [done|]. by rewrite IHn. Qed.

Lemma load_bytes_ext r r' i n : (forall j, i <= j < i + Z.of_nat n -> byte_at r' j = byte_at r j) ->
  load_bytes r' i n = load_bytes r i n.
Proof.
  revert i. induction n as [|n IH]; intros i Heq; [done|]. cbn [load_bytes].
  rewrite Heq by lia. f_equal. apply IH. intros j Hj. apply Heq. lia.
Qed.

Lemma byte_at_stored r i bs j : byte_at (set_data (store_bytes i bs) r) j =
  if (i <=? j) && (j <? i + Z.of_nat (length bs)) then default 0 (bs !! Z.to_nat (j - i)) else byte_at r j.
Proof.
  unfold byte_at. cbn [data fill set_data]. rewrite store_bytes_lookup.
  destruct ((i <=? j) && (j <? i + Z.of_nat (length bs))) eqn:Eb; [|done].
  apply andb_true_iff in Eb as [Hi%Z.leb_le Hj%Z.ltb_lt].
  destruct (lookup_lt_is_Some_2 bs (Z.to_nat (j - i)) ltac:(lia)) as [x ->]. done.
Qed.

Lemma load_stored_bytes r i bs : load_bytes (set_data (store_bytes i bs) r) i (length bs) = bs.
Proof.
  assert (forall n k m, (k + n = length m)%nat -> (forall j, (k <= j < length m)%nat ->
    byte_at (set_data (store_bytes i bs) r) (i + Z.of_nat j) = default 0 (m !! j)) ->
    load_bytes (set_data (store_bytes i bs) r) (i + Z.of_nat k) n = drop k m) as Hgen.
  { intros n. induction n as [|n IH]; intros k m Hk Hm; [by rewrite drop_ge by lia|]. cbn [load_bytes].
    destruct (lookup_lt_is_Some_2 m k ltac:(lia)) as [x Hx]. rewrite (drop_S _ x) by done.
    rewrite Hm, Hx by lia. simpl. f_equal. replace (i + Z.of_nat k + 1) with (i + Z.of_nat (S k)) by lia. apply IH; [lia|].
    intros j Hj. apply Hm. lia. }
  specialize (Hgen (length bs) 0%nat bs eq_refl). change (Z.of_nat 0) with 0 in Hgen. rewrite Z.add_0_r in Hgen.
  rewrite drop_0 in Hgen. apply Hgen. intros j Hj. rewrite byte_at_stored. split_ltb; simpl; try lia. do 2 f_equal. lia.
Qed.

(** The bytes of a buffer, and those of a list of buffers one after the other. *)
Definition buffer_bytes (r : Ram) (b : IOTaskRamBuffer) : list Z := load_bytes r (buf_addr b) (Z.to_nat (buf_len b)).
Definition data_of (r : Ram) (bs : list IOTaskRamBuffer) : list Z := concat (map (buffer_bytes r) bs).

Lemma data_of_length r bs : Forall buffer_ok bs -> Z.of_nat (length (data_of r bs)) = total_len bs.
Proof.
  unfold data_of. induction 1 as [|b bs [Hl _] Hbs IH]; [done|]. cbn [map concat total_len foldr]. fold (total_len bs).
  rewrite length_app. unfold buffer_bytes at 1. rewrite load_bytes_length. lia.
Qed.

Definition outside (b : IOTaskRamBuffer) (j : Z) : Prop := j < buf_addr b \/ buf_addr b + buf_len b <= j.
Definition apart (b c : IOTaskRamBuffer) : Prop :=
  buf_addr b + buf_len b <= buf_addr c \/ buf_addr c + buf_len c <= buf_addr b.
(** No two buffers overlap. *)
Fixpoint separate (bs : list IOTaskRamBuffer) : Prop :=
  match bs with [] => True | b :: bs => Forall (apart b) bs /\ separate bs end.

(** ** The data path *)
Section Path.
Context `{Profile} {F : Type} `{HostFileLaws F}.

Lemma buffer_slice_run b (w : BlkWorld F) : buffer_ok b ->
  buffer_slice b w = (Ok {| sl_base := buf_addr b; sl_len := buf_len b |}, w).
Proof.
  intros [Hl Hw]. unfold buffer_slice, on_mem, zoom. rewrite from_raw_parts_run by by rewrite Z.mul_1_r. by destruct w.
Qed.

Lemma blk_add_chk_run {S E} w a b (s : S) : 0 <= a + b < 2 ^ w -> add_chk (E := E) w a b s = (Ok (a + b), s).
Proof.
  intros Hab. unfold add_chk. rewrite (proj2 (Z.leb_gt _ _)) by lia. rewrite andb_false_r. by rewrite wrap_small.
Qed.

(** Seeking to [o] and the file after it. *)
Lemma seek_run o (w : BlkWorld F) : file_wf (file w) -> 0 <= o ->
  exists ok f, on_file (file_seek o) w = (Ok ok, set_file f w) /\ file_wf f /\ contents f = contents (file w) /\
    (ok = true -> position f = o) /\ (serves_in_full F -> ok = true).
Proof.
  intros Hf Ho. unfold on_file. destruct (file_seek o (file w)) as [b f] eqn:Es.
  destruct (seek_law _ _ _ _ Hf Ho Es) as (Hf' & Hc & Hp). exists b, f. split_and!; try done.
  intros (Hs & _ & _). specialize (Hs o (file w) Hf). by rewrite Es in Hs.
Qed.

Lemma write_buffers_run bs : forall o (w : BlkWorld F), Forall buffer_ok bs -> 0 <= o ->
  file_wf (file w) -> ram_wf (mem w) -> o + total_len bs <= Z.of_nat (length (contents (file w))) ->
  Z.of_nat (length (contents (file w))) < 2 ^ 64 ->
  exists st f, write_buffers o bs w = (Ok st, set_file f w) /\ file_wf f /\ (serves_in_full F -> st = StOk) /\
    (st = StOk -> contents f = overwrite (contents (file w)) (Z.to_nat o) (data_of (mem w) bs)).
Proof.
  induction bs as [|b bs IH]; intros o w Hbs Ho Hf Hr He Hsz; cbn [write_buffers].
  { exists StOk, (file w). split; [by destruct w|]. split; [done|]. split; [done|]. intros _.
    unfold overwrite, data_of. simpl. rewrite Nat.add_0_r. by rewrite take_drop. }
  apply list.Forall_cons in Hbs as [Hb Hbs]. pose proof (total_len_ok bs Hbs) as Hnn.
  cbn [total_len foldr] in He. fold (total_len bs) in He. pose proof Hb as [Hl _].
  rewrite (bind_Ok _ _ _ _ _ (buffer_slice_run b w Hb)). destruct (seek_run o w Hf Ho) as (ok & f1 & Hs & Hf1 & Hc1 & Hp1 & Hok1).
  rewrite (bind_Ok _ _ _ _ _ Hs). destruct ok; cbn [negb]; [|exists StIoErr, f1; split_and!; try done; intros Hx; by specialize (Hok1 Hx)].
  specialize (Hp1 eq_refl). rewrite bind_gets. cbn [mem set_file sl_base sl_len]. fold (buffer_bytes (mem w) b).
  destruct (file_write_all (buffer_bytes (mem w) b) f1) as [ok f2] eqn:Ew.
  destruct (write_law (buffer_bytes (mem w) b) _ _ _ Hf1 (load_bytes_uint _ _ _ Hr) Ew) as (Hf2 & Hc2).
  rewrite (bind_Ok _ _ _ ok (set_file f2 w)) by (unfold on_file; cbn [file set_file]; by rewrite Ew).
  destruct ok; cbn [negb].
  2:{ exists StIoErr, f2. split_and!; try done. intros (_ & _ & Hx). specialize (Hx (buffer_bytes (mem w) b) f1 Hf1). by rewrite Ew in Hx. }
  rewrite Hp1, Hc1 in Hc2. specialize (Hc2 eq_refl ltac:(lia)).
  rewrite (bind_Ok _ _ _ _ _ (blk_add_chk_run 64 o (buf_len b) _ ltac:(lia))).
  assert (length (buffer_bytes (mem w) b) = Z.to_nat (buf_len b)) as Hbl by apply load_bytes_length.
  assert (length (contents f2) = length (contents (file w))) as Hlen by (rewrite Hc2; apply overwrite_length; lia).
  destruct (IH (o + buf_len b) (set_file f2 w)) as (st & f & Hrun & Hwf & Hst & Hc); cbn [file mem set_file]; try (done || lia).
  exists st, f. split; [exact Hrun|]. split; [done|]. split; [done|]. intros Est. specialize (Hc Est).
  cbn [file mem set_file] in Hc. rewrite Hc, Hc2.
  replace (Z.to_nat (o + buf_len b)) with (Z.to_nat o + length (buffer_bytes (mem w) b))%nat by lia.
  pose proof (data_of_length (mem w) bs Hbs). apply overwrite_app. lia.
Qed.

Lemma read_run n (w : BlkWorld F) : file_wf (file w) -> 0 <= n -> 0 <= position (file w) ->
  position (file w) + n <= Z.of_nat (length (contents (file w))) ->
  exists o f, on_file (file_read n) w = (Ok o, set_file f w) /\ file_wf f /\ contents f = contents (file w) /\
    (forall bs, o = Some bs -> Z.of_nat (length bs) <= n /\
       bs = take (length bs) (drop (Z.to_nat (position (file w))) (contents (file w)))) /\
    (serves_in_full F -> exists bs, o = Some bs /\ Z.of_nat (length bs) = n).
Proof.
  intros Hf Hn Hp He. unfold on_file. destruct (file_read n (file w)) as [o f] eqn:Er.
  destruct (read_law _ _ _ _ Hf Hn Er) as (Hf' & Hc & Hb). exists o, f. split_and!; try done.
  - intros bs Ho. by destruct (Hb bs Ho) as (? & _ & ?).
  - intros (_ & Hs & _). specialize (Hs n (file w) Hf Hn Hp He). by rewrite Er in Hs.
Qed.

Lemma store_run {B} g (k : unit -> M (BlkWorld F) MemError B) w : bind (on_mem (modify g)) k w = k tt (set_mem (g (mem w)) w).
Proof. done. Qed.

Lemma read_buffers_run bs : forall o t (w : BlkWorld F), Forall buffer_ok bs -> separate bs -> 0 <= o -> 0 <= t ->
  t + total_len bs < 2 ^ 32 -> file_wf (file w) ->
  o + total_len bs <= Z.of_nat (length (contents (file w))) -> Z.of_nat (length (contents (file w))) < 2 ^ 64 ->
  exists st n f r, read_buffers o t bs w = (Ok (st, n), set_mem r (set_file f w)) /\ file_wf f /\
    contents f = contents (file w) /\ 0 <= n <= t + total_len bs /\ (serves_in_full F -> st = StOk) /\
    (st = StOk -> data_of r bs = take (Z.to_nat (total_len bs)) (drop (Z.to_nat o) (contents (file w)))) /\
    forall j, Forall (fun b => outside b j) bs -> byte_at r j = byte_at (mem w) j.
Proof.
  induction bs as [|b bs IH]; intros o t w Hbs Hsep Ho Ht Hm Hf He Hsz; cbn [read_buffers].
  { exists StOk, t, (file w), (mem w). split; [by destruct w|]. cbn. split_and!; done || lia. }
  apply list.Forall_cons in Hbs as [Hb Hbs]. destruct Hsep as [Hap Hsep]. pose proof (total_len_ok bs Hbs) as Hnn.
  cbn [total_len foldr] in He, Hm |- *. fold (total_len bs) in He, Hm |- *. pose proof Hb as [Hl _].
  rewrite (bind_Ok _ _ _ _ _ (buffer_slice_run b w Hb)). destruct (seek_run o w Hf Ho) as (ok & f1 & Hs & Hf1 & Hc1 & Hp1 & Hok1).
  rewrite (bind_Ok _ _ _ _ _ Hs). cbn [negb sl_base sl_len]. destruct ok; cbn [negb].
  2:{ exists StIoErr, t, f1, (mem w). split; [by destruct w|]. split_and!; try (done || lia). intros Hx. by specialize (Hok1 Hx). }
  specialize (Hp1 eq_refl).
  destruct (read_run (buf_len b) (set_file f1 w)) as (x & f2 & Hrd & Hf2 & Hc2 & Hx & Hfull); cbn [file set_file]; [done|done|lia|by rewrite Hp1, Hc1; lia|].
  rewrite (bind_Ok _ _ _ _ _ Hrd). cbn [file set_file] in Hc2, Hx |- *. rewrite Hp1, Hc1 in *.
  destruct x as [bytes|].
  2:{ exists StIoErr, t, f2, (mem w). split; [by destruct w|]. split_and!; try (done || lia). intros (? & ? & _)%Hfull. done. }
  destruct (Hx bytes eq_refl) as [Hbl Hbytes]. set (r1 := set_data (store_bytes (buf_addr b) bytes) (mem w)).
  assert (forall j, outside b j -> byte_at r1 j = byte_at (mem w) j) as Hr1.
  { intros j Hjb. unfold r1. rewrite byte_at_stored. unfold outside in Hjb. split_ltb; simpl; done || lia. }
  rewrite store_run. cbn [mem set_file]. fold r1. rewrite wrap_small by (unfold uint; lia).
  rewrite (bind_Ok _ _ _ _ _ (blk_add_chk_run 32 t (Z.of_nat (length bytes)) _ ltac:(lia))).
  rewrite (bind_Ok _ _ _ _ _ (blk_add_chk_run 64 o (Z.of_nat (length bytes)) _ ltac:(lia))).
  destruct (Z.eqb_spec (Z.of_nat (length bytes)) (buf_len b)) as [Hlen|Hshort]; cbn [negb].
  2:{ exists StIoErr, (t + Z.of_nat (length bytes)), f2, r1. split_and!; try (done || lia).
      - intros (bs' & [= <-] & ?)%Hfull. done.
      - intros j [Hjb _]%list.Forall_cons. by apply Hr1. }
  rewrite Hlen. destruct (IH (o + buf_len b) (t + buf_len b) (set_mem r1 (set_file f2 w))) as (st & n & f & r & Hrun & Hwf & Hc & Hn & Hst & Hdata & Hout);
    cbn [file mem set_file set_mem]; rewrite ?Hc2; try (done || lia).
  exists st, n, f, r. cbn [file mem set_file set_mem] in *. rewrite Hc2 in *. split_and!; try (done || lia).
  - intros Est. unfold data_of. cbn [map concat]. fold (data_of r bs). rewrite (Hdata Est).
    assert (buffer_bytes r b = bytes) as ->.
    { unfold buffer_bytes. replace (Z.to_nat (buf_len b)) with (length bytes) by lia.
      rewrite (load_bytes_ext r1 r); [apply load_stored_bytes|].
      intros j Hj. apply Hout. eapply list.Forall_impl; [exact Hap|]. intros c Hc'. unfold apart, outside in *. lia. }
    replace (Z.to_nat (buf_len b + total_len bs)) with (length bytes + Z.to_nat (total_len bs))%nat by lia.
    rewrite Hbytes at 1. replace (Z.to_nat (o + buf_len b)) with (Z.to_nat o + length bytes)%nat by lia.
    rewrite <- drop_drop. by rewrite take_take_drop.
  - intros j [Hjb Hj]%list.Forall_cons. rewrite (Hout j Hj). by apply Hr1.
Qed.

(** The byte at [j] is neither the status byte nor in the used ring. *)
Definition beside (c : VirtIOBlockCompletion) (j : Z) : Prop :=
  j <> status_addr c /\
  (j < used_ring (queue_completion c) + 2 \/ used_ring (queue_completion c) + 4 + 8 * c_queue_num (queue_completion c) <= j).

(** The status byte is not in the used ring. *)
Definition status_apart (c : VirtIOBlockCompletion) : Prop :=
  status_addr c < used_ring (queue_completion c) + 2 \/
  used_ring (queue_completion c) + 4 + 8 * c_queue_num (queue_completion c) <= status_addr c.

Lemma blk_complete_run c s l (w : BlkWorld F) : blk_completion_ok c -> ram_wf (mem w) -> status_apart c ->
  exists r, blk_complete c s l w = (Ok tt, set_dev (set_blk_isr (Z.lor (blk_isr (dev w)) 1) (dev w)) (set_mem r w)) /\
    byte_at r (status_addr c) = status_value s /\
    forall j, beside c j -> byte_at r j = byte_at (mem w) j.
Proof.
  intros [Hs [Hn Hw]] Hr Hap. unfold blk_complete.
  set (r1 := set_data (store_bytes (status_addr c) (split_le 1 (status_value s))) (mem w)).
  rewrite (bind_Ok _ _ _ tt (set_mem r1 w)) by (unfold on_mem, zoom; by rewrite guest_store_run).
  unfold status_apart, beside in *.
  set (u := used_ring (queue_completion c)) in *. set (n := c_queue_num (queue_completion c)) in *.
  pose proof (used_insert_run (E := MemError) u n {| elem_id := entry_idx (queue_completion c); used_len := l |} r1 (store_wf _ _ _ _ Hr) Hn Hw) as Hins.
  set (r2 := used_stored _ _ _ _ _) in Hins.
  rewrite (bind_Ok _ _ _ tt (set_mem r2 (set_mem r1 w))) by (unfold on_mem, zoom, complete; cbn [mem set_mem]; fold u n; by rewrite Hins).
  assert (forall j, j < u + 2 \/ u + 4 + 8 * n <= j -> byte_at r2 j = byte_at r1 j) as Hout.
  { intros j Hj. unfold r2. by rewrite (used_stored_outside _ _ _ n) by (apply Z.mod_pos_bound || lia; lia). }
  exists r2. split; [done|]. split.
  - rewrite Hout by done. unfold r1. rewrite byte_at_stored. cbn [split_le length]. split_ltb; cbn [andb]; try lia.
    rewrite Z.sub_diag. by destruct s.
  - intros j [Hne Hj]. rewrite Hout by done. apply store_outside. simpl. lia.
Qed.

(** The status the guest finds when a request is completed. *)
Definition reported (t : VirtIOBlockIoTask) (w : BlkWorld F) : Z := byte_at (mem w) (status_addr (t_completion t)).

(** C30: What is written to the disk is what is read back.  For any backing file that
    keeps its contract (calls may fail and reads may be short): the worker completes a
    write request inside the disk, and if it reports success (status 0), then
    from any later state in which the disk still has those contents it completes
    a read request for the same bytes, and if that reports success too, the
    buffers of the read hold the bytes that were in the buffers of the write,
    whatever the split into buffers on the two sides (those of the read not
    overlapping, and apart from the memory of its own completion; the status
    bytes outside the used ring).  Both requests report success when the calls
    of the file succeed and its reads are not short; a short read, which the
    documentation of the file allows, is reported as an error. *)
Theorem disk_round_trip t1 t2 (w w2 : BlkWorld F) : blk_ok w -> blk_ok w2 -> io_ok t1 -> io_ok t2 ->
  t_offset t2 = t_offset t1 -> total_len (t_buffers t2) = total_len (t_buffers t1) ->
  t_offset t1 + total_len (t_buffers t1) <= Z.of_nat (length (contents (file w))) ->
  Z.of_nat (length (contents (file w))) < 2 ^ 64 ->
  separate (t_buffers t2) -> Forall (fun b => forall j, ~ outside b j -> beside (t_completion t2) j) (t_buffers t2) ->
  status_apart (t_completion t1) -> status_apart (t_completion t2) ->
  exists w1, run_task (TaskWrite t1) w = (Ok tt, w1) /\ (serves_in_full F -> reported t1 w1 = 0) /\
    (reported t1 w1 = 0 -> contents (file w2) = contents (file w1) ->
     exists w3, run_task (TaskRead t2) w2 = (Ok tt, w3) /\ contents (file w3) = contents (file w1) /\
       (serves_in_full F -> reported t2 w3 = 0) /\
       (reported t2 w3 = 0 -> data_of (mem w3) (t_buffers t2) = data_of (mem w) (t_buffers t1))).
Proof.
  intros Hw Hw2 [Hb1 _ Ho1 _ Hc1] [Hb2 Hm2 Ho2 _ Hc2] Eo El He Hsz Hsep Hbes Ha1 Ha2.
  assert (forall s, status_value s = 0 -> s = StOk) as Hval by (by intros []).
  destruct (write_buffers_run (t_buffers t1) (t_offset t1) w) as (st & f & Hrun & Hf & Hfull & Hcont);
    [done|done|apply Hw|apply Hw|done|done|].
  destruct (blk_complete_run (t_completion t1) st SIZEOF_STATUS (set_file f w)) as (r1 & Hcomp & Hs1 & _); [done|apply Hw|done|].
  eexists. split; [cbn [run_task]; unfold blk_write; rewrite (bind_Ok _ _ _ _ _ Hrun); exact Hcomp|].
  unfold reported. cbn [file mem set_dev set_mem set_file]. rewrite Hs1. split; [by intros Hx; rewrite (Hfull Hx)|].
  intros Est%Hval Heq. specialize (Hcont Est). rewrite Hcont in Heq.
  pose proof (data_of_length (mem w) _ Hb1) as Hdl. set (d := data_of (mem w) (t_buffers t1)) in *.
  assert (length (contents (file w2)) = length (contents (file w))) as Hlen by (rewrite Heq; apply overwrite_length; lia).
  assert (u32_MAX < 2 ^ 32 /\ SIZEOF_STATUS = 1) as [HM HS] by done.
  destruct (read_buffers_run (t_buffers t2) (t_offset t2) 0 w2) as (st2 & n2 & f2 & r2 & Hrd & Hf2 & Hcont2 & Hn2 & Hfull2 & Hdata & _);
    [done|done|done|lia|lia|apply Hw2|rewrite Hlen; lia|rewrite Hlen; lia|].
  assert (ram_wf r2) as Hwf2.
  { destruct (read_buffers_returns (t_buffers t2) (t_offset t2) 0 Hb2 Ho2 ltac:(lia) ltac:(lia) ltac:(lia) w2 Hw2)
      as (p & w' & Hrd' & Hok & _). rewrite Hrd in Hrd'. injection Hrd' as _ <-. apply Hok. }
  destruct (blk_complete_run (t_completion t2) st2 (n2 + SIZEOF_STATUS) (set_mem r2 (set_file f2 w2)))
    as (r3 & Hcomp2 & Hs3 & Hout); [done|done|done|].
  eexists. split_and!.
  - cbn [run_task]. unfold blk_read. rewrite (bind_Ok _ _ _ _ _ Hrd). cbn [fst snd].
    rewrite (bind_Ok _ _ _ _ _ (blk_add_chk_run 32 n2 SIZEOF_STATUS _ ltac:(lia))). exact Hcomp2.
  - cbn [file set_dev set_mem set_file]. by rewrite Hcont2, Heq, Hcont.
  - cbn [mem set_dev set_mem set_file]. rewrite Hs3. intros Hx. by rewrite (Hfull2 Hx).
  - cbn [mem set_dev set_mem set_file]. rewrite Hs3. intros Est2%Hval. transitivity (data_of r2 (t_buffers t2)).
    + unfold data_of. f_equal. apply map_ext_Forall. eapply list.Forall_impl; [apply list.Forall_and; exact (conj Hb2 Hbes)|].
      intros b [[Hl _] Hbe]. unfold buffer_bytes. apply load_bytes_ext. intros j Hj. apply Hout, Hbe. unfold outside. lia.
    + rewrite (Hdata Est2), Heq, Eo, El, <- Hdl, Nat2Z.id. apply take_drop_overwrite. lia.
Qed.
End Path.

(** ** A backing file in memory *)

Record MemFile : Type := { mf_bytes : list Z; mf_pos : Z }.

#[global] Instance mem_file : HostFile MemFile := {|
  file_seek := fun o f => (true, {| mf_bytes := mf_bytes f; mf_pos := o |});
  file_read := fun n f =>
    let bs := take (Z.to_nat n) (drop (Z.to_nat (mf_pos f)) (mf_bytes f)) in
    (Some bs, {| mf_bytes := mf_bytes f; mf_pos := mf_pos f + Z.of_nat (length bs) |});
  file_write_all := fun bs f =>
    (true, {| mf_bytes := overwrite (mf_bytes f) (Z.to_nat (mf_pos f)) bs; mf_pos := mf_pos f + Z.of_nat (length bs) |});
  file_sync_data := fun f => (true, f)
|}.

Lemma mem_read_law n f : Forall (uint 8) (mf_bytes f) -> 0 <= n ->
  let bs := take (Z.to_nat n) (drop (Z.to_nat (mf_pos f)) (mf_bytes f)) in
  Z.of_nat (length bs) <= n /\ Forall (uint 8) bs /\ bs = take (length bs) (drop (Z.to_nat (mf_pos f)) (mf_bytes f)).
Proof.
  intros Hf Hn bs. split_and!.
  - unfold bs. rewrite length_take. lia.
  - by apply list.Forall_take, list.Forall_drop.
  - unfold bs. rewrite length_take. destruct (Nat.le_ge_cases (Z.to_nat n) (length (drop (Z.to_nat (mf_pos f)) (mf_bytes f)))).
    + by rewrite Nat.min_l.
    + by rewrite Nat.min_r, !take_ge by lia.
Qed.

#[global] Instance mem_file_laws : HostFileLaws MemFile.
Proof.
  apply (Build_HostFileLaws MemFile _ (fun f => Forall (uint 8) (mf_bytes f)) mf_bytes mf_pos).
  - intros o f b f' Hf _ [= <- <-]. done.
  - intros n f f' o Hf Hn [= <- <-]. split_and!; [done..|]. intros bs [= <-]. by apply mem_read_law.
  - intros bs f b f' Hf Hbs [= <- <-]. split; [|done]. cbn [mf_bytes]. by apply overwrite_bytes.
  - intros f b f' Hf [= <- <-]. done.
Defined.

Lemma mem_file_serves : serves_in_full MemFile.
Proof.
  split; [done|split; [|done]]. intros n f Hf Hn Hp He. eexists. split; [reflexivity|].
  cbn [position contents mem_file_laws] in *. rewrite length_take, length_drop. lia.
Qed.

(** ** Witnesses *)

Definition demo_profile : Profile := Prelude.dev.
#[local] Existing Instance demo_profile.

(** A disk of one sector, guest memory of zeros with 42 at offset 0x4000. *)
Definition disk_world : BlkWorld MemFile :=
  {| VirtBlock.dev := VirtIOBlkDevice_new "disk" 1;
     mem := set_data (store_bytes 0x4000 [42; 43]) (Ram_new 0);
     channel := []; file := {| mf_bytes := replicate 512 0; mf_pos := 0 |}; worker_running := true |}.

Definition disk_completion : VirtIOBlockCompletion :=
  {| status_addr := 0x5000; queue_completion := {| used_ring := 0x3000; c_queue_num := 2; entry_idx := 0 |} |}.
Definition write_demo : VirtIOBlockIoTask :=
  {| t_offset := 0; t_buffers := [{| buf_addr := 0x4000; buf_len := 2 |}]; t_completion := disk_completion |}.
Definition read_demo : VirtIOBlockIoTask :=
  {| t_offset := 0; t_buffers := [{| buf_addr := 0x6000; buf_len := 1 |}; {| buf_addr := 0x7000; buf_len := 1 |}];
     t_completion := disk_completion |}.

Lemma disk_mem_wf : ram_wf (mem disk_world).
Proof.
  apply set_bytes_wf; [by split|]. apply store_bytes_Forall; [|apply map_Forall_empty].
  repeat (constructor; [vm_compute; split; congruence|]). constructor.
Qed.

Lemma zeros_bytes n : Forall (uint 8) (replicate n 0).
Proof. by apply list.Forall_replicate. Qed.

Lemma disk_world_initial : blk_initial disk_world.
Proof.
  split_and!; [|exact disk_mem_wf|apply (zeros_bytes 512)|reflexivity].
  apply (built_name "disk" (VirtIOBlkDevice_new "Unnamed VirtIO Block Device" 1)), (built_new 512); [lia|reflexivity].
Qed.

Lemma disk_world_ok : blk_ok disk_world.
Proof. exact (proj1 (initial_inv disk_world disk_world_initial)). Qed.

Lemma disk_completion_ok : blk_completion_ok disk_completion.
Proof. split; [vm_compute; split; congruence|split; [vm_compute; reflexivity|vm_compute; split; congruence]]. Qed.

Lemma reset_completes_requests_witness : exists w',
  run_all [TaskFlush disk_completion] (set_channel [TaskFlush disk_completion] disk_world) = (Ok tt, w') /\
  blk_reset (set_channel [TaskFlush disk_completion] disk_world) = (Ok tt, lift_dev reset_device (set_channel [] w')).
Proof.
  destruct (reset_completes_requests (set_channel [TaskFlush disk_completion] disk_world)) as (w' & H1 & _ & H2).
  - apply set_channel_ok; [exact disk_world_ok|]. constructor; [exact disk_completion_ok|constructor].
  - reflexivity.
  - constructor; [|constructor]. intros Heq. discriminate Heq.
  - exists w'. split; [exact H1|exact H2].
Defined.

Lemma demo_buffer_ok a n : 0 <= n <= 2 -> 0 <= a < 0x10000 -> buffer_ok {| buf_addr := a; buf_len := n |}.
Proof.
  intros Hn Ha. assert (0x20000 < SIZE) by (vm_compute; reflexivity). split; [apply Hn|]. split; cbn [buf_addr buf_len]; lia.
Qed.

Lemma demo_io_ok : io_ok write_demo /\ io_ok read_demo.
Proof.
  split; (split; [|vm_compute; congruence|vm_compute; congruence|vm_compute; reflexivity|exact disk_completion_ok]).
  - constructor; [apply demo_buffer_ok; lia|constructor].
  - constructor; [apply demo_buffer_ok; lia|constructor; [apply demo_buffer_ok; lia|constructor]].
Qed.

Lemma disk_round_trip_witness : exists w1, run_task (TaskWrite write_demo) disk_world = (Ok tt, w1) /\ reported write_demo w1 = 0 /\
  exists w3, run_task (TaskRead read_demo) w1 = (Ok tt, w3) /\ reported read_demo w3 = 0 /\
    data_of (mem w3) (t_buffers read_demo) = [42; 43].
Proof.
  assert (forall w2, blk_ok w2 -> exists w1, run_task (TaskWrite write_demo) disk_world = (Ok tt, w1) /\
    (serves_in_full MemFile -> reported write_demo w1 = 0) /\
    (reported write_demo w1 = 0 -> contents (file w2) = contents (file w1) ->
     exists w3, run_task (TaskRead read_demo) w2 = (Ok tt, w3) /\ contents (file w3) = contents (file w1) /\
       (serves_in_full MemFile -> reported read_demo w3 = 0) /\
       (reported read_demo w3 = 0 -> data_of (mem w3) (t_buffers read_demo) = data_of (mem disk_world) (t_buffers write_demo)))) as Hrt.
  { intros w2 Hw2. apply (disk_round_trip write_demo read_demo disk_world w2).
    - exact disk_world_ok.
    - exact Hw2.
    - exact (proj1 demo_io_ok).
    - exact (proj2 demo_io_ok).
    - reflexivity.
    - reflexivity.
    - vm_compute. congruence.
    - vm_compute. reflexivity.
    - split; [constructor; [|constructor]; left; vm_compute; congruence|]. split; [constructor|exact I].
    - constructor; [|constructor; [|constructor]]; intros j Hj; unfold outside, beside in *; cbn in *; lia.
    - right. vm_compute. congruence.
    - right. vm_compute. congruence. }
  destruct (Hrt disk_world disk_world_ok) as (w1 & Hw & _).
  destruct (run_task_returns (TaskWrite write_demo) (proj1 demo_io_ok) disk_world disk_world_ok) as (u & w1' & Hw' & Hok & _).
  assert (w1' = w1) as -> by congruence.
  destruct (Hrt w1 Hok) as (w1' & Hw1 & Hs1 & Hrd). assert (w1' = w1) as -> by congruence.
  exists w1. split; [exact Hw|]. split; [exact (Hs1 mem_file_serves)|].
  destruct (Hrd (Hs1 mem_file_serves) eq_refl) as (w3 & Hr3 & _ & Hs3 & Hd). exists w3. split; [exact Hr3|].
  split; [exact (Hs3 mem_file_serves)|]. rewrite (Hd (Hs3 mem_file_serves)). vm_compute. reflexivity.
Defined.
