(* ===== verification/VirtMmioSpec.v ===== *)
(** * What the VirtIO transport guarantees

    Feature negotiation through the feature words, the registers of a queue and
    the validation of its addresses, over the block device. *)

From S2P Require Import Prelude Utils TrapTypes Ram VirtQueue VirtQueueSpec VirtMmio VirtBlock VirtBlockSpec VirtBlockIo.

(** ** Feature words *)

Lemma set_feature_word_testbit f sel v i : 0 <= sel < FEATURE_WORD_COUNT -> uint 128 f -> uint 32 v -> 0 <= i ->
  Z.testbit (set_feature_word f sel v) i =
    if (32 * sel <=? i) && (i <? 32 * sel + 32) then Z.testbit v (i - 32 * sel) else Z.testbit f i.
Proof.
  intros Hs Hf Hv Hi. change FEATURE_WORD_COUNT with 4 in Hs. unfold set_feature_word, FEATURE_SELECT_BITS.
  change FEATURE_WORD_COUNT with 4. rewrite (proj2 (Z.leb_gt 4 sel)) by lia. cbv zeta.
  rewrite Z.lor_spec, Z.land_spec, bnot_testbit by lia. unfold shl. rewrite !wrap_testbit by lia. unfold u32_MAX.
  rewrite !shiftl_testbit by lia.
  destruct (Z.leb_spec (32 * sel) i), (Z.ltb_spec i (32 * sel + 32)); cbn [andb].
  - rewrite ones_testbit by lia. rewrite (Z.mul_comm sel 32). split_ltb; try lia. cbn. by rewrite andb_false_r.
  - rewrite ones_testbit by lia. rewrite (Z.mul_comm sel 32).
    rewrite (uint_testbit_high 32 v (i - 32 * sel)) by (done || lia).
    destruct (Z.ltb_spec i 128).
    + split_ltb; try lia; cbn; by rewrite ?andb_true_r, ?orb_false_r.
    + rewrite (uint_testbit_high 128 f i) by (done || lia). by cbn.
  - rewrite (Z.mul_comm sel 32). rewrite !(Z.testbit_neg_r _ (i - 32 * sel)) by lia. cbn. destruct (Z.ltb_spec i 128).
    + split_ltb; cbn; rewrite ?andb_true_r, ?orb_false_r; done || lia.
    + lia.
  - lia.
Qed.

(** Word [sel] of a feature set. *)
Definition word (f sel : Z) : Z := wrap 32 (Z.shiftr f (32 * sel)).

Lemma word_testbit f sel i : 0 <= sel -> 0 <= i -> Z.testbit (word f sel) i = (i <? 32) && Z.testbit f (i + 32 * sel).
Proof.
  intros Hs Hi. unfold word. rewrite wrap_testbit by lia. destruct (i <? 32); [|done]. by rewrite Z.shiftr_spec by lia.
Qed.

Lemma set_feature_word_range f sel v : 0 <= sel < FEATURE_WORD_COUNT -> uint 128 f -> uint 128 (set_feature_word f sel v).
Proof.
  intros Hs Hf. unfold set_feature_word. destruct (_ <=? _); [done|]. cbv zeta.
  apply uint_lor; [lia|by apply uint_land; [lia|]|by apply uint_shl].
Qed.

(** Writing the four words of [f], in order, over any feature set. *)
Lemma four_words f g : uint 128 f -> uint 128 g ->
  foldl (fun acc sel => set_feature_word acc sel (word f sel)) g [0; 1; 2; 3] = f.
Proof.
  intros Hf Hg. cbn [foldl].
  assert (H0 : uint 128 (set_feature_word g 0 (word f 0))) by by apply set_feature_word_range.
  assert (H1 : uint 128 (set_feature_word (set_feature_word g 0 (word f 0)) 1 (word f 1))) by by apply set_feature_word_range.
  assert (H2 : uint 128 (set_feature_word (set_feature_word (set_feature_word g 0 (word f 0)) 1 (word f 1)) 2 (word f 2)))
    by by apply set_feature_word_range.
  assert (Hw : forall k, uint 32 (word f k)) by (intros k; by apply wrap_range).
  bitwise i. rewrite !set_feature_word_testbit by done. split_ltb; cbn [andb]; try lia;
    first [ rewrite word_testbit by lia; split_ltb; [cbn [andb]; f_equal; lia|lia]
          | rewrite (uint_testbit_high 128 f i), (uint_testbit_high 128 g i) by (done || lia); done ].
Qed.

(** ** Registers *)

Lemma offset_of_value o : offset_of (offset_value o) = Some o.
Proof. by destruct o. Qed.

Section Registers.
Context {D : Type} `{VirtIODeviceTrait D}.

Definition write_reg (o : VirtIO_MMIO_Offset) (v : Z) : M (VirtIOMMIO D) MemError bool := write_u32_impl (offset_value o) v.

(** The writes with which a driver offers the feature set [f]. *)
Definition offer (f : Z) : M (VirtIOMMIO D) MemError bool :=
  write_reg DriverFeaturesSelect 0 ;;; write_reg DriverFeatures (word f 0) ;;;
  write_reg DriverFeaturesSelect 1 ;;; write_reg DriverFeatures (word f 1) ;;;
  write_reg DriverFeaturesSelect 2 ;;; write_reg DriverFeatures (word f 2) ;;;
  write_reg DriverFeaturesSelect 3 ;;; write_reg DriverFeatures (word f 3).

Lemma offer_run f s : uint 128 f -> uint 128 (guest_features s) ->
  offer f s = (Ok true, set_guest_features f (set_guest_features_sel 3 s)).
Proof.
  intros Hf Hg. rewrite <- (four_words f (guest_features s) Hf Hg) at 2. reflexivity.
Qed.

(** The registers that the driver may only write. *)
Definition write_only (o : VirtIO_MMIO_Offset) : bool :=
  match o with
  | DeviceFeaturesSelect | DriverFeatures | DriverFeaturesSelect | QueueSelect | QueueNum | QueueNotify
  | InterruptAck | QueueDescLow | QueueDescHigh | QueueAvailLow | QueueAvailHigh | QueueUsedLow
  | QueueUsedHigh => true
  | _ => false
  end.

(** Reading a register that is only for writing stops the emulator: an aligned
    32-bit read of the register window panics exactly at those registers, and
    returns a value everywhere else. *)
Theorem write_only_read_panics offset s : 0 <= offset < VIRTIO_MMIO_CONFIG_OFFSET -> check_align U32 offset = true ->
  if match offset_of offset with Some o => write_only o | None => false end
  then read_impl U32 offset s = (Panic, s) else exists v, read_impl U32 offset s = (Ok v, s).
Proof.
  intros Ho Ha. unfold read_impl, read_u32_impl. rewrite (proj2 (Z.leb_gt VIRTIO_MMIO_CONFIG_OFFSET offset)) by lia.
  rewrite Ha. cbn [negb size_of]. rewrite Z.eqb_refl. cbn [negb orb]. unfold bind, assert, ret.
  destruct (offset_of offset) as [o|] eqn:Eo; [|by eexists].
  assert (o <> Config) as Hc.
  { intros ->. unfold offset_of in Eo. destruct (list_find _ all_offsets) as [[i x]|] eqn:El; [|done].
    apply list_find_Some in El as (_ & Hx & _). injection Eo as ->. unfold VIRTIO_MMIO_CONFIG_OFFSET in Ho. cbn in Hx. lia. }
  destruct o; try done; by eexists.
Qed.

(** The low half of an address survives the write of the high half, but the
    high half does not survive the write of the low half. *)
Lemma low_then_high low high v : uint 32 low -> uint 32 high -> set_high (set_low v low) high = low + high * 2 ^ 32.
Proof.
  intros Hl Hh. unfold set_high, set_low, u32_MAX, FEATURE_SELECT_BITS.
  replace (Z.land v (bnot 32 (Z.ones 32))) with 0 by (change (bnot 32 (Z.ones 32)) with 0; by rewrite Z.land_0_r).
  rewrite Z.lor_0_l, Z.land_ones, Z.mod_small by (unfold uint in *; lia). rewrite Z.lor_comm.
  unfold shl. rewrite wrap_small by (unfold uint in *; rewrite Z.shiftl_mul_pow2 by lia; lia).
  rewrite Z.shiftl_mul_pow2 by lia. rewrite (lor_add 32); [lia|lia|by exists high|done].
Qed.
End Registers.

(** ** Negotiation with the block device *)
Section Negotiation.
Context `{Profile} {F : Type} `{HostFile F} (walk_fuel fuel : nat).
#[local] Instance transported : VirtIODeviceTrait (BlkWorld F) := blk_device walk_fuel fuel.

Definition device_of (s : VirtIOMMIO (BlkWorld F)) : VirtIOBlkDevice := dev (device s).

(** The feature sets the device agrees to. *)
Definition acceptable (d : VirtIOBlkDevice) (f : Z) : bool := Z.testbit f 32 && (Z.land (host_feature d) f =? f).

Lemma version_1_testbit f : (Z.land f VERSION_1 =? 0) = negb (Z.testbit f 32).
Proof.
  unfold VERSION_1. destruct (Z.testbit f 32) eqn:Et; simpl.
  - apply Z.eqb_neq. intros Hz. apply (f_equal (fun z => Z.testbit z 32)) in Hz.
    rewrite Z.land_spec, Et, Z.shiftl_1_l, Z.pow2_bits_true, Z.bits_0 in Hz by lia. done.
  - apply Z.eqb_eq. apply Z.bits_inj'. intros i Hi. rewrite Z.land_spec, Z.bits_0, Z.shiftl_1_l, Z.pow2_bits_eqb by lia.
    destruct (Z.eqb_spec 32 i) as [<-|]; [by rewrite Et|]. by rewrite andb_false_r.
Qed.

Lemma status_write_run v s : uint 8 v -> v <> 0 -> Z.land v (bnot 8 STATUS_ALL) = 0 -> Z.testbit v 3 = true ->
  write_reg Status v s =
    (Ok true, set_device (lift_dev (fun d => blk_set_feature (guest_features s) (set_blk_status (Z.lor (blk_status d) v) d)) (device s)) s).
Proof.
  intros Hv Hz Hb Ht. unfold write_reg, write_u32_impl. change (offset_of (offset_value Status)) with (Some Status).
  change (VIRTIO_MMIO_CONFIG_OFFSET <=? offset_value Status) with false. change (check_align U32 (offset_value Status)) with true.
  unfold bind at 1. cbn [assert ret]. unfold finish, write_status. rewrite (proj2 (Z.eqb_neq v 0) Hz).
  unfold status_from_bits. rewrite wrap_small by done. rewrite Hb, Z.eqb_refl.
  change FEATURES_OK with (shl 8 1 3). rewrite (land_bit_eqb 8 v 3) by lia. by rewrite Ht.
Qed.

(** Feature negotiation: after the driver wrote the four words of a feature set
    [f] and set FEATURES_OK (with any other known status bits), FEATURES_OK reads
    back as set exactly when the set contains VERSION_1 and nothing the device
    does not offer; then the device has negotiated exactly [f], and otherwise it
    keeps what it had. *)
Theorem feature_negotiation f v s : uint 128 f -> uint 128 (guest_features s) ->
  uint 8 v -> Z.land v (bnot 8 STATUS_ALL) = 0 -> Z.testbit v 3 = true ->
  exists s', (offer f ;;; write_reg Status v) s = (Ok true, s') /\
    Z.testbit (blk_status (device_of s')) 3 = acceptable (device_of s) f /\
    guest_feature (device_of s') = (if acceptable (device_of s) f then f else guest_feature (device_of s)).
Proof.
  intros Hf Hg Hv Hb Ht. assert (v <> 0) as Hz by (intros ->; by rewrite Z.bits_0 in Ht).
  rewrite (bind_Ok _ _ _ _ _ (offer_run f s Hf Hg)). rewrite status_write_run by done.
  eexists. split; [done|]. unfold device_of, acceptable, blk_set_feature. cbn [dev device set_device lift_dev set_dev guest_features set_guest_features].
  rewrite version_1_testbit. cbn [host_feature set_blk_status].
  destruct (Z.testbit f 32); cbn [negb orb andb].
  - destruct (Z.land _ _ =? f); cbn [negb blk_status guest_feature set_guest_feature set_blk_status].
    + by rewrite Z.lor_spec, Ht, orb_true_r.
    + rewrite Z.land_spec, bnot_testbit by lia. change FEATURES_OK with (2 ^ 3). by rewrite Z.pow2_bits_true, andb_false_r by lia.
  - cbn [blk_status guest_feature set_guest_feature set_blk_status].
    rewrite Z.land_spec, bnot_testbit by lia. change FEATURES_OK with (2 ^ 3). by rewrite Z.pow2_bits_true, andb_false_r by lia.
Qed.
End Negotiation.

(** ** Enabling a queue of the block device *)
Section Enable.
Context `{Profile} {F : Type} `{HostFile F} (walk_fuel fuel : nat).
#[local] Instance enabling : VirtIODeviceTrait (BlkWorld F) := blk_device walk_fuel fuel.

(** A structure of [n] bytes at guest address [a], aligned to [al]. *)
Definition placed (a n al : Z) : Prop := BASE_ADDR <= a /\ a mod al = 0 /\ in_window (a - BASE_ADDR) n.

Definition addresses_valid (q : VirtIOMMIOQueueStatus) : Prop :=
  placed (q_desc q) (16 * num q) 8 /\ placed (q_avail q) (4 + 2 * num q) 2 /\ placed (q_used q) (4 + 8 * num q) 4.

Lemma placed_ptr a n al : (exists o, guest_ram_ptr a n al = Some o) <-> placed a n al.
Proof.
  unfold placed. split.
  - intros [o Ho]. apply guest_ram_ptr_spec in Ho as (? & -> & ? & ?). done.
  - intros (? & ? & ?). exists (a - BASE_ADDR). by apply guest_ram_ptr_spec.
Qed.

Definition queue_of (s : VirtIOMMIO (BlkWorld F)) : VirtQueue := queue (dev (device s)).

Lemma ready_addresses q d : num q <> 0 ->
  ready (VirtQueue.set_used (q_used q) (VirtQueue.set_avail (q_avail q) (VirtQueue.set_desc (q_desc q)
    (VirtQueue.set_queue_num (num q) d)))) = true <-> addresses_valid q.
Proof.
  intros Hz. unfold addresses_valid. rewrite <- !placed_ptr. unfold ready. cbn.
  rewrite (proj2 (Z.eqb_neq (num q) 0) Hz). unfold SIZEOF_DESC, ALIGNOF_DESC.
  rewrite (Z.mul_comm 16), (Z.mul_comm 2), (Z.mul_comm 8).
  repeat match goal with |- context [guest_ram_ptr ?a ?n ?al] => destruct (guest_ram_ptr a n al) end; cbn; naive_solver.
Qed.

(** The write of 1 to QueueReady with the first queue selected. *)
Lemma queue_ready_run s q : queue_select s = 0 -> queues s !! 0%nat = Some q -> num q <> 0 ->
  exists s', write_reg QueueReady 1 s = (Ok true, s') /\
    queue_of s' = VirtQueue.set_used (q_used q) (VirtQueue.set_avail (q_avail q) (VirtQueue.set_desc (q_desc q)
                    (VirtQueue.set_queue_num (num q) (queue_of s)))) /\
    queues s' = <[0%nat := with_enable (ready (queue_of s')) q]> (queues s).
Proof.
  intros Hs Hq Hn. destruct s as [w hs gs gf qs sel]. cbn in Hs, Hq. subst sel. destruct qs as [|q0 qs]; [done|]. injection Hq as ->.
  pose (d := VirtQueue.set_used (q_used q) (VirtQueue.set_avail (q_avail q) (VirtQueue.set_desc (q_desc q)
               (VirtQueue.set_queue_num (num q) (queue (dev w)))))).
  pose (s1 b := {| device := set_dev (set_queue d (dev w)) w; host_features_sel := hs; guest_features_sel := gs;
                   guest_features := gf; queues := with_enable b q :: qs; queue_select := 0 |}).
  exists (s1 (ready d)). split; [|done].
  change (write_reg QueueReady 1 _) with
    (finish (write_queue_ready 1) {| device := w; host_features_sel := hs; guest_features_sel := gs; guest_features := gf; queues := q :: qs; queue_select := 0 |}).
  unfold finish, write_queue_ready, update_device, on_device, update_selected, selected_queue, get_queue, zoom, bind, gets, modify, ret.
  cbn -[ready Z.eqb]. change (Z.to_nat 0) with 0%nat. cbn -[ready Z.eqb lift_dev].
  rewrite (proj2 (Z.eqb_neq (num q) 0) Hn). change (Z.to_nat 0) with 0%nat. cbn -[ready lift_dev].
  match goal with |- context [if ready ?x then _ else _] => change x with d end. by destruct (ready d).
Qed.

(** Enabling a queue validates it: writing 1 to QueueReady makes the queue
    register read back as enabled exactly when the descriptor table and the two
    rings, at the addresses and for the size in the registers, are aligned and
    lie in guest memory; the device's queue then is well formed, and notifying
    it stays inside guest memory. *)
Theorem queue_enable_validates s q : queue_select s = 0 -> queues s !! 0%nat = Some q -> 0 < num q <= VIRTQUEUE_MAX_SIZE ->
  uint 16 (last_avail_idx (queue_of s)) ->
  exists s' q', write_reg QueueReady 1 s = (Ok true, s') /\ queues s' !! 0%nat = Some q' /\
    (enable q' = true <-> addresses_valid q) /\ queue_ok (queue_of s') /\ ready (queue_of s') = enable q'.
Proof.
  intros Hs Hq Hn Hl. destruct (queue_ready_run s q Hs Hq ltac:(lia)) as (s' & Hrun & Hqs & Hqueues).
  exists s', (with_enable (ready (queue_of s')) q). split; [done|]. split.
  { rewrite Hqueues. apply list_lookup_insert_eq. by apply lookup_lt_Some in Hq. }
  cbn [enable with_enable]. split_and!; [|rewrite Hqs|done].
  - rewrite Hqs. apply ready_addresses. lia.
  - apply set_up_ok; [|done]. unfold uint, VIRTQUEUE_MAX_SIZE in *. lia.
Qed.
End Enable.

(** ** The device, its transport, its worker and the guest together *)
Section Safe.
Context `{Profile} {F : Type} `{HostFileLaws F} (walk_fuel fuel : nat).
#[local] Instance safe_transport : VirtIODeviceTrait (BlkWorld F) := blk_device walk_fuel fuel.
Abbreviation BlkMmio := (VirtIOMMIO (BlkWorld F)).
Implicit Types s : BlkMmio.

(** The queue of the device, as the transport knows it. *)
Definition queue_enabled (s : BlkMmio) : bool := match queues s with q :: _ => enable q | [] => false end.

(** A write that changes the size of the queue behind its validation. *)
Definition resizes (addr : Z) (s : BlkMmio) : Prop :=
  offset_of addr = Some QueueNum /\ queue_select s = 0 /\ queue_enabled s = true.

(** What happens to the device: the guest changes its memory; it writes to any
    address of the register window with any width (what is not a register, or
    is misaligned, included); the worker serves a task or is cancelled. *)
Inductive bus_step : BlkMmio -> BlkMmio -> Prop :=
| BusGuest s r : ram_wf r -> bus_step s (set_device (set_mem r (device s)) s)
| BusWrite s t addr v r s' : 0 <= addr -> uint (BITS t) v -> ~ resizes addr s -> write_impl t addr v s = (r, s') -> bus_step s s'
| BusWorker s b w' : worker_step (device s) = (Ok b, w') -> bus_step s (set_device w' s)
| BusCancel s : bus_step s (set_device (set_channel [] (set_worker_running false (device s))) s).

(** The device's queue is valid while the transport has it enabled. *)
Definition valid_if (b : bool) (q : VirtQueue) : Prop := uint 16 (last_avail_idx q) /\ (b = true -> queue_ok q).

Record transport_ok (s : BlkMmio) : Prop := {
  to_select : 0 <= queue_select s;
  to_queue : exists q l, queues s = q :: l /\ uint 32 (num q);
  to_device : blk_wf (valid_if (queue_enabled s)) (device s);
  to_tasks : Forall not_barrier (channel (device s))
}.

(** [m] returns, possibly with an error but without a panic, and keeps the
    invariant. *)
Definition serves {A} (m : M BlkMmio MemError A) (s : BlkMmio) : Prop :=
  exists r s', m s = (r, s') /\ r <> Panic /\ transport_ok s'.

Lemma serves_finish (m : M BlkMmio MemError unit) s s' : m s = (Ok tt, s') -> transport_ok s' -> serves (finish m) s.
Proof. intros Hm Hs. exists (Ok true), s'. unfold finish. by rewrite (bind_Ok _ _ _ _ _ Hm). Qed.

Lemma blk_wf_weaken (P Q : VirtQueue -> Prop) (w : BlkWorld F) : (forall q, P q -> Q q) -> blk_wf P w -> blk_wf Q w.
Proof. intros HPQ []. split; auto. Qed.

Lemma valid_of_ok b q : queue_ok q -> valid_if b q.
Proof. intros Hq. by split; [apply Hq|]. Qed.

(** A change of the device that keeps what is known of it. *)
Lemma device_ok s f : transport_ok s -> (forall d, queue (f d) = queue d) ->
  (forall d, config_ok (config_region d) -> config_ok (config_region (f d))) -> transport_ok (set_device (lift_dev f (device s)) s).
Proof.
  intros [Hsel Hq Hd Hnb] Hfq Hfc. split; try done. destruct Hd as [Hm Hv Hc Ht Hf]. split; try done; cbn.
  - by rewrite Hfq.
  - by apply Hfc.
Qed.

Lemma update_selected_run (f : VirtIOMMIOQueueStatus -> VirtIOMMIOQueueStatus) s q l : 0 <= queue_select s -> queues s = q :: l ->
  exists l', update_selected f s = (Ok tt, set_queues ((if queue_select s =? 0 then f q else q) :: l') s).
Proof.
  intros Hsel Hq. unfold update_selected, modify, selected_queue, get_queue. rewrite Hq. destruct (Z.eqb_spec (queue_select s) 0) as [E|Hne].
  - rewrite E. by exists l.
  - destruct (Z.to_nat (queue_select s)) as [|i] eqn:Ei; [lia|]. cbn. destruct (l !! i) as [x|] eqn:Ex.
    + by exists (<[i := f x]> l).
    + exists l. do 2 f_equal. destruct s. cbn in *. by subst.
Qed.

(** A change of the selected queue's registers that does not enable it. *)
Lemma registers_ok s f : transport_ok s -> (forall q, uint 32 (num q) -> uint 32 (num (f q))) ->
  (forall q, enable (f q) = true -> enable q = true) ->
  exists s', update_selected f s = (Ok tt, s') /\ transport_ok s' /\ device s' = device s /\ queue_select s' = queue_select s /\
    (queue_enabled s' = true -> queue_enabled s = true).
Proof.
  intros [Hsel (q & l & Hq & Hn) Hd Hnb] Hfn Hfe. destruct (update_selected_run f s q l Hsel Hq) as [l' Hrun].
  eexists. split; [exact Hrun|].
  assert (forall s', queues s' = (if queue_select s =? 0 then f q else q) :: l' -> queue_enabled s' = true -> queue_enabled s = true) as He.
  { intros s' Hq'. unfold queue_enabled. rewrite Hq, Hq'. case_match; auto. }
  split_and!; try done; [|by apply He]. split; [done| | |done].
  - eexists _, _. split; [reflexivity|]. case_match; auto.
  - eapply blk_wf_weaken; [|exact Hd]. intros x [Hu Hv]. split; [done|]. intros E. apply Hv.
    exact (He (set_queues ((if queue_select s =? 0 then f q else q) :: l') s) eq_refl E).
Qed.

Lemma registers_serve s f : transport_ok s -> (forall q, uint 32 (num q) -> uint 32 (num (f q))) ->
  (forall q, enable (f q) = true -> enable q = true) -> serves (finish (update_selected f)) s.
Proof. intros Hs Hn He. destruct (registers_ok s f Hs Hn He) as (s' & Hrun & Hs' & _). by eapply serves_finish. Qed.

Lemma write_queue_num_ok v s : transport_ok s -> uint 32 v -> ~ (queue_select s = 0 /\ queue_enabled s = true) ->
  serves (finish (write_queue_num v)) s.
Proof.
  intros Hs Hv Hno. unfold write_queue_num. destruct (_ || _); [by eapply serves_finish|].
  destruct (registers_ok s (with_num v) Hs) as (s1 & Hrun & Hs1 & Ed & Esel & He); [done|done|].
  eapply serves_finish.
  { rewrite (bind_Ok (gets queue_select) _ s _ s eq_refl), (bind_Ok _ _ _ _ _ Hrun).
    rewrite (bind_Ok (gets _) _ s1 1 s1 eq_refl). instantiate (1 := if queue_select s <? 1
      then set_device (lift_dev (fun d => set_queue (VirtQueue.set_queue_num v (queue d)) d) (device s1)) s1 else s1).
    by destruct (queue_select s <? 1). }
  destruct (Z.ltb_spec (queue_select s) 1) as [Hlt|]; [|done]. pose proof (to_select s Hs).
  assert (queue_enabled s1 = false) as Hen.
  { destruct (queue_enabled s1) eqn:E; [|done]. destruct Hno. split; [lia|auto]. }
  destruct Hs1 as [? ? Hd ?]. split; try done. destruct Hd as [? [Hu _] ? ? ?]. split; try done. split; [done|].
  unfold queue_enabled in *. cbn. by rewrite Hen.
Qed.

(** The device's queue set up from the registers [x]. *)
Definition set_up (x : VirtIOMMIOQueueStatus) (d : VirtIOBlkDevice) : VirtIOBlkDevice :=
  set_queue (VirtQueue.set_used (q_used x) (VirtQueue.set_avail (q_avail x) (VirtQueue.set_desc (q_desc x)
    (VirtQueue.set_queue_num (num x) (queue d))))) d.

Lemma queue_ready_1 s x s1 : selected_queue s = Some x -> num x <> 0 -> update_selected (with_enable true) s = (Ok tt, s1) ->
  write_queue_ready 1 s =
    if queue_select s <? 1 then
      let s2 := set_device (lift_dev (set_up x) (device s1)) s1 in
      if ready (queue (dev (device s2))) then (Ok tt, s2) else update_selected (with_enable false) s2
    else (Ok tt, s1).
Proof.
  intros Ex Hz Hrun. unfold write_queue_ready. change (1 <? 1) with false. cbv iota.
  rewrite (bind_Ok (gets id) _ s _ s eq_refl). change (id s) with s. rewrite Ex, (proj2 (Z.eqb_neq _ _) Hz). cbn [Z.eqb Pos.eqb andb negb].
  rewrite (bind_Ok _ _ _ _ _ Hrun). change (get_num_of_queue (device s)) with 1. destruct (queue_select s <? 1); [|done].
  unfold update_device, on_device, zoom, bind, gets, modify, ret. cbn -[ready update_selected lift_dev].
  match goal with |- context [ready ?q] => change (ready q) with (ready (queue (dev (lift_dev (set_up x) (device s1))))) end.
  destruct (ready _) eqn:Er; cbn -[ready update_selected lift_dev]; done.
Qed.

Lemma write_queue_ready_ok v s : transport_ok s -> uint 32 v -> serves (finish (write_queue_ready v)) s.
Proof.
  intros Hs Hv. destruct (Z.ltb_spec 1 v) as [|Hle].
  { apply (serves_finish _ s s); [|done]. unfold write_queue_ready. by rewrite (proj2 (Z.ltb_lt 1 v)). }
  pose proof Hs as [Hsel (q & l & Hq & Hn) Hd Hnb]. destruct (selected_queue s) as [x|] eqn:Ex.
  2:{ apply (serves_finish _ s s); [|done]. unfold write_queue_ready. rewrite (proj2 (Z.ltb_ge 1 v)) by done.
      rewrite (bind_Ok (gets id) _ s _ s eq_refl). change (id s) with s. by rewrite Ex. }
  assert (v = 0 \/ v = 1) as [-> | ->] by (unfold uint in Hv; lia).
  { destruct (registers_ok s (with_enable false) Hs) as (s1 & Hrun & Hs1 & _); [done|done|].
    apply (serves_finish _ s s1); [|exact Hs1]. unfold write_queue_ready. change (1 <? 0) with false. cbv iota.
    rewrite (bind_Ok (gets id) _ s _ s eq_refl). change (id s) with s. rewrite Ex. cbn [Z.eqb andb negb].
    by rewrite (bind_Ok _ _ _ _ _ Hrun). }
  destruct (Z.eqb_spec (num x) 0) as [Hz|Hz].
  { apply (serves_finish _ s s); [|exact Hs]. unfold write_queue_ready. change (1 <? 1) with false. cbv iota.
    rewrite (bind_Ok (gets id) _ s _ s eq_refl). change (id s) with s. by rewrite Ex, Hz. }
  destruct (update_selected_run (with_enable true) s q l Hsel Hq) as [l1 Hrun].
  pose proof (queue_ready_1 s x _ Ex Hz Hrun) as Hr. destruct (Z.ltb_spec (queue_select s) 1) as [Hlt|Hge].
  - assert (queue_select s = 0) as E0 by lia.
    assert (x = q) as -> by (unfold selected_queue, get_queue in Ex; rewrite E0, Hq in Ex; by injection Ex).
    set (s2 := set_device _ _) in Hr. assert (transport_ok s2) as Hs2.
    { split; [done|..|done].
      - eexists _, l1. unfold s2. cbn. split; [reflexivity|]. by rewrite E0.
      - destruct Hd as [? [Hu _] ? ? ?]. split; try done. apply valid_of_ok. by apply set_up_ok. }
    cbv zeta in Hr. destruct (ready _); [by apply (serves_finish _ s s2)|].
    destruct (registers_ok s2 (with_enable false) Hs2) as (s3 & Hrun3 & Hs3 & _); [done|done|].
    apply (serves_finish _ s s3); [by rewrite Hr|done].
  - apply (serves_finish _ s _ Hr). rewrite (proj2 (Z.eqb_neq (queue_select s) 0)) by lia. split; try done.
    + by exists q, l1.
    + eapply blk_wf_weaken; [|exact Hd]. unfold valid_if, queue_enabled. cbn. by rewrite Hq.
Qed.

Lemma write_queue_notify_ok v s : transport_ok s -> uint 32 v -> serves (write_queue_notify v) s.
Proof.
  intros Hs Hv. pose proof Hs as [Hsel (q & l & Hq & Hn) Hd Hnb]. unfold serves, write_queue_notify.
  rewrite (bind_Ok (gets id) _ s _ s eq_refl). change (id s) with s. cbv zeta. change (get_num_of_queue (device s)) with 1.
  destruct (Z.ltb_spec v 1) as [Hlt|]; [|by exists (Ok true), s]. assert (v = 0) as -> by (unfold uint in Hv; lia).
  unfold get_queue. rewrite Hq. change ((q :: l) !! Z.to_nat 0) with (Some q). cbn [andb].
  destruct (enable q) eqn:Ee; [|by exists (Ok true), s].
  assert (blk_ok (device s)) as Hok.
  { eapply blk_wf_weaken; [|exact Hd]. intros x [_ Hx]. apply Hx. unfold queue_enabled. by rewrite Hq. }
  destruct (notify_returns walk_fuel fuel (device s) Hok) as (b & w' & Hrun & Hw' & _).
  exists (Ok b), (set_device w' s). split; [unfold on_device, zoom; cbn [notify safe_transport blk_device]; by rewrite Hrun|]. split; [done|].
  split; [done|by exists q, l| |by eapply notify_not_barrier].
  eapply blk_wf_weaken; [|exact Hw']. intros x. apply valid_of_ok.
Qed.

Lemma reset_ok s : transport_ok s -> serves (finish reset) s.
Proof.
  intros [Hsel Hq Hd Hnb]. destruct (reset_run (device s) Hd Hnb) as (w' & Hrun & Hw' & Hnb').
  eapply serves_finish.
  { unfold reset. rewrite (bind_Ok (modify _) _ s tt _ eq_refl). unfold on_device, zoom. cbn [device_reset safe_transport blk_device device].
    rewrite Hrun. reflexivity. }
  split; [done|by eexists _, _| |done]. eapply blk_wf_weaken; [|exact Hw']. intros x. apply valid_of_ok.
Qed.

Lemma set_feature_ok f s : transport_ok s -> transport_ok (set_device (lift_dev (blk_set_feature f) (device s)) s).
Proof. intros Hs. apply device_ok; [done|..]; intros d; unfold blk_set_feature; repeat case_match; done. Qed.

Lemma write_status_ok v s : transport_ok s -> serves (finish (write_status v)) s.
Proof.
  intros Hs. unfold write_status. destruct (v =? 0); [by apply reset_ok|].
  destruct (status_from_bits (wrap 8 v)) as [n|]; [|by eapply serves_finish].
  set (s1 := set_device (lift_dev (set_blk_status (Z.lor (blk_status (dev (device s))) n)) (device s)) s).
  assert (transport_ok s1) as Hs1 by (by apply device_ok).
  apply (serves_finish _ s (if negb (Z.land n FEATURES_OK =? 0)
    then set_device (lift_dev (blk_set_feature (guest_features s)) (device s1)) s1 else s1)).
  - erewrite bind_Ok; [|reflexivity]. by destruct (negb _).
  - destruct (negb _); [by apply set_feature_ok|done].
Qed.

Lemma config_ok_step o l v s : transport_ok s -> 0 <= o ->
  transport_ok (set_device (lift_dev (blk_write_config o l v) (device s)) s).
Proof.
  intros Hs Ho. apply device_ok; [done| |].
  - intros d. unfold blk_write_config. by destruct (config_in_range _ _ _).
  - intros d. apply write_config_ok.
Qed.

(** Every write access but a resize is served. *)
Lemma write_impl_ok t addr v s : transport_ok s -> 0 <= addr -> uint (BITS t) v -> ~ resizes addr s -> serves (write_impl t addr v) s.
Proof.
  intros Hs Ha Hv Hno. unfold write_impl. destruct (Z.leb_spec VIRTIO_MMIO_CONFIG_OFFSET addr) as [Hc|Hc].
  - unfold mmio_write_config. destruct (negb _); [by exists (Err MemStoreMisaligned), s|].
    eapply serves_finish; [reflexivity|]. apply config_ok_step; [done|lia].
  - destruct (size_of t =? 4) eqn:Et; [|by exists (Err MemStoreMisaligned), s].
    destruct (check_align U32 addr) eqn:Eal; [|by exists (Err MemStoreMisaligned), s]. cbn [negb orb].
    assert (uint 32 v) as Hv32 by (by destruct t).
    unfold write_u32_impl. rewrite (proj2 (Z.leb_gt _ _) Hc), Eal.
    assert (forall (m : M BlkMmio MemError bool), serves m s -> serves (assert true ;;; m) s) as Hassert by done. apply Hassert.
    destruct (offset_of addr) as [o|] eqn:Eo; [|by exists (Ok true), s].
    assert (o <> Config) as Hncfg.
    { intros ->. unfold offset_of in Eo. destruct (list_find _ all_offsets) as [[i x]|] eqn:El; [|done].
      apply list_find_Some in El as (_ & Hx & _). injection Eo as ->. unfold VIRTIO_MMIO_CONFIG_OFFSET in Hc. cbn in Hx. lia. }
    destruct o; try done; try (by exists (Ok true), s); try (by apply registers_serve).
    all: try (eapply serves_finish; [reflexivity|]; destruct Hs; by split).
    + destruct Hs as [? Hq Hd ?]. eapply serves_finish; [reflexivity|]. unfold uint in Hv32. split; [cbn; lia|exact Hq|exact Hd|done].
    + apply write_queue_num_ok; [done|done|]. intros [E1 E2]. by destruct Hno.
    + by apply write_queue_ready_ok.
    + by apply write_queue_notify_ok.
    + eapply serves_finish; [reflexivity|]. by apply device_ok.
    + by apply write_status_ok.
Qed.

Lemma bus_step_ok s s' : transport_ok s -> bus_step s s' -> transport_ok s'.
Proof.
  intros Hs Hst. destruct Hst as [s r Hr|s t addr v r s' Ha Hv Hno Hrun|s b w' Hrun|s].
  - destruct Hs as [? ? [] ?]. by split; [..|split|].
  - destruct (write_impl_ok t addr v s Hs Ha Hv Hno) as (r' & s1 & Hrun' & _ & Hs1). congruence.
  - destruct Hs as [? ? Hd Hnb]. destruct (worker_step_returns (device s) Hd) as (b' & w1 & Hrun' & Hw1 & _).
    assert (w' = w1) as -> by congruence. split; try done. by eapply worker_not_barrier.
  - destruct Hs as [? ? [] ?]. split; [done|done|split; try done; constructor|constructor].
Qed.

(** C29: The block device is memory safe behind its transport.  Start from a device
    fresh from the builder and let, in any order, the guest change its memory
    and write anything to any address of the device's window, except QueueNum
    while queue 0 is selected and enabled, the worker serve tasks or be
    cancelled, and the backing file report whatever errors.  Then no such write
    panics, the worker's next round returns, and every queued task stays inside
    guest memory with a length and an end that do not overflow (an access
    outside of guest memory is a panic in the model).  The exception is a real
    one: a resize of an enabled queue escapes guest memory
    ([resize_escapes_guest_memory]).  Two limits: a notification is followed for
    [fuel] requests of [walk_fuel] descriptors each, for any bounds, where the
    code itself need not end ([nested_indirect_never_ends]); and reads of
    registers are not steps, since they change nothing and a read of a
    write-only register panics ([write_only_read_panics]). *)
Theorem block_device_safe w0 s : blk_initial w0 -> rtc bus_step (VirtIOMMIO_new w0) s ->
  Forall task_ok (channel (device s)) /\
  (forall t addr v, 0 <= addr -> uint (BITS t) v -> ~ resizes addr s -> fst (write_impl t addr v s) <> Panic) /\
  (exists b w', worker_step (device s) = (Ok b, w')).
Proof.
  intros Hi Hr. assert (transport_ok s) as Hs.
  { assert (transport_ok (VirtIOMMIO_new w0)) as Hnew.
    { apply initial_inv in Hi as [Hw Hnb]. split; [done|by eexists _, _| |done].
      eapply blk_wf_weaken; [|exact Hw]. intros x. apply valid_of_ok. }
    induction Hr as [|s0 s1 s2 Hst _ IH]; [done|]. by apply IH, (bus_step_ok s0). }
  split_and!; [apply (to_device s Hs)|..].
  - intros t addr v Ha Hv Hno. destruct (write_impl_ok t addr v s Hs Ha Hv Hno) as (r & s' & -> & Hp & _). done.
  - destruct (worker_step_returns (device s) (to_device s Hs)) as (b & w' & Hrun & _). by exists b, w'.
Qed.
End Safe.

(** ** A size change behind an enabled queue *)

#[local] Instance release_build : Profile := release.
#[local] Instance demo_transport : VirtIODeviceTrait (BlkWorld MemFile) := blk_device 100 100.

(** One request is available, and the descriptor table of one entry is the last
    16 bytes of guest memory. *)
Definition resize_world : BlkWorld MemFile :=
  set_mem (set_data (store_bytes 0x2000 [0; 0; 1; 0; 0; 0]) (Ram_new 0)) disk_world.

Definition enable_small_queue : M (VirtIOMMIO (BlkWorld MemFile)) MemError bool :=
  write_reg QueueNum 1 ;;;
  write_reg QueueDescLow (BASE_ADDR + SIZE - 16) ;;; write_reg QueueDescHigh 0 ;;;
  write_reg QueueAvailLow (BASE_ADDR + 0x2000) ;;; write_reg QueueAvailHigh 0 ;;;
  write_reg QueueUsedLow (BASE_ADDR + 0x3000) ;;; write_reg QueueUsedHigh 0 ;;;
  write_reg QueueReady 1.

(** Changing the size of an enabled queue escapes guest memory: QueueNum is
    passed to the device while the queue is enabled, and the addresses that were
    validated for the old size are not checked again.  A queue of one entry at
    the end of guest memory is enabled and serves a notification; after a write
    of 1024 to QueueNum the same notification accesses memory outside of it. *)
Theorem resize_escapes_guest_memory : exists s,
  enable_small_queue (VirtIOMMIO_new resize_world) = (Ok true, s) /\ queue_ok (queue_of s) /\ ready (queue_of s) = true /\
  fst (write_reg QueueNotify 0 s) = Ok true /\
  fst ((write_reg QueueNum 1024 ;;; write_reg QueueNotify 0) s) = Panic.
Proof.
  eexists. split; [vm_compute; reflexivity|]. split; [|by vm_compute].
  apply (set_up_ok 1 (BASE_ADDR + SIZE - 16) (BASE_ADDR + 0x2000) (BASE_ADDR + 0x3000) (VirtQueue_new 0)); vm_compute; split; congruence.
Qed.

Lemma le_value_split n v : 0 <= v -> le_value (split_le n v) = wrap (8 * Z.of_nat n) v.
Proof.
  revert v. induction n as [|n IH]; intros v Hv.
  - change (0 = v mod 1). by rewrite Z.mod_1_r.
  - cbn [split_le le_value]. rewrite IH by (by apply Z.shiftr_nonneg). rewrite land_ff. unfold wrap.
    rewrite Z.shiftl_mul_pow2, Z.shiftr_div_pow2 by lia. replace (8 * Z.of_nat (S n)) with (8 + 8 * Z.of_nat n) by lia.
    rewrite Z.pow_add_r, Z.rem_mul_r by lia. lia.
Qed.

(** The driver can set the capacity of the disk: the whole configuration space
    is writable, and the bound of a request is computed from it. *)
Lemma guest_sets_capacity c d : config_ok (config_region d) -> uint 64 c ->
  capacity (config_region (blk_write_config 0 8 c d)) = c.
Proof.
  intros [Hl _] Hc. unfold blk_write_config, config_in_range. rewrite Hl. change (_ && _) with true. cbn iota.
  unfold capacity, set_config. cbn [config_region]. destruct (config_region d) as [|b0 [|b1 [|b2 [|b3 [|b4 [|b5 [|b6 [|b7 cs]]]]]]]]; try done.
  change (take 8 _) with (split_le 8 c). unfold uint in Hc. rewrite le_value_split by lia. by apply wrap_small.
Qed.

(** ** Witnesses *)

Definition fresh : VirtIOMMIO (BlkWorld MemFile) := VirtIOMMIO_new disk_world.

Lemma write_only_read_panics_witness : read_impl U32 0x30 fresh = (Panic, fresh).
Proof. apply (write_only_read_panics 0x30 fresh); [vm_compute; split; congruence|vm_compute; reflexivity]. Defined.

Lemma feature_negotiation_witness : exists s',
  (offer VERSION_1 ;;; write_reg Status 11) fresh = (Ok true, s') /\ Z.testbit (blk_status (device_of s')) 3 = true.
Proof.
  destruct (feature_negotiation 100 100 VERSION_1 11 fresh) as (s' & H1 & H2 & _);
    [vm_compute; split; congruence|vm_compute; split; congruence|vm_compute; split; congruence|vm_compute; reflexivity|
     vm_compute; reflexivity|].
  exists s'. split; [exact H1|]. rewrite H2. vm_compute. reflexivity.
Defined.

Definition small_queue : VirtIOMMIOQueueStatus :=
  {| num := 1; q_desc := BASE_ADDR + 0x1000; q_avail := BASE_ADDR + 0x2000; q_used := BASE_ADDR + 0x3000; enable := false |}.

Lemma queue_enable_validates_witness : exists s' q',
  write_reg QueueReady 1 (set_queues [small_queue] fresh) = (Ok true, s') /\ queues s' !! 0%nat = Some q' /\ enable q' = true.
Proof.
  destruct (queue_enable_validates 100 100 (set_queues [small_queue] fresh) small_queue) as (s' & q' & H1 & H2 & H3 & _).
  - reflexivity.
  - reflexivity.
  - vm_compute. split; congruence.
  - vm_compute. split; congruence.
  - exists s', q'. split; [exact H1|]. split; [exact H2|]. apply H3.
    repeat split; try (vm_compute; congruence); vm_compute; reflexivity.
Defined.

(** The driver has set the size of the queue of a fresh device; any other write
    is safe then, here of the status register, and so is the worker. *)
Definition sized : VirtIOMMIO (BlkWorld MemFile) := snd (write_impl U32 0x38 1 fresh).

Lemma block_device_safe_witness :
  Forall task_ok (channel (device sized)) /\ fst (write_impl U32 0x70 1 sized) <> Panic /\
  exists b w', worker_step (device sized) = (Ok b, w').
Proof.
  assert (bus_step 100 100 fresh sized) as Hst.
  { apply (BusWrite 100 100 fresh U32 0x38 1 (fst (write_impl U32 0x38 1 fresh)) sized).
    - lia.
    - by split.
    - intros (_ & _ & He). vm_compute in He. congruence.
    - apply surjective_pairing. }
  destruct (block_device_safe 100 100 disk_world sized disk_world_initial (rtc_once _ _ Hst)) as (H1 & H2 & H3).
  split; [exact H1|]. split; [|exact H3].
  apply H2; [lia|by split|]. intros [Ho _]. vm_compute in Ho. congruence.
Defined.
