(* ===== verification/IsaBuilder.v ===== *)
(** * The ISA builder (src/src/isa/riscv/isa_builder.rs)

    Extensions with their dependencies, the instruction tables they select and
    the parser of ISA strings.  A [str] is the list of its characters, as code
    points.  The instruction tables are generated by the build: they are the
    parameter [tables]. *)

From S2P Require Import Prelude Utils.

Inductive Extension : Type := ExtI | ExtM | ExtA | ExtF | ExtD | ExtC | ExtV | Zicsr | Zifencei.
#[export] Instance Extension_eq_dec : EqDecision Extension.
Proof. solve_decision. Defined.

(** ** Characters *)
Definition chars (s : string) : list Z := (fun c => Z.of_nat (Ascii.nat_of_ascii c)) <$> String.list_ascii_of_string s.
Definition to_ascii_lowercase (c : Z) : Z := if (65 <=? c) && (c <=? 90) then c + 32 else c.
Definition is_ascii_digit (c : Z) : bool := (48 <=? c) && (c <=? 57).

(** [str::split('_')]: always at least one segment. *)
Fixpoint split_on (sep : Z) (l : list Z) : list (list Z) :=
  match l with
  | [] => [[]]
  | c :: l => if c =? sep then [] :: split_on sep l
              else match split_on sep l with seg :: segs => (c :: seg) :: segs | [] => [[c]] end
  end.

Fixpoint strip_prefix (p l : list Z) : option (list Z) :=
  match p, l with
  | [], _ => Some l
  | a :: p, b :: l => if a =? b then strip_prefix p l else None
  | _ :: _, [] => None
  end.

Fixpoint take_while (f : Z -> bool) (l : list Z) : list Z :=
  match l with [] => [] | c :: l => if f c then c :: take_while f l else [] end.

(** [digits.parse::<usize>()] of a non-empty string of digits. *)
Definition digits_value (ds : list Z) : Z := foldl (fun acc c => 10 * acc + (c - 48)) 0 ds.
Definition parse_usize (ds : list Z) : option Z :=
  if (digits_value ds <? 2 ^ 64) && negb (bool_decide (ds = [])) then Some (digits_value ds) else None.

(** ** Extensions *)
Definition dependencies (e : Extension) : list Extension :=
  match e with ExtD => [ExtF] | ExtF => [Zicsr] | _ => [] end.

Definition misa_letter (e : Extension) : option Z :=
  match e with
  | ExtI => Some 73 | ExtM => Some 77 | ExtA => Some 65 | ExtF => Some 70 | ExtD => Some 68
  | ExtC => Some 67 | ExtV => Some 86 | Zicsr | Zifencei => None
  end.
(** [1 << (letter as u8 - b'A')] *)
Definition misa_bit (letter : Z) : Z := shl 64 1 (letter - 65).

Record ISABuilder : Type := { extensions : list Extension }.

Definition has (b : ISABuilder) (e : Extension) : bool := bool_decide (e ∈ extensions b).

(** [insert] recurses into the dependencies; no chain of them is longer than
    [fuel] = 3. *)
Fixpoint insert_fuel (fuel : nat) (e : Extension) (b : ISABuilder) : ISABuilder :=
  match fuel with
  | O => b
  | S n => if has b e then b
           else let b := foldl (fun b dep => insert_fuel n dep b) b (dependencies e) in
                {| extensions := extensions b ++ [e] |}
  end.
Definition insert_ext (e : Extension) (b : ISABuilder) : ISABuilder := insert_fuel 3 e b.

Definition ISABuilder_new : ISABuilder := insert_ext ExtI {| extensions := [] |}.
Definition add (b : ISABuilder) (e : Extension) : ISABuilder := insert_ext e b.

Definition extension_bits (b : ISABuilder) : Z :=
  foldl (fun bits e => match misa_letter e with Some l => Z.lor bits (misa_bit l) | None => bits end)
    (Z.lor (misa_bit 83) (misa_bit 85)) (extensions b).

(** ** Instruction tables *)
Record Tables (Desc : Type) : Type := {
  TABLE_RV32I : list Desc; TABLE_RV64I : list Desc; TABLE_RV32M : list Desc; TABLE_RV64M : list Desc;
  TABLE_RV32A : list Desc; TABLE_RV64A : list Desc; TABLE_RV32F : list Desc; TABLE_RV64F : list Desc;
  TABLE_RV32D : list Desc; TABLE_RV64D : list Desc; TABLE_RVV : list Desc; TABLE_RVC : list Desc;
  TABLE_RV64C : list Desc; TABLE_RV32C : list Desc; TABLE_RVZICSR : list Desc; TABLE_RVZIFENCEI : list Desc;
  TABLE_RVC_D : list Desc; TABLE_RV32C_F : list Desc; TABLE_RVSYSTEM : list Desc; TABLE_RVS : list Desc;
  TABLE_RVILLEGAL : list Desc
}.

Section Build.
Context {Desc : Type} (tbl : Tables Desc).

Definition xlen_tables (rv32 rv64 : list Desc) (is_rv64 : bool) : list (list Desc) :=
  if is_rv64 then [rv32; rv64] else [rv32].

Definition tables (e : Extension) : list (list Desc) :=
  let is_rv64 := XLEN =? 64 in
  match e with
  | ExtI => xlen_tables (TABLE_RV32I _ tbl) (TABLE_RV64I _ tbl) is_rv64
  | ExtM => xlen_tables (TABLE_RV32M _ tbl) (TABLE_RV64M _ tbl) is_rv64
  | ExtA => xlen_tables (TABLE_RV32A _ tbl) (TABLE_RV64A _ tbl) is_rv64
  | ExtF => xlen_tables (TABLE_RV32F _ tbl) (TABLE_RV64F _ tbl) is_rv64
  | ExtD => xlen_tables (TABLE_RV32D _ tbl) (TABLE_RV64D _ tbl) is_rv64
  | ExtV => [TABLE_RVV _ tbl]
  | ExtC => [TABLE_RVC _ tbl; if is_rv64 then TABLE_RV64C _ tbl else TABLE_RV32C _ tbl]
  | Zicsr => [TABLE_RVZICSR _ tbl]
  | Zifencei => [TABLE_RVZIFENCEI _ tbl]
  end.

Definition build (b : ISABuilder) : list Desc :=
  foldl (fun instrs e => foldl (fun instrs table => instrs ++ table) instrs (tables e)) [] (extensions b)
  ++ (if has b ExtC && has b ExtD then TABLE_RVC_D _ tbl else [])
  ++ (if (XLEN =? 32) && has b ExtC && has b ExtF then TABLE_RV32C_F _ tbl else [])
  ++ TABLE_RVSYSTEM _ tbl ++ TABLE_RVS _ tbl ++ TABLE_RVILLEGAL _ tbl.
End Build.

(** ** The parser *)
Inductive IsaParseError : Type :=
| MissingRvPrefix
| MissingXlen
| XlenMismatch (requested actual : Z)
| UnknownBaseExtension (c : Z)
| UnknownExtension (token : list Z).

Definition base_extensions (letter : Z) : Res IsaParseError (list Extension) :=
  match letter with
  | 105 => Ok [ExtI] | 109 => Ok [ExtM] | 97 => Ok [ExtA] | 102 => Ok [ExtF] | 100 => Ok [ExtD]
  | 99 => Ok [ExtC] | 118 => Ok [ExtV]
  | 103 => Ok [ExtI; ExtM; ExtA; ExtF; ExtD; Zicsr; Zifencei]
  | other => Err (UnknownBaseExtension other)
  end.

Definition multi_letter_extension (token : list Z) : Res IsaParseError Extension :=
  if decide (token = chars "zicsr") then Ok Zicsr
  else if decide (token = chars "zifencei") then Ok Zifencei
  else Err (UnknownExtension token).

Fixpoint add_letters (letters : list Z) (b : ISABuilder) : Res IsaParseError ISABuilder :=
  match letters with
  | [] => Ok b
  | ch :: letters =>
      match base_extensions ch with
      | Ok es => add_letters letters (foldl add b es)
      | Err e => Err e
      | Panic => Panic
      end
  end.

Fixpoint add_tokens (tokens : list (list Z)) (b : ISABuilder) : Res IsaParseError ISABuilder :=
  match tokens with
  | [] => Ok b
  | token :: tokens =>
      if bool_decide (token = []) then add_tokens tokens b
      else match multi_letter_extension token with
           | Ok e => add_tokens tokens (add b e)
           | Err e => Err e
           | Panic => Panic
           end
  end.

Definition from_str (s : list Z) : Res IsaParseError ISABuilder :=
  match strip_prefix (chars "rv") (to_ascii_lowercase <$> s) with
  | None => Err MissingRvPrefix
  | Some body =>
      let digits := take_while is_ascii_digit body in
      if bool_decide (digits = []) then Err MissingXlen
      else match parse_usize digits with
           | None => Err MissingXlen
           | Some requested =>
               if negb (requested =? XLEN) then Err (XlenMismatch requested XLEN)
               else match split_on 95 (drop (length digits) body) with
                    | [] => Ok ISABuilder_new
                    | single :: segments =>
                        match add_letters single ISABuilder_new with
                        | Ok b => add_tokens segments b
                        | r => r
                        end
                    end
           end
  end.

(** ** What a builder holds *)
Definition closure (e : Extension) : list Extension :=
  match e with ExtD => [ExtD; ExtF; Zicsr] | ExtF => [ExtF; Zicsr] | _ => [e] end.

Record builder_ok (b : ISABuilder) : Prop := {
  bk_nodup : NoDup (extensions b);
  bk_closed : forall e d, e ∈ extensions b -> d ∈ dependencies e -> d ∈ extensions b
}.

Lemma insert_fuel_enough k e b : insert_fuel (3 + k) e b = insert_fuel 3 e b.
Proof. destruct e; reflexivity. Qed.

(** One extension whose dependencies are there. *)
Lemma push_ok b e : builder_ok b -> e ∉ extensions b -> (forall d, d ∈ dependencies e -> d ∈ extensions b) ->
  builder_ok {| extensions := extensions b ++ [e] |}.
Proof.
  intros [Hn Hc] He Hd. split; simpl.
  - apply list.NoDup_app. split; [done|]. split; [set_solver|apply NoDup_singleton].
  - intros e' d He' Hdep. apply elem_of_app in He' as [He'|He'%list_elem_of_singleton]; apply elem_of_app; left; [by eapply Hc|].
    subst. by apply Hd.
Qed.

Lemma closure_in b e x : builder_ok b -> e ∈ extensions b -> x ∈ closure e -> x ∈ extensions b.
Proof.
  intros [_ Hc] He. pose proof (Hc ExtD ExtF) as H1. pose proof (Hc ExtF Zicsr) as H2. simpl in H1, H2.
  rewrite list_elem_of_singleton in H1, H2.
  destruct e; simpl; rewrite ?list.elem_of_cons, ?elem_of_nil; intros Hx; decompose [or] Hx; subst; try done; auto.
Qed.

Lemma insert_step n e b : (forall d b', d ∈ dependencies e -> builder_ok b' ->
    builder_ok (insert_fuel n d b') /\ forall x, x ∈ extensions (insert_fuel n d b') <-> x ∈ extensions b' \/ x ∈ closure d) ->
  builder_ok b -> builder_ok (insert_fuel (S n) e b) /\
  forall x, x ∈ extensions (insert_fuel (S n) e b) <-> x ∈ extensions b \/ x ∈ closure e.
Proof.
  intros IH Hb. cbn [insert_fuel]. unfold has. case_bool_decide as Hin.
  - split; [done|]. intros x. split; [by left|]. intros [|Hx]; [done|].
    by eapply closure_in.
  - assert (exists d, dependencies e = [] /\ closure e = [e] \/ dependencies e = [d] /\ closure e = e :: closure d) as (d & [[E1 E2]|[E1 E2]]).
    { destruct e; first [by (exists ExtI; left)|by (exists Zicsr; right)|by (exists ExtF; right)]. }
    + rewrite E1, E2. cbn [foldl]. split; [apply push_ok; [done|done|]; rewrite E1; set_solver|]. set_solver.
    + rewrite E1, E2. cbn [foldl]. destruct (IH d b) as [Hok Hm]; [rewrite E1; set_solver|done|].
      assert (e ∉ closure d) as Hne by (destruct e; simpl in E1; try done; injection E1 as <-; set_solver).
      split; [|intros x; simpl; rewrite elem_of_app, Hm; set_solver].
      apply push_ok; [done|rewrite Hm; set_solver|]. rewrite E1. intros d' Hd'. rewrite Hm. right.
      apply list_elem_of_singleton in Hd' as ->. destruct d; set_solver.
Qed.

Lemma insert_ext_ok e b : builder_ok b -> builder_ok (insert_ext e b) /\
  forall x, x ∈ extensions (insert_ext e b) <-> x ∈ extensions b \/ x ∈ closure e.
Proof.
  unfold insert_ext. intros Hb. apply insert_step; [|done]. intros d b1 Hd Hb1.
  apply insert_step; [|done]. intros d2 b2 Hd2 Hb2. apply insert_step; [|done]. intros d3 b3 Hd3.
  destruct e; simpl in Hd; try (by apply not_elem_of_nil in Hd); apply list_elem_of_singleton in Hd as ->;
    simpl in Hd2; try (by apply not_elem_of_nil in Hd2); apply list_elem_of_singleton in Hd2 as ->; by apply not_elem_of_nil in Hd3.
Qed.

Lemma add_all_ok es : forall b, builder_ok b -> builder_ok (foldl add b es) /\
  forall x, x ∈ extensions (foldl add b es) <-> x ∈ extensions b \/ x ∈ es ≫= closure.
Proof.
  induction es as [|e es IH]; intros b Hb; simpl; [split; [done|set_solver]|].
  destruct (insert_ext_ok e b Hb) as [Hb1 Hm1]. destruct (IH (add b e) Hb1) as [Hb2 Hm2]. split; [done|].
  intros x. rewrite Hm2. unfold add. rewrite Hm1. set_solver.
Qed.

Lemma builder_new_ok : builder_ok ISABuilder_new.
Proof. apply insert_ext_ok. split; simpl; [constructor|set_solver]. Qed.

(** ** ISA strings

    [join ls zs] is the text after the width: the letters, then the tokens,
    each behind an underscore. *)
Fixpoint join (ls : list Z) (zs : list (list Z)) : list Z :=
  match zs with [] => ls | z :: zs => ls ++ 95 :: join z zs end.

Definition letter_ok (c : Z) : bool := match base_extensions c with Ok _ => true | _ => false end.
Definition token_ok (z : list Z) : bool :=
  bool_decide (z = []) || match multi_letter_extension z with Ok _ => true | _ => false end.

(** The extensions a string names. *)
Definition letter_exts (c : Z) : list Extension := match base_extensions c with Ok es => es | _ => [] end.
Definition token_exts (z : list Z) : list Extension := match multi_letter_extension z with Ok e => [e] | _ => [] end.
Definition named (ls : list Z) (zs : list (list Z)) : list Extension := (ls ≫= letter_exts) ++ (zs ≫= token_exts).

Record isa_string (s : list Z) (ls : list Z) (zs : list (list Z)) : Prop := {
  is_text : exists ds, (to_ascii_lowercase <$> s) = chars "rv" ++ ds ++ join ls zs /\ ds <> [] /\
    Forall (fun c => is_ascii_digit c = true) ds /\ digits_value ds = XLEN;
  is_letters : Forall (fun c => letter_ok c = true) ls;
  is_tokens : Forall (fun z => token_ok z = true) zs
}.

Lemma strip_prefix_spec p l r : strip_prefix p l = Some r <-> l = p ++ r.
Proof.
  revert l. induction p as [|a p IH]; intros l; simpl; [naive_solver|]. destruct l as [|b l]; [done|].
  destruct (Z.eqb_spec a b) as [->|Hne]; [rewrite IH; naive_solver|naive_solver].
Qed.

Lemma take_while_app f a b : Forall (fun c => f c = true) a -> (forall c r, b = c :: r -> f c = false) ->
  take_while f (a ++ b) = a.
Proof.
  intros Ha Hb. induction Ha as [|c a Hc _ IH]; simpl.
  - destruct b as [|c r]; [done|]. simpl. by rewrite (Hb c r).
  - by rewrite Hc, IH.
Qed.

Lemma take_while_spec f l : exists r, l = take_while f l ++ r /\ Forall (fun c => f c = true) (take_while f l) /\
  drop (length (take_while f l)) l = r.
Proof.
  induction l as [|c l (r & E & Hf & Hd)]; simpl; [by exists []|]. destruct (f c) eqn:Ec.
  - exists r. simpl. split; [by f_equal|]. split; [by constructor|done].
  - exists (c :: l). split; [done|]. split; [constructor|done].
Qed.

Lemma split_join ls zs : Forall (fun c => c <> 95) ls -> Forall (Forall (fun c => c <> 95)) zs ->
  split_on 95 (join ls zs) = ls :: zs.
Proof.
  revert ls. induction zs as [|z zs IHz]; intros ls Hls Hzs.
  - induction Hls as [|c ls Hc _ IH]; [done|]. simpl in *. by rewrite (proj2 (Z.eqb_neq c 95)), IH.
  - inversion_clear Hzs as [|?? Hz Hzs']. induction Hls as [|c ls Hc _ IH].
    + simpl. by rewrite (IHz z Hz Hzs').
    + simpl in *. rewrite (proj2 (Z.eqb_neq c 95)) by done. by rewrite IH.
Qed.

Lemma join_split l : exists seg segs, split_on 95 l = seg :: segs /\ l = join seg segs.
Proof.
  induction l as [|c l (seg & segs & E & IH)]; simpl; [by exists [], []|]. destruct (Z.eqb_spec c 95) as [->|Hne].
  - exists [], (split_on 95 l). split; [done|]. rewrite E. simpl. by rewrite <- IH.
  - rewrite E. exists (c :: seg), segs. split; [done|]. rewrite IH. by destruct segs.
Qed.

Lemma letter_plain c : letter_ok c = true -> c <> 95 /\ is_ascii_digit c = false.
Proof.
  unfold letter_ok, is_ascii_digit, base_extensions. intros Hc. split; [by intros ->|].
  destruct (Z.leb_spec 48 c), (Z.leb_spec c 57); try done. exfalso.
  assert (c = 48 \/ c = 49 \/ c = 50 \/ c = 51 \/ c = 52 \/ c = 53 \/ c = 54 \/ c = 55 \/ c = 56 \/ c = 57) as Hcs by lia.
  by repeat destruct Hcs as [->|Hcs]; [..|subst c].
Qed.

Lemma token_plain z : token_ok z = true -> Forall (fun c => c <> 95) z.
Proof.
  unfold token_ok, multi_letter_extension. case_bool_decide as Hz; [by subst|]. simpl.
  destruct (decide _) as [->|]; [by repeat constructor|]. destruct (decide _) as [->|]; [by repeat constructor|done].
Qed.

Lemma add_letters_spec ls : forall b,
  match add_letters ls b with
  | Ok b' => Forall (fun c => letter_ok c = true) ls /\ b' = foldl add b (ls ≫= letter_exts)
  | Err _ => ~ Forall (fun c => letter_ok c = true) ls
  | Panic => False
  end.
Proof.
  induction ls as [|c ls IH]; intros b; simpl; [done|]. unfold letter_ok, letter_exts at 1.
  destruct (base_extensions c) as [es|e|] eqn:Ec; [|intros Hf; inversion Hf; by rewrite Ec in *|by unfold base_extensions in Ec; repeat case_match].
  specialize (IH (foldl add b es)). destruct (add_letters ls (foldl add b es)); [|intros Hf; apply IH; by inversion Hf|done].
  destruct IH as [Hf ->]. split; [constructor; [by rewrite Ec|done]|]. by rewrite foldl_app.
Qed.

Lemma add_tokens_spec zs : forall b,
  match add_tokens zs b with
  | Ok b' => Forall (fun z => token_ok z = true) zs /\ b' = foldl add b (zs ≫= token_exts)
  | Err _ => ~ Forall (fun z => token_ok z = true) zs
  | Panic => False
  end.
Proof.
  induction zs as [|z zs IH]; intros b; simpl; [done|]. unfold token_ok, token_exts at 1.
  case_bool_decide as Hz.
  - subst z. specialize (IH b). destruct (add_tokens zs b); [|intros Hf; apply IH; by inversion Hf|done].
    destruct IH as [Hf ->]. split; [constructor; [by rewrite bool_decide_eq_true_2|done]|done].
  - destruct (multi_letter_extension z) as [e|e|] eqn:Ez.
    + specialize (IH (add b e)). destruct (add_tokens zs (add b e)); [|intros Hf; apply IH; by inversion Hf|done].
      destruct IH as [Hf ->]. split; [constructor; [by rewrite Ez, orb_true_r|done]|done].
    + intros Hf. inversion Hf as [|?? Hx]. by rewrite bool_decide_eq_false_2, Ez in Hx.
    + unfold multi_letter_extension in Ez. by repeat case_decide.
Qed.

Lemma from_str_text s ls zs : isa_string s ls zs ->
  from_str s = Ok (foldl add ISABuilder_new (named ls zs)).
Proof.
  intros [(ds & Et & Hne & Hds & Hv) Hls Hzs]. unfold from_str. rewrite (proj2 (strip_prefix_spec _ _ (ds ++ join ls zs)) Et).
  assert (take_while is_ascii_digit (ds ++ join ls zs) = ds) as ->.
  { apply take_while_app; [done|]. intros c r Hj. destruct Hls as [|c' ls Hc _].
    - destruct zs as [|z zs]; [done|]. by injection Hj as <- _.
    - destruct zs; simpl in Hj; injection Hj as <- _; by apply letter_plain. }
  rewrite bool_decide_eq_false_2 by done. unfold parse_usize. rewrite Hv. simpl. rewrite bool_decide_eq_false_2 by done. simpl.
  rewrite drop_app_length, split_join.
  - pose proof (add_letters_spec ls ISABuilder_new) as Hl. destruct (add_letters ls ISABuilder_new) as [b| |]; [|done|done].
    destruct Hl as [_ ->]. pose proof (add_tokens_spec zs (foldl add ISABuilder_new (ls ≫= letter_exts))) as Hz.
    destruct (add_tokens zs _); [|done|done]. destruct Hz as [_ ->]. unfold named. by rewrite foldl_app.
  - eapply list.Forall_impl; [exact Hls|]. intros c Hc. by apply letter_plain.
  - eapply list.Forall_impl; [exact Hzs|]. apply token_plain.
Qed.

Lemma from_str_Ok s b : from_str s = Ok b -> exists ls zs, isa_string s ls zs.
Proof.
  unfold from_str. destruct (strip_prefix _ _) as [body|] eqn:Es; [|done]. apply strip_prefix_spec in Es.
  destruct (take_while_spec is_ascii_digit body) as (r & Eb & Hd & Hdrop). set (ds := take_while is_ascii_digit body) in *.
  case_bool_decide as Hne; [done|]. unfold parse_usize. rewrite (bool_decide_eq_false_2 (ds = [])) by done.
  destruct (digits_value ds <? 2 ^ 64) eqn:Hlt; [|done]. cbn [negb andb].
  destruct (Z.eqb_spec (digits_value ds) XLEN) as [Hv|]; [|done]. cbn [negb]. rewrite Hdrop.
  destruct (join_split r) as (seg & segs & Ej & Hj). rewrite Ej.
  pose proof (add_letters_spec seg ISABuilder_new) as Hl. destruct (add_letters seg ISABuilder_new) as [b1| |]; [|done|done].
  pose proof (add_tokens_spec segs b1) as Hz. destruct (add_tokens segs b1); [|done|done]. intros _.
  exists seg, segs. split; [|apply Hl|apply Hz]. exists ds. split; [|done]. by rewrite Es, Eb at 1; rewrite Hj.
Qed.

(** C38: The parser of ISA strings accepts exactly the strings of its grammar, in
    any mixture of upper and lower case: "RV", the width of the build in
    decimal, letters among I, M, A, F, D, C, V, G, and underscore-separated
    Zicsr, Zifencei or nothing.  The builder it returns has no duplicates, and
    has exactly the base ISA, the extensions named and what they depend on
    (D needs F, F needs Zicsr).  It never panics. *)
Theorem isa_string_correct (s : list Z) :
  ((exists b, from_str s = Ok b) <-> exists ls zs, isa_string s ls zs) /\
  (forall ls zs, isa_string s ls zs -> exists b, from_str s = Ok b /\ builder_ok b /\
     forall x, has b x = true <-> x = ExtI \/ exists e, e ∈ named ls zs /\ x ∈ closure e) /\
  from_str s <> Panic.
Proof.
  assert (forall ls zs, isa_string s ls zs -> exists b, from_str s = Ok b /\ builder_ok b /\
     forall x, has b x = true <-> x = ExtI \/ exists e, e ∈ named ls zs /\ x ∈ closure e) as Hgood.
  { intros ls zs Hs. rewrite (from_str_text s ls zs Hs). eexists. split; [done|].
    destruct (add_all_ok (named ls zs) ISABuilder_new builder_new_ok) as [Hok Hm]. split; [done|].
    intros x. unfold has. rewrite bool_decide_eq_true, Hm, list_elem_of_bind.
    change (extensions ISABuilder_new) with [ExtI]. rewrite list_elem_of_singleton. naive_solver. }
  split_and!; [|done|].
  - split; [intros [b Hb]; by eapply from_str_Ok|]. intros (ls & zs & Hs). destruct (Hgood ls zs Hs) as (b & Hb & _). by exists b.
  - unfold from_str. destruct (strip_prefix _ _); [|done]. case_bool_decide; [done|]. destruct (parse_usize _); [|done].
    destruct (negb _); [done|]. destruct (split_on _ _) as [|seg segs]; [done|].
    pose proof (add_letters_spec seg ISABuilder_new) as Hl. destruct (add_letters _ _) as [b1| |]; [|done|done].
    pose proof (add_tokens_spec segs b1) as Hz. by destruct (add_tokens _ _).
Qed.

(** The misa bits of a builder: bit [k] is set exactly when the [k]-th
    letter is S or U, which every hart has, or the letter of a selected
    extension; the value fits the 25 bits of the misa field.  The instructions
    it builds are exactly those of the tables of its extensions for the width
    of the build, of the C+D table when both are there, and of the mandatory
    tables. *)
Theorem isa_builder_output {Desc} (tbl : Tables Desc) (b : ISABuilder) :
  uint 25 (extension_bits b) /\
  (forall k, 0 <= k -> Z.testbit (extension_bits b) k = true <->
     k = 18 \/ k = 20 \/ exists e, has b e = true /\ misa_letter e = Some (65 + k)) /\
  (forall d, d ∈ build tbl b <->
     (exists e t, has b e = true /\ t ∈ tables tbl e /\ d ∈ t) \/
     (has b ExtC = true /\ has b ExtD = true /\ d ∈ TABLE_RVC_D _ tbl) \/
     d ∈ TABLE_RVSYSTEM _ tbl \/ d ∈ TABLE_RVS _ tbl \/ d ∈ TABLE_RVILLEGAL _ tbl).
Proof.
  assert (forall e l, misa_letter e = Some l -> 65 <= l < 90 - 1) as Hrange by (by intros [] l [= <-]).
  assert (forall l k, 65 <= l < 89 -> 0 <= k -> Z.testbit (misa_bit l) k = true <-> l = 65 + k) as Hbit.
  { intros l k Hl Hk. unfold misa_bit. rewrite shl_1 by lia. rewrite Z.pow2_bits_eqb by lia. rewrite Z.eqb_eq. lia. }
  assert (forall l, 65 <= l < 89 -> uint 25 (misa_bit l)) as Hu.
  { intros l Hl. unfold misa_bit. rewrite shl_1 by lia. split; [lia|]. apply Z.pow_lt_mono_r; lia. }
  unfold extension_bits, has. set (z0 := Z.lor (misa_bit 83) (misa_bit 85)).
  assert (forall es z, uint 25 z -> let r := foldl (fun bits e => match misa_letter e with Some l => Z.lor bits (misa_bit l) | None => bits end) z es in
    uint 25 r /\ forall k, 0 <= k -> Z.testbit r k = true <-> Z.testbit z k = true \/ exists e, e ∈ es /\ misa_letter e = Some (65 + k)) as Hfold.
  { induction es as [|e es IH]; intros z Hz; simpl; [split; [done|]; intros k Hk; set_solver|].
    destruct (misa_letter e) as [l|] eqn:El.
    - pose proof (Hrange e l El). destruct (IH (Z.lor z (misa_bit l))) as [H1 H2]; [apply uint_lor; auto; lia|]. split; [done|].
      intros k Hk. rewrite H2, Z.lor_spec, orb_true_iff, Hbit by lia. set_solver.
    - destruct (IH z Hz) as [H1 H2]. split; [done|]. intros k Hk. rewrite H2 by done. set_solver. }
  destruct (Hfold (extensions b) z0) as [H1 H2]; [apply uint_lor; [lia|apply Hu; lia..]|].
  split; [done|]. split.
  - intros k Hk. rewrite H2 by done. unfold z0. rewrite Z.lor_spec, orb_true_iff, !Hbit by lia.
    setoid_rewrite bool_decide_eq_true. naive_solver lia.
  - intros d. unfold build. change (XLEN =? 32) with false. cbn [andb app]. rewrite !elem_of_app.
    assert (forall es acc, d ∈ foldl (fun instrs e => foldl (fun instrs table => instrs ++ table) instrs (tables tbl e)) acc es <->
      d ∈ acc \/ exists e t, e ∈ es /\ t ∈ tables tbl e /\ d ∈ t) as Hb.
    { induction es as [|e es IH]; intros acc; simpl; [set_solver|]. rewrite IH.
      assert (forall ts acc, d ∈ foldl (fun instrs table => instrs ++ table) acc ts <-> d ∈ acc \/ exists t, t ∈ ts /\ d ∈ t) as Hin.
      { induction ts as [|t ts IHt]; intros acc'; simpl; [set_solver|]. rewrite IHt. set_solver. }
      rewrite Hin. setoid_rewrite list.elem_of_cons. split; [naive_solver|]. intros [|(e' & t & [->|] & ? & ?)]; eauto 10. }
    assert (d ∈ (if bool_decide (ExtC ∈ extensions b) && bool_decide (ExtD ∈ extensions b) then TABLE_RVC_D _ tbl else []) <->
      ExtC ∈ extensions b /\ ExtD ∈ extensions b /\ d ∈ TABLE_RVC_D _ tbl) as Hglue.
    { repeat case_bool_decide; simpl; rewrite ?elem_of_nil; naive_solver. }
    setoid_rewrite bool_decide_eq_true. rewrite Hb, Hglue, elem_of_nil. tauto.
Qed.

(** ** Witnesses *)
Definition demo_isa : list Z := chars "Rv64ImD_zICSR__Zifencei_".

Lemma isa_string_correct_witness : exists b, from_str demo_isa = Ok b /\ builder_ok b /\
  has b ExtF = true /\ has b Zifencei = true /\ has b ExtA = false.
Proof.
  destruct (isa_string_correct demo_isa) as (_ & H & _).
  destruct (H (chars "imd") [chars "zicsr"; []; chars "zifencei"; []]) as (b & E & Hok & _).
  - split.
    + exists (chars "64"). split_and!; [reflexivity|discriminate|repeat constructor|reflexivity].
    + repeat constructor.
    + repeat constructor.
  - exists b. split; [exact E|]. split; [exact Hok|]. vm_compute in E. injection E as <-. vm_compute. done.
Defined.
