(* ===== verification/Spi.v ===== *)
(** * The SiFive SPI host controller (src/src/device/spi/spi_sifive.rs)

    A byte written to TXDATA is clocked at once into the slave whose chip
    select is held; the byte it answers goes to a receive FIFO of eight.  The
    slaves are behind the class [SpiSlaveDevice], the trait of the source.
    [ie] and [ip] are atomics that nothing else holds, so plain registers. *)

From S2P Require Import Prelude Utils TrapTypes Device.

Definition SIFIVE_SPI_REGISTER_SIZE : Z := 0x1000.
Definition SIFIVE_SPI_DEFAULT_FIFO_DEPTH : Z := 8.

(** ** Registers *)
Definition SCKDIV : Z := 0x00.
Definition SCKMODE : Z := 0x04.
Definition CSID : Z := 0x10.
Definition CSDEF : Z := 0x14.
Definition CSMODE : Z := 0x18.
Definition DELAY0 : Z := 0x28.
Definition DELAY1 : Z := 0x2c.
Definition FMT : Z := 0x40.
Definition TXDATA : Z := 0x48.
Definition RXDATA : Z := 0x4c.
Definition TXMARK : Z := 0x50.
Definition RXMARK : Z := 0x54.
Definition FCTRL : Z := 0x60.
Definition FFMT : Z := 0x64.
Definition IE : Z := 0x70.
Definition IP : Z := 0x74.

Definition SCKMODE_PHA : Z := Z.shiftl 1 0.
Definition SCKMODE_POL : Z := Z.shiftl 1 1.
Definition SCKMODE_MASK : Z := Z.lor SCKMODE_PHA SCKMODE_POL.
Definition CSMODE_AUTO : Z := 0.
Definition CSMODE_HOLD : Z := 2.
Definition CSMODE_OFF : Z := 3.
Definition CSMODE_MASK : Z := 3.
Definition DELAY0_CSSCK_MASK : Z := 0xff.
Definition DELAY0_SCKCS_MASK : Z := Z.shiftl 0xff 16.
Definition DELAY1_INTERCS_MASK : Z := 0xff.
Definition DELAY1_INTERXFR_MASK : Z := Z.shiftl 0xff 16.
Definition FMT_PROTO_MASK : Z := 0x3.
Definition FMT_ENDIAN : Z := Z.shiftl 1 2.
Definition FMT_DIR : Z := Z.shiftl 1 3.
Definition FMT_LEN_OFFSET : Z := 16.
Definition FMT_LEN_MASK : Z := Z.shiftl 0xf FMT_LEN_OFFSET.
Definition TXDATA_DATA_MASK : Z := 0xff.
Definition TXDATA_FULL : Z := Z.shiftl 1 31.
Definition RXDATA_DATA_MASK : Z := 0xff.
Definition RXDATA_EMPTY : Z := Z.shiftl 1 31.
Definition IP_TXWM : Z := Z.shiftl 1 0.
Definition IP_RXWM : Z := Z.shiftl 1 1.
Definition IP_MASK : Z := Z.lor IP_TXWM IP_RXWM.

(** [u8::reverse_bits]. *)
Definition reverse_bits (v : Z) : Z :=
  fold_right (fun i acc => Z.lor (Z.shiftl (Z.b2z (Z.testbit v i)) (7 - i)) acc) 0 [0; 1; 2; 3; 4; 5; 6; 7].

(** ** Slaves

    [transfer] clocks one frame in both directions; [set_selected] reports the
    edges of the chip select.  None of them returns an error. *)
Class SpiSlaveDevice (D : Type) : Type := {
  transfer : Z -> M D Empty_set Z;
  set_selected : bool -> M D Empty_set unit;
  sync : M D Empty_set unit
}.

Inductive SifiveSpiAttachError : Type := InvalidChipSelect | ChipSelectInUse.

(** ** The controller *)
Record SifiveSpiController (D : Type) : Type := {
  sckdiv : Z;
  sckmode : Z;
  csid : Z;
  csdef : Z;
  csmode : Z;
  delay0 : Z;
  delay1 : Z;
  fmt : Z;
  txmark : Z;
  rxmark : Z;
  fctrl : Z;
  ffmt : Z;
  ie : Z;
  ip : Z;
  rx_fifo : list Z;
  irq_id : option Z;
  slaves : list (option D)
}.
Arguments Build_SifiveSpiController {D}.
Arguments sckdiv {D}.
Arguments sckmode {D}.
Arguments csid {D}.
Arguments csdef {D}.
Arguments csmode {D}.
Arguments delay0 {D}.
Arguments delay1 {D}.
Arguments fmt {D}.
Arguments txmark {D}.
Arguments rxmark {D}.
Arguments fctrl {D}.
Arguments ffmt {D}.
Arguments ie {D}.
Arguments ip {D}.
Arguments rx_fifo {D}.
Arguments irq_id {D}.
Arguments slaves {D}.

(** The registers that only hold a value, as one group. *)
Definition set_clocking {D} (div mode d0 d1 f : Z) (s : SifiveSpiController D) : SifiveSpiController D :=
  Build_SifiveSpiController div mode (csid s) (csdef s) (csmode s) d0 d1 f (txmark s) (rxmark s)
    (fctrl s) (ffmt s) (ie s) (ip s) (rx_fifo s) (irq_id s) (slaves s).
Definition set_cs {D} (id def mode : Z) (s : SifiveSpiController D) : SifiveSpiController D :=
  Build_SifiveSpiController (sckdiv s) (sckmode s) id def mode (delay0 s) (delay1 s) (fmt s) (txmark s) (rxmark s)
    (fctrl s) (ffmt s) (ie s) (ip s) (rx_fifo s) (irq_id s) (slaves s).
Definition set_marks {D} (tx rx fc ff : Z) (s : SifiveSpiController D) : SifiveSpiController D :=
  Build_SifiveSpiController (sckdiv s) (sckmode s) (csid s) (csdef s) (csmode s) (delay0 s) (delay1 s) (fmt s)
    tx rx fc ff (ie s) (ip s) (rx_fifo s) (irq_id s) (slaves s).
Definition set_irqs {D} (e p : Z) (s : SifiveSpiController D) : SifiveSpiController D :=
  Build_SifiveSpiController (sckdiv s) (sckmode s) (csid s) (csdef s) (csmode s) (delay0 s) (delay1 s) (fmt s)
    (txmark s) (rxmark s) (fctrl s) (ffmt s) e p (rx_fifo s) (irq_id s) (slaves s).
Definition set_rx_fifo {D} (l : list Z) (s : SifiveSpiController D) : SifiveSpiController D :=
  Build_SifiveSpiController (sckdiv s) (sckmode s) (csid s) (csdef s) (csmode s) (delay0 s) (delay1 s) (fmt s)
    (txmark s) (rxmark s) (fctrl s) (ffmt s) (ie s) (ip s) l (irq_id s) (slaves s).
Definition set_slaves {D} (l : list (option D)) (s : SifiveSpiController D) : SifiveSpiController D :=
  Build_SifiveSpiController (sckdiv s) (sckmode s) (csid s) (csdef s) (csmode s) (delay0 s) (delay1 s) (fmt s)
    (txmark s) (rxmark s) (fctrl s) (ffmt s) (ie s) (ip s) (rx_fifo s) (irq_id s) l.

Definition cs_mask (chip_selects : nat) : Z :=
  if 32 <=? Z.of_nat chip_selects then Z.ones 32 else Z.shiftl 1 (Z.of_nat chip_selects) - 1.

Definition with_irq {D} (cs_num : nat) (irq : option Z) : SifiveSpiController D := {|
  sckdiv := 0; sckmode := 0; csid := 0; csdef := cs_mask cs_num; csmode := CSMODE_AUTO;
  delay0 := Z.lor 1 (Z.shiftl 1 16); delay1 := 1; fmt := Z.shiftl 8 FMT_LEN_OFFSET;
  txmark := 1; rxmark := 0; fctrl := 0; ffmt := 0; ie := 0; ip := IP_TXWM;
  rx_fifo := []; irq_id := irq; slaves := replicate cs_num None |}.

Definition SifiveSpiController_new {D} (cs_num : nat) : SifiveSpiController D := with_irq cs_num None.

Section Controller.
Context {D : Type} `{SpiSlaveDevice D}.
Local Notation Spi := (SifiveSpiController D).

Definition selected_chip (s : Spi) : option nat :=
  if (csmode s =? CSMODE_HOLD) && (csid s <? Z.of_nat (length (slaves s))) then Some (Z.to_nat (csid s)) else None.

(** [self.slaves[i].as_mut()] and a call on the slave, when there is one. *)
Definition with_slave {E A} (i : nat) (m : M D Empty_set A) : M Spi E (option A) :=
  fun s => match slaves s !! i with
           | None => (Panic, s)
           | Some None => (Ok None, s)
           | Some (Some d) => let '(r, d') := map_err never m d in
                              (res_map Some r, set_slaves (<[i := Some d']> (slaves s)) s)
           end.

Definition attach_slave (chip_select : nat) (device : D) : M Spi SifiveSpiAttachError unit :=
  selected <- gets (fun s => bool_decide (selected_chip s = Some chip_select)) ;;
  l <- gets slaves ;;
  match l !! chip_select with
  | None => err InvalidChipSelect
  | Some (Some _) => err ChipSelectInUse
  | Some None =>
      modify (set_slaves (<[chip_select := Some device]> l)) ;;;
      if selected then with_slave chip_select (set_selected true) ;;; ret tt else ret tt
  end.

Definition update_selected_chip {E} (old_selected new_selected : option nat) : M Spi E unit :=
  if bool_decide (old_selected = new_selected) then ret tt else
  (match old_selected with Some old => with_slave old (set_selected false) ;;; ret tt | None => ret tt end) ;;;
  match new_selected with Some new => with_slave new (set_selected true) ;;; ret tt | None => ret tt end.

Definition set_csid {E} (value : Z) : M Spi E unit :=
  old_selected <- gets selected_chip ;;
  modify (fun s => set_cs (Z.min value (wrap 32 (Z.of_nat (length (slaves s) - 1)))) (csdef s) (csmode s) s) ;;;
  new_selected <- gets selected_chip ;;
  update_selected_chip old_selected new_selected.

Definition set_csmode {E} (value : Z) : M Spi E unit :=
  old_selected <- gets selected_chip ;;
  modify (fun s => set_cs (csid s) (csdef s) (Z.land value CSMODE_MASK) s) ;;;
  new_selected <- gets selected_chip ;;
  update_selected_chip old_selected new_selected.

Definition lsb_first (s : Spi) : bool := negb (Z.land (fmt s) FMT_ENDIAN =? 0).
Definition rx_enabled (s : Spi) : bool := Z.land (fmt s) FMT_DIR =? 0.
Definition tx_full (_ : Spi) : bool := false.
Definition tx_watermark_pending (_ : Spi) : bool := true.
Definition rx_watermark_pending (s : Spi) : bool := rxmark s <? Z.of_nat (length (rx_fifo s)).

Definition refresh_ip (s : Spi) : Spi :=
  let pending := 0 in
  let pending := if tx_watermark_pending s then Z.lor pending IP_TXWM else pending in
  let pending := if rx_watermark_pending s then Z.lor pending IP_RXWM else pending in
  set_irqs (ie s) pending s.

Definition transfer_byte {E} (value : Z) : M Spi E unit :=
  sel <- gets selected_chip ;;
  match sel with
  | None => ret tt
  | Some chip_select =>
      lsb <- gets lsb_first ;;
      rx <- with_slave chip_select (transfer (if lsb : bool then reverse_bits value else value)) ;;
      match rx with
      | None => ret tt
      | Some rx =>
          modify (fun s =>
            if rx_enabled s && (Z.of_nat (length (rx_fifo s)) <? SIFIVE_SPI_DEFAULT_FIFO_DEPTH)
            then set_rx_fifo (rx_fifo s ++ [if lsb then reverse_bits rx else rx]) s else s)
      end
  end.

Definition read_rxdata {E} : M Spi E Z :=
  l <- gets rx_fifo ;;
  match l with
  | data :: rest => modify (fun s => refresh_ip (set_rx_fifo rest s)) ;;; ret data
  | [] => ret RXDATA_EMPTY
  end.

Definition read_register (addr : Z) : M Spi MemError Z :=
  if addr =? SCKDIV then gets sckdiv
  else if addr =? SCKMODE then gets sckmode
  else if addr =? CSID then gets csid
  else if addr =? CSDEF then gets csdef
  else if addr =? CSMODE then gets csmode
  else if addr =? DELAY0 then gets delay0
  else if addr =? DELAY1 then gets delay1
  else if addr =? FMT then gets fmt
  else if addr =? TXDATA then gets (fun s => if tx_full s then TXDATA_FULL else 0)
  else if addr =? RXDATA then read_rxdata
  else if addr =? TXMARK then gets txmark
  else if addr =? RXMARK then gets rxmark
  else if addr =? FCTRL then gets fctrl
  else if addr =? FFMT then gets ffmt
  else if addr =? IE then gets ie
  else if addr =? IP then modify refresh_ip ;;; gets ip
  else err MemLoadFault.

Definition write_register (addr value : Z) : M Spi MemError unit :=
  if addr =? SCKDIV then
    modify (fun s => set_clocking (Z.land value 0xfff) (sckmode s) (delay0 s) (delay1 s) (fmt s) s)
  else if addr =? SCKMODE then
    modify (fun s => set_clocking (sckdiv s) (Z.land value SCKMODE_MASK) (delay0 s) (delay1 s) (fmt s) s)
  else if addr =? CSID then set_csid value
  else if addr =? CSDEF then
    modify (fun s => set_cs (csid s) (Z.land value (cs_mask (length (slaves s)))) (csmode s) s)
  else if addr =? CSMODE then set_csmode value
  else if addr =? DELAY0 then
    modify (fun s => set_clocking (sckdiv s) (sckmode s)
      (Z.land value (Z.lor DELAY0_CSSCK_MASK DELAY0_SCKCS_MASK)) (delay1 s) (fmt s) s)
  else if addr =? DELAY1 then
    modify (fun s => set_clocking (sckdiv s) (sckmode s) (delay0 s)
      (Z.land value (Z.lor DELAY1_INTERCS_MASK DELAY1_INTERXFR_MASK)) (fmt s) s)
  else if addr =? FMT then
    modify (fun s => set_clocking (sckdiv s) (sckmode s) (delay0 s) (delay1 s)
      (Z.land value (Z.lor (Z.lor (Z.lor FMT_PROTO_MASK FMT_ENDIAN) FMT_DIR) FMT_LEN_MASK)) s)
  else if addr =? TXDATA then transfer_byte (Z.land value TXDATA_DATA_MASK) ;;; modify refresh_ip
  else if addr =? TXMARK then
    modify (fun s => set_marks (Z.min value (SIFIVE_SPI_DEFAULT_FIFO_DEPTH - 1)) (rxmark s) (fctrl s) (ffmt s) s) ;;;
    modify refresh_ip
  else if addr =? RXMARK then
    modify (fun s => set_marks (txmark s) (Z.min value (SIFIVE_SPI_DEFAULT_FIFO_DEPTH - 1)) (fctrl s) (ffmt s) s) ;;;
    modify refresh_ip
  else if addr =? FCTRL then modify (fun s => set_marks (txmark s) (rxmark s) value (ffmt s) s)
  else if addr =? FFMT then modify (fun s => set_marks (txmark s) (rxmark s) (fctrl s) value s)
  else if addr =? IE then modify (fun s => set_irqs (Z.land value IP_MASK) (ip s) s)
  else if (addr =? RXDATA) || (addr =? IP) then err MemStoreFault
  else err MemStoreFault.

Definition spi_read_impl (t : UInt) (addr : Z) : M Spi MemError Z :=
  if (size_of t =? 4) && (addr mod 4 =? 0) then v <- read_register addr ;; ret (truncate_from t v)
  else err MemLoadFault.

Definition spi_write_impl (t : UInt) (addr data : Z) : M Spi MemError unit :=
  if (size_of t =? 4) && (addr mod 4 =? 0) then write_register addr (truncate_from U32 data)
  else err MemStoreFault.

Definition spi_read (addr len : Z) : M Spi MemError Z := dispatch_read spi_read_impl addr len.
Definition spi_write (addr len data : Z) : M Spi MemError unit := dispatch_write spi_write_impl addr len data.

(** [for slave in slaves.iter_mut().flatten()]. *)
Fixpoint sync_slaves (l : list (option D)) : Res Empty_set unit * list (option D) :=
  match l with
  | [] => (Ok tt, [])
  | None :: l => let '(r, l') := sync_slaves l in (r, None :: l')
  | Some d :: l => match sync d with
                   | (Ok _, d') => let '(r, l') := sync_slaves l in (r, Some d' :: l')
                   | (r, d') => (r, Some d' :: l)
                   end
  end.
Definition spi_sync : M Spi Empty_set unit :=
  fun s => let '(r, l) := sync_slaves (slaves s) in (r, set_slaves l s).
End Controller.
