(* ===== verification/SpiFlash.v ===== *)
(** * The W25Q512JVQ SPI NOR flash (src/src/device/spi/w25q512.rs)

    Commands arrive one byte at a time while the chip is selected; the state
    of the command in flight is [Transaction].  Reads answer from the backing
    file, erases run with the last address byte, page programs and status
    writes when the chip is deselected.  The backing file, [std::fs::File], is
    a parameter of class [StdFile]. *)

From S2P Require Import Prelude Utils Spi.

Definition W25Q512JVQ_CAPACITY : Z := 64 * 1024 * 1024.
Definition W25Q512JVQ_SECTOR_SIZE : Z := 4 * 1024.
Definition W25Q512JVQ_BLOCK_32K_SIZE : Z := 32 * 1024.
Definition W25Q512JVQ_BLOCK_64K_SIZE : Z := 64 * 1024.
Definition W25Q512JVQ_PAGE_SIZE : Z := 256.
Definition W25Q512JVQ_JEDEC_ID : list Z := [0xef; 0x40; 0x20].
Definition ERASED_BYTE : Z := 0xff.

(** ** Commands *)
Definition WRITE_ENABLE : Z := 0x06.
Definition WRITE_DISABLE : Z := 0x04.
Definition READ_STATUS1 : Z := 0x05.
Definition READ_STATUS2 : Z := 0x35.
Definition READ_STATUS3 : Z := 0x15.
Definition WRITE_STATUS1_2 : Z := 0x01.
Definition WRITE_STATUS2 : Z := 0x31.
Definition WRITE_STATUS3 : Z := 0x11.
Definition READ_DATA : Z := 0x03.
Definition READ_DATA_4B : Z := 0x13.
Definition FAST_READ : Z := 0x0b.
Definition FAST_READ_4B : Z := 0x0c.
Definition PAGE_PROGRAM : Z := 0x02.
Definition PAGE_PROGRAM_4B : Z := 0x12.
Definition SECTOR_ERASE_4K : Z := 0x20.
Definition SECTOR_ERASE_4K_4B : Z := 0x21.
Definition BLOCK_ERASE_32K : Z := 0x52.
Definition BLOCK_ERASE_64K : Z := 0xd8.
Definition BLOCK_ERASE_64K_4B : Z := 0xdc.
Definition CHIP_ERASE1 : Z := 0xc7.
Definition CHIP_ERASE2 : Z := 0x60.
Definition READ_JEDEC_ID : Z := 0x9f.
Definition READ_SFDP : Z := 0x5a.
Definition ENTER_4BYTE_ADDR : Z := 0xb7.
Definition EXIT_4BYTE_ADDR : Z := 0xe9.
Definition ENABLE_RESET : Z := 0x66.
Definition RESET_DEVICE : Z := 0x99.

Definition BUSY : Z := Z.shiftl 1 0.
Definition WRITE_ENABLE_LATCH : Z := Z.shiftl 1 1.
Definition QUAD_ENABLE : Z := Z.shiftl 1 1.

Inductive AddressKind : Type := Current | ThreeByte | FourByte.

Definition AddressKind_len (kind : AddressKind) (four_byte_address_mode : bool) : nat :=
  match kind with
  | Current => if four_byte_address_mode then 4 else 3
  | ThreeByte => 3
  | FourByte => 4
  end.

Inductive AddressAction : Type :=
| Read (dummy_len : Z)
| Program
| Erase (len : Z)
| Sfdp.

Inductive StatusWriteTarget : Type := Status1And2 | Status2 | Status3.

Inductive Transaction : Type :=
| Idle
| Ignore
| ReadStatus1
| ReadStatus2
| ReadStatus3
| ReadJedecId (index : Z)
| CollectAddress (action : AddressAction) (addr_len : nat) (buf : list Z)
| Dummy (action : AddressAction) (address remaining : Z)
| ReadData (next_addr : Z)
| ReadSfdp (next_addr : Z)
| PageProgram (start_addr : Z) (data : list Z)
| WriteStatus (target : StatusWriteTarget) (data : list Z).

(** ** The backing file: [seek] to an offset and to the end, [set_len],
    [read_exact], [write_all] and [flush] of [std::fs::File]; [None] is an
    [io::Error]. *)
Class StdFile (F : Type) : Type := {
  seek_start : Z -> F -> option unit * F;
  seek_end : F -> option Z * F;
  set_len : Z -> F -> option unit * F;
  read_exact : nat -> F -> option (list Z) * F;
  write_all : list Z -> F -> option unit * F;
  flush : F -> option unit * F
}.

Inductive IoError : Type := IoErr.

Definition io {F A} (op : F -> option A * F) : M F IoError A :=
  fun f => let '(r, f') := op f in (match r with Some a => Ok a | None => Err IoErr end, f').

(** [if let Err(error) = ... { log::error!(...) }]. *)
Definition log_err {S} (m : M S IoError unit) : M S Empty_set unit :=
  fun s => match m s with
           | (Ok _, s') => (Ok tt, s')
           | (Err _, s') => (Ok tt, s')
           | (Panic, s') => (Panic, s')
           end.

Record W25Q512JVQ (F : Type) : Type := {
  file : F;
  capacity : Z;
  transaction : Transaction;
  status1 : Z;
  status2 : Z;
  status3 : Z;
  four_byte_address_mode : bool;
  reset_enabled : bool
}.
Arguments Build_W25Q512JVQ {F}.
Arguments file {F}.
Arguments capacity {F}.
Arguments transaction {F}.
Arguments status1 {F}.
Arguments status2 {F}.
Arguments status3 {F}.
Arguments four_byte_address_mode {F}.
Arguments reset_enabled {F}.

Section Flash.
Context `{Profile} {F : Type} `{StdFile F}.
Local Notation Flash := (W25Q512JVQ F).

Definition set_file (f : F) (s : Flash) : Flash :=
  Build_W25Q512JVQ f (capacity s) (transaction s) (status1 s) (status2 s) (status3 s) (four_byte_address_mode s) (reset_enabled s).
Definition set_transaction (t : Transaction) (s : Flash) : Flash :=
  Build_W25Q512JVQ (file s) (capacity s) t (status1 s) (status2 s) (status3 s) (four_byte_address_mode s) (reset_enabled s).
Definition set_status (s1 s2 s3 : Z) (s : Flash) : Flash :=
  Build_W25Q512JVQ (file s) (capacity s) (transaction s) s1 s2 s3 (four_byte_address_mode s) (reset_enabled s).
Definition set_modes (four reset : bool) (s : Flash) : Flash :=
  Build_W25Q512JVQ (file s) (capacity s) (transaction s) (status1 s) (status2 s) (status3 s) four reset.

Definition on_file {E A} (m : M F E A) : M Flash E A := zoom file (fun s f => set_file f s) m.

(** ** The backing file *)

Definition CHUNK_LEN : Z := 16 * 1024.

(** The loop of [fill_file_range]; the fuel bounds the number of chunks. *)
Fixpoint fill_loop (fuel : nat) (remaining value : Z) : M F IoError unit :=
  match fuel with
  | O => panic
  | S fuel =>
      if remaining =? 0 then ret tt else
      let write_len := Z.min remaining CHUNK_LEN in
      io (write_all (take (Z.to_nat write_len) (replicate (Z.to_nat CHUNK_LEN) value))) ;;;
      remaining <- sub_chk 64 remaining write_len ;;
      fill_loop fuel remaining value
  end.

Definition fill_file_range (offset len value : Z) : M F IoError unit :=
  io (seek_start offset) ;;;
  fill_loop (Z.to_nat (len / CHUNK_LEN + 2)) len value.

Definition ensure_capacity (cap : Z) : M F IoError unit :=
  old_len <- io seek_end ;;
  if cap <=? old_len then ret tt else
  io (set_len cap) ;;;
  len <- sub_chk 64 cap old_len ;;
  fill_file_range old_len len ERASED_BYTE.

(** The file is the one [OpenOptions::open] returned. *)
Definition with_capacity (f : F) (cap : Z) : Res IoError Flash :=
  match ensure_capacity cap f with
  | (Ok _, f') => Ok (Build_W25Q512JVQ f' cap Idle 0 QUAD_ENABLE 0 false false)
  | (Err e, _) => Err e
  | (Panic, _) => Panic
  end.

Definition W25Q512JVQ_new (f : F) : Res IoError Flash := with_capacity f W25Q512JVQ_CAPACITY.

Definition capacity_bytes (s : Flash) : Z := capacity s.
Definition capacity_sectors (s : Flash) : Z := capacity s / W25Q512JVQ_SECTOR_SIZE.
Definition page_size (_ : Flash) : Z := W25Q512JVQ_PAGE_SIZE.

Definition read_byte (addr : Z) : M Flash Empty_set Z :=
  cap <- gets capacity ;;
  if cap <=? addr then ret ERASED_BYTE else
  on_file (fun f =>
    match (io (seek_start addr) ;;; io (read_exact 1)) f with
    | (Ok byte, f') => (Ok (nth 0 byte ERASED_BYTE), f')
    | (Err _, f') => (Ok ERASED_BYTE, f')
    | (Panic, f') => (Panic, f')
    end).

Definition write_nor_bytes (addr : Z) (data : list Z) : M Flash IoError unit :=
  cap <- gets capacity ;;
  if (cap <=? addr) || bool_decide (data = []) then ret tt else
  room <- sub_chk 64 cap addr ;;
  let write_len := Nat.min (length data) (Z.to_nat room) in
  on_file (io (seek_start addr)) ;;;
  old <- on_file (io (read_exact write_len)) ;;
  let new := zip_with Z.land old (take write_len data) ++ drop (length (take write_len data)) old in
  on_file (io (seek_start addr)) ;;;
  on_file (io (write_all new)).

Definition erase_range (addr len : Z) : M Flash IoError unit :=
  cap <- gets capacity ;;
  if cap <=? addr then ret tt else
  mask <- sub_chk 64 len 1 ;;
  let start := Z.land addr (bnot 64 mask) in
  room <- sub_chk 64 cap start ;;
  on_file (fill_file_range start (Z.min len room) ERASED_BYTE).

(** ** Commands *)

Definition write_enable (enabled : bool) (s : Flash) : Flash :=
  set_status (if enabled then Z.lor (status1 s) WRITE_ENABLE_LATCH else Z.land (status1 s) (bnot 8 WRITE_ENABLE_LATCH))
    (status2 s) (status3 s) s.
Definition write_is_enabled (s : Flash) : bool := negb (Z.land (status1 s) WRITE_ENABLE_LATCH =? 0).

Definition reset (s : Flash) : Flash :=
  let s := set_transaction Idle s in
  let s := set_status (Z.land (status1 s) (bnot 8 BUSY)) (status2 s) (status3 s) s in
  let s := write_enable false s in
  set_modes false false s.

Definition ignore_until_deselect (s : Flash) : Flash := set_transaction Ignore s.

Definition collect_address (action : AddressAction) (kind : AddressKind) (s : Flash) : Flash :=
  set_transaction (CollectAddress action (AddressKind_len kind (four_byte_address_mode s)) []) s.
Definition collect_read (dummy_len : Z) (kind : AddressKind) (s : Flash) : Flash :=
  collect_address (Read dummy_len) kind s.
Definition collect_write_address (action : AddressAction) (kind : AddressKind) (s : Flash) : Flash :=
  if write_is_enabled s then collect_address action kind s else ignore_until_deselect s.
Definition collect_program (kind : AddressKind) (s : Flash) : Flash := collect_write_address Program kind s.
Definition collect_erase (len : Z) (kind : AddressKind) (s : Flash) : Flash := collect_write_address (Erase len) kind s.
Definition collect_status_write (target : StatusWriteTarget) (s : Flash) : Flash :=
  if write_is_enabled s then set_transaction (WriteStatus target []) s else ignore_until_deselect s.

(** The erase a guarded command runs: only with the latch set, which it clears. *)
Definition guarded_erase (addr len : Z) : M Flash Empty_set unit :=
  enabled <- gets write_is_enabled ;;
  (if enabled : bool then log_err (erase_range addr len) ;;; modify (write_enable false) else ret tt) ;;;
  modify ignore_until_deselect.

Definition start_command (opcode : Z) : M Flash Empty_set unit :=
  modify (set_transaction Idle) ;;;
  if opcode =? WRITE_ENABLE then modify (write_enable true) ;;; modify ignore_until_deselect
  else if opcode =? WRITE_DISABLE then modify (write_enable false) ;;; modify ignore_until_deselect
  else if opcode =? READ_STATUS1 then modify (set_transaction ReadStatus1)
  else if opcode =? READ_STATUS2 then modify (set_transaction ReadStatus2)
  else if opcode =? READ_STATUS3 then modify (set_transaction ReadStatus3)
  else if opcode =? READ_JEDEC_ID then modify (set_transaction (ReadJedecId 0))
  else if opcode =? READ_DATA then modify (collect_read 0 Current)
  else if opcode =? READ_DATA_4B then modify (collect_read 0 FourByte)
  else if opcode =? FAST_READ then modify (collect_read 1 Current)
  else if opcode =? FAST_READ_4B then modify (collect_read 1 FourByte)
  else if opcode =? PAGE_PROGRAM then modify (collect_program Current)
  else if opcode =? PAGE_PROGRAM_4B then modify (collect_program FourByte)
  else if opcode =? SECTOR_ERASE_4K then modify (collect_erase W25Q512JVQ_SECTOR_SIZE Current)
  else if opcode =? SECTOR_ERASE_4K_4B then modify (collect_erase W25Q512JVQ_SECTOR_SIZE FourByte)
  else if opcode =? BLOCK_ERASE_32K then modify (collect_erase W25Q512JVQ_BLOCK_32K_SIZE Current)
  else if opcode =? BLOCK_ERASE_64K then modify (collect_erase W25Q512JVQ_BLOCK_64K_SIZE Current)
  else if opcode =? BLOCK_ERASE_64K_4B then modify (collect_erase W25Q512JVQ_BLOCK_64K_SIZE FourByte)
  else if (opcode =? CHIP_ERASE1) || (opcode =? CHIP_ERASE2) then
    cap <- gets capacity ;; guarded_erase 0 cap
  else if opcode =? READ_SFDP then modify (collect_address Sfdp ThreeByte)
  else if opcode =? ENTER_4BYTE_ADDR then
    modify (fun s => set_modes true (reset_enabled s) s) ;;; modify ignore_until_deselect
  else if opcode =? EXIT_4BYTE_ADDR then
    modify (fun s => set_modes false (reset_enabled s) s) ;;; modify ignore_until_deselect
  else if opcode =? WRITE_STATUS1_2 then modify (collect_status_write Status1And2)
  else if opcode =? WRITE_STATUS2 then modify (collect_status_write Status2)
  else if opcode =? WRITE_STATUS3 then modify (collect_status_write Status3)
  else if opcode =? ENABLE_RESET then
    modify (fun s => set_modes (four_byte_address_mode s) true s) ;;; modify ignore_until_deselect
  else
    armed <- gets reset_enabled ;;
    if (opcode =? RESET_DEVICE) && armed then modify reset ;;; modify ignore_until_deselect
    else modify ignore_until_deselect.

Definition address_from_bytes (buf : list Z) : Z :=
  fold_left (fun addr byte => Z.lor (shl 64 addr 8) byte) buf 0.

Definition on_address_complete (action : AddressAction) (address : Z) : M Flash Empty_set unit :=
  match action with
  | Read dummy_len =>
      if dummy_len =? 0 then modify (set_transaction (ReadData address))
      else modify (set_transaction (Dummy action address dummy_len))
  | Program =>
      enabled <- gets write_is_enabled ;;
      if enabled : bool then modify (set_transaction (PageProgram address [])) else modify ignore_until_deselect
  | Erase len => guarded_erase address len
  | Sfdp => modify (set_transaction (Dummy action address 1))
  end.

(** [b"SFDP"], then the revision and an empty parameter table. *)
Definition read_sfdp_byte (addr : Z) : Z :=
  if addr <=? 3 then nth (Z.to_nat addr) [83; 70; 68; 80] 0
  else if addr =? 4 then 0x06
  else if addr =? 5 then 0x01
  else if addr =? 6 then 0x00
  else if addr =? 7 then 0xff
  else 0xff.

(** [for (idx, byte) in data.iter().enumerate()]: the offset wraps in the page. *)
Fixpoint page_loop (start_addr idx : Z) (data page : list Z) : M Flash Empty_set (list Z) :=
  match data with
  | [] => ret page
  | byte :: data =>
      at_ <- add_chk 64 start_addr idx ;;
      let page_offset := Z.land at_ (W25Q512JVQ_PAGE_SIZE - 1) in
      page_loop start_addr (idx + 1) data (<[Z.to_nat page_offset := byte]> page)
  end.

Definition finish_page_program (start_addr : Z) (data : list Z) : M Flash Empty_set unit :=
  if bool_decide (data = []) then modify (write_enable false) else
  let page_base := Z.land start_addr (bnot 64 (W25Q512JVQ_PAGE_SIZE - 1)) in
  page <- page_loop start_addr 0 data (replicate (Z.to_nat W25Q512JVQ_PAGE_SIZE) ERASED_BYTE) ;;
  log_err (write_nor_bytes page_base page) ;;;
  modify (write_enable false).

Definition finish_status_write (target : StatusWriteTarget) (data : list Z) (s : Flash) : Flash :=
  let s :=
    match target with
    | Status1And2 =>
        let s := match data !! 0%nat with
                 | Some v => set_status (Z.land v (bnot 8 BUSY)) (status2 s) (status3 s) s | None => s end in
        match data !! 1%nat with Some v => set_status (status1 s) v (status3 s) s | None => s end
    | Status2 => match data !! 0%nat with Some v => set_status (status1 s) v (status3 s) s | None => s end
    | Status3 => match data !! 0%nat with Some v => set_status (status1 s) (status2 s) v s | None => s end
    end in
  write_enable false s.

(** [mem::replace(&mut self.transaction, Transaction::Idle)]. *)
Definition take_transaction : M Flash Empty_set Transaction :=
  t <- gets transaction ;; modify (set_transaction Idle) ;;; ret t.

Definition finish_transaction : M Flash Empty_set unit :=
  t <- take_transaction ;;
  match t with
  | PageProgram start_addr data => finish_page_program start_addr data
  | WriteStatus target data => modify (finish_status_write target data)
  | _ => ret tt
  end.

(** ** The slave *)

Definition flash_transfer (mosi : Z) : M Flash Empty_set Z :=
  t <- take_transaction ;;
  match t with
  | Idle => start_command mosi ;;; ret 0
  | Ignore => modify (set_transaction Ignore) ;;; ret 0
  | ReadStatus1 => modify (set_transaction ReadStatus1) ;;; gets status1
  | ReadStatus2 => modify (set_transaction ReadStatus2) ;;; gets status2
  | ReadStatus3 => modify (set_transaction ReadStatus3) ;;; gets status3
  | ReadJedecId index =>
      next <- add_chk 64 index 1 ;;
      modify (set_transaction (ReadJedecId next)) ;;;
      ret (nth (Z.to_nat (index mod Z.of_nat (length W25Q512JVQ_JEDEC_ID))) W25Q512JVQ_JEDEC_ID 0)
  | CollectAddress action addr_len buf =>
      let buf := buf ++ [mosi] in
      (if bool_decide (length buf = addr_len) then on_address_complete action (address_from_bytes buf)
       else modify (set_transaction (CollectAddress action addr_len buf))) ;;;
      ret 0
  | Dummy action address remaining =>
      (if 1 <? remaining then modify (set_transaction (Dummy action address (remaining - 1)))
       else match action with
            | Read _ => modify (set_transaction (ReadData address))
            | Sfdp => modify (set_transaction (ReadSfdp (wrap 32 address)))
            | Program | Erase _ => ret tt
            end) ;;;
      ret 0
  | ReadData next_addr =>
      modify (set_transaction (ReadData (wrap 64 (next_addr + 1)))) ;;;
      read_byte next_addr
  | ReadSfdp next_addr =>
      modify (set_transaction (ReadSfdp (wrap 32 (next_addr + 1)))) ;;;
      ret (read_sfdp_byte next_addr)
  | PageProgram start_addr data => modify (set_transaction (PageProgram start_addr (data ++ [mosi]))) ;;; ret 0
  | WriteStatus target data => modify (set_transaction (WriteStatus target (data ++ [mosi]))) ;;; ret 0
  end.

Definition flash_set_selected (selected : bool) : M Flash Empty_set unit :=
  if selected then modify (set_transaction Idle) else finish_transaction.

Definition flash_sync : M Flash Empty_set unit := log_err (on_file (io flush)).
End Flash.

#[global] Instance flash_slave `{Profile} {F} `{StdFile F} : SpiSlaveDevice (W25Q512JVQ F) := {|
  transfer := flash_transfer;
  set_selected := flash_set_selected;
  sync := flash_sync
|}.
