(* ===== verification/SpiStore.v ===== *)
(** * The flash and its backing file (src/src/device/spi/w25q512.rs)

    [nor_session] is the chip as its driver sees it: one frame, from the edge
    that selects the chip to the edge that deselects it, is one command, whose
    answer and effect on the cells are functions of the whole frame.
    [StdFileLaws] states what the backing file promises.  [nor_of] reads a
    device as this abstract chip.  With a file whose calls succeed, reading, programming and erasing do to the chip's
    cells what the specification says, and nothing to the bytes of the file
    past the chip. *)

From S2P Require Import Prelude Utils Spi SpiFlash.

(** ** What an SPI NOR flash promises *)
(** ** The abstract chip *)
Record Nor : Type := {
  cells : list Z;
  n_status1 : Z;
  n_status2 : Z;
  n_status3 : Z;
  four_byte : bool;
  reset_armed : bool
}.

Definition n_set_status (s1 s2 s3 : Z) (n : Nor) : Nor :=
  Build_Nor (cells n) s1 s2 s3 (four_byte n) (reset_armed n).
Definition n_set_modes (four armed : bool) (n : Nor) : Nor :=
  Build_Nor (cells n) (n_status1 n) (n_status2 n) (n_status3 n) four armed.
Definition n_set_cells (c : list Z) (n : Nor) : Nor :=
  Build_Nor c (n_status1 n) (n_status2 n) (n_status3 n) (four_byte n) (reset_armed n).

(** The write enable latch is bit 1 of status register 1. *)
Definition latch (n : Nor) : bool := Z.testbit (n_status1 n) 1.
Definition set_latch (b : bool) (n : Nor) : Nor :=
  n_set_status (if b then Z.setbit (n_status1 n) 1 else Z.clearbit (n_status1 n) 1) (n_status2 n) (n_status3 n) n.

(** A cell past the end reads as erased. *)
Definition n_read (n : Nor) (addr : Z) : Z := nth (Z.to_nat addr) (cells n) 0xFF.

(** The byte of [data] that lands [k] bytes after the start address in a page
    of 256: of those that wrap around to it, the last one sent. *)
Definition latest (k : nat) (data : list Z) : option Z :=
  if (k <? length data)%nat then data !! (k + 256 * ((length data - 1 - k) / 256))%nat else None.

(** Programming clears bits, in the page of [addr] only. *)
Definition n_program (addr : Z) (data : list Z) (n : Nor) : Nor :=
  n_set_cells (imap (fun i old =>
    if Z.of_nat i / 256 =? addr / 256
    then Z.land old (default 0xFF (latest (Z.to_nat ((Z.of_nat i - addr) mod 256)) data)) else old) (cells n)) n.

(** Erasing sets the aligned block around [addr] to 0xFF; an address past the
    end erases nothing. *)
Definition n_erase (addr len : Z) (n : Nor) : Nor :=
  if addr <? Z.of_nat (length (cells n))
  then n_set_cells (imap (fun i old => if Z.of_nat i / len =? addr / len then 0xFF else old) (cells n)) n else n.

(** ** Commands *)
Inductive StatusReg : Type := SR1 | SR2 | SR3.
Definition n_status (r : StatusReg) (n : Nor) : Z :=
  match r with SR1 => n_status1 n | SR2 => n_status2 n | SR3 => n_status3 n end.

Inductive NorCommand : Type :=
| CLatch (b : bool)
| CStatus (r : StatusReg)
| CJedec
| CRead (dummy : nat) (kind : AddressKind)
| CProgram (kind : AddressKind)
| CErase (len : Z) (kind : AddressKind)
| CChipErase
| CSfdp
| CAddrMode (four : bool)
| CWriteStatus (target : StatusWriteTarget)
| CArmReset
| CReset
| CNop.

Definition nor_table : list (Z * NorCommand) := [
  (0x06, CLatch true); (0x04, CLatch false);
  (0x05, CStatus SR1); (0x35, CStatus SR2); (0x15, CStatus SR3); (0x9f, CJedec);
  (0x03, CRead 0 Current); (0x13, CRead 0 FourByte); (0x0b, CRead 1 Current); (0x0c, CRead 1 FourByte);
  (0x02, CProgram Current); (0x12, CProgram FourByte);
  (0x20, CErase 4096 Current); (0x21, CErase 4096 FourByte); (0x52, CErase 32768 Current);
  (0xd8, CErase 65536 Current); (0xdc, CErase 65536 FourByte); (0xc7, CChipErase); (0x60, CChipErase);
  (0x5a, CSfdp); (0xb7, CAddrMode true); (0xe9, CAddrMode false);
  (0x01, CWriteStatus Status1And2); (0x31, CWriteStatus Status2); (0x11, CWriteStatus Status3);
  (0x66, CArmReset); (0x99, CReset) ].

Fixpoint nor_find (op : Z) (t : list (Z * NorCommand)) : NorCommand :=
  match t with [] => CNop | (k, c) :: t => if op =? k then c else nor_find op t end.
Definition nor_decode (op : Z) : NorCommand := nor_find op nor_table.

Definition be_value (bs : list Z) : Z := fold_left (fun v b => 256 * v + b) bs 0.

Definition n_write_status (t : StatusWriteTarget) (data : list Z) (n : Nor) : Nor :=
  match t, data with
  | _, [] => n
  | Status1And2, [a] => n_set_status (Z.clearbit a 0) (n_status2 n) (n_status3 n) n
  | Status1And2, a :: b :: _ => n_set_status (Z.clearbit a 0) b (n_status3 n) n
  | Status2, a :: _ => n_set_status (n_status1 n) a (n_status3 n) n
  | Status3, a :: _ => n_set_status (n_status1 n) (n_status2 n) a n
  end.

Definition n_reset (n : Nor) : Nor :=
  n_set_modes false false (n_set_status (Z.clearbit (Z.clearbit (n_status1 n) 0) 1) (n_status2 n) (n_status3 n) n).

Definition zeros (l : list Z) : list Z := replicate (length l) 0.

(** [nor_answer n c args]: what follows the zero that answers the opcode. *)
Definition nor_answer (n : Nor) (c : NorCommand) (args : list Z) : list Z :=
  match c with
  | CStatus r => replicate (length args) (n_status r n)
  | CJedec => imap (fun i _ => nth (i mod 3) [0xef; 0x40; 0x20] 0) args
  | CRead dummy kind =>
      let a := AddressKind_len kind (four_byte n) in
      zeros (take (a + dummy) args) ++ imap (fun i _ => n_read n (be_value (take a args) + Z.of_nat i)) (drop (a + dummy) args)
  | CSfdp =>
      zeros (take 4 args) ++
      imap (fun i _ => nth (Z.to_nat (be_value (take 3 args) + Z.of_nat i)) [83; 70; 68; 80; 6; 1; 0] 0xFF) (drop 4 args)
  | _ => zeros args
  end.

(** The chip after the frame. *)
Definition nor_effect (n : Nor) (c : NorCommand) (args : list Z) : Nor :=
  match c with
  | CLatch b => set_latch b n
  | CProgram kind =>
      let a := AddressKind_len kind (four_byte n) in
      if latch n && (a <=? length args)%nat then set_latch false (n_program (be_value (take a args)) (drop a args) n) else n
  | CErase len kind =>
      let a := AddressKind_len kind (four_byte n) in
      if latch n && (a <=? length args)%nat then set_latch false (n_erase (be_value (take a args)) len n) else n
  | CChipErase => if latch n then set_latch false (n_set_cells (replicate (length (cells n)) 0xFF) n) else n
  | CAddrMode four => n_set_modes four (reset_armed n) n
  | CWriteStatus t => if latch n then set_latch false (n_write_status t args n) else n
  | CArmReset => n_set_modes (four_byte n) true n
  | CReset => if reset_armed n then n_reset n else n
  | _ => n
  end.

Definition nor_session (n : Nor) (frame : list Z) : list Z * Nor :=
  match frame with
  | [] => ([], n)
  | op :: args => (0 :: nor_answer n (nor_decode op) args, nor_effect n (nor_decode op) args)
  end.

(** ** Sessions of a slave *)
Section Session.
Context {D : Type} `{SpiSlaveDevice D}.

Fixpoint transfers (bytes : list Z) : M D Empty_set (list Z) :=
  match bytes with
  | [] => ret []
  | b :: bytes => o <- transfer b ;; out <- transfers bytes ;; ret (o :: out)
  end.

(** Select, clock the bytes of a frame, deselect. *)
Definition slave_session (frame : list Z) : M D Empty_set (list Z) :=
  set_selected true ;;; out <- transfers frame ;; set_selected false ;;; ret out.
End Session.

(** ** What the backing file promises

    [std::fs::File]: a seek sets the position; [read_exact] returns the bytes
    at the position or fails; a successful [write_all] puts the bytes at the
    position and moves past them; [set_len] cuts the file or extends it with
    zeros.  A failed write may have changed anything.  [sf_wf] is the file's
    own invariant. *)
Class StdFileLaws (F : Type) `{StdFile F} : Type := {
  sf_wf : F -> Prop;
  sf_bytes : F -> list Z;
  sf_pos : F -> Z;
  sf_bytes_ok : forall f, sf_wf f -> Forall (uint 8) (sf_bytes f);
  seek_start_law : forall o f r f', sf_wf f -> 0 <= o -> seek_start o f = (r, f') ->
    sf_wf f' /\ sf_bytes f' = sf_bytes f /\ (r = Some tt -> sf_pos f' = o);
  seek_end_law : forall f r f', sf_wf f -> seek_end f = (r, f') ->
    sf_wf f' /\ sf_bytes f' = sf_bytes f /\ forall n, r = Some n -> n = Z.of_nat (length (sf_bytes f));
  set_len_law : forall n f r f', sf_wf f -> 0 <= n -> set_len n f = (r, f') ->
    sf_wf f' /\ (r = Some tt -> sf_bytes f' =
      take (Z.to_nat n) (sf_bytes f) ++ replicate (Z.to_nat n - length (sf_bytes f)) 0);
  read_exact_law : forall n f r f', sf_wf f -> read_exact n f = (r, f') ->
    sf_wf f' /\ sf_bytes f' = sf_bytes f /\
    forall bs, r = Some bs -> length bs = n /\ bs = take n (drop (Z.to_nat (sf_pos f)) (sf_bytes f));
  write_all_law : forall bs f r f', sf_wf f -> Forall (uint 8) bs -> write_all bs f = (r, f') ->
    sf_wf f' /\ (r = Some tt -> 0 <= sf_pos f -> sf_pos f + Z.of_nat (length bs) <= Z.of_nat (length (sf_bytes f)) ->
      sf_bytes f' = overwrite (sf_bytes f) (Z.to_nat (sf_pos f)) bs /\ sf_pos f' = sf_pos f + Z.of_nat (length bs));
  flush_law : forall f r f', sf_wf f -> flush f = (r, f') -> sf_wf f' /\ sf_bytes f' = sf_bytes f
}.

(** A file whose calls succeed: any seek below [2^63], any read inside the
    file, any write inside it. *)
Class StdFileReliable (F : Type) `{StdFileLaws F} : Prop := {
  seek_start_reliable : forall o f, sf_wf f -> 0 <= o < 2 ^ 63 -> fst (seek_start o f) = Some tt;
  seek_end_reliable : forall f, sf_wf f -> exists n, fst (seek_end f) = Some n;
  set_len_reliable : forall n f, sf_wf f -> 0 <= n < 2 ^ 63 -> fst (set_len n f) = Some tt;
  read_exact_reliable : forall n f, sf_wf f -> 0 <= sf_pos f ->
    sf_pos f + Z.of_nat n <= Z.of_nat (length (sf_bytes f)) -> exists bs, fst (read_exact n f) = Some bs;
  write_all_reliable : forall bs f, sf_wf f -> 0 <= sf_pos f ->
    sf_pos f + Z.of_nat (length bs) <= Z.of_nat (length (sf_bytes f)) -> fst (write_all bs f) = Some tt
}.

(** ** A backing file in memory *)
Record ByteFile : Type := { bf_bytes : list Z; bf_pos : Z }.

Definition bf_at (f : ByteFile) (p : Z) : ByteFile := {| bf_bytes := bf_bytes f; bf_pos := p |}.

#[global] Instance byte_file : StdFile ByteFile := {|
  seek_start := fun o f => (Some tt, bf_at f o);
  seek_end := fun f => let n := Z.of_nat (length (bf_bytes f)) in (Some n, bf_at f n);
  set_len := fun n f => (Some tt, {| bf_bytes := take (Z.to_nat n) (bf_bytes f) ++
                                       replicate (Z.to_nat n - length (bf_bytes f)) 0; bf_pos := bf_pos f |});
  read_exact := fun n f =>
    let bs := take n (drop (Z.to_nat (bf_pos f)) (bf_bytes f)) in
    if (length bs =? n)%nat then (Some bs, bf_at f (bf_pos f + Z.of_nat n)) else (None, f);
  write_all := fun bs f => (Some tt, {| bf_bytes := overwrite (bf_bytes f) (Z.to_nat (bf_pos f)) bs;
                                        bf_pos := bf_pos f + Z.of_nat (length bs) |});
  flush := fun f => (Some tt, f)
|}.

#[global] Instance byte_file_laws : StdFileLaws ByteFile.
Proof.
  apply (Build_StdFileLaws ByteFile _ (fun f => Forall (uint 8) (bf_bytes f)) bf_bytes bf_pos).
  - done.
  - by intros o f r f' Hf _ [= <- <-].
  - intros f r f' Hf [= <- <-]. split_and!; [done..|]. by intros n [= <-].
  - intros n f r f' Hf Hn [= <- <-]. split; [|done]. cbn [bf_bytes]. apply list.Forall_app_2; [by apply list.Forall_take|].
    apply list.Forall_replicate. unfold uint. lia.
  - intros n f r f' Hf E. cbn in E. destruct (Nat.eqb_spec (length (take n (drop (Z.to_nat (bf_pos f)) (bf_bytes f)))) n);
      injection E as <- <-; split_and!; try done. by intros bs [= <-].
  - intros bs f r f' Hf Hbs [= <- <-]. split; [|done]. by apply overwrite_bytes.
  - by intros f r f' Hf [= <- <-].
Defined.

#[global] Instance byte_file_reliable : StdFileReliable ByteFile.
Proof.
  split; [done|by eexists|done| |done]. intros n f Hf Hp Hn. cbn [sf_pos sf_bytes byte_file_laws read_exact byte_file] in *.
  destruct (Nat.eqb_spec (length (take n (drop (Z.to_nat (bf_pos f)) (bf_bytes f)))) n) as [|Hl]; [by eexists|].
  rewrite length_take, length_drop in Hl. lia.
Qed.


#[local] Arguments Z.testbit : simpl never.
#[local] Arguments Z.land : simpl never.
#[local] Arguments Z.lor : simpl never.
#[local] Arguments Z.mul : simpl never.
#[local] Arguments Z.add : simpl never.
#[local] Arguments Z.pow : simpl never.
#[local] Arguments Z.div : simpl never.
#[local] Arguments Z.modulo : simpl never.
#[local] Arguments Z.to_nat : simpl never.
#[local] Arguments Z.of_nat : simpl never.

(** ** Bits and addresses *)

Lemma land_not_bit v i : uint 8 v -> 0 <= i -> Z.land v (bnot 8 (Z.shiftl 1 i)) = Z.clearbit v i.
Proof.
  intros Hv Hi. unfold Z.clearbit. bitwise j. destruct (Z.ltb_spec j 8); [done|].
  by rewrite (uint_testbit_high 8 v) by (done || lia).
Qed.

(** Rounding down to a power of two. *)
Lemma align_down a k : uint 64 a -> 0 <= k -> Z.land a (bnot 64 (2 ^ k - 1)) = a / 2 ^ k * 2 ^ k.
Proof.
  intros Ha Hk. rewrite <- Z.shiftr_div_pow2, <- Z.shiftl_mul_pow2 by lia.
  replace (2 ^ k - 1) with (Z.ones k) by (rewrite Z.ones_equiv; lia).
  bitwise j. destruct (Z.ltb_spec j 64).
  - destruct (Z.ltb_spec j k); simpl.
    + rewrite andb_false_r, Z.testbit_neg_r by lia. done.
    + rewrite andb_true_r. rewrite Z.shiftr_spec by lia. f_equal. lia.
  - rewrite (uint_testbit_high 64 a j) by (done || lia). simpl. destruct (Z.lt_ge_cases j k).
    + by rewrite Z.testbit_neg_r by lia.
    + rewrite Z.shiftr_spec by lia. by rewrite (uint_testbit_high 64 a) by (done || lia).
Qed.

Lemma land_pow2_low a k : 0 <= k -> Z.land a (2 ^ k - 1) = a mod 2 ^ k.
Proof. intros Hk. rewrite <- Z.land_ones by done. rewrite Z.ones_equiv. done. Qed.

(** Up to four address bytes. *)
Lemma be_value_snoc bs b : be_value (bs ++ [b]) = 256 * be_value bs + b.
Proof. unfold be_value. by rewrite fold_left_app. Qed.

Lemma be_value_range bs : Forall (uint 8) bs -> 0 <= be_value bs < 256 ^ Z.of_nat (length bs).
Proof.
  induction bs as [|b bs IH] using rev_ind; intros Hb; [by cbv|].
  apply list.Forall_app in Hb as [Hbs Hb]. inversion Hb as [|? ? Hb1 _]; subst. specialize (IH Hbs).
  rewrite be_value_snoc, length_app, Nat2Z.inj_add, Z.pow_add_r by lia. change (256 ^ Z.of_nat (length [b])) with 256.
  unfold uint in Hb1. change (2 ^ 8) with 256 in Hb1. lia.
Qed.

Lemma be_value_range4 bs : Forall (uint 8) bs -> (length bs <= 4)%nat -> uint 32 (be_value bs).
Proof.
  intros Hb Hl. pose proof (be_value_range bs Hb). assert (256 ^ Z.of_nat (length bs) <= 256 ^ 4); [|unfold uint; lia].
  apply Z.pow_le_mono_r; lia.
Qed.

Lemma address_from_bytes_value bs : Forall (uint 8) bs -> (length bs <= 8)%nat -> address_from_bytes bs = be_value bs.
Proof.
  induction bs as [|b bs IH] using rev_ind; intros Hb Hl; [done|].
  apply list.Forall_app in Hb as [Hbs Hb]. inversion Hb as [|? ? Hb1 _]; subst. rewrite length_app in Hl. simpl in Hl.
  rewrite be_value_snoc, <- (IH Hbs) by lia. unfold address_from_bytes at 1. rewrite fold_left_app. cbn [fold_left].
  change (fold_left (fun addr byte => Z.lor (shl 64 addr 8) byte) bs 0) with (address_from_bytes bs).
  rewrite IH by (done || lia). pose proof (be_value_range bs Hbs) as Hr.
  assert (256 ^ Z.of_nat (length bs) <= 256 ^ 7) by (apply Z.pow_le_mono_r; lia).
  unfold shl. rewrite Z.shiftl_mul_pow2, wrap_small by (unfold uint; lia).
  rewrite (lor_add 8) by (done || lia || apply Z.divide_factor_r). lia.
Qed.

Section Spec.
Context `{Profile} {F : Type} `{StdFileLaws F}.
Local Notation Flash := (W25Q512JVQ F).
Implicit Types s : Flash.

(** The abstract chip a device stands for, and the bytes of its file that are
    not part of the chip. *)
Definition nor_of (s : Flash) : Nor := {|
  cells := take (Z.to_nat (capacity s)) (sf_bytes (file s));
  n_status1 := status1 s; n_status2 := status2 s; n_status3 := status3 s;
  four_byte := four_byte_address_mode s; reset_armed := reset_enabled s |}.
Definition spare (s : Flash) : list Z := drop (Z.to_nat (capacity s)) (sf_bytes (file s)).

Record flash_ok (s : Flash) : Prop := {
  fo_wf : sf_wf (file s);
  fo_cap : 0 <= capacity s < 2 ^ 63;
  fo_len : capacity s <= Z.of_nat (length (sf_bytes (file s)));
  fo_status : uint 8 (status1 s)
}.

Lemma latch_nor s : write_is_enabled s = latch (nor_of s).
Proof. unfold write_is_enabled, latch. change WRITE_ENABLE_LATCH with (shl 8 1 1). rewrite land_bit_eqb by lia. apply negb_involutive. Qed.

Lemma write_enable_nor b s : uint 8 (status1 s) -> nor_of (write_enable b s) = set_latch b (nor_of s).
Proof.
  intros Hs. unfold write_enable, set_latch, nor_of, n_set_status. cbn. f_equal. destruct b; [done|].
  by apply (land_not_bit _ 1).
Qed.

Lemma write_enable_ok b s : flash_ok s -> flash_ok (write_enable b s).
Proof.
  intros [Hw Hc Hl Hs]. split; try done. cbn. destruct b.
  - apply uint_lor; [lia|done|by cbv].
  - apply uint_land; [lia|done].
Qed.

Lemma set_transaction_ok t s : flash_ok s -> flash_ok (set_transaction t s).
Proof. by intros []. Qed.

Lemma set_transaction_same t s : transaction s = t -> set_transaction t s = s.
Proof. intros <-. by destruct s. Qed.

Lemma cells_length s : flash_ok s -> length (cells (nor_of s)) = Z.to_nat (capacity s).
Proof. intros [_ Hc Hl _]. cbn. rewrite length_take. lia. Qed.

Lemma cells_bytes s : flash_ok s -> Forall (uint 8) (cells (nor_of s)).
Proof. intros [Hw _ _ _]. apply list.Forall_take. by apply sf_bytes_ok. Qed.

Lemma set_file_ok f s : flash_ok s -> sf_wf f -> length (sf_bytes f) = length (sf_bytes (file s)) -> flash_ok (set_file f s).
Proof. intros [Hw Hc Hl Hs] Hf Hb. split; try done. cbn. lia. Qed.

(** A device whose file was written inside the chip. *)
Lemma overwritten_nor f s o bs : flash_ok s -> sf_bytes f = overwrite (sf_bytes (file s)) o bs ->
  (o + length bs <= Z.to_nat (capacity s))%nat ->
  nor_of (set_file f s) = n_set_cells (overwrite (cells (nor_of s)) o bs) (nor_of s) /\ spare (set_file f s) = spare s.
Proof.
  intros [Hw Hc Hl Hs] Hb Ho. unfold nor_of, spare, n_set_cells. cbn. rewrite Hb. split.
  - f_equal. apply take_overwrite; lia.
  - apply drop_overwrite; lia.
Qed.
End Spec.

(** ** Reading, programming and erasing the backing file *)
Section Storage.
Context `{Profile} {F : Type} `{StdFileReliable F}.
Local Notation Flash := (W25Q512JVQ F).
Implicit Types s : Flash.

Lemma sub_chk_run {S E} a b (t : S) : 0 <= b <= a -> a < 2 ^ 64 -> sub_chk (E := E) 64 a b t = (Ok (a - b), t).
Proof.
  intros Hb Ha. unfold sub_chk. rewrite (proj2 (Z.ltb_ge _ _)) by lia. rewrite andb_false_r.
  by rewrite wrap_small by (unfold uint; lia).
Qed.

Lemma chk_add_run {S E} a b (t : S) : 0 <= a + b < 2 ^ 64 -> add_chk (E := E) 64 a b t = (Ok (a + b), t).
Proof.
  intros Hab. unfold add_chk. rewrite (proj2 (Z.leb_gt _ _)) by lia. rewrite andb_false_r. by rewrite wrap_small.
Qed.

Lemma file_seek_run o f : sf_wf f -> 0 <= o < 2 ^ 63 ->
  exists f', io (seek_start o) f = (Ok tt, f') /\ sf_wf f' /\ sf_bytes f' = sf_bytes f /\ sf_pos f' = o.
Proof.
  intros Hf Ho. pose proof (seek_start_reliable o f Hf Ho) as Hr. unfold io. destruct (seek_start o f) as [r f'] eqn:E.
  simpl in Hr. subst r. destruct (seek_start_law o f _ f' Hf (proj1 Ho) E) as (Hf' & Hb & Hp). exists f'. auto.
Qed.

Lemma file_read_run n f : sf_wf f -> 0 <= sf_pos f -> sf_pos f + Z.of_nat n <= Z.of_nat (length (sf_bytes f)) ->
  exists f', io (read_exact n) f = (Ok (take n (drop (Z.to_nat (sf_pos f)) (sf_bytes f))), f') /\
    sf_wf f' /\ sf_bytes f' = sf_bytes f.
Proof.
  intros Hf Hp Hn. destruct (read_exact_reliable n f Hf Hp Hn) as [bs Hr]. unfold io.
  destruct (read_exact n f) as [r f'] eqn:E. simpl in Hr. subst r.
  destruct (read_exact_law n f _ f' Hf E) as (Hf' & Hb & Hbs). destruct (Hbs bs eq_refl) as [_ ->]. exists f'. auto.
Qed.

Lemma file_write_run bs f : sf_wf f -> Forall (uint 8) bs -> 0 <= sf_pos f ->
  sf_pos f + Z.of_nat (length bs) <= Z.of_nat (length (sf_bytes f)) ->
  exists f', io (write_all bs) f = (Ok tt, f') /\ sf_wf f' /\
    sf_bytes f' = overwrite (sf_bytes f) (Z.to_nat (sf_pos f)) bs /\ sf_pos f' = sf_pos f + Z.of_nat (length bs).
Proof.
  intros Hf Hbs Hp Hn. pose proof (write_all_reliable bs f Hf Hp Hn) as Hr. unfold io.
  destruct (write_all bs f) as [r f'] eqn:E. simpl in Hr. subst r.
  destruct (write_all_law bs f _ f' Hf Hbs E) as (Hf' & Hw). destruct (Hw eq_refl Hp Hn). exists f'. auto.
Qed.

(** The loop writes the whole range, chunk after chunk. *)
Lemma fill_loop_run fuel : forall remaining value f, sf_wf f -> uint 8 value -> 0 <= sf_pos f ->
  0 <= remaining -> remaining + CHUNK_LEN <= Z.of_nat fuel * CHUNK_LEN -> sf_pos f + remaining <= Z.of_nat (length (sf_bytes f)) -> remaining < 2 ^ 63 ->
  exists f', fill_loop fuel remaining value f = (Ok tt, f') /\ sf_wf f' /\
    sf_bytes f' = overwrite (sf_bytes f) (Z.to_nat (sf_pos f)) (replicate (Z.to_nat remaining) value).
Proof.
  induction fuel as [|fuel IH]; intros remaining value f Hf Hv Hp Hr0 Hr Hl Hlt; [unfold CHUNK_LEN in Hr; lia|]. cbn [fill_loop].
  destruct (Z.eqb_spec remaining 0) as [->|Hne].
  { exists f. change (Z.to_nat 0) with 0%nat. by rewrite overwrite_nil. }
  cbv zeta. set (n := Z.min remaining CHUNK_LEN).
  assert (0 < n <= remaining /\ n <= CHUNK_LEN) as Hn by (unfold n, CHUNK_LEN; lia).
  rewrite take_replicate, Nat.min_l by lia.
  destruct (file_write_run (replicate (Z.to_nat n) value) f) as (f1 & Hw & Hf1 & Hb1 & Hp1);
    [done|by apply list.Forall_replicate|done|rewrite length_replicate; lia|].
  rewrite length_replicate in Hp1. rewrite (bind_Ok _ _ _ _ _ Hw), (bind_Ok _ _ _ _ _ (sub_chk_run remaining n _ ltac:(lia) ltac:(lia))).
  assert (length (sf_bytes f1) = length (sf_bytes f)) as Hlen by (rewrite Hb1; apply overwrite_length; rewrite length_replicate; lia).
  destruct (IH (remaining - n) value f1) as (f' & Hrun & Hf' & Hb'); [done|done|lia|lia| |lia|lia|].
  { unfold n, CHUNK_LEN in *. lia. }
  exists f'. split_and!; [done|done|]. rewrite Hb', Hb1, Hp1.
  replace (Z.to_nat (sf_pos f + Z.of_nat (Z.to_nat n))) with (Z.to_nat (sf_pos f) + length (replicate (Z.to_nat n) value))%nat
    by (rewrite length_replicate; lia).
  rewrite overwrite_app by (rewrite !length_replicate; lia). rewrite <- replicate_add. do 2 f_equal. lia.
Qed.

Lemma fill_file_range_run o len value f : sf_wf f -> uint 8 value -> 0 <= o -> 0 <= len ->
  o + len <= Z.of_nat (length (sf_bytes f)) -> o + len < 2 ^ 63 ->
  exists f', fill_file_range o len value f = (Ok tt, f') /\ sf_wf f' /\
    sf_bytes f' = overwrite (sf_bytes f) (Z.to_nat o) (replicate (Z.to_nat len) value).
Proof.
  intros Hf Hv Ho Hl Hb Hlt. unfold fill_file_range.
  destruct (file_seek_run o f Hf) as (f1 & Hs & Hf1 & Hb1 & Hp1); [lia|]. rewrite (bind_Ok _ _ _ _ _ Hs).
  destruct (fill_loop_run (Z.to_nat (len / CHUNK_LEN + 2)) len value f1) as (f' & Hr & Hf' & Hb');
    [done|done|lia|lia| |by rewrite Hb1, Hp1|lia|].
  { pose proof (Z.div_mod len CHUNK_LEN ltac:(done)). pose proof (Z.mod_pos_bound len CHUNK_LEN ltac:(done)).
    assert (0 <= len / CHUNK_LEN) by (apply Z.div_pos; done). unfold CHUNK_LEN in *. lia. }
  exists f'. by rewrite <- Hp1, <- Hb1.
Qed.

Lemma on_file_run {E A} (m : M F E A) s r f : m (file s) = (r, f) -> on_file m s = (r, set_file f s).
Proof. unfold on_file, zoom. by intros ->. Qed.

Lemma read_byte_run a s : flash_ok s -> 0 <= a ->
  exists f, read_byte a s = (Ok (n_read (nor_of s) a), set_file f s) /\ sf_wf f /\ sf_bytes f = sf_bytes (file s).
Proof.
  intros Hok Ha. pose proof (cells_length s Hok) as Hcl. destruct Hok as [Hw Hc Hl Hs]. unfold read_byte, n_read.
  rewrite (bind_Ok (gets capacity) _ s (capacity s) s eq_refl). destruct (Z.leb_spec (capacity s) a).
  { exists (file s). rewrite nth_overflow by (rewrite Hcl; lia). split; [by destruct s|done]. }
  destruct (file_seek_run a (file s) Hw) as (f1 & Hs1 & Hf1 & Hb1 & Hp1); [lia|].
  destruct (file_read_run 1 f1 Hf1) as (f2 & Hr2 & Hf2 & Hb2); [lia|rewrite Hb1, Hp1; lia|].
  exists f2. rewrite Hb2, Hb1. split_and!; [|done..]. erewrite on_file_run; [done|].
  rewrite (bind_Ok _ _ _ _ _ Hs1), Hr2, Hp1, Hb1. do 2 f_equal. cbn [cells nor_of].
  rewrite !nth_lookup, !lookup_take_lt, lookup_drop by lia. by rewrite Nat.add_0_r.
Qed.

(** Programming [data] at [o]: a byte of the cells afterwards. *)
Definition anded (o : nat) (data : list Z) (i : nat) (old : Z) : Z :=
  if decide (o <= i < o + length data)%nat then Z.land old (nth (i - o) data 0xFF) else old.

Lemma imap_same {A} (f : nat -> A -> A) l : (forall i x, l !! i = Some x -> f i x = x) -> imap f l = l.
Proof.
  intros Hf. apply list_eq. intros i. rewrite list_lookup_imap. destruct (l !! i) eqn:E; [|done]. simpl. by rewrite Hf.
Qed.

Lemma imap_agree {A} (f g : nat -> A -> A) l : (forall i x, l !! i = Some x -> f i x = g i x) -> imap f l = imap g l.
Proof.
  intros Hf. apply list_eq. intros i. rewrite !list_lookup_imap. destruct (l !! i) eqn:E; [|done]. simpl. by rewrite Hf.
Qed.

Lemma overwrite_anded c o data wl : wl = Nat.min (length data) (length c - o) -> (o <= length c)%nat ->
  overwrite c o (zip_with Z.land (take wl (drop o c)) (take wl data)) = imap (anded o data) c.
Proof.
  intros Hwl Ho. assert (length (zip_with Z.land (take wl (drop o c)) (take wl data)) = wl) as Hz.
  { rewrite length_zip_with, !length_take, length_drop. lia. }
  apply list_eq. intros i. rewrite list_lookup_imap, overwrite_lookup by lia. unfold anded. rewrite Hz.
  destruct (c !! i) as [x|] eqn:Ex.
  - pose proof (lookup_lt_Some _ _ _ Ex). simpl. destruct (decide (o <= i < o + wl)%nat).
    + rewrite decide_True by lia. rewrite lookup_zip_with, !lookup_take_lt, lookup_drop by lia.
      replace (o + (i - o))%nat with i by lia. rewrite Ex. simpl.
      destruct (lookup_lt_is_Some_2 data (i - o)) as [d Hd]; [lia|]. rewrite Hd. simpl. by rewrite (nth_lookup_Some _ _ _ _ Hd).
    + by rewrite decide_False by lia.
  - apply lookup_ge_None in Ex as Hge. simpl. by rewrite decide_False by lia.
Qed.

Lemma overwrite_filled c o n v : (o + n <= length c)%nat ->
  overwrite c o (replicate n v) = imap (fun i old => if decide (o <= i < o + n)%nat then v else old) c.
Proof.
  intros Ho. apply list_eq. intros i. rewrite list_lookup_imap, overwrite_lookup, length_replicate by (rewrite length_replicate; lia).
  destruct (c !! i) as [x|] eqn:Ex; [|apply lookup_ge_None in Ex]; simpl.
  - destruct (decide _); [|done]. apply lookup_replicate_2. lia.
  - by rewrite decide_False by lia.
Qed.

(** The device with its file replaced by one with other cells. *)
Definition stored (s : Flash) (c : list Z) (f : F) : Prop :=
  flash_ok (set_file f s) /\ nor_of (set_file f s) = n_set_cells c (nor_of s) /\ spare (set_file f s) = spare s.

Lemma stored_same s f : flash_ok s -> sf_wf f -> sf_bytes f = sf_bytes (file s) -> stored s (cells (nor_of s)) f.
Proof.
  intros Hok Hf Hb. split_and!; [apply set_file_ok; [done|done|by rewrite Hb]|..]; unfold nor_of, spare, n_set_cells; cbn; by rewrite Hb.
Qed.

Lemma stored_overwrite s f o bs : flash_ok s -> sf_wf f -> sf_bytes f = overwrite (sf_bytes (file s)) o bs ->
  (o + length bs <= Z.to_nat (capacity s))%nat -> stored s (overwrite (cells (nor_of s)) o bs) f.
Proof.
  intros Hok Hf Hb Ho. split; [|by apply overwritten_nor]. apply set_file_ok; [done|done|]. rewrite Hb.
  apply overwrite_length. pose proof (fo_len _ Hok). lia.
Qed.

Lemma write_nor_run addr data s : flash_ok s -> 0 <= addr -> Forall (uint 8) data ->
  exists f, write_nor_bytes addr data s = (Ok tt, set_file f s) /\ stored s (imap (anded (Z.to_nat addr) data) (cells (nor_of s))) f.
Proof.
  intros Hok Ha Hd. pose proof (cells_length s Hok) as Hcl. pose proof Hok as [Hw Hc Hl Hs]. unfold write_nor_bytes.
  rewrite (bind_Ok (gets capacity) _ s (capacity s) s eq_refl).
  destruct ((capacity s <=? addr) || bool_decide (data = [])) eqn:Eskip.
  { exists (file s). split; [by destruct s|]. rewrite imap_same; [by apply stored_same|]. intros i x Hx.
    apply lookup_lt_Some in Hx. unfold anded. apply orb_true_iff in Eskip as [E|E].
    - apply Z.leb_le in E. by rewrite decide_False by lia.
    - apply bool_decide_eq_true in E as ->. by rewrite decide_False by (simpl; lia). }
  apply orb_false_iff in Eskip as [E _]. apply Z.leb_gt in E.
  rewrite (bind_Ok _ _ _ _ _ (sub_chk_run (capacity s) addr _ ltac:(lia) ltac:(lia))). cbv zeta.
  set (wl := Nat.min (length data) (Z.to_nat (capacity s - addr))).
  destruct (file_seek_run addr (file s) Hw) as (f1 & R1 & Hf1 & Hb1 & Hp1); [lia|].
  rewrite (bind_Ok _ _ _ _ _ (on_file_run _ _ _ _ R1)).
  destruct (file_read_run wl f1 Hf1) as (f2 & R2 & Hf2 & Hb2); [lia|rewrite Hb1, Hp1; lia|]. rewrite Hb1, Hp1 in R2.
  rewrite (bind_Ok _ _ _ _ _ (on_file_run _ (set_file f1 s) _ _ R2)).
  destruct (file_seek_run addr f2 Hf2) as (f3 & R3 & Hf3 & Hb3 & Hp3); [lia|].
  rewrite (bind_Ok _ _ _ _ _ (on_file_run _ (set_file f2 (set_file f1 s)) _ _ R3)).
  set (old := take wl (drop (Z.to_nat addr) (sf_bytes (file s)))).
  assert (length old = wl) as Hold by (unfold old; rewrite length_take, length_drop; lia).
  rewrite drop_ge by (rewrite length_take; lia). rewrite app_nil_r.
  assert (length (zip_with Z.land old (take wl data)) = wl) as Hz by (rewrite length_zip_with, length_take; lia).
  destruct (file_write_run (zip_with Z.land old (take wl data)) f3 Hf3) as (f4 & R4 & Hf4 & Hb4 & _).
  { apply list.Forall_lookup_2. intros i x Hx.
    rewrite lookup_zip_with in Hx. destruct (old !! i) as [a|] eqn:Eo; [|done]. destruct (take wl data !! i); [|done].
    injection Hx as <-. apply uint_land; [lia|]. apply (list.Forall_lookup_1 (uint 8) old i); [|done].
    apply list.Forall_take, list.Forall_drop. by apply sf_bytes_ok. }
  { lia. }
  { rewrite Hz, Hp3, Hb3, Hb2, Hb1. lia. }
  exists f4. split; [erewrite on_file_run by exact R4; by destruct s|].
  rewrite Hp3, Hb3, Hb2, Hb1 in Hb4. rewrite <- (overwrite_anded _ _ _ wl); [|lia|lia].
  replace (take wl (drop (Z.to_nat addr) (cells (nor_of s)))) with old; [apply stored_overwrite; done || lia|].
  unfold old. cbn [cells nor_of]. rewrite !take_drop_commute, take_take, Nat.min_l by lia. done.
Qed.

Lemma fill_run o n s : flash_ok s -> 0 <= o -> 0 <= n -> o + n <= capacity s ->
  exists f, on_file (fill_file_range o n ERASED_BYTE) s = (Ok tt, set_file f s) /\
    stored s (imap (fun i old => if decide (Z.to_nat o <= i < Z.to_nat o + Z.to_nat n)%nat then 0xFF else old) (cells (nor_of s))) f.
Proof.
  intros Hok Ho Hn Hon. pose proof Hok as [Hw Hc Hl Hs].
  destruct (fill_file_range_run o n ERASED_BYTE (file s)) as (f & Hr & Hf & Hb); [done|by cbv|lia..|].
  exists f. split; [by apply on_file_run|]. rewrite <- overwrite_filled by (rewrite cells_length by done; lia).
  apply stored_overwrite; [done|done|done|rewrite length_replicate; lia].
Qed.

(** An aligned block of [2^k] bytes, cut at the end of the chip. *)
Lemma erase_range_run addr k s : flash_ok s -> uint 32 addr -> 0 <= k <= 32 ->
  exists f, erase_range addr (2 ^ k) s = (Ok tt, set_file f s) /\ stored s (cells (n_erase addr (2 ^ k) (nor_of s))) f.
Proof.
  intros Hok Ha Hk. pose proof (cells_length s Hok) as Hcl. pose proof Hok as [Hw Hc Hl Hs].
  assert (0 < 2 ^ k <= 2 ^ 32) as Hp by (split; [apply Z.pow_pos_nonneg; lia|apply Z.pow_le_mono_r; lia]).
  unfold uint in Ha. unfold erase_range, n_erase. rewrite (bind_Ok (gets capacity) _ s (capacity s) s eq_refl), Hcl, Z2Nat.id by lia.
  destruct (Z.leb_spec (capacity s) addr).
  { rewrite (proj2 (Z.ltb_ge _ _)) by lia. exists (file s). split; [by destruct s|by apply stored_same]. }
  rewrite (proj2 (Z.ltb_lt _ _)) by lia. rewrite (bind_Ok _ _ _ _ _ (sub_chk_run (2 ^ k) 1 _ ltac:(lia) ltac:(lia))). cbv zeta.
  rewrite align_down by (unfold uint; lia). set (q := addr / 2 ^ k).
  assert (0 <= q * 2 ^ k <= addr) as Hq by (unfold q; pose proof (Z.div_mod addr (2 ^ k) ltac:(lia));
    pose proof (Z.mod_pos_bound addr (2 ^ k) ltac:(lia)); pose proof (Z.div_pos addr (2 ^ k) ltac:(lia) ltac:(lia)); nia).
  rewrite (bind_Ok _ _ _ _ _ (sub_chk_run (capacity s) (q * 2 ^ k) _ ltac:(lia) ltac:(lia))).
  destruct (fill_run (q * 2 ^ k) (Z.min (2 ^ k) (capacity s - q * 2 ^ k)) s) as (f & Hr & Hst); [done|lia..|].
  exists f. split; [done|]. replace (cells _) with (imap (fun i old => if decide (Z.to_nat (q * 2 ^ k) <= i <
    Z.to_nat (q * 2 ^ k) + Z.to_nat (Z.min (2 ^ k) (capacity s - q * 2 ^ k)))%nat then 0xFF else old) (cells (nor_of s))); [done|].
  apply imap_agree. intros i x Hx. apply lookup_lt_Some in Hx. rewrite Hcl in Hx.
  assert (Z.of_nat i / 2 ^ k = q <-> q * 2 ^ k <= Z.of_nat i < q * 2 ^ k + 2 ^ k) as Hdiv.
  { split; [intros <-|intros Hi].
    - pose proof (Z.div_mod (Z.of_nat i) (2 ^ k) ltac:(lia)). pose proof (Z.mod_pos_bound (Z.of_nat i) (2 ^ k) ltac:(lia)). lia.
    - symmetry. apply (Z.div_unique_pos _ _ _ (Z.of_nat i - q * 2 ^ k)); lia. }
  destruct (Z.eqb_spec (Z.of_nat i / 2 ^ k) q) as [E|E]; [rewrite decide_True|rewrite decide_False]; [done| |done|]; lia.
Qed.

Lemma chip_erase_run s : flash_ok s ->
  exists f, erase_range 0 (capacity s) s = (Ok tt, set_file f s) /\ stored s (replicate (length (cells (nor_of s))) 0xFF) f.
Proof.
  intros Hok. pose proof (cells_length s Hok) as Hcl. pose proof Hok as [Hw Hc Hl Hs].
  unfold erase_range. rewrite (bind_Ok (gets capacity) _ s (capacity s) s eq_refl).
  destruct (Z.leb_spec (capacity s) 0).
  { exists (file s). split; [by destruct s|]. replace (replicate _ _) with (cells (nor_of s)); [by apply stored_same|].
    rewrite (nil_length_inv (cells (nor_of s))) by lia. done. }
  rewrite (bind_Ok _ _ _ _ _ (sub_chk_run (capacity s) 1 _ ltac:(lia) ltac:(lia))). cbv zeta. rewrite Z.land_0_l.
  rewrite (bind_Ok _ _ _ _ _ (sub_chk_run (capacity s) 0 _ ltac:(lia) ltac:(lia))). rewrite Z.sub_0_r, Z.min_id.
  destruct (fill_run 0 (capacity s) s) as (f & Hr & Hst); [done|lia..|]. exists f. split; [done|].
  replace (replicate _ _) with (imap (fun i old => if decide (Z.to_nat 0 <= i < Z.to_nat 0 + Z.to_nat (capacity s))%nat
    then 0xFF else old) (cells (nor_of s))); [done|].
  apply list_eq. intros i. rewrite list_lookup_imap. destruct (cells (nor_of s) !! i) as [x|] eqn:Ex; simpl.
  - pose proof (lookup_lt_Some _ _ _ Ex). rewrite decide_True by lia. symmetry. by apply lookup_replicate_2.
  - apply lookup_ge_None in Ex. symmetry. apply lookup_ge_None. by rewrite length_replicate.
Qed.
End Storage.

(** ** Programming a page *)

Lemma latest_snoc k data b : (k < 256)%nat ->
  latest k (data ++ [b]) = if (length data mod 256 =? k)%nat then Some b else latest k data.
Proof.
  intros Hk. unfold latest. rewrite length_app. cbn [length].
  pose proof (Nat.div_mod_eq (length data) 256) as Hdm. pose proof (Nat.mod_upper_bound (length data) 256 ltac:(lia)) as Hub.
  set (n := length data) in *. set (r := (n mod 256)%nat) in *. set (q := (n / 256)%nat) in *.
  destruct (Nat.eqb_spec r k) as [<-|Hne].
  - rewrite (proj2 (Nat.ltb_lt _ _)) by lia. replace (n + 1 - 1 - r)%nat with (q * 256)%nat by lia.
    rewrite Nat.div_mul by lia. rewrite lookup_app_r by (subst n; lia). by replace (r + 256 * q - length data)%nat with 0%nat by (subst n; lia).
  - destruct (Nat.ltb_spec k n).
    + rewrite (proj2 (Nat.ltb_lt _ _)) by lia.
      replace ((n + 1 - 1 - k) / 256)%nat with ((n - 1 - k) / 256)%nat.
      2:{ pose proof (Nat.div_mod_eq (n - 1 - k) 256). pose proof (Nat.mod_upper_bound (n - 1 - k) 256 ltac:(lia)).
          pose proof (Nat.div_mod_eq (n + 1 - 1 - k) 256). pose proof (Nat.mod_upper_bound (n + 1 - 1 - k) 256 ltac:(lia)). lia. }
      apply lookup_app_l. fold n. pose proof (Nat.div_mod_eq (n - 1 - k) 256). lia.
    + by rewrite (proj2 (Nat.ltb_ge _ _)) by lia.
Qed.

Section Page.
Context `{Profile} {F : Type} `{StdFileReliable F}.
Implicit Types s : W25Q512JVQ F.

Lemma page_loop_snoc start data b : forall idx page p s, 0 <= start + idx -> start + idx + Z.of_nat (length data) < 2 ^ 64 ->
  page_loop start idx data page s = (Ok p, s) ->
  page_loop start idx (data ++ [b]) page s = (Ok (<[Z.to_nat ((start + idx + Z.of_nat (length data)) mod 256) := b]> p), s).
Proof.
  induction data as [|d data IH]; intros idx page p s Hge Hlt Hrun; cbn [page_loop app length] in *.
  - injection Hrun as <-. rewrite (bind_Ok _ _ _ _ _ (chk_add_run start idx _ ltac:(lia))). cbn [page_loop].
    change (W25Q512JVQ_PAGE_SIZE - 1) with (2 ^ 8 - 1). rewrite land_pow2_low by lia. by rewrite Z.add_0_r.
  - rewrite (bind_Ok _ _ _ _ _ (chk_add_run start idx s ltac:(lia))) in Hrun.
    rewrite (bind_Ok _ _ _ _ _ (chk_add_run start idx s ltac:(lia))).
    cbv zeta in *. erewrite IH by (exact Hrun || lia). do 5 f_equal. lia.
Qed.

Lemma page_loop_run start data s : 0 <= start -> start + Z.of_nat (length data) < 2 ^ 64 -> Forall (uint 8) data ->
  exists p, page_loop start 0 data (replicate (Z.to_nat W25Q512JVQ_PAGE_SIZE) ERASED_BYTE) s = (Ok p, s) /\
    length p = 256%nat /\ Forall (uint 8) p /\
    forall j, (j < 256)%nat -> p !! j = Some (default 0xFF (latest (Z.to_nat ((Z.of_nat j - start) mod 256)) data)).
Proof.
  intros Hs. induction data as [|b data IH] using rev_ind; intros Hlt Hb.
  { eexists. split_and!; [done|done| |intros j Hj; by apply lookup_replicate_2].
    apply list.Forall_replicate. by cbv. }
  rewrite length_app in Hlt. simpl in Hlt. apply list.Forall_app in Hb as [Hd Hb1]. inversion Hb1; subst.
  destruct IH as (p & Hrun & Hlen & Hp & Hj); [lia|done|].
  eexists. rewrite (page_loop_snoc start data b 0 _ p) by (done || lia). rewrite Z.add_0_r. split_and!; [done| | |].
  - by rewrite length_insert.
  - by apply list.Forall_insert.
  - intros j Hjlt. pose proof (Z.mod_pos_bound (Z.of_nat j - start) 256 eq_refl). rewrite latest_snoc by lia. set (m := (start + Z.of_nat (length data)) mod 256).
    assert (0 <= m < 256) by (apply Z.mod_pos_bound; lia).
    assert ((length data mod 256)%nat = Z.to_nat ((Z.of_nat j - start) mod 256) <-> Z.to_nat m = j) as Hiff.
    { rewrite <- (Nat2Z.id (length data mod 256)), Nat2Z.inj_mod. unfold m. change (Z.of_nat 256) with 256.
      clear - Hjlt. Z.to_euclidean_division_equations. lia. }
    destruct (Nat.eqb_spec (length data mod 256) (Z.to_nat ((Z.of_nat j - start) mod 256))) as [E|E].
    + rewrite (proj1 Hiff E). simpl. apply list_lookup_insert_eq. lia.
    + rewrite list_lookup_insert_ne; [by apply Hj|]. intros E'. by apply E, Hiff.
Qed.

(** ANDing the page image is programming. *)
Lemma program_cells start data p c n : 0 <= start -> Forall (uint 8) c -> cells n = c ->
  (forall j, (j < 256)%nat -> p !! j = Some (default 0xFF (latest (Z.to_nat ((Z.of_nat j - start) mod 256)) data))) -> length p = 256%nat ->
  imap (anded (Z.to_nat (start / 256 * 256)) p) c = cells (n_program start data n).
Proof.
  intros Hs Hc <- Hp Hl. apply imap_agree. intros i x Hx. unfold anded. rewrite Hl.
  pose proof (Z.div_mod start 256 ltac:(lia)). pose proof (Z.mod_pos_bound start 256 ltac:(lia)).
  pose proof (Z.div_mod (Z.of_nat i) 256 ltac:(lia)). pose proof (Z.mod_pos_bound (Z.of_nat i) 256 ltac:(lia)).
  destruct (Z.eqb_spec (Z.of_nat i / 256) (start / 256)) as [E|E].
  - rewrite decide_True by lia. f_equal. rewrite nth_lookup, Hp by lia. simpl. do 3 f_equal.
    rewrite Nat2Z.inj_sub, Z2Nat.id by lia.
    replace (Z.of_nat i - start / 256 * 256 - start) with (Z.of_nat i - start + - (start / 256) * 256) by lia.
    by rewrite Z.mod_add by lia.
  - rewrite decide_False; [done|]. intros Hin. apply E. symmetry. apply (Z.div_unique_pos _ _ _ (Z.of_nat i - start / 256 * 256)); lia.
Qed.

Lemma byte_land_ff v : uint 8 v -> Z.land v 255 = v.
Proof. intros Hv. change 255 with (Z.ones 8). rewrite Z.land_ones by lia. by apply wrap_small. Qed.

Lemma program_nothing start n : Forall (uint 8) (cells n) -> n_program start [] n = n.
Proof.
  intros Hc. destruct n as [c s1 s2 s3 fb ra]. unfold n_program, n_set_cells. cbn in *. f_equal. apply imap_same.
  intros i x Hx. destruct (_ =? _); [|done]. apply byte_land_ff. by apply (list.Forall_lookup_1 _ _ _ _ Hc Hx).
Qed.

Lemma n_set_cells_same n : n_set_cells (cells n) n = n.
Proof. by destruct n. Qed.

(** The deselect edge of a page program. *)
Lemma finish_page_program_run start data s : flash_ok s -> uint 32 start -> Z.of_nat (length data) < 2 ^ 63 -> Forall (uint 8) data ->
  exists f, finish_page_program start data s = (Ok tt, write_enable false (set_file f s)) /\
    stored s (cells (n_program start data (nor_of s))) f.
Proof.
  intros Hok Hs Hl Hd. unfold finish_page_program. pose proof (cells_bytes s Hok) as Hcb. unfold uint in Hs.
  destruct (bool_decide_reflect (data = [])) as [->|Hne].
  { exists (file s). split; [by destruct s|]. rewrite program_nothing by done. by apply stored_same; [|apply Hok|]. }
  cbv zeta. destruct (page_loop_run start data s) as (p & Hrun & Hlen & Hp & Hj); [lia|lia|done|].
  rewrite (bind_Ok _ _ _ _ _ Hrun). change (W25Q512JVQ_PAGE_SIZE - 1) with (2 ^ 8 - 1). rewrite align_down by (unfold uint; lia).
  destruct (write_nor_run (start / 2 ^ 8 * 2 ^ 8) p s) as (f & Hw & Hst); [done| |done|].
  { pose proof (Z.div_pos start (2 ^ 8) ltac:(lia) ltac:(lia)). lia. }
  exists f. unfold log_err, bind. rewrite Hw. split; [done|].
  erewrite <- program_cells; [exact Hst|lia|done|done|done|done].
Qed.
End Page.
