(* ===== verification/SpiFlashSpec.v ===== *)
(** * The flash implements the abstract chip

    Byte by byte, under the chip select, the device computes [nor_session]:
    every frame gets the answer of the specification and leaves the cells and
    registers it prescribes.  Without the write enable latch no frame changes
    the backing file, whatever the host does. *)

From S2P Require Import Prelude Utils Spi SpiFlash SpiStore.

#[local] Arguments Z.mul : simpl never.
#[local] Arguments Z.add : simpl never.
#[local] Arguments Z.pow : simpl never.
#[local] Arguments Z.to_nat : simpl never.
#[local] Arguments Z.of_nat : simpl never.

Section Sessions.
Context `{Profile} {F : Type} `{StdFileReliable F}.
Local Notation Flash := (W25Q512JVQ F).
Implicit Types s : Flash.

(** The rest of a frame, up to the deselect edge: it answers [out] and leaves
    the chip [n]; the bytes of the file past the chip are not touched. *)
Definition finishes s (bs out : list Z) (n : Nor) : Prop :=
  exists s', (o <- transfers bs ;; set_selected false ;;; ret o) s = (Ok out, s') /\
    flash_ok s' /\ nor_of s' = n /\ spare s' = spare s /\ capacity s' = capacity s.

(** A state that differs from [s] in nothing but its file, whose bytes are the
    same, and the command in flight. *)
Definition same_chip s s1 : Prop := flash_ok s1 /\ nor_of s1 = nor_of s /\ spare s1 = spare s /\ capacity s1 = capacity s.

Lemma same_chip_transaction t s s1 : same_chip s s1 -> same_chip s (set_transaction t s1).
Proof. intros (Hok & ?). split; [by apply set_transaction_ok|done]. Qed.

Lemma same_chip_refl s : flash_ok s -> same_chip s s.
Proof. done. Qed.

Lemma finishes_cons b bs o out n s s1 : flash_transfer b s = (Ok o, s1) -> spare s1 = spare s -> capacity s1 = capacity s ->
  finishes s1 bs out n -> finishes s (b :: bs) (o :: out) n.
Proof.
  intros Ht Hsp Hc (s' & Hrun & Hok & Hn & Hsp' & Hc'). exists s'. split_and!; [|done|done|congruence|congruence].
  cbn [transfers]. unfold bind at 1 2. change (transfer b s) with (flash_transfer b s). rewrite Ht.
  unfold bind, ret in Hrun |- *. destruct (transfers bs s1) as [[o'|e|] s2]; [|done|done].
  destruct (set_selected false s2) as [[[]|e|] s3]; [|done|done]. by injection Hrun as -> ->.
Qed.

Lemma finishes_eq s bs out out' n n' : finishes s bs out n -> out = out' -> n = n' -> finishes s bs out' n'.
Proof. by intros ? <- <-. Qed.

(** Commands that have nothing to commit when the chip is deselected. *)
Definition quiet (t : Transaction) : Prop :=
  match t with PageProgram _ _ | WriteStatus _ _ => False | _ => True end.

Lemma finishes_quiet s : flash_ok s -> quiet (transaction s) -> finishes s [] [] (nor_of s).
Proof.
  intros Hok Hq. exists (set_transaction Idle s). split_and!; [|by apply set_transaction_ok|done..].
  unfold bind, transfers, ret, set_selected, flash_slave, flash_set_selected, finish_transaction, take_transaction, bind, gets, modify, ret.
  by destruct (transaction s).
Qed.

Lemma transfer_run b s t : transaction s = t -> flash_transfer b s =
  match t with
  | Idle => (start_command b ;;; ret 0) s
  | _ => flash_transfer b (set_transaction t s)
  end.
Proof. intros <-. destruct s as [f c []]; done. Qed.

Lemma ignore_finishes bs : forall s, flash_ok s -> transaction s = Ignore -> finishes s bs (zeros bs) (nor_of s).
Proof.
  induction bs as [|b bs IH]; intros s Hok Ht; [by apply finishes_quiet; [|rewrite Ht]|].
  apply (finishes_cons _ _ _ _ _ _ s); [|done|done|by apply IH]. destruct s; cbn in *. by subst.
Qed.

Lemma status_finishes bs r : forall s, flash_ok s ->
  transaction s = match r with SR1 => ReadStatus1 | SR2 => ReadStatus2 | SR3 => ReadStatus3 end ->
  finishes s bs (replicate (length bs) (n_status r (nor_of s))) (nor_of s).
Proof.
  induction bs as [|b bs IH]; intros s Hok Ht; [apply finishes_quiet; [done|rewrite Ht; by destruct r]|].
  apply (finishes_cons _ _ _ _ _ _ s); [|done|done|by apply IH]. destruct s; cbn in *. subst. by destruct r.
Qed.

Lemma jedec_finishes bs : forall i s, flash_ok s -> transaction s = ReadJedecId (Z.of_nat i) ->
  Z.of_nat i + Z.of_nat (length bs) < 2 ^ 64 ->
  finishes s bs (imap (fun k _ => nth ((i + k) mod 3) [0xef; 0x40; 0x20] 0) bs) (nor_of s).
Proof.
  induction bs as [|b bs IH]; intros i s Hok Ht Hl; [by apply finishes_quiet; [|rewrite Ht]|]. cbn [length] in Hl.
  rewrite imap_cons. apply (finishes_cons _ _ _ _ _ _ (set_transaction (ReadJedecId (Z.of_nat (S i))) s)); [|done|done|].
  - unfold flash_transfer, take_transaction, gets, modify, ret. unfold bind at 1 2 3. rewrite Ht.
    rewrite (bind_Ok _ _ _ _ _ (chk_add_run (Z.of_nat i) 1 _ ltac:(lia))). unfold bind.
    rewrite Nat.add_0_r. replace (Z.of_nat i + 1) with (Z.of_nat (S i)) by lia. do 3 f_equal.
    change (Z.of_nat (length W25Q512JVQ_JEDEC_ID)) with (Z.of_nat 3). by rewrite <- Nat2Z.inj_mod, Nat2Z.id.
  - eapply finishes_eq; [apply (IH (S i)); [by apply set_transaction_ok|done|lia]| |done].
    apply imap_ext. intros k x _. unfold compose. by replace (i + S k)%nat with (S i + k)%nat by lia.
Qed.

Lemma read_finishes bs : forall a s, flash_ok s -> transaction s = ReadData a -> 0 <= a -> a + Z.of_nat (length bs) < 2 ^ 64 ->
  finishes s bs (imap (fun k _ => n_read (nor_of s) (a + Z.of_nat k)) bs) (nor_of s).
Proof.
  induction bs as [|b bs IH]; intros a s Hok Ht Ha Hl; [by apply finishes_quiet; [|rewrite Ht]|]. cbn [length] in Hl.
  rewrite imap_cons. set (s0 := set_transaction (ReadData (wrap 64 (a + 1))) s).
  destruct (read_byte_run a s0) as (f & Hr & Hf & Hb); [by apply set_transaction_ok|done|].
  destruct (stored_same s0 f) as (Hok1 & Hn1 & Hsp1); [by apply set_transaction_ok|done|done|]. rewrite n_set_cells_same in Hn1.
  apply (finishes_cons _ _ _ _ _ _ (set_file f s0)); [|done|done|].
  - unfold flash_transfer, take_transaction, gets, modify, ret. unfold bind at 1 2 3 4. rewrite Ht.
    change (Z.of_nat 0) with 0. rewrite Z.add_0_r. exact Hr.
  - eapply finishes_eq; [apply (IH (a + 1)); [done| |lia|lia]| |exact Hn1].
    + cbn. rewrite wrap_small; [done|unfold uint; lia].
    + apply imap_ext. intros k x _. rewrite Hn1. simpl. f_equal. lia.
Qed.

Lemma sfdp_byte a : 0 <= a -> read_sfdp_byte a = nth (Z.to_nat a) [83; 70; 68; 80; 6; 1; 0] 0xFF.
Proof.
  intros Ha. unfold read_sfdp_byte. destruct (Z.le_gt_cases a 7).
  - assert (a = 0 \/ a = 1 \/ a = 2 \/ a = 3 \/ a = 4 \/ a = 5 \/ a = 6 \/ a = 7) as Hc by lia.
    repeat destruct Hc as [->|Hc]; [done..|by rewrite Hc].
  - rewrite !nth_overflow by (simpl; lia). split_ltb; done || lia.
Qed.

Lemma sfdp_finishes bs : forall a s, flash_ok s -> transaction s = ReadSfdp a -> 0 <= a -> a + Z.of_nat (length bs) < 2 ^ 32 ->
  finishes s bs (imap (fun k _ => nth (Z.to_nat (a + Z.of_nat k)) [83; 70; 68; 80; 6; 1; 0] 0xFF) bs) (nor_of s).
Proof.
  induction bs as [|b bs IH]; intros a s Hok Ht Ha Hl; [by apply finishes_quiet; [|rewrite Ht]|]. cbn [length] in Hl.
  rewrite imap_cons. apply (finishes_cons _ _ _ _ _ _ (set_transaction (ReadSfdp (a + 1)) s)); [|done|done|].
  - unfold flash_transfer, take_transaction, gets, modify, ret. unfold bind. rewrite Ht. cbn -[wrap].
    rewrite wrap_small by (unfold uint; lia). change (Z.of_nat 0) with 0. by rewrite Z.add_0_r, sfdp_byte.
  - eapply finishes_eq; [apply (IH (a + 1)); [by apply set_transaction_ok|done|lia|lia]| |done].
    apply imap_ext. intros k x _. unfold compose. by replace (a + Z.of_nat (S k)) with (a + 1 + Z.of_nat k) by lia.
Qed.

Lemma finishes_commit s s' n : flash_set_selected false s = (Ok tt, s') -> flash_ok s' -> nor_of s' = n -> spare s' = spare s ->
  capacity s' = capacity s -> finishes s [] [] n.
Proof. intros Hrun Hok Hn Hsp Hc. exists s'. split_and!; try done. unfold bind, transfers, ret. change (set_selected false s) with (flash_set_selected false s). by rewrite Hrun. Qed.

(** A device after a write to its file, with the latch cleared. *)
Lemma stored_commit s c f : flash_ok s -> stored s c f -> 
  flash_ok (write_enable false (set_file f s)) /\ nor_of (write_enable false (set_file f s)) = set_latch false (n_set_cells c (nor_of s)).
Proof.
  intros Hok (Hok' & Hn & _). split; [by apply write_enable_ok|]. rewrite write_enable_nor by apply Hok'. by rewrite Hn.
Qed.

Lemma n_program_cells a data n : n_set_cells (cells (n_program a data n)) n = n_program a data n.
Proof. done. Qed.

Lemma program_finishes bs : forall data a s, flash_ok s -> transaction s = PageProgram a data -> uint 32 a ->
  Forall (uint 8) (data ++ bs) -> Z.of_nat (length (data ++ bs)) < 2 ^ 63 ->
  finishes s bs (zeros bs) (set_latch false (n_program a (data ++ bs) (nor_of s))).
Proof.
  induction bs as [|b bs IH]; intros data a s Hok Ht Ha Hd Hl.
  - rewrite app_nil_r in *.
    destruct (finish_page_program_run a data (set_transaction Idle s)) as (f & Hrun & Hst);
      [by apply set_transaction_ok|done|done|done|].
    destruct (stored_commit _ _ _ (set_transaction_ok _ _ Hok) Hst) as [Hok' Hn'].
    eapply finishes_commit; [|exact Hok'|exact Hn'|apply Hst|done].
    unfold flash_set_selected, finish_transaction, take_transaction. unfold bind, gets, modify, ret. rewrite Ht. exact Hrun.
  - apply (finishes_cons _ _ _ _ _ _ (set_transaction (PageProgram a (data ++ [b])) s)); [|done|done|].
    + destruct s; cbn in *. by subst.
    + rewrite (cons_middle b data bs) in *. rewrite app_assoc in *.
      eapply finishes_eq; [apply (IH (data ++ [b])); [by apply set_transaction_ok|done|done|done|done]|done|done].
Qed.

Lemma status_write_nor t data s : Forall (uint 8) data -> uint 8 (status1 s) ->
  nor_of (finish_status_write t data s) = set_latch false (n_write_status t data (nor_of s)) /\
  uint 8 (status1 (finish_status_write t data s)).
Proof.
  intros Hd Hs. unfold finish_status_write. cbv zeta.
  assert (forall s1, uint 8 (status1 s1) -> uint 8 (status1 (write_enable (F := F) false s1))) as Hu
    by (intros s1 H1'; apply uint_land; [lia|done]).
  destruct data as [|a [|b data]]; [|inversion Hd as [|? ? Ha Hd']; subst..];
    destruct t; cbn [lookup list_lookup]; (split; [rewrite write_enable_nor|apply Hu]); cbn;
    try done; try (apply uint_land; [lia|done]);
    unfold set_latch, n_set_status, nor_of; cbn; f_equal; unfold BUSY; by rewrite land_not_bit.
Qed.

Lemma wstatus_finishes bs t : forall data s, flash_ok s -> transaction s = WriteStatus t data ->
  Forall (uint 8) (data ++ bs) -> finishes s bs (zeros bs) (set_latch false (n_write_status t (data ++ bs) (nor_of s))).
Proof.
  induction bs as [|b bs IH]; intros data s Hok Ht Hd.
  - rewrite app_nil_r in *. destruct (status_write_nor t data (set_transaction Idle s) Hd (fo_status _ Hok)) as [Hn Hu].
    assert (finish_status_write t data (set_transaction Idle s) =
      set_status (status1 (finish_status_write t data (set_transaction Idle s))) (status2 (finish_status_write t data (set_transaction Idle s)))
        (status3 (finish_status_write t data (set_transaction Idle s))) (set_transaction Idle s)) as Heq.
    { by destruct t, data as [|? [|? ?]], s. }
    apply (finishes_commit _ (finish_status_write t data (set_transaction Idle s))).
    + unfold flash_set_selected, finish_transaction, take_transaction. unfold bind, gets, modify, ret. by rewrite Ht.
    + rewrite Heq. destruct Hok. by split.
    + done.
    + by rewrite Heq.
    + by rewrite Heq.
  - apply (finishes_cons _ _ _ _ _ _ (set_transaction (WriteStatus t (data ++ [b])) s)); [|done|done|].
    + destruct s; cbn in *. by subst.
    + rewrite (cons_middle b data bs) in *. rewrite app_assoc in *.
      eapply finishes_eq; [apply (IH (data ++ [b])); [by apply set_transaction_ok|done|done]|done|done].
Qed.

(** The address bytes of a command: a frame that ends before they are complete
    does nothing; else the command goes on with the address. *)
Lemma collect_finishes act len bs : forall buf s, flash_ok s -> transaction s = CollectAddress act len buf -> (length buf < len <= 4)%nat ->
  Forall (uint 8) (buf ++ bs) ->
  ((length buf + length bs < len)%nat -> finishes s bs (zeros bs) (nor_of s)) /\
  ((len <= length buf + length bs)%nat -> forall out n,
    (exists s1, on_address_complete act (be_value (take len (buf ++ bs))) (set_transaction Idle s) = (Ok tt, s1) /\
      spare s1 = spare s /\ capacity s1 = capacity s /\ finishes s1 (drop len (buf ++ bs)) out n) ->
    finishes s bs (replicate (len - length buf) 0 ++ out) n).
Proof.
  induction bs as [|b bs IH]; intros buf s Hok Ht Hb Hu.
  { split; [|cbn [length]; lia]. intros _. apply finishes_quiet; [done|by rewrite Ht]. }
  pose proof Hu as Hu'. rewrite (cons_middle b buf bs), app_assoc in Hu'. cbn [length].
  assert (length (buf ++ [b]) = S (length buf)) as Hlb by (rewrite length_app; simpl; lia).
  destruct (decide (S (length buf) = len)) as [Hlen|Hlen].
  - split; [lia|]. intros _ out n (s1 & Hrun & Hsp & Hc & Hfin).
    replace (len - length buf)%nat with 1%nat by lia. rewrite (cons_middle b buf bs), app_assoc in Hrun, Hfin.
    rewrite take_app_length' in Hrun by lia. rewrite drop_app_length' in Hfin by lia.
    apply (finishes_cons _ _ _ _ _ _ s1); [|done|done|done].
    unfold flash_transfer, take_transaction, gets, modify, ret. unfold bind at 1 2 3. rewrite Ht. cbv zeta.
    rewrite bool_decide_true by lia. apply list.Forall_app in Hu' as [Hu1 _].
    rewrite address_from_bytes_value by (done || lia). unfold bind. by rewrite Hrun.
  - set (s1 := set_transaction (CollectAddress act len (buf ++ [b])) s).
    assert (flash_transfer b s = (Ok 0, s1)) as Hstep.
    { unfold flash_transfer, take_transaction, gets, modify, ret. unfold bind at 1 2 3. rewrite Ht. cbv zeta.
      rewrite bool_decide_false by lia. done. }
    destruct (IH (buf ++ [b]) s1) as [IHs IHl]; [by apply set_transaction_ok|done|lia|done|].
    split.
    + intros Hlt. apply (finishes_cons _ _ _ _ _ _ s1); [done|done|done|]. apply IHs. lia.
    + intros Hle out n Hex. replace (len - length buf)%nat with (S (len - length (buf ++ [b]))) by lia.
      apply (finishes_cons _ _ _ _ _ _ s1); [done|done|done|]. apply IHl; [lia|].
      by rewrite (cons_middle b buf bs), app_assoc in Hex.
Qed.

(** ** Commands *)

Definition run_command (c : NorCommand) : M Flash Empty_set unit :=
  match c with
  | CLatch b => modify (write_enable b) ;;; modify ignore_until_deselect
  | CStatus r => modify (set_transaction (match r with SR1 => ReadStatus1 | SR2 => ReadStatus2 | SR3 => ReadStatus3 end))
  | CJedec => modify (set_transaction (ReadJedecId 0))
  | CRead dummy kind => modify (collect_read (Z.of_nat dummy) kind)
  | CProgram kind => modify (collect_program kind)
  | CErase len kind => modify (collect_erase len kind)
  | CChipErase => cap <- gets capacity ;; guarded_erase 0 cap
  | CSfdp => modify (collect_address Sfdp ThreeByte)
  | CAddrMode four => modify (fun s => set_modes four (reset_enabled s) s) ;;; modify ignore_until_deselect
  | CWriteStatus t => modify (collect_status_write t)
  | CArmReset => modify (fun s => set_modes (four_byte_address_mode s) true s) ;;; modify ignore_until_deselect
  | CReset => armed <- gets reset_enabled ;;
      if armed : bool then modify reset ;;; modify ignore_until_deselect else modify ignore_until_deselect
  | CNop => modify ignore_until_deselect
  end.

(** The chain of opcodes in [start_command] is the command table. *)
Lemma start_command_table op s : start_command op s = run_command (nor_decode op) (set_transaction Idle s).
Proof.
  unfold start_command. rewrite (bind_Ok (modify (set_transaction Idle)) _ s tt (set_transaction Idle s) eq_refl).
  unfold nor_decode, nor_table.
  assert (forall k c t (m1 m2 : M Flash Empty_set unit) s0, (op = k -> m1 s0 = run_command c s0) -> m2 s0 = run_command (nor_find op t) s0 ->
    (if op =? k then m1 else m2) s0 = run_command (nor_find op ((k, c) :: t)) s0) as Hstep.
  { intros k c t m1 m2 s0 H1' H2'. cbn [nor_find]. destruct (Z.eqb_spec op k); auto. }
  assert (forall k1 k2 c t (m1 m2 : M Flash Empty_set unit) s0, (m1 s0 = run_command c s0) -> m2 s0 = run_command (nor_find op t) s0 ->
    (if (op =? k1) || (op =? k2) then m1 else m2) s0 = run_command (nor_find op ((k1, c) :: (k2, c) :: t)) s0) as Hstep2.
  { intros k1 k2 c t m1 m2 s0 H1' H2'. cbn [nor_find]. destruct (Z.eqb_spec op k1), (Z.eqb_spec op k2); auto. }
  do 17 (apply Hstep; [intros _; reflexivity|]). apply Hstep2; [reflexivity|]. do 7 (apply Hstep; [intros _; reflexivity|]).
  cbn [nor_find]. unfold bind, gets. destruct (Z.eqb_spec op RESET_DEVICE) as [->|Hne].
  - done.
  - change 0x99 with RESET_DEVICE. by rewrite (proj2 (Z.eqb_neq _ _) Hne).
Qed.

(** The commands of the table: at most one dummy byte, and blocks of a power
    of two. *)
Definition command_ok (c : NorCommand) : Prop :=
  match c with
  | CRead dummy _ => (dummy <= 1)%nat
  | CErase len _ => exists k, 0 <= k <= 32 /\ len = 2 ^ k
  | _ => True
  end.

Lemma nor_decode_ok op : command_ok (nor_decode op).
Proof.
  unfold nor_decode. assert (Forall (fun kc => command_ok (snd kc)) nor_table) as Ht.
  { repeat constructor; cbn; [by exists 12|by exists 12|by exists 15|by exists 16|by exists 16]. }
  induction nor_table as [|[k c] t IH]; [done|]. inversion Ht; subst. cbn [nor_find]. destruct (op =? k); auto.
Qed.

Lemma kind_len kind b : (3 <= AddressKind_len kind b <= 4)%nat.
Proof. destruct kind, b; simpl; lia. Qed.

(** One dummy byte, then the data. *)
Lemma dummy_finishes act a bs out s s1 : flash_ok s -> transaction s = Dummy act a 1 ->
  (match act with Read _ => s1 = set_transaction (ReadData a) s | Sfdp => s1 = set_transaction (ReadSfdp (wrap 32 a)) s | _ => False end) ->
  finishes s1 (drop 1 bs) out (nor_of s) -> finishes s bs (zeros (take 1 bs) ++ (if decide (bs = []) then [] else out)) (nor_of s).
Proof.
  intros Hok Ht Hs1 Hfin. destruct bs as [|b bs]; [by apply finishes_quiet; [|rewrite Ht]|].
  rewrite decide_False by done. apply (finishes_cons _ _ _ _ _ _ s1); [|by destruct act; subst|by destruct act; subst|done].
  unfold flash_transfer, take_transaction, gets, modify, ret. unfold bind. rewrite Ht. destruct act; subst; done.
Qed.

Lemma guarded_erase_run addr len c s : flash_ok s ->
  (exists f, erase_range addr len s = (Ok tt, set_file f s) /\ stored s c f) ->
  exists s1, guarded_erase addr len s = (Ok tt, s1) /\ flash_ok s1 /\ transaction s1 = Ignore /\ spare s1 = spare s /\ capacity s1 = capacity s /\
    nor_of s1 = if latch (nor_of s) then set_latch false (n_set_cells c (nor_of s)) else nor_of s.
Proof.
  intros Hok (f & Hrun & Hst). unfold guarded_erase. rewrite <- latch_nor. unfold bind, gets, modify, ret, log_err.
  destruct (write_is_enabled s).
  - rewrite Hrun. destruct (stored_commit s c f Hok Hst) as [Hok' Hn'].
    eexists. split; [reflexivity|]. split_and!; [by apply set_transaction_ok|done|apply Hst|done|exact Hn'].
  - eexists. split; [reflexivity|]. split_and!; [by apply set_transaction_ok|done..].
Qed.

Lemma zeros_split a d args : (a <= length args)%nat -> zeros (take (a + d) args) = replicate a 0 ++ zeros (take d (drop a args)).
Proof.
  intros Ha. unfold zeros. rewrite !length_take, length_drop, <- replicate_add. f_equal. lia.
Qed.

Lemma zeros_whole a args : (a <= length args)%nat -> zeros args = replicate a 0 ++ zeros (drop a args).
Proof. intros Ha. unfold zeros. rewrite length_drop, <- replicate_add. f_equal. lia. Qed.

(** A command with an address, from its opcode on. *)
Lemma address_finishes act kind args out n s : flash_ok s -> Forall (uint 8) args ->
  let a := AddressKind_len kind (four_byte_address_mode s) in
  ((length args < a)%nat -> out = zeros args /\ n = nor_of s) ->
  ((a <= length args)%nat -> exists s1 out', out = replicate a 0 ++ out' /\
    on_address_complete act (be_value (take a args)) (set_transaction Idle (collect_address act kind s)) = (Ok tt, s1) /\
    spare s1 = spare s /\ capacity s1 = capacity s /\ finishes s1 (drop a args) out' n) ->
  finishes (collect_address act kind s) args out n.
Proof.
  intros Hok Hb a Hshort Hlong. pose proof (kind_len kind (four_byte_address_mode s)) as Hk.
  destruct (collect_finishes act a args [] (collect_address act kind s)) as [Hs Hl];
    [by apply set_transaction_ok|done|subst a; simpl; lia|done|]. cbn [length app Nat.add] in Hs, Hl.
  destruct (Nat.lt_ge_cases (length args) a) as [Hlt|Hge].
  - destruct (Hshort Hlt) as [-> ->]. by apply Hs.
  - destruct (Hlong Hge) as (s1 & out' & -> & Hrun & Hsp & Hc & Hfin). rewrite <- (Nat.sub_0_r a) at 1. apply Hl; [done|]. eauto.
Qed.

Lemma address_value kind b args : Forall (uint 8) args -> uint 32 (be_value (take (AddressKind_len kind b) args)).
Proof. intros Hb. apply be_value_range4; [by apply list.Forall_take|]. rewrite length_take. pose proof (kind_len kind b). lia. Qed.

Lemma read_command dummy kind args s : (dummy <= 1)%nat -> flash_ok s -> Forall (uint 8) args -> Z.of_nat (length args) < 2 ^ 31 ->
  finishes (collect_read (Z.of_nat dummy) kind s) args (nor_answer (nor_of s) (CRead dummy kind) args) (nor_of s).
Proof.
  intros Hd Hok Hb Hl. pose proof (address_value kind (four_byte_address_mode s) args Hb) as Ha. unfold uint in Ha.
  cbn [nor_answer]. change (four_byte (nor_of s)) with (four_byte_address_mode s) in *.
  apply address_finishes; [done|done|..]; set (a := AddressKind_len kind (four_byte_address_mode s)) in *.
  { intros Hlt. rewrite take_ge, drop_ge by lia. by rewrite app_nil_r. }
  intros Hge. set (v := be_value (take a args)) in *. assert (Z.of_nat (length (drop a args)) < 2 ^ 31) by (rewrite length_drop; lia).
  destruct dummy as [|[|]]; [| |lia].
  - exists (set_transaction (ReadData v) s), (imap (fun i _ => n_read (nor_of s) (v + Z.of_nat i)) (drop a args)).
    rewrite Nat.add_0_r. split_and!; [|done|done|done|].
    + f_equal. unfold zeros. by rewrite length_take, Nat.min_l.
    + apply (read_finishes _ v (set_transaction (ReadData v) s)); [by apply set_transaction_ok|done|lia|lia].
  - exists (set_transaction (Dummy (Read 1) v 1) s). eexists.
    rewrite zeros_split, <- app_assoc by done. split_and!; [reflexivity|done|done|done|].
    eapply finishes_eq; [eapply (dummy_finishes (Read 1) v _ _ (set_transaction (Dummy (Read 1) v 1) s)); [by apply set_transaction_ok|done|reflexivity|]
      | |reflexivity].
    + refine (read_finishes _ v (set_transaction (ReadData v) (set_transaction (Dummy (Read 1) v 1) s)) _ _ _ _); [by repeat apply set_transaction_ok|done|lia|rewrite length_drop; lia].
    + rewrite drop_drop. f_equal. destruct (decide _) as [E|]; [|done].
      rewrite (drop_ge args (a + 1)); [done|]. apply (f_equal length) in E. rewrite length_drop in E. simpl in E. lia.
Qed.

Lemma sfdp_command args s : flash_ok s -> Forall (uint 8) args -> Z.of_nat (length args) < 2 ^ 31 ->
  finishes (collect_address Sfdp ThreeByte s) args (nor_answer (nor_of s) CSfdp args) (nor_of s).
Proof.
  intros Hok Hb Hl. cbn [nor_answer].
  assert (0 <= be_value (take 3 args) < 2 ^ 24) as Ha.
  { pose proof (be_value_range (take 3 args) (list.Forall_take _ _ _ Hb)).
    assert (256 ^ Z.of_nat (length (take 3 args)) <= 256 ^ 3); [|lia]. apply Z.pow_le_mono_r; rewrite ?length_take; lia. }
  apply address_finishes; [done|done|..]; cbn [AddressKind_len].
  { intros Hlt. rewrite take_ge, (drop_ge args 4) by lia. by rewrite app_nil_r. }
  intros Hge. set (v := be_value (take 3 args)) in *.
  exists (set_transaction (Dummy Sfdp v 1) s). eexists.
  rewrite (zeros_split 3 1), <- app_assoc by done. split_and!; [reflexivity|done|done|done|].
  eapply finishes_eq; [eapply (dummy_finishes Sfdp v _ _ (set_transaction (Dummy Sfdp v 1) s)); [by apply set_transaction_ok|done|reflexivity|]
    | |reflexivity].
  - rewrite wrap_small by (unfold uint; lia).
    refine (sfdp_finishes _ v (set_transaction (ReadSfdp v) (set_transaction (Dummy Sfdp v 1) s)) _ _ _ _); [by repeat apply set_transaction_ok|done|lia|rewrite !length_drop; lia].
  - rewrite drop_drop. f_equal. destruct (decide _) as [E|]; [|done].
    rewrite (drop_ge args 4); [done|]. apply (f_equal length) in E. rewrite length_drop in E. simpl in E. lia.
Qed.

Lemma program_command kind args s : latch (nor_of s) = true -> flash_ok s -> Forall (uint 8) args -> Z.of_nat (length args) < 2 ^ 31 ->
  finishes (collect_address Program kind s) args (zeros args) (nor_effect (nor_of s) (CProgram kind) args).
Proof.
  intros Hla Hok Hb Hl. pose proof (address_value kind (four_byte_address_mode s) args Hb) as Ha.
  cbn [nor_effect]. rewrite Hla. change (four_byte (nor_of s)) with (four_byte_address_mode s). cbn [andb].
  apply address_finishes; [done|done|..]; set (a := AddressKind_len kind (four_byte_address_mode s)) in *.
  { intros Hlt. by rewrite (proj2 (Nat.leb_gt _ _)). }
  intros Hge. rewrite (proj2 (Nat.leb_le _ _)) by done. set (v := be_value (take a args)) in *.
  exists (set_transaction (PageProgram v []) s), (zeros (drop a args)). split_and!; [by apply zeros_whole| |done|done|].
  - unfold on_address_complete, bind, gets. change (write_is_enabled (set_transaction Idle (collect_address Program kind s)))
      with (write_is_enabled s). by rewrite latch_nor, Hla.
  - eapply finishes_eq; [apply (program_finishes (drop a args) [] v); [by apply set_transaction_ok|done|done|by apply list.Forall_drop|]|done|done].
    cbn [app]. rewrite length_drop. lia.
Qed.

Lemma erase_command k kind args s : 0 <= k <= 32 -> latch (nor_of s) = true -> flash_ok s -> Forall (uint 8) args ->
  finishes (collect_address (Erase (2 ^ k)) kind s) args (zeros args) (nor_effect (nor_of s) (CErase (2 ^ k) kind) args).
Proof.
  intros Hk Hla Hok Hb. pose proof (address_value kind (four_byte_address_mode s) args Hb) as Ha.
  cbn [nor_effect]. rewrite Hla. change (four_byte (nor_of s)) with (four_byte_address_mode s). cbn [andb].
  apply address_finishes; [done|done|..]; set (a := AddressKind_len kind (four_byte_address_mode s)) in *.
  { intros Hlt. by rewrite (proj2 (Nat.leb_gt _ _)). }
  intros Hge. rewrite (proj2 (Nat.leb_le _ _)) by done. set (v := be_value (take a args)) in *.
  set (s0 := set_transaction Idle (collect_address (Erase (2 ^ k)) kind s)).
  assert (flash_ok s0) as Hok0 by (by repeat apply set_transaction_ok).
  destruct (guarded_erase_run v (2 ^ k) (cells (n_erase v (2 ^ k) (nor_of s0))) s0 Hok0 (erase_range_run v k s0 Hok0 Ha Hk))
    as (s1 & Hrun & Hok1 & Ht1 & Hsp1 & Hc1 & Hn1).
  exists s1, (zeros (drop a args)). split_and!; [by apply zeros_whole|done|done|done|].
  eapply finishes_eq; [by apply ignore_finishes|done|]. rewrite Hn1. change (nor_of s0) with (nor_of s). rewrite Hla.
  unfold n_erase. destruct (_ <? _); [done|by rewrite n_set_cells_same].
Qed.

Lemma ignored args n s : flash_ok s -> n = nor_of s -> finishes (ignore_until_deselect s) args (zeros args) n.
Proof. intros Hok ->. by apply (ignore_finishes args (set_transaction Ignore s)); [apply set_transaction_ok|]. Qed.

Lemma set_modes_ok four armed s : flash_ok s -> flash_ok (set_modes four armed s).
Proof. by intros []. Qed.

Lemma reset_nor s : flash_ok s -> flash_ok (reset s) /\ nor_of (reset s) = n_reset (nor_of s).
Proof.
  intros [Hw Hc Hl Hs]. assert (uint 8 (Z.land (status1 s) (bnot 8 BUSY))) as Hu by (by apply uint_land).
  split; [split; try done; cbn; by apply uint_land|]. unfold nor_of, n_reset, n_set_modes, n_set_status. cbn. f_equal.
  unfold WRITE_ENABLE_LATCH. rewrite (land_not_bit _ 1) by (done || lia). f_equal. by apply (land_not_bit _ 0).
Qed.

(** Every command of the table, from its opcode to the deselect edge. *)
Lemma command_refines c args s : command_ok c -> flash_ok s -> Forall (uint 8) args -> Z.of_nat (length args) < 2 ^ 31 ->
  exists s1, run_command c s = (Ok tt, s1) /\ spare s1 = spare s /\ capacity s1 = capacity s /\
    finishes s1 args (nor_answer (nor_of s) c args) (nor_effect (nor_of s) c args).
Proof.
  intros Hc Hok Hb Hl. destruct c as [b|r| |dummy kind|kind|len kind| | |four|t| | |]; cbn [run_command command_ok] in *.
  - eexists. split_and!; [reflexivity|done|done|]. apply ignored; [by apply write_enable_ok|]. symmetry. apply write_enable_nor, Hok.
  - eexists. split_and!; [reflexivity|done|done|].
    refine (status_finishes args r (set_transaction _ s) _ _); [by apply set_transaction_ok|by destruct r].
  - eexists. split_and!; [reflexivity|done|done|].
    refine (jedec_finishes args 0 (set_transaction (ReadJedecId 0) s) _ _ _); [by apply set_transaction_ok|done|lia].
  - eexists. split_and!; [reflexivity|done|done|by apply read_command].
  - exists (collect_program kind s). unfold collect_program, collect_write_address. rewrite latch_nor.
    destruct (latch (nor_of s)) eqn:Hla; (split_and!; [unfold modify; by rewrite latch_nor, Hla|done|done|]).
    + by apply program_command.
    + apply ignored; [done|]. cbn [nor_effect]. by rewrite Hla.
  - destruct Hc as (k & Hk & ->). exists (collect_erase (2 ^ k) kind s). unfold collect_erase, collect_write_address. rewrite latch_nor.
    destruct (latch (nor_of s)) eqn:Hla; (split_and!; [unfold modify; by rewrite latch_nor, Hla|done|done|]).
    + by apply erase_command.
    + apply ignored; [done|]. cbn [nor_effect]. by rewrite Hla.
  - destruct (guarded_erase_run 0 (capacity s) _ s Hok (chip_erase_run s Hok)) as (s1 & Hrun & Hok1 & Ht1 & Hsp1 & Hc1 & Hn1).
    exists s1. split_and!; [exact Hrun|done|done|]. eapply finishes_eq; [by apply ignore_finishes|done|done].
  - eexists. split_and!; [reflexivity|done|done|by apply sfdp_command].
  - eexists. split_and!; [reflexivity|done|done|]. apply ignored; [by apply set_modes_ok|done].
  - exists (collect_status_write t s). unfold collect_status_write. rewrite latch_nor.
    destruct (latch (nor_of s)) eqn:Hla; (split_and!; [unfold modify; by rewrite latch_nor, Hla|done|done|]); cbn [nor_effect]; rewrite Hla.
    + refine (wstatus_finishes args t [] (set_transaction (WriteStatus t []) s) _ _ _); [by apply set_transaction_ok|done|done].
    + by apply ignored.
  - eexists. split_and!; [reflexivity|done|done|]. apply ignored; [by apply set_modes_ok|done].
  - unfold bind, gets. destruct (reset_nor s Hok) as [Hokr Hnr]. destruct (reset_enabled s) eqn:Har.
    + eexists. split_and!; [reflexivity|done|done|]. apply ignored; [done|]. cbn [nor_effect reset_armed nor_of]. by rewrite Har, Hnr.
    + eexists. split_and!; [reflexivity|done|done|]. apply ignored; [done|]. cbn [nor_effect reset_armed nor_of]. by rewrite Har.
  - eexists. split_and!; [reflexivity|done|done|]. by apply ignored.
Qed.

(** A whole frame. *)
Lemma session_refines frame s : flash_ok s -> Forall (uint 8) frame -> Z.of_nat (length frame) <= 2 ^ 31 ->
  exists s', slave_session frame s = (Ok (fst (nor_session (nor_of s) frame)), s') /\
    flash_ok s' /\ nor_of s' = snd (nor_session (nor_of s) frame) /\ spare s' = spare s /\ capacity s' = capacity s.
Proof.
  intros Hok Hb Hl. set (s0 := set_transaction Idle s). assert (flash_ok s0) as Hok0 by (by apply set_transaction_ok).
  change (slave_session frame s) with ((o <- transfers frame ;; set_selected false ;;; ret o) s0).
  change (spare s) with (spare s0). change (capacity s) with (capacity s0). change (nor_of s) with (nor_of s0).
  destruct frame as [|op args]; [by apply finishes_quiet|]. cbn [nor_session fst snd]. inversion Hb; subst.
  destruct (command_refines (nor_decode op) args s0) as (s1 & Hrun & Hsp & Hc & Hfin);
    [apply nor_decode_ok|done|done|cbn [length] in Hl; lia|].
  refine (finishes_cons op args 0 _ _ s0 s1 _ Hsp Hc Hfin).
  rewrite (transfer_run op s0 Idle) by done. unfold bind. rewrite start_command_table.
  change (set_transaction Idle s0) with s0. by rewrite Hrun.
Qed.

(** C31: The flash refines the abstract NOR chip: with a backing file whose
    calls succeed, a chip-select frame of bytes clocked into the device one at
    a time gets exactly the answer of [nor_session] and leaves the cells, the
    status registers and the modes [nor_session] prescribes (programming only
    clears bits and wraps inside its page, erasing sets an aligned block, both
    only with the write enable latch, which they clear; a frame cut short
    before the end of its address does nothing); bytes of the file past the
    chip's capacity never change. *)
Theorem flash_session_refines frame s : flash_ok s -> Forall (uint 8) frame -> Z.of_nat (length frame) <= 2 ^ 31 ->
  exists s', slave_session frame s = (Ok (fst (nor_session (nor_of s) frame)), s') /\
    flash_ok s' /\ nor_of s' = snd (nor_session (nor_of s) frame) /\ spare s' = spare s /\ capacity s' = capacity s.
Proof. apply session_refines. Qed.
End Sessions.

(** ** The write enable latch *)
Section Latch.
Context `{Profile} {F : Type} `{StdFileLaws F}.
Local Notation Flash := (W25Q512JVQ F).
Implicit Types s : Flash.

Definition transaction_ok (t : Transaction) : Prop :=
  match t with
  | CollectAddress _ _ buf => Forall (uint 8) buf
  | Dummy _ a _ | ReadData a => 0 <= a
  | _ => True
  end.

(** A frame that began with the latch clear: either nothing more happens until
    the chip is deselected, or the latch is still clear and nothing waits to be
    committed. *)
Record locked (l : list Z) (x2 x3 : Z) (s : Flash) : Prop := {
  lk_wf : sf_wf (file s);
  lk_bytes : sf_bytes (file s) = l;
  lk_2 : status2 s = x2;
  lk_3 : status3 s = x3;
  lk_state : transaction s = Ignore \/ (write_is_enabled s = false /\ quiet (transaction s) /\ transaction_ok (transaction s))
}.

Lemma locked_moved l x2 x3 s t : locked l x2 x3 s -> write_is_enabled s = false -> quiet t -> transaction_ok t ->
  locked l x2 x3 (set_transaction t s).
Proof. intros [Hw Hb H2' H3' _] Hl Hq Ht. split; try done. by right. Qed.

Lemma locked_ignore l x2 x3 s : locked l x2 x3 s -> locked l x2 x3 (ignore_until_deselect s).
Proof. intros [Hw Hb H2' H3' _]. split; try done. by left. Qed.

(** A read moves the file position at most, even when it fails. *)
Lemma read_byte_keeps a s l x2 x3 : locked l x2 x3 s -> 0 <= a -> locked l x2 x3 (snd (read_byte a s)).
Proof.
  intros Hk Ha. unfold read_byte, bind at 1, gets. destruct (capacity s <=? a); [done|].
  unfold on_file, zoom, bind, io. destruct (seek_start a (file s)) as [r1 f1] eqn:E1.
  destruct (seek_start_law a (file s) r1 f1 (lk_wf _ _ _ _ Hk) Ha E1) as (Hf1 & Hb1 & _).
  assert (forall f, sf_wf f -> sf_bytes f = sf_bytes (file s) -> locked l x2 x3 (set_file f s)) as Hset.
  { intros f Hf Hb. destruct Hk. split; try done. cbn. congruence. }
  destruct r1; [|by apply Hset]. destruct (read_exact 1 f1) as [r2 f2] eqn:E2.
  destruct (read_exact_law 1 f1 r2 f2 Hf1 E2) as (Hf2 & Hb2 & _). destruct r2; apply Hset; congruence.
Qed.

Lemma run_command_locked c s l x2 x3 : locked l x2 x3 s -> write_is_enabled s = false ->
  locked l x2 x3 (snd (run_command c s)).
Proof.
  intros Hk Hl. pose proof Hk as [Hw Hb H2' H3' _].
  destruct c; cbn [run_command]; unfold modify, bind, gets, snd;
    try (by apply locked_moved; [|done|destruct r|destruct r]);
    try (by split; try done; left); try (by apply locked_moved);
    try (by apply locked_moved; [|done|done|constructor]).
  - unfold collect_program, collect_write_address. rewrite Hl. by apply locked_ignore.
  - unfold collect_erase, collect_write_address. rewrite Hl. by apply locked_ignore.
  - unfold guarded_erase, bind, gets. rewrite Hl. by apply locked_ignore.
  - unfold collect_status_write. rewrite Hl. by apply locked_ignore.
  - destruct (reset_enabled s); split; try done; by left.
Qed.

Lemma address_nonneg bs : Forall (uint 8) bs -> 0 <= address_from_bytes bs.
Proof.
  intros Hb. unfold address_from_bytes. assert (forall v, 0 <= v -> 0 <= fold_left (fun addr byte => Z.lor (shl 64 addr 8) byte) bs v) as K.
  { induction Hb as [|b bs Hb1 Hb IH]; [done|]. intros v Hv. cbn. apply IH. apply Z.lor_nonneg. split; [apply wrap_range; lia|apply Hb1]. }
  by apply K.
Qed.

Lemma address_complete_locked act a s l x2 x3 : locked l x2 x3 s -> write_is_enabled s = false -> 0 <= a ->
  locked l x2 x3 (snd (on_address_complete act a s)).
Proof.
  intros Hk Hl Ha. destruct act; cbn [on_address_complete]; unfold modify, bind, gets, snd.
  - destruct (_ =? _); by apply locked_moved.
  - rewrite Hl. by apply locked_ignore.
  - unfold guarded_erase, bind, gets. rewrite Hl. by apply locked_ignore.
  - by apply locked_moved.
Qed.

Lemma snd_then_ret {S E A B} (m : M S E A) (b : B) (s : S) : snd ((m ;;; (fun t => (Ok b, t))) s) = snd (m s).
Proof. unfold bind. by destruct (m s) as [[]]. Qed.

Lemma transfer_locked b s l x2 x3 : uint 8 b -> locked l x2 x3 s -> locked l x2 x3 (snd (flash_transfer b s)).
Proof.
  intros Hb8 Hk. pose proof Hk as [Hw Hb H2' H3' [Hig|(Hl & Hq & Ht)]].
  { destruct s as [f c t]; cbn in Hig; subst t. apply Hk. }
  set (s0 := set_transaction Idle s). assert (locked l x2 x3 s0) as Hk0 by (by apply locked_moved).
  assert (flash_transfer b s = match transaction s with
    | t => (fun t => flash_transfer b (set_transaction t s0)) t end) as -> by (by destruct s).
  destruct (transaction s) eqn:Et; cbn in Hq, Ht; unfold flash_transfer, take_transaction, gets, modify, ret;
    unfold bind at 1 2 3; cbn [set_transaction transaction]; fold s0; try done; try (by apply locked_moved).
  - change (set_transaction Idle (set_transaction Idle s0)) with s0. rewrite snd_then_ret, start_command_table. by apply run_command_locked.
  - unfold add_chk, bind. destruct (_ && _); unfold panic, ret; cbn; by refine (locked_moved l x2 x3 s0 _ Hk0 Hl _ _).
  - cbv zeta. rewrite snd_then_ret. assert (Forall (uint 8) (buf ++ [b])) by (apply list.Forall_app_2; [done|by constructor]).
    destruct (bool_decide _).
    + apply address_complete_locked; [done|done|by apply address_nonneg].
    + by refine (locked_moved l x2 x3 s0 _ Hk0 Hl _ _).
  - rewrite snd_then_ret. destruct (_ <? _); [by refine (locked_moved l x2 x3 s0 _ Hk0 Hl _ _)|].
    destruct action; by refine (locked_moved l x2 x3 s0 _ Hk0 Hl _ _).
  - unfold bind. apply read_byte_keeps; [|done]. refine (locked_moved l x2 x3 s0 _ Hk0 Hl _ _); [done|]. apply wrap_range. lia.
Qed.

Lemma transfers_locked bs : forall s l x2 x3, Forall (uint 8) bs -> locked l x2 x3 s -> locked l x2 x3 (snd (transfers bs s)).
Proof.
  induction bs as [|b bs IH]; intros s l x2 x3 Hb Hk; [done|]. inversion Hb; subst. cbn [transfers].
  pose proof (transfer_locked b s l x2 x3) as Ht. unfold bind. change (transfer b s) with (flash_transfer b s).
  destruct (flash_transfer b s) as [[o|e|] s1]; [|by apply Ht..]. cbn in Ht.
  pose proof (IH s1 l x2 x3) as IH'. destruct (transfers bs s1) as [[o'|e|] s2]; by apply IH', Ht.
Qed.

Lemma deselect_locked s l x2 x3 : locked l x2 x3 s ->
  let s' := snd (flash_set_selected false s) in sf_bytes (file s') = l /\ status2 s' = x2 /\ status3 s' = x3.
Proof.
  intros [Hw Hb H2' H3' Hst]. unfold flash_set_selected, finish_transaction, take_transaction, bind, gets, modify, ret.
  destruct Hst as [->|(_ & Hq & _)]; [done|]. by destruct (transaction s).
Qed.

(** The write enable latch guards the chip: a frame that begins with the
    latch clear leaves every byte of the backing file and status registers 2
    and 3 as they were, whatever bytes are sent and whatever the host file
    does, also when seeks and reads fail; a frame that sets the latch does not
    use it. *)
Theorem latch_guards_chip frame s r s' : sf_wf (file s) -> Forall (uint 8) frame -> write_is_enabled s = false ->
  slave_session frame s = (r, s') ->
  sf_bytes (file s') = sf_bytes (file s) /\ status2 s' = status2 s /\ status3 s' = status3 s.
Proof.
  intros Hw Hb Hl Hrun. set (s0 := set_transaction Idle s).
  assert (locked (sf_bytes (file s)) (status2 s) (status3 s) s0) as Hk by (split; try done; by right).
  pose proof (transfers_locked frame s0 _ _ _ Hb Hk) as Hk1.
  change (slave_session frame s) with ((o <- transfers frame ;; set_selected false ;;; ret o) s0) in Hrun. unfold bind in Hrun.
  destruct (transfers frame s0) as [[o|e|] s1]; [|destruct e|by injection Hrun as _ <-; destruct Hk1].
  pose proof (deselect_locked s1 _ _ _ Hk1) as Hd. change (set_selected false s1) with (flash_set_selected false s1) in Hrun.
  destruct (flash_set_selected false s1) as [[u|e|] s2]; [|destruct e|]; by injection Hrun as _ <-.
Qed.
End Latch.

(** ** Opening an image *)
Section Image.
Context `{Profile} {F : Type} `{StdFileReliable F}.

Lemma overwrite_tail (l bs : list Z) : overwrite (l ++ replicate (length bs) 0) (length l) bs = l ++ bs.
Proof. unfold overwrite. by rewrite take_app_length, <- (length_replicate (length bs) 0), <- length_app, drop_all, app_nil_r at 1. Qed.

Lemma ensure_capacity_run cap f : sf_wf f -> 0 <= cap < 2 ^ 63 ->
  exists f', ensure_capacity cap f = (Ok tt, f') /\ sf_wf f' /\
    sf_bytes f' = sf_bytes f ++ replicate (Z.to_nat cap - length (sf_bytes f)) 0xFF.
Proof.
  intros Hf Hc. unfold ensure_capacity. destruct (seek_end_reliable f Hf) as [n Hn].
  destruct (seek_end f) as [r f1] eqn:E1. cbn in Hn. subst r. destruct (seek_end_law f _ f1 Hf E1) as (Hf1 & Hb1 & Hn). specialize (Hn n eq_refl).
  rewrite (bind_Ok (io seek_end) _ f n f1) by (unfold io; by rewrite E1). destruct (Z.leb_spec cap n).
  { exists f1. replace (Z.to_nat cap - length (sf_bytes f))%nat with 0%nat by lia. by rewrite app_nil_r. }
  pose proof (set_len_reliable cap f1 Hf1 Hc) as Hr. destruct (set_len cap f1) as [r2 f2] eqn:E2. cbn in Hr. subst r2.
  destruct (set_len_law cap f1 _ f2 Hf1 (proj1 Hc) E2) as (Hf2 & Hb2). specialize (Hb2 eq_refl).
  rewrite (bind_Ok (io (set_len cap)) _ f1 tt f2) by (unfold io; by rewrite E2).
  rewrite (bind_Ok _ _ _ _ _ (sub_chk_run cap n _ ltac:(lia) ltac:(lia))).
  rewrite Hb1, take_ge in Hb2 by lia. set (k := (Z.to_nat cap - length (sf_bytes f))%nat) in *.
  destruct (fill_file_range_run n (cap - n) ERASED_BYTE f2) as (f3 & Hrun & Hf3 & Hb3);
    [done|by cbv|lia|lia|rewrite Hb2, length_app, length_replicate; lia|lia|].
  exists f3. split_and!; [done|done|]. rewrite Hb3, Hb2, Hn, Nat2Z.id. replace (Z.to_nat (cap - _)) with k by lia.
  rewrite <- (length_replicate k 0xFF) at 1. apply overwrite_tail.
Qed.

(** Opening a flash image: the device starts idle with the latch clear, in
    three-byte address mode; the bytes already in the image are kept, and an
    image shorter than the chip is grown to its capacity with erased bytes. *)
Theorem image_opens_erased f cap : sf_wf f -> 0 <= cap < 2 ^ 63 ->
  exists s, with_capacity f cap = Ok s /\ flash_ok s /\ transaction s = Idle /\ write_is_enabled s = false /\
    sf_bytes (file s) = sf_bytes f ++ replicate (Z.to_nat cap - length (sf_bytes f)) 0xFF /\
    nor_of s = {| cells := take (Z.to_nat cap) (sf_bytes f) ++ replicate (Z.to_nat cap - length (sf_bytes f)) 0xFF;
                  n_status1 := 0; n_status2 := 2; n_status3 := 0; four_byte := false; reset_armed := false |}.
Proof.
  intros Hf Hc. destruct (ensure_capacity_run cap f Hf Hc) as (f' & Hrun & Hf' & Hb').
  unfold with_capacity. rewrite Hrun. eexists. split; [reflexivity|]. split_and!; [|done|done|done|].
  - split; cbn; [done|done|rewrite Hb', length_app, length_replicate; lia|by cbv].
  - unfold nor_of. cbn. f_equal. rewrite Hb', take_app, take_replicate. do 2 f_equal. lia.
Qed.
End Image.

(** ** Witnesses *)

#[local] Instance flash_profile : Profile := Prelude.dev.

(** A chip of one page in a file of 300 bytes, all zero. *)
Definition demo_flash : W25Q512JVQ ByteFile :=
  Build_W25Q512JVQ {| bf_bytes := replicate 300 0; bf_pos := 0 |} 256 Idle 2 2 0 false false.

Lemma demo_flash_ok : flash_ok demo_flash.
Proof. split; [by apply list.Forall_replicate|done|by vm_compute|done]. Qed.

(** Erasing it with the latch set. *)
Lemma flash_session_refines_witness : exists s',
  slave_session [0x20; 0; 0; 7] demo_flash = (Ok [0; 0; 0; 0], s') /\
  cells (nor_of s') = replicate 256 0xFF /\ spare s' = replicate 44 0.
Proof.
  destruct (flash_session_refines [0x20; 0; 0; 7] demo_flash) as (s' & Hrun & _ & Hn & Hsp & _).
  - apply demo_flash_ok.
  - by repeat constructor.
  - by cbv.
  - exists s'. rewrite Hrun, Hn, Hsp. split_and!; vm_compute; reflexivity.
Defined.

Lemma latch_guards_chip_witness :
  sf_bytes (file (snd (slave_session [0x06; 0x20; 0; 0; 7] (write_enable false demo_flash)))) = replicate 300 0.
Proof.
  refine (proj1 (latch_guards_chip [0x06; 0x20; 0; 0; 7] (write_enable false demo_flash) _ _ _ _ _ _));
    [by apply list.Forall_replicate|by repeat constructor|done|apply surjective_pairing].
Defined.

Lemma image_opens_erased_witness : exists s,
  with_capacity {| bf_bytes := [1; 2]; bf_pos := 0 |} 4 = Ok s /\ sf_bytes (file s) = [1; 2; 255; 255].
Proof.
  destruct (image_opens_erased {| bf_bytes := [1; 2]; bf_pos := 0 |} 4) as (s & Hrun & _ & _ & _ & Hb & _).
  - by repeat constructor.
  - by cbv.
  - exists s. split; [exact Hrun|]. rewrite Hb. vm_compute. reflexivity.
Defined.
