(* ===== verification/SpiSpec.v ===== *)
(** * What the SPI controller promises

    A driver that holds the chip select, exchanges bytes through TXDATA and
    RXDATA and releases the chip select runs one session of the slave: the
    registers, the FIFO and the bit order are transparent.  Every access keeps
    the invariant of the controller, and the index of the selected slave is
    always in range. *)

From S2P Require Import Prelude Utils TrapTypes Device Spi SpiFlash SpiStore.

#[local] Arguments Z.land : simpl never.
#[local] Arguments Z.lor : simpl never.
#[local] Arguments Z.of_nat : simpl never.
#[local] Arguments Z.to_nat : simpl never.

(** ** Bit order *)

Lemma reverse_bits_byte v : uint 8 (reverse_bits v).
Proof.
  unfold reverse_bits. cbn [fold_right].
  repeat (apply uint_lor; [lia|destruct (Z.testbit v _); by cbv|]). by cbv.
Qed.

Definition all_bytes : list Z := map Z.of_nat (seq 0 256).

Lemma all_bytes_spec (P : Z -> bool) : forallb P all_bytes = true -> forall v, uint 8 v -> P v = true.
Proof.
  intros Hall v Hv. rewrite forallb_forall in Hall. apply Hall. apply in_map_iff. exists (Z.to_nat v).
  unfold uint in Hv. split; [lia|]. apply in_seq. lia.
Qed.

Lemma reverse_bits_involutive v : uint 8 v -> reverse_bits (reverse_bits v) = v.
Proof.
  intros Hv. apply Z.eqb_eq. revert v Hv. apply (all_bytes_spec (fun v => reverse_bits (reverse_bits v) =? v)). by vm_compute.
Qed.

Section Driver.
Context {D : Type} `{SpiSlaveDevice D}.
Local Notation Spi := (SifiveSpiController D).
Implicit Types s : Spi.

(** ** A polling driver *)

Definition exchange (b : Z) : M Spi MemError Z := spi_write TXDATA 4 b ;;; spi_read RXDATA 4.

Fixpoint exchanges (bytes : list Z) : M Spi MemError (list Z) :=
  match bytes with
  | [] => ret []
  | b :: bytes => o <- exchange b ;; out <- exchanges bytes ;; ret (o :: out)
  end.

Definition driver_session (frame : list Z) : M Spi MemError (list Z) :=
  spi_write CSMODE 4 CSMODE_HOLD ;;; out <- exchanges frame ;; spi_write CSMODE 4 CSMODE_AUTO ;;; ret out.

(** The bits of a byte on the wire. *)
Definition wire s (b : Z) : Z := if lsb_first s then reverse_bits b else b.

(** A controller at rest, its chip select on the slave [d]. *)
Record resting s (d : D) : Prop := {
  rs_mode : csmode s <> CSMODE_HOLD;
  rs_id : 0 <= csid s;
  rs_slave : slaves s !! Z.to_nat (csid s) = Some (Some d);
  rs_fifo : rx_fifo s = [];
  rs_dir : rx_enabled s = true
}.

(** The same controller with the chip select held (or released), another state
    of the slave, and new pending bits. *)
Definition moved s (mode : Z) (d : D) (p : Z) : Spi :=
  set_irqs (ie s) p (set_cs (csid s) (csdef s) mode (set_slaves (<[Z.to_nat (csid s) := Some d]> (slaves s)) s)).

Lemma spi_write_word addr v s : uint 32 v -> addr mod 4 = 0 -> spi_write addr 4 v s = write_register addr v s.
Proof.
  intros Hv Ha. unfold spi_write, dispatch_write, spi_write_impl, truncate_from. cbn -[write_register wrap].
  rewrite Ha. cbn -[write_register wrap]. rewrite wrap_wrap by lia. by rewrite wrap_small.
Qed.

Lemma spi_read_word addr v s s' : uint 32 v -> addr mod 4 = 0 -> read_register addr s = (Ok v, s') -> spi_read addr 4 s = (Ok v, s').
Proof.
  intros Hv Ha Hr. unfold spi_read, dispatch_read, spi_read_impl, truncate_from. cbn -[read_register wrap].
  rewrite Ha. cbn -[read_register wrap]. unfold bind. rewrite Hr. cbn -[wrap]. by rewrite wrap_small.
Qed.

Lemma selected_held s : csmode s = CSMODE_HOLD -> 0 <= csid s -> (Z.to_nat (csid s) < length (slaves s))%nat ->
  selected_chip s = Some (Z.to_nat (csid s)).
Proof. intros Hm Hi Hl. unfold selected_chip. rewrite Hm, Z.eqb_refl, (proj2 (Z.ltb_lt _ _)) by lia. done. Qed.

Lemma selected_released s : csmode s <> CSMODE_HOLD -> selected_chip s = None.
Proof. intros Hm. unfold selected_chip. by rewrite (proj2 (Z.eqb_neq _ _) Hm). Qed.

Lemma with_slave_run {E A} i d (m : M D Empty_set A) a d' s : slaves s !! i = Some (Some d) -> m d = (Ok a, d') ->
  with_slave (E := E) i m s = (Ok (Some a), set_slaves (<[i := Some d']> (slaves s)) s).
Proof. intros Hs Hm. unfold with_slave, map_err. by rewrite Hs, Hm. Qed.

(** Taking the chip select. *)
Lemma hold_run d d' s : resting s d -> set_selected true d = (Ok tt, d') ->
  spi_write CSMODE 4 CSMODE_HOLD s = (Ok tt, moved s CSMODE_HOLD d' (ip s)).
Proof.
  intros [Hm Hi Hs Hf Hd] Hsel. pose proof (lookup_lt_Some _ _ _ Hs).
  rewrite spi_write_word by (done || by cbv). change (write_register CSMODE CSMODE_HOLD) with (set_csmode (D := D) (E := MemError) CSMODE_HOLD).
  unfold set_csmode, bind, gets, modify. rewrite (selected_released s Hm). change (Z.land CSMODE_HOLD CSMODE_MASK) with CSMODE_HOLD.
  rewrite selected_held by done. unfold update_selected_chip. rewrite bool_decide_false by done. unfold bind, ret.
  erewrite (with_slave_run _ d) by done. by destruct s.
Qed.

(** Releasing it. *)
Lemma release_run d d1 d' p s : resting s d -> set_selected false d1 = (Ok tt, d') ->
  spi_write CSMODE 4 CSMODE_AUTO (moved s CSMODE_HOLD d1 p) = (Ok tt, moved s CSMODE_AUTO d' p).
Proof.
  intros [Hm Hi Hs Hf Hd] Hsel. pose proof (lookup_lt_Some _ _ _ Hs).
  rewrite spi_write_word by (done || by cbv). change (write_register CSMODE CSMODE_AUTO) with (set_csmode (D := D) (E := MemError) CSMODE_AUTO).
  unfold set_csmode, bind, gets, modify. rewrite selected_held; [|done|done|by cbn; rewrite length_insert].
  rewrite (selected_released (set_cs _ _ _ _)) by done. unfold update_selected_chip. rewrite bool_decide_false by done. unfold bind, ret.
  erewrite (with_slave_run _ d1); [|cbn; by apply list_lookup_insert_eq|done].
  unfold moved, set_slaves, set_cs, set_irqs. cbn. by rewrite list_insert_insert_eq.
Qed.

Lemma wire_byte s b : uint 8 b -> uint 8 (wire s b).
Proof. intros Hb. unfold wire. destruct (lsb_first s); [apply reverse_bits_byte|done]. Qed.

Lemma wire_wire s b : uint 8 b -> wire s (wire s b) = b.
Proof. intros Hb. unfold wire. destruct (lsb_first s); [by apply reverse_bits_involutive|done]. Qed.

(** One byte each way through the FIFO. *)
Lemma exchange_run d d1 d' b o p s : resting s d -> uint 8 b -> uint 8 o -> transfer (wire s b) d1 = (Ok o, d') ->
  exists p', exchange b (moved s CSMODE_HOLD d1 p) = (Ok (wire s o), moved s CSMODE_HOLD d' p').
Proof.
  intros [Hm Hi Hs Hf Hd] Hb Ho Ht. pose proof (lookup_lt_Some _ _ _ Hs). set (s1 := moved s CSMODE_HOLD d1 p).
  assert (transfer_byte (E := MemError) b s1 =
    (Ok tt, set_rx_fifo [wire s o] (set_slaves (<[Z.to_nat (csid s) := Some d']> (slaves s1)) s1))) as Hx.
  { unfold transfer_byte, bind, gets. rewrite selected_held; [|done|done|by cbn; rewrite length_insert].
    change (lsb_first s1) with (lsb_first s). change (Z.to_nat (csid s1)) with (Z.to_nat (csid s)). fold (wire s b).
    erewrite (with_slave_run _ d1); [|cbn; by apply list_lookup_insert_eq|done]. unfold modify. cbn [rx_fifo set_slaves].
    change (rx_enabled (set_slaves _ s1)) with (rx_enabled s). rewrite Hd. change (rx_fifo s1) with (rx_fifo s). rewrite Hf. done. }
  eexists. unfold exchange, bind at 1. rewrite spi_write_word; [|unfold uint in *; lia|by cbv].
  change (write_register TXDATA b) with (transfer_byte (D := D) (E := MemError) (Z.land b 0xff) ;;; modify refresh_ip).
  replace (Z.land b 0xff) with b by (change 0xff with (Z.ones 8); rewrite Z.land_ones by lia; symmetry; by apply wrap_small).
  unfold bind at 1. rewrite Hx. unfold modify. pose proof (wire_byte s o Ho). 
  erewrite spi_read_word; [reflexivity|unfold uint in *; lia|by cbv|].
  unfold moved, refresh_ip, set_irqs, set_rx_fifo, set_slaves, set_cs in *. cbn. rewrite list_insert_insert_eq, Hf. reflexivity.
Qed.

Lemma exchanges_run d bs : forall d1 p s out d', resting s d -> Forall (uint 8) bs -> Forall (uint 8) out ->
  transfers (map (wire s) bs) d1 = (Ok out, d') ->
  exists p', exchanges bs (moved s CSMODE_HOLD d1 p) = (Ok (map (wire s) out), moved s CSMODE_HOLD d' p').
Proof.
  induction bs as [|b bs IH]; intros d1 p s out d' Hr Hb Ho Ht; cbn [map transfers] in Ht.
  { injection Ht as <- <-. by exists p. }
  inversion Hb; subst. apply bind_Ok_inv in Ht as (o & d2 & Ht1 & Ht). apply bind_Ok_inv in Ht as (out' & d3 & Ht2 & Ht).
  injection Ht as <- <-. inversion Ho; subst.
  destruct (exchange_run d d1 d2 b o p s) as (p1 & Hx); [done..|].
  destruct (IH d2 p1 s out' d3) as (p2 & Hxs); [done..|]. exists p2. cbn [exchanges]. unfold bind. by rewrite Hx, Hxs.
Qed.

(** A session of the driver is a session of the slave. *)
Lemma driver_run d d' frame out s : resting s d -> Forall (uint 8) frame -> Forall (uint 8) out ->
  slave_session (map (wire s) frame) d = (Ok out, d') ->
  exists p, driver_session frame s = (Ok (map (wire s) out), moved s CSMODE_AUTO d' p).
Proof.
  intros Hr Hb Ho Hss. unfold slave_session in Hss.
  apply bind_Ok_inv in Hss as ([] & d1 & H1' & Hss). apply bind_Ok_inv in Hss as (out' & d2 & H2' & Hss).
  apply bind_Ok_inv in Hss as ([] & d3 & H3' & Hss). injection Hss as -> ->.
  destruct (exchanges_run d frame d1 (ip s) s out d2) as (p & Hx); [done..|].
  exists p. unfold driver_session, bind. by rewrite (hold_run d d1), Hx, (release_run d d2 d').
Qed.

Lemma resting_moved d d' p s : resting s d -> resting (moved s CSMODE_AUTO d' p) d'.
Proof.
  intros [Hm Hi Hs Hf Hd]. split; try done. cbn. apply list_lookup_insert_eq. by eapply lookup_lt_Some.
Qed.

(** The controller is transparent: for any slave behind the chip select, a
    driver that writes CSMODE = HOLD, writes each byte of a frame to TXDATA and
    reads the answer from RXDATA, and writes CSMODE = AUTO, reads exactly the
    bytes a session of the slave on that frame answers (bit-reversed both ways
    when FMT selects the least significant bit first), leaves the slave in the
    state that session leaves it in, and finds the controller at rest again,
    with no other slave touched. *)
Theorem controller_is_transparent d d' frame out s : resting s d -> Forall (uint 8) frame -> Forall (uint 8) out ->
  slave_session (map (wire s) frame) d = (Ok out, d') ->
  exists s', driver_session frame s = (Ok (map (wire s) out), s') /\ resting s' d' /\
    forall i, i <> Z.to_nat (csid s) -> slaves s' !! i = slaves s !! i.
Proof.
  intros Hr Hb Ho Hss. destruct (driver_run d d' frame out s) as (p & Hrun); [done..|].
  eexists. split_and!; [exact Hrun|by apply (resting_moved d)|]. intros i Hi. cbn. by apply list_lookup_insert_ne.
Qed.
End Driver.

(** ** Invariant *)

(** What a slave promises: its own invariant is kept by frames and edges, and
    it answers bytes. *)
Class SpiSlaveLaws (D : Type) `{SpiSlaveDevice D} : Type := {
  slave_ok : D -> Prop;
  transfer_law : forall b, uint 8 b -> triple slave_ok (transfer b) (uint 8);
  selected_law : forall b, triple slave_ok (set_selected b) (fun _ => True)
}.

(** As [triple], and without a panic. *)
Definition total {S E A} (I : S -> Prop) (m : M S E A) (Q : A -> Prop) : Prop :=
  forall s, I s -> match m s with (Ok a, s') => I s' /\ Q a | (Err _, s') => I s' | (Panic, _) => False end.

Lemma total_bind {S E A B} (I : S -> Prop) (m : M S E A) (k : A -> M S E B) P Q :
  total I m P -> (forall a, P a -> total I (k a) Q) -> total I (bind m k) Q.
Proof.
  intros Hm Hk s Hs. specialize (Hm s Hs). unfold bind. destruct (m s) as [[a|e|] s']; [|done|done]. destruct Hm. by apply Hk.
Qed.
Lemma total_gets {S E A} (I : S -> Prop) (f : S -> A) (Q : A -> Prop) : (forall s, I s -> Q (f s)) -> total (E := E) I (gets f) Q.
Proof. intros Hf s Hs. split; auto. Qed.
Lemma total_modify {S E} (I : S -> Prop) f : (forall s, I s -> I (f s)) -> total (E := E) I (modify f) (fun _ => True).
Proof. intros Hf s Hs. split; auto. Qed.
Lemma total_err {S E A} (I : S -> Prop) e Q : total (A := A) I (@err S E A e) Q.
Proof. by intros s Hs. Qed.
Lemma total_ret {S E A} (I : S -> Prop) (a : A) (Q : A -> Prop) : Q a -> total (E := E) I (ret a) Q.
Proof. by intros HQ s Hs. Qed.

Section Invariant.
Context {D : Type} `{SpiSlaveLaws D}.
Local Notation Spi := (SifiveSpiController D).
Implicit Types s : Spi.

Lemma transfers_law bs : Forall (uint 8) bs -> triple slave_ok (transfers bs) (Forall (uint 8)).
Proof.
  induction 1 as [|b bs Hb Hbs IH]; cbn [transfers]; [by apply triple_ret|].
  eapply triple_bind; [by apply transfer_law|]. intros o Ho. eapply triple_bind; [exact IH|]. intros out Hout. apply triple_ret. by constructor.
Qed.

Lemma session_law frame : Forall (uint 8) frame -> triple slave_ok (slave_session frame) (Forall (uint 8)).
Proof.
  intros Hf. eapply triple_bind; [apply selected_law|]. intros _ _. eapply triple_bind; [by apply transfers_law|]. intros out Ho.
  eapply triple_bind; [apply selected_law|]. intros _ _. by apply triple_ret.
Qed.

(** The calls of the slaves return. *)
Definition slaves_return : Prop :=
  (forall b d, slave_ok d -> uint 8 b -> no_panic (fst (transfer b d))) /\
  (forall b d, slave_ok d -> no_panic (fst (set_selected b d))).

Record spi_ok s : Prop := {
  so_clock : sckdiv s <= 0xfff /\ Forall (uint 32) [sckdiv s; sckmode s; delay0 s; delay1 s; fmt s];
  so_cs : Forall (uint 32) [csid s; csdef s; csmode s] /\ csid s < Z.max 1 (Z.of_nat (length (slaves s))) /\ csmode s <= 3;
  so_marks : 0 <= txmark s < 8 /\ 0 <= rxmark s < 8 /\ Forall (uint 32) [fctrl s; ffmt s];
  so_irqs : 0 <= ie s <= 3 /\ 0 <= ip s <= 3;
  so_fifo : (length (rx_fifo s) <= 8)%nat /\ Forall (uint 8) (rx_fifo s);
  so_slaves : Forall (fun o => match o with Some d => slave_ok d | None => True end) (slaves s)
}.

Lemma cs_mask_word n : uint 32 (cs_mask n).
Proof.
  unfold cs_mask. destruct (Z.leb_spec 32 (Z.of_nat n)); [by cbv|]. rewrite Z.shiftl_1_l. unfold uint.
  pose proof (pow2_pos (Z.of_nat n) ltac:(lia)). pose proof (Z.pow_lt_mono_r 2 (Z.of_nat n) 32). lia.
Qed.

Lemma spi_new_ok cs_num irq : spi_ok (with_irq cs_num irq).
Proof.
  split; cbn [with_irq sckdiv sckmode delay0 delay1 fmt csid csdef csmode txmark rxmark fctrl ffmt ie ip rx_fifo slaves].
  - split; [lia|by repeat constructor].
  - split_and!; [|lia|by cbv]. apply list.Forall_cons_2; [by cbv|]. apply list.Forall_cons_2; [apply cs_mask_word|by repeat constructor].
  - split_and!; [lia..|by repeat constructor].
  - split; by cbv.
  - split; [cbn; lia|constructor].
  - by apply list.Forall_replicate.
Qed.

Lemma refresh_ip_ok s : spi_ok s -> spi_ok (refresh_ip s).
Proof.
  intros [H1' H2' H3' H4' H5' H6']. split; try done. split; [apply H4'|]. cbn. destruct (rx_watermark_pending s); by cbv.
Qed.

Lemma selected_lt s i : spi_ok s -> selected_chip s = Some i -> (i < length (slaves s))%nat.
Proof.
  intros Hok. unfold selected_chip. destruct (_ && _) eqn:E; [|done]. apply andb_true_iff in E as [_ E]. apply Z.ltb_lt in E.
  intros [= <-]. destruct (so_cs _ Hok) as [Hc _]. inversion Hc as [|? ? [Hc0 _]]; subst. lia.
Qed.

Hypothesis Hret : slaves_return.

(** The invariant with a known number of slaves. *)
Definition spi_ok_n (n : nat) s : Prop := spi_ok s /\ length (slaves s) = n.

Lemma with_slave_total {E A} n i (m : M D Empty_set A) Q : (i < n)%nat -> triple slave_ok m Q ->
  (forall d, slave_ok d -> no_panic (fst (m d))) ->
  total (E := E) (spi_ok_n n) (with_slave i m) (fun o => match o with Some a => Q a | None => True end).
Proof.
  intros Hi Hm Hp s [Hok Hn]. unfold with_slave. destruct (lookup_lt_is_Some_2 (slaves s) i) as [[d|] Ed]; [lia| |by rewrite Ed].
  rewrite Ed. assert (slave_ok d) as Hd by apply (list.Forall_lookup_1 _ _ _ _ (so_slaves _ Hok) Ed).
  specialize (Hm d Hd). specialize (Hp d Hd). unfold map_err. destruct (m d) as [[a|[]|] d']; [|done]. destruct Hm as [Hd' Ha].
  cbn. split; [|done]. split; [|cbn; by rewrite length_insert].
  destruct Hok as [H1' H2' H3' H4' H5' H6']. split; try done; cbn.
  - by rewrite length_insert.
  - by apply list.Forall_insert.
Qed.

Lemma update_selected_total {E} n old new : (forall i, old = Some i -> (i < n)%nat) -> (forall i, new = Some i -> (i < n)%nat) ->
  total (E := E) (spi_ok_n n) (update_selected_chip old new) (fun _ => True).
Proof.
  intros Ho Hn. unfold update_selected_chip. destruct (bool_decide _); [by apply total_ret|].
  assert (forall b i, (i < n)%nat -> total (E := E) (spi_ok_n n) (with_slave i (set_selected b) ;;; ret tt) (fun _ => True)) as Hw.
  { intros b i Hi. eapply total_bind; [apply (with_slave_total n i _ (fun _ => True)); [done|apply selected_law|intros d Hd; by apply Hret]|].
    intros; by apply total_ret. }
  eapply total_bind; [|intros _ _]; [destruct old as [i|]|destruct new as [i|]];
    first [apply Hw; auto | by apply total_ret].
Qed.

(** Moving the chip select: the slave before and the slave after are in range. *)
Lemma reselect_total {E} n f : (forall s, spi_ok_n n s -> spi_ok_n n (f s)) ->
  total (E := E) (spi_ok_n n) (old <- gets selected_chip ;; modify f ;;; new <- gets selected_chip ;; update_selected_chip old new) (fun _ => True).
Proof.
  intros Hf. assert (forall s, spi_ok_n n s -> forall i, selected_chip s = Some i -> (i < n)%nat) as Hsel
    by (intros s [Hok <-] i; by apply selected_lt).
  eapply (total_bind _ _ _ (fun o => forall i, o = Some i -> (i < n)%nat)); [by apply total_gets|]. intros old Ho.
  eapply total_bind; [by apply total_modify|]. intros _ _.
  eapply (total_bind _ _ _ (fun o => forall i, o = Some i -> (i < n)%nat)); [by apply total_gets|]. intros new Hn. by apply update_selected_total.
Qed.

Lemma set_cs_ok n s id def mode : spi_ok_n n s -> uint 32 id -> uint 32 def -> 0 <= mode <= 3 -> id < Z.max 1 (Z.of_nat n) ->
  spi_ok_n n (set_cs id def mode s).
Proof.
  intros [[H1' H2' H3' H4' H5' H6'] Hn] Hid Hdef Hm Hlt. split; [|done]. split; try done. cbn. rewrite Hn. split; [|lia].
  repeat (apply list.Forall_cons_2; [done || unfold uint; lia|]). constructor.
Qed.

Lemma set_clocking_ok n s a b c d e : spi_ok_n n s -> a <= 0xfff -> Forall (uint 32) [a; b; c; d; e] -> spi_ok_n n (set_clocking a b c d e s).
Proof. intros [[H1' H2' H3' H4' H5' H6'] Hn] Ha Hall. split; [|done]. by split. Qed.

Lemma set_marks_ok n s a b c d : spi_ok_n n s -> 0 <= a < 8 -> 0 <= b < 8 -> Forall (uint 32) [c; d] -> spi_ok_n n (set_marks a b c d s).
Proof. intros [[H1' H2' H3' H4' H5' H6'] Hn] Ha Hb Hall. split; [|done]. by split. Qed.

Lemma set_fifo_ok n s l : spi_ok_n n s -> (length l <= 8)%nat -> Forall (uint 8) l -> spi_ok_n n (set_rx_fifo l s).
Proof. intros [[H1' H2' H3' H4' H5' H6'] Hn] Hl Hb. split; [|done]. by split. Qed.

Lemma refresh_ok_n n s : spi_ok_n n s -> spi_ok_n n (refresh_ip s).
Proof. intros [Hok Hn]. split; [by apply refresh_ip_ok|done]. Qed.

Lemma transfer_byte_total {E} n b : uint 8 b -> total (E := E) (spi_ok_n n) (transfer_byte b) (fun _ => True).
Proof.
  intros Hb. unfold transfer_byte. eapply (total_bind _ _ _ (fun sel => forall i, sel = Some i -> (i < n)%nat)).
  { apply total_gets. intros s [Hok <-] i. by apply selected_lt. }
  intros [i|] Hi; [|by apply total_ret]. eapply (total_bind _ _ _ (fun _ => True)); [by apply total_gets|]. intros lsb _.
  assert (uint 8 (if lsb : bool then reverse_bits b else b)) as Hb' by (destruct lsb; [apply reverse_bits_byte|done]).
  eapply total_bind; [apply (with_slave_total n i _ (uint 8)); [by apply Hi|by apply transfer_law|intros d Hd; by apply Hret]|].
  intros [rx|] Hrx; [|by apply total_ret]. apply total_modify. intros s Hs. destruct (_ && _) eqn:Eroom; [|done].
  apply andb_true_iff in Eroom as [_ Eroom]. apply Z.ltb_lt in Eroom. unfold SIFIVE_SPI_DEFAULT_FIFO_DEPTH in Eroom. destruct (so_fifo _ (proj1 Hs)).
  apply set_fifo_ok; [done|rewrite length_app; cbn; lia|]. apply list.Forall_app_2; [done|]. constructor; [|done].
  destruct lsb; [apply reverse_bits_byte|done].
Qed.

Ltac words := repeat (apply list.Forall_cons_2; [first [done | by apply uint_land | unfold uint in *; lia]|]); constructor.

(** The registers of a state in the invariant are words. *)
Lemma spi_ok_words s : spi_ok s ->
  Forall (uint 32) [sckdiv s; sckmode s; csid s; csdef s; csmode s; delay0 s; delay1 s; fmt s; txmark s; rxmark s; fctrl s; ffmt s; ie s; ip s].
Proof.
  intros [[_ H1'] [H2' _] [H3' [H4' H5']] [H6' H7'] _ _].
  repeat match goal with K : Forall _ (_ :: _) |- _ => inversion K; clear K; subst | K : Forall _ [] |- _ => clear K end. words.
Qed.

Lemma read_register_total n addr : total (spi_ok_n n) (read_register addr) (uint 32).
Proof.
  assert (forall s, spi_ok_n n s -> forall v, v ∈ [sckdiv s; sckmode s; csid s; csdef s; csmode s; delay0 s; delay1 s; fmt s; txmark s;
    rxmark s; fctrl s; ffmt s; ie s; ip s] -> uint 32 v) as Hw.
  { intros s [Hok _] v. apply list.Forall_forall. by apply spi_ok_words. }
  unfold read_register.
  repeat match goal with |- total _ (if ?b then _ else _) _ => destruct b end;
    try apply total_err; try (apply total_gets; intros s Hs; apply (Hw s Hs); set_solver).
  - apply total_gets. intros s _. by cbv.
  - unfold read_rxdata. intros s Hs. unfold bind, gets, modify. destruct (so_fifo _ (proj1 Hs)) as [Hl Hf].
    destruct (rx_fifo s) as [|v rest]; [split; [done|by cbv]|]. inversion Hf; subst. cbn in Hl.
    split; [|unfold uint in *; lia]. apply refresh_ok_n, set_fifo_ok; [done|lia|done].
  - eapply total_bind; [apply total_modify, refresh_ok_n|]. intros _ _. apply total_gets. intros s Hs. apply (Hw s Hs). set_solver.
Qed.

Lemma write_register_total n addr v : uint 32 v -> total (spi_ok_n n) (write_register addr v) (fun _ => True).
Proof.
  intros Hv. unfold uint in Hv.
  assert (forall s, spi_ok_n n s -> Forall (uint 32) [sckdiv s; sckmode s; csid s; csdef s; csmode s; delay0 s; delay1 s; fmt s; txmark s;
    rxmark s; fctrl s; ffmt s; ie s; ip s]) as Hw by (intros s [Hok _]; by apply spi_ok_words).
  assert (uint 12 (Z.land v 0xfff) /\ uint 2 (Z.land v 3)) as [Hv12 Hv2] by (split; by apply uint_land_r).
  unfold write_register.
  repeat match goal with |- total _ (if ?b then _ else _) _ => destruct b end; try apply total_err;
    try (apply total_modify; intros s Hs; pose proof (Hw s Hs) as Hws; pose proof (proj1 Hs) as [[Hdiv _] [_ [Hid Hmode]] [Htx [Hrx _]] _ _ _];
         repeat match goal with K : Forall _ (_ :: _) |- _ => inversion K; clear K; subst | K : Forall _ [] |- _ => clear K end).
  all: try (apply set_clocking_ok; [done|unfold uint in *; lia|words]).
  all: try (apply set_cs_ok; [done|done|by apply uint_land|unfold uint in *; lia|by rewrite <- (proj2 Hs)]).
  all: try (first [apply refresh_ok_n, set_marks_ok | apply set_marks_ok]; [done|unfold SIFIVE_SPI_DEFAULT_FIFO_DEPTH; lia..|words]).
  - apply reselect_total. intros s Hs. pose proof (Hw s Hs) as Hws. pose proof (proj1 Hs) as [_ [_ [Hid Hmode]] _ _ _ _].
    repeat match goal with K : Forall _ (_ :: _) |- _ => inversion K; clear K; subst | K : Forall _ [] |- _ => clear K end.
    pose proof (wrap_range 32 (Z.of_nat (length (slaves s) - 1)) ltac:(lia)) as Hwr. rewrite (proj2 Hs) in Hwr |- *.
    assert (wrap 32 (Z.of_nat (n - 1)) <= Z.of_nat (n - 1)) by (apply Z.mod_le; lia).
    apply set_cs_ok; [done|unfold uint in *; lia|done|unfold uint in *; lia|lia].
  - apply reselect_total. intros s Hs. pose proof (Hw s Hs) as Hws. pose proof (proj1 Hs) as [_ [_ [Hid Hmode]] _ _ _ _].
    repeat match goal with K : Forall _ (_ :: _) |- _ => inversion K; clear K; subst | K : Forall _ [] |- _ => clear K end.
    apply set_cs_ok; [done|done|done|change CSMODE_MASK with 3; unfold uint in *; lia|by rewrite <- (proj2 Hs)].
  - eapply total_bind; [apply transfer_byte_total; by apply uint_land_r|]. intros _ _. apply total_modify, refresh_ok_n.
  - destruct Hs as [[K1 K2 K3 K4 K5 K6] Hn]. split; [|done]. split; try done. cbn. change IP_MASK with 3. unfold uint in *. lia.
Qed.

Lemma spi_access_total n addr len v : 0 <= v -> len ∈ [1; 2; 4; 8] ->
  total (spi_ok_n n) (spi_read addr len) (uint 32) /\ total (spi_ok_n n) (spi_write addr len v) (fun _ => True).
Proof.
  intros Hv Hlen. assert (exists t, width_of_len len = Some t) as [t Ht].
  { apply list_elem_of_In in Hlen. cbn in Hlen. destruct Hlen as [<-|[<-|[<-|[<-|[]]]]]; by eexists. }
  unfold spi_read, spi_write, dispatch_read, dispatch_write. rewrite Ht. split.
  - change (total (spi_ok_n n) (spi_read_impl t addr) (uint 32)). unfold spi_read_impl. destruct (_ && _) eqn:E; [|apply total_err].
    eapply total_bind; [apply read_register_total|]. intros a Ha. apply total_ret. unfold truncate_from.
    destruct t; cbn in E; try done. by apply wrap_range.
  - change (total (spi_ok_n n) (spi_write_impl t addr (truncate_from t v)) (fun _ => True)). unfold spi_write_impl.
    destruct (_ && _); [|apply total_err]. apply write_register_total. by apply wrap_range.
Qed.

(** The controller's invariant and freedom from panics: from a state in the
    invariant (registers inside their masks, watermarks below the FIFO depth, at
    most eight received bytes, the chip select id on an existing slot), every
    read and write of the register window, of any width and at any address,
    returns or reports an access fault, never indexes past the slaves, and
    leaves a state in the invariant with the same number of chip selects; a
    read returns a 32-bit word. *)
Theorem controller_keeps_invariant addr len v s : 0 <= v -> len ∈ [1; 2; 4; 8] -> spi_ok s ->
  (exists r s', spi_read addr len s = (r, s') /\ spi_ok s' /\ length (slaves s') = length (slaves s) /\
     match r with Ok x => uint 32 x | Err _ => True | Panic => False end) /\
  (exists r s', spi_write addr len v s = (r, s') /\ spi_ok s' /\ length (slaves s') = length (slaves s) /\ no_panic r).
Proof.
  intros Hv Hlen Hok. destruct (spi_access_total (length (slaves s)) addr len v Hv Hlen) as [Hr Hw].
  specialize (Hr s (conj Hok eq_refl)). specialize (Hw s (conj Hok eq_refl)). split.
  - destruct (spi_read addr len s) as [[x|e|] s']; [|by exists (Err e), s'; destruct Hr|done].
    destruct Hr as [[? ?] ?]. by exists (Ok x), s'.
  - destruct (spi_write addr len v s) as [[x|e|] s']; [|by exists (Err e), s'; destruct Hw|done].
    destruct Hw as [[? ?] ?]. by exists (Ok x), s'.
Qed.
End Invariant.

(** ** Witnesses: a slave that is one shift register *)

#[local] Instance shift_register : SpiSlaveDevice Z := {|
  transfer := fun b d => (Ok d, b);
  set_selected := fun _ d => (Ok tt, d);
  sync := fun d => (Ok tt, d)
|}.

#[local] Instance shift_register_laws : SpiSlaveLaws Z.
Proof.
  apply (Build_SpiSlaveLaws Z _ (uint 8)).
  - by intros b Hb d Hd.
  - by intros b d Hd.
Defined.

(** Two chip selects, the second in use, least significant bit first. *)
Definition demo_spi : SifiveSpiController Z :=
  set_clocking 0 0 1 1 (Z.lor (Z.shiftl 8 16) FMT_ENDIAN)
    (set_cs 1 3 CSMODE_AUTO (set_slaves [None; Some 5] (with_irq 2 None))).

Lemma controller_is_transparent_witness : exists s',
  driver_session [1; 2; 3] demo_spi = (Ok [reverse_bits 5; 1; 2], s') /\ resting s' (reverse_bits 3).
Proof.
  destruct (controller_is_transparent 5 (reverse_bits 3) [1; 2; 3] [5; reverse_bits 1; reverse_bits 2] demo_spi) as (s' & Hrun & Hr & _).
  - split; [by cbv|by cbv|reflexivity|reflexivity|reflexivity].
  - by repeat constructor.
  - by repeat constructor.
  - reflexivity.
  - exists s'. split; [exact Hrun|exact Hr].
Defined.

Lemma demo_spi_ok : spi_ok demo_spi.
Proof.
  split.
  - split; [by cbv|by repeat constructor].
  - split_and!; [by repeat constructor|by cbv|by cbv].
  - split_and!; [by cbv|by cbv|by cbv|by cbv|by repeat constructor].
  - split; by cbv.
  - split; [cbn; lia|constructor].
  - by repeat constructor.
Qed.

Lemma shift_register_returns : slaves_return (D := Z).
Proof. by split. Qed.

Lemma controller_keeps_invariant_witness : exists r s', spi_write TXDATA 4 7 demo_spi = (r, s') /\ spi_ok s' /\ no_panic r.
Proof.
  destruct (proj2 (controller_keeps_invariant shift_register_returns TXDATA 4 7 demo_spi
    ltac:(lia) ltac:(set_solver) demo_spi_ok)) as (r & s' & Hrun & Hok & _ & Hp).
  exists r, s'. auto.
Defined.
