(* ===== verification/SpiSystem.v ===== *)
(** * The flash behind the controller

    The flash keeps the promises the controller asks of its slaves, with any
    host file; and a driver that erases, programs and reads the chip through
    the registers of the controller gets back what it wrote. *)

From S2P Require Import Prelude Utils TrapTypes Device Spi SpiFlash SpiStore SpiFlashSpec SpiSpec.

(** ** The flash is a lawful slave *)
Section Lawful.
Context `{Profile} {F : Type} `{StdFileLaws F}.
Local Notation Flash := (W25Q512JVQ F).
Implicit Types s : Flash.

Definition in_flight_ok (t : Transaction) : Prop :=
  match t with
  | ReadJedecId i => 0 <= i
  | CollectAddress _ _ buf => Forall (uint 8) buf
  | Dummy _ a _ | ReadData a | ReadSfdp a => 0 <= a
  | PageProgram a data => 0 <= a /\ Forall (uint 8) data
  | WriteStatus _ data => Forall (uint 8) data
  | _ => True
  end.

Record flash_safe s : Prop := {
  fs_wf : sf_wf (file s);
  fs_status : Forall (uint 8) [status1 s; status2 s; status3 s];
  fs_flight : in_flight_ok (transaction s)
}.

Lemma io_seek o : 0 <= o -> triple sf_wf (io (seek_start o)) (fun _ => True).
Proof.
  intros Ho f Hf. unfold io. destruct (seek_start o f) as [r f'] eqn:E. destruct (seek_start_law o f r f' Hf Ho E) as (Hf' & _).
  by destruct r.
Qed.

Lemma io_read n : triple sf_wf (io (read_exact n)) (Forall (uint 8)).
Proof.
  intros f Hf. unfold io. destruct (read_exact n f) as [r f'] eqn:E. destruct (read_exact_law n f r f' Hf E) as (Hf' & _ & Hb).
  destruct r as [bs|]; [|done]. split; [done|]. destruct (Hb bs eq_refl) as [_ ->].
  apply list.Forall_take, list.Forall_drop. by apply sf_bytes_ok.
Qed.

Lemma io_write bs : Forall (uint 8) bs -> triple sf_wf (io (write_all bs)) (fun _ => True).
Proof.
  intros Hbs f Hf. unfold io. destruct (write_all bs f) as [r f'] eqn:E. destruct (write_all_law bs f r f' Hf Hbs E) as (Hf' & _).
  by destruct r.
Qed.

Lemma triple_sub_chk {S E} (I : S -> Prop) a b : triple (E := E) I (sub_chk 64 a b) (uint 64).
Proof. unfold sub_chk. destruct (_ && _); [apply triple_panic|apply triple_ret]. by apply wrap_range. Qed.

Lemma triple_add_chk {S E} (I : S -> Prop) a b : triple (E := E) I (add_chk 64 a b) (uint 64).
Proof. unfold add_chk. destruct (_ && _); [apply triple_panic|apply triple_ret]. by apply wrap_range. Qed.

Lemma fill_loop_safe fuel : forall n v, uint 8 v -> triple sf_wf (fill_loop (F := F) fuel n v) (fun _ => True).
Proof.
  induction fuel as [|fuel IH]; intros n v Hv; cbn [fill_loop]; [apply triple_panic|].
  destruct (n =? 0); [by apply triple_ret|]. cbv zeta. eapply triple_bind; [apply io_write, list.Forall_take; by apply list.Forall_replicate|].
  intros _ _. eapply triple_bind; [apply triple_sub_chk|]. intros m _. by apply IH.
Qed.

Lemma fill_safe o n v : 0 <= o -> uint 8 v -> triple sf_wf (fill_file_range (F := F) o n v) (fun _ => True).
Proof. intros Ho Hv. eapply triple_bind; [by apply io_seek|]. intros _ _. by apply fill_loop_safe. Qed.

Lemma on_file_safe {E A} (m : M F E A) Q : triple sf_wf m Q -> triple flash_safe (on_file m) Q.
Proof. intros Hm. eapply triple_zoom; [exact Hm|by intros s []|]. intros s f [Hw Hs Ht] Hf. by split. Qed.

Lemma log_err_safe (m : M Flash IoError unit) Q : triple flash_safe m Q -> triple flash_safe (log_err m) (fun _ => True).
Proof. intros Hm s Hs. specialize (Hm s Hs). unfold log_err. destruct (m s) as [[a|e|] s']; naive_solver. Qed.

Lemma modify_safe (f : Flash -> Flash) : (forall s, flash_safe s -> flash_safe (f s)) -> triple (E := Empty_set) flash_safe (modify f) (fun _ => True).
Proof. intros Hf. by apply triple_modify. Qed.

Lemma set_transaction_safe t s : in_flight_ok t -> flash_safe s -> flash_safe (set_transaction t s).
Proof. intros Ht [Hw Hs _]. by split. Qed.

Lemma write_enable_safe b s : flash_safe s -> flash_safe (write_enable b s).
Proof.
  intros [Hw Hs Ht]. split; [done| |done]. inversion Hs; subst. constructor; [|done]. cbn. destruct b.
  - apply uint_lor; [lia|done|by cbv].
  - by apply uint_land.
Qed.

Lemma read_byte_safe a : 0 <= a -> triple flash_safe (read_byte (F := F) a) (uint 8).
Proof.
  intros Ha. eapply triple_bind; [by apply (triple_gets _ capacity (fun _ => True))|]. intros cap _.
  destruct (cap <=? a); [apply triple_ret; by cbv|]. apply on_file_safe. intros f Hf.
  assert (triple sf_wf (io (seek_start a) ;;; io (read_exact 1)) (Forall (uint 8))) as Hm
    by (eapply triple_bind; [by apply io_seek|intros _ _; apply io_read]).
  specialize (Hm f Hf). destruct ((io (seek_start a) ;;; io (read_exact 1)) f) as [[bs|e|] f'].
  - destruct Hm as [Hf' Hb]. split; [done|]. destruct bs; [by cbv|]. by inversion Hb.
  - split; [done|by cbv].
  - done.
Qed.

Lemma erase_range_safe a len : 0 <= a -> triple flash_safe (erase_range (F := F) a len) (fun _ => True).
Proof.
  intros Ha. eapply triple_bind; [by apply (triple_gets _ capacity (fun _ => True))|]. intros cap _.
  destruct (cap <=? a); [by apply triple_ret|]. eapply triple_bind; [apply triple_sub_chk|]. intros m _. cbv zeta.
  eapply triple_bind; [apply triple_sub_chk|]. intros r _. apply on_file_safe, fill_safe; [|by cbv]. apply Z.land_nonneg. by left.
Qed.

Lemma write_nor_safe a data : 0 <= a -> triple flash_safe (write_nor_bytes (F := F) a data) (fun _ => True).
Proof.
  intros Ha. eapply triple_bind; [by apply (triple_gets _ capacity (fun _ => True))|]. intros cap _.
  destruct (_ || _); [by apply triple_ret|]. eapply triple_bind; [apply triple_sub_chk|]. intros room _. cbv zeta.
  eapply triple_bind; [apply on_file_safe; by apply io_seek|]. intros _ _.
  eapply triple_bind; [apply on_file_safe, io_read|]. intros old Hold.
  eapply triple_bind; [apply on_file_safe; by apply io_seek|]. intros _ _. apply on_file_safe, io_write.
  apply list.Forall_app_2; [|by apply list.Forall_drop]. generalize (take (Nat.min (length data) (Z.to_nat room)) data). intros l.
  revert l. induction Hold as [|x old Hx Hold IH]; intros [|y l]; cbn; constructor; [by apply uint_land|apply IH].
Qed.

Lemma guarded_erase_safe a len : 0 <= a -> triple flash_safe (guarded_erase (F := F) a len) (fun _ => True).
Proof.
  intros Ha. eapply triple_bind; [by apply (triple_gets _ write_is_enabled (fun _ => True))|]. intros [] _.
  - eapply (triple_bind _ _ _ (fun _ => True)).
    + eapply triple_bind; [by eapply log_err_safe, erase_range_safe|]. intros _ _. apply modify_safe. intros s. apply write_enable_safe.
    + intros _ _. apply modify_safe. intros s. by apply set_transaction_safe.
  - eapply (triple_bind _ _ _ (fun _ => True)); [by apply triple_ret|]. intros _ _. apply modify_safe. intros s. by apply set_transaction_safe.
Qed.

Lemma move_safe t : in_flight_ok t -> triple (E := Empty_set) flash_safe (modify (set_transaction (F := F) t)) (fun _ => True).
Proof. intros Ht. apply modify_safe. intros s. by apply set_transaction_safe. Qed.

Lemma then_ignore_safe (f : Flash -> Flash) : (forall s, flash_safe s -> flash_safe (f s)) ->
  triple (E := Empty_set) flash_safe (modify f ;;; modify ignore_until_deselect) (fun _ => True).
Proof. intros Hf. eapply triple_bind; [by apply modify_safe|]. intros _ _. by apply (move_safe Ignore). Qed.

Lemma gated_safe (f g : Flash -> Flash) : (forall s, flash_safe s -> flash_safe (f s)) -> (forall s, flash_safe s -> flash_safe (g s)) ->
  triple (E := Empty_set) flash_safe (modify (fun s => if write_is_enabled s then f s else g s)) (fun _ => True).
Proof. intros Hf Hg. apply modify_safe. intros s Hs. destruct (write_is_enabled s); auto. Qed.

Lemma run_command_safe c : triple flash_safe (run_command (F := F) c) (fun _ => True).
Proof.
  assert (forall act kind s, flash_safe s -> flash_safe (collect_address act kind s)) as Hcollect
    by (intros act kind s; apply set_transaction_safe; constructor).
  assert (forall s, flash_safe s -> flash_safe (ignore_until_deselect s)) as Hign by (intros s; by apply set_transaction_safe).
  destruct c; cbn [run_command].
  - apply then_ignore_safe. intros s. apply write_enable_safe.
  - apply move_safe. by destruct r.
  - by apply move_safe.
  - apply modify_safe. intros s. apply Hcollect.
  - apply gated_safe; [apply Hcollect|done].
  - apply gated_safe; [apply Hcollect|done].
  - eapply triple_bind; [by apply (triple_gets _ capacity (fun _ => True))|]. intros cap _. by apply guarded_erase_safe.
  - apply modify_safe. intros s. apply Hcollect.
  - apply then_ignore_safe. by intros s [].
  - apply gated_safe; [|done]. intros s. apply set_transaction_safe. constructor.
  - apply then_ignore_safe. by intros s [].
  - eapply triple_bind; [by apply (triple_gets _ reset_enabled (fun _ => True))|]. intros [] _; [|by apply modify_safe].
    apply then_ignore_safe. intros s [Hw Hs Ht]. split; try done. inversion Hs; subst. constructor; [|done].
    cbn. by repeat apply uint_land.
  - by apply modify_safe.
Qed.

Lemma address_complete_safe act a : 0 <= a -> triple flash_safe (on_address_complete (F := F) act a) (fun _ => True).
Proof.
  intros Ha. destruct act; cbn [on_address_complete].
  - destruct (_ =? _); by apply move_safe.
  - eapply triple_bind; [by apply (triple_gets _ write_is_enabled (fun _ => True))|].
    intros [] _; [apply move_safe; split; [done|constructor]|by apply (move_safe Ignore)].
  - by apply guarded_erase_safe.
  - by apply move_safe.
Qed.

Lemma take_transaction_safe : triple flash_safe (take_transaction (F := F)) in_flight_ok.
Proof. intros s Hs. split; [by apply set_transaction_safe|apply Hs]. Qed.

Lemma move_then t {A} (m : M Flash Empty_set A) Q : in_flight_ok t -> triple flash_safe m Q ->
  triple flash_safe (modify (set_transaction t) ;;; m) Q.
Proof. intros Ht Hm. eapply triple_bind; [by apply move_safe|]. by intros _ _. Qed.

Lemma status_safe r : triple (E := Empty_set) flash_safe (gets (fun s => n_status r (nor_of s))) (uint 8).
Proof. apply triple_gets. intros s [_ Hs _]. inversion Hs as [|? ? ? Hs']; subst. inversion Hs' as [|? ? ? Hs'']; subst. inversion Hs''; subst. by destruct r. Qed.

Lemma snoc_bytes l b : Forall (uint 8) l -> uint 8 b -> Forall (uint 8) (l ++ [b]).
Proof. intros Hl Hb. apply list.Forall_app_2; [done|by constructor]. Qed.

Lemma flash_transfer_safe b : uint 8 b -> triple flash_safe (flash_transfer (F := F) b) (uint 8).
Proof.
  intros Hb. assert (uint 8 0) as H08 by (by cbv).
  assert (forall m : M Flash Empty_set unit, triple flash_safe m (fun _ => True) -> triple flash_safe (m ;;; ret 0) (uint 8)) as Hz.
  { intros m Hm. eapply triple_bind; [exact Hm|]. intros _ _. by apply triple_ret. }
  eapply triple_bind; [apply take_transaction_safe|]. intros t Ht. destruct t; cbn in Ht.
  - apply Hz. intros s Hs. rewrite start_command_table. apply run_command_safe. by apply set_transaction_safe.
  - apply Hz. by apply move_safe.
  - apply move_then; [done|apply (status_safe SR1)].
  - apply move_then; [done|apply (status_safe SR2)].
  - apply move_then; [done|apply (status_safe SR3)].
  - eapply triple_bind; [apply triple_add_chk|]. intros i [Hi _]. apply move_then; [done|]. apply triple_ret.
    change (Z.of_nat (length W25Q512JVQ_JEDEC_ID)) with 3. pose proof (Z.mod_pos_bound index 3 ltac:(lia)).
    assert (index mod 3 = 0 \/ index mod 3 = 1 \/ index mod 3 = 2) as [-> | [-> | ->]] by lia; by cbv.
  - cbv zeta. apply Hz. destruct (bool_decide _); [apply address_complete_safe, address_nonneg|apply move_safe]; by apply snoc_bytes.
  - apply Hz. destruct (_ <? _); [by apply move_safe|]. destruct action; [by apply move_safe|by apply triple_ret..|].
    apply move_safe. by apply wrap_range.
  - apply move_then; [by apply wrap_range|by apply read_byte_safe].
  - apply move_then; [by apply wrap_range|]. apply triple_ret. rewrite sfdp_byte by done.
    rewrite nth_lookup. destruct (_ !! _) as [x|] eqn:E; [|by cbv]. cbn.
    assert (Forall (uint 8) [83; 70; 68; 80; 6; 1; 0]) as Hl by (by repeat constructor). by apply (list.Forall_lookup_1 _ _ _ _ Hl E).
  - apply Hz. apply move_safe. destruct Ht. split; [done|by apply snoc_bytes].
  - apply Hz. apply move_safe. by apply snoc_bytes.
Qed.

Lemma page_loop_safe a data : forall idx page, Forall (uint 8) data -> Forall (uint 8) page ->
  triple flash_safe (page_loop (F := F) a idx data page) (Forall (uint 8)).
Proof.
  induction data as [|b data IH]; intros idx page Hd Hp; cbn [page_loop]; [by apply triple_ret|]. inversion Hd; subst.
  eapply triple_bind; [apply triple_add_chk|]. intros at_ _. cbv zeta. apply IH; [done|by apply list.Forall_insert].
Qed.

Lemma flash_selected_safe b : triple flash_safe (flash_set_selected (F := F) b) (fun _ => True).
Proof.
  destruct b; [by apply move_safe|]. eapply triple_bind; [apply take_transaction_safe|].
  intros [] Ht; try (by apply triple_ret); cbn in Ht.
  - unfold finish_page_program. destruct (bool_decide _); [apply modify_safe; intros s; apply write_enable_safe|]. cbv zeta.
    eapply triple_bind; [apply page_loop_safe; [apply Ht|by apply list.Forall_replicate]|]. intros page _.
    eapply triple_bind; [eapply log_err_safe, write_nor_safe; apply Z.land_nonneg; by left; apply Ht|].
    intros _ _. apply modify_safe. intros s. apply write_enable_safe.
  - apply modify_safe. intros s [Hw Hs Hf]. inversion Hs as [|? ? H1' Hs']; subst. inversion Hs' as [|? ? H2' Hs'']; subst.
    inversion Hs'' as [|? ? H3' _]; subst. unfold finish_status_write. cbv zeta. apply write_enable_safe.
    assert (forall i v, data !! i = Some v -> uint 8 v) as Hv by (intros i v; by apply list.Forall_lookup_1).
    destruct (data !! 0%nat) as [v0|] eqn:E0; [apply Hv in E0|]; (destruct (data !! 1%nat) as [v1|] eqn:E1; [apply Hv in E1|]); destruct target;
      (split; [done| |done]); cbn; repeat (apply list.Forall_cons_2; [first [done | by apply uint_land]|]); constructor.
Qed.
End Lawful.

#[global] Instance flash_lawful `{Profile} {F} `{StdFileLaws F} : SpiSlaveLaws (W25Q512JVQ F) := {|
  slave_ok := flash_safe;
  transfer_law := flash_transfer_safe;
  selected_law := flash_selected_safe
|}.

(** ** Storing and loading through the registers *)

(** The bytes of the address [a], in four-byte mode when [four], and the number
    of its bits. *)
Definition addr_bytes (four : bool) (a : Z) : list Z :=
  if four then [a / 16777216; (a / 65536) mod 256; (a / 256) mod 256; a mod 256] else [a / 65536; (a / 256) mod 256; a mod 256].
Definition addr_bits (four : bool) : Z := if four then 32 else 24.

(** The frames of a driver that stores [data] at [a], with the sector erased
    first, and the frame that loads [n] bytes from [a]. *)
Definition store_frames (four : bool) (a : Z) (data : list Z) : list (list Z) :=
  [[WRITE_ENABLE]; SECTOR_ERASE_4K :: addr_bytes four a; [WRITE_ENABLE]; PAGE_PROGRAM :: addr_bytes four a ++ data].
Definition load_frame (four : bool) (a : Z) (n : nat) : list Z := READ_DATA :: addr_bytes four a ++ replicate n 0.

Fixpoint nor_sessions (n : Nor) (frames : list (list Z)) : list (list Z) * Nor :=
  match frames with
  | [] => ([], n)
  | f :: frames => let '(o, n1) := nor_session n f in let '(os, n2) := nor_sessions n1 frames in (o :: os, n2)
  end.

Lemma be_addr four a : uint (addr_bits four) a -> be_value (addr_bytes four a) = a.
Proof.
  unfold uint, be_value, addr_bytes, addr_bits. intros Ha. destruct four; cbn [fold_left]; Z.to_euclidean_division_equations; lia.
Qed.

Lemma addr_bytes_uint four a : uint (addr_bits four) a -> Forall (uint 8) (addr_bytes four a).
Proof.
  unfold uint, addr_bytes, addr_bits. intros Ha. destruct four;
    (repeat (apply list.Forall_cons_2; [Z.to_euclidean_division_equations; lia|])); constructor.
Qed.

Lemma current_len four : AddressKind_len Current four = if four then 4%nat else 3%nat.
Proof. by destruct four. Qed.

Lemma take_addr kind four a l : kind = Current -> take (AddressKind_len kind four) (addr_bytes four a ++ l) = addr_bytes four a.
Proof. intros ->. by destruct four. Qed.

Lemma drop_addr kind four a l : kind = Current -> drop (AddressKind_len kind four) (addr_bytes four a ++ l) = l.
Proof. intros ->. by destruct four. Qed.

Lemma latch_set n : latch (set_latch true n) = true.
Proof. apply (Z.setbit_eq (n_status1 n) 1). lia. Qed.

Lemma latest_short i data : (length data <= 256)%nat -> (i < length data)%nat -> latest i data = data !! i.
Proof.
  intros Hl Hi. unfold latest. rewrite (proj2 (Nat.ltb_lt _ _)) by done. rewrite Nat.div_small by lia. f_equal. lia.
Qed.

(** What was stored is what is read. *)
Lemma erased_program_read n a data i x : 0 <= a -> a mod 256 + Z.of_nat (length data) <= 256 ->
  a + Z.of_nat (length data) <= Z.of_nat (length (cells n)) -> Forall (uint 8) data -> data !! i = Some x ->
  n_read (n_program a data (set_latch true (set_latch false (n_erase a 4096 n)))) (a + Z.of_nat i) = x.
Proof.
  intros Ha Hpage Hend Hd Hx. pose proof (lookup_lt_Some _ _ _ Hx) as Hi. pose proof (Z.mod_pos_bound a 256 ltac:(lia)).
  unfold n_read. rewrite nth_lookup. unfold n_erase. rewrite (proj2 (Z.ltb_lt _ _)) by lia. cbn -[Z.div Z.modulo Z.to_nat latest Z.of_nat].
  rewrite !list_lookup_imap. destruct (lookup_lt_is_Some_2 (cells n) (Z.to_nat (a + Z.of_nat i))) as [old Hold]; [lia|].
  rewrite Hold. cbn -[Z.div Z.modulo Z.to_nat latest Z.of_nat]. rewrite Z2Nat.id by lia.
  assert ((a + Z.of_nat i) / 256 = a / 256) as Hp by (Z.to_euclidean_division_equations; lia).
  assert ((a + Z.of_nat i) / 4096 = a / 4096) as Hs by (Z.to_euclidean_division_equations; lia).
  rewrite Hp, Hs, !Z.eqb_refl. replace (a + Z.of_nat i - a) with (Z.of_nat i) by lia. rewrite Z.mod_small by lia.
  rewrite Nat2Z.id, latest_short by lia. rewrite Hx. cbn [default]. rewrite Z.land_comm.
  apply byte_land_ff. by apply (list.Forall_lookup_1 _ _ _ _ Hd Hx).
Qed.

Lemma erase_effect b n a : four_byte n = b -> latch n = true -> uint (addr_bits b) a ->
  nor_effect n (CErase 4096 Current) (addr_bytes b a) = set_latch false (n_erase a 4096 n).
Proof.
  intros Hf Hl Ha. unfold nor_effect. rewrite Hl, Hf. cbv zeta. rewrite <- (app_nil_r (addr_bytes _ _)), take_addr by done.
  rewrite be_addr by done. by destruct b.
Qed.

Lemma program_effect b n a data : four_byte n = b -> latch n = true -> uint (addr_bits b) a ->
  nor_effect n (CProgram Current) (addr_bytes b a ++ data) = set_latch false (n_program a data n).
Proof.
  intros Hf Hl Ha. unfold nor_effect. rewrite Hl, Hf. cbv zeta. rewrite take_addr, drop_addr, be_addr by done. by destruct b.
Qed.

Lemma read_answer b n a l : four_byte n = b -> uint (addr_bits b) a ->
  nor_answer n (CRead 0 Current) (addr_bytes b a ++ l) =
    replicate (length (addr_bytes b a)) 0 ++ imap (fun i _ => n_read n (a + Z.of_nat i)) l.
Proof.
  intros Hf Ha. unfold nor_answer. rewrite Hf. cbv zeta. rewrite Nat.add_0_r, take_addr, drop_addr, be_addr by done. by destruct b.
Qed.

(** The four sessions that store and the one that loads, on the chip. *)
Lemma nor_store_load b n a data : four_byte n = b -> uint (addr_bits b) a -> a mod 256 + Z.of_nat (length data) <= 256 ->
  a + Z.of_nat (length data) <= Z.of_nat (length (cells n)) -> Forall (uint 8) data ->
  exists outs n', nor_sessions n (store_frames b a data ++ [load_frame b a (length data)]) =
    (outs ++ [0 :: replicate (length (addr_bytes b a)) 0 ++ data], n').
Proof.
  intros Hf Ha Hpage Hend Hd. unfold store_frames, load_frame. cbn [app nor_sessions nor_session].
  change (nor_decode WRITE_ENABLE) with (CLatch true). change (nor_decode SECTOR_ERASE_4K) with (CErase 4096 Current).
  change (nor_decode PAGE_PROGRAM) with (CProgram Current). change (nor_decode READ_DATA) with (CRead 0 Current).
  change (nor_effect n (CLatch true) []) with (set_latch true n).
  rewrite erase_effect by (done || apply latch_set). set (n1 := n_erase a 4096 (set_latch true n)).
  assert (four_byte n1 = b) as Hf1 by (unfold n1, n_erase; by destruct (_ <? _)).
  change (nor_effect (set_latch false n1) (CLatch true) []) with (set_latch true (set_latch false n1)).
  rewrite program_effect by (done || apply latch_set). rewrite read_answer by done.
  eexists [_; _; _; _], _. f_equal. cbn [app]. do 7 f_equal.
  apply list_eq. intros i. rewrite list_lookup_imap. destruct (data !! i) as [x|] eqn:Hx.
  - rewrite lookup_replicate_2 by (by eapply lookup_lt_Some). cbn [fmap option_fmap option_map]. f_equal.
    apply erased_program_read; try done. apply Ha.
  - apply lookup_ge_None in Hx as Hge. by rewrite (proj2 (lookup_ge_None _ _)) by (rewrite length_replicate; lia).
Qed.

Section RoundTrip.
Context `{Profile} {F : Type} `{StdFileReliable F}.
Local Notation Flash := (W25Q512JVQ F).

Fixpoint driver_sessions (frames : list (list Z)) : M (SifiveSpiController Flash) MemError (list (list Z)) :=
  match frames with
  | [] => ret []
  | f :: frames => o <- driver_session f ;; os <- driver_sessions frames ;; ret (o :: os)
  end.

(** The controller [s] at rest with the flash [d], most significant bit first. *)
Record ready (s : SifiveSpiController Flash) (d : Flash) : Prop := {
  rd_rest : resting s d;
  rd_order : lsb_first s = false;
  rd_ok : flash_ok d;
  rd_safe : flash_safe d
}.

Lemma driver_frame_run frame s d : ready s d -> Forall (uint 8) frame -> Z.of_nat (length frame) <= 2 ^ 31 ->
  exists s' d', driver_session frame s = (Ok (fst (nor_session (nor_of d) frame)), s') /\ ready s' d' /\
    nor_of d' = snd (nor_session (nor_of d) frame).
Proof.
  intros [Hr Ho Hok Hsafe] Hb Hl. destruct (session_refines frame d Hok Hb Hl) as (d' & Hrun & Hok' & Hn' & _ & _).
  pose proof (session_law frame Hb d Hsafe) as Hlaw. rewrite Hrun in Hlaw. destruct Hlaw as [Hsafe' Hout].
  assert (forall l, map (wire s) l = l) as Hwire by (intros l; unfold wire; rewrite Ho; apply map_id).
  destruct (driver_run d d' frame (fst (nor_session (nor_of d) frame)) s) as (p & Hd); [done|done|done|by rewrite Hwire|].
  rewrite Hwire in Hd. exists (moved s CSMODE_AUTO d' p), d'. split_and!; [done| |done]. split; [by apply (resting_moved d)|done..].
Qed.

Lemma driver_frames_run frames : forall s d, ready s d -> Forall (fun f => Forall (uint 8) f /\ Z.of_nat (length f) <= 2 ^ 31) frames ->
  exists s' d', driver_sessions frames s = (Ok (fst (nor_sessions (nor_of d) frames)), s') /\ ready s' d' /\
    nor_of d' = snd (nor_sessions (nor_of d) frames).
Proof.
  induction frames as [|f frames IH]; intros s d Hr Hf; [by exists s, d|]. inversion Hf as [|? ? [Hb Hl] Hf']; subst.
  destruct (driver_frame_run f s d Hr Hb Hl) as (s1 & d1 & Hrun1 & Hr1 & Hn1).
  destruct (IH s1 d1 Hr1 Hf') as (s2 & d2 & Hrun2 & Hr2 & Hn2). exists s2, d2.
  cbn [driver_sessions nor_sessions]. unfold bind. rewrite Hrun1, Hrun2. rewrite Hn1 in Hn2 |- *.
  destruct (nor_session (nor_of d) f) as [o n1]. cbn [fst snd] in *. by destruct (nor_sessions n1 frames).
Qed.

(** C32: Store and load through the registers.  A controller at rest, its frame
    format most significant bit first, has the flash behind its chip select;
    the flash may be in three-byte or in four-byte address mode, and every call
    on the file that backs it succeeds (the code only logs a failing one).  A
    driver that enables writing, erases the sector of [a], enables writing
    again, programs [data] at [a] (inside one page and inside the chip) and
    reads as many bytes from [a], with addresses in the format of the mode,
    reads [data] back after the bytes that answer the command and the address,
    whatever the flash held before. *)
Theorem flash_store_load a data s d : ready s d -> uint (addr_bits (four_byte_address_mode d)) a ->
  Forall (uint 8) data -> a mod 256 + Z.of_nat (length data) <= 256 -> a + Z.of_nat (length data) <= capacity d ->
  let b := four_byte_address_mode d in
  exists outs s' d', driver_sessions (store_frames b a data ++ [load_frame b a (length data)]) s =
    (Ok (outs ++ [0 :: replicate (length (addr_bytes b a)) 0 ++ data]), s') /\ ready s' d'.
Proof.
  intros Hr Ha Hd Hpage Hend b. pose proof (Z.mod_pos_bound a 256 ltac:(lia)).
  pose proof (cells_length d (rd_ok _ _ Hr)) as Hcl. pose proof (fo_cap _ (rd_ok _ _ Hr)) as Hcap.
  destruct (nor_store_load b (nor_of d) a data) as (outs & n' & Hn); [done|done|done|rewrite Hcl; lia|done|].
  destruct (driver_frames_run (store_frames b a data ++ [load_frame b a (length data)]) s d Hr) as (s' & d' & Hrun & Hr' & _).
  - pose proof (addr_bytes_uint b a Ha) as Hab.
    assert (forall c l, uint 8 c -> Forall (uint 8) l -> (length l <= 256)%nat ->
      Forall (uint 8) (c :: addr_bytes b a ++ l) /\ Z.of_nat (length (c :: addr_bytes b a ++ l)) <= 2 ^ 31) as Hfr.
    { intros c l Hc Hl Hlen. split; [constructor; [done|by apply list.Forall_app_2]|].
      cbn [length]. rewrite length_app. unfold addr_bytes. case_match; cbn [length]; lia. }
    unfold store_frames, load_frame. repeat (apply list.Forall_cons_2); try apply list.Forall_nil_2.
    + by split; [repeat constructor|].
    + rewrite <- (app_nil_r (addr_bytes b a)). apply Hfr; [done|constructor|cbn; lia].
    + by split; [repeat constructor|].
    + apply Hfr; [done|done|lia].
    + apply Hfr; [done|by apply list.Forall_replicate|rewrite length_replicate; lia].
  - exists outs, s', d'. by rewrite Hrun, Hn.
Qed.
End RoundTrip.

(** ** Witness *)

#[local] Instance system_profile : Profile := Prelude.dev.

(** A chip of 512 bytes, all zero, on the only chip select. *)
Definition demo_chip : W25Q512JVQ ByteFile :=
  Build_W25Q512JVQ {| bf_bytes := replicate 512 0; bf_pos := 0 |} 512 Idle 0 2 0 false false.
Definition demo_system : SifiveSpiController (W25Q512JVQ ByteFile) := set_slaves [Some demo_chip] (with_irq 1 None).

Lemma demo_system_ready : ready demo_system demo_chip.
Proof.
  split.
  - split; [by cbv|by cbv|reflexivity|reflexivity|reflexivity].
  - reflexivity.
  - split; [by apply list.Forall_replicate|done|by vm_compute|done].
  - split; [by apply list.Forall_replicate|by repeat constructor|done].
Qed.

Lemma flash_store_load_witness : exists outs s',
  driver_sessions (store_frames false 0x104 [0xaa; 0x0f] ++ [load_frame false 0x104 2]) demo_system = (Ok (outs ++ [[0; 0; 0; 0; 0xaa; 0x0f]]), s').
Proof.
  destruct (flash_store_load 0x104 [0xaa; 0x0f] demo_system demo_chip) as (outs & s' & d' & Hrun & _).
  - exact demo_system_ready.
  - by cbv.
  - by repeat constructor.
  - by cbv.
  - by cbv.
  - exists outs, s'. exact Hrun.
Defined.
