(* ===== verification/Debugger.v ===== *)
(** * The debugger (src/src/isa/riscv/debugger.rs, load.rs, utils.rs)

    Breakpoints, the history of executed cycles, the function trace with its
    return-address-stack rules, symbols, and the stepping of a board through an
    execution hook.  The inspection of the hart ([DebugTarget]) is what the
    hook and the command line use; a board is an instance of [BoardTrait]. *)

From S2P Require Import Prelude Utils TrapTypes Ram CsrTable Csr PageTable Mmio Vm Instr Cpu Exec Decoder Executor Board.

(** ** Symbols (utils.rs, load.rs) *)

Record BiMap (K V : Type) `{Countable K} `{Countable V} : Type := {
  forward : gmap K V;
  backward : gmap V K
}.
Arguments Build_BiMap {K V _ _ _ _} _ _.
Arguments forward {K V _ _ _ _} _.
Arguments backward {K V _ _ _ _} _.

Section BiMap.
Context {K V : Type} `{Countable K} `{Countable V}.
Definition BiMap_new : BiMap K V := Build_BiMap ∅ ∅.
Definition BiMap_insert (key : K) (value : V) (m : BiMap K V) : BiMap K V :=
  Build_BiMap (<[key := value]> (forward m)) (<[value := key]> (backward m)).
Definition get_by_left (key : K) (m : BiMap K V) : option V := forward m !! key.
Definition get_by_right (value : V) (m : BiMap K V) : option K := backward m !! value.
End BiMap.

Definition SymTab : Type := BiMap string Z.

Definition SymTab_from (symbols : list (string * Z)) : SymTab :=
  fold_left (fun t p => BiMap_insert (fst p) (snd p) t) symbols BiMap_new.
Definition func_addr_by_name (name : string) (t : SymTab) : option Z := get_by_left name t.
Definition func_name_by_addr (addr : Z) (t : SymTab) : option string := get_by_right addr t.

(** [backward.range(..=addr).next_back()]: the entry with the greatest key up
    to [addr]. *)
Definition last_up_to (addr : Z) (m : gmap Z string) : option (Z * string) :=
  map_fold (fun k name best =>
    if k <=? addr then match best with Some (k', _) => if k' <? k then Some (k, name) else best | None => Some (k, name) end
    else best) None m.
Definition func_name_in_addr_range (addr : Z) (t : SymTab) : option string := snd <$> last_up_to addr (backward t).

(** ** Breakpoints and traces *)

#[export] Instance Address_eq_dec : EqDecision Address.
Proof. solve_decision. Defined.

Inductive DebugEvent : Type := StepCompleted | BreakpointHit | BoardHalted.
#[export] Instance DebugEvent_eq_dec : EqDecision DebugEvent.
Proof. solve_decision. Defined.

Inductive DebugError : Type :=
| MemoryError (e : MemError) | CSRNotExist (addr : Z) | SymbolNotFound (name : string) | NoSymbolTable.

Definition Address_value (a : Address) : Z := match a with Virt v => v | Phys p => p end.

Definition Address_add `{Profile} {S E} (a : Address) (n : Z) : M S E Address :=
  match a with
  | Phys p => p' <- add_chk 64 p n ;; ret (Phys p')
  | Virt v => v' <- add_chk 64 v n ;; ret (Virt v')
  end.

Record Breakpoint : Type := { bp_id : Z; bp_addr : Address }.

Inductive FuncTrace : Type :=
| Call (name : option string) (addr : Z)
| Return (name : option string) (addr : Z).

Record FuncTraceStatEntry : Type := { calls : Z; returns : Z }.
Definition entry_default : FuncTraceStatEntry := {| calls := 0; returns := 0 |}.

Record FtraceStats : Type := {
  call_count : Z;
  return_count : Z;
  unknown_calls : Z;
  unknown_returns : Z;
  per_func : gmap string FuncTraceStatEntry
}.
Definition FtraceStats_default : FtraceStats :=
  {| call_count := 0; return_count := 0; unknown_calls := 0; unknown_returns := 0; per_func := ∅ |}.

Record FtraceStatsSnapshot : Type := { snap_enabled : bool; queue_len : nat; snap : FtraceStats }.

Record FtraceState : Type := { enabled : bool; queue : list FuncTrace; stats : FtraceStats }.

Definition MAX_FTRACE : nat := Z.to_nat 1024.
Definition MAX_HISTORY : nat := Z.to_nat 1024.

Definition FtraceState_new : FtraceState := {| enabled := false; queue := []; stats := FtraceStats_default |}.
Definition FtraceState_start (_ : FtraceState) : FtraceState := {| enabled := true; queue := []; stats := FtraceStats_default |}.
Definition FtraceState_stop (s : FtraceState) : FtraceState := {| enabled := false; queue := queue s; stats := stats s |}.
Definition FtraceState_snapshot (s : FtraceState) : FtraceStatsSnapshot :=
  {| snap_enabled := enabled s; queue_len := length (queue s); snap := stats s |}.

(** ** Return-address stack *)
Inductive RasAction : Type := RasNone | Push | Pop | PopThenPush.
#[export] Instance RasAction_eq_dec : EqDecision RasAction.
Proof. solve_decision. Defined.

Definition is_link (reg : Z) : bool := (reg =? 1) || (reg =? 5).

Definition ras_action (i : RiscvInstr) (x : RVInstrInfo) : RasAction :=
  let regs :=
    match i, x with
    | JALR, II rs1 rd _ => Some (rd, rs1)
    | JAL, IJ rd _ => Some (rd, 0)
    | C_JR, ICR rs1 _ => Some (0, rs1)
    | C_JALR, ICR rs1 _ => Some (1, rs1)
    | C_JAL, _ => Some (1, 0)
    | C_J, _ => Some (0, 0)
    | _, _ => None
    end in
  match regs with
  | None => RasNone
  | Some (rd, rs1) =>
      match is_link rd, is_link rs1 with
      | false, false => RasNone
      | false, true => Pop
      | true, false => Push
      | true, true => if negb (rd =? rs1) then PopThenPush else Push
      end
  end.

Definition ftrace_for_step (symtab : option SymTab) (decoded_instr : option DecodeInstr) (pre_pc nxt_pc : Z)
  : option FuncTrace * option FuncTrace :=
  match decoded_instr with
  | None => (None, None)
  | Some d =>
      let leave_sym := symtab ≫= func_name_in_addr_range pre_pc in
      let enter_sym := symtab ≫= func_name_by_addr nxt_pc in
      match ras_action (instr d) (info d) with
      | RasNone => (None, None)
      | Push => (Some (Call enter_sym nxt_pc), None)
      | Pop => (Some (Return leave_sym pre_pc), None)
      | PopThenPush => (Some (Return leave_sym pre_pc), Some (Call enter_sym nxt_pc))
      end
  end.

Section Stats.
Context `{Profile} {E : Type}.

Definition FtraceStats_record (trace : FuncTrace) : M FtraceStats E unit :=
  s <- gets id ;;
  match trace with
  | Call name _ =>
      n <- add_chk 64 (call_count s) 1 ;;
      match name with
      | Some name =>
          let e := default entry_default (per_func s !! name) in
          c <- add_chk 64 (calls e) 1 ;;
          modify (fun _ => Build_FtraceStats n (return_count s) (unknown_calls s) (unknown_returns s)
            (<[name := {| calls := c; returns := returns e |}]> (per_func s)))
      | None =>
          u <- add_chk 64 (unknown_calls s) 1 ;;
          modify (fun _ => Build_FtraceStats n (return_count s) u (unknown_returns s) (per_func s))
      end
  | Return name _ =>
      n <- add_chk 64 (return_count s) 1 ;;
      match name with
      | Some name =>
          let e := default entry_default (per_func s !! name) in
          c <- add_chk 64 (returns e) 1 ;;
          modify (fun _ => Build_FtraceStats (call_count s) n (unknown_calls s) (unknown_returns s)
            (<[name := {| calls := calls e; returns := c |}]> (per_func s)))
      | None =>
          u <- add_chk 64 (unknown_returns s) 1 ;;
          modify (fun _ => Build_FtraceStats (call_count s) n (unknown_calls s) u (per_func s))
      end
  end.

Definition FtraceState_record (trace : FuncTrace) : M FtraceState E unit :=
  e <- gets enabled ;;
  if negb e then ret tt else
  zoom stats (fun s x => {| enabled := enabled s; queue := queue s; stats := x |}) (FtraceStats_record trace) ;;;
  modify (fun s =>
    let q := queue s ++ [trace] in
    {| enabled := enabled s; queue := if (MAX_FTRACE <? length q)%nat then tail q else q; stats := stats s |}).
End Stats.

(** [Result::ok]: an error becomes [None]; a panic goes on. *)
Definition ok {S E E' A} (m : M S E A) : M S E' (option A) :=
  fun s => match m s with
           | (Ok a, s') => (Ok (Some a), s')
           | (Err _, s') => (Ok None, s')
           | (Panic, s') => (Panic, s')
           end.

(** ** Inspecting the hart ([impl DebugTarget for RVCPU]) *)
Section Target.
Context {D X : Type} `{DeviceTrait D} `{Profile}.
Context (decoder : Decoder).
Local Notation CPU := (RVCPU D X).

Definition read_for_debug_ifetch (t : UInt) (addr : Z) : M CPU MemError Z :=
  policy <- zoom csr (fun c x => set_csr x c) (resolve_ifetch_policy false) ;;
  on_memory (read_with_policy t addr policy).

(** [debug_vaddr_to_paddr] and [translate_for_debug] of the memory manager. *)
Definition debug_vaddr_to_paddr (vaddr : Z) : M CPU PageTableError Z :=
  on_memory (vm_translate vaddr no_check EffectNone).
Definition debug_translate (vaddr : Z) (access : AccessType) : M CPU PageTableError Z :=
  policy <- zoom csr (fun c x => set_csr x c) (resolve_data_policy access false) ;;
  match policy with
  | Direct => ret vaddr
  | Translated check effect _ => on_memory (vm_translate vaddr check effect)
  end.

Definition dbg_read_reg (idx : Z) : M CPU Exception Z := reg_at idx.
Definition dbg_write_reg (idx value : Z) : M CPU Exception unit := reg_write idx value.
Definition dbg_write_pc (new_pc : Z) : M CPU Exception unit := Cpu.write_pc new_pc.

Definition read_instr (vaddr : Z) : M CPU MemError Z :=
  lo <- read_for_debug_ifetch U16 vaddr ;;
  if negb (Z.land lo 3 =? 3) then ret (RawInstr_from lo) else
  hi <- read_for_debug_ifetch U16 (wrap 64 (vaddr + 2)) ;;
  ret (RawInstr_from (Z.lor lo (shl 32 hi 16))).

Definition read_instr_directly (addr : Address) : M CPU MemError Z :=
  lo <- on_memory (debug_read U16 addr) ;;
  if negb (Z.land lo 3 =? 3) then ret (RawInstr_from lo) else
  next <- Address_add addr 2 ;;
  hi <- on_memory (debug_read U16 next) ;;
  ret (RawInstr_from (Z.lor lo (shl 32 hi 16))).

Definition read_memory (t : UInt) (addr : Address) : M CPU MemError Z := on_memory (debug_read t addr).
Definition write_memory (t : UInt) (addr : Address) (data : Z) : M CPU MemError unit := on_memory (debug_write t addr data).
Definition debug_csr (addr : Z) (new_value : option Z) : M CPU Exception (option Z) := on_csr (Csr.debug addr new_value).

Definition decoded_instr {E} (raw : Z) : M CPU E (option DecodeInstr) := unwrap (decode decoder raw).

Definition cpu_on_breakpoint {E} (breakpoints : list Breakpoint) : M CPU E bool :=
  p <- gets pc ;;
  if existsb (fun bp => bool_decide (bp_addr bp = Virt p)) breakpoints then ret true else
  r <- ok (debug_vaddr_to_paddr p) ;;
  match r with
  | None => ret false
  | Some paddr => ret (existsb (fun bp => bool_decide (bp_addr bp = Phys paddr)) breakpoints)
  end.
End Target.

(** ** The hook *)
Record DebugCycle : Type := { dc_pc : Z; raw_instr : option Z; dc_decoded : option DecodeInstr }.

Record DebuggerExecutionHook : Type := {
  hk_breakpoints : list Breakpoint;
  hk_history : list (Z * option Z);
  hk_ftrace : FtraceState;
  hk_symtab : option SymTab
}.
Definition set_hk_history (l : list (Z * option Z)) (h : DebuggerExecutionHook) : DebuggerExecutionHook :=
  Build_DebuggerExecutionHook (hk_breakpoints h) l (hk_ftrace h) (hk_symtab h).
Definition set_hk_ftrace (t : FtraceState) (h : DebuggerExecutionHook) : DebuggerExecutionHook :=
  Build_DebuggerExecutionHook (hk_breakpoints h) (hk_history h) t (hk_symtab h).

Section Hook.
Context {D X : Type} `{DeviceTrait D} `{Profile}.
Context (decoder : Decoder).
Local Notation CPU := (RVCPU D X).

Definition on_hart {E A} (m : M CPU E A) : M (DebuggerExecutionHook * CPU) E A := zoom snd (fun s c => (fst s, c)) m.

Definition hook_before_step : M (DebuggerExecutionHook * CPU) Empty_set DebugCycle :=
  p <- gets (fun s => pc (snd s)) ;;
  raw <- on_hart (ok (read_instr p)) ;;
  d <- match raw with Some r => on_hart (decoded_instr decoder r) | None => ret None end ;;
  ret {| dc_pc := p; raw_instr := raw; dc_decoded := d |}.

Definition hook_on_interrupt_taken (p : Z) : M DebuggerExecutionHook Empty_set DebugCycle :=
  ret {| dc_pc := p; raw_instr := None; dc_decoded := None |}.

(** The bounded history: the oldest entry makes room for the new one. *)
Definition push_history (e : Z * option Z) (l : list (Z * option Z)) : list (Z * option Z) :=
  (if (length l =? MAX_HISTORY)%nat then tail l else l) ++ [e].

Definition record_opt {E} (t : option FuncTrace) : M FtraceState E unit :=
  match t with Some t => FtraceState_record t | None => ret tt end.

Definition hook_after_step (cycle : DebugCycle) : M (DebuggerExecutionHook * CPU) Empty_set bool :=
  modify (fun s => (set_hk_history (push_history (dc_pc cycle, raw_instr cycle) (hk_history (fst s))) (fst s), snd s)) ;;;
  on <- gets (fun s => enabled (hk_ftrace (fst s))) ;;
  nxt <- gets (fun s => pc (snd s)) ;;
  symtab <- gets (fun s => hk_symtab (fst s)) ;;
  (if on : bool then
     let '(t1, t2) := ftrace_for_step symtab (dc_decoded cycle) (dc_pc cycle) nxt in
     zoom (fun s => hk_ftrace (fst s)) (fun s t => (set_hk_ftrace t (fst s), snd s)) (record_opt t1 ;;; record_opt t2)
   else ret tt) ;;;
  bps <- gets (fun s => hk_breakpoints (fst s)) ;;
  on_hart (cpu_on_breakpoint bps).

#[export] Instance debugger_hook : ExecutionHook DebuggerExecutionHook CPU DebugCycle := {|
  before_step := hook_before_step;
  on_interrupt_taken := hook_on_interrupt_taken;
  after_step := hook_after_step
|}.
End Hook.

(** ** Boards and the debugger *)

(** What the debugger uses of the trait [Board]; [board_step_hooked] is its
    [step_batch_with_hook] with the debugger's hook. *)
Class BoardTrait (B D X : Type) : Type := {
  board_status : B -> BoardStatus;
  board_cpu : B -> RVCPU D X;
  board_put_cpu : RVCPU D X -> B -> B;
  board_step_hooked : Z -> M (DebuggerExecutionHook * B) Exception BatchResult
}.

Record Debugger (B : Type) : Type := {
  breakpoints : list Breakpoint;
  board : B;
  history : list (Z * option Z);
  ftrace : FtraceState;
  symtab : option SymTab
}.
Arguments Build_Debugger {B} _ _ _ _ _.
Arguments breakpoints {B} _.
Arguments board {B} _.
Arguments history {B} _.
Arguments ftrace {B} _.
Arguments symtab {B} _.

Section Debugger.
Context {B D X : Type} `{DeviceTrait D} `{Profile} `{BoardTrait B D X}.
Context (decoder : Decoder).
Local Notation Dbg := (Debugger B).

(** The symbol table is the one of the board's loader. *)
Definition Debugger_new (b : B) (loaded : option SymTab) : Dbg := Build_Debugger [] b [] FtraceState_new loaded.
Definition set_symbol_table (t : SymTab) (d : Dbg) : Dbg := Build_Debugger (breakpoints d) (board d) (history d) (ftrace d) (Some t).
Definition set_ftrace (t : FtraceState) (d : Dbg) : Dbg := Build_Debugger (breakpoints d) (board d) (history d) t (symtab d).
Definition set_breakpoints (l : list Breakpoint) (d : Dbg) : Dbg := Build_Debugger l (board d) (history d) (ftrace d) (symtab d).
Definition set_board (b : B) (d : Dbg) : Dbg := Build_Debugger (breakpoints d) b (history d) (ftrace d) (symtab d).

(** [iter().rev().take(k).rev()]. *)
Definition pc_history (k : nat) (d : Dbg) : list (Z * option Z) := reverse (take k (reverse (history d))).
Definition ftrace_start (d : Dbg) : Dbg := set_ftrace (FtraceState_start (ftrace d)) d.
Definition ftrace_stop (d : Dbg) : Dbg := set_ftrace (FtraceState_stop (ftrace d)) d.
Definition ftrace_enabled (d : Dbg) : bool := enabled (ftrace d).
Definition ftrace_show (d : Dbg) : list FuncTrace := queue (ftrace d).
Definition ftrace_stat (d : Dbg) : FtraceStatsSnapshot := FtraceState_snapshot (ftrace d).

(** [format!("Function at address 0x{:08x} not found", addr)]. *)
Definition hex_digit (n : Z) : string :=
  match String.get (Z.to_nat n) "0123456789abcdef" with Some c => String c EmptyString | None => EmptyString end.
Fixpoint hex_digits (fuel : nat) (n : Z) : string :=
  match fuel with
  | O => EmptyString
  | S fuel => String.append (if n <? 16 then EmptyString else hex_digits fuel (n / 16)) (hex_digit (n mod 16))
  end.
Definition format_08x (n : Z) : string :=
  let h := hex_digits 16 n in String.append (String.concat "" (replicate (8 - String.length h) "0"%string)) h.
Definition function_not_found (addr : Z) : DebugError :=
  SymbolNotFound (String.append "Function at address 0x" (String.append (format_08x addr) " not found")).

Definition symbol_by_addr (addr : Z) (d : Dbg) : Res DebugError string :=
  match symtab d with
  | None => Err NoSymbolTable
  | Some t => match func_name_by_addr addr t with Some n => Ok n | None => Err (function_not_found addr) end
  end.
Definition symbol_in_addr_range (addr : Z) (d : Dbg) : Res DebugError string :=
  match symtab d with
  | None => Err NoSymbolTable
  | Some t => match func_name_in_addr_range addr t with Some n => Ok n | None => Err (function_not_found addr) end
  end.
Definition addr_by_symbol (name : string) (d : Dbg) : Res DebugError Z :=
  match symtab d with
  | None => Err NoSymbolTable
  | Some t => match func_addr_by_name name t with Some a => Ok a | None => Err (SymbolNotFound name) end
  end.

Definition set_breakpoint (addr : Address) : M Dbg DebugError bool :=
  l <- gets breakpoints ;;
  if existsb (fun bp => bool_decide (bp_addr bp = addr)) l then ret false else
  modify (set_breakpoints (l ++ [{| bp_id := Z.of_nat (length l); bp_addr := addr |}])) ;;;
  ret true.

Definition clear_breakpoint (addr : Address) : M Dbg DebugError bool :=
  original_len <- gets (fun d => length (breakpoints d)) ;;
  modify (fun d => set_breakpoints (filter (fun bp => bp_addr bp <> addr) (breakpoints d)) d) ;;;
  gets (fun d => negb (length (breakpoints d) =? original_len)%nat).

Definition on_board_cpu {E A} (m : M (RVCPU D X) E A) : M Dbg E A :=
  zoom (fun d => board_cpu (board d)) (fun d c => set_board (board_put_cpu c (board d)) d) m.

Definition on_breakpoint : M Dbg DebugError bool :=
  bps <- gets breakpoints ;; on_board_cpu (cpu_on_breakpoint bps).

Definition hook_of (d : Dbg) : DebuggerExecutionHook := Build_DebuggerExecutionHook (breakpoints d) (history d) (ftrace d) (symtab d).

(** [continue_until_step]: [None] when [fuel] batches were not enough. *)
Definition continue_until_step (fuel : nat) (max_steps : Z) (d : Dbg) : option (Res Exception (DebugEvent * Z) * Dbg) :=
  if max_steps =? 0 then Some (Ok (StepCompleted, 0), d)
  else if bool_decide (board_status (board d) = Halt) then Some (Ok (BoardHalted, 0), d)
  else
    match run_loop (fun s => board_status (snd s)) board_step_hooked fuel max_steps 0 (hook_of d, board d) with
    | None => None
    | Some (r, (h, b)) =>
        let d' := Build_Debugger (breakpoints d) b (hk_history h) (hk_ftrace h) (symtab d) in
        Some (match r with
              | Ok result =>
                  Ok (if hook_stopped result then BreakpointHit
                      else if bool_decide (board_status b = Halt) then BoardHalted else StepCompleted, Executor.cycles result)
              | Err e => Err e
              | Panic => Panic
              end, d')
    end.

Definition dbg_step (d : Dbg) : option (Res Exception DebugEvent * Dbg) :=
  match continue_until_step 1 1 d with Some (r, d') => Some (res_map fst r, d') | None => None end.

Definition continue_run (fuel : nat) (d : Dbg) := continue_until_step fuel (2 ^ 64 - 1) d.

(** [should_pause] is a closure with a state [P] of its own; [None] when [fuel]
    rounds were not enough. *)
Fixpoint continue_with_batch_check {P : Type} (should_pause : P -> bool * P) (fuel : nat) (p : P) (d : Dbg)
  : option (Res Exception (option DebugEvent) * P * Dbg) :=
  if bool_decide (board_status (board d) = Halt) then Some (Ok (Some BoardHalted), p, d) else
  let '(pause, p) := should_pause p in
  if pause then Some (Ok None, p, d) else
  match fuel with
  | O => None
  | S fuel =>
      match continue_until_step 1 1024 d with
      | None => None
      | Some (Ok (event, _), d') =>
          if bool_decide (event = StepCompleted) then continue_with_batch_check should_pause fuel p d'
          else Some (Ok (Some event), p, d')
      | Some (Err e, d') => Some (Err e, p, d')
      | Some (Panic, d') => Some (Panic, p, d')
      end
  end.

Definition next_instr : M Dbg DebugError (option Z) :=
  p <- gets (fun d => pc (board_cpu (board d))) ;; on_board_cpu (ok (read_instr p)).
Definition vaddr_to_paddr (vaddr : Z) : M Dbg PageTableError Z := on_board_cpu (debug_vaddr_to_paddr vaddr).
Definition unify_to_phys_addr (addr : Address) : M Dbg DebugError (option Z) :=
  match addr with Phys p => ret (Some p) | Virt v => ok (vaddr_to_paddr v) end.

Definition dbg_read_csr (addr : Z) : M Dbg Exception (option Z) := on_board_cpu (debug_csr addr None).
Definition dbg_write_csr (addr data : Z) : M Dbg DebugError unit :=
  v <- map_err (fun _ => CSRNotExist addr) (on_board_cpu (debug_csr addr (Some data))) ;;
  match v with Some _ => ret tt | None => err (CSRNotExist addr) end.

Definition set_current_privilege (level : PrivilegeLevel) : M Dbg Exception unit :=
  on_board_cpu (on_csr (set_current_privileged level)).
Definition decoded_info (raw : Z) : M Dbg Exception (option DecodeInstr) := on_board_cpu (decoded_instr decoder raw).
Definition dbg_translate (addr : Z) (access : AccessType) : M Dbg PageTableError Z := on_board_cpu (debug_translate addr access).
Definition dbg_cycle : M Dbg Exception Z := on_board_cpu (on_csr (data Mcycle)).
End Debugger.
