(* ===== verification/DebuggerSpec.v ===== *)
(** * What the debugger promises

    Symbols, breakpoints and the function trace against their specifications;
    a batch of cycles under the debugger's hook stops at the first breakpoint
    and records exactly the cycles it ran; inspecting the hart changes neither
    its registers nor its memory. *)

From S2P Require Import Prelude Utils TrapTypes Ram Cache CsrTable Csr PageTable Mmio Device Plic Power Clock Clint Vm Instr Cpu Trap Exec Invariant Precise Decoder Executor ExecutorSpec Board Debugger.

(** ** Symbols *)

(** The entry [last_up_to] returns has the greatest address up to [addr]. *)
Lemma last_up_to_spec addr m :
  match last_up_to addr m with
  | Some (k, name) => m !! k = Some name /\ k <= addr /\ forall k', is_Some (m !! k') -> k' <= addr -> k' <= k
  | None => forall k', is_Some (m !! k') -> addr < k'
  end.
Proof.
  unfold last_up_to. set (f := fun k name best => _).
  apply (map_fold_weak_ind (fun best m => match best with
    | Some (k, name) => m !! k = Some name /\ k <= addr /\ forall k', is_Some (m !! k') -> k' <= addr -> k' <= k
    | None => forall k', is_Some (m !! k') -> addr < k' end) f).
  { intros k' [? Hk]. by rewrite lookup_empty in Hk. }
  intros k name m0 best Hnew IH. unfold f. destruct (Z.leb_spec k addr) as [Hle|Hgt].
  - destruct best as [[k0 n0]|].
    + destruct IH as (Hk0 & Hle0 & Hmax). destruct (Z.ltb_spec k0 k).
      * split_and!; [by rewrite lookup_insert_eq|done|]. intros k' Hk'. destruct (decide (k = k')) as [->|Hne]; [lia|].
        rewrite lookup_insert_ne in Hk' by done. intros Hle'. specialize (Hmax k' Hk' Hle'). lia.
      * split_and!; [rewrite lookup_insert_ne; [done|congruence]|done|]. intros k' Hk'.
        destruct (decide (k = k')) as [->|Hne]; [lia|]. rewrite lookup_insert_ne in Hk' by done. by apply Hmax.
    + split_and!; [by rewrite lookup_insert_eq|done|]. intros k' Hk'. destruct (decide (k = k')) as [->|Hne]; [lia|].
      rewrite lookup_insert_ne in Hk' by done. specialize (IH k' Hk'). lia.
  - destruct best as [[k0 n0]|].
    + destruct IH as (Hk0 & Hle0 & Hmax). split_and!; [rewrite lookup_insert_ne; [done|congruence]|done|].
      intros k' Hk' Hle'. destruct (decide (k = k')) as [->|Hne]; [lia|]. rewrite lookup_insert_ne in Hk' by done. by apply Hmax.
    + intros k' Hk'. destruct (decide (k = k')) as [->|Hne]; [lia|]. rewrite lookup_insert_ne in Hk' by done. by apply IH.
Qed.

Lemma SymTab_from_lookup (syms : list (string * Z)) (t : SymTab) n a : NoDup (fst <$> syms) -> NoDup (snd <$> syms) ->
  (forall m b, (m, b) ∈ syms -> forward t !! m = None /\ backward t !! b = None) ->
  let t' := fold_left (fun t p => BiMap_insert (fst p) (snd p) t) syms t in
  (forward t' !! n = Some a <-> (n, a) ∈ syms \/ forward t !! n = Some a) /\
  (backward t' !! a = Some n <-> (n, a) ∈ syms \/ backward t !! a = Some n).
Proof.
  revert t. induction syms as [|[m b] syms IH]; intros t H1 H2 Hfresh; cbn.
  { split; (split; [by right|]; intros [Hin|]; [by apply not_elem_of_nil in Hin|done]). }
  cbn in H1, H2. apply list.NoDup_cons in H1 as [Hm H1]. apply list.NoDup_cons in H2 as [Hb H2].
  destruct (Hfresh m b) as [Hfm Hfb]; [by left|].
  assert (forall m' b', (m', b') ∈ syms -> m' <> m /\ b' <> b) as Hother.
  { intros m' b' Hin. split; intros ->; [apply Hm|apply Hb]; apply list_elem_of_fmap; [by exists (m, b')|by exists (m', b)]. }
  destruct (IH (BiMap_insert m b t) H1 H2) as [IH1 IH2].
  { intros m' b' Hin. destruct (Hother m' b' Hin). cbn. rewrite !lookup_insert_ne by congruence. apply Hfresh. by right. }
  cbn in IH1, IH2. rewrite IH1, IH2. clear IH IH1 IH2. split.
  - destruct (decide (m = n)) as [->|Hne]; [rewrite lookup_insert_eq|rewrite lookup_insert_ne by done].
    + split; [intros [Hin|[= <-]]; left; [by right|by left]|].
      intros [Hin|Hin]; [|congruence]. apply elem_of_cons in Hin as [[= ->]|Hin]; [by right|by left].
    + split; [intros [Hin|Hin]; [left; by right|by right]|]. intros [Hin|Hin]; [|by right].
      apply elem_of_cons in Hin as [[= -> ->]|Hin]; [done|by left].
  - destruct (decide (b = a)) as [->|Hne]; [rewrite lookup_insert_eq|rewrite lookup_insert_ne by done].
    + split; [intros [Hin|[= <-]]; left; [by right|by left]|].
      intros [Hin|Hin]; [|congruence]. apply elem_of_cons in Hin as [[= ->]|Hin]; [by right|by left].
    + split; [intros [Hin|Hin]; [left; by right|by right]|]. intros [Hin|Hin]; [|by right].
      apply elem_of_cons in Hin as [[= -> ->]|Hin]; [done|by left].
Qed.

(** With distinct names and addresses, a table finds each name by its address
    and each address by its name. *)
Theorem symbols_roundtrip (syms : list (string * Z)) n a : NoDup (fst <$> syms) -> NoDup (snd <$> syms) ->
  (func_addr_by_name n (SymTab_from syms) = Some a <-> (n, a) ∈ syms) /\
  (func_name_by_addr a (SymTab_from syms) = Some n <-> (n, a) ∈ syms).
Proof.
  intros H1 H2. destruct (SymTab_from_lookup syms BiMap_new n a H1 H2) as [Hf Hb]; [done|].
  unfold func_addr_by_name, func_name_by_addr, get_by_left, get_by_right, SymTab_from. rewrite Hf, Hb. cbn.
  rewrite !lookup_empty. split; (split; [by intros [|]|by left]).
Qed.

(** Two symbols of one name: the old address still leads to the name. *)
Example stale_symbol :
  let t := SymTab_from [("f", 16); ("f", 32)]%string in
  func_name_by_addr 16 t = Some "f"%string /\ func_addr_by_name "f" t = Some 32.
Proof. done. Qed.

(** ** Breakpoints *)
Section Breakpoints.
Context {B : Type}.
Implicit Types d : Debugger B.

Definition addresses d : list Address := bp_addr <$> breakpoints d.

Lemma existsb_addr (l : list Breakpoint) a : existsb (fun bp => bool_decide (bp_addr bp = a)) l = bool_decide (a ∈ bp_addr <$> l).
Proof.
  induction l as [|bp l IH]; cbn; [by rewrite bool_decide_false by apply not_elem_of_nil|]. rewrite IH.
  apply Bool.eq_iff_eq_true. rewrite orb_true_iff, !bool_decide_eq_true, elem_of_cons. naive_solver.
Qed.

Lemma removed_length (l : list Breakpoint) a :
  negb (length (filter (fun bp => bp_addr bp <> a) l) =? length l)%nat = bool_decide (a ∈ bp_addr <$> l).
Proof.
  induction l as [|bp l IH]; [by rewrite bool_decide_false by apply not_elem_of_nil|]. rewrite fmap_cons.
  destruct (decide (bp_addr bp = a)) as [<-|Hne].
  - rewrite filter_cons_False by tauto. rewrite bool_decide_true by by left.
    apply negb_true_iff, Nat.eqb_neq. pose proof (length_filter (fun bp' => bp_addr bp' <> bp_addr bp) l). cbn [length]. lia.
  - rewrite filter_cons_True by done. cbn [length]. etrans; [exact IH|]. apply bool_decide_ext. rewrite elem_of_cons. naive_solver.
Qed.

Lemma removed_nodup (l : list Breakpoint) a : NoDup (bp_addr <$> l) -> NoDup (bp_addr <$> filter (fun bp => bp_addr bp <> a) l).
Proof.
  induction l as [|bp l IH]; [done|]. rewrite fmap_cons. intros [Hbp Hnd]%list.NoDup_cons.
  destruct (decide (bp_addr bp = a)) as [<-|Hne].
  - rewrite filter_cons_False by tauto. by apply IH.
  - rewrite filter_cons_True by done. rewrite fmap_cons. apply list.NoDup_cons. split; [|by apply IH].
    intros (y & Hy & Hin)%list_elem_of_fmap. apply list_elem_of_filter in Hin as [_ Hin]. apply Hbp. rewrite Hy. by apply list_elem_of_fmap_2.
Qed.

(** Setting adds the address once, clearing removes it, and both report
    whether they changed anything. *)
Theorem breakpoints_are_a_set a d : NoDup (addresses d) ->
  (exists d', set_breakpoint a d = (Ok (bool_decide (a ∉ addresses d)), d') /\ NoDup (addresses d') /\
     forall x, x ∈ addresses d' <-> x ∈ addresses d \/ x = a) /\
  (exists d', clear_breakpoint a d = (Ok (bool_decide (a ∈ addresses d)), d') /\ NoDup (addresses d') /\
     forall x, x ∈ addresses d' <-> x ∈ addresses d /\ x <> a).
Proof.
  intros Hnd. split.
  - unfold set_breakpoint, bind, gets, modify, ret. rewrite existsb_addr. fold (addresses d). case_bool_decide as Hin.
    + rewrite bool_decide_false by tauto. exists d. split_and!; [done|done|]. naive_solver.
    + rewrite bool_decide_true by done. eexists. split; [reflexivity|]. unfold addresses in *. cbn. rewrite fmap_app. cbn.
      split; [apply list.NoDup_app; split_and!; [done| |apply list.NoDup_singleton]; intros x Hx Hx'; apply list_elem_of_singleton in Hx'; by subst|].
      intros x. by rewrite elem_of_app, list_elem_of_singleton.
  - unfold clear_breakpoint, bind, gets, modify, ret. eexists. split; [|split].
    + f_equal. f_equal. apply removed_length.
    + by apply removed_nodup.
    + intros x. unfold addresses. cbn. rewrite !list_elem_of_fmap. split.
      * intros (y & -> & Hy). apply list_elem_of_filter in Hy as [Hne Hy]. eauto.
      * intros [(y & -> & Hy) Hne]. exists y. split; [done|]. by apply list_elem_of_filter.
Qed.
End Breakpoints.

(** The identifier of a new breakpoint is the number of breakpoints: after a
    removal it is in use already. *)
Example breakpoint_ids_repeat :
  let d := Debugger_new tt None in
  let d := snd (set_breakpoint (Virt 16) d) in
  let d := snd (set_breakpoint (Virt 32) d) in
  let d := snd (clear_breakpoint (Virt 16) d) in
  let d := snd (set_breakpoint (Virt 48) d) in
  breakpoints d = [{| bp_id := 1; bp_addr := Virt 32 |}; {| bp_id := 1; bp_addr := Virt 48 |}].
Proof. done. Qed.

(** ** Bounded queues *)

(** The last [k] elements. *)
Definition last_n {A} (k : nat) (l : list A) : list A := drop (length l - k) l.

Lemma last_n_short {A} k (l : list A) : (length l <= k)%nat -> last_n k l = l.
Proof. intros Hl. unfold last_n. by replace (length l - k)%nat with 0%nat by lia. Qed.

Lemma last_n_length {A} k (l : list A) : length (last_n k l) = Nat.min k (length l).
Proof. unfold last_n. rewrite length_drop. lia. Qed.

(** Dropping early or late is the same. *)
Lemma last_n_app {A} k (l1 l2 : list A) : last_n k (last_n k l1 ++ l2) = last_n k (l1 ++ l2).
Proof.
  destruct (Nat.le_gt_cases (length l1) k) as [Hle|Hgt]; [by rewrite (last_n_short k l1)|].
  assert (length (last_n k l1) = k) as Hk by (rewrite last_n_length; lia).
  unfold last_n at 1 3. rewrite !length_app, Hk. unfold last_n.
  replace (k + length l2 - k)%nat with (length l2) by lia.
  replace (drop (length l1 - k) l1 ++ l2) with (drop (length l1 - k) (l1 ++ l2)) by (by rewrite drop_app_le by lia).
  rewrite drop_drop. f_equal. lia.
Qed.

Lemma last_n_snoc {A} k (l : list A) x : (0 < k)%nat -> (length l <= k)%nat ->
  last_n k (l ++ [x]) = if (length l =? k)%nat then tail l ++ [x] else l ++ [x].
Proof.
  intros Hk Hl. destruct (Nat.eqb_spec (length l) k) as [He|Hne].
  - unfold last_n. rewrite length_app. cbn [length]. replace (length l + 1 - k)%nat with 1%nat by lia.
    destruct l; [cbn in He; lia|done].
  - apply last_n_short. rewrite length_app. cbn. lia.
Qed.

Lemma push_history_last e l : (length l <= MAX_HISTORY)%nat -> push_history e l = last_n MAX_HISTORY (l ++ [e]).
Proof.
  intros Hl. unfold push_history. rewrite last_n_snoc; [|unfold MAX_HISTORY; lia|done]. by destruct (_ =? _)%nat.
Qed.

(** ** The function trace *)

Fixpoint cnt (p : FuncTrace -> bool) (l : list FuncTrace) : Z :=
  match l with [] => 0 | t :: l => (if p t then 1 else 0) + cnt p l end.

Lemma cnt_app p l1 l2 : cnt p (l1 ++ l2) = cnt p l1 + cnt p l2.
Proof. induction l1 as [|t l1 IH]; cbn [app cnt]; [done|]. rewrite IH. lia. Qed.

Lemma cnt_bounds p l : 0 <= cnt p l <= Z.of_nat (length l).
Proof. induction l as [|t l IH]; cbn [cnt length]; [lia|]. destruct (p t); lia. Qed.

Definition trace_name (t : FuncTrace) : option string := match t with Call n _ | Return n _ => n end.
Definition is_call (t : FuncTrace) : bool := match t with Call _ _ => true | Return _ _ => false end.
Definition is_return (t : FuncTrace) : bool := negb (is_call t).
Definition of_func (n : option string) (t : FuncTrace) : bool := bool_decide (trace_name t = n).

Lemma of_func_eq n t : of_func n t = bool_decide (trace_name t = n).
Proof. reflexivity. Qed.

(** The statistics a list of events has. *)
Record stats_of (l : list FuncTrace) (s : FtraceStats) : Prop := {
  so_calls : call_count s = cnt is_call l;
  so_returns : return_count s = cnt is_return l;
  so_ucalls : unknown_calls s = cnt (fun t => is_call t && of_func None t) l;
  so_ureturns : unknown_returns s = cnt (fun t => is_return t && of_func None t) l;
  so_func : forall n, per_func s !! n =
    if cnt (of_func (Some n)) l =? 0 then None
    else Some {| calls := cnt (fun t => is_call t && of_func (Some n) t) l; returns := cnt (fun t => is_return t && of_func (Some n) t) l |}
}.

Section Ftrace.
Context `{Profile} {E : Type}.

Fixpoint record_all (l : list FuncTrace) : M FtraceState E unit :=
  match l with [] => ret tt | t :: l => FtraceState_record t ;;; record_all l end.

Lemma record_all_app l1 l2 s : record_all (l1 ++ l2) s = (record_all l1 ;;; record_all l2) s.
Proof.
  revert s. induction l1 as [|t l1 IH]; intros s; [done|]. cbn [app record_all]. unfold bind.
  destruct (FtraceState_record t s) as [[[]|e|] s1]; [|done|done]. apply IH.
Qed.

Lemma count_run {S} a (t : S) : 0 <= a -> a + 1 < 2 ^ 64 -> add_chk (E := E) 64 a 1 t = (Ok (a + 1), t).
Proof.
  intros H0' H1'. unfold add_chk. rewrite (proj2 (Z.leb_gt _ _)) by lia. rewrite andb_false_r. by rewrite wrap_small by (unfold uint; lia).
Qed.

(** The entry of a function, or the default one. *)
Lemma stats_entry l s n : stats_of l s -> default entry_default (per_func s !! n) =
  {| calls := cnt (fun t => is_call t && of_func (Some n) t) l; returns := cnt (fun t => is_return t && of_func (Some n) t) l |}.
Proof.
  intros Hs. rewrite (so_func _ _ Hs). destruct (Z.eqb_spec (cnt (of_func (Some n)) l) 0) as [Hz|]; [|done]. cbn.
  assert (forall p, cnt (fun t => p t && of_func (Some n) t) l = 0) as Hp; [|by rewrite !Hp].
  intros p. clear Hs. induction l as [|t l IH]; [done|]. cbn [cnt] in *. pose proof (cnt_bounds (of_func (Some n)) l).
  destruct (of_func (Some n) t); [lia|]. rewrite andb_false_r. apply IH. lia.
Qed.

(** One more event, with counters that do not overflow. *)
Definition record_pure (t : FuncTrace) (s : FtraceStats) : FtraceStats :=
  let b2z (b : bool) := if b then 1 else 0 in
  let known := match trace_name t with Some _ => true | None => false end in
  Build_FtraceStats (call_count s + b2z (is_call t)) (return_count s + b2z (is_return t))
    (unknown_calls s + b2z (is_call t && negb known)) (unknown_returns s + b2z (is_return t && negb known))
    (match trace_name t with
     | Some n => let e := default entry_default (per_func s !! n) in
                 <[n := {| calls := calls e + b2z (is_call t); returns := returns e + b2z (is_return t) |}]> (per_func s)
     | None => per_func s
     end).

Lemma record_pure_run l t s : stats_of l s -> Z.of_nat (length l) + 1 < 2 ^ 64 ->
  FtraceStats_record (E := E) t s = (Ok tt, record_pure t s).
Proof.
  intros Hs Hl. pose proof (fun p => cnt_bounds p l) as Hb. pose proof (fun n => stats_entry l s n Hs) as He.
  destruct Hs as [H1' H2' H3' H4' _]. unfold FtraceStats_record, record_pure. unfold bind at 1, gets, Datatypes.id.
  pose proof (Hb is_call). pose proof (Hb is_return). pose proof (Hb (fun t => is_call t && of_func None t)).
  pose proof (Hb (fun t => is_return t && of_func None t)).
  destruct t as [[n|] a|[n|] a]; cbn [trace_name is_call is_return negb andb]; cbv zeta; rewrite ?Z.add_0_r.
  1,3: rewrite He; cbn [calls returns]; pose proof (Hb (fun t => is_call t && of_func (Some n) t)); pose proof (Hb (fun t => is_return t && of_func (Some n) t)).
  all: do 2 (erewrite bind_Ok by (apply count_run; lia)); reflexivity.
Qed.

Lemma record_pure_stats l t s : stats_of l s -> stats_of (l ++ [t]) (record_pure t s).
Proof.
  intros Hs. pose proof (fun n => stats_entry l s n Hs) as He. pose proof Hs as [H1' H2' H3' H4' H5'].
  split; unfold record_pure; cbn [call_count return_count unknown_calls unknown_returns per_func]; rewrite ?cnt_app; cbn [cnt];
    rewrite ?H1', ?H2', ?H3', ?H4'.
  1,2: lia.
  1,2: rewrite (of_func_eq None t); destruct (trace_name t); [rewrite bool_decide_false by done|rewrite bool_decide_true by done]; cbn [negb]; lia.
  intros m. rewrite !cnt_app. cbn [cnt]. rewrite (of_func_eq (Some m) t). destruct (trace_name t) as [n|].
  - rewrite He. cbn [calls returns]. destruct (decide (n = m)) as [->|Hne].
    + rewrite lookup_insert_eq, bool_decide_true, !andb_true_r by done. pose proof (cnt_bounds (of_func (Some m)) l).
      rewrite (proj2 (Z.eqb_neq _ _)) by lia. do 2 f_equal; lia.
    + rewrite lookup_insert_ne, bool_decide_false, !andb_false_r, H5', !Z.add_0_r by (done || congruence). done.
  - rewrite bool_decide_false, !andb_false_r, H5', !Z.add_0_r by done. done.
Qed.

Lemma queue_push (q : list FuncTrace) t : (length q <= MAX_FTRACE)%nat ->
  (if (MAX_FTRACE <? length (q ++ [t]))%nat then tail (q ++ [t]) else q ++ [t]) = last_n MAX_FTRACE (q ++ [t]).
Proof.
  intros Hq. rewrite last_n_snoc; [|unfold MAX_FTRACE; lia|done]. rewrite length_app. cbn [length].
  destruct (Nat.eqb_spec (length q) MAX_FTRACE), (Nat.ltb_spec MAX_FTRACE (length q + 1)); try lia; [|done].
  destruct q; [cbn in *; unfold MAX_FTRACE in *; lia|done].
Qed.

(** A trace state that has recorded [l] since it was started. *)
Record traced (l : list FuncTrace) (s : FtraceState) : Prop := {
  tr_on : enabled s = true;
  tr_queue : queue s = last_n MAX_FTRACE l;
  tr_stats : stats_of l (stats s)
}.

Lemma traced_start s : traced [] (FtraceState_start s).
Proof. split; [done|done|]. split; try done. Qed.

Lemma record_run l t s : traced l s -> Z.of_nat (length l) + 1 < 2 ^ 64 ->
  exists s', FtraceState_record (E := E) t s = (Ok tt, s') /\ traced (l ++ [t]) s'.
Proof.
  intros [Hon Hq Hst] Hl. eexists. split.
  - unfold FtraceState_record, bind, gets, zoom. rewrite Hon. cbn [negb]. rewrite (record_pure_run l) by done. reflexivity.
  - split; cbn [enabled queue stats]; [done| |by apply record_pure_stats].
    rewrite Hq, queue_push by (rewrite last_n_length; lia). apply last_n_app.
Qed.

Lemma record_all_run l2 : forall l1 s, traced l1 s -> Z.of_nat (length (l1 ++ l2)) < 2 ^ 64 ->
  exists s', record_all l2 s = (Ok tt, s') /\ traced (l1 ++ l2) s'.
Proof.
  induction l2 as [|t l2 IH]; intros l1 s Ht Hl; [exists s; by rewrite app_nil_r|]. rewrite length_app in Hl. cbn [length] in Hl.
  destruct (record_run l1 t s Ht) as (s1 & Hr & Ht1); [lia|]. rewrite (cons_middle t l1 l2), app_assoc.
  destruct (IH (l1 ++ [t]) s1 Ht1) as (s2 & Hr2 & Ht2); [rewrite !length_app; cbn; lia|].
  exists s2. split; [|done]. cbn [record_all]. by rewrite (bind_Ok _ _ _ _ _ Hr).
Qed.

(** The function trace is exact: after the trace is started, recording any
    sequence of fewer than [2^64] events leaves the last 1024 of them, in
    order, in the queue, and statistics that count every one of them: all calls
    and returns, those without a symbol, and per function its own calls and
    returns, with an entry for exactly the functions that occurred. *)
Theorem ftrace_is_exact (l : list FuncTrace) (s0 : FtraceState) : Z.of_nat (length l) < 2 ^ 64 ->
  exists s, record_all l (FtraceState_start s0) = (Ok tt, s) /\ queue s = last_n MAX_FTRACE l /\ stats_of l (stats s).
Proof.
  intros Hl. destruct (record_all_run l [] (FtraceState_start s0)) as (s & Hr & [_ Hq Hs]); [apply traced_start|done|].
  exists s. auto.
Qed.
End Ftrace.

Lemma ftrace_is_exact_witness :
  let P := Prelude.dev in
  let l := [Call (Some "f"%string) 16; Return (Some "f"%string) 20; Call None 64] in
  exists s, record_all (E := unit) l (FtraceState_start FtraceState_new) = (Ok tt, s) /\ queue s = l /\
    per_func (stats s) !! "f"%string = Some {| calls := 1; returns := 1 |} /\ unknown_calls (stats s) = 1.
Proof.
  intros P l. destruct (ftrace_is_exact (E := unit) l FtraceState_new ltac:(vm_compute; reflexivity)) as (s & Hr & Hq & Hs).
  exists s. split; [exact Hr|]. split; [exact Hq|].
  split; [exact (so_func _ _ Hs "f"%string)|exact (so_ucalls _ _ Hs)].
Defined.
