(* ===== verification/DebuggerRun.v ===== *)
(** * Running under the debugger

    A batch of cycles under the debugger's hook is the run of the hart cut at
    the first breakpoint: [debug_run] is that run as a relation, with what the
    debugger logs of each cycle.  Inspecting the hart between the cycles
    changes neither its registers nor its memory.  [continue_until_step] is
    proved against what a board promises ([LawfulBoard]), and the virt board
    keeps that promise. *)

From S2P Require Import Prelude Utils TrapTypes Ram Cache CsrTable Csr PageTable Mmio Device Plic Power Clock Clint Vm Instr Cpu Trap Exec Invariant Decoder Executor HartSpec Board BoardSpec Debugger DebuggerSpec.

(** What one cycle leaves in the logs. *)
Record CycleLog : Type := { log_pc : Z; log_raw : option Z; log_events : list FuncTrace }.
Definition log_entry (l : CycleLog) : Z * option Z := (log_pc l, log_raw l).

Definition step_events (st : option SymTab) (d : option DecodeInstr) (pre nxt : Z) : list FuncTrace :=
  let '(t1, t2) := ftrace_for_step st d pre nxt in option_list t1 ++ option_list t2.

Section Run.
Context {D X : Type} `{DeviceTrait D} `{Profile} `{ExtUnit D X}.
Context (decoder : Decoder) (bps : list Breakpoint) (st : option SymTab).
Local Notation CPU := (RVCPU D X).
Implicit Types c : CPU.

(** The test of the breakpoints at the program counter: a virtual one, or else
    a physical one at its translation. *)
Inductive breakpoint_test (c : CPU) : bool -> CPU -> Prop :=
| test_virt : Virt (pc c) ∈ bp_addr <$> bps -> breakpoint_test c true c
| test_phys pa c' : Virt (pc c) ∉ bp_addr <$> bps -> debug_vaddr_to_paddr (pc c) c = (Ok pa, c') ->
    breakpoint_test c (bool_decide (Phys pa ∈ bp_addr <$> bps)) c'
| test_unmapped e c' : Virt (pc c) ∉ bp_addr <$> bps -> debug_vaddr_to_paddr (pc c) c = (Err e, c') ->
    breakpoint_test c false c'.

Lemma cpu_on_breakpoint_iff {E} c b c' : cpu_on_breakpoint (E := E) bps c = (Ok b, c') <-> breakpoint_test c b c'.
Proof.
  unfold cpu_on_breakpoint, bind, gets, ok, ret. rewrite existsb_addr. case_bool_decide as Hv.
  - split; [intros [= <- <-]; by constructor|]. by intros [|pa c0 Hn|e c0 Hn].
  - destruct (debug_vaddr_to_paddr (pc c) c) as [[pa|e|] c1] eqn:Et; [rewrite existsb_addr| |].
    all: split; [try done; intros [= <- <-]; by econstructor|].
    all: intros [|pa' c0 Hn Ep|e' c0 Hn Ep]; [done|..]; rewrite Et in Ep; try done; by injection Ep as <- <-.
Qed.

(** What the debugger sees of the instruction at the program counter. *)
Definition peek {E} : M CPU E (option Z * option DecodeInstr) :=
  p <- gets pc ;;
  raw <- ok (read_instr p) ;;
  d <- match raw with Some r => decoded_instr decoder r | None => ret None end ;;
  ret (raw, d).

(** One cycle under the debugger: it looks at the instruction, the hart runs
    it, and the breakpoints are tested. *)
Definition debug_cycle (c : CPU) (l : CycleLog) (stop : bool) (c' : CPU) : Prop :=
  exists raw d c1 c2, peek (E := Empty_set) c = (Ok (raw, d), c1) /\ cycle decoder c1 = (Ok tt, c2) /\
    l = {| log_pc := pc c; log_raw := raw; log_events := step_events st d (pc c) (pc c2) |} /\ breakpoint_test c2 stop c'.

Inductive debug_run : list CycleLog -> bool -> CPU -> CPU -> Prop :=
| run_end c : debug_run [] false c c
| run_hit c l c' : debug_cycle c l true c' -> debug_run [l] true c c'
| run_on c l c1 ls b c' : debug_cycle c l false c1 -> debug_run ls b c1 c' -> debug_run (l :: ls) b c c'.

(** A batch: an interrupt that is taken is a cycle of its own, in which no
    instruction runs. *)
Inductive batch_run : list CycleLog -> bool -> CPU -> CPU -> Prop :=
| batch_plain c c0 ls b c' : try_take_interrupt c = (Ok None, c0) -> debug_run ls b c0 c' -> batch_run ls b c c'
| batch_irq_hit c i c0 c1 c' : try_take_interrupt c = (Ok (Some i), c0) -> increment_mcycle c0 = (Ok tt, c1) ->
    breakpoint_test c1 true c' -> batch_run [{| log_pc := pc c; log_raw := None; log_events := [] |}] true c c'
| batch_irq_on c i c0 c1 c2 ls b c' : try_take_interrupt c = (Ok (Some i), c0) -> increment_mcycle c0 = (Ok tt, c1) ->
    breakpoint_test c1 false c2 -> debug_run ls b c2 c' ->
    batch_run ({| log_pc := pc c; log_raw := None; log_events := [] |} :: ls) b c c'.

(** The hook's state after the cycles [ls]. *)
Record hook_after_logs (h h' : DebuggerExecutionHook) (ls : list CycleLog) : Prop := {
  ha_bps : hk_breakpoints h' = hk_breakpoints h;
  ha_symtab : hk_symtab h' = hk_symtab h;
  ha_history : hk_history h' = last_n MAX_HISTORY (hk_history h ++ (log_entry <$> ls));
  ha_ftrace : record_all (E := Empty_set) (ls ≫= log_events) (hk_ftrace h) = (Ok tt, hk_ftrace h')
}.
End Run.

Section Hook.
Context {D X : Type} `{DeviceTrait D} `{Profile} `{ExtUnit D X}.
Context (decoder : Decoder).
Local Notation CPU := (RVCPU D X).
Implicit Types (c : CPU) (h : DebuggerExecutionHook).
#[local] Existing Instance debugger_hook.
Local Notation hook := (debugger_hook (D := D) (X := X) decoder).

Lemma record_disabled {E} l (s : FtraceState) : enabled s = false -> record_all (E := E) l s = (Ok tt, s).
Proof.
  intros Hs. induction l as [|t l IH]; [done|]. cbn [record_all]. unfold bind, FtraceState_record, bind, gets. rewrite Hs. exact IH.
Qed.

Lemma record_events {E} st d pre nxt (s : FtraceState) :
  (let '(t1, t2) := ftrace_for_step st d pre nxt in record_opt (E := E) t1 ;;; record_opt t2) s = record_all (step_events st d pre nxt) s.
Proof.
  unfold step_events. destruct (ftrace_for_step st d pre nxt) as [[t1|] [t2|]]; unfold option_list; cbn [option_rect app record_all record_opt]; try done.
  all: unfold bind, ret; destruct (FtraceState_record _ s) as [[[]|e|] s1]; try done.
  by destruct (FtraceState_record _ s1) as [[[]|e|] s2].
Qed.

Lemma on_breakpoint_never {E} bps c : map_err (E' := E) never (cpu_on_breakpoint (E := Empty_set) bps) c = cpu_on_breakpoint bps c.
Proof.
  unfold map_err, cpu_on_breakpoint, bind, gets, ok, ret. destruct (existsb _ bps); [done|].
  by destruct (debug_vaddr_to_paddr (pc c) c) as [[pa|e|] c1].
Qed.

(** The hook after a cycle: history, function trace, breakpoints. *)
Lemma after_step_run x h c b h' c' : (length (hk_history h) <= MAX_HISTORY)%nat ->
  let l := {| log_pc := dc_pc x; log_raw := raw_instr x; log_events := step_events (hk_symtab h) (dc_decoded x) (dc_pc x) (pc c) |} in
  hook_after (H2 := hook) x (h, c) = (Ok b, (h', c')) <->
  breakpoint_test (hk_breakpoints h) c b c' /\ hook_after_logs h h' [l].
Proof.
  intros Hl l.
  set (h1 t := Build_DebuggerExecutionHook (hk_breakpoints h) (last_n MAX_HISTORY (hk_history h ++ [log_entry l])) t (hk_symtab h)).
  assert (hook_after (H2 := hook) x (h, c) =
    match record_all (E := Empty_set) (log_events l) (hk_ftrace h) with
    | (Ok _, t) => let '(r, c') := cpu_on_breakpoint (E := Exception) (hk_breakpoints h) c in (r, (h1 t, c'))
    | (_, t) => (Panic, (h1 t, c))
    end) as ->.
  { unfold hook_after, map_err. cbn [after_step debugger_hook]. unfold hook_after_step. unfold bind, modify, gets, ret.
    cbn [fst snd hk_ftrace hk_symtab hk_breakpoints set_hk_history]. unfold on_hart, zoom. rewrite push_history_last by done.
    pose proof (on_breakpoint_never (E := Exception) (hk_breakpoints h) c) as Hbp. unfold map_err in Hbp.
    pose proof (record_events (E := Empty_set) (hk_symtab h) (dc_decoded x) (dc_pc x) (pc c) (hk_ftrace h)) as Hr.
    fold (log_events l) in Hr. destruct (enabled (hk_ftrace h)) eqn:Hen.
    - destruct (ftrace_for_step _ _ _ _) as [t1 t2]. unfold bind in Hr. cbn [fst snd hk_ftrace set_hk_history].
      change (step_events _ _ _ _) with (log_events l) in Hr. rewrite Hr.
      destruct (record_all (log_events l) (hk_ftrace h)) as [[[]|[]|] t]; [|done].
      cbn [fst snd set_hk_ftrace hk_breakpoints]. rewrite <- Hbp. by destruct (cpu_on_breakpoint _ c) as [[b0|[]|] c0].
    - rewrite record_disabled by done. cbn [fst snd hk_breakpoints set_hk_history]. rewrite <- Hbp.
      by destruct (cpu_on_breakpoint _ c) as [[b0|[]|] c0]; destruct h. }
  rewrite <- (cpu_on_breakpoint_iff (hk_breakpoints h) (E := Exception)).
  destruct (record_all (log_events l) (hk_ftrace h)) as [[[]|[]|] t] eqn:Hr.
  - destruct (cpu_on_breakpoint (hk_breakpoints h) c) as [r c0]. split.
    + intros [= -> <- ->]. split; [done|]. split; try done. cbn [mbind list_bind]. by rewrite app_nil_r.
    + intros [[= -> ->] [Hb Hs Hh Hf]]. do 2 f_equal. destruct h' as [b' hist' t' s']. unfold h1.
      cbn [hk_breakpoints hk_history hk_ftrace hk_symtab] in *. subst. cbn [mbind list_bind] in Hf.
      rewrite app_nil_r, Hr in Hf. by injection Hf as ->.
  - split; [done|]. intros [_ [_ _ _ Hf]]. cbn [mbind list_bind] in Hf. rewrite app_nil_r, Hr in Hf. done.
Qed.
Lemma before_step_run h c x h1 c1 : hook_before (H2 := hook) (h, c) = (Ok x, (h1, c1)) <->
  h1 = h /\ exists raw d, peek (E := Empty_set) decoder c = (Ok (raw, d), c1) /\ x = {| dc_pc := pc c; raw_instr := raw; dc_decoded := d |}.
Proof.
  unfold hook_before, map_err. cbn [before_step debugger_hook]. unfold hook_before_step, peek, bind, gets, on_hart, zoom, ret. cbn [fst snd].
  destruct (ok (E' := Empty_set) (read_instr (pc c)) c) as [[raw|[]|] c0].
  2: { split; [done|]. by intros (_ & raw & d & ? & _). }
  destruct raw as [raw|].
  2: { split; [intros [= <- <- <-]; eauto|]. by intros (-> & raw & d & [= <- <- <-] & ->). }
  cbn [fst snd]. destruct (decoded_instr (E := Empty_set) decoder raw c0) as [[d|[]|] c2].
  2: { split; [done|]. by intros (_ & r & d & ? & _). }
  split; [intros [= <- <- <-]; eauto|]. by intros (-> & r & d' & [= <- <- <-] & ->).
Qed.

Lemma logs_nil h : (length (hk_history h) <= MAX_HISTORY)%nat -> hook_after_logs h h [].
Proof. intros Hl. split; try done. cbn. by rewrite app_nil_r, last_n_short. Qed.

Lemma logs_nil_inv h h' : (length (hk_history h) <= MAX_HISTORY)%nat -> hook_after_logs h h' [] -> h' = h.
Proof.
  intros Hl [Hb Hs Hh Hf]. cbn in Hh, Hf. rewrite app_nil_r, last_n_short in Hh by done.
  injection Hf as Hf. destruct h, h'. cbn in *. congruence.
Qed.

Lemma record_all_split l1 l2 (s s' : FtraceState) : record_all (E := Empty_set) (l1 ++ l2) s = (Ok tt, s') <->
  exists s1, record_all (E := Empty_set) l1 s = (Ok tt, s1) /\ record_all (E := Empty_set) l2 s1 = (Ok tt, s').
Proof.
  rewrite record_all_app. unfold bind. destruct (record_all l1 s) as [[[]|[]|] s1].
  - split; [eauto|]. by intros (s2 & [= <-] & Hr).
  - split; [done|]. by intros (s2 & ? & _).
Qed.

Lemma logs_app h h' l ls : hook_after_logs h h' (l :: ls) <-> exists h1, hook_after_logs h h1 [l] /\ hook_after_logs h1 h' ls.
Proof.
  split.
  - intros [Hb Hs Hh Hf]. cbn [mbind list_bind] in Hf. apply record_all_split in Hf as (t & Hf1 & Hf2).
    exists (Build_DebuggerExecutionHook (hk_breakpoints h) (last_n MAX_HISTORY (hk_history h ++ [log_entry l])) t (hk_symtab h)).
    split; split; try done; cbn [mbind list_bind]; [by rewrite app_nil_r|]. cbn [hk_history]. rewrite last_n_app, <- app_assoc. exact Hh.
  - intros (h1 & [Hb Hs Hh Hf] & [Hb2 Hs2 Hh2 Hf2]). cbn [mbind list_bind] in Hf. rewrite app_nil_r in Hf. split; [congruence..| |].
    + rewrite Hh2, Hh, last_n_app, <- app_assoc. done.
    + cbn [mbind list_bind]. apply record_all_split. eauto.
Qed.

Lemma logs_bound h h' ls : hook_after_logs h h' ls -> (length (hk_history h') <= MAX_HISTORY)%nat.
Proof. intros [_ _ -> _]. rewrite last_n_length. lia. Qed.

(** The loop of a batch. *)
Lemma hook_loop_iff n : forall e h c r h' c', (length (hk_history h) <= MAX_HISTORY)%nat ->
  hook_loop decoder (H2 := hook) n e (h, c) = (Ok r, (h', c')) <->
  exists ls, debug_run decoder (hk_breakpoints h) (hk_symtab h) ls (hook_stopped r) c c' /\ hook_after_logs h h' ls /\
    Executor.cycles r = e + Z.of_nat (length ls) /\ (length ls <= n)%nat /\ (hook_stopped r = false -> length ls = n).
Proof.
  induction n as [|n IH]; intros e h c r h' c' Hl.
  - cbn [hook_loop]. unfold ret. split.
    + intros [= <- <- <-]. exists []. cbn. split_and!; [constructor|by apply logs_nil|lia|lia|done].
    + intros (ls & Hr & Hh & Hc & Hn & _). destruct ls; [|cbn in Hn; lia]. inversion Hr. subst. apply logs_nil_inv in Hh; [|done]. subst.
      cbn in Hc. destruct r as [cyc st]. cbn in *. subst. by rewrite Z.add_0_r.
  - cbn [hook_loop]. split.
    + intros (x & [h1 c1] & Hx & Hk)%bind_Ok_inv. apply before_step_run in Hx as (-> & raw & d & Hp & ->).
      apply bind_Ok_inv in Hk as ([] & s2 & Hc & Hk). unfold on_cpu, zoom in Hc. cbn [fst snd] in Hc.
      destruct (cycle decoder c1) as [[[]|e0|] c2] eqn:Ec; [|done..]. injection Hc as <-.
      apply bind_Ok_inv in Hk as (stop & [h3 c3] & Ha & Hk). apply after_step_run in Ha as [Hb Hg]; [|done]. cbn [dc_pc raw_instr dc_decoded] in Hg.
      destruct stop.
      * injection Hk as <- <- <-. eexists [_]. cbn. split_and!; [constructor; by exists raw, d, c1, c2|exact Hg|lia|lia|done].
      * apply IH in Hk as (ls & Hr & Hls & Hcy & Hn & Hst); [|by eapply logs_bound].
        rewrite (ha_bps _ _ _ Hg), (ha_symtab _ _ _ Hg) in Hr. eexists (_ :: ls). cbn [length].
        split_and!; [eapply run_on; [by exists raw, d, c1, c2|exact Hr]|apply logs_app; eauto|lia|lia|intros Hf; by rewrite Hst].
    + intros (ls & Hr & Hh & Hc & Hn & Hst). inversion Hr as [c0 E1 E2|c0 l c0' Hcyc E1 E2|c0 l c1 ls' b c0' Hcyc Hrest E1 E2]; subst.
      * by specialize (Hst (eq_sym E2)).
      * destruct Hcyc as (raw & d & c1 & c2 & Hp & Ec & -> & Hb).
        erewrite bind_Ok by (apply before_step_run; split; [reflexivity|]; exists raw, d; split; [exact Hp|reflexivity]).
        erewrite bind_Ok by (unfold on_cpu, zoom; cbn [fst snd]; rewrite Ec; reflexivity).
        erewrite bind_Ok by (apply after_step_run; [done|]; split; [exact Hb|exact Hh]).
        cbn in Hc. destruct r as [cyc sp]. cbn in *. by subst.
      * destruct Hcyc as (raw & d & c2 & c3 & Hp & Ec & -> & Hb). apply logs_app in Hh as (h1 & Hg & Hls).
        erewrite bind_Ok by (apply before_step_run; split; [reflexivity|]; exists raw, d; split; [exact Hp|reflexivity]).
        erewrite bind_Ok by (unfold on_cpu, zoom; cbn [fst snd]; rewrite Ec; reflexivity).
        erewrite bind_Ok by (apply after_step_run; [done|]; split; [exact Hb|exact Hg]).
        apply IH; [by eapply logs_bound|]. exists ls'. cbn [length] in *. rewrite (ha_bps _ _ _ Hg), (ha_symtab _ _ _ Hg).
        split_and!; [done|done|lia|lia|intros Hf; specialize (Hst Hf); lia].
Qed.
(** A batch, with the interrupt it may start with. *)
Lemma debugged_batch_iff (n : Z) h c r h' c' : 0 < n -> (length (hk_history h) <= MAX_HISTORY)%nat ->
  step_batch_with_hook decoder (H2 := hook) n (h, c) = (Ok r, (h', c')) <->
  exists ls, batch_run decoder (hk_breakpoints h) (hk_symtab h) ls (hook_stopped r) c c' /\ hook_after_logs h h' ls /\
    Executor.cycles r = Z.of_nat (length ls) /\ Z.of_nat (length ls) <= n /\ (hook_stopped r = false -> Z.of_nat (length ls) = n).
Proof.
  intros Hn Hl. unfold step_batch_with_hook. rewrite (proj2 (Z.eqb_neq _ _)) by lia. unfold bind at 1, gets. cbn [snd].
  unfold bind at 1, on_cpu at 1, zoom. cbn [fst snd]. destruct (try_take_interrupt c) as [[[i|]|e|] c0] eqn:Ei.
  - unfold bind at 1, hook_interrupt, zoom, map_err. cbn [fst snd on_interrupt_taken debugger_hook]. unfold hook_on_interrupt_taken, ret at 1.
    unfold bind at 1, on_cpu at 1, zoom. cbn [fst snd]. destruct (increment_mcycle c0) as [[[]|e|] c1] eqn:Em.
    + split.
      * intros (stop & [h1 c2] & Ha & Hk)%bind_Ok_inv. apply after_step_run in Ha as [Hb Hg]; [|done]. destruct stop.
        -- injection Hk as <- <- <-. eexists [_]. cbn. split_and!; [by eapply batch_irq_hit|exact Hg|lia|lia|done].
        -- apply hook_loop_iff in Hk as (ls & Hr & Hls & Hcy & Hb1 & Hst); [|by eapply logs_bound].
           rewrite (ha_bps _ _ _ Hg), (ha_symtab _ _ _ Hg) in Hr. eexists (_ :: ls). cbn [length].
           split_and!; [by eapply batch_irq_on|apply logs_app; exists h1; split; [exact Hg|done]|lia|lia|intros Hf; specialize (Hst Hf); lia].
      * intros (ls & Hr & Hh & Hc & Hb1 & Hst). inversion Hr as [x0 x1 ls0 b x2 E1 R|x0 i0 x1 x2 x3 E1 E2 Ht|x0 i0 x1 x2 x3 ls0 b x4 E1 E2 Ht R]; subst.
        -- congruence.
        -- assert (c1 = x2) as <- by congruence. erewrite bind_Ok by (apply after_step_run; [done|]; split; [exact Ht|exact Hh]).
           cbn in Hc. destruct r as [cyc sp]. cbn in *. by subst.
        -- assert (c1 = x2) as <- by congruence. apply logs_app in Hh as (h1 & Hg & Hls).
           erewrite bind_Ok by (apply after_step_run; [done|]; split; [exact Ht|exact Hg]). cbn [length] in *.
           apply hook_loop_iff; [by eapply logs_bound|]. exists ls0. rewrite (ha_bps _ _ _ Hg), (ha_symtab _ _ _ Hg).
           split_and!; [done|done|lia|lia|intros Hf; specialize (Hst Hf); lia].
    + split; [done|]. intros (ls & Hr & _). inversion Hr; congruence.
    + split; [done|]. intros (ls & Hr & _). inversion Hr; congruence.
  - rewrite hook_loop_iff by done. split.
    + intros (ls & Hr & Hls & Hcy & Hb1 & Hst). exists ls. split_and!; [by eapply batch_plain|done|lia|lia|intros Hf; specialize (Hst Hf); lia].
    + intros (ls & Hr & Hls & Hcy & Hb1 & Hst). exists ls. split_and!; [|done|lia|lia|intros Hf; specialize (Hst Hf); lia].
      inversion Hr; congruence.
  - split; [done|]. intros (ls & Hr & _). inversion Hr; congruence.
  - split; [done|]. intros (ls & Hr & _). inversion Hr; congruence.
Qed.

(** C33: A batch under the debugger's hook is the run of the hart up to the
    first breakpoint.  [step_batch_with_hook] returns exactly when that run
    exists, at most [n] cycles long and all [n] of them when no breakpoint was
    met: the test at the end of every cycle but the last was negative, and that
    of the last one decides [hook_stopped].  The cycles are counted, the last
    1024 of them are in the history with their program counters and
    instructions, and the calls and returns of all of them, in order, went to
    the function trace; breakpoints and symbols are unchanged. *)
Theorem debugged_batch_correct (n : Z) h c r h' c' : 0 < n -> (length (hk_history h) <= MAX_HISTORY)%nat ->
  step_batch_with_hook decoder (H2 := hook) n (h, c) = (Ok r, (h', c')) <->
  exists ls, batch_run decoder (hk_breakpoints h) (hk_symtab h) ls (hook_stopped r) c c' /\ hook_after_logs h h' ls /\
    Executor.cycles r = Z.of_nat (length ls) /\ Z.of_nat (length ls) <= n /\ (hook_stopped r = false -> Z.of_nat (length ls) = n).
Proof. apply debugged_batch_iff. Qed.
End Hook.

(** ** Inspection

    [inspected c c']: [c'] is [c] but for the TLB and, unless [quiet], the
    devices, which an instruction fetch from their windows reads. *)
Section Inspect.
Context {D X : Type} `{DeviceTrait D} `{Profile}.
Local Notation CPU := (RVCPU D X).
Implicit Types (c : CPU) (m : VirtAddrManager D).

Record same_memory (quiet : bool) m m' : Prop := {
  sm_ram : ram (mmio m') = ram (mmio m);
  sm_map : map (mmio m') = map (mmio m);
  sm_devices : quiet = true -> devices (mmio m') = devices (mmio m);
  sm_walker : page_table m' = set_tlb (tlb (page_table m')) (page_table m)
}.
Definition inspected (quiet : bool) c c' : Prop := c' = set_memory (memory c') c /\ same_memory quiet (memory c) (memory c').

Lemma inspected_refl q c : inspected q c c.
Proof. split; [by destruct c|]. split; try done. by destruct (page_table (memory c)). Qed.

Lemma inspected_weaken c c' : inspected true c c' -> inspected false c c'.
Proof. intros [He []]. by split. Qed.

(** The walk only reads; the TLB may change. *)
Lemma read_ram_reads t i : reads (Ram.read t i).
Proof. intros r. unfold Ram.read. by repeat case_match. Qed.

Lemma sub_chk_reads {S E} w a b : reads (S := S) (E := E) (sub_chk w a b).
Proof. unfold sub_chk. solve_reads. Qed.

Lemma map_err_reads {S E E' A} (f : E -> E') (m : M S E A) : reads m -> reads (map_err f m).
Proof. intros Hm s. specialize (Hm s). unfold map_err. by destruct (m s) as [[a|e|] s']. Qed.

Lemma walk_levels_reads sv n : forall e v, reads (walk_levels sv n e v).
Proof.
  induction n as [|n IH]; intros e v; cbn [walk_levels]; [apply reads_panic|].
  apply reads_bind; [apply sub_chk_reads|]. intros o. apply reads_bind; [apply map_err_reads, read_ram_reads|]. intros pte.
  repeat case_match; first [apply reads_err|apply reads_ret|apply IH].
Qed.

Lemma walk_pte_reads w v : reads (walk_pte w v).
Proof. unfold walk_pte, walk_pte_with_mode. destruct (mode w); first [apply reads_panic|apply walk_levels_reads]. Qed.

Lemma translate_inspects v check w0 r0 :
  triple (fun p => snd p = r0 /\ fst p = set_tlb (tlb (fst p)) w0) (translate_vaddr v check EffectNone) (fun _ => True).
Proof.
  unfold translate_vaddr. eapply triple_bind; [by apply (triple_gets _ _ (fun _ => True))|]. intros w _.
  case_match; [by apply triple_ret|]. case_match; [apply triple_err|].
  assert (forall A (f : PageTableWalker -> M Ram PageTableError A), (forall w, reads (f w)) ->
    triple (fun p => snd p = r0 /\ fst p = set_tlb (tlb (fst p)) w0) (on_ram f) (fun _ => True)) as Hram.
  { intros A f Hf [w1 r1] [E1 E2]. cbn in E1, E2. subst r1. unfold on_ram. specialize (Hf w1 r0). by destruct (f w1 r0) as [[a|e|] r']; cbn in Hf; subst. }
  eapply triple_bind with (Q := fun _ => True).
  { intros [w1 r1] [E1 E2]. unfold tlb_get. destruct (Cache_get (tlb w1) _). cbn in *. by rewrite E2. }
  intros hit _. eapply triple_bind with (Q := fun _ => True).
  { destruct hit; [by apply triple_ret|]. eapply triple_bind; [apply Hram; intros; apply walk_pte_reads|]. intros i _.
    eapply triple_bind with (Q := fun _ => True); [|intros; by apply triple_ret].
    intros [w1 r1] [E1 E2]. unfold tlb_put. cbn in *. by rewrite E2. }
  intros i _. case_match; [apply triple_err|]. eapply triple_bind; [|intros; by apply triple_ret].
  apply Hram. intros w1. apply reads_ret.
Qed.

Lemma vm_translate_inspects q m0 v check : triple (same_memory q m0) (vm_translate v check EffectNone) (fun _ => True).
Proof.
  unfold vm_translate. eapply triple_zoom; [apply (translate_inspects v check (page_table m0) (ram (mmio m0)))| |].
  - by intros m [].
  - intros m [w r] [] [E1 E2]. cbn in E1, E2. by split; cbn; try congruence.
Qed.

Lemma mmio_read_inspects m0 t a : triple (same_memory false m0) (on_mmio (read_by_type t a)) (fun _ => True).
Proof.
  unfold on_mmio. eapply triple_zoom with (J := fun s => ram s = ram (mmio m0) /\ map s = map (mmio m0)).
  2: by intros m [].
  2: { intros m s [] [E1 E2]. by split. }
  set (J := fun s => _). assert (forall i, triple J (read_from_device t i a) (fun _ => True)) as Hdev.
  { intros i. unfold read_from_device. case_match; [apply triple_err|].
    eapply triple_bind with (Q := fun _ => True).
    { unfold item_at. eapply triple_bind; [by apply (triple_gets _ _ (fun _ => True))|]. intros l _. by apply triple_unwrap. }
    intros it _. case_match; [apply triple_err|]. eapply triple_bind with (Q := fun _ => True); [|intros; by apply triple_ret].
    intros s [E1 E2]. unfold with_device. destruct (devices s !! device it); [|done]. by destruct (dev_read _ _ _) as [[x|e|] d']. }
  unfold read_by_type. case_match.
  - eapply triple_zoom with (J := fun r => r = ram (mmio m0)); [apply reads_triple, read_ram_reads|by intros s []|by intros s r [] ->].
  - eapply triple_bind; [by apply (triple_gets _ _ (fun _ => True))|]. intros l _. repeat case_match; first [apply Hdev|apply triple_err].
Qed.

Lemma on_memory_inspects {E A} q c0 (m : M (VirtAddrManager D) E A) :
  triple (same_memory q (memory c0)) m (fun _ => True) -> triple (inspected q c0) (on_memory m) (fun _ => True).
Proof.
  intros Hm. eapply triple_zoom; [exact Hm|by intros c []|]. intros c s [Ec _] Hs. split; [|done]. cbn. by rewrite Ec.
Qed.

Lemma ok_triple {S E E' A} (I : S -> Prop) (m : M S E A) : triple I m (fun _ => True) -> triple I (ok (E' := E') m) (fun _ => True).
Proof. intros Hm s Hs. specialize (Hm s Hs). unfold ok. by destruct (m s) as [[a|e|] s']. Qed.

Lemma debug_fetch_inspects c0 t a : triple (inspected false c0) (read_for_debug_ifetch t a) (fun _ => True).
Proof.
  unfold read_for_debug_ifetch. eapply triple_bind with (Q := fun p => forall check effect fault, p = Translated check effect fault -> effect = EffectNone).
  - intros c Hc. unfold zoom, resolve_ifetch_policy, bind, privelege_level, gets. assert (set_csr (csr c) c = c) as Hs by by destruct c.
    destruct (cpl (csr c)); cbn; rewrite ?Hs; first [done | split; [done|]; intros ? ? ? [=]; congruence].
  - intros p Hp. apply on_memory_inspects. unfold read_with_policy. eapply triple_bind with (Q := fun _ => True); [|intros; apply mmio_read_inspects].
    destruct p as [|check effect fault]; [by apply triple_ret|]. rewrite (Hp _ _ _ eq_refl). apply triple_map_err, vm_translate_inspects.
Qed.

Lemma peek_inspects {E} decoder c0 : triple (inspected false c0) (peek (E := E) decoder) (fun _ => True).
Proof.
  unfold peek. eapply triple_bind; [by apply (triple_gets _ _ (fun _ => True))|]. intros p _.
  eapply triple_bind.
  { apply ok_triple. unfold read_instr. eapply triple_bind; [apply debug_fetch_inspects|]. intros lo _. case_match; [by apply triple_ret|].
    eapply triple_bind; [apply debug_fetch_inspects|]. intros hi _. by apply triple_ret. }
  intros raw _. eapply triple_bind with (Q := fun _ => True); [|intros; by apply triple_ret].
  destruct raw; [|by apply triple_ret]. by apply triple_unwrap.
Qed.

Lemma on_breakpoint_inspects {E} bps c b c' : cpu_on_breakpoint (E := E) bps c = (Ok b, c') -> inspected true c c'.
Proof.
  intros Hb%cpu_on_breakpoint_iff.
  assert (triple (inspected true c) (debug_vaddr_to_paddr (pc c)) (fun _ => True)) as Ht by apply on_memory_inspects, vm_translate_inspects.
  destruct Hb as [|pa c' _ Hd|e c' _ Hd]; [apply inspected_refl|..].
  all: by eapply triple_run; [exact Ht|apply inspected_refl|exact Hd|].
Qed.

(** Inspection is harmless.  Looking at the instruction at the program
    counter leaves the registers, the CSRs, the instruction cache, the RAM with
    its reservation and the page-table configuration as they are: only the TLB
    and a device an instruction would be fetched from may change.  Testing the
    breakpoints changes the TLB only. *)
Theorem inspection_is_harmless (decoder : Decoder) (bps : list Breakpoint) c :
  (forall r c', peek (E := Empty_set) decoder c = (r, c') -> r <> Panic -> inspected false c c') /\
  (forall b c', cpu_on_breakpoint (E := Empty_set) bps c = (Ok b, c') -> inspected true c c').
Proof.
  split.
  - intros r c' Hp Hr. eapply triple_run; [apply peek_inspects|apply inspected_refl|exact Hp|exact Hr].
  - intros b c'. apply on_breakpoint_inspects.
Qed.
End Inspect.

(** ** The debugger on a board *)
(** The hart stands where a breakpoint was found. *)
Definition stopped_at {D X} `{DeviceTrait D} `{Profile} (bps : list Breakpoint) (c : RVCPU D X) : Prop :=
  exists c0 c1, breakpoint_test bps c0 true c1 /\ same_arch c0 c.

(** A board's interrupt controllers reach the hart through the pending bits
    only: [c'] is [c] but for [mip]. *)
Record irq_fed {D X} `{DeviceTrait D} `{Profile} (c c' : RVCPU D X) : Prop := {
  fed_hart : c' = set_csr (csr c') c;
  fed_csrs : forall a, a <> Mip -> table (csr c') !! a = table (csr c) !! a;
  fed_cpl : cpl (csr c') = cpl (csr c);
  fed_ctx : ctx (csr c') = ctx (csr c)
}.

Lemma irq_fed_refl {D X} `{DeviceTrait D} `{Profile} (c : RVCPU D X) : irq_fed c c.
Proof. split; [by destruct c|done..]. Qed.

(** What a board promises its debugger: a batch is [prepared], which feeds the
    hart its interrupts, then the hart runs to the end of the batch or to a
    breakpoint while the hook logs exactly the cycles of that run, and then the
    batch is [finished], which leaves the registers and CSRs alone. *)
Class LawfulBoard (B D X : Type) `{DeviceTrait D} `{Profile} `{ExtUnit D X} `{BoardTrait B D X} : Type := {
  board_decoder : Decoder;
  prepared : B -> B -> Prop;
  finished : Z -> B -> B -> Prop;
  prepared_law b b0 : prepared b b0 -> irq_fed (board_cpu b) (board_cpu b0);
  finished_law n b b' : finished n b b' -> same_arch (board_cpu b) (board_cpu b');
  board_put_law c b : board_cpu (board_put_cpu c b) = c;
  board_batch_law n h b r h' b' : 0 < n -> board_status b = Running -> (length (hk_history h) <= MAX_HISTORY)%nat ->
    board_step_hooked n (h, b) = (Ok r, (h', b')) ->
    exists ls b0 c1, prepared b b0 /\
      batch_run board_decoder (hk_breakpoints h) (hk_symtab h) ls (hook_stopped r) (board_cpu b0) c1 /\
      finished (Z.of_nat (length ls)) (board_put_cpu c1 b0) b' /\ hook_after_logs h h' ls /\
      Executor.cycles r = Z.of_nat (length ls) /\ Executor.cycles r <= n /\ (hook_stopped r = false -> Executor.cycles r = n)
}.

(** The run of a board: batches of a running board, each prepared, run by the
    hart and finished, up to the first breakpoint.  The list holds what every
    cycle of every batch leaves in the logs. *)
Inductive board_run {B D X : Type} `{LawfulBoard B D X} (bps : list Breakpoint) (st : option SymTab) : list CycleLog -> bool -> B -> B -> Prop :=
| board_run_end b : board_run bps st [] false b b
| board_run_stop b b0 c1 b' ls : board_status b = Running -> prepared b b0 ->
    batch_run board_decoder bps st ls true (board_cpu b0) c1 -> finished (Z.of_nat (length ls)) (board_put_cpu c1 b0) b' ->
    board_run bps st ls true b b'
| board_run_on b b0 c1 b1 ls stop ls' b' : board_status b = Running -> prepared b b0 ->
    batch_run board_decoder bps st ls false (board_cpu b0) c1 -> finished (Z.of_nat (length ls)) (board_put_cpu c1 b0) b1 ->
    board_run bps st ls' stop b1 b' -> board_run bps st (ls ++ ls') stop b b'.

Section Continue.
Context {B D X : Type} `{LawfulBoard B D X}.
Implicit Types (b : B) (h : DebuggerExecutionHook).

Lemma logs_concat (ls1 : list CycleLog) : forall h h1 h' ls2, hook_after_logs h h1 ls1 -> hook_after_logs h1 h' ls2 ->
  (length (hk_history h) <= MAX_HISTORY)%nat -> hook_after_logs h h' (ls1 ++ ls2).
Proof.
  induction ls1 as [|l ls1 IH]; intros h h1 h' ls2 H1' H2' Hl.
  - apply logs_nil_inv in H1'; [|done]. by subst.
  - apply logs_app in H1' as (h2 & Ha & Hb). cbn [app]. apply logs_app. exists h2. split; [done|].
    eapply IH; [exact Hb|exact H2'|by eapply logs_bound].
Qed.

Lemma count_add {S E} a n (s : S) : 0 <= a + n < 2 ^ 64 -> add_chk (E := E) 64 a n s = (Ok (a + n), s).
Proof. intros Hn. unfold add_chk. rewrite (proj2 (Z.leb_gt _ _)), andb_false_r by lia. by rewrite wrap_small by (unfold uint; lia). Qed.

Lemma debug_run_stop decoder bps st ls stop c c' : debug_run (D := D) (X := X) decoder bps st ls stop c c' -> stop = true ->
  exists c0, breakpoint_test bps c0 true c'.
Proof. induction 1 as [|c l c' (raw & d & c1 & c2 & _ & _ & _ & Hb)|]; [done| |auto]. by exists c2. Qed.

Lemma batch_run_stop decoder bps st ls stop c c' : batch_run (D := D) (X := X) decoder bps st ls stop c c' -> stop = true -> stopped_at bps c'.
Proof.
  intros Hr Hs. assert (exists c0, breakpoint_test bps c0 true c') as (c0 & Ht).
  { destruct Hr; try (by eapply debug_run_stop); eauto. }
  exists c0, c'. split; [done|]. apply (cpu_on_breakpoint_iff _ (E := Exception)) in Ht. by apply on_breakpoint_inspects in Ht as [-> _].
Qed.

Lemma stopped_same_arch bps (c c' : RVCPU D X) : stopped_at bps c -> same_arch c c' -> stopped_at bps c'.
Proof. intros (c0 & c1 & Ht & Ha) Hs. exists c0, c1. split; [done|]. by eapply same_arch_trans. Qed.

Lemma board_run_stops bps st ls stop b b' : board_run bps st ls stop b b' -> stop = true -> stopped_at bps (board_cpu b').
Proof.
  induction 1 as [|b b0 c1 b' ls _ _ Hr Hf|]; [done| |auto]. intros _. apply finished_law in Hf. rewrite board_put_law in Hf.
  eapply stopped_same_arch; [|exact Hf]. by eapply batch_run_stop.
Qed.

Lemma board_run_app bps st ls1 stop b b1 : board_run bps st ls1 stop b b1 -> stop = false ->
  forall ls2 stop' b', board_run bps st ls2 stop' b1 b' -> board_run bps st (ls1 ++ ls2) stop' b b'.
Proof.
  induction 1 as [| |b b0 c1 b1 ls stop ls' b2 Hs Hp Hr Hf _ IH]; [done|done|]. intros Hst ls2 stop' b' H'. rewrite <- app_assoc.
  eapply board_run_on; [done..|]. by apply IH.
Qed.

(** What a loop that has executed [executed] of [total] steps, from the hook [h]
    and the board [b], says with [res]. *)
Definition loop_result (total executed : Z) h b (res : BatchResult) h' b' : Prop :=
  executed <= Executor.cycles res <= total /\
  (exists ls, board_run (hk_breakpoints h) (hk_symtab h) ls (hook_stopped res) b b' /\ hook_after_logs h h' ls /\
     Z.of_nat (length ls) = Executor.cycles res - executed) /\
  (hook_stopped res = false -> board_status b' = Running -> Executor.cycles res = total).

Lemma loop_result_end total executed h b : 0 <= executed <= total -> (length (hk_history h) <= MAX_HISTORY)%nat ->
  (board_status b = Running -> executed = total) -> loop_result total executed h b {| Executor.cycles := executed; hook_stopped := false |} h b.
Proof.
  intros He Hl Hs. split_and!; cbn; [lia|lia| |auto]. exists []. split_and!; [constructor|by apply logs_nil|cbn; lia].
Qed.

(** The loop over the batches. *)
Lemma debug_loop_run fuel : forall total executed h b, 0 <= executed <= total -> total < 2 ^ 64 ->
  total - executed <= STEP_BATCH_CYCLES * Z.of_nat fuel -> (length (hk_history h) <= MAX_HISTORY)%nat ->
  exists r h' b', run_loop (fun s => board_status (snd s)) board_step_hooked fuel total executed (h, b) = Some (r, (h', b')) /\
    forall res, r = Ok res -> loop_result total executed h b res h' b'.
Proof.
  induction fuel as [|fuel IH]; intros total executed h b He Ht Hf Hl.
  - assert (executed = total) as -> by lia. cbn [run_loop]. rewrite Z.ltb_irrefl. cbn [andb]. do 3 eexists. split; [done|].
    intros res [= <-]. by apply loop_result_end.
  - cbn [run_loop snd]. destruct (Z.ltb_spec executed total) as [Hlt|Hge]; cbn [andb].
    2: { do 3 eexists. split; [done|]. intros res [= <-]. apply loop_result_end; try done. lia. }
    case_bool_decide as Hr; [|do 3 eexists; split; [done|]; intros res [= <-]; by apply loop_result_end].
    set (n := Z.min (total - executed) STEP_BATCH_CYCLES).
    assert (0 < n <= total - executed /\ (n = total - executed \/ n = STEP_BATCH_CYCLES)) as [Hn Hn'] by (unfold n, STEP_BATCH_CYCLES; lia).
    destruct (board_step_hooked n (h, b)) as [[r1|e|] [h1 b1]] eqn:Es; [|do 3 eexists; split; [done|]; by intros..].
    apply board_batch_law in Es as (ls & b0 & c1 & Hp & Hrun1 & Hfin & Hls & Hc & Hle & Hall); [|lia|done|done].
    rewrite count_add by lia. destruct (hook_stopped r1) eqn:Eh.
    + do 3 eexists. split; [done|]. intros res [= <-]. split_and!; cbn; [lia|lia| |done].
      exists ls. split_and!; [by eapply board_run_stop|done|lia].
    + destruct (IH total (executed + Executor.cycles r1) h1 b1) as (r & h' & b' & Hrun & Hres); [lia|done| |by eapply logs_bound|].
      { rewrite Hall by done. unfold STEP_BATCH_CYCLES in *. lia. }
      exists r, h', b'. split; [done|]. intros res Hok. destruct (Hres res Hok) as (H1' & (ls2 & Hr2 & Hl2 & Hn2) & Hs2).
      rewrite (ha_bps _ _ _ Hls), (ha_symtab _ _ _ Hls) in Hr2. split_and!; [lia|lia| |done]. exists (ls ++ ls2).
      split_and!; [by eapply board_run_on|by eapply logs_concat|rewrite length_app; lia].
Qed.

(** What [continue_until_step] reports of a debugger [d] that is then [d']. *)
Definition continued (max_steps : Z) (d d' : Debugger B) (event : DebugEvent) (steps : Z) : Prop :=
  0 <= steps <= max_steps /\ breakpoints d' = breakpoints d /\ symtab d' = symtab d /\
  (exists ls, board_run (breakpoints d) (symtab d) ls (bool_decide (event = BreakpointHit)) (board d) (board d') /\
     Z.of_nat (length ls) = steps /\ history d' = last_n MAX_HISTORY (history d ++ (log_entry <$> ls)) /\
     record_all (E := Empty_set) (ls ≫= log_events) (ftrace d) = (Ok tt, ftrace d')) /\
  match event with
  | StepCompleted => steps = max_steps
  | BreakpointHit => stopped_at (breakpoints d) (board_cpu (board d'))
  | BoardHalted => board_status (board d') = Halt
  end.

Lemma continued_idle max_steps d event : 0 <= max_steps -> (length (history d) <= MAX_HISTORY)%nat ->
  match event with StepCompleted => max_steps = 0 | BreakpointHit => False | BoardHalted => board_status (board d) = Halt end ->
  continued max_steps d d event 0.
Proof.
  intros Hm Hl He. split_and!; [lia|lia|done|done| |by destruct event]. exists []. cbn. rewrite app_nil_r, last_n_short by done.
  split_and!; [|done..]. destruct event; try done; constructor.
Qed.

(** The contract of [continue_until_step]. *)
Lemma continue_contract (max_steps : Z) (fuel : nat) (d : Debugger B) :
  0 <= max_steps < 2 ^ 64 -> max_steps <= STEP_BATCH_CYCLES * Z.of_nat fuel -> (length (history d) <= MAX_HISTORY)%nat ->
  exists r d', continue_until_step fuel max_steps d = Some (r, d') /\
    forall event steps, r = Ok (event, steps) -> continued max_steps d d' event steps.
Proof.
  intros Hm Hf Hl. unfold continue_until_step. destruct (Z.eqb_spec max_steps 0) as [->|Hne].
  { do 2 eexists. split; [done|]. intros ev st [= <- <-]. by apply continued_idle. }
  case_bool_decide as Hh; [do 2 eexists; split; [done|]; intros ev st [= <- <-]; by apply continued_idle; [lia|..]|].
  destruct (debug_loop_run fuel max_steps 0 (hook_of d) (board d)) as (r & h' & b' & -> & Hres); [lia..|done|].
  do 2 eexists. split; [done|]. intros ev st Hok. destruct r as [res|e|]; [|done..].
  destruct (Hres res eq_refl) as (Hb & (ls & Hrun & [_ _ Hhis Hft] & Hn) & Hs2). injection Hok as <- <-. cbn in *.
  assert (hook_stopped res = true -> stopped_at (breakpoints d) (board_cpu b')) as Hs1 by (by eapply board_run_stops).
  split_and!; cbn; [lia|lia|done|done| |].
  - exists ls. split_and!; [|lia|done|done]. destruct (hook_stopped res); [exact Hrun|]. by destruct (bool_decide (board_status b' = Halt)); rewrite bool_decide_false by done.
  - destruct (hook_stopped res); [by apply Hs1|]. case_bool_decide as Hb'; [done|]. apply Hs2; [done|]. by destruct (board_status b').
Qed.

(** C34: [continue_until_step] keeps its contract on every lawful board.  With one
    batch of fuel per 1024 steps it returns, and when nothing panics or fails it
    has run the board ([board_run]) up to a breakpoint or for the steps it
    reports, between 0 and [max_steps]: all of them when it reports a completed
    step, a halted board when it reports that, and a hart at one of the
    breakpoints when it reports a hit.  The history has gained exactly the
    program counters and instructions of the cycles of that run, bounded to the
    last 1024, the function trace their calls and returns, and breakpoints and
    symbols are untouched. *)
Theorem continue_until_step_correct (max_steps : Z) (fuel : nat) (d : Debugger B) :
  0 <= max_steps < 2 ^ 64 -> max_steps <= STEP_BATCH_CYCLES * Z.of_nat fuel -> (length (history d) <= MAX_HISTORY)%nat ->
  exists r d', continue_until_step fuel max_steps d = Some (r, d') /\
    forall event steps, r = Ok (event, steps) ->
      0 <= steps <= max_steps /\ breakpoints d' = breakpoints d /\ symtab d' = symtab d /\
      (exists ls, board_run (breakpoints d) (symtab d) ls (bool_decide (event = BreakpointHit)) (board d) (board d') /\
         Z.of_nat (length ls) = steps /\ history d' = last_n MAX_HISTORY (history d ++ (log_entry <$> ls)) /\
         record_all (E := Empty_set) (ls ≫= log_events) (ftrace d) = (Ok tt, ftrace d')) /\
      match event with
      | StepCompleted => steps = max_steps
      | BreakpointHit => stopped_at (breakpoints d) (board_cpu (board d'))
      | BoardHalted => board_status (board d') = Halt
      end.
Proof. apply continue_contract. Qed.
End Continue.

(** ** The virt board *)
Section Virt.
Context {Dp D X : Type} `{PlicDevice Dp} `{DeviceTrait D} `{Profile} `{ExtUnit D X} `{SortUnstable Callback}.
Context (decoder : Decoder).
Local Notation VB := (VirtBoard Dp (RVCPU D X)).
#[local] Existing Instance debugger_hook.

(** [VirtBoard::step_batch_with_hook]: [execute_cpu_batch] with a closure that
    holds the hook. *)
Definition virt_step_hooked (n : Z) : M (DebuggerExecutionHook * VB) Exception BatchResult :=
  s <- gets (fun s => status (snd s)) ;;
  if decide (s = Running) then
    zoom snd (fun s b => (fst s, b)) prepare_cpu_batch ;;;
    result <- zoom (fun s => (fst s, cpu (snd s))) (fun s p => (fst p, upd_cpu (snd p) (snd s)))
                (step_batch_with_hook decoder (H2 := debugger_hook decoder) n) ;;
    zoom snd (fun s b => (fst s, b)) (finish_cpu_batch (Executor.cycles result)) ;;;
    ret result
  else ret {| Executor.cycles := 0; hook_stopped := false |}.

#[export] Instance virt_board : BoardTrait VB D X := {|
  board_status := status;
  board_cpu := cpu;
  board_put_cpu := upd_cpu;
  board_step_hooked := virt_step_hooked
|}.

(** The controllers only drive interrupt lines. *)
Lemma set_mip_field_feeds f x c0 : reg_index (fl_csr f) = Mip -> triple (irq_fed c0) (on_csr (D := D) (X := X) (set_field f x)) (fun _ => True).
Proof.
  intros Hf. set (J := fun s => (forall a, a <> Mip -> table s !! a = table (csr c0) !! a) /\ cpl s = cpl (csr c0) /\ ctx s = ctx (csr c0)).
  apply triple_zoom with (J := J); [|by intros c []|intros c s [Ec _ _ _] (H1' & H2' & H3'); split; [cbn; by rewrite Ec|done..]].
  unfold set_field. eapply triple_bind; [by apply triple_assert with (Q := fun _ => True)|]. intros _ _.
  eapply triple_bind with (Q := fun i => i = Mip).
  { unfold get_by_type_existing. eapply triple_bind; [apply reads_triple|]; [unfold slot; solve_reads|]. intros r _.
    eapply triple_bind; [by apply triple_unwrap with (Q := fun _ => True)|]. intros _ _. by apply triple_ret. }
  intros i ->. eapply triple_bind; [apply reads_triple; unfold existing_value, slot; solve_reads|]. intros old _.
  eapply triple_bind; [by apply (triple_gets _ _ (fun _ => True))|]. intros c _. unfold update_existing.
  eapply triple_bind; [apply reads_triple; unfold slot; solve_reads|]. intros r _.
  eapply triple_bind; [by apply triple_unwrap with (Q := fun _ => True)|]. intros _ _.
  apply triple_modify; [|done]. intros s (H1' & H2' & H3'). split_and!; [|done|done]. intros a Ha. cbn. by rewrite lookup_alter_ne, H1'.
Qed.

Lemma set_irq_feeds {E} l level (c0 : RVCPU D X) : triple (E := E) (Forall (irq_fed c0)) (set_irq l level) (fun _ => True).
Proof.
  intros ts Hts. unfold set_irq. destruct (ts !! line_target l) as [c|] eqn:Ec; [|done]. cbn [irq_handler hart_handler].
  destruct (handle_irq (interrupt_nr l) level c) as [[[]|e|] c'] eqn:Eh; [|done..]. split; [|done].
  apply list.Forall_insert; [done|]. eapply (triple_run _ _ _ c (Ok tt)); [|by eapply list.Forall_lookup_1|exact Eh|done].
  unfold handle_irq. destruct (interrupt_nr l); first [apply triple_panic | by apply set_mip_field_feeds].
Qed.

Lemma head_feeds (c0 c : RVCPU D X) ts : irq_fed c0 c -> Forall (irq_fed c0) ts -> irq_fed c0 (default c (head ts)).
Proof. intros Hc [|t ts' Ht _]; done. Qed.

Lemma tick_feeds (c0 : RVCPU D X) :
  triple (E := Exception) (fun s => Forall (irq_fed c0) (Clint.harts (snd s))) (tick (W := Clint.World (RVCPU D X))) (fun _ => True).
Proof.
  assert (forall time l, triple (E := Exception) (fun w : Clint.World (RVCPU D X) => Forall (irq_fed c0) (Clint.harts w)) (run_due time l) (fun _ => True)) as Hd.
  { intros time l. induction l as [|t l IH]; cbn [run_due]; [by apply triple_ret|]. apply triple_if; intros _; [|by apply triple_ret].
    intros w Hw. unfold bind, gets, unwrap, modify, ret. destruct (run_callback (callback t) w) as [w'|] eqn:Er; [|done].
    assert (Forall (irq_fed c0) (Clint.harts w')) as Hw'.
    { cbn in Er. destruct (timer_irq_line _) as [line|]; [|done]. pose proof (set_irq_feeds (E := unit) line true c0 _ Hw) as Hs.
      destruct (set_irq line true _) as [[[]|e|] hs]; try done. injection Er as <-. apply Hs. }
    specialize (IH w' Hw'). destruct (run_due time l w') as [[l'|e|] w2]; [split; [apply IH|done]|done..]. }
  intros [t w] Hw. unfold tick. specialize (Hd (now w) (tasks t) w Hw). destruct (run_due _ _ w) as [[l|e|] w']; [split; [apply Hd|done]|done..].
Qed.
Lemma finish_same_arch n (b : VB) r b' : finish_cpu_batch (E := Exception) n b = (Ok r, b') -> same_arch (cpu b) (cpu b').
Proof.
  rewrite finish_batch_run. cbn. case_match; [|intros [= <- <-]; apply same_arch_refl].
  destruct (hart_power_off (cpu b)) as [c|] eqn:Ep; [|done]. intros [= <- <-]. unfold hart_power_off in Ep.
  destruct (on_memory _ _) as [[a|e|] c1] eqn:Em; try done; injection Ep as <-; by apply on_memory_same in Em as [? _].
Qed.

Definition plic_fed (c0 : RVCPU D X) (b : Plic.Board Dp (RVCPU D X)) : Prop := Forall (irq_fed c0) (Plic.harts b).

Lemma on_layout_feeds {A} (c0 : RVCPU D X) m : triple (E := Exception) (plic_fed c0) (Plic.on_layout (A := A) m) (fun _ => True).
Proof.
  intros b Hb. unfold Plic.on_layout, Plic.on_plic, zoom. by destruct (m _) as [[a|e|] l].
Qed.

Lemma sync_feeds (c0 : RVCPU D X) : triple (E := Exception) (plic_fed c0) Plic.sync_peripheral_irq_levels (fun _ => True).
Proof.
  unfold Plic.sync_peripheral_irq_levels. eapply triple_bind; [by apply (triple_gets _ _ (fun _ => True))|]. intros ds _. generalize 0.
  induction ds as [|d ds IH]; intros i; cbn [Plic.sync_from]; [by apply triple_ret|]. eapply triple_bind with (Q := fun _ => True); [|intros; apply IH].
  destruct d as [d|]; [|by apply triple_ret]. eapply triple_bind with (Q := fun _ => True); [|intros; apply on_layout_feeds].
  intros b Hb. unfold Plic.sample_device. destruct (Plic.arena b !! d) as [x|]; [|done]. by destruct (irq_level x).
Qed.

Lemma refresh_feeds i (c0 : RVCPU D X) : triple (E := Exception) (plic_fed c0) (Plic.refresh_context_irq_line i) (fun _ => True).
Proof.
  assert (forall f, triple (E := Exception) (plic_fed c0) (Plic.on_plic (modify f)) (fun _ => True)) as Hp by (by intros f b Hb).
  unfold Plic.refresh_context_irq_line. eapply triple_bind; [apply on_layout_feeds|]. intros o _.
  eapply triple_bind with (Q := fun _ => True); [|intros; by apply triple_ret]. unfold Plic.set_context_irq_line.
  eapply triple_bind; [by apply (triple_gets _ _ (fun _ => True))|]. intros ls _.
  eapply triple_bind; [by apply triple_unwrap with (Q := fun _ => True)|]. intros old _. case_decide; [by apply triple_ret|].
  eapply triple_bind; [apply Hp|]. intros _ _. eapply triple_bind; [by apply (triple_gets _ _ (fun _ => True))|]. intros lines _.
  eapply triple_bind; [by apply triple_unwrap with (Q := fun _ => True)|]. intros [line|] _; [|by apply triple_ret].
  unfold Plic.on_harts. eapply triple_zoom; [apply set_irq_feeds|done|done].
Qed.

Lemma prepare_feeds (b b0 : VB) : prepare_cpu_batch (E := Exception) b = (Ok tt, b0) -> irq_fed (cpu b) (cpu b0).
Proof.
  intros Hp. eapply (triple_run (fun b0 => irq_fed (cpu b) (cpu b0)) _ (fun _ => True)); [|apply irq_fed_refl|exact Hp|done].
  unfold prepare_cpu_batch. eapply triple_bind.
  - unfold on_clint_view. eapply triple_zoom; [apply (tick_feeds (cpu b))| |].
    + intros b1 Hb. constructor; [exact Hb|constructor].
    + intros b1 s Hb Hs. by apply head_feeds.
  - intros _ _. unfold on_plic_view. apply triple_zoom with (J := plic_fed (cpu b)).
    + unfold Plic.update_context_irq_lines. eapply triple_bind; [apply sync_feeds|]. intros _ _. cbn [Plic.refresh_all].
      eapply triple_bind with (Q := fun _ => True); [|intros _ _; eapply triple_bind with (Q := fun _ => True); [|intros; by apply triple_ret]].
      all: case_match; [|by apply triple_ret]; eapply triple_bind; [apply refresh_feeds|intros; by apply triple_ret].
    + intros b1 Hb. constructor; [exact Hb|constructor].
    + intros b1 s Hb Hs. by apply head_feeds.
Qed.

Lemma virt_batch_run n h (b : VB) r h' b' : 0 < n -> status b = Running -> (length (hk_history h) <= MAX_HISTORY)%nat ->
  virt_step_hooked n (h, b) = (Ok r, (h', b')) ->
  exists ls b0 c1, prepare_cpu_batch (E := Exception) b = (Ok tt, b0) /\
    batch_run decoder (hk_breakpoints h) (hk_symtab h) ls (hook_stopped r) (cpu b0) c1 /\
    finish_cpu_batch (E := Exception) (Z.of_nat (length ls)) (upd_cpu c1 b0) = (Ok tt, b') /\ hook_after_logs h h' ls /\
    Executor.cycles r = Z.of_nat (length ls) /\ Executor.cycles r <= n /\ (hook_stopped r = false -> Executor.cycles r = n).
Proof.
  intros Hn Hs Hl. unfold virt_step_hooked.
  unfold bind at 1, gets. cbn [snd]. rewrite decide_True by done. unfold bind at 1, zoom at 1. cbn [fst snd].
  destruct (prepare_cpu_batch b) as [[[]|e|] b0]; [|done..]. intros (res & [h1 b1] & Hrun & Hk)%bind_Ok_inv.
  unfold zoom in Hrun. cbn [fst snd] in Hrun. destruct (step_batch_with_hook decoder n (h, cpu b0)) as [r0 [h2 c2]] eqn:Es. injection Hrun as -> <- <-.
  apply debugged_batch_iff in Es as (ls & Hr & Hls & Hc & Hle & Hall); [|done|done].
  apply bind_Ok_inv in Hk as ([] & s2 & Hf & [= <- ->]). unfold zoom in Hf. cbn [fst snd] in Hf.
  destruct (finish_cpu_batch _ (upd_cpu c2 b0)) as [r3 b3] eqn:Ef. injection Hf as -> -> ->. rewrite Hc in Ef.
  exists ls, b0, c2. split_and!; [done|done|done|done|done|lia|intros Hst; rewrite Hc; auto].
Qed.

#[export] Instance virt_board_lawful : LawfulBoard VB D X := {|
  board_decoder := decoder;
  prepared b b0 := prepare_cpu_batch (E := Exception) b = (Ok tt, b0);
  finished n b b' := finish_cpu_batch (E := Exception) n b = (Ok tt, b');
  prepared_law := prepare_feeds;
  finished_law n b b' := finish_same_arch n b tt b';
  board_put_law c b := eq_refl;
  board_batch_law := virt_batch_run
|}.
End Virt.

(** ** Witnesses: [addi] and then [ecall], with a breakpoint on the [ecall] *)
#[local] Instance debug_source : PlicDevice bool := {| irq_level := fun d => (d, d) |}.
#[local] Instance debug_bus : DeviceTrait Z := demo_device.
#[local] Instance debug_profile : Profile := Prelude.dev.
#[local] Existing Instance merge_sort_due.
#[local] Existing Instance debugger_hook.

Definition demo_hook : DebuggerExecutionHook :=
  {| hk_breakpoints := [{| bp_id := 0; bp_addr := Virt 0x80000004 |}]; hk_history := []; hk_ftrace := FtraceState_new; hk_symtab := None |}.
Definition demo_debugger : Debugger (VirtBoard bool (RVCPU Z unit)) :=
  snd (set_breakpoint (Virt 0x80000004) (Debugger_new demo_board None)).

Lemma debugged_batch_correct_witness : exists h' c' ls,
  batch_run demo_decoder (hk_breakpoints demo_hook) None ls true demo_syscall c' /\ hook_after_logs demo_hook h' ls /\
  length ls = 1%nat /\ hk_history h' = [(0x80000000, Some 0x00508193)].
Proof.
  set (T := step_batch_with_hook demo_decoder (H2 := debugger_hook demo_decoder) 2 (demo_hook, demo_syscall)).
  destruct T as [r [h' c']] eqn:E.
  assert (r = Ok {| Executor.cycles := 1; hook_stopped := true |} /\ hk_history h' = [(0x80000000, Some 0x00508193)]) as [-> Hh].
  { pose proof (f_equal fst E) as E1. pose proof (f_equal (fun p => hk_history (fst (snd p))) E) as E2.
    vm_compute in E1, E2. split; [symmetry; exact E1|symmetry; exact E2]. }
  destruct (proj1 (debugged_batch_correct demo_decoder 2 demo_hook demo_syscall _ h' c' ltac:(lia) ltac:(cbn; lia)) E) as (ls & Hr & Hl & Hc & _).
  exists h', c', ls. split; [exact Hr|]. split; [exact Hl|]. split; [cbn in Hc; lia|exact Hh].
Defined.

Lemma inspection_is_harmless_witness : exists c',
  cpu_on_breakpoint (E := Empty_set) (hk_breakpoints demo_hook) demo_syscall = (Ok false, c') /\
  ram (mmio (memory c')) = ram (mmio (memory demo_syscall)).
Proof.
  destruct (cpu_on_breakpoint (E := Empty_set) (hk_breakpoints demo_hook) demo_syscall) as [r c'] eqn:E.
  assert (r = Ok false) as -> by (pose proof (f_equal fst E) as E1; vm_compute in E1; symmetry; exact E1).
  exists c'. split; [reflexivity|].
  destruct (proj2 (inspection_is_harmless demo_decoder (hk_breakpoints demo_hook) demo_syscall) false c' E) as [_ Hm]. exact (sm_ram _ _ _ Hm).
Defined.

Lemma continue_until_step_correct_witness : exists d',
  continue_until_step (H1 := virt_board demo_decoder) 1 2 demo_debugger = Some (Ok (BreakpointHit, 1), d') /\
  stopped_at (breakpoints demo_debugger) (cpu (board d')) /\ history d' = [(0x80000000, Some 0x00508193)].
Proof.
  destruct (continue_until_step_correct (H3 := virt_board_lawful demo_decoder) 2 1 demo_debugger) as (r & d' & E & Hres).
  - lia.
  - unfold STEP_BATCH_CYCLES. lia.
  - cbn. lia.
  - assert (r = Ok (BreakpointHit, 1) /\ history d' = [(0x80000000, Some 0x00508193)]) as [-> Hh].
    { pose proof (f_equal (option_map fst) E) as E1. pose proof (f_equal (option_map (fun p => history (snd p))) E) as E2.
      vm_compute in E1, E2. injection E1 as <-. injection E2 as E2. split; [reflexivity|symmetry; exact E2]. }
    exists d'. split; [exact E|]. split; [|exact Hh]. destruct (Hres BreakpointHit 1 eq_refl) as (_ & _ & _ & _ & Hs). exact Hs.
Defined.
