(* ===== verification/Float.v ===== *)
(** * The floating-point unit (src/src/fpu/mod.rs, fpu/soft_float.rs)

    [f32] and [f64] as their bits, with the two operations the emulator uses of
    them, [sqrt] and [mul_add], rounded to nearest even (a NaN result is the
    canonical one).  The register file of NaN-boxed values and the operations on it.  The
    arithmetic of the numbers is the library [rustc_apfloat]: its formats are
    instances of the class [SoftFloat]. *)

From Stdlib Require Import SpecFloat.
From S2P Require Import Prelude Utils.

(** ** Native floating-point numbers (src/src/utils.rs) *)
(** The parameters of a format: bits of the stored mantissa and of the
    exponent. *)
Record NativeFmt : Type := { mant_bits : Z; exp_bits : Z }.
Definition native_fmt (t : UInt) : NativeFmt :=
  match t with U32 => {| mant_bits := 23; exp_bits := 8 |} | _ => {| mant_bits := 52; exp_bits := 11 |} end.

Section Native.
Context (f : NativeFmt).
Definition nf_prec : Z := mant_bits f + 1.
Definition nf_emax : Z := 2 ^ (exp_bits f - 1).
(** The exponent of the least significant bit of the subnormal numbers. *)
Definition nf_emin : Z := 3 - nf_emax - nf_prec.

Definition mant_field (b : Z) : Z := b mod 2 ^ mant_bits f.
Definition exp_field (b : Z) : Z := (b / 2 ^ mant_bits f) mod 2 ^ exp_bits f.
Definition sign_field (b : Z) : bool := Z.testbit b (mant_bits f + exp_bits f).

(** [f32::from_bits] and [f64::from_bits]: the number the bits denote. *)
Definition nf_of_bits (b : Z) : spec_float :=
  let m := mant_field b in
  let e := exp_field b in
  let s := sign_field b in
  if e =? 2 ^ exp_bits f - 1 then (if m =? 0 then S754_infinity s else S754_nan)
  else if e =? 0 then (if m =? 0 then S754_zero s else S754_finite s (Z.to_pos m) nf_emin)
  else S754_finite s (Z.to_pos (m + 2 ^ mant_bits f)) (nf_emin + e - 1).

Definition join_fields (s : bool) (e m : Z) : Z :=
  (if s then 2 ^ (mant_bits f + exp_bits f) else 0) + e * 2 ^ mant_bits f + m.

(** [to_bits]. *)
Definition nf_to_bits (x : spec_float) : Z :=
  match x with
  | S754_zero s => join_fields s 0 0
  | S754_infinity s => join_fields s (2 ^ exp_bits f - 1) 0
  | S754_nan => join_fields false (2 ^ exp_bits f - 1) (2 ^ (mant_bits f - 1))
  | S754_finite s m e =>
      if Zpos m <? 2 ^ mant_bits f then join_fields s 0 (Zpos m)
      else join_fields s (e - nf_emin + 1) (Zpos m - 2 ^ mant_bits f)
  end.

Definition signed_mant (s : bool) (m : positive) : Z := if s then Zneg m else Zpos m.

(** One rounding of the exact [x * y + z]. *)
Definition fma (x y z : spec_float) : spec_float :=
  match x, y, z with
  | S754_finite s1 m1 e1, S754_finite s2 m2 e2, S754_finite s3 m3 e3 =>
      let e := Z.min (e1 + e2) e3 in
      binary_normalize nf_prec nf_emax
        (signed_mant s1 m1 * signed_mant s2 m2 * 2 ^ (e1 + e2 - e) + signed_mant s3 m3 * 2 ^ (e3 - e)) e false
  | S754_finite _ _ _, S754_finite _ _ _, S754_infinity _ => z
  | _, _, _ => SFadd nf_prec nf_emax (SFmul nf_prec nf_emax x y) z
  end.

(** [sqrt], [mul_add], unary minus and comparison with zero, on the bits. *)
Definition native_sqrt (b : Z) : Z := nf_to_bits (SFsqrt nf_prec nf_emax (nf_of_bits b)).
Definition native_mul_add (x a b : Z) : Z := nf_to_bits (fma (nf_of_bits x) (nf_of_bits a) (nf_of_bits b)).
Definition native_neg (b : Z) : Z := Z.lxor b (2 ^ (mant_bits f + exp_bits f)).
Definition native_ne_zero (b : Z) : bool := negb (SFeqb (nf_of_bits b) (S754_zero false)).
End Native.

(** 2.0, 4.0, 1.0 and a rounded root. *)
Example native_examples :
  let s := native_fmt U32 in let d := native_fmt U64 in
  native_sqrt s 0x40800000 = 0x40000000 /\ native_sqrt s 0x40000000 = 0x3FB504F3 /\
  native_sqrt d 0x40C3880000000000 = 0x4059000000000000 /\ native_sqrt s 0xBF800000 = 0x7FC00000 /\
  native_mul_add s 0x40000000 0x40000000 0xC0800000 = 0 /\ native_sqrt s 1 = 0x1A3504F3.
Proof. vm_compute. done. Qed.


Inductive Classification : Type :=
| NegativeInfinity | NormalNegative | SubnormalNegative | NegativeZero | PositiveZero
| SubnormalPositive | NormalPositive | PositiveInfinity | SignalingNaN | QuietNaN.

(** The discriminants of the enumeration. *)
Definition classification_nr (c : Classification) : Z :=
  match c with
  | NegativeInfinity => 0x1 | NormalNegative => 0x2 | SubnormalNegative => 0x4 | NegativeZero => 0x8
  | PositiveZero => 0x10 | SubnormalPositive => 0x20 | NormalPositive => 0x40 | PositiveInfinity => 0x80
  | SignalingNaN => 0x100 | QuietNaN => 0x200
  end.

Inductive Round : Type := NearestTiesToEven | TowardPositive | TowardNegative | TowardZero | NearestTiesToAway.
#[export] Instance Round_eq_dec : EqDecision Round.
Proof. solve_decision. Defined.

(** ** The library [rustc_apfloat] *)

(** [Status] is its bits; [StatusAnd] a value with a status. *)
Record StatusAnd (A : Type) : Type := { status : Z; value : A }.
Arguments Build_StatusAnd {A} _ _.
Arguments status {A} _.
Arguments value {A} _.

Class ApStatus : Type := { STATUS_OK : Z; INVALID_OP : Z; DIV_BY_ZERO : Z; OVERFLOW : Z; UNDERFLOW : Z; INEXACT : Z }.

(** The trait [Float] and the conversions from and to bits, for a format as
    wide as [float_width]. *)
Class SoftFloat (F : Type) : Type := {
  float_width : UInt;
  from_bits : Z -> F;
  to_bits : F -> Z;
  qnan : F;
  is_nan : F -> bool;
  is_signaling : F -> bool;
  is_negative : F -> bool;
  is_zero : F -> bool;
  is_infinite : F -> bool;
  is_denormal : F -> bool;
  is_normal : F -> bool;
  float_neg : F -> F;
  float_abs : F -> F;
  copy_sign : F -> F -> F;
  float_eq : F -> F -> bool;
  float_lt : F -> F -> bool;
  float_le : F -> F -> bool;
  float_min : F -> F -> F;
  float_max : F -> F -> F;
  add_r : F -> F -> Round -> StatusAnd F;
  sub_r : F -> F -> Round -> StatusAnd F;
  mul_r : F -> F -> Round -> StatusAnd F;
  div_r : F -> F -> Round -> StatusAnd F;
  mul_add_r : F -> F -> F -> Round -> StatusAnd F;
  from_u128_r : Z -> Round -> StatusAnd F;
  from_i128_r : Z -> Round -> StatusAnd F;
  to_u128_r : F -> Z -> Round -> StatusAnd Z;
  to_i128_r : F -> Z -> Round -> StatusAnd Z
}.

(** The trait [FloatConvert]. *)
Class FloatConvert (F T : Type) : Type := { convert_r : F -> Round -> StatusAnd T }.

(** ** Operations *)
Section Ops.
Context {F : Type} `{ApStatus} `{SoftFloat F}.

(** [define_binary_op_r!] and the fused operations. *)
Definition AddOp (a b : F) (round : Round) : StatusAnd F := add_r a b round.
Definition SubOp (a b : F) (round : Round) : StatusAnd F := sub_r a b round.
Definition MulOp (a b : F) (round : Round) : StatusAnd F := mul_r a b round.
Definition DivOp (a b : F) (round : Round) : StatusAnd F := div_r a b round.
Definition MulAddOp (a b c : F) (round : Round) : StatusAnd F := mul_add_r a b c round.
Definition MulSubOp (a b c : F) (round : Round) : StatusAnd F := mul_add_r a b (float_neg c) round.
Definition NegMulAddOp (a b c : F) (round : Round) : StatusAnd F := mul_add_r (float_neg a) b (float_neg c) round.
Definition NegMulSubOp (a b c : F) (round : Round) : StatusAnd F := mul_add_r (float_neg a) b c round.

Definition SignInjectOp (a b : F) : F := copy_sign a b.
Definition SignInjectNegOp (a b : F) : F := if Bool.eqb (is_negative a) (is_negative b) then float_neg a else a.
Definition SignInjectXorOp (a b : F) : F :=
  if negb (Bool.eqb (is_negative a) (is_negative b)) then float_neg (float_abs a) else float_abs a.

(** [None] is [unreachable_unchecked]. *)
Definition classify (f : F) : option Classification :=
  if is_normal f then Some (if is_negative f then NormalNegative else NormalPositive)
  else if is_denormal f then Some (if is_negative f then SubnormalNegative else SubnormalPositive)
  else if is_zero f then Some (if is_negative f then NegativeZero else PositiveZero)
  else if is_infinite f then Some (if is_negative f then NegativeInfinity else PositiveInfinity)
  else if is_nan f then Some (if is_signaling f then SignalingNaN else QuietNaN)
  else None.

Definition EqOp (a b : F) : StatusAnd bool :=
  if is_signaling a || is_signaling b then Build_StatusAnd INVALID_OP false else Build_StatusAnd STATUS_OK (float_eq a b).
Definition LtOp (a b : F) : StatusAnd bool :=
  if is_nan a || is_nan b then Build_StatusAnd INVALID_OP false else Build_StatusAnd STATUS_OK (float_lt a b).
Definition LeOp (a b : F) : StatusAnd bool :=
  if is_nan a || is_nan b then Build_StatusAnd INVALID_OP false else Build_StatusAnd STATUS_OK (float_le a b).
End Ops.

(** [if self.unify_cnan && res.is_nan() { res = qnan(None) }] *)
Definition unify {F} `{SoftFloat F} (unify_cnan : bool) (res : F) : F := if unify_cnan && is_nan res then qnan else res.

(** ** Registers *)

(** [Single] and [Double] are the two formats of the library. *)
Inductive APFloat (Single Double : Type) : Type := APSingle (s : Single) | APDouble (d : Double).
Arguments APSingle {Single Double} _.
Arguments APDouble {Single Double} _.

(** The format [F] of an instruction ([APFloatOf]): its view of a register. *)
Class APFloatOf (Single Double F : Type) : Type := {
  to_ap : F -> APFloat Single Double;
  of_ap : APFloat Single Double -> F
}.

Section Registers.
Context {Single Double : Type} `{SoftFloat Single} `{SoftFloat Double}.

Definition Single_from (value : APFloat Single Double) : Single :=
  match value with
  | APSingle s => s
  | APDouble d =>
      if negb (Z.land (wrap 64 (to_bits d)) (make_mask 32 63) =? make_mask 32 63) then qnan else from_bits (to_bits d)
  end.
Definition Double_from (value : APFloat Single Double) : Double :=
  match value with
  | APSingle s => from_bits (Z.lor (wrap 64 (to_bits s)) (make_mask 32 63))
  | APDouble d => d
  end.

#[export] Instance single_of : APFloatOf Single Double Single := {| to_ap := APSingle; of_ap := Single_from |}.
#[export] Instance double_of : APFloatOf Single Double Double := {| to_ap := APDouble; of_ap := Double_from |}.
End Registers.

Record SoftFPU (Single Double : Type) : Type := {
  last_status : Z;
  fpu_regs : list (APFloat Single Double);
  unify_cnan : bool
}.
Arguments Build_SoftFPU {Single Double} _ _ _.
Arguments last_status {Single Double} _.
Arguments fpu_regs {Single Double} _.
Arguments unify_cnan {Single Double} _.

Section Fpu.
Context {Single Double : Type} `{ApStatus} `{SoftFloat Single} `{SoftFloat Double} {E : Type}.
Local Notation FPU := (SoftFPU Single Double).
Local Notation FpuM := (M FPU E).

Definition SoftFPU_from (unify : bool) : FPU := Build_SoftFPU STATUS_OK (replicate 32 (APSingle (from_bits 0))) unify.

Definition set_last_status (v : Z) (f : FPU) : FPU := Build_SoftFPU v (fpu_regs f) (unify_cnan f).
Definition set_fpu_regs (l : list (APFloat Single Double)) (f : FPU) : FPU := Build_SoftFPU (last_status f) l (unify_cnan f).

(** [self.reg_file[index]] panics past the 32 registers. *)
Definition fpu_reg (index : Z) : FpuM (APFloat Single Double) := r <- gets fpu_regs ;; unwrap (r !! Z.to_nat index).
Definition fpu_set (index : Z) (v : APFloat Single Double) : FpuM unit :=
  r <- gets fpu_regs ;;
  if Z.of_nat (length r) <=? index then panic else modify (set_fpu_regs (<[Z.to_nat index := v]> r)).

Definition save_and_unwrap {T} (s : StatusAnd T) : FpuM T := modify (set_last_status (status s)) ;;; ret (value s).

Definition load_raw (index : Z) : FpuM Z := v <- fpu_reg index ;; ret (wrap 64 (to_bits (Double_from v))).

(** The operations of a format [F]. *)
Section Format.
Context {F : Type} `{SoftFloat F} `{APFloatOf Single Double F}.

(** [fpu_load::<F>]: the bits of the native number. *)
Definition fpu_load (index : Z) : FpuM Z :=
  v <- fpu_reg index ;; ret (truncate_from (float_width (F := F)) (to_bits (of_ap (F := F) v))).
(** [store::<F>] of the native number with these bits. *)
Definition fpu_store (index bits : Z) : FpuM unit := fpu_set index (to_ap (from_bits (F := F) bits)).
Definition store_raw (index v : Z) : FpuM unit := fpu_set index (to_ap (from_bits (F := F) v)).

Definition cvt_unsigned_and_store (index v : Z) (round : Round) : FpuM unit :=
  x <- save_and_unwrap (from_u128_r (F := F) v round) ;; fpu_set index (to_ap x).
Definition cvt_signed_and_store (index v : Z) (round : Round) : FpuM unit :=
  x <- save_and_unwrap (from_i128_r (F := F) v round) ;; fpu_set index (to_ap x).

(** The result is a [u128], an [i128]; [U] is the integer type. *)
Definition get_and_cvt_unsigned (U : UInt) (index : Z) (round : Round) : FpuM Z :=
  v <- fpu_reg index ;;
  let f := of_ap (F := F) v in
  if is_nan f then ret (MAX U)
  else
    let s := to_u128_r f (BITS U) round in
    modify (set_last_status (status s)) ;;; ret (value s).
Definition get_and_cvt_signed (U : UInt) (index : Z) (round : Round) : FpuM Z :=
  v <- fpu_reg index ;;
  let f := of_ap (F := F) v in
  if is_nan f then ret (2 ^ (BITS U - 1) - 1)
  else
    let s := to_i128_r f (BITS U) round in
    modify (set_last_status (status s)) ;;; ret (value s).

Definition cvt_float_and_store {T} `{SoftFloat T} `{APFloatOf Single Double T} `{FloatConvert F T} (rd rs : Z) (round : Round) : FpuM unit :=
  v <- fpu_reg rs ;;
  x <- save_and_unwrap (convert_r (T := T) (of_ap (F := F) v) round) ;;
  u <- gets unify_cnan ;;
  fpu_set rd (to_ap (unify u x)).

Definition fpu_classify (rs : Z) : FpuM Classification := v <- fpu_reg rs ;; unwrap (classify (of_ap (F := F) v)).

Definition compare (Op : F -> F -> StatusAnd bool) (rs1 rs2 : Z) : FpuM bool :=
  a <- fpu_reg rs1 ;; b <- fpu_reg rs2 ;; save_and_unwrap (Op (of_ap a) (of_ap b)).

(** [min_num] and [max_num] differ in [pick] and in the zero they choose. *)
Definition min_max_num (pick : F -> F -> F) (zero_of : F -> F -> F) (rs1 rs2 rd : Z) : FpuM unit :=
  va <- fpu_reg rs1 ;; vb <- fpu_reg rs2 ;;
  let a := of_ap va in
  let b := of_ap vb in
  u <- gets unify_cnan ;;
  if is_signaling a || is_signaling b then
    modify (set_last_status INVALID_OP) ;;;
    if u && is_nan a && is_nan b then fpu_set rd (to_ap qnan)
    else fpu_set rd (to_ap (pick a b))
  else
    modify (set_last_status STATUS_OK) ;;;
    if u && is_nan a && is_nan b then fpu_set rd (to_ap qnan)
    else if is_zero a && is_zero b && negb (Bool.eqb (is_negative a) (is_negative b)) then fpu_set rd (to_ap (zero_of a b))
    else fpu_set rd (to_ap (pick a b)).
Definition min_num (rs1 rs2 rd : Z) : FpuM unit :=
  min_max_num float_min (fun a b => if is_negative a then a else b) rs1 rs2 rd.
Definition max_num (rs1 rs2 rd : Z) : FpuM unit :=
  min_max_num float_max (fun a b => if is_negative a then b else a) rs1 rs2 rd.

(** The root is the native one; [mul_add] tells whether it is exact. *)
Definition sqrt_status (f : F) (res_native f_native : Z) (res : F) : Z :=
  let nf := native_fmt (float_width (F := F)) in
  let st := STATUS_OK in
  let st := if is_nan f then (if is_signaling f then Z.lor st INVALID_OP else st)
            else if is_negative f && negb (is_zero f) then Z.lor st INVALID_OP else st in
  if st =? STATUS_OK then
    if negb (is_infinite res) && negb (is_nan res) && negb (is_zero res) then
      if native_ne_zero nf (native_mul_add nf res_native res_native (native_neg nf f_native)) then Z.lor st INEXACT else st
    else st
  else st.

Definition fpu_sqrt (rs rd : Z) (_ : Round) : FpuM unit :=
  v <- fpu_reg rs ;;
  let f := of_ap (F := F) v in
  let f_native := truncate_from (float_width (F := F)) (to_bits f) in
  let res_native := native_sqrt (native_fmt (float_width (F := F))) f_native in
  let res := from_bits res_native in
  u <- gets unify_cnan ;;
  modify (set_last_status (sqrt_status f res_native f_native res)) ;;;
  fpu_set rd (to_ap (unify u res)).

Definition exec_binary_ignore_cnan (Op : F -> F -> F) (rs1 rs2 rd : Z) : FpuM unit :=
  a <- fpu_reg rs1 ;; b <- fpu_reg rs2 ;; fpu_set rd (to_ap (Op (of_ap a) (of_ap b))).

Definition exec_binary_r (Op : F -> F -> Round -> StatusAnd F) (rs1 rs2 rd : Z) (round : Round) : FpuM unit :=
  a <- fpu_reg rs1 ;; b <- fpu_reg rs2 ;;
  res <- save_and_unwrap (Op (of_ap a) (of_ap b) round) ;;
  u <- gets unify_cnan ;;
  fpu_set rd (to_ap (unify u res)).

Definition exec_ternary_r (Op : F -> F -> F -> Round -> StatusAnd F) (rs1 rs2 rs3 rd : Z) (round : Round) : FpuM unit :=
  a <- fpu_reg rs1 ;; b <- fpu_reg rs2 ;; c <- fpu_reg rs3 ;;
  res <- save_and_unwrap (Op (of_ap a) (of_ap b) (of_ap c) round) ;;
  u <- gets unify_cnan ;;
  fpu_set rd (to_ap (unify u res)).
End Format.
End Fpu.
