(* ===== verification/FloatExec.v ===== *)
(** * Floating-point instructions

    The model of src/src/isa/riscv/instruction/exec_float_function.rs, of the
    floating-point parts of exec_core.rs, exec_compress_function.rs and mod.rs,
    and of their arms of exec_mapping.rs. *)

From S2P Require Import Prelude Utils TrapTypes Alu Ram CsrTable Csr PageTable Mmio Vm Instr Cpu Trap Exec Float.

(** The floating-point unit is a part of the units [X] of a hart. *)
Class HasFpu (Single Double X : Type) : Type := {
  fpu_of : X -> SoftFPU Single Double;
  set_fpu : SoftFPU Single Double -> X -> X;
  fpu_of_set : forall f x, fpu_of (set_fpu f x) = f;
  set_fpu_of : forall x, set_fpu (fpu_of x) x = x;
  set_fpu_set : forall f g x, set_fpu f (set_fpu g x) = set_fpu f x
}.

Definition Mstatus_fs : CsrField := Fld Mstatus 13 2.
Definition Fcsr_fflags : CsrField := Fld Fcsr 0 5.
Definition Fcsr_rm : CsrField := Fld Fcsr 5 3.

(** The turns of [for i in 0..5] from [i] on. *)
Definition status_to_fflags (old : Z) : Z :=
  foldl (fun rst i => Z.lor rst (shl 8 (Z.land (Z.shiftr old i) 1) (4 - i))) 0 (seqZ 0 5).

Section Exec.
Context {Single Double D X : Type} `{ApStatus} `{SoftFloat Single} `{SoftFloat Double} `{DeviceTrait D} `{Profile} `{HasFpu Single Double X}.

Abbreviation CPU := (RVCPU D X).
Abbreviation CpuM := (M CPU Exception).

Definition put_ext (x : X) (c : CPU) : CPU :=
  Build_RVCPU (reg_file c) (pc c) (memory c) (csr c) (icache c) (icache_epoch c) x (time_addr c) (pending_tval c).
Definition on_fpu {A} (m : M (SoftFPU Single Double) Exception A) : CpuM A :=
  zoom (fun c => fpu_of (ext c)) (fun c f => put_ext (set_fpu f (ext c)) c) m.

(** ** exec_float_function.rs *)

(** The dynamic mode is looked up by a recursive call, which never returns when
    [fcsr.rm] is dynamic itself: [depth] calls fit on the stack, and the process
    is aborted when they are used up. *)
Fixpoint rm_to_round_rec (depth : nat) (rm : Z) : CpuM Round :=
  match depth with
  | O => panic
  | S depth =>
      match rm with
      | 0 => ret NearestTiesToEven
      | 1 => ret TowardZero
      | 2 => ret TowardNegative
      | 3 => ret TowardPositive
      | 4 => ret NearestTiesToAway
      | 7 => rm <- on_csr (get_field Fcsr_rm) ;; rm_to_round_rec depth (wrap 8 rm)
      | _ => ret NearestTiesToEven
      end
  end.
Definition rm_to_round (rm : Z) : CpuM Round := rm_to_round_rec 2 rm.

Definition save_fflags_to_cpu : CpuM unit :=
  st <- on_fpu (gets last_status) ;; on_csr (set_field Fcsr_fflags (status_to_fflags st)).

(** mod.rs *)
Definition normal_float_exec (f : CpuM unit) : CpuM unit :=
  fs <- on_csr (get_field Mstatus_fs) ;;
  if fs =? 0 then err IllegalInstruction else normal_exec f ;;; save_fflags_to_cpu.
Definition normal_compress_float_exec (f : CpuM unit) : CpuM unit :=
  fs <- on_csr (get_field Mstatus_fs) ;;
  if fs =? 0 then err IllegalInstruction else normal_compress_exec f ;;; save_fflags_to_cpu.

Section Format.
Context (F : Type) `{SoftFloat F} `{APFloatOf Single Double F}.
Local Notation FBITS := (float_width (F := F)).

(** exec_core.rs *)
Definition handle_float_load (addr rd : Z) : CpuM unit :=
  data <- mem_read FBITS addr ;; on_fpu (store_raw (F := F) rd data).
Definition handle_float_store (addr data : Z) : CpuM unit := mem_write FBITS addr data.

Definition exec_float_load (info : RVInstrInfo) : CpuM unit :=
  normal_float_exec
    match info with
    | II rs1 rd imm => v <- reg_read rs1 0 ;; handle_float_load (wrapping_add_as_signed (fst v) imm) rd
    | _ => panic
    end.

Definition exec_float_store (info : RVInstrInfo) : CpuM unit :=
  normal_float_exec
    match info with
    | IS rs1 rs2 imm =>
        a <- reg_read rs1 0 ;;
        v <- on_fpu (load_raw rs2) ;;
        handle_float_store (wrapping_add_as_signed (fst a) imm) (truncate_from FBITS v)
    | _ => panic
    end.

Definition exec_float_arith_r4_rm (Op : F -> F -> F -> Round -> StatusAnd F) (info : RVInstrInfo) : CpuM unit :=
  normal_float_exec
    match info with
    | IR4_rm rs1 rs2 rs3 rd rm => round <- rm_to_round rm ;; on_fpu (exec_ternary_r Op rs1 rs2 rs3 rd round)
    | _ => panic
    end.

Definition exec_float_arith_rm (Op : F -> F -> Round -> StatusAnd F) (info : RVInstrInfo) : CpuM unit :=
  normal_float_exec
    match info with
    | IR_rm rs1 rs2 rd rm => round <- rm_to_round rm ;; on_fpu (exec_binary_r Op rs1 rs2 rd round)
    | _ => panic
    end.

Definition exec_float_arith (Op : F -> F -> F) (info : RVInstrInfo) : CpuM unit :=
  normal_float_exec
    match info with
    | IR rs1 rs2 rd => on_fpu (exec_binary_ignore_cnan Op rs1 rs2 rd)
    | _ => panic
    end.

Definition exec_sqrt (info : RVInstrInfo) : CpuM unit :=
  normal_float_exec
    match info with
    | IR_rm rs1 _ rd rm => round <- rm_to_round rm ;; on_fpu (fpu_sqrt (F := F) rs1 rd round)
    | _ => panic
    end.

Definition exec_cvt_u_from_f (U : UInt) (info : RVInstrInfo) : CpuM unit :=
  normal_float_exec
    match info with
    | IR_rm rs1 _ rd rm =>
        round <- rm_to_round rm ;;
        v <- on_fpu (get_and_cvt_unsigned (F := F) U rs1 round) ;;
        reg_write rd (sign_extend_to_wordtype U (truncate_from U v))
    | _ => panic
    end.

Definition exec_cvt_i_from_f (U : UInt) (info : RVInstrInfo) : CpuM unit :=
  normal_float_exec
    match info with
    | IR_rm rs1 _ rd rm =>
        round <- rm_to_round rm ;;
        v <- on_fpu (get_and_cvt_signed (F := F) U rs1 round) ;;
        reg_write rd (sign_extend_to_wordtype U (truncate_from U (wrap 128 v)))
    | _ => panic
    end.

Definition exec_cvt_f_from_u (bits : Z) (info : RVInstrInfo) : CpuM unit :=
  normal_float_exec
    match info with
    | IR_rm rs1 _ rd rm =>
        v <- reg_read rs1 0 ;;
        round <- rm_to_round rm ;;
        on_fpu (cvt_unsigned_and_store (F := F) rd (truncate_to_bits (fst v) bits) round)
    | _ => panic
    end.

(** The width is a parameter the body does not use. *)
Definition exec_cvt_f_from_i (bits : Z) (info : RVInstrInfo) : CpuM unit :=
  normal_float_exec
    match info with
    | IR_rm rs1 _ rd rm =>
        v <- reg_read rs1 0 ;;
        round <- rm_to_round rm ;;
        on_fpu (cvt_signed_and_store (F := F) rd (to_signed 64 (fst v)) round)
    | _ => panic
    end.

Definition exec_cvt_float (T : Type) `{SoftFloat T} `{APFloatOf Single Double T} `{FloatConvert F T} (info : RVInstrInfo) : CpuM unit :=
  normal_float_exec
    match info with
    | IR_rm rs1 _ rd rm => round <- rm_to_round rm ;; on_fpu (cvt_float_and_store (F := F) (T := T) rd rs1 round)
    | _ => panic
    end.

Definition exec_float_compare (Op : F -> F -> StatusAnd bool) (info : RVInstrInfo) : CpuM unit :=
  normal_float_exec
    match info with
    | IR rs1 rs2 rd => rst <- on_fpu (compare Op rs1 rs2) ;; reg_write rd (if (rst : bool) then 1 else 0)
    | _ => panic
    end.

Definition exec_float_classify (info : RVInstrInfo) : CpuM unit :=
  normal_float_exec
    match info with
    | IR rs1 _ rd => rst <- on_fpu (fpu_classify (F := F) rs1) ;; reg_write rd (classification_nr rst)
    | _ => panic
    end.

Definition exec_mv_x_from_f (extend : bool) (info : RVInstrInfo) : CpuM unit :=
  normal_float_exec
    match info with
    | IR rs1 _ rd => rst <- on_fpu (load_raw rs1) ;; reg_write rd (if extend then sign_extend rst 32 else rst)
    | _ => panic
    end.

Definition exec_mv_f_from_x (info : RVInstrInfo) : CpuM unit :=
  normal_float_exec
    match info with
    | IR rs1 _ rd => rst <- reg_read rs1 0 ;; on_fpu (store_raw (F := F) rd (fst rst))
    | _ => panic
    end.

Definition exec_float_min (info : RVInstrInfo) : CpuM unit :=
  normal_float_exec match info with IR rs1 rs2 rd => on_fpu (min_num (F := F) rs1 rs2 rd) | _ => panic end.
Definition exec_float_max (info : RVInstrInfo) : CpuM unit :=
  normal_float_exec match info with IR rs1 rs2 rd => on_fpu (max_num (F := F) rs1 rs2 rd) | _ => panic end.

(** ** exec_compress_function.rs: the stores do not check [mstatus.FS]. *)
Definition exec_compress_float_store_sp (info : RVInstrInfo) : CpuM unit :=
  normal_compress_exec
    match info with
    | ICSS rs2 imm =>
        a <- reg_read 2 0 ;;
        v <- on_fpu (load_raw rs2) ;;
        handle_float_store (wrapping_add_as_signed (fst a) imm) (truncate_from FBITS v)
    | _ => panic
    end.
Definition exec_compress_float_store (info : RVInstrInfo) : CpuM unit :=
  normal_compress_exec
    match info with
    | ICS rs1 rs2 imm =>
        a <- reg_read rs1 0 ;;
        v <- on_fpu (load_raw rs2) ;;
        handle_float_store (wrapping_add_as_signed (fst a) imm) (truncate_from FBITS v)
    | _ => panic
    end.
Definition exec_compress_float_load_sp (info : RVInstrInfo) : CpuM unit :=
  normal_compress_float_exec
    match info with
    | ICI rd imm => v <- reg_read 2 0 ;; handle_float_load (wrapping_add_as_signed (fst v) imm) rd
    | _ => panic
    end.
Definition exec_compress_float_load (info : RVInstrInfo) : CpuM unit :=
  normal_compress_float_exec
    match info with
    | ICL rd rs1 imm => v <- reg_read rs1 0 ;; handle_float_load (wrapping_add_as_signed (fst v) imm) rd
    | _ => panic
    end.
End Format.
End Exec.

(** ** The arms of [get_exec_func] *)
Inductive FInstr : Type :=
| FADD_S | FSUB_S | FMUL_S | FDIV_S | FMADD_S | FNMADD_S | FMSUB_S | FNMSUB_S | FSQRT_S | FMIN_S | FMAX_S
| FADD_D | FSUB_D | FMUL_D | FDIV_D | FMADD_D | FNMADD_D | FMSUB_D | FNMSUB_D | FSQRT_D | FMIN_D | FMAX_D
| FSGNJ_S | FSGNJN_S | FSGNJX_S | FSGNJ_D | FSGNJN_D | FSGNJX_D
| FCVT_W_S | FCVT_WU_S | FCVT_S_W | FCVT_S_WU | FCVT_L_S | FCVT_LU_S | FCVT_S_L | FCVT_S_LU
| FCVT_W_D | FCVT_WU_D | FCVT_D_W | FCVT_D_WU | FCVT_L_D | FCVT_LU_D | FCVT_D_L | FCVT_D_LU | FCVT_D_S | FCVT_S_D
| FEQ_S | FLT_S | FLE_S | FEQ_D | FLT_D | FLE_D
| FLW | FSW | FLD | FSD | FMV_X_W | FMV_W_X | FMV_X_D | FMV_D_X | FCLASS_S | FCLASS_D.

Section Map.
Context {Single Double D X : Type} `{ApStatus} `{SoftFloat Single} `{SoftFloat Double} `{DeviceTrait D} `{Profile} `{HasFpu Single Double X}
  `{FloatConvert Single Double} `{FloatConvert Double Single}.
Local Notation f32 := Single.
Local Notation f64 := Double.

Definition float_exec_func (i : FInstr) : RVInstrInfo -> M (RVCPU D X) Exception unit :=
  match i with
  | FADD_S => exec_float_arith_rm f32 AddOp
  | FSUB_S => exec_float_arith_rm f32 SubOp
  | FMUL_S => exec_float_arith_rm f32 MulOp
  | FDIV_S => exec_float_arith_rm f32 DivOp
  | FMADD_S => exec_float_arith_r4_rm f32 MulAddOp
  | FNMADD_S => exec_float_arith_r4_rm f32 NegMulAddOp
  | FMSUB_S => exec_float_arith_r4_rm f32 MulSubOp
  | FNMSUB_S => exec_float_arith_r4_rm f32 NegMulSubOp
  | FSQRT_S => exec_sqrt f32
  | FMIN_S => exec_float_min f32
  | FMAX_S => exec_float_max f32
  | FADD_D => exec_float_arith_rm f64 AddOp
  | FSUB_D => exec_float_arith_rm f64 SubOp
  | FMUL_D => exec_float_arith_rm f64 MulOp
  | FDIV_D => exec_float_arith_rm f64 DivOp
  | FMADD_D => exec_float_arith_r4_rm f64 MulAddOp
  | FNMADD_D => exec_float_arith_r4_rm f64 NegMulAddOp
  | FMSUB_D => exec_float_arith_r4_rm f64 MulSubOp
  | FNMSUB_D => exec_float_arith_r4_rm f64 NegMulSubOp
  | FSQRT_D => exec_sqrt f64
  | FMIN_D => exec_float_min f64
  | FMAX_D => exec_float_max f64
  | FSGNJ_S => exec_float_arith f32 SignInjectOp
  | FSGNJN_S => exec_float_arith f32 SignInjectNegOp
  | FSGNJX_S => exec_float_arith f32 SignInjectXorOp
  | FSGNJ_D => exec_float_arith f64 SignInjectOp
  | FSGNJN_D => exec_float_arith f64 SignInjectNegOp
  | FSGNJX_D => exec_float_arith f64 SignInjectXorOp
  | FCVT_W_S => exec_cvt_i_from_f f32 U32
  | FCVT_WU_S => exec_cvt_u_from_f f32 U32
  | FCVT_S_W => exec_cvt_f_from_i f32 32
  | FCVT_S_WU => exec_cvt_f_from_u f32 32
  | FCVT_L_S => exec_cvt_i_from_f f32 U64
  | FCVT_LU_S => exec_cvt_u_from_f f32 U64
  | FCVT_S_L => exec_cvt_f_from_i f32 64
  | FCVT_S_LU => exec_cvt_f_from_u f32 64
  | FCVT_W_D => exec_cvt_i_from_f f64 U32
  | FCVT_WU_D => exec_cvt_u_from_f f64 U32
  | FCVT_D_W => exec_cvt_f_from_i f64 32
  | FCVT_D_WU => exec_cvt_f_from_u f64 32
  | FCVT_L_D => exec_cvt_i_from_f f64 U64
  | FCVT_LU_D => exec_cvt_u_from_f f64 U64
  | FCVT_D_L => exec_cvt_f_from_i f64 64
  | FCVT_D_LU => exec_cvt_f_from_u f64 64
  | FCVT_D_S => exec_cvt_float f32 f64
  | FCVT_S_D => exec_cvt_float f64 f32
  | FEQ_S => exec_float_compare f32 EqOp
  | FLT_S => exec_float_compare f32 LtOp
  | FLE_S => exec_float_compare f32 LeOp
  | FEQ_D => exec_float_compare f64 EqOp
  | FLT_D => exec_float_compare f64 LtOp
  | FLE_D => exec_float_compare f64 LeOp
  | FLW => exec_float_load f32
  | FSW => exec_float_store f32
  | FLD => exec_float_load f64
  | FSD => exec_float_store f64
  | FMV_X_W => exec_mv_x_from_f true
  | FMV_W_X => exec_mv_f_from_x f32
  | FMV_X_D => exec_mv_x_from_f false
  | FMV_D_X => exec_mv_f_from_x f64
  | FCLASS_S => exec_float_classify f32
  | FCLASS_D => exec_float_classify f64
  end.

Definition compress_float_func (i : RiscvInstr) : option (RVInstrInfo -> M (RVCPU D X) Exception unit) :=
  match i with
  | C_FLW => Some (exec_compress_float_load f32)
  | C_FLD => Some (exec_compress_float_load f64)
  | C_FLWSP => Some (exec_compress_float_load_sp f32)
  | C_FLDSP => Some (exec_compress_float_load_sp f64)
  | C_FSW => Some (exec_compress_float_store f32)
  | C_FSD => Some (exec_compress_float_store f64)
  | C_FSWSP => Some (exec_compress_float_store_sp f32)
  | C_FSDSP => Some (exec_compress_float_store_sp f64)
  | _ => None
  end.

(** The build numbers the instructions: [float_instr] says which are
    floating-point instructions, and [rest] executes the others. *)
Definition float_unit (float_instr : RiscvInstr -> option FInstr) (rest : ExtUnit D X) : ExtUnit D X := {|
  exec_ext i :=
    match compress_float_func i with
    | Some f => f
    | None => match float_instr i with Some f => float_exec_func f | None => exec_ext (ExtUnit := rest) i end
    end |}.
End Map.
