(* ===== verification/FloatSpec.v ===== *)
(** * Numbers, registers and flags of the floating-point unit

    What the emulator relies on of the library [rustc_apfloat], as laws on the
    bits of a number ([SoftFloatLaws]); the reference definitions of IEEE 754
    and of the F and D extensions on bits; and the operations of the unit
    against them. *)

From S2P Require Import Prelude Utils Float FloatExec.

(** ** Numbers as bits *)
Section Bits.
Context (w : UInt).
Local Notation fm := (native_fmt w).
Local Notation top := (BITS w - 1).

Definition exp_ones (b : Z) : bool := exp_field fm b =? 2 ^ exp_bits fm - 1.
Definition mant_zero (b : Z) : bool := mant_field fm b =? 0.
Definition nan_bits (b : Z) : bool := exp_ones b && negb (mant_zero b).
Definition quiet_bit (b : Z) : bool := Z.testbit b (mant_bits fm - 1).
Definition zero_bits (b : Z) : bool := (exp_field fm b =? 0) && mant_zero b.
Definition canonical_nan : Z := join_fields fm false (2 ^ exp_bits fm - 1) (2 ^ (mant_bits fm - 1)).
Definition sign_bit (b : Z) : bool := Z.testbit b top.
Definition with_sign (s : bool) (b : Z) : Z := if s then Z.setbit b top else Z.clearbit b top.
(** The order of the numbers that are not NaN: sign and magnitude. *)
Definition order_key (b : Z) : Z := let m := Z.clearbit b top in if sign_bit b then - m else m.

(** The class of a number (FCLASS). *)
Definition class_of (b : Z) : Classification :=
  if exp_ones b then
    if mant_zero b then (if sign_bit b then NegativeInfinity else PositiveInfinity)
    else if quiet_bit b then QuietNaN else SignalingNaN
  else if exp_field fm b =? 0 then
    if mant_zero b then (if sign_bit b then NegativeZero else PositiveZero)
    else if sign_bit b then SubnormalNegative else SubnormalPositive
  else if sign_bit b then NormalNegative else NormalPositive.
End Bits.

(** ** The laws of the library *)
Class SoftFloatLaws (F : Type) `{SoftFloat F} : Prop := {
  sl_width : float_width (F := F) = U32 \/ float_width (F := F) = U64;
  sl_range (f : F) : uint (BITS (float_width (F := F))) (to_bits f);
  sl_from_bits b : 0 <= b < 2 ^ 128 -> to_bits (from_bits (F := F) b) = wrap (BITS (float_width (F := F))) b;
  sl_qnan : to_bits (qnan (F := F)) = canonical_nan (float_width (F := F));
  sl_nan (f : F) : is_nan f = nan_bits (float_width (F := F)) (to_bits f);
  sl_signaling (f : F) : is_signaling f = nan_bits (float_width (F := F)) (to_bits f) && negb (quiet_bit (float_width (F := F)) (to_bits f));
  sl_negative (f : F) : is_negative f = sign_bit (float_width (F := F)) (to_bits f);
  sl_zero (f : F) : is_zero f = zero_bits (float_width (F := F)) (to_bits f);
  sl_infinite (f : F) : is_infinite f = exp_ones (float_width (F := F)) (to_bits f) && mant_zero (float_width (F := F)) (to_bits f);
  sl_denormal (f : F) : is_denormal f =
    (exp_field (native_fmt (float_width (F := F))) (to_bits f) =? 0) && negb (mant_zero (float_width (F := F)) (to_bits f));
  sl_normal (f : F) : is_normal f =
    negb (exp_ones (float_width (F := F)) (to_bits f)) && negb (exp_field (native_fmt (float_width (F := F))) (to_bits f) =? 0);
  sl_neg (f : F) : to_bits (float_neg f) = with_sign (float_width (F := F)) (negb (sign_bit (float_width (F := F)) (to_bits f))) (to_bits f);
  sl_abs (f : F) : to_bits (float_abs f) = with_sign (float_width (F := F)) false (to_bits f);
  sl_copy_sign (a b : F) : to_bits (copy_sign a b) = with_sign (float_width (F := F)) (sign_bit (float_width (F := F)) (to_bits b)) (to_bits a);
  sl_eq (a b : F) : float_eq a b = negb (is_nan a) && negb (is_nan b) &&
    (order_key (float_width (F := F)) (to_bits a) =? order_key (float_width (F := F)) (to_bits b));
  sl_lt (a b : F) : is_nan a = false -> is_nan b = false ->
    float_lt a b = (order_key (float_width (F := F)) (to_bits a) <? order_key (float_width (F := F)) (to_bits b));
  sl_le (a b : F) : is_nan a = false -> is_nan b = false ->
    float_le a b = (order_key (float_width (F := F)) (to_bits a) <=? order_key (float_width (F := F)) (to_bits b));
  (** [minNum] and [maxNum]: a NaN gives way to the other operand. *)
  sl_min (a b : F) : if is_nan a then float_min a b = b else if is_nan b then float_min a b = a
    else if float_lt a b then float_min a b = a else if float_lt b a then float_min a b = b
    else float_min a b = a \/ float_min a b = b;
  sl_max (a b : F) : if is_nan a then float_max a b = b else if is_nan b then float_max a b = a
    else if float_lt a b then float_max a b = b else if float_lt b a then float_max a b = a
    else float_max a b = a \/ float_max a b = b
}.

(** The bits of the statuses. *)
Class ApStatusLaws `{ApStatus} : Prop := {
  st_ok : STATUS_OK = 0; st_invalid : INVALID_OP = 1; st_div : DIV_BY_ZERO = 2;
  st_overflow : OVERFLOW = 4; st_underflow : UNDERFLOW = 8; st_inexact : INEXACT = 16
}.

(** The flags of a status are those of [fflags]: NV, DZ, OF, UF, NX. *)
Lemma status_to_fflags_spec s : uint 5 s ->
  uint 5 (status_to_fflags s) /\ forall i, 0 <= i < 5 -> Z.testbit (status_to_fflags s) (4 - i) = Z.testbit s i.
Proof.
  intros Hs. assert (forallb (fun s => (0 <=? status_to_fflags s) && (status_to_fflags s <? 32) &&
    forallb (fun i => Bool.eqb (Z.testbit (status_to_fflags s) (4 - i)) (Z.testbit s i)) (seqZ 0 5)) (seqZ 0 32) = true) as Hall by (vm_compute; reflexivity).
  rewrite List.forallb_forall in Hall. specialize (Hall s). rewrite <- list_elem_of_In, elem_of_seqZ in Hall.
  unfold uint in *. assert (0 <= s < 0 + 32) as Hs' by lia. specialize (Hall Hs'). apply andb_true_iff in Hall as [Hr Hb].
  split; [lia|]. intros i Hi. rewrite List.forallb_forall in Hb. apply Bool.eqb_prop, Hb, list_elem_of_In, elem_of_seqZ. lia.
Qed.

Section Laws.
Context {F : Type} `{SoftFloatLaws F}.
Local Notation w := (float_width (F := F)).

Lemma width_bits : BITS w = mant_bits (native_fmt w) + exp_bits (native_fmt w) + 1.
Proof. by destruct sl_width as [-> | ->]. Qed.

(** The classification of the code is that of the bits. *)
Lemma classify_spec (f : F) : classify f = Some (class_of w (to_bits f)).
Proof.
  unfold classify, class_of. rewrite sl_normal, sl_denormal, sl_zero, sl_infinite, sl_nan, sl_signaling, !sl_negative.
  unfold zero_bits, nan_bits. destruct (exp_ones w (to_bits f)) eqn:Eo; cbn [negb andb].
  - assert ((exp_field (native_fmt w) (to_bits f) =? 0) = false) as ->.
    { apply Z.eqb_neq. apply Z.eqb_eq in Eo. rewrite Eo. destruct sl_width as [-> | ->]; cbn; lia. }
    cbn [andb]. destruct (mant_zero w (to_bits f)); cbn [negb andb]; [by destruct (sign_bit _ _)|by destruct (quiet_bit _ _)].
  - destruct (exp_field (native_fmt w) (to_bits f) =? 0); cbn [negb andb]; [|by destruct (sign_bit _ _)].
    destruct (mant_zero w (to_bits f)); cbn [negb andb]; by destruct (sign_bit _ _).
Qed.

Lemma with_sign_twice s t b : with_sign w s (with_sign w t b) = with_sign w s b.
Proof.
  assert (0 <= BITS w - 1) by (destruct sl_width as [-> | ->]; cbn; lia).
  apply Z.bits_inj'. intros i Hi. unfold with_sign. destruct s, t; rewrite ?Z.setbit_eqb, ?Z.clearbit_eqb, ?Z.setbit_eqb, ?Z.clearbit_eqb by lia.
  all: destruct (Z.eqb_spec (BITS w - 1) i); cbn; rewrite ?andb_true_r, ?andb_false_r, ?orb_false_r; try done.
Qed.

Lemma with_sign_same b : with_sign w (sign_bit w b) b = b.
Proof.
  assert (0 <= BITS w - 1) by (destruct sl_width as [-> | ->]; cbn; lia).
  apply Z.bits_inj'. intros i Hi. unfold with_sign, sign_bit. destruct (Z.testbit b (BITS w - 1)) eqn:Eb.
  - rewrite Z.setbit_eqb by lia. destruct (Z.eqb_spec (BITS w - 1) i) as [<-|]; cbn; congruence.
  - rewrite Z.clearbit_eqb. destruct (Z.eqb_spec (BITS w - 1) i) as [<-|]; cbn; rewrite ?andb_true_r, ?andb_false_r; congruence.
Qed.

(** Sign injection. *)
Lemma sign_inject_spec (a b : F) :
  let s1 := sign_bit w (to_bits a) in let s2 := sign_bit w (to_bits b) in
  to_bits (SignInjectOp a b) = with_sign w s2 (to_bits a) /\
  to_bits (SignInjectNegOp a b) = with_sign w (negb s2) (to_bits a) /\
  to_bits (SignInjectXorOp a b) = with_sign w (xorb s1 s2) (to_bits a).
Proof.
  intros s1 s2. unfold SignInjectOp, SignInjectNegOp, SignInjectXorOp. rewrite !sl_negative. fold s1 s2. split_and!.
  - apply sl_copy_sign.
  - destruct s1 eqn:E1, s2 eqn:E2; cbn [Bool.eqb negb]; rewrite ?sl_neg; fold s1; rewrite ?E1; try done; cbn [negb].
    all: rewrite <- (with_sign_same (to_bits a)) at 1; fold s1; by rewrite E1.
  - assert (to_bits (float_neg (float_abs a)) = with_sign w true (to_bits a)) as Hn.
    { rewrite sl_neg, sl_abs. assert (sign_bit w (with_sign w false (to_bits a)) = false) as ->.
      { unfold sign_bit, with_sign. apply Z.clearbit_eq. } cbn [negb]. apply with_sign_twice. }
    destruct s1, s2; cbn [Bool.eqb negb xorb]; rewrite ?Hn, ?sl_abs; done.
Qed.
End Laws.

(** ** Order *)
Section Order.
Context {F : Type} `{SoftFloatLaws F}.
Local Notation w := (float_width (F := F)).

(** The order of minimum and maximum: a negative zero comes before a positive
    one. *)
Definition comes_before (v : UInt) (a b : Z) : bool :=
  (order_key v a <? order_key v b) || ((order_key v a =? order_key v b) && sign_bit v a && negb (sign_bit v b)).
Definition fmin_bits (v : UInt) (a b : Z) : Z :=
  if nan_bits v a then (if nan_bits v b then canonical_nan v else b)
  else if nan_bits v b then a else if comes_before v b a then b else a.
Definition fmax_bits (v : UInt) (a b : Z) : Z :=
  if nan_bits v a then (if nan_bits v b then canonical_nan v else b)
  else if nan_bits v b then a else if comes_before v a b then b else a.

Lemma magnitude_range b : uint (BITS w) b -> 0 <= Z.clearbit b (BITS w - 1).
Proof. intros Hb. rewrite Z.clearbit_spec'. apply Z.ldiff_nonneg. left. unfold uint in Hb. lia. Qed.

(** A number is its sign and its magnitude. *)
Lemma sign_magnitude_inj a b : sign_bit w a = sign_bit w b -> Z.clearbit a (BITS w - 1) = Z.clearbit b (BITS w - 1) -> a = b.
Proof.
  intros Hs Hm. rewrite <- (with_sign_same (F := F) a), <- (with_sign_same (F := F) b), Hs.
  rewrite <- (with_sign_twice (F := F) (sign_bit w b) false a), <- (with_sign_twice (F := F) (sign_bit w b) false b).
  unfold with_sign at 2 4. by rewrite Hm.
Qed.

Lemma zero_magnitude b : uint (BITS w) b -> zero_bits w b = (Z.clearbit b (BITS w - 1) =? 0).
Proof.
  intros Hb. unfold zero_bits, mant_zero, exp_field, mant_field. pose proof (width_bits (F := F)) as Hw.
  set (m := mant_bits (native_fmt w)) in *. set (e := exp_bits (native_fmt w)) in *.
  assert (0 < m /\ 0 < e) as [Hm He] by (unfold m, e; destruct sl_width as [-> | ->]; cbn; lia).
  replace (BITS w - 1) with (m + e) by lia. apply Bool.eq_iff_eq_true. rewrite andb_true_iff, !Z.eqb_eq. split.
  - intros [H1' H2']. apply Z.bits_inj'. intros i Hi. rewrite Z.clearbit_eqb, Z.bits_0. destruct (Z.eqb_spec (m + e) i) as [<-|Hne]; [apply andb_false_r|].
    cbn. rewrite andb_true_r. destruct (Z.lt_ge_cases i m).
    + rewrite <- (Z.mod_pow2_bits_low b m i) by lia. rewrite H2'. apply Z.bits_0.
    + destruct (Z.lt_ge_cases i (m + e)); [|apply (uint_testbit_high (BITS w)); [lia|done|lia]].
      replace i with (i - m + m) by lia. rewrite <- Z.div_pow2_bits by lia. rewrite <- (Z.mod_pow2_bits_low _ e) by lia. rewrite H1'. apply Z.bits_0.
  - intros Hz. assert (forall i, 0 <= i -> i <> m + e -> Z.testbit b i = false) as Hbit.
    { intros i Hi Hne. pose proof (Z.clearbit_neq b (m + e) i ltac:(lia)) as Hc. rewrite Hz, Z.bits_0 in Hc. done. }
    split; apply Z.bits_inj'; intros i Hi; rewrite Z.bits_0.
    + destruct (Z.lt_ge_cases i e); [|by rewrite Z.mod_pow2_bits_high by lia]. rewrite Z.mod_pow2_bits_low, Z.div_pow2_bits by lia. apply Hbit; lia.
    + destruct (Z.lt_ge_cases i m); [|by rewrite Z.mod_pow2_bits_high by lia]. rewrite Z.mod_pow2_bits_low by lia. apply Hbit; lia.
Qed.

(** Equal keys: the same number, or the two zeros. *)
Lemma equal_keys a b : uint (BITS w) a -> uint (BITS w) b -> order_key w a = order_key w b ->
  a = b \/ (zero_bits w a = true /\ zero_bits w b = true /\ sign_bit w a <> sign_bit w b).
Proof.
  intros Ha Hb. rewrite (zero_magnitude a), (zero_magnitude b) by done. unfold order_key. pose proof (magnitude_range a Ha). pose proof (magnitude_range b Hb).
  destruct (sign_bit w a) eqn:Sa, (sign_bit w b) eqn:Sb; intros Hk.
  - left. apply sign_magnitude_inj; [congruence|lia].
  - right. rewrite !Z.eqb_eq. split_and!; [lia|lia|done].
  - right. rewrite !Z.eqb_eq. split_and!; [lia|lia|done].
  - left. apply sign_magnitude_inj; [congruence|lia].
Qed.

Lemma zeros_key a b : uint (BITS w) a -> uint (BITS w) b -> zero_bits w a = true -> zero_bits w b = true -> order_key w a = order_key w b.
Proof.
  intros Ha Hb. rewrite (zero_magnitude a), (zero_magnitude b), !Z.eqb_eq by done. unfold order_key. intros -> ->. by destruct (sign_bit w a), (sign_bit w b).
Qed.

(** What [min_num] and [max_num] choose between two numbers. *)
Definition choice (pick zero_of : F -> F -> F) (a b : F) : F :=
  if is_nan a && is_nan b then qnan
  else if negb (is_signaling a || is_signaling b) && (is_zero a && is_zero b && negb (Bool.eqb (is_negative a) (is_negative b))) then zero_of a b
  else pick a b.

Lemma zero_not_nan (f : F) : is_zero f = true -> is_nan f = false.
Proof.
  rewrite sl_zero, sl_nan. unfold zero_bits, nan_bits. intros [_ ->]%andb_true_iff. apply andb_false_r.
Qed.
Lemma signaling_nan (f : F) : is_signaling f = true -> is_nan f = true.
Proof. rewrite sl_signaling, sl_nan. by intros [-> _]%andb_true_iff. Qed.

Lemma choice_zero pick zero_of (a b : F) : is_zero a = true -> is_zero b = true -> is_negative a <> is_negative b ->
  choice pick zero_of a b = zero_of a b.
Proof.
  intros Za Zb Hs. unfold choice. rewrite (zero_not_nan a Za). cbn [andb].
  destruct (is_signaling a) eqn:Sa; [apply signaling_nan in Sa; rewrite zero_not_nan in Sa; done|].
  destruct (is_signaling b) eqn:Sb; [apply signaling_nan in Sb; rewrite zero_not_nan in Sb; done|]. rewrite Za, Zb. cbn [negb orb andb].
  by destruct (is_negative a), (is_negative b).
Qed.

Lemma choice_pick pick zero_of (a b : F) : is_nan a && is_nan b = false ->
  ~ (is_zero a = true /\ is_zero b = true /\ is_negative a <> is_negative b) -> choice pick zero_of a b = pick a b.
Proof.
  intros Hn Hz. unfold choice. rewrite Hn. destruct (is_zero a), (is_zero b), (is_negative a), (is_negative b); cbn; rewrite ?andb_false_r; try done; exfalso; by apply Hz.
Qed.

Lemma min_choice (a b : F) :
  to_bits (choice float_min (fun a b => if is_negative a then a else b) a b) = fmin_bits w (to_bits a) (to_bits b).
Proof.
  unfold fmin_bits. rewrite <- !sl_nan. destruct (is_nan a && is_nan b) eqn:Enn.
  { unfold choice. rewrite Enn. apply andb_true_iff in Enn as [-> ->]. apply sl_qnan. }
  destruct (decide (is_zero a = true /\ is_zero b = true /\ is_negative a <> is_negative b)) as [(Za & Zb & Hs)|Hz].
  - rewrite choice_zero by done. rewrite (zero_not_nan a Za), (zero_not_nan b Zb). rewrite sl_zero in Za, Zb. rewrite (sl_negative a), (sl_negative b) in Hs. rewrite !sl_negative.
    unfold comes_before. rewrite (zeros_key (to_bits b) (to_bits a)), Z.ltb_irrefl, Z.eqb_refl by (done || apply sl_range).
    destruct (sign_bit w (to_bits a)), (sign_bit w (to_bits b)); done.
  - rewrite choice_pick by done. pose proof (sl_min a b) as Hm. destruct (is_nan a) eqn:Na; cbn [andb] in *.
    { rewrite Enn. by rewrite Hm. }
    destruct (is_nan b) eqn:Nb; [by rewrite Hm|]. rewrite !sl_lt in Hm by done. unfold comes_before.
    destruct (Z.ltb_spec (order_key w (to_bits a)) (order_key w (to_bits b))) as [Hlt|Hge].
    { rewrite Hm, (proj2 (Z.ltb_ge _ _)), (proj2 (Z.eqb_neq _ _)) by lia. done. }
    destruct (Z.ltb_spec (order_key w (to_bits b)) (order_key w (to_bits a))) as [Hlt|Hge']; [by rewrite Hm|].
    destruct (equal_keys (to_bits a) (to_bits b)) as [Heq|(Za & Zb & Hs)]; [apply sl_range..|lia| |].
    + cbn [orb]. rewrite <- Heq. destruct (_ && _ && _); destruct Hm as [-> | ->]; congruence.
    + exfalso. apply Hz. by rewrite !sl_zero, !sl_negative.
Qed.

Lemma max_choice (a b : F) :
  to_bits (choice float_max (fun a b => if is_negative a then b else a) a b) = fmax_bits w (to_bits a) (to_bits b).
Proof.
  unfold fmax_bits. rewrite <- !sl_nan. destruct (is_nan a && is_nan b) eqn:Enn.
  { unfold choice. rewrite Enn. apply andb_true_iff in Enn as [-> ->]. apply sl_qnan. }
  destruct (decide (is_zero a = true /\ is_zero b = true /\ is_negative a <> is_negative b)) as [(Za & Zb & Hs)|Hz].
  - rewrite choice_zero by done. rewrite (zero_not_nan a Za), (zero_not_nan b Zb). rewrite sl_zero in Za, Zb. rewrite (sl_negative a), (sl_negative b) in Hs. rewrite !sl_negative.
    unfold comes_before. rewrite (zeros_key (to_bits a) (to_bits b)), Z.ltb_irrefl, Z.eqb_refl by (done || apply sl_range).
    destruct (sign_bit w (to_bits a)), (sign_bit w (to_bits b)); done.
  - rewrite choice_pick by done. pose proof (sl_max a b) as Hm. destruct (is_nan a) eqn:Na; cbn [andb] in *.
    { rewrite Enn. by rewrite Hm. }
    destruct (is_nan b) eqn:Nb; [by rewrite Hm|]. rewrite !sl_lt in Hm by done. unfold comes_before.
    destruct (Z.ltb_spec (order_key w (to_bits a)) (order_key w (to_bits b))) as [Hlt|Hge]; [by rewrite Hm|].
    destruct (Z.ltb_spec (order_key w (to_bits b)) (order_key w (to_bits a))) as [Hlt|Hge'].
    { rewrite Hm, (proj2 (Z.eqb_neq _ _)) by lia. done. }
    destruct (equal_keys (to_bits a) (to_bits b)) as [Heq|(Za & Zb & Hs)]; [apply sl_range..|lia| |].
    + cbn [orb]. rewrite <- Heq. destruct (_ && _ && _); destruct Hm as [-> | ->]; congruence.
    + exfalso. apply Hz. by rewrite !sl_zero, !sl_negative.
Qed.
End Order.

(** ** Registers *)

(** The two formats of the hart. *)
Class FloatFormats (Single Double : Type) `{SoftFloatLaws Single} `{SoftFloatLaws Double} : Prop := {
  single_width : float_width (F := Single) = U32;
  double_width : float_width (F := Double) = U64
}.

Section Registers.
Context {Single Double : Type} `{FloatFormats Single Double} {E : Type}.
Local Notation FPU := (SoftFPU Single Double).

Lemma box_mask : make_mask 32 63 = 2 ^ 64 - 2 ^ 32.
Proof. vm_compute. reflexivity. Qed.

Lemma lor_box b : uint 32 b -> Z.lor b (make_mask 32 63) = 2 ^ 64 - 2 ^ 32 + b.
Proof.
  intros Hb. rewrite Z.lor_comm, box_mask. apply (lor_add 32); [lia| |done]. exists (2 ^ 32 - 1). lia.
Qed.

Lemma land_box b : u64 b -> (Z.land b (make_mask 32 63) =? make_mask 32 63) = (b / 2 ^ 32 =? 2 ^ 32 - 1).
Proof.
  intros Hb. assert (Z.land b (make_mask 32 63) = b / 2 ^ 32 * 2 ^ 32) as ->.
  { apply Z.bits_inj'. intros i Hi. rewrite Z.land_spec, make_mask_testbit, Z.mul_pow2_bits by lia.
    destruct (Z.leb_spec 32 i); cbn [andb]; [|by rewrite andb_false_r, Z.testbit_neg_r by lia].
    rewrite Z.div_pow2_bits by lia. replace (i - 32 + 32) with i by lia.
    destruct (Z.leb_spec i 63); [by rewrite andb_true_r|]. rewrite andb_false_r. symmetry. apply (uint_testbit_high 64); [lia|done|lia]. }
  rewrite box_mask. destruct (Z.eqb_spec (b / 2 ^ 32) (2 ^ 32 - 1)) as [->|Hne]; [done|]. apply Z.eqb_neq. lia.
Qed.

(** A single in a register is boxed; a register that is not a box reads as the
    canonical NaN. *)
Lemma box_spec (s : Single) : to_bits (Double_from (Double := Double) (APSingle s)) = 2 ^ 64 - 2 ^ 32 + to_bits s.
Proof.
  pose proof (sl_range s) as Hs. rewrite single_width in Hs. cbn [BITS] in Hs. unfold Double_from.
  rewrite (wrap_small 64) by (apply (uint_weaken 32); [lia|done]). rewrite lor_box by done. unfold uint in Hs.
  rewrite sl_from_bits by lia. rewrite double_width. apply wrap_small. unfold uint. cbn [BITS]. lia.
Qed.

Lemma unbox_spec (d : Double) : to_bits (Single_from (Single := Single) (APDouble d)) =
  if to_bits d / 2 ^ 32 =? 2 ^ 32 - 1 then to_bits d mod 2 ^ 32 else canonical_nan U32.
Proof.
  pose proof (sl_range d) as Hd. rewrite double_width in Hd. cbn [BITS] in Hd. unfold Single_from.
  rewrite (wrap_small 64) by done. rewrite land_box by done. destruct (_ =? _); cbn [negb].
  - unfold uint in Hd. rewrite sl_from_bits by lia. by rewrite single_width.
  - by rewrite sl_qnan, single_width.
Qed.

Lemma fpu_reg_run (f : FPU) i v : fpu_regs f !! Z.to_nat i = Some v -> fpu_reg (E := E) i f = (Ok v, f).
Proof. intros Hv. unfold fpu_reg, bind, gets, unwrap, ret. by rewrite Hv. Qed.

Lemma fpu_set_run (f : FPU) i v : 0 <= i < Z.of_nat (length (fpu_regs f)) ->
  fpu_set (E := E) i v f = (Ok tt, set_fpu_regs (<[Z.to_nat i := v]> (fpu_regs f)) f).
Proof. intros Hi. unfold fpu_set, bind, gets. by rewrite (proj2 (Z.leb_gt _ _)) by lia. Qed.

Lemma fpu_set_lookup (f : FPU) i v : 0 <= i < Z.of_nat (length (fpu_regs f)) ->
  fpu_regs (set_fpu_regs (<[Z.to_nat i := v]> (fpu_regs f)) f) !! Z.to_nat i = Some v.
Proof. intros Hi. cbn. apply list_lookup_insert_eq. lia. Qed.

(** C24: Registers are NaN-boxed as the D extension says.  What a load or a move
    puts into a register comes back as it was in its own format; as a 64-bit
    pattern a single has all ones above it; and a double read as a single is
    its low half when its high half is all ones and the canonical NaN
    otherwise. *)
Theorem nan_boxing (f : FPU) (i v : Z) : 0 <= i < Z.of_nat (length (fpu_regs f)) -> u64 v ->
  (exists f1, store_raw (E := E) (F := Single) i v f = (Ok tt, f1) /\
     fpu_load (E := E) (F := Single) i f1 = (Ok (v mod 2 ^ 32), f1) /\ load_raw (E := E) i f1 = (Ok (2 ^ 64 - 2 ^ 32 + v mod 2 ^ 32), f1)) /\
  (exists f2, store_raw (E := E) (F := Double) i v f = (Ok tt, f2) /\
     fpu_load (E := E) (F := Double) i f2 = (Ok v, f2) /\ load_raw (E := E) i f2 = (Ok v, f2) /\
     fpu_load (E := E) (F := Single) i f2 = (Ok (if v / 2 ^ 32 =? 2 ^ 32 - 1 then v mod 2 ^ 32 else 0x7FC00000), f2)).
Proof.
  intros Hi Hv. assert (to_bits (from_bits (F := Double) v) = v) as Hd.
  { unfold u64, uint in Hv. rewrite sl_from_bits, double_width by lia. by apply wrap_small. }
  assert (to_bits (from_bits (F := Single) v) = v mod 2 ^ 32) as Hs.
  { unfold u64, uint in Hv. rewrite sl_from_bits, single_width by lia. done. }
  assert (uint 32 (v mod 2 ^ 32)) as Hlow by (by apply (wrap_range 32)). split.
  - eexists. split; [by apply fpu_set_run|]. unfold fpu_load, load_raw. split.
    + erewrite bind_Ok by (by apply fpu_reg_run, fpu_set_lookup). unfold ret. do 2 f_equal. cbn [of_ap single_of to_ap Single_from].
      rewrite Hs, single_width. by apply wrap_small.
    + erewrite bind_Ok by (by apply fpu_reg_run, fpu_set_lookup). unfold ret. do 2 f_equal. cbn [to_ap single_of].
      rewrite box_spec, Hs. apply wrap_small. unfold uint in *. lia.
  - eexists. split; [by apply fpu_set_run|]. unfold fpu_load, load_raw. split_and!.
    all: erewrite bind_Ok by (by apply fpu_reg_run, fpu_set_lookup); unfold ret; do 2 f_equal; cbn [of_ap double_of single_of to_ap].
    + cbn [Double_from]. rewrite Hd, double_width. by apply wrap_small.
    + cbn [Double_from]. rewrite Hd. by apply wrap_small.
    + rewrite unbox_spec, Hd, single_width. change (canonical_nan U32) with 0x7FC00000.
      apply wrap_small. destruct (_ =? _); [done|]. unfold uint. cbn. lia.
Qed.
End Registers.
