(* ===== verification/FloatInstr.v ===== *)
(** * The instructions of the F and D extensions

    Arithmetic with its rounding mode and canonical NaN, sign injection,
    classification, comparison, minimum and maximum, each against the
    definition of the extension. *)

From S2P Require Import Prelude Utils TrapTypes Alu Ram CsrTable Csr PageTable Mmio Vm Instr Cpu Trap Exec Invariant ExecSpec Float FloatExec FloatSpec.

(** ** Instructions on a hart *)
Lemma fcsr_mask : mask_at Fcsr 0xFF.
Proof. solve_mask_at. Qed.

Lemma fcsr_known : known Fcsr = true /\ reg_index Fcsr = Fcsr.
Proof. vm_compute. done. Qed.

Lemma fflags_range s : uint 5 (status_to_fflags s).
Proof.
  assert (forall k b, 0 <= k <= 4 -> uint 5 (shl 8 (Z.land b 1) k)) as Hbit.
  { intros k b Hk. change 1 with (Z.ones 1). rewrite Z.land_ones by lia. unfold shl. rewrite Z.shiftl_mul_pow2 by lia.
    pose proof (Z.mod_pos_bound b (2 ^ 1) ltac:(lia)) as Hb. pose proof (Z.pow_le_mono_r 2 k 4 ltac:(lia) ltac:(lia)).
    pose proof (Z.pow_pos_nonneg 2 k ltac:(lia) ltac:(lia)). rewrite wrap_small; unfold uint; nia. }
  unfold status_to_fflags.
  assert (forall l acc, Forall (fun i => 0 <= i <= 4) l -> uint 5 acc ->
    uint 5 (foldl (fun rst i => Z.lor rst (shl 8 (Z.land (Z.shiftr s i) 1) (4 - i))) acc l)) as Hf.
  { induction l as [|i l IH]; intros acc Hl Ha; [done|]. inversion Hl; subst. cbn [foldl]. apply IH; [done|].
    apply uint_lor; [lia|done|]. apply Hbit. lia. }
  apply Hf; [|done]. apply list.Forall_forall. intros i Hi%elem_of_seqZ. lia.
Qed.

Section Hart.
Context {Single Double D X : Type} `{ApStatus} `{SoftFloat Single} `{SoftFloat Double} `{DeviceTrait D} `{Profile} `{HasFpu Single Double X} `{ExtOk X}.
Implicit Types (c : RVCPU D X) (f : SoftFPU Single Double).

Definition fp_of c : SoftFPU Single Double := fpu_of (ext c).
Definition set_fp f c : RVCPU D X := put_ext (set_fpu f (ext c)) c.
(** mstatus.FS is not Off. *)
Definition fs_on c : Prop := fget 13 2 (val (csr c) Mstatus) <> 0.
#[global] Instance fs_on_dec c : Decision (fs_on c).
Proof. unfold fs_on. apply _. Defined.

(** The instruction retired: new registers, a new unit, its last status in the
    flags. *)
Definition float_retired (regs : list Z) f c : RVCPU D X :=
  let r := retired regs ((pc c + 4) mod 2 ^ 64) (set_fp f c) in
  set_csr (upd Fcsr (fset 0 5 (val (csr r) Fcsr) (status_to_fflags (last_status f))) (csr r)) r.

Lemma fp_of_set f c : fp_of (set_fp f c) = f.
Proof. apply fpu_of_set. Qed.
Lemma set_fp_of c : set_fp (fp_of c) c = c.
Proof. unfold set_fp, fp_of. rewrite set_fpu_of. by destruct c. Qed.

Lemma on_fpu_run {A} (m : M (SoftFPU Single Double) Exception A) c r f : m (fp_of c) = (r, f) -> on_fpu m c = (r, set_fp f c).
Proof. intros Hm. unfold on_fpu, zoom. fold (fp_of c). by rewrite Hm. Qed.

Lemma get_fs c : csr_wf (csr c) -> on_csr (get_field Mstatus_fs) c = (Ok (fget 13 2 (val (csr c) Mstatus)), c).
Proof.
  intros Hwf. destruct (known_of Mstatus) as [Hk Hi]; [done|]. rewrite <- (set_csr_id c) at 1 3. apply on_csr_run.
  rewrite get_field_run; change (fl_csr Mstatus_fs) with Mstatus; rewrite ?Hi; [done|done|done|]. vm_compute. split_and!; (discriminate || reflexivity).
Qed.

Lemma get_frm c : csr_wf (csr c) -> on_csr (get_field Fcsr_rm) c = (Ok (fget 5 3 (val (csr c) Fcsr)), c).
Proof.
  intros Hwf. destruct fcsr_known as [Hk Hi]. rewrite <- (set_csr_id c) at 1 3. apply on_csr_run.
  rewrite get_field_run; change (fl_csr Fcsr_rm) with Fcsr; rewrite ?Hi; [done|done|done|]. vm_compute. split_and!; (discriminate || reflexivity).
Qed.

Lemma save_fflags_run c : csr_wf (csr c) ->
  save_fflags_to_cpu c = (Ok tt, set_csr (upd Fcsr (fset 0 5 (val (csr c) Fcsr) (status_to_fflags (last_status (fp_of c)))) (csr c)) c).
Proof.
  intros Hwf. destruct fcsr_known as [Hk Hi]. unfold save_fflags_to_cpu.
  erewrite bind_Ok by (apply on_fpu_run; reflexivity). rewrite set_fp_of. rewrite <- (set_csr_id c) at 1. apply on_csr_run.
  rewrite set_field_run; change (fl_csr Fcsr_fflags) with Fcsr; rewrite ?Hi; [done|done|done| | |apply fflags_range].
  - vm_compute. split_and!; (discriminate || reflexivity).
  - apply (writable_of_mask _ 0xFF); [|vm_compute; reflexivity]. change (fl_csr Fcsr_fflags) with Fcsr. rewrite Hi. apply fcsr_mask.
Qed.

(** The unit is switched off. *)
Lemma float_off m c : csr_wf (csr c) -> ~ fs_on c -> normal_float_exec m c = (Err IllegalInstruction, c).
Proof.
  intros Hwf Hoff. unfold normal_float_exec. erewrite bind_Ok by (by apply get_fs). unfold fs_on in Hoff.
  destruct (Z.eqb_spec (fget 13 2 (val (csr c) Mstatus)) 0); [done|tauto].
Qed.

Lemma float_run m c regs f : csr_wf (csr c) -> fs_on c -> counter_ok c -> m c = (Ok tt, set_reg_file regs (set_fp f c)) ->
  normal_float_exec m c = (Ok tt, float_retired regs f c).
Proof.
  intros Hwf Hon Hov Hm. unfold normal_float_exec. erewrite bind_Ok by (by apply get_fs).
  rewrite (proj2 (Z.eqb_neq _ _) Hon). erewrite bind_Ok.
  2:{ unfold normal_exec. erewrite bind_Ok by exact Hm. by apply finish_run. }
  rewrite save_fflags_run; [|cbn; apply upd_wf; [done|by apply wrap_range]].
  assert (fp_of (retired regs ((pc (set_fp f c) + 4) mod 2 ^ 64) (set_fp f c)) = f) as -> by apply fpu_of_set. done.
Qed.

(** ** Rounding modes *)

(** The rounding modes of the extension; the other encodings are reserved. *)
Definition rounding_mode (m : Z) : option Round :=
  match m with
  | 0 => Some NearestTiesToEven | 1 => Some TowardZero | 2 => Some TowardNegative | 3 => Some TowardPositive
  | 4 => Some NearestTiesToAway | _ => None
  end.
(** The mode of an instruction: its own field, or [fcsr.frm] when that is
    dynamic. *)
Definition frm_of c : Z := fget 5 3 (val (csr c) Fcsr).
Definition round_of (rm : Z) c : option Round := rounding_mode (if rm =? 7 then frm_of c else rm).

Lemma rm_static depth rm r c : rounding_mode rm = Some r -> rm_to_round_rec (S depth) rm c = (Ok r, c).
Proof. intros Hr. destruct rm as [|[[[]|[]|]|[[]|[]|]|]|]; try discriminate Hr; by injection Hr as <-. Qed.

Lemma frm_range c : 0 <= frm_of c < 8.
Proof. apply (fget_range 5 3). lia. Qed.

Lemma rm_to_round_run rm r c : csr_wf (csr c) -> round_of rm c = Some r -> rm_to_round rm c = (Ok r, c).
Proof.
  intros Hwf Hr. unfold rm_to_round, round_of in *. destruct (Z.eqb_spec rm 7) as [->|Hne]; [|by apply rm_static].
  cbn [rm_to_round_rec]. erewrite bind_Ok by (by apply get_frm). fold (frm_of c). pose proof (frm_range c).
  rewrite wrap_small by (unfold uint; lia). by apply (rm_static 0).
Qed.

(** A dynamic mode in [fcsr.frm] sends the lookup into an endless recursion. *)
Theorem dynamic_frm_never_returns depth c : csr_wf (csr c) -> frm_of c = 7 -> fst (rm_to_round_rec depth 7 c) = Panic.
Proof.
  intros Hwf Hf. revert c Hwf Hf. induction depth as [|depth IH]; intros c Hwf Hf; [done|].
  cbn [rm_to_round_rec]. erewrite bind_Ok by (by apply get_frm). fold (frm_of c). rewrite Hf. by apply IH.
Qed.

(** ** The registers the instructions name *)
Definition fregs_ok c : Prop := length (fpu_regs (fp_of c)) = 32%nat.
Definition freg_of c (r : Z) : APFloat Single Double := default (APSingle (from_bits 0)) (fpu_regs (fp_of c) !! Z.to_nat r).
Definition set_freg (rd : Z) (v : APFloat Single Double) f : SoftFPU Single Double := set_fpu_regs (<[Z.to_nat rd := v]> (fpu_regs f)) f.

Lemma freg_run {E} c r s : fregs_ok c -> reg_ok r -> fpu_reg (E := E) r (set_last_status s (fp_of c)) = (Ok (freg_of c r), set_last_status s (fp_of c)).
Proof.
  intros Hl Hr. unfold fregs_ok, reg_ok in *. destruct (lookup_lt_is_Some_2 (fpu_regs (fp_of c)) (Z.to_nat r)) as [v Hv]; [lia|].
  unfold freg_of. rewrite Hv. by apply fpu_reg_run.
Qed.
Lemma freg_run0 {E} c r : fregs_ok c -> reg_ok r -> fpu_reg (E := E) r (fp_of c) = (Ok (freg_of c r), fp_of c).
Proof.
  intros Hl Hr. unfold fregs_ok, reg_ok in *. destruct (lookup_lt_is_Some_2 (fpu_regs (fp_of c)) (Z.to_nat r)) as [v Hv]; [lia|].
  unfold freg_of. rewrite Hv. by apply fpu_reg_run.
Qed.

Lemma set_freg_run {E} c r s v : fregs_ok c -> reg_ok r ->
  fpu_set (E := E) r v (set_last_status s (fp_of c)) = (Ok tt, set_freg r v (set_last_status s (fp_of c))).
Proof. intros Hl Hr. unfold fregs_ok, reg_ok in *. apply fpu_set_run. cbn. lia. Qed.
Lemma set_freg_run0 {E} c r v : fregs_ok c -> reg_ok r -> fpu_set (E := E) r v (fp_of c) = (Ok tt, set_freg r v (fp_of c)).
Proof. intros Hl Hr. unfold fregs_ok, reg_ok in *. apply fpu_set_run. lia. Qed.
End Hart.


Section Instr.
Context {Single Double D X : Type} `{ApStatus} `{FloatFormats Single Double} `{DeviceTrait D} `{Profile} `{HasFpu Single Double X} `{ExtOk X}
  `{FloatConvert Single Double} `{FloatConvert Double Single}.
Implicit Types (c : RVCPU D X) (f : SoftFPU Single Double).

(** A hart that can run floating-point instructions. *)
Record float_ready c : Prop := {
  fr_wf : cpu_wf c;
  fr_regs : fregs_ok (Single := Single) (Double := Double) c;
  fr_on : fs_on c;
  fr_counter : counter_ok c
}.

Section Format.
Context {F : Type} `{SoftFloat F} `{APFloatOf Single Double F}.

(** A register in the format [F]. *)
Definition view c (r : Z) : F := of_ap (freg_of c r).

Lemma arith_rm_run (Op : F -> F -> Round -> StatusAnd F) rs1 rs2 rd rm r c :
  float_ready c -> reg_ok rs1 -> reg_ok rs2 -> reg_ok rd -> round_of rm c = Some r ->
  let st := Op (view c rs1) (view c rs2) r in
  exec_float_arith_rm F Op (IR_rm rs1 rs2 rd rm) c =
    (Ok tt, float_retired (reg_file c) (set_freg rd (to_ap (unify (unify_cnan (fp_of c)) (value st))) (set_last_status (status st) (fp_of c))) c).
Proof.
  intros [Hwf Hl Hon Hov] H1' H2' Hd Hrm st. apply float_run; [apply Hwf|done|done|].
  erewrite bind_Ok by (apply rm_to_round_run; [apply Hwf|done]). erewrite on_fpu_run; [reflexivity|].
  unfold exec_binary_r. erewrite bind_Ok by (by apply freg_run0). erewrite bind_Ok by (by apply freg_run0).
  erewrite bind_Ok by reflexivity. erewrite bind_Ok by reflexivity. by apply set_freg_run.
Qed.

Lemma arith_r4_run (Op : F -> F -> F -> Round -> StatusAnd F) rs1 rs2 rs3 rd rm r c :
  float_ready c -> reg_ok rs1 -> reg_ok rs2 -> reg_ok rs3 -> reg_ok rd -> round_of rm c = Some r ->
  let st := Op (view c rs1) (view c rs2) (view c rs3) r in
  exec_float_arith_r4_rm F Op (IR4_rm rs1 rs2 rs3 rd rm) c =
    (Ok tt, float_retired (reg_file c) (set_freg rd (to_ap (unify (unify_cnan (fp_of c)) (value st))) (set_last_status (status st) (fp_of c))) c).
Proof.
  intros [Hwf Hl Hon Hov] H1' H2' H3' Hd Hrm st. apply float_run; [apply Hwf|done|done|].
  erewrite bind_Ok by (apply rm_to_round_run; [apply Hwf|done]). erewrite on_fpu_run; [reflexivity|].
  unfold exec_ternary_r. do 3 (erewrite bind_Ok by (by apply freg_run0)).
  erewrite bind_Ok by reflexivity. erewrite bind_Ok by reflexivity. by apply set_freg_run.
Qed.

Lemma arith_run (Op : F -> F -> F) rs1 rs2 rd c : float_ready c -> reg_ok rs1 -> reg_ok rs2 -> reg_ok rd ->
  exec_float_arith F Op (IR rs1 rs2 rd) c =
    (Ok tt, float_retired (reg_file c) (set_freg rd (to_ap (Op (view c rs1) (view c rs2))) (fp_of c)) c).
Proof.
  intros [Hwf Hl Hon Hov] H1' H2' Hd. apply float_run; [apply Hwf|done|done|].
  erewrite on_fpu_run; [reflexivity|]. unfold exec_binary_ignore_cnan.
  do 2 (erewrite bind_Ok by (by apply freg_run0)). by apply set_freg_run0.
Qed.

Lemma compare_run (Op : F -> F -> StatusAnd bool) rs1 rs2 rd c : float_ready c -> reg_ok rs1 -> reg_ok rs2 -> reg_ok rd ->
  let st := Op (view c rs1) (view c rs2) in
  exec_float_compare F Op (IR rs1 rs2 rd) c =
    (Ok tt, float_retired (write_reg rd (if value st then 1 else 0) (reg_file c)) (set_last_status (status st) (fp_of c)) c).
Proof.
  intros [Hwf Hl Hon Hov] H1' H2' Hd st. apply float_run; [apply Hwf|done|done|].
  erewrite bind_Ok.
  2:{ apply on_fpu_run. unfold compare. do 2 (erewrite bind_Ok by (by apply freg_run0)). reflexivity. }
  rewrite reg_write_run by (apply Hwf || done). done.
Qed.

Lemma classify_run `{!SoftFloatLaws F} rs1 rs2 rd c : float_ready c -> reg_ok rs1 -> reg_ok rd ->
  exec_float_classify F (IR rs1 rs2 rd) c =
    (Ok tt, float_retired (write_reg rd (classification_nr (class_of (float_width (F := F)) (to_bits (view c rs1)))) (reg_file c)) (fp_of c) c).
Proof.
  intros [Hwf Hl Hon Hov] H1' Hd. apply float_run; [apply Hwf|done|done|].
  erewrite bind_Ok.
  2:{ apply on_fpu_run. unfold fpu_classify. erewrite bind_Ok by (by apply freg_run0). fold (view c rs1). rewrite classify_spec. reflexivity. }
  rewrite reg_write_run by (apply Hwf || done). done.
Qed.

Lemma min_max_run `{!SoftFloatLaws F} pick zero_of rs1 rs2 rd c : float_ready c -> reg_ok rs1 -> reg_ok rs2 -> reg_ok rd ->
  unify_cnan (fp_of c) = true ->
  let a := view c rs1 in let b := view c rs2 in
  min_max_num (E := Exception) pick zero_of rs1 rs2 rd (fp_of c) =
    (Ok tt, set_freg rd (to_ap (choice pick zero_of a b))
      (set_last_status (if is_signaling a || is_signaling b then INVALID_OP else STATUS_OK) (fp_of c))).
Proof.
  intros [Hwf Hl Hon Hov] H1' H2' Hd Hu a b. unfold min_max_num. do 2 (erewrite bind_Ok by (by apply freg_run0)).
  erewrite bind_Ok by reflexivity. rewrite Hu. fold (view c rs1) (view c rs2). fold a b. cbn [andb]. unfold choice.
  destruct (is_signaling a || is_signaling b); erewrite bind_Ok by reflexivity; cbn [negb andb].
  - destruct (is_nan a && is_nan b); by apply set_freg_run.
  - destruct (is_nan a && is_nan b); [by apply set_freg_run|].
    destruct (is_zero a && is_zero b && negb (Bool.eqb (is_negative a) (is_negative b))); by apply set_freg_run.
Qed.
End Format.

(** ** Arithmetic *)

(** The operations of the extension, by instruction: in single or in double
    precision. *)
Definition binary_op (i : FInstr) : option ((Single -> Single -> Round -> StatusAnd Single) + (Double -> Double -> Round -> StatusAnd Double)) :=
  match i with
  | FADD_S => Some (inl add_r) | FSUB_S => Some (inl sub_r) | FMUL_S => Some (inl mul_r) | FDIV_S => Some (inl div_r)
  | FADD_D => Some (inr add_r) | FSUB_D => Some (inr sub_r) | FMUL_D => Some (inr mul_r) | FDIV_D => Some (inr div_r)
  | _ => None
  end.
(** [x y + z], [x y - z], [-x y + z] and [-x y - z], with one rounding. *)
Definition fused {F} `{SoftFloat F} (neg_product neg_addend : bool) (a b c : F) (r : Round) : StatusAnd F :=
  mul_add_r (if neg_product then float_neg a else a) b (if neg_addend then float_neg c else c) r.
Definition ternary_op (i : FInstr)
  : option ((Single -> Single -> Single -> Round -> StatusAnd Single) + (Double -> Double -> Double -> Round -> StatusAnd Double)) :=
  match i with
  | FMADD_S => Some (inl (fused false false)) | FMSUB_S => Some (inl (fused false true))
  | FNMSUB_S => Some (inl (fused true false)) | FNMADD_S => Some (inl (fused true true))
  | FMADD_D => Some (inr (fused false false)) | FMSUB_D => Some (inr (fused false true))
  | FNMSUB_D => Some (inr (fused true false)) | FNMADD_D => Some (inr (fused true true))
  | _ => None
  end.

(** The result in [rd], a NaN replaced by the canonical one, and the status. *)
Definition arith_done {F} `{SoftFloat F} `{APFloatOf Single Double F} (rd : Z) (st : StatusAnd F) c : RVCPU D X :=
  float_retired (reg_file c) (set_freg rd (to_ap (if is_nan (value st) then qnan else value st)) (set_last_status (status st) (fp_of c))) c.

(** C21: Floating-point arithmetic is that of the extension.  Additions,
    subtractions, multiplications, divisions and the four fused operations, in
    single and double precision, apply the library's correctly rounded
    operation to the registers as their format sees them, in the rounding mode
    of the instruction or, when that is dynamic, of fcsr; a NaN result is the
    canonical NaN (the FPU is in the mode a hart creates it in, [unify_cnan]);
    the flags of this operation replace those in fflags and the
    instruction retires.  This holds for the rounding modes the extension
    defines (0 to 4, or dynamic with such a mode in frm); of the reserved modes,
    for which the code rounds to nearest even or recurses without end, nothing
    is claimed.  With mstatus.FS off the instruction is illegal and nothing
    changes. *)
Theorem float_arith_correct i rs1 rs2 rs3 rd rm r c :
  float_ready c -> unify_cnan (fp_of (Single := Single) (Double := Double) c) = true ->
  reg_ok rs1 -> reg_ok rs2 -> reg_ok rs3 -> reg_ok rd -> round_of rm c = Some r ->
  match binary_op i with
  | Some (inl op) => float_exec_func i (IR_rm rs1 rs2 rd rm) c = (Ok tt, arith_done rd (op (view c rs1) (view c rs2) r) c)
  | Some (inr op) => float_exec_func i (IR_rm rs1 rs2 rd rm) c = (Ok tt, arith_done rd (op (view c rs1) (view c rs2) r) c)
  | None => True
  end /\
  match ternary_op i with
  | Some (inl op) => float_exec_func i (IR4_rm rs1 rs2 rs3 rd rm) c = (Ok tt, arith_done rd (op (view c rs1) (view c rs2) (view c rs3) r) c)
  | Some (inr op) => float_exec_func i (IR4_rm rs1 rs2 rs3 rd rm) c = (Ok tt, arith_done rd (op (view c rs1) (view c rs2) (view c rs3) r) c)
  | None => True
  end /\
  (forall info c', csr_wf (csr c') -> ~ fs_on c' -> float_exec_func i info c' = (Err IllegalInstruction, c')).
Proof.
  intros Hc Hu H1' H2' H3' Hd Hrm. split_and!.
  - destruct i; cbn [binary_op]; try done; (etrans; [by eapply arith_rm_run|]); by rewrite Hu.
  - destruct i; cbn [ternary_op]; try done; (etrans; [by eapply arith_r4_run|]); by rewrite Hu.
  - intros info c' Hwf Hoff. destruct i; by apply float_off.
Qed.

(** ** Sign, class and order *)
Definition sign_op (i : FInstr) : option (bool * (bool -> bool -> bool)) :=
  match i with
  | FSGNJ_S => Some (false, fun _ s2 => s2) | FSGNJN_S => Some (false, fun _ s2 => negb s2) | FSGNJX_S => Some (false, xorb)
  | FSGNJ_D => Some (true, fun _ s2 => s2) | FSGNJN_D => Some (true, fun _ s2 => negb s2) | FSGNJX_D => Some (true, xorb)
  | _ => None
  end.

(** [v] is left in [rd], whose bits in the format are [b]. *)
Definition moved {F} `{SoftFloat F} `{APFloatOf Single Double F} (rd b : Z) (st : Z) c c' : Prop :=
  exists v : F, to_bits v = b /\ c' = float_retired (reg_file c) (set_freg rd (to_ap v) (set_last_status st (fp_of c))) c.

(** C22: Sign injection, minimum and maximum work on the bits as the extension
    says.  FSGNJ, FSGNJN and FSGNJX keep all of the first operand but its sign,
    NaN payloads included.  FMIN and FMAX choose one of the operands unchanged,
    with a negative zero below a positive one and a NaN giving way to the other
    operand; of two NaNs the result is the canonical NaN, and a signaling NaN
    raises the invalid flag. *)
Theorem float_select_correct i rs1 rs2 rd c :
  float_ready c -> unify_cnan (fp_of (Single := Single) (Double := Double) c) = true -> reg_ok rs1 -> reg_ok rs2 -> reg_ok rd ->
  let s1 : Single := view c rs1 in let s2 : Single := view c rs2 in
  let d1 : Double := view c rs1 in let d2 : Double := view c rs2 in
  let nv (b : bool) := if b then INVALID_OP else STATUS_OK in
  exists c', (sign_op i <> None \/ i ∈ [FMIN_S; FMAX_S; FMIN_D; FMAX_D] -> float_exec_func i (IR rs1 rs2 rd) c = (Ok tt, c')) /\
  match sign_op i with
  | Some (false, g) => moved (F := Single) rd (with_sign U32 (g (sign_bit U32 (to_bits s1)) (sign_bit U32 (to_bits s2))) (to_bits s1)) (last_status (fp_of c)) c c'
  | Some (true, g) => moved (F := Double) rd (with_sign U64 (g (sign_bit U64 (to_bits d1)) (sign_bit U64 (to_bits d2))) (to_bits d1)) (last_status (fp_of c)) c c'
  | None => True
  end /\
  match i with
  | FMIN_S => moved (F := Single) rd (fmin_bits U32 (to_bits s1) (to_bits s2)) (nv (is_signaling s1 || is_signaling s2)) c c'
  | FMAX_S => moved (F := Single) rd (fmax_bits U32 (to_bits s1) (to_bits s2)) (nv (is_signaling s1 || is_signaling s2)) c c'
  | FMIN_D => moved (F := Double) rd (fmin_bits U64 (to_bits d1) (to_bits d2)) (nv (is_signaling d1 || is_signaling d2)) c c'
  | FMAX_D => moved (F := Double) rd (fmax_bits U64 (to_bits d1) (to_bits d2)) (nv (is_signaling d1 || is_signaling d2)) c c'
  | _ => True
  end.
Proof.
  intros Hc Hu H1' H2' Hd s1 s2 d1 d2 nv.
  pose proof (sign_inject_spec s1 s2) as (A1 & A2 & A3). pose proof (sign_inject_spec d1 d2) as (B1 & B2 & B3).
  rewrite !single_width in A1, A2, A3. rewrite !double_width in B1, B2, B3.
  pose proof (min_choice s1 s2) as M1. pose proof (max_choice s1 s2) as M2. pose proof (min_choice d1 d2) as M3. pose proof (max_choice d1 d2) as M4.
  rewrite single_width in M1, M2. rewrite double_width in M3, M4.
  assert (forall v, set_freg rd v (fp_of c) = set_freg rd v (set_last_status (last_status (fp_of c)) (fp_of c))) as Hst by by destruct (fp_of c).
  destruct i; cbn [sign_op].
  all: try (eexists; split; [intros _; by apply arith_run|]; rewrite Hst; split; [by eexists|done]).
  all: try (eexists; split; [intros _; unfold float_exec_func, exec_float_min, exec_float_max, min_num, max_num; apply float_run;
    [apply (fr_wf c Hc)|apply Hc|apply Hc|]; erewrite on_fpu_run; [reflexivity|by apply min_max_run]|]; split; [done|by eexists]).
  all: exists c; split; [intros [?|Hin]; [done|]; exfalso; revert Hin; rewrite !elem_of_cons, elem_of_nil; naive_solver|by split].
Qed.

Inductive CmpKind : Type := CmpEq | CmpLt | CmpLe.
(** Comparison of two patterns of width [w]: the result and the invalid flag.
    FEQ is quiet, FLT and FLE signal every NaN. *)
Definition fcmp_bits (w : UInt) (k : CmpKind) (a b : Z) : bool * bool :=
  let unordered := nan_bits w a || nan_bits w b in
  let x := order_key w a in
  let y := order_key w b in
  match k with
  | CmpEq => (negb unordered && (x =? y), (nan_bits w a && negb (quiet_bit w a)) || (nan_bits w b && negb (quiet_bit w b)))
  | CmpLt => (negb unordered && (x <? y), unordered)
  | CmpLe => (negb unordered && (x <=? y), unordered)
  end.
Definition cmp_op (i : FInstr) : option (bool * CmpKind) :=
  match i with
  | FEQ_S => Some (false, CmpEq) | FLT_S => Some (false, CmpLt) | FLE_S => Some (false, CmpLe)
  | FEQ_D => Some (true, CmpEq) | FLT_D => Some (true, CmpLt) | FLE_D => Some (true, CmpLe)
  | _ => None
  end.

Definition compared (rd : Z) (r : bool * bool) c : RVCPU D X :=
  float_retired (write_reg rd (if fst r then 1 else 0) (reg_file c)) (set_last_status (if snd r then INVALID_OP else STATUS_OK) (fp_of c)) c.

Lemma eq_op_spec {F} `{SoftFloatLaws F} (a b : F) :
  EqOp a b = let r := fcmp_bits (float_width (F := F)) CmpEq (to_bits a) (to_bits b) in Build_StatusAnd (if snd r then INVALID_OP else STATUS_OK) (fst r).
Proof.
  unfold EqOp. cbn [fcmp_bits fst snd]. rewrite sl_eq, !sl_signaling, !sl_nan. rewrite negb_orb.
  destruct (nan_bits _ (to_bits a)), (nan_bits _ (to_bits b)), (quiet_bit _ (to_bits a)), (quiet_bit _ (to_bits b)); done.
Qed.
Lemma lt_op_spec {F} `{SoftFloatLaws F} (a b : F) :
  LtOp a b = let r := fcmp_bits (float_width (F := F)) CmpLt (to_bits a) (to_bits b) in Build_StatusAnd (if snd r then INVALID_OP else STATUS_OK) (fst r).
Proof.
  unfold LtOp. cbn [fcmp_bits fst snd]. rewrite <- !sl_nan. destruct (is_nan a) eqn:Na; [done|]. destruct (is_nan b) eqn:Nb; [done|]. by rewrite sl_lt.
Qed.
Lemma le_op_spec {F} `{SoftFloatLaws F} (a b : F) :
  LeOp a b = let r := fcmp_bits (float_width (F := F)) CmpLe (to_bits a) (to_bits b) in Build_StatusAnd (if snd r then INVALID_OP else STATUS_OK) (fst r).
Proof.
  unfold LeOp. cbn [fcmp_bits fst snd]. rewrite <- !sl_nan. destruct (is_nan a) eqn:Na; [done|]. destruct (is_nan b) eqn:Nb; [done|]. by rewrite sl_le.
Qed.

(** C23: Comparison and classification write what the extension defines on the
    bits of their operands.  FEQ, FLT and FLE order the numbers by sign and
    magnitude, the two zeros equal, give 0 when an operand is a NaN, and raise
    the invalid flag for a signaling NaN, FLT and FLE for any NaN; FCLASS sets
    the one bit of the class the operand is in. *)
Theorem float_compare_correct i rs1 rs2 rd c : float_ready c -> reg_ok rs1 -> reg_ok rs2 -> reg_ok rd ->
  let s r := to_bits (view (F := Single) c r) in let d r := to_bits (view (F := Double) c r) in
  match cmp_op i with
  | Some (false, k) => float_exec_func i (IR rs1 rs2 rd) c = (Ok tt, compared rd (fcmp_bits U32 k (s rs1) (s rs2)) c)
  | Some (true, k) => float_exec_func i (IR rs1 rs2 rd) c = (Ok tt, compared rd (fcmp_bits U64 k (d rs1) (d rs2)) c)
  | None => True
  end /\
  float_exec_func FCLASS_S (IR rs1 rs2 rd) c = (Ok tt, float_retired (write_reg rd (classification_nr (class_of U32 (s rs1))) (reg_file c)) (fp_of c) c) /\
  float_exec_func FCLASS_D (IR rs1 rs2 rd) c = (Ok tt, float_retired (write_reg rd (classification_nr (class_of U64 (d rs1))) (reg_file c)) (fp_of c) c).
Proof.
  intros Hc H1' H2' Hd s d. split_and!.
  - destruct i; cbn [cmp_op]; try done; cbn [float_exec_func]; rewrite compare_run by done; cbv zeta.
    all: rewrite ?eq_op_spec, ?lt_op_spec, ?le_op_spec, ?single_width, ?double_width; done.
  - cbn [float_exec_func]. rewrite classify_run by done. by rewrite single_width.
  - cbn [float_exec_func]. rewrite classify_run by done. by rewrite double_width.
Qed.
End Instr.
