(* ===== verification/FloatUnit.v ===== *)
(** * The floating-point unit keeps its promises to the hart

    [LawfulExt] and [SettlingExt] for the floating-point unit: every
    floating-point instruction keeps the invariant of the hart, one that raises
    an exception has not moved the program counter, and no trap value is left
    behind. *)

From S2P Require Import Prelude Utils TrapTypes Alu Ram CsrTable Csr PageTable Mmio Vm Instr Cpu Trap Exec Invariant Precise ExecutorSpec Float FloatExec FloatSpec.

Create HintDb flaw.

(** The other units of the hart do not depend on the floating-point unit. *)
Class FpuPart (Single Double X : Type) `{HasFpu Single Double X} `{ExtOk X} : Prop := {
  ext_set_fpu : forall f x, ext_ok x -> ext_ok (set_fpu f x)
}.

Section Unit.
Context {Single Double D X : Type} `{ApStatus} `{FloatFormats Single Double} `{DeviceTrait D} `{Profile} `{FpuPart Single Double X}
  `{FloatConvert Single Double} `{FloatConvert Double Single}.
Abbreviation CPU := (RVCPU D X).
Implicit Types c : CPU.

(** Code that leaves the program counter alone. *)
Definition pc_still {A} (m : M CPU Exception A) : Prop := forall c r c', m c = (r, c') -> r <> Panic -> pc c' = pc c.
Abbreviation fkeeps m := (triple (cpu_wf (D := D) (X := X)) m (fun _ => True)).

(** What the body of an instruction satisfies, and what the instruction does. *)
Record fbody (m : M CPU Exception unit) : Prop := { fb_keeps : fkeeps m; fb_settles : settles m; fb_pc : pc_still m }.
Record flawful (m : M CPU Exception unit) : Prop := {
  fl_keeps : fkeeps m;
  fl_settles : settles m;
  fl_err_pc : forall c e c', m c = (Err e, c') -> pc c' = pc c
}.

(** ** The pieces *)
Lemma still_bind_pc {A B} (m : M CPU Exception A) (k : A -> M CPU Exception B) : pc_still m -> (forall a, pc_still (k a)) -> pc_still (bind m k).
Proof.
  intros Hm Hk c r c'. unfold bind. destruct (m c) as [[a|e|] c1] eqn:E.
  - intros Ek Hr. rewrite (Hk a _ _ _ Ek Hr). by eapply Hm.
  - intros [= <- <-] _. by eapply Hm.
  - by intros [= <- <-].
Qed.
Lemma silent_pc {A} (m : M CPU Exception A) : silent m -> pc_still m.
Proof. intros Hm c r c' E Hr. by destruct (Hm c r c' E Hr) as (_ & ? & _). Qed.
Lemma zoom_pc {S A} (get : CPU -> S) put (m : M S Exception A) : (forall c s, pc (put c s) = pc c) -> pc_still (zoom get put m).
Proof. intros Hp c r c'. unfold zoom. destruct (m (get c)). intros [= <- <-] _. apply Hp. Qed.
Lemma reads_pc {A} (m : M CPU Exception A) : reads m -> pc_still m.
Proof. intros Hm c r c' E _. specialize (Hm c). rewrite E in Hm. cbn in Hm. by subst. Qed.
Lemma reg_write_pc rd v : pc_still (reg_write rd v).
Proof. intros c r c' E _. pose proof (still_reg_write (D := D) (X := X) rd v c) as [Hp _]. by rewrite E in Hp. Qed.

Lemma keeps_fpu {A} (m : M (SoftFPU Single Double) Exception A) Q : triple (fun _ => True) m Q -> triple (cpu_wf (D := D) (X := X)) (on_fpu m) Q.
Proof.
  intros Hm. eapply triple_zoom; [exact Hm|done|]. intros c f [R P S M I T Hx] _. constructor; try done. cbn. by apply ext_set_fpu.
Qed.
Lemma any_fpu {A} (m : M (SoftFPU Single Double) Exception A) : triple (fun _ => True) m (fun _ => True).
Proof. intros f _. by destruct (m f) as [[]]. Qed.
Lemma quiet_fpu {A} (m : M (SoftFPU Single Double) Exception A) : quiet (on_fpu (D := D) (X := X) m).
Proof. intros c. unfold on_fpu, zoom. by destruct (m _). Qed.

Lemma load_raw_range i : triple (fun _ => True) (load_raw (Single := Single) (Double := Double) (E := Exception) i) (fun v => u64 v).
Proof.
  unfold load_raw. eapply triple_bind with (Q := fun _ => True); [apply any_fpu|]. intros v _. apply triple_ret. by apply (wrap_range 64).
Qed.

Lemma rm_reads depth rm : reads (rm_to_round_rec (D := D) (X := X) depth rm).
Proof.
  revert rm. induction depth as [|depth IH]; intros rm; cbn [rm_to_round_rec]; [apply reads_panic|].
  repeat case_match; try apply reads_ret; subst. apply reads_bind; [apply on_csr_reads, get_field_reads|intros; apply IH].
Qed.
Lemma reg_read_reads a b : reads (reg_read (D := D) (X := X) a b).
Proof. unfold reg_read. solve_reads. Qed.

Lemma save_fflags_facts : fkeeps save_fflags_to_cpu /\ quiet (save_fflags_to_cpu (D := D) (X := X)) /\ pc_still save_fflags_to_cpu.
Proof.
  unfold save_fflags_to_cpu. split_and!.
  - eapply triple_bind; [apply keeps_fpu, any_fpu|]. intros st _. apply wp_on_csr, set_field_triple.
  - apply quiet_bind; [apply quiet_fpu|]. intros st. apply quiet_on_csr.
  - apply still_bind_pc; [by apply zoom_pc|]. intros st. by apply zoom_pc.
Qed.

Lemma no_err_save_fflags : no_err (save_fflags_to_cpu (D := D) (X := X)).
Proof.
  unfold save_fflags_to_cpu. apply no_err_bind; [apply no_err_zoom, no_err_gets|]. intros st. apply no_err_on_csr. unfold set_field, update_existing. solve_no_err.
Qed.

(** [normal_float_exec] and the plain wrappers around a body. *)
Lemma flawful_exec n (m : M CPU Exception unit) : fbody m -> flawful (m ;;; pc_add n ;;; retire).
Proof.
  intros [Hk Hs Hp]. split.
  - eapply triple_bind; [exact Hk|]. intros _ _. eapply triple_bind; [apply wp_pc_add|]. intros _ _. apply wp_retire.
  - apply settles_bind; [done|]. intros _. apply quiet_settles. repeat quiet_step.
  - intros c e c'. unfold bind at 1. destruct (m c) as [[a|x|] c1] eqn:E; [|intros [= <- <-]; by eapply Hp|done].
    intros E2. exfalso. eapply (no_err_bind (pc_add n) (fun _ => retire)); [apply no_err_pc_add|intros; apply no_err_retire|exact E2].
Qed.

Lemma flawful_checked (m : M CPU Exception unit) : flawful m ->
  flawful (fs <- on_csr (get_field Mstatus_fs) ;; if fs =? 0 then err IllegalInstruction else m ;;; save_fflags_to_cpu).
Proof.
  intros [Hk Hs Hp]. destruct save_fflags_facts as (Fk & Fq & _).
  assert (pc_still (on_csr (get_field Mstatus_fs))) as Hfs by by apply zoom_pc. split.
  - eapply triple_bind; [apply wp_csr_reads, get_field_reads|]. intros fs _. triple_step; [apply triple_err|]. eapply triple_bind; [exact Hk|]. intros _ _. exact Fk.
  - apply settles_bind; [apply quiet_settles, quiet_on_csr|]. intros fs. destruct (fs =? 0); [by apply quiet_settles|].
    apply settles_bind; [done|]. intros _. by apply quiet_settles.
  - intros c e c'. unfold bind at 1. destruct (on_csr (get_field Mstatus_fs) c) as [[fs|x|] c1] eqn:E1; [|intros [= <- <-]; by eapply Hfs|done].
    specialize (Hfs _ _ _ E1 ltac:(done)). destruct (fs =? 0); [by intros [= <- <-]|]. unfold bind at 1.
    destruct (m c1) as [[a|x|] c2] eqn:E2; [by intros ?%no_err_save_fflags| |done]. intros [= <- <-]. rewrite <- Hfs. by eapply Hp.
Qed.

(** ** The instructions *)
Lemma addr_u64 a b : u64 (wrapping_add_as_signed a b).
Proof. unfold wrapping_add_as_signed. by apply (wrap_range 64). Qed.

Ltac fkeep :=
  match goal with
  | |- triple _ (bind (on_fpu (load_raw _)) _) _ => eapply triple_bind; [apply keeps_fpu, load_raw_range|intros ? ?]
  | |- triple _ (bind (on_fpu _) _) _ => eapply triple_bind; [apply keeps_fpu, any_fpu|intros ? _]
  | |- triple _ (bind (rm_to_round _) _) _ => eapply triple_bind; [apply reads_triple, rm_reads|intros ? _]
  | |- triple _ (bind (reg_read _ _) _) _ => eapply triple_bind; [apply reads_triple, reg_read_reads|intros ? _]
  | |- triple _ (bind (mem_read _ _) _) _ => eapply triple_bind; [apply wp_mem_read, addr_u64|intros ? ?]
  | |- triple _ (on_fpu _) _ => apply keeps_fpu, any_fpu
  | |- triple _ (mem_write _ _ _) _ => apply wp_mem_write, addr_u64
  | |- triple _ panic _ => apply triple_panic
  | |- triple _ (reg_write _ _) _ => apply wp_reg_write
  end.
Ltac fsettle :=
  match goal with
  | |- settles (bind _ _) => apply settles_bind; [|intros ?]
  | |- settles (mem_read _ _) => apply settles_mem
  | |- settles (mem_write _ _ _) => apply settles_mem
  | |- settles (on_fpu _) => apply quiet_settles, quiet_fpu
  | |- settles (rm_to_round _) => apply quiet_settles, quiet_reads, rm_reads
  | |- settles _ => apply quiet_settles; repeat quiet_step
  end.
Ltac fpc :=
  match goal with
  | |- pc_still (bind _ _) => apply still_bind_pc; [|intros ?]
  | |- pc_still (mem_read _ _) => apply silent_pc, silent_mem_read
  | |- pc_still (mem_write _ _ _) => apply silent_pc, silent_mem_write
  | |- pc_still (on_fpu _) => by apply zoom_pc
  | |- pc_still (rm_to_round _) => apply reads_pc, rm_reads
  | |- pc_still (reg_read _ _) => apply reads_pc, reg_read_reads
  | |- pc_still (reg_write _ _) => apply reg_write_pc
  | |- pc_still panic => by intros ? ? ? [= <- <-]
  end.
Ltac fbodies := split; [repeat fkeep|repeat fsettle|repeat fpc].

Section Format.
Context (F : Type) `{SoftFloat F} `{APFloatOf Single Double F}.

Lemma law_float_load info : info_wf info -> flawful (exec_float_load F info).
Proof. intros Hi. apply flawful_checked, (flawful_exec 4). destruct info; unfold handle_float_load; fbodies. Qed.
Lemma law_float_store info : info_wf info -> flawful (exec_float_store F info).
Proof. intros Hi. apply flawful_checked, (flawful_exec 4). destruct info; unfold handle_float_store; fbodies. Qed.
Lemma law_arith_r4_rm Op info : info_wf info -> flawful (exec_float_arith_r4_rm F Op info).
Proof. intros Hi. apply flawful_checked, (flawful_exec 4). destruct info; fbodies. Qed.
Lemma law_arith_rm Op info : info_wf info -> flawful (exec_float_arith_rm F Op info).
Proof. intros Hi. apply flawful_checked, (flawful_exec 4). destruct info; fbodies. Qed.
Lemma law_arith Op info : info_wf info -> flawful (exec_float_arith F Op info).
Proof. intros Hi. apply flawful_checked, (flawful_exec 4). destruct info; fbodies. Qed.
Lemma law_sqrt info : info_wf info -> flawful (exec_sqrt F info).
Proof. intros Hi. apply flawful_checked, (flawful_exec 4). destruct info; fbodies. Qed.

Lemma sext_u64 U v : u64 (sign_extend_to_wordtype U (truncate_from U v)).
Proof.
  assert (0 <= BITS U <= 64) by (by destruct U).
  assert (u64 (truncate_from U v)) as Hv by (apply (uint_weaken (BITS U)); [lia|]; apply wrap_range; lia).
  destruct U; [done|done| |done]. cbn [sign_extend_to_wordtype]. unfold sign_extend_u32. apply sign_extend_range. lia.
Qed.

Ltac fregs := repeat match goal with H : _ /\ _ |- _ => destruct H end; unfold reg_ok in *; lia.

Lemma law_cvt_u_from_f U info : info_wf info -> flawful (exec_cvt_u_from_f F U info).
Proof. intros Hi. apply flawful_checked, (flawful_exec 4). destruct info; cbn [info_wf] in Hi; fbodies; [fregs|apply sext_u64]. Qed.
Lemma law_cvt_i_from_f U info : info_wf info -> flawful (exec_cvt_i_from_f F U info).
Proof. intros Hi. apply flawful_checked, (flawful_exec 4). destruct info; cbn [info_wf] in Hi; fbodies; [fregs|apply sext_u64]. Qed.
Lemma law_cvt_f_from_u bits info : info_wf info -> flawful (exec_cvt_f_from_u F bits info).
Proof. intros Hi. apply flawful_checked, (flawful_exec 4). destruct info; fbodies. Qed.
Lemma law_cvt_f_from_i bits info : info_wf info -> flawful (exec_cvt_f_from_i F bits info).
Proof. intros Hi. apply flawful_checked, (flawful_exec 4). destruct info; fbodies. Qed.
Lemma law_cvt_float T `{SoftFloat T} `{APFloatOf Single Double T} `{FloatConvert F T} info : info_wf info -> flawful (exec_cvt_float F T info).
Proof. intros Hi. apply flawful_checked, (flawful_exec 4). destruct info; fbodies. Qed.
Lemma law_compare Op info : info_wf info -> flawful (exec_float_compare F Op info).
Proof. intros Hi. apply flawful_checked, (flawful_exec 4). destruct info; cbn [info_wf] in Hi; fbodies; [fregs|]. case_match; unfold u64, uint; lia. Qed.
Lemma law_classify info : info_wf info -> flawful (exec_float_classify F info).
Proof.
  intros Hi. apply flawful_checked, (flawful_exec 4). destruct info; cbn [info_wf] in Hi; fbodies; [fregs|].
  match goal with |- u64 (classification_nr ?c) => destruct c end; unfold u64, uint; cbn; lia.
Qed.
Lemma law_mv_f_from_x info : info_wf info -> flawful (exec_mv_f_from_x F info).
Proof. intros Hi. apply flawful_checked, (flawful_exec 4). destruct info; fbodies. Qed.
Lemma law_min info : info_wf info -> flawful (exec_float_min F info).
Proof. intros Hi. apply flawful_checked, (flawful_exec 4). destruct info; fbodies. Qed.
Lemma law_max info : info_wf info -> flawful (exec_float_max F info).
Proof. intros Hi. apply flawful_checked, (flawful_exec 4). destruct info; fbodies. Qed.
Lemma law_c_store_sp info : info_wf info -> flawful (exec_compress_float_store_sp F info).
Proof. intros Hi. apply (flawful_exec 2). destruct info; unfold handle_float_store; fbodies. Qed.
Lemma law_c_store info : info_wf info -> flawful (exec_compress_float_store F info).
Proof. intros Hi. apply (flawful_exec 2). destruct info; unfold handle_float_store; fbodies. Qed.
Lemma law_c_load_sp info : info_wf info -> flawful (exec_compress_float_load_sp F info).
Proof. intros Hi. apply flawful_checked, (flawful_exec 2). destruct info; unfold handle_float_load; fbodies. Qed.
Lemma law_c_load info : info_wf info -> flawful (exec_compress_float_load F info).
Proof. intros Hi. apply flawful_checked, (flawful_exec 2). destruct info; unfold handle_float_load; fbodies. Qed.
End Format.

Lemma law_mv_x_from_f extend info : info_wf info -> flawful (exec_mv_x_from_f extend info).
Proof.
  intros Hi. apply flawful_checked, (flawful_exec 4). destruct info; cbn [info_wf] in Hi; fbodies; [destruct Hi as (_ & _ & Hd); unfold reg_ok in Hd; lia|].
  destruct extend; [|done]. apply sign_extend_range. lia.
Qed.
Hint Resolve law_float_load law_float_store law_arith_r4_rm law_arith_rm law_arith law_sqrt law_cvt_u_from_f law_cvt_i_from_f
  law_cvt_f_from_u law_cvt_f_from_i law_cvt_float law_compare law_classify law_mv_f_from_x law_min law_max law_c_store_sp law_c_store
  law_c_load_sp law_c_load law_mv_x_from_f : flaw.

Lemma float_exec_lawful i info : info_wf info -> flawful (float_exec_func i info).
Proof. intros Hi. destruct i; cbn [float_exec_func]; auto with flaw. Qed.

Lemma compress_float_lawful i exec info : compress_float_func i = Some exec -> info_wf info -> flawful (exec info).
Proof. intros He Hi. destruct i; try discriminate He; injection He as <-; auto with flaw. Qed.
End Unit.

(** ** The promises *)
Section Promise.
Context {Single Double D X : Type} `{ApStatus} `{FloatFormats Single Double} `{DeviceTrait D} `{Profile} `{FpuPart Single Double X}
  `{FloatConvert Single Double} `{FloatConvert Double Single}.

(** Every floating-point instruction, compressed ones included, whatever its
    operands and its outcome, keeps the invariant of the hart: integer
    registers of 64 bits with [x0] zero, well-formed CSRs, RAM made of bytes and
    the other units in order.  When it raises an exception the program counter
    is still on the instruction, and a trap value is pending only then, and not
    for an illegal instruction. *)
Theorem float_instructions_keep_hart i info (exec : RVInstrInfo -> M (RVCPU D X) Exception unit) (c c' : RVCPU D X) r :
  (exists f, exec = float_exec_func f) \/ compress_float_func i = Some exec ->
  info_wf info -> cpu_wf c -> exec info c = (r, c') -> r <> Panic ->
  cpu_wf c' /\ (forall e, r = Err e -> pc c' = pc c) /\
  (pending_tval c = None -> r = Ok tt \/ r = Err IllegalInstruction -> pending_tval c' = None).
Proof.
  intros Hx Hi Hc E Hr. assert (flawful (exec info)) as [Hk Hs Hp].
  { destruct Hx as [[f ->]|Hx]; [by apply float_exec_lawful|by eapply compress_float_lawful]. }
  split_and!.
  - by eapply triple_run.
  - intros e ->. by eapply Hp.
  - intros Hn Hres. specialize (Hs c Hn). rewrite E in Hs. destruct Hres as [-> | ->]; [done|by apply Hs].
Qed.

Context (float_instr : RiscvInstr -> option FInstr) (rest : ExtUnit D X).
Local Notation unit_ := (float_unit (Single := Single) (Double := Double) float_instr rest).

Lemma float_unit_cases i : (exists exec, exec_ext (ExtUnit := unit_) i = exec /\ forall info, info_wf info -> flawful (exec info)) \/
  exec_ext (ExtUnit := unit_) i = exec_ext (ExtUnit := rest) i.
Proof.
  cbn [exec_ext float_unit]. destruct (compress_float_func i) as [exec|] eqn:Ec.
  - left. exists exec. split; [done|]. intros info Hi. by eapply compress_float_lawful.
  - destruct (float_instr i) as [f|]; [|by right]. left. eexists. split; [done|]. intros info Hi. by apply float_exec_lawful.
Qed.

(** With lawful other units, the units of the hart are lawful. *)
Lemma float_unit_lawful : LawfulExt D X (H := rest) -> LawfulExt D X (H := unit_).
Proof.
  intros [Hk He]. split.
  - intros i info Hi. destruct (float_unit_cases i) as [(exec & -> & Hl)| ->]; [by apply Hl|by apply Hk].
  - intros i info c c' e Hi. destruct (float_unit_cases i) as [(exec & -> & Hl)| ->]; [by apply Hl|by apply He].
Qed.

Lemma float_unit_settles (Hl : LawfulExt D X (H := rest)) : SettlingExt D X (H := rest) ->
  SettlingExt D X (H := unit_) (H1 := float_unit_lawful Hl).
Proof.
  intros Hs i info Hi. destruct (float_unit_cases i) as [(exec & -> & Hx)| ->]; [by apply Hx|by apply Hs].
Qed.
End Promise.
