(* ===== verification/FloatDemo.v ===== *)
(** * A model of the floating-point library

    The library [rustc_apfloat] is a parameter of the floating-point unit.  Here
    is a concrete instance that satisfies the laws asked of it: numbers as their
    bits, arithmetic by the reference operations of IEEE 754 with rounding to
    nearest even.  The theorems on the unit are applied to it. *)

From Stdlib Require Import SpecFloat.
From S2P Require Import Prelude Utils TrapTypes Alu Ram CsrTable Csr PageTable Mmio Vm Instr Cpu Trap Exec Invariant Precise ExecSpec ExecutorSpec Float FloatExec FloatSpec FloatInstr FloatUnit.

#[export] Instance demo_status : ApStatus :=
  {| STATUS_OK := 0; INVALID_OP := 1; DIV_BY_ZERO := 2; OVERFLOW := 4; UNDERFLOW := 8; INEXACT := 16 |}.

(** A number of width [w]. *)
Record DemoFloat (w : UInt) : Type := { demo_bits : Z }.
Arguments Build_DemoFloat {w} _.
Arguments demo_bits {w} _.

Section Demo.
Context (w : UInt).
Local Notation fm := (native_fmt w).
Local Notation DF := (DemoFloat w).

Definition dbits (f : DF) : Z := wrap (BITS w) (demo_bits f).
Definition dnum (f : DF) : spec_float := nf_of_bits fm (dbits f).
Definition dof (x : spec_float) : DF := Build_DemoFloat (nf_to_bits fm x).
Definition dnan (f : DF) : bool := nan_bits w (dbits f).
Definition dkey (f : DF) : Z := order_key w (dbits f).

(** A result with the flag of a residual that is not zero. *)
Definition dres (x residual : spec_float) : StatusAnd DF :=
  Build_StatusAnd (if SFeqb residual (S754_zero false) then STATUS_OK else match residual with S754_nan => STATUS_OK | _ => INEXACT end) (dof x).
Local Notation padd := (SFadd (nf_prec fm) (nf_emax fm)).
Local Notation psub := (SFsub (nf_prec fm) (nf_emax fm)).
Local Notation pmul := (SFmul (nf_prec fm) (nf_emax fm)).
Local Notation pdiv := (SFdiv (nf_prec fm) (nf_emax fm)).
(** The value of a finite number, rounded towards zero and clamped. *)
Definition dtrunc (lo hi : Z) (x : spec_float) : Z :=
  match x with
  | S754_finite s m e => Z.max lo (Z.min hi (Z.quot (signed_mant s m * 2 ^ Z.max e 0) (2 ^ Z.max (- e) 0)))
  | S754_infinity s => if s then lo else hi
  | _ => 0
  end.

#[export] Instance demo_float : SoftFloat DF := {|
  float_width := w;
  from_bits b := Build_DemoFloat b;
  to_bits := dbits;
  qnan := Build_DemoFloat (canonical_nan w);
  is_nan := dnan;
  is_signaling f := dnan f && negb (quiet_bit w (dbits f));
  is_negative f := sign_bit w (dbits f);
  is_zero f := zero_bits w (dbits f);
  is_infinite f := exp_ones w (dbits f) && mant_zero w (dbits f);
  is_denormal f := (exp_field fm (dbits f) =? 0) && negb (mant_zero w (dbits f));
  is_normal f := negb (exp_ones w (dbits f)) && negb (exp_field fm (dbits f) =? 0);
  float_neg f := Build_DemoFloat (with_sign w (negb (sign_bit w (dbits f))) (dbits f));
  float_abs f := Build_DemoFloat (with_sign w false (dbits f));
  copy_sign a b := Build_DemoFloat (with_sign w (sign_bit w (dbits b)) (dbits a));
  float_eq a b := negb (dnan a) && negb (dnan b) && (dkey a =? dkey b);
  float_lt a b := negb (dnan a) && negb (dnan b) && (dkey a <? dkey b);
  float_le a b := negb (dnan a) && negb (dnan b) && (dkey a <=? dkey b);
  float_min a b := if dnan a then b else if dnan b then a else if dkey b <? dkey a then b else a;
  float_max a b := if dnan a then b else if dnan b then a else if dkey a <? dkey b then b else a;
  add_r a b _ := let r := padd (dnum a) (dnum b) in dres r (padd (psub (psub r (dnum a)) (dnum b)) (psub (psub r (dnum b)) (dnum a)));
  sub_r a b _ := let r := psub (dnum a) (dnum b) in dres r (psub (padd r (dnum b)) (dnum a));
  mul_r a b _ := let r := pmul (dnum a) (dnum b) in dres r (fma fm (dnum a) (dnum b) (SFopp r));
  div_r a b _ := let r := pdiv (dnum a) (dnum b) in dres r (fma fm r (dnum b) (SFopp (dnum a)));
  mul_add_r a b c _ := Build_StatusAnd STATUS_OK (dof (fma fm (dnum a) (dnum b) (dnum c)));
  from_u128_r v _ := Build_StatusAnd STATUS_OK (dof (binary_normalize (nf_prec fm) (nf_emax fm) v 0 false));
  from_i128_r v _ := Build_StatusAnd STATUS_OK (dof (binary_normalize (nf_prec fm) (nf_emax fm) v 0 false));
  to_u128_r f n _ := Build_StatusAnd STATUS_OK (dtrunc 0 (2 ^ n - 1) (dnum f));
  to_i128_r f n _ := Build_StatusAnd STATUS_OK (dtrunc (- 2 ^ (n - 1)) (2 ^ (n - 1) - 1) (dnum f))
|}.

Lemma with_sign_uint s b : w = U32 \/ w = U64 -> uint (BITS w) b -> uint (BITS w) (with_sign w s b).
Proof.
  intros Hw Hb. assert (0 < BITS w) by (by destruct Hw as [-> | ->]). unfold with_sign. destruct s.
  - rewrite Z.setbit_spec'. apply uint_lor; [lia|done|]. unfold uint. split; [apply Z.pow_nonneg; lia|apply Z.pow_lt_mono_r; lia].
  - rewrite Z.clearbit_spec'. apply uint_of_bits; [lia|apply Z.ldiff_nonneg; left; apply Hb|].
    intros i Hi. rewrite Z.ldiff_spec, (uint_testbit_high (BITS w)) by (done || lia). done.
Qed.

Lemma demo_laws : w = U32 \/ w = U64 -> SoftFloatLaws DF.
Proof.
  intros Hw. assert (0 <= BITS w) by (by destruct Hw as [-> | ->]). assert (forall f : DF, uint (BITS w) (dbits f)) as Hr by (intros f; by apply wrap_range).
  split; cbn [float_width to_bits from_bits qnan is_nan is_signaling is_negative is_zero is_infinite is_denormal is_normal
    float_neg float_abs copy_sign float_eq float_lt float_le float_min float_max demo_float]; try done.
  - unfold dbits. cbn [demo_bits]. clear Hr. destruct Hw as [-> | ->]; vm_compute; done.
  - intros f. unfold dbits at 1. cbn [demo_bits]. by apply wrap_small, with_sign_uint.
  - intros f. unfold dbits at 1. cbn [demo_bits]. by apply wrap_small, with_sign_uint.
  - intros a b. unfold dbits at 1. cbn [demo_bits]. by apply wrap_small, with_sign_uint.
  - intros a b -> ->. done.
  - intros a b -> ->. done.
  - intros a b. destruct (dnan a) eqn:Na; [done|]. destruct (dnan b) eqn:Nb; [done|]. cbn [negb andb].
    destruct (Z.ltb_spec (dkey a) (dkey b)); [by rewrite (proj2 (Z.ltb_ge _ _)) by lia|]. destruct (_ <? _); auto.
  - intros a b. destruct (dnan a) eqn:Na; [done|]. destruct (dnan b) eqn:Nb; [done|]. cbn [negb andb].
    destruct (Z.ltb_spec (dkey a) (dkey b)); [done|]. destruct (_ <? _); auto.
Qed.
End Demo.

Abbreviation DemoS := (DemoFloat U32).
Abbreviation DemoD := (DemoFloat U64).
#[export] Instance demo_single : SoftFloatLaws DemoS.
Proof. apply demo_laws. by left. Qed.
#[export] Instance demo_double : SoftFloatLaws DemoD.
Proof. apply demo_laws. by right. Qed.
#[export] Instance demo_formats : FloatFormats DemoS DemoD.
Proof. by split. Qed.

(** Widening and narrowing. *)
Definition demo_convert (v w : UInt) (f : DemoFloat v) : DemoFloat w :=
  dof w match dnum v f with
        | S754_finite s m e => binary_normalize (nf_prec (native_fmt w)) (nf_emax (native_fmt w)) (signed_mant s m) e false
        | x => x
        end.
#[export] Instance demo_cvt v w : FloatConvert (DemoFloat v) (DemoFloat w) :=
  {| convert_r f _ := Build_StatusAnd STATUS_OK (demo_convert v w f) |}.

(** ** A hart with this unit *)
Abbreviation DemoFpu := (SoftFPU DemoS DemoD).
#[export] Instance fpu_only : HasFpu DemoS DemoD DemoFpu := {|
  fpu_of := id; set_fpu f _ := f;
  fpu_of_set _ _ := eq_refl; set_fpu_of _ := eq_refl; set_fpu_set _ _ _ := eq_refl |}.
#[export] Instance fpu_only_ok : ExtOk DemoFpu := fun _ => True.
#[export] Instance fpu_only_part : FpuPart DemoS DemoD DemoFpu.
Proof. by split. Qed.

(** [f0] to [f31], the first of them given; FS is Initial. *)
Definition demo_fpu (st : Z) (regs : list (APFloat DemoS DemoD)) : DemoFpu :=
  Build_SoftFPU st (regs ++ replicate (32 - length regs) (APSingle (from_bits 0))) true.
Definition demo_float_hart (f : DemoFpu) (csrs : list (Z * Z)) : RVCPU Z DemoFpu :=
  let c := demo_cpu (demo_regs 0x80005000 (2 ^ 64 - 2) 9) 0x80000000 (demo_csr LvM ((Mstatus, 0x2000) :: csrs)) in
  Build_RVCPU (reg_file c) (pc c) (memory c) (csr c) (icache c) (icache_epoch c) f (time_addr c) (pending_tval c).

Lemma demo_float_wf f csrs : Forall (fun p => u64 (snd p)) csrs -> cpu_wf (demo_float_hart f csrs).
Proof.
  intros Hcsr. destruct (demo_cpu_wf (demo_regs 0x80005000 (2 ^ 64 - 2) 9) 0x80000000 (demo_csr LvM ((Mstatus, 0x2000) :: csrs)))
    as [Hr Hp Hs Hm Hi Ht _]; [apply demo_regs_ok; solve_u64|solve_u64|apply demo_csr_wf; constructor; [cbn; solve_u64|done]|].
  by constructor.
Qed.

Definition sgl (b : Z) : APFloat DemoS DemoD := APSingle (from_bits b).
Definition dbl (b : Z) : APFloat DemoS DemoD := APDouble (from_bits b).
(** The 64 bits of a register. *)
Definition fbits (c : RVCPU Z DemoFpu) (r : Z) : Z := to_bits (Double_from (freg_of (X := DemoFpu) c r)).

(** 1.0, 2.0, a signaling NaN, -0.0 and 0.0 in single precision; -3.0 and 0.5 in
    double precision. *)
Definition demo_numbers : DemoFpu :=
  demo_fpu 0 [sgl 0x3F800000; sgl 0x40000000; sgl 0x7FA00001; sgl 0x80000000; sgl 0; dbl 0xC008000000000000; dbl 0x3FE0000000000000].
Definition demo_fhart : RVCPU Z DemoFpu := demo_float_hart demo_numbers [].

Lemma demo_fhart_ready : let P := dev in float_ready (Single := DemoS) (Double := DemoD) demo_fhart.
Proof. intros P. split; [apply demo_float_wf; constructor|done|vm_compute; discriminate|vm_compute; done]. Qed.


(** A double whose high half is not all ones, in a register that held a single. *)
Lemma nan_boxing_witness : exists f2 : DemoFpu,
  store_raw (E := Exception) (F := DemoD) 4 0x7FF00000DEADBEEF demo_numbers = (Ok tt, f2) /\
  load_raw (E := Exception) 4 f2 = (Ok 0x7FF00000DEADBEEF, f2) /\
  fpu_load (E := Exception) (F := DemoS) 4 f2 = (Ok 0x7FC00000, f2).
Proof.
  destruct (nan_boxing (Single := DemoS) (Double := DemoD) (E := Exception) demo_numbers 4 0x7FF00000DEADBEEF) as [_ (f2 & H1 & _ & H2 & H3)].
  - vm_compute. split; [discriminate|reflexivity].
  - vm_compute. split; [discriminate|reflexivity].
  - exists f2. split_and!; [exact H1|exact H2|exact H3].
Defined.

(** fmadd.s f7, f1, f1, f0 in the dynamic mode, frm being toward zero: 2 * 2 + 1. *)
Lemma float_arith_correct_witness :
  let D := demo_device in let P := dev in
  let c := demo_float_hart demo_numbers [(Fcsr, 0x20)] in
  exists c', float_exec_func FMADD_S (IR4_rm 1 1 0 7 7) c = (Ok tt, c') /\ round_of 7 c = Some TowardZero /\ fbits c' 7 = 0xFFFFFFFF40A00000.
Proof.
  intros D P c. destruct (float_arith_correct (Single := DemoS) (Double := DemoD) FMADD_S 1 1 0 7 7 TowardZero c) as (_ & Hr & _).
  - split; [apply demo_float_wf; constructor; [cbn; solve_u64|constructor]|done|vm_compute; discriminate|vm_compute; done].
  - reflexivity.
  - split; reflexivity || discriminate.
  - split; reflexivity || discriminate.
  - split; reflexivity || discriminate.
  - split; reflexivity || discriminate.
  - vm_compute. reflexivity.
  - eexists. split; [exact Hr|]. split; vm_compute; reflexivity.
Defined.

(** fmin.s of the two zeros. *)
Lemma float_select_correct_witness :
  let D := demo_device in let P := dev in
  exists c', float_exec_func FMIN_S (IR 4 3 9) demo_fhart = (Ok tt, c') /\
    moved (F := DemoS) 9 0x80000000 0 demo_fhart c' /\ fbits c' 9 = 0xFFFFFFFF80000000.
Proof.
  intros D P. destruct (float_select_correct (Single := DemoS) (Double := DemoD) FMIN_S 4 3 9 demo_fhart) as (c' & Hr & _ & Hm).
  - apply demo_fhart_ready.
  - reflexivity.
  - split; reflexivity || discriminate.
  - split; reflexivity || discriminate.
  - split; reflexivity || discriminate.
  - assert (float_exec_func FMIN_S (IR 4 3 9) demo_fhart = (Ok tt, c')) as Hrun by (apply Hr; right; rewrite elem_of_cons; by left).
    exists c'. split; [exact Hrun|]. split; [exact Hm|].
    assert (c' = snd (float_exec_func FMIN_S (IR 4 3 9) demo_fhart)) as -> by (by rewrite Hrun). vm_compute. reflexivity.
Defined.

(** flt.s of 1.0 and a signaling NaN, whose class is 0x100. *)
Lemma float_compare_correct_witness :
  let D := demo_device in let P := dev in
  (exists c', float_exec_func FLT_S (IR 0 2 10) demo_fhart = (Ok tt, c') /\ reg_file c' !!! 10%nat = 0 /\ val (csr c') Fcsr = 0x10) /\
  (exists c', float_exec_func FCLASS_S (IR 2 0 10) demo_fhart = (Ok tt, c') /\ reg_file c' !!! 10%nat = 0x100).
Proof.
  intros D P. split.
  - destruct (float_compare_correct (Single := DemoS) (Double := DemoD) FLT_S 0 2 10 demo_fhart) as (Hr & _).
    + apply demo_fhart_ready.
    + split; reflexivity || discriminate.
    + split; reflexivity || discriminate.
    + split; reflexivity || discriminate.
    + eexists. split; [exact Hr|]. split; vm_compute; reflexivity.
  - destruct (float_compare_correct (Single := DemoS) (Double := DemoD) FLT_S 2 0 10 demo_fhart) as (_ & Hr & _).
    + apply demo_fhart_ready.
    + split; reflexivity || discriminate.
    + split; reflexivity || discriminate.
    + split; reflexivity || discriminate.
    + eexists. split; [exact Hr|]. vm_compute. reflexivity.
Defined.

(** fdiv.s of 1.0 by 2.0. *)
Lemma float_instructions_keep_hart_witness :
  let D := demo_device in let P := dev in
  exists c', float_exec_func FDIV_S (IR_rm 0 1 8 0) demo_fhart = (Ok tt, c') /\ cpu_wf c' /\ fbits c' 8 = 0xFFFFFFFF3F000000.
Proof.
  intros D P. eexists. split; [vm_compute; reflexivity|]. split; [|vm_compute; reflexivity].
  refine (proj1 (float_instructions_keep_hart (Single := DemoS) (Double := DemoD) C_NOP (IR_rm 0 1 8 0) (float_exec_func FDIV_S) demo_fhart _ (Ok tt) _ _ _ _ _)).
  - left. by exists FDIV_S.
  - repeat split; discriminate.
  - apply demo_fhart_ready.
  - vm_compute. reflexivity.
  - discriminate.
Defined.

(** ** What the flags and conversions of the code do *)

(** fdiv.s of 1.0 by 3.0 is inexact; the exact fadd.s after it clears the flag
    instead of accruing. *)
Example flags_are_overwritten :
  let D := demo_device in let P := dev in
  let c := demo_float_hart (demo_fpu 0 [sgl 0x3F800000; sgl 0x40400000]) [] in
  let c1 := snd (float_exec_func FDIV_S (IR_rm 0 1 2 0) c) in
  let c2 := snd (float_exec_func FADD_S (IR_rm 0 0 3 0) c1) in
  val (csr c1) Fcsr = 1 /\ val (csr c2) Fcsr = 0.
Proof. vm_compute. done. Qed.

(** fcvt.w.s of a NaN leaves the status of the instruction before it. *)
Example nan_to_integer_keeps_status :
  let D := demo_device in let P := dev in
  let c := demo_float_hart (demo_fpu 0 [sgl 0x7FC00000]) [] in
  let c1 := snd (float_exec_func FCVT_W_S (IR_rm 0 0 10 1) c) in
  reg_file c1 !! 10%nat = Some 0x7FFFFFFF /\ val (csr c1) Fcsr = 0.
Proof. vm_compute. done. Qed.

(** fcvt.d.w converts all 64 bits of its operand: [x1] is 0x80005000 as a
    positive number, not the 32-bit number below zero. *)
Example word_to_double_uses_all_bits :
  let D := demo_device in let P := dev in
  let c := demo_float_hart (demo_fpu 0 []) [] in
  fbits (snd (float_exec_func FCVT_D_W (IR_rm 1 0 4 0) c)) 4 = fbits (snd (float_exec_func FCVT_D_L (IR_rm 1 0 4 0) c)) 4 /\
  fbits (snd (float_exec_func FCVT_D_W (IR_rm 1 0 4 0) c)) 4 = 0x41E0000A00000000.
Proof. vm_compute. done. Qed.

(** With FS off c.fsd still stores, and fsd is illegal. *)
Example compressed_store_ignores_fs :
  let D := demo_device in let P := dev in
  let c0 := demo_float_hart demo_numbers [] in
  let c := set_csr (upd Mstatus 0 (csr c0)) c0 in
  fst (exec_compress_float_store (Single := DemoS) (Double := DemoD) DemoD (ICS 1 5 0) c) = Ok tt /\
  fst (float_exec_func FSD (IS 1 5 0) c) = Err IllegalInstruction.
Proof. vm_compute. done. Qed.

(** The root of the least subnormal single is not representable, but its
    residual underflows to zero, so fsqrt.s does not raise the inexact flag as it
    does for 2.0. *)
Example tiny_root_seems_exact :
  let D := demo_device in let P := dev in
  let flags b := val (csr (snd (float_exec_func FSQRT_S (IR_rm 0 0 2 0) (demo_float_hart (demo_fpu 0 [sgl b]) [])))) Fcsr in
  flags 1 = 0 /\ flags 0x40000000 = 1.
Proof. vm_compute. done. Qed.
