(* ===== verification/FullHart.v ===== *)
(** * The hart with all its units

    A hart has a vector unit and a floating-point unit beside the integer core.
    With the units of the two extensions the dispatch of exec_mapping.rs is
    complete, and what [ExecutorSpec] proves from the promises of the units holds
    of the hart as it is. *)

From S2P Require Import Prelude Utils TrapTypes Alu Ram CsrTable Csr PageTable Mmio Vm Instr Cpu Trap Exec Invariant Precise ExecSpec Decoder DecoderTable Executor ExecutorSpec HartSpec Vector VectorExec VectorMap VectorSpec VectorHart VectorUnit Float FloatExec FloatSpec FloatInstr FloatUnit FloatDemo.

Section Full.
Context {Single Double D : Type} `{ApStatus} `{FloatFormats Single Double} `{DeviceTrait D} `{Profile}
  `{FloatConvert Single Double} `{FloatConvert Double Single}.

(** The fields [vector] and [fpu] of the hart. *)
Definition Units : Type := Vector * SoftFPU Single Double.

#[export] Instance units_vector : HasVector Units := {|
  vector_of := fst; set_vector v x := (v, snd x);
  vector_of_set _ _ := eq_refl; set_vector_of x := eq_sym (surjective_pairing x); set_vector_set _ _ _ := eq_refl |}.
#[export] Instance units_fpu : HasFpu Single Double Units := {|
  fpu_of := snd; set_fpu f x := (fst x, f);
  fpu_of_set _ _ := eq_refl; set_fpu_of x := eq_sym (surjective_pairing x); set_fpu_set _ _ _ := eq_refl |}.
#[export] Instance units_part : FpuPart Single Double Units.
Proof. split. intros f x Hx. exact Hx. Qed.

(** Which instruction of the two extensions the build calls [OtherInstr id]. *)
Context (name : Z -> FInstr + VInstr).

(** The arms of the two extensions; no other instruction is left. *)
Definition no_unit : ExtUnit D Units := {| exec_ext _ _ := panic |}.
Definition vector_name (i : RiscvInstr) : option VInstr :=
  match i with OtherInstr id => match name id with inr v => Some v | inl _ => None end | _ => None end.
Definition float_name (i : RiscvInstr) : option FInstr :=
  match i with OtherInstr id => match name id with inl f => Some f | inr _ => None end | _ => None end.
Definition full_unit : ExtUnit D Units :=
  float_unit (Single := Single) (Double := Double) float_name (vector_unit vector_name no_unit).

Lemma no_unit_lawful : LawfulExt D Units (H := no_unit).
Proof. split; [intros i info _; apply triple_panic|done]. Qed.
Lemma no_unit_settles : SettlingExt D Units (H := no_unit) (H1 := no_unit_lawful).
Proof. intros i info _. by apply quiet_settles. Qed.

Lemma full_unit_lawful : LawfulExt D Units (H := full_unit).
Proof. apply float_unit_lawful, vector_unit_lawful, no_unit_lawful. Qed.
Lemma full_unit_settles : SettlingExt D Units (H := full_unit) (H1 := full_unit_lawful).
Proof.
  intros i info Hi. refine (float_unit_settles float_name (vector_unit vector_name no_unit) (vector_unit_lawful _ _ no_unit_lawful) _ i info Hi).
  apply vector_unit_settles. apply no_unit_settles.
Qed.

Existing Instances full_unit full_unit_lawful full_unit_settles.

Context (decoder : Decoder).
Context {Hk Ctx : Type} `{ExecutionHook Hk (RVCPU D Units) Ctx} {Hlawful : LawfulHook (D := D) (X := Units) Hk Ctx}.

(** C1: A batch of [n] cycles of the whole hart, integer, atomic, compressed,
    floating-point and vector instructions, privileged ones and interrupts
    included, with any hook that respects the hart, in which the emulator does
    not panic ([r <> Panic]), keeps the invariant of the hart: registers, CSRs,
    vector registers and RAM well-formed and no trap value pending between
    cycles.  Then it returns no error, and the number of cycles it reports is
    [n] unless the hook stopped it, and at least one and at most [n] if it did.
    The assumption is needed: guest code can make the emulator panic, with a
    reserved mode in the [tvec] of a trap that is taken, a pending interrupt
    whose number has no name, an unsupported mode in [satp], an illegal
    instruction whose page is gone when its bits are fetched again, and in
    builds with overflow checks an arithmetic overflow. *)
Theorem full_batch_keeps_hart (n : Z) (h : Hk) (c : RVCPU D Units) (r : Res Exception BatchResult) (s : Hk * RVCPU D Units) :
  0 <= n -> hart_ok c -> step_batch_with_hook decoder n (h, c) = (r, s) -> r <> Panic ->
  exists b, r = Ok b /\ hart_ok (snd s) /\ batch_result n b.
Proof. exact (batch_keeps_hart decoder n h c r s). Qed.
End Full.

(** ** Concrete instances: a program of both extensions *)
Definition demo_name (id : Z) : FInstr + VInstr := if id =? 0 then inl FADD_S else inr VID_V.
Definition full_decoder : Decoder :=
  match from_isa [Build_RVInstrDesc (OtherInstr 0) FmtR_rm 0xFE00007F 0x53; Build_RVInstrDesc (OtherInstr 1) FmtV 0xFDFFF07F 0x5008A057] 0 with
  | Some d => d
  | None => Build_Decoder FunctDecoder_new [] [] 0
  end.

(** [fadd.s f7, f0, f1] and [vid.v v3] at the start of RAM. *)
Definition demo_full : RVCPU Z (Units (Single := DemoS) (Double := DemoD)) :=
  let c := demo_cpu (demo_regs 0x80000100 7 9) 0x80000000 (demo_csr LvM [(Mstatus, 0x2200)]) in
  let c := with_word 4 0x5208A1D7 (with_word 0 0x001003D3 c) in
  Build_RVCPU (reg_file c) (pc c) (memory c) (csr c) (icache c) (icache_epoch c) (demo_vector E8 M1 true false 16, demo_numbers) (time_addr c) (pending_tval c).

Lemma demo_full_ok : hart_ok demo_full.
Proof.
  destruct (with_word_ok 4 0x5208A1D7 (with_word 0 0x001003D3 (demo_cpu (demo_regs 0x80000100 7 9) 0x80000000 (demo_csr LvM [(Mstatus, 0x2200)]))))
    as [[Hr Hp Hs Hm Hi Ht _] _].
  - apply with_word_ok. split; [|done]. apply demo_cpu_wf; [apply demo_regs_ok; solve_u64|solve_u64|].
    apply demo_csr_wf. constructor; [cbn; solve_u64|constructor].
  - split; [|done]. constructor; try done. by apply demo_vec_ok.
Qed.

(** The two cycles: 1.0 + 2.0 in [f7], element 9 of [v3] is 9. *)
Lemma full_batch_keeps_hart_witness :
  let D := demo_device in let P := dev in let U := full_unit (D := Z) demo_name in
  exists s, step_batch_with_hook full_decoder 2 (tt, demo_full) = (Ok {| cycles := 2; hook_stopped := false |}, s) /\
    to_bits (Double_from (freg_of (Single := DemoS) (Double := DemoD) (snd s) 7)) = 0xFFFFFFFF40400000 /\
    reg_elem (vector_regfile (vec_of (snd s))) 1 3 9 = 9 /\ pc (snd s) = 0x80000008 /\ hart_ok (snd s).
Proof.
  intros D P U. set (T := step_batch_with_hook full_decoder 2 (tt, demo_full)).
  assert (F : fst T = Ok {| cycles := 2; hook_stopped := false |}) by (vm_compute; reflexivity).
  assert (G : to_bits (Double_from (freg_of (Single := DemoS) (Double := DemoD) (snd (snd T)) 7)) = 0xFFFFFFFF40400000) by (vm_compute; reflexivity).
  assert (V : reg_elem (vector_regfile (vec_of (snd (snd T)))) 1 3 9 = 9) by (vm_compute; reflexivity).
  assert (R : pc (snd (snd T)) = 0x80000008) by (vm_compute; reflexivity).
  destruct T as [r s] eqn:E. cbn [fst snd] in F, G, V, R. subst r. exists s. split; [reflexivity|].
  destruct (full_batch_keeps_hart (Single := DemoS) (Double := DemoD) demo_name full_decoder 2 tt demo_full _ s Z.le_0_2 demo_full_ok E ltac:(discriminate)) as (b & _ & Hok & _).
  split_and!; [exact G|exact V|exact R|exact Hok].
Defined.
