(* ===== verification/Rvdb.v ===== *)
(** * The debugger's command line (src/src/rvdb/)

    The session of the debugger: its commands (mod.rs), what each of them does
    (commands.rs), scripts (session.rs) and the interruptible run of the
    browser's prompt (nostd_repl.rs).  Lines are parsed by the library clap and
    printed by printer.rs: the parser and the printer are parameters.  Strings
    are ASCII. *)

From Stdlib Require Import Ascii String.
From S2P Require Import Prelude Utils TrapTypes Ram CsrTable Csr PageTable Mmio Vm Instr Cpu Exec Decoder Executor Board Vector VectorExec Debugger Float FloatExec.
Local Open Scope string_scope.
Local Open Scope Z_scope.

(** ** Strings *)
Definition code (a : ascii) : Z := Z.of_nat (nat_of_ascii a).
Definition is_space (a : ascii) : bool := (code a =? 32) || ((9 <=? code a) && (code a <=? 13)).
Fixpoint skip_spaces (l : list ascii) : list ascii :=
  match l with a :: l' => if is_space a then skip_spaces l' else l | [] => [] end.
(** [str::trim]. *)
Definition trim (s : string) : string :=
  string_of_list_ascii (reverse (skip_spaces (reverse (skip_spaces (list_ascii_of_string s))))).
(** [str::strip_prefix]. *)
Fixpoint strip_prefix (p s : string) : option string :=
  match p, s with
  | EmptyString, _ => Some s
  | String a p', String b s' => if Ascii.eqb a b then strip_prefix p' s' else None
  | _, _ => None
  end.
(** [str::split("/")]. *)
Fixpoint split_slash (s : string) : list string :=
  match s with
  | EmptyString => [""]
  | String a s' =>
      if Ascii.eqb a "/" then "" :: split_slash s'
      else match split_slash s' with w :: ws => String a w :: ws | [] => [String a ""] end
  end.

(** [from_str_radix] of an unsigned type with maximum [max]. *)
Inductive IntErrorKind : Type := IntEmpty | InvalidDigit | PosOverflow.
Definition to_digit (radix : Z) (a : ascii) : option Z :=
  let c := code a in
  let d := if (48 <=? c) && (c <=? 57) then Some (c - 48)
           else if (97 <=? c) && (c <=? 122) then Some (c - 87)
           else if (65 <=? c) && (c <=? 90) then Some (c - 55) else None in
  match d with Some d => if d <? radix then Some d else None | None => None end.
Fixpoint parse_digits (radix max : Z) (l : list ascii) (result : Z) : Res IntErrorKind Z :=
  match l with
  | [] => Ok result
  | a :: l =>
      match to_digit radix a with
      | None => Err InvalidDigit
      | Some d =>
          if max <? result * radix then Err PosOverflow
          else if max <? result * radix + d then Err PosOverflow
          else parse_digits radix max l (result * radix + d)
      end
  end.
Definition from_str_radix (radix max : Z) (s : string) : Res IntErrorKind Z :=
  match list_ascii_of_string s with
  | [] => Err IntEmpty
  | ["+"%char] | ["-"%char] => Err InvalidDigit
  | "+"%char :: l => parse_digits radix max l 0
  | l => parse_digits radix max l 0
  end.

(** ** Commands and their results (mod.rs) *)
Inductive PrintCmd : Type :=
| PrintPc | PrintReg (reg : string) | PrintRegs (start len : Z) | PrintMem (addr : string) (len : Z) (virt : bool)
| PrintCsr (addr : string) | PrintFReg (reg : string) | PrintVReg (reg : string) | PrintPriv.
Inductive InfoCmd : Type := InfoBreakpoints | InfoSymbols.
Inductive FTraceCmd : Type := FtStart | FtStop | FtShow (count : nat) | FtStat.
Inductive ClapAccessType : Type := ClapRead | ClapWrite.
Definition AccessType_from (a : ClapAccessType) : AccessType := match a with ClapRead => Read | ClapWrite => Write end.

Inductive RvdbCommand : Type :=
| CmdPrint (cmd : PrintCmd) | CmdDisplay (cmd : PrintCmd) | CmdTranslate (addr : string) (access : ClapAccessType)
| CmdUndisplay (cmd : PrintCmd) | CmdList | CmdHistory (count : nat) | CmdFTrace (cmd : FTraceCmd)
| CmdSymbolFile (path : string) | CmdSi | CmdContinue (steps : Z) | CmdBreakpoint (delete : bool) (symbol : string) (virt : bool)
| CmdInfo (cmd : InfoCmd) | CmdQuit.

Inductive PrintObject : Type :=
| ObjPc | ObjReg (idx : Z) | ObjRegs (start len : Z) | ObjMem (addr len : Z) (virt : bool) | ObjCSR (addr : Z)
| ObjFReg (idx : Z) | ObjVReg (idx : Z) | ObjPrivilege.
#[export] Instance PrintObject_eq_dec : EqDecision PrintObject.
Proof. solve_decision. Defined.

Record DbgInstrLine : Type := {
  line_addr : Z; line_raw : option Z; line_decoded : option DecodeInstr; line_symbol : option string; is_current_pc : bool
}.

(** Floating-point values are their bits. *)
Inductive CommandOutput : Type :=
| OutNone | OutExit | OutPc (pc : Z) | OutReg (name : string) (val : Z) | OutRegs (regs : list (string * Z))
| OutFReg (name : string) (f32_val f64_val : Z) | OutVReg (name : string) (val : list (string * list Z))
| OutCsr (name : string) (val : option Z) | OutMem (addr : Address) (data : list (option Z))
| OutTranslate (virt_addr phys_addr : Z) | OutPrivilege (level : PrivilegeLevel)
| OutHistory (lines : list DbgInstrLine) | OutCodeList (lines : list DbgInstrLine)
| OutBreakpoints (l : list Breakpoint) | OutSymbols (l : gmap string Z)
| OutFTraceShow (l : list FuncTrace) | OutFTraceStat (s : FtraceStatsSnapshot) | OutFTraceStatus (enabled : bool)
| OutContinueDone (instr : DbgInstrLine) (watch_results : list CommandOutput) (event : DebugEvent) (actual_steps : Z)
| OutBreakpointSet (ok : bool) (addr : Address) (symbol : option string)
| OutBreakpointCleared (ok : bool) (addr : Address) (symbol : option string).

(** The errors, before they are made into text. *)
Inductive RvdbError : Type :=
| ParseInt (e : IntErrorKind) | InvalidRegister (s : string) | InvalidCsr (s : string) | TranslateFailed (e : PageTableError)
| StepFailed (e : Exception) | SymbolUnknown (s : string) | NoSymbols | DebugFailed (e : DebugError) | SymbolFile (s : string)
| ClapMessage (s : string).

(** ** Names (config.rs, csr_macro.rs) *)
Definition REG_NAME : list string :=
  ["zero"; "ra"; "sp"; "gp"; "tp"; "t0"; "t1"; "t2"; "s0/fp"; "s1"; "a0"; "a1"; "a2"; "a3"; "a4"; "a5"; "a6"; "a7";
   "s2"; "s3"; "s4"; "s5"; "s6"; "s7"; "s8"; "s9"; "s10"; "s11"; "t3"; "t4"; "t5"; "t6"].
Definition FLOAT_REG_NAME : list string :=
  ["ft0"; "ft1"; "ft2"; "ft3"; "ft4"; "ft5"; "ft6"; "ft7"; "fs0"; "fs1"; "fa0"; "fa1"; "fa2"; "fa3"; "fa4"; "fa5"; "fa6"; "fa7";
   "fs2"; "fs3"; "fs4"; "fs5"; "fs6"; "fs7"; "fs8"; "fs9"; "fs10"; "fs11"; "ft8"; "ft9"; "ft10"; "ft11"].
Definition VECTOR_REG_NAME : list string :=
  ["v0"; "v1"; "v2"; "v3"; "v4"; "v5"; "v6"; "v7"; "v8"; "v9"; "v10"; "v11"; "v12"; "v13"; "v14"; "v15"; "v16"; "v17";
   "v18"; "v19"; "v20"; "v21"; "v22"; "v23"; "v24"; "v25"; "v26"; "v27"; "v28"; "v29"; "v30"; "v31"].
Definition REGFILE_CNT : Z := Z.of_nat (length REG_NAME).
Definition CSR_ADDRESS (name : string) : option Z := cd_addr <$> List.find (fun d => String.eqb (cd_name d) name) csr_descs.
Definition CSR_NAME (addr : Z) : option string := cd_name <$> List.find (fun d => cd_addr d =? addr) csr_descs.

(** ** Parsing of operands (commands.rs) *)
Definition parse_u64 (s : string) : Res RvdbError Z :=
  let s := trim s in
  let r := match strip_prefix "0x" s with
           | Some hex => from_str_radix 16 (2 ^ 64 - 1) hex
           | None => match strip_prefix "0X" s with
                     | Some hex => from_str_radix 16 (2 ^ 64 - 1) hex
                     | None => from_str_radix 10 (2 ^ 64 - 1) s
                     end
           end in
  match r with Ok n => Ok n | Err e => Err (ParseInt e) | Panic => Panic end.

(** [iter().position(..)]. *)
Fixpoint position {A} (p : A -> bool) (l : list A) : option Z :=
  match l with [] => None | x :: l => if p x then Some 0 else Z.succ <$> position p l end.

Definition parse_reg (s : string) (reg_list : list string) (prefix : string) : Res RvdbError Z :=
  let t := trim s in
  match position (fun name => existsb (String.eqb t) (split_slash name)) reg_list with
  | Some index => Ok (wrap 8 index)
  | None =>
      match strip_prefix prefix t with
      | Some rest =>
          match from_str_radix 10 255 rest with
          | Ok n => if n <? 32 then Ok n else Err (InvalidRegister s)
          | _ => Err (InvalidRegister s)
          end
      | None => Err (InvalidRegister s)
      end
  end.
Definition parse_common_reg (s : string) : Res RvdbError Z := parse_reg s REG_NAME "x".
Definition parse_float_reg (s : string) : Res RvdbError Z := parse_reg s FLOAT_REG_NAME "f".
Definition parse_vector_reg (s : string) : Res RvdbError Z := parse_reg s VECTOR_REG_NAME "v".
Definition parse_csr (s : string) : Res RvdbError Z :=
  match CSR_ADDRESS (trim s) with
  | Some index => Ok index
  | None => match parse_u64 s with Ok n => Ok n | _ => Err (InvalidCsr s) end
  end.

Definition make_address (addr : Z) (virt : bool) : Address := if virt then Virt addr else Phys addr.

(** [format!("0x{:x}")] and [format!("0x{:03x}")]. *)
Definition format_hex (n : Z) : string := "0x" ++ hex_digits 16 n.
Definition format_03x (n : Z) : string :=
  let h := hex_digits 16 n in "0x" ++ String.concat "" (replicate (3 - String.length h) "0") ++ h.

(** ** The session *)
Record RvdbSession (B : Type) : Type := { dbg : Debugger B; watch_list : list PrintObject }.
Arguments Build_RvdbSession {B} _ _.
Arguments dbg {B} _.
Arguments watch_list {B} _.

Section Session.
Context {Single Double B D X : Type} `{SoftFloat Single} `{SoftFloat Double} `{DeviceTrait D} `{Profile} `{BoardTrait B D X}
  `{HasFpu Single Double X} `{HasVector X}.
Context (decoder : Decoder).
(** The file system with the ELF loader: the symbols of a file. *)
Context (read_symbols : string -> Res RvdbError SymTab).
Local Notation S := (RvdbSession B).
Local Notation SessM := (M S RvdbError).

Definition on_dbg {E A} (m : M (Debugger B) E A) : M S E A := zoom dbg (fun s d => Build_RvdbSession d (watch_list s)) m.
Definition set_dbg (d : Debugger B) (s : S) : S := Build_RvdbSession d (watch_list s).
Definition set_watch_list (l : list PrintObject) (s : S) : S := Build_RvdbSession (dbg s) l.

(** A call that returns a plain value in the source. *)
Definition plain {T E E' A} (m : M T E A) : M T E' A :=
  fun s => match m s with (Ok a, s') => (Ok a, s') | (_, s') => (Panic, s') end.

Definition session_pc (s : S) : Z := pc (board_cpu (board (dbg s))).

(** [Debugger::read_float_reg] and [read_vector_reg]: the elements of the group
    of registers that starts at [idx], or [None] when the configured group
    size does not allow it. *)
Definition read_float_reg (idx : Z) : M (RVCPU D X) Exception (Z * Z) :=
  a <- on_fpu (fpu_load (F := Single) idx) ;; b <- on_fpu (fpu_load (F := Double) idx) ;; ret (a, b).
Definition read_vector_reg (size idx : Z) : M (RVCPU D X) Exception (option (list Z)) :=
  v <- gets (fun c => vector_of (ext c)) ;;
  r <- ok (read_as_type (vector_regfile v) (get_lmul (vlmul (config v))) idx) ;;
  ret ((fun bytes => (fun i => load_le size bytes (i * size)) <$> seqZ 0 (Z.of_nat (length bytes) / size)) <$> r).

(** [for _ in 0..len]: the bytes from [curr] on. *)
Fixpoint read_bytes (len : nat) (curr : Address) : SessM (list (option Z)) :=
  match len with
  | O => ret []
  | Datatypes.S len =>
      byte <- on_dbg (on_board_cpu (ok (read_memory U8 curr))) ;;
      next <- Address_add curr 1 ;;
      rest <- read_bytes len next ;;
      ret (byte :: rest)
  end.

(** [for i in start..end]. *)
Fixpoint read_regs (indices : list Z) : SessM (list (string * Z)) :=
  match indices with
  | [] => ret []
  | i :: l =>
      name <- unwrap (REG_NAME !! Z.to_nat i) ;;
      v <- on_dbg (on_board_cpu (plain (dbg_read_reg i))) ;;
      rest <- read_regs l ;;
      ret ((name, v) :: rest)
  end.

(** The four element sizes; [unwrap] of a missing group panics. *)
Fixpoint read_widths (sizes : list (Z * string)) (idx : Z) : SessM (list (string * list Z)) :=
  match sizes with
  | [] => ret []
  | (size, prompt) :: l =>
      o <- on_dbg (on_board_cpu (plain (read_vector_reg size idx))) ;;
      elems <- unwrap o ;;
      rest <- read_widths l idx ;;
      ret ((prompt, elems) :: rest)
  end.

Definition handle_print (cmd : PrintCmd) : SessM CommandOutput :=
  match cmd with
  | PrintPc => p <- gets session_pc ;; ret (OutPc p)
  | PrintReg reg =>
      idx <- lift_res (parse_common_reg reg) ;;
      name <- unwrap (REG_NAME !! Z.to_nat idx) ;;
      v <- on_dbg (on_board_cpu (plain (dbg_read_reg idx))) ;;
      ret (OutReg name v)
  | PrintRegs start len =>
      let stop := Z.min (Z.min (start + len) 255) REGFILE_CNT in
      regs <- read_regs (seqZ start (stop - start)) ;;
      ret (OutRegs regs)
  | PrintMem addr len virt =>
      addr_val <- lift_res (parse_u64 addr) ;;
      let start_addr := make_address addr_val virt in
      data <- read_bytes (Z.to_nat len) start_addr ;;
      ret (OutMem start_addr data)
  | PrintCsr addr =>
      csr_addr <- lift_res (parse_csr addr) ;;
      let name := match CSR_NAME csr_addr with Some n => n | None => format_03x csr_addr end in
      v <- on_dbg (plain (dbg_read_csr csr_addr)) ;;
      ret (OutCsr name v)
  | PrintFReg reg =>
      idx <- lift_res (parse_float_reg reg) ;;
      v <- on_dbg (on_board_cpu (plain (read_float_reg idx))) ;;
      name <- unwrap (FLOAT_REG_NAME !! Z.to_nat idx) ;;
      ret (OutFReg name (fst v) (snd v))
  | PrintVReg reg =>
      idx <- lift_res (parse_vector_reg reg) ;;
      v <- read_widths [(8, "d"); (4, "w"); (2, "h"); (1, "b")] idx ;;
      name <- unwrap (VECTOR_REG_NAME !! Z.to_nat idx) ;;
      ret (OutVReg name v)
  | PrintPriv => p <- on_dbg (on_board_cpu (plain (on_csr privelege_level))) ;; ret (OutPrivilege p)
  end.

(** The [match] of [handle_display] and [handle_undisplay]. *)
Definition print_object (cmd : PrintCmd) : Res RvdbError PrintObject :=
  match cmd with
  | PrintPc => Ok ObjPc
  | PrintReg reg => res_map ObjReg (parse_common_reg reg)
  | PrintRegs start len => Ok (ObjRegs start len)
  | PrintMem addr len virt => res_map (fun a => ObjMem a len virt) (parse_u64 addr)
  | PrintCsr addr => res_map ObjCSR (parse_csr addr)
  | PrintFReg reg => res_map ObjFReg (parse_float_reg reg)
  | PrintVReg reg => res_map ObjVReg (parse_vector_reg reg)
  | PrintPriv => Ok ObjPrivilege
  end.
Definition handle_display (cmd : PrintCmd) : SessM CommandOutput :=
  obj <- lift_res (print_object cmd) ;;
  modify (fun s => set_watch_list (watch_list s ++ [obj])%list s) ;;; ret OutNone.
Definition handle_undisplay (cmd : PrintCmd) : SessM CommandOutput :=
  target <- lift_res (print_object cmd) ;;
  modify (fun s => set_watch_list (filter (fun item => item <> target) (watch_list s)) s) ;;; ret OutNone.

Definition opt_ok {E A} (r : Res E A) : option A := match r with Ok a => Some a | _ => None end.

Definition decoded_of (raw : option Z) : SessM (option DecodeInstr) :=
  match raw with Some r => on_dbg (plain (decoded_info decoder r)) | None => ret None end.

Definition instr_from_addr (addr : Z) : SessM DbgInstrLine :=
  raw <- on_dbg (on_board_cpu (ok (read_instr addr))) ;;
  decoded <- decoded_of raw ;;
  gets (fun s => {|
    line_addr := addr; line_raw := raw; line_decoded := decoded;
    line_symbol := opt_ok (symbol_by_addr addr (dbg s)); is_current_pc := addr =? session_pc s |}).

(** How far the listing moves after a line. *)
Definition line_step (l : DbgInstrLine) : Z :=
  match line_decoded l with
  | Some d => len d
  | None => match line_raw l with Some r => instr_len r | None => 2 end
  end.
Fixpoint list_lines (n : nat) (addr : Z) : SessM (list DbgInstrLine) :=
  match n with
  | O => ret []
  | Datatypes.S n => line <- instr_from_addr addr ;; rest <- list_lines n (wrap 64 (addr + line_step line)) ;; ret (line :: rest)
  end.
Definition NUM_LINES : nat := 20.
Definition handle_list : SessM CommandOutput :=
  addr <- gets session_pc ;; lines <- list_lines NUM_LINES addr ;; ret (OutCodeList lines).

Fixpoint history_lines (l : list (Z * option Z)) : SessM (list DbgInstrLine) :=
  match l with
  | [] => ret []
  | (addr, raw) :: l =>
      decoded <- decoded_of raw ;;
      line <- gets (fun s => {|
        line_addr := addr; line_raw := raw; line_decoded := decoded;
        line_symbol := opt_ok (symbol_by_addr addr (dbg s)); is_current_pc := addr =? session_pc s |}) ;;
      rest <- history_lines l ;;
      ret (line :: rest)
  end.
Definition handle_history (count : nat) : SessM CommandOutput :=
  l <- gets (fun s => pc_history count (dbg s)) ;; lines <- history_lines l ;; ret (OutHistory lines).

Definition handle_translate (addr : string) (access : AccessType) : SessM CommandOutput :=
  virt_addr <- lift_res (parse_u64 addr) ;;
  phys_addr <- map_err TranslateFailed (on_dbg (dbg_translate virt_addr access)) ;;
  ret (OutTranslate virt_addr phys_addr).

Definition modify_dbg (f : Debugger B -> Debugger B) : SessM unit := modify (fun s => set_dbg (f (dbg s)) s).

Definition handle_symbol_file (path : string) : SessM CommandOutput :=
  t <- lift_res (read_symbols path) ;; modify_dbg (set_symbol_table t) ;;; ret OutNone.

Definition handle_ftrace (cmd : FTraceCmd) : SessM CommandOutput :=
  match cmd with
  | FtStart => modify_dbg ftrace_start ;;; ret (OutFTraceStatus true)
  | FtStop => modify_dbg ftrace_stop ;;; ret (OutFTraceStatus false)
  | FtShow count => gets (fun s => OutFTraceShow (take count (ftrace_show (dbg s))))
  | FtStat => gets (fun s => OutFTraceStat (ftrace_stat (dbg s)))
  end.

Definition handle_breakpoint (delete : bool) (symbol : string) (virt : bool) : SessM CommandOutput :=
  d <- gets dbg ;;
  target <- match parse_u64 symbol with
            | Ok addr => ret (addr, None)
            | _ => match addr_by_symbol symbol d with
                   | Ok addr => ret (addr, Some symbol)
                   | _ => err (SymbolUnknown symbol)
                   end
            end ;;
  let address := make_address (fst target) virt in
  if delete then
    r <- map_err DebugFailed (on_dbg (clear_breakpoint address)) ;; ret (OutBreakpointCleared r address (snd target))
  else
    r <- map_err DebugFailed (on_dbg (set_breakpoint address)) ;; ret (OutBreakpointSet r address (snd target)).

Definition handle_info (cmd : InfoCmd) : SessM CommandOutput :=
  match cmd with
  | InfoBreakpoints => gets (fun s => OutBreakpoints (breakpoints (dbg s)))
  | InfoSymbols =>
      t <- gets (fun s => symtab (dbg s)) ;;
      match t with None => err NoSymbols | Some t => ret (OutSymbols (forward t)) end
  end.

(** A watched item is printed through the text of its name or address. *)
Definition print_of_object (obj : PrintObject) : SessM CommandOutput :=
  match obj with
  | ObjPc => handle_print PrintPc
  | ObjReg idx => name <- unwrap (REG_NAME !! Z.to_nat idx) ;; handle_print (PrintReg name)
  | ObjRegs start len => handle_print (PrintRegs start len)
  | ObjMem addr len virt => handle_print (PrintMem (format_hex addr) len virt)
  | ObjCSR addr => handle_print (PrintCsr (format_hex addr))
  | ObjFReg idx => name <- unwrap (FLOAT_REG_NAME !! Z.to_nat idx) ;; handle_print (PrintFReg name)
  | ObjVReg idx => name <- unwrap (VECTOR_REG_NAME !! Z.to_nat idx) ;; handle_print (PrintVReg name)
  | ObjPrivilege => handle_print PrintPriv
  end.
Fixpoint watch_loop (l : list PrintObject) : SessM (list CommandOutput) :=
  match l with
  | [] => ret []
  | item :: l => output <- print_of_object item ;; rest <- watch_loop l ;; ret (output :: rest)
  end.
Definition collect_watch_results : SessM (list CommandOutput) := l <- gets watch_list ;; watch_loop l.

Definition collect_stop_output (event : DebugEvent) (actual_steps : Z) : SessM CommandOutput :=
  watch_results <- collect_watch_results ;;
  p <- gets session_pc ;;
  instr <- instr_from_addr p ;;
  ret (OutContinueDone instr watch_results event actual_steps).

(** [None] when [fuel] batches were not enough. *)
Definition handle_continue (fuel : nat) (steps : Z) (s : S) : option (Res RvdbError CommandOutput * S) :=
  match continue_until_step fuel steps (dbg s) with
  | None => None
  | Some (r, d) =>
      let s := set_dbg d s in
      Some (match r with
            | Ok (event, actual_steps) => collect_stop_output event actual_steps s
            | Err e => (Err (StepFailed e), s)
            | Panic => (Panic, s)
            end)
  end.
Definition handle_step (fuel : nat) : S -> option (Res RvdbError CommandOutput * S) := handle_continue fuel 1.

Definition handle_command (fuel : nat) (cmd : RvdbCommand) (s : S) : option (Res RvdbError CommandOutput * S) :=
  match cmd with
  | CmdPrint cmd => Some (handle_print cmd s)
  | CmdDisplay cmd => Some (handle_display cmd s)
  | CmdUndisplay cmd => Some (handle_undisplay cmd s)
  | CmdTranslate addr access => Some (handle_translate addr (AccessType_from access) s)
  | CmdList => Some (handle_list s)
  | CmdHistory count => Some (handle_history count s)
  | CmdFTrace cmd => Some (handle_ftrace cmd s)
  | CmdSi => handle_step fuel s
  | CmdContinue steps => handle_continue fuel steps s
  | CmdBreakpoint delete symbol virt => Some (handle_breakpoint delete symbol virt s)
  | CmdInfo cmd => Some (handle_info cmd s)
  | CmdQuit => Some (Ok OutExit, s)
  | CmdSymbolFile path => Some (handle_symbol_file path s)
  end.
(** ** Lines and scripts (session.rs) *)

(** The parser of clap: a command, or an error that shows help or a message. *)
Record ClapError : Type := { is_clap_display : bool; clap_text : string }.
Context (parse : string -> ClapError + RvdbCommand).
(** The printer, and the text of an error. *)
Context (render : CommandOutput -> string) (error_text : RvdbError -> string).

Definition format_clap_error (e : ClapError) : string := default (clap_text e) (strip_prefix "error: " (clap_text e)).

Record RvdbCommandResponse : Type := { text : string; exit : bool }.

Definition is_exit (o : CommandOutput) : bool := match o with OutExit => true | _ => false end.

Definition execute_command (fuel : nat) (cmd : RvdbCommand) (s : S) : option (Res RvdbError RvdbCommandResponse * S) :=
  match handle_command fuel cmd s with
  | None => None
  | Some (r, s') => Some (res_map (fun output => {| text := render output; exit := is_exit output |}) r, s')
  end.

Definition execute_line (fuel : nat) (line : string) (s : S) : option (Res RvdbError RvdbCommandResponse * S) :=
  let line := trim line in
  if String.eqb line "" then Some (Ok {| text := ""; exit := false |}, s) else
  match parse line with
  | inr cmd => execute_command fuel cmd s
  | inl error =>
      if is_clap_display error then Some (Ok {| text := clap_text error; exit := false |}, s)
      else Some (Err (ClapMessage (format_clap_error error)), s)
  end.

Definition PROMPT : string := "(rvdb) ".
Definition newline : string := String (ascii_of_nat 10) "".

(** [run_script]: [write_output] is a closure with a state [W]; [None] when the
    fuel of a command was not enough. *)
Fixpoint run_script {W E : Type} (fuel : nat) (write_output : string -> M W E unit) (lines : list string) (s : S) (w : W)
  : option (Res E bool * S * W) :=
  match lines with
  | [] => Some (Ok false, s, w)
  | line :: rest =>
      let line := trim line in
      if String.eqb line "" then run_script fuel write_output rest s w else
      match write_output (PROMPT ++ line ++ newline) w with
      | (Err e, w) => Some (Err e, s, w)
      | (Panic, w) => Some (Panic, s, w)
      | (Ok _, w) =>
          match execute_line fuel line s with
          | None => None
          | Some (Panic, s) => Some (Panic, s, w)
          | Some (Ok response, s) =>
              match write_output (text response) w with
              | (Ok _, w) => if exit response then Some (Ok true, s, w) else run_script fuel write_output rest s w
              | (Err e, w) => Some (Err e, s, w)
              | (Panic, w) => Some (Panic, s, w)
              end
          | Some (Err error, s) =>
              match write_output ("Error: " ++ error_text error ++ newline) w with
              | (Ok _, w) => run_script fuel write_output rest s w
              | (Err e, w) => Some (Err e, s, w)
              | (Panic, w) => Some (Panic, s, w)
              end
          end
      end
  end.

(** ** The prompt of the browser (nostd_repl.rs) *)
Definition CONTINUE_CHUNK : Z := 100000.

Record REPLResponse : Type := { repl_exit : bool; cancel : bool }.
(** The session with the part of the channel the run uses. *)
Record AsyncREPL : Type := { session : S; cancelled : bool; output : string; last_line : option string }.
Definition set_session (s : S) (a : AsyncREPL) : AsyncREPL := Build_AsyncREPL s (cancelled a) (output a) (last_line a).
Definition set_cancel (b : bool) (a : AsyncREPL) : AsyncREPL := Build_AsyncREPL (session a) b (output a) (last_line a).
Definition channel_write (t : string) (a : AsyncREPL) : AsyncREPL :=
  Build_AsyncREPL (session a) (cancelled a) (output a ++ t) (last_line a).

(** One turn of the loop ends the run or leaves the steps that remain.  While
    the run yields, the other tasks may cancel it: [yielded] is what they do
    to the channel.  [after_chunk] is the caller's hook. *)
Fixpoint run_continue_loop (after_chunk : S -> S) (rounds fuel : nat) (yielded : nat -> AsyncREPL -> AsyncREPL) (remain : Z) (a : AsyncREPL)
  : option (Res RvdbError (option (DebugEvent * Z)) * AsyncREPL) :=
  match rounds with
  | O => None
  | Datatypes.S rounds =>
      if cancelled a then Some (Ok None, set_cancel false a) else
      let a := set_session (after_chunk (session a)) a in
      let current := Z.min remain CONTINUE_CHUNK in
      match continue_until_step fuel current (dbg (session a)) with
      | None => None
      | Some (r, d) =>
          let a := set_session (set_dbg d (session a)) a in
          match r with
          | Err e => Some (Err (StepFailed e), a)
          | Panic => Some (Panic, a)
          | Ok (event, steps) =>
              match sub_chk (S := unit) (E := RvdbError) 64 remain steps tt with
              | (Ok remain, _) =>
                  let a := set_session (after_chunk (session a)) a in
                  if negb (bool_decide (event = StepCompleted)) || (remain =? 0) then Some (Ok (Some (event, remain)), a)
                  else run_continue_loop after_chunk rounds fuel yielded remain (yielded rounds a)
              | _ => Some (Panic, a)
              end
          end
      end
  end.

(** The stop is reported with [remain] in the place of the executed steps. *)
Definition run_continue_with_hook (after_chunk : S -> S) (rounds fuel : nat) (yielded : nat -> AsyncREPL -> AsyncREPL) (total_steps : Z) (a : AsyncREPL)
  : option (Res RvdbError REPLResponse * AsyncREPL) :=
  match run_continue_loop after_chunk rounds fuel yielded total_steps a with
  | None => None
  | Some (Ok None, a) => Some (Ok {| repl_exit := false; cancel := true |}, a)
  | Some (Ok (Some (event, remain)), a) =>
      if bool_decide (event = StepCompleted) then Some (Ok {| repl_exit := false; cancel := false |}, a) else
      let '(r, s) := collect_stop_output event remain (session a) in
      let a := set_session s a in
      Some (match r with
            | Ok output => (Ok {| repl_exit := false; cancel := false |}, channel_write (render output) a)
            | Err e => (Err e, a)
            | Panic => (Panic, a)
            end)
  | Some (Err e, a) => Some (Err e, a)
  | Some (Panic, a) => Some (Panic, a)
  end.

Definition set_last_line (l : option string) (a : AsyncREPL) : AsyncREPL := Build_AsyncREPL (session a) (cancelled a) (output a) l.

(** An empty line repeats the last one. *)
Definition execute_line_with_hook (after_chunk : S -> S) (rounds fuel : nat) (yielded : nat -> AsyncREPL -> AsyncREPL) (line : string) (a : AsyncREPL)
  : option (Res RvdbError REPLResponse * AsyncREPL) :=
  let line := trim line in
  let quiet := {| repl_exit := false; cancel := false |} in
  let go line a :=
    match parse line with
    | inl error =>
        if is_clap_display error then Some (Ok quiet, channel_write (clap_text error) a)
        else Some (Err (ClapMessage (format_clap_error error)), a)
    | inr (CmdContinue steps) => run_continue_with_hook after_chunk rounds fuel yielded steps a
    | inr other =>
        match execute_command fuel other (session a) with
        | None => None
        | Some (r, s) =>
            let a := set_session s a in
            Some (match r with
                  | Ok response => (Ok {| repl_exit := exit response; cancel := false |}, channel_write (text response) a)
                  | Err e => (Err e, a)
                  | Panic => (Panic, a)
                  end)
        end
    end in
  if String.eqb line "" then match last_line a with None => Some (Ok quiet, a) | Some last => go last a end
  else go line (set_last_line (Some line) a).

Definition line_is_continue_command (line : string) (a : AsyncREPL) : bool :=
  let line := trim line in
  let line := if String.eqb line "" then default line (last_line a) else line in
  match parse line with inr (CmdContinue _) => true | _ => false end.
End Session.
