(* ===== verification/RvdbSpec.v ===== *)
(** * What the commands of the debugger do

    Operands survive printing and parsing; a displayed item is printed as the
    command that displayed it prints it; inspection leaves the machine alone;
    scripts compose; the browser's run is cut into chunks without losing
    steps. *)

From Stdlib Require Import Ascii String.
From S2P Require Import Prelude Utils TrapTypes Ram Cache CsrTable Csr PageTable Mmio Vm Instr Cpu Exec Invariant Decoder DecoderTable Executor Precise HartSpec Board Vector VectorExec VectorMap VectorHart Debugger DebuggerSpec DebuggerRun Float FloatExec FloatDemo FullHart Rvdb.
Local Open Scope string_scope.
Local Open Scope Z_scope.

(** ** Numbers *)
Lemma ascii_of_app a b : list_ascii_of_string (a ++ b) = (list_ascii_of_string a ++ list_ascii_of_string b)%list.
Proof. induction a as [|c a IH]; [done|]. change (String c a ++ b) with (String c (a ++ b)). cbn. by rewrite IH. Qed.

Lemma skip_none l : Forall (fun a => is_space a = false) l -> skip_spaces l = l.
Proof. intros [|a l' Ha _]; [done|]. cbn. by rewrite Ha. Qed.

(** A string without spaces is not trimmed. *)
Lemma trim_id s : Forall (fun a => is_space a = false) (list_ascii_of_string s) -> trim s = s.
Proof.
  intros Hs. unfold trim. rewrite (skip_none _ Hs), skip_none by by apply Forall_reverse.
  by rewrite reverse_involutive, string_of_list_ascii_of_string.
Qed.

Lemma parse_digits_app radix max l1 l2 r : parse_digits radix max (l1 ++ l2)%list r =
  match parse_digits radix max l1 r with Ok r' => parse_digits radix max l2 r' | Err e => Err e | Panic => Panic end.
Proof. revert r. induction l1 as [|a l1 IH]; intros r; [done|]. cbn. destruct (to_digit radix a) as [d|]; [|done]. destruct (max <? r * radix); [done|]. destruct (max <? r * radix + d); [done|]. apply IH. Qed.

(** The digits of a number below 16. *)
Definition hex_char (d : Z) : ascii := default "0"%char (String.get (Z.to_nat d) "0123456789abcdef").
Lemma hex_char_ok : forallb (fun d => match to_digit 16 (hex_char d) with Some x => x =? d | None => false end &&
  negb (is_space (hex_char d)) && negb (Ascii.eqb (hex_char d) "+") && negb (Ascii.eqb (hex_char d) "-") &&
  String.eqb (hex_digit d) (String (hex_char d) "")) (seqZ 0 16) = true.
Proof. vm_compute. done. Qed.
Lemma hex_char_spec d : 0 <= d < 16 -> to_digit 16 (hex_char d) = Some d /\ is_space (hex_char d) = false /\
  hex_char d <> "+"%char /\ hex_char d <> "-"%char /\ hex_digit d = String (hex_char d) "".
Proof.
  intros Hd. pose proof hex_char_ok as Hall. rewrite List.forallb_forall in Hall. specialize (Hall d).
  rewrite <- list_elem_of_In, elem_of_seqZ in Hall. specialize (Hall ltac:(lia)).
  rewrite !andb_true_iff, !negb_true_iff, String.eqb_eq, !Ascii.eqb_neq in Hall. destruct Hall as [[[[Ht Hs] Hp] Hm] He].
  destruct (to_digit 16 (hex_char d)); [|done]. apply Z.eqb_eq in Ht. subst. done.
Qed.

(** [{:x}] of a number, digit by digit. *)
Lemma hex_digits_spec fuel : forall n max, 0 <= n < 16 ^ Z.of_nat fuel -> n <= max -> (0 < fuel)%nat ->
  let l := list_ascii_of_string (hex_digits fuel n) in
  parse_digits 16 max l 0 = Ok n /\ Forall (fun a => is_space a = false) l /\
  exists a l', l = a :: l' /\ a <> "+"%char /\ a <> "-"%char.
Proof.
  induction fuel as [|fuel IH]; intros n max Hn Hm Hf; [lia|]. cbn [hex_digits].
  pose proof (Z.mod_pos_bound n 16 ltac:(lia)) as Hb. pose proof (Z.div_mod n 16 ltac:(lia)) as Hdm.
  destruct (hex_char_spec (n mod 16) Hb) as (Ht & Hs & Hp & Hm' & ->). rewrite ascii_of_app. cbn [list_ascii_of_string].
  set (d := n mod 16) in *. set (q := n / 16) in *.
  assert (forall r, 0 <= r -> r * 16 + d = n -> parse_digits 16 max [hex_char d] r = Ok n) as Hlast.
  { intros r Hr Hrn. cbn [parse_digits]. rewrite Ht, (proj2 (Z.ltb_ge _ _)), (proj2 (Z.ltb_ge _ _)) by lia. by rewrite Hrn. }
  destruct (Z.ltb_spec n 16) as [Hlt|Hge].
  - cbn [list_ascii_of_string app]. split_and!; [apply Hlast; lia|by repeat constructor|]. by eexists _, _.
  - assert (0 < fuel)%nat as Hf' by (destruct fuel; [cbn in Hn; lia|lia]).
    rewrite Nat2Z.inj_succ, Z.pow_succ_r in Hn by lia.
    destruct (IH q max) as (Hd & Hsp & a & l' & Hl & Ha); [lia|lia|done|]. rewrite parse_digits_app, Hd. split_and!.
    + apply Hlast; lia.
    + apply list.Forall_app_2; [done|by repeat constructor].
    + rewrite Hl. eexists _, _. done.
Qed.

Lemma from_radix_digits radix max s a l : list_ascii_of_string s = a :: l -> a <> "+"%char -> a <> "-"%char ->
  from_str_radix radix max s = parse_digits radix max (a :: l) 0.
Proof.
  intros Hs Hp Hm. unfold from_str_radix. rewrite Hs.
  destruct a as [[] [] [] [] [] [] [] []]; try done; destruct l; done.
Qed.

Lemma hex_roundtrip n : u64 n -> parse_u64 (format_hex n) = Ok n.
Proof.
  intros Hn. destruct (hex_digits_spec 16 n (2 ^ 64 - 1)) as (Hd & Hsp & a & l & Hl & Hp & Hm); [unfold u64, uint in Hn; lia..|].
  unfold parse_u64, format_hex. change ("0x" ++ hex_digits 16 n) with (String "0" (String "x" (hex_digits 16 n))).
  rewrite trim_id by (cbn; repeat constructor; done). cbn [strip_prefix Ascii.eqb Bool.eqb]. erewrite from_radix_digits by done. by rewrite <- Hl, Hd.
Qed.

Lemma to_digit_range radix a d : to_digit radix a = Some d -> 0 <= d.
Proof.
  unfold to_digit. set (c := code a).
  destruct ((48 <=? c) && (c <=? 57)) eqn:E1; [|destruct ((97 <=? c) && (c <=? 122)) eqn:E2; [|destruct ((65 <=? c) && (c <=? 90)) eqn:E3]].
  4: discriminate. all: destruct (_ <? radix); [|discriminate]; intros [= <-]; lia.
Qed.
Lemma parse_digits_range radix max l : 0 <= radix -> forall r n, 0 <= r <= max -> parse_digits radix max l r = Ok n -> 0 <= n <= max.
Proof.
  intros Hradix. induction l as [|a l IH]; intros r n Hr; cbn [parse_digits]; [by intros [= <-]|].
  destruct (to_digit radix a) as [d|] eqn:Ed; [|done]. apply to_digit_range in Ed.
  destruct (Z.ltb_spec max (r * radix)); [done|]. destruct (Z.ltb_spec max (r * radix + d)); [done|]. apply IH. nia.
Qed.
Lemma from_radix_range radix max s n : 0 <= radix -> 0 <= max -> from_str_radix radix max s = Ok n -> 0 <= n <= max.
Proof.
  intros Hr Hm. unfold from_str_radix. repeat (case_match; try done); intros Hp; eapply parse_digits_range; try exact Hp; lia.
Qed.
Lemma parse_u64_range s n : parse_u64 s = Ok n -> u64 n.
Proof.
  unfold parse_u64. assert (forall radix t m, 0 <= radix -> from_str_radix radix (2 ^ 64 - 1) t = Ok m -> u64 m) as Hf.
  { intros radix t m Hr Hp. apply from_radix_range in Hp; [unfold u64, uint|lia..]. lia. }
  destruct (strip_prefix "0x" (trim s)) as [h|]; [|destruct (strip_prefix "0X" (trim s)) as [h|]].
  all: destruct (from_str_radix _ _ _) eqn:E; [|done..]; intros [= <-]; by eapply Hf, E.
Qed.

(** ** Names *)
Lemma position_range {A} (p : A -> bool) l i : position p l = Some i -> 0 <= i < Z.of_nat (length l).
Proof.
  revert i. induction l as [|x l IH]; intros i; cbn [position length]; [done|]. destruct (p x); [intros [= <-]; lia|].
  destruct (position p l) as [j|]; [|done]. intros [= <-]. specialize (IH j eq_refl). lia.
Qed.
Lemma parse_reg_range s l prefix i : length l = 32%nat -> parse_reg s l prefix = Ok i -> 0 <= i < 32.
Proof.
  intros Hl. unfold parse_reg. destruct (position _ l) as [j|] eqn:Ep.
  { apply position_range in Ep. rewrite Hl in Ep. intros [= <-]. rewrite wrap_small; [lia|unfold uint; lia]. }
  destruct (strip_prefix prefix (trim s)) as [rest|]; [|done]. destruct (from_str_radix 10 255 rest) as [n|e|] eqn:En; [|done..].
  apply from_radix_range in En; [|lia..]. destruct (Z.ltb_spec n 32); [|done]. intros [= <-]. lia.
Qed.

Definition name_parses (parse : string -> Res RvdbError Z) (names : list string) (i : Z) : bool :=
  match names !! Z.to_nat i with Some n => match parse n with Ok j => j =? i | _ => false end | None => false end.
Lemma names_parse : forallb (fun i => (i =? 8) || name_parses parse_common_reg REG_NAME i) (seqZ 0 32) &&
  forallb (name_parses parse_float_reg FLOAT_REG_NAME) (seqZ 0 32) && forallb (name_parses parse_vector_reg VECTOR_REG_NAME) (seqZ 0 32) = true.
Proof. vm_compute. done. Qed.
Lemma name_parses_spec parse names i : name_parses parse names i = true -> exists n, names !! Z.to_nat i = Some n /\ parse n = Ok i.
Proof.
  unfold name_parses. destruct (names !! Z.to_nat i) as [n|]; [|done]. destruct (parse n) eqn:E; [|done..].
  intros ->%Z.eqb_eq. eauto.
Qed.
Lemma names_spec i : 0 <= i < 32 ->
  (i <> 8 -> exists n, REG_NAME !! Z.to_nat i = Some n /\ parse_common_reg n = Ok i) /\
  (exists n, FLOAT_REG_NAME !! Z.to_nat i = Some n /\ parse_float_reg n = Ok i) /\
  (exists n, VECTOR_REG_NAME !! Z.to_nat i = Some n /\ parse_vector_reg n = Ok i).
Proof.
  intros Hi. pose proof names_parse as Hn. rewrite !andb_true_iff, !List.forallb_forall in Hn. destruct Hn as [[H1 H2] H3].
  assert (In i (seqZ 0 32)) as Hin by (apply list_elem_of_In, elem_of_seqZ; lia).
  split_and!; [|by apply name_parses_spec, H2|by apply name_parses_spec, H3]. intros Hne. apply name_parses_spec.
  specialize (H1 i Hin). by rewrite (proj2 (Z.eqb_neq _ _) Hne) in H1.
Qed.

Lemma csr_table_ok : forallb (fun d => (0 <=? cd_addr d) && (cd_addr d <? 2 ^ 64) &&
  match cd_name d with String c _ => negb (Ascii.eqb c "0") | "" => true end) csr_descs = true.
Proof. vm_compute. done. Qed.

Lemma csr_name_not_hex s : CSR_ADDRESS (String "0" s) = None.
Proof.
  unfold CSR_ADDRESS. pose proof csr_table_ok as Hok. rewrite List.forallb_forall in Hok.
  destruct (List.find _ csr_descs) as [d|] eqn:Ef; [|done]. apply List.find_some in Ef as [Hin He].
  specialize (Hok d Hin). apply String.eqb_eq in He. rewrite He in Hok. cbn in Hok. by rewrite andb_false_r in Hok.
Qed.

Lemma parse_csr_range s a : parse_csr s = Ok a -> u64 a.
Proof.
  unfold parse_csr, CSR_ADDRESS. destruct (List.find _ csr_descs) as [d|] eqn:Ef; cbn.
  - intros [= <-]. apply List.find_some in Ef as [Hin _]. pose proof csr_table_ok as Hok. rewrite List.forallb_forall in Hok.
    specialize (Hok d Hin). rewrite !andb_true_iff in Hok. unfold u64, uint. lia.
  - destruct (parse_u64 s) eqn:E; [|done..]. intros [= <-]. by eapply parse_u64_range.
Qed.

Lemma parse_csr_hex a : u64 a -> parse_csr (format_hex a) = Ok a.
Proof.
  intros Ha. unfold parse_csr. assert (exists t, trim (format_hex a) = String "0" t) as [t ->].
  { destruct (hex_digits_spec 16 a (2 ^ 64 - 1)) as (_ & Hsp & _); [unfold u64, uint in Ha; lia..|]. unfold format_hex.
    change ("0x" ++ hex_digits 16 a) with (String "0" (String "x" (hex_digits 16 a))).
    rewrite trim_id by (cbn; repeat constructor; done). by eexists. }
  by rewrite csr_name_not_hex, hex_roundtrip.
Qed.

(** ** Displayed items *)
Section Display.
Context {Single Double B D X : Type} `{SoftFloat Single} `{SoftFloat Double} `{DeviceTrait D} `{Profile} `{BoardTrait B D X}
  `{HasFpu Single Double X} `{HasVector X}.
Context (decoder : Decoder).
Implicit Types s : RvdbSession B.
Local Notation print := (handle_print (Single := Single) (Double := Double) (B := B)).
Local Notation print_object_of := (print_of_object (Single := Single) (Double := Double) (B := B)).

(** [s0] has two names in one entry of the table, which is not a name. *)
Lemma display_prints cmd obj s : print_object cmd = Ok obj -> obj <> ObjReg 8 -> print_object_of obj s = print cmd s.
Proof.
  destruct cmd as [|reg|start len|addr len virt|addr|reg|reg|]; cbn [print_object]; try (by intros [= <-]).
  - destruct (parse_common_reg reg) as [i|e|] eqn:Ep; [|done..]. intros [= <-] Hne. cbn [print_of_object].
    destruct (names_spec i) as [Hn _]; [by eapply parse_reg_range, Ep|]. destruct Hn as (n & Hl & Hp); [congruence|].
    rewrite Hl. unfold bind at 1, unwrap at 1. cbn [handle_print]. by rewrite Hp, Ep.
  - destruct (parse_u64 addr) as [a|e|] eqn:Ep; [|done..]. intros [= <-] _. cbn [print_of_object handle_print].
    by rewrite hex_roundtrip, Ep by by eapply parse_u64_range.
  - destruct (parse_csr addr) as [a|e|] eqn:Ep; [|done..]. intros [= <-] _. cbn [print_of_object handle_print].
    by rewrite parse_csr_hex, Ep by by eapply parse_csr_range.
  - destruct (parse_float_reg reg) as [i|e|] eqn:Ep; [|done..]. intros [= <-] _. cbn [print_of_object].
    destruct (names_spec i) as (_ & (n & Hl & Hp) & _); [by eapply parse_reg_range, Ep|].
    rewrite Hl. unfold bind at 1, unwrap at 1. cbn [handle_print]. by rewrite Hp, Ep.
  - destruct (parse_vector_reg reg) as [i|e|] eqn:Ep; [|done..]. intros [= <-] _. cbn [print_of_object].
    destruct (names_spec i) as (_ & _ & n & Hl & Hp); [by eapply parse_reg_range, Ep|].
    rewrite Hl. unfold bind at 1, unwrap at 1. cbn [handle_print]. by rewrite Hp, Ep.
Qed.

(** The commands, one after the other. *)
Fixpoint print_all (cmds : list PrintCmd) : M (RvdbSession B) RvdbError (list CommandOutput) :=
  match cmds with
  | [] => ret []
  | cmd :: cmds => output <- print cmd ;; rest <- print_all cmds ;; ret (output :: rest)
  end.

Lemma watch_loop_prints cmds l : Forall2 (fun cmd obj => print_object cmd = Ok obj /\ obj <> ObjReg 8) cmds l ->
  forall s, watch_loop (Single := Single) (Double := Double) l s = print_all cmds s.
Proof.
  induction 1 as [|cmd obj cmds l [Ho Hn] _ IH]; intros s; [done|]. cbn [watch_loop print_all]. unfold bind.
  rewrite (display_prints cmd obj s Ho Hn). destruct (print cmd s) as [[o|e|] s']; [|done..]. by rewrite IH.
Qed.

(** C35: What [display] shows at a stop is what [print] would show.  Displaying an
    item appends it to the watch list and [undisplay] removes it, and neither
    touches the machine.  When a run or a step returns, the watched items are
    printed on the machine where it stopped, in the order in which they were
    displayed, each with the result and the effect of the [print] command with
    the same operand: names, numbers and CSRs go through the text of the item
    and come back unchanged.  Register [s0] is the exception. *)
Theorem displayed_items_are_printed fuel steps cmds s :
  Forall2 (fun cmd obj => print_object cmd = Ok obj /\ obj <> ObjReg 8) cmds (watch_list s) ->
  handle_continue (Single := Single) (Double := Double) decoder fuel steps s =
    match continue_until_step fuel steps (dbg s) with
    | None => None
    | Some (Ok (event, n), d) =>
        Some ((outputs <- print_all cmds ;; p <- gets session_pc ;; line <- instr_from_addr decoder p ;;
               ret (OutContinueDone line outputs event n)) (set_dbg d s))
    | Some (Err e, d) => Some (Err (StepFailed e), set_dbg d s)
    | Some (Panic, d) => Some (Panic, set_dbg d s)
    end /\
  (forall cmd obj, print_object cmd = Ok obj ->
     handle_display cmd s = (Ok OutNone, set_watch_list (watch_list s ++ [obj])%list s) /\
     handle_undisplay cmd s = (Ok OutNone, set_watch_list (filter (fun o => o <> obj) (watch_list s)) s)) /\
  (forall cmd e, print_object cmd = Err e -> handle_display cmd s = (Err e, s) /\ handle_undisplay cmd s = (Err e, s) /\ print cmd s = (Err e, s)).
Proof.
  intros Hw. split_and!.
  - unfold handle_continue. destruct (continue_until_step fuel steps (dbg s)) as [[[[event n]|e|] d]|]; try done.
    f_equal. unfold collect_stop_output, collect_watch_results, bind, gets at 1. by rewrite (watch_loop_prints _ _ Hw).
  - intros cmd obj Ho. unfold handle_display, handle_undisplay. by rewrite Ho.
  - intros cmd e He. unfold handle_display, handle_undisplay. rewrite He. split_and!; try done.
    destruct cmd; cbn [print_object handle_print] in *; try done; unfold bind, lift_res.
    all: match type of He with res_map _ ?r = _ => destruct r eqn:E; cbn in He; try done; by injection He as -> end.
Qed.

(** Watching [s0] makes every run fail after it has run. *)
Theorem watching_s0_fails fuel steps s event n d : watch_list s = [ObjReg 8] ->
  continue_until_step fuel steps (dbg s) = Some (Ok (event, n), d) ->
  handle_continue (Single := Single) (Double := Double) decoder fuel steps s = Some (Err (InvalidRegister "s0/fp"), set_dbg d s).
Proof.
  intros Hw Hc. unfold handle_continue. rewrite Hc. unfold collect_stop_output, collect_watch_results, bind, gets. cbn [watch_list set_dbg].
  rewrite Hw. reflexivity.
Qed.
End Display.

(** ** Inspection *)

(** The hart is a part of the board. *)
Class BoardParts (B D X : Type) `{BoardTrait B D X} : Prop := {
  board_cpu_put c b : board_cpu (board_put_cpu c b) = c;
  board_put_put c c' b : board_put_cpu c (board_put_cpu c' b) = board_put_cpu c b;
  board_put_same b : board_put_cpu (board_cpu b) b = b
}.

Section Inspect.
Context {Single Double B D X : Type} `{SoftFloat Single} `{SoftFloat Double} `{DeviceTrait D} `{Profile} `{BoardParts B D X}
  `{HasFpu Single Double X} `{HasVector X}.
Context (decoder : Decoder) (read_symbols : string -> Res RvdbError SymTab).
Implicit Types (s : RvdbSession B) (c : RVCPU D X).

Definition session_cpu s : RVCPU D X := board_cpu (board (dbg s)).
Definition with_cpu c s : RvdbSession B := set_dbg (set_board (board_put_cpu c (board (dbg s))) (dbg s)) s.
(** [s] with a hart that was only looked at; when [quiet], the devices are
    unchanged. *)
Definition looked_at (quiet : bool) s0 s : Prop := exists c, inspected quiet (session_cpu s0) c /\ s = with_cpu c s0.

Lemma looked_refl q s : looked_at q s s.
Proof.
  exists (session_cpu s). split; [apply inspected_refl|]. unfold with_cpu, session_cpu. rewrite board_put_same. by destruct s as [[] ?].
Qed.

Lemma looks_cpu {E A} q s0 (m : M (RVCPU D X) E A) Q :
  triple (inspected q (session_cpu s0)) m Q -> triple (looked_at q s0) (on_dbg (on_board_cpu m)) Q.
Proof.
  intros Hm s (c & Hc & ->). unfold on_dbg, on_board_cpu, zoom. specialize (Hm c Hc).
  cbn [dbg with_cpu set_dbg set_board board]. rewrite board_cpu_put. destruct (m c) as [[a|e|] c']; [|exists c'; split; [done|]|done].
  - destruct Hm as [Hm Ha]. split; [|done]. exists c'. split; [done|]. unfold with_cpu. cbn. by rewrite board_put_put.
  - unfold with_cpu. cbn. by rewrite board_put_put.
Qed.

Lemma plain_triple {T E E' A} (I : T -> Prop) (m : M T E A) Q : triple I m Q -> triple I (plain (E' := E') m) Q.
Proof. intros Hm s Hs. specialize (Hm s Hs). unfold plain. by destruct (m s) as [[a|e|] s']. Qed.

Lemma looks_plain {E E' A} q s0 (m : M (RVCPU D X) E A) Q :
  triple (inspected q (session_cpu s0)) m Q -> triple (looked_at q s0) (on_dbg (plain (E' := E') (on_board_cpu m))) Q.
Proof.
  intros Hm s Hs. pose proof (looks_cpu q s0 m Q Hm s Hs) as Hl. unfold on_dbg, plain, on_board_cpu, zoom in *.
  by destruct (m _) as [[a|e|] c'].
Qed.

Lemma reads_looks {E A} q c0 (m : M (RVCPU D X) E A) : reads m -> triple (inspected q c0) m (fun _ => True).
Proof. apply reads_triple. Qed.

Lemma read_instr_looks c0 a : triple (inspected false c0) (read_instr a) (fun _ => True).
Proof.
  unfold read_instr. eapply triple_bind; [apply debug_fetch_inspects|]. intros lo _. case_match; [by apply triple_ret|].
  eapply triple_bind; [apply debug_fetch_inspects|]. intros hi _. by apply triple_ret.
Qed.

Lemma read_memory_looks c0 t a : triple (inspected false c0) (read_memory t a) (fun _ => True).
Proof.
  apply on_memory_inspects. unfold debug_read. destruct a; [apply mmio_read_inspects|].
  eapply triple_bind; [apply triple_map_err, vm_translate_inspects|]. intros p _. apply mmio_read_inspects.
Qed.

Lemma fpu_load_reads {F E} `{SoftFloat F} `{APFloatOf Single Double F} i : reads (fpu_load (E := E) (F := F) i).
Proof. unfold fpu_load, fpu_reg. solve_reads. Qed.

Lemma read_float_looks q c0 i : triple (inspected q c0) (read_float_reg (Single := Single) (Double := Double) i) (fun _ => True).
Proof.
  assert (forall A (m : M (SoftFPU Single Double) Exception A), reads m -> reads (on_fpu (D := D) (X := X) m)) as Hon.
  { intros A m Hm c. unfold on_fpu, zoom. specialize (Hm (fpu_of (ext c))). destruct (m (fpu_of (ext c))) as [r f]. cbn in *. subst f.
    rewrite set_fpu_of. by destruct c. }
  apply reads_looks. unfold read_float_reg. apply reads_bind; [apply Hon, fpu_load_reads|]. intros a.
  apply reads_bind; [apply Hon, fpu_load_reads|]. intros b. apply reads_ret.
Qed.

Lemma read_vector_looks q c0 sz i : triple (inspected q c0) (read_vector_reg sz i) (fun _ => True).
Proof.
  apply reads_looks. unfold read_vector_reg. apply reads_bind; [apply reads_gets|]. intros v. apply reads_bind; [|intros; apply reads_ret].
  intros c. unfold ok. assert (reads (S := RVCPU D X) (read_as_type (vector_regfile v) (get_lmul (vlmul (config v))) i)) as Hr.
  { unfold read_as_type, group_offset, debug_assert. solve_reads. }
  specialize (Hr c). by destruct (read_as_type _ _ _ c) as [[]].
Qed.

Lemma csr_looks {A} q c0 (m : M CsrRegFile Exception A) : reads m -> triple (inspected q c0) (on_csr m) (fun _ => True).
Proof. intros Hm. by apply reads_looks, on_csr_reads. Qed.

Lemma translate_looks q c0 a access : triple (inspected q c0) (debug_translate a access) (fun _ => True).
Proof.
  unfold debug_translate. eapply triple_bind with (Q := fun p => forall check effect fault, p = Translated check effect fault -> effect = EffectNone).
  - intros c Hc. unfold zoom. pose proof (data_policy_reads (E := PageTableError) access false (csr c)) as Hr.
    destruct (resolve_data_policy access false (csr c)) as [r x] eqn:Er. cbn in Hr. subst x. assert (set_csr (csr c) c = c) as -> by by destruct c.
    destruct r as [p|e|]; [|done..]. split; [done|]. intros check effect fault ->. revert Er. unfold resolve_data_policy.
    intros (v & x & _ & Hk)%bind_Ok_inv. destruct v; [..|done].
    all: apply bind_Ok_inv in Hk as (mxr & y & _ & Hk); by destruct (_ && _); injection Hk.
  - intros p Hp. destruct p as [|check effect fault]; [by apply triple_ret|]. rewrite (Hp _ _ _ eq_refl). apply on_memory_inspects, vm_translate_inspects.
Qed.

(** ** The commands that only look *)
Definition only_looks (cmd : RvdbCommand) : bool :=
  match cmd with
  | CmdPrint _ | CmdTranslate _ _ | CmdList | CmdHistory _ | CmdFTrace (FtShow _ | FtStat) | CmdInfo _ | CmdQuit => true
  | _ => false
  end.

(** The commands that do not read memory or code. *)
Definition quiet_print (cmd : PrintCmd) : bool := match cmd with PrintMem _ _ _ => false | _ => true end.
Definition quiet (cmd : RvdbCommand) : bool :=
  match cmd with CmdPrint cmd => quiet_print cmd | CmdList => false | _ => true end.

Ltac look :=
  match goal with
  | |- triple _ (bind (on_dbg (on_board_cpu (ok _))) _) _ => eapply triple_bind; [apply looks_cpu, ok_triple|intros ? _]
  | |- triple _ (bind (on_dbg (on_board_cpu (plain _))) _) _ => eapply triple_bind; [apply looks_cpu, plain_triple|intros ? _]
  | |- triple _ (bind (lift_res _) _) _ => eapply triple_bind; [by apply (triple_lift_res _ _ (fun _ => True))|intros ? _]
  | |- triple _ (bind (unwrap _) _) _ => eapply triple_bind; [by apply (triple_unwrap _ _ (fun _ => True))|intros ? _]
  | |- triple _ (bind (gets _) _) _ => eapply triple_bind; [by apply (triple_gets _ _ (fun _ => True))|intros ? _]
  | |- triple _ (ret _) _ => by apply triple_ret
  | |- triple _ (gets _) _ => by apply triple_gets
  | |- triple _ (err _) _ => apply triple_err
  end.

Lemma decoded_looks q s0 raw : triple (looked_at q s0) (decoded_of decoder raw) (fun _ => True).
Proof.
  unfold decoded_of. destruct raw; [|by apply triple_ret]. unfold decoded_info.
  apply looks_plain, reads_looks, reads_unwrap.
Qed.

Lemma line_looks s0 a : triple (looked_at false s0) (instr_from_addr decoder a) (fun _ => True).
Proof. unfold instr_from_addr. look; [apply read_instr_looks|]. eapply triple_bind; [apply decoded_looks|]. intros d _. look. Qed.

Lemma read_bytes_looks s0 n : forall a, triple (looked_at false s0) (read_bytes n a) (fun _ => True).
Proof.
  induction n as [|n IH]; intros a; cbn [read_bytes]; [look|]. look; [apply read_memory_looks|].
  eapply triple_bind with (Q := fun _ => True).
  { apply reads_triple. unfold Address_add, add_chk. solve_reads. }
  intros next _. eapply triple_bind; [apply IH|]. intros rest _. look.
Qed.
Lemma read_regs_looks q s0 l : triple (looked_at q s0) (read_regs l) (fun _ => True).
Proof.
  induction l as [|i l IH]; cbn [read_regs]; [look|]. look. look; [apply reads_looks; unfold dbg_read_reg, reg_at; solve_reads|].
  eapply triple_bind; [apply IH|]. intros rest _. look.
Qed.
Lemma read_widths_looks q s0 l i : triple (looked_at q s0) (read_widths l i) (fun _ => True).
Proof.
  induction l as [|[sz p] l IH]; cbn [read_widths]; [look|]. look; [apply read_vector_looks|]. look.
  eapply triple_bind; [apply IH|]. intros rest _. look.
Qed.

Lemma print_looks s0 cmd : triple (looked_at (quiet_print cmd) s0) (handle_print (Single := Single) (Double := Double) cmd) (fun _ => True).
Proof.
  destruct cmd; cbn [handle_print quiet_print]; cbv zeta.
  - repeat look.
  - look. look. look; [apply reads_looks; unfold dbg_read_reg, reg_at; solve_reads|]. look.
  - eapply triple_bind; [apply read_regs_looks|]. intros l _. look.
  - look. eapply triple_bind; [apply read_bytes_looks|]. intros l _. look.
  - look. eapply triple_bind with (Q := fun _ => True); [|intros v _; look].
    unfold dbg_read_csr. apply looks_plain, csr_looks. unfold debug. apply reads_bind; [apply read_uncheck_reads|]. intros v. apply reads_ret.
  - look. look; [apply read_float_looks|]. repeat look.
  - look. eapply triple_bind; [apply read_widths_looks|]. intros l _. repeat look.
  - look; [apply csr_looks, privelege_level_reads|]. look.
Qed.

Lemma list_looks s0 n : forall a, triple (looked_at false s0) (list_lines decoder n a) (fun _ => True).
Proof.
  induction n as [|n IH]; intros a; cbn [list_lines]; [look|]. eapply triple_bind; [apply line_looks|]. intros l _.
  eapply triple_bind; [apply IH|]. intros rest _. look.
Qed.
Lemma history_looks q s0 l : triple (looked_at q s0) (history_lines decoder l) (fun _ => True).
Proof.
  induction l as [|[a raw] l IH]; cbn [history_lines]; [look|]. eapply triple_bind; [apply decoded_looks|]. intros d _. look.
  eapply triple_bind; [apply IH|]. intros rest _. look.
Qed.

(** C36: The commands that look at the machine do not change it.  Printing
    registers, memory and CSRs, listing code, the history, translation of an
    address and the information commands leave breakpoints, watch list, history,
    trace and symbols alone, and of the board only the hart may differ: in its
    TLB, and, for the two commands that read the bus (a memory dump and a code
    listing), in the devices whose registers they read.  Registers, CSRs, RAM
    with its reservation, the instruction cache and the page-table
    configuration are the same.  They need no fuel.  It is said of a command
    that returns, with a result or with an error; printing can also panic
    ([print_vreg_panics], [print_mem_overflows]), which ends the debugger. *)
Theorem looking_is_harmless fuel cmd s : only_looks cmd = true ->
  exists r s', handle_command (Single := Single) (Double := Double) decoder read_symbols fuel cmd s = Some (r, s') /\
    (r <> Panic -> looked_at (quiet cmd) s s').
Proof.
  intros Hc. assert (exists m, (forall t, handle_command (Single := Single) (Double := Double) decoder read_symbols fuel cmd t = Some (m t)) /\
    triple (looked_at (quiet cmd) s) m (fun _ => True)) as (m & Hm & Ht).
  { destruct cmd as [cmd| |addr access| | |count|cmd| | | | |cmd|]; try discriminate Hc; cbn [handle_command quiet].
    - eexists. split; [done|apply print_looks].
    - eexists. split; [done|]. unfold handle_translate, dbg_translate. look. eapply triple_bind; [apply triple_map_err, looks_cpu, translate_looks|]. intros p _. look.
    - eexists. split; [done|]. unfold handle_list. look. eapply triple_bind; [apply list_looks|]. intros l _. look.
    - eexists. split; [done|]. unfold handle_history. look. eapply triple_bind; [apply history_looks|]. intros l _. look.
    - eexists. split; [done|]. destruct cmd; try discriminate Hc; cbn [handle_ftrace]; look.
    - eexists. split; [done|]. destruct cmd; cbn [handle_info]; [look|]. look. case_match; look.
    - exists (ret OutExit). split; [done|]. look. }
  destruct (m s) as [r s'] eqn:Es. exists r, s'. rewrite Hm, Es. split; [done|]. intros Hr. by eapply triple_run; [exact Ht|apply looked_refl|exact Es|].
Qed.
End Inspect.

(** ** Scripts *)
Section Script.
Context {Single Double B D X : Type} `{SoftFloat Single} `{SoftFloat Double} `{DeviceTrait D} `{Profile} `{BoardTrait B D X}
  `{HasFpu Single Double X} `{HasVector X}.
Context (decoder : Decoder) (read_symbols : string -> Res RvdbError SymTab) (parse : string -> ClapError + RvdbCommand)
  (render : CommandOutput -> string) (error_text : RvdbError -> string).
Context {W E : Type} (write_output : string -> M W E unit).
Local Notation script := (run_script (Single := Single) (Double := Double) decoder read_symbols parse render error_text).

(** A script runs its lines in order: a script made of two parts is the first
    part and, unless that ended in an exit command or in an error of the writer,
    the second part from where the first one left the session.  A command that
    fails is reported and does not end the script. *)
Theorem scripts_compose fuel l1 l2 (s : RvdbSession B) (w : W) :
  script fuel write_output (l1 ++ l2)%list s w =
    match script fuel write_output l1 s w with
    | Some (Ok false, s', w') => script fuel write_output l2 s' w'
    | r => r
    end.
Proof.
  revert s w. induction l1 as [|line l1 IH]; intros s w; [done|]. cbn [run_script app]. cbv zeta.
  destruct (String.eqb (trim line) ""); [apply IH|].
  destruct (write_output (PROMPT ++ trim line ++ newline) w) as [[[]|e|] w1]; [|done..].
  destruct (execute_line _ _ _ _ _ _ s) as [[[r|e|] s1]|]; try done.
  - destruct (write_output (text r) w1) as [[[]|e|] w2]; [|done..]. destruct (exit r); [done|apply IH].
  - destruct (write_output ("Error: " ++ error_text e ++ newline) w1) as [[[]|e'|] w2]; [apply IH|done..].
Qed.
End Script.

(** ** The run of the browser's prompt *)
Section Chunks.
Context {B D X : Type} `{LawfulBoard B D X}.
Context (yielded : nat -> AsyncREPL (B := B) -> AsyncREPL (B := B)).
(** While the run yields, the other tasks only use the channel. *)
Context (yield_session : forall k a, session (yielded k a) = session a).

(** The run of the browser's prompt, cut into chunks of 100000 steps, keeps
    the contract of a run in one piece.  With a round per chunk it returns,
    whatever the other tasks do to the channel between the chunks: after the
    steps asked for, at a breakpoint or when the board halts, with the number of
    steps it had left, or early when it was cancelled, and then the request to
    cancel is used up.  The history has gained exactly the cycles of all
    chunks, bounded to the last 1024; breakpoints and symbols are
    untouched. *)
Theorem chunked_run_correct rounds fuel remain a : 0 <= remain < 2 ^ 64 -> CONTINUE_CHUNK <= STEP_BATCH_CYCLES * Z.of_nat fuel ->
  remain <= CONTINUE_CHUNK * Z.of_nat rounds -> (0 < rounds)%nat -> (length (history (dbg (session a))) <= MAX_HISTORY)%nat ->
  exists r a', run_continue_loop id rounds fuel yielded remain a = Some (r, a') /\
    forall o, r = Ok o ->
      let d := dbg (session a) in let d' := dbg (session a') in
      breakpoints d' = breakpoints d /\ symtab d' = symtab d /\
      exists ls stop, board_run (breakpoints d) (symtab d) ls stop (board d) (board d') /\
        history d' = last_n MAX_HISTORY (history d ++ (log_entry <$> ls)) /\
        match o with
        | None => stop = false /\ cancelled a' = false /\ Z.of_nat (length ls) <= remain
        | Some (event, rest) =>
            stop = bool_decide (event = BreakpointHit) /\ Z.of_nat (length ls) = remain - rest /\ 0 <= rest /\
            match event with
            | StepCompleted => rest = 0
            | BreakpointHit => stopped_at (breakpoints d) (board_cpu (board d'))
            | BoardHalted => board_status (board d') = Halt
            end
        end.
Proof.
  intros Hrem Hfuel. revert remain a Hrem. induction rounds as [|rounds IH]; intros remain a Hrem Hr Hpos Hl; [lia|]. cbn [run_continue_loop].
  destruct (cancelled a) eqn:Ec.
  { do 2 eexists. split; [done|]. intros o [= <-]. cbn. split_and!; [done..|]. exists [], false. cbn. rewrite app_nil_r, last_n_short by done.
    split_and!; [constructor|done..|lia]. }
  unfold id at 1. cbv zeta. cbn [session set_session]. set (current := Z.min remain CONTINUE_CHUNK).
  assert (0 <= current <= remain /\ current <= CONTINUE_CHUNK) as [Hcur Hcur'] by (unfold current, CONTINUE_CHUNK in *; lia).
  destruct (continue_contract current fuel (dbg (session a))) as (r & d' & -> & Hok); [lia|lia|done|].
  destruct r as [[event steps]|e|]; [|do 2 eexists; split; [done|by intros]..].
  destruct (Hok event steps eq_refl) as (Hs & Hb & Hy & (ls & Hbr & Hn & Hh & _) & Hev).
  unfold sub_chk. rewrite (proj2 (Z.ltb_ge remain steps)), andb_false_r by lia. unfold ret. rewrite wrap_small by (unfold uint; lia).
  destruct (negb (bool_decide (event = StepCompleted)) || (remain - steps =? 0)) eqn:Estop.
  { do 2 eexists. split; [done|]. intros o [= <-]. cbn. split_and!; [done..|]. exists ls, (bool_decide (event = BreakpointHit)). split_and!; [done..|lia|lia|].
    destruct event; [|done..]. rewrite bool_decide_true in Estop by done. cbn in Estop. lia. }
  apply orb_false_iff in Estop as [Ee Hne]. apply negb_false_iff, bool_decide_eq_true in Ee. subst event. cbn in Hev. rewrite Hev in Hn, Hs, Hne |- *.
  match goal with |- context [run_continue_loop id rounds fuel yielded (remain - current) (yielded rounds ?x)] => set (a1 := x) end.
  destruct (IH (remain - current) (yielded rounds a1)) as (r & a' & Hrun & Hres).
  - lia.
  - unfold current, CONTINUE_CHUNK in *. lia.
  - destruct rounds; [|lia]. unfold current, CONTINUE_CHUNK in *. lia.
  - rewrite yield_session. cbn. rewrite Hh, last_n_length. lia.
  - exists r, a'. split; [exact Hrun|]. intros o Ho. specialize (Hres o Ho). rewrite yield_session in Hres. cbn in Hres.
    destruct Hres as (Hb2 & Hy2 & ls2 & stop & Hbr2 & Hh2 & Hend). cbv zeta. split_and!; [congruence..|]. exists (ls ++ ls2)%list, stop.
    split; [eapply board_run_app; [exact Hbr|done|by rewrite Hb, Hy in Hbr2]|].
    rewrite fmap_app, app_assoc, <- last_n_app, <- Hh. split; [done|]. rewrite length_app.
    destruct o as [[event rest]|]; [|destruct Hend as (? & ? & ?); split_and!; [done..|lia]].
    destruct Hend as (He & Hn2 & Hle & Hfin). split_and!; [done|lia|done|]. by rewrite Hb in Hfin.
Qed.
End Chunks.

(** ** Boards *)
Section Boards.
Context {Dp D X : Type} `{Device.PlicDevice Dp} `{DeviceTrait D} `{Profile} `{ExtUnit D X} `{Clock.SortUnstable Clint.Callback} (decoder : Decoder).
Lemma virt_board_parts : BoardParts (VirtBoard Dp (RVCPU D X)) D X (H := virt_board decoder).
Proof. split; [done|done|]. by intros []. Qed.

(** The smallest board: a hart that runs for ever. *)
#[export] Instance hart_board : BoardTrait (RVCPU D X) D X := {|
  board_status _ := Running;
  board_cpu := id;
  board_put_cpu c _ := c;
  board_step_hooked := step_batch_with_hook decoder (H2 := debugger_hook decoder)
|}.
Lemma hart_board_parts : BoardParts (RVCPU D X) D X (H := hart_board).
Proof. by split. Qed.
#[export] Instance hart_board_lawful : LawfulBoard (RVCPU D X) D X (H2 := hart_board).
Proof.
  refine {| board_decoder := decoder; prepared := eq; finished := fun _ => eq |}.
  - intros c c0 ->. apply irq_fed_refl.
  - intros n c c' ->. apply same_arch_refl.
  - done.
  - intros n h c r h' c' Hn _ Hl E. apply debugged_batch_iff in E as (ls & Hr & Hls & Hc & Hle & Hall); [|done|done].
    exists ls, c, c'. split_and!; [done..|lia|intros Hs; rewrite Hc; auto].
Defined.
End Boards.

(** ** Witnesses: the program of [FullHart] under the debugger *)
#[local] Instance rvdb_bus : DeviceTrait Z := demo_device.
#[local] Instance rvdb_profile : Profile := Prelude.dev.
#[local] Instance rvdb_unit : ExtUnit Z (Units (Single := DemoS) (Double := DemoD)) := full_unit demo_name.
#[local] Instance rvdb_board : BoardTrait (RVCPU Z (Units (Single := DemoS) (Double := DemoD))) Z (Units (Single := DemoS) (Double := DemoD)) := hart_board full_decoder.

Definition demo_session (watch : list PrintObject) : RvdbSession (RVCPU Z (Units (Single := DemoS) (Double := DemoD))) :=
  Build_RvdbSession (snd (set_breakpoint (Virt 0x80000004) (Debugger_new demo_full None))) watch.
Definition no_symbols : string -> Res RvdbError SymTab := fun path => Err (SymbolFile path).

(** [display reg x10], [display freg f7] and [display csr fcsr], and a run to the
    breakpoint after the addition. *)
Lemma displayed_items_are_printed_witness :
  let s := demo_session [ObjReg 10; ObjFReg 7; ObjCSR 3] in
  exists line s', handle_continue (Single := DemoS) (Double := DemoD) full_decoder 1 100 s = Some (Ok (OutContinueDone line
    [OutReg "a0" 0; OutFReg "ft7" 0x40400000 0xFFFFFFFF40400000; OutCsr "fcsr" (Some 0)] BreakpointHit 1), s') /\
  handle_display (PrintReg " sp ") s = (Ok OutNone, set_watch_list [ObjReg 10; ObjFReg 7; ObjCSR 3; ObjReg 2] s).
Proof.
  intros s. destruct (displayed_items_are_printed (Single := DemoS) (Double := DemoD) full_decoder 1 100
    [PrintReg "x10"; PrintFReg "f7"; PrintCsr "fcsr"] s) as (Hc & Hd & _).
  - constructor; [by split|]. constructor; [by split|]. constructor; [by split|]. constructor.
  - eexists _, _. split; [|exact (proj1 (Hd (PrintReg " sp ") (ObjReg 2) eq_refl))]. rewrite Hc. vm_compute. reflexivity.
Defined.

Lemma looking_is_harmless_witness :
  let s := demo_session [] in
  exists r s', handle_command (Single := DemoS) (Double := DemoD) full_decoder no_symbols 0 (CmdPrint (PrintMem "0x80000000" 4 false)) s = Some (r, s') /\
    r = Ok (OutMem (Phys 0x80000000) [Some 0xD3; Some 0x03; Some 0x10; Some 0x00]) /\ looked_at false s s'.
Proof.
  intros s. destruct (looking_is_harmless (Single := DemoS) (Double := DemoD) (H4 := hart_board_parts full_decoder) full_decoder no_symbols 0
    (CmdPrint (PrintMem "0x80000000" 4 false)) s eq_refl) as (r & s' & E & Hl).
  assert (r = Ok (OutMem (Phys 0x80000000) [Some 0xD3; Some 0x03; Some 0x10; Some 0x00])) as Hr.
  { pose proof (f_equal (option_map fst) E) as E1. vm_compute in E1. injection E1 as E1. symmetry. exact E1. }
  exists r, s'. split; [exact E|]. split; [exact Hr|]. apply Hl. rewrite Hr. discriminate.
Defined.

(** Two steps asked for, and a breakpoint after the first. *)
Lemma chunked_run_correct_witness :
  let a := Build_AsyncREPL (demo_session []) false "" None in
  exists a' ls, run_continue_loop id 1 98 (fun _ a => a) 2 a = Some (Ok (Some (BreakpointHit, 1)), a') /\
    Z.of_nat (length ls) = 1 /\ history (dbg (session a')) = log_entry <$> ls.
Proof.
  intros a. destruct (chunked_run_correct (H3 := hart_board_lawful full_decoder) (fun _ a => a) (fun _ _ => eq_refl) 1 98 2 a) as (r & a' & E & Hr).
  - lia.
  - unfold CONTINUE_CHUNK, STEP_BATCH_CYCLES. lia.
  - unfold CONTINUE_CHUNK. lia.
  - lia.
  - cbn. lia.
  - assert (r = Ok (Some (BreakpointHit, 1))) as ->.
    { pose proof (f_equal (option_map fst) E) as E1. vm_compute in E1. injection E1 as E1. symmetry. exact E1. }
    destruct (Hr _ eq_refl) as (_ & _ & ls & stop & _ & Hh & _ & Hn & _). exists a', ls. split; [exact E|]. split; [lia|].
    rewrite Hh. cbn [history dbg session a demo_session snd set_breakpoint app]. apply last_n_short. rewrite length_fmap. unfold MAX_HISTORY. lia.
Defined.

(** ** What the commands get wrong *)

(** With register groups of two, printing an odd vector register stops the
    debugger. *)
Example print_vreg_panics :
  let c := demo_full in
  let c := Build_RVCPU (reg_file c) (pc c) (memory c) (csr c) (icache c) (icache_epoch c) (demo_vector E8 M2 true false 16, demo_numbers) (time_addr c) (pending_tval c) in
  let s := Build_RvdbSession (Debugger_new c None) [] in
  fst (handle_print (Single := DemoS) (Double := DemoD) (PrintVReg "v1") s) = Panic.
Proof. vm_compute. done. Qed.

(** The byte at the last address is read, and then the address overflows. *)
Example print_mem_overflows :
  fst (handle_print (Single := DemoS) (Double := DemoD) (PrintMem "0xffffffffffffffff" 1 false) (demo_session [])) = Panic.
Proof. vm_compute. done. Qed.

(** One step runs, whether two or ten were asked for: the stop is reported with the steps
    that were left. *)
Example stop_reports_remaining_steps :
  let shown (o : CommandOutput) := match o with OutContinueDone _ _ _ n => if n =? 1 then "1" else if n =? 9 then "9" else "" | _ => "" end in
  let run n := match run_continue_with_hook (Single := DemoS) (Double := DemoD) full_decoder shown id 1 98 (fun _ a => a) n
                       (Build_AsyncREPL (demo_session []) false "" None) with Some (_, a) => output a | None => "" end in
  run 2 = "1" /\ run 10 = "9".
Proof. vm_compute. done. Qed.
